(* ===== verification/_CoqProject ===== *)
-Q . S2P
Prelude.v
CString.v
Builtins.v
Util.v
Source.v
Renaming.v
Resolve.v
Lifting.v
LiftingFacts.v
LiftingCreate.v
Double.v
Pointer.v
Bytecode.v
Peephole.v
StackDiscipline.v
Applift.v
AppliftFacts.v
Semantics.v
Strictness.v
StrictnessFacts.v
Reorder.v
ReorderMeaning.v
Nonstrict.v
AppendOpt.v
Inlining.v
Sinking.v
Schemes.v
SchemeR.v
PeepholeFacts.v
Compile.v
CompileFacts.v
Emits.v
ProgramFacts.v
Image.v
ImageFacts.v
Chain.v
Arith.v
Memory.v
Globals.v
Sched.v
Arrays.v
Interpreter.v
Lists.v
Wp.v
SchedFacts.v
Typing.v
Boot.v
Flow.v
MacrosTyped.v
SchemesTyped.v
SchemeRTyped.v
Tidy.v
PeepholeTyped.v
PassesTyped.v
Blocks.v
ProgramTyped.v
Process.v
BackEnd.v
AppendOptFacts.v
MachineOk.v
Store.v
ArrayFacts.v
ListFacts.v
HeapFacts.v
WorldFacts.v
FrameFacts.v
Snap.v
FrameAlloc.v
Ops.v
OpsSimple.v
OpsReturn.v
OpsCall.v
BootFacts.v
OpsDo.v
Numbers.v
ListBifs.v
NumbersFacts.v
Safety.v
EndToEnd.v
