(* ===== verification/Prelude.v ===== *)
(** * nreduce: a verification development of the compiler and its support code

    nreduce (src/nreduce) compiles programs of a small lazy functional language
    to bytecode and runs them, possibly on several machines. A program is read
    into syntax trees, one per supercombinator; the passes of
    [source_process] (compiler/source.c) rewrite the trees in place; the
    bytecode compiler (compiler/bytecode.c) turns each of them into code for a
    stack machine; the runtime (runtime/) executes the code.

    ** Files: the compiler

    - [Prelude]: outcomes of C code ([Done], [Crash], [Timeout]), machine
      integers, generic list lemmas and tactics.
    - [CString], [Util]: C strings and network/util.c: growing arrays, stacks,
      escaping, times, command lines, addresses, the hash function.
    - [Builtins]: the table of built-in functions (runtime/builtins.c).
    - [Source]: trees ([snode]), supercombinators and the [source] record with
      the heap of supercombinators, the array [scombs] and the hash chains
      (compiler/source.h, source.c, super.c).
    - [Renaming] (renaming.c), [Resolve] (resolve.c): unique variable names and
      resolution of symbols.
    - [Lifting], [LiftingFacts], [LiftingCreate]: lambda lifting (lifting.c,
      [capture] and [create_scombs]).
    - [Applift], [AppliftFacts]: application lifting (lifting.c, [applift]).
    - [Semantics]: what a program means, as a lazy big-step evaluation with the
      built-ins as a parameter; the reference for the strictness analysis and
      for letrec reordering; and relations between programs that evaluation
      keeps.
    - [Strictness], [StrictnessFacts]: the analysis of strictness.c.
    - [Reorder], [ReorderMeaning]: letrec reordering (reorder.c).
    - [Nonstrict]: lifting of suspended arguments (lifting.c,
      [nonstrict_lift]).
    - [AppendOpt] (appendopt.c), [Inlining] (inlining.c), [Sinking] (sinking.c,
      on nodes in a store that know their parents and users): the passes
      between lambda lifting and application lifting.
    - [Process]: imports and the order of the passes ([source_process]).
      [BackEnd]: the last passes together. [AppendOptFacts]: append
      optimisation ends and leaves what they need.
    - [Double]: the parts of IEEE doubles the compiler looks at.
    - [Bytecode], [Peephole], [Compile]: compiler/bytecode.c: the stack
      information the compiler tracks, the schemes C, E, S and R, the peephole
      optimiser and the compilation of functions and programs.
    - [StackDiscipline], [Schemes], [SchemeR], [PeepholeFacts], [CompileFacts],
      [Emits], [ProgramFacts]: the facts about them, from the single macro to
      the whole of [compile_program].
    - [Image], [ImageFacts]: the bytecode file ([gen_bytecode] and its readers).
    - [Flow]: typed pieces of code and their composition. [MacrosTyped],
      [SchemesTyped], [SchemeRTyped]: every macro, then the schemes C and E, then
      R, emit typed code. [Tidy]: the neighbourhoods of instructions in what the
      schemes emit. [PeepholeTyped], [PassesTyped]: the optimiser's first pass
      and the later ones keep tidy code typed. [Blocks]: typed code laid out
      block after block. [ProgramTyped]: the whole of [compile_program].

    ** Files: the runtime

    - [Pointer], [Arith]: 64-bit values that are doubles or tagged addresses,
      and the arithmetic on them.
    - [Memory]: the [task], the monad its operations run in, heap objects,
      allocation, frames and write barriers (runtime/memory.c, runtime.h).
    - [Chain]: lists threaded through a store; [Sched]: run queue, wait queues,
      sparks and free frames (task.c, interpreter.c); [Globals]: the hash tables
      of objects other tasks know (task.c).
    - [Arrays], [Lists]: lists held in arrays (builtins.c).
    - [Interpreter]: one function per instruction and the main loop
      (interpreter.c); [Numbers], [ListBifs]: the built-in functions
      (builtins.c); [Boot]: the start of a task (task.c).
    - [Typing]: types for bytecode: what the code at an address relies on, and a
      checker. [Boot] ends with a sample program and its typing.
    - [Wp]: weakest preconditions of the monad; [MachineOk]: the invariant of a
      machine that runs typed code. [Store], [Snap], [FrameAlloc],
      [HeapFacts], [WorldFacts], [FrameFacts], [SchedFacts], [ArrayFacts],
      [ListFacts]: the operations of the runtime and the parts of the invariant.
      [Ops], [OpsSimple], [OpsReturn], [OpsCall], [OpsDo], [NumbersFacts]: one
      instruction or built-in after the other; [OpsReturn] also has the waking up
      of the frames that wait.
      [BootFacts], [Safety]: the start and the main loop.
    - [EndToEnd]: a source is compiled, loaded and run.

    A C pointer to a tree is the tree itself where the code owns it and never
    shares it; supercombinators, which the passes share and mutate, live in a
    heap indexed by [nat], and [src_scombs] lists the live ones. The runtime's
    objects and frames live in maps from addresses. A failed assertion, a null
    or dangling access and a call of [exit] are [Crash] in the compiler; in the
    runtime a call of [exit] with a message is [MExit] and the others [MCrash].
    A recursion or loop that is not structural takes fuel and is [Timeout]
    ([MLoop]) when it runs out.

    ** What is shown

    Each pass returns on the trees the previous ones produce, and establishes
    the form the next one needs: names are fresh and the body the same up to
    bound variables ([rename_variables_spec]); no symbol is unbound and all
    references are live ([resolve_program_closed]); no variable crosses an
    abstraction ([capture_fixpoint]) and no abstraction is left
    ([create_scombs_lifts]); calls have known heads and no excess of arguments
    ([applift_program]); letrecs are in the order of their references and mean
    what they meant ([reorder_program], [reorder_meaning]); suspended arguments
    are shallow ([nonstrict_program]). The strictness analysis reaches a
    fixpoint ([strictness_terminates]) and is sound: an argument it marks has a
    value whenever the call has one ([strictness_sound]). The compiler's own
    record of the stack is right ([expressions_compile]), its assertions hold,
    its code is closed under jumps ([supercombinator_compiles]) and stays so
    through the optimiser ([peephole_safe]); a whole program compiles
    ([program_compiles]) and is read back from its file as it was written
    ([image_roundtrip], [function_of_address]). The code is typed: the checker of
    [Typing], which stands for what the interpreter takes for granted, accepts
    it ([compiled_program_typed]), before the optimiser and after it
    ([optimised_code_typed]). This is so if no instruction leaves more on the
    stack than the largest stack size in the function table; the compiler does
    not check it, and the rule that drops POP lets the sizes come out too small.
    The passes from application lifting on, one after the other, take every
    lifted program to one the bytecode compiler translates
    ([back_end_runnable]). Append optimisation before them ends on every lifted
    program, though its rules are tried again until none applies, and what it
    leaves is such a program ([appendopt_program]).

    Typed code runs safely: a task starts in a state that satisfies the
    invariant ([boot_safe]), every instruction keeps it ([step_safe]) and so
    does the main loop ([interpret_safe]): it fails no assertion and accesses no
    memory it should not, up to the first interrupt. Both halves together:
    compiled programs that fit their stacks ([program_fits]) and use the
    built-ins on numbers and cells ([safe_bif]) run safely
    ([compiled_program_safe], and from lambda lifting on
    [lifted_program_safe]), on runs where EVAL does not meet a letrec variable
    that depends on itself, no number an operation gives is minus infinity and
    shift counts are from 0 to 31 ([numbers_along]): neither the compiler nor
    the runtime sees to these. Without the first condition there is
    [frame_overflow], without the last one [minus_infinity_crashes]. That an
    element of an array that is asked for is there is part of the invariant. No
    wake-up of a waiting frame is lost ([waiters_wake]). Strings become lists and back ([string_roundtrip]).

    Supporting structures keep their contracts: the table of supercombinators
    ([add_scomb_spec], [schash_rebuild_lookup]), arrays and stacks, escaping and
    the other round trips of util.c. Where the code fails its own purpose the
    failure is a theorem ([domkframe_cycle], [create_scombs_dangling],
    [inlining_self_call], [sink_letrecs_unbinds], [sink_letrecs_asserts],
    [append_version_overapplied], [frame_overflow]).

    For append optimisation, what goes wrong is a change of meaning: a program
    whose every call had a value has none ([append_version_overapplied]).

    Fuel: recursion over trees is given a multiple of the size of the tree and
    the theorems say which multiple is enough; the loops of the strictness
    analysis are bounded by the number of marks that can still be set, the
    passes of the optimiser by the length of the code, a chain of indirections
    by the number of objects.

    ** Not modelled

    The parser (input of flex and bison; [Process] takes it as a parameter),
    printing, the native code generator, sockets and threads, the bridges to
    libxml2 and Java, the graph reduction engine (another evaluator, for
    debugging). Of the runtime, the collections (the allocator asks for one by
    an interrupt, where the modelled loop ends) and the messages between tasks,
    which need the network layer. [back_end_runnable] starts after letrec
    sinking: sinking itself can take a variable out of scope, so nothing of the
    kind holds of it.

    ** Where the model is larger than the machine

    The stacks of names, mappings and arguments that the passes push to and pop
    from are lists without a limit; in the code the 16385th entry ends the
    process ([stack_capacity]). So what is shown of [rename_variables_r],
    [resolve_refs_r], [capture], [declare_scombs], [create_lambda], [find_vars],
    [reorder_letrecs_r], [Cletrec] and the schemes is of programs nested less
    deeply. The same holds of the C stack their recursion takes, and of memory in
    the compiler. Lengths of strings that the code keeps in an [int] ([hash],
    [escape]) do not overflow here, the strings given to the runtime have no zero
    byte ([string_to_array]), an empty list of source files stands for a null one
    as well ([compile_program]), and an instruction is appended without the read
    beyond a pointer variable that the code does ([add_instruction]). *)

From Stdlib Require Export Ascii ZArith Lia.
From stdpp Require Export base tactics numbers strings pretty gmap option.
From stdpp Require Export list.

#[export] Set Default Goal Selector "!".

(** ** Outcomes of C code

    [Done a] is a normal return, [Crash] stands for a failed [assert], a call
    of [abort]/[exit]/[fatal] or an access the C standard leaves undefined,
    and [Timeout] for a loop or recursion that used up the fuel of the model. *)
Inductive outcome (A : Type) : Type :=
| Done (a : A)
| Crash
| Timeout.
Arguments Done {A} a.
Arguments Crash {A}.
Arguments Timeout {A}.

#[export] Instance outcome_ret : MRet outcome := fun A a => Done a.
#[export] Instance outcome_bind : MBind outcome := fun A B f m =>
  match m with
  | Done a => f a
  | Crash => Crash
  | Timeout => Timeout
  end.
#[export] Instance outcome_fmap : FMap outcome := fun A B f m =>
  match m with
  | Done a => Done (f a)
  | Crash => Crash
  | Timeout => Timeout
  end.

(** An [assert] of the source. *)
Definition cassert (b : bool) : outcome unit := if b then Done tt else Crash.

(** A pointer dereference or array access that may be out of range. *)
Definition deref {A} (o : option A) : outcome A :=
  match o with Some a => Done a | None => Crash end.

Lemma cassert_true (b : bool) : b = true -> cassert b = Done tt.
Proof. by intros ->. Qed.

Lemma bind_Done_inv {A B} (m : outcome A) (f : A -> outcome B) b :
  m ≫= f = Done b -> exists a, m = Done a /\ f a = Done b.
Proof. destruct m; cbn; [eauto | done | done]. Qed.

Lemma deref_Done {A} (o : option A) a : deref o = Done a <-> o = Some a.
Proof. destruct o; cbn; split; congruence. Qed.

Lemma cassert_Done (b : bool) u : cassert b = Done u -> b = true.
Proof. by destruct b. Qed.

(** [odestruct H] splits a hypothesis [m ≫= f = Done b] into the results of
    its steps. *)
Ltac outcome_inv :=
  repeat match goal with
  | H : _ ≫= _ = Done _ |- _ =>
      let a := fresh "v" in let H1 := fresh "Hm" in
      apply bind_Done_inv in H as (a & H1 & H)
  | H : mret _ = Done _ |- _ => injection H as H
  | H : Done _ = Done _ |- _ => injection H as H
  | H : cassert _ = Done _ |- _ => apply cassert_Done in H
  | H : deref _ = Done _ |- _ => apply deref_Done in H
  | H : Crash = Done _ |- _ => discriminate H
  | H : Timeout = Done _ |- _ => discriminate H
  end.

(** ** Machine integers

    [int] is 32-bit two's complement; signed overflow is undefined in C, so an
    operation that leaves the range is a [Crash]. *)
Definition INT_MAX : Z := 2147483647.
Definition INT_MIN : Z := -2147483648.

Definition in_int (z : Z) : bool := (INT_MIN <=? z)%Z && (z <=? INT_MAX)%Z.
Definition cint (z : Z) : outcome Z := if in_int z then Done z else Crash.

Lemma in_int_spec z : in_int z = true <-> (INT_MIN <= z <= INT_MAX)%Z.
Proof. unfold in_int. rewrite andb_true_iff, !Z.leb_le. lia. Qed.

Lemma cint_Done z : (INT_MIN <= z <= INT_MAX)%Z -> cint z = Done z.
Proof. intros H. unfold cint. by rewrite (proj2 (in_int_spec z) H). Qed.

Lemma cint_inv z z' : cint z = Done z' -> z' = z /\ (INT_MIN <= z <= INT_MAX)%Z.
Proof.
  unfold cint. destruct (in_int z) eqn:E; [|done].
  intros [= <-]. split; [done|]. by apply in_int_spec.
Qed.

(** Conversion to a 32-bit value on assignment, in two's complement. *)
Definition wrap32 (z : Z) : Z := ((z + 2147483648) mod 4294967296 - 2147483648)%Z.

Lemma wrap32_id z : (INT_MIN <= z <= INT_MAX)%Z -> wrap32 z = z.
Proof.
  unfold wrap32, INT_MIN, INT_MAX. intros H. rewrite Z.mod_small; lia.
Qed.

(** ** Loops over lists that thread a state

    [smap f s l] runs [f] on the elements of [l] from left to right, passing
    the state on, and collects the results: the shape of a C loop that walks a
    linked list and rewrites each element in place. *)
Section smap.
Context {S A B : Type} (f : S -> A -> S * B).
Fixpoint smap (s : S) (l : list A) : S * list B :=
    match l with
    | [] => (s, [])
    | a :: l =>
        let '(s1, b) := f s a in
        let '(s2, bs) := smap s1 l in
        (s2, b :: bs)
    end.
End smap.

(** The same loop when the body may crash or run out of fuel. *)
Section osmap.
Context {S A B : Type} (f : S -> A -> outcome (S * B)).
Fixpoint osmap (s : S) (l : list A) : outcome (S * list B) :=
    match l with
    | [] => Done (s, [])
    | a :: l =>
        '(s1, b) ← f s a;
        '(s2, bs) ← osmap s1 l;
        Done (s2, b :: bs)
    end.
End osmap.

Lemma smap_length {S A B} (f : S -> A -> S * B) l : forall s,
  length (smap f s l).2 = length l.
Proof.
  induction l as [|a l IH]; intros s; cbn; [done|].
  destruct (f s a) as [s1 b]. specialize (IH s1).
  destruct (smap f s1 l) as [s2 bs]. cbn in *. lia.
Qed.

(** ** Lists *)

Lemma elem_of_map {A B} (f : A -> B) l y : y ∈ map f l <-> exists x, y = f x /\ x ∈ l.
Proof. rewrite list_elem_of_In, in_map_iff. setoid_rewrite list_elem_of_In. naive_solver. Qed.

Lemma elem_of_rev {A} (l : list A) x : x ∈ rev l <-> x ∈ l.
Proof. rewrite !list_elem_of_In. symmetry. apply in_rev. Qed.

Lemma rev_reverse {A} (l : list A) : rev l = reverse l.
Proof. apply rev_alt. Qed.

Lemma NoDup_rev_iff {A} (l : list A) : NoDup (rev l) <-> NoDup l.
Proof. by rewrite <- Permutation_rev. Qed.

Lemma elem_of_concat {A} (ls : list (list A)) x : x ∈ concat ls <-> exists l, l ∈ ls /\ x ∈ l.
Proof. rewrite list_elem_of_In, in_concat. setoid_rewrite list_elem_of_In. done. Qed.

Lemma Forall_id_map {A} (P : A -> Prop) l : Forall id (map P l) <-> forall x, x ∈ l -> P x.
Proof. rewrite Forall_forall. setoid_rewrite elem_of_map. naive_solver. Qed.

Lemma zip_with_map_l {A B C} (f : A -> B -> C) (g : C -> A) l : forall k,
  (forall a b, g (f a b) = a) -> length l = length k -> map g (zip_with f l k) = l.
Proof.
  induction l as [|a l IH]; intros [|b k] Hg Hl; cbn in *; try done.
  rewrite Hg, IH; [done | done | lia].
Qed.

Lemma zip_with_map_r {A B C} (f : A -> B -> C) (g : C -> B) l : forall k,
  (forall a b, g (f a b) = b) -> length l = length k -> map g (zip_with f l k) = k.
Proof.
  induction l as [|a l IH]; intros [|b k] Hg Hl; cbn in *; try done.
  rewrite Hg, IH; [done | done | lia].
Qed.

(** ** C strings *)

(** [strcmp(a,b) < 0], as unsigned bytes. *)
Definition strcmp (a b : string) : comparison := String.compare a b.

(** The characters [isspace] accepts in the C locale. *)
Definition isspace (c : ascii) : bool :=
  let n := N_of_ascii c in
  ((9 <=? n) && (n <=? 13) || (n =? 32))%N.

Definition isdigit (c : ascii) : bool :=
  let n := N_of_ascii c in ((48 <=? n) && (n <=? 57))%N.

(** Value of a [char], which is signed on the platforms of the build. *)
Definition schar (c : ascii) : Z :=
  let z := Z.of_N (N_of_ascii c) in if (z <? 128)%Z then z else (z - 256)%Z.

Lemma schar_range c : (-128 <= schar c <= 127)%Z.
Proof.
  unfold schar. pose proof (N_ascii_bounded c) as H.
  destruct (Z.ltb_spec (Z.of_N (N_of_ascii c)) 128); lia.
Qed.

(** [strstr(s,"t") != NULL]. *)
Fixpoint is_prefix (t s : string) : bool :=
  match t, s with
  | EmptyString, _ => true
  | String a t, String b s => Ascii.eqb a b && is_prefix t s
  | String _ _, EmptyString => false
  end.

Fixpoint strstr (s t : string) : bool :=
  is_prefix t s ||
  match s with
  | EmptyString => false
  | String _ s => strstr s t
  end.

Lemma string_app_cons c s t : String c s +:+ t = String c (s +:+ t).
Proof. reflexivity. Qed.

Lemma string_app_nil s : s +:+ "" = s.
Proof. induction s as [|c s IH]; [done|]. by rewrite string_app_cons, IH. Qed.

Lemma string_app_assoc s t u : (s +:+ t) +:+ u = s +:+ (t +:+ u).
Proof. induction s as [|c s IH]; [done|]. by rewrite !string_app_cons, IH. Qed.

(** ** Automation *)
Create HintDb nred.

Ltac split_and_all := repeat match goal with H : _ /\ _ |- _ => destruct H end.

(** Close a goal about the members of an empty list. *)
Ltac in_nil :=
  intros; exfalso; match goal with H : _ ∈ [] |- _ => by apply not_elem_of_nil in H end.

(** Destruct the innermost matched pair-valued call of the goal. *)
Ltac pair_case :=
  match goal with
  | |- context [let '(_, _) := ?e in _] =>
      let a := fresh "a" in let b := fresh "b" in let E := fresh "E" in
      destruct e as [a b] eqn:E
  end.
