(* ===== verification/CString.v ===== *)
(** * Decimal numbers in C strings

    The parts of the C library the sources use to print and read integers:
    [sprintf("%d")] is stdpp's [pretty], [strtol] and [atoi] are defined here,
    and the lemmas relate the two. *)

From S2P Require Import Prelude.
Local Open Scope Z_scope.

Definition digit_val (c : ascii) : Z := Z.of_N (N_of_ascii c) - 48.

(** The digits at the front of [s], accumulated onto [acc], and the rest. *)
Fixpoint read_digits (acc : Z) (s : string) : Z * string :=
  match s with
  | String c s' => if isdigit c then read_digits (acc * 10 + digit_val c) s' else (acc, s)
  | EmptyString => (acc, EmptyString)
  end.

Fixpoint skip_space (s : string) : string :=
  match s with
  | String c s' => if isspace c then skip_space s' else s
  | EmptyString => EmptyString
  end.

Definition starts_digit (s : string) : bool :=
  match s with String c _ => isdigit c | EmptyString => false end.

Definition LONG_MAX : Z := 9223372036854775807.
Definition LONG_MIN : Z := -9223372036854775808.

Definition clamp_long (z : Z) : Z := Z.max LONG_MIN (Z.min LONG_MAX z).

(** [strtol(s,&end,10)]: the value, clamped to [long], and what [end] points
    at. Without digits the value is 0 and [end] is the start of the string. *)
Definition strtol (s : string) : Z * string :=
  let s1 := skip_space s in
  let '(neg, s2) :=
    match s1 with
    | String c s' =>
        if Ascii.eqb c "-" then (true, s')
        else if Ascii.eqb c "+" then (false, s') else (false, s1)
    | EmptyString => (false, s1)
    end in
  if starts_digit s2 then
    let '(v, rest) := read_digits 0 s2 in
    (clamp_long (if neg then - v else v), rest)
  else (0, s).

(** [atoi(s)] = [(int)strtol(s,NULL,10)]. *)
Definition atoi (s : string) : Z := wrap32 (strtol s).1.

(** [strchr(s,c)]: the characters before the first [c] and those after it. *)
Fixpoint strchr (s : string) (c : ascii) : option (string * string) :=
  match s with
  | EmptyString => None
  | String d s' =>
      if Ascii.eqb d c then Some (EmptyString, s')
      else match strchr s' c with
           | Some (a, b) => Some (String d a, b)
           | None => None
           end
  end.

Fixpoint all_chars (f : ascii -> bool) (s : string) : bool :=
  match s with EmptyString => true | String c s => f c && all_chars f s end.

(** ** Lemmas *)

Lemma pretty_N_char_spec x : (x < 10)%N ->
  isdigit (pretty_N_char x) = true /\ digit_val (pretty_N_char x) = Z.of_N x.
Proof.
  intros H.
  assert (x = 0 \/ x = 1 \/ x = 2 \/ x = 3 \/ x = 4 \/ x = 5 \/ x = 6 \/ x = 7 \/ x = 8 \/ x = 9)%N
    as Hx by lia.
  repeat (destruct Hx as [->|Hx]; [done|]). by subst.
Qed.

Lemma read_digits_pretty_go x : forall s,
  read_digits 0 (pretty_N_go x s) = read_digits (Z.of_N x) s.
Proof.
  induction (N.lt_wf_0 x) as [x _ IH]; intros s.
  assert (x = 0 \/ 0 < x)%N as [->|Hx] by lia.
  { by rewrite pretty_N_go_0. }
  rewrite pretty_N_go_step by done.
  rewrite IH by (by apply N.div_lt). cbn [read_digits].
  destruct (pretty_N_char_spec (x `mod` 10)) as [-> ->]; [by apply N.mod_lt|].
  f_equal. pose proof (N.div_mod x 10). lia.
Qed.

Lemma pretty_go_digits x : forall s,
  all_chars isdigit s = true -> all_chars isdigit (pretty_N_go x s) = true.
Proof.
  induction (N.lt_wf_0 x) as [x _ IH]; intros s Hs.
  assert (x = 0 \/ 0 < x)%N as [->|Hx] by lia.
  { by rewrite pretty_N_go_0. }
  rewrite pretty_N_go_step by done. apply IH; [by apply N.div_lt|].
  cbn. by destruct (pretty_N_char_spec (x `mod` 10)) as [-> _]; [apply N.mod_lt|].
Qed.

Lemma pretty_go_starts x : forall s,
  (0 < x)%N -> starts_digit (pretty_N_go x s) = true.
Proof.
  induction (N.lt_wf_0 x) as [x _ IH]; intros s Hx.
  rewrite pretty_N_go_step by done.
  destruct (N.eq_0_gt_0_cases (x `div` 10)) as [Hz|Hp].
  - rewrite Hz, pretty_N_go_0. cbn.
    by destruct (pretty_N_char_spec (x `mod` 10)) as [-> _]; [apply N.mod_lt|].
  - by apply IH; [apply N.div_lt|].
Qed.

Lemma pretty_go_app x : forall s t, pretty_N_go x s +:+ t = pretty_N_go x (s +:+ t).
Proof.
  induction (N.lt_wf_0 x) as [x _ IH]; intros s t.
  assert (x = 0 \/ 0 < x)%N as [->|Hx] by lia.
  { by rewrite !pretty_N_go_0. }
  rewrite !(pretty_N_go_step x) by done. by rewrite IH by (by apply N.div_lt).
Qed.

Lemma pretty_N_digits (x : N) : all_chars isdigit (pretty x) = true.
Proof. unfold pretty, pretty_N. case_decide; [done|]. by apply pretty_go_digits. Qed.

Lemma pretty_N_starts (x : N) t : starts_digit (pretty x +:+ t) = true.
Proof.
  unfold pretty, pretty_N. case_decide; [done|].
  rewrite pretty_go_app. apply pretty_go_starts. lia.
Qed.

Lemma read_digits_pretty (x : N) t :
  read_digits 0 (pretty x +:+ t) = read_digits (Z.of_N x) t.
Proof.
  unfold pretty, pretty_N. case_decide as Hx; [by subst|].
  by rewrite pretty_go_app, read_digits_pretty_go.
Qed.

Lemma isdigit_not_space c : isdigit c = true -> isspace c = false.
Proof.
  unfold isdigit, isspace. rewrite andb_true_iff, !N.leb_le. intros [? ?].
  apply orb_false_iff. split; [apply andb_false_iff; right; apply N.leb_gt; lia|].
  apply N.eqb_neq. lia.
Qed.

Lemma isdigit_not_sign c : isdigit c = true ->
  Ascii.eqb c "-" = false /\ Ascii.eqb c "+" = false.
Proof.
  intros H. split; apply Ascii.eqb_neq; intros ->; done.
Qed.

(** A number that [sprintf("%d")] printed is read back by [strtol], which stops
    at the first character that is not a digit. *)
Lemma strtol_pretty (x : N) t :
  Z.of_N x <= LONG_MAX -> starts_digit t = false ->
  strtol (pretty x +:+ t) = (Z.of_N x, t).
Proof.
  intros Hx Ht. pose proof (pretty_N_starts x t) as Hs.
  pose proof (read_digits_pretty x t) as Hr. unfold strtol.
  destruct (pretty x +:+ t) as [|c s] eqn:E; [done|]. cbn in Hs.
  cbn [skip_space]. rewrite (isdigit_not_space c Hs).
  destruct (isdigit_not_sign c Hs) as [-> ->]. cbn [starts_digit]. rewrite Hs, Hr.
  assert (Ht' : read_digits (Z.of_N x) t = (Z.of_N x, t)).
  { destruct t as [|d t]; cbn in Ht |- *; [done | by rewrite Ht]. }
  rewrite Ht'. unfold clamp_long, LONG_MIN, LONG_MAX in *. f_equal. lia.
Qed.

Lemma atoi_pretty (x : N) : Z.of_N x <= INT_MAX -> atoi (pretty x) = Z.of_N x.
Proof.
  intros Hx. unfold atoi. rewrite <- (string_app_nil (pretty x)).
  rewrite strtol_pretty; [|unfold LONG_MAX, INT_MAX in *; lia | done].
  cbn. apply wrap32_id. unfold INT_MIN, INT_MAX in *. lia.
Qed.

Lemma strchr_app_not s t c :
  all_chars (fun d => negb (Ascii.eqb d c)) s = true ->
  strchr (s +:+ String c t) c = Some (s, t).
Proof.
  induction s as [|d s IH]; intros H.
  - change (strchr (String c t) c = Some ("", t)). cbn. by rewrite Ascii.eqb_refl.
  - rewrite string_app_cons. cbn in *. apply andb_true_iff in H as [Hd Hs]. destruct (Ascii.eqb d c); [done|].
    by rewrite IH.
Qed.
