(* ===== verification/Builtins.v ===== *)
(** * The table of built-in functions (src/nreduce/runtime/builtins.c, runtime.h)

    The compiler reads the table: the arity of a built-in, how many of its
    leading arguments are strict, whether its result is always evaluated and
    whether it is pure. *)

From S2P Require Import Prelude.

(** The function pointer [f] is only called by the run-time engines, so the
    record holds the other fields of the C struct. *)
Record builtin := Builtin {
  bi_name : string;
  bi_nargs : nat;
  bi_nstrict : nat;
  bi_reswhnf : bool;
  bi_restrue : bool;
  bi_pure : bool
}.

(** Indexes of the built-ins. *)
Definition B_ADD : nat := 0.
Definition B_SUBTRACT : nat := 1.
Definition B_MULTIPLY : nat := 2.
Definition B_DIVIDE : nat := 3.
Definition B_MOD : nat := 4.
Definition B_EQ : nat := 5.
Definition B_NE : nat := 6.
Definition B_LT : nat := 7.
Definition B_LE : nat := 8.
Definition B_GT : nat := 9.
Definition B_GE : nat := 10.
Definition B_BITSHL : nat := 11.
Definition B_BITSHR : nat := 12.
Definition B_BITAND : nat := 13.
Definition B_BITOR : nat := 14.
Definition B_BITXOR : nat := 15.
Definition B_BITNOT : nat := 16.
Definition B_SQRT : nat := 17.
Definition B_FLOOR : nat := 18.
Definition B_CEIL : nat := 19.
Definition B_NTOS : nat := 20.
Definition B_STON : nat := 21.
Definition B_IF : nat := 22.
Definition B_AND : nat := 23.
Definition B_OR : nat := 24.
Definition B_NOT : nat := 25.
Definition B_CONS : nat := 26.
Definition B_HEAD : nat := 27.
Definition B_TAIL : nat := 28.
Definition B_ARRAYSIZE : nat := 29.
Definition B_ARRAYSKIP : nat := 30.
Definition B_ARRAYITEM : nat := 31.
Definition B_ARRAYPREFIX : nat := 32.
Definition B_STRCMP1 : nat := 33.
Definition B_TESTSTRING : nat := 34.
Definition B_TESTARRAY : nat := 35.
Definition B_SEQ : nat := 36.
Definition B_PAR : nat := 37.
Definition B_PARHEAD : nat := 38.
Definition B_OPENFD : nat := 39.
Definition B_READCHUNK : nat := 40.
Definition B_READDIR1 : nat := 41.
Definition B_FEXISTS : nat := 42.
Definition B_FISDIR : nat := 43.
Definition B_OPENCON : nat := 44.
Definition B_READCON : nat := 45.
Definition B_STARTLISTEN : nat := 46.
Definition B_ACCEPT : nat := 47.
Definition B_NCHARS : nat := 48.
Definition B_PRINT : nat := 49.
Definition B_PRINTARRAY : nat := 50.
Definition B_PRINTEND : nat := 51.
Definition B_ERROR : nat := 52.
Definition B_GETOUTPUT : nat := 53.
Definition B_GENID : nat := 54.
Definition B_EXIT : nat := 55.
Definition B_ABS : nat := 56.
Definition B_JNEW : nat := 57.
Definition B_JCALL : nat := 58.
Definition B_ISCONS : nat := 59.
Definition B_CXSLT1 : nat := 60.
Definition B_CACHE : nat := 61.
Definition B_CONNPAIR : nat := 62.
Definition B_MKCONN : nat := 63.
Definition B_SPAWN : nat := 64.
Definition B_COMPILE : nat := 65.
Definition B_ISSPACE : nat := 66.
Definition B_LCONS : nat := 67.
Definition B_RESTRING : nat := 68.
Definition B_BUILDARRAY : nat := 69.
Definition B_PARSEXMLFILE : nat := 70.
Definition B_GENSTRING : nat := 71.
Definition NUM_BUILTINS : nat := 72.

Definition ALWAYS_VALUE : bool := true.
Definition MAYBE_UNEVAL : bool := false.
Definition ALWAYS_TRUE : bool := true.
Definition MAYBE_FALSE : bool := false.
Definition PURE : bool := true.
Definition IMPURE : bool := false.

Definition builtin_info : list builtin := [
  Builtin "+" 2 2 ALWAYS_VALUE ALWAYS_TRUE PURE;
  Builtin "-" 2 2 ALWAYS_VALUE ALWAYS_TRUE PURE;
  Builtin "*" 2 2 ALWAYS_VALUE ALWAYS_TRUE PURE;
  Builtin "/" 2 2 ALWAYS_VALUE ALWAYS_TRUE PURE;
  Builtin "%" 2 2 ALWAYS_VALUE ALWAYS_TRUE PURE;
  Builtin "==" 2 2 ALWAYS_VALUE MAYBE_FALSE PURE;
  Builtin "!=" 2 2 ALWAYS_VALUE MAYBE_FALSE PURE;
  Builtin "<" 2 2 ALWAYS_VALUE MAYBE_FALSE PURE;
  Builtin "<=" 2 2 ALWAYS_VALUE MAYBE_FALSE PURE;
  Builtin ">" 2 2 ALWAYS_VALUE MAYBE_FALSE PURE;
  Builtin ">=" 2 2 ALWAYS_VALUE MAYBE_FALSE PURE;
  Builtin "<<" 2 2 ALWAYS_VALUE ALWAYS_TRUE PURE;
  Builtin ">>" 2 2 ALWAYS_VALUE ALWAYS_TRUE PURE;
  Builtin "&" 2 2 ALWAYS_VALUE ALWAYS_TRUE PURE;
  Builtin "|" 2 2 ALWAYS_VALUE ALWAYS_TRUE PURE;
  Builtin "^" 2 2 ALWAYS_VALUE ALWAYS_TRUE PURE;
  Builtin "~" 1 1 ALWAYS_VALUE ALWAYS_TRUE PURE;
  Builtin "sqrt" 1 1 ALWAYS_VALUE ALWAYS_TRUE PURE;
  Builtin "floor" 1 1 ALWAYS_VALUE ALWAYS_TRUE PURE;
  Builtin "ceil" 1 1 ALWAYS_VALUE ALWAYS_TRUE PURE;
  Builtin "ntos" 1 1 ALWAYS_VALUE ALWAYS_TRUE PURE;
  Builtin "_ston" 1 1 ALWAYS_VALUE ALWAYS_TRUE PURE;
  Builtin "if" 3 1 MAYBE_UNEVAL MAYBE_FALSE PURE;
  Builtin "and" 2 2 ALWAYS_VALUE MAYBE_FALSE PURE;
  Builtin "or" 2 2 ALWAYS_VALUE MAYBE_FALSE PURE;
  Builtin "not" 1 1 ALWAYS_VALUE MAYBE_FALSE PURE;
  Builtin "cons" 2 0 ALWAYS_VALUE ALWAYS_TRUE PURE;
  Builtin "head" 1 1 MAYBE_UNEVAL MAYBE_FALSE PURE;
  Builtin "tail" 1 1 MAYBE_UNEVAL MAYBE_FALSE PURE;
  Builtin "arraysize" 1 1 MAYBE_UNEVAL ALWAYS_TRUE PURE;
  Builtin "arrayskip" 2 2 MAYBE_UNEVAL MAYBE_FALSE PURE;
  Builtin "arrayitem" 2 2 MAYBE_UNEVAL MAYBE_FALSE PURE;
  Builtin "arrayprefix" 3 2 MAYBE_UNEVAL MAYBE_FALSE PURE;
  Builtin "arraystrcmp" 2 2 ALWAYS_VALUE MAYBE_FALSE PURE;
  Builtin "teststring" 1 0 ALWAYS_VALUE ALWAYS_TRUE PURE;
  Builtin "testarray" 2 0 ALWAYS_VALUE ALWAYS_TRUE PURE;
  Builtin "seq" 2 1 MAYBE_UNEVAL MAYBE_FALSE IMPURE;
  Builtin "par" 2 0 MAYBE_UNEVAL MAYBE_FALSE IMPURE;
  Builtin "parhead" 2 1 MAYBE_UNEVAL MAYBE_FALSE IMPURE;
  Builtin "openfd" 1 1 MAYBE_UNEVAL MAYBE_FALSE IMPURE;
  Builtin "readchunk" 2 1 MAYBE_UNEVAL MAYBE_FALSE IMPURE;
  Builtin "_readdir" 1 1 MAYBE_UNEVAL MAYBE_FALSE IMPURE;
  Builtin "_exists" 1 1 ALWAYS_VALUE MAYBE_FALSE IMPURE;
  Builtin "_isdir" 1 1 ALWAYS_VALUE MAYBE_FALSE IMPURE;
  Builtin "_connect" 3 2 ALWAYS_VALUE MAYBE_FALSE IMPURE;
  Builtin "readcon" 2 1 ALWAYS_VALUE MAYBE_FALSE IMPURE;
  Builtin "_listen" 1 1 ALWAYS_VALUE MAYBE_FALSE IMPURE;
  Builtin "accept" 2 1 ALWAYS_VALUE MAYBE_FALSE IMPURE;
  Builtin "nchars" 1 1 ALWAYS_VALUE MAYBE_FALSE PURE;
  Builtin "print" 2 2 MAYBE_UNEVAL MAYBE_FALSE IMPURE;
  Builtin "printarray" 3 3 MAYBE_UNEVAL MAYBE_FALSE IMPURE;
  Builtin "printend" 1 1 MAYBE_UNEVAL MAYBE_FALSE IMPURE;
  Builtin "_error" 1 1 ALWAYS_VALUE MAYBE_FALSE IMPURE;
  Builtin "getoutput" 1 1 ALWAYS_VALUE MAYBE_FALSE IMPURE;
  Builtin "genid" 1 1 ALWAYS_VALUE ALWAYS_TRUE IMPURE;
  Builtin "exit" 1 1 ALWAYS_VALUE MAYBE_FALSE IMPURE;
  Builtin "abs" 1 1 ALWAYS_VALUE ALWAYS_TRUE PURE;
  Builtin "_jnew" 2 2 ALWAYS_VALUE MAYBE_FALSE IMPURE;
  Builtin "_jcall" 3 3 ALWAYS_VALUE MAYBE_FALSE IMPURE;
  Builtin "iscons" 1 1 ALWAYS_VALUE MAYBE_FALSE PURE;
  Builtin "_cxslt" 2 2 ALWAYS_VALUE MAYBE_FALSE PURE;
  Builtin "_cache" 2 1 ALWAYS_VALUE MAYBE_FALSE IMPURE;
  Builtin "connpair" 1 1 ALWAYS_VALUE MAYBE_FALSE IMPURE;
  Builtin "mkconn" 1 1 ALWAYS_VALUE MAYBE_FALSE IMPURE;
  Builtin "_spawn" 2 2 ALWAYS_VALUE MAYBE_FALSE IMPURE;
  Builtin "_compile" 2 2 ALWAYS_VALUE MAYBE_FALSE PURE;
  Builtin "isspace" 1 1 ALWAYS_VALUE MAYBE_FALSE PURE;
  Builtin "lcons" 2 0 ALWAYS_VALUE ALWAYS_TRUE PURE;
  Builtin "restring" 1 1 ALWAYS_VALUE MAYBE_FALSE PURE;
  Builtin "buildarray" 3 2 ALWAYS_VALUE MAYBE_FALSE PURE;
  Builtin "parsexmlfile" 1 1 ALWAYS_VALUE MAYBE_FALSE PURE;
  Builtin "genstring" 1 1 ALWAYS_VALUE MAYBE_FALSE PURE
].

(** The loop of [get_builtin]: the first row with the name, from row [i] on. *)
Fixpoint find_builtin (tab : list builtin) (i : nat) (name : string) : option nat :=
  match tab with
  | [] => None
  | b :: tab => if String.eqb name (bi_name b) then Some i else find_builtin tab (S i) name
  end.

(** [get_builtin(name)]; -1 is [None]. *)
Definition get_builtin (name : string) : option nat := find_builtin builtin_info 0 name.

Definition builtin_nargs (bif : nat) : outcome nat := b ← deref (builtin_info !! bif); Done (bi_nargs b).
Definition builtin_nstrict (bif : nat) : outcome nat := b ← deref (builtin_info !! bif); Done (bi_nstrict b).

(** ** Properties *)

Lemma find_builtin_Some tab name : forall i j,
  find_builtin tab i name = Some j ->
  exists k b, j = i + k /\ tab !! k = Some b /\ bi_name b = name.
Proof.
  induction tab as [|b tab IH]; intros i j H; cbn in H; [done|].
  destruct (String.eqb_spec name (bi_name b)) as [->|].
  - injection H as <-. exists 0, b. split; [lia | done].
  - destruct (IH _ _ H) as (k & b' & -> & Hk & Hn). exists (S k), b'. split; [lia | done].
Qed.

(** Every row of the table is found under its own name: the names are distinct
    and [get_builtin] is a left inverse of the name column, so a symbol that
    resolves to a built-in resolves to the only row with that name. *)
Theorem get_builtin_name i b :
  builtin_info !! i = Some b -> get_builtin (bi_name b) = Some i.
Proof.
  intros H. assert (Hall : forallb (fun i => match builtin_info !! i with
    | Some b => bool_decide (get_builtin (bi_name b) = Some i) | None => true end) (seq 0 72) = true)
    by (vm_compute; reflexivity).
  rewrite forallb_forall in Hall. assert (Hi : i < 72) by (apply lookup_lt_Some in H; exact H).
  specialize (Hall i). rewrite in_seq in Hall. specialize (Hall ltac:(lia)).
  rewrite H in Hall. by apply bool_decide_eq_true_1 in Hall.
Qed.

Lemma get_builtin_name_witness : get_builtin "cons" = Some B_CONS.
Proof. exact (get_builtin_name B_CONS (Builtin "cons" 2 0 ALWAYS_VALUE ALWAYS_TRUE PURE) eq_refl). Defined.

Lemma get_builtin_range name i : get_builtin name = Some i -> i < NUM_BUILTINS.
Proof.
  intros H. apply find_builtin_Some in H as (k & b & -> & Hk & _).
  apply lookup_lt_Some in Hk. exact Hk.
Qed.

Lemma builtin_nstrict_le i b : builtin_info !! i = Some b -> bi_nstrict b <= bi_nargs b.
Proof.
  intros H. assert (Hall : forallb (fun b => bi_nstrict b <=? bi_nargs b) builtin_info = true)
    by (vm_compute; reflexivity).
  rewrite forallb_forall in Hall. apply list_elem_of_lookup_2, list_elem_of_In, Hall in H.
  by apply Nat.leb_le.
Qed.
