(* ===== verification/Util.v ===== *)
(** * Utility layer (src/nreduce/network/util.c, util.h)

    Growable byte arrays, the pointer stack used by every compiler pass, linked
    lists, string escaping, the symbol hash, time arithmetic and command-line
    and address parsing. *)

From S2P Require Import Prelude CString.
Local Open Scope Z_scope.

(** ** Growable arrays

    [arr_data] is the whole allocation: [None] marks a byte [malloc] or
    [realloc] returned and nothing has written yet. *)
Module Arr.

Record array := Array {
  elemsize : Z;
  alloc : Z;
  nbytes : Z;
  data : list (option ascii)
}.

(** The bytes in use. *)
Definition contents (a : array) : list (option ascii) :=
  take (Z.to_nat (nbytes a)) (data a).

Definition valid (a : array) : Prop :=
  0 < elemsize a /\ 0 < alloc a <= INT_MAX /\ 0 <= nbytes a <= alloc a /\
  Z.of_nat (length (data a)) = alloc a.

(** [malloc(n)] / [realloc(p,n)]: fresh bytes are indeterminate. *)
Definition malloc (n : Z) : list (option ascii) := replicate (Z.to_nat n) None.
Definition realloc (d : list (option ascii)) (n : Z) : list (option ascii) :=
  take (Z.to_nat n) d ++ replicate (Z.to_nat n - length d) None.

Definition array_new (esize initroom : Z) : outcome array :=
  al ← (if 0 <? initroom then cint (esize * initroom) else Done 1024);
  Done (Array esize al 0 (malloc al)).

Definition array_equals (a b : array) : bool :=
  (elemsize a =? elemsize b) && (nbytes a =? nbytes b) &&
  bool_decide (contents a = contents b).

(** [while (nbytes+size > alloc) alloc *= 2]; every iteration doubles, so an
    [int] that starts above zero leaves its range within 31 of them. *)
Definition mkroom_fuel : nat := 40.
Fixpoint mkroom_loop (fuel : nat) (need al : Z) : outcome Z :=
  match fuel with
  | O => Timeout
  | S fuel => if need >? al then al' ← cint (al * 2); mkroom_loop fuel need al' else Done al
  end.

Definition array_mkroom (arr : array) (size : Z) : outcome array :=
  need ← cint (nbytes arr + size);
  if need >? alloc arr then
    al ← mkroom_loop mkroom_fuel need (alloc arr);
    Done (Array (elemsize arr) al (nbytes arr) (realloc (data arr) al))
  else Done arr.

(** [memmove(dst+pos, src, len)] on an allocation. *)
Definition memwrite (d : list (option ascii)) (pos : Z) (src : list (option ascii)) :
    outcome (list (option ascii)) :=
  cassert ((0 <=? pos) && (pos + Z.of_nat (length src) <=? Z.of_nat (length d)));;
  Done (take (Z.to_nat pos) d ++ src ++ drop (Z.to_nat pos + length src) d).

Definition array_append (arr : array) (bytes : list (option ascii)) : outcome array :=
  let size := Z.of_nat (length bytes) in
  arr ← array_mkroom arr size;
  d ← memwrite (data arr) (nbytes arr) bytes;
  Done (Array (elemsize arr) (alloc arr) (nbytes arr + size) d).

Definition array_remove_data (arr : array) (n : Z) : outcome array :=
  cassert (n <=? nbytes arr);;
  cassert (0 <=? n);;
  d ← memwrite (data arr) 0 (take (Z.to_nat (nbytes arr - n)) (drop (Z.to_nat n) (data arr)));
  Done (Array (elemsize arr) (alloc arr) (nbytes arr - n) d).

Definition array_remove_items (arr : array) (count : Z) : outcome array :=
  n ← cint (count * elemsize arr);
  array_remove_data arr n.

Definition array_count (arr : array) : outcome Z :=
  cassert (negb (elemsize arr =? 0));;
  Done (Z.quot (nbytes arr) (elemsize arr)).

(** [array_vprintf]: [s] is what [vsnprintf] would print in full. It reports
    the length of [s]; when that does not fit with its terminator, the buffer
    is doubled and the call repeated. *)
Fixpoint vprintf_loop (fuel : nat) (arr : array) (s : list (option ascii)) : outcome array :=
  match fuel with
  | O => Timeout
  | S fuel =>
      let r := Z.of_nat (length s) in
      if r >=? alloc arr - nbytes arr then
        al ← cint (alloc arr * 2);
        vprintf_loop fuel (Array (elemsize arr) al (nbytes arr) (realloc (data arr) al)) s
      else
        d ← memwrite (data arr) (nbytes arr) (s ++ [Some "000"%char]);
        Done (Array (elemsize arr) (alloc arr) (nbytes arr + r) d)
  end.

Definition array_vprintf (arr : array) (s : list (option ascii)) : outcome array :=
  cassert (1 =? elemsize arr);;
  vprintf_loop mkroom_fuel arr s.

(** *** Lemmas *)

Lemma contents_length a : valid a -> Z.of_nat (length (contents a)) = nbytes a.
Proof. intros (?&?&?&?). unfold contents. rewrite length_take. lia. Qed.

Lemma realloc_length d n : 0 <= n -> Z.of_nat (length (realloc d n)) = n.
Proof. intros. unfold realloc. rewrite length_app, length_take, length_replicate. lia. Qed.

Lemma realloc_prefix d n k :
  (k <= length d)%nat -> (k <= Z.to_nat n)%nat -> take k (realloc d n) = take k d.
Proof.
  intros. unfold realloc. rewrite take_app_le by (rewrite length_take; lia).
  rewrite take_take. f_equal. lia.
Qed.

Lemma mkroom_loop_done fuel : forall need al,
  0 < al <= INT_MAX -> need * 2 <= INT_MAX -> need <= al * 2 ^ Z.of_nat fuel ->
  exists al', mkroom_loop (S fuel) need al = Done al' /\ need <= al' /\ al <= al' <= INT_MAX.
Proof.
  induction fuel as [|fuel IH]; intros need al Hal Hneed Hpow; cbn [mkroom_loop].
  - change (Z.of_nat 0) with 0 in Hpow. rewrite Z.pow_0_r in Hpow.
    destruct (Z.gtb_spec need al); [lia|]. exists al. split; [done | lia].
  - destruct (Z.gtb_spec need al) as [Hlt|].
    + rewrite cint_Done by (unfold INT_MIN; lia). cbn [mbind outcome_bind].
      destruct (IH need (al * 2)) as (al' & E & ?); [lia | lia | |].
      * rewrite Nat2Z.inj_succ, Z.pow_succ_r in Hpow by lia. lia.
      * exists al'. split; [exact E | lia].
    + exists al. split; [done | lia].
Qed.

Lemma array_mkroom_spec arr size :
  valid arr -> 0 <= size -> (nbytes arr + size) * 2 <= INT_MAX ->
  exists arr', array_mkroom arr size = Done arr' /\ valid arr' /\
    contents arr' = contents arr /\ nbytes arr' = nbytes arr /\
    elemsize arr' = elemsize arr /\ nbytes arr + size <= alloc arr'.
Proof.
  intros (He & Ha & Hn & Hd) Hs Hmax. unfold array_mkroom.
  rewrite cint_Done by (unfold INT_MIN in *; lia). cbn [mbind outcome_bind].
  destruct (Z.gtb_spec (nbytes arr + size) (alloc arr)) as [Hgt|Hle].
  - destruct (mkroom_loop_done 39 (nbytes arr + size) (alloc arr)) as (al & E & Hal).
    { lia. } { lia. } { change (Z.of_nat 39) with 39. unfold INT_MAX in *. lia. }
    change mkroom_fuel with 40%nat. rewrite E. cbn [mbind outcome_bind]. eexists.
    split; [reflexivity|]. unfold valid, contents; cbn.
    rewrite realloc_length by lia. repeat split; try lia.
    apply realloc_prefix; lia.
  - exists arr. repeat split; try done; lia.
Qed.

Lemma memwrite_contents d pos src :
  0 <= pos -> pos + Z.of_nat (length src) <= Z.of_nat (length d) ->
  exists d', memwrite d pos src = Done d' /\ length d' = length d /\
    take (Z.to_nat (pos + Z.of_nat (length src))) d' = take (Z.to_nat pos) d ++ src.
Proof.
  intros Hp Hl. unfold memwrite.
  rewrite cassert_true by (rewrite andb_true_iff, !Z.leb_le; lia). cbn [mbind outcome_bind].
  eexists. split; [reflexivity|]. split.
  - rewrite !length_app, length_take, length_drop. lia.
  - rewrite app_assoc. rewrite take_app_le by (rewrite length_app, length_take; lia).
    apply take_ge. rewrite length_app, length_take. lia.
Qed.

(** Appending to a valid array whose new size stays below half the [int]
    range returns normally: the doubling loop ends, nothing is written outside
    the allocation, and the bytes in use become the old ones followed by the
    appended ones. *)
Theorem array_append_spec arr bytes :
  valid arr -> (nbytes arr + Z.of_nat (length bytes)) * 2 <= INT_MAX ->
  exists arr', array_append arr bytes = Done arr' /\ valid arr' /\
    contents arr' = contents arr ++ bytes /\ elemsize arr' = elemsize arr.
Proof.
  intros Hv Hmax. unfold array_append.
  destruct (array_mkroom_spec arr (Z.of_nat (length bytes))) as (a1 & E & Hv1 & Hc & Hn & He & Hal);
    [done | lia | done |].
  rewrite E. cbn [mbind outcome_bind]. destruct Hv1 as (He1 & Ha1 & Hn1 & Hd1).
  destruct (memwrite_contents (data a1) (nbytes a1) bytes) as (d & Ed & Hl & Ht); [lia | lia |].
  rewrite Ed. cbn [mbind outcome_bind]. eexists. split; [reflexivity|].
  unfold valid, contents in *; cbn. rewrite Ht, Hc. repeat split; try lia; done.
Qed.

Lemma array_append_spec_witness :
  exists arr', array_append (Array 1 1 0 [None]) [Some "a"%char; Some "b"%char] = Done arr' /\ valid arr' /\
    contents arr' = [Some "a"%char; Some "b"%char] /\ elemsize arr' = 1.
Proof. apply (array_append_spec (Array 1 1 0 [None]) [Some "a"%char; Some "b"%char]); vm_compute; intuition discriminate. Defined.

Lemma array_remove_data_spec arr n :
  valid arr -> 0 <= n <= nbytes arr ->
  exists arr', array_remove_data arr n = Done arr' /\ valid arr' /\
    contents arr' = drop (Z.to_nat n) (contents arr).
Proof.
  intros (He & Ha & Hn & Hd) Hr. unfold array_remove_data.
  rewrite !cassert_true by (rewrite Z.leb_le; lia). cbn [mbind outcome_bind].
  set (src := take (Z.to_nat (nbytes arr - n)) (drop (Z.to_nat n) (data arr))).
  assert (Hsrc : Z.of_nat (length src) = nbytes arr - n)
    by (unfold src; rewrite length_take, length_drop; lia).
  destruct (memwrite_contents (data arr) 0 src) as (d & Ed & Hl & Ht); [lia | lia |].
  rewrite Ed. cbn [mbind outcome_bind]. eexists. split; [reflexivity|].
  unfold valid, contents; cbn. rewrite Hsrc, Z.add_0_l in Ht. rewrite Ht. cbn.
  split; [repeat split; lia|]. unfold src.
  change (Z.to_nat 0) with 0%nat. cbn [take app].
  rewrite skipn_firstn_comm, Z2Nat.inj_sub by lia. done.
Qed.

(** What has been appended to an array can be taken off its front again:
    removing the first [n] bytes after an append leaves the rest. *)
Theorem array_append_remove arr bytes n :
  valid arr -> (nbytes arr + Z.of_nat (length bytes)) * 2 <= INT_MAX ->
  n = nbytes arr ->
  exists arr1 arr2, array_append arr bytes = Done arr1 /\
    array_remove_data arr1 n = Done arr2 /\ contents arr2 = bytes.
Proof.
  intros Hv Hmax ->.
  destruct (array_append_spec arr bytes) as (a1 & E1 & Hv1 & Hc1 & He1); [done | done |].
  pose proof (contents_length a1 Hv1) as Hlen. rewrite Hc1, length_app in Hlen.
  pose proof (contents_length arr Hv) as Hlen0. destruct (Hv) as (_ & _ & Hn & _).
  destruct (array_remove_data_spec a1 (nbytes arr)) as (a2 & E2 & Hv2 & Hc2); [done | lia |].
  exists a1, a2. split; [done|]. split; [done|].
  rewrite Hc2, Hc1, <- Hlen0, Nat2Z.id. by rewrite drop_app_length.
Qed.

Lemma array_append_remove_witness :
  exists arr1 arr2, array_append (Array 1 1 1 [Some "x"%char]) [Some "a"%char] = Done arr1 /\
    array_remove_data arr1 1 = Done arr2 /\ contents arr2 = [Some "a"%char].
Proof. apply (array_append_remove (Array 1 1 1 [Some "x"%char]) [Some "a"%char] 1); vm_compute; intuition discriminate. Defined.
End Arr.

(** ** Linked lists

    A [list *] is the Rocq list of its [data] fields; [NULL] is the empty
    list. The functions that take [list **] return the new list. *)
Section lists.
Context {A : Type}.

Definition list_append (l : list A) (x : A) : list A := l ++ [x].
Definition list_push (l : list A) (x : A) : list A := x :: l.
Definition list_pop (l : list A) : option A * list A :=
  match l with [] => (None, []) | x :: l => (Some x, l) end.
Definition list_copy (copy : option (A -> A)) (l : list A) : list A :=
  match copy with Some f => f <$> l | None => l end.

Fixpoint list_count (l : list A) : Z :=
  match l with [] => 0 | _ :: l => 1 + list_count l end.

(** [assert(l->next)] reads [l->next] and fails when it is [NULL]. *)
Fixpoint list_item_nat (l : list A) (item : nat) : outcome A :=
  match l, item with
  | [], _ => Crash
  | x :: _, O => Done x
  | _ :: [], S _ => Crash
  | _ :: l, S item => list_item_nat l item
  end.
Definition list_item (l : list A) (item : Z) : outcome A := list_item_nat l (Z.to_nat item).
End lists.

Definition list_contains_string (l : list string) (s : string) : bool :=
  existsb (String.eqb s) l.

Fixpoint list_remove_ptr (l : list nat) (p : nat) : outcome (list nat) :=
  match l with
  | [] => Crash
  | x :: l => if Nat.eqb x p then Done l else l' ← list_remove_ptr l p; Done (x :: l')
  end.

Lemma list_contains_string_true l s : list_contains_string l s = true <-> s ∈ l.
Proof.
  unfold list_contains_string. rewrite existsb_exists, list_elem_of_In.
  split.
  - intros (x & Hin & He). apply String.eqb_eq in He. by subst.
  - intros Hin. exists s. split; [done | apply String.eqb_refl].
Qed.

Lemma list_contains_string_false l s : list_contains_string l s = false <-> s ∉ l.
Proof. rewrite <- not_true_iff_false, list_contains_string_true. done. Qed.

(** ** The pointer stack

    [data] holds the live entries, bottom first; [count] is its length. *)
Module Stk.

Record stack (A : Type) := Stack { alloc : Z; limit : Z; data : list A }.
Arguments Stack {A} _ _ _.
Arguments alloc {A} _.
Arguments limit {A} _.
Arguments data {A} _.

Definition STACK_LIMIT : Z := 10240.

Definition count {A} (s : stack A) : Z := Z.of_nat (length (data s)).

Definition stack_new {A} : stack A := Stack 1 STACK_LIMIT [].

Definition stack_push {A} (s : stack A) (c : A) : outcome (stack A) :=
  al ← (if count s =? alloc s then
          if (0 <=? limit s) && (count s >=? limit s) then Crash
          else cint (alloc s * 2)
        else Done (alloc s));
  Done (Stack al (limit s) (data s ++ [c])).

Definition stack_pop {A} (s : stack A) : outcome (A * stack A) :=
  cassert (0 <? count s);;
  x ← deref (list.last (data s));
  Done (x, Stack (alloc s) (limit s) (take (length (data s) - 1) (data s))).

Fixpoint push_all {A} (s : stack A) (l : list A) : outcome (stack A) :=
  match l with
  | [] => Done s
  | x :: l => s ← stack_push s x; push_all s l
  end.

(** The sizes an allocation goes through. *)
Definition sized {A} (s : stack A) (k : nat) : Prop :=
  limit s = STACK_LIMIT /\ alloc s = 2 ^ Z.of_nat k /\ (k <= 14)%nat /\
  count s <= alloc s /\ (k = 0%nat \/ 2 ^ Z.of_nat k < 2 * count s).

Lemma stack_push_ok {A} (s : stack A) k x :
  sized s k -> count s < 16384 ->
  exists s' k', stack_push s x = Done s' /\ sized s' k' /\ data s' = data s ++ [x].
Proof.
  intros (Hl & Ha & Hk & Hc & Hlow) Hlt. unfold stack_push. rewrite Hl.
  assert (Hcount : forall al, count (Stack al STACK_LIMIT (data s ++ [x])) = count s + 1)
    by (intros; unfold count; cbn; rewrite length_app; cbn; lia).
  destruct (Z.eqb_spec (count s) (alloc s)) as [Heq|Hne].
  - assert (k <= 13)%nat.
    { destruct (decide (k = 14)%nat) as [->|]; [|lia].
      change (2 ^ Z.of_nat 14) with 16384 in Ha. lia. }
    assert (2 ^ Z.of_nat k <= 2 ^ 13) by (apply Z.pow_le_mono_r; lia).
    change (2 ^ 13) with 8192 in *.
    assert ((count s >=? STACK_LIMIT) = false) as -> by (unfold STACK_LIMIT; lia).
    rewrite andb_false_r, cint_Done by (unfold INT_MIN, INT_MAX; lia). cbn [mbind outcome_bind].
    eexists _, (S k). split; [reflexivity|]. split; [|done].
    unfold sized. rewrite Hcount. cbn [limit alloc].
    rewrite Nat2Z.inj_succ, Z.pow_succ_r by lia. repeat split; lia.
  - cbn [mbind outcome_bind]. eexists _, k. split; [reflexivity|]. split; [|done].
    unfold sized. rewrite Hcount. cbn [limit alloc]. repeat split; try lia.
Qed.

Lemma push_all_ok {A} (l : list A) : forall s k,
  sized s k -> count s + Z.of_nat (length l) <= 16384 ->
  exists s' k', push_all s l = Done s' /\ sized s' k' /\ data s' = data s ++ l.
Proof.
  induction l as [|x l IH]; intros s k Hs Hlen; cbn [push_all length] in *.
  - exists s, k. by rewrite app_nil_r.
  - destruct (stack_push_ok s k x) as (s1 & k1 & E & Hs1 & Hd1); [done | lia |].
    rewrite E. cbn [mbind outcome_bind].
    destruct (IH s1 k1) as (s2 & k2 & E2 & Hs2 & Hd2); [done | |].
    { unfold count in *. rewrite Hd1, length_app. cbn. lia. }
    exists s2, k2. split; [done|]. split; [done|]. by rewrite Hd2, Hd1, <- app_assoc.
Qed.

Lemma push_all_app {A} (l1 l2 : list A) : forall s,
  push_all s (l1 ++ l2) = (s' ← push_all s l1; push_all s' l2).
Proof.
  induction l1 as [|x l1 IH]; intros s; cbn; [done|].
  destruct (stack_push s x); cbn; [apply IH | done | done].
Qed.

Lemma stack_new_sized {A} : sized (@stack_new A) 0.
Proof. unfold sized, stack_new, count, STACK_LIMIT. cbn. lia. Qed.

(** C40. A new stack takes pushes up to 16384 entries and keeps them in order, and
    the push after that ends the program: the limit of 10240 is only looked
    at when the allocation is full, and the allocation doubles. *)
Theorem stack_capacity {A} (l : list A) (x : A) :
  Z.of_nat (length l) <= 16384 ->
  exists s, push_all stack_new l = Done s /\ data s = l /\
    (stack_push s x = Crash <-> Z.of_nat (length l) = 16384).
Proof.
  intros Hl. destruct (push_all_ok l stack_new 0) as (s & k & E & Hs & Hd).
  { apply stack_new_sized. } { unfold count; cbn. lia. }
  exists s. split; [done|]. split; [done|]. cbn in Hd.
  assert (Hcnt : count s = Z.of_nat (length l)) by (unfold count; by rewrite Hd).
  split; intros H.
  - destruct (decide (Z.of_nat (length l) = 16384)) as [|Hne]; [done|].
    destruct (stack_push_ok s k x Hs) as (s' & k' & E' & _); [lia|]. congruence.
  - destruct Hs as (Hlim & Ha & Hk & Hc & _).
    assert (alloc s <= 16384).
    { rewrite Ha. change 16384 with (2 ^ 14). apply Z.pow_le_mono_r; lia. }
    unfold stack_push. rewrite Hlim.
    replace (count s =? alloc s) with true by lia.
    replace (count s >=? STACK_LIMIT) with true by (unfold STACK_LIMIT; lia). done.
Qed.

Lemma stack_capacity_witness :
  exists s, push_all stack_new [1; 2; 3] = Done s /\ data s = [1; 2; 3] /\
    (stack_push s 4 = Crash <-> Z.of_nat (length [1; 2; 3]) = 16384).
Proof. apply (stack_capacity [1; 2; 3] 4). vm_compute. discriminate. Defined.

Lemma stack_pop_push {A} (s s' : stack A) x :
  stack_push s x = Done s' ->
  exists s'', stack_pop s' = Done (x, s'') /\ data s'' = data s.
Proof.
  intros H. unfold stack_push in H. outcome_inv. subst s'. unfold stack_pop, count. cbn [data].
  rewrite length_app. cbn [length]. rewrite cassert_true by (apply Z.ltb_lt; lia).
  cbn [mbind outcome_bind]. rewrite last_snoc. cbn [deref mbind outcome_bind].
  eexists. split; [reflexivity|]. cbn [data].
  replace (length (data s) + 1 - 1)%nat with (length (data s)) by lia.
  by rewrite take_app_length.
Qed.
End Stk.

(** ** Escaping *)
Module Esc.

Definition backslash : ascii := "092"%char.
Definition dquote : ascii := "034"%char.
Definition squote : ascii := "039"%char.
Definition BS : ascii := "008"%char.
Definition TAB : ascii := "009"%char.
Definition LF : ascii := "010"%char.
Definition FF : ascii := "012"%char.
Definition CR : ascii := "013"%char.

(** The [switch] of [unescape]; other letters produce nothing. *)
Definition unescape_char (c : ascii) : option ascii :=
  if Ascii.eqb c "b" then Some BS
  else if Ascii.eqb c "t" then Some TAB
  else if Ascii.eqb c "n" then Some LF
  else if Ascii.eqb c "f" then Some FF
  else if Ascii.eqb c "r" then Some CR
  else if Ascii.eqb c dquote then Some dquote
  else if Ascii.eqb c squote then Some squote
  else if Ascii.eqb c backslash then Some backslash
  else None.

(** A final backslash reads the terminator, produces nothing and ends the
    loop. *)
Fixpoint unescape (chars : string) : string :=
  match chars with
  | EmptyString => EmptyString
  | String c rest =>
      if Ascii.eqb c backslash then
        match rest with
        | EmptyString => EmptyString
        | String d rest =>
            match unescape_char d with
            | Some e => String e (unescape rest)
            | None => unescape rest
            end
        end
      else String c (unescape rest)
  end.

(** The [switch] of [escape]: the letter written after a backslash. *)
Definition escape_char (c : ascii) : option ascii :=
  if Ascii.eqb c BS then Some "b"%char
  else if Ascii.eqb c TAB then Some "t"%char
  else if Ascii.eqb c LF then Some "n"%char
  else if Ascii.eqb c FF then Some "f"%char
  else if Ascii.eqb c CR then Some "r"%char
  else if Ascii.eqb c dquote then Some dquote
  else if Ascii.eqb c squote then Some squote
  else if Ascii.eqb c backslash then Some backslash
  else None.

(** The sizes of the buffers are [int]s in the code: of strings shorter than
    2^30 bytes. *)
Fixpoint escape (chars : string) : string :=
  match chars with
  | EmptyString => EmptyString
  | String c rest =>
      match escape_char c with
      | Some e => String backslash (String e (escape rest))
      | None => String c (escape rest)
      end
  end.

Lemma unescape_escape_char c e : escape_char c = Some e -> unescape_char e = Some c.
Proof.
  unfold escape_char. intros H.
  repeat match type of H with
  | (if Ascii.eqb ?a ?b then _ else _) = _ => destruct (Ascii.eqb_spec a b) as [->|]
  end; injection H as <- || discriminate; reflexivity.
Qed.

Lemma escape_char_plain c : escape_char c = None -> Ascii.eqb c backslash = false.
Proof.
  unfold escape_char. intros H.
  destruct (Ascii.eqb c backslash) eqn:E; [|done].
  apply Ascii.eqb_eq in E as ->. discriminate H.
Qed.

(** C30. [unescape] undoes [escape] on every string, and both stay inside the
    buffers the C code allocates for them ([2*len] and [len] characters, as
    long as these are numbers an [int] can hold). *)
Theorem unescape_escape s :
  unescape (escape s) = s /\
  (String.length (escape s) <= 2 * String.length s)%nat /\
  (String.length (unescape s) <= String.length s)%nat.
Proof.
  split; [|split].
  - induction s as [|c s IH]; cbn [escape]; [done|].
    destruct (escape_char c) as [e|] eqn:E; cbn [unescape].
    + rewrite Ascii.eqb_refl, (unescape_escape_char _ _ E). by rewrite IH.
    + by rewrite (escape_char_plain _ E), IH.
  - induction s as [|c s IH]; cbn [escape]; [done|].
    destruct (escape_char c); cbn [String.length]; lia.
  - assert (H : forall n s, (String.length s <= n)%nat ->
                  (String.length (unescape s) <= String.length s)%nat).
    { induction n as [|n IH]; intros [|c s0] Hn; cbn [unescape String.length] in *; [lia..|].
      destruct (Ascii.eqb c backslash); [|cbn; specialize (IH s0); lia].
      destruct s0 as [|d s1]; cbn [String.length] in *; [lia|].
      specialize (IH s1). destruct (unescape_char d); cbn [String.length]; lia. }
    by apply (H (String.length s)).
Qed.
End Esc.

(** ** Hashing of names *)

Definition GLOBAL_HASH_SIZE : Z := 4096.

Fixpoint sum_chars (s : string) : Z :=
  match s with EmptyString => 0 | String c s => schar c + sum_chars s end.

(** [hash(name,strlen(name))]: the sum of the bytes as signed [char], reduced
    with C's truncating [%] and moved into range. The sum is of names short
    enough (some sixteen million bytes) for it to be an [int]. *)
Definition hash (s : string) : Z :=
  let h := Z.rem (sum_chars s) GLOBAL_HASH_SIZE in
  if 0 >? h then h + GLOBAL_HASH_SIZE else h.

(** The hash of any name is a valid index of the table, whatever the sign of
    its bytes, and it is their sum modulo the table size. *)
Theorem hash_range s : 0 <= hash s < GLOBAL_HASH_SIZE /\ hash s = sum_chars s mod GLOBAL_HASH_SIZE.
Proof.
  assert (Hr : 0 <= hash s < GLOBAL_HASH_SIZE).
  { unfold hash, GLOBAL_HASH_SIZE.
    pose proof (Z.rem_bound_abs (sum_chars s) 4096). 
    destruct (Z.gtb_spec 0 (Z.rem (sum_chars s) 4096)); lia. }
  split; [done|]. unfold hash in *. unfold GLOBAL_HASH_SIZE in *.
  pose proof (Z.quot_rem' (sum_chars s) 4096) as Hq.
  destruct (Z.gtb_spec 0 (Z.rem (sum_chars s) 4096)).
  - apply (Z.mod_unique _ _ (Z.quot (sum_chars s) 4096 - 1)); lia.
  - apply (Z.mod_unique _ _ (Z.quot (sum_chars s) 4096)); lia.
Qed.

(** ** Time *)
Module Tv.

Record timeval := Timeval { tv_sec : Z; tv_usec : Z }.

Definition normalized (t : timeval) : Prop := 0 <= tv_usec t < 1000000.

Definition timeval_diff (from to : timeval) : timeval :=
  let sec := tv_sec to - tv_sec from in
  let usec := tv_usec to - tv_usec from in
  if 0 >? usec then Timeval (sec - 1) (usec + 1000000) else Timeval sec usec.

Definition timeval_diffms (from to : timeval) : Z :=
  let diff := timeval_diff from to in
  wrap32 (tv_sec diff * 1000 + Z.quot (tv_usec diff) 1000).

Definition timeval_addms (t : timeval) (ms : Z) : timeval :=
  let sec := tv_sec t + Z.quot ms 1000 in
  let usec := tv_usec t + Z.rem ms 1000 * 1000 in
  if usec >=? 1000000 then Timeval (sec + 1) (usec - 1000000) else Timeval sec usec.

(** Adding a non-negative number of milliseconds to a normalized time gives a
    normalized time that [timeval_diffms] measures as exactly that many. *)
Theorem timeval_addms_diffms t ms :
  normalized t -> 0 <= ms <= INT_MAX ->
  normalized (timeval_addms t ms) /\ timeval_diffms t (timeval_addms t ms) = ms.
Proof.
  destruct t as [s u]. unfold normalized; cbn. intros Hu Hms.
  unfold timeval_diffms, timeval_addms, timeval_diff; cbn.
  rewrite Z.quot_div_nonneg, Z.rem_mod_nonneg by lia.
  pose proof (Z.div_mod ms 1000) as Hdm. pose proof (Z.mod_pos_bound ms 1000) as Hb.
  set (q := ms / 1000) in *. set (r := ms mod 1000) in *.
  assert (Hw : forall a b, 0 <= b -> a * 1000 + Z.quot b 1000 = ms -> wrap32 (a * 1000 + Z.quot b 1000) = ms).
  { intros a b _ ->. apply wrap32_id. unfold INT_MIN. lia. }
  assert (Hr : Z.quot (r * 1000) 1000 = r) by (apply Z.quot_mul; lia).
  destruct (Z.geb_spec (u + r * 1000) 1000000); cbn [tv_sec tv_usec].
  - split; [lia|].
    replace (u + r * 1000 - 1000000 - u) with (r * 1000 - 1000000) by lia.
    destruct (Z.gtb_spec 0 (r * 1000 - 1000000)); cbn [tv_sec tv_usec]; [|lia].
    replace (r * 1000 - 1000000 + 1000000) with (r * 1000) by lia.
    apply Hw; lia.
  - split; [lia|].
    replace (u + r * 1000 - u) with (r * 1000) by lia.
    destruct (Z.gtb_spec 0 (r * 1000)); cbn [tv_sec tv_usec]; [lia|].
    apply Hw; lia.
Qed.

Lemma timeval_addms_diffms_witness :
  normalized (timeval_addms (Timeval 10 999999) 1500) /\
  timeval_diffms (Timeval 10 999999) (timeval_addms (Timeval 10 999999) 1500) = 1500.
Proof. apply (timeval_addms_diffms (Timeval 10 999999) 1500); vm_compute; intuition discriminate. Defined.
End Tv.

(** ** Command lines *)
Module Cmd.

(** [(c > line) && !isspace(c[-1])], where [prev] is [c[-1]] if there is one. *)
Definition after_word (prev : option ascii) : bool :=
  match prev with Some c => negb (isspace c) | None => false end.

(** The first loop of [parse_cmdline] counts the arguments. *)
Fixpoint count_args (prev : option ascii) (c : string) : Z :=
  match c with
  | EmptyString => if after_word prev then 1 else 0
  | String x rest =>
      (if isspace x && after_word prev then 1 else 0) + count_args (Some x) rest
  end.

(** The second loop copies them; [cur] holds the characters from [start] up to
    the current position. *)
Fixpoint copy_args (prev : option ascii) (cur c : string) : list string :=
  match c with
  | EmptyString => if after_word prev then [cur] else []
  | String x rest =>
      let word := if isspace x && after_word prev then [cur] else [] in
      let cur := if isspace x then EmptyString else cur +:+ String x EmptyString in
      word ++ copy_args (Some x) cur rest
  end.

(** [argc], the size of the [argv] allocation, and the strings stored in it. *)
Definition parse_cmdline (line : string) : Z * list string :=
  (count_args None line, copy_args None EmptyString line).

(** Reference: the maximal runs of characters that are not spaces. *)
Fixpoint fields (cur : string) (s : string) : list string :=
  match s with
  | EmptyString => [cur]
  | String x rest =>
      if isspace x then cur :: fields EmptyString rest
      else fields (cur +:+ String x EmptyString) rest
  end.
Definition words (s : string) : list string :=
  filter (fun w => w <> EmptyString) (fields EmptyString s).

Lemma count_copy c : forall prev cur,
  count_args prev c = Z.of_nat (length (copy_args prev cur c)).
Proof.
  induction c as [|x c IH]; intros prev cur; cbn [count_args copy_args].
  - by destruct (after_word prev).
  - rewrite length_app, Nat2Z.inj_add, <- IH.
    by destruct (isspace x && after_word prev).
Qed.

Lemma snoc_not_empty s x : s +:+ String x EmptyString <> EmptyString.
Proof. by destruct s. Qed.

Lemma copy_words c : forall prev cur,
  (after_word prev = true <-> cur <> EmptyString) ->
  copy_args prev cur c = filter (fun w => w <> EmptyString) (fields cur c).
Proof.
  assert (Hkeep : forall prev (cur : string) rest,
    (after_word prev = true <-> cur <> EmptyString) ->
    (if after_word prev then [cur] else []) ++ rest =
    filter (fun w => w <> EmptyString) [cur] ++ rest).
  { intros prev cur rest Hp. f_equal. destruct (after_word prev).
    - rewrite filter_cons_True by (by apply Hp). done.
    - rewrite filter_cons_False; [done|]. intros Hne. apply Hp in Hne. done. }
  induction c as [|x c IH]; intros prev cur Hp; cbn [copy_args fields].
  - specialize (Hkeep prev cur [] Hp). by rewrite !app_nil_r in Hkeep.
  - destruct (isspace x) eqn:Ex; cbn [andb].
    + rewrite Hkeep by done. rewrite IH by (cbn; rewrite Ex; done).
      change (cur :: fields EmptyString c) with ([cur] ++ fields EmptyString c).
      by rewrite list.filter_app.
    + cbn [app]. apply IH. cbn. rewrite Ex. split; [intros _; apply snoc_not_empty | done].
Qed.

(** [parse_cmdline] stores exactly [argc] strings, so the loop that fills
    [argv] never leaves the allocation the counting loop sized, and they are
    the words of the line in order. *)
Theorem parse_cmdline_spec line :
  (parse_cmdline line).1 = Z.of_nat (length (parse_cmdline line).2) /\
  (parse_cmdline line).2 = words line.
Proof.
  split; [apply count_copy|]. cbn. apply copy_words. done.
Qed.
End Cmd.

(** [parse_address]: the return code and what is left in [*host] and
    [*port]. *)
Record parsed_address := ParsedAddress {
  pa_ret : Z; pa_host : option string; pa_port : option Z }.

Definition parse_address (address : string) : parsed_address :=
  match strchr address ":" with
  | None => ParsedAddress (-1) None None
  | Some (host, portstr) =>
      let '(v, end_) := strtol portstr in
      let port := wrap32 v in
      if String.eqb portstr EmptyString || negb (String.eqb end_ EmptyString)
      then ParsedAddress (-1) None (Some port)
      else ParsedAddress 0 (Some host) (Some port)
  end.

(** An address printed as [host:port] is parsed back. *)
Theorem parse_address_roundtrip host (port : N) :
  all_chars (fun d => negb (Ascii.eqb d ":")) host = true ->
  Z.of_N port <= INT_MAX ->
  parse_address (host +:+ ":" +:+ pretty port) =
    ParsedAddress 0 (Some host) (Some (Z.of_N port)).
Proof.
  intros Hh Hp. unfold parse_address.
  change (":" +:+ pretty port) with (String ":" (pretty port)).
  rewrite strchr_app_not by done.
  pose proof (strtol_pretty port "") as Hs. rewrite string_app_nil in Hs.
  rewrite Hs; [|unfold LONG_MAX, INT_MAX in *; lia | done].
  pose proof (pretty_N_starts port "") as Hst. rewrite string_app_nil in Hst.
  destruct (pretty port) as [|c s]; [done|]. cbn.
  rewrite wrap32_id; [done|]. unfold INT_MIN, INT_MAX in *. lia.
Qed.

Lemma parse_address_roundtrip_witness :
  parse_address ("localhost" +:+ ":" +:+ pretty 2000%N) = ParsedAddress 0 (Some "localhost") (Some 2000).
Proof. apply (parse_address_roundtrip "localhost" 2000); [reflexivity | vm_compute; discriminate]. Defined.
