(* ===== verification/Source.v ===== *)
(** * Source programs (src/nreduce/compiler/source.h, source.c, super.c, debug.c)

    The syntax tree of the compiler, the table of supercombinators with its
    hash chains, and the operations that create and look up supercombinators. *)

From S2P Require Import Prelude CString Builtins Util.

(** ** Syntax trees *)

Record sourceloc := Sourceloc { sl_fileno : Z; sl_lineno : Z }.
Definition nosl : sourceloc := Sourceloc (-1) (-1).

(** A [letrec] binding. Its [sc] and [users] fields are scratch data of one
    pass each and are modelled in those passes. *)
Record letrec_of (A : Type) := Letrec {
  lr_name : string;
  lr_value : A;
  lr_strict : bool
}.
Arguments Letrec {A} _ _ _.
Arguments lr_name {A} _.
Arguments lr_value {A} _.
Arguments lr_strict {A} _.

#[local] Set Warnings "-register-all,-clear-no-such-hyp".

(** [snode]: one constructor per node type, with the fields that type uses. A
    [double] literal is kept as its 64-bit pattern and a [scomb *] as the
    number of its allocation. *)
Inductive snode : Type :=
| SNODE_APPLICATION (sl : sourceloc) (strict : bool) (left right : snode)
| SNODE_LAMBDA (sl : sourceloc) (name : string) (body : snode)
| SNODE_BUILTIN (sl : sourceloc) (bif : nat)
| SNODE_SYMBOL (sl : sourceloc) (name : string)
| SNODE_LETREC (sl : sourceloc) (bindings : list (letrec_of snode)) (body : snode)
| SNODE_SCREF (sl : sourceloc) (sc : nat)
| SNODE_NIL (sl : sourceloc)
| SNODE_NUMBER (sl : sourceloc) (num : Z)
| SNODE_STRING (sl : sourceloc) (value : string).

Abbreviation letrec := (letrec_of snode).

Definition set_value (v : snode) (rec : letrec) : letrec :=
  Letrec (lr_name rec) v (lr_strict rec).
Definition set_name (n : string) (rec : letrec) : letrec :=
  Letrec n (lr_value rec) (lr_strict rec).

Definition node_sl (c : snode) : sourceloc :=
  match c with
  | SNODE_APPLICATION sl _ _ _ | SNODE_LAMBDA sl _ _ | SNODE_BUILTIN sl _
  | SNODE_SYMBOL sl _ | SNODE_LETREC sl _ _ | SNODE_SCREF sl _
  | SNODE_NIL sl | SNODE_NUMBER sl _ | SNODE_STRING sl _ => sl
  end.

(** Induction with hypotheses for the values of the bindings. *)
Section snode_ind.
Variable P : snode -> Prop.
Hypothesis Happ : forall sl st l r, P l -> P r -> P (SNODE_APPLICATION sl st l r).
Hypothesis Hlam : forall sl n b, P b -> P (SNODE_LAMBDA sl n b).
Hypothesis Hbif : forall sl b, P (SNODE_BUILTIN sl b).
Hypothesis Hsym : forall sl n, P (SNODE_SYMBOL sl n).
Hypothesis Hletrec : forall sl bs b,
  Forall (fun rec => P (lr_value rec)) bs -> P b -> P (SNODE_LETREC sl bs b).
Hypothesis Hscref : forall sl sc, P (SNODE_SCREF sl sc).
Hypothesis Hnil : forall sl, P (SNODE_NIL sl).
Hypothesis Hnum : forall sl n, P (SNODE_NUMBER sl n).
Hypothesis Hstr : forall sl s, P (SNODE_STRING sl s).

Fixpoint snode_ind' (c : snode) : P c :=
  match c with
  | SNODE_APPLICATION sl st l r => Happ sl st l r (snode_ind' l) (snode_ind' r)
  | SNODE_LAMBDA sl n b => Hlam sl n b (snode_ind' b)
  | SNODE_BUILTIN sl b => Hbif sl b
  | SNODE_SYMBOL sl n => Hsym sl n
  | SNODE_LETREC sl bs b =>
      Hletrec sl bs b
        ((fix go (bs : list letrec) : Forall (fun rec => P (lr_value rec)) bs :=
            match bs with
            | [] => Forall_nil_2 _
            | rec :: bs => Forall_cons_2 _ rec bs (snode_ind' (lr_value rec)) (go bs)
            end) bs)
        (snode_ind' b)
  | SNODE_SCREF sl sc => Hscref sl sc
  | SNODE_NIL sl => Hnil sl
  | SNODE_NUMBER sl n => Hnum sl n
  | SNODE_STRING sl s => Hstr sl s
  end.
End snode_ind.

(** Induction on a tree with the names used throughout the development. *)
Ltac snode_induction c :=
  induction c as [sl st l r IHl IHr|sl n b IHb|sl bif|sl n|sl bs b IHbs IHb|sl sc|sl|sl num|sl s]
    using snode_ind'.

(** Number of nodes and bindings, the measure of recursive passes. *)
Fixpoint snode_size (c : snode) : nat :=
  match c with
  | SNODE_APPLICATION _ _ l r => S (snode_size l + snode_size r)
  | SNODE_LAMBDA _ _ b => S (snode_size b)
  | SNODE_LETREC _ bs b =>
      S (sum_list_with (fun rec => S (snode_size (lr_value rec))) bs + snode_size b)
  | _ => 1
  end.

Lemma snode_size_pos c : 0 < snode_size c.
Proof. destruct c; cbn; lia. Qed.

Lemma letrec_value_size sl bs b (rec : letrec) : rec ∈ bs -> snode_size (lr_value rec) < snode_size (SNODE_LETREC sl bs b).
Proof.
  intros Hr. cbn.
  enough (S (snode_size (lr_value rec)) <= sum_list_with (fun rec => S (snode_size (lr_value rec))) bs) by lia.
  induction Hr as [|r rec bs Hr IH]; cbn in *; lia.
Qed.

(** Names bound somewhere in a tree, in the order the passes meet them. *)
Fixpoint binders (c : snode) : list string :=
  match c with
  | SNODE_APPLICATION _ _ l r => binders l ++ binders r
  | SNODE_LAMBDA _ n b => n :: binders b
  | SNODE_LETREC _ bs b =>
      map lr_name bs ++ concat (map (fun rec => binders (lr_value rec)) bs) ++ binders b
  | _ => []
  end.

(** [free_in x c]: the symbol [x] occurs in [c] outside the scope of a binder
    of that name. *)
Fixpoint free_in (x : string) (c : snode) : Prop :=
  match c with
  | SNODE_APPLICATION _ _ l r => free_in x l \/ free_in x r
  | SNODE_LAMBDA _ n b => x <> n /\ free_in x b
  | SNODE_SYMBOL _ n => x = n
  | SNODE_LETREC _ bs b =>
      (x ∉ map lr_name bs) /\
      (Exists id (map (fun rec => free_in x (lr_value rec)) bs) \/ free_in x b)
  | _ => False
  end.

(** [count_args] and the function at the bottom of an application spine. *)
Fixpoint count_args (c : snode) : nat :=
  match c with SNODE_APPLICATION _ _ l _ => S (count_args l) | _ => 0 end.
Fixpoint spine_head (c : snode) : snode :=
  match c with SNODE_APPLICATION _ _ l _ => spine_head l | _ => c end.

(** The arguments of an application spine, last one first: the order in which
    the code meets them while it follows the [left] links. *)
Fixpoint spine_args (c : snode) : list snode :=
  match c with SNODE_APPLICATION _ _ l r => r :: spine_args l | _ => [] end.

Definition get_arg (c : snode) (argno : Z) : outcome snode :=
  let argno := (Z.of_nat (count_args c) - argno - 1)%Z in
  cassert (0 <=? argno)%Z;;
  deref (spine_args c !! Z.to_nat argno).

(** ** Supercombinators *)

(** [nargs] is the length of [argnames]; [strictin] and [lazyin] are [None]
    while the C pointer is [NULL]. *)
Record scomb := Scomb {
  sc_name : string;
  sc_argnames : list string;
  sc_body : option snode;
  sc_index : nat;
  sc_strictin : option (list bool);
  sc_lazyin : option (list bool);
  sc_sl : sourceloc;
  sc_modname : option string;
  sc_nospark : bool;
  sc_doesappend : bool;
  sc_appendver : option nat;
  sc_caninline : bool
}.

Definition sc_nargs (sc : scomb) : nat := length (sc_argnames sc).

(** [heap] holds every supercombinator ever allocated; a pointer is an index
    into it. [scombs] is the array of the live ones, and [schash] the heads of
    the hash chains, each chain as the list of pointers its [hashnext] links
    visit. *)
Record source := Source {
  src_heap : list scomb;
  src_schash : gmap Z (list nat);
  src_varno : N;
  src_scombs : list nat;
  src_oldnames : list string;
  src_parsedfiles : list string;
  src_imports : list string;
  src_newimports : list string
}.

Definition set_heap h (s : source) := Source h (src_schash s) (src_varno s) (src_scombs s)
  (src_oldnames s) (src_parsedfiles s) (src_imports s) (src_newimports s).
Definition set_schash m (s : source) := Source (src_heap s) m (src_varno s) (src_scombs s)
  (src_oldnames s) (src_parsedfiles s) (src_imports s) (src_newimports s).
Definition set_scombs l (s : source) := Source (src_heap s) (src_schash s) (src_varno s) l
  (src_oldnames s) (src_parsedfiles s) (src_imports s) (src_newimports s).
Definition set_parsedfiles l (s : source) := Source (src_heap s) (src_schash s) (src_varno s)
  (src_scombs s) (src_oldnames s) l (src_imports s) (src_newimports s).
Definition set_imports i ni (s : source) := Source (src_heap s) (src_schash s) (src_varno s)
  (src_scombs s) (src_oldnames s) (src_parsedfiles s) i ni.
Definition set_vars n o (s : source) := Source (src_heap s) (src_schash s) n
  (src_scombs s) o (src_parsedfiles s) (src_imports s) (src_newimports s).

Definition set_body (b : snode) (sc : scomb) : scomb :=
  Scomb (sc_name sc) (sc_argnames sc) (Some b) (sc_index sc) (sc_strictin sc) (sc_lazyin sc)
    (sc_sl sc) (sc_modname sc) (sc_nospark sc) (sc_doesappend sc) (sc_appendver sc) (sc_caninline sc).
Definition set_argnames (a : list string) (sc : scomb) : scomb :=
  Scomb (sc_name sc) a (sc_body sc) (sc_index sc) (sc_strictin sc) (sc_lazyin sc)
    (sc_sl sc) (sc_modname sc) (sc_nospark sc) (sc_doesappend sc) (sc_appendver sc) (sc_caninline sc).
Definition set_strictin (st : option (list bool)) (lz : option (list bool)) (sc : scomb) : scomb :=
  Scomb (sc_name sc) (sc_argnames sc) (sc_body sc) (sc_index sc) st lz
    (sc_sl sc) (sc_modname sc) (sc_nospark sc) (sc_doesappend sc) (sc_appendver sc) (sc_caninline sc).
Definition set_sl (sl : sourceloc) (sc : scomb) : scomb :=
  Scomb (sc_name sc) (sc_argnames sc) (sc_body sc) (sc_index sc) (sc_strictin sc) (sc_lazyin sc)
    sl (sc_modname sc) (sc_nospark sc) (sc_doesappend sc) (sc_appendver sc) (sc_caninline sc).
Definition set_modname (m : option string) (sc : scomb) : scomb :=
  Scomb (sc_name sc) (sc_argnames sc) (sc_body sc) (sc_index sc) (sc_strictin sc) (sc_lazyin sc)
    (sc_sl sc) m (sc_nospark sc) (sc_doesappend sc) (sc_appendver sc) (sc_caninline sc).
Definition set_nospark (b : bool) (sc : scomb) : scomb :=
  Scomb (sc_name sc) (sc_argnames sc) (sc_body sc) (sc_index sc) (sc_strictin sc) (sc_lazyin sc)
    (sc_sl sc) (sc_modname sc) b (sc_doesappend sc) (sc_appendver sc) (sc_caninline sc).
Definition set_append (d : bool) (v : option nat) (sc : scomb) : scomb :=
  Scomb (sc_name sc) (sc_argnames sc) (sc_body sc) (sc_index sc) (sc_strictin sc) (sc_lazyin sc)
    (sc_sl sc) (sc_modname sc) (sc_nospark sc) d v (sc_caninline sc).
Definition set_caninline (b : bool) (sc : scomb) : scomb :=
  Scomb (sc_name sc) (sc_argnames sc) (sc_body sc) (sc_index sc) (sc_strictin sc) (sc_lazyin sc)
    (sc_sl sc) (sc_modname sc) (sc_nospark sc) (sc_doesappend sc) (sc_appendver sc) b.
Definition set_index_name (i : nat) (n : string) (sc : scomb) : scomb :=
  Scomb n (sc_argnames sc) (sc_body sc) i (sc_strictin sc) (sc_lazyin sc)
    (sc_sl sc) (sc_modname sc) (sc_nospark sc) (sc_doesappend sc) (sc_appendver sc) (sc_caninline sc).

(** Reading and updating the supercombinator a pointer refers to. *)
Definition getsc (src : source) (p : nat) : outcome scomb := deref (src_heap src !! p).
Definition upd (src : source) (p : nat) (f : scomb -> scomb) : source :=
  set_heap (alter f p (src_heap src)) src.

Definition get_scomb_index (src : source) (index : nat) : outcome nat :=
  deref (src_scombs src !! index).

(** [get_scomb]: walk the chain of the name's hash. *)
Fixpoint find_chain (heap : list scomb) (chain : list nat) (name : string) : option nat :=
  match chain with
  | [] => None
  | p :: chain =>
      match heap !! p with
      | Some sc => if String.eqb (sc_name sc) name then Some p else find_chain heap chain name
      | None => None
      end
  end.
Definition bucket (src : source) (h : Z) : list nat := default [] (src_schash src !! h).
Definition get_scomb (src : source) (name : string) : option nat :=
  find_chain (src_heap src) (bucket src (hash name)) name.

Fixpoint find_string (l : list string) (i : Z) (name : string) : Z :=
  match l with
  | [] => -1
  | x :: l => if String.eqb x name then i else find_string l (i + 1) name
  end%Z.
Definition get_scomb_var (sc : scomb) (name : string) : Z := find_string (sc_argnames sc) 0 name.

(** The candidate names of [add_scomb]: [name], [name#1], [name#2], ... *)
Definition numbered (name : string) (num : N) : string :=
  if (0 <? num)%N then name +:+ "#" +:+ pretty num else name.
Fixpoint fresh_name (fuel : nat) (src : source) (name : string) (num : N) : outcome string :=
  match fuel with
  | O => Timeout
  | S fuel =>
      let cand := numbered name num in
      match get_scomb src cand with
      | None => Done cand
      | Some _ => fresh_name fuel src name (num + 1)
      end
  end.

(** The part of a name before its first ['#']. *)
Definition base_name (name1 : string) : string :=
  match strchr name1 "#" with Some (a, _) => a | None => name1 end.

Definition new_scomb (name : string) (index : nat) : scomb :=
  Scomb name [] None index None None nosl None false false None false.

(** Entering a new supercombinator into the array and its hash chain. *)
Definition push_scomb (src : source) (name : string) : source :=
  let p := length (src_heap src) in
  let sc := new_scomb name (length (src_scombs src)) in
  let h := hash name in
  Source (src_heap src ++ [sc]) (<[h := p :: bucket src h]> (src_schash src))
    (src_varno src) (src_scombs src ++ [p]) (src_oldnames src) (src_parsedfiles src)
    (src_imports src) (src_newimports src).

(** [add_scomb(src,name1)] returns the new source and the pointer. The search
    needs at most one more candidate than there are supercombinators. *)
Definition add_scomb (src : source) (name1 : string) : outcome (source * nat) :=
  let name := base_name name1 in
  name ← fresh_name (S (length (src_scombs src))) src name 0;
  Done (push_scomb src name, length (src_heap src)).

(** [schash_rebuild]: clear the heads, then push every live supercombinator. *)
Fixpoint rebuild_loop (heap : list scomb) (ps : list nat) (m : gmap Z (list nat)) : gmap Z (list nat) :=
  match ps with
  | [] => m
  | p :: ps =>
      match heap !! p with
      | Some sc =>
          let h := hash (sc_name sc) in
          rebuild_loop heap ps (<[h := p :: default [] (m !! h)]> m)
      | None => m
      end
  end.
Definition schash_rebuild (src : source) : source :=
  set_schash (rebuild_loop (src_heap src) (src_scombs src) ∅) src.

(** [schash_check]: every chain holds names of its hash, and every live
    supercombinator is on the chain of its name. *)
Definition name_at (src : source) (p : nat) : option string := sc_name <$> src_heap src !! p.
Definition schash_check (src : source) : bool :=
  forallb (fun h : nat =>
     forallb (fun p => match name_at src p with
                       | Some n => Z.eqb (hash n) (Z.of_nat h) | None => false end)
       (bucket src (Z.of_nat h))) (seq 0 (Z.to_nat GLOBAL_HASH_SIZE)) &&
  forallb (fun p => match name_at src p with
                    | Some n => existsb (Nat.eqb p) (bucket src (hash n)) | None => false end)
    (src_scombs src).

(** ** Well-formed tables *)

Record wf_source (src : source) : Prop := {
  wf_valid : forall p, p ∈ src_scombs src -> is_Some (src_heap src !! p);
  wf_nodup : NoDup (src_scombs src);
  wf_names : forall p q n, p ∈ src_scombs src -> q ∈ src_scombs src ->
    name_at src p = Some n -> name_at src q = Some n -> p = q;
  wf_hash : forall h p, p ∈ bucket src h <->
    p ∈ src_scombs src /\ exists n, name_at src p = Some n /\ hash n = h
}.

Lemma name_at_Some src p n :
  name_at src p = Some n <-> exists sc, src_heap src !! p = Some sc /\ sc_name sc = n.
Proof. unfold name_at. rewrite fmap_Some. naive_solver. Qed.

Lemma find_chain_Some heap chain name p :
  find_chain heap chain name = Some p ->
  p ∈ chain /\ sc_name <$> heap !! p = Some name.
Proof.
  induction chain as [|q chain IH]; cbn; [done|].
  destruct (heap !! q) as [sc|] eqn:E; [|done].
  destruct (String.eqb_spec (sc_name sc) name) as [Hn|Hn].
  - intros [= ->]. split; [by left|]. by rewrite E; cbn; rewrite Hn.
  - intros H. destruct (IH H). split; [by right | done].
Qed.

Lemma find_chain_None heap chain name :
  (forall p, p ∈ chain -> is_Some (heap !! p)) ->
  find_chain heap chain name = None ->
  forall p, p ∈ chain -> sc_name <$> heap !! p <> Some name.
Proof.
  induction chain as [|q chain IH]; intros Hv H p Hp; [by apply not_elem_of_nil in Hp|].
  cbn in H. destruct (Hv q) as [sc E]; [by left|]. rewrite E in H.
  destruct (String.eqb_spec (sc_name sc) name) as [Hn|Hn]; [done|].
  apply elem_of_cons in Hp as [->|Hp].
  - rewrite E. cbn. congruence.
  - apply IH; [intros; apply Hv; by right | done | done].
Qed.

(** On a well-formed table the hash lookup finds exactly the live
    supercombinator with the name. *)
Lemma get_scomb_spec src name p :
  wf_source src ->
  get_scomb src name = Some p <-> p ∈ src_scombs src /\ name_at src p = Some name.
Proof.
  intros [Hv Hnd Hn Hh]. unfold get_scomb. split.
  - intros H. apply find_chain_Some in H as [Hin Hname].
    apply Hh in Hin as [? _]. done.
  - intros [Hin Hname].
    assert (Hb : p ∈ bucket src (hash name)) by (apply Hh; eauto).
    destruct (find_chain _ _ _) as [q|] eqn:E.
    + apply find_chain_Some in E as [Hq Hqn]. f_equal.
      apply Hh in Hq as [Hq _]. by eapply Hn.
    + exfalso. eapply find_chain_None in E; [done | | done].
      intros r Hr. apply Hh in Hr as [Hr _]. by apply Hv.
Qed.

Lemma get_scomb_None src name :
  wf_source src -> get_scomb src name = None ->
  forall p, p ∈ src_scombs src -> name_at src p <> Some name.
Proof.
  intros Hwf H p Hp Hn.
  assert (get_scomb src name = Some p) by (by apply get_scomb_spec). congruence.
Qed.

Lemma numbered_inj name a b : numbered name a = numbered name b -> a = b.
Proof.
  assert (Hne : forall n : N, name +:+ "#" +:+ pretty n <> name).
  { intros n' H. rewrite <- (string_app_nil name) in H at 2.
    apply String.app_inj in H. done. }
  unfold numbered.
  destruct (N.ltb_spec 0 a), (N.ltb_spec 0 b); intros H'; try lia.
  - apply String.app_inj in H'. change ("#" +:+ pretty a) with (String "#" (pretty a)) in H'.
    change ("#" +:+ pretty b) with (String "#" (pretty b)) in H'.
    injection H' as H'. by apply pretty_N_inj.
  - by apply Hne in H'.
  - symmetry in H'. by apply Hne in H'.
Qed.

Lemma fresh_name_timeout src name fuel : forall num,
  fresh_name fuel src name num = Timeout ->
  forall i, (N.of_nat i < N.of_nat fuel)%N ->
    is_Some (get_scomb src (numbered name (num + N.of_nat i))).
Proof.
  induction fuel as [|fuel IH]; intros num H i Hi; [lia|]. cbn in H.
  destruct (get_scomb src (numbered name num)) eqn:E; [|done].
  destruct i as [|i].
  - rewrite N.add_0_r. by rewrite E.
  - replace (num + N.of_nat (S i))%N with (num + 1 + N.of_nat i)%N by lia.
    apply IH; [done | lia].
Qed.

Lemma fresh_name_no_crash src name fuel : forall num, fresh_name fuel src name num <> Crash.
Proof.
  induction fuel as [|fuel IH]; intros num; cbn; [done|].
  destruct (get_scomb _ _); [apply IH | done].
Qed.

Lemma fresh_name_Done src name fuel : forall num cand,
  fresh_name fuel src name num = Done cand ->
  get_scomb src cand = None /\ exists k, cand = numbered name k.
Proof.
  induction fuel as [|fuel IH]; intros num cand H; cbn in H; [done|].
  destruct (get_scomb src (numbered name num)) eqn:E; [by eapply IH|].
  injection H as <-. eauto.
Qed.

(** Pigeonhole: the candidates are distinct and every used one is the name of
    a live supercombinator. *)
Lemma fresh_name_total src name num :
  wf_source src ->
  exists cand, fresh_name (S (length (src_scombs src))) src name num = Done cand.
Proof.
  intros Hwf. destruct (fresh_name _ _ _ _) as [cand| |] eqn:E; [eauto | |].
  { exfalso. by eapply fresh_name_no_crash. }
  exfalso. pose proof (fresh_name_timeout _ _ _ _ E) as Hall.
  set (n := S (length (src_scombs src))) in *.
  set (cands := (fun i : nat => numbered name (num + N.of_nat i)) <$> seq 0 n).
  assert (Hnd : NoDup cands).
  { apply NoDup_fmap_2; [|apply NoDup_seq]. intros i j Hij.
    apply numbered_inj in Hij. lia. }
  assert (Hsub : forall c, c ∈ cands -> c ∈ omap (name_at src) (src_scombs src)).
  { intros c Hc. apply list_elem_of_fmap in Hc as (i & -> & Hi).
    apply elem_of_seq in Hi. destruct (Hall i) as [p Hp]; [lia|].
    apply get_scomb_spec in Hp as [Hin Hn]; [|done].
    apply list_elem_of_omap. eauto. }
  assert (Hle : length cands <= length (omap (name_at src) (src_scombs src))).
  { apply submseteq_length, NoDup_submseteq; done. }
  assert (length (omap (name_at src) (src_scombs src)) <= length (src_scombs src)).
  { clear. induction (src_scombs src) as [|p l IH]; cbn; [done|].
    destruct (name_at src p); cbn; lia. }
  unfold cands in Hle. rewrite length_fmap, length_seq in Hle. lia.
Qed.

Lemma lookup_snoc_old {A} (l : list A) x p : p < length l -> (l ++ [x]) !! p = l !! p.
Proof. intros. by apply lookup_app_l. Qed.

Lemma lookup_snoc_new {A} (l : list A) x : (l ++ [x]) !! length l = Some x.
Proof. rewrite lookup_app_r by done. by rewrite Nat.sub_diag. Qed.

Section push.
Context (src : source) (name : string).
Hypothesis Hwf : wf_source src.
Hypothesis Hfresh : get_scomb src name = None.
Local Abbreviation src' := (push_scomb src name).
Local Abbreviation p := (length (src_heap src)).

Lemma live_lt q : q ∈ src_scombs src -> q < p.
Proof. intros Hq. destruct (wf_valid _ Hwf q Hq) as [s Hs]. by apply lookup_lt_Some in Hs. Qed.

Lemma push_name_old q : q ∈ src_scombs src -> name_at src' q = name_at src q.
Proof. intros Hq. unfold name_at; cbn. by rewrite lookup_snoc_old by (by apply live_lt). Qed.

Lemma push_name_new : name_at src' p = Some name.
Proof. unfold name_at; cbn. by rewrite lookup_snoc_new. Qed.

Lemma push_live q : q ∈ src_scombs src' <-> q ∈ src_scombs src \/ q = p.
Proof. cbn. by rewrite elem_of_app, list_elem_of_singleton. Qed.

Lemma push_name_old_ne q : q ∈ src_scombs src -> name_at src' q <> Some name.
Proof. intros Hq. rewrite push_name_old by done. by apply get_scomb_None. Qed.

Lemma push_bucket h q :
  q ∈ bucket src' h <-> q ∈ bucket src h \/ (q = p /\ h = hash name).
Proof.
  unfold bucket; cbn. rewrite lookup_insert. case_decide as Hd; cbn.
  - subst h. rewrite elem_of_cons. unfold bucket. naive_solver.
  - naive_solver.
Qed.

Lemma push_wf : wf_source src'.
Proof.
  constructor.
  - intros q Hq. apply push_live in Hq as [Hq| ->]; cbn.
    + rewrite lookup_snoc_old by (by apply live_lt). by apply (wf_valid _ Hwf).
    + rewrite lookup_snoc_new. eauto.
  - cbn. apply list.NoDup_app. split; [apply (wf_nodup _ Hwf)|]. split; [|apply NoDup_singleton].
    intros x Hx Hx'. apply list_elem_of_singleton in Hx' as ->. apply live_lt in Hx. lia.
  - intros a b n Ha Hb Hna Hnb.
    apply push_live in Ha as [Ha| ->]; apply push_live in Hb as [Hb| ->]; [ | | |done].
    + rewrite push_name_old in Hna, Hnb by done. by eapply (wf_names _ Hwf).
    + rewrite push_name_new in Hnb. injection Hnb as <-. by apply push_name_old_ne in Hna.
    + rewrite push_name_new in Hna. injection Hna as <-. by apply push_name_old_ne in Hnb.
  - intros h q. rewrite push_bucket, push_live, (wf_hash _ Hwf). split.
    + intros [[Hq Hn]|[-> ->]]; [|split; [by right|]; eauto using push_name_new].
      split; [by left|]. by rewrite push_name_old.
    + intros [[Hq| ->] (n & Hn & Hh)].
      * left. split; [done|]. rewrite push_name_old in Hn by done. eauto.
      * right. rewrite push_name_new in Hn. split; congruence.
Qed.

Lemma push_get_old n q : get_scomb src n = Some q -> get_scomb src' n = Some q.
Proof.
  intros Hq. apply get_scomb_spec in Hq as [Hq Hqn]; [|done].
  apply get_scomb_spec; [apply push_wf|]. rewrite push_live, push_name_old by done. eauto.
Qed.

Lemma push_get_new : get_scomb src' name = Some p.
Proof.
  apply get_scomb_spec; [apply push_wf|]. rewrite push_live. eauto using push_name_new.
Qed.
End push.

Lemma add_scomb_ok src name1 :
  wf_source src ->
  exists name k, name = numbered (base_name name1) k /\ get_scomb src name = None /\
    add_scomb src name1 = Done (push_scomb src name, length (src_heap src)).
Proof.
  intros Hwf. unfold add_scomb.
  destruct (fresh_name_total src (base_name name1) 0 Hwf) as [name E]. rewrite E.
  apply fresh_name_Done in E as [Hfresh [k Hk]]. by exists name, k.
Qed.

(** *** Rebuilding the table *)

Lemma rebuild_loop_spec heap ps : forall m h q,
  (forall p, p ∈ ps -> is_Some (heap !! p)) ->
  q ∈ default [] (rebuild_loop heap ps m !! h) <->
  q ∈ default [] (m !! h) \/
  (q ∈ ps /\ exists n, sc_name <$> heap !! q = Some n /\ hash n = h).
Proof.
  induction ps as [|p ps IH]; intros m h q Hv; cbn [rebuild_loop].
  - split; [by left|]. intros [?|[Hq _]]; [done|]. by apply not_elem_of_nil in Hq.
  - destruct (Hv p) as [sc E]; [by left|]. rewrite E.
    rewrite IH by (intros; apply Hv; by right). rewrite lookup_insert.
    case_decide as Hd; cbn [default id from_option]; rewrite ?elem_of_cons.
    + subst h. split.
      * intros [[->|?]|[? ?]]; [right|left; done|right; eauto].
        split; [by left|]. rewrite E. eauto.
      * intros [?|[[->|?] ?]]; [left; by right|left; by left|right; eauto].
    + split.
      * intros [?|[? ?]]; [by left|right; eauto].
      * intros [?|[[->|?] (n & Hn & Hh)]]; [by left| |right; eauto].
        rewrite E in Hn. cbn in Hn. congruence.
Qed.

Lemma rebuild_wf src :
  (forall p, p ∈ src_scombs src -> is_Some (src_heap src !! p)) ->
  NoDup (src_scombs src) ->
  (forall p q n, p ∈ src_scombs src -> q ∈ src_scombs src ->
    name_at src p = Some n -> name_at src q = Some n -> p = q) ->
  wf_source (schash_rebuild src).
Proof.
  intros Hv Hnd Hn. constructor; [done | done | done |].
  intros h q. unfold bucket, schash_rebuild; cbn. rewrite rebuild_loop_spec by done.
  rewrite lookup_empty. cbn. split; [|by right].
  intros [Hq|Hq]; [by apply not_elem_of_nil in Hq | done].
Qed.

(** A program made of the given supercombinators. *)
Definition source_of (scs : list scomb) : source :=
  schash_rebuild (Source scs ∅ 0 (seq 0 (length scs)) [] [] [] []).

Lemma source_of_wf scs : NoDup (map sc_name scs) -> wf_source (source_of scs).
Proof.
  intros Hnd. apply rebuild_wf; cbn.
  - intros p Hp%elem_of_seq. apply lookup_lt_is_Some_2. lia.
  - apply NoDup_seq.
  - intros p q n _ _ Hp Hq. unfold name_at in *; cbn in *.
    rewrite <- list_lookup_fmap in Hp, Hq. by eapply NoDup_lookup.
Qed.

(** C27. [add_scomb] always returns: the search for an unused name ends. The new
    supercombinator is the last entry of the table, carries an unused name
    derived from the requested one, every other entry is untouched, and the
    table stays well-formed, so [get_scomb] finds the new name and every old
    one. *)
Theorem add_scomb_spec src name1 :
  wf_source src ->
  exists src' p name k, add_scomb src name1 = Done (src', p) /\ wf_source src' /\
    name = numbered (base_name name1) k /\ get_scomb src name = None /\
    src_scombs src' = src_scombs src ++ [p] /\
    src_heap src' = src_heap src ++ [new_scomb name (length (src_scombs src))] /\
    get_scomb src' name = Some p /\
    (forall n q, get_scomb src n = Some q -> get_scomb src' n = Some q).
Proof.
  intros Hwf. destruct (add_scomb_ok src name1 Hwf) as (name & k & Hk & Hfresh & ->).
  exists (push_scomb src name), (length (src_heap src)), name, k.
  split_and!; eauto using push_wf, push_get_new, push_get_old.
Qed.

Lemma add_scomb_spec_witness :
  exists src' p name k, add_scomb (source_of []) "f#3" = Done (src', p) /\ wf_source src' /\
    name = numbered (base_name "f#3") k /\ get_scomb (source_of []) name = None /\
    src_scombs src' = src_scombs (source_of []) ++ [p] /\
    src_heap src' = src_heap (source_of []) ++ [new_scomb name (length (src_scombs (source_of [])))] /\
    get_scomb src' name = Some p /\
    (forall n q, get_scomb (source_of []) n = Some q -> get_scomb src' n = Some q).
Proof. apply (add_scomb_spec (source_of []) "f#3"). apply source_of_wf. constructor. Defined.

(** C31. After [schash_rebuild] the table is well-formed whatever the chains held
    before, if only the array is sound: looking a name up then finds exactly
    the live supercombinator of that name. *)
Theorem schash_rebuild_lookup src name p :
  (forall p, p ∈ src_scombs src -> is_Some (src_heap src !! p)) ->
  NoDup (src_scombs src) ->
  (forall p q n, p ∈ src_scombs src -> q ∈ src_scombs src ->
    name_at src p = Some n -> name_at src q = Some n -> p = q) ->
  get_scomb (schash_rebuild src) name = Some p <-> p ∈ src_scombs src /\ name_at src p = Some name.
Proof. intros Hv Hnd Hn. by rewrite get_scomb_spec by (by apply rebuild_wf). Qed.

Lemma schash_rebuild_lookup_witness :
  get_scomb (schash_rebuild (Source [new_scomb "f" 0] ∅ 0 [0] [] [] [] [])) "f" = Some 0.
Proof.
  apply (schash_rebuild_lookup (Source [new_scomb "f" 0] ∅ 0 [0] [] [] [] []) "f" 0); cbn.
  - intros p ->%list_elem_of_singleton. by eexists.
  - apply NoDup_singleton.
  - by intros p q n ->%list_elem_of_singleton ->%list_elem_of_singleton.
  - split; [by left | reflexivity].
Defined.

(** The consistency check the compiler asserts between stages succeeds on a
    well-formed table. *)
Lemma schash_check_wf src : wf_source src -> schash_check src = true.
Proof.
  intros Hwf. unfold schash_check. apply andb_true_iff. split.
  - apply forallb_forall. intros h _. apply forallb_forall. intros p Hp.
    apply list_elem_of_In, (wf_hash _ Hwf) in Hp as [_ (n & -> & Hh)]. by apply Z.eqb_eq.
  - apply forallb_forall. intros p Hp. apply list_elem_of_In in Hp.
    destruct (wf_valid _ Hwf p Hp) as [sc E].
    assert (Hn : name_at src p = Some (sc_name sc)) by (unfold name_at; by rewrite E).
    rewrite Hn. apply existsb_exists. exists p. split; [|apply Nat.eqb_refl].
    apply list_elem_of_In, (wf_hash _ Hwf). eauto.
Qed.

(** Updates that keep the names keep the table well-formed. *)
Lemma upd_wf src p f :
  (forall sc, sc_name (f sc) = sc_name sc) -> wf_source src -> wf_source (upd src p f).
Proof.
  intros Hf Hwf.
  assert (Hna : forall q, name_at (upd src p f) q = name_at src q).
  { intros q. unfold name_at, upd; cbn. rewrite list_lookup_alter.
    case_decide as Hd; [|done]. subst. destruct (src_heap src !! q); cbn; [by rewrite Hf | done]. }
  constructor.
  - intros q Hq. apply (wf_valid _ Hwf) in Hq as [sc E]. cbn. rewrite list_lookup_alter.
    case_decide; subst; rewrite E; by eexists.
  - apply (wf_nodup _ Hwf).
  - intros a b n. rewrite !Hna. apply (wf_names _ Hwf).
  - intros h q. setoid_rewrite Hna. apply (wf_hash _ Hwf).
Qed.

(** ** Creating supercombinators from definitions *)

Definition GENVAR_PREFIX : string := "_v".

(** [make_varname]: a name that looks like a generated one gets a suffix. *)
Definition make_varname (want : string) : string :=
  if is_prefix GENVAR_PREFIX want then want +:+ "_" else want.

Definition add_parsedfile (src : source) (filename : string) : source * Z :=
  (set_parsedfiles (src_parsedfiles src ++ [filename]) src,
   Z.of_nat (length (src_parsedfiles src))).

Definition add_import (src : source) (name : string) : source :=
  if list_contains_string (src_imports src) name then src
  else if list_contains_string (src_newimports src) name then src
  else set_imports (src_imports src) (list_push (src_newimports src) name) src.

(** The prefix of an argument name and the flags it sets. *)
Definition arg_flags (argname : string) : string * (bool * bool) :=
  match argname with
  | String c rest =>
      if Ascii.eqb c "!" then (rest, (true, false))
      else if Ascii.eqb c "@" then (rest, (false, true))
      else (argname, (false, false))
  | EmptyString => (argname, (false, false))
  end.

Definition qualify (modname name : string) : string :=
  if (0 <? String.length modname)%nat then modname +:+ "::" +:+ name else name.

(** [create_scomb]: 0 on success, -1 for a duplicate name. *)
Definition create_scomb (src : source) (modname name : string) (argnames : list string)
    (body : snode) (fileno lineno : Z) : outcome (Z * source) :=
  let scname := qualify modname name in
  match get_scomb src scname with
  | Some _ => Done ((-1)%Z, src)
  | None =>
      '(src, p) ← add_scomb src scname;
      let args := map arg_flags argnames in
      Done (0%Z, upd src p (fun sc =>
        set_body body
        (set_modname (if (0 <? String.length modname)%nat then Some modname else sc_modname sc)
        (set_argnames (map fst args)
        (set_strictin (Some (map (fun a => a.2.1) args)) (Some (map (fun a => a.2.2) args))
        (set_sl (Sourceloc fileno lineno) sc))))))
  end.

(** [check_for_main]: pad [main] to two arguments, or report an error. *)
Definition pad_main (sc : scomb) : outcome scomb :=
  '(a0, s0) ←
    match sc_argnames sc with
    | a :: _ => st ← deref (sc_strictin sc); s ← deref (st !! 0); Done (a, s)
    | [] => Done ("__args", false)
    end;
  Done (set_argnames [a0; "__stdin"]
       (set_strictin (Some [s0; false]) (Some [false; false]) sc)).

Fixpoint main_loop (src : source) (ps : list nat) (gotmain : bool) : outcome (Z * source) :=
  match ps with
  | [] => Done (if gotmain then 0%Z else (-1)%Z, src)
  | p :: ps =>
      sc ← getsc src p;
      if String.eqb (sc_name sc) "main" then
        if 2 <? sc_nargs sc then Done ((-1)%Z, src)
        else if sc_nargs sc <? 2 then
          sc' ← pad_main sc;
          main_loop (upd src p (fun _ => sc')) ps true
        else main_loop src ps true
      else main_loop src ps gotmain
  end.
Definition check_for_main (src : source) : outcome (Z * source) :=
  main_loop src (src_scombs src) false.

(** ** Generated variable names *)

(** [next_var] (renaming.c): the next generated name; the name it stands for is
    recorded at its number. *)
Definition genvar (n : N) : string := GENVAR_PREFIX +:+ pretty n.
Definition next_var (src : source) (oldname : string) : source * string :=
  (set_vars (src_varno src + 1) (src_oldnames src ++ [oldname]) src, genvar (src_varno src)).

(** Drop the first two characters: [sym+2]. *)
Definition after_prefix (sym : string) : string :=
  match sym with String _ (String _ s) => s | _ => EmptyString end.

(** [real_varname] and [real_scname] (debug.c): the name a generated one
    stands for; the latter keeps what follows the number. *)
Definition real_varname (src : source) (sym : string) : outcome string :=
  if is_prefix GENVAR_PREFIX sym then
    let varno := atoi (after_prefix sym) in
    cassert (varno <? Z.of_nat (length (src_oldnames src)))%Z;;
    cassert (0 <=? varno)%Z;;
    deref (src_oldnames src !! Z.to_nat varno)
  else Done sym.

Definition real_scname (src : source) (sym : string) : outcome string :=
  if is_prefix GENVAR_PREFIX sym then
    let '(v, end_) := strtol (after_prefix sym) in
    let varno := wrap32 v in
    cassert (varno <? Z.of_nat (length (src_oldnames src)))%Z;;
    cassert (0 <=? varno)%Z;;
    old ← deref (src_oldnames src !! Z.to_nat varno);
    Done (old +:+ end_)
  else Done sym.

(** *** Lemmas on names *)

Lemma is_prefix_app t s : is_prefix t (t +:+ s) = true.
Proof. induction t as [|c t IH]; [done|]. rewrite string_app_cons; cbn. by rewrite Ascii.eqb_refl, IH. Qed.

Lemma genvar_inj a b : genvar a = genvar b -> a = b.
Proof. intros H. apply String.app_inj in H. by apply pretty_N_inj. Qed.

Lemma after_prefix_genvar n t : after_prefix (genvar n +:+ t) = pretty n +:+ t.
Proof. reflexivity. Qed.

Lemma all_chars_app f s t : all_chars f (s +:+ t) = all_chars f s && all_chars f t.
Proof.
  induction s as [|c s IH]; [done|]. rewrite string_app_cons; cbn. by rewrite IH, andb_assoc.
Qed.

(** A name that [make_varname] returned is not a generated one. *)
Definition user_name (s : string) : Prop := forall n, s <> genvar n.

Lemma make_varname_user want : user_name (make_varname want).
Proof.
  intros n H. unfold make_varname in H. destruct (is_prefix GENVAR_PREFIX want) eqn:E.
  - assert (Hd : all_chars isdigit (after_prefix (want +:+ "_")) = false).
    { destruct want as [|a [|b want]]; [done | by destruct a as [[] [] [] [] [] [] [] []] |].
      rewrite !string_app_cons. cbn [after_prefix]. rewrite all_chars_app. by rewrite andb_false_r. }
    rewrite H in Hd. unfold genvar in Hd. change (after_prefix (GENVAR_PREFIX +:+ pretty n)) with (pretty n) in Hd.
    by rewrite pretty_N_digits in Hd.
  - rewrite H in E. unfold genvar in E. by rewrite is_prefix_app in E.
Qed.

(** The table of old names is as long as the counter: the invariant of
    [next_var]. *)
Definition vars_ok (src : source) : Prop := length (src_oldnames src) = N.to_nat (src_varno src).

Lemma next_var_ok src old : vars_ok src -> vars_ok (next_var src old).1.
Proof. unfold vars_ok; cbn. intros H. rewrite length_app, H. cbn. lia. Qed.

(** The name of a generated variable, and of a supercombinator named after one
    with any [#n] suffix, is translated back to the source name it was
    generated for, at any later time. *)
Theorem real_name_next_var src old src' suffix more :
  vars_ok src -> (Z.of_N (src_varno src) <= INT_MAX)%Z ->
  starts_digit suffix = false ->
  src_oldnames src' = src_oldnames (next_var src old).1 ++ more ->
  real_varname src' (next_var src old).2 = Done old /\
  real_scname src' ((next_var src old).2 +:+ suffix) = Done (old +:+ suffix).
Proof.
  intros Hv Hmax Hsuf Hold. cbn in Hold |- *. set (n := src_varno src) in *.
  assert (Hlk : src_oldnames src' !! N.to_nat n = Some old).
  { rewrite Hold, <- app_assoc, lookup_app_r by (rewrite Hv; lia).
    rewrite Hv. fold n. by rewrite Nat.sub_diag. }
  assert (Hlen : (Z.of_N n <? Z.of_nat (length (src_oldnames src')))%Z = true).
  { apply lookup_lt_Some in Hlk. lia. }
  assert (Hn : Z.to_nat (Z.of_N n) = N.to_nat n) by lia.
  split.
  - unfold real_varname, genvar. rewrite is_prefix_app.
    change (after_prefix (GENVAR_PREFIX +:+ pretty n)) with (pretty n).
    rewrite atoi_pretty by lia. rewrite Hlen. cbn [cassert mbind outcome_bind].
    rewrite cassert_true by lia. cbn [mbind outcome_bind]. by rewrite Hn, Hlk.
  - unfold real_scname, genvar. rewrite string_app_assoc, is_prefix_app.
    change (after_prefix (GENVAR_PREFIX +:+ (pretty n +:+ suffix))) with (pretty n +:+ suffix).
    rewrite strtol_pretty by (unfold LONG_MAX, INT_MAX in *; lia || done).
    rewrite wrap32_id by (unfold INT_MIN, INT_MAX in *; lia).
    rewrite Hlen. cbn [cassert mbind outcome_bind].
    rewrite cassert_true by lia. cbn [mbind outcome_bind]. by rewrite Hn, Hlk.
Qed.

Lemma real_name_next_var_witness :
  real_varname (next_var (source_of []) "x").1 (next_var (source_of []) "x").2 = Done "x" /\
  real_scname (next_var (source_of []) "x").1 ((next_var (source_of []) "x").2 +:+ "#7") = Done ("x" +:+ "#7").
Proof.
  apply (real_name_next_var (source_of []) "x" (next_var (source_of []) "x").1 "#7" []);
    [reflexivity | vm_compute; discriminate | reflexivity | by rewrite app_nil_r].
Defined.

(** *** Definitions and [main] *)

Lemma add_scomb_exact src name :
  wf_source src -> strchr name "#" = None -> get_scomb src name = None ->
  add_scomb src name = Done (push_scomb src name, length (src_heap src)).
Proof.
  intros Hwf Hh Hg. unfold add_scomb, base_name. rewrite Hh. cbn [fresh_name].
  change (numbered name 0) with name. by rewrite Hg.
Qed.

(** C29. A definition under a name already taken is refused and changes nothing;
    under a new name (the lexer produces no ['#']) it is entered under exactly
    that name, with the strictness marks of the arguments split off. *)
Theorem create_scomb_spec src modname name argnames body fileno lineno :
  wf_source src -> strchr (qualify modname name) "#" = None ->
  let r := create_scomb src modname name argnames body fileno lineno in
  match get_scomb src (qualify modname name) with
  | Some _ => r = Done ((-1)%Z, src)
  | None => exists src' p sc, r = Done (0%Z, src') /\ wf_source src' /\
      get_scomb src' (qualify modname name) = Some p /\
      src_scombs src' = src_scombs src ++ [p] /\
      src_heap src' !! p = Some sc /\ sc_body sc = Some body /\
      sc_argnames sc = map (fun a => (arg_flags a).1) argnames /\
      sc_strictin sc = Some (map (fun a => (arg_flags a).2.1) argnames) /\
      sc_lazyin sc = Some (map (fun a => (arg_flags a).2.2) argnames)
  end.
Proof.
  intros Hwf Hh r. subst r. unfold create_scomb. set (scname := qualify modname name) in *.
  destruct (get_scomb src scname) as [q|] eqn:E; [done|].
  rewrite add_scomb_exact by done. cbn [mbind outcome_bind].
  assert (Hwf' := push_wf _ _ Hwf E).
  set (f := fun sc : scomb => set_body body _). set (src1 := push_scomb src scname) in *.
  assert (Hg : get_scomb src1 scname = Some (length (src_heap src))) by (by apply push_get_new).
  apply get_scomb_spec in Hg as [Hin Hn]; [|done].
  assert (Hwf2 : wf_source (upd src1 (length (src_heap src)) f)) by (by apply upd_wf).
  eexists _, (length (src_heap src)), (f (new_scomb scname (length (src_scombs src)))).
  split_and!; [reflexivity | done | | done | | done | | | ].
  - apply get_scomb_spec; [done|]. split; [done|]. unfold name_at; cbn.
    rewrite list_lookup_alter_eq, lookup_snoc_new. done.
  - cbn. rewrite list_lookup_alter_eq, lookup_snoc_new. done.
  - cbn. by rewrite map_map.
  - cbn. by rewrite map_map.
  - cbn. by rewrite map_map.
Qed.

Lemma create_scomb_spec_witness :
  exists src' p sc, create_scomb (source_of []) "" "f" ["x"; "!y"] (SNODE_SYMBOL nosl "x") 0 1 = Done (0%Z, src') /\ wf_source src' /\
      get_scomb src' (qualify "" "f") = Some p /\
      src_scombs src' = [] ++ [p] /\
      src_heap src' !! p = Some sc /\ sc_body sc = Some (SNODE_SYMBOL nosl "x") /\
      sc_argnames sc = map (fun a => (arg_flags a).1) ["x"; "!y"] /\
      sc_strictin sc = Some (map (fun a => (arg_flags a).2.1) ["x"; "!y"]) /\
      sc_lazyin sc = Some (map (fun a => (arg_flags a).2.2) ["x"; "!y"]).
Proof.
  apply (create_scomb_spec (source_of []) "" "f" ["x"; "!y"] (SNODE_SYMBOL nosl "x") 0 1);
    [apply source_of_wf; constructor | reflexivity].
Defined.

Lemma pad_main_spec sc sc' :
  pad_main sc = Done sc' -> sc_nargs sc' = 2 /\ sc_name sc' = sc_name sc.
Proof. unfold pad_main. intros H. outcome_inv. destruct v as [a0 s0]. outcome_inv. by subst. Qed.

Lemma main_loop_ok ps : forall src gotmain src',
  main_loop src ps gotmain = Done (0%Z, src') ->
  src_scombs src' = src_scombs src /\
  (forall p, name_at src' p = name_at src p) /\
  (forall p sc, src_heap src !! p = Some sc -> sc_nargs sc = 2 -> src_heap src' !! p = Some sc) /\
  (forall p, p ∈ ps -> name_at src p = Some "main" ->
     exists sc, src_heap src' !! p = Some sc /\ sc_nargs sc = 2) /\
  (gotmain = false -> exists p, p ∈ ps /\ name_at src p = Some "main").
Proof.
  induction ps as [|p ps IH]; intros src gotmain src' H; cbn [main_loop] in H.
  { injection H as Hg <-. split_and!; try done; [|by destruct gotmain].
    intros p Hp. by apply not_elem_of_nil in Hp. }
  unfold getsc in H. destruct (src_heap src !! p) as [sc|] eqn:E; [|done].
  cbn [deref mbind outcome_bind] in H.
  assert (Hnp : name_at src p = Some (sc_name sc)) by (unfold name_at; by rewrite E).
  destruct (String.eqb_spec (sc_name sc) "main") as [Hm|Hm].
  - destruct (Nat.ltb_spec 2 (sc_nargs sc)); [done|].
    destruct (Nat.ltb_spec (sc_nargs sc) 2) as [Hlt|Hge].
    + outcome_inv. apply pad_main_spec in Hm0 as [Hn2 Hnm].
      apply IH in H as (I0 & I1 & I2 & I3 & _).
      assert (Hna : forall q, name_at (upd src p (fun _ => v)) q = name_at src q).
      { intros q. unfold name_at; cbn. rewrite list_lookup_alter. case_decide; [|done].
        subst q. rewrite E. cbn. by rewrite Hnm. }
      split_and!; [done | intros q; by rewrite I1, Hna | | | ].
      * intros q sq Hq Hq2. apply I2; [|done]. cbn. rewrite list_lookup_alter_ne; [done|].
        intros ->. rewrite E in Hq. injection Hq as ->. lia.
      * intros q Hq Hqn. apply elem_of_cons in Hq as [->|Hq]; [|apply I3; [done | by rewrite Hna]].
        exists v. split; [|done]. apply I2; [|done]. cbn. by rewrite list_lookup_alter_eq, E.
      * intros _. exists p. rewrite Hnp, Hm. split; [by left | done].
    + apply IH in H as (I0 & I1 & I2 & I3 & _). split_and!; try done.
      * intros q Hq Hqn. apply elem_of_cons in Hq as [->|Hq]; [|by apply I3].
        exists sc. split; [apply I2; [done|]|]; lia.
      * intros _. exists p. rewrite Hnp, Hm. split; [by left | done].
  - apply IH in H as (I0 & I1 & I2 & I3 & I4). split_and!; try done.
    + intros q Hq Hqn. apply elem_of_cons in Hq as [->|Hq]; [congruence | by apply I3].
    + intros Hg. destruct (I4 Hg) as (q & Hq & Hqn). exists q. split; [by right | done].
Qed.

(** When [check_for_main] reports success the program has a live
    supercombinator [main] and it takes exactly two arguments. *)
Theorem check_for_main_ok src src' :
  wf_source src -> check_for_main src = Done (0%Z, src') ->
  exists p sc, get_scomb src "main" = Some p /\ src_heap src' !! p = Some sc /\ sc_nargs sc = 2.
Proof.
  intros Hwf H. unfold check_for_main in H. apply main_loop_ok in H as (_ & _ & _ & H3 & H4).
  destruct (H4 eq_refl) as (p & Hp & Hn). destruct (H3 p Hp Hn) as (sc & Hs & Ha).
  exists p, sc. split; [by apply get_scomb_spec | done].
Qed.

Lemma check_for_main_ok_witness :
  exists p sc, get_scomb (source_of [set_argnames ["args"; "stdin"] (new_scomb "main" 0)]) "main" = Some p /\
    src_heap (source_of [set_argnames ["args"; "stdin"] (new_scomb "main" 0)]) !! p = Some sc /\ sc_nargs sc = 2.
Proof.
  apply (check_for_main_ok (source_of [set_argnames ["args"; "stdin"] (new_scomb "main" 0)])
    (source_of [set_argnames ["args"; "stdin"] (new_scomb "main" 0)]));
    [apply source_of_wf, NoDup_singleton | vm_compute; reflexivity].
Defined.
