(* ===== verification/Renaming.v ===== *)
(** * Variable renaming (src/nreduce/compiler/renaming.c)

    The first compiler stage gives every bound variable a generated name of
    its own. The model threads the source (the counter and the table of old
    names) through the tree in the order of the C recursion; the theorems
    compare trees up to the names of their bound variables. *)

From S2P Require Import Prelude CString Builtins Util Source.

#[local] Set Warnings "-register-all,-clear-no-such-hyp".

Record mapping := Mapping { mp_from : string; mp_to : string }.

(** The loop over the mapping stack, from its top (the head of the list) down.
    It does not stop at the first match: the rewritten name is compared with
    the remaining entries too. *)
Definition apply_mappings (ms : list mapping) (name : string) : string :=
  fold_left (fun name mp => if String.eqb (mp_from mp) name then mp_to mp else name) ms name.

(** A binding of a letrec: generate a name, push the mapping, store the name. *)
Definition rename_binding (st : source * list mapping) (rec : letrec) :
    (source * list mapping) * letrec :=
  let '(src, ms) := st in
  let '(src, newname) := next_var src (lr_name rec) in
  ((src, Mapping (lr_name rec) newname :: ms), set_name newname rec).

(** The stack of mappings is the list [ms]; it has no limit here ([stack_push]
    ends the process at the 16385th entry). *)
Fixpoint rename_variables_r (src : source) (c : snode) (ms : list mapping) : source * snode :=
  match c with
  | SNODE_APPLICATION sl st l r =>
      let '(src, l) := rename_variables_r src l ms in
      let '(src, r) := rename_variables_r src r ms in
      (src, SNODE_APPLICATION sl st l r)
  | SNODE_LAMBDA sl name body =>
      let '(src, newname) := next_var src name in
      let '(src, body) := rename_variables_r src body (Mapping name newname :: ms) in
      (src, SNODE_LAMBDA sl newname body)
  | SNODE_LETREC sl bindings body =>
      let '((src, ms), renamed) := smap rename_binding (src, ms) bindings in
      let '(src, values) :=
        smap (fun src rec => rename_variables_r src (lr_value rec) ms) src bindings in
      let '(src, body) := rename_variables_r src body ms in
      (src, SNODE_LETREC sl (zip_with set_value values renamed) body)
  | SNODE_SYMBOL sl name => (src, SNODE_SYMBOL sl (apply_mappings ms name))
  | SNODE_BUILTIN _ _ | SNODE_SCREF _ _ | SNODE_NIL _ | SNODE_NUMBER _ _
  | SNODE_STRING _ _ => (src, c)
  end.

Definition rename_sc_body_variables (src : source) (body : snode)
    (oldargnames newargnames : list string) : source * snode :=
  rename_variables_r src body (rev (zip_with Mapping oldargnames newargnames)).

(** [rename_variables(src,sc)] on the supercombinator at [p]. *)
Definition rename_variables (src : source) (p : nat) : outcome source :=
  sc ← getsc src p;
  let '(src, newargnames) := smap next_var src (sc_argnames sc) in
  body ← deref (sc_body sc);
  let '(src, body) := rename_sc_body_variables src body (sc_argnames sc) newargnames in
  Done (upd src p (fun sc => set_argnames newargnames (set_body body sc))).

(** ** Trees up to bound names

    [nameless env c] replaces bound symbols by the number of binders between
    them and theirs; [env] lists the names in scope, innermost first. *)
Inductive dterm : Type :=
| DApp (sl : sourceloc) (strict : bool) (l r : dterm)
| DLam (sl : sourceloc) (body : dterm)
| DBuiltin (sl : sourceloc) (bif : nat)
| DVar (sl : sourceloc) (i : nat)
| DFree (sl : sourceloc) (name : string)
| DLetrec (sl : sourceloc) (bindings : list (dterm * bool)) (body : dterm)
| DScref (sl : sourceloc) (sc : nat)
| DNil (sl : sourceloc)
| DNumber (sl : sourceloc) (num : Z)
| DString (sl : sourceloc) (value : string).

Fixpoint index_of (x : string) (env : list string) : option nat :=
  match env with
  | [] => None
  | y :: env => if String.eqb y x then Some 0 else S <$> index_of x env
  end.

Fixpoint nameless (env : list string) (c : snode) : dterm :=
  match c with
  | SNODE_APPLICATION sl st l r => DApp sl st (nameless env l) (nameless env r)
  | SNODE_LAMBDA sl n b => DLam sl (nameless (n :: env) b)
  | SNODE_BUILTIN sl b => DBuiltin sl b
  | SNODE_SYMBOL sl n => match index_of n env with Some i => DVar sl i | None => DFree sl n end
  | SNODE_LETREC sl bs b =>
      let env := rev (map lr_name bs) ++ env in
      DLetrec sl (map (fun rec => (nameless env (lr_value rec), lr_strict rec)) bs) (nameless env b)
  | SNODE_SCREF sl sc => DScref sl sc
  | SNODE_NIL sl => DNil sl
  | SNODE_NUMBER sl n => DNumber sl n
  | SNODE_STRING sl s => DString sl s
  end.

(** Every name in a tree, bound or used. *)
Fixpoint names_in (c : snode) : list string :=
  match c with
  | SNODE_APPLICATION _ _ l r => names_in l ++ names_in r
  | SNODE_LAMBDA _ n b => n :: names_in b
  | SNODE_SYMBOL _ n => [n]
  | SNODE_LETREC _ bs b =>
      map lr_name bs ++ concat (map (fun rec => names_in (lr_value rec)) bs) ++ names_in b
  | _ => []
  end.

(** [n] generated names starting at number [k]. *)
Definition genvars (k : N) (n : nat) : list string :=
  (fun i => genvar (k + N.of_nat i)) <$> seq 0 n.

(** What a traversal that renamed the binders [olds] did to the source. *)
Definition advanced (src src' : source) (olds : list string) : Prop :=
  src' = set_vars (src_varno src + N.of_nat (length olds)) (src_oldnames src ++ olds) src.

(** ** Lemmas *)

Lemma genvars_app k n m : genvars k (n + m) = genvars k n ++ genvars (k + N.of_nat n) m.
Proof.
  unfold genvars. rewrite seq_app, fmap_app. f_equal.
  rewrite <- (Nat.add_0_r (0 + n)), <- fmap_add_seq, <- list_fmap_compose.
  apply list_fmap_ext. intros i x _. cbn. f_equal. lia.
Qed.

Lemma genvars_length k n : length (genvars k n) = n.
Proof. unfold genvars. by rewrite length_fmap, length_seq. Qed.

Lemma genvars_elem k n x : x ∈ genvars k n <-> exists i, i < n /\ x = genvar (k + N.of_nat i).
Proof.
  unfold genvars. rewrite list_elem_of_fmap. setoid_rewrite elem_of_seq.
  split; intros (i & H1 & H2); exists i; [split; [lia | done] | split; [done | lia]].
Qed.

Lemma genvars_NoDup k n : NoDup (genvars k n).
Proof.
  unfold genvars. apply NoDup_fmap_2; [|apply NoDup_seq].
  intros i j H. apply genvar_inj in H. lia.
Qed.

Lemma genvars_S k n : genvars k (S n) = genvar k :: genvars (k + 1) n.
Proof.
  change (S n) with (1 + n). rewrite genvars_app. cbn. f_equal. f_equal. lia.
Qed.

Lemma advanced_refl src : advanced src src [].
Proof. unfold advanced, set_vars. rewrite app_nil_r, N.add_0_r. by destruct src. Qed.

Lemma advanced_trans s1 s2 s3 l1 l2 :
  advanced s1 s2 l1 -> advanced s2 s3 l2 -> advanced s1 s3 (l1 ++ l2).
Proof.
  unfold advanced. intros -> ->. unfold set_vars; cbn.
  rewrite length_app, app_assoc. f_equal. lia.
Qed.

Lemma advanced_next src old : advanced src (next_var src old).1 [old].
Proof. reflexivity. Qed.

Lemma advanced_varno s1 s2 l : advanced s1 s2 l -> src_varno s2 = (src_varno s1 + N.of_nat (length l))%N.
Proof. by intros ->. Qed.

(** The loop that renames the bindings of a letrec. *)
Lemma rename_bindings_spec bs : forall src ms,
  exists src', smap rename_binding (src, ms) bs =
    ((src', rev (zip_with Mapping (map lr_name bs) (genvars (src_varno src) (length bs))) ++ ms),
     zip_with set_name (genvars (src_varno src) (length bs)) bs) /\
  advanced src src' (map lr_name bs).
Proof.
  induction bs as [|rec bs IH]; intros src ms; cbn [smap length map].
  { exists src. split; [done | apply advanced_refl]. }
  cbn [rename_binding]. destruct (next_var src (lr_name rec)) as [src1 n1] eqn:E.
  injection E as E1 En.
  destruct (IH src1 (Mapping (lr_name rec) n1 :: ms)) as (src2 & -> & Hadv).
  exists src2. rewrite genvars_S.
  replace (src_varno src1) with (src_varno src + 1)%N by (by rewrite <- E1).
  subst n1. cbn [zip_with rev]. rewrite <- app_assoc. split; [done|].
  change (lr_name rec :: map lr_name bs) with ([lr_name rec] ++ map lr_name bs).
  eapply advanced_trans; [|exact Hadv]. by subst src1.
Qed.

(** The loop over the values, given the property of each of them. *)
Lemma rename_values_spec ms bs : forall src,
  Forall (fun rec => forall src, exists src' c',
    rename_variables_r src (lr_value rec) ms = (src', c') /\
    advanced src src' (binders (lr_value rec)) /\
    binders c' = genvars (src_varno src) (length (binders (lr_value rec)))) bs ->
  exists src' vs,
    smap (fun src rec => rename_variables_r src (lr_value rec) ms) src bs = (src', vs) /\
    length vs = length bs /\
    advanced src src' (concat (map (fun rec => binders (lr_value rec)) bs)) /\
    concat (map binders vs) =
      genvars (src_varno src) (length (concat (map (fun rec => binders (lr_value rec)) bs))).
Proof.
  induction bs as [|rec bs IH]; intros src Hall; cbn [smap map concat].
  { exists src, []. split_and!; try done. apply advanced_refl. }
  apply Forall_cons_1 in Hall as [Hrec Hall].
  destruct (Hrec src) as (src1 & c1 & -> & Ha1 & Hb1).
  destruct (IH src1 Hall) as (src2 & vs & -> & Hl & Ha2 & Hb2).
  exists src2, (c1 :: vs). split_and!; [done | cbn; lia | by eapply advanced_trans |].
  cbn [map concat]. rewrite Hb1, Hb2, length_app, genvars_app.
  by rewrite (advanced_varno _ _ _ Ha1).
Qed.

Lemma zip_set_value_names (rs : list letrec) : forall vs, length vs = length rs ->
  map lr_name (zip_with set_value vs rs) = map lr_name rs /\
  map lr_value (zip_with set_value vs rs) = vs /\
  map lr_strict (zip_with set_value vs rs) = map lr_strict rs.
Proof.
  induction rs as [|r rs IH]; intros [|v vs] H; cbn in *; try done.
  destruct (IH vs) as (-> & -> & ->); [lia | done].
Qed.

Lemma zip_set_name_names (bs : list letrec) : forall ns, length ns = length bs ->
  map lr_name (zip_with set_name ns bs) = ns /\
  map lr_strict (zip_with set_name ns bs) = map lr_strict bs /\
  length (zip_with set_name ns bs) = length bs.
Proof.
  induction bs as [|r bs IH]; intros [|v ns] H; cbn in *; try done.
  destruct (IH ns) as (-> & -> & ->); [lia | done].
Qed.

(** The renamed letrec of one traversal, put together. *)
Lemma letrec_binders sl bs vs ns b :
  length vs = length bs -> length ns = length bs ->
  binders (SNODE_LETREC sl (zip_with set_value vs (zip_with set_name ns bs)) b) =
  ns ++ concat (map binders vs) ++ binders b.
Proof.
  intros Hv Hn. cbn [binders].
  destruct (zip_set_name_names bs ns Hn) as (Hn1 & _ & Hl).
  destruct (zip_set_value_names (zip_with set_name ns bs) vs) as (H1 & H2 & _); [lia|].
  rewrite H1, Hn1. f_equal. f_equal. f_equal. rewrite <- H2 at 2. by rewrite map_map.
Qed.

(** The traversal consumes one number per binder, in order, records the old
    names, and leaves the generated names as the binders of the result. *)
Lemma rename_r_binders c : forall src ms, exists src' c',
  rename_variables_r src c ms = (src', c') /\
  advanced src src' (binders c) /\
  binders c' = genvars (src_varno src) (length (binders c)).
Proof.
  snode_induction c; intros src ms; cbn [rename_variables_r];
    try (eexists _, _; split_and!; [reflexivity | apply advanced_refl | reflexivity]).
  - destruct (IHl src ms) as (s1 & l' & -> & Ha1 & Hb1).
    destruct (IHr s1 ms) as (s2 & r' & -> & Ha2 & Hb2).
    eexists _, _. split_and!; [reflexivity | by eapply advanced_trans |].
    cbn [binders]. rewrite Hb1, Hb2, length_app, genvars_app, (advanced_varno _ _ _ Ha1). done.
  - destruct (next_var src n) as [s1 n1] eqn:E. injection E as E1 En.
    destruct (IHb s1 (Mapping n n1 :: ms)) as (s2 & b' & -> & Ha2 & Hb2).
    eexists _, _. split_and!; [reflexivity | |].
    + change (binders (SNODE_LAMBDA sl n b)) with ([n] ++ binders b).
      eapply advanced_trans; [|exact Ha2]. by subst s1.
    + cbn [binders length]. rewrite genvars_S, Hb2, <- En. by rewrite <- E1.
  - destruct (rename_bindings_spec bs src ms) as (s1 & -> & Ha1). set (ms' := rev _ ++ ms).
    destruct (rename_values_spec ms' bs s1) as (s2 & vs & -> & Hl & Ha2 & Hb2).
    { eapply Forall_impl; [exact IHbs|]. intros rec H src0. apply H. }
    destruct (IHb s2 ms') as (s3 & b' & -> & Ha3 & Hb3).
    eexists _, _. split_and!; [reflexivity | |].
    + cbn [binders]. eapply advanced_trans; [exact Ha1|]. by eapply advanced_trans.
    + rewrite letrec_binders by (done || apply genvars_length). cbn [binders].
      rewrite Hb2, Hb3, !length_app, length_map, !genvars_app.
      rewrite (advanced_varno _ _ _ Ha2), (advanced_varno _ _ _ Ha1), length_map.
      done.
Qed.

(** *** Renaming is renaming of bound variables *)

(** What holds of the mapping stack: source names on one side, distinct names
    generated so far on the other. *)
Definition ms_ok (src : source) (ms : list mapping) : Prop :=
  Forall (fun mp => user_name (mp_from mp)) ms /\
  Forall (fun mp => exists k, (k < src_varno src)%N /\ mp_to mp = genvar k) ms /\
  NoDup (map mp_to ms).

Lemma ms_ok_mono src src' ms l : advanced src src' l -> ms_ok src ms -> ms_ok src' ms.
Proof.
  intros Ha (H1 & H2 & H3). split_and!; [done | | done].
  eapply Forall_impl; [exact H2|]. intros mp (k & Hk & E). exists k. split; [|done].
  rewrite (advanced_varno _ _ _ Ha). lia.
Qed.

Lemma apply_mappings_genvar ms k :
  Forall (fun mp => user_name (mp_from mp)) ms -> apply_mappings ms (genvar k) = genvar k.
Proof.
  induction 1 as [|mp ms Hu _ IH]; [done|]. cbn.
  destruct (String.eqb_spec (mp_from mp) (genvar k)) as [E|]; [by apply Hu in E | exact IH].
Qed.

Lemma apply_mappings_index src ms x :
  ms_ok src ms -> user_name x ->
  index_of (apply_mappings ms x) (map mp_to ms) = index_of x (map mp_from ms) /\
  (apply_mappings ms x ∈ map mp_to ms \/ apply_mappings ms x = x).
Proof.
  intros (H1 & H2 & H3) Hx. induction ms as [|mp ms IH]; [by auto|].
  inversion H1 as [|? ? Hu H1']; subst. inversion H2 as [|? ? (k & _ & Hk) H2']; subst.
  cbn [map] in H3. apply NoDup_cons in H3 as [Hnin H3].
  change (apply_mappings (mp :: ms) x)
    with (apply_mappings ms (if String.eqb (mp_from mp) x then mp_to mp else x)).
  cbn [map index_of]. destruct (String.eqb_spec (mp_from mp) x) as [E|E].
  - rewrite Hk, apply_mappings_genvar, String.eqb_refl by done.
    split; [done | left; by left].
  - destruct (IH H1' H2' H3) as [Hi Hor].
    destruct (String.eqb_spec (mp_to mp) (apply_mappings ms x)) as [E'|E'].
    + exfalso. destruct Hor as [Hin|Hin]; [by rewrite <- E' in Hin|].
      apply (Hx k). congruence.
    + rewrite Hi. split; [done|]. destruct Hor; [left; by right | by right].
Qed.

(** Pushing renamed names onto the stack keeps it valid. *)
Section push.
Context (src src' : source) (ms : list mapping) (olds : list string).
Hypothesis Hok : ms_ok src ms.
Hypothesis Hu : Forall user_name olds.
Hypothesis Ha : advanced src src' olds.
Local Abbreviation news := (genvars (src_varno src) (length olds)).
Local Abbreviation ms' := (rev (zip_with Mapping olds news) ++ ms).

Lemma push_to : map mp_to ms' = rev news ++ map mp_to ms.
Proof.
  rewrite map_app, map_rev, zip_with_map_r; [done | done | by rewrite genvars_length].
Qed.

Lemma push_from : map mp_from ms' = rev olds ++ map mp_from ms.
Proof.
  rewrite map_app, map_rev, zip_with_map_l; [done | done | by rewrite genvars_length].
Qed.

Lemma old_to_lt k : genvar k ∈ map mp_to ms -> (k < src_varno src)%N.
Proof.
  destruct Hok as (_ & H2 & _). intros (mp & E & Hmp)%elem_of_map.
  rewrite Forall_forall in H2. destruct (H2 mp Hmp) as (k' & Hk' & E').
  rewrite E' in E. apply genvar_inj in E. by subst.
Qed.

Lemma ms_ok_push : ms_ok src' ms'.
Proof.
  destruct Hok as (H1 & H2 & H3). rewrite Forall_forall in H1, H2. split_and!.
  - apply Forall_forall. intros mp Hmp.
    assert (Hf : mp_from mp ∈ map mp_from ms') by (apply elem_of_map; eauto).
    rewrite push_from, elem_of_app, elem_of_rev, elem_of_map in Hf.
    destruct Hf as [Hf|(mp' & -> & Hmp')]; [|by apply H1].
    by apply (proj1 (Forall_forall _ _) Hu).
  - apply Forall_forall. intros mp Hmp.
    assert (Hf : mp_to mp ∈ map mp_to ms') by (apply elem_of_map; eauto).
    rewrite push_to, elem_of_app, elem_of_rev, elem_of_map in Hf.
    rewrite (advanced_varno _ _ _ Ha). destruct Hf as [Hf|(mp' & -> & Hmp')].
    + apply genvars_elem in Hf as (i & Hi & ->). eexists. split; [|done]. lia.
    + destruct (H2 mp' Hmp') as (k & Hk & E). exists k. split; [lia | done].
  - rewrite push_to. apply NoDup_app. split_and!; [apply NoDup_rev_iff, genvars_NoDup | | done].
    intros x (i & Hi & ->)%elem_of_rev%genvars_elem Hx'. apply old_to_lt in Hx'. lia.
Qed.
End push.

Lemma index_of_Some x env : x ∈ env -> is_Some (index_of x env).
Proof.
  induction env as [|y env IH]; intros Hin; cbn; [by apply not_elem_of_nil in Hin|].
  destruct (String.eqb_spec y x) as [|Hne]; [eauto|].
  apply elem_of_cons in Hin as [->|Hin]; [done|]. apply fmap_is_Some. by apply IH.
Qed.

(** A tree whose renaming, under every valid stack, is the same tree up to
    bound names. *)
Definition renames_well (c : snode) : Prop := forall src ms,
  ms_ok src ms -> Forall user_name (names_in c) ->
  nameless (map mp_to ms) (rename_variables_r src c ms).2 = nameless (map mp_from ms) c.

Lemma rename_values_nameless ms bs : forall src,
  ms_ok src ms -> Forall (fun rec => renames_well (lr_value rec)) bs ->
  Forall user_name (concat (map (fun rec => names_in (lr_value rec)) bs)) ->
  map (nameless (map mp_to ms)) (smap (fun src rec => rename_variables_r src (lr_value rec) ms) src bs).2
  = map (fun rec => nameless (map mp_from ms) (lr_value rec)) bs.
Proof.
  induction bs as [|rec bs IH]; intros src Hok Hall Hu; cbn [smap map concat] in *; [done|].
  apply Forall_cons in Hall as [Hrec Hall]. apply Forall_app in Hu as [Hu1 Hu2].
  specialize (Hrec src ms Hok Hu1).
  destruct (rename_r_binders (lr_value rec) src ms) as (s1 & v1 & E & Ha & _).
  specialize (IH s1 (ms_ok_mono _ _ _ _ Ha Hok) Hall Hu2).
  rewrite E in Hrec |- *. destruct (smap _ s1 bs) as [s2 vs]. cbn in *. by rewrite Hrec, IH.
Qed.

Lemma zip_set_value_nameless {T} (g : snode -> T) vs : forall (rs : list letrec),
  map (fun rec => (g (lr_value rec), lr_strict rec)) (zip_with set_value vs rs) =
  zip (map g vs) (map lr_strict rs).
Proof. induction vs as [|v vs IH]; intros [|r rs]; cbn; [done..|]. by rewrite IH. Qed.

Lemma map_pair_zip {A B C} (f : A -> B) (g : A -> C) l :
  map (fun a => (f a, g a)) l = zip (map f l) (map g l).
Proof. induction l as [|a l IH]; cbn; [done | by rewrite IH]. Qed.

Lemma rename_letrec_well sl bs b :
  Forall (fun rec => renames_well (lr_value rec)) bs -> renames_well b ->
  renames_well (SNODE_LETREC sl bs b).
Proof.
  intros IHbs IHb src ms Hok Hu. cbn [rename_variables_r names_in] in *.
  rewrite !Forall_app in Hu. destruct Hu as (Hun & Huv & Hub).
  destruct (rename_bindings_spec bs src ms) as (s1 & -> & Ha1).
  pose proof (ms_ok_push src s1 ms (map lr_name bs) Hok Hun Ha1) as Hok1.
  pose proof (push_to src ms (map lr_name bs)) as Hto.
  pose proof (push_from src ms (map lr_name bs)) as Hfrom.
  rewrite length_map in Hok1, Hto, Hfrom. set (ms' := rev _ ++ ms) in *.
  pose proof (rename_values_nameless ms' bs s1 Hok1 IHbs Huv) as Hv.
  destruct (rename_values_spec ms' bs s1) as (s2 & vs & E & Hl & Ha2 & _).
  { apply Forall_forall. intros rec _ src0. apply rename_r_binders. }
  rewrite E in Hv |- *. specialize (IHb s2 ms' (ms_ok_mono _ _ _ _ Ha2 Hok1) Hub).
  destruct (rename_variables_r s2 b ms') as [s3 b']. cbn [snd nameless] in *.
  destruct (zip_set_name_names bs (genvars (src_varno src) (length bs))) as (Hn1 & Hst & Hlen).
  { by rewrite genvars_length. }
  destruct (zip_set_value_names (zip_with set_name (genvars (src_varno src) (length bs)) bs) vs)
    as (Hn2 & _ & _); [lia|].
  rewrite Hn2, Hn1, <- Hto, <- Hfrom, IHb. f_equal.
  by rewrite zip_set_value_nameless, Hv, Hst, map_pair_zip.
Qed.

Lemma rename_r_nameless c : renames_well c.
Proof.
  snode_induction c; try done; [ | | |by apply rename_letrec_well];
    intros src ms Hok Hu; cbn [rename_variables_r names_in] in *.
  - apply Forall_app in Hu as [Hul Hur].
    destruct (rename_r_binders l src ms) as (s1 & l' & El & Ha1 & _).
    specialize (IHl src ms Hok Hul). specialize (IHr s1 ms (ms_ok_mono _ _ _ _ Ha1 Hok) Hur).
    rewrite El in IHl |- *. destruct (rename_variables_r s1 r ms) as [s2 r'].
    cbn in *. by rewrite IHl, IHr.
  - apply Forall_cons in Hu as [Hun Hub].
    destruct (next_var src n) as [s1 n1] eqn:E. injection E as E1 En.
    assert (Hok' : ms_ok s1 (Mapping n n1 :: ms)).
    { pose proof (ms_ok_push src s1 ms [n] Hok) as Hp. rewrite <- En.
      unfold genvars in Hp; cbn in Hp. rewrite N.add_0_r in Hp. apply Hp; [|by subst s1].
      by constructor. }
    specialize (IHb s1 _ Hok' Hub). destruct (rename_variables_r s1 b _) as [s2 b'].
    cbn in *. by rewrite IHb.
  - apply Forall_cons in Hu as [Hun _]. cbn.
    destruct (apply_mappings_index src ms n Hok Hun) as [Hi Hor]. rewrite Hi.
    destruct (index_of n (map mp_from ms)) eqn:E; [done|].
    destruct Hor as [Hin| ->]; [|done]. apply index_of_Some in Hin as [i Hin]. congruence.
Qed.

(** The names of the arguments are generated like those of other binders. *)
Lemma rename_args_spec args : forall src,
  exists src', smap next_var src args = (src', genvars (src_varno src) (length args)) /\
    advanced src src' args.
Proof.
  induction args as [|a args IH]; intros src; cbn [smap length].
  { exists src. split; [done | apply advanced_refl]. }
  destruct (next_var src a) as [s1 n1] eqn:E. injection E as E1 En.
  destruct (IH s1) as (s2 & -> & Ha). exists s2. rewrite genvars_S, <- En. split.
  - by rewrite <- E1.
  - change (a :: args) with ([a] ++ args). eapply advanced_trans; [|exact Ha]. by subst s1.
Qed.

(** C20. Renaming a supercombinator whose names all come from the parser succeeds;
    the arguments and the bound variables of its body get names that are
    generated, fresh and pairwise distinct; nothing but the names changes
    (the body with its arguments is the same up to bound variables, although
    the code keeps rewriting after the first match); and each generated
    number records the name it replaced. *)
Theorem rename_variables_spec src p sc body :
  src_heap src !! p = Some sc -> sc_body sc = Some body ->
  Forall user_name (sc_argnames sc) -> Forall user_name (names_in body) ->
  exists src' sc' body', rename_variables src p = Done src' /\
    src_heap src' !! p = Some sc' /\ sc_body sc' = Some body' /\
    sc_argnames sc' ++ binders body' =
      genvars (src_varno src) (length (sc_argnames sc ++ binders body)) /\
    NoDup (sc_argnames sc' ++ binders body') /\
    nameless (rev (sc_argnames sc')) body' = nameless (rev (sc_argnames sc)) body /\
    src_oldnames src' = src_oldnames src ++ sc_argnames sc ++ binders body /\
    (forall q, q <> p -> src_heap src' !! q = src_heap src !! q).
Proof.
  intros Hp Hb Hua Hub. unfold rename_variables, getsc. rewrite Hp. cbn [deref mbind outcome_bind].
  destruct (rename_args_spec (sc_argnames sc) src) as (s1 & -> & Ha1). rewrite Hb. cbn [deref mbind outcome_bind].
  unfold rename_sc_body_variables.
  assert (Hok : ms_ok src []) by (split_and!; [constructor..]).
  pose proof (ms_ok_push src s1 [] _ Hok Hua Ha1) as Hok1.
  pose proof (push_to src [] (sc_argnames sc)) as Hto.
  pose proof (push_from src [] (sc_argnames sc)) as Hfrom.
  rewrite app_nil_r in Hok1, Hto, Hfrom. cbn [map] in Hto, Hfrom. rewrite app_nil_r in Hto, Hfrom.
  set (ms := rev _) in *. pose proof (rename_r_nameless body s1 ms Hok1 Hub) as Hnl.
  destruct (rename_r_binders body s1 ms) as (s2 & body' & E & Ha2 & Hbd).
  rewrite E in Hnl |- *. cbn [snd] in Hnl. rewrite Hto, Hfrom in Hnl.
  pose proof (advanced_trans _ _ _ _ _ Ha1 Ha2) as Ha.
  assert (Hbinders : genvars (src_varno src) (length (sc_argnames sc)) ++ binders body' =
      genvars (src_varno src) (length (sc_argnames sc ++ binders body))).
  { by rewrite Hbd, length_app, genvars_app, (advanced_varno _ _ _ Ha1). }
  eexists _, _, body'. split; [reflexivity|]. rewrite Ha. cbn. rewrite list_lookup_alter_eq, Hp.
  split; [reflexivity|]. cbn. split_and!; [done | done | | done | done |].
  - rewrite Hbinders. apply genvars_NoDup.
  - intros q Hq. rewrite list_lookup_alter_ne by congruence. by rewrite Ha.
Qed.

(** The function [f x = \\y.x] as the parser makes it. *)
Definition sample_fn : scomb :=
  set_argnames ["x"] (set_body (SNODE_LAMBDA nosl "y" (SNODE_SYMBOL nosl "x")) (new_scomb "f" 0)).

Lemma user_name_letter c s : c <> "_"%char -> user_name (String c s).
Proof. intros Hc n E. unfold genvar, GENVAR_PREFIX in E. injection E as -> _. done. Qed.

Lemma rename_variables_spec_witness :
  exists src' sc' body', rename_variables (source_of [sample_fn]) 0 = Done src' /\
    src_heap src' !! 0 = Some sc' /\ sc_body sc' = Some body' /\
    sc_argnames sc' ++ binders body' = genvars 0 2 /\
    NoDup (sc_argnames sc' ++ binders body') /\
    nameless (rev (sc_argnames sc')) body' = nameless ["x"] (SNODE_LAMBDA nosl "y" (SNODE_SYMBOL nosl "x")) /\
    src_oldnames src' = [] ++ ["x"] ++ ["y"] /\
    (forall q, q <> 0 -> src_heap src' !! q = src_heap (source_of [sample_fn]) !! q).
Proof.
  apply (rename_variables_spec (source_of [sample_fn]) 0 sample_fn (SNODE_LAMBDA nosl "y" (SNODE_SYMBOL nosl "x")));
    [reflexivity | reflexivity | |]; cbn; repeat apply Forall_cons_2; try apply Forall_nil_2; by apply user_name_letter.
Defined.
