(* ===== verification/Resolve.v ===== *)
(** * Symbol resolution (src/nreduce/compiler/resolve.c, source.c)

    Symbols that no enclosing binder or argument binds are replaced by
    references to supercombinators or built-in functions; the others are
    collected as errors. *)

From S2P Require Import Prelude CString Builtins Util Source.

#[local] Set Warnings "-clear-no-such-hyp".

Record unboundvar := Unboundvar { ubv_sl : sourceloc; ubv_name : string }.

(** Inside a module an unqualified name is looked up in the module first. *)
Definition lookup_sc (src : source) (modname : option string) (sym : string) : option nat :=
  let sc :=
    match modname with
    | Some m => if strstr sym "::" then None else get_scomb src (m +:+ "::" +:+ sym)
    | None => None
    end in
  match sc with Some p => Some p | None => get_scomb src sym end.

(** [bound] is the stack of names in scope, without the limit of [stack_push];
    unbound symbols are appended to [unbound]. *)
Fixpoint resolve_refs_r (src : source) (modname : option string) (bound : list string)
    (unbound : list unboundvar) (c : snode) : list unboundvar * snode :=
  match c with
  | SNODE_APPLICATION sl st l r =>
      let '(unbound, l) := resolve_refs_r src modname bound unbound l in
      let '(unbound, r) := resolve_refs_r src modname bound unbound r in
      (unbound, SNODE_APPLICATION sl st l r)
  | SNODE_LAMBDA sl n b =>
      let '(unbound, b) := resolve_refs_r src modname (bound ++ [n]) unbound b in
      (unbound, SNODE_LAMBDA sl n b)
  | SNODE_SYMBOL sl sym =>
      if list_contains_string bound sym then (unbound, c)
      else match lookup_sc src modname sym with
           | Some sc => (unbound, SNODE_SCREF sl sc)
           | None =>
               match get_builtin sym with
               | Some bif => (unbound, SNODE_BUILTIN sl bif)
               | None => (list_append unbound (Unboundvar sl sym), c)
               end
           end
  | SNODE_LETREC sl bs b =>
      let bound := bound ++ map lr_name bs in
      let '(unbound, vs) :=
        smap (fun unbound rec => resolve_refs_r src modname bound unbound (lr_value rec)) unbound bs in
      let '(unbound, b) := resolve_refs_r src modname bound unbound b in
      (unbound, SNODE_LETREC sl (zip_with set_value vs bs) b)
  | SNODE_BUILTIN _ _ | SNODE_SCREF _ _ | SNODE_NIL _ | SNODE_NUMBER _ _
  | SNODE_STRING _ _ => (unbound, c)
  end.

(** The C code calls [abort] on built-in and supercombinator references, which
    the parser never produces. *)
Fixpoint parsed (c : snode) : bool :=
  match c with
  | SNODE_APPLICATION _ _ l r => parsed l && parsed r
  | SNODE_LAMBDA _ _ b => parsed b
  | SNODE_LETREC _ bs b => forallb (fun rec => parsed (lr_value rec)) bs && parsed b
  | SNODE_BUILTIN _ _ | SNODE_SCREF _ _ => false
  | _ => true
  end.

(** [resolve_refs(src,sc,unbound)] on the supercombinator at [p]. *)
Definition resolve_refs (src : source) (p : nat) (unbound : list unboundvar) :
    outcome (source * list unboundvar) :=
  sc ← getsc src p;
  body ← deref (sc_body sc);
  cassert (parsed body);;
  let '(unbound, body) := resolve_refs_r src (sc_modname sc) (sc_argnames sc) unbound body in
  Done (upd src p (set_body body), unbound).

(** [handle_unbound] prints the list; its return value. *)
Definition handle_unbound (unbound : list unboundvar) : Z :=
  if (list_count unbound =? 0)%Z then 0%Z else (-1)%Z.

(** The loop of [source_process] over all supercombinators. *)
Fixpoint resolve_all (src : source) (ps : list nat) (unbound : list unboundvar) :
    outcome (source * list unboundvar) :=
  match ps with
  | [] => Done (src, unbound)
  | p :: ps => '(src, unbound) ← resolve_refs src p unbound; resolve_all src ps unbound
  end.

(** Pointers to supercombinators in a tree. *)
Fixpoint screfs (c : snode) : list nat :=
  match c with
  | SNODE_APPLICATION _ _ l r => screfs l ++ screfs r
  | SNODE_LAMBDA _ _ b => screfs b
  | SNODE_LETREC _ bs b => concat (map (fun rec => screfs (lr_value rec)) bs) ++ screfs b
  | SNODE_SCREF _ p => [p]
  | _ => []
  end.

(** A symbol that resolution cannot bind. *)
Definition unresolvable (src : source) (modname : option string) (bound : list string) (u : unboundvar) : Prop :=
  (ubv_name u ∉ bound) /\ lookup_sc src modname (ubv_name u) = None /\ get_builtin (ubv_name u) = None.

(** What one call of the traversal guarantees: it only appends to the list of
    errors, each of which is a real one; every symbol still free in the result
    is in scope or reported; every reference points to a live
    supercombinator; binders are untouched. *)
Definition resolved (src : source) (modname : option string) (bound : list string)
    (unbound : list unboundvar) (c : snode) (r : list unboundvar * snode) : Prop :=
  exists new, r.1 = unbound ++ new /\
    (forall u, u ∈ new -> unresolvable src modname bound u) /\
    (forall x, free_in x r.2 -> x ∈ bound \/ x ∈ map ubv_name new) /\
    (forall p, p ∈ screfs r.2 -> p ∈ src_scombs src) /\
    binders r.2 = binders c.

(** ** Lemmas *)

Lemma lookup_sc_live src modname sym p :
  wf_source src -> lookup_sc src modname sym = Some p -> p ∈ src_scombs src.
Proof.
  intros Hwf. unfold lookup_sc. intros H.
  assert (Hg : forall n q, get_scomb src n = Some q -> q ∈ src_scombs src).
  { intros n q Hq. apply get_scomb_spec in Hq; [|done]. tauto. }
  destruct modname as [m|]; [|by eapply Hg].
  destruct (strstr sym "::"); [by eapply Hg|].
  destruct (get_scomb src (m +:+ "::" +:+ sym)) eqn:E; [|by eapply Hg].
  injection H as <-. by eapply Hg.
Qed.

Lemma unresolvable_weaken src modname b1 b2 u :
  unresolvable src modname (b1 ++ b2) u -> unresolvable src modname b1 u.
Proof. intros (H1 & H2 & H3). rewrite not_elem_of_app in H1. split_and!; tauto. Qed.

Lemma zip_set_value (bs : list letrec) : forall vs, length vs = length bs ->
  map lr_name (zip_with set_value vs bs) = map lr_name bs /\
  map lr_value (zip_with set_value vs bs) = vs.
Proof.
  induction bs as [|r bs IH]; intros [|v vs] H; cbn in *; try done.
  destruct (IH vs) as (-> & ->); [lia | done].
Qed.

Lemma map_lr_value {T} (f : snode -> T) (bs : list letrec) :
  map (fun rec => f (lr_value rec)) bs = map f (map lr_value bs).
Proof. by rewrite map_map. Qed.

(** The loop over the values of a letrec, given the property of each. *)
Lemma resolve_values src modname bound bs : forall unbound,
  Forall (fun rec => forall unbound, resolved src modname bound unbound (lr_value rec)
    (resolve_refs_r src modname bound unbound (lr_value rec))) bs ->
  exists new vs,
    smap (fun unbound rec => resolve_refs_r src modname bound unbound (lr_value rec)) unbound bs
      = (unbound ++ new, vs) /\ length vs = length bs /\
    (forall u, u ∈ new -> unresolvable src modname bound u) /\
    (forall x v, v ∈ vs -> free_in x v -> x ∈ bound \/ x ∈ map ubv_name new) /\
    (forall p v, v ∈ vs -> p ∈ screfs v -> p ∈ src_scombs src) /\
    map binders vs = map (fun rec => binders (lr_value rec)) bs.
Proof.
  induction bs as [|rec bs IH]; intros unbound Hall; cbn [smap map].
  { exists [], []. rewrite app_nil_r. split_and!; try done; in_nil. }
  apply Forall_cons in Hall as [Hrec Hall].
  destruct (Hrec unbound) as (new1 & H1 & H2 & H3 & H4 & H5).
  destruct (resolve_refs_r src modname bound unbound (lr_value rec)) as [ub1 v1]; cbn in *; subst ub1.
  destruct (IH (unbound ++ new1) Hall) as (new2 & vs & -> & Hl & K2 & K3 & K4 & K5).
  exists (new1 ++ new2), (v1 :: vs). rewrite app_assoc. split_and!; [done | cbn; lia | | | |].
  - intros u [Hu|Hu]%elem_of_app; auto.
  - intros x v [->|Hv]%elem_of_cons Hx; rewrite map_app, elem_of_app.
    + destruct (H3 x Hx); tauto.
    + destruct (K3 x v Hv Hx); tauto.
  - intros p v [->|Hv]%elem_of_cons Hp; [by apply H4 | by eapply K4].
  - cbn. by rewrite H5, K5.
Qed.

Lemma free_in_letrec x sl bs b :
  free_in x (SNODE_LETREC sl bs b) <->
  (x ∉ map lr_name bs) /\ ((exists v, v ∈ map lr_value bs /\ free_in x v) \/ free_in x b).
Proof.
  cbn [free_in]. rewrite Exists_exists.
  assert (Heq : (exists P : Prop, P ∈ map (fun rec => free_in x (lr_value rec)) bs /\ id P) <->
    (exists v, v ∈ map lr_value bs /\ free_in x v)).
  { split.
    - intros (P & (rec & -> & Hr)%elem_of_map & HP). exists (lr_value rec).
      rewrite elem_of_map. eauto.
    - intros (v & (rec & -> & Hr)%elem_of_map & HP). exists (free_in x (lr_value rec)).
      rewrite elem_of_map. eauto. }
  by rewrite Heq.
Qed.

Lemma screfs_letrec p sl bs b :
  p ∈ screfs (SNODE_LETREC sl bs b) <->
  (exists v, v ∈ map lr_value bs /\ p ∈ screfs v) \/ p ∈ screfs b.
Proof.
  cbn [screfs]. rewrite elem_of_app, elem_of_concat, map_lr_value.
  split; (intros [H|H]; [left|by right]).
  - destruct H as (l & (v & -> & Hv)%elem_of_map & Hp). eauto.
  - destruct H as (v & Hv & Hp). exists (screfs v). rewrite elem_of_map. eauto.
Qed.

Lemma resolve_letrec src modname sl bs b bound unbound :
  (forall bound, Forall (fun rec => forall unbound, resolved src modname bound unbound (lr_value rec)
    (resolve_refs_r src modname bound unbound (lr_value rec))) bs) ->
  (forall bound unbound, resolved src modname bound unbound b (resolve_refs_r src modname bound unbound b)) ->
  resolved src modname bound unbound (SNODE_LETREC sl bs b)
    (resolve_refs_r src modname bound unbound (SNODE_LETREC sl bs b)).
Proof.
  intros IHbs IHb. cbn [resolve_refs_r]. set (bound' := bound ++ map lr_name bs).
  destruct (resolve_values src modname bound' bs unbound (IHbs bound'))
    as (new1 & vs & -> & Hl & K2 & K3 & K4 & K5).
  destruct (IHb bound' (unbound ++ new1)) as (new2 & H1 & H2 & H3 & H4 & H5).
  destruct (resolve_refs_r src modname bound' (unbound ++ new1) b) as [ub b']; cbn [fst snd] in *; subst ub.
  destruct (zip_set_value bs vs Hl) as [Hn Hv].
  exists (new1 ++ new2). cbn [fst snd]. rewrite app_assoc. split_and!; [done | | | |].
  - intros u [Hu|Hu]%elem_of_app; eapply unresolvable_weaken; eauto.
  - intros x. rewrite free_in_letrec, Hn, Hv, map_app, elem_of_app. intros [Hx Hor].
    assert (Hb : forall l, x ∈ bound' \/ x ∈ map ubv_name l -> x ∈ bound \/ x ∈ map ubv_name l).
    { intros l. unfold bound'. rewrite elem_of_app. tauto. }
    destruct Hor as [(v & Hvin & Hf)|Hf]; [apply (K3 x v Hvin), Hb in Hf | apply H3, Hb in Hf]; tauto.
  - intros p. rewrite screfs_letrec, Hv. intros [(v & Hvin & Hp)|Hp]; eauto.
  - cbn [binders]. rewrite Hn, H5, map_lr_value, Hv, K5. done.
Qed.

Lemma resolve_refs_r_spec src modname c :
  wf_source src -> parsed c = true ->
  forall bound unbound,
  resolved src modname bound unbound c (resolve_refs_r src modname bound unbound c).
Proof.
  intros Hwf. snode_induction c; intros Hp bound unbound; cbn [parsed] in Hp; try done;
    try (exists []; cbn; rewrite app_nil_r; split_and!; try done; in_nil).
  - apply andb_true_iff in Hp as [Hpl Hpr]. cbn [resolve_refs_r].
    destruct (IHl Hpl bound unbound) as (new1 & H1 & H2 & H3 & H4 & H5).
    destruct (resolve_refs_r src modname bound unbound l) as [ub1 l']; cbn in *; subst ub1.
    destruct (IHr Hpr bound (unbound ++ new1)) as (new2 & K1 & K2 & K3 & K4 & K5).
    destruct (resolve_refs_r src modname bound (unbound ++ new1) r) as [ub2 r']; cbn in *; subst ub2.
    exists (new1 ++ new2). cbn. rewrite app_assoc, H5, K5. split_and!; [done | | | | done].
    + intros u [Hu|Hu]%elem_of_app; auto.
    + intros x. rewrite map_app, elem_of_app. intros [Hx|Hx]; [apply H3 in Hx | apply K3 in Hx]; tauto.
    + intros p [Hq|Hq]%elem_of_app; auto.
  - cbn [resolve_refs_r]. destruct (IHb Hp (bound ++ [n]) unbound) as (new & H1 & H2 & H3 & H4 & H5).
    destruct (resolve_refs_r src modname (bound ++ [n]) unbound b) as [ub b']; cbn in *; subst ub.
    exists new. cbn. rewrite H5. split_and!; [done | | | done | done].
    + intros u Hu. eapply unresolvable_weaken; eauto.
    + intros x [Hx Hf]. apply H3 in Hf. rewrite elem_of_app, list_elem_of_singleton in Hf. tauto.
  - cbn [resolve_refs_r]. destruct (list_contains_string bound n) eqn:Eb.
    { exists []. cbn. rewrite app_nil_r. split_and!; try done; try in_nil.
      intros x ->. left. by apply list_contains_string_true. }
    destruct (lookup_sc src modname n) as [p|] eqn:El.
    { exists []. cbn. rewrite app_nil_r. split_and!; try done; try in_nil.
      intros q ->%list_elem_of_singleton. by eapply lookup_sc_live. }
    destruct (get_builtin n) as [bif|] eqn:Eg.
    { exists []. cbn. rewrite app_nil_r. split_and!; try done; in_nil. }
    exists [Unboundvar sl n]. cbn [fst snd screfs free_in]. split_and!; try done; try in_nil.
    + intros u ->%list_elem_of_singleton. split_and!; [|done|done]. by apply list_contains_string_false.
    + intros x Hx. right. cbn in *. by apply list_elem_of_singleton.
  - apply andb_true_iff in Hp as [Hpb Hpr]. rewrite forallb_forall in Hpb.
    apply resolve_letrec; [|by intros; apply IHb].
    intros bound'. rewrite Forall_forall in IHbs |- *. intros rec Hrec ub.
    apply IHbs; [done|]. by apply Hpb, list_elem_of_In.
Qed.

(** A supercombinator whose free symbols are its arguments and whose references
    are live. *)
Definition closed_sc (src : source) (sc : scomb) : Prop :=
  exists body, sc_body sc = Some body /\
    (forall x, free_in x body -> x ∈ sc_argnames sc) /\
    (forall p, p ∈ screfs body -> p ∈ src_scombs src).

Definition parsed_source (src : source) (ps : list nat) : Prop :=
  Forall (fun p => exists sc body, src_heap src !! p = Some sc /\
    sc_body sc = Some body /\ parsed body = true) ps.

Lemma resolve_all_spec ps : forall src unbound,
  wf_source src -> NoDup ps -> parsed_source src ps ->
  exists src' new, resolve_all src ps unbound = Done (src', unbound ++ new) /\
    src_scombs src' = src_scombs src /\
    (forall p, p ∉ ps -> src_heap src' !! p = src_heap src !! p) /\
    (new = [] -> forall p, p ∈ ps -> exists sc, src_heap src' !! p = Some sc /\ closed_sc src' sc).
Proof.
  induction ps as [|p ps IH]; intros src unbound Hwf Hnd Hps; cbn [resolve_all].
  { exists src, []. rewrite app_nil_r. split_and!; try done. intros _ p. by intros ?%not_elem_of_nil. }
  apply NoDup_cons in Hnd as [Hpn Hnd]. apply Forall_cons in Hps as [(sc & body & Hs & Hb & Hp) Hps].
  unfold resolve_refs, getsc. rewrite Hs. cbn [deref mbind outcome_bind]. rewrite Hb. cbn [deref mbind outcome_bind].
  rewrite Hp. cbn [cassert mbind outcome_bind].
  destruct (resolve_refs_r_spec src (sc_modname sc) body Hwf Hp (sc_argnames sc) unbound)
    as (new1 & H1 & H2 & H3 & H4 & H5).
  destruct (resolve_refs_r src (sc_modname sc) (sc_argnames sc) unbound body) as [ub body']; cbn [fst snd] in *; subst ub.
  cbn [mbind outcome_bind]. set (src1 := upd src p (set_body body')).
  assert (Hwf1 : wf_source src1) by (by apply upd_wf).
  assert (Hne : forall q, q ∈ ps -> src_heap src1 !! q = src_heap src !! q).
  { intros q Hq. unfold src1; cbn. rewrite list_lookup_alter_ne; [done | by intros ->]. }
  destruct (IH src1 (unbound ++ new1) Hwf1 Hnd) as (src2 & new2 & -> & Hsc & Hold & Hcl).
  { unfold parsed_source in *. rewrite Forall_forall in Hps |- *. intros q Hq.
    rewrite Hne by done. by apply Hps. }
  exists src2, (new1 ++ new2). rewrite app_assoc. split_and!; [done | by rewrite Hsc | |].
  - intros q Hq. apply not_elem_of_cons in Hq as [Hq1 Hq2]. rewrite Hold by done.
    unfold src1; cbn. rewrite list_lookup_alter_ne; [done | congruence].
  - intros [-> ->]%app_nil q [->|Hq]%elem_of_cons; [|by apply Hcl].
    rewrite Hold by done. exists (set_body body' sc). unfold src1; cbn.
    rewrite list_lookup_alter_eq, Hs. split; [done|]. exists body'. split_and!; [done | |].
    + intros x Hx. destruct (H3 x Hx) as [?|Hn]; [done|]. by apply not_elem_of_nil in Hn.
    + intros q Hq. rewrite Hsc. by apply H4.
Qed.

(** C22. Resolving a whole parsed program returns; when [handle_unbound] then
    reports success, every supercombinator is closed (its free symbols are its
    arguments) and every reference in it points to a live supercombinator. *)
Theorem resolve_program_closed src :
  wf_source src -> parsed_source src (src_scombs src) ->
  exists src' unbound, resolve_all src (src_scombs src) [] = Done (src', unbound) /\
    src_scombs src' = src_scombs src /\
    (handle_unbound unbound = 0%Z -> forall p, p ∈ src_scombs src' ->
      exists sc, src_heap src' !! p = Some sc /\ closed_sc src' sc).
Proof.
  intros Hwf Hp. destruct (resolve_all_spec (src_scombs src) src [] Hwf (wf_nodup _ Hwf) Hp)
    as (src' & new & E & Hsc & _ & Hcl).
  exists src', new. split_and!; [done | done |]. rewrite Hsc. intros Hh. apply Hcl.
  destruct new as [|u new]; [done|]. exfalso. unfold handle_unbound in Hh. cbn in Hh.
  assert (Hc : (0 <= list_count new)%Z) by (clear; induction new; cbn; lia).
  destruct (Z.eqb_spec (1 + list_count new) 0); [lia | done].
Qed.

(** The program [main x = + x x]. *)
Definition sample_main : scomb :=
  set_argnames ["x"] (set_body (SNODE_APPLICATION nosl false (SNODE_APPLICATION nosl false (SNODE_SYMBOL nosl "+")
    (SNODE_SYMBOL nosl "x")) (SNODE_SYMBOL nosl "x")) (new_scomb "main" 0)).

Lemma resolve_program_closed_witness :
  exists src' unbound, resolve_all (source_of [sample_main]) [0] [] = Done (src', unbound) /\
    src_scombs src' = [0] /\
    (handle_unbound unbound = 0%Z -> forall p, p ∈ src_scombs src' ->
      exists sc, src_heap src' !! p = Some sc /\ closed_sc src' sc).
Proof.
  apply (resolve_program_closed (source_of [sample_main])); [apply source_of_wf, NoDup_singleton|].
  apply Forall_singleton. by eexists _, _.
Defined.

(** C32. Resolution never reports a resolvable symbol: whatever is reported has no binder, no supercombinator of
    that name (in the module or globally) and no built-in. *)
Theorem resolve_reports_only_unbound src p sc body unbound src' unbound' :
  wf_source src -> src_heap src !! p = Some sc -> sc_body sc = Some body -> parsed body = true ->
  resolve_refs src p unbound = Done (src', unbound') ->
  exists new, unbound' = unbound ++ new /\
    forall u, u ∈ new -> unresolvable src (sc_modname sc) (sc_argnames sc) u.
Proof.
  intros Hwf Hs Hb Hp H. unfold resolve_refs, getsc in H. rewrite Hs in H. cbn [deref mbind outcome_bind] in H.
  rewrite Hb in H. cbn [deref mbind outcome_bind] in H. rewrite Hp in H. cbn [cassert mbind outcome_bind] in H.
  destruct (resolve_refs_r_spec src (sc_modname sc) body Hwf Hp (sc_argnames sc) unbound)
    as (new & H1 & H2 & _). destruct (resolve_refs_r _ _ _ _ _) as [ub b']. injection H as _ <-. eauto.
Qed.

(** The program [main x = y]. *)
Definition sample_unbound : scomb :=
  set_argnames ["x"] (set_body (SNODE_SYMBOL nosl "y") (new_scomb "main" 0)).

Lemma resolve_reports_only_unbound_witness :
  exists new, [Unboundvar nosl "y"] = [] ++ new /\
    forall u, u ∈ new -> unresolvable (source_of [sample_unbound]) None ["x"] u.
Proof.
  apply (resolve_reports_only_unbound (source_of [sample_unbound]) 0 sample_unbound (SNODE_SYMBOL nosl "y") []
    (upd (source_of [sample_unbound]) 0 (set_body (SNODE_SYMBOL nosl "y"))));
    [apply source_of_wf, NoDup_singleton | reflexivity | reflexivity | reflexivity | vm_compute; reflexivity].
Defined.
