(* ===== verification/Lifting.v ===== *)
(** * Lambda lifting (src/nreduce/compiler/lifting.c, first half)

    Phase 1 ([capture]) turns the free variables of every lambda abstraction
    into extra parameters, pass after pass until nothing changes; phase 2
    ([create_scombs]) moves the abstractions, now closed, into
    supercombinators of their own. *)

From S2P Require Import Prelude CString Builtins Util Source Resolve.

#[local] Set Warnings "-clear-no-such-hyp".

(** ** Phase 1: variable capture *)

(** An entry of the [boundvars] stack during capture. [bnd_lambda] is
    [bnd->rec && bnd->rec->value->type == SNODE_LAMBDA]: capture never changes
    whether the value of a binding is an abstraction. The stack is a list with
    its top first. *)
Record binding := Binding { bnd_name : string; bnd_lambda : bool }.

Fixpoint binding_level (boundvars : list binding) (sym : string) : Z :=
  match boundvars with
  | [] => 0
  | bnd :: rest =>
      if String.eqb (bnd_name bnd) sym
      then if bnd_lambda bnd then -1 else Z.of_nat (length boundvars)
      else binding_level rest sym
  end%Z.

(** The abstractions at the top of a lambda while its body is traversed.
    [ch_new] marks the nodes [abstract] has inserted during this traversal: the
    C code recognises them by comparing pointers with the old first node. *)
Record chain_node := ChainNode { ch_sl : sourceloc; ch_name : string; ch_new : bool }.

(** [abstract]: skip the parameters bound further out than [sym], and insert
    [sym] there unless it is already the next one. The walk does not reach the
    end of the chain in a scoped program; there it would compare with the name
    of a node that has none. *)
Fixpoint abstract_ (boundvars : list binding) (sym : string) (level : Z) (chain : list chain_node) :
    outcome (bool * list chain_node) :=
  match chain with
  | [] => Crash
  | n :: rest =>
      if (level >? binding_level boundvars (ch_name n))%Z then
        '(changed, rest) ← abstract_ boundvars sym level rest;
        Done (changed, n :: rest)
      else if String.eqb sym (ch_name n) then Done (false, chain)
      else Done (true, ChainNode (ch_sl n) sym true :: chain)
  end.

(** [make_app]: apply [*k] to the variables in [args]. *)
Definition make_app (k : snode) (args : list string) : snode :=
  fold_left (fun left arg =>
    SNODE_APPLICATION (node_sl left) false left (SNODE_SYMBOL (node_sl left) arg)) args k.

Fixpoint replace_usage (fun_ : string) (args : list string) (k : snode) : snode :=
  match k with
  | SNODE_APPLICATION sl st l r =>
      SNODE_APPLICATION sl st (replace_usage fun_ args l) (replace_usage fun_ args r)
  | SNODE_LETREC sl bs b =>
      SNODE_LETREC sl (map (fun rec => set_value (replace_usage fun_ args (lr_value rec)) rec) bs)
        (replace_usage fun_ args b)
  | SNODE_LAMBDA sl n b => SNODE_LAMBDA sl n (replace_usage fun_ args b)
  | SNODE_SYMBOL _ sym => if String.eqb sym fun_ then make_app k args else k
  | SNODE_SCREF _ _ | SNODE_BUILTIN _ _ | SNODE_NIL _ | SNODE_NUMBER _ _ | SNODE_STRING _ _ => k
  end.

Definition is_lambda (c : snode) : bool :=
  match c with SNODE_LAMBDA _ _ _ => true | _ => false end.

(** The lambdas at the top of a tree and what is below them, and back. *)
Fixpoint split_lambdas (c : snode) : list chain_node * snode :=
  match c with
  | SNODE_LAMBDA sl n b => let '(ch, b) := split_lambdas b in (ChainNode sl n false :: ch, b)
  | _ => ([], c)
  end.
Definition add_lambdas (chain : list chain_node) (b : snode) : snode :=
  foldr (fun n b => SNODE_LAMBDA (ch_sl n) (ch_name n) b) b chain.

(** The names in front of the old first node. *)
Fixpoint new_prefix (chain : list chain_node) : list string :=
  match chain with
  | n :: rest => if ch_new n then ch_name n :: new_prefix rest else []
  | [] => []
  end.

(** [*changed] and the chain the pointer [lambda] refers to ([None] for
    [NULL]). *)
Definition cstate : Type := bool * option (list chain_node).

(** The case of a symbol. *)
Definition capture_symbol (boundvars : list binding) (noabsvars : list string) (st : cstate)
    (sym : string) : outcome cstate :=
  match st with
  | (changed, Some chain) =>
      if list_contains_string noabsvars sym then Done st
      else
        let level := binding_level boundvars sym in
        if (0 <=? level)%Z then
          '(ch, chain) ← abstract_ boundvars sym level chain;
          Done (changed || ch, Some chain)
        else Done st
  | (_, None) => Done st
  end.

Section capture_step.
(** The recursive call, with [inletrec] = [NULL]. *)
Context (capture : list binding -> list string -> cstate -> snode -> outcome (cstate * snode)).

(** The case of an abstraction. With [inletrec] the new parameters are
    returned for [replace_usage]; otherwise the abstraction is applied to them
    and the arguments are captured in turn, last one first. *)
Definition capture_lambda (boundvars : list binding) (noabsvars : list string) (inletrec : bool)
    (st : cstate) (k : snode) : outcome (cstate * list string * snode) :=
  let '(chain, body) := split_lambdas k in
  let inner := rev (map (fun n => Binding (ch_name n) false) chain) ++ boundvars in
  '(stc, body) ← capture inner (map ch_name chain) (st.1, Some chain) body;
  chain ← deref stc.2;
  let args := new_prefix chain in
  let st := (stc.1, st.2) in
  if inletrec then Done (st, args, add_lambdas chain body)
  else
    '(st, _) ← osmap (fun st a => st ← capture_symbol boundvars noabsvars st a; Done (st, tt)) st (rev args);
    Done (st, args, make_app (add_lambdas chain body) args).

(** The loop over the bindings of a letrec; [todo] are the positions left. When
    an abstraction got new parameters, every use of its name in the letrec is
    changed at once. *)
Fixpoint capture_bindings (boundvars : list binding) (noabsvars : list string)
    (todo : list nat) (st : cstate) (bs : list letrec) (b : snode) : outcome (cstate * list letrec * snode) :=
  match todo with
  | [] => Done (st, bs, b)
  | i :: todo =>
      rec ← deref (bs !! i);
      '(st, vars, v) ←
        (if is_lambda (lr_value rec) then capture_lambda boundvars noabsvars true st (lr_value rec)
         else '(st, v) ← capture boundvars noabsvars st (lr_value rec); Done (st, [], v));
      let bs := <[i := set_value v rec]> bs in
      let '(bs, b) :=
        match vars with
        | [] => (bs, b)
        | _ => (map (fun r => set_value (replace_usage (lr_name rec) vars (lr_value r)) r) bs,
                replace_usage (lr_name rec) vars b)
        end in
      capture_bindings boundvars noabsvars todo st bs b
  end.
End capture_step.

(** [capture] with [inletrec] = [NULL]. [fuel] bounds the depth of recursion.
    The stack [boundvars] has no limit here, nor have those of [declare_scombs]
    and [create_lambda]. *)
Fixpoint capture (fuel : nat) (boundvars : list binding) (noabsvars : list string)
    (st : cstate) (k : snode) : outcome (cstate * snode) :=
  match fuel with
  | O => Timeout
  | S fuel =>
      match k with
      | SNODE_APPLICATION sl s l r =>
          '(st, l) ← capture fuel boundvars noabsvars st l;
          '(st, r) ← capture fuel boundvars noabsvars st r;
          Done (st, SNODE_APPLICATION sl s l r)
      | SNODE_LETREC sl bs b =>
          let boundvars :=
            rev (map (fun rec => Binding (lr_name rec) (is_lambda (lr_value rec))) bs) ++ boundvars in
          let newnoabs := rev noabsvars ++ rev (map lr_name bs) in
          '(st, bs, b) ← capture_bindings (capture fuel) boundvars newnoabs (seq 0 (length bs)) st bs b;
          '(st, b) ← capture fuel boundvars newnoabs st b;
          Done (st, SNODE_LETREC sl bs b)
      | SNODE_LAMBDA _ _ _ =>
          '(st, _, k) ← capture_lambda (capture fuel) boundvars noabsvars false st k;
          Done (st, k)
      | SNODE_SYMBOL sl sym =>
          st ← capture_symbol boundvars noabsvars st sym;
          Done (st, k)
      | SNODE_SCREF _ _ | SNODE_BUILTIN _ _ | SNODE_NIL _ | SNODE_NUMBER _ _ | SNODE_STRING _ _ =>
          Done (st, k)
      end
  end.

(** ** Phase 2: supercombinator creation *)

(** An entry of [boundvars] in this phase: the supercombinator made for the
    binding, if any ([bnd->rec->sc]). *)
Record sbinding := Sbinding { sb_name : string; sb_sc : option nat }.

Fixpoint sb_lookup (boundvars : list sbinding) (sym : string) : option sbinding :=
  match boundvars with
  | [] => None
  | b :: rest => if String.eqb (sb_name b) sym then Some b else sb_lookup rest sym
  end.

(** First loop over a letrec: an empty supercombinator for each abstraction. *)
Fixpoint declare_scombs (src : source) (boundvars : list sbinding) (bs : list letrec) :
    outcome (source * list sbinding * list (option nat)) :=
  match bs with
  | [] => Done (src, boundvars, [])
  | rec :: bs =>
      '(src, sc) ←
        (if is_lambda (lr_value rec) then
           '(src, p) ← add_scomb src (lr_name rec);
           Done (upd src p (set_sl (node_sl (lr_value rec))), Some p)
         else Done (src, None));
      '(src, boundvars, scs) ← declare_scombs src (Sbinding (lr_name rec) sc :: boundvars) bs;
      Done (src, boundvars, sc :: scs)
  end.

(** Bindings that became supercombinators are dropped; their value must be the
    reference by now. *)
Fixpoint drop_scombs (bs : list letrec) (scs : list (option nat)) : outcome (list letrec) :=
  match bs, scs with
  | rec :: bs, Some _ :: scs =>
      cassert (match lr_value rec with SNODE_SCREF _ _ => true | _ => false end);;
      drop_scombs bs scs
  | rec :: bs, None :: scs => rest ← drop_scombs bs scs; Done (rec :: rest)
  | _, _ => Done []
  end.

(** The result of a call: the source, the tree now at [*k], and whether [*k]
    itself was replaced by another node and the old one freed. *)
Record created := Created { cr_src : source; cr_node : snode; cr_moved : bool }.

Section create_step.
Context (create : source -> list sbinding -> option nat -> string -> snode -> outcome created).

(** Second loop over a letrec: the values, each with its supercombinator. *)
Fixpoint create_values (src : source) (boundvars : list sbinding) (prefix : string)
    (bs : list letrec) (scs : list (option nat)) : outcome (source * list letrec) :=
  match bs, scs with
  | rec :: bs, sc :: scs =>
      r ← create src boundvars sc prefix (lr_value rec);
      '(src, bs) ← create_values (cr_src r) boundvars prefix bs scs;
      Done (src, set_value (cr_node r) rec :: bs)
  | _, _ => Done (src, [])
  end.

(** The case of an abstraction. [newsc->body] is set before the body is
    processed; if that replaces the node, the field is left pointing at freed
    memory, which the next statement reads. *)
Definition create_lambda (src : source) (boundvars : list sbinding) (insc : option nat)
    (prefix : string) (k : snode) : outcome created :=
  '(src, p) ←
    match insc with
    | Some p => Done (src, p)
    | None =>
        '(src, p) ← add_scomb src prefix;
        Done (upd src p (set_sl (node_sl k)), p)
    end;
  let '(chain, body) := split_lambdas k in
  let args := map ch_name chain in
  let inner := rev (map (fun n => Sbinding n None) args) ++ boundvars in
  let src := upd src p (fun sc => set_argnames args (set_body body sc)) in
  newsc ← getsc src p;
  r ← create src inner None (sc_name newsc) body;
  cassert (negb (cr_moved r));;
  Done (Created (upd (cr_src r) p (set_body (cr_node r)))
          (SNODE_SCREF (node_sl (cr_node r)) p) true).
End create_step.

Fixpoint create_scombs (fuel : nat) (src : source) (boundvars : list sbinding) (inletrec : option nat)
    (prefix : string) (k : snode) : outcome created :=
  match fuel with
  | O => Timeout
  | S fuel =>
      match k with
      | SNODE_APPLICATION sl st l r =>
          a ← create_scombs fuel src boundvars None prefix l;
          b ← create_scombs fuel (cr_src a) boundvars None prefix r;
          Done (Created (cr_src b) (SNODE_APPLICATION sl st (cr_node a) (cr_node b)) false)
      | SNODE_LETREC sl bs b =>
          '(src, inner, scs) ← declare_scombs src boundvars bs;
          '(src, bs) ← create_values (create_scombs fuel) src inner prefix bs scs;
          r ← create_scombs fuel src inner None prefix b;
          bs ← drop_scombs bs scs;
          Done (match bs with
                | [] => Created (cr_src r) (cr_node r) true
                | _ => Created (cr_src r) (SNODE_LETREC sl bs (cr_node r)) false
                end)
      | SNODE_LAMBDA _ _ _ => create_lambda (create_scombs fuel) src boundvars inletrec prefix k
      | SNODE_SYMBOL sl sym =>
          match sb_lookup boundvars sym with
          | Some (Sbinding _ (Some p)) => Done (Created src (SNODE_SCREF sl p) true)
          | _ => Done (Created src k false)
          end
      | SNODE_SCREF _ _ | SNODE_BUILTIN _ _ | SNODE_NIL _ | SNODE_NUMBER _ _ | SNODE_STRING _ _ =>
          Done (Created src k false)
      end
  end.

(** [lift(src,sc)]: passes of [capture] until one changes nothing, then
    [create_scombs]. [fuel] bounds the number of passes and the recursion
    depth. *)
Fixpoint capture_loop (passes fuel : nat) (args : list string) (body : snode) : outcome snode :=
  match passes with
  | O => Timeout
  | S passes =>
      '(st, body) ← capture fuel (rev (map (fun a => Binding a false) args)) [] (false, None) body;
      if st.1 : bool then capture_loop passes fuel args body else Done body
  end.

Definition lift (fuel : nat) (src : source) (p : nat) : outcome source :=
  sc ← getsc src p;
  body ← deref (sc_body sc);
  body ← capture_loop fuel fuel (sc_argnames sc) body;
  let src := upd src p (set_body body) in
  r ← create_scombs fuel src [] None (sc_name sc) body;
  Done (upd (cr_src r) p (set_body (cr_node r))).
