(* ===== verification/LiftingFacts.v ===== *)
(** * Facts about lambda lifting

    What a pass of [capture] that changes nothing says about the tree, and what
    [create_scombs] makes of such a tree. *)

From S2P Require Import Prelude CString Builtins Util Source Resolve Lifting.

#[local] Set Warnings "-clear-no-such-hyp".

(** ** Captured trees

    A name in scope is a parameter or variable of the current abstraction
    ([KVar]), the name of an abstraction bound by a letrec ([KFun]), or a
    variable that belongs to an enclosing abstraction ([KOuter]). In a captured
    tree no [KOuter] name is used. *)
Inductive kind := KVar | KFun | KOuter.

Abbreviation scope := (list (string * kind)).

Fixpoint scope_lookup (env : scope) (x : string) : option kind :=
  match env with
  | [] => None
  | (y, k) :: env => if String.eqb y x then Some k else scope_lookup env x
  end.

Definition outer (e : string * kind) : string * kind :=
  (e.1, match e.2 with KFun => KFun | _ => KOuter end).

Definition letrec_scope (bs : list letrec) : scope :=
  rev (map (fun rec => (lr_name rec, if is_lambda (lr_value rec) then KFun else KVar)) bs).

(** [inchain] says that the node is the body of a lambda. *)
Fixpoint captured (inchain : bool) (env : scope) (c : snode) : Prop :=
  match c with
  | SNODE_APPLICATION _ _ l r => captured false env l /\ captured false env r
  | SNODE_LAMBDA _ n b =>
      captured true ((n, KVar) :: if inchain then env else map outer env) b
  | SNODE_LETREC _ bs b =>
      let env := letrec_scope bs ++ env in
      Forall id (map (fun rec => captured false env (lr_value rec)) bs) /\ captured false env b
  | SNODE_SYMBOL _ x => scope_lookup env x = Some KVar \/ scope_lookup env x = Some KFun
  | _ => True
  end.

(** ** Lemmas *)

Lemma split_add k : forall chain body, split_lambdas k = (chain, body) -> add_lambdas chain body = k.
Proof.
  snode_induction k; intros chain body H; cbn in H;
    try (injection H as <- <-; done).
  destruct (split_lambdas b) as [ch b']. injection H as <- <-. cbn. f_equal. by apply IHb.
Qed.

Lemma split_old k : forall chain body, split_lambdas k = (chain, body) ->
  Forall (fun n => ch_new n = false) chain /\ is_lambda body = false /\
  (is_lambda k = true -> chain <> []).
Proof.
  snode_induction k; intros chain body H; cbn in H;
    try (injection H as <- <-; done).
  destruct (split_lambdas b) as [ch b'] eqn:E. injection H as <- <-.
  destruct (IHb _ _ eq_refl) as (H1 & H2 & _). split_and!; [by constructor | done | done].
Qed.

Lemma captured_chain k : forall env inchain chain body,
  split_lambdas k = (chain, body) -> is_lambda k = true ->
  captured inchain env k <->
  captured false (rev (map (fun n => (ch_name n, KVar)) chain) ++ if inchain then env else map outer env) body.
Proof.
  snode_induction k; intros env inchain chain body H Hl; try done.
  cbn in H. destruct (split_lambdas b) as [ch b'] eqn:E. injection H as <- <-. cbn [captured].
  destruct (is_lambda b) eqn:Eb.
  - rewrite (IHb _ true ch b') by done. cbn. by rewrite <- app_assoc.
  - destruct b; try done; cbn in E; simplify_eq; done.
Qed.

Lemma abstract_false bv sym level chain chain' :
  abstract_ bv sym level chain = Done (false, chain') -> chain' = chain /\ sym ∈ map ch_name chain.
Proof.
  revert chain'. induction chain as [|n rest IH]; intros chain' H; cbn [abstract_] in H; [done|].
  destruct (level >? binding_level bv (ch_name n))%Z.
  - outcome_inv. destruct v as [ch r]. outcome_inv. simplify_eq.
    destruct (IH _ Hm) as [-> Hin]. split; [done | by right].
  - destruct (String.eqb_spec sym (ch_name n)) as [->|]; [|done].
    injection H as <-. split; [done | by left].
Qed.

(** *** The flag never goes back *)

Lemma capture_symbol_flag bv noabs st sym st' :
  capture_symbol bv noabs st sym = Done st' -> st'.1 = false -> st.1 = false.
Proof.
  destruct st as [ch [chain|]]; cbn; [|by intros [= <-]].
  destruct (list_contains_string noabs sym); [by intros [= <-]|].
  destruct (0 <=? binding_level bv sym)%Z; [|by intros [= <-]].
  intros H Hf. outcome_inv. destruct v as [c2 ch2]. outcome_inv. subst st'. cbn in Hf.
  by apply orb_false_iff in Hf as [? _].
Qed.

Definition flag_ok (cap : list binding -> list string -> cstate -> snode -> outcome (cstate * snode)) : Prop :=
  forall bv noabs st k st' k', cap bv noabs st k = Done (st', k') -> st'.1 = false -> st.1 = false.

Lemma capture_symbols_flag bv noabs l : forall st st' us,
  osmap (fun st a => st ← capture_symbol bv noabs st a; Done (st, tt)) st l = Done (st', us) ->
  st'.1 = false -> st.1 = false.
Proof.
  induction l as [|a l IH]; intros st st' us H Hf; cbn [osmap] in H.
  { by injection H as <- _. }
  outcome_inv. destruct v as [s1 u1]. outcome_inv. destruct v as [s2 u2]. outcome_inv. simplify_eq.
  eapply capture_symbol_flag; [done|]. by eapply IH.
Qed.

Lemma capture_lambda_flag cap bv noabs il st k st' vars k' :
  flag_ok cap -> capture_lambda cap bv noabs il st k = Done (st', vars, k') -> st'.1 = false -> st.1 = false.
Proof.
  intros Hcap H Hf. unfold capture_lambda in H.
  destruct (split_lambdas k) as [chain body]. outcome_inv. destruct v as [stc b']. outcome_inv.
  apply (Hcap _ _ (st.1, Some chain) _ _ _ Hm). destruct il.
  - by simplify_eq.
  - outcome_inv. destruct v0 as [s2 u]. outcome_inv. simplify_eq.
    by apply capture_symbols_flag in Hm1.
Qed.

Lemma capture_bindings_flag cap bv noabs todo : forall st bs b st' bs' b',
  flag_ok cap -> capture_bindings cap bv noabs todo st bs b = Done (st', bs', b') ->
  st'.1 = false -> st.1 = false.
Proof.
  induction todo as [|i todo IH]; intros st bs b st' bs' b' Hcap H Hf; cbn [capture_bindings] in H.
  { by simplify_eq. }
  outcome_inv. destruct v0 as [[s1 vars] v1].
  assert (Hs1 : s1.1 = false).
  { destruct vars; eapply IH; eauto. }
  destruct (is_lambda (lr_value v)).
  - by eapply capture_lambda_flag.
  - outcome_inv. destruct v0 as [s2 v2]. outcome_inv. simplify_eq. by eapply Hcap.
Qed.

Lemma capture_flag fuel : flag_ok (capture fuel).
Proof.
  induction fuel as [|fuel IH]; intros bv noabs st k st' k' H Hf; cbn [capture] in H; [done|].
  destruct k; try (by simplify_eq).
  - outcome_inv. destruct v as [s1 l']. outcome_inv. destruct v as [s2 r']. outcome_inv. simplify_eq.
    eapply IH; [done|]. by eapply IH.
  - outcome_inv. destruct v as [[s1 vs] k1]. outcome_inv. simplify_eq. by eapply capture_lambda_flag.
  - outcome_inv. simplify_eq. by eapply capture_symbol_flag.
  - outcome_inv. destruct v as [[s1 bs1] b1]. outcome_inv. destruct v as [s2 b2]. outcome_inv. simplify_eq.
    eapply capture_bindings_flag; [exact IH | done |]. by eapply IH.
Qed.

(** *** A pass that changes nothing *)

(** The scope a call of [capture] works in: the stack [boundvars] has the names
    of the scope, [noabsvars] names of the current abstraction only, and the
    parameters in the chain are among them. *)
Definition same_binder (e : string * kind) (b : binding) : Prop :=
  e.1 = bnd_name b /\ (bnd_lambda b = true <-> e.2 = KFun).

Definition inner_name (env : scope) (x : string) : Prop :=
  scope_lookup env x = Some KVar \/ scope_lookup env x = Some KFun.

Record in_scope (env : scope) (bv : list binding) (noabs : list string)
    (lam : option (list chain_node)) : Prop := {
  is_stack : Forall2 same_binder env bv;
  is_noabs : forall chain, lam = Some chain -> forall x, x ∈ noabs -> inner_name env x;
  is_chain : forall chain, lam = Some chain -> forall x, x ∈ map ch_name chain -> x ∈ noabs;
  is_top : lam = None -> forall e, e ∈ env -> e.2 <> KOuter;
}.

Lemma binding_level_fun env bv x :
  Forall2 same_binder env bv -> (binding_level bv x < 0)%Z <-> scope_lookup env x = Some KFun.
Proof.
  induction 1 as [|[y k] b env bv [Hn Hk] HF IH]; cbn; [by split|].
  cbn in *. rewrite <- Hn. destruct (String.eqb_spec y x); [|done].
  destruct (bnd_lambda b).
  - split; [intros _; f_equal; by apply Hk | lia].
  - split; [lia|]. intros [= ->]. by specialize (proj2 Hk eq_refl).
Qed.

Lemma scope_lookup_app env1 env2 x :
  scope_lookup (env1 ++ env2) x =
  match scope_lookup env1 x with Some k => Some k | None => scope_lookup env2 x end.
Proof. induction env1 as [|[y k] env1 IH]; cbn; [done|]. by destruct (String.eqb y x). Qed.

Lemma scope_lookup_Some env x k : scope_lookup env x = Some k -> (x, k) ∈ env.
Proof.
  induction env as [|[y k'] env IH]; cbn; [done|].
  destruct (String.eqb_spec y x) as [->|]; [intros [= ->]; by left | right; auto].
Qed.

Lemma scope_lookup_dom env x : is_Some (scope_lookup env x) <-> x ∈ map fst env.
Proof.
  induction env as [|[y k] env IH]; cbn.
  { split; [by intros [? ?] | in_nil]. }
  rewrite elem_of_cons, <- IH. destruct (String.eqb_spec y x) as [->|].
  - split; [by left | by eexists].
  - naive_solver.
Qed.

Lemma letrec_scope_kind bs e : e ∈ letrec_scope bs -> e.2 <> KOuter.
Proof.
  unfold letrec_scope. rewrite elem_of_rev, elem_of_map. intros (rec & -> & _). cbn.
  by destruct (is_lambda _).
Qed.

Lemma letrec_scope_names bs : map fst (letrec_scope bs) = rev (map lr_name bs).
Proof. unfold letrec_scope. by rewrite map_rev, map_map. Qed.

Lemma inner_name_letrec bs env x : x ∈ map lr_name bs -> inner_name (letrec_scope bs ++ env) x.
Proof.
  intros Hx. unfold inner_name. rewrite scope_lookup_app.
  destruct (proj2 (scope_lookup_dom (letrec_scope bs) x)) as [k Hk].
  { by rewrite letrec_scope_names, elem_of_rev. }
  rewrite Hk. apply scope_lookup_Some, letrec_scope_kind in Hk. destruct k; naive_solver.
Qed.

Lemma inner_name_under bs env x : inner_name env x -> inner_name (letrec_scope bs ++ env) x.
Proof.
  intros H. destruct (decide (x ∈ map lr_name bs)) as [|Hn]; [by apply inner_name_letrec|].
  unfold inner_name. rewrite scope_lookup_app.
  destruct (scope_lookup (letrec_scope bs) x) eqn:E; [|done].
  destruct Hn. rewrite <- elem_of_rev, <- letrec_scope_names, <- scope_lookup_dom. by eexists.
Qed.

Lemma in_scope_letrec env bv noabs lam bs :
  in_scope env bv noabs lam ->
  in_scope (letrec_scope bs ++ env)
    (rev (map (fun rec => Binding (lr_name rec) (is_lambda (lr_value rec))) bs) ++ bv)
    (rev noabs ++ rev (map lr_name bs)) lam.
Proof.
  intros [Hs Hn Hc Ht]. split.
  - apply Forall2_app; [|done]. unfold letrec_scope. rewrite !rev_reverse. apply Forall2_reverse.
    apply Forall2_fmap, Forall_Forall2_diag, Forall_true. intros rec. split; cbn; [done|].
    by destruct (is_lambda _).
  - intros chain E x. rewrite elem_of_app, !elem_of_rev. intros [Hx|Hx].
    + by eapply inner_name_under, Hn.
    + by apply inner_name_letrec.
  - intros chain E x Hx. rewrite elem_of_app, !elem_of_rev. left. by eapply Hc.
  - intros E e. rewrite elem_of_app. intros [He|He]; [by eapply letrec_scope_kind | auto].
Qed.

Lemma in_scope_lambda env bv noabs lam chain :
  in_scope env bv noabs lam ->
  in_scope (rev (map (fun n => (ch_name n, KVar)) chain) ++ map outer env)
    (rev (map (fun n => Binding (ch_name n) false) chain) ++ bv) (map ch_name chain) (Some chain).
Proof.
  intros [Hs _ _ _]. split; [| | |done].
  - apply Forall2_app.
    + rewrite !rev_reverse. apply Forall2_reverse, Forall2_fmap, Forall_Forall2_diag, Forall_true.
      intros n. by split.
    + apply Forall2_fmap_l. eapply Forall2_impl; [exact Hs|]. intros [y k] b [H1 H2]. split; [done|].
      cbn in *. rewrite H2. by destruct k.
  - intros _ _ x Hx. left. rewrite scope_lookup_app.
    destruct (proj2 (scope_lookup_dom (rev (map (fun n => (ch_name n, KVar)) chain)) x)) as [k Hk].
    { by rewrite map_rev, map_map, elem_of_rev. }
    rewrite Hk. apply scope_lookup_Some in Hk.
    apply elem_of_rev, elem_of_map in Hk as (n & [= -> ->] & _). done.
  - intros _ [= <-] x Hx. done.
Qed.

(** What a call that leaves the flag clear has done: nothing, on a tree that is
    captured already. *)
Definition unchanged (cap : list binding -> list string -> cstate -> snode -> outcome (cstate * snode)) : Prop :=
  forall env bv noabs st k st' k',
    cap bv noabs st k = Done (st', k') -> st'.1 = false -> in_scope env bv noabs st.2 ->
    (st.2 = None -> forall x, free_in x k -> is_Some (scope_lookup env x)) ->
    st' = st /\ k' = k /\ captured false env k.

Lemma capture_symbol_unchanged env bv noabs st x st' :
  capture_symbol bv noabs st x = Done st' -> st'.1 = false -> in_scope env bv noabs st.2 ->
  (st.2 = None -> is_Some (scope_lookup env x)) -> st' = st /\ inner_name env x.
Proof.
  intros H Hf [Hs Hn Hc Ht] Hx. destruct st as [ch [chain|]]; cbn in *.
  - destruct (list_contains_string noabs x) eqn:E.
    { apply list_contains_string_true in E. simplify_eq. eauto. }
    destruct (Z.leb_spec 0 (binding_level bv x)) as [Hl|Hl].
    + outcome_inv. destruct v as [c2 ch2]. outcome_inv. subst st'. cbn in Hf.
      apply orb_false_iff in Hf as [-> ->]. apply abstract_false in Hm as [-> Hin].
      apply list_contains_string_false in E. destruct E. by eapply Hc.
    + simplify_eq. split; [done|]. right. by apply (binding_level_fun env bv).
  - simplify_eq. split; [done|]. destruct (Hx eq_refl) as [k Hk].
    pose proof (Ht eq_refl _ (scope_lookup_Some _ _ _ Hk)) as Ho. unfold inner_name. rewrite Hk.
    destruct k; naive_solver.
Qed.

Lemma new_prefix_old chain : Forall (fun n => ch_new n = false) chain -> new_prefix chain = [].
Proof. destruct 1 as [|n chain Hn]; cbn; [done|]. by rewrite Hn. Qed.

Lemma capture_lambda_unchanged cap env bv noabs il st k st' vars k' :
  unchanged cap -> capture_lambda cap bv noabs il st k = Done (st', vars, k') -> st'.1 = false ->
  in_scope env bv noabs st.2 -> is_lambda k = true ->
  st' = st /\ vars = [] /\ k' = k /\ captured false env k.
Proof.
  intros Hcap H Hf Hs Hl. unfold capture_lambda in H.
  destruct (split_lambdas k) as [chain body] eqn:E. outcome_inv. destruct v as [stc b']. outcome_inv.
  destruct (split_old _ _ _ E) as (Hold & _ & _).
  assert (stc.1 = false) as Hf1.
  { destruct il; [by simplify_eq|]. outcome_inv. destruct v0 as [s2 u]. outcome_inv. simplify_eq.
    by apply capture_symbols_flag in Hm1. }
  destruct (Hcap _ _ _ _ _ _ _ Hm Hf1 (in_scope_lambda _ _ _ _ chain Hs)) as (-> & -> & Hk); [done|].
  cbn in Hm0. injection Hm0 as <-. rewrite (new_prefix_old chain) in * by done. cbn in H.
  rewrite <- (split_add _ _ _ E), (captured_chain _ _ _ chain body) by (by rewrite ?(split_add _ _ _ E)).
  destruct st. destruct il; cbn in H; by simplify_eq.
Qed.

Lemma capture_bindings_unchanged cap env bv noabs todo : forall st bs b st' bs' b',
  unchanged cap -> flag_ok cap ->
  capture_bindings cap bv noabs todo st bs b = Done (st', bs', b') -> st'.1 = false ->
  in_scope env bv noabs st.2 ->
  (st.2 = None -> forall i rec, bs !! i = Some rec -> forall x, free_in x (lr_value rec) -> is_Some (scope_lookup env x)) ->
  st' = st /\ bs' = bs /\ b' = b /\
  (forall i rec, i ∈ todo -> bs !! i = Some rec -> captured false env (lr_value rec)).
Proof.
  induction todo as [|i todo IH]; intros st bs b st' bs' b' Hcap Hflag H Hf Hs Hx; cbn [capture_bindings] in H.
  { simplify_eq. split_and!; try done. in_nil. }
  outcome_inv. rename v into rec. destruct v0 as [[s1 vars] v].
  assert (s1.1 = false) as Hf1.
  { destruct vars; eapply capture_bindings_flag; eauto. }
  assert (s1 = st /\ vars = [] /\ v = lr_value rec /\ captured false env (lr_value rec)) as (-> & -> & -> & Hrec).
  { destruct (is_lambda (lr_value rec)) eqn:El.
    - by eapply capture_lambda_unchanged.
    - outcome_inv. destruct v0 as [s2 v2]. outcome_inv. simplify_eq.
      destruct (Hcap _ _ _ _ _ _ _ Hm1 Hf1 Hs) as (-> & -> & ?); [|done].
      intros E. by eapply Hx. }
  assert (set_value (lr_value rec) rec = rec) as Er by (by destruct rec). rewrite Er in H.
  rewrite list_insert_id in H by done.
  destruct (IH _ _ _ _ _ _ Hcap Hflag H Hf Hs Hx) as (-> & -> & -> & Hall).
  split_and!; try done. intros j r [->|Hj]%elem_of_cons Hr; [|by eapply Hall].
  by simplify_eq.
Qed.

Lemma capture_unchanged fuel : unchanged (capture fuel).
Proof.
  induction fuel as [|fuel IH]; intros env bv noabs st k st' k' H Hf Hs Hx; cbn [capture] in H; [done|].
  destruct k as [sl s l r|sl n b|sl bif|sl n|sl bs b|sl sc|sl|sl num|sl s];
    try (simplify_eq; by split_and!).
  - outcome_inv. destruct v as [s1 l']. outcome_inv. destruct v as [s2 r']. outcome_inv. simplify_eq.
    pose proof (capture_flag _ _ _ _ _ _ _ Hm0 Hf) as Hf1.
    destruct (IH env _ _ _ _ _ _ Hm Hf1 Hs) as (-> & -> & ?); [cbn in Hx; naive_solver|].
    destruct (IH env _ _ _ _ _ _ Hm0 Hf Hs) as (-> & -> & ?); [cbn in Hx; naive_solver|].
    by split_and!.
  - outcome_inv. destruct v as [[s1 vs] k1]. outcome_inv. simplify_eq.
    destruct (capture_lambda_unchanged _ env _ _ _ _ _ _ _ _ IH Hm Hf Hs) as (-> & _ & -> & ?); [done|].
    by split_and!.
  - outcome_inv. simplify_eq. destruct (capture_symbol_unchanged env _ _ _ _ _ Hm Hf Hs) as (-> & ?).
    { intros E. by apply Hx. }
    by split_and!.
  - outcome_inv. destruct v as [[s1 bs1] b1]. outcome_inv. destruct v as [s2 b2]. outcome_inv. simplify_eq.
    pose proof (capture_flag _ _ _ _ _ _ _ Hm0 Hf) as Hf1.
    pose proof (in_scope_letrec _ _ _ _ bs Hs) as Hs'.
    assert (forall x c, free_in x c -> st.2 = None -> (forall y, y ∉ map lr_name bs -> free_in y c -> free_in y (SNODE_LETREC sl bs b)) ->
      is_Some (scope_lookup (letrec_scope bs ++ env) x)) as Hsc.
    { intros x c Hfx E Hc. destruct (decide (x ∈ map lr_name bs)) as [Hin|Hin].
      - destruct (inner_name_letrec bs env x Hin) as [-> | ->]; by eexists.
      - rewrite scope_lookup_app. destruct (scope_lookup (letrec_scope bs) x); [by eexists|].
        apply Hx; [done|]. by apply Hc. }
    destruct (capture_bindings_unchanged _ _ _ _ _ _ _ _ _ _ _ IH (capture_flag fuel) Hm Hf1 Hs')
      as (-> & -> & -> & Hall).
    { intros E i rec Hi x Hfx. eapply Hsc; [exact Hfx | done |]. intros y Hy Hfy.
      apply free_in_letrec. split; [done|]. left. exists (lr_value rec). split; [|done].
      apply elem_of_map. exists rec. split; [done|]. by eapply list_elem_of_lookup_2. }
    destruct (IH _ _ _ _ _ _ _ Hm0 Hf Hs') as (-> & -> & ?).
    { intros E x Hfx. eapply Hsc; [exact Hfx|done|]. intros y Hy Hfy.
      apply free_in_letrec. by split; [|right]. }
    split_and!; [done | done |]. cbn. split; [|done].
    apply Forall_forall. intros P (rec & -> & Hrec)%elem_of_map.
    apply list_elem_of_lookup in Hrec as [i Hi]. eapply Hall; [|exact Hi].
    apply elem_of_seq. split; [lia|]. by apply lookup_lt_Some in Hi.
Qed.
