(* ===== verification/LiftingCreate.v ===== *)
(** * Supercombinator creation after capture

    What [create_scombs] makes of a tree on which capture has nothing left to
    do, and lambda lifting as a whole. *)

From S2P Require Import Prelude CString Builtins Util Source Resolve Lifting LiftingFacts.

#[local] Set Warnings "-clear-no-such-hyp".

(** ** Lifted trees *)

Fixpoint lambda_free (c : snode) : Prop :=
  match c with
  | SNODE_APPLICATION _ _ l r => lambda_free l /\ lambda_free r
  | SNODE_LAMBDA _ _ _ => False
  | SNODE_LETREC _ bs b => Forall id (map (fun rec => lambda_free (lr_value rec)) bs) /\ lambda_free b
  | _ => True
  end.

(** The tree has no abstraction, its free variables are variables of the scope
    and its references are live. *)
Definition lifted (env : scope) (src : source) (c : snode) : Prop :=
  lambda_free c /\ (forall x, free_in x c -> scope_lookup env x = Some KVar) /\
  (forall p, p ∈ screfs c -> p ∈ src_scombs src).

(** A finished supercombinator. *)
Definition lifted_sc (src : source) (q : nat) : Prop :=
  exists sc body, src_heap src !! q = Some sc /\ sc_body sc = Some body /\ lambda_free body /\
    closed_sc src sc.

(** Whether [create_scombs] replaces the node itself. *)
Definition moves (env : scope) (c : snode) : bool :=
  match c with
  | SNODE_SYMBOL _ x => match scope_lookup env x with Some KFun => true | _ => false end
  | SNODE_LETREC _ bs _ => forallb (fun rec => is_lambda (lr_value rec)) bs
  | SNODE_LAMBDA _ _ _ => true
  | _ => false
  end.

(** The body of no abstraction is such a node. *)
Fixpoint stable (inchain : bool) (env : scope) (c : snode) : Prop :=
  match c with
  | SNODE_APPLICATION _ _ l r => stable false env l /\ stable false env r
  | SNODE_LAMBDA _ n b =>
      let env := (n, KVar) :: if inchain then env else map outer env in
      (is_lambda b = false -> moves env b = false) /\ stable true env b
  | SNODE_LETREC _ bs b =>
      let env := letrec_scope bs ++ env in
      Forall id (map (fun rec => stable false env (lr_value rec)) bs) /\ stable false env b
  | _ => True
  end.

(** ** Growth of the table *)

(** From [src] to [src'] only entries in [P] have changed, and every new entry
    is finished. *)
Record grows (P : nat -> Prop) (src src' : source) : Prop := {
  gr_wf : wf_source src';
  gr_old : forall q, q ∈ src_scombs src -> q ∈ src_scombs src';
  gr_same : forall q, q ∈ src_scombs src -> ~ P q -> src_heap src' !! q = src_heap src !! q;
  gr_new : forall q, q ∈ src_scombs src' -> q ∉ src_scombs src -> lifted_sc src' q
}.

Definition nothing (q : nat) : Prop := False.

Lemma lifted_sc_grows P src src' q :
  grows P src src' -> q ∈ src_scombs src -> ~ P q -> lifted_sc src q -> lifted_sc src' q.
Proof.
  intros [_ Hold Hsame _] Hq HP (sc & body & Hs & Hb & Hl & b & Hb' & Hf & Hr).
  exists sc, body. split_and!; [by rewrite Hsame | done | done |]. exists b. split_and!; auto.
Qed.

Lemma lifted_grows P env src src' c : grows P src src' -> lifted env src c -> lifted env src' c.
Proof. intros [_ Hold _ _] (Hl & Hf & Hr). split_and!; auto. Qed.

Lemma grows_refl src : wf_source src -> grows nothing src src.
Proof. by split. Qed.

Lemma grows_trans P Q R src1 src2 src3 :
  grows P src1 src2 -> grows Q src2 src3 -> (forall q, Q q -> q ∈ src_scombs src1) ->
  (forall q, P q \/ Q q -> R q) -> grows R src1 src3.
Proof.
  intros HP HQ HQ1 HR. split.
  - apply HQ.
  - intros q Hq. by apply (gr_old _ _ _ HQ), (gr_old _ _ _ HP).
  - intros q Hq Hn. rewrite (gr_same _ _ _ HQ), (gr_same _ _ _ HP); auto.
    by apply (gr_old _ _ _ HP).
  - intros q Hq Hn. destruct (decide (q ∈ src_scombs src2)) as [H2|H2]; [|by apply HQ].
    eapply lifted_sc_grows; [exact HQ | done | auto |]. by apply HP.
Qed.

Lemma grows_none_trans src1 src2 src3 :
  grows nothing src1 src2 -> grows nothing src2 src3 -> grows nothing src1 src3.
Proof. intros H1 H2. eapply grows_trans; [exact H1 | exact H2 | done | naive_solver]. Qed.

(** ** The scope and the stack of this phase *)

(** The stack agrees with the scope: a name of kind [KFun] is bound to a live
    supercombinator, any other name to none. *)
Definition stack_ok (env : scope) (bv : list sbinding) (src : source) : Prop :=
  forall x, match scope_lookup env x with
  | Some KFun => exists n p, sb_lookup bv x = Some (Sbinding n (Some p)) /\ p ∈ src_scombs src
  | _ => forall n p, sb_lookup bv x <> Some (Sbinding n (Some p))
  end.

Lemma stack_ok_grows P env bv src src' : grows P src src' -> stack_ok env bv src -> stack_ok env bv src'.
Proof.
  intros HG H x. specialize (H x). destruct (scope_lookup env x) as [[]|]; try done.
  destruct H as (n & p & ? & ?). exists n, p. split; [done|]. by apply HG.
Qed.

Lemma sb_lookup_app bv1 bv2 x :
  sb_lookup (bv1 ++ bv2) x = match sb_lookup bv1 x with Some b => Some b | None => sb_lookup bv2 x end.
Proof. induction bv1 as [|b bv1 IH]; cbn; [done|]. by destruct (String.eqb (sb_name b) x). Qed.

Lemma sb_lookup_Some bv x b : sb_lookup bv x = Some b -> b ∈ bv /\ sb_name b = x.
Proof.
  induction bv as [|c bv IH]; cbn; [done|]. destruct (String.eqb_spec (sb_name c) x).
  - intros [= ->]. split; [by left | done].
  - intros H. destruct (IH H). split; [by right | done].
Qed.

(** The entries pushed for a group of binders. *)
Definition same_sbinder (src : source) (e : string * kind) (b : sbinding) : Prop :=
  e.1 = sb_name b /\
  match e.2 with KFun => exists p, sb_sc b = Some p /\ p ∈ src_scombs src | _ => sb_sc b = None end.

Lemma stack_ok_app env1 bv1 env bv src :
  Forall2 (same_sbinder src) env1 bv1 -> stack_ok env bv src -> stack_ok (env1 ++ env) (bv1 ++ bv) src.
Proof.
  intros HF Hok x. rewrite scope_lookup_app, sb_lookup_app. specialize (Hok x).
  induction HF as [|[y k] [m sc] env1 bv1 [Hn Hk] HF IH]; cbn; [done|].
  cbn in Hn, Hk. subst m. destruct (String.eqb_spec y x) as [->|]; [|done].
  destruct k; [by subst sc; intros ? ? | destruct Hk as (p & -> & Hp); eauto | by subst sc; intros ? ?].
Qed.

Lemma scope_lookup_outer env x : scope_lookup (map outer env) x =
  match scope_lookup env x with Some KFun => Some KFun | Some _ => Some KOuter | None => None end.
Proof.
  induction env as [|[y k] env IH]; cbn; [done|]. destruct (String.eqb y x); [by destruct k | done].
Qed.

Lemma stack_ok_outer env bv src : stack_ok env bv src -> stack_ok (map outer env) bv src.
Proof.
  intros H x. specialize (H x). rewrite scope_lookup_outer. by destruct (scope_lookup env x) as [[]|].
Qed.

Lemma stable_chain k : forall env inchain chain body,
  split_lambdas k = (chain, body) -> is_lambda k = true -> stable inchain env k ->
  let env' := rev (map (fun n => (ch_name n, KVar)) chain) ++ (if inchain then env else map outer env) in
  moves env' body = false /\ stable false env' body.
Proof.
  snode_induction k; intros env inchain chain body H Hl Hs; try done.
  cbn in H. destruct (split_lambdas b) as [ch b'] eqn:E. injection H as <- <-.
  cbn [stable] in Hs. destruct Hs as [Hm Hs]. cbn [map rev ch_name].
  destruct (is_lambda b) eqn:Eb.
  - rewrite <- app_assoc. exact (IHb _ true ch b' eq_refl eq_refl Hs).
  - destruct b; try done; cbn in E; simplify_eq; by split; [apply Hm|].
Qed.

(** ** The loops over a letrec *)

Lemma upd_same src p f q : q <> p -> src_heap (upd src p f) !! q = src_heap src !! q.
Proof. intros. cbn. by rewrite list_lookup_alter_ne. Qed.

Lemma new_entry src name1 f :
  wf_source src -> (forall sc, sc_name (f sc) = sc_name sc) ->
  exists src' p name, add_scomb src name1 = Done (src', p) /\ wf_source (upd src' p f) /\
    src_scombs (upd src' p f) = src_scombs src ++ [p] /\ (p ∉ src_scombs src) /\
    (forall q, q ∈ src_scombs src -> src_heap (upd src' p f) !! q = src_heap src !! q) /\
    src_heap (upd src' p f) !! p = Some (f (new_scomb name (length (src_scombs src)))).
Proof.
  intros Hwf Hf. destruct (add_scomb_ok src name1 Hwf) as (name & k & _ & Hfresh & ->).
  eexists _, _, name. split; [reflexivity|].
  assert (Hlt : forall q, q ∈ src_scombs src -> q < length (src_heap src)) by (intros; by apply live_lt).
  split_and!; [by apply upd_wf, push_wf | done | | |].
  - intros H. apply Hlt in H. lia.
  - intros q Hq. apply Hlt in Hq. rewrite upd_same by lia. cbn. by rewrite lookup_snoc_old.
  - cbn. by rewrite list_lookup_alter_eq, lookup_snoc_new.
Qed.

Definition declared (bs : list letrec) (scs : list (option nat)) : Prop :=
  Forall2 (fun rec sc => is_lambda (lr_value rec) = true <-> is_Some sc) bs scs.

Definition declared_names (bs : list letrec) (scs : list (option nat)) : list sbinding :=
  zip_with (fun rec sc => Sbinding (lr_name rec) sc) bs scs.

Lemma declare_scombs_spec bs : forall src bv,
  wf_source src ->
  exists src' scs, declare_scombs src bv bs = Done (src', rev (declared_names bs scs) ++ bv, scs) /\
    wf_source src' /\ declared bs scs /\ NoDup (omap id scs) /\
    src_scombs src' = src_scombs src ++ omap id scs /\
    (forall q, q ∈ omap id scs -> q ∉ src_scombs src) /\
    (forall q, q ∈ src_scombs src -> src_heap src' !! q = src_heap src !! q).
Proof.
  induction bs as [|rec bs IH]; intros src bv Hwf; cbn [declare_scombs].
  { exists src, []. cbn. rewrite app_nil_r. split_and!; try done; [constructor | constructor | in_nil]. }
  destruct (is_lambda (lr_value rec)) eqn:El.
  - destruct (new_entry src (lr_name rec) (set_sl (node_sl (lr_value rec))) Hwf)
      as (src0 & p & name & -> & Hwf1 & Hsc & Hp & Hold & _); [done|]. cbn [mbind outcome_bind].
    set (src1 := upd src0 p _) in *.
    destruct (IH src1 (Sbinding (lr_name rec) (Some p) :: bv) Hwf1)
      as (src' & scs & -> & Hwf' & Hd & Hnd & Hsc' & Hdis & Hold').
    rewrite Hsc in Hsc', Hdis, Hold'. exists src', (Some p :: scs). cbn. rewrite <- !app_assoc in *. cbn.
    split_and!; try done.
    + constructor; [|done]. rewrite El. split; [by eexists | done].
    + constructor; [|done]. intros Hin. apply Hdis in Hin. set_solver.
    + intros q [->|Hq]%elem_of_cons; [done|]. apply Hdis in Hq. set_solver.
    + intros q Hq. rewrite Hold', Hold; [done | done | set_solver].
  - cbn [mbind outcome_bind].
    destruct (IH src (Sbinding (lr_name rec) None :: bv) Hwf)
      as (src' & scs & -> & Hwf' & Hd & Hnd & Hsc' & Hdis & Hold').
    exists src', (None :: scs). cbn. rewrite <- !app_assoc. cbn. split_and!; try done.
    constructor; [|done]. rewrite El. split; [done | by intros [? ?]].
Qed.

Lemma stack_ok_declared env bv src src' bs scs :
  stack_ok env bv src -> (forall q, q ∈ src_scombs src -> q ∈ src_scombs src') ->
  declared bs scs -> (forall q, q ∈ omap id scs -> q ∈ src_scombs src') ->
  stack_ok (letrec_scope bs ++ env) (rev (declared_names bs scs) ++ bv) src'.
Proof.
  intros Hok Hold Hd Hq. apply stack_ok_app.
  - unfold letrec_scope. rewrite !rev_reverse. apply Forall2_reverse. clear Hok Hold.
    induction Hd as [|rec sc bs scs Hr Hd IH]; cbn; constructor.
    + split; [done|]. cbn. destruct (is_lambda (lr_value rec)), sc as [p|]; cbn.
      * exists p. split; [done|]. apply Hq. by left.
      * by destruct (proj1 Hr eq_refl).
      * by specialize (proj2 Hr (ex_intro _ p eq_refl)).
      * done.
    + apply IH. intros q Hin. apply Hq. destruct sc; cbn; [by right | done].
  - intros x. specialize (Hok x). destruct (scope_lookup env x) as [[]|]; try done.
    destruct Hok as (n & p & ? & ?). eauto.
Qed.

(** What a call of [create_scombs] on [k] achieves. *)
Definition pending (insc : option nat) (q : nat) : Prop := insc = Some q.

Definition creates (create : source -> list sbinding -> option nat -> string -> snode -> outcome created)
    (k : snode) : Prop :=
  forall env src bv insc prefix, wf_source src -> captured false env k -> stable false env k ->
    stack_ok env bv src -> (forall p, p ∈ screfs k -> p ∈ src_scombs src) ->
    (forall p, insc = Some p -> p ∈ src_scombs src /\ is_lambda k = true) ->
    exists r, create src bv insc prefix k = Done r /\ grows (pending insc) src (cr_src r) /\
      cr_moved r = moves env k /\ lifted env (cr_src r) (cr_node r) /\
      (forall p, insc = Some p -> lifted_sc (cr_src r) p /\ exists sl q, cr_node r = SNODE_SCREF sl q).

Lemma create_values_spec create env prefix bv bs : forall scs src,
  declared bs scs -> Forall (fun rec => creates create (lr_value rec)) bs ->
  wf_source src -> stack_ok env bv src ->
  Forall (fun rec => captured false env (lr_value rec) /\ stable false env (lr_value rec) /\
    forall p, p ∈ screfs (lr_value rec) -> p ∈ src_scombs src) bs ->
  NoDup (omap id scs) -> (forall q, q ∈ omap id scs -> q ∈ src_scombs src) ->
  exists src' bs', create_values create src bv prefix bs scs = Done (src', bs') /\
    grows (fun q => q ∈ omap id scs) src src' /\
    map lr_name bs' = map lr_name bs /\
    (forall rec, rec ∈ bs' -> lifted env src' (lr_value rec)) /\
    (forall q, q ∈ omap id scs -> lifted_sc src' q) /\
    Forall2 (fun rec sc => is_Some sc -> exists sl q, lr_value rec = SNODE_SCREF sl q) bs' scs.
Proof.
  induction bs as [|rec bs IH]; intros scs src Hd Hcr Hwf Hok Hcap Hnd Hlive; inversion Hd as [|? sc ? scs' Hsc Hd']; subst.
  { exists src, []. cbn. split_and!; try done; in_nil. }
  apply Forall_cons in Hcr as [Hcr1 Hcr]. apply Forall_cons in Hcap as [(Hc1 & Hs1 & Hr1) Hcap].
  cbn [create_values].
  destruct (Hcr1 env src bv sc prefix Hwf Hc1 Hs1 Hok Hr1) as (r & -> & HG & _ & Hl1 & Hp1).
  { intros p ->. split; [apply Hlive; by left | apply Hsc; by eexists]. }
  cbn [mbind outcome_bind].
  assert (Hsub : forall q, q ∈ omap id scs' -> q ∈ omap id (sc :: scs')).
  { intros q Hq. destruct sc; cbn; [by right | done]. }
  destruct (IH scs' (cr_src r)) as (src' & bs' & -> & HG' & Hn & Hl & Hfin & HF); try done.
  { apply HG. } { by eapply stack_ok_grows. }
  { eapply Forall_impl; [exact Hcap|]. cbn. intros rec' (? & ? & ?). split_and!; try done.
    intros p Hp. apply HG. auto. }
  { destruct sc; cbn in Hnd; [by apply NoDup_cons in Hnd as [_ ?] | done]. }
  { intros q Hq. apply HG. auto. }
  cbn [mbind outcome_bind]. eexists src', _. split; [reflexivity|]. split_and!.
  - eapply grows_trans; [exact HG | exact HG' | auto |]. intros q [->|Hq]; [by left | auto].
  - cbn. by rewrite Hn.
  - intros rec' [->|Hin]%elem_of_cons; [by eapply lifted_grows | auto].
  - intros q Hq. destruct (decide (q ∈ omap id scs')) as [|Hn']; [auto|].
    destruct sc as [p|]; [|done]. apply elem_of_cons in Hq as [->|Hq]; [|done].
    eapply lifted_sc_grows; [exact HG' | | done | by apply Hp1]. apply HG, Hlive. by left.
  - constructor; [|done]. intros [p ->]. by destruct (Hp1 p eq_refl) as [_ (sl & q & ?)]; eauto.
Qed.

Lemma drop_scombs_spec bs scs :
  Forall2 (fun rec sc => is_Some sc -> exists sl q, lr_value rec = SNODE_SCREF sl q) bs scs ->
  exists bs', drop_scombs bs scs = Done bs' /\ (forall rec, rec ∈ bs' -> rec ∈ bs) /\
    (forall i rec, bs !! i = Some rec -> scs !! i = Some None -> rec ∈ bs') /\
    (Forall is_Some scs <-> bs' = []).
Proof.
  induction 1 as [|rec sc bs scs Hr HF (bs' & E & Hsub & Hkeep & Hnil)]; cbn [drop_scombs].
  { exists []. split_and!; try done. }
  destruct sc as [p|].
  - destruct (Hr (ex_intro _ p eq_refl)) as (sl & q & ->). cbn [cassert mbind outcome_bind].
    exists bs'. split_and!; [done | intros; right; auto | | ].
    + intros [|i] r H1 H2; cbn in *; [done | eauto].
    + rewrite Forall_cons, Hnil. naive_solver.
  - rewrite E. exists (rec :: bs'). split_and!; [done | | |].
    + intros r [->|Hin]%elem_of_cons; [by left | right; auto].
    + intros [|i] r H1 H2; cbn in *; [simplify_eq; by left | right; eauto].
    + rewrite Forall_cons. split; [by intros [[? ?] _] | done].
Qed.

Lemma declared_all bs scs :
  declared bs scs -> forallb (fun rec => is_lambda (lr_value rec)) bs = true <-> Forall is_Some scs.
Proof.
  induction 1 as [|rec sc bs scs Hr HF IH]; cbn; [done|].
  by rewrite andb_true_iff, Forall_cons, IH, Hr.
Qed.

(** A variable bound by a letrec is bound by one of the bindings that stay. *)
Lemma kept_variable (bs bs1 bs2 : list letrec) scs x :
  declared bs scs -> map lr_name bs1 = map lr_name bs ->
  (forall i rec, bs1 !! i = Some rec -> scs !! i = Some None -> rec ∈ bs2) ->
  scope_lookup (letrec_scope bs) x = Some KVar -> x ∈ map lr_name bs2.
Proof.
  intros Hd Hn Hkeep Hx. apply scope_lookup_Some in Hx. unfold letrec_scope in Hx.
  apply elem_of_rev, elem_of_map in Hx as (rec & [= -> Hk] & (i & Hi)%list_elem_of_lookup).
  destruct (is_lambda (lr_value rec)) eqn:El; [done|].
  destruct (Forall2_lookup_l _ _ _ _ _ Hd Hi) as (sc & Hsc & Hiff).
  destruct sc as [p|]; [by rewrite (proj2 Hiff (ex_intro _ p eq_refl)) in El|].
  assert (map lr_name bs1 !! i = Some (lr_name rec)) as H1.
  { by rewrite Hn, list_lookup_fmap, Hi. }
  rewrite list_lookup_fmap in H1. apply fmap_Some in H1 as (rec1 & H1 & ->).
  apply elem_of_map. eauto.
Qed.

Lemma lambda_free_letrec sl bs b :
  lambda_free (SNODE_LETREC sl bs b) <->
  (forall rec, rec ∈ bs -> lambda_free (lr_value rec)) /\ lambda_free b.
Proof. cbn. by rewrite Forall_id_map. Qed.

Lemma lifted_letrec env src sl (bs bs1 bs2 : list letrec) scs b :
  declared bs scs -> map lr_name bs1 = map lr_name bs ->
  (forall rec, rec ∈ bs2 -> rec ∈ bs1) ->
  (forall i rec, bs1 !! i = Some rec -> scs !! i = Some None -> rec ∈ bs2) ->
  (forall rec, rec ∈ bs1 -> lifted (letrec_scope bs ++ env) src (lr_value rec)) ->
  lifted (letrec_scope bs ++ env) src b ->
  lifted env src (SNODE_LETREC sl bs2 b).
Proof.
  intros Hd Hn Hsub Hkeep Hv (Hb1 & Hb2 & Hb3). split_and!.
  - apply lambda_free_letrec. split; [|done]. intros rec Hr. by apply Hv, Hsub.
  - intros x (Hx & Hor)%free_in_letrec.
    assert (scope_lookup (letrec_scope bs ++ env) x = Some KVar) as Hl.
    { destruct Hor as [(v & (rec & -> & Hr)%elem_of_map & Hf)|Hf]; [|auto].
      destruct (Hv rec (Hsub _ Hr)) as (_ & H & _). auto. }
    rewrite scope_lookup_app in Hl. destruct (scope_lookup (letrec_scope bs) x) eqn:E; [|done].
    simplify_eq. destruct Hx. by eapply kept_variable.
  - intros p [(v & (rec & -> & Hr)%elem_of_map & Hp)|Hp]%screfs_letrec; [|auto].
    destruct (Hv rec (Hsub _ Hr)) as (_ & _ & H). auto.
Qed.

(** When nothing stays, the body alone has the free variables of the letrec. *)
Lemma lifted_letrec_nil env src (bs bs1 : list letrec) scs b :
  declared bs scs -> map lr_name bs1 = map lr_name bs ->
  (forall i rec, bs1 !! i = Some rec -> scs !! i = Some None -> rec ∈ @nil letrec) ->
  lifted (letrec_scope bs ++ env) src b -> lifted env src b.
Proof.
  intros Hd Hn Hkeep (Hb1 & Hb2 & Hb3). split_and!; try done. intros x Hx.
  specialize (Hb2 x Hx). rewrite scope_lookup_app in Hb2.
  destruct (scope_lookup (letrec_scope bs) x) eqn:E; [|done]. simplify_eq.
  eapply kept_variable in E; [|done..]. by apply not_elem_of_nil in E.
Qed.

(** ** The main lemma *)

Lemma creates_letrec create sl bs b :
  Forall (fun rec => creates create (lr_value rec)) bs -> creates create b ->
  creates (fun src bv insc prefix k =>
    '(src, inner, scs) ← declare_scombs src bv bs;
    '(src, bs) ← create_values create src inner prefix bs scs;
    r ← create src inner None prefix b;
    bs ← drop_scombs bs scs;
    Done (match bs with
          | [] => Created (cr_src r) (cr_node r) true
          | _ => Created (cr_src r) (SNODE_LETREC sl bs (cr_node r)) false
          end)) (SNODE_LETREC sl bs b).
Proof.
  intros Hbs Hb env src bv insc prefix Hwf Hcap Hst Hok Hrefs Hin.
  assert (insc = None) as -> by (destruct insc as [p|]; [by destruct (Hin p eq_refl)|done]). clear Hin.
  cbn [captured stable] in Hcap, Hst. destruct Hcap as [Hc1 Hc2], Hst as [Hs1 Hs2].
  destruct (declare_scombs_spec bs src bv Hwf) as (src1 & scs & -> & Hwf1 & Hd & Hnd & Hsc1 & Hdis & Hold1).
  cbn [mbind outcome_bind].
  assert (Hsub : forall q, q ∈ src_scombs src -> q ∈ src_scombs src1) by (rewrite Hsc1; set_solver).
  assert (Hps : forall q, q ∈ omap id scs -> q ∈ src_scombs src1) by (rewrite Hsc1; set_solver).
  assert (Hok1 := stack_ok_declared env bv src src1 bs scs Hok Hsub Hd Hps).
  destruct (create_values_spec create (letrec_scope bs ++ env) prefix
    (rev (declared_names bs scs) ++ bv) bs scs src1 Hd Hbs Hwf1 Hok1)
    as (src2 & bs1 & -> & HG2 & Hn & Hl & Hfin & HF); [|done|done|].
  { apply Forall_forall. intros rec Hr. split_and!.
    - by apply (proj1 (Forall_id_map _ _) Hc1).
    - by apply (proj1 (Forall_id_map _ _) Hs1).
    - intros p Hp. apply Hsub, Hrefs, screfs_letrec. left. exists (lr_value rec). rewrite elem_of_map. eauto. }
  cbn [mbind outcome_bind].
  destruct (Hb (letrec_scope bs ++ env) src2 (rev (declared_names bs scs) ++ bv) None prefix)
    as (r & -> & HG3 & _ & Hlb & _); [apply HG2 | done | done | by eapply stack_ok_grows | | done | ].
  { intros p Hp. apply HG2, Hsub, Hrefs, screfs_letrec. by right. }
  cbn [mbind outcome_bind].
  destruct (drop_scombs_spec bs1 scs HF) as (bs2 & -> & Hsub2 & Hkeep & Hnil). cbn [mbind outcome_bind].
  assert (HG : grows (pending None) src (cr_src r)).
  { split; [apply HG3 | intros q Hq; by apply HG3, HG2, Hsub | |].
    - intros q Hq _. rewrite (gr_same _ _ _ HG3), (gr_same _ _ _ HG2), Hold1; try done; [by apply Hsub | | by apply HG2, Hsub].
      intros H. by apply Hdis in H.
    - intros q Hq Hn'. destruct (decide (q ∈ src_scombs src2)) as [H2|H2]; [|by apply HG3].
      eapply lifted_sc_grows; [exact HG3 | done | done |].
      destruct (decide (q ∈ src_scombs src1)) as [H1|H1]; [|by apply HG2].
      apply Hfin. rewrite Hsc1 in H1. set_solver. }
  assert (Hl3 : forall rec, rec ∈ bs1 -> lifted (letrec_scope bs ++ env) (cr_src r) (lr_value rec)).
  { intros rec Hr. by eapply lifted_grows, Hl. }
  destruct bs2 as [|rec2 bs2].
  - eexists. split; [reflexivity|]. split_and!; [done | | by eapply lifted_letrec_nil | done].
    cbn. symmetry. apply (declared_all _ _ Hd). by apply Hnil.
  - eexists. split; [reflexivity|]. split_and!; [done | | by eapply lifted_letrec | done].
    cbn. symmetry. apply not_true_iff_false. intros H. apply (declared_all _ _ Hd), Hnil in H. done.
Qed.

Lemma split_screfs k : forall chain body, split_lambdas k = (chain, body) -> screfs k = screfs body.
Proof.
  snode_induction k; intros chain body H; cbn in H; try (injection H as <- <-; done).
  destruct (split_lambdas b) as [ch b']. injection H as <- <-. by eapply IHb.
Qed.

Lemma split_size k : forall chain body, split_lambdas k = (chain, body) -> is_lambda k = true ->
  snode_size body < snode_size k.
Proof.
  snode_induction k; intros chain body H Hl; try done. cbn in H.
  destruct (split_lambdas b) as [ch b'] eqn:E. injection H as <- <-. cbn [snode_size].
  destruct (is_lambda b) eqn:Eb.
  - specialize (IHb _ _ eq_refl eq_refl). lia.
  - destruct b; try done; cbn in E; simplify_eq; cbn [snode_size]; lia.
Qed.

Lemma parameter_lookup env chain x :
  scope_lookup (rev (map (fun n => (ch_name n, KVar)) chain) ++ map outer env) x = Some KVar ->
  x ∈ map ch_name chain.
Proof.
  rewrite scope_lookup_app, scope_lookup_outer.
  destruct (scope_lookup (rev _) x) eqn:E; [|by destruct (scope_lookup env x) as [[]|]].
  intros _. apply scope_lookup_Some, elem_of_rev, elem_of_map in E as (n & [= -> _] & Hn).
  apply elem_of_map. eauto.
Qed.

Lemma stack_ok_parameters env bv src chain :
  stack_ok env bv src ->
  stack_ok (rev (map (fun n => (ch_name n, KVar)) chain) ++ map outer env)
    (rev (map (fun n => Sbinding n None) (map ch_name chain)) ++ bv) src.
Proof.
  intros H. apply stack_ok_app; [|by apply stack_ok_outer].
  rewrite map_map, !rev_reverse. apply Forall2_reverse, Forall2_fmap, Forall_Forall2_diag, Forall_true.
  by split.
Qed.

(** Storing the finished body of [p]. *)
Lemma store_body_grows P src src' p sc chain env c :
  grows nothing src src' -> p ∈ src_scombs src -> src_heap src !! p = Some sc ->
  sc_argnames sc = map ch_name chain ->
  lifted (rev (map (fun n => (ch_name n, KVar)) chain) ++ map outer env) src' c ->
  (forall q, P q <-> q = p) ->
  grows P src (upd src' p (set_body c)) /\ lifted_sc (upd src' p (set_body c)) p.
Proof.
  intros HG Hp Hs Ha (Hl & Hf & Hr) HP. split.
  - split; [by apply upd_wf, HG | intros q Hq; by apply HG | |].
    + intros q Hq Hn. rewrite HP in Hn. rewrite upd_same by done. apply (gr_same _ _ _ HG); [done | by intros []].
    + intros q Hq Hn. destruct (gr_new _ _ _ HG q Hq Hn) as (sc' & b & H1 & H2).
      exists sc', b. rewrite upd_same by (by intros ->). done.
  - exists (set_body c sc), c. split_and!; [| done | done |].
    + cbn. rewrite list_lookup_alter_eq, (gr_same _ _ _ HG) by (done || by intros []). by rewrite Hs.
    + exists c. split_and!; [done | | done]. cbn. rewrite Ha. intros x Hx. by eapply parameter_lookup, Hf.
Qed.

(** Both ways of getting the supercombinator of an abstraction. *)
Lemma lambda_entry src insc prefix sl :
  wf_source src -> (forall p, insc = Some p -> p ∈ src_scombs src) ->
  exists src1 p sc, (match insc with
    | Some p => Done (src, p)
    | None => '(src, p) ← add_scomb src prefix; Done (upd src p (set_sl sl), p)
    end) = Done (src1, p) /\ wf_source src1 /\ p ∈ src_scombs src1 /\ src_heap src1 !! p = Some sc /\
    (forall q, q ∈ src_scombs src1 <-> q ∈ src_scombs src \/ q = p) /\
    (forall q, q ∈ src_scombs src -> src_heap src1 !! q = src_heap src !! q) /\
    (insc = None -> p ∉ src_scombs src) /\ (forall q, insc = Some q -> q = p).
Proof.
  intros Hwf Hin. destruct insc as [p|].
  - specialize (Hin p eq_refl). destruct (wf_valid _ Hwf p Hin) as [sc Hs].
    exists src, p, sc. split_and!; naive_solver.
  - destruct (new_entry src prefix (set_sl sl) Hwf) as (src0 & p & name & -> & Hwf1 & Hsc & Hp & Hold & Hnew); [done|].
    eexists _, p, _. split; [reflexivity|]. rewrite Hsc. split_and!; try done; set_solver.
Qed.

Lemma creates_lambda create k chain body :
  split_lambdas k = (chain, body) -> is_lambda k = true -> creates create body ->
  creates (create_lambda create) k.
Proof.
  intros E Hlam Hb env src bv insc prefix Hwf Hcap Hst Hok Hrefs Hin.
  apply (captured_chain k env false chain body E Hlam) in Hcap.
  destruct (stable_chain k env false chain body E Hlam Hst) as [Hmv Hst'].
  unfold create_lambda. rewrite E.
  destruct (lambda_entry src insc prefix (node_sl k) Hwf) as (src1 & p & sc & -> & Hwf1 & Hp & Hs & Hsc & Hold & Hnone & Hsome).
  { intros q Hq. by apply Hin. }
  cbn [mbind outcome_bind].
  set (src2 := upd src1 p _). set (sc2 := set_argnames (map ch_name chain) (set_body body sc)).
  assert (Hs2 : src_heap src2 !! p = Some sc2).
  { unfold src2; cbn. by rewrite list_lookup_alter_eq, Hs. }
  unfold getsc. rewrite Hs2. cbn [deref mbind outcome_bind].
  assert (Hsub : forall q, q ∈ src_scombs src -> q ∈ src_scombs src2) by (intros; apply Hsc; by left).
  assert (Hwf2 : wf_source src2) by (by apply upd_wf).
  destruct (Hb _ src2 (rev (map (fun n => Sbinding n None) (map ch_name chain)) ++ bv) None (sc_name sc2)
    Hwf2 Hcap Hst') as (r & -> & HG & Hm & Hl & _).
  { apply stack_ok_parameters. intros x. specialize (Hok x).
    destruct (scope_lookup env x) as [[]|]; naive_solver. }
  { intros q Hq. apply Hsub, Hrefs. by rewrite (split_screfs _ _ _ E). }
  { done. }
  cbn [mbind outcome_bind]. rewrite Hm, Hmv. cbn [negb cassert mbind outcome_bind].
  eexists. split; [reflexivity|]. cbn [cr_src cr_node cr_moved].
  destruct (store_body_grows (fun q => q = p) src2 (cr_src r) p sc2 chain env (cr_node r)) as [HG2 Hlp]; try done.
  { destruct HG as [? ? Hsm ?]. split; try done. intros q Hq _. by apply Hsm. }
  split_and!.
  - split; [apply HG2 | intros q Hq; by apply HG2, Hsub | |].
    + intros q Hq Hn. assert (q <> p).
      { intros ->. destruct insc as [p'|]; [|by apply Hnone]. apply Hn. red. f_equal. by apply Hsome. }
      rewrite (gr_same _ _ _ HG2); [|by apply Hsub|done]. unfold src2. rewrite upd_same by done. by apply Hold.
    + intros q Hq Hn. destruct (decide (q = p)) as [->|Hne]; [done|].
      apply (gr_new _ _ _ HG2); [done|]. intros [?|?]%Hsc; done.
  - by destruct k.
  - split_and!; [done | done |]. intros q ->%list_elem_of_singleton. by apply HG2.
  - intros q Hq. rewrite (Hsome q Hq). split; [done|]. eauto.
Qed.

Lemma creates_symbol fuel sl x : creates (create_scombs (S fuel)) (SNODE_SYMBOL sl x).
Proof.
  intros env src bv insc prefix Hwf Hcap _ Hok _ Hin.
  assert (insc = None) as -> by (destruct insc as [p|]; [by destruct (Hin p eq_refl)|done]).
  cbn [create_scombs moves captured] in *. specialize (Hok x).
  destruct Hcap as [E|E]; rewrite E in *.
  - exists (Created src (SNODE_SYMBOL sl x) false). split_and!; try done.
    + destruct (sb_lookup bv x) as [[n [p|]]|]; [by destruct (Hok n p) | done | done].
    + split_and!; [done | by intros y -> | cbn; in_nil].
  - destruct Hok as (n & p & -> & Hp). eexists. split; [reflexivity|]. split_and!; try done.
    split_and!; [done | done |]. by intros q ->%list_elem_of_singleton.
Qed.

Lemma creates_leaf fuel k :
  match k with
  | SNODE_BUILTIN _ _ | SNODE_SCREF _ _ | SNODE_NIL _ | SNODE_NUMBER _ _ | SNODE_STRING _ _ => True
  | _ => False
  end -> creates (create_scombs (S fuel)) k.
Proof.
  intros Hk env src bv insc prefix Hwf _ _ _ Hrefs Hin.
  assert (insc = None) as -> by (destruct insc as [p|]; [by destruct (Hin p eq_refl), k|done]).
  exists (Created src k false). destruct k; try done; split_and!; try done; by split_and!.
Qed.

Lemma creates_application fuel sl st l r :
  creates (create_scombs fuel) l -> creates (create_scombs fuel) r ->
  creates (create_scombs (S fuel)) (SNODE_APPLICATION sl st l r).
Proof.
  intros Hl Hr env src bv insc prefix Hwf [Hc1 Hc2] [Hs1 Hs2] Hok Hrefs Hin.
  assert (insc = None) as -> by (destruct insc as [p|]; [by destruct (Hin p eq_refl)|done]).
  cbn [create_scombs]. cbn [screfs] in Hrefs. setoid_rewrite elem_of_app in Hrefs.
  destruct (Hl env src bv None prefix) as (ra & -> & HG1 & _ & (L1 & L2 & L3) & _); auto; [done|].
  cbn [mbind outcome_bind].
  destruct (Hr env (cr_src ra) bv None prefix) as (rb & -> & HG2 & _ & (R1 & R2 & R3) & _); auto.
  { apply HG1. } { by eapply stack_ok_grows. } { intros p Hp. apply HG1. auto. } { done. }
  eexists. split; [reflexivity|]. split_and!; try done.
  - eapply grows_trans; [exact HG1 | exact HG2 | done | naive_solver].
  - split_and!; [done | cbn; naive_solver |]. cbn. intros p [Hp|Hp]%elem_of_app; [|auto].
    apply HG2. auto.
Qed.

Lemma creates_all fuel : forall k, snode_size k <= fuel -> creates (create_scombs fuel) k.
Proof.
  induction fuel as [|fuel IH]; intros k Hk; [destruct k; cbn in Hk; lia|].
  destruct k as [sl st l r|sl n b|sl bif|sl n|sl bs b|sl sc|sl|sl num|sl s]; try (by apply creates_leaf).
  - cbn in Hk. apply creates_application; apply IH; lia.
  - destruct (split_lambdas (SNODE_LAMBDA sl n b)) as [chain body] eqn:E.
    refine (creates_lambda (create_scombs fuel) _ chain body E eq_refl _).
    apply IH. pose proof (split_size _ _ _ E eq_refl). lia.
  - apply creates_symbol.
  - cbn in Hk. refine (creates_letrec (create_scombs fuel) sl bs b _ _); [|apply IH; lia].
    apply Forall_forall. intros rec Hr. apply IH.
    pose proof (letrec_value_size sl bs b rec Hr) as Hlt. cbn in Hlt. lia.
Qed.

(** ** Theorems *)

(** The scope of the body of a supercombinator. *)
Definition argument_scope (args : list string) : scope := rev (map (fun a => (a, KVar)) args).

Lemma argument_scope_stack args : Forall2 same_binder (argument_scope args) (rev (map (fun a => Binding a false) args)).
Proof.
  unfold argument_scope. rewrite !rev_reverse.
  apply Forall2_reverse, Forall2_fmap, Forall_Forall2_diag, Forall_true. by split.
Qed.

Lemma argument_scope_lookup args x k : scope_lookup (argument_scope args) x = Some k -> k = KVar /\ x ∈ args.
Proof.
  intros H. apply scope_lookup_Some in H. unfold argument_scope in H.
  apply elem_of_rev, elem_of_map in H as (a & [= -> ->] & Ha). done.
Qed.

Lemma argument_scope_member args x : x ∈ args -> scope_lookup (argument_scope args) x = Some KVar.
Proof.
  intros H. destruct (proj2 (scope_lookup_dom (argument_scope args) x)) as [k Hk].
  - unfold argument_scope. rewrite map_rev, map_map, elem_of_rev, map_id. done.
  - rewrite Hk. f_equal. by eapply argument_scope_lookup.
Qed.

(** C28. The test that ends the capture loop is right: a pass over a closed body
    that leaves the flag clear has not touched the body, and in that body no
    abstraction uses a variable of an enclosing abstraction; names bound to
    abstractions are the only ones that cross. *)
Theorem capture_fixpoint fuel args body lam body' :
  (forall x, free_in x body -> x ∈ args) ->
  capture fuel (rev (map (fun a => Binding a false) args)) [] (false, None) body = Done ((false, lam), body') ->
  lam = None /\ body' = body /\ captured false (argument_scope args) body.
Proof.
  intros Hfree H.
  destruct (capture_unchanged fuel (argument_scope args) _ _ _ _ _ _ H eq_refl) as (E & -> & Hc).
  - split; cbn; try done; [apply argument_scope_stack|].
    intros _ [x k]. unfold argument_scope. rewrite elem_of_rev, elem_of_map. by intros (a & [= -> ->] & _).
  - intros _ x Hx. rewrite (argument_scope_member args) by auto. by eexists.
  - by simplify_eq.
Qed.

(** [a (\\x.x x)] *)
Definition sample_lambda : snode :=
  SNODE_APPLICATION nosl false (SNODE_SYMBOL nosl "a")
    (SNODE_LAMBDA nosl "x" (SNODE_APPLICATION nosl false (SNODE_SYMBOL nosl "x") (SNODE_SYMBOL nosl "x"))).

Lemma capture_fixpoint_witness :
  @None (list chain_node) = None /\ sample_lambda = sample_lambda /\ captured false (argument_scope ["a"]) sample_lambda.
Proof.
  apply (capture_fixpoint 10 ["a"] sample_lambda None sample_lambda); [|vm_compute; reflexivity].
  cbn. intros x Hx. apply list_elem_of_singleton. naive_solver.
Defined.

(** C10. Creating supercombinators from a captured body returns normally if no
    abstraction in it has a body that is replaced as a whole (a name of a lifted
    function, or a letrec of nothing but abstractions: [stable]); the table stays
    well-formed; the supercombinators that existed are untouched; each new one
    has a body without abstractions whose free variables are its own arguments
    and whose references are live; and the same holds of what is left of the
    body, over the arguments of the enclosing supercombinator. *)
Theorem create_scombs_lifts fuel src args prefix k :
  wf_source src -> captured false (argument_scope args) k -> stable false (argument_scope args) k ->
  (forall p, p ∈ screfs k -> p ∈ src_scombs src) -> snode_size k <= fuel ->
  exists r, create_scombs fuel src [] None prefix k = Done r /\ wf_source (cr_src r) /\
    (lambda_free (cr_node r) /\ (forall x, free_in x (cr_node r) -> x ∈ args) /\
     (forall p, p ∈ screfs (cr_node r) -> p ∈ src_scombs (cr_src r))) /\
    (forall q, q ∈ src_scombs src -> q ∈ src_scombs (cr_src r) /\ src_heap (cr_src r) !! q = src_heap src !! q) /\
    (forall q, q ∈ src_scombs (cr_src r) -> q ∉ src_scombs src -> lifted_sc (cr_src r) q).
Proof.
  intros Hwf Hcap Hst Hrefs Hf.
  destruct (creates_all fuel k Hf (argument_scope args) src [] None prefix Hwf Hcap Hst)
    as (r & E & HG & _ & (Hl & Hx & Hr) & _); try done.
  { intros x. destruct (scope_lookup (argument_scope args) x) as [k'|] eqn:Ek; [|done].
    apply argument_scope_lookup in Ek as [-> _]. done. }
  exists r. split_and!; try done.
  - apply HG.
  - intros x Hfx. by eapply argument_scope_lookup, Hx.
  - intros q Hq. split; [by apply HG | by apply (gr_same _ _ _ HG)].
  - apply HG.
Qed.

Lemma create_scombs_lifts_witness :
  exists r, create_scombs 20 (source_of [new_scomb "f" 0]) [] None "f" sample_lambda = Done r /\ wf_source (cr_src r) /\
    (lambda_free (cr_node r) /\ (forall x, free_in x (cr_node r) -> x ∈ ["a"]) /\
     (forall p, p ∈ screfs (cr_node r) -> p ∈ src_scombs (cr_src r))) /\
    (forall q, q ∈ src_scombs (source_of [new_scomb "f" 0]) -> q ∈ src_scombs (cr_src r) /\
      src_heap (cr_src r) !! q = src_heap (source_of [new_scomb "f" 0]) !! q) /\
    (forall q, q ∈ src_scombs (cr_src r) -> q ∉ src_scombs (source_of [new_scomb "f" 0]) -> lifted_sc (cr_src r) q).
Proof.
  apply (create_scombs_lifts 20 (source_of [new_scomb "f" 0]) ["a"] "f" sample_lambda).
  - apply source_of_wf, NoDup_singleton.
  - cbn. auto.
  - cbn. auto.
  - cbn. in_nil.
  - cbn. lia.
Defined.

(** C39. The condition on abstraction bodies is needed: when the body of an
    abstraction is just the name of an abstraction bound by an enclosing
    letrec, the node is freed and replaced while [newsc->body] still points to
    it, and the next statement reads through that pointer. *)
Theorem create_scombs_dangling fuel src bv insc prefix k chain sl x n q :
  wf_source src -> (forall p, insc = Some p -> p ∈ src_scombs src) ->
  is_lambda k = true -> split_lambdas k = (chain, SNODE_SYMBOL sl x) ->
  x ∉ map ch_name chain -> sb_lookup bv x = Some (Sbinding n (Some q)) ->
  create_scombs (S (S fuel)) src bv insc prefix k = Crash.
Proof.
  intros Hwf Hin Hl E Hx Hb. destruct k; try done. cbn [create_scombs]. unfold create_lambda. rewrite E.
  destruct (lambda_entry src insc prefix (node_sl (SNODE_LAMBDA sl0 name k)) Hwf Hin)
    as (src1 & p & sc & -> & _ & _ & Hs & _). cbn [mbind outcome_bind].
  unfold getsc. cbn [upd set_heap src_heap]. rewrite list_lookup_alter_eq, Hs. cbn [fmap option_fmap option_map deref mbind outcome_bind].
  rewrite sb_lookup_app. destruct (sb_lookup (rev _) x) as [b|] eqn:Eb.
  - exfalso. apply Hx. apply sb_lookup_Some in Eb as [Hin' <-].
    by apply elem_of_rev, elem_of_map in Hin' as (m & -> & Hm).
  - by rewrite Hb.
Qed.

Lemma create_scombs_dangling_witness :
  create_scombs 7 (source_of [new_scomb "g" 0]) [Sbinding "g" (Some 0)] None "f"
    (SNODE_LAMBDA nosl "x" (SNODE_SYMBOL nosl "g")) = Crash.
Proof.
  apply (create_scombs_dangling 5 (source_of [new_scomb "g" 0]) [Sbinding "g" (Some 0)] None "f"
    (SNODE_LAMBDA nosl "x" (SNODE_SYMBOL nosl "g")) [ChainNode nosl "x" false] nosl "g" "g" 0);
    [apply source_of_wf, NoDup_singleton | done | reflexivity | reflexivity | | reflexivity].
  cbn. intros H%list_elem_of_singleton. discriminate.
Defined.
