(* ===== verification/Double.v ===== *)
(** * IEEE double bit patterns

    The compiler and the run-time system treat a [double] both as a number and
    as 64 bits. What they compute on it is modelled on the bits: whether it is
    a whole number ([floor(x) == x]), the conversion to [int], and the two
    32-bit halves. *)

From S2P Require Import Prelude.
#[local] Open Scope Z_scope.

Definition double_sign (b : Z) : bool := Z.testbit b 63.
Definition double_exp (b : Z) : Z := Z.land (Z.shiftr b 52) 2047.
Definition double_frac (b : Z) : Z := Z.land b (2^52 - 1).

Definition is_nan (b : Z) : bool := (double_exp b =? 2047) && negb (double_frac b =? 0).
Definition is_inf (b : Z) : bool := (double_exp b =? 2047) && (double_frac b =? 0).

(** A finite double is [mantissa * 2^scale]. *)
Definition double_mantissa (b : Z) : Z :=
  if double_exp b =? 0 then double_frac b else double_frac b + 2^52.
Definition double_scale (b : Z) : Z := Z.max 1 (double_exp b) - 1075.

Definition magnitude_whole (b : Z) : option Z :=
  let m := double_mantissa b in
  let s := double_scale b in
  if 0 <=? s then Some (m * 2^s)
  else if m mod 2^(-s) =? 0 then Some (m / 2^(-s)) else None.

(** [floor(x) == x]; true of the infinities, false of the NaNs. *)
Definition floor_equal (b : Z) : bool :=
  if double_exp b =? 2047 then is_inf b
  else match magnitude_whole b with Some _ => true | None => false end.

(** [(int)x] of a whole number; outside the range of [int] it is undefined. *)
Definition int_of_double (b : Z) : outcome Z :=
  if double_exp b =? 2047 then Crash
  else
    match magnitude_whole b with
    | Some m => cint (if double_sign b then -m else m)
    | None => Crash
    end.

(** The two [int]s a double is made of, low one first. *)
Definition double_lo (b : Z) : Z := wrap32 (b mod 2^32).
Definition double_hi (b : Z) : Z := wrap32 (b / 2^32).

(** Reassembling the number from the halves, as the interpreter does. *)
Definition double_of_halves (lo hi : Z) : Z := lo mod 2^32 + (hi mod 2^32) * 2^32.

Lemma wrap32_mod z : wrap32 z mod 2^32 = z mod 2^32.
Proof.
  unfold wrap32. change 4294967296 with (2^32).
  rewrite Zminus_mod, Zmod_mod, <- Zminus_mod. f_equal. lia.
Qed.

Lemma double_halves b : 0 <= b < 2^64 -> double_of_halves (double_lo b) (double_hi b) = b.
Proof.
  intros Hb. unfold double_of_halves, double_lo, double_hi. rewrite !wrap32_mod, Zmod_mod.
  rewrite (Z.mod_small (b / 2^32)).
  - pose proof (Z.div_mod b (2^32)). lia.
  - split; [apply Z.div_pos; lia | apply Z.div_lt_upper_bound; lia].
Qed.
