(* ===== verification/Pointer.v ===== *)
(** * Values of the run-time system (src/nreduce/runtime/runtime.h)

    A [pntr] is 64 bits: a [double], or a 32-bit address tagged by an upper
    half that no ordinary number has. The macros of runtime.h are modelled on
    the two words, and the theorems say when the encoding can be undone and
    which numbers it mistakes for an address. *)

From S2P Require Import Prelude Double.
#[local] Open Scope Z_scope.

(** ** Cell types *)
Definition CELL_EMPTY : Z := 0.
Definition CELL_APPLICATION : Z := 1.
Definition CELL_BUILTIN : Z := 2.
Definition CELL_CONS : Z := 3.
Definition CELL_REMOTEREF : Z := 4.
Definition CELL_IND : Z := 5.
Definition CELL_SCREF : Z := 6.
Definition CELL_AREF : Z := 7.
Definition CELL_HOLE : Z := 8.
Definition CELL_FRAME : Z := 9.
Definition CELL_CAP : Z := 10.
Definition CELL_NIL : Z := 11.
Definition CELL_NUMBER : Z := 12.
Definition CELL_SYMBOL : Z := 13.
Definition CELL_SYSOBJECT : Z := 14.
Definition CELL_OBJS : Z := 15.
Definition CELL_O_ARRAY : Z := 16.
Definition CELL_O_CAP : Z := 17.
Definition CELL_COUNT : Z := 18.

(** ** The two words *)
Record pntr := Pntr { p_lo : Z; p_hi : Z }.

#[export] Instance pntr_eq_dec : EqDecision pntr.
Proof. solve_decision. Defined.

Definition PNTR_MASK : Z := 4294443008.   (* 0xFFF80000 *)
Definition INDEX_MASK : Z := 524287.      (* 0x0007FFFF *)
Definition PNTR_VALUE : Z := 4293918720.  (* 0xFFF00000 *)
Definition MAX_ARRAY_SIZE : Z := Z.shiftl 1 19.

(** An [unsigned int]. *)
Definition word (z : Z) : Prop := 0 <= z < 2^32.
Definition word_pntr (p : pntr) : Prop := word (p_lo p) /\ word (p_hi p).

Definition is_pntr (p : pntr) : bool := Z.land (p_hi p) PNTR_MASK =? PNTR_VALUE.
Definition make_pntr (c : Z) : pntr := Pntr c PNTR_VALUE.

(** [__i] is an [int]: the assertion lets negative ones through, and their
    sign bits end up in the upper half. *)
Definition make_aref_pntr (c i : Z) : outcome pntr :=
  cassert (i <? MAX_ARRAY_SIZE);; Done (Pntr c (Z.lor PNTR_VALUE (i mod 2^32))).
Definition aref_index (p : pntr) : Z := Z.land (p_hi p) (Z.ldiff (2^32 - 1) PNTR_MASK).
Definition get_pntr (p : pntr) : outcome Z := cassert (is_pntr p);; Done (p_lo p).
Definition pntrequal (a b : pntr) : bool := (p_lo a =? p_lo b) && (p_hi a =? p_hi b).

Definition NULL_PNTR : pntr := Pntr 1 PNTR_VALUE.
Definition is_nullpntr (p : pntr) : bool := is_pntr p && (p_lo p =? 1).

(** The same words read and written as a [double]. *)
Definition pntrdouble (p : pntr) : Z := p_lo p + p_hi p * 2^32.
Definition set_pntrdouble (b : Z) : pntr := Pntr (b mod 2^32) (b / 2^32).

(** [setnumber] (builtins.c): every NaN becomes the one of [NAN_BITS]. *)
Definition NAN_BITS : Z := 18444492273895866368. (* 0xFFF8000000000000 *)
Definition setnumber (b : Z) : pntr :=
  if is_nan b then set_pntrdouble NAN_BITS else set_pntrdouble b.

Definition NEG_INFINITY : Z := 18442240474082181120. (* 0xFFF0000000000000 *)

(** ** Bits of the upper half *)

(** The mask keeps the 13 upper bits: the test is one on the quotient. *)
Lemma is_pntr_div p : word (p_hi p) -> is_pntr p = (p_hi p / 2^19 =? PNTR_VALUE / 2^19).
Proof.
  intros Hw. unfold is_pntr. set (h := p_hi p) in *.
  assert (Z.land h PNTR_MASK = (h / 2^19) * 2^19) as ->.
  { change PNTR_MASK with (Z.shiftl (Z.ones 13) 19).
    rewrite <- Z.shiftr_div_pow2, <- Z.shiftl_mul_pow2 by lia.
    apply Z.bits_inj'. intros n Hn. rewrite Z.land_spec, !Z.shiftl_spec by done.
    destruct (Z.ltb_spec n 19) as [Hlt|Hge].
    - rewrite !(Z.testbit_neg_r _ (n - 19)) by lia. by rewrite andb_false_r.
    - rewrite Z.shiftr_spec by lia. replace (n - 19 + 19) with n by lia.
      rewrite Z.testbit_ones by lia. destruct (Z.ltb_spec (n - 19) 13).
      + rewrite andb_comm. replace (0 <=? n - 19) with true by (symmetry; apply Z.leb_le; lia). done.
      + rewrite (proj2 (Z.testbit_false h n Hn)); [done|].
        rewrite Z.div_small; [done|]. split; [apply Hw|]. unfold word in Hw.
        eapply Z.lt_le_trans; [apply Hw|]. apply Z.pow_le_mono_r; lia. }
  change PNTR_VALUE with ((PNTR_VALUE / 2^19) * 2^19) at 1.
  destruct (Z.eqb_spec (h / 2^19) (PNTR_VALUE / 2^19)) as [E|E].
  - rewrite E. apply Z.eqb_refl.
  - apply Z.eqb_neq. intros H. apply E. nia.
Qed.

Lemma make_pntr_is_pntr c : is_pntr (make_pntr c) = true.
Proof. reflexivity. Qed.

Lemma get_make_pntr c : get_pntr (make_pntr c) = Done c.
Proof. reflexivity. Qed.

Lemma aref_hi i : 0 <= i < MAX_ARRAY_SIZE -> Z.lor PNTR_VALUE (i mod 2^32) = PNTR_VALUE + i.
Proof.
  intros Hi. change MAX_ARRAY_SIZE with (2^19) in Hi. rewrite Z.mod_small by lia.
  assert (Z.land PNTR_VALUE i = 0) as H0.
  { rewrite <- (Z.mod_small i (2^19)) by lia. rewrite <- Z.land_ones by lia.
    rewrite (Z.land_comm i), Z.land_assoc. by change (Z.land PNTR_VALUE (Z.ones 19)) with 0. }
  by rewrite <- Z.lxor_lor, <- Z.add_nocarry_lxor by done.
Qed.

Lemma aref_index_hi c i : 0 <= i < MAX_ARRAY_SIZE -> aref_index (Pntr c (PNTR_VALUE + i)) = i.
Proof.
  intros Hi. change MAX_ARRAY_SIZE with (2^19) in Hi. unfold aref_index. cbn [p_hi].
  change (Z.ldiff (2^32 - 1) PNTR_MASK) with (Z.ones 19). rewrite Z.land_ones by lia.
  change PNTR_VALUE with (8190 * 2^19). rewrite Z.add_comm, Z.mod_add by lia. by apply Z.mod_small.
Qed.

Lemma word_hi i : 0 <= i < MAX_ARRAY_SIZE -> word (PNTR_VALUE + i).
Proof. change MAX_ARRAY_SIZE with (2^19). unfold word, PNTR_VALUE. lia. Qed.

Lemma is_pntr_hi c i : 0 <= i < MAX_ARRAY_SIZE -> is_pntr (Pntr c (PNTR_VALUE + i)) = true.
Proof.
  intros Hi. rewrite is_pntr_div by by apply word_hi. cbn [p_hi]. apply Z.eqb_eq.
  change MAX_ARRAY_SIZE with (2^19) in Hi. change PNTR_VALUE with (8190 * 2^19) at 1.
  rewrite Z.add_comm, Z.div_add by lia. by rewrite Z.div_small.
Qed.

(** A reference into an array can be taken apart again: the assertion holds,
    the result is a pointer, and address and index are the ones put in. *)
Theorem aref_roundtrip c i :
  word c -> 0 <= i < MAX_ARRAY_SIZE ->
  exists p, make_aref_pntr c i = Done p /\ word_pntr p /\ is_pntr p = true /\
    get_pntr p = Done c /\ aref_index p = i.
Proof.
  intros Hc Hi. unfold make_aref_pntr. rewrite (proj2 (Z.ltb_lt _ _)) by apply Hi.
  rewrite aref_hi by done. eexists. split; [reflexivity|].
  split_and!; [split; [done | by apply word_hi] | by apply is_pntr_hi | | by apply aref_index_hi].
  unfold get_pntr. by rewrite is_pntr_hi.
Qed.

Lemma aref_roundtrip_witness :
  exists p, make_aref_pntr 4096 7 = Done p /\ word_pntr p /\ is_pntr p = true /\
    get_pntr p = Done 4096 /\ aref_index p = 7.
Proof. apply aref_roundtrip; [split; [discriminate | reflexivity] | split; [discriminate | reflexivity]]. Defined.

(** ** Numbers *)

Lemma set_pntrdouble_word b : 0 <= b < 2^64 -> word_pntr (set_pntrdouble b).
Proof.
  intros Hb. split; unfold word; cbn [set_pntrdouble p_lo p_hi].
  - apply Z.mod_pos_bound. lia.
  - split; [apply Z.div_pos; lia | apply Z.div_lt_upper_bound; lia].
Qed.

Lemma pntrdouble_set b : pntrdouble (set_pntrdouble b) = b.
Proof. unfold pntrdouble. cbn. pose proof (Z.div_mod b (2^32)). lia. Qed.

Lemma set_pntrdouble_get p : word_pntr p -> set_pntrdouble (pntrdouble p) = p.
Proof.
  intros [Hlo Hhi]. destruct p as [lo hi]. unfold set_pntrdouble, pntrdouble, word in *. cbn [p_lo p_hi] in *.
  rewrite Z.mod_add by lia. rewrite (Z.mod_small lo) by done. rewrite Z.div_add by lia.
  by rewrite Z.div_small.
Qed.

(** The double's exponent and fraction from the 13 bits the tag looks at. *)
Lemma double_exp_div b : 0 <= b < 2^64 -> double_exp b = b / 2^52 mod 2^11.
Proof.
  intros Hb. unfold double_exp. change 2047 with (Z.ones 11). rewrite Z.land_ones by lia.
  by rewrite Z.shiftr_div_pow2 by lia.
Qed.

Lemma double_frac_mod b : double_frac b = b mod 2^52.
Proof. unfold double_frac. change (2^52 - 1) with (Z.ones 52). by rewrite Z.land_ones by lia. Qed.

Lemma is_pntr_double b :
  0 <= b < 2^64 -> is_pntr (set_pntrdouble b) = true <-> NEG_INFINITY <= b < NAN_BITS.
Proof.
  intros Hb. rewrite is_pntr_div by by apply set_pntrdouble_word. cbn [set_pntrdouble p_hi].
  rewrite Z.eqb_eq, Z.div_div by lia. change (PNTR_VALUE / 2^19) with 8190.
  unfold NEG_INFINITY, NAN_BITS. split; intros H.
  - pose proof (Z.div_mod b (2^32 * 2^19)). pose proof (Z.mod_pos_bound b (2^32 * 2^19)). lia.
  - symmetry. apply (Z.div_unique _ _ _ (b - 8190 * (2^32 * 2^19))); lia.
Qed.

(** In the range the tag covers, everything but its first member is a NaN. *)
Lemma tag_range_nan b : NEG_INFINITY <= b < NAN_BITS -> is_nan b = negb (b =? NEG_INFINITY).
Proof.
  intros Hb. unfold NEG_INFINITY, NAN_BITS in *. assert (0 <= b < 2^64) as H64 by lia.
  unfold is_nan. rewrite double_exp_div, double_frac_mod by done.
  assert (b / 2^52 = 4095) as ->.
  { symmetry. apply (Z.div_unique _ _ _ (b - 4095 * 2^52)); lia. }
  change (4095 mod 2^11 =? 2047) with true. cbn [andb]. f_equal.
  assert (b mod 2^52 = b - 4095 * 2^52) as ->.
  { symmetry. apply (Z.mod_unique _ _ 4095); lia. }
  destruct (Z.eqb_spec (b - 4095 * 2^52) 0), (Z.eqb_spec b 18442240474082181120); lia.
Qed.

(** C37. A number written by [setnumber] reads back as itself, or as the one NaN,
    and it is taken for a pointer exactly when it is minus infinity: the
    address is then 0. Division by zero and overflow do produce that value. *)
Theorem setnumber_spec b :
  0 <= b < 2^64 ->
  pntrdouble (setnumber b) = (if is_nan b then NAN_BITS else b) /\
  (is_pntr (setnumber b) = true <-> b = NEG_INFINITY) /\
  (b = NEG_INFINITY -> get_pntr (setnumber b) = Done 0).
Proof.
  intros Hb. unfold setnumber. destruct (is_nan b) eqn:Hn.
  - split_and!; [by rewrite pntrdouble_set | | intros ->; discriminate Hn].
    split; [discriminate|]. intros ->. discriminate Hn.
  - split_and!; [by rewrite pntrdouble_set | | by intros ->].
    rewrite is_pntr_double by done. split.
    + intros Hr. rewrite (tag_range_nan _ Hr) in Hn. apply negb_false_iff, Z.eqb_eq in Hn. done.
    + intros ->. done.
Qed.

Lemma setnumber_spec_witness :
  pntrdouble (setnumber NEG_INFINITY) = NEG_INFINITY /\
  (is_pntr (setnumber NEG_INFINITY) = true <-> NEG_INFINITY = NEG_INFINITY) /\
  (NEG_INFINITY = NEG_INFINITY -> get_pntr (setnumber NEG_INFINITY) = Done 0).
Proof. apply (setnumber_spec NEG_INFINITY); split; [discriminate | reflexivity]. Defined.

(** Any other number keeps its value and is not a pointer. *)
Lemma setnumber_number b : 0 <= b < 2^64 -> b <> NEG_INFINITY -> is_pntr (setnumber b) = false.
Proof.
  intros Hb Hne. apply not_true_iff_false. intros H.
  apply setnumber_spec in H; done.
Qed.
