(* ===== verification/Bytecode.v ===== *)
(** * The bytecode compiler (src/nreduce/compiler/bytecode.c)

    Translation of supercombinators to the instructions of the abstract
    machine. The schemes [C], [E], [S] and [R] append instructions while a
    [stackinfo] tracks what is known about each stack slot. *)

From S2P Require Import Prelude CString Builtins Util Source Resolve Double.

#[local] Set Warnings "-clear-no-such-hyp".

(** ** Instructions *)

Inductive opcode :=
| OP_BEGIN | OP_END | OP_GLOBSTART | OP_SPARK | OP_RETURN | OP_DO | OP_JFUN | OP_JFALSE | OP_JUMP
| OP_PUSH | OP_UPDATE | OP_ALLOC | OP_SQUEEZE | OP_MKCAP | OP_MKFRAME | OP_BIF | OP_PUSHNIL
| OP_PUSHNUMBER | OP_PUSHSTRING | OP_POP | OP_ERROR | OP_EVAL | OP_CALL | OP_JCMP | OP_CONSN
| OP_ITEMN | OP_JEQ | OP_INVALID.

#[export] Instance opcode_eq_dec : EqDecision opcode.
Proof. solve_decision. Defined.

(** The numbers of bytecode.h. *)
Definition opcode_num (op : opcode) : Z :=
  match op with
  | OP_BEGIN => 0 | OP_END => 1 | OP_GLOBSTART => 2 | OP_SPARK => 3 | OP_RETURN => 4 | OP_DO => 5
  | OP_JFUN => 6 | OP_JFALSE => 7 | OP_JUMP => 8 | OP_PUSH => 9 | OP_UPDATE => 10 | OP_ALLOC => 11
  | OP_SQUEEZE => 12 | OP_MKCAP => 13 | OP_MKFRAME => 14 | OP_BIF => 15 | OP_PUSHNIL => 16
  | OP_PUSHNUMBER => 17 | OP_PUSHSTRING => 18 | OP_POP => 19 | OP_ERROR => 20 | OP_EVAL => 21
  | OP_CALL => 22 | OP_JCMP => 23 | OP_CONSN => 24 | OP_ITEMN => 25 | OP_JEQ => 26 | OP_INVALID => 27
  end.

(** The [code] field is 0 in the compiler. *)
Record instruction := Instruction {
  i_opcode : opcode; i_arg0 : Z; i_arg1 : Z; i_fileno : Z; i_lineno : Z; i_expcount : Z
}.

Record funinfo := Funinfo {
  fi_address : Z; fi_addressne : Z; fi_addressed : Z; fi_arity : Z; fi_stacksize : Z; fi_name : Z
}.

Definition STATUS_UNKNOWN : Z := 0.
Definition STATUS_SPARKED : Z := 1.
Definition STATUS_EVALUATED : Z := 2.

(** The first [count] entries of the [status] array; [alloc] only says how
    many more fit before the next [realloc]. *)
Record stackinfo := Stackinfo { si_status : list Z; si_invalid : bool }.
Definition si_count (si : stackinfo) : Z := Z.of_nat (length (si_status si)).

Record compilation := Compilation {
  instructions : list instruction;
  stringmap : list string;
  comp_si : option stackinfo
}.

Definition set_instructions (l : list instruction) (comp : compilation) : compilation :=
  Compilation l (stringmap comp) (comp_si comp).
Definition set_si (si : option stackinfo) (comp : compilation) : compilation :=
  Compilation (instructions comp) (stringmap comp) si.

(** ** Stack information *)

Definition stackinfo_new (source : option stackinfo) : stackinfo :=
  match source with
  | Some si => Stackinfo (si_status si) false
  | None => Stackinfo [] false
  end.

Definition statusat (si : stackinfo) (index : Z) : outcome Z :=
  cassert (index <? si_count si)%Z;; cassert (0 <=? index)%Z;;
  deref (si_status si !! Z.to_nat index).

Definition setstatusat (si : stackinfo) (index i : Z) : outcome stackinfo :=
  cassert (index <? si_count si)%Z;; cassert (0 <=? index)%Z;;
  Done (Stackinfo (<[Z.to_nat index := i]> (si_status si)) (si_invalid si)).

Definition pushstatus (si : stackinfo) (i : Z) : stackinfo :=
  Stackinfo (si_status si ++ [i]) (si_invalid si).

(** A negative [n] would make stale entries visible again; no caller passes
    one. *)
Definition popstatus (si : stackinfo) (n : Z) : outcome stackinfo :=
  cassert (0 <=? n)%Z;; cassert (0 <=? si_count si - n)%Z;;
  Done (Stackinfo (take (Z.to_nat (si_count si - n)) (si_status si)) (si_invalid si)).

Definition invalidate (si : stackinfo) : stackinfo := Stackinfo (si_status si) true.

(** The effect of an instruction on the stack: the [switch] of
    [add_instruction]. *)
Definition si_step (si : stackinfo) (op : opcode) (arg0 arg1 : Z) : outcome stackinfo :=
  match op with
  | OP_BEGIN | OP_END | OP_GLOBSTART | OP_DO | OP_JEQ | OP_JUMP => Done si
  | OP_SPARK =>
      cassert (0 <=? arg0)%Z;;
      s ← statusat si arg0;
      if (s <? STATUS_SPARKED)%Z then setstatusat si arg0 STATUS_SPARKED else Done si
  | OP_RETURN | OP_JFUN | OP_ERROR | OP_INVALID => Done (invalidate si)
  | OP_JFALSE => popstatus si 1
  | OP_PUSH => cassert (0 <=? arg0)%Z;; s ← statusat si arg0; Done (pushstatus si s)
  | OP_POP => cassert (arg0 <=? si_count si)%Z;; popstatus si arg0
  | OP_UPDATE =>
      cassert (0 <=? arg0)%Z;;
      s ← statusat si (si_count si - 1);
      si ← setstatusat si arg0 s;
      popstatus si 1
  | OP_ALLOC => Done (Stackinfo (si_status si ++ replicate (Z.to_nat arg0) STATUS_UNKNOWN) (si_invalid si))
  | OP_SQUEEZE =>
      cassert (0 <=? si_count si - arg0 - arg1)%Z;;
      let keep := Z.to_nat (si_count si - arg0 - arg1) in
      let from := Z.to_nat (si_count si - arg0) in
      Done (Stackinfo (take keep (si_status si) ++ drop from (si_status si)) (si_invalid si))
  | OP_MKCAP =>
      cassert (0 <=? si_count si - arg1)%Z;;
      si ← popstatus si arg1; Done (pushstatus si STATUS_EVALUATED)
  | OP_MKFRAME =>
      cassert (0 <=? si_count si - arg1)%Z;;
      si ← popstatus si arg1; Done (pushstatus si STATUS_UNKNOWN)
  | OP_BIF =>
      b ← deref (builtin_info !! Z.to_nat arg0);
      si ← popstatus si (Z.of_nat (bi_nargs b) - 1);
      setstatusat si (si_count si - 1) (if bi_reswhnf b then STATUS_EVALUATED else STATUS_UNKNOWN)
  | OP_PUSHNIL | OP_PUSHNUMBER | OP_PUSHSTRING => Done (pushstatus si STATUS_EVALUATED)
  | OP_EVAL => setstatusat si arg0 STATUS_EVALUATED
  | OP_CALL | OP_JCMP => Crash
  | OP_CONSN =>
      si ← popstatus si (arg0 - 1);
      setstatusat si (si_count si - 1) STATUS_EVALUATED
  | OP_ITEMN => setstatusat si (si_count si - 1) STATUS_UNKNOWN
  end.

(** The C function appends as many bytes as an instruction has from the address
    of a pointer, so it reads beyond that variable; then it sets every field.
    Here the instruction is appended as it is after that. *)
Definition add_instruction (comp : compilation) (sl : sourceloc) (op : opcode) (arg0 arg1 : Z) :
    outcome compilation :=
  match comp_si comp with
  | None =>
      Done (set_instructions (instructions comp ++
        [Instruction op arg0 arg1 (sl_fileno sl) (sl_lineno sl) (-1)]) comp)
  | Some si =>
      cassert (negb (si_invalid si));;
      let instr := Instruction op arg0 arg1 (sl_fileno sl) (sl_lineno sl) (si_count si) in
      si ← si_step si op arg0 arg1;
      Done (Compilation (instructions comp ++ [instr]) (stringmap comp) (Some si))
  end.

(** [add_string]: the position of a string in the table, entering it if new. *)
Definition add_string (comp : compilation) (str : string) : compilation * Z :=
  let pos := find_string (stringmap comp) 0 str in
  if (0 <=? pos)%Z then (comp, pos)
  else (Compilation (instructions comp) (stringmap comp ++ [str]) (comp_si comp),
        Z.of_nat (length (stringmap comp))).

(** The macros that work on a position counted from the top of the stack. *)
Definition the_si (comp : compilation) : outcome stackinfo := deref (comp_si comp).

Definition top_pos (comp : compilation) (a : Z) : outcome Z :=
  si ← the_si comp; Done (si_count si - 1 - a)%Z.

Definition SPARK (sl : sourceloc) (a : Z) (comp : compilation) : outcome compilation :=
  pos ← top_pos comp a; si ← the_si comp; s ← statusat si pos;
  if (s <? STATUS_SPARKED)%Z then add_instruction comp sl OP_SPARK pos 0 else Done comp.

Definition EVAL (sl : sourceloc) (a : Z) (comp : compilation) : outcome compilation :=
  pos ← top_pos comp a; si ← the_si comp; s ← statusat si pos;
  if (s <? STATUS_EVALUATED)%Z then add_instruction comp sl OP_EVAL pos 0 else Done comp.

Definition PUSH (sl : sourceloc) (a : Z) (comp : compilation) : outcome compilation :=
  pos ← top_pos comp a; add_instruction comp sl OP_PUSH pos 0.

Definition UPDATE (sl : sourceloc) (a : Z) (comp : compilation) : outcome compilation :=
  pos ← top_pos comp a; add_instruction comp sl OP_UPDATE pos 0.

Fixpoint eval_args (sl : sourceloc) (vs : list nat) (comp : compilation) : outcome compilation :=
  match vs with
  | [] => Done comp
  | v :: vs => comp ← EVAL sl (Z.of_nat v) comp; eval_args sl vs comp
  end.

Definition BIF (sl : sourceloc) (bif : nat) (comp : compilation) : outcome compilation :=
  b ← deref (builtin_info !! bif);
  comp ← eval_args sl (seq 0 (bi_nstrict b)) comp;
  add_instruction comp sl OP_BIF (Z.of_nat bif) 0.

(** [JFALSE], [JEQ] and [JUMP] return the address of the instruction, which
    [LABEL] patches when the target is known. *)
Definition code_count (comp : compilation) : Z := Z.of_nat (length (instructions comp)).

Definition JFALSE (sl : sourceloc) (comp : compilation) : outcome (compilation * Z) :=
  comp ← EVAL sl 0 comp;
  let addr := code_count comp in
  comp ← add_instruction comp sl OP_JFALSE 0 0; Done (comp, addr).

Definition JEQ (sl : sourceloc) (v : Z) (comp : compilation) : outcome (compilation * Z) :=
  comp ← EVAL sl 0 comp;
  let addr := code_count comp in
  comp ← add_instruction comp sl OP_JEQ 0 v; Done (comp, addr).

Definition JUMP (sl : sourceloc) (comp : compilation) : outcome (compilation * Z) :=
  let addr := code_count comp in
  comp ← add_instruction comp sl OP_JUMP 0 0; Done (comp, addr).

Definition set_arg0 (a : Z) (i : instruction) : instruction :=
  Instruction (i_opcode i) a (i_arg1 i) (i_fileno i) (i_lineno i) (i_expcount i).

Definition LABEL (addr : Z) (comp : compilation) : compilation :=
  set_instructions (alter (set_arg0 (code_count comp - addr)) (Z.to_nat addr) (instructions comp)) comp.

(** ** Functions *)

Definition snode_fno (src : source) (c : snode) : outcome Z :=
  match c with
  | SNODE_BUILTIN _ bif => Done (Z.of_nat bif)
  | SNODE_SCREF _ p => sc ← getsc src p; Done (Z.of_nat (sc_index sc + NUM_BUILTINS))
  | _ => Crash
  end.

Definition fno_scomb (src : source) (fno : Z) : outcome scomb :=
  p ← get_scomb_index src (Z.to_nat (fno - Z.of_nat NUM_BUILTINS)); getsc src p.

Definition function_nargs (src : source) (fno : Z) : outcome Z :=
  cassert (0 <=? fno)%Z;;
  if (fno <? Z.of_nat NUM_BUILTINS)%Z
  then b ← deref (builtin_info !! Z.to_nat fno); Done (Z.of_nat (bi_nargs b))
  else sc ← fno_scomb src fno; Done (Z.of_nat (sc_nargs sc)).

Definition function_strictin (src : source) (fno argno : Z) : outcome bool :=
  cassert (0 <=? fno)%Z;; cassert (0 <=? argno)%Z;;
  nargs ← function_nargs src fno;
  cassert (argno <? nargs)%Z;;
  if (fno <? Z.of_nat NUM_BUILTINS)%Z
  then b ← deref (builtin_info !! Z.to_nat fno); Done (argno <? Z.of_nat (bi_nstrict b))%Z
  else
    sc ← fno_scomb src fno;
    st ← deref (sc_strictin sc);
    deref (st !! Z.to_nat argno).

(** The loop of [have_reqsparks] ([limit] = SPARKED) and [have_resvals]
    ([limit] = EVALUATED): every strict argument has at least that status. *)
Fixpoint have_status (src : source) (fno : Z) (limit : Z) (si : stackinfo) (todo : list nat) : outcome bool :=
  match todo with
  | [] => Done true
  | i :: todo =>
      s ← statusat si (si_count si - 1 - Z.of_nat i);
      bad ← (if (s <? limit)%Z then function_strictin src fno (Z.of_nat i) else Done false);
      if bad : bool then Done false else have_status src fno limit si todo
  end.

Definition have_args (src : source) (fno limit : Z) (si : stackinfo) : outcome bool :=
  nargs ← function_nargs src fno;
  cassert (nargs <=? si_count si)%Z;;
  have_status src fno limit si (seq 0 (Z.to_nat nargs)).
Definition have_reqsparks (src : source) (fno : Z) (si : stackinfo) : outcome bool :=
  have_args src fno STATUS_SPARKED si.
Definition have_resvals (src : source) (fno : Z) (si : stackinfo) : outcome bool :=
  have_args src fno STATUS_EVALUATED si.

Definition JFUN (src : source) (sl : sourceloc) (fno : Z) (comp : compilation) : outcome compilation :=
  si ← the_si comp;
  vals ← have_resvals src fno si;
  if vals : bool then add_instruction comp sl OP_JFUN fno 2
  else
    sparks ← have_reqsparks src fno si;
    if sparks : bool then add_instruction comp sl OP_JFUN fno 1
    else add_instruction comp sl OP_JFUN fno 0.

(** ** Variables *)

(** [pmap]: names and their stack positions, counted from 1. *)
Definition pmap : Type := list (string * Z).

Fixpoint presolve (pm : pmap) (varname : string) : outcome Z :=
  match pm with
  | [] => Crash
  | (n, i) :: pm => if String.eqb n varname then Done i else presolve pm varname
  end.

Fixpoint getusage (c : snode) (used : list string) : list string :=
  match c with
  | SNODE_APPLICATION _ _ l r => getusage r (getusage l used)
  | SNODE_LETREC _ bs b =>
      getusage b (fold_left (fun used rec => getusage (lr_value rec) used) bs used)
  | SNODE_SYMBOL _ n => if list_contains_string used n then used else list_push used n
  | _ => used
  end.

Definition letrecs_used (expr : snode) (first : list letrec) : nat :=
  let used := getusage expr [] in
  length (List.filter (fun rec => list_contains_string used (lr_name rec)) first).

(** ** Frames

    [domkframe]: a supercombinator without arguments whose body is a constant
    is replaced by it; [fuel] bounds the chain of such references. *)
Definition MKCAP (sl : sourceloc) (fno n : Z) (comp : compilation) : outcome compilation :=
  add_instruction comp sl OP_MKCAP fno n.

Fixpoint domkframe (fuel : nat) (src : source) (sl : sourceloc) (fno n : Z) (comp : compilation) :
    outcome compilation :=
  match fuel with
  | O => Timeout
  | S fuel =>
      let frame := add_instruction comp sl OP_MKFRAME fno n in
      if (Z.of_nat NUM_BUILTINS <=? fno)%Z then
        sc ← fno_scomb src fno;
        if Nat.eqb (sc_nargs sc) 0 then
          c ← deref (sc_body sc);
          cassert (n =? 0)%Z;;
          match c with
          | SNODE_NUMBER sl num => add_instruction comp sl OP_PUSHNUMBER (double_lo num) (double_hi num)
          | SNODE_STRING sl s => let '(comp, pos) := add_string comp s in add_instruction comp sl OP_PUSHSTRING pos 0
          | SNODE_NIL sl => add_instruction comp sl OP_PUSHNIL 0 0
          | SNODE_SCREF sl _ =>
              fno ← snode_fno src c;
              nargs ← function_nargs src fno;
              if (nargs =? 0)%Z then domkframe fuel src sl fno 0 comp else MKCAP sl fno 0 comp
          | _ => frame
          end
        else frame
      else if (fno =? Z.of_nat B_CONS)%Z then cassert (n =? 2)%Z;; BIF sl B_CONS comp
      else frame
  end.

(** ** Compilation schemes *)

Definition iscons (c : snode) : bool :=
  match c with
  | SNODE_APPLICATION _ _ (SNODE_APPLICATION _ _ (SNODE_BUILTIN _ bif) _) _ =>
      Nat.eqb bif B_CONS || Nat.eqb bif B_LCONS
  | _ => false
  end.

(** The condition [x == n] with a whole number [n] on the right. *)
Definition eq_literal (cond : snode) : option (snode * Z) :=
  match cond with
  | SNODE_APPLICATION _ _ (SNODE_APPLICATION _ _ (SNODE_BUILTIN _ bif) x) (SNODE_NUMBER _ num) =>
      if Nat.eqb bif B_EQ && floor_equal num then Some (x, num) else None
  | _ => None
  end.

(** [item n l] with a whole number [n]. *)
Definition item_literal (src : source) (c : snode) : outcome (option (Z * snode)) :=
  match c with
  | SNODE_APPLICATION _ _ (SNODE_APPLICATION _ _ (SNODE_SCREF _ p) (SNODE_NUMBER _ num)) l =>
      sc ← getsc src p;
      Done (if String.eqb (sc_name sc) "item" && floor_equal num then Some (num, l) else None)
  | _ => Done None
  end.

(** The arguments of a spine with the [strict] mark of their application, last
    argument first. *)
Fixpoint spine_strict (c : snode) : list (snode * bool) :=
  match c with SNODE_APPLICATION _ st l r => (r, st) :: spine_strict l | _ => [] end.

Definition is_builtin (c : snode) (bif : nat) : bool :=
  match c with SNODE_BUILTIN _ b => Nat.eqb b bif | _ => false end.
Definition is_function (c : snode) : bool :=
  match c with SNODE_BUILTIN _ _ | SNODE_SCREF _ _ => true | _ => false end.

(** The forms the schemes single out: a saturated [if] and [seq]. *)
Definition as_if (c : snode) : option (snode * snode * snode) :=
  match c with
  | SNODE_APPLICATION _ _ (SNODE_APPLICATION _ _ (SNODE_APPLICATION _ _ (SNODE_BUILTIN _ bif) cond) t) f =>
      if Nat.eqb bif B_IF then Some (cond, t, f) else None
  | _ => None
  end.
Definition as_seq (c : snode) : option (snode * snode) :=
  match c with
  | SNODE_APPLICATION _ _ (SNODE_APPLICATION _ _ (SNODE_BUILTIN _ bif) expr1) expr2 =>
      if Nat.eqb bif B_SEQ then Some (expr1, expr2) else None
  | _ => None
  end.

Definition bind_letrec (bs : list letrec) (n : Z) (pm : pmap) : pmap :=
  pm ++ imap (fun i rec => (lr_name rec, n + Z.of_nat i + 1)%Z) bs.

Section schemes.
Context (src : source) (mkfuel : nat).
Context (C E : compilation -> snode -> pmap -> Z -> outcome compilation).

Abbreviation MKFRAME sl fno n comp := (domkframe mkfuel src sl fno n comp).

Definition direct (strictcontext : bool) (rec : letrec) (rest : list letrec) : bool :=
  strictcontext && lr_strict rec && Nat.eqb (letrecs_used (lr_value rec) (rec :: rest)) 0.

(** First loop: leading strict bindings that do not use the ones still to come
    are evaluated in place. Returns the bindings left. *)
Fixpoint Cletrec_direct (strictcontext : bool) (bs : list letrec) (pm : pmap) (n : Z) (comp : compilation) :
    outcome (compilation * list letrec * Z) :=
  match bs with
  | rec :: rest =>
      if direct strictcontext rec rest then
        comp ← E comp (lr_value rec) pm n;
        Cletrec_direct strictcontext rest pm (n + 1) comp
      else Done (comp, bs, n)
  | [] => Done (comp, [], n)
  end.

(** Second loop: the others are built and stored into the slots allocated for
    them. *)
Fixpoint Cletrec_alloc (strictcontext : bool) (bs : list letrec) (pm : pmap) (n : Z) (comp : compilation) :
    outcome compilation :=
  match bs with
  | [] => Done comp
  | rec :: rest =>
      comp ← (if direct strictcontext rec rest then E comp (lr_value rec) pm n else C comp (lr_value rec) pm n);
      idx ← presolve pm (lr_name rec);
      comp ← UPDATE (node_sl (lr_value rec)) (n + 1 - idx) comp;
      Cletrec_alloc strictcontext rest pm n comp
  end.

(** [pm] already has the bindings ([bind_letrec]). Its two stacks of names and
    positions have no limit here, nor have the stacks of arguments in the
    schemes. *)
Definition Cletrec (bs : list letrec) (n : Z) (pm : pmap) (strictcontext : bool) (comp : compilation) :
    outcome compilation :=
  '(comp, bs, n) ← Cletrec_direct strictcontext bs pm n comp;
  match bs with
  | [] => Done comp
  | rec :: _ =>
      let count := Z.of_nat (length bs) in
      comp ← add_instruction comp (node_sl (lr_value rec)) OP_ALLOC count 0;
      Cletrec_alloc strictcontext bs pm (n + count) comp
  end.

(** Arguments pushed one after the other; with [strict] marks as in [E] and
    [S2], or all of them with [C]. *)
Fixpoint push_args (args : list (snode * bool)) (pm : pmap) (n : Z) (comp : compilation) : outcome compilation :=
  match args with
  | [] => Done comp
  | (a, strict) :: args =>
      comp ← (if strict : bool then E comp a pm n else C comp a pm n);
      push_args args pm (n + 1) comp
  end.

Fixpoint push_args_C (args : list (snode * bool)) (pm : pmap) (n : Z) (comp : compilation) : outcome compilation :=
  match args with
  | [] => Done comp
  | (a, _) :: args => comp ← C comp a pm n; push_args_C args pm (n + 1) comp
  end.

(** [S2] compiles every argument with its mark, as the last case of [E]. *)
Definition S2 (exprs : list (snode * bool)) (pm : pmap) (n : Z) (comp : compilation) : outcome compilation :=
  push_args exprs pm n comp.

(** The loop of [S] that skips arguments already in place. *)
Fixpoint S_skip (exprs : list (snode * bool)) (m : Z) (pm : pmap) (si : stackinfo) :
    outcome (list (snode * bool) * Z) :=
  match exprs with
  | (SNODE_SYMBOL sl x, strict) :: rest =>
      idx ← presolve pm x;
      if (idx - 1 =? m)%Z then
        unknown ← (if strict : bool then s ← statusat si m; Done (s =? STATUS_UNKNOWN)%Z else Done false);
        if unknown : bool then Done (exprs, m) else S_skip rest (m + 1) pm si
      else Done (exprs, m)
  | _ => Done (exprs, m)
  end.

Definition S_ (sl : sourceloc) (exprs : list (snode * bool)) (pm : pmap) (n : Z) (comp : compilation) :
    outcome compilation :=
  si ← the_si comp;
  '(rest, m) ← S_skip exprs 0 pm si;
  comp ← push_args rest pm n comp;
  if (0 <? n - m)%Z then add_instruction comp sl OP_SQUEEZE (Z.of_nat (length rest)) (n - m) else Done comp.

(** A new [stackinfo] for a branch, and back to the old one. *)
Definition branch (comp : compilation) : outcome compilation :=
  si ← the_si comp; Done (set_si (Some (stackinfo_new (Some si))) comp).
Definition unbranch (old : compilation) (comp : compilation) : compilation := set_si (comp_si old) comp.

Definition pop_push (n s : Z) (comp : compilation) : outcome compilation :=
  si ← the_si comp; si ← popstatus si n; Done (set_si (Some (pushstatus si s)) comp).

(** The two forms of [if] in [E]. *)
Definition E_if (cond truebranch falsebranch : snode) (pm : pmap) (n : Z) (comp : compilation) :
    outcome compilation :=
  match eq_literal cond with
  | Some (x, num) =>
      comp ← E comp x pm n;
      v ← int_of_double num;
      '(comp0, label) ← JEQ (node_sl cond) v comp;
      comp ← branch comp0;
      comp ← add_instruction comp (node_sl cond) OP_POP 1 0;
      comp ← E comp falsebranch pm n;
      '(comp, end_) ← JUMP (node_sl cond) comp;
      let comp := LABEL label (unbranch comp0 comp) in
      comp ← branch comp;
      comp ← add_instruction comp (node_sl cond) OP_POP 1 0;
      comp ← E comp truebranch pm n;
      let comp := LABEL end_ (unbranch comp0 comp) in
      pop_push 1 STATUS_SPARKED comp
  | None =>
      comp ← E comp cond pm n;
      '(comp0, label) ← JFALSE (node_sl cond) comp;
      comp ← branch comp0;
      comp ← E comp truebranch pm n;
      '(comp, end_) ← JUMP (node_sl cond) comp;
      let comp := LABEL label (unbranch comp0 comp) in
      comp ← branch comp;
      comp ← E comp falsebranch pm n;
      let comp := LABEL end_ (unbranch comp0 comp) in
      pop_push 0 STATUS_SPARKED comp
  end.

(** The last case: the arguments, then the function. *)
Definition E_call (c : snode) (fno k : Z) (pm : pmap) (n : Z) (comp : compilation) : outcome compilation :=
  let app := spine_head c in
  let m := Z.of_nat (count_args c) in
  let sl := node_sl app in
  comp ← push_args (spine_strict c) pm n comp;
  if (m =? k)%Z then
    match app with
    | SNODE_BUILTIN _ bif =>
        b ← deref (builtin_info !! bif);
        if bi_pure b then
          comp ← BIF sl bif comp;
          if bi_reswhnf b then Done comp else SPARK sl 0 comp
        else comp ← MKFRAME sl fno k comp; EVAL sl 0 comp
    | _ => comp ← MKFRAME sl fno k comp; SPARK sl 0 comp
    end
  else comp ← MKCAP sl fno m comp; SPARK sl 0 comp.

Definition E_seq (expr1 expr2 : snode) (pm : pmap) (n : Z) (comp : compilation) : outcome compilation :=
  comp ← E comp expr1 pm n;
  comp ← EVAL (node_sl expr1) 0 comp;
  comp ← add_instruction comp (node_sl expr1) OP_POP 1 0;
  E comp expr2 pm n.

Definition E_application (c : snode) (pm : pmap) (n : Z) (comp : compilation) : outcome compilation :=
  let app := spine_head c in
  cassert (is_function app);;
  fno ← snode_fno src app;
  k ← function_nargs src fno;
  cassert (Z.of_nat (count_args c) <=? k)%Z;;
  match as_if c with
  | Some (cond, truebranch, falsebranch) => E_if cond truebranch falsebranch pm n comp
  | None =>
  match as_seq c with
  | Some (expr1, expr2) => E_seq expr1 expr2 pm n comp
  | None =>
  item ← item_literal src c;
  match item with
  | Some (num, l) =>
      if (k =? 2)%Z then
        index ← int_of_double num;
        comp ← E comp l pm n;
        comp ← add_instruction comp (node_sl app) OP_ITEMN index 0;
        SPARK (node_sl app) 0 comp
      else E_call c fno k pm n comp
  | None => E_call c fno k pm n comp
  end end end.

Definition C_application (c : snode) (pm : pmap) (n : Z) (comp : compilation) : outcome compilation :=
  let app := spine_head c in
  comp ← push_args_C (spine_strict c) pm n comp;
  cassert (is_function app);;
  fno ← snode_fno src app;
  k ← function_nargs src fno;
  let m := Z.of_nat (count_args c) in
  cassert (m <=? k)%Z;;
  if (m =? k)%Z then MKFRAME (node_sl app) fno k comp else MKCAP (node_sl app) fno m comp.

(** The body of a letrec in [E] and [C], with the slots removed afterwards. *)
Definition letrec_body (rec_ : compilation -> snode -> pmap -> Z -> outcome compilation) (strictcontext : bool)
    (sl : sourceloc) (bs : list letrec) (b : snode) (pm : pmap) (n : Z) (comp : compilation) : outcome compilation :=
  let count := Z.of_nat (length bs) in
  let pm := bind_letrec bs n pm in
  comp ← Cletrec bs n pm strictcontext comp;
  comp ← rec_ comp b pm (n + count)%Z;
  add_instruction comp sl OP_SQUEEZE 1 count.
End schemes.

(** [C] and [E], which call each other; [fuel] bounds the depth and [mkfuel]
    the chains of [domkframe]. *)
Fixpoint C (fuel mkfuel : nat) (src : source) (comp : compilation) (c : snode) (pm : pmap) (n : Z) :
    outcome compilation :=
  match fuel with
  | O => Timeout
  | S fuel =>
      match c with
      | SNODE_APPLICATION _ _ _ _ => C_application src mkfuel (C fuel mkfuel src) c pm n comp
      | SNODE_BUILTIN sl _ | SNODE_SCREF sl _ =>
          fno ← snode_fno src c;
          nargs ← function_nargs src fno;
          if (nargs =? 0)%Z then domkframe mkfuel src sl fno 0 comp else MKCAP sl fno 0 comp
      | SNODE_SYMBOL sl x => idx ← presolve pm x; PUSH sl (n - idx) comp
      | SNODE_NIL sl => add_instruction comp sl OP_PUSHNIL 0 0
      | SNODE_NUMBER sl num => add_instruction comp sl OP_PUSHNUMBER (double_lo num) (double_hi num)
      | SNODE_STRING sl s =>
          let '(comp, pos) := add_string comp s in add_instruction comp sl OP_PUSHSTRING pos 0
      | SNODE_LETREC sl bs b =>
          letrec_body (C fuel mkfuel src) (E fuel mkfuel src) (C fuel mkfuel src) false sl bs b pm n comp
      | SNODE_LAMBDA _ _ _ => Crash
      end
  end
with E (fuel mkfuel : nat) (src : source) (comp : compilation) (c : snode) (pm : pmap) (n : Z) :
    outcome compilation :=
  match fuel with
  | O => Timeout
  | S fuel =>
      match c with
      | SNODE_APPLICATION _ _ _ _ =>
          E_application src mkfuel (C fuel mkfuel src) (E fuel mkfuel src) c pm n comp
      | SNODE_LETREC sl bs b =>
          letrec_body (C fuel mkfuel src) (E fuel mkfuel src) (E fuel mkfuel src) true sl bs b pm n comp
      | SNODE_SYMBOL sl x =>
          idx ← presolve pm x;
          comp ← SPARK sl (n - idx) comp;
          PUSH sl (n - idx) comp
      | _ => comp ← C fuel mkfuel src comp c pm n; SPARK (node_sl c) 0 comp
      end
  end.

(** ** The scheme for whole bodies *)

(** [CONSTANT_APP_MSG]: the error exit for a constant in function position. *)
Definition constant_app {A} : outcome A := Crash.

Section R.
Context (src : source) (mkfuel : nat).
Context (C E : compilation -> snode -> pmap -> Z -> outcome compilation).

Definition RETURN (sl : sourceloc) (comp : compilation) : outcome compilation :=
  add_instruction comp sl OP_RETURN 0 0.
Definition DO (sl : sourceloc) (a : Z) (comp : compilation) : outcome compilation :=
  add_instruction comp sl OP_DO a 0.
Definition SPARK_EVAL_DO (sl : sourceloc) (comp : compilation) : outcome compilation :=
  comp ← SPARK sl 0 comp; comp ← EVAL sl 0 comp; DO sl 0 comp.
Definition SQUEEZE_to_1 (sl : sourceloc) (n : Z) (comp : compilation) : outcome compilation :=
  if (0 <? n)%Z then add_instruction comp sl OP_SQUEEZE 1 n else Done comp.

(** The elements of a chain of conses, and the tail. *)
Fixpoint cons_items (c : snode) : list snode * snode :=
  match c with
  | SNODE_APPLICATION _ _ (SNODE_APPLICATION _ _ (SNODE_BUILTIN _ bif) x) tl =>
      if Nat.eqb bif B_CONS || Nat.eqb bif B_LCONS
      then let '(xs, last) := cons_items tl in (x :: xs, last) else ([], c)
  | _ => ([], c)
  end.

Definition Ccons (c : snode) (pm : pmap) (n : Z) (comp : compilation) : outcome compilation :=
  let '(items, tl) := cons_items c in
  let exprs := map (fun x => (x, false)) (tl :: rev items) in
  comp ← S_ C E (node_sl c) exprs pm n comp;
  add_instruction comp (node_sl c) OP_CONSN (Z.of_nat (length exprs)) 0.

(** A saturated call of a built-in other than [if] and [seq]. *)
Fixpoint strict_sparked (si : stackinfo) (todo : list nat) : outcome unit :=
  match todo with
  | [] => Done tt
  | argno :: todo =>
      s ← statusat si (si_count si - 1 - Z.of_nat argno);
      cassert (STATUS_SPARKED <=? s)%Z;; strict_sparked si todo
  end.

Definition R_builtin (sl : sourceloc) (bif : nat) (args : list (snode * bool)) (pm : pmap) (n : Z)
    (comp : compilation) : outcome compilation :=
  comp ← S2 C E args pm n comp;
  bi ← deref (builtin_info !! bif);
  si ← the_si comp;
  cassert (Z.of_nat (bi_nstrict bi) <=? si_count si)%Z;;
  strict_sparked si (seq 0 (bi_nstrict bi));;
  comp ← (if bi_pure bi then BIF sl bif comp
          else comp ← domkframe mkfuel src sl (Z.of_nat bif) (Z.of_nat (bi_nargs bi)) comp; EVAL sl 0 comp);
  comp ← SQUEEZE_to_1 sl n comp;
  si ← the_si comp;
  cassert (si_count si =? 1)%Z;;
  if bi_reswhnf bi then RETURN sl comp
  else comp ← EVAL sl 0 comp; DO sl 1 comp.

Section R_branches.
Context (R : compilation -> snode -> pmap -> Z -> outcome compilation).

Definition R_if (cond truebranch falsebranch : snode) (pm : pmap) (n : Z) (comp : compilation) :
    outcome compilation :=
  match eq_literal cond with
  | Some (x, num) =>
      comp ← E comp x pm n;
      v ← int_of_double num;
      '(comp0, label) ← JEQ (node_sl cond) v comp;
      comp ← branch comp0;
      comp ← add_instruction comp (node_sl cond) OP_POP 1 0;
      comp ← R comp falsebranch pm n;
      let comp := LABEL label (unbranch comp0 comp) in
      comp ← branch comp;
      comp ← add_instruction comp (node_sl cond) OP_POP 1 0;
      comp ← R comp truebranch pm n;
      Done (unbranch comp0 comp)
  | None =>
      comp ← E comp cond pm n;
      '(comp0, label) ← JFALSE (node_sl cond) comp;
      comp ← branch comp0;
      comp ← R comp truebranch pm n;
      let comp := LABEL label (unbranch comp0 comp) in
      comp ← branch comp;
      comp ← R comp falsebranch pm n;
      Done (unbranch comp0 comp)
  end.

Definition R_seq (expr1 expr2 : snode) (pm : pmap) (n : Z) (comp : compilation) : outcome compilation :=
  comp ← E comp expr1 pm n;
  comp ← EVAL (node_sl expr1) 0 comp;
  comp ← add_instruction comp (node_sl expr1) OP_POP 1 0;
  R comp expr2 pm n.

(** A saturated call. *)
Definition R_saturated (c : snode) (fno k : Z) (pm : pmap) (n : Z) (comp : compilation) : outcome compilation :=
  let app := spine_head c in
  let sl := node_sl app in
  match app with
  | SNODE_BUILTIN _ bif =>
      match as_if c, as_seq c with
      | Some (cond, truebranch, falsebranch), _ => R_if cond truebranch falsebranch pm n comp
      | None, Some (expr1, expr2) => R_seq expr1 expr2 pm n comp
      | None, None => R_builtin sl bif (spine_strict c) pm n comp
      end
  | _ =>
      item ← item_literal src c;
      match item with
      | Some (num, l) =>
          index ← int_of_double num;
          comp ← E comp l pm n;
          comp ← add_instruction comp sl OP_ITEMN index 1;
          comp ← SQUEEZE_to_1 sl n comp;
          comp ← EVAL sl 0 comp; DO sl 1 comp
      | None => comp ← S_ C E sl (spine_strict c) pm n comp; JFUN src sl fno comp
      end
  end.

Definition R_application (c : snode) (pm : pmap) (n : Z) (comp : compilation) : outcome compilation :=
  let app := spine_head c in
  let sl := node_sl app in
  let args := spine_strict c in
  let m := Z.of_nat (count_args c) in
  if iscons c && match c with SNODE_APPLICATION _ _ _ r => iscons r | _ => false end
  then comp ← Ccons c pm n comp; RETURN (node_sl c) comp
  else
    match app with
    | SNODE_SYMBOL _ _ =>
        comp ← S_ C E sl (args ++ [(app, false)]) pm n comp; SPARK_EVAL_DO sl comp
    | SNODE_BUILTIN _ _ | SNODE_SCREF _ _ =>
        fno ← snode_fno src app;
        k ← function_nargs src fno;
        if (k <? m)%Z then
          comp ← S_ C E sl args pm n comp;
          comp ← domkframe mkfuel src sl fno k comp;
          SPARK_EVAL_DO sl comp
        else if (m =? k)%Z then R_saturated c fno k pm n comp
        else
          comp ← push_args_C C args pm n comp;
          comp ← MKCAP sl fno m comp;
          RETURN sl comp
    | _ => constant_app
    end.
End R_branches.
End R.

Fixpoint R (fuel mkfuel : nat) (src : source) (comp : compilation) (c : snode) (pm : pmap) (n : Z) :
    outcome compilation :=
  match fuel with
  | O => Timeout
  | S fuel =>
      let C := C fuel mkfuel src in
      let E := E fuel mkfuel src in
      match c with
      | SNODE_APPLICATION _ _ _ _ => R_application src mkfuel C E (R fuel mkfuel src) c pm n comp
      | SNODE_SYMBOL sl _ =>
          comp ← C comp c pm n;
          comp ← add_instruction comp sl OP_SQUEEZE 1 n;
          comp ← EVAL sl 0 comp; RETURN sl comp
      | SNODE_BUILTIN sl _ | SNODE_SCREF sl _ =>
          fno ← snode_fno src c;
          nargs ← function_nargs src fno;
          if (nargs =? 0)%Z then JFUN src sl fno comp
          else comp ← MKCAP sl fno 0 comp; RETURN sl comp
      | SNODE_NIL sl | SNODE_NUMBER sl _ | SNODE_STRING sl _ => comp ← C comp c pm n; RETURN sl comp
      | SNODE_LETREC _ bs b =>
          let pm := bind_letrec bs n pm in
          comp ← Cletrec C E bs n pm true comp;
          R fuel mkfuel src comp b pm (n + Z.of_nat (length bs))%Z
      | SNODE_LAMBDA _ _ _ => Crash
      end
  end.
