(* ===== verification/Peephole.v ===== *)
(** * Peephole optimisation (src/nreduce/compiler/bytecode.c, [peephole])

    The body of a function is rewritten in place, pass after pass until no rule
    that shortens it applies. Jumps hold absolute addresses meanwhile, and each
    pass keeps a map from old to new addresses. The instructions of the body
    are a list; [dest] never overtakes [source], so what a pass reads is what
    was there before it. *)

From S2P Require Import Prelude CString Builtins Util Source Resolve Double Bytecode.

#[local] Set Warnings "-clear-no-such-hyp".
#[local] Open Scope Z_scope.

Definition is_jump (op : opcode) : bool :=
  match op with OP_JFALSE | OP_JUMP | OP_JCMP | OP_JEQ => true | _ => false end.

Definition is_op (op : opcode) (i : instruction) : bool := bool_decide (i_opcode i = op).

Definition set_expcount (e : Z) (i : instruction) : instruction :=
  Instruction (i_opcode i) (i_arg0 i) (i_arg1 i) (i_fileno i) (i_lineno i) e.
Definition set_opcode (op : opcode) (i : instruction) : instruction :=
  Instruction op (i_arg0 i) (i_arg1 i) (i_fileno i) (i_lineno i) (i_expcount i).

(** [OP_JCMP] in place of [a] = BIF and [b] = JFALSE. *)
Definition jcmp (a b : instruction) : instruction :=
  Instruction OP_JCMP (i_arg0 b) (i_arg0 a) (i_fileno a) (i_lineno a) (i_expcount a).

Definition is_comparison (bif : Z) : bool :=
  existsb (fun b => bif =? Z.of_nat b) [B_EQ; B_NE; B_LT; B_LE; B_GT; B_GE].

(** The rules on two neighbouring instructions. *)
Definition spark_eval (a b : instruction) : bool :=
  is_op OP_SPARK a && is_op OP_EVAL b && (i_arg0 a =? i_arg0 b).
Definition mkframe_eval (a b : instruction) : bool :=
  is_op OP_MKFRAME a && is_op OP_EVAL b && (i_expcount b - 1 =? i_arg0 b).
Definition squeeze_return (a b : instruction) : bool := is_op OP_SQUEEZE a && is_op OP_RETURN b.
Definition bif_jfalse (a b : instruction) : bool :=
  is_op OP_BIF a && is_op OP_JFALSE b && is_comparison (i_arg0 a).

(** The two rules for chains of comparisons with literals: the positions from
    [source] on. *)
Definition jeq_chain1 (code : list instruction) : option Z :=
  match code with
  | a :: b :: c :: d :: _ =>
      if is_op OP_PUSH a && is_op OP_JEQ b && is_op OP_POP c && is_op OP_PUSH d && (i_arg0 a =? i_arg0 d)
      then Some (i_arg0 a) else None
  | _ => None
  end.
Definition jeq_chain2 (code : list instruction) : option Z :=
  match code with
  | a :: b :: c :: d :: e :: _ =>
      if is_op OP_PUSH a && is_op OP_EVAL b && (i_arg0 b =? i_expcount a) && is_op OP_JEQ c &&
         is_op OP_POP d && is_op OP_PUSH e && (i_arg0 a =? i_arg0 e)
      then Some (i_arg0 a) else None
  | _ => None
  end.

(** What a pass has produced: the instructions from [dest] on, the map entries
    from [source] on, and [changed]. *)
Record pass_result := PassResult { pr_code : list instruction; pr_map : list Z; pr_changed : bool }.

Definition emit (ms : list Z) (is_ : list instruction) (ch : bool) (r : pass_result) : pass_result :=
  PassResult (is_ ++ pr_code r) (ms ++ pr_map r) (ch || pr_changed r).

(** The inner loops: POP, PUSH (and EVAL) in front of the next JEQ are
    dropped. Returns the emitted map, instructions and the rest. *)
Fixpoint jeq_loop1 (fuel : nat) (arg0 dest : Z) (code : list instruction) :
    list Z * list instruction * list instruction :=
  match fuel, code with
  | S fuel, a :: b :: c :: rest =>
      if is_op OP_POP a && is_op OP_PUSH b && is_op OP_JEQ c && (arg0 =? i_arg0 b) then
        let '(ms, out, rest) := jeq_loop1 fuel arg0 (dest + 1) rest in
        (dest :: dest :: dest :: ms, c :: out, rest)
      else ([], [], code)
  | _, _ => ([], [], code)
  end.
Fixpoint jeq_loop2 (fuel : nat) (arg0 dest : Z) (code : list instruction) :
    list Z * list instruction * list instruction :=
  match fuel, code with
  | S fuel, a :: b :: c :: d :: rest =>
      if is_op OP_POP a && is_op OP_PUSH b && is_op OP_EVAL c && (i_arg0 c =? i_expcount b) &&
         is_op OP_JEQ d && (arg0 =? i_arg0 b) then
        let '(ms, out, rest) := jeq_loop2 fuel arg0 (dest + 1) rest in
        (dest :: dest :: dest :: dest :: ms, d :: out, rest)
      else ([], [], code)
  | _, _ => ([], [], code)
  end.

(** One pass ([while (source < count)]); the length of the code is enough
    fuel. *)
Fixpoint pass (fuel : nat) (dest : Z) (code : list instruction) : outcome pass_result :=
  match fuel with
  | O => Timeout
  | S fuel =>
      match code with
      | [] => Done (PassResult [] [] false)
      | a :: rest =>
          let single :=
            match jeq_chain1 code, jeq_chain2 code, rest with
            | Some arg0, _, b :: rest =>
                let '(ms, out, rest) := jeq_loop1 (length rest) arg0 (dest + 2) rest in
                r ← pass fuel (dest + 2 + Z.of_nat (length out)) rest;
                Done (emit (dest :: (dest + 1) :: ms) (a :: b :: out) false r)
            | None, Some arg0, b :: c :: rest =>
                let '(ms, out, rest) := jeq_loop2 (length rest) arg0 (dest + 3) rest in
                r ← pass fuel (dest + 3 + Z.of_nat (length out)) rest;
                Done (emit (dest :: (dest + 1) :: (dest + 2) :: ms) (a :: b :: c :: out) false r)
            | _, _, _ =>
                if is_op OP_POP a
                then r ← pass fuel dest rest; Done (emit [dest] [] false r)
                else r ← pass fuel (dest + 1) rest; Done (emit [dest] [a] false r)
            end in
          match rest with
          | [] => single
          | b :: rest2 =>
              if spark_eval a b then
                r ← pass fuel (dest + 1) rest2; Done (emit [dest; dest] [b] true r)
              else if mkframe_eval a b then
                r ← pass fuel (dest + 1) rest; Done (emit [dest] [set_opcode OP_CALL a] false r)
              else if squeeze_return a b then
                cassert (0 <? i_arg1 a);;
                r ← pass fuel (dest + 1) rest2;
                Done (emit [dest; dest] [set_expcount (i_expcount a) b] true r)
              else if bif_jfalse a b then
                r ← pass fuel (dest + 1) rest2; Done (emit [dest; dest] [jcmp a b] true r)
              else single
          end
      end
  end.

(** Jumps through the map, whose first entry belongs to address [start]. *)
Definition remap (start : Z) (m : list Z) (i : instruction) : outcome instruction :=
  if is_jump (i_opcode i)
  then a ← deref (m !! Z.to_nat (i_arg0 i - start)); Done (set_arg0 a i)
  else Done i.

Fixpoint remap_all (start : Z) (m : list Z) (code : list instruction) : outcome (list instruction) :=
  match code with
  | [] => Done []
  | i :: code => i ← remap start m i; code ← remap_all start m code; Done (i :: code)
  end.

Fixpoint passes (fuel : nat) (start : Z) (code : list instruction) : outcome (list instruction) :=
  match fuel with
  | O => Timeout
  | S fuel =>
      r ← pass (S (length code)) start code;
      code ← remap_all start (pr_map r) (pr_code r);
      if pr_changed r then passes fuel start code else Done code
  end.

(** Relative to absolute addresses and back, with the assertions. *)
Fixpoint absolute (start count addr : Z) (code : list instruction) : outcome (list instruction) :=
  match code with
  | [] => Done []
  | i :: code =>
      i ← (if is_jump (i_opcode i) then
             let target := i_arg0 i + addr in
             cassert (start <=? target);; cassert (target <? count);; Done (set_arg0 target i)
           else Done i);
      code ← absolute start count (addr + 1) code; Done (i :: code)
  end.
Fixpoint relative (start count addr : Z) (code : list instruction) : outcome (list instruction) :=
  match code with
  | [] => Done []
  | i :: code =>
      i ← (if is_jump (i_opcode i) then
             cassert (start <=? i_arg0 i);; cassert (i_arg0 i <? count);; Done (set_arg0 (i_arg0 i - addr) i)
           else Done i);
      code ← relative start count (addr + 1) code; Done (i :: code)
  end.

Definition peephole_body (start : Z) (code : list instruction) : outcome (list instruction) :=
  code ← absolute start (start + Z.of_nat (length code)) start code;
  code ← passes (S (length code)) start code;
  relative start (start + Z.of_nat (length code)) start code.

Definition peephole (start : Z) (comp : compilation) : outcome compilation :=
  let all := instructions comp in
  body ← peephole_body start (drop (Z.to_nat start) all);
  Done (set_instructions (take (Z.to_nat start) all ++ body) comp).
