(* ===== verification/StackDiscipline.v ===== *)
(** * The compilation schemes keep the stack right

    On trees of the shape the lifting passes produce, every scheme returns, no
    assertion of the compiler fails, and each expression leaves exactly one
    more slot on the stack than it found. *)

From S2P Require Import Prelude CString Builtins Util Source Resolve Double Bytecode Peephole.

#[local] Set Warnings "-clear-no-such-hyp".

(** ** Stack contents *)

Ltac status_lia := unfold STATUS_UNKNOWN, STATUS_SPARKED, STATUS_EVALUATED in *; lia.

(** Every slot of [s] is still there in [s'] with at least the same status. *)
Definition le_st (s s' : list Z) : Prop :=
  forall i x, s !! i = Some x -> exists y, s' !! i = Some y /\ (x <= y)%Z.

Definition st_ok (s : list Z) : Prop := Forall (fun x => (STATUS_UNKNOWN <= x <= STATUS_EVALUATED)%Z) s.

Lemma le_st_refl s : le_st s s.
Proof. intros i x H. exists x. by split. Qed.

Lemma le_st_trans s1 s2 s3 : le_st s1 s2 -> le_st s2 s3 -> le_st s1 s3.
Proof.
  intros H1 H2 i x Hx. destruct (H1 i x Hx) as (y & Hy & ?). destruct (H2 i y Hy) as (z & Hz & ?).
  exists z. split; [done | lia].
Qed.

Lemma le_st_length s s' : le_st s s' -> length s <= length s'.
Proof.
  intros H. destruct (decide (length s = 0)) as [->|Hn]; [lia|].
  destruct (lookup_lt_is_Some_2 s (length s - 1)) as [x Hx]; [lia|].
  destruct (H _ _ Hx) as (y & Hy & _). apply lookup_lt_Some in Hy. lia.
Qed.

Lemma le_st_app s s' t : le_st s s' -> le_st s (s' ++ t).
Proof. intros H i x Hx. destruct (H i x Hx) as (y & Hy & ?). exists y. split; [by apply lookup_app_l_Some | done]. Qed.

Lemma le_st_take s s' k : le_st s s' -> length s <= k -> le_st s (take k s').
Proof.
  intros H Hk i x Hx. destruct (H i x Hx) as (y & Hy & ?). exists y. split; [|done].
  apply lookup_lt_Some in Hx. rewrite lookup_take_lt by lia. done.
Qed.

(** Setting a slot above the old stack, or raising one. *)
Lemma le_st_insert_above s s' i x : le_st s s' -> length s <= i -> le_st s (<[i := x]> s').
Proof.
  intros H Hi j y Hy. destruct (H j y Hy) as (z & Hz & ?). exists z. split; [|done].
  apply lookup_lt_Some in Hy. by rewrite list_lookup_insert_ne by lia.
Qed.

Lemma le_st_insert_raise s i x y : s !! i = Some y -> (y <= x)%Z -> le_st s (<[i := x]> s).
Proof.
  intros Hi Hle j z Hz. destruct (decide (i = j)) as [<-|Hne].
  - exists x. rewrite list_lookup_insert_eq by (by eapply lookup_lt_Some). split; [done|]. simplify_eq. done.
  - exists z. by rewrite list_lookup_insert_ne.
Qed.

Lemma st_ok_lookup s i x : st_ok s -> s !! i = Some x -> (STATUS_UNKNOWN <= x <= STATUS_EVALUATED)%Z.
Proof. intros H Hi. by eapply Forall_lookup_1 in Hi; [|exact H]. Qed.

(** ** Code produced *)

(** Jumps go forward and stay inside the piece of code or to its end; an
    expression never returns. *)
Definition jumps_ok (l : list instruction) : Prop :=
  forall i instr, l !! i = Some instr -> is_jump (i_opcode instr) = true ->
    (1 <= i_arg0 instr /\ Z.of_nat i + i_arg0 instr <= Z.of_nat (length l))%Z.
Definition no_return (l : list instruction) : Prop := Forall (fun i => i_opcode i <> OP_RETURN) l.

Record code_ok (l : list instruction) : Prop := {
  co_jumps : jumps_ok l;
  co_no_return : no_return l
}.

Lemma code_ok_nil : code_ok [].
Proof. split; [intros i instr H; by rewrite lookup_nil in H | constructor]. Qed.

Lemma code_ok_app l1 l2 : code_ok l1 -> code_ok l2 -> code_ok (l1 ++ l2).
Proof.
  intros [J1 S1] [J2 S2]. split; [|by apply Forall_app].
  intros i instr Hi Hj. rewrite length_app. apply lookup_app_Some in Hi as [Hi|[Hle Hi]].
  - destruct (J1 _ _ Hi Hj). lia.
  - destruct (J2 _ _ Hi Hj). lia.
Qed.

Lemma code_ok_single i :
  is_jump (i_opcode i) = false -> i_opcode i <> OP_RETURN -> code_ok [i].
Proof.
  intros Hj Hs. split; [|by repeat constructor].
  intros [|n] instr Hi Hj'; cbn in Hi; simplify_eq; congruence.
Qed.

(** [after comp comp' s]: good code has been appended and the stack is [s]. *)
Record after (comp comp' : compilation) (s : list Z) : Prop := {
  af_si : comp_si comp' = Some (Stackinfo s false);
  af_code : exists l, instructions comp' = instructions comp ++ l /\ code_ok l
}.

Lemma after_refl comp s : comp_si comp = Some (Stackinfo s false) -> after comp comp s.
Proof. intros H. split; [done|]. exists []. by rewrite app_nil_r; split; [|apply code_ok_nil]. Qed.

Lemma after_trans c0 c1 c2 s1 s2 : after c0 c1 s1 -> after c1 c2 s2 -> after c0 c2 s2.
Proof.
  intros [H1 (l1 & E1 & O1)] [H2 (l2 & E2 & O2)]. split; [done|].
  exists (l1 ++ l2). rewrite E2, E1, app_assoc. split; [done | by apply code_ok_app].
Qed.

Lemma add_instruction_ok comp sl op a0 a1 s s' :
  comp_si comp = Some (Stackinfo s false) -> si_step (Stackinfo s false) op a0 a1 = Done (Stackinfo s' false) ->
  is_jump op = false -> op <> OP_RETURN ->
  exists comp', add_instruction comp sl op a0 a1 = Done comp' /\ after comp comp' s'.
Proof.
  intros Hsi Hst Hj Hsq. unfold add_instruction. rewrite Hsi. cbn [si_invalid negb cassert mbind outcome_bind].
  rewrite Hst. cbn [mbind outcome_bind]. eexists. split; [reflexivity|]. split; [done|].
  eexists. split; [reflexivity|]. by apply code_ok_single.
Qed.

(** ** Status operations on good positions *)

Lemma statusat_ok s inv (i : Z) x :
  (0 <= i)%Z -> s !! Z.to_nat i = Some x -> statusat (Stackinfo s inv) i = Done x.
Proof.
  intros Hi Hx. unfold statusat, si_count; cbn. apply lookup_lt_Some in Hx as Hlt.
  rewrite (proj2 (Z.ltb_lt _ _)) by lia. rewrite (proj2 (Z.leb_le _ _)) by lia.
  cbn. by rewrite Hx.
Qed.

Lemma setstatusat_ok s inv (i x : Z) :
  (0 <= i < Z.of_nat (length s))%Z ->
  setstatusat (Stackinfo s inv) i x = Done (Stackinfo (<[Z.to_nat i := x]> s) inv).
Proof.
  intros Hi. unfold setstatusat, si_count; cbn.
  rewrite (proj2 (Z.ltb_lt _ _)) by lia. rewrite (proj2 (Z.leb_le _ _)) by lia. done.
Qed.

Lemma popstatus_ok s inv (k : Z) :
  (0 <= k <= Z.of_nat (length s))%Z ->
  popstatus (Stackinfo s inv) k = Done (Stackinfo (take (length s - Z.to_nat k) s) inv).
Proof.
  intros Hk. unfold popstatus, si_count; cbn.
  rewrite !(proj2 (Z.leb_le _ _)) by lia. cbn. do 3 f_equal. lia.
Qed.

(** ** Macros *)

Lemma SPARK_ok comp sl (a : Z) s :
  comp_si comp = Some (Stackinfo s false) -> st_ok s -> (0 <= a < Z.of_nat (length s))%Z ->
  exists comp' s', SPARK sl a comp = Done comp' /\ after comp comp' s' /\ st_ok s' /\ le_st s s' /\
    length s' = length s /\ exists t, s' !! (length s - 1 - Z.to_nat a) = Some t /\ (STATUS_SPARKED <= t)%Z.
Proof.
  intros Hsi Hok Ha. unfold SPARK, top_pos, the_si. rewrite Hsi. cbn [deref mbind outcome_bind].
  set (pos := (si_count _ - 1 - a)%Z).
  assert (Hpos : pos = Z.of_nat (length s - 1 - Z.to_nat a)) by (unfold pos, si_count; cbn; lia).
  destruct (lookup_lt_is_Some_2 s (length s - 1 - Z.to_nat a)) as [x Hx]; [lia|].
  assert (Hat : statusat (Stackinfo s false) pos = Done x) by (apply statusat_ok; [lia | by rewrite Hpos, Nat2Z.id]).
  rewrite Hat. cbn [mbind outcome_bind].
  destruct (Z.ltb_spec x STATUS_SPARKED).
  - destruct (add_instruction_ok comp sl OP_SPARK pos 0 s (<[Z.to_nat pos := STATUS_SPARKED]> s) Hsi)
      as (comp' & -> & Haf); [|done|done|].
    { cbn [si_step]. rewrite (proj2 (Z.leb_le _ _)) by lia. cbn [cassert mbind outcome_bind].
      rewrite Hat. cbn [mbind outcome_bind]. rewrite (proj2 (Z.ltb_lt _ _)) by done. apply setstatusat_ok. lia. }
    exists comp', (<[Z.to_nat pos := STATUS_SPARKED]> s). rewrite Hpos, Nat2Z.id in *.
    split_and!; [done | done | | eapply le_st_insert_raise; [exact Hx | lia] | by rewrite length_insert |].
    + apply Forall_insert; [done | by unfold STATUS_UNKNOWN, STATUS_SPARKED, STATUS_EVALUATED].
    + exists STATUS_SPARKED. split; [|done]. rewrite list_lookup_insert_eq; [done | lia].
  - exists comp, s. split_and!; [done | by apply after_refl | done | apply le_st_refl | done | eauto].
Qed.

Lemma EVAL_ok comp sl (a : Z) s :
  comp_si comp = Some (Stackinfo s false) -> st_ok s -> (0 <= a < Z.of_nat (length s))%Z ->
  exists comp' s', EVAL sl a comp = Done comp' /\ after comp comp' s' /\ st_ok s' /\ le_st s s' /\
    length s' = length s /\ s' !! (length s - 1 - Z.to_nat a) = Some STATUS_EVALUATED.
Proof.
  intros Hsi Hok Ha. unfold EVAL, top_pos, the_si. rewrite Hsi. cbn [deref mbind outcome_bind].
  set (pos := (si_count _ - 1 - a)%Z).
  assert (Hpos : pos = Z.of_nat (length s - 1 - Z.to_nat a)) by (unfold pos, si_count; cbn; lia).
  destruct (lookup_lt_is_Some_2 s (length s - 1 - Z.to_nat a)) as [x Hx]; [lia|].
  assert (Hat : statusat (Stackinfo s false) pos = Done x) by (apply statusat_ok; [lia | by rewrite Hpos, Nat2Z.id]).
  rewrite Hat. cbn [mbind outcome_bind]. pose proof (st_ok_lookup _ _ _ Hok Hx) as Hr.
  destruct (Z.ltb_spec x STATUS_EVALUATED).
  - destruct (add_instruction_ok comp sl OP_EVAL pos 0 s (<[Z.to_nat pos := STATUS_EVALUATED]> s) Hsi)
      as (comp' & -> & Haf); [cbn [si_step]; apply setstatusat_ok; lia | done | done |].
    exists comp', (<[Z.to_nat pos := STATUS_EVALUATED]> s). rewrite Hpos, Nat2Z.id in *.
    split_and!; [done | done | | eapply le_st_insert_raise; [exact Hx | lia] | by rewrite length_insert |].
    + apply Forall_insert; [done | by unfold STATUS_UNKNOWN, STATUS_EVALUATED].
    + rewrite list_lookup_insert_eq; [done | lia].
  - exists comp, s. split_and!; [done | by apply after_refl | done | apply le_st_refl | done |].
    rewrite Hx. f_equal. lia.
Qed.

(** [leaves comp base lo r]: [r] returns with the slots of [base] kept or
    raised and one more on top, whose status is at least [lo]. *)
Definition leaves (comp : compilation) (base : list Z) (lo : Z) (r : outcome compilation) : Prop :=
  exists comp' s', r = Done comp' /\ after comp comp' s' /\ st_ok s' /\ le_st base s' /\
    length s' = S (length base) /\ exists t, s' !! length base = Some t /\ (lo <= t)%Z.

(** The stack [s] of [comp] is [base], possibly raised, with [k] more slots. *)
Record holds (comp : compilation) (base : list Z) (k : nat) (s : list Z) : Prop := {
  ho_si : comp_si comp = Some (Stackinfo s false);
  ho_ok : st_ok s;
  ho_le : le_st base s;
  ho_len : length s = length base + k
}.

Lemma leaves_after comp comp1 base lo s1 r :
  after comp comp1 s1 -> leaves comp1 base lo r -> leaves comp base lo r.
Proof.
  intros H (comp' & s' & E & Haf & Hrest). exists comp', s'. split_and!; try apply Hrest; [done|].
  by eapply after_trans.
Qed.

Lemma leaves_weaken comp base lo lo' r : (lo' <= lo)%Z -> leaves comp base lo r -> leaves comp base lo' r.
Proof.
  intros Hle (comp' & s' & E & Haf & Hok & Hl & Hn & t & Ht & ?).
  exists comp', s'. split_and!; try done. exists t. split; [done | lia].
Qed.

Lemma leaves_holds comp base lo r :
  leaves comp base lo r -> exists comp' s', r = Done comp' /\ after comp comp' s' /\ holds comp' base 1 s' /\
    exists t, s' !! length base = Some t /\ (lo <= t)%Z.
Proof.
  intros (comp' & s' & E & Haf & Hok & Hl & Hn & Ht). exists comp', s'. split_and!; try done.
  split; [apply Haf | done | done | lia].
Qed.

(** Replacing the [k] slots above [base] by one of status [x]. *)
Lemma st_ok_push base s k x :
  st_ok s -> le_st base s -> length s = length base + k -> (STATUS_UNKNOWN <= x <= STATUS_EVALUATED)%Z ->
  st_ok (take (length base) s ++ [x]) /\ le_st base (take (length base) s ++ [x]) /\
  length (take (length base) s ++ [x]) = S (length base) /\
  (take (length base) s ++ [x]) !! length base = Some x.
Proof.
  intros Hok Hle Hlen Hx. assert (length (take (length base) s) = length base) as Ht by (rewrite length_take; lia).
  split_and!.
  - apply Forall_app. split; [by apply Forall_take | by apply Forall_singleton].
  - apply le_st_app, le_st_take; [done | lia].
  - rewrite length_app, Ht. cbn. lia.
  - rewrite lookup_app_r by lia. by rewrite Ht, Nat.sub_diag.
Qed.

Lemma add_leaves comp base k s sl op a0 a1 x lo :
  holds comp base k s -> is_jump op = false -> op <> OP_RETURN ->
  si_step (Stackinfo s false) op a0 a1 = Done (Stackinfo (take (length base) s ++ [x]) false) ->
  (STATUS_UNKNOWN <= x <= STATUS_EVALUATED)%Z -> (lo <= x)%Z ->
  leaves comp base lo (add_instruction comp sl op a0 a1).
Proof.
  intros [Hsi Hok Hle Hlen] Hj Hsq Hst Hx Hlo.
  destruct (add_instruction_ok comp sl op a0 a1 s _ Hsi Hst Hj) as (comp' & E & Haf); [done|].
  destruct (st_ok_push base s k x Hok Hle Hlen Hx) as (H1 & H2 & H3 & H4).
  exists comp', (take (length base) s ++ [x]). split_and!; try done. eauto.
Qed.

Lemma popstatus_base (s base : list Z) k :
  length s = length base + k ->
  popstatus (Stackinfo s false) (Z.of_nat k) = Done (Stackinfo (take (length base) s) false).
Proof.
  intros H. rewrite popstatus_ok by lia. do 3 f_equal. lia.
Qed.

Lemma MKCAP_ok comp base k s sl fno :
  holds comp base k s -> leaves comp base STATUS_EVALUATED (MKCAP sl fno (Z.of_nat k) comp).
Proof.
  intros H. eapply (add_leaves _ _ _ _ _ _ _ _ STATUS_EVALUATED); [exact H | done | done | | status_lia | done].
  cbn [si_step]. unfold si_count; cbn [si_status].
  rewrite (proj2 (Z.leb_le _ _)) by (rewrite (ho_len _ _ _ _ H); lia). cbn [cassert mbind outcome_bind].
  by rewrite (popstatus_base _ _ _ (ho_len _ _ _ _ H)).
Qed.

Lemma mkframe_ok comp base k s sl fno :
  holds comp base k s -> leaves comp base STATUS_UNKNOWN (add_instruction comp sl OP_MKFRAME fno (Z.of_nat k)).
Proof.
  intros H. eapply (add_leaves _ _ _ _ _ _ _ _ STATUS_UNKNOWN); [exact H | done | done | | status_lia | done].
  cbn [si_step]. unfold si_count; cbn [si_status].
  rewrite (proj2 (Z.leb_le _ _)) by (rewrite (ho_len _ _ _ _ H); lia). cbn [cassert mbind outcome_bind].
  by rewrite (popstatus_base _ _ _ (ho_len _ _ _ _ H)).
Qed.

Lemma push_value_ok comp base s sl op a0 a1 :
  holds comp base 0 s -> op = OP_PUSHNIL \/ op = OP_PUSHNUMBER \/ op = OP_PUSHSTRING ->
  leaves comp base STATUS_EVALUATED (add_instruction comp sl op a0 a1).
Proof.
  intros H Hop. destruct (ho_len _ _ _ _ H). assert (take (length base) s = s) as Ht.
  { apply take_ge. rewrite (ho_len _ _ _ _ H). lia. }
  assert (si_step (Stackinfo s false) op a0 a1 =
    Done (Stackinfo (take (length base) s ++ [STATUS_EVALUATED]) false)) as Hs.
  { rewrite Ht. by destruct Hop as [-> | [-> | ->]]. }
  eapply add_leaves; [exact H | | | exact Hs | status_lia | done]; by destruct Hop as [-> | [-> | ->]].
Qed.

Lemma push_string_ok comp base s sl str :
  holds comp base 0 s ->
  leaves comp base STATUS_EVALUATED
    (let '(comp, pos) := add_string comp str in add_instruction comp sl OP_PUSHSTRING pos 0).
Proof.
  intros H. unfold add_string. destruct (0 <=? find_string (stringmap comp) 0 str)%Z.
  - eapply push_value_ok; [exact H | auto].
  - set (c1 := Compilation _ _ _).
    apply (leaves_after comp c1 _ _ s); [|eapply push_value_ok; [|auto]; by destruct H].
    split; [apply H|]. exists []. split; [by rewrite app_nil_r | apply code_ok_nil].
Qed.

Lemma builtin_nargs_pos i b : builtin_info !! i = Some b -> 0 < bi_nargs b.
Proof.
  intros H. assert (Hall : forallb (fun b => 0 <? bi_nargs b) builtin_info = true) by (vm_compute; reflexivity).
  rewrite forallb_forall in Hall. apply list_elem_of_lookup_2, list_elem_of_In, Hall in H.
  by apply Nat.ltb_lt.
Qed.

Lemma eval_args_ok sl vs : forall comp base k s,
  holds comp base k s -> Forall (fun v => v < length s) vs ->
  exists comp' s', eval_args sl vs comp = Done comp' /\ after comp comp' s' /\ holds comp' base k s'.
Proof.
  induction vs as [|v vs IH]; intros comp base k s H Hvs; cbn [eval_args].
  { exists comp, s. split_and!; [done | by apply after_refl, H | done]. }
  apply Forall_cons in Hvs as [Hv Hvs]. destruct H as [Hsi Hok Hle Hlen].
  destruct (EVAL_ok comp sl (Z.of_nat v) s Hsi Hok) as (c1 & s1 & -> & Haf & Hok1 & Hle1 & Hl1 & _); [lia|].
  cbn [mbind outcome_bind].
  destruct (IH c1 base k s1) as (c2 & s2 & E & Haf2 & H2).
  { split; [apply Haf | done | by eapply le_st_trans | lia]. }
  { by rewrite Hl1. }
  exists c2, s2. split_and!; [done | by eapply after_trans | done].
Qed.

Lemma BIF_ok comp base s sl bif b :
  builtin_info !! bif = Some b -> holds comp base (bi_nargs b) s ->
  leaves comp base (if bi_reswhnf b then STATUS_EVALUATED else STATUS_UNKNOWN) (BIF sl bif comp).
Proof.
  intros Hb H. unfold BIF. rewrite Hb. cbn [deref mbind outcome_bind].
  pose proof (builtin_nargs_pos _ _ Hb) as Hpos. pose proof (builtin_nstrict_le _ _ Hb) as Hle.
  destruct (eval_args_ok sl (seq 0 (bi_nstrict b)) comp base _ s H) as (c1 & s1 & -> & Haf & H1).
  { apply Forall_seq. intros v Hv. rewrite (ho_len _ _ _ _ H). lia. }
  cbn [mbind outcome_bind]. eapply leaves_after; [exact Haf|].
  eapply (add_leaves _ _ _ _ _ _ _ _ (if bi_reswhnf b then STATUS_EVALUATED else STATUS_UNKNOWN)); [exact H1 | done | done | | |done].
  - cbn [si_step]. rewrite Nat2Z.id, Hb. cbn [deref mbind outcome_bind]. pose proof (ho_len _ _ _ _ H1) as Hl.
    replace (Z.of_nat (bi_nargs b) - 1)%Z with (Z.of_nat (bi_nargs b - 1)) by lia.
    rewrite popstatus_ok by lia. cbn [mbind outcome_bind]. unfold si_count; cbn [si_status].
    assert (length (take (length s1 - Z.to_nat (Z.of_nat (bi_nargs b - 1))) s1) = S (length base)) as Hlt.
    { rewrite length_take. lia. }
    rewrite setstatusat_ok by lia. do 2 f_equal. rewrite Hlt.
    replace (Z.to_nat (Z.of_nat (S (length base)) - 1)) with (length base) by lia.
    replace (length s1 - Z.to_nat (Z.of_nat (bi_nargs b - 1))) with (S (length base)) by lia.
    destruct (lookup_lt_is_Some_2 s1 (length base)) as [y Hy]; [lia|].
    rewrite (take_S_r _ _ _ Hy). rewrite insert_app_r_alt by (rewrite length_take; lia).
    rewrite length_take. replace (length base - length base `min` length s1) with 0 by lia. done.
  - destruct (bi_reswhnf b); status_lia.
Qed.

(** ** Programs the compiler accepts *)

(** A chain of references between supercombinators without arguments ends
    within [d] steps. *)
Fixpoint const_ends (d : nat) (src : source) (p : nat) : bool :=
  match d with
  | O => false
  | S d =>
      match src_heap src !! p with
      | Some sc =>
          if Nat.eqb (sc_nargs sc) 0 then
            match sc_body sc with
            | Some (SNODE_SCREF _ q) =>
                match src_heap src !! q with
                | Some sc' => if Nat.eqb (sc_nargs sc') 0 then const_ends d src q else true
                | None => false
                end
            | Some _ => true
            | None => false
            end
          else true
      | None => false
      end
  end.

(** The table of supercombinators as it is when compilation starts: indexes
    agree with positions, bodies are there and refer to live
    supercombinators, strictness is known for every argument. *)
Record sc_ready (mkfuel : nat) (src : source) (p : nat) (sc : scomb) (body : snode) (st : list bool) : Prop := {
  sr_heap : src_heap src !! p = Some sc;
  sr_index : src_scombs src !! sc_index sc = Some p;
  sr_body : sc_body sc = Some body;
  sr_refs : forall q, q ∈ screfs body -> q ∈ src_scombs src;
  sr_strict : sc_strictin sc = Some st;
  sr_strict_len : length st = sc_nargs sc;
  sr_const : const_ends mkfuel src p = true
}.

Definition src_ready (mkfuel : nat) (src : source) : Prop :=
  forall p, p ∈ src_scombs src -> exists sc body st, sc_ready mkfuel src p sc body st.

(** A function that may be applied to [m] arguments. *)
Definition fun_ok (src : source) (h : snode) (m : nat) : Prop :=
  match h with
  | SNODE_BUILTIN _ bif => exists b, builtin_info !! bif = Some b /\ m <= bi_nargs b
  | SNODE_SCREF _ p => p ∈ src_scombs src /\ exists sc, src_heap src !! p = Some sc /\ m <= sc_nargs sc
  | _ => False
  end.

Lemma NUM_BUILTINS_length : length builtin_info = NUM_BUILTINS.
Proof. vm_compute. reflexivity. Qed.

Lemma fno_builtin src sl bif b :
  builtin_info !! bif = Some b ->
  snode_fno src (SNODE_BUILTIN sl bif) = Done (Z.of_nat bif) /\
  function_nargs src (Z.of_nat bif) = Done (Z.of_nat (bi_nargs b)) /\
  (Z.of_nat bif < Z.of_nat NUM_BUILTINS)%Z.
Proof.
  intros H. apply lookup_lt_Some in H as Hlt. rewrite NUM_BUILTINS_length in Hlt.
  split_and!; [done | | lia]. unfold function_nargs. rewrite (proj2 (Z.leb_le _ _)) by lia.
  cbn [cassert mbind outcome_bind]. rewrite (proj2 (Z.ltb_lt _ _)) by lia. by rewrite Nat2Z.id, H.
Qed.

Lemma fno_scref mkfuel src sl p :
  src_ready mkfuel src -> p ∈ src_scombs src ->
  exists sc body st fno, sc_ready mkfuel src p sc body st /\ fno = Z.of_nat (sc_index sc + NUM_BUILTINS) /\
    snode_fno src (SNODE_SCREF sl p) = Done fno /\ fno_scomb src fno = Done sc /\
    function_nargs src fno = Done (Z.of_nat (sc_nargs sc)) /\ (Z.of_nat NUM_BUILTINS <= fno)%Z.
Proof.
  intros Hsrc Hp. destruct (Hsrc p Hp) as (sc & body & st & H). exists sc, body, st, (Z.of_nat (sc_index sc + NUM_BUILTINS)).
  assert (fno_scomb src (Z.of_nat (sc_index sc + NUM_BUILTINS)) = Done sc) as Hf.
  { unfold fno_scomb, get_scomb_index.
    replace (Z.to_nat (Z.of_nat (sc_index sc + NUM_BUILTINS) - Z.of_nat NUM_BUILTINS)) with (sc_index sc) by lia.
    rewrite (sr_index _ _ _ _ _ _ H). cbn [deref mbind outcome_bind]. unfold getsc. by rewrite (sr_heap _ _ _ _ _ _ H). }
  split_and!; [done | done | | done | | lia].
  - cbn [snode_fno]. unfold getsc. by rewrite (sr_heap _ _ _ _ _ _ H).
  - unfold function_nargs. rewrite (proj2 (Z.leb_le _ _)) by lia. cbn [cassert mbind outcome_bind].
    rewrite (proj2 (Z.ltb_ge _ _)) by lia. by rewrite Hf.
Qed.

(** The constant chain of [domkframe] ends, and one slot replaces the [k]
    arguments. *)
Lemma domkframe_scref mkfuel0 src : src_ready mkfuel0 src -> forall mkfuel p sc body st comp base k s sl,
  sc_ready mkfuel0 src p sc body st -> const_ends mkfuel src p = true -> p ∈ src_scombs src ->
  holds comp base k s -> k = sc_nargs sc ->
  leaves comp base STATUS_UNKNOWN (domkframe mkfuel src sl (Z.of_nat (sc_index sc + NUM_BUILTINS)) (Z.of_nat k) comp).
Proof.
  intros Hsrc. induction mkfuel as [|mkfuel IH]; intros p sc body st comp base k s sl Hr Hc Hp H Hk; [done|].
  destruct (fno_scref _ _ sl p Hsrc Hp) as (sc' & body' & st' & fno & Hr' & Efno & _ & Hf & _ & Hge).
  assert (sc' = sc) as -> by (pose proof (sr_heap _ _ _ _ _ _ Hr); pose proof (sr_heap _ _ _ _ _ _ Hr'); congruence).
  cbn [domkframe]. rewrite <- Efno. rewrite (proj2 (Z.leb_le _ _)) by lia. rewrite Hf. cbn [mbind outcome_bind].
  cbn [const_ends] in Hc. rewrite (sr_heap _ _ _ _ _ _ Hr) in Hc.
  destruct (Nat.eqb_spec (sc_nargs sc) 0) as [E0|_]; [|by eapply mkframe_ok].
  rewrite (sr_body _ _ _ _ _ _ Hr) in Hc |- *. cbn [deref mbind outcome_bind].
  assert (k = 0) as -> by lia. cbn [cassert mbind outcome_bind Z.eqb Z.of_nat].
  destruct body as [| | | | |sl' q|sl'|sl' num|sl' str]; try (by eapply (mkframe_ok _ _ 0)).
  - destruct (src_heap src !! q) as [sc2|] eqn:Hq; [|done].
    assert (Hq' : q ∈ src_scombs src) by (apply (sr_refs _ _ _ _ _ _ Hr); by left).
    destruct (fno_scref _ _ sl' q Hsrc Hq') as (sc3 & body3 & st3 & fno3 & Hr3 & Efno3 & -> & _ & Hn3 & _).
    assert (sc3 = sc2) as -> by (pose proof (sr_heap _ _ _ _ _ _ Hr3); congruence).
    cbn [mbind outcome_bind]. rewrite Hn3. cbn [mbind outcome_bind].
    destruct (Nat.eqb_spec (sc_nargs sc2) 0) as [E2|E2].
    + rewrite E2. cbn [Z.eqb Z.of_nat]. rewrite Efno3. by eapply (IH q sc2 body3 st3 comp base 0 s sl').
    + rewrite (proj2 (Z.eqb_neq _ _)) by lia. eapply leaves_weaken; [|by eapply (MKCAP_ok _ _ 0)]. status_lia.
  - eapply leaves_weaken; [|eapply push_value_ok; [exact H|auto]]. status_lia.
  - eapply leaves_weaken; [|eapply push_value_ok; [exact H|auto]]. status_lia.
  - eapply leaves_weaken; [|by eapply push_string_ok]. status_lia.
Qed.

(** ** Expressions *)

(** Literals that become part of an instruction fit an [int]. *)
Definition literal_ok (src : source) (c : snode) : Prop :=
  (forall x num, eq_literal c = Some (x, num) -> exists v, int_of_double num = Done v) /\
  (forall num l, item_literal src c = Done (Some (num, l)) -> exists v, int_of_double num = Done v).

(** Expressions below the root of a body: every function is known and not
    applied to too many arguments. *)
Fixpoint shape (src : source) (c : snode) : Prop :=
  match c with
  | SNODE_APPLICATION _ _ l r =>
      fun_ok src (spine_head l) (S (count_args l)) /\ literal_ok src c /\ shape src l /\ shape src r
  | SNODE_LAMBDA _ _ _ => False
  | SNODE_BUILTIN _ _ | SNODE_SCREF _ _ => fun_ok src c 0
  | SNODE_LETREC _ bs b => Forall id (map (fun rec => shape src (lr_value rec)) bs) /\ shape src b
  | _ => True
  end.

(** Every free variable is known to the map and lies on the stack. *)
Definition scoped (pm : pmap) (n : nat) (c : snode) : Prop :=
  forall x, free_in x c -> exists idx, presolve pm x = Done idx /\ (1 <= idx <= Z.of_nat n)%Z.

(** Bound names are new and distinct. *)
Definition fresh_binders (pm : pmap) (c : snode) : Prop :=
  NoDup (binders c) /\ forall x, x ∈ binders c -> x ∉ map fst pm.

Definition good (src : source) (pm : pmap) (n : nat) (c : snode) : Prop :=
  shape src c /\ scoped pm n c /\ fresh_binders pm c.

Lemma good_app src pm n sl st l r :
  good src pm n (SNODE_APPLICATION sl st l r) -> good src pm n l /\ good src pm n r.
Proof.
  intros ((_ & _ & Hl & Hr) & Hs & Hnd & Hf). cbn [binders] in *.
  apply list.NoDup_app in Hnd as (H1 & _ & H2). setoid_rewrite elem_of_app in Hf.
  split; (split_and!; [done | intros x Hx; apply Hs; cbn; tauto | split; auto]).
Qed.

Lemma good_mono src pm n m c : n <= m -> good src pm n c -> good src pm m c.
Proof.
  intros Hle (H1 & H2 & H3). split_and!; try done. intros x Hx.
  destruct (H2 x Hx) as (idx & ? & ?). exists idx. split; [done | lia].
Qed.

(** What [C] and [E] promise. *)
Definition compiles (src : source) (rec_ : compilation -> snode -> pmap -> Z -> outcome compilation) (lo : Z) (c : snode) : Prop :=
  forall comp pm s, good src pm (length s) c -> holds comp s 0 s ->
    leaves comp s lo (rec_ comp c pm (Z.of_nat (length s))).

(** ** Argument lists *)

Section args.
Context (src : source) (C E : compilation -> snode -> pmap -> Z -> outcome compilation).

Definition arg_ok (pm : pmap) (n : nat) (a : snode * bool) : Prop :=
  compiles src C STATUS_UNKNOWN a.1 /\ compiles src E STATUS_SPARKED a.1 /\ good src pm n a.1.

Lemma holds_self comp s k s1 : holds comp s k s1 -> holds comp s1 0 s1.
Proof. intros [? ? ? ?]. split; [done | done | apply le_st_refl | lia]. Qed.

Lemma holds_trans comp s k s1 k' s2 :
  le_st s s1 -> length s1 = length s + k -> holds comp s1 k' s2 -> holds comp s (k + k') s2.
Proof. intros Hle Hl [H1 H2 H3 H4]. split; [done | done | by eapply le_st_trans | lia]. Qed.

Lemma arg_ok_mono pm n m a : n <= m -> arg_ok pm n a -> arg_ok pm m a.
Proof. intros Hle (? & ? & ?). split_and!; try done. by eapply good_mono. Qed.

Lemma push_args_ok args : forall comp pm s,
  Forall (arg_ok pm (length s)) args -> holds comp s 0 s ->
  exists comp' s', push_args C E args pm (Z.of_nat (length s)) comp = Done comp' /\ after comp comp' s' /\
    holds comp' s (length args) s' /\
    (forall i a, args !! i = Some (a, true) -> exists t, s' !! (length s + i) = Some t /\ (STATUS_SPARKED <= t)%Z).
Proof.
  induction args as [|[a strict] args IH]; intros comp pm s Hargs H; cbn [push_args].
  { exists comp, s. split_and!; [done | by apply after_refl, H | done | done]. }
  apply Forall_cons in Hargs as [(HC & HE & Hg) Hargs].
  assert (leaves comp s (if strict then STATUS_SPARKED else STATUS_UNKNOWN)
    (if strict then E comp a pm (Z.of_nat (length s)) else C comp a pm (Z.of_nat (length s)))) as HL.
  { destruct strict; auto. }
  apply leaves_holds in HL as (c1 & s1 & -> & Haf1 & H1 & Ht1). cbn [mbind outcome_bind].
  pose proof (ho_len _ _ _ _ H1) as Hl1.
  replace (Z.of_nat (length s) + 1)%Z with (Z.of_nat (length s1)) by lia.
  destruct (IH c1 pm s1) as (c2 & s2 & -> & Haf2 & H2 & Hst); [|by eapply holds_self|].
  { eapply Forall_impl; [exact Hargs|]. intros a'. apply arg_ok_mono. lia. }
  exists c2, s2. split_and!; [done | by eapply after_trans | |].
  - apply (holds_trans _ _ 1 s1); [apply H1 | lia | done].
  - intros [|i] a' Hi; cbn in Hi.
    + simplify_eq. destruct Ht1 as (t & Ht & Hlo).
      destruct (ho_le _ _ _ _ H2 _ _ Ht) as (t' & Ht' & ?). exists t'. rewrite Nat.add_0_r. split; [done | lia].
    + destruct (Hst i a' Hi) as (t & Ht & ?). exists t. split; [|done]. rewrite Hl1 in Ht. by rewrite <- Ht; f_equal; lia.
Qed.

Lemma push_args_C_ok args : forall comp pm s,
  Forall (arg_ok pm (length s)) args -> holds comp s 0 s ->
  exists comp' s', push_args_C C args pm (Z.of_nat (length s)) comp = Done comp' /\ after comp comp' s' /\
    holds comp' s (length args) s'.
Proof.
  induction args as [|[a strict] args IH]; intros comp pm s Hargs H; cbn [push_args_C].
  { exists comp, s. split_and!; [done | by apply after_refl, H | done]. }
  apply Forall_cons in Hargs as [(HC & HE & Hg) Hargs].
  cbn [fst] in HC, Hg. destruct (leaves_holds _ _ _ _ (HC comp pm s Hg H)) as (c1 & s1 & -> & Haf1 & H1 & _). cbn [mbind outcome_bind].
  pose proof (ho_len _ _ _ _ H1) as Hl1.
  replace (Z.of_nat (length s) + 1)%Z with (Z.of_nat (length s1)) by lia.
  destruct (IH c1 pm s1) as (c2 & s2 & -> & Haf2 & H2); [|by eapply holds_self|].
  { eapply Forall_impl; [exact Hargs|]. intros a'. apply arg_ok_mono. lia. }
  exists c2, s2. split_and!; [done | by eapply after_trans |].
  apply (holds_trans _ _ 1 s1); [apply H1 | lia | done].
Qed.
End args.

Lemma spine_strict_length c : length (spine_strict c) = count_args c.
Proof. induction c; cbn; [by f_equal | done..]. Qed.

(** The arguments of a good application are good and smaller. *)
Lemma spine_good src pm n c : good src pm n c ->
  Forall (fun a => good src pm n a.1 /\ snode_size a.1 < snode_size c) (spine_strict c).
Proof.
  revert pm n. snode_induction c; intros pm n' Hg; cbn; try constructor.
  - destruct (good_app _ _ _ _ _ _ _ Hg). cbn. split; [done | lia].
  - destruct (good_app _ _ _ _ _ _ _ Hg) as [Hl _].
    eapply Forall_impl; [exact (IHl _ _ Hl)|]. cbn. intros a [? ?]. split; [done | lia].
Qed.

(** [PUSH] of a variable on the stack. *)
Lemma PUSH_ok comp s sl (idx lo x : Z) :
  holds comp s 0 s -> (1 <= idx <= Z.of_nat (length s))%Z -> s !! Z.to_nat (idx - 1) = Some x -> (lo <= x)%Z ->
  leaves comp s lo (PUSH sl (Z.of_nat (length s) - idx) comp).
Proof.
  intros H Hi Hx Hlo. unfold PUSH, top_pos, the_si. rewrite (ho_si _ _ _ _ H). cbn [deref mbind outcome_bind].
  unfold si_count; cbn [si_status].
  replace (Z.of_nat (length s) - 1 - (Z.of_nat (length s) - idx))%Z with (idx - 1)%Z by lia.
  eapply (add_leaves _ _ _ _ _ _ _ _ x); [exact H | done | done | | | done].
  - cbn [si_step]. rewrite (proj2 (Z.leb_le _ _)) by lia. cbn [cassert mbind outcome_bind].
    rewrite (statusat_ok _ _ _ x) by (done || lia). cbn [mbind outcome_bind]. unfold pushstatus; cbn.
    do 3 f_equal. symmetry. apply take_ge. lia.
  - by eapply st_ok_lookup; [apply H|].
Qed.

(** [POP(1)] undoes one push. *)
Lemma POP_ok comp base s sl :
  holds comp base 1 s -> exists comp' s', add_instruction comp sl OP_POP 1 0 = Done comp' /\
    after comp comp' s' /\ holds comp' base 0 s'.
Proof.
  intros [Hsi Hok Hle Hlen].
  destruct (add_instruction_ok comp sl OP_POP 1 0 s (take (length base) s) Hsi) as (c1 & -> & Haf); [|done|done|].
  { cbn [si_step]. unfold si_count; cbn [si_status]. rewrite (proj2 (Z.leb_le _ _)) by lia.
    cbn [cassert mbind outcome_bind]. apply (popstatus_base s base 1). lia. }
  exists c1, (take (length base) s). split_and!; [done | done |].
  split; [apply Haf | by apply Forall_take | apply le_st_take; [done | lia] | rewrite length_take; lia].
Qed.

(** [SQUEEZE(1,k)] keeps the top and removes the [k] slots below it. *)
Lemma SQUEEZE_ok comp base s k sl lo t :
  holds comp base (k + 1) s -> s !! (length base + k) = Some t -> (lo <= t)%Z ->
  leaves comp base lo (add_instruction comp sl OP_SQUEEZE 1 (Z.of_nat k)).
Proof.
  intros [Hsi Hok Hle Hlen] Ht Hlo. pose proof (st_ok_lookup _ _ _ Hok Ht) as Hr.
  destruct (add_instruction_ok comp sl OP_SQUEEZE 1 (Z.of_nat k) s (take (length base) s ++ [t]) Hsi) as (c1 & -> & Haf); [|done|done|].
  { cbn [si_step]. unfold si_count; cbn [si_status si_invalid]. rewrite (proj2 (Z.leb_le _ _)) by lia.
    cbn [cassert mbind outcome_bind].
    replace (Z.to_nat (Z.of_nat (length s) - 1 - Z.of_nat k)) with (length base) by lia.
    replace (Z.to_nat (Z.of_nat (length s) - 1)) with (length base + k) by lia.
    by rewrite (drop_S _ _ _ Ht), (drop_ge s (S (length base + k))) by lia. }
  destruct (st_ok_push base s (k + 1) t Hok Hle Hlen Hr) as (H1 & H2 & H3 & H4).
  exists c1, (take (length base) s ++ [t]). split_and!; try done. eauto.
Qed.

(** ** Calls *)

(** What the compiler finds out about a function it may call. *)
Record callable (mkfuel : nat) (src : source) (h : snode) (fno : Z) (k : nat) : Prop := {
  ca_fun : is_function h = true;
  ca_fno : snode_fno src h = Done fno;
  ca_nargs : function_nargs src fno = Done (Z.of_nat k);
  ca_frame : forall comp base s sl, holds comp base k s ->
    leaves comp base STATUS_UNKNOWN (domkframe mkfuel src sl fno (Z.of_nat k) comp)
}.

Lemma fun_ok_callable mkfuel src h m :
  0 < mkfuel -> src_ready mkfuel src -> fun_ok src h m -> exists fno k, callable mkfuel src h fno k /\ m <= k.
Proof.
  intros Hmk Hsrc Hf. destruct h as [| |sl bif| | |sl p| | |]; try done.
  - destruct Hf as (b & Hb & Hm). destruct (fno_builtin src sl bif b Hb) as (H1 & H2 & H3).
    exists (Z.of_nat bif), (bi_nargs b). split; [|done]. split; try done.
    intros comp base s sl' H. destruct mkfuel as [|mkfuel]; [lia|]. cbn [domkframe].
    rewrite (proj2 (Z.leb_gt _ _)) by lia. destruct (Z.eqb_spec (Z.of_nat bif) (Z.of_nat B_CONS)) as [E|E]; [|by eapply mkframe_ok].
    assert (bif = B_CONS) as -> by lia. vm_compute in Hb. injection Hb as <-. cbn in H |- *.
    eapply leaves_weaken; [|exact (BIF_ok comp base s sl' B_CONS _ eq_refl H)]. cbn. status_lia.
  - destruct Hf as (Hp & sc' & Hs' & Hm).
    destruct (fno_scref _ _ sl p Hsrc Hp) as (sc & body & st & fno & Hr & Efno & H1 & H2 & H3 & _).
    assert (sc' = sc) as -> by (pose proof (sr_heap _ _ _ _ _ _ Hr); congruence).
    exists fno, (sc_nargs sc). split; [|done]. split; try done.
    intros comp base s sl' H. rewrite Efno. eapply domkframe_scref; try done. apply Hr.
Qed.

Lemma shape_spine src c : is_function (spine_head c) = true \/ 0 < count_args c ->
  shape src c -> fun_ok src (spine_head c) (count_args c).
Proof. destruct c; cbn; intros [H|H] Hs; try done; try lia; by destruct Hs. Qed.

(** A call with the slot it leaves sparked or evaluated. *)
Lemma leaves_SPARK comp base lo r sl :
  leaves comp base lo r -> leaves comp base STATUS_SPARKED (comp ← r; SPARK sl 0 comp).
Proof.
  intros (c1 & s1 & -> & Haf & Hok & Hle & Hn & _). cbn [mbind outcome_bind].
  destruct (SPARK_ok c1 sl 0 s1) as (c2 & s2 & -> & Haf2 & Hok2 & Hle2 & Hl2 & t & Ht & Hlo); [apply Haf | done | lia |].
  exists c2, s2. split_and!; [done | by eapply after_trans | done | by eapply le_st_trans | lia |].
  exists t. split; [|done]. rewrite <- Ht. f_equal. lia.
Qed.

Lemma leaves_EVAL comp base lo r sl :
  leaves comp base lo r -> leaves comp base STATUS_EVALUATED (comp ← r; EVAL sl 0 comp).
Proof.
  intros (c1 & s1 & -> & Haf & Hok & Hle & Hn & _). cbn [mbind outcome_bind].
  destruct (EVAL_ok c1 sl 0 s1) as (c2 & s2 & -> & Haf2 & Hok2 & Hle2 & Hl2 & Ht); [apply Haf | done | lia |].
  exists c2, s2. split_and!; [done | by eapply after_trans | done | by eapply le_st_trans | lia |].
  exists STATUS_EVALUATED. split; [|done]. rewrite <- Ht. f_equal. lia.
Qed.

Section calls.
Context (mkfuel : nat) (src : source).
Hypothesis Hmk : 0 < mkfuel.
Hypothesis Hsrc : src_ready mkfuel src.
Context (C E : compilation -> snode -> pmap -> Z -> outcome compilation).

(** Smaller trees compile. *)
Definition below (c : snode) : Prop :=
  forall c', snode_size c' < snode_size c ->
    compiles src C STATUS_UNKNOWN c' /\ compiles src E STATUS_SPARKED c'.

Lemma spine_args_ok pm n c : below c -> good src pm n c -> Forall (arg_ok src C E pm n) (spine_strict c).
Proof.
  intros Hb Hg. eapply Forall_impl; [by apply spine_good|]. cbn. intros a [Ha Hs].
  destruct (Hb _ Hs). by split_and!.
Qed.

Lemma C_application_ok c : 0 < count_args c -> below c ->
  compiles src (fun comp c pm n => C_application src mkfuel C c pm n comp) STATUS_UNKNOWN c.
Proof.
  intros Hc Hb comp pm s Hg H. unfold C_application.
  destruct (push_args_C_ok src C E (spine_strict c) comp pm s (spine_args_ok _ _ _ Hb Hg) H) as (c1 & s1 & -> & Haf & H1).
  cbn [mbind outcome_bind]. rewrite spine_strict_length in H1.
  destruct (fun_ok_callable mkfuel src _ _ Hmk Hsrc (shape_spine src c (or_intror Hc) (proj1 Hg))) as (fno & k & Hca & Hm).
  rewrite (ca_fun _ _ _ _ _ Hca). cbn [cassert mbind outcome_bind].
  rewrite (ca_fno _ _ _ _ _ Hca). cbn [mbind outcome_bind]. rewrite (ca_nargs _ _ _ _ _ Hca). cbn [mbind outcome_bind].
  rewrite (proj2 (Z.leb_le _ _)) by lia. cbn [cassert mbind outcome_bind].
  eapply leaves_after; [exact Haf|]. destruct (Z.eqb_spec (Z.of_nat (count_args c)) (Z.of_nat k)) as [E'|E'].
  - eapply (ca_frame _ _ _ _ _ Hca). assert (count_args c = k) as <- by lia. done.
  - eapply leaves_weaken; [|by eapply MKCAP_ok]. status_lia.
Qed.

Lemma E_call_ok c fno k : 0 < count_args c -> below c -> callable mkfuel src (spine_head c) fno k -> count_args c <= k ->
  compiles src (fun comp c pm n => E_call src mkfuel C E c fno (Z.of_nat k) pm n comp) STATUS_SPARKED c.
Proof.
  intros Hc Hb Hca Hm comp pm s Hg H. unfold E_call.
  destruct (push_args_ok src C E (spine_strict c) comp pm s (spine_args_ok _ _ _ Hb Hg) H) as (c1 & s1 & -> & Haf & H1 & _).
  cbn [mbind outcome_bind]. rewrite spine_strict_length in H1. eapply leaves_after; [exact Haf|].
  destruct (Z.eqb_spec (Z.of_nat (count_args c)) (Z.of_nat k)) as [E'|E'].
  - assert (k = count_args c) as -> by lia.
    pose proof (fun sl => ca_frame _ _ _ _ _ Hca _ _ _ sl H1) as Hframe.
    pose proof (shape_spine src c (or_intror Hc) (proj1 Hg)) as Hf.
    destruct (spine_head c) as [| |sl bif| | |sl p| | |] eqn:Eh; try done; [|by eapply leaves_SPARK].
    destruct Hf as (b & Hbi & Hnb). rewrite Hbi. cbn [deref mbind outcome_bind].
    destruct (bi_pure b); [|eapply leaves_weaken; [|by eapply leaves_EVAL]; status_lia].
    assert (bi_nargs b = count_args c) as Hn.
    { destruct (fno_builtin src sl bif b Hbi) as (F1 & F2 & _). pose proof (ca_fno _ _ _ _ _ Hca) as F3.
      pose proof (ca_nargs _ _ _ _ _ Hca) as F4. rewrite F1 in F3. injection F3 as <-. rewrite F2 in F4. injection F4. lia. }
    rewrite <- Hn in H1. pose proof (BIF_ok _ _ _ (node_sl (SNODE_BUILTIN sl bif)) bif b Hbi H1) as HB.
    destruct (bi_reswhnf b); [|by eapply leaves_SPARK].
    destruct HB as (c2 & s2 & -> & HB). cbn [mbind outcome_bind].
    eapply (leaves_weaken _ _ STATUS_EVALUATED); [status_lia|]. exists c2, s2. by split.
  - by eapply leaves_SPARK, MKCAP_ok.
Qed.
End calls.

(** ** Jumps and labels *)

Lemma code_ok_cons i l :
  (is_jump (i_opcode i) = true -> (1 <= i_arg0 i <= 1 + Z.of_nat (length l))%Z) ->
  i_opcode i <> OP_RETURN -> code_ok l -> code_ok (i :: l).
Proof.
  intros Hj Hs [J Sq]. split; [|by constructor].
  intros [|n] instr Hi Hjmp; cbn in Hi; cbn [length].
  - simplify_eq. specialize (Hj Hjmp). lia.
  - destruct (J _ _ Hi Hjmp). lia.
Qed.

(** The code of a conditional: test, jump [j], first branch, jump [k], second
    branch. *)
Lemma code_ok_if l1 j lb1 k lb2 :
  code_ok l1 -> code_ok lb1 -> code_ok lb2 -> is_jump (i_opcode j) = true -> is_jump (i_opcode k) = true ->
  code_ok (l1 ++ set_arg0 (2 + Z.of_nat (length lb1)) j :: lb1 ++ set_arg0 (1 + Z.of_nat (length lb2)) k :: lb2).
Proof.
  intros H1 H2 H3 Hj Hk. apply code_ok_app; [done|]. apply code_ok_cons; cbn; [| |].
  - rewrite length_app; cbn. lia.
  - intros E. rewrite E in Hj. done.
  - apply code_ok_app; [done|]. apply code_ok_cons; cbn; [lia | | done]. intros E. rewrite E in Hk. done.
Qed.

Lemma LABEL_at comp A x B :
  instructions comp = A ++ x :: B ->
  instructions (LABEL (Z.of_nat (length A)) comp) = A ++ set_arg0 (1 + Z.of_nat (length B)) x :: B /\
  comp_si (LABEL (Z.of_nat (length A)) comp) = comp_si comp.
Proof.
  intros H. split; [|done]. unfold LABEL, code_count; cbn [instructions set_instructions].
  rewrite Nat2Z.id, H, length_app. cbn [length].
  replace (Z.of_nat (length A + S (length B)) - Z.of_nat (length A))%Z with (1 + Z.of_nat (length B))%Z by lia.
  rewrite alter_app_r_alt by lia. by rewrite Nat.sub_diag.
Qed.

Lemma add_jump_ok comp sl op a0 a1 s s' :
  comp_si comp = Some (Stackinfo s false) -> si_step (Stackinfo s false) op a0 a1 = Done (Stackinfo s' false) ->
  exists comp' j, add_instruction comp sl op a0 a1 = Done comp' /\ i_opcode j = op /\
    instructions comp' = instructions comp ++ [j] /\ comp_si comp' = Some (Stackinfo s' false).
Proof.
  intros Hsi Hst. unfold add_instruction. rewrite Hsi. cbn [si_invalid negb cassert mbind outcome_bind].
  rewrite Hst. cbn [mbind outcome_bind]. eexists _, (Instruction op a0 a1 (sl_fileno sl) (sl_lineno sl) (si_count (Stackinfo s false))).
  split; [reflexivity|]. by split_and!.
Qed.

(** A conditional jump emitted by [JFALSE] ([k] = 0) or [JEQ] ([k] = 1). *)
Record jumped (comp comp' : compilation) (addr : Z) (base : list Z) (k : nat) (s : list Z)
    (l : list instruction) (j : instruction) : Prop := {
  ju_addr : addr = Z.of_nat (length (instructions comp ++ l));
  ju_code : instructions comp' = instructions comp ++ l ++ [j];
  ju_ok : code_ok l;
  ju_jump : is_jump (i_opcode j) = true;
  ju_holds : holds comp' base k s
}.

Lemma JFALSE_ok comp base s sl :
  holds comp base 1 s -> exists comp' addr s' l j, JFALSE sl comp = Done (comp', addr) /\ jumped comp comp' addr base 0 s' l j.
Proof.
  intros H. unfold JFALSE.
  destruct (EVAL_ok comp sl 0 s (ho_si _ _ _ _ H) (ho_ok _ _ _ _ H)) as (c1 & s1 & -> & [Hsi1 (l & El & Hcl)] & Hok1 & Hle1 & Hl1 & _).
  { rewrite (ho_len _ _ _ _ H). lia. }
  cbn [mbind outcome_bind]. rewrite (ho_len _ _ _ _ H) in Hl1.
  destruct (add_jump_ok c1 sl OP_JFALSE 0 0 s1 (take (length base) s1) Hsi1) as (c2 & j & -> & Hj & Ec & Hsi2).
  { cbn [si_step]. apply (popstatus_base s1 base 1). lia. }
  cbn [mbind outcome_bind]. exists c2, (code_count c1), (take (length base) s1), l, j. split; [done|]. split.
  - unfold code_count. by rewrite El.
  - by rewrite Ec, El, <- app_assoc.
  - done.
  - by rewrite Hj.
  - split; [done | by apply Forall_take | | rewrite length_take; lia].
    apply le_st_take; [|lia]. eapply le_st_trans; [apply H | done].
Qed.

Lemma JEQ_ok comp base s sl v :
  holds comp base 1 s -> exists comp' addr s' l j, JEQ sl v comp = Done (comp', addr) /\ jumped comp comp' addr base 1 s' l j.
Proof.
  intros H. unfold JEQ.
  destruct (EVAL_ok comp sl 0 s (ho_si _ _ _ _ H) (ho_ok _ _ _ _ H)) as (c1 & s1 & -> & [Hsi1 (l & El & Hcl)] & Hok1 & Hle1 & Hl1 & _).
  { rewrite (ho_len _ _ _ _ H). lia. }
  cbn [mbind outcome_bind]. rewrite (ho_len _ _ _ _ H) in Hl1.
  destruct (add_jump_ok c1 sl OP_JEQ 0 v s1 s1 Hsi1) as (c2 & j & -> & Hj & Ec & Hsi2); [done|].
  cbn [mbind outcome_bind]. exists c2, (code_count c1), s1, l, j. split; [done|]. split.
  - unfold code_count. by rewrite El.
  - by rewrite Ec, El, <- app_assoc.
  - done.
  - by rewrite Hj.
  - split; [done | done | | lia]. eapply le_st_trans; [apply H | done].
Qed.

(** Starting a branch. *)
Lemma branch_ok comp base k s :
  holds comp base k s -> exists comp', branch comp = Done comp' /\ instructions comp' = instructions comp /\
    holds comp' base k s.
Proof.
  intros [Hsi Hok Hle Hl]. unfold branch, the_si. rewrite Hsi. eexists. split; [reflexivity|].
  split; [done|]. by split.
Qed.

Lemma pop_push_ok comp base k s :
  holds comp base k s -> leaves comp base STATUS_SPARKED (pop_push (Z.of_nat k) STATUS_SPARKED comp).
Proof.
  intros [Hsi Hok Hle Hl]. unfold pop_push, the_si. rewrite Hsi. cbn [deref mbind outcome_bind].
  rewrite (popstatus_base s base k Hl). cbn [mbind outcome_bind].
  destruct (st_ok_push base s k STATUS_SPARKED Hok Hle Hl) as (H1 & H2 & H3 & H4); [status_lia|].
  eexists _, (take (length base) s ++ [STATUS_SPARKED]). split; [reflexivity|].
  split_and!; [|done|done|done|by eexists].
  split; [done|]. exists []. by split; [rewrite app_nil_r | apply code_ok_nil].
Qed.

(** [E] or [C] on a stack that is [base] with nothing more on it. *)
Lemma compiles_at src rec_ lo c comp pm base s :
  compiles src rec_ lo c -> good src pm (length base) c -> holds comp base 0 s ->
  exists comp' s' l, rec_ comp c pm (Z.of_nat (length base)) = Done comp' /\
    instructions comp' = instructions comp ++ l /\ code_ok l /\ after comp comp' s' /\
    holds comp' base 1 s' /\ exists t, s' !! length base = Some t /\ (lo <= t)%Z.
Proof.
  intros Hc Hg H. pose proof (ho_len _ _ _ _ H) as Hl. rewrite Nat.add_0_r in Hl.
  rewrite <- Hl in Hg |- *. destruct (leaves_holds _ _ _ _ (Hc comp pm s Hg (holds_self _ _ _ _ H)))
    as (c1 & s1 & E & Haf & H1 & Ht).
  pose proof Haf as [_ (l & El & Hcl)]. exists c1, s1, l. split_and!; try done.
  apply (holds_trans _ _ 0 s); [apply H | lia | done].
Qed.

Section branches.
Context (src : source) (C E : compilation -> snode -> pmap -> Z -> outcome compilation).

(** The instructions of a branch; [pop] is true after JEQ. *)
Lemma branch_expr (pop : bool) comp base s sl x pm :
  holds comp base (if pop then 1 else 0) s -> compiles src E STATUS_SPARKED x -> good src pm (length base) x ->
  exists c1 c2 s2 lb, branch comp = Done c1 /\
    (c ← (if pop then add_instruction c1 sl OP_POP 1 0 else Done c1); E c x pm (Z.of_nat (length base))) = Done c2 /\
    instructions c2 = instructions comp ++ lb /\ code_ok lb /\ comp_si c2 = Some (Stackinfo s2 false).
Proof.
  intros H Hx Hg. destruct (branch_ok _ _ _ _ H) as (c1 & E1 & Ei & H1).
  assert (exists c2 s2 lp, (if pop then add_instruction c1 sl OP_POP 1 0 else Done c1) = Done c2 /\
    instructions c2 = instructions comp ++ lp /\ code_ok lp /\ holds c2 base 0 s2) as (c2 & s2 & lp & E2 & Elp & Hlp & H2).
  { destruct pop.
    - destruct (POP_ok _ _ _ sl H1) as (c2 & s2 & E2 & [_ (lp & Elp & Hlp)] & H2).
      exists c2, s2, lp. rewrite <- Ei. done.
    - exists c1, s, []. rewrite app_nil_r. split_and!; try done. apply code_ok_nil. }
  destruct (compiles_at src E STATUS_SPARKED x c2 pm base s2 Hx Hg H2) as (c3 & s3 & l3 & E3 & El3 & Hl3 & _ & H3 & _).
  exists c1, c3, s3, (lp ++ l3). rewrite E2. cbn [mbind outcome_bind]. split_and!; try done.
  - by rewrite El3, Elp, app_assoc.
  - by apply code_ok_app.
  - apply H3.
Qed.

(** Both branches after a conditional jump, with the labels set. *)
Lemma join_branches comp comp0 label base k s0 l j c1 lb1 kj c2 lb2 endaddr :
  jumped comp comp0 label base k s0 l j ->
  instructions c1 = instructions comp0 ++ lb1 ++ [kj] -> is_jump (i_opcode kj) = true ->
  endaddr = Z.of_nat (length (instructions comp0 ++ lb1)) ->
  code_ok lb1 -> code_ok lb2 ->
  instructions c2 = instructions (LABEL label (unbranch comp0 c1)) ++ lb2 ->
  after comp (LABEL endaddr (unbranch comp0 c2)) s0 /\ holds (LABEL endaddr (unbranch comp0 c2)) base k s0.
Proof.
  intros [Ha Hc Hl Hj Hh] E1 Hkj Hend O1 O2 E2.
  assert (instructions (LABEL label (unbranch comp0 c1)) =
    (instructions comp ++ l) ++ set_arg0 (2 + Z.of_nat (length lb1)) j :: lb1 ++ [kj]) as EL.
  { rewrite Ha. destruct (LABEL_at (unbranch comp0 c1) (instructions comp ++ l) j (lb1 ++ [kj])) as [-> _].
    - cbn. rewrite E1, Hc. by rewrite <- !app_assoc.
    - do 3 f_equal. rewrite length_app. cbn. lia. }
  set (j' := set_arg0 _ j) in EL.
  destruct (LABEL_at (unbranch comp0 c2) ((instructions comp ++ l) ++ j' :: lb1) kj lb2) as [EL2 Esi].
  { cbn [unbranch set_si instructions]. rewrite E2, EL, <- !app_assoc. cbn. by rewrite <- app_assoc. }
  assert (endaddr = Z.of_nat (length ((instructions comp ++ l) ++ j' :: lb1))) as ->.
  { rewrite Hend, Hc, !length_app. cbn. lia. }
  assert (comp_si comp0 = Some (Stackinfo s0 false)) as Hsi by apply Hh.
  split.
  - split; [by rewrite Esi|]. exists (l ++ j' :: lb1 ++ set_arg0 (1 + Z.of_nat (length lb2)) kj :: lb2).
    rewrite EL2. split; [by rewrite <- !app_assoc|]. by apply code_ok_if.
  - by destruct Hh; split.
Qed.

Lemma holds_label comp0 comp addr base k s :
  holds comp0 base k s -> holds (LABEL addr (unbranch comp0 comp)) base k s.
Proof. intros [? ? ? ?]. by split. Qed.

(** Everything after the conditional jump. *)
Lemma E_if_branches (pop : bool) comp c0 label base s0 l j x1 x2 pm sl :
  jumped comp c0 label base (if pop then 1 else 0) s0 l j ->
  compiles src E STATUS_SPARKED x1 -> good src pm (length base) x1 ->
  compiles src E STATUS_SPARKED x2 -> good src pm (length base) x2 ->
  leaves comp base STATUS_SPARKED
    (c ← branch c0;
     c ← (if pop then add_instruction c sl OP_POP 1 0 else Done c);
     c ← E c x1 pm (Z.of_nat (length base));
     '(c, end_) ← JUMP sl c;
     let c := LABEL label (unbranch c0 c) in
     c ← branch c;
     c ← (if pop then add_instruction c sl OP_POP 1 0 else Done c);
     c ← E c x2 pm (Z.of_nat (length base));
     pop_push (if pop then 1 else 0) STATUS_SPARKED (LABEL end_ (unbranch c0 c))).
Proof.
  intros HJ H1 G1 H2 G2. pose proof (ju_holds _ _ _ _ _ _ _ _ HJ) as Hh.
  destruct (branch_expr pop c0 base s0 sl x1 pm Hh H1 G1) as (b1 & b2 & sb & lb1 & -> & Eb & Elb & Olb & Hsb).
  cbn [mbind outcome_bind]. apply bind_Done_inv in Eb as (b3 & -> & Eb). cbn [mbind outcome_bind].
  rewrite Eb. cbn [mbind outcome_bind]. unfold JUMP.
  destruct (add_jump_ok b2 sl OP_JUMP 0 0 sb sb Hsb) as (b4 & kj & -> & Hkj & E4 & _); [done|].
  cbn [mbind outcome_bind].
  destruct (branch_expr pop (LABEL label (unbranch c0 b4)) base s0 sl x2 pm (holds_label _ _ _ _ _ _ Hh) H2 G2)
    as (d1 & d2 & sd & lb2 & -> & Ed & Eld & Old & Hsd).
  cbn [mbind outcome_bind]. apply bind_Done_inv in Ed as (d3 & -> & Ed). cbn [mbind outcome_bind].
  rewrite Ed. cbn [mbind outcome_bind].
  destruct (join_branches comp c0 label base (if pop then 1 else 0) s0 l j b4 lb1 kj d2 lb2 (code_count b2) HJ)
    as [Haf HH]; try done.
  { by rewrite E4, Elb, <- app_assoc. } { by rewrite Hkj. } { unfold code_count. by rewrite Elb. }
  eapply leaves_after; [exact Haf|].
  replace (if pop then 1 else 0)%Z with (Z.of_nat (if pop then 1 else 0)) by (by destruct pop).
  by eapply pop_push_ok.
Qed.

Lemma E_if_ok comp cond t f pm s :
  (forall x, x = cond \/ x = t \/ x = f \/ (exists num, eq_literal cond = Some (x, num)) ->
    compiles src E STATUS_SPARKED x /\ good src pm (length s) x) ->
  literal_ok src cond -> holds comp s 0 s ->
  leaves comp s STATUS_SPARKED (E_if E cond t f pm (Z.of_nat (length s)) comp).
Proof.
  intros Hsub Hlit H. destruct (Hsub t ltac:(auto)) as [Ht Gt]. destruct (Hsub f ltac:(auto)) as [Hf Gf].
  unfold E_if. destruct (eq_literal cond) as [[x num]|] eqn:Eq.
  - destruct (Hsub x ltac:(eauto)) as [Hx Gx].
    destruct (compiles_at _ _ _ _ comp pm s s Hx Gx H) as (c1 & s1 & l1 & -> & _ & _ & Haf & H1 & _).
    cbn [mbind outcome_bind]. destruct (proj1 Hlit _ _ Eq) as [v ->]. cbn [mbind outcome_bind].
    destruct (JEQ_ok c1 s s1 (node_sl cond) v H1) as (c0 & label & s0 & l & j & -> & HJ). cbn [mbind outcome_bind].
    eapply leaves_after; [exact Haf|]. exact (E_if_branches true c1 c0 label s s0 l j f t pm (node_sl cond) HJ Hf Gf Ht Gt).
  - destruct (Hsub cond ltac:(auto)) as [Hc Gc].
    destruct (compiles_at _ _ _ _ comp pm s s Hc Gc H) as (c1 & s1 & l1 & -> & _ & _ & Haf & H1 & _).
    cbn [mbind outcome_bind].
    destruct (JFALSE_ok c1 s s1 (node_sl cond) H1) as (c0 & label & s0 & l & j & -> & HJ). cbn [mbind outcome_bind].
    eapply leaves_after; [exact Haf|]. exact (E_if_branches false c1 c0 label s s0 l j t f pm (node_sl cond) HJ Ht Gt Hf Gf).
Qed.
End branches.
