(* ===== verification/Applift.v ===== *)
(** * Application lifting (src/nreduce/compiler/lifting.c)

    The bytecode compiler builds frames only for calls of known functions with
    no more arguments than they take. [applift] moves every other call that is
    not the root of a body into a supercombinator of its own, and moves letrecs
    out of function position. *)

From S2P Require Import Prelude Builtins Util Source Resolve Lifting.

#[local] Set Warnings "-clear-no-such-hyp".

(** ** Free variables

    The list has the last variable found in front, as [list_push] leaves it.
    The stack [ignore] has no limit here. *)
Fixpoint find_vars (c : snode) (names : list string) (ignore : list string) : outcome (list string) :=
  match c with
  | SNODE_APPLICATION _ _ l r =>
      names ← find_vars l names ignore;
      find_vars r names ignore
  | SNODE_SYMBOL _ sym =>
      if list_contains_string names sym then Done names
      else if list_contains_string ignore sym then Done names
      else Done (list_push names sym)
  | SNODE_BUILTIN _ _ | SNODE_SCREF _ _ | SNODE_NIL _ | SNODE_NUMBER _ _ | SNODE_STRING _ _ => Done names
  | SNODE_LETREC _ bs b =>
      let ignore := ignore ++ map lr_name bs in
      names ← (fix values (bs : list letrec) (names : list string) : outcome (list string) :=
                 match bs with
                 | [] => Done names
                 | rec :: bs => names ← find_vars (lr_value rec) names ignore; values bs names
                 end) bs names;
      find_vars b names ignore
  | SNODE_LAMBDA _ _ _ => Crash
  end.

(** [lift_expr(src,k,sc)]: a new supercombinator named after [name] with the
    expression as its body and the free variables, in order of discovery, as
    its arguments; the result is the call that replaces the expression. The
    last loop of the C function is that of [make_app]. *)
Definition lift_expr (src : source) (name : string) (k : snode) : outcome (source * nat * snode) :=
  '(src, p) ← add_scomb src name;
  vars ← find_vars k [] [];
  let argnames := rev vars in
  let src := upd src p (fun sc => set_argnames argnames (set_sl (node_sl k) (set_body k sc))) in
  Done (src, p, make_app (SNODE_SCREF (node_sl k) p) argnames).

(** Replaces the function at the bottom of a spine. *)
Fixpoint set_head (h : snode) (c : snode) : snode :=
  match c with
  | SNODE_APPLICATION sl st l r => SNODE_APPLICATION sl st (set_head h l) r
  | _ => h
  end.

(** The condition under which a call of [nargs] arguments is moved. *)
Definition must_lift (src : source) (h : snode) (nargs : nat) : outcome bool :=
  match h with
  | SNODE_SYMBOL _ _ => Done true
  | SNODE_SCREF _ p => sc ← getsc src p; Done (Nat.ltb (sc_nargs sc) nargs)
  | SNODE_BUILTIN _ bif => b ← deref (builtin_info !! bif); Done (Nat.ltb (bi_nargs b) nargs)
  | _ => Done false
  end.

Section applift_step.
Context (rec_ : source -> bool -> string -> snode -> outcome (source * snode)).

(** The loop over the arguments of a spine, from the last to the first. *)
Fixpoint applift_args (src : source) (name : string) (c : snode) : outcome (source * snode) :=
  match c with
  | SNODE_APPLICATION sl st l r =>
      '(src, r) ← rec_ src false name r;
      '(src, l) ← applift_args src name l;
      Done (src, SNODE_APPLICATION sl st l r)
  | _ => Done (src, c)
  end.

Fixpoint applift_values (src : source) (name : string) (bs : list letrec) : outcome (source * list letrec) :=
  match bs with
  | [] => Done (src, [])
  | rec :: bs =>
      '(src, v) ← rec_ src false name (lr_value rec);
      '(src, bs) ← applift_values src name bs;
      Done (src, set_value v rec :: bs)
  end.

(** [applift(src,sc)] on the supercombinator at [p]. *)
Definition applift_with (src : source) (p : nat) : outcome source :=
  sc ← getsc src p;
  body ← deref (sc_body sc);
  '(src, body) ← rec_ src true (sc_name sc) body;
  Done (upd src p (set_body body)).
End applift_step.

(** [applift_r(src,k,sc)], where [isroot] is the test [*k == sc->body] and
    [name] is [sc->name]. An abstraction falls through the [switch]. *)
Fixpoint applift_r (fuel : nat) (src : source) (isroot : bool) (name : string) (k : snode) :
    outcome (source * snode) :=
  match fuel with
  | O => Timeout
  | S fuel =>
      match k with
      | SNODE_APPLICATION sl st l r =>
          match spine_head k with
          | SNODE_LETREC lsl bs b => applift_r fuel src isroot name (SNODE_LETREC lsl bs (set_head b k))
          | h =>
              lift ← must_lift src h (count_args k);
              if lift : bool then
                if isroot then applift_args (applift_r fuel) src name k
                else
                  '(src, p, k) ← lift_expr src name k;
                  src ← applift_with (applift_r fuel) src p;
                  Done (src, k)
              else
                '(src, l) ← applift_r fuel src false name l;
                '(src, r) ← applift_r fuel src false name r;
                Done (src, SNODE_APPLICATION sl st l r)
          end
      | SNODE_LETREC sl bs b =>
          '(src, bs) ← applift_values (applift_r fuel) src name bs;
          '(src, b) ← applift_r fuel src false name b;
          Done (src, SNODE_LETREC sl bs b)
      | SNODE_SYMBOL _ _ | SNODE_BUILTIN _ _ | SNODE_SCREF _ _ | SNODE_NIL _ | SNODE_NUMBER _ _
      | SNODE_STRING _ _ | SNODE_LAMBDA _ _ _ => Done (src, k)
      end
  end.

Definition applift (fuel : nat) (src : source) (p : nat) : outcome source := applift_with (applift_r fuel) src p.

(** The loop of [source_process]. Its bound is read before the loop, so
    supercombinators made on the way are not visited again. *)
Fixpoint applift_all (fuel : nat) (src : source) (ps : list nat) : outcome source :=
  match ps with
  | [] => Done src
  | p :: ps => src ← applift fuel src p; applift_all fuel src ps
  end.
