(* ===== verification/AppliftFacts.v ===== *)
(** * What application lifting establishes

    After [applift] every call below the root of a body is a call of a known
    function with at most as many arguments as it takes, in the supercombinator
    itself and in every one it created. *)

From S2P Require Import Prelude CString Builtins Util Source Resolve Lifting LiftingFacts LiftingCreate Double Bytecode StackDiscipline Applift.

#[local] Set Warnings "-clear-no-such-hyp".

(** ** Shapes *)

(** Trees the pass accepts: no abstraction, and functions that are known. *)
Fixpoint plain (src : source) (c : snode) : Prop :=
  match c with
  | SNODE_APPLICATION _ _ l r => plain src l /\ plain src r
  | SNODE_LAMBDA _ _ _ => False
  | SNODE_BUILTIN _ _ | SNODE_SCREF _ _ => fun_ok src c 0
  | SNODE_LETREC _ bs b => Forall id (map (fun rec => plain src (lr_value rec)) bs) /\ plain src b
  | _ => True
  end.

(** A head that may be applied to [m] arguments. A constant in function
    position is left for the compiler to report. *)
Definition fits (src : source) (h : snode) (m : nat) : Prop :=
  match h with
  | SNODE_NIL _ | SNODE_NUMBER _ _ | SNODE_STRING _ _ => True
  | _ => fun_ok src h m
  end.

(** Trees below the root after the pass: a call has a known function that takes
    at least that many arguments, or a constant, at its head. *)
Fixpoint flat (src : source) (c : snode) : Prop :=
  match c with
  | SNODE_APPLICATION _ _ l r => fits src (spine_head l) (S (count_args l)) /\ flat src l /\ flat src r
  | SNODE_LAMBDA _ _ _ => False
  | SNODE_BUILTIN _ _ | SNODE_SCREF _ _ => fun_ok src c 0
  | SNODE_LETREC _ bs b => Forall id (map (fun rec => flat src (lr_value rec)) bs) /\ flat src b
  | _ => True
  end.

(** Whole bodies after the pass: the root may be a call of a variable or of a
    function with more arguments than it takes. *)
Definition root_head (src : source) (h : snode) : Prop :=
  match h with SNODE_SYMBOL _ _ => True | _ => fun_ok src h 0 end.

Definition flat_body (src : source) (c : snode) : Prop :=
  flat src c \/
  (0 < count_args c /\ root_head src (spine_head c) /\ Forall (flat src) (spine_args c)).

(** Bound names are distinct and are not used outside their scope, as renaming
    leaves them. *)
Definition unique (c : snode) : Prop :=
  NoDup (binders c) /\ forall x, x ∈ binders c -> ~ free_in x c.

(** A supercombinator ready for the passes after this one. *)
Definition prepared (src : source) (q : nat) : Prop :=
  exists sc body, src_heap src !! q = Some sc /\ sc_body sc = Some body /\ flat_body src body /\
    (forall x, free_in x body -> x ∈ sc_argnames sc) /\ NoDup (sc_argnames sc ++ binders body).

(** ** The table grows *)

(** Every function keeps its number of arguments. *)
Definition same_sigs (src src' : source) : Prop :=
  forall q sc, q ∈ src_scombs src -> src_heap src !! q = Some sc ->
    q ∈ src_scombs src' /\ exists sc', src_heap src' !! q = Some sc' /\ sc_nargs sc' = sc_nargs sc.

Lemma fun_ok_sigs src src' h m : same_sigs src src' -> fun_ok src h m -> fun_ok src' h m.
Proof.
  intros Hs. destruct h; cbn; try done. intros (Hp & s & Hh & Hm).
  destruct (Hs _ _ Hp Hh) as (Hp' & sc' & ? & Hn). split; [done|]. exists sc'. split; [done | lia].
Qed.

Lemma fun_ok_le src h m n : n <= m -> fun_ok src h m -> fun_ok src h n.
Proof.
  intros Hle. destruct h; cbn; try done.
  - intros (b & ? & ?). exists b. split; [done | lia].
  - intros (Hp & s & ? & ?). split; [done|]. exists s. split; [done | lia].
Qed.

Lemma fits_sigs src src' h m : same_sigs src src' -> fits src h m -> fits src' h m.
Proof. intros Hs. destruct h; cbn [fits]; try done; by apply fun_ok_sigs. Qed.

Lemma plain_sigs src src' c : same_sigs src src' -> plain src c -> plain src' c.
Proof.
  intros Hs. snode_induction c; cbn; try done; try (by apply (fun_ok_sigs src src' (SNODE_BUILTIN sl bif))).
  - naive_solver.
  - rewrite !Forall_id_map. rewrite Forall_forall in IHbs. naive_solver.
  - by apply (fun_ok_sigs src src' (SNODE_SCREF sl sc)).
Qed.

Lemma flat_sigs src src' c : same_sigs src src' -> flat src c -> flat src' c.
Proof.
  intros Hs. snode_induction c; cbn [flat]; try done.
  - intros (H1 & H2 & H3). split_and!; auto. by eapply fits_sigs.
  - rewrite !Forall_id_map. rewrite Forall_forall in IHbs. naive_solver.
  - by apply fun_ok_sigs.
Qed.

Lemma flat_body_sigs src src' c : same_sigs src src' -> flat_body src c -> flat_body src' c.
Proof.
  intros Hs [H|(H1 & H2 & H3)]; [left; by eapply flat_sigs | right]. split_and!; [done | |].
  - destruct (spine_head c); cbn [root_head] in *; try done; by eapply fun_ok_sigs.
  - eapply Forall_impl; [exact H3|]. intros a. by apply flat_sigs.
Qed.

(** The pass only adds prepared supercombinators. *)
Record lifts (src src' : source) : Prop := {
  li_wf : wf_source src';
  li_old : forall q, q ∈ src_scombs src -> q ∈ src_scombs src';
  li_same : forall q, q ∈ src_scombs src -> src_heap src' !! q = src_heap src !! q;
  li_new : forall q, q ∈ src_scombs src' -> q ∉ src_scombs src -> prepared src' q
}.

Lemma lifts_sigs src src' : lifts src src' -> same_sigs src src'.
Proof. intros [_ Ho Hs _] q sc Hq Hh. split; [by apply Ho|]. exists sc. by rewrite Hs. Qed.

Lemma prepared_sigs src src' q :
  same_sigs src src' -> src_heap src' !! q = src_heap src !! q -> prepared src q -> prepared src' q.
Proof.
  intros Hs He (sc & body & ? & ? & ? & ? & ?). exists sc, body. rewrite He. split_and!; try done.
  by eapply flat_body_sigs.
Qed.

Lemma lifts_refl src : wf_source src -> lifts src src.
Proof. by split. Qed.

Lemma lifts_trans src1 src2 src3 : lifts src1 src2 -> lifts src2 src3 -> lifts src1 src3.
Proof.
  intros H12 H23. split; [apply H23 | intros q Hq; by apply H23, H12 | |].
  - intros q Hq. rewrite (li_same _ _ H23) by (by apply H12). by apply H12.
  - intros q Hq Hn. destruct (decide (q ∈ src_scombs src2)) as [H2|H2]; [|by apply H23].
    eapply prepared_sigs; [by apply lifts_sigs | by apply H23 | by apply H12].
Qed.

(** ** Spines *)

Definition free_args (x : string) (c : snode) : Prop := Exists (free_in x) (spine_args c).

Lemma free_in_spine x c : free_in x c <-> free_in x (spine_head c) \/ free_args x c.
Proof.
  unfold free_args. induction c as [sl st l IHl r _| | | | | | | |]; cbn [spine_head spine_args];
    try (rewrite Exists_nil; tauto).
  cbn [free_in]. rewrite Exists_cons, IHl. tauto.
Qed.

Lemma free_in_set_head x h c : free_in x (set_head h c) <-> free_in x h \/ free_args x c.
Proof.
  unfold free_args. induction c as [sl st l IHl r _| | | | | | | |]; cbn [set_head spine_args];
    try (rewrite Exists_nil; tauto).
  cbn [free_in]. rewrite Exists_cons, IHl. tauto.
Qed.

Lemma spine_head_not_app c sl st l r : spine_head c <> SNODE_APPLICATION sl st l r.
Proof. by induction c. Qed.

(** Moving a letrec out of function position keeps the size, the binders and
    the free variables. *)
Section hoist.
Context (c : snode) (lsl : sourceloc) (bs : list letrec) (b : snode).
Hypothesis Hh : spine_head c = SNODE_LETREC lsl bs b.
#[local] Abbreviation c' := (SNODE_LETREC lsl bs (set_head b c)).

Lemma hoist_binders : binders c' = binders c.
Proof.
  induction c as [sl st l IHl r _| | | |lsl' bs' b' _| | | |]; try done.
  - cbn [spine_head] in Hh. cbn [binders set_head]. rewrite <- IHl by done.
    cbn [binders]. by rewrite <- !app_assoc.
  - cbn in Hh. by injection Hh as -> -> ->.
Qed.

Lemma hoist_size : snode_size c' = snode_size c.
Proof.
  induction c as [sl st l IHl r _| | | |lsl' bs' b' _| | | |]; try done.
  - cbn [spine_head] in Hh. cbn [snode_size set_head]. specialize (IHl Hh). cbn [snode_size] in IHl. lia.
  - cbn in Hh. by injection Hh as -> -> ->.
Qed.

Lemma hoist_free x : unique c -> free_in x c' <-> free_in x c.
Proof.
  intros [_ Hu]. rewrite (free_in_spine x c), Hh, !free_in_letrec, free_in_set_head.
  assert (free_args x c -> x ∉ map lr_name bs).
  { intros Hx Hb. apply (Hu x); [|by apply free_in_spine; right].
    rewrite <- hoist_binders. cbn [binders]. apply elem_of_app. by left. }
  tauto.
Qed.

Lemma hoist_unique : unique c -> unique c'.
Proof. intros Hu. split; [rewrite hoist_binders; apply Hu|]. intros x. rewrite hoist_binders, hoist_free by done. apply Hu. Qed.

Lemma hoist_plain src : plain src c -> plain src c'.
Proof.
  assert (forall h, plain src c -> plain src (spine_head c) /\ (plain src h -> plain src (set_head h c))) as H.
  { clear Hh. intros h. induction c as [sl st l IHl r _| | | | | | | |]; cbn [plain set_head spine_head]; tauto. }
  intros Hp. destruct (H b Hp) as [H1 H2]. rewrite Hh in H1. destruct H1 as [? ?]. by split; auto.
Qed.
End hoist.

(** ** Subtrees of trees with unique names *)

Lemma unique_app sl st l r :
  unique (SNODE_APPLICATION sl st l r) -> unique l /\ unique r.
Proof.
  intros [Hnd Hu]. cbn [binders free_in] in *. apply list.NoDup_app in Hnd as (H1 & _ & H2).
  setoid_rewrite elem_of_app in Hu. split; split; try done; intros x Hx Hf; apply (Hu x); auto.
Qed.

Lemma unique_letrec sl bs b :
  unique (SNODE_LETREC sl bs b) ->
  unique b /\ (forall rec, rec ∈ bs -> unique (lr_value rec)).
Proof.
  intros [Hnd Hu]. cbn [binders] in *.
  apply list.NoDup_app in Hnd as (_ & Hd & Hnd). apply list.NoDup_app in Hnd as (Hv & _ & Hb).
  assert (Hout : forall x, x ∈ concat (map (fun rec => binders (lr_value rec)) bs) ++ binders b ->
    ~ ((exists v, v ∈ map lr_value bs /\ free_in x v) \/ free_in x b)).
  { intros x Hx Hf. apply (Hu x); [apply elem_of_app; by right|]. apply free_in_letrec.
    split; [|done]. intros Hn. by apply (Hd x Hn). }
  split; [split; [done|]|].
  - intros x Hx Hf. apply (Hout x); [apply elem_of_app; by right | by right].
  - intros rec Hr. assert (Hsub : binders (lr_value rec) ∈ map (fun rec => binders (lr_value rec)) bs)
      by (apply elem_of_map; eauto).
    split.
    + clear -Hv Hsub. induction bs as [|r bs IH]; cbn in *; [by apply not_elem_of_nil in Hsub|].
      apply list.NoDup_app in Hv as (H1 & _ & H2). apply elem_of_cons in Hsub as [->|]; auto.
    + intros x Hx Hf. apply (Hout x).
      * apply elem_of_app. left. apply elem_of_concat. eauto.
      * left. exists (lr_value rec). split; [|done]. apply elem_of_map. eauto.
Qed.

(** ** Free variables *)

Definition finds (c : snode) : Prop := forall names ignore, NoDup names ->
  exists names', find_vars c names ignore = Done names' /\ NoDup names' /\
    forall x, x ∈ names' <-> x ∈ names \/ (free_in x c /\ x ∉ ignore).

Lemma find_symbol sl n : finds (SNODE_SYMBOL sl n).
Proof.
  intros names ignore Hnd. cbn [find_vars free_in].
  destruct (list_contains_string names n) eqn:E1.
  { apply list_contains_string_true in E1. exists names. split_and!; [done | done | naive_solver]. }
  apply list_contains_string_false in E1.
  destruct (list_contains_string ignore n) eqn:E2.
  { apply list_contains_string_true in E2. exists names. split_and!; [done | done | naive_solver]. }
  apply list_contains_string_false in E2. exists (n :: names).
  split_and!; [done | by constructor |]. intros x. rewrite elem_of_cons. naive_solver.
Qed.

Lemma find_letrec sl bs b :
  (forall rec, rec ∈ bs -> finds (lr_value rec)) -> finds b -> finds (SNODE_LETREC sl bs b).
Proof.
  intros Hbs Hb names ignore Hnd. cbn [find_vars]. set (ign := ignore ++ map lr_name bs).
  match goal with |- context [(?F bs names) ≫= _] => set (values := F) end.
  assert (forall l, (forall rec, rec ∈ l -> finds (lr_value rec)) -> forall names, NoDup names ->
    exists names', values l names = Done names' /\ NoDup names' /\
      forall x, x ∈ names' <-> x ∈ names \/ ((exists v, v ∈ map lr_value l /\ free_in x v) /\ x ∉ ign)) as Hl.
  { clear names Hnd. induction l as [|rec l IH]; intros Hl names Hnd.
    - exists names. split_and!; [done | done |]. intros x. split; [by left|]. intros [|[(v & Hv & _) _]]; [done|].
      by apply not_elem_of_nil in Hv.
    - destruct (Hl rec (list_elem_of_here _ _) names ign Hnd) as (n1 & E1 & Hn1 & H1).
      destruct (IH (fun r Hr => Hl r (list_elem_of_further _ _ _ Hr)) n1 Hn1) as (n2 & E2 & Hn2 & H2).
      exists n2. cbn [values]. fold values. rewrite E1. split_and!; [done | done |].
      intros x. rewrite H2, H1. cbn [map]. setoid_rewrite elem_of_cons. naive_solver. }
  destruct (Hl bs Hbs names Hnd) as (n1 & -> & Hn1 & H1). cbn [mbind outcome_bind].
  destruct (Hb n1 ign Hn1) as (n2 & -> & Hn2 & H2). exists n2. split_and!; [done | done |].
  intros x. rewrite H2, H1, free_in_letrec. unfold ign. rewrite elem_of_app. tauto.
Qed.

Lemma find_vars_ok src c : plain src c -> finds c.
Proof.
  snode_induction c; cbn [plain]; intros Hp; try done;
    try (intros names ignore Hnd; exists names; split_and!; [done | done | cbn; naive_solver]).
  - destruct Hp as [Hl Hr]. intros names ignore Hnd. cbn [find_vars free_in].
    destruct (IHl Hl names ignore Hnd) as (n1 & -> & Hn1 & H1). cbn [mbind outcome_bind].
    destruct (IHr Hr n1 ignore Hn1) as (n2 & -> & Hn2 & H2). exists n2. split_and!; [done | done |].
    intros x. rewrite H2, H1. tauto.
  - apply find_symbol.
  - destruct Hp as [Hbs Hb]. rewrite Forall_id_map in Hbs. rewrite Forall_forall in IHbs.
    apply find_letrec; auto.
Qed.

(** ** The call that replaces an expression *)

Lemma make_app_snoc k args x : make_app k (args ++ [x]) =
  SNODE_APPLICATION (node_sl (make_app k args)) false (make_app k args) (SNODE_SYMBOL (node_sl (make_app k args)) x).
Proof. unfold make_app. by rewrite fold_left_app. Qed.

Lemma make_app_call sl p args :
  let c := make_app (SNODE_SCREF sl p) args in
  spine_head c = SNODE_SCREF sl p /\ count_args c = length args /\ binders c = [] /\
  (forall x, free_in x c <-> x ∈ args).
Proof.
  cbn zeta. induction args as [|x args IH] using rev_ind.
  { cbn. split_and!; try done. intros x. by rewrite elem_of_nil. }
  rewrite make_app_snoc. cbn [spine_head count_args binders free_in]. destruct IH as (-> & -> & -> & IH).
  split_and!; [done | rewrite length_app; cbn; lia | done |].
  intros y. by rewrite IH, elem_of_app, list_elem_of_singleton.
Qed.

Lemma make_app_flat src sl p args : fun_ok src (SNODE_SCREF sl p) (length args) -> flat src (make_app (SNODE_SCREF sl p) args).
Proof.
  induction args as [|x args IH] using rev_ind; [done|]. rewrite make_app_snoc, length_app. intros Hf. cbn [flat].
  destruct (make_app_call sl p args) as (-> & -> & _). split_and!; [|apply IH|done].
  - eapply fun_ok_le; [|exact Hf]. cbn. lia.
  - eapply fun_ok_le; [|exact Hf]. lia.
Qed.

Lemma must_lift_ok src c :
  plain src c -> (forall lsl bs b, spine_head c <> SNODE_LETREC lsl bs b) -> forall m,
  exists lift, must_lift src (spine_head c) m = Done lift /\
    if lift then root_head src (spine_head c) /\ ~ fits src (spine_head c) m else fits src (spine_head c) m.
Proof.
  intros Hp Hl m. assert (plain src (spine_head c)) as Hh.
  { clear Hl. induction c; cbn in *; tauto. }
  destruct (spine_head c) as [sl st l r|sl n b|sl bif|sl n|sl bs b|sl p|sl|sl num|sl s] eqn:E; cbn [must_lift];
    try (by exists true; split; [done | split; [done | intros []]]); try (by exists false).
  - by apply spine_head_not_app in E.
  - destruct Hh as (b & Hb & _). rewrite Hb. eexists. split; [done|].
    destruct (Nat.ltb_spec (bi_nargs b) m) as [|Hle]; cbn.
    + split; [exists b; split; [done | lia]|]. intros (b' & ? & ?). simplify_eq. lia.
    + by exists b.
  - by edestruct Hl.
  - destruct Hh as (Hq & sc & Hsc & _). unfold getsc. rewrite Hsc. eexists. split; [done|].
    destruct (Nat.ltb_spec (sc_nargs sc) m) as [|Hle]; cbn.
    + split; [split; [done|]; exists sc; split; [done | lia]|]. intros (_ & sc' & ? & ?). simplify_eq. lia.
    + split; [done|]. by exists sc.
Qed.

(** ** The traversal *)

(** Names do not escape and stay distinct. *)
Definition kept (k k' : snode) : Prop :=
  (forall x, free_in x k' -> free_in x k) /\ NoDup (binders k') /\ (forall x, x ∈ binders k' -> x ∈ binders k).

Definition lifted_to (src : source) (isroot : bool) (k : snode) (r : outcome (source * snode)) : Prop :=
  exists src' k', r = Done (src', k') /\ lifts src src' /\ kept k k' /\
    if isroot then flat_body src' k'
    else flat src' k' /\ (fits src (spine_head k) (count_args k) ->
      spine_head k' = spine_head k /\ count_args k' = count_args k).

Lemma kept_refl k : unique k -> kept k k.
Proof. intros [? ?]. by split_and!. Qed.

Lemma kept_unique k k' : unique k -> kept k k' -> unique k'.
Proof. intros [_ Hu] (Hf & Hnd & Hb). split; [done|]. intros x Hx Hf'. by apply (Hu x); auto. Qed.

Lemma NoDup_app_sub {A} (a b a' b' : list A) :
  NoDup (a ++ b) -> NoDup a' -> NoDup b' -> (forall x, x ∈ a' -> x ∈ a) -> (forall x, x ∈ b' -> x ∈ b) ->
  NoDup (a' ++ b').
Proof.
  intros Hnd Ha Hb Hsa Hsb. apply list.NoDup_app in Hnd as (_ & Hd & _).
  apply list.NoDup_app. split_and!; [done | | done]. intros x Hx Hx'. by apply (Hd x); auto.
Qed.

Lemma kept_app sl st sl' st' l r l' r' :
  unique (SNODE_APPLICATION sl st l r) -> kept l l' -> kept r r' ->
  kept (SNODE_APPLICATION sl st l r) (SNODE_APPLICATION sl' st' l' r').
Proof.
  intros [Hnd _] (Hf1 & Hn1 & Hb1) (Hf2 & Hn2 & Hb2). split_and!; cbn [free_in binders] in *.
  - naive_solver.
  - by eapply NoDup_app_sub.
  - intros x. rewrite !elem_of_app. naive_solver.
Qed.

Definition kept_binding (rec rec' : letrec) : Prop :=
  lr_name rec' = lr_name rec /\ kept (lr_value rec) (lr_value rec').

Lemma kept_values_binders bs bs' :
  Forall2 kept_binding bs bs' -> NoDup (concat (map (fun rec => binders (lr_value rec)) bs)) ->
  NoDup (concat (map (fun rec => binders (lr_value rec)) bs')) /\
  forall x, x ∈ concat (map (fun rec => binders (lr_value rec)) bs') ->
    x ∈ concat (map (fun rec => binders (lr_value rec)) bs).
Proof.
  induction 1 as [|rec rec' bs bs' (_ & _ & Hn & Hb) HF IH]; cbn; [done|].
  intros Hnd. apply list.NoDup_app in Hnd as Hnd'. destruct Hnd' as (_ & _ & Hnd').
  destruct (IH Hnd') as [H1 H2]. split; [by eapply NoDup_app_sub|].
  intros x. rewrite !elem_of_app. naive_solver.
Qed.

Lemma kept_letrec sl sl' bs b bs' b' :
  unique (SNODE_LETREC sl bs b) -> Forall2 kept_binding bs bs' -> kept b b' ->
  kept (SNODE_LETREC sl bs b) (SNODE_LETREC sl' bs' b').
Proof.
  intros [Hnd _] HF (Hf & Hn & Hb). cbn [binders] in Hnd.
  apply list.NoDup_app in Hnd as Hnd'. destruct Hnd' as (Hn0 & _ & Hnd').
  apply list.NoDup_app in Hnd' as Hnd2. destruct Hnd2 as (Hv & _ & _).
  destruct (kept_values_binders _ _ HF Hv) as [H1 H2].
  assert (map lr_name bs' = map lr_name bs) as En.
  { clear -HF. induction HF as [|? ? ? ? [? _] ? IH]; cbn; [done | by f_equal]. }
  assert (forall x, x ∈ concat (map (fun rec => binders (lr_value rec)) bs') ++ binders b' ->
    x ∈ concat (map (fun rec => binders (lr_value rec)) bs) ++ binders b) as Hsub.
  { intros x. rewrite !elem_of_app. naive_solver. }
  split_and!.
  - intros x. rewrite !free_in_letrec, En. intros [Hx [(v & Hv' & Hfx)|Hfx]]; (split; [done|]); [left|by right; auto].
    clear -HF Hv' Hfx. induction HF as [|r r' bs bs' (_ & Hk & _) HF IH]; cbn [map] in *; [by apply not_elem_of_nil in Hv'|].
    apply elem_of_cons in Hv' as [->|Hv']; [exists (lr_value r); split; [left | auto]|].
    destruct (IH Hv') as (v0 & ? & ?). exists v0. split; [by right | done].
  - cbn [binders]. rewrite En. eapply NoDup_app_sub; [exact Hnd | done | by eapply NoDup_app_sub | done | done].
  - intros x. cbn [binders]. rewrite En, !(elem_of_app (map lr_name bs)). naive_solver.
Qed.

Section step.
Context (f : nat).
Hypothesis IH : forall src isroot name k, wf_source src -> plain src k -> unique k -> 2 * snode_size k <= f ->
  lifted_to src isroot k (applift_r f src isroot name k).

Definition may_lift (src : source) (k : snode) : Prop := plain src k /\ unique k /\ 2 * snode_size k <= f.

Lemma may_lift_sigs src src' k : same_sigs src src' -> may_lift src k -> may_lift src' k.
Proof. intros Hs (? & ? & ?). split_and!; [by eapply plain_sigs | done | done]. Qed.

Lemma applift_values_ok name bs : forall src, wf_source src -> (forall rec, rec ∈ bs -> may_lift src (lr_value rec)) ->
  exists src' bs', applift_values (applift_r f) src name bs = Done (src', bs') /\ lifts src src' /\
    Forall2 kept_binding bs bs' /\ (forall rec, rec ∈ bs' -> flat src' (lr_value rec)).
Proof.
  induction bs as [|rec bs IHbs]; intros src Hwf Hok.
  { exists src, []. split_and!; [done | by apply lifts_refl | constructor | in_nil]. }
  destruct (Hok rec (list_elem_of_here _ _)) as (Hp & Hu & Hs). cbn [applift_values].
  destruct (IH src false name _ Hwf Hp Hu Hs) as (src1 & v & -> & Hl1 & Hk1 & Hf1 & _). cbn [mbind outcome_bind].
  destruct (IHbs src1 (li_wf _ _ Hl1)) as (src2 & bs' & -> & Hl2 & HF & Hf2).
  { intros r Hr. eapply may_lift_sigs; [by apply lifts_sigs | apply Hok; by right]. }
  exists src2, (set_value v rec :: bs'). split_and!; [done | by eapply lifts_trans | by constructor |].
  intros r Hr. apply elem_of_cons in Hr as [->|Hr]; [|by apply Hf2].
  eapply flat_sigs; [by apply lifts_sigs | done].
Qed.

Lemma letrec_step src isroot name sl bs b :
  wf_source src -> plain src (SNODE_LETREC sl bs b) -> unique (SNODE_LETREC sl bs b) ->
  2 * snode_size (SNODE_LETREC sl bs b) <= S (S f) ->
  lifted_to src isroot (SNODE_LETREC sl bs b) (applift_r (S f) src isroot name (SNODE_LETREC sl bs b)).
Proof.
  intros Hwf Hp Hu Hsz. destruct (unique_letrec _ _ _ Hu) as [Hub Hubs].
  destruct Hp as [Hpbs Hpb]. rewrite Forall_id_map in Hpbs. cbn [applift_r].
  destruct (applift_values_ok name bs src Hwf) as (src1 & bs' & -> & Hl1 & HF & Hf1).
  { intros rec Hr. pose proof (letrec_value_size sl bs b rec Hr). split_and!; [auto | auto | lia]. }
  cbn [mbind outcome_bind].
  destruct (IH src1 false name b (li_wf _ _ Hl1)) as (src2 & b' & -> & Hl2 & Hk2 & Hf2 & _).
  { eapply plain_sigs; [by apply lifts_sigs | done]. }
  { done. }
  { cbn [snode_size] in Hsz. lia. }
  assert (flat src2 (SNODE_LETREC sl bs' b')) as Hflat.
  { cbn [flat]. rewrite Forall_id_map. split; [|done]. intros r Hr.
    eapply flat_sigs; [by apply lifts_sigs | by apply Hf1]. }
  eexists _, _. split; [reflexivity|]. split_and!; [by eapply lifts_trans | by apply kept_letrec |].
  destruct isroot; [by left|]. split; [done | by intros []].
Qed.

Lemma applift_args_ok name c : forall src, wf_source src -> plain src c -> unique c ->
  Forall (fun a => 2 * snode_size a <= f) (spine_args c) ->
  exists src' c', applift_args (applift_r f) src name c = Done (src', c') /\ lifts src src' /\ kept c c' /\
    spine_head c' = spine_head c /\ count_args c' = count_args c /\ Forall (flat src') (spine_args c').
Proof.
  induction c as [sl st l IHl r _| | | | | | | |]; intros src Hwf Hp Hu Hsz;
    try (eexists _, _; split; [reflexivity|]; split_and!; first [done | by apply lifts_refl | by apply kept_refl | by constructor]).
  destruct (unique_app _ _ _ _ Hu) as [Hul Hur]. destruct Hp as [Hpl Hpr]. cbn [spine_args] in Hsz.
  apply Forall_cons in Hsz as [Hsr Hsl]. cbn [applift_args].
  destruct (IH src false name r Hwf Hpr Hur Hsr) as (src1 & r' & -> & Hl1 & Hk1 & Hf1 & _). cbn [mbind outcome_bind].
  destruct (IHl src1 (li_wf _ _ Hl1)) as (src2 & l' & -> & Hl2 & Hk2 & Hh & Hn & Hf2); [|done|done|].
  { eapply plain_sigs; [by apply lifts_sigs | done]. }
  eexists _, _. split; [reflexivity|]. cbn [spine_head count_args spine_args].
  split_and!; [by eapply lifts_trans | by apply kept_app | done | by f_equal |].
  apply Forall_cons. split; [|done]. eapply flat_sigs; [by apply lifts_sigs | done].
Qed.

Definition letrec_head (c : snode) : Prop := exists lsl bs b, spine_head c = SNODE_LETREC lsl bs b.

Lemma letrec_head_dec c : {letrec_head c} + {~ letrec_head c}.
Proof.
  unfold letrec_head. destruct (spine_head c); try (right; intros (? & ? & ? & ?); congruence). left. eauto.
Defined.

Lemma applift_r_app g src isroot name sl st l r :
  let k := SNODE_APPLICATION sl st l r in
  ~ letrec_head k ->
  applift_r (S g) src isroot name k =
    (lift ← must_lift src (spine_head k) (count_args k);
     if lift : bool then
       if isroot then applift_args (applift_r g) src name k
       else '(src, p, k) ← lift_expr src name k; src ← applift_with (applift_r g) src p; Done (src, k)
     else
       '(src, l) ← applift_r g src false name l;
       '(src, r) ← applift_r g src false name r;
       Done (src, SNODE_APPLICATION sl st l r)).
Proof.
  intros k Hn. subst k. cbn [applift_r]. destruct (spine_head (SNODE_APPLICATION sl st l r)) eqn:E; try done.
  destruct Hn. by eexists _, _, _.
Qed.

Lemma spine_args_size c : Forall (fun a => snode_size a < snode_size c) (spine_args c).
Proof.
  induction c as [sl st l IHl r _| | | | | | | |]; cbn; try constructor; [lia|].
  eapply Forall_impl; [exact IHl|]. cbn. lia.
Qed.

Lemma root_step src name sl st l r :
  let k := SNODE_APPLICATION sl st l r in
  wf_source src -> plain src k -> unique k -> 2 * snode_size k <= S (S f) -> ~ letrec_head k ->
  must_lift src (spine_head k) (count_args k) = Done true -> root_head src (spine_head k) ->
  lifted_to src true k (applift_r (S f) src true name k).
Proof.
  intros k Hwf Hp Hu Hsz Hn Hm Hr. unfold k. rewrite applift_r_app by done. fold k. rewrite Hm. cbn [mbind outcome_bind].
  destruct (applift_args_ok name k src Hwf Hp Hu) as (src' & k' & -> & Hl & Hk & Hh & Hc & Hf).
  { eapply Forall_impl; [apply spine_args_size|]. cbn beta. lia. }
  exists src', k'. split_and!; [done | done | done |]. right. rewrite Hh, Hc. split_and!; [cbn; lia | | done].
  destruct (spine_head k); cbn [root_head] in *; try done; by eapply fun_ok_sigs; [apply lifts_sigs|].
Qed.

(** After [lift_expr] the new entry waits for [applift]. *)
Lemma lift_expr_ok src name k :
  wf_source src -> plain src k ->
  exists src1 p sc, lift_expr src name k = Done (src1, p, make_app (SNODE_SCREF (node_sl k) p) (sc_argnames sc)) /\
    wf_source src1 /\ src_scombs src1 = src_scombs src ++ [p] /\ (p ∉ src_scombs src) /\
    (forall q, q ∈ src_scombs src -> src_heap src1 !! q = src_heap src !! q) /\
    src_heap src1 !! p = Some sc /\ sc_body sc = Some k /\ NoDup (sc_argnames sc) /\
    (forall x, x ∈ sc_argnames sc <-> free_in x k).
Proof.
  intros Hwf Hp. destruct (find_vars_ok src k Hp [] [] ltac:(constructor)) as (vars & Ev & Hnd & Hv).
  set (upf := fun sc => set_argnames (rev vars) (set_sl (node_sl k) (set_body k sc))).
  destruct (new_entry src name upf Hwf) as (src0 & p & nm & E & Hwf1 & Hsc & Hp1 & Hold & Hnew); [done|].
  exists (upd src0 p upf), p, (upf (new_scomb nm (length (src_scombs src)))).
  unfold lift_expr. rewrite E. cbn [mbind outcome_bind]. rewrite Ev.
  split_and!; try done; [by apply NoDup_rev_iff|].
  intros x. cbn. rewrite elem_of_rev, Hv. setoid_rewrite elem_of_nil. tauto.
Qed.

(** Storing the finished body of the entry. *)
Lemma store_body src1 src2 p sc k' :
  lifts src1 src2 -> p ∈ src_scombs src1 -> src_heap src1 !! p = Some sc ->
  same_sigs src2 (upd src2 p (set_body k')) /\ src_heap (upd src2 p (set_body k')) !! p = Some (set_body k' sc).
Proof.
  intros Hl Hp Hsc. assert (src_heap src2 !! p = Some sc) as Hp2 by (by rewrite (li_same _ _ Hl)).
  assert (src_heap (upd src2 p (set_body k')) !! p = Some (set_body k' sc)) as Hp3.
  { cbn. by rewrite list_lookup_alter_eq, Hp2. }
  split; [|done]. intros q s Hq Hs. split; [done|]. destruct (decide (q = p)) as [->|Hne].
  - exists (set_body k' sc). split; [done|]. by simplify_eq.
  - exists s. split; [|done]. by rewrite upd_same.
Qed.

Lemma store_lifts src src1 src2 p sc k' :
  src_scombs src1 = src_scombs src ++ [p] -> (p ∉ src_scombs src) ->
  (forall q, q ∈ src_scombs src -> src_heap src1 !! q = src_heap src !! q) ->
  src_heap src1 !! p = Some sc -> lifts src1 src2 -> prepared (upd src2 p (set_body k')) p ->
  lifts src (upd src2 p (set_body k')).
Proof.
  intros Hs1 Hpn Ho1 Hsc Hl2 Hpr.
  assert (forall q, q ∈ src_scombs src1 <-> q ∈ src_scombs src \/ q = p) as Hin.
  { intros q. by rewrite Hs1, elem_of_app, list_elem_of_singleton. }
  destruct (store_body _ _ p sc k' Hl2) as [Hsig _]; [apply Hin; by right | done |].
  split.
  - apply upd_wf; [done | apply Hl2].
  - intros q Hq. apply (li_old _ _ Hl2), Hin. by left.
  - intros q Hq. rewrite upd_same by congruence. rewrite (li_same _ _ Hl2); [by apply Ho1|]. apply Hin. by left.
  - intros q Hq Hqn. destruct (decide (q = p)) as [->|Hne]; [done|].
    eapply prepared_sigs; [done | by rewrite upd_same |]. apply Hl2; [done|]. rewrite Hin. naive_solver.
Qed.

Lemma lift_step src name sl st l r :
  let k := SNODE_APPLICATION sl st l r in
  wf_source src -> plain src k -> unique k -> 2 * snode_size k <= S (S f) -> ~ letrec_head k ->
  must_lift src (spine_head k) (count_args k) = Done true -> root_head src (spine_head k) ->
  ~ fits src (spine_head k) (count_args k) ->
  lifted_to src false k
    ('(src, p, k) ← lift_expr src name k; src ← applift_with (applift_r (S f)) src p; Done (src, k)).
Proof.
  intros k Hwf Hp Hu Hsz Hn Hm Hr Hnf.
  destruct (lift_expr_ok src name k Hwf Hp) as (src1 & p & sc & -> & Hwf1 & Hs1 & Hpn & Ho1 & Hsc & Hb & Hnd & Hfv).
  cbn [mbind outcome_bind]. unfold applift_with, getsc. rewrite Hsc. cbn [deref mbind outcome_bind]. rewrite Hb.
  cbn [deref mbind outcome_bind].
  assert (same_sigs src src1) as Hsig.
  { intros q s Hq Hs. rewrite Hs1, elem_of_app. split; [by left|]. exists s. by rewrite Ho1. }
  destruct (root_step src1 (sc_name sc) sl st l r Hwf1 (plain_sigs _ _ _ Hsig Hp) Hu Hsz Hn) as
    (src2 & k' & Er & Hl2 & Hk2 & Hf2).
  { fold k. destruct (spine_head k) eqn:Eh; cbn [must_lift] in *; try done.
    destruct Hr as (Hq & _). unfold getsc in *. by rewrite Ho1. }
  { fold k. destruct (spine_head k); cbn [root_head] in *; try done; by eapply fun_ok_sigs. }
  fold k in Er, Hk2. rewrite Er. cbn [mbind outcome_bind].
  assert (Hp1 : p ∈ src_scombs src1) by (rewrite Hs1, elem_of_app, list_elem_of_singleton; by right).
  destruct (store_body _ _ p sc k' Hl2 Hp1 Hsc) as [Hsig3 Hp3].
  destruct (make_app_call (node_sl k) p (sc_argnames sc)) as (_ & _ & Hbn & Hfr).
  eexists _, _. split; [done|]. split_and!.
  - eapply store_lifts; [done | done | done | done | done |].
    exists (set_body k' sc), k'. split_and!; [done | done | by eapply flat_body_sigs | |].
    + intros x Hx. apply Hfv. by apply Hk2.
    + apply list.NoDup_app. split_and!; [done | | apply Hk2].
      intros x Hx Hx'. apply Hfv in Hx. apply Hk2 in Hx'. by apply (proj2 Hu x).
  - split_and!; [intros x Hx; by apply Hfv, Hfr | rewrite Hbn; constructor | rewrite Hbn; in_nil].
  - apply make_app_flat. split; [by apply Hl2|]. by exists (set_body k' sc).
  - by intros Hf.
Qed.

(** A call that stays. *)
Lemma stay_step src name sl st l r :
  let k := SNODE_APPLICATION sl st l r in
  wf_source src -> plain src k -> unique k -> 2 * snode_size k <= S (S f) ->
  fits src (spine_head k) (count_args k) ->
  lifted_to src false k
    ('(src, l) ← applift_r f src false name l;
     '(src, r) ← applift_r f src false name r;
     Done (src, SNODE_APPLICATION sl st l r)).
Proof.
  intros k Hwf [Hpl Hpr] Hu Hsz Hfit. destruct (unique_app _ _ _ _ Hu) as [Hul Hur]. cbn [k snode_size] in Hsz.
  destruct (IH src false name l Hwf Hpl Hul) as (src1 & l' & -> & Hl1 & Hk1 & Hf1 & Hh1); [lia|]. cbn [mbind outcome_bind].
  destruct (IH src1 false name r (li_wf _ _ Hl1)) as (src2 & r' & -> & Hl2 & Hk2 & Hf2 & _);
    [eapply plain_sigs; [by apply lifts_sigs | done] | done | lia |].
  cbn [k spine_head count_args] in Hfit. destruct Hh1 as [Hh Hc].
  { destruct (spine_head l); cbn [fits] in *; try done; (eapply fun_ok_le; [|exact Hfit]); lia. }
  eexists _, _. split; [reflexivity|]. split_and!; [by eapply lifts_trans | by apply kept_app | |].
  - cbn [flat]. rewrite Hh, Hc. split_and!; [|eapply flat_sigs; [by apply lifts_sigs | done] | done].
    eapply fits_sigs; [|exact Hfit]. apply lifts_sigs. by eapply lifts_trans.
  - intros _. cbn [spine_head count_args]. by rewrite Hh, Hc.
Qed.
End step.

(** What the traversal promises, with two units of fuel per node. *)
Definition applifts (fuel : nat) : Prop := forall src isroot name k,
  wf_source src -> plain src k -> unique k -> 2 * snode_size k <= fuel ->
  lifted_to src isroot k (applift_r fuel src isroot name k).

Lemma hoist_step f src isroot name sl st l r lsl bs b :
  let k := SNODE_APPLICATION sl st l r in
  applifts f -> wf_source src -> plain src k -> unique k -> 2 * snode_size k <= S (S f) ->
  spine_head k = SNODE_LETREC lsl bs b ->
  lifted_to src isroot k (applift_r (S (S f)) src isroot name k).
Proof.
  intros k IH Hwf Hp Hu Hsz Eh.
  assert (applift_r (S (S f)) src isroot name k = applift_r (S f) src isroot name (SNODE_LETREC lsl bs (set_head b k))) as ->.
  { unfold k in *. cbn [applift_r]. by rewrite Eh. }
  destruct (letrec_step f IH src isroot name lsl bs (set_head b k))
    as (src' & k' & -> & Hl & Hk & Hf); [done | by apply hoist_plain | by apply hoist_unique | by rewrite hoist_size |].
  exists src', k'. destruct Hk as (H1 & H2 & H3). split; [done|]. split_and!; [done | split_and!; [|done|] |].
  - intros x Hx. rewrite <- (hoist_free _ _ _ _ Eh) by done. auto.
  - intros x Hx. rewrite <- (hoist_binders _ _ _ _ Eh). auto.
  - destruct isroot; [done|]. split; [apply Hf|]. rewrite Eh. intros [].
Qed.

Lemma application_step f src isroot name sl st l r :
  let k := SNODE_APPLICATION sl st l r in
  applifts f -> applifts (S f) -> wf_source src -> plain src k -> unique k -> 2 * snode_size k <= S (S f) ->
  ~ letrec_head k -> lifted_to src isroot k (applift_r (S (S f)) src isroot name k).
Proof.
  intros k IH IH' Hwf Hp Hu Hsz Hn.
  destruct (must_lift_ok src k Hp) with (m := count_args k) as (lift & El & Hlift).
  { intros ? ? ? ?. apply Hn. by eexists _, _, _. }
  unfold k. rewrite applift_r_app by done. fold k. rewrite El. cbn [mbind outcome_bind]. destruct lift.
  - destruct Hlift as [Hr Hnf]. destruct isroot; [|by apply (lift_step f IH)].
    pose proof (root_step (S f) IH' src name sl st l r Hwf Hp Hu) as Hroot.
    rewrite applift_r_app in Hroot by done. fold k in Hroot. rewrite El in Hroot. by apply Hroot; [apply le_S|..].
  - pose proof (stay_step (S f) IH' src name sl st l r Hwf Hp Hu (le_S _ _ Hsz) Hlift) as (src' & k' & -> & Hl & Hk & Hf & Hh).
    exists src', k'. split_and!; [done | done | done |]. destruct isroot; [by left | done].
Qed.

Lemma applift_r_ok fuel : applifts fuel.
Proof.
  induction fuel as [fuel IH] using lt_wf_ind. intros src isroot name k Hwf Hp Hu Hsz.
  destruct fuel as [|[|f]]; [pose proof (snode_size_pos k); lia.. |].
  destruct k as [sl st l r|sl n b|sl bif|sl n|sl bs b|sl p|sl|sl num|sl s]; try done;
    try (eexists _, _; split; [reflexivity|]; split_and!;
         [by apply lifts_refl | by apply kept_refl | by destruct isroot; [left | split]]).
  - destruct (letrec_head_dec (SNODE_APPLICATION sl st l r)) as [(lsl & bs & b & Eh)|Hn].
    + eapply hoist_step; try done. apply IH. lia.
    + apply application_step; try done; apply IH; lia.
  - apply (letrec_step (S f) (IH (S f) ltac:(lia))); try done. lia.
Qed.

(** ** A supercombinator and a program *)

(** A supercombinator as the passes before leave it. *)
Definition liftable (fuel : nat) (src : source) (p : nat) : Prop :=
  exists sc body, src_heap src !! p = Some sc /\ sc_body sc = Some body /\ plain src body /\
    (forall x, free_in x body -> x ∈ sc_argnames sc) /\ NoDup (sc_argnames sc ++ binders body) /\
    2 * snode_size body <= fuel.

Lemma liftable_sigs fuel src src' p :
  same_sigs src src' -> src_heap src' !! p = src_heap src !! p -> liftable fuel src p -> liftable fuel src' p.
Proof.
  intros Hs He (sc & body & ? & ? & ? & ? & ? & ?). exists sc, body. rewrite He. split_and!; try done.
  by eapply plain_sigs.
Qed.

(** From [src] to [src'] the entry [p] has been finished and only prepared
    entries have been added. *)
Record lifts_at (p : nat) (src src' : source) : Prop := {
  la_wf : wf_source src';
  la_old : forall q, q ∈ src_scombs src -> q ∈ src_scombs src';
  la_same : forall q, q ∈ src_scombs src -> q <> p -> src_heap src' !! q = src_heap src !! q;
  la_sigs : same_sigs src src';
  la_done : prepared src' p;
  la_new : forall q, q ∈ src_scombs src' -> q ∉ src_scombs src -> prepared src' q
}.

Lemma applift_ok fuel src p :
  wf_source src -> p ∈ src_scombs src -> liftable fuel src p ->
  exists src', applift fuel src p = Done src' /\ lifts_at p src src'.
Proof.
  intros Hwf Hp (sc & body & Hsc & Hb & Hpl & Hcl & Hnd & Hsz). apply list.NoDup_app in Hnd as (Hna & Hd & Hnb).
  assert (unique body) as Hu. { split; [done|]. intros x Hx Hf. by apply (Hd x); auto. }
  unfold applift, applift_with, getsc. rewrite Hsc. cbn [deref mbind outcome_bind]. rewrite Hb. cbn [deref mbind outcome_bind].
  destruct (applift_r_ok fuel src true (sc_name sc) body Hwf Hpl Hu Hsz) as (src1 & b' & -> & Hl & (Hf & Hn' & Hb') & Hfl).
  cbn [mbind outcome_bind]. destruct (store_body _ _ p sc b' Hl Hp Hsc) as [Hsig Hp3].
  eexists. split; [reflexivity|]. split.
  - apply upd_wf; [done | apply Hl].
  - apply Hl.
  - intros q Hq Hne. rewrite upd_same by done. by apply Hl.
  - intros q s Hq Hs. destruct (lifts_sigs _ _ Hl q s Hq Hs) as (Hq' & s' & Hs' & Hn1).
    destruct (Hsig q s' Hq' Hs') as (? & s2 & ? & ?). split; [done|]. exists s2. split; [done | congruence].
  - exists (set_body b' sc), b'. split_and!; [done | done | by eapply flat_body_sigs | |].
    + intros x Hx. by apply Hcl, Hf.
    + apply list.NoDup_app. split_and!; [done | | done]. intros x Hx Hx'. by apply (Hd x); auto.
  - intros q Hq Hqn. eapply prepared_sigs; [done | | by apply Hl]. rewrite upd_same; [done|]. congruence.
Qed.

Lemma applift_all_ok fuel ps : forall src, wf_source src -> NoDup ps ->
  (forall p, p ∈ ps -> p ∈ src_scombs src /\ liftable fuel src p) ->
  (forall q, q ∈ src_scombs src -> q ∉ ps -> prepared src q) ->
  exists src', applift_all fuel src ps = Done src' /\ wf_source src' /\ same_sigs src src' /\
    forall q, q ∈ src_scombs src' -> prepared src' q.
Proof.
  induction ps as [|p ps IH]; intros src Hwf Hnd Hps Hdone.
  { exists src. split_and!; [done | done | by intros q s Hq Hs; split; [done | exists s] |].
    intros q Hq. apply Hdone; [done | apply not_elem_of_nil]. }
  apply NoDup_cons in Hnd as [Hp Hnd]. destruct (Hps p (list_elem_of_here _ _)) as [Hlive Hlift].
  destruct (applift_ok fuel src p Hwf Hlive Hlift) as (src1 & E & [H1 H2 H3 H4 H5 H6]).
  cbn [applift_all]. rewrite E. cbn [mbind outcome_bind].
  destruct (IH src1 H1 Hnd) as (src2 & -> & Hwf2 & Hs2 & Hall).
  - intros q Hq. destruct (Hps q (list_elem_of_further _ _ _ Hq)) as [Hql Hqi]. split; [by apply H2|].
    eapply liftable_sigs; [done | | done]. apply H3; [done|]. by intros ->.
  - intros q Hq Hqn. destruct (decide (q = p)) as [->|Hne]; [done|].
    destruct (decide (q ∈ src_scombs src)) as [Ho|Ho]; [|by apply H6].
    eapply prepared_sigs; [done | by apply H3 |]. apply Hdone; [done|]. rewrite elem_of_cons. naive_solver.
  - exists src2. split_and!; [done | done | | done]. intros q s Hq Hs.
    destruct (H4 q s Hq Hs) as (Hq1 & s1 & Hs1 & E1). destruct (Hs2 q s1 Hq1 Hs1) as (? & s2 & ? & ?).
    split; [done|]. exists s2. split; [done | congruence].
Qed.

(** Application lifting of a supercombinator whose body is free of
    abstractions, closed and uniquely named returns. Below the root of the new
    body every call is a call of a known function with at most as many
    arguments as it takes; the same holds of every supercombinator the pass
    created; names stay unique and bodies closed over the argument names;
    and no other supercombinator is touched. *)
Theorem applift_spec fuel src p :
  wf_source src -> p ∈ src_scombs src -> liftable fuel src p ->
  exists src', applift fuel src p = Done src' /\ wf_source src' /\ prepared src' p /\
    (forall q, q ∈ src_scombs src -> q ∈ src_scombs src' /\ (q <> p -> src_heap src' !! q = src_heap src !! q)) /\
    (forall q, q ∈ src_scombs src' -> q ∉ src_scombs src -> prepared src' q).
Proof.
  intros Hwf Hp Hl. destruct (applift_ok fuel src p Hwf Hp Hl) as (src' & E & [H1 H2 H3 H4 H5 H6]).
  exists src'. split_and!; auto.
Qed.

(** [f g x = (g x) + (letrec y = x in g) x]: two calls of a variable below the
    root, one of them with a letrec in function position. *)
Definition sample_call (g : snode) : snode := SNODE_APPLICATION nosl false g (SNODE_SYMBOL nosl "x").
Definition sample_calls : snode :=
  SNODE_APPLICATION nosl false
    (SNODE_APPLICATION nosl false (SNODE_BUILTIN nosl B_ADD) (sample_call (SNODE_SYMBOL nosl "g")))
    (sample_call (SNODE_LETREC nosl [Letrec "y" (SNODE_SYMBOL nosl "x") false] (SNODE_SYMBOL nosl "g"))).
Definition sample_caller : scomb :=
  set_argnames ["g"; "x"] (set_body sample_calls (new_scomb "f" 0)).

Lemma sample_liftable : liftable 40 (source_of [sample_caller]) 0.
Proof.
  exists sample_caller, sample_calls. split_and!; try reflexivity.
  - cbn. split_and!; try done. { eexists. split; [reflexivity | lia]. } by constructor.
  - intros x. cbn [sample_calls sample_call free_in map lr_value lr_name]. rewrite Exists_cons, Exists_nil.
    cbn. rewrite !elem_of_cons. tauto.
  - by apply (bool_decide_unpack (NoDup ["g"; "x"; "y"])).
  - cbn. lia.
Qed.

Lemma applift_spec_witness :
  exists src', applift 40 (source_of [sample_caller]) 0 = Done src' /\ wf_source src' /\ prepared src' 0 /\
    (forall q, q ∈ src_scombs (source_of [sample_caller]) -> q ∈ src_scombs src' /\
      (q <> 0 -> src_heap src' !! q = src_heap (source_of [sample_caller]) !! q)) /\
    (forall q, q ∈ src_scombs src' -> q ∉ src_scombs (source_of [sample_caller]) -> prepared src' q).
Proof.
  apply (applift_spec 40 (source_of [sample_caller]) 0).
  - apply source_of_wf, NoDup_singleton.
  - by left.
  - apply sample_liftable.
Defined.

(** C17. The loop over the program: when it ends every supercombinator, old or
    new, is in the form the later passes need: below a root the head of a call
    is a function with at least as many arguments as it is given, or a constant
    ([nil], a number or a string), which is left for the compiler to report. *)
Theorem applift_program fuel src :
  wf_source src -> (forall p, p ∈ src_scombs src -> liftable fuel src p) ->
  exists src', applift_all fuel src (src_scombs src) = Done src' /\ wf_source src' /\
    (forall q, q ∈ src_scombs src -> q ∈ src_scombs src') /\ forall q, q ∈ src_scombs src' -> prepared src' q.
Proof.
  intros Hwf Hl. destruct (applift_all_ok fuel (src_scombs src) src Hwf) as (src' & E & Hwf' & Hs & Hall).
  - apply (wf_nodup _ Hwf).
  - auto.
  - done.
  - exists src'. split_and!; try done. intros q Hq. destruct (wf_valid _ Hwf q Hq) as [s Hsc]. by apply (Hs q s).
Qed.

Lemma applift_program_witness :
  exists src', applift_all 40 (source_of [sample_caller]) [0] = Done src' /\ wf_source src' /\
    (forall q, q ∈ [0] -> q ∈ src_scombs src') /\ forall q, q ∈ src_scombs src' -> prepared src' q.
Proof.
  apply (applift_program 40 (source_of [sample_caller])).
  - apply source_of_wf, NoDup_singleton.
  - intros p ->%list_elem_of_singleton. apply sample_liftable.
Defined.
