(* ===== verification/Semantics.v ===== *)
(** * Lazy evaluation of lifted programs

    The meaning of the trees the compiler works on: evaluation to weak head
    normal form by name, over closures. Strictness marks play no part in it, so
    programs are taken with their marks erased and a pass that only changes
    marks keeps the meaning by construction. The last part has the simulations
    other passes are justified by. *)

From S2P Require Import Prelude Builtins Util Source.

#[local] Set Warnings "-clear-no-such-hyp".

(** ** Programs without marks *)

Fixpoint erase (c : snode) : snode :=
  match c with
  | SNODE_APPLICATION sl _ l r => SNODE_APPLICATION sl false (erase l) (erase r)
  | SNODE_LAMBDA sl n b => SNODE_LAMBDA sl n (erase b)
  | SNODE_LETREC sl bs b =>
      SNODE_LETREC sl (map (fun rec => Letrec (lr_name rec) (erase (lr_value rec)) false) bs) (erase b)
  | _ => c
  end.

(** The code of a function: its argument names and its body. *)
Definition code : Type := list (list string * option snode).
Definition code_of (src : source) : code := (fun sc => (sc_argnames sc, erase <$> sc_body sc)) <$> src_heap src.

Lemma code_lookup src p :
  code_of src !! p = (fun sc => (sc_argnames sc, erase <$> sc_body sc)) <$> src_heap src !! p.
Proof. apply list_lookup_fmap. Qed.

Lemma count_args_erase c : count_args (erase c) = count_args c.
Proof. induction c; cbn; congruence. Qed.

Lemma spine_head_erase c : spine_head (erase c) = erase (spine_head c).
Proof. induction c; cbn; congruence. Qed.

Lemma spine_args_erase c : spine_args (erase c) = map erase (spine_args c).
Proof. induction c; cbn; congruence. Qed.

Lemma snode_size_erase c : snode_size (erase c) = snode_size c.
Proof.
  snode_induction c; cbn; try congruence. rewrite IHb. do 2 f_equal.
  induction IHbs as [|rec bs Hr Hbs IH]; cbn in *; congruence.
Qed.

Lemma binders_erase c : binders (erase c) = binders c.
Proof.
  snode_induction c; cbn; try congruence. rewrite IHb, !map_map. cbn. do 2 f_equal.
  f_equal. apply map_ext_in. rewrite Forall_forall in IHbs. intros rec Hr. apply IHbs. by apply list_elem_of_In.
Qed.

(** ** Closures and values *)

Inductive fn := FSc (p : nat) | FBif (bif : nat).

Inductive clo := Clo (rho : env) (c : snode)
with env := ENil | EBind (x : string) (cl : clo) (rho : env) | ERec (bs : list letrec) (rho : env).

Inductive value :=
| VFun (h : fn) (args : list clo)
| VNum (num : Z)
| VStr (s : string)
| VNil
| VData (tag : nat) (fields : list clo).

Definition find_rec (bs : list letrec) (x : string) : option letrec :=
  List.find (fun rec => String.eqb (lr_name rec) x) bs.

Fixpoint env_lookup (rho : env) (x : string) : option clo :=
  match rho with
  | ENil => None
  | EBind y cl rho => if String.eqb y x then Some cl else env_lookup rho x
  | ERec bs rho0 =>
      match find_rec bs x with
      | Some rec => Some (Clo rho (lr_value rec))
      | None => env_lookup rho0 x
      end
  end.

(** The environment of a call. *)
Fixpoint bind_args (xs : list string) (args : list clo) : env :=
  match xs, args with
  | x :: xs, cl :: args => EBind x cl (bind_args xs args)
  | _, _ => ENil
  end.

Section semantics.
Context (P : code).

(** What a built-in other than [if] and [seq] does with the values of its
    strict arguments and with the others: a value, or an expression still to
    be evaluated. *)
Context (bif_sem : nat -> list value -> list clo -> value + clo -> Prop).

Definition arity (h : fn) : option nat :=
  match h with
  | FSc p => length ∘ fst <$> P !! p
  | FBif bif => bi_nargs <$> builtin_info !! bif
  end.

Definition fn_of (c : snode) : option fn :=
  match c with
  | SNODE_SCREF _ p => Some (FSc p)
  | SNODE_BUILTIN _ bif => Some (FBif bif)
  | _ => None
  end.

(** [eval rho c v]: the expression has the value [v]; [apply h args v]: so has
    the function applied to these arguments; [enter]: the same for a call with
    all its arguments. [false] is [nil]. *)
Inductive eval : env -> snode -> value -> Prop :=
| ev_symbol rho sl x rho' c v :
    env_lookup rho x = Some (Clo rho' c) -> eval rho' c v -> eval rho (SNODE_SYMBOL sl x) v
| ev_nil rho sl : eval rho (SNODE_NIL sl) VNil
| ev_number rho sl num : eval rho (SNODE_NUMBER sl num) (VNum num)
| ev_string rho sl s : eval rho (SNODE_STRING sl s) (VStr s)
| ev_fun rho c h v : fn_of c = Some h -> apply h [] v -> eval rho c v
| ev_app rho sl st l r h args v :
    eval rho l (VFun h args) -> apply h (args ++ [Clo rho r]) v -> eval rho (SNODE_APPLICATION sl st l r) v
| ev_letrec rho sl bs b v : eval (ERec bs rho) b v -> eval rho (SNODE_LETREC sl bs b) v
with apply : fn -> list clo -> value -> Prop :=
| ap_partial h args n : arity h = Some n -> length args < n -> apply h args (VFun h args)
| ap_call h args n v : arity h = Some n -> length args = n -> enter h args v -> apply h args v
with enter : fn -> list clo -> value -> Prop :=
| en_scomb p xs body args v :
    P !! p = Some (xs, Some body) -> eval (bind_args xs args) body v -> enter (FSc p) args v
| en_true r1 c1 r2 c2 cl v1 v :
    eval r1 c1 v1 -> v1 <> VNil -> eval r2 c2 v -> enter (FBif B_IF) [Clo r1 c1; Clo r2 c2; cl] v
| en_false r1 c1 cl r3 c3 v :
    eval r1 c1 VNil -> eval r3 c3 v -> enter (FBif B_IF) [Clo r1 c1; cl; Clo r3 c3] v
| en_seq r1 c1 v1 r2 c2 v :
    eval r1 c1 v1 -> eval r2 c2 v -> enter (FBif B_SEQ) [Clo r1 c1; Clo r2 c2] v
| en_bif_value bif b args vs v :
    bif <> B_IF -> bif <> B_SEQ -> builtin_info !! bif = Some b -> evals (take (bi_nstrict b) args) vs ->
    bif_sem bif vs (drop (bi_nstrict b) args) (inl v) -> enter (FBif bif) args v
| en_bif_expr bif b args vs rho c v :
    bif <> B_IF -> bif <> B_SEQ -> builtin_info !! bif = Some b -> evals (take (bi_nstrict b) args) vs ->
    bif_sem bif vs (drop (bi_nstrict b) args) (inr (Clo rho c)) -> eval rho c v -> enter (FBif bif) args v
with evals : list clo -> list value -> Prop :=
| evs_nil : evals [] []
| evs_cons rho c cls v vs : eval rho c v -> evals cls vs -> evals (Clo rho c :: cls) (v :: vs).

(** ** What strictness means *)

Definition converges (cl : clo) : Prop := let '(Clo rho c) := cl in exists v, eval rho c v.

(** Every call with a value evaluates the argument to a value. *)
Definition strict_in (h : fn) (i : nat) : Prop :=
  forall args v cl, enter h args v -> args !! i = Some cl -> converges cl.

Definition var_converges (rho : env) (x : string) : Prop :=
  exists cl, env_lookup rho x = Some cl /\ converges cl.

(** Evaluating the expression evaluates the variable. *)
Definition demands (c : snode) (x : string) : Prop := forall rho v, eval rho c v -> var_converges rho x.

Lemma evals_lookup cls vs i cl : evals cls vs -> cls !! i = Some cl -> converges cl.
Proof.
  intros H. revert i. induction H as [|rho c cls v vs He Hs IH] ; intros [|i]; cbn; try done.
  - intros [= <-]. cbn. eauto.
  - apply IH.
Qed.

Lemma bif_strict bif b i : builtin_info !! bif = Some b -> i < bi_nstrict b -> strict_in (FBif bif) i.
Proof.
  intros Hb Hi args v cl He Ha. inversion He; subst.
  - injection Hb as <-. cbn in Hi. assert (i = 0) as -> by lia. injection Ha as <-. cbn. eauto.
  - injection Hb as <-. cbn in Hi. assert (i = 0) as -> by lia. injection Ha as <-. cbn. eauto.
  - injection Hb as <-. cbn in Hi. assert (i = 0) as -> by lia. injection Ha as <-. cbn. eauto.
  - assert (b0 = b) as -> by congruence. eapply evals_lookup; [done|]. by rewrite lookup_take_lt.
  - assert (b0 = b) as -> by congruence. eapply evals_lookup; [done|]. by rewrite lookup_take_lt.
Qed.

(** ** Spines *)

(** The closures of the arguments of a spine, first one first. *)
Definition arg_clos (rho : env) (c : snode) : list clo := rev (map (Clo rho) (spine_args c)).

Lemma arg_clos_length rho c : length (arg_clos rho c) = count_args c.
Proof. unfold arg_clos. rewrite length_rev, length_map. induction c; cbn; congruence. Qed.

Lemma arg_clos_app rho sl st l r : arg_clos rho (SNODE_APPLICATION sl st l r) = arg_clos rho l ++ [Clo rho r].
Proof. done. Qed.

Lemma apply_short h args n v : apply h args v -> arity h = Some n -> length args < n -> v = VFun h args.
Proof. intros Ha Hn Hl. inversion Ha; subst; [done|]. simplify_eq. lia. Qed.

Lemma apply_full h args n v : apply h args v -> arity h = Some n -> length args = n -> enter h args v.
Proof. intros Ha Hn Hl. inversion Ha; subst; [simplify_eq; lia | done]. Qed.

(** An evaluated spine with a known function and no more arguments than it
    takes is an application of the function to the closures. *)
Lemma eval_spine c : forall rho v h n, fn_of (spine_head c) = Some h -> arity h = Some n -> count_args c <= n ->
  eval rho c v -> apply h (arg_clos rho c) v.
Proof.
  induction c as [sl st l IHl r _|sl x b _|sl bif|sl x|sl bs b _|sl p|sl|sl num|sl s];
    intros rho v h n Hh Hn Hle He; try (cbn in Hh; done);
    try (inversion He; subst; cbn in *; simplify_eq; done).
  cbn [spine_head count_args] in *. inversion He as [| | | |? ? ? ? Hf| |]; subst; [cbn in Hf; done|].
  assert (apply h (arg_clos rho l) (VFun h0 args)) as Hl by (eapply IHl; eauto; lia).
  eapply apply_short in Hl; [|done|rewrite arg_clos_length; lia]. injection Hl as -> ->.
  by rewrite arg_clos_app.
Qed.

(** With more arguments than the function takes, the call with as many as it
    takes gives a function. *)
Lemma eval_over c : forall rho v h n, fn_of (spine_head c) = Some h -> arity h = Some n -> n < count_args c ->
  eval rho c v -> exists h' cls, enter h (take n (arg_clos rho c)) (VFun h' cls).
Proof.
  induction c as [sl st l IHl r _|sl x b _|sl bif|sl x|sl bs b _|sl p|sl|sl num|sl s];
    intros rho v h n Hh Hn Hlt He; try (cbn in Hlt; lia).
  cbn [spine_head count_args] in *. inversion He as [| | | |? ? ? ? Hf| |]; subst; [cbn in Hf; done|].
  rewrite arg_clos_app, take_app_le by (rewrite arg_clos_length; lia).
  destruct (decide (n = count_args l)) as [->|Hne]; [|eapply IHl; eauto; lia].
  rewrite take_ge by (rewrite arg_clos_length; lia). exists h0, args. eapply apply_full; [|exact Hn | by rewrite arg_clos_length].
  eapply eval_spine; [exact Hh | exact Hn | lia | done].
Qed.

(** The function of an evaluated application is evaluated. *)
Lemma eval_left rho sl st l r v : eval rho (SNODE_APPLICATION sl st l r) v -> exists v', eval rho l v'.
Proof. intros He. inversion He as [| | | |? ? ? ? Hf| |]; subst; [cbn in Hf; done | eauto]. Qed.

End semantics.

Lemma fn_of_erase c : fn_of (erase c) = fn_of c.
Proof. by destruct c. Qed.

(** ** Simulations between programs

    A relation on closures that is kept by every step of evaluation carries
    evaluation from one program to another. A pass that rearranges trees is
    shown to keep their meaning by giving such a relation, in both
    directions. *)

Scheme eval_mind := Minimality for eval Sort Prop
  with apply_mind := Minimality for apply Sort Prop
  with enter_mind := Minimality for enter Sort Prop
  with evals_mind := Minimality for evals Sort Prop.
Combined Scheme eval_mutual from eval_mind, apply_mind, enter_mind, evals_mind.

(** Values that are the same but for related closures. *)
Inductive value_rel (R : clo -> clo -> Prop) : value -> value -> Prop :=
| vr_fun h args args' : Forall2 R args args' -> value_rel R (VFun h args) (VFun h args')
| vr_num num : value_rel R (VNum num) (VNum num)
| vr_str s : value_rel R (VStr s) (VStr s)
| vr_nil : value_rel R VNil VNil
| vr_data tag fs fs' : Forall2 R fs fs' -> value_rel R (VData tag fs) (VData tag fs').

Definition result_rel (R : clo -> clo -> Prop) (r r' : value + clo) : Prop :=
  match r, r' with
  | inl v, inl v' => value_rel R v v'
  | inr cl, inr cl' => R cl cl'
  | _, _ => False
  end.

(** The built-ins do with closures only what they do with any closure. *)
Definition parametric (bif_sem : nat -> list value -> list clo -> value + clo -> Prop) (R : clo -> clo -> Prop) : Prop :=
  forall bif vs cls r vs' cls', bif_sem bif vs cls r -> Forall2 (value_rel R) vs vs' -> Forall2 R cls cls' ->
  exists r', bif_sem bif vs' cls' r' /\ result_rel R r r'.

(** Every step from a closure of the first program is matched. *)
Record simulation (P Q : code) (R : clo -> clo -> Prop) : Prop := {
  sim_symbol : forall rho sl x cl' rho1 c1, R (Clo rho (SNODE_SYMBOL sl x)) cl' -> env_lookup rho x = Some (Clo rho1 c1) ->
    exists rho' sl' rho1' c1', cl' = Clo rho' (SNODE_SYMBOL sl' x) /\ env_lookup rho' x = Some (Clo rho1' c1') /\
      R (Clo rho1 c1) (Clo rho1' c1');
  sim_leaf : forall rho c rho' c', R (Clo rho c) (Clo rho' c') ->
    match c with
    | SNODE_NIL _ => exists sl, c' = SNODE_NIL sl
    | SNODE_NUMBER _ num => exists sl, c' = SNODE_NUMBER sl num
    | SNODE_STRING _ s => exists sl, c' = SNODE_STRING sl s
    | SNODE_BUILTIN _ _ | SNODE_SCREF _ _ => fn_of c' = fn_of c
    | _ => True
    end;
  sim_app : forall rho sl st l r cl', R (Clo rho (SNODE_APPLICATION sl st l r)) cl' ->
    exists rho' sl' st' l' r', cl' = Clo rho' (SNODE_APPLICATION sl' st' l' r') /\
      R (Clo rho l) (Clo rho' l') /\ R (Clo rho r) (Clo rho' r');
  sim_letrec : forall rho sl bs b cl', R (Clo rho (SNODE_LETREC sl bs b)) cl' ->
    exists rho' sl' bs' b', cl' = Clo rho' (SNODE_LETREC sl' bs' b') /\
      R (Clo (ERec bs rho) b) (Clo (ERec bs' rho') b');
  sim_arity : forall h, arity Q h = arity P h;
  sim_code : forall p xs body args args', P !! p = Some (xs, Some body) -> Forall2 R args args' ->
    exists body', Q !! p = Some (xs, Some body') /\ R (Clo (bind_args xs args) body) (Clo (bind_args xs args') body')
}.

Section simulation.
Context (P Q : code) (bif_sem : nat -> list value -> list clo -> value + clo -> Prop) (R : clo -> clo -> Prop).
Context (Hsim : simulation P Q R) (Hpar : parametric bif_sem R).

Definition eval_ok rho c v : Prop := forall rho' c', R (Clo rho c) (Clo rho' c') ->
  exists v', eval Q bif_sem rho' c' v' /\ value_rel R v v'.
Definition apply_ok h args v : Prop := forall args', Forall2 R args args' ->
  exists v', apply Q bif_sem h args' v' /\ value_rel R v v'.
Definition enter_ok h args v : Prop := forall args', Forall2 R args args' ->
  exists v', enter Q bif_sem h args' v' /\ value_rel R v v'.
Definition evals_ok cls vs : Prop := forall cls', Forall2 R cls cls' ->
  exists vs', evals Q bif_sem cls' vs' /\ Forall2 (value_rel R) vs vs'.

Lemma value_rel_nil v v' : value_rel R v v' -> v <> VNil -> v' <> VNil.
Proof. by destruct 1. Qed.

(** A built-in that is not treated specially. *)
Lemma bif_ok bif b args vs r args' :
  evals_ok (take (bi_nstrict b) args) vs -> bif_sem bif vs (drop (bi_nstrict b) args) r -> Forall2 R args args' ->
  exists vs' r', evals Q bif_sem (take (bi_nstrict b) args') vs' /\
    bif_sem bif vs' (drop (bi_nstrict b) args') r' /\ result_rel R r r'.
Proof.
  intros Hs Hb Hargs. destruct (Hs (take (bi_nstrict b) args')) as (vs' & Hvs & Hr); [by apply Forall2_take|].
  destruct (Hpar bif vs _ r vs' (drop (bi_nstrict b) args') Hb Hr) as (r' & Hb' & Hrr); [by apply Forall2_drop|].
  eauto.
Qed.

Lemma simulate :
  (forall rho c v, eval P bif_sem rho c v -> eval_ok rho c v) /\
  (forall h args v, apply P bif_sem h args v -> apply_ok h args v) /\
  (forall h args v, enter P bif_sem h args v -> enter_ok h args v) /\
  (forall cls vs, evals P bif_sem cls vs -> evals_ok cls vs).
Proof.
  apply (eval_mutual P bif_sem eval_ok apply_ok enter_ok evals_ok).
  - intros rho sl x rho1 c1 v Hl _ IH rho' c' HR.
    destruct (sim_symbol _ _ _ Hsim _ _ _ _ _ _ HR Hl) as (rho2 & sl' & rho3 & c3 & [= -> ->] & Hl' & HR').
    destruct (IH _ _ HR') as (v' & He & Hv). exists v'. split; [by econstructor | done].
  - intros rho sl rho' c' HR. destruct (sim_leaf _ _ _ Hsim _ _ _ _ HR) as [sl' ->]. exists VNil. split; constructor.
  - intros rho sl num rho' c' HR. destruct (sim_leaf _ _ _ Hsim _ _ _ _ HR) as [sl' ->]. exists (VNum num). split; constructor.
  - intros rho sl s rho' c' HR. destruct (sim_leaf _ _ _ Hsim _ _ _ _ HR) as [sl' ->]. exists (VStr s). split; constructor.
  - intros rho c h v Hf _ IH rho' c' HR. destruct (IH [] ltac:(constructor)) as (v' & Ha & Hv). exists v'. split; [|done].
    eapply ev_fun; [|exact Ha]. pose proof (sim_leaf _ _ _ Hsim _ _ _ _ HR) as Hl. destruct c; try done; by rewrite Hl.
  - intros rho sl st l r h args v _ IHl _ IHa rho' c' HR.
    destruct (sim_app _ _ _ Hsim _ _ _ _ _ _ HR) as (rho2 & sl' & st' & l' & r' & [= -> ->] & Hl & Hr).
    destruct (IHl _ _ Hl) as (vl & Hel & Hvl). inversion Hvl as [? ? args' Hargs| | | |]; subst.
    destruct (IHa (args' ++ [Clo rho2 r'])) as (v' & Ha & Hv); [apply Forall2_app; [done | by repeat constructor]|].
    exists v'. split; [by econstructor | done].
  - intros rho sl bs b v _ IH rho' c' HR.
    destruct (sim_letrec _ _ _ Hsim _ _ _ _ _ HR) as (rho2 & sl' & bs' & b' & [= -> ->] & Hb).
    destruct (IH _ _ Hb) as (v' & He & Hv). exists v'. split; [by constructor | done].
  - intros h args n Hn Hl args' Hargs. exists (VFun h args'). split; [|by constructor].
    eapply ap_partial; [by rewrite (sim_arity _ _ _ Hsim) | by rewrite <- (Forall2_length _ _ _ Hargs)].
  - intros h args n v Hn Hl _ IH args' Hargs. destruct (IH args' Hargs) as (v' & He & Hv). exists v'. split; [|done].
    eapply ap_call; [by rewrite (sim_arity _ _ _ Hsim) | by rewrite <- (Forall2_length _ _ _ Hargs) | done].
  - intros p xs body args v Hp _ IH args' Hargs.
    destruct (sim_code _ _ _ Hsim p xs body args args' Hp Hargs) as (body' & Hp' & HR).
    destruct (IH _ _ HR) as (v' & He & Hv). exists v'. split; [by econstructor | done].
  - intros r1 c1 r2 c2 cl v1 v _ IH1 Hnil _ IH2 args' Hargs.
    inversion Hargs as [|? [r1' c1'] ? ? H1 T1]; subst. inversion T1 as [|? [r2' c2'] ? ? H2 T2]; subst.
    inversion T2 as [|? cl' ? ? H3 T3]; subst. inversion T3; subst.
    destruct (IH1 _ _ H1) as (w1 & He1 & Hw1). destruct (IH2 _ _ H2) as (w & He2 & Hw).
    exists w. split; [|done]. eapply en_true; [done | by eapply value_rel_nil | done].
  - intros r1 c1 cl r3 c3 v _ IH1 _ IH3 args' Hargs.
    inversion Hargs as [|? [r1' c1'] ? ? H1 T1]; subst. inversion T1 as [|? cl' ? ? H2 T2]; subst.
    inversion T2 as [|? [r3' c3'] ? ? H3 T3]; subst. inversion T3; subst.
    destruct (IH1 _ _ H1) as (w1 & He1 & Hw1). inversion Hw1; subst. destruct (IH3 _ _ H3) as (w & He3 & Hw).
    exists w. split; [by eapply en_false | done].
  - intros r1 c1 v1 r2 c2 v _ IH1 _ IH2 args' Hargs.
    inversion Hargs as [|? [r1' c1'] ? ? H1 T1]; subst. inversion T1 as [|? [r2' c2'] ? ? H2 T2]; subst. inversion T2; subst.
    destruct (IH1 _ _ H1) as (w1 & He1 & Hw1). destruct (IH2 _ _ H2) as (w & He2 & Hw).
    exists w. split; [by eapply en_seq | done].
  - intros bif b args vs v Hif Hseq Hb _ IH Hs args' Hargs.
    destruct (bif_ok bif b args vs (inl v) args' IH Hs Hargs) as (vs' & [v'|] & Hev & Hs' & Hr); [|done].
    exists v'. split; [by eapply en_bif_value | done].
  - intros bif b args vs rho c v Hif Hseq Hb _ IH Hs _ IHe args' Hargs.
    destruct (bif_ok bif b args vs (inr (Clo rho c)) args' IH Hs Hargs) as (vs' & [|[rho' c']] & Hev & Hs' & Hr); [done|].
    destruct (IHe _ _ Hr) as (v' & He & Hv). exists v'. split; [by eapply en_bif_expr | done].
  - intros cls' Hc. inversion Hc; subst. exists []. split; constructor.
  - intros rho c cls v vs _ IH _ IHs cls' Hc. inversion Hc as [|? [rho' c'] ? cls2 H1 H2]; subst.
    destruct (IH _ _ H1) as (v' & He & Hv). destruct (IHs _ H2) as (vs' & Hes & Hvs).
    exists (v' :: vs'). split; by constructor.
Qed.
End simulation.

Lemma value_rel_flip R v v' : value_rel (flip R) v v' -> value_rel R v' v.
Proof. destruct 1; constructor; by apply Forall2_flip. Qed.
