(* ===== verification/Strictness.v ===== *)
(** * Strictness analysis (src/nreduce/compiler/strictness.c)

    Finds the arguments every call of a supercombinator evaluates, and marks
    application nodes and letrec bindings whose expressions are certain to be
    evaluated. The marks live in the trees, so each traversal returns the tree
    it was given with its marks updated. *)

From S2P Require Import Prelude Builtins Util Source.

#[local] Set Warnings "-clear-no-such-hyp".

(** ** Functions *)

Definition fun_nargs (src : source) (c : snode) : outcome nat :=
  match c with
  | SNODE_SCREF _ p => sc ← getsc src p; Done (sc_nargs sc)
  | SNODE_BUILTIN _ bif => b ← deref (builtin_info !! bif); Done (bi_nargs b)
  | _ => Crash
  end.

Definition fun_strictin (src : source) (c : snode) (argno : nat) : outcome bool :=
  n ← fun_nargs src c;
  cassert (Nat.ltb argno n);;
  match c with
  | SNODE_SCREF _ p => sc ← getsc src p; st ← deref (sc_strictin sc); deref (st !! argno)
  | SNODE_BUILTIN _ bif => b ← deref (builtin_info !! bif); Done (Nat.ltb argno (bi_nstrict b))
  | _ => Crash
  end.

(** ** Sorted lists of names *)

Fixpoint add_var (vars : list string) (name : string) : list string :=
  match vars with
  | [] => [name]
  | v :: rest =>
      match strcmp v name with
      | Lt => v :: add_var rest name
      | Eq => vars
      | Gt => list_push vars name
      end
  end.

(** The names in both lists; the C comment calls it what it is, the name says
    union. *)
Fixpoint add_union (dest a b : list string) {struct a} : list string :=
  match a with
  | [] => dest
  | x :: a' =>
      (fix over (dest b : list string) {struct b} : list string :=
         match b with
         | [] => dest
         | y :: b' =>
             match strcmp x y with
             | Lt => add_union dest a' b
             | Gt => over dest b'
             | Eq => add_union (add_var dest x) a' b'
             end
         end) dest b
  end.

(** ** Expressions *)

(** The tree, the names used and the flag [*changed]. *)
Definition checked : Type := snode * list string * bool.

Definition is_known (h : snode) : bool :=
  match h with SNODE_SCREF _ _ | SNODE_BUILTIN _ _ => true | _ => false end.
Definition is_bif (bif : nat) (h : snode) : bool :=
  match h with SNODE_BUILTIN _ b => Nat.eqb b bif | _ => false end.

Definition set_rec_strict (rec : letrec) : letrec := Letrec (lr_name rec) (lr_value rec) true.

Section check_step.
Context (src : source) (check : snode -> list string -> bool -> outcome checked).

(** An argument the function is strict in is in a strict context itself. *)
Definition mark_arg (strict st : bool) (r : snode) (used : list string) (changed : bool) : outcome checked :=
  if strict then check r used (changed || negb st) else Done (r, used, changed).

(** The loop over the arguments of a saturated call, from the last one down;
    the argument of an application node has the number of arguments to its
    left as its index. *)
Fixpoint mark_args (h : snode) (c : snode) (used : list string) (changed : bool) : outcome checked :=
  match c with
  | SNODE_APPLICATION sl st l r =>
      strict ← fun_strictin src h (count_args l);
      '(r, used, changed) ← mark_arg strict st r used changed;
      '(l, used, changed) ← mark_args h l used changed;
      Done (SNODE_APPLICATION sl (st || strict) l r, used, changed)
  | _ => Done (c, used, changed)
  end.

(** The branches of an [if]: only names used in both count. *)
Definition check_if (c : snode) (used : list string) (changed : bool) : outcome checked :=
  match c with
  | SNODE_APPLICATION sl st (SNODE_APPLICATION sl2 st2 l truebranch) falsebranch =>
      '(truebranch, trueused, changed) ← check truebranch [] changed;
      '(falsebranch, falseused, changed) ← check falsebranch [] changed;
      Done (SNODE_APPLICATION sl st (SNODE_APPLICATION sl2 st2 l truebranch) falsebranch,
            add_union used trueused falseused, changed)
  | _ => Crash
  end.

(** The second argument of [seq]: its marks are set, its names do not count. *)
Definition check_seq (c : snode) (used : list string) (changed : bool) : outcome checked :=
  match c with
  | SNODE_APPLICATION sl st l after =>
      '(after, _, changed) ← check after [] changed;
      Done (SNODE_APPLICATION sl st l after, used, changed)
  | _ => Crash
  end.

(** A call with all its arguments. *)
Definition check_if_call (h c : snode) (used : list string) (changed : bool) : outcome checked :=
  if is_bif B_IF h then check_if c used changed else Done (c, used, changed).
Definition check_seq_call (h c : snode) (used : list string) (changed : bool) : outcome checked :=
  if is_bif B_SEQ h then check_seq c used changed else Done (c, used, changed).
Definition check_call (h c : snode) (used : list string) (changed : bool) : outcome checked :=
  '(c, used, changed) ← mark_args h c used changed;
  '(c, used, changed) ← check_if_call h c used changed;
  check_seq_call h c used changed.

(** The test for a call of a known function with all its arguments. *)
Definition is_saturated (h c : snode) : outcome bool :=
  if is_known h then n ← fun_nargs src h; Done (Nat.eqb (count_args c) n) else Done false.

Definition check_application (c : snode) (used : list string) (changed : bool) : outcome checked :=
  let h := spine_head c in
  saturated ← is_saturated h c;
  '(c, used, changed) ← (if saturated : bool then check_call h c used changed else Done (c, used, changed));
  match c with
  | SNODE_APPLICATION sl st l r =>
      '(l, used, changed) ← check l used changed;
      Done (SNODE_APPLICATION sl st l r, used, changed)
  | _ => Crash
  end.

(** The pass over the bindings already known to be strict. *)
Fixpoint check_bindings (bs : list letrec) (used : list string) (changed : bool) :
    outcome (list letrec * list string * bool) :=
  match bs with
  | [] => Done ([], used, changed)
  | rec :: bs =>
      '(rec, used, changed) ←
        (if lr_strict rec then
           '(v, used, changed) ← check (lr_value rec) used changed;
           Done (set_value v rec, used, changed)
         else Done (rec, used, changed));
      '(bs, used, changed) ← check_bindings bs used changed;
      Done (rec :: bs, used, changed)
  end.

(** The loop that marks bindings; the flag is [again]. *)
Definition newly_strict (bodyused : list string) (rec : letrec) : bool :=
  negb (lr_strict rec) && list_contains_string bodyused (lr_name rec).
Definition mark_bindings (bodyused : list string) (bs : list letrec) : list letrec * bool :=
  (map (fun rec => if newly_strict bodyused rec then set_rec_strict rec else rec) bs,
   existsb (newly_strict bodyused) bs).

(** The [do] loop; [bodyused] is carried from round to round. *)
Fixpoint letrec_loop (rounds : nat) (bs : list letrec) (body : snode) (bodyused : list string) (changed : bool) :
    outcome (list letrec * snode * list string * bool) :=
  match rounds with
  | O => Timeout
  | S rounds =>
      '(bs, bodyused, changed) ← check_bindings bs bodyused changed;
      '(body, bodyused, changed) ← check body bodyused changed;
      let '(bs, again) := mark_bindings bodyused bs in
      if again then letrec_loop rounds bs body bodyused true
      else Done (bs, body, bodyused, changed)
  end.

Definition check_letrec (sl : sourceloc) (bs : list letrec) (body : snode) (used : list string) (changed : bool) :
    outcome checked :=
  '(bs, body, bodyused, changed) ← letrec_loop (S (length bs)) bs body [] changed;
  let outer := List.filter (fun x => negb (list_contains_string (map lr_name bs) x)) bodyused in
  Done (SNODE_LETREC sl bs body, fold_left add_var outer used, changed).
End check_step.

(** [check_strictness_r]; an abstraction ends the program. *)
Fixpoint check_strictness_r (fuel : nat) (src : source) (c : snode) (used : list string) (changed : bool) :
    outcome checked :=
  match fuel with
  | O => Timeout
  | S fuel =>
      match c with
      | SNODE_LETREC sl bs b => check_letrec (check_strictness_r fuel src) sl bs b used changed
      | SNODE_APPLICATION _ _ _ _ => check_application src (check_strictness_r fuel src) c used changed
      | SNODE_SYMBOL _ x => Done (c, add_var used x, changed)
      | SNODE_BUILTIN _ _ | SNODE_SCREF _ _ | SNODE_NIL _ | SNODE_NUMBER _ _ | SNODE_STRING _ _ =>
          Done (c, used, changed)
      | SNODE_LAMBDA _ _ _ => Crash
      end
  end.

(** ** Supercombinators *)

(** [check_strictness(sc,changed)] on the supercombinator at [p]. *)
Definition check_strictness (fuel : nat) (src : source) (p : nat) (changed : bool) : outcome (source * bool) :=
  sc ← getsc src p;
  body ← deref (sc_body sc);
  '(body, used, changed) ← check_strictness_r fuel src body [] changed;
  old ← deref (sc_strictin sc);
  cassert (Nat.eqb (length old) (sc_nargs sc));;
  let strictin := zip_with (fun st x => st || list_contains_string used x) old (sc_argnames sc) in
  let changed := changed || negb (bool_decide (old = strictin)) in
  Done (upd src p (fun sc => set_strictin (Some strictin) (sc_lazyin sc) (set_body body sc)), changed).

(** The first loop of [strictness_analysis]. *)
Definition init_strictin (sc : scomb) : scomb :=
  match sc_strictin sc with
  | None => set_strictin (Some (replicate (sc_nargs sc) false)) (sc_lazyin sc) sc
  | Some _ => sc
  end.

Fixpoint check_all (fuel : nat) (src : source) (ps : list nat) (changed : bool) : outcome (source * bool) :=
  match ps with
  | [] => Done (src, changed)
  | p :: ps => '(src, changed) ← check_strictness fuel src p changed; check_all fuel src ps changed
  end.

Fixpoint strictness_loop (rounds fuel : nat) (src : source) : outcome source :=
  match rounds with
  | O => Timeout
  | S rounds =>
      '(src, changed) ← check_all fuel src (src_scombs src) false;
      if changed : bool then strictness_loop rounds fuel src else Done src
  end.

Definition init_all (src : source) : source := fold_left (fun src p => upd src p init_strictin) (src_scombs src) src.

Definition strictness_analysis (rounds fuel : nat) (src : source) : outcome source :=
  strictness_loop rounds fuel (init_all src).
