(* ===== verification/StrictnessFacts.v ===== *)
(** * The strictness analysis terminates and is sound

    The names the analysis reports for an expression are demanded by it in the
    lazy semantics, the marks it leaves are on expressions that are certain to
    be evaluated, and the iteration over the program ends in a state where one
    more round changes nothing. *)

From Stdlib Require Import Sorting.Sorted.
From S2P Require Import Prelude CString Builtins Util Source Resolve Lifting LiftingFacts LiftingCreate Double Bytecode StackDiscipline Applift AppliftFacts Semantics Strictness.

#[local] Set Warnings "-clear-no-such-hyp".

(** ** Sorted lists of names *)

Definition name_lt (a b : string) : Prop := strcmp a b = Lt.
Definition ascending (l : list string) : Prop := StronglySorted name_lt l.

Lemma strcmp_eq a b : strcmp a b = Eq <-> a = b.
Proof.
  split; [apply String.compare_eq_iff|]. intros ->. unfold strcmp. induction b as [|c b IH]; cbn; [done|].
  unfold Ascii.compare. by rewrite N.compare_refl.
Qed.

Lemma strcmp_gt a b : strcmp a b = Gt -> name_lt b a.
Proof. unfold name_lt, strcmp. intros H. by rewrite String.compare_antisym, H. Qed.

Lemma ascii_compare_trans a b c : Ascii.compare a b = Lt -> Ascii.compare b c = Lt -> Ascii.compare a c = Lt.
Proof. unfold Ascii.compare. rewrite !N.compare_lt_iff. lia. Qed.

Lemma ascii_compare_eq a b : Ascii.compare a b = Eq <-> a = b.
Proof. split; [apply Ascii.compare_eq_iff|]. intros ->. unfold Ascii.compare. apply N.compare_refl. Qed.

Lemma name_lt_trans a b c : name_lt a b -> name_lt b c -> name_lt a c.
Proof.
  unfold name_lt, strcmp. revert b c. induction a as [|x a IH]; intros [|y b] [|z c]; cbn; try done.
  destruct (Ascii.compare x y) eqn:E1; try done; destruct (Ascii.compare y z) eqn:E2; try done.
  - apply ascii_compare_eq in E1 as ->. rewrite E2. by apply IH.
  - apply ascii_compare_eq in E1 as ->. by rewrite E2.
  - apply ascii_compare_eq in E2 as ->. by rewrite E1.
  - by rewrite (ascii_compare_trans _ _ _ E1 E2).
Qed.

Lemma name_lt_irrefl a : ~ name_lt a a.
Proof. unfold name_lt. by rewrite (proj2 (strcmp_eq a a) eq_refl). Qed.

Lemma elem_of_add_var x vars name : x ∈ add_var vars name <-> x ∈ vars \/ x = name.
Proof.
  induction vars as [|v vars IH]; cbn [add_var].
  { rewrite list_elem_of_singleton, elem_of_nil. tauto. }
  destruct (strcmp v name) eqn:E; unfold list_push; rewrite !elem_of_cons; [|rewrite IH|]; try tauto.
  apply strcmp_eq in E as ->. tauto.
Qed.

Lemma add_var_ascending vars name : ascending vars -> ascending (add_var vars name).
Proof.
  induction 1 as [|v vars Hs IH Hv]; cbn; [by repeat constructor|].
  destruct (strcmp v name) eqn:E.
  - by constructor.
  - constructor; [done|]. apply Forall_forall. intros x Hx. apply elem_of_add_var in Hx as [Hx| ->]; [|done].
    by eapply (proj1 (Forall_forall _ _)) in Hv.
  - apply strcmp_gt in E. constructor; [by constructor|]. constructor; [done|].
    eapply Forall_impl; [exact Hv|]. intros x Hx. by eapply name_lt_trans.
Qed.

Lemma ascending_below a l x : ascending (a :: l) -> x ∈ l -> name_lt a x.
Proof. intros H Hx. apply StronglySorted_inv in H as [_ H]. by eapply (proj1 (Forall_forall _ _)) in H. Qed.

Lemma add_union_step x a y b dest : add_union dest (x :: a) (y :: b) =
  match strcmp x y with
  | Lt => add_union dest a (y :: b)
  | Gt => add_union dest (x :: a) b
  | Eq => add_union (add_var dest x) a b
  end.
Proof. by cbn; destruct (strcmp x y). Qed.

Lemma add_union_nil dest a : add_union dest a [] = dest.
Proof. by destruct a. Qed.

(** A name no greater than the head of an ascending list occurs in it only as
    the head. *)
Lemma ascending_notin x y l : ascending (y :: l) -> name_lt x y -> x ∉ y :: l.
Proof.
  intros Hs Hxy Hx. apply elem_of_cons in Hx as [->|Hx]; [by eapply name_lt_irrefl|].
  eapply (name_lt_irrefl x), name_lt_trans; [done|]. by eapply ascending_below.
Qed.

Lemma elem_of_add_union a : forall b dest x, ascending a -> ascending b ->
  x ∈ add_union dest a b <-> x ∈ dest \/ (x ∈ a /\ x ∈ b).
Proof.
  induction a as [|u a IHa]; [intros b dest x _ _; cbn; rewrite elem_of_nil; tauto|].
  induction b as [|w b IHb]; intros dest x Ha Hb; [rewrite add_union_nil, elem_of_nil; tauto|].
  rewrite add_union_step.
  assert (Ha' : ascending a) by (by destruct (StronglySorted_inv Ha)).
  assert (Hb' : ascending b) by (by destruct (StronglySorted_inv Hb)).
  destruct (strcmp u w) eqn:E.
  - apply strcmp_eq in E as ->. rewrite IHa, elem_of_add_var, !elem_of_cons by done. tauto.
  - rewrite IHa, (elem_of_cons a) by done. pose proof (ascending_notin _ _ _ Hb E). naive_solver.
  - rewrite IHb, (elem_of_cons b) by done. pose proof (ascending_notin _ _ _ Ha (strcmp_gt _ _ E)). naive_solver.
Qed.

(** Without any order only names of both lists are added. *)
Lemma add_union_sound a : forall b dest x, x ∈ add_union dest a b -> x ∈ dest \/ (x ∈ a /\ x ∈ b).
Proof.
  induction a as [|u a IHa]; [intros b dest x; cbn; tauto|].
  induction b as [|w b IHb]; intros dest x; [rewrite add_union_nil; tauto|].
  rewrite add_union_step. destruct (strcmp u w) eqn:E; intros Hx.
  - apply strcmp_eq in E as ->. apply IHa in Hx. rewrite elem_of_add_var in Hx. rewrite !elem_of_cons. naive_solver.
  - apply IHa in Hx. rewrite elem_of_cons. naive_solver.
  - apply IHb in Hx. rewrite (elem_of_cons b). naive_solver.
Qed.

Lemma add_union_ascending a : forall b dest, ascending dest -> ascending (add_union dest a b).
Proof.
  induction a as [|u a IHa]; [done|]. induction b as [|w b IHb]; intros dest Hd; [by rewrite add_union_nil|].
  rewrite add_union_step. destruct (strcmp u w); auto using add_var_ascending.
Qed.

(** ** Trees up to marks *)

Lemma plain_erase src c : plain src (erase c) <-> plain src c.
Proof.
  snode_induction c; cbn [erase plain]; try done; [tauto|]. rewrite IHb, map_map, !Forall_id_map. cbn.
  rewrite Forall_forall in IHbs.
  split; intros [H1 H2]; split; try done; intros rec Hr; by apply IHbs; auto.
Qed.

(** Marks not set, on application nodes and on bindings. *)
Definition unset (b : bool) : nat := if b then 0 else 1.
Fixpoint unmarked (c : snode) : nat :=
  match c with
  | SNODE_APPLICATION _ st l r => unset st + (unmarked l + unmarked r)
  | SNODE_LAMBDA _ _ b => unmarked b
  | SNODE_LETREC _ bs b => sum_list_with (fun rec => unset (lr_strict rec) + unmarked (lr_value rec)) bs + unmarked b
  | _ => 0
  end.

(** The second tree is the first with some more marks, and the flag says
    whether there are any. *)
Definition marks_to (c : snode) (ch : bool) (c' : snode) (ch' : bool) : Prop :=
  erase c' = erase c /\ unmarked c' <= unmarked c /\ (unmarked c' = unmarked c -> c' = c) /\
  ch' = ch || bool_decide (unmarked c' < unmarked c).

Lemma marks_to_refl c ch : marks_to c ch c ch.
Proof. split_and!; try done. rewrite bool_decide_eq_false_2 by lia. by rewrite orb_false_r. Qed.

Ltac flag_cases :=
  repeat (case_bool_decide || match goal with |- context [orb ?b _] => is_var b; destruct b end); cbn; try done; try lia.

Lemma marks_to_trans c0 h0 c1 h1 c2 h2 : marks_to c0 h0 c1 h1 -> marks_to c1 h1 c2 h2 -> marks_to c0 h0 c2 h2.
Proof.
  intros (E1 & L1 & Q1 & ->) (E2 & L2 & Q2 & ->). split_and!; [congruence | lia | |flag_cases].
  intros Hu. rewrite Q2 by lia. apply Q1. lia.
Qed.

Lemma marks_to_l sl st l ch l' ch' r :
  marks_to l ch l' ch' -> marks_to (SNODE_APPLICATION sl st l r) ch (SNODE_APPLICATION sl st l' r) ch'.
Proof.
  intros (E & L & Q & ->). split_and!; cbn; [by rewrite E | lia | intros Hu; rewrite Q by lia; done | flag_cases].
Qed.

Lemma marks_to_r sl st r ch r' ch' l :
  marks_to r ch r' ch' -> marks_to (SNODE_APPLICATION sl st l r) ch (SNODE_APPLICATION sl st l r') ch'.
Proof.
  intros (E & L & Q & ->). split_and!; cbn; [by rewrite E | lia | intros Hu; rewrite Q by lia; done | flag_cases].
Qed.

Lemma marks_to_mark sl st l r ch : marks_to (SNODE_APPLICATION sl st l r) ch (SNODE_APPLICATION sl true l r) (ch || negb st).
Proof. split_and!; [done | | |]; destruct st; cbn; try done; try lia; flag_cases. Qed.

(** Bindings with more marks. *)
Definition unmarked_bs (bs : list letrec) : nat :=
  sum_list_with (fun rec => unset (lr_strict rec) + unmarked (lr_value rec)) bs.
Definition erase_bs (bs : list letrec) : list letrec :=
  map (fun rec => Letrec (lr_name rec) (erase (lr_value rec)) false) bs.
Definition bs_marks_to (bs : list letrec) (ch : bool) (bs' : list letrec) (ch' : bool) : Prop :=
  erase_bs bs' = erase_bs bs /\ unmarked_bs bs' <= unmarked_bs bs /\ (unmarked_bs bs' = unmarked_bs bs -> bs' = bs) /\
  ch' = ch || bool_decide (unmarked_bs bs' < unmarked_bs bs).

Lemma bs_marks_to_refl bs ch : bs_marks_to bs ch bs ch.
Proof. split_and!; try done. rewrite bool_decide_eq_false_2 by lia. by rewrite orb_false_r. Qed.

Lemma bs_marks_to_trans c0 h0 c1 h1 c2 h2 : bs_marks_to c0 h0 c1 h1 -> bs_marks_to c1 h1 c2 h2 -> bs_marks_to c0 h0 c2 h2.
Proof.
  intros (E1 & L1 & Q1 & ->) (E2 & L2 & Q2 & ->). split_and!; [congruence | lia | |flag_cases].
  intros Hu. rewrite Q2 by lia. apply Q1. lia.
Qed.

Lemma bs_marks_to_cons rec v ch ch1 bs bs' ch' :
  marks_to (lr_value rec) ch v ch1 -> bs_marks_to bs ch1 bs' ch' ->
  bs_marks_to (rec :: bs) ch (set_value v rec :: bs') ch'.
Proof.
  intros (E & L & Q & ->) (E2 & L2 & Q2 & ->). unfold bs_marks_to, unmarked_bs, erase_bs in *.
  cbn [map sum_list_with lr_name lr_value lr_strict set_value] in *. split_and!; [congruence | lia | | flag_cases].
  intros Hu. rewrite Q, Q2 by lia. by destruct rec.
Qed.

Lemma marks_to_letrec sl bs b ch bs' ch1 b' ch' :
  bs_marks_to bs ch bs' ch1 -> marks_to b ch1 b' ch' -> marks_to (SNODE_LETREC sl bs b) ch (SNODE_LETREC sl bs' b') ch'.
Proof.
  intros (E & L & Q & ->) (E2 & L2 & Q2 & ->). unfold marks_to, unmarked_bs, erase_bs in *.
  cbn [erase unmarked]. split_and!; [congruence | lia | | flag_cases].
  intros Hu. rewrite Q, Q2 by lia. done.
Qed.

(** ** One expression *)

(** Every live function has its table of strict arguments. *)
Definition strict_ready (src : source) : Prop := forall p, p ∈ src_scombs src ->
  exists sc st, src_heap src !! p = Some sc /\ sc_strictin sc = Some st /\ length st = sc_nargs sc.

Section check.
Context (src : source) (bif_sem : nat -> list value -> list clo -> value + clo -> Prop).
#[local] Abbreviation P := (code_of src).
#[local] Abbreviation ev := (eval P bif_sem).

(** The tables only name arguments every call evaluates. *)
Definition flags_sound : Prop := forall p sc st i, src_heap src !! p = Some sc -> sc_strictin sc = Some st ->
  st !! i = Some true -> strict_in P bif_sem (FSc p) i.

(** A mark on an argument of a call with all its arguments: evaluating the call
    evaluates the argument. *)
Definition call_marks (c : snode) : Prop := forall h n a rho v,
  fn_of (spine_head c) = Some h -> arity P h = Some n -> count_args c = n ->
  (a, true) ∈ spine_strict c -> ev rho (erase c) v -> exists v', ev rho (erase a) v'.

(** A mark on a binding: evaluating the letrec evaluates the binding. *)
Definition rec_marks (bs : list letrec) (b : snode) : Prop := forall rho v rec,
  ev (ERec (erase_bs bs) rho) (erase b) v -> rec ∈ bs -> lr_strict rec = true ->
  exists v', ev (ERec (erase_bs bs) rho) (erase (lr_value rec)) v'.

Fixpoint sound_marks (c : snode) : Prop :=
  match c with
  | SNODE_APPLICATION _ _ l r => call_marks c /\ sound_marks l /\ sound_marks r
  | SNODE_LAMBDA _ _ b => sound_marks b
  | SNODE_LETREC _ bs b =>
      rec_marks bs b /\ Forall id (map (fun rec => sound_marks (lr_value rec)) bs) /\ sound_marks b
  | _ => True
  end.

Definition sound_use (c : snode) (used used' : list string) : Prop :=
  forall x, x ∈ used' -> x ∈ used \/ demands P bif_sem (erase c) x.

Record check_post (c : snode) (used : list string) (ch : bool) (c' : snode) (used' : list string) (ch' : bool) : Prop := {
  cp_marks : marks_to c ch c' ch';
  cp_asc : ascending used -> ascending used';
  cp_sound : flags_sound -> sound_marks c -> sound_marks c' /\ sound_use c used used'
}.

Definition checks_to (c : snode) (used : list string) (ch : bool) (r : outcome checked) : Prop :=
  exists c' used' ch', r = Done (c', used', ch') /\ check_post c used ch c' used' ch'.

Definition checkable (c : snode) : Prop := plain src c /\ NoDup (binders c).

Lemma checkable_erase c c' : erase c' = erase c -> checkable c -> checkable c'.
Proof.
  intros E [Hp Hn]. split.
  - apply plain_erase. rewrite E. by apply plain_erase.
  - rewrite <- binders_erase, E, binders_erase. done.
Qed.

Lemma checkable_app sl st l r : checkable (SNODE_APPLICATION sl st l r) -> checkable l /\ checkable r.
Proof. intros [[H1 H2] Hn]. cbn in Hn. apply list.NoDup_app in Hn as (? & ? & ?). done. Qed.

Lemma checkable_letrec sl bs b : checkable (SNODE_LETREC sl bs b) ->
  NoDup (map lr_name bs) /\ checkable b /\ forall rec, rec ∈ bs -> checkable (lr_value rec).
Proof.
  intros [[Hv Hb] Hn]. cbn in Hn. rewrite Forall_id_map in Hv.
  apply list.NoDup_app in Hn as (Hn1 & _ & Hn). apply list.NoDup_app in Hn as (Hn2 & _ & Hn3).
  split_and!; [done | by split |]. intros rec Hr. split; [auto|].
  clear -Hn2 Hr. induction Hr as [|r rec bs Hr IH]; cbn in Hn2; apply list.NoDup_app in Hn2 as (? & ? & ?); auto.
Qed.

(** *** Functions *)

Hypothesis Hready : strict_ready src.

Lemma fun_nargs_ok h : plain src h -> is_known h = true ->
  exists n fn, fun_nargs src h = Done n /\ fn_of h = Some fn /\ arity P fn = Some n /\
    forall i, i < n -> exists b, fun_strictin src h i = Done b /\ (flags_sound -> b = true -> strict_in P bif_sem fn i).
Proof.
  destruct h as [| |sl bif| | |sl p| | |]; try done; intros Hp _.
  - destruct Hp as (b & Hb & _). exists (bi_nargs b), (FBif bif).
    assert (fun_nargs src (SNODE_BUILTIN sl bif) = Done (bi_nargs b)) as En by (unfold fun_nargs; by rewrite Hb).
    split_and!; [done | done | unfold arity; by rewrite Hb |].
    intros i Hi. unfold fun_strictin. rewrite En. cbn [mbind outcome_bind]. rewrite (proj2 (Nat.ltb_lt _ _) Hi), Hb.
    eexists. split; [done|]. intros _ Ht. apply Nat.ltb_lt in Ht. by eapply bif_strict.
  - destruct Hp as (Hp & sc & Hs & _). exists (sc_nargs sc), (FSc p).
    assert (fun_nargs src (SNODE_SCREF sl p) = Done (sc_nargs sc)) as En by (unfold fun_nargs, getsc; by rewrite Hs).
    split_and!; [done | done | unfold arity; by rewrite code_lookup, Hs |].
    intros i Hi. destruct (Hready p Hp) as (sc' & st & Hs' & Hst & Hl). simplify_eq.
    unfold fun_strictin, getsc. rewrite En, Hs. cbn [mbind outcome_bind deref]. rewrite (proj2 (Nat.ltb_lt _ _) Hi), Hst.
    cbn [mbind outcome_bind deref cassert]. destruct (lookup_lt_is_Some_2 st i) as [b Eb]; [lia|]. rewrite Eb.
    exists b. split; [done|]. intros Hf ->. by eapply Hf.
Qed.

(** A spine with too few arguments is left alone. *)
Lemma check_partial c : forall fuel used ch n, plain src (spine_head c) -> is_known (spine_head c) = true ->
  fun_nargs src (spine_head c) = Done n -> count_args c < n -> count_args c < fuel ->
  check_strictness_r fuel src c used ch = Done (c, used, ch).
Proof.
  induction c as [sl st l IHl r _|sl x b _|sl bif|sl x|sl bs b _|sl p|sl|sl num|sl s];
    intros [|fuel] used ch n Hp Hk Hn Hlt Hf; try (cbn in Hlt, Hf; lia); try done.
  cbn [spine_head count_args] in *. cbn [check_strictness_r]. unfold check_application. cbn [spine_head].
  unfold is_saturated. rewrite Hk, Hn. cbn [mbind outcome_bind count_args].
  rewrite (proj2 (Nat.eqb_neq _ _)) by lia. cbn [mbind outcome_bind]. rewrite (IHl fuel used ch n) by (done || lia). done.
Qed.

(** *** Arguments of a call *)

(** Soundness of a spine from its arguments and its own marks. *)
Lemma spine_sound c : forall h n, fn_of (spine_head c) = Some h -> arity P h = Some n -> count_args c <= n ->
  Forall sound_marks (spine_args c) -> (count_args c = n -> call_marks c) -> sound_marks c.
Proof.
  induction c as [sl st l IHl r _|sl x b _|sl bif|sl x|sl bs b _|sl p|sl|sl num|sl s]; intros h n Hh Hn Hle Ha Hc; try done.
  cbn [spine_head count_args spine_args] in *. apply Forall_cons in Ha as [Hr Ha]. cbn [sound_marks].
  split_and!; [|eapply (IHl h n); try done; lia | done]. destruct (decide (S (count_args l) = n)) as [E|E]; [by apply Hc|].
  intros h' n' a rho v Hh' Hn' Hc' _ _. cbn [spine_head count_args] in *. congruence.
Qed.

Lemma sound_args c : sound_marks c -> Forall sound_marks (spine_args c).
Proof. induction c; cbn; try (by constructor). intros (? & ? & ?). constructor; auto. Qed.

Section marking.
Context (fuel : nat).
Hypothesis IH : forall c used ch, checkable c -> snode_size c <= fuel -> checks_to c used ch (check_strictness_r fuel src c used ch).

Lemma mark_arg_ok strict sl st l r used ch : checkable r -> snode_size r <= fuel ->
  exists r' used' ch', mark_arg (check_strictness_r fuel src) strict st r used ch = Done (r', used', ch') /\
    marks_to (SNODE_APPLICATION sl st l r) ch (SNODE_APPLICATION sl (st || strict) l r') ch' /\ erase r' = erase r /\
    (ascending used -> ascending used') /\
    (flags_sound -> sound_marks r -> sound_marks r' /\
      forall x, x ∈ used' -> x ∈ used \/ (strict = true /\ demands P bif_sem (erase r) x)).
Proof.
  intros Hcr Hsr. destruct strict; cbn [mark_arg].
  - destruct (IH r used (ch || negb st) Hcr Hsr) as (r' & u1 & ch1 & -> & [Hm Ha Hs]).
    eexists _, _, _. split; [reflexivity|]. rewrite orb_true_r. split_and!; [|apply Hm | done |].
    + eapply marks_to_trans; [apply marks_to_mark | by apply marks_to_r].
    + intros Hf Hr. destruct (Hs Hf Hr) as [? Hu]. split; [done|]. intros x Hx. destruct (Hu x Hx); auto.
  - eexists _, _, _. split; [reflexivity|]. rewrite orb_false_r. split_and!; try done; [apply marks_to_refl | auto].
Qed.

Context (h : snode) (fn : fn) (n : nat) (E : env -> Prop).
Hypothesis Hfn : fun_nargs src h = Done n.
Hypothesis Hstrict : forall i, i < n -> exists b, fun_strictin src h i = Done b /\
  (flags_sound -> b = true -> strict_in P bif_sem fn i).

(** In the environments [E] the call is entered with these arguments in
    front. *)
Definition entered (c : snode) : Prop := forall rho, E rho ->
  exists rest v, enter P bif_sem fn (arg_clos rho (erase c) ++ rest) v.

Definition marked_ok (c : snode) : Prop := forall a rho, (a, true) ∈ spine_strict c -> E rho -> exists v, ev rho (erase a) v.

Definition spine_post (c : snode) (used : list string) (ch : bool) (c' : snode) (used' : list string) (ch' : bool) : Prop :=
  marks_to c ch c' ch' /\ (ascending used -> ascending used') /\
  (flags_sound -> entered c -> marked_ok c -> Forall sound_marks (spine_args c) ->
   marked_ok c' /\ Forall sound_marks (spine_args c') /\
   forall x, x ∈ used' -> x ∈ used \/ forall rho, E rho -> var_converges P bif_sem rho x).

Lemma spine_post_refl c used ch : spine_post c used ch c used ch.
Proof. split_and!; [apply marks_to_refl | done | by intros; split_and!; auto]. Qed.

Lemma spine_post_trans c0 u0 h0 c1 u1 h1 c2 u2 h2 :
  spine_post c0 u0 h0 c1 u1 h1 -> spine_post c1 u1 h1 c2 u2 h2 -> spine_post c0 u0 h0 c2 u2 h2.
Proof.
  intros (M1 & A1 & S1) (M2 & A2 & S2). split_and!; [by eapply marks_to_trans | auto |].
  intros Hf He Hm Ha. destruct (S1 Hf He Hm Ha) as (Hm1 & Ha1 & Hu1).
  destruct (S2 Hf) as (Hm2 & Ha2 & Hu2); [|done|done|].
  { intros rho Hrho. destruct (He rho Hrho) as (rest & v & ?). exists rest, v. by rewrite (proj1 M1). }
  split_and!; [done | done |]. intros x Hx. destruct (Hu2 x Hx) as [Hx1|]; [by apply Hu1 | by right].
Qed.

Lemma mark_args_ok c : forall used ch, checkable c -> count_args c <= n -> Forall (fun a => snode_size a <= fuel) (spine_args c) ->
  exists c' used' ch', mark_args src (check_strictness_r fuel src) h c used ch = Done (c', used', ch') /\
    spine_post c used ch c' used' ch'.
Proof.
  induction c as [sl st l IHl r _|sl x b _|sl bif|sl x|sl bs b _|sl p|sl|sl num|sl s]; intros used ch Hc Hn Hsz;
    try (eexists _, _, _; split; [reflexivity | apply spine_post_refl]).
  destruct (checkable_app _ _ _ _ Hc) as [Hcl Hcr]. cbn [spine_args count_args] in *. apply Forall_cons in Hsz as [Hsr Hsl].
  destruct (Hstrict (count_args l)) as (b & Eb & Hb); [lia|]. cbn [mark_args]. rewrite Eb. cbn [mbind outcome_bind].
  destruct (mark_arg_ok b sl st l r used ch Hcr Hsr) as (r' & u1 & ch1 & -> & Hm1 & Er & Ha1 & Hs1).
  cbn [mbind outcome_bind].
  destruct (IHl u1 ch1 Hcl ltac:(lia) Hsl) as (l' & u2 & ch2 & -> & Hm2 & Ha2 & Hs2). cbn [mbind outcome_bind].
  eexists _, _, _. split; [reflexivity|]. split_and!; [|auto|].
  { eapply marks_to_trans; [exact Hm1 | by apply marks_to_l]. }
  intros Hf Hent Hold Hargs. apply Forall_cons in Hargs as [Hsr0 Hsl0].
  assert (Hent_l : entered l). { intros rho Hrho. destruct (Hent rho Hrho) as (rest & v & He).
    cbn [erase] in He. rewrite arg_clos_app, <- app_assoc in He. eauto. }
  destruct (Hs2 Hf Hent_l) as (Hmk & Hsa & Hu2); [intros a rho Ha; apply Hold; by right | done |].
  destruct (Hs1 Hf Hsr0) as [Hsr1 Hu1].
  assert (Hr : b = true -> forall rho, E rho -> exists v, ev rho (erase r) v).
  { intros Hbt rho Hrho. destruct (Hent rho Hrho) as (rest & v & He).
    apply (Hb Hf Hbt _ _ (Clo rho (erase r)) He). cbn [erase]. rewrite arg_clos_app, <- app_assoc.
    rewrite lookup_app_r; rewrite arg_clos_length, count_args_erase; [|lia]. by rewrite Nat.sub_diag. }
  split_and!.
  - intros a rho Ha Hrho. cbn [spine_strict] in Ha. apply elem_of_cons in Ha as [[= -> Est]|Ha]; [|by apply (Hmk a rho)].
    rewrite Er. destruct b; [by apply Hr|]. apply (Hold r rho); [|done]. cbn. rewrite orb_false_r in Est. subst. by left.
  - by constructor.
  - intros x Hx. destruct (Hu2 x Hx) as [Hx1|Hx1]; [|by right]. destruct (Hu1 x Hx1) as [|[Hbt Hd]]; [by left|right].
    intros rho Hrho. destruct (Hr Hbt rho Hrho) as [v Hv]. by eapply Hd.
Qed.

(** The branches of a conditional: one of them is evaluated. *)
Lemma check_if_ok c used ch : fn = FBif B_IF -> count_args c = 3 -> checkable c -> Forall (fun a => snode_size a <= fuel) (spine_args c) ->
  exists c' used' ch', check_if (check_strictness_r fuel src) c used ch = Done (c', used', ch') /\
    spine_post c used ch c' used' ch'.
Proof.
  intros Efn Hn Hc Hsz.
  destruct c as [sl st [sl2 st2 l t| | | | | | | |] f| | | | | | | |]; try (cbn in Hn; lia).
  destruct (checkable_app _ _ _ _ Hc) as [Hcl Hcf]. destruct (checkable_app _ _ _ _ Hcl) as [_ Hct].
  cbn [spine_args] in Hsz. apply Forall_cons in Hsz as [Hsf Hsz]. apply Forall_cons in Hsz as [Hst _]. cbn [check_if].
  destruct (IH t [] ch Hct Hst) as (t' & ut & ch1 & -> & [Mt At St]). cbn [mbind outcome_bind].
  destruct (IH f [] ch1 Hcf Hsf) as (f' & uf & ch2 & -> & [Mf Af Sf]). cbn [mbind outcome_bind].
  eexists _, _, _. split; [reflexivity|]. split_and!.
  - eapply marks_to_trans; [apply marks_to_l, marks_to_r; exact Mt | by apply marks_to_r].
  - apply add_union_ascending.
  - intros Hf Hent Hm Ha. cbn [spine_args] in Ha. apply Forall_cons in Ha as [Haf Ha]. apply Forall_cons in Ha as [Hat Hal].
    destruct (St Hf Hat) as [Hst' Hut]. destruct (Sf Hf Haf) as [Hsf' Huf]. split_and!.
    + intros a rho Hin. cbn [spine_strict] in Hin. rewrite !elem_of_cons in Hin.
      destruct Hin as [[= -> <-]|[[= -> <-]|Hin]].
      * rewrite (proj1 Mf). apply Hm. cbn. by left.
      * rewrite (proj1 Mt). apply Hm. cbn. right. by left.
      * apply Hm. cbn. by do 2 right.
    + cbn [spine_args]. by repeat (constructor; [done|]).
    + intros x Hx. apply add_union_sound in Hx as [|[Hxt Hxf]]; [by left|right]. intros rho Hrho.
      destruct (Hut x Hxt) as [Hx1|Hdt]; [by apply not_elem_of_nil in Hx1|].
      destruct (Huf x Hxf) as [Hx1|Hdf]; [by apply not_elem_of_nil in Hx1|].
      destruct (Hent rho Hrho) as (rest & v & He). rewrite Efn in He. cbn [erase] in He. rewrite !arg_clos_app in He.
      destruct (arg_clos rho (erase l)) as [|a [|]] eqn:El;
        [apply (f_equal length) in El; rewrite arg_clos_length, count_args_erase in El; cbn in Hn, El; lia| |
         apply (f_equal length) in El; rewrite arg_clos_length, count_args_erase in El; cbn in Hn, El; lia].
      cbn in He. inversion He; subst; try done; [by eapply Hdt | by eapply Hdf].
Qed.

(** The second argument of [seq]. *)
Lemma check_seq_ok c used ch : 0 < count_args c -> checkable c -> Forall (fun a => snode_size a <= fuel) (spine_args c) ->
  exists c' used' ch', check_seq (check_strictness_r fuel src) c used ch = Done (c', used', ch') /\
    spine_post c used ch c' used' ch'.
Proof.
  intros Hn Hc Hsz. destruct c as [sl st l a| | | | | | | |]; try (cbn in Hn; lia).
  destruct (checkable_app _ _ _ _ Hc) as [_ Hca]. cbn [spine_args] in Hsz. apply Forall_cons in Hsz as [Hsa _]. cbn [check_seq].
  destruct (IH a [] ch Hca Hsa) as (a' & ua & ch1 & -> & [Ma Aa Sa]). cbn [mbind outcome_bind].
  eexists _, _, _. split; [reflexivity|]. split_and!; [by apply marks_to_r | done |].
  intros Hf Hent Hm Ha. cbn [spine_args] in Ha. apply Forall_cons in Ha as [Haa Ha]. destruct (Sa Hf Haa) as [Hsa' _].
  split_and!; [|by constructor | by left]. intros b rho Hin. cbn [spine_strict] in Hin. rewrite elem_of_cons in Hin.
  destruct Hin as [[= -> <-]|Hin]; [rewrite (proj1 Ma)|]; apply Hm; cbn; [by left | by right].
Qed.
End marking.

(** *** Applications *)

Lemma plain_head c : plain src c -> plain src (spine_head c).
Proof. induction c; cbn; tauto. Qed.

Lemma known_head c c' : erase c' = erase c -> is_known (spine_head c) = true -> spine_head c' = spine_head c.
Proof.
  intros E Hk. apply (f_equal spine_head) in E. rewrite !spine_head_erase in E.
  destruct (spine_head c); try done; destruct (spine_head c'); cbn in E; congruence.
Qed.

Lemma count_args_size c : count_args c < snode_size c.
Proof. induction c; cbn; lia. Qed.

Lemma same_count c c' : erase c' = erase c -> count_args c' = count_args c.
Proof. intros E. by rewrite <- (count_args_erase c'), E, count_args_erase. Qed.

Lemma small_args c c' fuel : erase c' = erase c -> snode_size c <= S fuel -> Forall (fun a => snode_size a <= fuel) (spine_args c').
Proof.
  intros E Hs. eapply Forall_impl; [apply spine_args_size|]. cbn beta. intros a Ha.
  rewrite <- (snode_size_erase c'), E, snode_size_erase in Ha. lia.
Qed.

Lemma fn_of_known h fn : fn_of h = Some fn -> is_known h = true.
Proof. by destruct h. Qed.

Section application.
Context (fuel : nat).
Hypothesis IH : forall c used ch, checkable c -> snode_size c <= fuel -> checks_to c used ch (check_strictness_r fuel src c used ch).

(** A call with all its arguments. *)
Lemma saturated_ok c h fn n used ch :
  checkable c -> snode_size c <= S fuel -> spine_head c = h -> is_known h = true -> fun_nargs src h = Done n ->
  fn_of h = Some fn -> arity P fn = Some n -> count_args c = n -> 0 < n ->
  (forall i, i < n -> exists b, fun_strictin src h i = Done b /\ (flags_sound -> b = true -> strict_in P bif_sem fn i)) ->
  exists c' used' ch', check_call src (check_strictness_r fuel src) h c used ch = Done (c', used', ch') /\
    spine_post fn (fun rho => exists v, ev rho (erase c) v) c used ch c' used' ch'.
Proof.
  intros Hc Hsz Hh Hk Hfn Efn Har Hn Hpos Hst. set (E := fun rho => exists v, ev rho (erase c) v).
  unfold check_call.
  destruct (mark_args_ok fuel IH h fn n E Hst c used ch Hc ltac:(lia) (small_args _ _ _ eq_refl Hsz)) as (c1 & u1 & ch1 & -> & S1).
  cbn [mbind outcome_bind]. pose proof (proj1 (proj1 S1)) as E1.
  assert (exists c2 u2 ch2, check_if_call (check_strictness_r fuel src) h c1 u1 ch1 = Done (c2, u2, ch2) /\
    spine_post fn E c1 u1 ch1 c2 u2 ch2) as (c2 & u2 & ch2 & -> & S2).
  { unfold check_if_call. destruct (is_bif B_IF h) eqn:Eif; [|by eexists _, _, _; split; [reflexivity | apply spine_post_refl]].
    destruct h as [| |sl' bif| | | | | |]; try done. apply Nat.eqb_eq in Eif as ->. injection Efn as <-.
    apply (check_if_ok fuel IH (FBif B_IF)); [done | | by eapply checkable_erase | by eapply small_args].
    rewrite (same_count _ _ E1), Hn. injection Hfn as <-. done. }
  cbn [mbind outcome_bind]. pose proof (spine_post_trans _ _ _ _ _ _ _ _ _ _ _ S1 S2) as S12. pose proof (proj1 (proj1 S12)) as E2.
  unfold check_seq_call. destruct (is_bif B_SEQ h); [|by eexists _, _, _; split; [reflexivity | exact S12]].
  destruct (check_seq_ok fuel IH fn E c2 u2 ch2) as (c3 & u3 & ch3 & -> & S3);
    [rewrite (same_count _ _ E2); lia | by eapply checkable_erase | by eapply small_args |].
  eexists _, _, _. split; [reflexivity|]. by eapply spine_post_trans.
Qed.

Lemma saturated_check sl st l r used ch h fn n :
  let c := SNODE_APPLICATION sl st l r in
  checkable c -> snode_size c <= S fuel -> spine_head c = h -> is_known h = true -> fun_nargs src h = Done n ->
  fn_of h = Some fn -> arity P fn = Some n -> count_args c = n ->
  (forall i, i < n -> exists b, fun_strictin src h i = Done b /\ (flags_sound -> b = true -> strict_in P bif_sem fn i)) ->
  checks_to c used ch (check_application src (check_strictness_r fuel src) c used ch).
Proof.
  intros c Hc Hsz Hh Hk Hfn Efn Har Hn Hst. unfold check_application, is_saturated. rewrite Hh, Hk, Hfn. cbn [mbind outcome_bind].
  rewrite (proj2 (Nat.eqb_eq _ _) Hn).
  destruct (saturated_ok c h fn n used ch Hc Hsz Hh Hk Hfn Efn Har Hn) as (c' & u' & ch' & -> & (Hm & Ha & Hs)).
  { rewrite <- Hn. cbn. lia. }
  { done. }
  cbn [mbind outcome_bind]. pose proof (proj1 Hm) as E'.
  assert (Hk0 : is_known (spine_head c) = true) by (by rewrite Hh).
  pose proof (known_head _ _ E' Hk0) as Hh'. pose proof (same_count _ _ E') as Hn'.
  destruct c' as [sl' st' l' r'| | | | | | | |]; try (cbn in Hn'; lia). cbn [spine_head count_args] in Hh', Hn'.
  rewrite (check_partial l' fuel u' ch' n); first last.
  { pose proof (count_args_size c). unfold c in *. cbn [count_args] in *. lia. }
  { unfold c in *. cbn [count_args] in *. lia. }
  { by rewrite Hh', Hh. }
  { by rewrite Hh'. }
  { rewrite Hh'. apply plain_head, Hc. }
  cbn [mbind outcome_bind]. eexists _, _, _. split; [reflexivity|]. split; [done | done |]. intros Hf Hsm.
  destruct Hs as (Hmk & Hsa & Hu); [done | | | by apply sound_args |].
  - intros rho (v & Hv). exists [], v. rewrite app_nil_r.
    eapply apply_full; [|exact Har | by rewrite arg_clos_length, count_args_erase].
    eapply eval_spine; [by rewrite spine_head_erase, fn_of_erase, Hh | exact Har | rewrite count_args_erase; lia | done].
  - intros a rho Hin (v & Hv). destruct Hsm as [Hcm _].
    apply (Hcm fn n a rho v); [unfold c in Hh; by rewrite Hh | done | done | done | done].
  - split; [|intros x Hx; destruct (Hu x Hx) as [|Hd]; [by left | right; intros rho v Hv; apply Hd; eauto]].
    eapply spine_sound; [cbn [spine_head]; by rewrite Hh', Hh | exact Har | cbn [count_args]; lia | done |].
    intros _ h2 n2 a rho v _ _ _ Hin Hv. apply (Hmk a rho Hin). exists v. by rewrite <- E'.
Qed.

Lemma check_application_ok sl st l r used ch :
  let c := SNODE_APPLICATION sl st l r in
  checkable c -> snode_size c <= S fuel -> checks_to c used ch (check_application src (check_strictness_r fuel src) c used ch).
Proof.
  intros c Hc Hsz.
  assert (Hother : is_saturated src (spine_head c) c = Done false ->
    (forall h n, fn_of (spine_head c) = Some h -> arity P h = Some n -> count_args c <> n) ->
    checks_to c used ch (check_application src (check_strictness_r fuel src) c used ch)).
  { intros Es Hns. unfold check_application. rewrite Es. cbn [mbind outcome_bind]. unfold c.
    destruct (checkable_app _ _ _ _ Hc) as [Hcl _].
    destruct (IH l used ch Hcl) as (l' & u' & ch' & -> & [Hm Ha Hs]); [unfold c in Hsz; cbn in Hsz; lia|].
    cbn [mbind outcome_bind]. eexists _, _, _. split; [reflexivity|]. split; [by apply marks_to_l | done |].
    intros Hf (_ & Hsl & Hsr). destruct (Hs Hf Hsl) as [Hsl' Hu]. split.
    - cbn [sound_marks]. split_and!; [|done|done]. intros h n a rho v Hh Hn Hcn. exfalso. cbn [spine_head count_args] in *.
      apply (Hns h n); [|done|by rewrite (same_count _ _ (proj1 Hm)) in Hcn].
      unfold c. cbn [spine_head]. rewrite <- fn_of_erase, <- spine_head_erase, <- (proj1 Hm), spine_head_erase, fn_of_erase. done.
    - intros x Hx. destruct (Hu x Hx) as [|Hd]; [by left|right]. intros rho v Hv. cbn [erase] in Hv.
      apply eval_left in Hv as [v' Hv']. by eapply Hd. }
  destruct (is_known (spine_head c)) eqn:Hk.
  - destruct (fun_nargs_ok (spine_head c) (plain_head _ (proj1 Hc)) Hk) as (n & fn & Hfn & Efn & Har & Hst).
    destruct (decide (count_args c = n)) as [Hn|Hn].
    + by eapply (saturated_check sl st l r used ch (spine_head c) fn n).
    + apply Hother.
      * unfold is_saturated. rewrite Hk, Hfn. cbn [mbind outcome_bind]. by rewrite (proj2 (Nat.eqb_neq _ _) Hn).
      * intros h n' Hh Hn'. congruence.
  - apply Hother; [unfold is_saturated; by rewrite Hk|]. intros h n Hh. by rewrite (fn_of_known _ _ Hh) in Hk.
Qed.
End application.

(** *** Letrecs *)

Definition sound_values (bs : list letrec) : Prop := forall rec, rec ∈ bs -> sound_marks (lr_value rec).

Lemma find_rec_erase (bs : list letrec) rec : NoDup (map lr_name bs) -> rec ∈ bs ->
  find_rec (erase_bs bs) (lr_name rec) = Some (Letrec (lr_name rec) (erase (lr_value rec)) false).
Proof.
  unfold find_rec. induction bs as [|r bs IH]; intros Hnd Hr; [by apply not_elem_of_nil in Hr|].
  cbn [map] in Hnd. apply NoDup_cons in Hnd as [Hn Hnd]. cbn [erase_bs map List.find lr_name].
  apply elem_of_cons in Hr as [->|Hr]; [by rewrite String.eqb_refl|].
  destruct (String.eqb_spec (lr_name r) (lr_name rec)) as [E|]; [|by apply IH].
  destruct Hn. rewrite E. apply elem_of_map. eauto.
Qed.

Lemma find_rec_none (bs : list letrec) x : x ∉ map lr_name bs -> find_rec (erase_bs bs) x = None.
Proof.
  unfold find_rec. induction bs as [|r bs IH]; cbn; [done|]. rewrite elem_of_cons. intros Hx.
  destruct (String.eqb_spec (lr_name r) x) as [E|]; [destruct Hx; by left | apply IH; intros Hx'; apply Hx; by right].
Qed.

Lemma erase_bs_names (bs : list letrec) : map lr_name (erase_bs bs) = map lr_name bs.
Proof. unfold erase_bs. by rewrite map_map. Qed.

Lemma same_names (bs bs' : list letrec) : erase_bs bs' = erase_bs bs -> map lr_name bs' = map lr_name bs.
Proof. intros E. by rewrite <- (erase_bs_names bs'), E, erase_bs_names. Qed.

Section letrec.
Context (fuel : nat).
Hypothesis IH : forall c used ch, checkable c -> snode_size c <= fuel -> checks_to c used ch (check_strictness_r fuel src c used ch).
Context (ebs : list letrec) (eb : snode).

(** The environments in which the letrec has a value, as seen inside. *)
Definition inside (rho : env) : Prop := exists v, ev (ERec ebs rho) eb v.

Definition strict_evaluated (bs : list letrec) : Prop := forall rho rec, inside rho -> rec ∈ bs -> lr_strict rec = true ->
  exists v, ev (ERec ebs rho) (erase (lr_value rec)) v.
Definition used_evaluated (used : list string) : Prop := forall x rho, x ∈ used -> inside rho -> var_converges P bif_sem (ERec ebs rho) x.

Definition bindings_ready (bs : list letrec) : Prop := forall rec, rec ∈ bs -> checkable (lr_value rec) /\ snode_size (lr_value rec) <= fuel.

Lemma check_bindings_ok bs : forall used ch, bindings_ready bs ->
  exists bs' used' ch', check_bindings (check_strictness_r fuel src) bs used ch = Done (bs', used', ch') /\
    bs_marks_to bs ch bs' ch' /\ map lr_strict bs' = map lr_strict bs /\ (ascending used -> ascending used') /\
    (flags_sound -> sound_values bs -> strict_evaluated bs -> used_evaluated used ->
     sound_values bs' /\ strict_evaluated bs' /\ used_evaluated used').
Proof.
  induction bs as [|rec bs IHbs]; intros used ch Hb.
  { eexists _, _, _. split; [reflexivity|]. split_and!; try done; auto. apply bs_marks_to_refl. }
  destruct (Hb rec (list_elem_of_here _ _)) as [Hc Hsz]. cbn [check_bindings].
  assert (exists v u1 ch1, (if lr_strict rec then '(v, used, changed) ← check_strictness_r fuel src (lr_value rec) used ch;
      Done (set_value v rec, used, changed) else Done (rec, used, ch)) = Done (set_value v rec, u1, ch1) /\
    marks_to (lr_value rec) ch v ch1 /\ (ascending used -> ascending u1) /\
    (flags_sound -> sound_marks (lr_value rec) -> strict_evaluated (rec :: bs) -> used_evaluated used ->
     sound_marks v /\ used_evaluated u1)) as (v & u1 & ch1 & -> & Hm1 & Ha1 & Hs1).
  { destruct (lr_strict rec) eqn:Est; [|exists (lr_value rec), used, ch; destruct rec; split_and!; try done; apply marks_to_refl].
    destruct (IH (lr_value rec) used ch Hc Hsz) as (v & u1 & ch1 & -> & [Hm Ha Hs]). exists v, u1, ch1.
    split_and!; try done. intros Hf Hsv Hst Hu. destruct (Hs Hf Hsv) as [Hsv' Hd]. split; [done|].
    intros x rho Hx Hin. destruct (Hd x Hx) as [Hx'|Hdx]; [by apply Hu|].
    destruct (Hst rho rec Hin (list_elem_of_here _ _) Est) as [w Hw]. by eapply Hdx. }
  cbn [mbind outcome_bind].
  destruct (IHbs u1 ch1) as (bs' & u2 & ch2 & -> & Hm2 & Hst2 & Ha2 & Hs2); [intros r Hr; apply Hb; by right|].
  cbn [mbind outcome_bind]. eexists _, _, _. split; [reflexivity|].
  split_and!; [by eapply bs_marks_to_cons | by cbn; f_equal | auto |].
  intros Hf Hsv Hst Hu. destruct (Hs1 Hf (Hsv rec (list_elem_of_here _ _)) Hst Hu) as [Hsv1 Hu1].
  destruct (Hs2 Hf) as (Hsv2 & Hst2' & Hu2); [intros r Hr; apply Hsv; by right | intros rho r Hin Hr; apply Hst; [done | by right] | done |].
  split_and!; [|  |done].
  - intros r Hr. apply elem_of_cons in Hr as [->|Hr]; [done | by apply Hsv2].
  - intros rho r Hin Hr Hrs. apply elem_of_cons in Hr as [->|Hr]; [|by apply (Hst2' rho r)].
    cbn [set_value lr_value lr_strict] in *. rewrite (proj1 Hm1). apply (Hst rho rec Hin (list_elem_of_here _ _) Hrs).
Qed.

(** Bindings not known to be strict: at most this many more rounds. *)
Definition lazy_count (bs : list letrec) : nat := sum_list_with (fun rec => unset (lr_strict rec)) bs.

Lemma lazy_count_strict bs bs' : map lr_strict bs' = map lr_strict bs -> lazy_count bs' = lazy_count bs.
Proof. revert bs. induction bs' as [|r bs' IH']; intros [|r0 bs]; try done. intros [= E1 E]. unfold lazy_count in *. cbn. rewrite E1. by rewrite (IH' bs E). Qed.

Lemma mark_bindings_ok used bs ch bs' again : mark_bindings used bs = (bs', again) ->
  bs_marks_to bs ch bs' (ch || again) /\ (if again then lazy_count bs' < lazy_count bs else bs' = bs) /\
  lazy_count bs' <= lazy_count bs.
Proof.
  intros [= <- <-]. unfold bs_marks_to, erase_bs, unmarked_bs, lazy_count.
  induction bs as [|rec bs (I1 & I2 & I3)]; cbn.
  { split_and!; try done. }
  destruct I1 as (E & L & Q & C).
  destruct (newly_strict used rec) eqn:En.
  - unfold newly_strict in En. destruct (lr_strict rec) eqn:Est; [done|]. cbn in *.
    split_and!; [by rewrite E | lia | lia | | lia | lia]. rewrite bool_decide_eq_true_2 by lia. by destruct ch.
  - cbn in *. split_and!; [by rewrite E | lia | | | |lia].
    + intros Hu. rewrite Q by lia. done.
    + rewrite C. f_equal. apply bool_decide_ext. lia.
    + destruct (existsb (newly_strict used) bs); [lia | by f_equal].
Qed.

Lemma mark_bindings_sound used bs : erase_bs bs = ebs -> NoDup (map lr_name bs) ->
  sound_values bs -> strict_evaluated bs -> used_evaluated used ->
  sound_values (mark_bindings used bs).1 /\ strict_evaluated (mark_bindings used bs).1.
Proof.
  intros Eb Hnd Hsv Hst Hu. cbn [mark_bindings fst]. split.
  - intros r Hr. apply elem_of_map in Hr as (rec & -> & Hr). destruct (newly_strict used rec); by apply (Hsv rec).
  - intros rho r Hin Hr Hs. apply elem_of_map in Hr as (rec & -> & Hr).
    destruct (newly_strict used rec) eqn:En; [|by apply (Hst rho rec)]. cbn [set_rec_strict lr_value].
    apply andb_true_iff in En as [_ En]. apply list_contains_string_true in En.
    destruct (Hu (lr_name rec) rho En Hin) as (cl & Hl & Hc). cbn [env_lookup] in Hl.
    pose proof (find_rec_erase bs rec Hnd Hr) as Hfr. rewrite Eb in Hfr. rewrite Hfr in Hl. injection Hl as <-. exact Hc.
Qed.

Lemma bindings_ready_erase bs bs' : erase_bs bs' = erase_bs bs -> bindings_ready bs -> bindings_ready bs'.
Proof.
  intros E Hb rec Hr. apply list_elem_of_lookup in Hr as [i Hi].
  assert (erase_bs bs' !! i = Some (Letrec (lr_name rec) (erase (lr_value rec)) false)) as He.
  { unfold erase_bs. rewrite list_lookup_fmap, Hi. done. }
  rewrite E in He. unfold erase_bs in He. rewrite list_lookup_fmap in He.
  destruct (bs !! i) as [r0|] eqn:E0; [|done]. cbn in He. injection He as _ Ev.
  apply list_elem_of_lookup_2 in E0. destruct (Hb r0 E0) as [Hc Hs]. split.
  - by eapply checkable_erase; [symmetry|].
  - rewrite <- (snode_size_erase (lr_value rec)), <- Ev, snode_size_erase. done.
Qed.

Lemma letrec_loop_ok sl rounds : forall bs b used ch, lazy_count bs < rounds -> erase_bs bs = ebs -> erase b = eb ->
  NoDup (map lr_name bs) -> bindings_ready bs -> checkable b -> snode_size b <= fuel ->
  exists bs' b' used' ch', letrec_loop (check_strictness_r fuel src) rounds bs b used ch = Done (bs', b', used', ch') /\
    marks_to (SNODE_LETREC sl bs b) ch (SNODE_LETREC sl bs' b') ch' /\ erase_bs bs' = ebs /\ (ascending used -> ascending used') /\
    (flags_sound -> sound_values bs -> sound_marks b -> strict_evaluated bs -> used_evaluated used ->
     sound_values bs' /\ sound_marks b' /\ strict_evaluated bs' /\ used_evaluated used').
Proof.
  induction rounds as [|rounds IHr]; intros bs b used ch Hlt Ebs Eb Hnd Hbs Hcb Hsb; [lia|]. cbn [letrec_loop].
  destruct (check_bindings_ok bs used ch Hbs) as (bs1 & u1 & ch1 & -> & M1 & St1 & A1 & S1). cbn [mbind outcome_bind].
  destruct (IH b u1 ch1 Hcb Hsb) as (b1 & u2 & ch2 & -> & [M2 A2 S2]). cbn [mbind outcome_bind].
  destruct (mark_bindings u2 bs1) as [bs2 again] eqn:Em.
  destruct (mark_bindings_ok _ _ ch2 _ _ Em) as (M3 & Hag & _). pose proof (proj1 M1) as E1.
  pose proof (proj1 M3) as E3. pose proof (proj1 M2) as E2.
  pose proof (lazy_count_strict _ _ St1) as Hlc.
  assert (Hmarks : marks_to (SNODE_LETREC sl bs b) ch (SNODE_LETREC sl bs2 b1) (ch2 || again)).
  { eapply marks_to_trans; [eapply marks_to_letrec; [exact M1 | exact M2]|].
    eapply marks_to_letrec; [exact M3 | apply marks_to_refl]. }
  assert (Hnd1 : NoDup (map lr_name bs1)) by (by rewrite (same_names _ _ E1)).
  assert (Hsound : flags_sound -> sound_values bs -> sound_marks b -> strict_evaluated bs -> used_evaluated used ->
    sound_values bs2 /\ sound_marks b1 /\ strict_evaluated bs2 /\ used_evaluated u2).
  { intros Hf Hsv Hsm Hst Hu. destruct (S1 Hf Hsv Hst Hu) as (Hsv1 & Hst1 & Hu1). destruct (S2 Hf Hsm) as [Hsm1 Hd].
    assert (used_evaluated u2) as Hu2.
    { intros x rho Hx Hin. destruct (Hd x Hx) as [Hx1|Hdx]; [by apply Hu1|]. destruct Hin as [v Hv].
      rewrite <- Eb in Hv. by eapply Hdx. }
    destruct (mark_bindings_sound u2 bs1) as [Hsv2 Hst2]; try done; [congruence|]. rewrite Em in Hsv2, Hst2. done. }
  destruct again.
  - destruct (IHr bs2 b1 u2 true) as (bs' & b' & u' & ch' & -> & M' & E' & A' & S'); try done.
    + lia.
    + congruence.
    + congruence.
    + by rewrite (same_names _ _ E3).
    + eapply bindings_ready_erase; [|exact Hbs]. congruence.
    + by eapply checkable_erase.
    + rewrite <- (snode_size_erase b1), E2, snode_size_erase. done.
    + eexists _, _, _, _. split; [reflexivity|]. rewrite orb_true_r in Hmarks.
      split_and!; [by eapply marks_to_trans | done | auto | intros Hf ? ? ? ?; apply S'; try done; by apply Hsound].
  - rewrite orb_false_r in Hmarks. eexists _, _, _, _. split; [reflexivity|]. split_and!; [done | congruence | auto | done].
Qed.
End letrec.

Lemma fold_add_var l : forall used x, x ∈ fold_left add_var l used <-> x ∈ used \/ x ∈ l.
Proof.
  induction l as [|y l IHl]; intros used x; cbn; [rewrite elem_of_nil; tauto|].
  rewrite IHl, elem_of_add_var, elem_of_cons. tauto.
Qed.

Lemma fold_add_var_ascending l : forall used, ascending used -> ascending (fold_left add_var l used).
Proof. induction l as [|y l IHl]; intros used Hu; cbn; [done|]. apply IHl. by apply add_var_ascending. Qed.

Lemma lazy_count_length bs : lazy_count bs <= length bs.
Proof. unfold lazy_count. induction bs as [|rec bs IHbs]; cbn; [lia|]. destruct (lr_strict rec); cbn; lia. Qed.

Lemma check_letrec_ok fuel sl bs b used ch :
  (forall c used ch, checkable c -> snode_size c <= fuel -> checks_to c used ch (check_strictness_r fuel src c used ch)) ->
  checkable (SNODE_LETREC sl bs b) -> snode_size (SNODE_LETREC sl bs b) <= S fuel ->
  checks_to (SNODE_LETREC sl bs b) used ch (check_letrec (check_strictness_r fuel src) sl bs b used ch).
Proof.
  intros IH Hc Hsz. destruct (checkable_letrec _ _ _ Hc) as (Hnd & Hcb & Hcv). unfold check_letrec.
  destruct (letrec_loop_ok fuel IH (erase_bs bs) (erase b) sl (S (length bs)) bs b [] ch) as
    (bs' & b' & u & ch' & -> & Hm & E' & Ha & Hs); try done.
  { pose proof (lazy_count_length bs). lia. }
  { intros rec Hr. pose proof (letrec_value_size sl bs b rec Hr). split; [auto | lia]. }
  { cbn in Hsz. lia. }
  cbn [mbind outcome_bind]. eexists _, _, _. split; [reflexivity|].
  pose proof (same_names _ _ E') as En. split; [done | apply fold_add_var_ascending |].
  intros Hf (Hrm & Hsv & Hsb). rewrite Forall_id_map in Hsv.
  destruct (Hs Hf Hsv Hsb) as (Hsv' & Hsb' & Hst' & Hu').
  { intros rho rec [v Hv] Hr Hst. by apply (Hrm rho v rec). }
  { intros x rho Hx. by apply not_elem_of_nil in Hx. }
  split.
  - cbn [sound_marks]. rewrite Forall_id_map. split_and!; try done. intros rho v rec Hv Hr Hst. rewrite E' in *.
    apply (Hst' rho rec); [|done|done]. exists v.
    pose proof (f_equal (fun c => match c with SNODE_LETREC _ _ b => b | _ => c end) (proj1 Hm)) as Eb. cbn in Eb.
    by rewrite <- Eb.
  - intros x Hx. apply fold_add_var in Hx as [Hx|Hx]; [by left|right]. rewrite list_elem_of_In, filter_In in Hx.
    destruct Hx as [Hx Hn]. apply negb_true_iff, list_contains_string_false in Hn. rewrite En in Hn.
    rewrite <- list_elem_of_In in Hx. intros rho v Hv. cbn [erase] in Hv. inversion Hv as [| | | |? ? ? ? Hfn| |]; subst; [done|].
    destruct (Hu' x rho Hx) as (cl & Hl & Hcv'); [by exists v|]. cbn [env_lookup] in Hl.
    rewrite (find_rec_none bs x Hn) in Hl. by exists cl.
Qed.

(** The traversal of an expression ends within as many steps as the expression
    has nodes, and keeps its promises. *)
Lemma check_strictness_r_ok fuel : forall c used ch, checkable c -> snode_size c <= fuel ->
  checks_to c used ch (check_strictness_r fuel src c used ch).
Proof.
  induction fuel as [|fuel IH]; intros c used ch Hc Hsz; [pose proof (snode_size_pos c); lia|].
  destruct c as [sl st l r|sl n b|sl bif|sl n|sl bs b|sl p|sl|sl num|sl s]; cbn [check_strictness_r];
    try (eexists _, _, _; split; [reflexivity|]; split; [apply marks_to_refl | done | by intros; split; [|left]]).
  - by apply check_application_ok.
  - by destruct Hc as [[] _].
  - eexists _, _, _. split; [reflexivity|]. split; [apply marks_to_refl | by apply add_var_ascending |]. intros _ _. split; [done|].
    intros x Hx. apply elem_of_add_var in Hx as [Hx| ->]; [by left|right]. intros rho v Hv. cbn [erase] in Hv.
    inversion Hv as [? ? ? rho' c' ? Hl He| | | |? ? ? ? Hfn| |]; subst; [|done]. exists (Clo rho' c'). split; [done | by exists v].
  - by apply check_letrec_ok.
Qed.
End check.

(** ** The program *)

Lemma sound_marks_code src src' bif_sem c : code_of src' = code_of src -> sound_marks src bif_sem c -> sound_marks src' bif_sem c.
Proof.
  intros E. snode_induction c; cbn [sound_marks]; try done.
  - intros (Hc & Hl & Hr). split_and!; auto. unfold call_marks. by rewrite E.
  - intros (Hc & Hv & Hb). rewrite Forall_id_map in Hv |- *. rewrite Forall_forall in IHbs. split_and!; auto.
    unfold rec_marks. by rewrite E.
Qed.

(** Flags and marks of a supercombinator not set. *)
Definition sc_unset (sc : scomb) : nat :=
  match sc_body sc with Some b => unmarked b | None => 0 end +
  match sc_strictin sc with Some st => sum_list_with unset st | None => 0 end.
Definition prog_unset (src : source) : nat := sum_list_with sc_unset (src_heap src).

Lemma sum_list_alter {A} (g : A -> nat) (f : A -> A) (l : list A) i x :
  l !! i = Some x -> sum_list_with g (alter f i l) + g x = sum_list_with g l + g (f x).
Proof.
  revert i. induction l as [|y l IH]; intros [|i] H; try done.
  - injection H as ->. cbn. lia.
  - specialize (IH i H). change (alter f (S i) (y :: l)) with (y :: alter f i l). cbn [sum_list_with]. lia.
Qed.

(** A supercombinator the analysis can work on. *)
Definition sc_analysable (fuel : nat) (src : source) (p : nat) : Prop :=
  exists sc body st, src_heap src !! p = Some sc /\ sc_body sc = Some body /\ checkable src body /\
    NoDup (sc_argnames sc) /\ snode_size body <= fuel /\ sc_strictin sc = Some st /\ length st = sc_nargs sc.
Definition analysable (fuel : nat) (src : source) : Prop := forall p, p ∈ src_scombs src -> sc_analysable fuel src p.

Lemma analysable_ready fuel src : analysable fuel src -> strict_ready src.
Proof. intros H p Hp. destruct (H p Hp) as (sc & body & st & ? & _ & _ & _ & _ & ? & ?). eauto. Qed.

(** Everything the tables and the marks say is true. *)
Definition program_sound (bif_sem : nat -> list value -> list clo -> value + clo -> Prop) (src : source) : Prop :=
  flags_sound src bif_sem /\
  forall p sc body, p ∈ src_scombs src -> src_heap src !! p = Some sc -> sc_body sc = Some body -> sound_marks src bif_sem body.

(** From one state of the program to another with more flags set. *)
Record refines (fuel : nat) (src : source) (ch : bool) (src' : source) (ch' : bool) : Prop := {
  rf_code : code_of src' = code_of src;
  rf_scombs : src_scombs src' = src_scombs src;
  rf_analysable : analysable fuel src';
  rf_le : prog_unset src' <= prog_unset src;
  rf_same : prog_unset src' = prog_unset src -> src' = src;
  rf_flag : ch' = ch || bool_decide (prog_unset src' < prog_unset src);
  rf_sound : forall bif_sem, program_sound bif_sem src -> program_sound bif_sem src'
}.

Lemma refines_refl fuel src ch : analysable fuel src -> refines fuel src ch src ch.
Proof. intros H. split; try done. rewrite bool_decide_eq_false_2 by lia. by rewrite orb_false_r. Qed.

Lemma refines_trans fuel s0 h0 s1 h1 s2 h2 : refines fuel s0 h0 s1 h1 -> refines fuel s1 h1 s2 h2 -> refines fuel s0 h0 s2 h2.
Proof.
  intros [C1 S1 _ L1 Q1 F1 P1] [C2 S2 A2 L2 Q2 F2 P2]. split; [congruence | congruence | done | lia | | |auto].
  - intros Hu. rewrite Q2 by lia. apply Q1. lia.
  - subst. flag_cases.
Qed.

Lemma same_sigs_code src src' : src_scombs src' = src_scombs src -> code_of src' = code_of src -> same_sigs src src'.
Proof.
  intros Es Ec q sc Hq Hh. split; [by rewrite Es|]. pose proof (code_lookup src' q) as H'. rewrite Ec, code_lookup, Hh in H'.
  destruct (src_heap src' !! q) as [sc'|]; [|done]. injection H' as Ea _. exists sc'. split; [done|]. unfold sc_nargs. by rewrite Ea.
Qed.

(** The new table of a supercombinator. *)
Definition join_flags (used : list string) (old : list bool) (names : list string) : list bool :=
  zip_with (fun st x => st || list_contains_string used x) old names.

Lemma join_flags_unset used old : forall names, length old = length names ->
  sum_list_with unset (join_flags used old names) <= sum_list_with unset old /\
  (sum_list_with unset (join_flags used old names) = sum_list_with unset old -> join_flags used old names = old).
Proof.
  unfold join_flags. induction old as [|st old IH]; intros [|x names] Hl; cbn in *; try done.
  destruct (IH names ltac:(lia)) as [H1 H2]. destruct st; cbn; [split; [done | intros; f_equal; auto]|].
  destruct (list_contains_string used x); cbn; (split; [lia|]); [lia|]. intros Hs. f_equal. apply H2. lia.
Qed.

Lemma join_flags_lookup used old names i : join_flags used old names !! i = Some true ->
  old !! i = Some true \/ exists x, names !! i = Some x /\ x ∈ used.
Proof.
  unfold join_flags. rewrite lookup_zip_with. intros (st & Est & Ex)%bind_Some.
  apply bind_Some in Ex as (y & Ey & [= E]).
  destruct st; [by left|right]. exists y. split; [done|]. by apply list_contains_string_true.
Qed.

Lemma bind_args_lookup xs : forall args i x cl, NoDup xs -> xs !! i = Some x -> args !! i = Some cl ->
  env_lookup (bind_args xs args) x = Some cl.
Proof.
  induction xs as [|y xs IH]; intros args i x cl Hnd Hx Ha; [done|]. apply NoDup_cons in Hnd as [Hy Hnd].
  destruct args as [|a args]; [by destruct i|]. cbn [bind_args env_lookup].
  destruct i as [|i]; [injection Hx as ->; injection Ha as ->; by rewrite String.eqb_refl|].
  destruct (String.eqb_spec y x) as [->|]; [|by eapply (IH args i)].
  destruct Hy. by eapply list_elem_of_lookup_2.
Qed.

(** *** One supercombinator *)

Section step_facts.
Context (fuel : nat) (src : source) (p : nat) (sc : scomb) (body body' : snode) (used : list string) (old : list bool).
Hypothesis Ha : analysable fuel src.
Hypothesis Hp : p ∈ src_scombs src.
Hypothesis Hsc : src_heap src !! p = Some sc.
Hypothesis Hbody : sc_body sc = Some body.
Hypothesis Hold : sc_strictin sc = Some old.
Hypothesis Hlen : length old = sc_nargs sc.
Hypothesis Herase : erase body' = erase body.

Let flags := join_flags used old (sc_argnames sc).
Let f := fun sc => set_strictin (Some flags) (sc_lazyin sc) (set_body body' sc).
Let src' := upd src p f.

Lemma step_lookup q : src_heap src' !! q = (if decide (q = p) then Some (f sc) else src_heap src !! q).
Proof.
  cbn. destruct (decide (q = p)) as [->|]; [by rewrite list_lookup_alter_eq, Hsc | by rewrite list_lookup_alter_ne].
Qed.

Lemma step_code : code_of src' = code_of src.
Proof.
  apply list_eq. intros q. rewrite !code_lookup, step_lookup. case_decide; [|done]. subst q. rewrite Hsc. unfold f. cbn.
  rewrite Hbody. cbn. by rewrite Herase.
Qed.

Lemma step_flags_length : length flags = sc_nargs sc.
Proof. unfold flags, join_flags. rewrite length_zip_with, Hlen. unfold sc_nargs. lia. Qed.

Lemma step_analysable : analysable fuel src'.
Proof.
  assert (same_sigs src src') as Hs by (by apply same_sigs_code; [|apply step_code]).
  intros q Hq. destruct (Ha q Hq) as (s & b & st & Hq' & Hb & Hc & Hn & Hz & Hst & Hl). unfold sc_analysable.
  rewrite step_lookup. case_decide as Hd.
  - subst q. assert (s = sc) as -> by congruence. assert (b = body) as -> by congruence.
    eexists _, body', flags. split; [reflexivity|]. split_and!; try done.
    + destruct (checkable_erase src _ _ Herase Hc) as [? ?]. split; [by eapply plain_sigs | done].
    + rewrite <- snode_size_erase, Herase, snode_size_erase. done.
    + apply step_flags_length.
  - exists s, b, st. split_and!; try done. destruct Hc. split; [by eapply plain_sigs | done].
Qed.

Lemma step_unset : prog_unset src' + (unmarked body + sum_list_with unset old) =
  prog_unset src + (unmarked body' + sum_list_with unset flags).
Proof.
  unfold prog_unset. pose proof (sum_list_alter sc_unset f (src_heap src) p sc Hsc) as H.
  unfold sc_unset at 2 4 in H. cbn in H. rewrite Hbody, Hold in H. exact H.
Qed.

Lemma step_sound bif_sem : program_sound bif_sem src ->
  sound_marks src bif_sem body' -> sound_use src bif_sem body [] used -> NoDup (sc_argnames sc) ->
  program_sound bif_sem src'.
Proof.
  intros [Hf Hm] Hb Hu Hnd. pose proof step_code as Ec. split.
  - intros q s st i Hq Hst Hi. rewrite step_lookup in Hq. rewrite Ec. case_decide as Hd; [|by eapply Hf].
    subst q. injection Hq as <-. cbn in Hst. injection Hst as <-.
    destruct (join_flags_lookup _ _ _ _ Hi) as [Ho|(x & Hx & Hxu)]; [by eapply Hf|].
    intros args v cl He Hcl. inversion He as [p' xs b args' v' HP Hev| | | | |]; subst.
    rewrite code_lookup, Hsc in HP. cbn in HP. rewrite Hbody in HP. injection HP as <- <-.
    destruct (Hu x Hxu) as [Hn|Hd]; [by apply not_elem_of_nil in Hn|].
    destruct (Hd _ _ Hev) as (cl' & Hl & Hc). by rewrite (bind_args_lookup _ _ i x cl Hnd Hx Hcl) in Hl; simplify_eq.
  - intros q s b Hq Hs Hb'. rewrite step_lookup in Hs. apply (sound_marks_code src); [done|]. case_decide as Hd.
    + injection Hs as <-. cbn in Hb'. by injection Hb' as <-.
    + by eapply Hm.
Qed.

Lemma step_same : unmarked body' = unmarked body -> sum_list_with unset flags = sum_list_with unset old ->
  (unmarked body' = unmarked body -> body' = body) -> src' = src.
Proof.
  intros Hu Hs Hq. destruct (join_flags_unset used old (sc_argnames sc) Hlen) as [_ Hj].
  assert (f sc = sc) as Ef.
  { unfold f, flags. rewrite (Hj Hs), (Hq Hu). destruct sc; cbn in *. by subst. }
  assert (alter f p (src_heap src) = src_heap src) as Eh.
  { apply list_eq. intros i. destruct (decide (i = p)) as [->|].
    - rewrite list_lookup_alter_eq, Hsc. cbn [fmap option_fmap option_map]. by rewrite Ef.
    - by rewrite list_lookup_alter_ne. }
  unfold src', upd. rewrite Eh. by destruct src.
Qed.
End step_facts.

Lemma check_strictness_ok fuel src p ch : analysable fuel src -> p ∈ src_scombs src ->
  exists src' ch', check_strictness fuel src p ch = Done (src', ch') /\ refines fuel src ch src' ch'.
Proof.
  intros Ha Hp. destruct (Ha p Hp) as (sc & body & old & Hsc & Hb & Hc & Hnd & Hz & Hst & Hl).
  unfold check_strictness, getsc. rewrite Hsc. cbn [deref mbind outcome_bind]. rewrite Hb. cbn [deref mbind outcome_bind].
  assert (forall bif_sem, checks_to src bif_sem body [] ch (check_strictness_r fuel src body [] ch)) as Hck.
  { intros bif_sem. apply check_strictness_r_ok; try done. by eapply analysable_ready. }
  destruct (Hck (fun _ _ _ _ => False)) as (body' & used & ch1 & E & [Hm _ _]). rewrite E. cbn [mbind outcome_bind].
  rewrite Hst. cbn [deref mbind outcome_bind]. rewrite (proj2 (Nat.eqb_eq _ _) Hl). cbn [cassert mbind outcome_bind].
  fold (join_flags used old (sc_argnames sc)). set (flags := join_flags used old (sc_argnames sc)).
  eexists _, _. split; [reflexivity|]. destruct Hm as (Her & Hle & Hq & ->).
  pose proof (step_unset src p sc body body' used old Hsc Hb Hst) as Hsum. fold flags in Hsum.
  destruct (join_flags_unset used old (sc_argnames sc) Hl) as [Hjl Hj]. fold flags in Hjl, Hj. split.
  - by apply (step_code src p sc body).
  - done.
  - by apply (step_analysable fuel src p sc body).
  - lia.
  - intros Hu. apply (step_same fuel src p sc body body' used old); try done; fold flags; lia.
  - rewrite <- orb_assoc. f_equal. destruct (decide (sum_list_with unset flags = sum_list_with unset old)) as [Hd|Hd].
    + rewrite (bool_decide_eq_true_2 (old = flags)) by (symmetry; auto). rewrite orb_false_r. apply bool_decide_ext. lia.
    + rewrite (bool_decide_eq_false_2 (old = flags)) by congruence. rewrite orb_true_r, bool_decide_eq_true_2; [done | lia].
  - intros bif_sem Hps. destruct (Hck bif_sem) as (b2 & u2 & ch2 & E2 & [_ _ Hs]). rewrite E in E2. injection E2 as <- <- <-.
    destruct (Hs (proj1 Hps)) as [Hsb Hsu]; [by eapply (proj2 Hps)|]. by apply (step_sound src p sc body).
Qed.

Lemma check_all_ok fuel ps : forall src ch, analysable fuel src -> (forall p, p ∈ ps -> p ∈ src_scombs src) ->
  exists src' ch', check_all fuel src ps ch = Done (src', ch') /\ refines fuel src ch src' ch'.
Proof.
  induction ps as [|p ps IH]; intros src ch Ha Hps; [exists src, ch; split; [done | by apply refines_refl]|]. cbn [check_all].
  destruct (check_strictness_ok fuel src p ch Ha) as (src1 & ch1 & -> & R1); [apply Hps; by left|]. cbn [mbind outcome_bind].
  destruct (IH src1 ch1) as (src2 & ch2 & -> & R2); [apply R1 | intros q Hq; rewrite (rf_scombs _ _ _ _ _ R1); apply Hps; by right |].
  exists src2, ch2. split; [done|]. by eapply refines_trans.
Qed.

(** Every round but the last sets a flag, and the last one does nothing. *)
Lemma strictness_loop_ok fuel rounds : forall src, analysable fuel src -> prog_unset src < rounds ->
  exists src' ch, strictness_loop rounds fuel src = Done src' /\ refines fuel src false src' ch /\
    check_all fuel src' (src_scombs src') false = Done (src', false).
Proof.
  induction rounds as [|rounds IH]; intros src Ha Hlt; [lia|]. cbn [strictness_loop].
  destruct (check_all_ok fuel (src_scombs src) src false Ha) as (src1 & ch1 & E & R1); [done|]. rewrite E. cbn [mbind outcome_bind].
  pose proof (rf_flag _ _ _ _ _ R1) as Hfl. cbn in Hfl. destruct ch1.
  - symmetry in Hfl. apply bool_decide_eq_true in Hfl.
    destruct (IH src1) as (src2 & ch2 & -> & R2 & E2); [apply R1 | lia |].
    exists src2, true. split_and!; [done | | done]. destruct R1, R2. split; try congruence; [done | lia | lia | | auto].
    rewrite bool_decide_eq_true_2; [done | lia].
  - symmetry in Hfl. apply bool_decide_eq_false in Hfl. assert (src1 = src) as ->.
    { apply (rf_same _ _ _ _ _ R1). pose proof (rf_le _ _ _ _ _ R1). lia. }
    by exists src, false.
Qed.

(** *** The first loop *)

(** As [sc_analysable], with a table that may still be missing. *)
Definition sc_ready_for_analysis (fuel : nat) (src : source) (p : nat) : Prop :=
  exists sc body, src_heap src !! p = Some sc /\ sc_body sc = Some body /\ checkable src body /\
    NoDup (sc_argnames sc) /\ snode_size body <= fuel /\
    forall st, sc_strictin sc = Some st -> length st = sc_nargs sc.

Definition init_at (src : source) (ps : list nat) : source := fold_left (fun src p => upd src p init_strictin) ps src.

Lemma init_strictin_idemp sc : init_strictin (init_strictin sc) = init_strictin sc.
Proof. unfold init_strictin at 2 3. destruct (sc_strictin sc) eqn:E; cbn; [|done]. unfold init_strictin. by rewrite E. Qed.

Lemma init_lookup ps : forall src q,
  src_heap (init_at src ps) !! q = (if decide (q ∈ ps) then init_strictin <$> src_heap src !! q else src_heap src !! q) /\
  src_scombs (init_at src ps) = src_scombs src.
Proof.
  unfold init_at. induction ps as [|p ps IH]; intros src q; cbn [fold_left]; [done|].
  destruct (IH (upd src p init_strictin) q) as [-> ->]. split; [|done]. cbn.
  destruct (decide (q = p)) as [->|Hne].
  - rewrite list_lookup_alter_eq, (decide_True (P := p ∈ p :: ps)) by (by left). case_decide; [|done].
    destruct (src_heap src !! p) as [sc|]; cbn; [|done]. by rewrite init_strictin_idemp.
  - rewrite list_lookup_alter_ne by done.
    destruct (decide (q ∈ ps)); [rewrite decide_True by (by right); done|].
    rewrite decide_False; [done|]. rewrite elem_of_cons. naive_solver.
Qed.

Lemma init_all_lookup src q :
  src_heap (init_all src) !! q = (if decide (q ∈ src_scombs src) then init_strictin <$> src_heap src !! q else src_heap src !! q) /\
  src_scombs (init_all src) = src_scombs src.
Proof. exact (init_lookup (src_scombs src) src q). Qed.

Lemma init_fields sc : sc_argnames (init_strictin sc) = sc_argnames sc /\ sc_body (init_strictin sc) = sc_body sc.
Proof. unfold init_strictin. by destruct (sc_strictin sc). Qed.

Lemma init_code src : code_of (init_all src) = code_of src.
Proof.
  apply list_eq. intros q. rewrite !code_lookup, (proj1 (init_all_lookup src q)). case_decide; [|done].
  destruct (src_heap src !! q) as [sc|]; cbn; [|done]. by destruct (init_fields sc) as [-> ->].
Qed.

Lemma init_analysable fuel src : (forall p, p ∈ src_scombs src -> sc_ready_for_analysis fuel src p) -> analysable fuel (init_all src).
Proof.
  intros H p Hp. pose proof (init_all_lookup src p) as [Hl Hs]. rewrite Hs in Hp.
  destruct (H p Hp) as (sc & body & Hsc & Hb & [Hc1 Hc2] & Hnd & Hz & Hst). rewrite decide_True, Hsc in Hl by done. cbn in Hl.
  assert (same_sigs src (init_all src)) as Hsig by (apply same_sigs_code; [exact Hs | apply init_code]).
  destruct (init_fields sc) as [Ea Eb].
  exists (init_strictin sc), body, (match sc_strictin sc with Some st => st | None => replicate (sc_nargs sc) false end).
  unfold sc_nargs in *. rewrite Ea, Eb. split_and!; try done; [by split; [eapply plain_sigs|] | |].
  - unfold init_strictin. by destruct (sc_strictin sc) eqn:E; cbn; rewrite ?E.
  - destruct (sc_strictin sc) as [st|]; [by apply Hst | by rewrite length_replicate].
Qed.

Lemma init_sound bif_sem src : program_sound bif_sem src -> program_sound bif_sem (init_all src).
Proof.
  intros [Hf Hm]. pose proof (fun q => proj1 (init_all_lookup src q)) as Hl. split.
  - intros q s st i Hq Hst Hi. rewrite init_code. rewrite Hl in Hq. case_decide; [|by eapply Hf].
    destruct (src_heap src !! q) as [sc|] eqn:E; cbn in Hq; [|done]. injection Hq as <-. unfold init_strictin in Hst.
    destruct (sc_strictin sc) as [st0|] eqn:E0; [by eapply (Hf q sc)|]. cbn in Hst. injection Hst as <-.
    apply lookup_replicate in Hi as [? _]. done.
  - intros q s b Hq Hs Hb. apply (sound_marks_code src); [apply init_code|].
    assert (q ∈ src_scombs src) as Hq' by (by rewrite <- (proj2 (init_all_lookup src 0))).
    rewrite Hl, decide_True in Hs by done. destruct (src_heap src !! q) as [sc|] eqn:E; cbn in Hs; [|done]. injection Hs as <-.
    destruct (init_fields sc) as [_ Eb]. rewrite Eb in Hb. by eapply Hm.
Qed.

(** ** Results *)

(** [add_union] adds exactly the names in both lists, and keeps the destination
    in ascending order without duplicates. *)
Theorem add_union_spec dest a b :
  ascending dest -> ascending a -> ascending b ->
  ascending (add_union dest a b) /\ forall x, x ∈ add_union dest a b <-> x ∈ dest \/ (x ∈ a /\ x ∈ b).
Proof. intros Hd Ha Hb. split; [by apply add_union_ascending|]. intros x. by apply elem_of_add_union. Qed.

Lemma add_union_spec_witness :
  ascending (add_union ["b"] ["a"; "c"] ["a"; "b"]) /\
  forall x, x ∈ add_union ["b"] ["a"; "c"] ["a"; "b"] <-> x ∈ ["b"] \/ (x ∈ ["a"; "c"] /\ x ∈ ["a"; "b"]).
Proof. apply (add_union_spec ["b"] ["a"; "c"] ["a"; "b"]); repeat constructor. Defined.

(** C18. The strictness analysis of a lifted program returns: no call leaves its
    tables, the traversal of a body and the loop over a letrec end, and the
    iteration over the program ends after at most as many rounds as there are
    flags and marks to set. Only marks and tables have changed, and one more
    round would change nothing. *)
Theorem strictness_terminates rounds fuel src :
  (forall p, p ∈ src_scombs src -> sc_ready_for_analysis fuel src p) -> prog_unset (init_all src) < rounds ->
  exists src', strictness_analysis rounds fuel src = Done src' /\
    code_of src' = code_of src /\ src_scombs src' = src_scombs src /\ strict_ready src' /\
    check_all fuel src' (src_scombs src') false = Done (src', false).
Proof.
  intros H Hr. destruct (strictness_loop_ok fuel rounds (init_all src)) as (src' & ch & E & R & Hfix); [by apply init_analysable | done |].
  exists src'. split_and!; [done | | | eapply analysable_ready, R | done].
  - rewrite (rf_code _ _ _ _ _ R). apply init_code.
  - rewrite (rf_scombs _ _ _ _ _ R). by apply init_all_lookup.
Qed.

(** [f x y = x + y] and [g x y = if x (f y x) y], without any marks. *)
Definition sample_plus : snode :=
  SNODE_APPLICATION nosl false (SNODE_APPLICATION nosl false (SNODE_BUILTIN nosl B_ADD) (SNODE_SYMBOL nosl "x")) (SNODE_SYMBOL nosl "y").
Definition sample_cond : snode :=
  SNODE_APPLICATION nosl false (SNODE_APPLICATION nosl false (SNODE_APPLICATION nosl false (SNODE_BUILTIN nosl B_IF)
    (SNODE_SYMBOL nosl "x"))
    (SNODE_APPLICATION nosl false (SNODE_APPLICATION nosl false (SNODE_SCREF nosl 0) (SNODE_SYMBOL nosl "y")) (SNODE_SYMBOL nosl "x")))
    (SNODE_SYMBOL nosl "y").
Definition sample_program : source :=
  source_of [set_argnames ["x"; "y"] (set_body sample_plus (new_scomb "f" 0));
             set_argnames ["x"; "y"] (set_body sample_cond (new_scomb "g" 1))].

Lemma sample_program_ready p : p ∈ src_scombs sample_program -> sc_ready_for_analysis 20 sample_program p.
Proof.
  assert (forall i, i < 2 -> fun_ok sample_program (SNODE_SCREF nosl i) 0).
  { intros [|[|i]] Hi; [..|lia]; (split; [|eexists; split; [reflexivity | cbn; lia]]); [by left | right; by left]. }
  assert (forall i, (exists b, builtin_info !! i = Some b) -> fun_ok sample_program (SNODE_BUILTIN nosl i) 0) as Hb.
  { intros i [b Hi]. exists b. split; [done | lia]. }
  change (src_scombs sample_program) with [0; 1]. rewrite !elem_of_cons, elem_of_nil.
  intros [->|[->|[]]]; eexists _, _; (split; [reflexivity|]); (split; [reflexivity|]); split_and!; try done;
    try (cbn; lia); try (by apply (bool_decide_unpack (NoDup ["x"; "y"]))); split; cbn [binders sample_plus sample_cond app]; try (by constructor);
    cbn [plain sample_plus sample_cond]; split_and!; try done; try (apply Hb; eexists; reflexivity).
  apply H. lia.
Qed.

Lemma strictness_terminates_witness :
  exists src', strictness_analysis 20 20 sample_program = Done src' /\
    code_of src' = code_of sample_program /\ src_scombs src' = [0; 1] /\ strict_ready src' /\
    check_all 20 src' (src_scombs src') false = Done (src', false).
Proof.
  apply (strictness_terminates 20 20 sample_program).
  - apply sample_program_ready.
  - vm_compute. lia.
Defined.

(** C15. The analysis is sound for every meaning of the built-in functions: if the
    tables and marks of the program are true before (as they are when there
    are none), then afterwards whenever a function is said to be strict in an
    argument, every call of it that has a value evaluates that argument to a
    value, and every marked argument or binding has a value when the expression
    around it has one. *)
Theorem strictness_sound bif_sem rounds fuel src :
  (forall p, p ∈ src_scombs src -> sc_ready_for_analysis fuel src p) -> prog_unset (init_all src) < rounds ->
  program_sound bif_sem src ->
  exists src', strictness_analysis rounds fuel src = Done src' /\
    (forall p sc st i args v cl, src_heap src' !! p = Some sc -> sc_strictin sc = Some st -> st !! i = Some true ->
      enter (code_of src) bif_sem (FSc p) args v -> args !! i = Some cl -> converges (code_of src) bif_sem cl) /\
    (forall p sc body, p ∈ src_scombs src' -> src_heap src' !! p = Some sc -> sc_body sc = Some body ->
      sound_marks src bif_sem body).
Proof.
  intros H Hr Hs. destruct (strictness_loop_ok fuel rounds (init_all src)) as (src' & ch & E & R & _); [by apply init_analysable | done |].
  pose proof (rf_code _ _ _ _ _ R) as Ec. rewrite init_code in Ec.
  destruct (rf_sound _ _ _ _ _ R bif_sem) as [Hf Hm]; [by apply init_sound|]. unfold flags_sound, strict_in in Hf. rewrite Ec in Hf.
  exists src'. split_and!; [done | |].
  - intros p sc st i args v cl Hp Hst Hi He Ha. by eapply Hf.
  - intros p sc body Hp Hsc Hb. apply (sound_marks_code src'); [done|]. by eapply Hm.
Qed.

Lemma sample_program_sound bif_sem : program_sound bif_sem sample_program.
Proof.
  split.
  - intros [|[|p]] sc st i Hp Hst; cbn in Hp; simplify_eq; done.
  - intros [|[|p]] sc body _ Hp Hb; cbn in Hp; simplify_eq; cbn in Hb; injection Hb as <-;
      cbn [sound_marks sample_plus sample_cond]; split_and!; try done;
      intros h n a rho v _ _ _ Hin _; cbn [spine_strict] in Hin; rewrite ?elem_of_cons, elem_of_nil in Hin; naive_solver.
Qed.

Lemma strictness_sound_witness : let bif_sem := fun _ _ _ r => r = inl (VNum 0%Z) in
  exists src', strictness_analysis 20 20 sample_program = Done src' /\
    (forall p sc st i args v cl, src_heap src' !! p = Some sc -> sc_strictin sc = Some st -> st !! i = Some true ->
      enter (code_of sample_program) bif_sem (FSc p) args v -> args !! i = Some cl -> converges (code_of sample_program) bif_sem cl) /\
    (forall p sc body, p ∈ src_scombs src' -> src_heap src' !! p = Some sc -> sc_body sc = Some body ->
      sound_marks sample_program bif_sem body).
Proof.
  apply (strictness_sound (fun _ _ _ r => r = inl (VNum 0%Z)) 20 20 sample_program).
  - apply sample_program_ready.
  - vm_compute. lia.
  - apply sample_program_sound.
Defined.

(** What the analysis finds on the sample: both functions are strict in both
    arguments, the second one because both branches use [y]. *)
Example sample_program_strict :
  match strictness_analysis 20 20 sample_program with
  | Done src => map sc_strictin (src_heap src) = [Some [true; true]; Some [true; true]]
  | _ => False
  end.
Proof. vm_compute. reflexivity. Qed.
