(* ===== verification/Reorder.v ===== *)
(** * Letrec reordering (src/nreduce/compiler/reorder.c)

    The bindings of a letrec are put into the order in which a traversal of its
    body needs them, last one first, and those it does not need are dropped.
    The traversal follows a variable into its binding, wherever that is, and
    rewrites the value there: the lists of bindings on the stack [bound] are
    shared with the tree. *)

From S2P Require Import Prelude CString Builtins Util Source Resolve Lifting LiftingFacts LiftingCreate Bytecode StackDiscipline Applift AppliftFacts.

#[local] Set Warnings "-clear-no-such-hyp".

(** ** The stack of bindings

    The top of the stack comes first. The two loops that search it find the
    first binding of the name. *)
Definition find_bound (x : string) (bound : list (list letrec)) : option letrec :=
  List.find (fun rec => String.eqb (lr_name rec) x) (concat bound).

(** The value of that binding after it has been rewritten in place. *)
Fixpoint set_bound1 (x : string) (v : snode) (bs : list letrec) : option (list letrec) :=
  match bs with
  | [] => None
  | rec :: bs =>
      if String.eqb (lr_name rec) x then Some (set_value v rec :: bs)
      else cons rec <$> set_bound1 x v bs
  end.
Fixpoint set_bound (x : string) (v : snode) (bound : list (list letrec)) : list (list letrec) :=
  match bound with
  | [] => []
  | bs :: bound =>
      match set_bound1 x v bs with
      | Some bs => bs :: bound
      | None => bs :: set_bound x v bound
      end
  end.

(** ** The new list of bindings *)

(** The inner loop: the first binding of the name, and the list without it. *)
Fixpoint remove_rec (x : string) (bs : list letrec) : option (letrec * list letrec) :=
  match bs with
  | [] => None
  | rec :: bs =>
      if String.eqb (lr_name rec) x then Some (rec, bs)
      else '(r, bs) ← remove_rec x bs; Some (r, rec :: bs)
  end.

(** The outer loop, over the names used: a name with a binding moves the
    binding and leaves the list. *)
Fixpoint take_used (bs : list letrec) (used : list string) : list letrec * list string :=
  match used with
  | [] => ([], [])
  | x :: used =>
      match remove_rec x bs with
      | Some (rec, bs) => let '(newrecs, used) := take_used bs used in (rec :: newrecs, used)
      | None => let '(newrecs, used) := take_used bs used in (newrecs, x :: used)
      end
  end.

(** ** The traversal

    Returns the tree, the names used and the stack, which has no limit here.
    An abstraction falls through the [switch]. *)
Definition traversed : Type := snode * list string * list (list letrec).

Fixpoint reorder_letrecs_r (fuel : nat) (c : snode) (used : list string) (bound : list (list letrec)) :
    outcome traversed :=
  match fuel with
  | O => Timeout
  | S fuel =>
      match c with
      | SNODE_APPLICATION sl st l r =>
          '(l, used, bound) ← reorder_letrecs_r fuel l used bound;
          '(r, used, bound) ← reorder_letrecs_r fuel r used bound;
          Done (SNODE_APPLICATION sl st l r, used, bound)
      | SNODE_LETREC sl bs b =>
          '(b, used, bound) ← reorder_letrecs_r fuel b used (bs :: bound);
          match bound with
          | bs :: bound =>
              let '(newrecs, used) := take_used bs used in
              Done (SNODE_LETREC sl newrecs b, used, bound)
          | [] => Crash
          end
      | SNODE_SYMBOL sl x =>
          if list_contains_string used x then Done (c, used, bound)
          else
            let used := list_push used x in
            match find_bound x bound with
            | Some rec =>
                '(v, used, bound) ← reorder_letrecs_r fuel (lr_value rec) used bound;
                Done (c, used, set_bound x v bound)
            | None => Done (c, used, bound)
            end
      | SNODE_BUILTIN _ _ | SNODE_SCREF _ _ | SNODE_NIL _ | SNODE_NUMBER _ _ | SNODE_STRING _ _
      | SNODE_LAMBDA _ _ _ => Done (c, used, bound)
      end
  end.

Definition reorder_letrecs (fuel : nat) (c : snode) : outcome snode :=
  '(c, _, _) ← reorder_letrecs_r fuel c [] []; Done c.

(** The loop of [source_process]. *)
Fixpoint reorder_all (fuel : nat) (src : source) (ps : list nat) : outcome source :=
  match ps with
  | [] => Done src
  | p :: ps =>
      sc ← getsc src p;
      body ← deref (sc_body sc);
      body ← reorder_letrecs fuel body;
      reorder_all fuel (upd src p (set_body body)) ps
  end.

(** ** What letrec reordering does

    On trees with distinct names the traversal ends, and each letrec of the
    result has some of its bindings in some order, among them all that are
    used. *)

(** ** Reordered trees *)

(** The bindings kept are enough for the body and for themselves. *)
Definition enough (names : list string) (bs' : list letrec) (b' : snode) : Prop :=
  forall x, x ∈ names -> (free_in x b' \/ exists rec, rec ∈ bs' /\ free_in x (lr_value rec)) -> x ∈ map lr_name bs'.

Fixpoint reordered (c c' : snode) : Prop :=
  match c, c' with
  | SNODE_APPLICATION sl st l r, SNODE_APPLICATION sl' st' l' r' =>
      sl' = sl /\ st' = st /\ reordered l l' /\ reordered r r'
  | SNODE_LETREC sl bs b, SNODE_LETREC sl' bs' b' =>
      sl' = sl /\ reordered b b' /\ map lr_name bs' ⊆+ map lr_name bs /\
      Forall id (map (fun rec => forall rec', rec' ∈ bs' -> lr_name rec' = lr_name rec ->
        lr_strict rec' = lr_strict rec /\ reordered (lr_value rec) (lr_value rec')) bs) /\
      enough (map lr_name bs) bs' b'
  | _, _ => c' = c
  end.

(** Each kept binding comes from one of the letrec. *)
Lemma kept_from (bs bs' : list letrec) rec' : map lr_name bs' ⊆+ map lr_name bs -> rec' ∈ bs' ->
  exists rec, rec ∈ bs /\ lr_name rec' = lr_name rec.
Proof.
  intros Hs Hr. assert (lr_name rec' ∈ map lr_name bs) as (rec & E & Hin)%elem_of_map.
  { eapply elem_of_submseteq; [|exact Hs]. apply elem_of_map. by exists rec'. }
  by exists rec.
Qed.

Lemma reordered_free c : forall c' x, reordered c c' -> free_in x c' -> free_in x c.
Proof.
  snode_induction c; intros c' x Hr Hx; try (cbn in Hr; subst c'; exact Hx).
  - destruct c' as [sl' st' l' r'| | | | | | | |]; try done. destruct Hr as (_ & _ & Hl & Hr).
    destruct Hx as [Hx|Hx]; [left; by eapply IHl | right; by eapply IHr].
  - destruct c' as [| | | |sl' bs' b'| | | |]; try done. destruct Hr as (_ & Hb & Hs & Hv & Hen).
    rewrite Forall_id_map in Hv. rewrite Forall_forall in IHbs.
    apply free_in_letrec in Hx as [Hn Hx]. apply free_in_letrec. split.
    + intros Hin. apply Hn, Hen; [done|]. destruct Hx as [(v & (rec & -> & Hr)%elem_of_map & Hx)|Hx]; eauto.
    + destruct Hx as [(v & (rec' & -> & Hr)%elem_of_map & Hx)|Hx]; [left | right; eauto].
      destruct (kept_from _ _ _ Hs Hr) as (rec & Hin & E). exists (lr_value rec). rewrite elem_of_map.
      split; [by exists rec|]. eapply IHbs; [done| |exact Hx]. by apply Hv.
Qed.

Lemma binders_letrec x sl bs b : x ∈ binders (SNODE_LETREC sl bs b) <->
  x ∈ map lr_name bs \/ (exists rec, rec ∈ bs /\ x ∈ binders (lr_value rec)) \/ x ∈ binders b.
Proof.
  cbn. rewrite !elem_of_app, elem_of_concat. setoid_rewrite elem_of_map. naive_solver.
Qed.

Lemma reordered_binders c : forall c' x, reordered c c' -> x ∈ binders c' -> x ∈ binders c.
Proof.
  snode_induction c; intros c' x Hr Hx; try (cbn in Hr; subst c'; exact Hx).
  - destruct c' as [sl' st' l' r'| | | | | | | |]; try done. destruct Hr as (_ & _ & Hl & Hr). cbn in *.
    rewrite elem_of_app in *. naive_solver.
  - destruct c' as [| | | |sl' bs' b'| | | |]; try done. destruct Hr as (_ & Hb & Hs & Hv & Hen).
    rewrite Forall_id_map in Hv. rewrite Forall_forall in IHbs. rewrite binders_letrec in *.
    destruct Hx as [Hx|[(rec' & Hr & Hx)|Hx]].
    + left. by eapply elem_of_submseteq.
    + right; left. destruct (kept_from _ _ _ Hs Hr) as (rec & Hin & E). exists rec. split; [done|].
      eapply IHbs; [done | | done]. by apply Hv.
    + right; right. by eapply IHb.
Qed.

(** ** The bindings moved *)

Lemma remove_rec_None x bs : remove_rec x bs = None -> x ∉ map lr_name bs.
Proof.
  induction bs as [|r bs IH]; cbn [remove_rec map]; [by intros _ ?%not_elem_of_nil|].
  destruct (String.eqb_spec (lr_name r) x) as [|Hne]; [done|].
  destruct (remove_rec x bs) as [[? ?]|]; [done|]. intros _. rewrite elem_of_cons. naive_solver.
Qed.

Lemma remove_rec_Some x bs rec rest : remove_rec x bs = Some (rec, rest) ->
  lr_name rec = x /\ Permutation bs (rec :: rest).
Proof.
  revert rec rest. induction bs as [|r bs IH]; intros rec rest; cbn [remove_rec]; [done|].
  destruct (String.eqb_spec (lr_name r) x) as [E|Hne]; [by intros [= <- <-]|].
  destruct (remove_rec x bs) as [[r1 bs1]|]; [|done]. cbn. intros [= -> <-].
  destruct (IH rec bs1 eq_refl) as [H1 H2]. split; [done|]. by rewrite H2, Permutation_swap.
Qed.

Lemma take_used_spec used : forall bs newrecs used', take_used bs used = (newrecs, used') ->
  NoDup used -> NoDup (map lr_name bs) ->
  (forall rec, rec ∈ newrecs <-> rec ∈ bs /\ lr_name rec ∈ used) /\
  (forall x, x ∈ used' <-> x ∈ used /\ x ∉ map lr_name bs) /\
  map lr_name newrecs ⊆+ map lr_name bs.
Proof.
  induction used as [|x used IH]; intros bs newrecs used' H Hu Hn; cbn [take_used] in H.
  { injection H as <- <-. split_and!; [..|apply submseteq_nil_l]; intros y; split; try in_nil.
    - by intros [_ ?%not_elem_of_nil].
    - by intros [?%not_elem_of_nil _]. }
  apply list.NoDup_cons in Hu as [Hx Hu]. destruct (remove_rec x bs) as [[rec rest]|] eqn:Er.
  - apply remove_rec_Some in Er as [Hname Hperm]. destruct (take_used rest used) as [new1 used1] eqn:E.
    injection H as <- <-. assert (Permutation (map lr_name bs) (x :: map lr_name rest)) as Hp.
    { rewrite <- Hname. by rewrite Hperm. }
    rewrite Hp in Hn. apply list.NoDup_cons in Hn as [Hxr Hn]. destruct (IH rest new1 used1 E Hu Hn) as (H1 & H2 & H3).
    split_and!.
    + intros r. rewrite elem_of_cons, H1, Hperm, !elem_of_cons.
      assert (r ∈ rest -> lr_name r <> x) as Hr.
      { intros Hr E1. apply Hxr. apply elem_of_map. by exists r. }
      split; [intros [->|[? ?]]; auto|]. intros [[->|Hin] Hd]; [by left | right]. destruct Hd; naive_solver.
    + intros y. rewrite H2, Hp, !elem_of_cons. split; [|tauto]. intros [Hy Hn1]. split; [tauto|].
      intros [->|?]; [done | tauto].
    + rewrite Hp. cbn. rewrite Hname. by apply submseteq_skip.
  - apply remove_rec_None in Er. destruct (take_used bs used) as [new1 used1] eqn:E. injection H as <- <-.
    destruct (IH bs new1 used1 E Hu Hn) as (H1 & H2 & H3). split_and!; [| |done].
    + intros r. rewrite H1, elem_of_cons. split; [tauto|]. intros [Hr [Hd|Hd]]; [|tauto].
      exfalso. apply Er. apply elem_of_map. by exists r.
    + intros y. rewrite !elem_of_cons, H2. naive_solver.
Qed.

Lemma take_used_app n used : forall bs newrecs n2, take_used bs n = (newrecs, n2) ->
  (forall x, x ∈ used -> x ∉ map lr_name bs) -> take_used bs (n ++ used) = (newrecs, n2 ++ used).
Proof.
  induction n as [|x n IH]; intros bs newrecs n2 H Hu; cbn [take_used app] in *.
  - injection H as <- <-. cbn. induction used as [|y used IHu]; [done|]. cbn [take_used].
    destruct (remove_rec y bs) as [[r rest]|] eqn:E.
    + apply remove_rec_Some in E as [E Hp]. exfalso. apply (Hu y ltac:(by left)). rewrite Hp, <- E. by left.
    + rewrite IHu; [done|]. intros z Hz. apply Hu. by right.
  - destruct (remove_rec x bs) as [[r rest]|] eqn:E.
    + apply remove_rec_Some in E as [_ Hp]. destruct (take_used rest n) as [new1 n1] eqn:E1. injection H as <- <-.
      rewrite (IH rest new1 n1 E1); [done|]. intros y Hy Hin. apply (Hu y Hy). rewrite Hp. by right.
    + destruct (take_used bs n) as [new1 n1] eqn:E1. injection H as <- <-. by rewrite (IH bs new1 n1 E1).
Qed.

Lemma take_used_NoDup used : forall bs newrecs n2, take_used bs used = (newrecs, n2) -> NoDup used -> NoDup n2.
Proof.
  intros bs newrecs n2 H Hu. enough (sublist n2 used) by (by eapply sublist_NoDup). revert bs newrecs n2 H.
  induction used as [|x used IH]; intros bs newrecs n2 H; cbn [take_used] in H; [by injection H as <- <-; constructor|].
  apply list.NoDup_cons in Hu as [_ Hu]. destruct (remove_rec x bs) as [[r rest]|].
  - destruct (take_used rest used) as [new1 n1] eqn:E1. injection H as <- <-. apply sublist_cons. by eapply IH.
  - destruct (take_used bs used) as [new1 n1] eqn:E1. injection H as <- <-. apply sublist_skip. by eapply IH.
Qed.

(** ** The stack *)

Definition names_of (bound : list (list letrec)) : list string := map lr_name (concat bound).

(** The values of the bindings in [new] have been rewritten, the others are as
    they were. *)
Definition rec_step (new : list string) (rec rec' : letrec) : Prop :=
  lr_name rec' = lr_name rec /\ lr_strict rec' = lr_strict rec /\
  (lr_name rec ∈ new -> reordered (lr_value rec) (lr_value rec')) /\ (lr_name rec ∉ new -> rec' = rec).
Definition bound_step (new : list string) : list (list letrec) -> list (list letrec) -> Prop :=
  Forall2 (Forall2 (rec_step new)).

Lemma bound_step_concat new F F' : bound_step new F F' -> Forall2 (rec_step new) (concat F) (concat F').
Proof. induction 1; cbn; [done|]. by apply Forall2_app. Qed.

Lemma bound_step_off new F : (forall x, x ∈ new -> x ∉ names_of F) -> bound_step new F F.
Proof.
  intros Hn. apply Forall_Forall2_diag, Forall_forall. intros bs Hbs. apply Forall_Forall2_diag, Forall_forall.
  intros rec Hrec. assert (lr_name rec ∉ new) as Hr; [|by split_and!]. intros Hin. apply (Hn _ Hin). unfold names_of.
  apply elem_of_map. exists rec. split; [done|]. apply elem_of_concat. eauto.
Qed.

Lemma bound_step_nil F : bound_step [] F F.
Proof. apply bound_step_off. in_nil. Qed.

Lemma recs_step_on new new' bs bs' : (forall x, x ∈ map lr_name bs -> x ∈ new <-> x ∈ new') ->
  Forall2 (rec_step new) bs bs' -> Forall2 (rec_step new') bs bs'.
Proof.
  intros Hn H. induction H as [|r r' bs bs' (H1 & H2 & H3 & H4) Hbs IH]; constructor.
  - assert (lr_name r ∈ new <-> lr_name r ∈ new') as Hr by (apply Hn; by left).
    split_and!; [done | done | |]; by rewrite <- Hr.
  - apply IH. intros x Hx. apply Hn. by right.
Qed.

Lemma bound_step_on new new' F F' : (forall x, x ∈ names_of F -> x ∈ new <-> x ∈ new') ->
  bound_step new F F' -> bound_step new' F F'.
Proof.
  intros Hn H. induction H as [|bs bs' F F' Hbs HF IH]; constructor; unfold names_of in Hn; cbn in Hn;
    setoid_rewrite map_app in Hn; setoid_rewrite elem_of_app in Hn.
  - eapply recs_step_on; [|done]. auto.
  - apply IH. auto.
Qed.

Lemma rec_step_trans n1 n2 r0 r1 r2 : (forall x, x ∈ n1 -> x ∉ n2) ->
  rec_step n1 r0 r1 -> rec_step n2 r1 r2 -> rec_step (n2 ++ n1) r0 r2.
Proof.
  intros Hd (E1 & S1 & H1 & K1) (E2 & S2 & H2 & K2). rewrite E1 in *. split_and!; [congruence | congruence | |].
  - intros Hin. destruct (decide (lr_name r0 ∈ n1)) as [Hi|Hi].
    + rewrite (K2 (Hd _ Hi)). by apply H1.
    + rewrite elem_of_app in Hin. destruct Hin as [Hin|]; [|done]. rewrite <- (K1 Hi) at 1. by apply H2.
  - rewrite elem_of_app. intros Hn. rewrite K2, K1; naive_solver.
Qed.

Lemma bound_step_trans n1 n2 F0 F1 F2 : (forall x, x ∈ n1 -> x ∉ n2) ->
  bound_step n1 F0 F1 -> bound_step n2 F1 F2 -> bound_step (n2 ++ n1) F0 F2.
Proof.
  intros Hd H1. revert F2. induction H1 as [|bs0 bs1 F0 F1 Hb HF IH]; intros F2 H2; inversion H2 as [|? bs2 ? F2' Hb2 HF2]; subst;
    [constructor|]. constructor; [|by apply IH]. clear -Hd Hb Hb2. revert bs2 Hb2.
  induction Hb as [|r0 r1 bs0 bs1 Hr Hb IH]; intros bs2 H2; inversion H2; subst; constructor; [|by apply IH].
  by eapply rec_step_trans.
Qed.

Lemma bound_step_names new F F' : bound_step new F F' -> names_of F' = names_of F.
Proof.
  intros H%bound_step_concat. unfold names_of. induction H as [|r r' l l' (E & _) Hl IH]; cbn; congruence.
Qed.

Lemma bound_step_inv new F F' rec' : bound_step new F F' -> rec' ∈ concat F' -> exists rec, rec ∈ concat F /\ rec_step new rec rec'.
Proof.
  intros H%bound_step_concat Hr. apply list_elem_of_lookup in Hr as [i Hi].
  eapply Forall2_lookup_r in H as (rec & H1 & H2); [|exact Hi]. exists rec. split; [|done]. by eapply list_elem_of_lookup_2.
Qed.

Lemma find_bound_Some x F rec : find_bound x F = Some rec -> rec ∈ concat F /\ lr_name rec = x.
Proof.
  unfold find_bound. intros [H1 H2]%find_some. split; [by apply list_elem_of_In | by apply String.eqb_eq].
Qed.

Lemma find_bound_None x F : find_bound x F = None -> x ∉ names_of F.
Proof.
  unfold find_bound, names_of. intros H (rec & -> & Hr%list_elem_of_In)%elem_of_map.
  apply (find_none _ _ H) in Hr. by rewrite String.eqb_refl in Hr.
Qed.

(** A name on the stack has one binding. *)
Lemma same_name F rec1 rec2 : NoDup (names_of F) -> rec1 ∈ concat F -> rec2 ∈ concat F ->
  lr_name rec1 = lr_name rec2 -> rec1 = rec2.
Proof.
  unfold names_of. generalize (concat F) as l. induction l as [|r l IH]; intros Hn H1 H2 E; [by apply not_elem_of_nil in H1|].
  cbn in Hn. apply list.NoDup_cons in Hn as [Hr Hn]. rewrite elem_of_map in Hr.
  apply elem_of_cons in H1 as [->|H1]; apply elem_of_cons in H2 as [->|H2]; [done | | | by apply IH].
  - destruct Hr. eauto.
  - destruct Hr. eauto.
Qed.

Lemma rec_step_refl new rec : lr_name rec ∉ new -> rec_step new rec rec.
Proof. intros H. by split_and!. Qed.

(** With distinct names the update changes the one binding of the name. *)
Definition put_value (x : string) (v : snode) (rec : letrec) : letrec :=
  if String.eqb (lr_name rec) x then set_value v rec else rec.

Lemma put_value_other x v (bs : list letrec) : x ∉ map lr_name bs -> map (put_value x v) bs = bs.
Proof.
  intros Hx. rewrite <- (map_id bs) at 2. apply map_ext_in. intros rec Hr%list_elem_of_In. unfold put_value.
  destruct (String.eqb_spec (lr_name rec) x) as [E|]; [|done]. destruct Hx. apply elem_of_map. by exists rec.
Qed.

Lemma set_bound1_map x v bs : NoDup (map lr_name bs) ->
  match set_bound1 x v bs with
  | Some bs' => x ∈ map lr_name bs /\ bs' = map (put_value x v) bs
  | None => x ∉ map lr_name bs
  end.
Proof.
  induction bs as [|r bs IH]; cbn [map set_bound1]; [intros _; apply not_elem_of_nil|].
  intros [Hr Hn]%list.NoDup_cons. unfold put_value at 1. destruct (String.eqb_spec (lr_name r) x) as [E|Hne].
  - split; [rewrite <- E; by left|]. f_equal. rewrite E in Hr. by rewrite put_value_other.
  - specialize (IH Hn). destruct (set_bound1 x v bs) as [bs'|]; cbn [fmap option_fmap option_map].
    + destruct IH as [H1 ->]. split; [by right | done].
    + intros [Ex|Hin]%elem_of_cons; [by apply Hne | done].
Qed.

Lemma set_bound_map x v F : NoDup (names_of F) -> set_bound x v F = map (map (put_value x v)) F.
Proof.
  induction F as [|bs F IH]; intros Hn; cbn [set_bound map]; [done|].
  unfold names_of in Hn. cbn [concat] in Hn. rewrite map_app in Hn. apply list.NoDup_app in Hn as (Hn1 & Hd & Hn2).
  pose proof (set_bound1_map x v bs Hn1) as H1. destruct (set_bound1 x v bs) as [bs'|].
  - destruct H1 as [Hx ->]. f_equal. rewrite <- IH by done. symmetry. rewrite IH by done.
    rewrite <- (map_id F) at 2. apply map_ext_in. intros bs2 Hbs2%list_elem_of_In. apply put_value_other.
    intros (rec & -> & Hrec)%elem_of_map. apply (Hd _ Hx). apply elem_of_map. exists rec. split; [done|].
    apply elem_of_concat. eauto.
  - f_equal; [by rewrite put_value_other | by apply IH].
Qed.

Lemma set_bound_inv x v F rec' : NoDup (names_of F) -> rec' ∈ concat (set_bound x v F) ->
  exists rec, rec ∈ concat F /\ rec' = put_value x v rec.
Proof.
  intros Hn. rewrite set_bound_map, <- concat_map by done. intros (rec & -> & Hr)%elem_of_map. eauto.
Qed.

Lemma set_bound_ok x v F : NoDup (names_of F) ->
  (forall rec, rec ∈ concat F -> lr_name rec = x -> reordered (lr_value rec) v) -> bound_step [x] F (set_bound x v F).
Proof.
  intros Hn Hv. rewrite set_bound_map by done.
  apply Forall2_fmap_r, Forall_Forall2_diag, Forall_forall. intros bs Hbs.
  apply Forall2_fmap_r, Forall_Forall2_diag, Forall_forall. intros rec Hrec. unfold put_value, compose; cbn beta.
  destruct (String.eqb_spec (lr_name rec) x) as [E|Hne].
  - split_and!; [done | done | | rewrite E; intros Hd; destruct Hd; by left].
    intros _. cbn. apply Hv; [|done]. apply elem_of_concat. eauto.
  - apply rec_step_refl. by rewrite list_elem_of_singleton.
Qed.

(** ** The state of the traversal *)

(** Bindings not used so far have not been rewritten either. Their names are
    distinct, their values use only the names in [vis] and bind others, none
    of those in [B]. *)
Record bound_ready (vis : string -> Prop) (used : list string) (F : list (list letrec)) (B : list string) : Prop := {
  br_names : NoDup (names_of F);
  br_vis : forall x, x ∈ names_of F -> vis x;
  br_free : forall rec x, rec ∈ concat F -> lr_name rec ∉ used -> free_in x (lr_value rec) -> vis x;
  br_lambda : forall rec, rec ∈ concat F -> lr_name rec ∉ used -> lambda_free (lr_value rec);
  br_nodup : forall rec, rec ∈ concat F -> lr_name rec ∉ used -> NoDup (binders (lr_value rec));
  br_binders : forall rec x, rec ∈ concat F -> lr_name rec ∉ used -> x ∈ binders (lr_value rec) -> ~ vis x /\ x ∉ B;
  br_apart : forall r1 r2 x, r1 ∈ concat F -> r2 ∈ concat F -> lr_name r1 ∉ used -> lr_name r2 ∉ used ->
    lr_name r1 <> lr_name r2 -> x ∈ binders (lr_value r1) -> x ∉ binders (lr_value r2)
}.

Lemma bound_ready_weaken vis used F B B' : (forall x, x ∈ B' -> x ∈ B) -> bound_ready vis used F B -> bound_ready vis used F B'.
Proof. intros HB [H1 H2 H3 Hl H4 H5 H6]. split; try done. intros rec x Hr Hn Hx. destruct (H5 rec x Hr Hn Hx). auto. Qed.

(** A later state of the stack. *)
Lemma bound_ready_step vis used F B new F' :
  bound_step new F F' -> bound_ready vis used F B -> bound_ready vis (new ++ used) F' B.
Proof.
  intros Hs [H1 H2 H3 Hl H4 H5 H6].
  assert (Hold : forall rec, rec ∈ concat F' -> lr_name rec ∉ new ++ used -> rec ∈ concat F /\ lr_name rec ∉ used).
  { intros rec Hr Hn. rewrite elem_of_app in Hn. destruct (bound_step_inv _ _ _ _ Hs Hr) as (r0 & Hr0 & E & _ & _ & Hk).
    rewrite E in Hn. rewrite (Hk ltac:(tauto)). split; [done | tauto]. }
  split; rewrite ?(bound_step_names _ _ _ Hs); try done.
  - intros rec x Hr Hn. destruct (Hold rec Hr Hn). by apply H3.
  - intros rec Hr Hn. destruct (Hold rec Hr Hn). by apply Hl.
  - intros rec Hr Hn. destruct (Hold rec Hr Hn). by apply H4.
  - intros rec x Hr Hn. destruct (Hold rec Hr Hn). by apply H5.
  - intros r1 r2 x Hr1 Hr2 Hn1 Hn2. destruct (Hold r1 Hr1 Hn1), (Hold r2 Hr2 Hn2). by apply H6.
Qed.

(** The size of what is still to be visited. *)
Definition weigh (used : list string) (rec : letrec) : nat :=
  if list_contains_string used (lr_name rec) then 0 else snode_size (lr_value rec).
Definition weight (used : list string) (F : list (list letrec)) : nat := sum_list_with (weigh used) (concat F).

Lemma weight_step used new F F' : bound_step new F F' -> weight (new ++ used) F' <= weight used F.
Proof.
  intros H%bound_step_concat. unfold weight. induction H as [|r r' l l' (E & _ & _ & Hk) Hl IH]; cbn; [lia|].
  enough (weigh (new ++ used) r' <= weigh used r) by lia. unfold weigh. rewrite E.
  destruct (list_contains_string (new ++ used) (lr_name r)) eqn:E1; [lia|].
  apply list_contains_string_false in E1. rewrite elem_of_app in E1.
  rewrite (proj2 (list_contains_string_false _ _)) by tauto. rewrite Hk by tauto. lia.
Qed.

Lemma weight_visit used F rec : rec ∈ concat F -> lr_name rec ∉ used ->
  weight (lr_name rec :: used) F + snode_size (lr_value rec) <= weight used F.
Proof.
  unfold weight. intros Hr Hu.
  assert (Hle : forall r, weigh (lr_name rec :: used) r <= weigh used r).
  { intros r. unfold weigh. destruct (list_contains_string used (lr_name r)) eqn:E.
    - apply list_contains_string_true in E. rewrite (proj2 (list_contains_string_true _ _)); [done | by right].
    - destruct (list_contains_string (_ :: _) _); lia. }
  assert (Hsum : forall l, sum_list_with (weigh (lr_name rec :: used)) l <= sum_list_with (weigh used) l).
  { induction l as [|r l IH]; cbn; [done|]. specialize (Hle r). lia. }
  revert Hr. generalize (concat F) as l. induction l as [|r l IH]; intros Hr; [by apply not_elem_of_nil in Hr|]. cbn.
  apply elem_of_cons in Hr as [<-|Hr]; [|specialize (IH Hr); specialize (Hle r); lia].
  specialize (Hsum l).
  assert (weigh (lr_name rec :: used) rec = 0) as -> by (unfold weigh; by rewrite (proj2 (list_contains_string_true _ _)) by (by left)).
  assert (weigh used rec = snode_size (lr_value rec)) as -> by (unfold weigh; by rewrite (proj2 (list_contains_string_false _ _))).
  lia.
Qed.

(** ** The traversal *)

Record reorders (vis : string -> Prop) (c : snode) (used : list string) (F : list (list letrec))
    (new : list string) (c' : snode) (F' : list (list letrec)) : Prop := {
  re_nodup : NoDup (new ++ used);
  re_vis : forall x, x ∈ new -> vis x;
  re_bound : bound_step new F F';
  re_tree : reordered c c';
  re_free : forall x, free_in x c' -> x ∈ new ++ used;
  re_closed : forall rec x, rec ∈ concat F' -> lr_name rec ∈ new -> free_in x (lr_value rec) -> x ∈ new ++ used
}.

Definition reorders_to (vis : string -> Prop) (c : snode) (used : list string) (F : list (list letrec))
    (r : outcome traversed) : Prop :=
  exists new c' F', r = Done (c', new ++ used, F') /\ reorders vis c used F new c' F'.

(** A node the traversal may enter. *)
Record enterable (vis : string -> Prop) (c : snode) (used : list string) (F : list (list letrec)) : Prop := {
  en_used : NoDup used;
  en_used_vis : forall x, x ∈ used -> vis x;
  en_free : forall x, free_in x c -> vis x;
  en_binders : forall x, x ∈ binders c -> ~ vis x;
  en_nodup : NoDup (binders c);
  en_lambda : lambda_free c;
  en_bound : bound_ready vis used F (binders c)
}.

Lemma reorders_same vis c used F :
  (forall c', reordered c c' <-> c' = c) -> (forall x, ~ free_in x c) -> NoDup used ->
  reorders_to vis c used F (Done (c, used, F)).
Proof.
  intros Hr Hx Hu. exists [], c, F. split; [done|].
  split; [done | in_nil | apply bound_step_nil | by apply Hr | by intros x ?%Hx | intros ? ? _; in_nil].
Qed.

(** The binders of the values of a letrec. *)
Lemma concat_binders_nodup (bs : list letrec) rec :
  NoDup (concat (map (fun rec => binders (lr_value rec)) bs)) -> rec ∈ bs -> NoDup (binders (lr_value rec)).
Proof.
  intros Hn Hr. induction Hr as [|r rec bs Hr IH]; cbn in Hn; apply list.NoDup_app in Hn as (? & ? & ?); auto.
Qed.

Lemma in_concat_binders (bs : list letrec) rec x : rec ∈ bs -> x ∈ binders (lr_value rec) ->
  x ∈ concat (map (fun rec => binders (lr_value rec)) bs).
Proof.
  intros Hr Hx. apply elem_of_concat. eexists. split; [|exact Hx]. apply elem_of_map. by exists rec.
Qed.

Lemma concat_binders_apart (bs : list letrec) r1 r2 x :
  NoDup (concat (map (fun rec => binders (lr_value rec)) bs)) -> r1 ∈ bs -> r2 ∈ bs -> r1 <> r2 ->
  x ∈ binders (lr_value r1) -> x ∉ binders (lr_value r2).
Proof.
  induction bs as [|r bs IH]; [by intros _ ?%not_elem_of_nil|]. cbn. intros (H1 & H2 & H3)%list.NoDup_app.
  intros [->|Hr1]%elem_of_cons [->|Hr2]%elem_of_cons Hne Hx Hx2; [done | | |by eapply IH].
  - apply (H2 x Hx). by eapply in_concat_binders.
  - apply (H2 x Hx2). by eapply in_concat_binders.
Qed.

Section traversal.
Context (fuel : nat).
Hypothesis IH : forall vis c used F, enterable vis c used F -> snode_size c + weight used F < fuel ->
  reorders_to vis c used F (reorder_letrecs_r fuel c used F).

Lemma reorder_application vis sl st l r used F :
  enterable vis (SNODE_APPLICATION sl st l r) used F ->
  snode_size (SNODE_APPLICATION sl st l r) + weight used F < S fuel ->
  reorders_to vis (SNODE_APPLICATION sl st l r) used F (reorder_letrecs_r (S fuel) (SNODE_APPLICATION sl st l r) used F).
Proof.
  intros [E1 E2 E3 E4 E5 [El1 El2] E6] Hs. cbn [reorder_letrecs_r]. cbn in E5, Hs. apply list.NoDup_app in E5 as (Nl & Nd & Nr).
  destruct (IH vis l used F) as (n1 & l' & F1 & -> & [R1 R2 R3 R4 R5 R6]); [|lia|].
  { split; try done; [intros x Hx; apply E3; by left | intros x Hx; apply E4; cbn; rewrite elem_of_app; by left|].
    eapply bound_ready_weaken; [|exact E6]. intros x Hx. cbn. rewrite elem_of_app. by left. }
  cbn [mbind outcome_bind]. pose proof (weight_step used n1 F F1 R3).
  destruct (IH vis r (n1 ++ used) F1) as (n2 & r' & F2 & -> & [Q1 Q2 Q3 Q4 Q5 Q6]); [|lia|].
  { split; try done; [|intros x Hx; apply E3; by right | intros x Hx; apply E4; cbn; rewrite elem_of_app; by right|].
    - intros x. rewrite elem_of_app. naive_solver.
    - eapply bound_ready_weaken, bound_ready_step; [|exact R3 | exact E6]. intros x Hx. cbn. rewrite elem_of_app. by right. }
  cbn [mbind outcome_bind]. exists (n2 ++ n1), (SNODE_APPLICATION sl st l' r'), F2. rewrite <- app_assoc. split; [done|].
  assert (forall x, x ∈ n1 -> x ∉ n2) as Hd.
  { intros x H1 H2. apply list.NoDup_app in Q1 as (_ & Q1 & _). apply (Q1 x H2). rewrite elem_of_app. by left. }
  split; rewrite <- ?app_assoc.
  - done.
  - intros x. rewrite elem_of_app. naive_solver.
  - by eapply bound_step_trans.
  - by split_and!.
  - intros x [Hx|Hx]; [|auto]. rewrite elem_of_app. right. auto.
  - intros rec x Hr Hn Hx. apply elem_of_app in Hn as [Hn|Hn]; [by eapply Q6|].
    destruct (bound_step_inv _ _ _ _ Q3 Hr) as (r0 & Hr0 & E & _ & _ & Hk). rewrite E in Hn. rewrite Hk in Hx by auto.
    rewrite elem_of_app. right. by eapply R6.
Qed.

Lemma enter_value vis sl x used F rec :
  enterable vis (SNODE_SYMBOL sl x) used F -> rec ∈ concat F -> lr_name rec = x -> x ∉ used ->
  enterable vis (lr_value rec) (x :: used) F.
Proof.
  intros [E1 E2 E3 E4 E5 El [B1 B2 B3 Bl B4 B5 B6]] Hr Hname Ex.
  assert (lr_name rec ∉ used) as Ex' by (by rewrite Hname).
  assert (forall r : letrec, (lr_name r ∉ (x :: used)) -> (lr_name r ∉ used) /\ lr_name r <> lr_name rec) as Hn.
  { intros r Hn. rewrite elem_of_cons in Hn. rewrite Hname. tauto. }
  split.
  - by apply list.NoDup_cons.
  - intros y [->|Hy]%elem_of_cons; [by apply E3 | auto].
  - intros y. by apply B3.
  - intros y Hy. by eapply B5.
  - by apply B4.
  - by apply Bl.
  - split; [done | done | | | | |].
    + intros r y H1 [H2 _]%Hn. by apply B3.
    + intros r H1 [H2 _]%Hn. by apply Bl.
    + intros r H1 [H2 _]%Hn. by apply B4.
    + intros r y H1 [H2 H3]%Hn Hy. split; [by eapply B5 | by eapply (B6 r)].
    + intros r1 r2 y H1 H2 [H3 _]%Hn [H4 _]%Hn. by apply B6.
Qed.

(** Visiting a variable that has a binding. *)
Lemma reorder_visit vis sl x used F rec :
  enterable vis (SNODE_SYMBOL sl x) used F -> 1 + weight used F < S fuel -> x ∉ used ->
  rec ∈ concat F -> lr_name rec = x ->
  reorders_to vis (SNODE_SYMBOL sl x) used F
    ('(v, used, F) ← reorder_letrecs_r fuel (lr_value rec) (x :: used) F; Done (SNODE_SYMBOL sl x, used, set_bound x v F)).
Proof.
  intros He Hs Ex Hr Hname. pose proof (br_names _ _ _ _ (en_bound _ _ _ _ He)) as Hnames.
  destruct (IH vis (lr_value rec) (x :: used) F) as (n & v & F1 & -> & [R1 R2 R3 R4 R5 R6]).
  { by eapply enter_value. }
  { pose proof (weight_visit used F rec Hr) as Hw. rewrite Hname in Hw. specialize (Hw Ex). lia. }
  cbn [mbind outcome_bind]. exists (n ++ [x]), (SNODE_SYMBOL sl x), (set_bound x v F1). rewrite <- app_assoc.
  split; [done|]. destruct (proj1 (list.NoDup_app _ _) R1) as (_ & R1b & _).
  assert (x ∉ n) as Hxn by (intros Hin; apply (R1b x Hin); by left).
  rewrite <- (bound_step_names _ _ _ R3) in Hnames.
  assert (bound_step [x] F1 (set_bound x v F1)) as Hset.
  { apply set_bound_ok; [done|]. intros r1 Hr1 Hx1.
    destruct (bound_step_inv _ _ _ _ R3 Hr1) as (r0 & Hr0 & E0 & _ & _ & Hk). rewrite Hk by (by rewrite <- E0, Hx1).
    rewrite (bound_step_names _ _ _ R3) in Hnames. assert (r0 = rec) as -> by (eapply same_name; eauto; congruence). done. }
  split; rewrite <- ?app_assoc; cbn [app].
  - done.
  - intros y [Hy|Hy%list_elem_of_singleton]%elem_of_app; [auto | subst y; by apply (en_free _ _ _ _ He)].
  - apply (bound_step_on ([x] ++ n)); [intros y _; rewrite !elem_of_app; tauto|].
    eapply bound_step_trans; [|exact R3 | exact Hset]. by intros y Hy ->%list_elem_of_singleton.
  - done.
  - intros y ->. rewrite elem_of_app. right. by left.
  - intros r1 y Hr1 Hn1 Hy. destruct (set_bound_inv _ _ _ _ Hnames Hr1) as (r0 & Hr0 & ->). unfold put_value in *.
    destruct (String.eqb_spec (lr_name r0) x) as [Ex0|Hne]; [by apply R5|].
    apply elem_of_app in Hn1 as [Hn1|?%list_elem_of_singleton]; [by eapply R6 | done].
Qed.

Lemma reorder_symbol vis sl x used F :
  enterable vis (SNODE_SYMBOL sl x) used F -> snode_size (SNODE_SYMBOL sl x) + weight used F < S fuel ->
  reorders_to vis (SNODE_SYMBOL sl x) used F (reorder_letrecs_r (S fuel) (SNODE_SYMBOL sl x) used F).
Proof.
  intros He Hs. cbn [reorder_letrecs_r]. unfold list_push. destruct (list_contains_string used x) eqn:Ex.
  { apply list_contains_string_true in Ex. exists [], (SNODE_SYMBOL sl x), F. split; [done|].
    split; [apply He | in_nil | apply bound_step_nil | done | by intros y -> | intros ? ? _; in_nil]. }
  apply list_contains_string_false in Ex. destruct (find_bound x F) as [rec|] eqn:Ef.
  { apply find_bound_Some in Ef as [Hr Hname]. by apply reorder_visit. }
  apply find_bound_None in Ef. exists [x], (SNODE_SYMBOL sl x), F. split; [done|]. split; cbn [app].
  - apply list.NoDup_cons. split; [done | apply He].
  - intros y ->%list_elem_of_singleton. by apply (en_free _ _ _ _ He).
  - apply bound_step_off. by intros y ->%list_elem_of_singleton.
  - done.
  - intros y ->. by left.
  - intros rec y Hr Hn%list_elem_of_singleton. destruct Ef. unfold names_of. apply elem_of_map. by exists rec.
Qed.

(** The bindings of a letrec on top of the stack. *)
Lemma enter_letrec_bound vis sl bs b used F :
  enterable vis (SNODE_LETREC sl bs b) used F -> NoDup (map lr_name bs) ->
  bound_ready (fun x => vis x \/ x ∈ map lr_name bs) used (bs :: F) (binders b).
Proof.
  intros [E1 E2 E3 E4 E5 [El _] [B1 B2 B3 Bl B4 B5 B6]] Hn. cbn [binders] in E5. rewrite Forall_id_map in El.
  apply list.NoDup_app in E5 as (_ & D1 & N2). apply list.NoDup_app in N2 as (N2 & D2 & _).
  assert (names_of (bs :: F) = map lr_name bs ++ names_of F) as En by (unfold names_of; cbn; by rewrite map_app).
  split; rewrite ?En; cbn [concat].
  - apply list.NoDup_app. split_and!; [done | | done]. intros x Hx Hin%B2. revert Hin. apply E4, binders_letrec. by left.
  - intros x. rewrite elem_of_app. naive_solver.
  - intros rec x [Hr|Hr]%elem_of_app Hu Hx; [|left; by eapply B3].
    destruct (decide (x ∈ map lr_name bs)) as [|Hx']; [by right|]. left. apply E3, free_in_letrec. split; [done|].
    left. exists (lr_value rec). rewrite elem_of_map. eauto.
  - intros rec [Hr|Hr]%elem_of_app Hu; [by apply El | by apply Bl].
  - intros rec [Hr|Hr]%elem_of_app Hu; [by eapply concat_binders_nodup | by apply B4].
  - intros rec x [Hr|Hr]%elem_of_app Hu Hx.
    + pose proof (in_concat_binders bs rec x Hr Hx) as Hc. split; [|by apply D2]. intros [Hv|Hin].
      * revert Hv. apply E4, binders_letrec. eauto.
      * apply (D1 x Hin). rewrite elem_of_app. by left.
    + destruct (B5 rec x Hr Hu Hx) as [H1 H2]. rewrite binders_letrec in H2. split; [|tauto]. intros [?|?]; tauto.
  - intros r1 r2 x [H1|H1]%elem_of_app [H2|H2]%elem_of_app U1 U2 Hne Hx Hx2; [| | |by eapply (B6 r1 r2)].
    + revert Hx2. eapply (concat_binders_apart bs r1 r2); try done. congruence.
    + destruct (B5 r2 x H2 U2 Hx2) as [_ H]. apply H, binders_letrec. eauto.
    + destruct (B5 r1 x H1 U1 Hx) as [_ H]. apply H, binders_letrec. eauto.
Qed.

Lemma enter_letrec vis sl bs b used F :
  enterable vis (SNODE_LETREC sl bs b) used F ->
  enterable (fun x => vis x \/ x ∈ map lr_name bs) b used (bs :: F) /\
  NoDup (map lr_name bs) /\ (forall x, x ∈ map lr_name bs -> ~ vis x).
Proof.
  intros He. pose proof He as [E1 E2 E3 E4 E5 [_ El] _]. pose proof E5 as E6. cbn [binders] in E6.
  apply list.NoDup_app in E6 as (N1 & D1 & N2). apply list.NoDup_app in N2 as (_ & _ & N3).
  split_and!; [|done|intros x Hx; apply E4, binders_letrec; by left].
  split; [done | auto | | | done | done | by eapply enter_letrec_bound].
  - intros x Hx. destruct (decide (x ∈ map lr_name bs)) as [|Hn]; [by right|]. left. apply E3, free_in_letrec. auto.
  - intros x Hx [Hv|Hin]; [revert Hv; apply E4, binders_letrec; auto|].
    apply (D1 x Hin). rewrite elem_of_app. by right.
Qed.

(** What is left of the traversal of a letrec after that of its body. *)
Lemma reorders_letrec vis sl bs b used F n b' bs1 F2 newrecs n2 :
  enterable vis (SNODE_LETREC sl bs b) used F ->
  reorders (fun x => vis x \/ x ∈ map lr_name bs) b used (bs :: F) n b' (bs1 :: F2) ->
  take_used bs1 n = (newrecs, n2) ->
  reorders vis (SNODE_LETREC sl bs b) used F n2 (SNODE_LETREC sl newrecs b') F2.
Proof.
  intros He [R1 R2 R3 R4 R5 R6] Et. destruct (enter_letrec _ _ _ _ _ _ He) as (_ & Hn & Hnv).
  inversion R3 as [|? ? ? ? Hbs HF]; subst. fold (bound_step n F F2) in HF.
  assert (map lr_name bs1 = map lr_name bs) as En.
  { clear -Hbs. induction Hbs as [|r r' l l' (E & _) Hl IH]; cbn; congruence. }
  pose proof (proj1 (list.NoDup_app _ _) R1) as (Rn & Rd & Ru).
  destruct (take_used_spec n bs1 newrecs n2 Et Rn ltac:(by rewrite En)) as (H1 & H2 & H3). rewrite En in H3.
  setoid_rewrite En in H2.
  assert (Hkeep : forall x, x ∈ map lr_name bs -> x ∈ n ++ used -> x ∈ map lr_name newrecs).
  { intros x Hx Hu. pose proof Hx as Hx1. rewrite <- En in Hx1. apply elem_of_map in Hx1 as (rec & -> & Hr).
    apply elem_of_map. exists rec. split; [done|]. apply H1. split; [done|]. apply elem_of_app in Hu as [|Hu]; [done|].
    destruct (Hnv _ Hx). by apply (en_used_vis _ _ _ _ He). }
  assert (Huse : forall rec x, rec ∈ newrecs -> free_in x (lr_value rec) -> x ∈ n ++ used).
  { intros rec x [Hr Hu]%H1 Hx. eapply R6; [|done|done]. cbn. rewrite elem_of_app. by left. }
  assert (Hfree : forall x, x ∈ n ++ used -> x ∉ map lr_name bs -> x ∈ n2 ++ used).
  { intros x. rewrite !elem_of_app, H2. tauto. }
  split.
  - apply list.NoDup_app. split_and!; [by eapply take_used_NoDup | | done]. intros x [Hx _]%H2. by apply Rd.
  - intros x [Hx Hnx]%H2. destruct (R2 x Hx); [done | tauto].
  - eapply bound_step_on; [|exact HF]. intros x Hx. rewrite H2.
    pose proof (br_vis _ _ _ _ (en_bound _ _ _ _ He) x Hx). split; [|tauto]. intros ?. split; [done|]. by intros ?%Hnv.
  - split_and!; [done | done | done | |].
    + rewrite Forall_id_map. intros rec Hr rec' [Hr' Hu']%H1 Ename.
      apply list_elem_of_lookup in Hr' as [i Hi]. eapply Forall2_lookup_r in Hbs as (rec0 & Hi0 & (E & E2 & E3 & _)); [|exact Hi].
      assert (rec0 = rec) as ->; [|rewrite E in Hu'; auto].
      apply (same_name [bs]); unfold names_of; cbn; rewrite ?app_nil_r; [done | by eapply list_elem_of_lookup_2 | done | congruence].
    + intros x Hx [Hf|(rec & Hr & Hf)]; apply Hkeep; eauto.
  - intros x [Hx Hf]%free_in_letrec.
    assert (x ∈ n ++ used) as Hu by (destruct Hf as [(v & (rec & -> & Hr)%elem_of_map & Hf)|Hf]; eauto).
    apply Hfree; [done|]. intros Hin. by apply Hx, Hkeep.
  - intros rec x Hr [Hu Hnu]%H2 Hx. apply Hfree.
    + eapply R6; [|done|done]. cbn. rewrite elem_of_app. by right.
    + intros Hin. apply (Hnv x Hin). destruct (bound_step_inv _ _ _ _ HF Hr) as (r0 & Hr0 & E & _ & Hk & _). rewrite E in Hu.
      eapply (br_free _ _ _ _ (en_bound _ _ _ _ He)); [exact Hr0 | | eapply reordered_free; [by apply Hk | done]].
      intros Hu0. by apply (Rd _ Hu).
Qed.

Lemma reorder_letrec vis sl bs b used F :
  enterable vis (SNODE_LETREC sl bs b) used F -> snode_size (SNODE_LETREC sl bs b) + weight used F < S fuel ->
  reorders_to vis (SNODE_LETREC sl bs b) used F (reorder_letrecs_r (S fuel) (SNODE_LETREC sl bs b) used F).
Proof.
  intros He Hs. destruct (enter_letrec _ _ _ _ _ _ He) as (Hb & Hn & Hnv). cbn [reorder_letrecs_r].
  destruct (IH _ b used (bs :: F) Hb) as (n & b' & F1 & -> & HR).
  { cbn in Hs. unfold weight. cbn [concat]. rewrite sum_list_with_app.
    enough (sum_list_with (weigh used) bs <= sum_list_with (fun rec => S (snode_size (lr_value rec))) bs) by (unfold weight in Hs; lia).
    clear. induction bs as [|r bs IHb]; cbn; [lia|]. unfold weigh at 1. destruct (list_contains_string used _); lia. }
  cbn [mbind outcome_bind]. pose proof (re_bound _ _ _ _ _ _ _ HR) as R3. inversion R3 as [|? bs1 ? F2 Hbs HF]; subst.
  assert (map lr_name bs1 = map lr_name bs) as En.
  { clear -Hbs. induction Hbs as [|r r' l l' (E & _) Hl IH]; cbn; congruence. }
  destruct (take_used bs1 n) as [newrecs n2] eqn:Et. rewrite (take_used_app n used bs1 newrecs n2); [|done|].
  - exists n2, (SNODE_LETREC sl newrecs b'), F2. split; [done|]. by eapply reorders_letrec.
  - rewrite En. intros x Hx Hin. by apply (Hnv x Hin), (en_used_vis _ _ _ _ He).
Qed.
End traversal.

Lemma reorder_ok fuel : forall vis c used F, enterable vis c used F -> snode_size c + weight used F < fuel ->
  reorders_to vis c used F (reorder_letrecs_r fuel c used F).
Proof.
  induction fuel as [|fuel IH]; intros vis c used F He Hs; [lia|].
  pose proof (en_used _ _ _ _ He) as Hu.
  destruct c; try (by apply reorders_same; [|intros x Hx|]).
  - by apply reorder_application.
  - by destruct (en_lambda _ _ _ _ He).
  - by apply reorder_symbol.
  - by apply reorder_letrec.
Qed.

(** A body the pass may be applied to: no abstraction, and names as renaming
    leaves them. *)
Definition tidy (c : snode) : Prop :=
  lambda_free c /\ NoDup (binders c) /\ forall x, x ∈ binders c -> ~ free_in x c.

Lemma reorder_letrecs_ok fuel c : tidy c -> snode_size c < fuel ->
  exists c', reorder_letrecs fuel c = Done c' /\ reordered c c'.
Proof.
  intros (Hl & Hn & Hf) Hs. unfold reorder_letrecs.
  destruct (reorder_ok fuel (fun x => free_in x c) c [] []) as (new & c' & F' & -> & HR).
  - split; try done; [constructor | in_nil |].
    split; cbn; [constructor | intros ?; in_nil | intros ? ?; in_nil | intros ?; in_nil.. | intros ? ?; in_nil | intros ? ? ?; in_nil].
  - unfold weight. cbn. lia.
  - cbn [mbind outcome_bind]. exists c'. split; [done | by apply HR].
Qed.

(** ** Distinct names *)

Lemma values_nodup (bs bs' : list letrec) :
  NoDup (map lr_name bs') -> map lr_name bs' ⊆+ map lr_name bs ->
  NoDup (concat (map (fun rec => binders (lr_value rec)) bs)) ->
  (forall rec rec', rec ∈ bs -> rec' ∈ bs' -> lr_name rec' = lr_name rec ->
    NoDup (binders (lr_value rec')) /\ forall x, x ∈ binders (lr_value rec') -> x ∈ binders (lr_value rec)) ->
  NoDup (concat (map (fun rec => binders (lr_value rec)) bs')).
Proof.
  intros Hn Hs Hb Hv.
  assert (Hfrom : forall rec', rec' ∈ bs' -> exists rec, rec ∈ bs /\ lr_name rec' = lr_name rec) by (intros rec'; by apply kept_from).
  clear Hs. induction bs' as [|r bs' IH]; cbn in *; [constructor|]. apply list.NoDup_cons in Hn as [Hr Hn].
  destruct (Hfrom r) as (r0 & Hr0 & E0); [by left|]. destruct (Hv r0 r Hr0) as [H1 H2]; [by left | done |].
  apply list.NoDup_app. split_and!; [done | | apply IH; [done | |]].
  - intros x Hx (l & (r1 & -> & Hr1)%elem_of_map & Hx1)%elem_of_concat.
    destruct (Hfrom r1) as (r2 & Hr2 & E2); [by right|]. destruct (Hv r2 r1 Hr2) as [_ H3]; [by right | done |].
    eapply (concat_binders_apart bs r0 r2); try done; [|by apply H2 | by apply H3].
    intros ->. apply Hr. rewrite E0, <- E2. apply elem_of_map. by exists r1.
  - intros rec rec' Hin Hin'. apply Hv; [done | by right].
  - intros rec' Hin. apply Hfrom. by right.
Qed.

Lemma submseteq_NoDup {A} (l k : list A) : NoDup k -> l ⊆+ k -> NoDup l.
Proof. intros Hk [r Hp]%submseteq_Permutation. rewrite Hp in Hk. by apply list.NoDup_app in Hk as [? _]. Qed.

Lemma reordered_nodup c : forall c', reordered c c' -> NoDup (binders c) -> NoDup (binders c').
Proof.
  snode_induction c; intros c' Hr Hn; try (cbn in Hr; by subst c').
  - destruct c' as [sl' st' l' r'| | | | | | | |]; try done. destruct Hr as (_ & _ & Hl & Hr). cbn in *.
    apply list.NoDup_app in Hn as (N1 & N2 & N3). apply list.NoDup_app. split_and!; [by apply IHl | | by apply IHr].
    intros x H1 H2. eapply N2; by eapply reordered_binders.
  - destruct c' as [| | | |sl' bs' b'| | | |]; try done. destruct Hr as (_ & Hb & Hs & Hv & Hen).
    rewrite Forall_id_map in Hv. rewrite Forall_forall in IHbs. cbn [binders] in *.
    apply list.NoDup_app in Hn as (N1 & D1 & N2). apply list.NoDup_app in N2 as (N2 & D2 & N3).
    assert (NoDup (map lr_name bs')) as N1' by exact (submseteq_NoDup _ _ N1 Hs).
    assert (Hval : forall rec rec', rec ∈ bs -> rec' ∈ bs' -> lr_name rec' = lr_name rec ->
      NoDup (binders (lr_value rec')) /\ forall x, x ∈ binders (lr_value rec') -> x ∈ binders (lr_value rec)).
    { intros rec rec' Hr Hr' E. destruct (Hv rec Hr rec' Hr' E) as [_ Ho]. split.
      - eapply IHbs; [done | done |]. by eapply concat_binders_nodup.
      - intros x. by apply reordered_binders. }
    assert (Hc : forall x, x ∈ concat (map (fun rec => binders (lr_value rec)) bs') -> x ∈ concat (map (fun rec => binders (lr_value rec)) bs)).
    { intros x (l & (r1 & -> & Hr1)%elem_of_map & Hx)%elem_of_concat. destruct (kept_from _ _ _ Hs Hr1) as (r0 & Hr0 & E).
      eapply in_concat_binders; [done|]. eapply Hval; eauto. }
    assert (Hbb : forall x, x ∈ binders b' -> x ∈ binders b) by (intros x; by apply reordered_binders).
    apply list.NoDup_app. split_and!; [done | | apply list.NoDup_app; split_and!; [by apply (values_nodup bs) | | by apply IHb]].
    + intros x Hx. assert (x ∈ map lr_name bs) as Hx0 by (by eapply elem_of_submseteq). specialize (D1 x Hx0).
      rewrite elem_of_app in *. intros [?|?]; apply D1; auto.
    + intros x Hx%Hc Hx2%Hbb. by eapply D2.
Qed.

(** ** The form the later passes need *)

Lemma reordered_spine c : forall c', reordered c c' ->
  reordered (spine_head c) (spine_head c') /\ count_args c' = count_args c /\
  Forall2 reordered (spine_args c) (spine_args c').
Proof.
  induction c as [sl st l IHl r IHr|sl n b IHb|sl bif|sl n|sl bs b IHb|sl sc|sl|sl num|sl s]; intros c' Hr;
    try (cbn in Hr; subst c'; by cbn).
  - destruct c' as [sl' st' l' r'| | | | | | | |]; try done. destruct Hr as (_ & _ & Hl & Hr).
    destruct (IHl _ Hl) as (H1 & H2 & H3). cbn. split_and!; [done | by f_equal | by constructor].
  - destruct c' as [| | | |sl' bs' b'| | | |]; done.
Qed.

Lemma reordered_fun_ok src h h' m : reordered h h' -> fun_ok src h m -> fun_ok src h' m.
Proof. destruct h; intros Hr; try (cbn in Hr; by subst h'); by cbn. Qed.

Lemma reordered_fits src h h' m : reordered h h' -> fits src h m -> fits src h' m.
Proof. destruct h; intros Hr; try (cbn in Hr; by subst h'); by cbn. Qed.

Lemma reordered_flat src c : forall c', reordered c c' -> flat src c -> flat src c'.
Proof.
  snode_induction c; intros c' Hr Hf; try (cbn in Hr; by subst c').
  - destruct c' as [sl' st' l' r'| | | | | | | |]; try done. destruct Hr as (_ & _ & Hl & Hr).
    destruct (reordered_spine _ _ Hl) as (H1 & H2 & _). destruct Hf as (Hf & Hfl & Hfr). cbn [flat]. rewrite H2.
    split_and!; [by eapply reordered_fits | by apply IHl | by apply IHr].
  - destruct c' as [| | | |sl' bs' b'| | | |]; try done. destruct Hr as (_ & Hb & Hs & Hv & Hen). destruct Hf as [Hfv Hfb].
    rewrite Forall_id_map in Hv, Hfv. rewrite Forall_forall in IHbs. split; [|by apply IHb]. rewrite Forall_id_map.
    intros rec' Hr'. destruct (kept_from _ _ _ Hs Hr') as (rec & Hr & E). eapply IHbs; [done | by apply Hv | by apply Hfv].
Qed.

Lemma reordered_flat_body src c c' : reordered c c' -> flat_body src c -> flat_body src c'.
Proof.
  intros Hr [H|(H1 & H2 & H3)]; [left; by eapply reordered_flat|]. right.
  destruct (reordered_spine _ _ Hr) as (R1 & R2 & R3). split_and!; [by rewrite R2 | |].
  - destruct (spine_head c); cbn [root_head fun_ok] in H2; try done; cbn in R1; by rewrite R1.
  - clear -H3 R3. induction R3; inversion H3; subst; constructor; [by eapply reordered_flat | auto].
Qed.

Lemma flat_lambda_free src c : flat src c -> lambda_free c.
Proof.
  snode_induction c; try done; cbn.
  - intros (_ & ? & ?). auto.
  - rewrite !Forall_id_map. rewrite Forall_forall in IHbs. intros [H1 H2]. split; auto.
Qed.

Lemma flat_body_lambda_free src c : flat_body src c -> lambda_free c.
Proof.
  intros [H|(Hc & Hh & Ha)]; [by eapply flat_lambda_free|].
  clear Hc. induction c as [sl st l IHl r IHr| | | | | | | |]; cbn in *; try done.
  inversion Ha; subst. split; [auto | by eapply flat_lambda_free].
Qed.

Lemma prepared_tidy src q sc body : prepared src q -> src_heap src !! q = Some sc -> sc_body sc = Some body -> tidy body.
Proof.
  intros (sc' & body' & H1 & H2 & H3 & H4 & H5) Hsc Hb. simplify_eq. apply list.NoDup_app in H5 as (_ & Hd & Hn).
  split_and!; [by eapply flat_body_lambda_free | done |]. intros x Hx Hf. by apply (Hd x); auto.
Qed.

(** ** Whole programs *)

(** The entry [q] has been reordered, or left alone. *)
Definition reordered_sc (sc sc' : scomb) : Prop :=
  exists b b', sc_body sc = Some b /\ sc' = set_body b' sc /\ reordered b b'.

Record reorders_program (ps : list nat) (src src' : source) : Prop := {
  rp_wf : wf_source src';
  rp_scombs : src_scombs src' = src_scombs src;
  rp_length : length (src_heap src') = length (src_heap src);
  rp_other : forall q, q ∉ ps -> src_heap src' !! q = src_heap src !! q;
  rp_done : forall q sc, q ∈ ps -> src_heap src !! q = Some sc ->
    exists sc', src_heap src' !! q = Some sc' /\ reordered_sc sc sc'
}.

Definition reorderable (fuel : nat) (src : source) (p : nat) : Prop :=
  exists sc body, src_heap src !! p = Some sc /\ sc_body sc = Some body /\ tidy body /\ snode_size body < fuel.

Lemma upd_other src p q f : q <> p -> src_heap (upd src p f) !! q = src_heap src !! q.
Proof. intros Hne. cbn. by rewrite list_lookup_alter_ne. Qed.

Lemma upd_at src p f sc : src_heap src !! p = Some sc -> src_heap (upd src p f) !! p = Some (f sc).
Proof. intros H. cbn. by rewrite list_lookup_alter_eq, H. Qed.

Lemma reorder_all_ok fuel ps : forall src, wf_source src -> NoDup ps -> (forall p, p ∈ ps -> reorderable fuel src p) ->
  exists src', reorder_all fuel src ps = Done src' /\ reorders_program ps src src'.
Proof.
  induction ps as [|p ps IH]; intros src Hwf Hnd Hps; cbn [reorder_all].
  { exists src. split; [done|]. split; try done. in_nil. }
  apply list.NoDup_cons in Hnd as [Hp Hnd]. destruct (Hps p ltac:(by left)) as (sc & body & Hsc & Hb & Ht & Hsz).
  unfold getsc. rewrite Hsc. cbn [deref mbind outcome_bind]. rewrite Hb. cbn [deref mbind outcome_bind].
  destruct (reorder_letrecs_ok fuel body Ht Hsz) as (b' & -> & Hr). cbn [mbind outcome_bind].
  destruct (IH (upd src p (set_body b'))) as (src' & -> & [H1 H2 H3 H4 H5]); [by apply upd_wf | done | |].
  { intros q Hq. destruct (Hps q ltac:(by right)) as (scq & bq & Hscq & Hq'). exists scq, bq. split; [|done].
    rewrite upd_other; [done|]. by intros ->. }
  exists src'. split; [done|]. split; [done | done | | |].
  - rewrite H3. cbn. apply length_alter.
  - intros q Hq. rewrite elem_of_cons in Hq. rewrite H4 by tauto. apply upd_other. tauto.
  - intros q scq [->|Hq]%elem_of_cons Hscq.
    + exists (set_body b' sc). simplify_eq. split; [rewrite H4 by done; by apply upd_at|]. by exists body, b'.
    + apply H5; [done|]. rewrite upd_other; [done|]. by intros ->.
Qed.

Lemma reorders_sigs ps src src' : (forall p, p ∈ ps -> is_Some (src_heap src !! p)) -> reorders_program ps src src' -> same_sigs src src'.
Proof.
  intros Hl [H1 H2 H3 H4 H5] q sc Hq Hsc. rewrite H2. split; [done|]. destruct (decide (q ∈ ps)) as [Hin|Hn].
  - destruct (H5 q sc Hin Hsc) as (sc' & ? & b & b' & _ & -> & _). by exists (set_body b' sc).
  - exists sc. by rewrite H4.
Qed.

Lemma reorders_prepared ps src src' q : (forall p, p ∈ ps -> is_Some (src_heap src !! p)) ->
  reorders_program ps src src' -> prepared src q -> prepared src' q.
Proof.
  intros Hl HR Hp. pose proof (reorders_sigs _ _ _ Hl HR) as Hs. destruct (decide (q ∈ ps)) as [Hin|Hn].
  - destruct Hp as (sc & body & Hsc & Hb & Hf & Hcl & Hnd).
    destruct (rp_done _ _ _ HR q sc Hin Hsc) as (sc' & Hsc' & b & b' & Eb & -> & Hr). simplify_eq.
    apply list.NoDup_app in Hnd as (N1 & D & N2).
    exists (set_body b' sc), b'. split_and!; [done | done | by eapply flat_body_sigs, reordered_flat_body | |].
    + intros x Hx. eapply Hcl, reordered_free; done.
    + apply list.NoDup_app. split_and!; [done | | by eapply reordered_nodup]. intros x Hx Hx2. apply (D x Hx).
      by eapply reordered_binders.
  - eapply prepared_sigs; [done | | done]. by apply (rp_other _ _ _ HR).
Qed.

(** C23. Letrec reordering of a whole program returns. Every body is the old one
    with, in each letrec, some of the bindings in some order, the variables of
    the bindings dropped occurring nowhere; and the program keeps the form the
    passes after it need. *)
Theorem reorder_program fuel src :
  wf_source src -> (forall p, p ∈ src_scombs src -> prepared src p) ->
  (forall p sc body, p ∈ src_scombs src -> src_heap src !! p = Some sc -> sc_body sc = Some body -> snode_size body < fuel) ->
  exists src', reorder_all fuel src (src_scombs src) = Done src' /\ wf_source src' /\ src_scombs src' = src_scombs src /\
    forall p, p ∈ src_scombs src' -> prepared src' p /\
      exists sc sc', src_heap src !! p = Some sc /\ src_heap src' !! p = Some sc' /\ reordered_sc sc sc'.
Proof.
  intros Hwf Hp Hsz. destruct (reorder_all_ok fuel (src_scombs src) src Hwf (wf_nodup _ Hwf)) as (src' & E & HR).
  { intros p Hin. destruct (Hp p Hin) as (sc & body & Hsc & Hb & Hrest). exists sc, body.
    split_and!; [done | done | | by eapply Hsz]. by eapply prepared_tidy; [apply Hp| |]. }
  exists src'. split_and!; [done | apply HR | apply HR |]. rewrite (rp_scombs _ _ _ HR). intros p Hin.
  assert (Hl : forall q, q ∈ src_scombs src -> is_Some (src_heap src !! q)) by (intros q; apply (wf_valid _ Hwf)).
  split; [by eapply reorders_prepared; [|exact HR|apply Hp]|].
  destruct (Hl p Hin) as [sc Hsc]. destruct (rp_done _ _ _ HR p sc Hin Hsc) as (sc' & ? & ?). eauto.
Qed.

(** The example in the comment of [reorder_letrecs], with one more binding that
    is not used. *)
Definition sample_add (l r : snode) : snode :=
  SNODE_APPLICATION nosl false (SNODE_APPLICATION nosl false (SNODE_BUILTIN nosl B_ADD) l) r.
Definition sample_lets : snode :=
  SNODE_LETREC nosl [Letrec "c" (sample_add (SNODE_SYMBOL nosl "b") (SNODE_NUMBER nosl 4)) false;
    Letrec "b" (sample_add (SNODE_SYMBOL nosl "a") (SNODE_NUMBER nosl 3)) false;
    Letrec "d" (SNODE_SYMBOL nosl "c") false;
    Letrec "a" (sample_add (SNODE_NUMBER nosl 1) (SNODE_NUMBER nosl 2)) false]
    (sample_add (SNODE_SYMBOL nosl "c") (SNODE_NUMBER nosl 5)).
Definition sample_letter : scomb := set_body sample_lets (new_scomb "f" 0).

Lemma sample_letter_prepared : prepared (source_of [sample_letter]) 0.
Proof.
  exists sample_letter, sample_lets. split_and!; try reflexivity.
  - left. cbn. assert (exists b, builtin_info !! B_ADD = Some b /\ 0 <= bi_nargs b /\ 1 <= bi_nargs b /\ 2 <= bi_nargs b) as (b & Hb & H).
    { eexists. split; [reflexivity|]. cbn. lia. }
    repeat constructor; try (exists b; split; [exact Hb | lia]).
  - intros x (Hx & Hf)%free_in_letrec. exfalso. cbn in Hx, Hf. rewrite !not_elem_of_cons in Hx.
    destruct Hf as [(v & Hv & Hf)|Hf]; [|tauto].
    repeat (apply elem_of_cons in Hv as [->|Hv]; [cbn in Hf; tauto|]). by apply not_elem_of_nil in Hv.
  - by apply (bool_decide_unpack (NoDup ["c"; "b"; "d"; "a"])).
Qed.

Lemma reorder_program_witness :
  exists src', reorder_all 50 (source_of [sample_letter]) [0] = Done src' /\ wf_source src' /\ src_scombs src' = [0] /\
    forall p, p ∈ src_scombs src' -> prepared src' p /\
      exists sc sc', src_heap (source_of [sample_letter]) !! p = Some sc /\ src_heap src' !! p = Some sc' /\ reordered_sc sc sc'.
Proof.
  apply (reorder_program 50 (source_of [sample_letter])).
  - apply source_of_wf, NoDup_singleton.
  - intros p ->%list_elem_of_singleton. apply sample_letter_prepared.
  - intros p sc body ->%list_elem_of_singleton [= <-] [= <-]. cbn. lia.
Defined.

(** In the example the order is that of the dependencies. *)
Lemma reorder_example : exists b bs, reorder_letrecs 50 sample_lets = Done (SNODE_LETREC nosl bs b) /\
  map lr_name bs = ["a"; "b"; "c"].
Proof. by eexists _, _. Qed.

(** It is not always so, though the bindings have no cycle: [c] uses [a] first
    and [b] second, [b] uses [a], and [b] comes out in front of [a]. *)
Definition sample_crossed : snode :=
  SNODE_LETREC nosl [Letrec "a" (sample_add (SNODE_NUMBER nosl 1) (SNODE_NUMBER nosl 2)) false;
    Letrec "b" (sample_add (SNODE_SYMBOL nosl "a") (SNODE_NUMBER nosl 3)) false;
    Letrec "c" (sample_add (SNODE_SYMBOL nosl "a") (SNODE_SYMBOL nosl "b")) false]
    (sample_add (SNODE_SYMBOL nosl "c") (SNODE_NUMBER nosl 5)).
Lemma reorder_not_topological : exists b bs, reorder_letrecs 50 sample_crossed = Done (SNODE_LETREC nosl bs b) /\
  map lr_name bs = ["b"; "a"; "c"].
Proof. by eexists _, _. Qed.
