(* ===== verification/ReorderMeaning.v ===== *)
(** * Letrec reordering keeps the meaning

    The reordered program evaluates an expression exactly when the original
    does, and to the same value up to the same rearrangement inside closures. *)

From S2P Require Import Prelude CString Builtins Util Source Resolve Lifting LiftingFacts LiftingCreate Bytecode StackDiscipline Applift AppliftFacts Semantics Reorder.

#[local] Set Warnings "-clear-no-such-hyp".

(** ** Related environments *)

(** The variable has not been dropped. *)
Fixpoint kept (rho rho' : env) (x : string) : Prop :=
  match rho, rho' with
  | ENil, ENil => True
  | EBind y _ rho, EBind _ _ rho' => y = x \/ kept rho rho' x
  | ERec bs rho, ERec bs' rho' => x ∈ map lr_name bs' \/ ((x ∉ map lr_name bs) /\ kept rho rho' x)
  | _, _ => False
  end.

(** The two lists of bindings of a reordered letrec. *)
Definition bindings_rel (bs bs' : list letrec) : Prop :=
  map lr_name bs' ⊆+ map lr_name bs /\
  forall rec rec', rec ∈ bs -> rec' ∈ bs' -> lr_name rec' = lr_name rec -> reordered (lr_value rec) (lr_value rec').

Inductive clo_rel : clo -> clo -> Prop :=
| cr_clo rho c rho' c' :
    env_rel rho rho' -> reordered c c' -> (forall x, free_in x c' -> kept rho rho' x) ->
    clo_rel (Clo rho c) (Clo rho' c')
with env_rel : env -> env -> Prop :=
| er_nil : env_rel ENil ENil
| er_bind x cl cl' rho rho' : clo_rel cl cl' -> env_rel rho rho' -> env_rel (EBind x cl rho) (EBind x cl' rho')
| er_rec bs bs' rho rho' :
    env_rel rho rho' -> bindings_rel bs bs' ->
    (forall rec x, rec ∈ bs' -> free_in x (lr_value rec) -> kept (ERec bs rho) (ERec bs' rho') x) ->
    env_rel (ERec bs rho) (ERec bs' rho').

Lemma find_rec_Some bs x rec : find_rec bs x = Some rec -> rec ∈ bs /\ lr_name rec = x.
Proof. unfold find_rec. intros [H1 H2]%find_some. split; [by apply list_elem_of_In | by apply String.eqb_eq]. Qed.

Lemma find_rec_in bs x : x ∈ map lr_name bs -> exists rec, find_rec bs x = Some rec.
Proof.
  intros (rec & -> & Hr%list_elem_of_In)%elem_of_map. unfold find_rec.
  destruct (List.find _ bs) as [r|] eqn:E; [by exists r|]. apply (find_none _ _ E) in Hr. by rewrite String.eqb_refl in Hr.
Qed.

Lemma find_rec_notin bs x : x ∉ map lr_name bs -> find_rec bs x = None.
Proof.
  intros Hx. destruct (find_rec bs x) as [rec|] eqn:E; [|done]. apply find_rec_Some in E as [Hr <-].
  destruct Hx. apply elem_of_map. by exists rec.
Qed.

Lemma lookup_rel rho rho' x : env_rel rho rho' -> kept rho rho' x ->
  option_Forall2 clo_rel (env_lookup rho x) (env_lookup rho' x).
Proof.
  induction 1 as [|y cl cl' rho rho' Hcl He IH|bs bs' rho rho' He IH [Hs Hv] Hk]; cbn [kept env_lookup]; intros Hx.
  - constructor.
  - destruct (String.eqb_spec y x); [by constructor|]. apply IH. by destruct Hx.
  - destruct (decide (x ∈ map lr_name bs')) as [Hin|Hn].
    + destruct (find_rec_in bs' x Hin) as [rec' E']. destruct (find_rec_in bs x) as [rec E]; [by eapply elem_of_submseteq|].
      rewrite E, E'. apply find_rec_Some in E as [Hr E1]. apply find_rec_Some in E' as [Hr' E1'].
      constructor. constructor; [by constructor | apply Hv; congruence |]. intros y. by apply Hk.
    + destruct Hx as [Hx|[Hnx Hx]]; [done|]. rewrite !find_rec_notin by done. by apply IH.
Qed.

(** Entering a letrec. *)
Lemma enter_rec rho rho' sl bs b sl' bs' b' :
  clo_rel (Clo rho (SNODE_LETREC sl bs b)) (Clo rho' (SNODE_LETREC sl' bs' b')) ->
  clo_rel (Clo (ERec bs rho) b) (Clo (ERec bs' rho') b').
Proof.
  intros H. inversion H as [? ? ? ? He Hr Hk]; subst. destruct Hr as (-> & Hb & Hs & Hv & Hen). rewrite Forall_id_map in Hv.
  assert (Hkept : forall x, free_in x b' \/ (exists rec, rec ∈ bs' /\ free_in x (lr_value rec)) -> kept (ERec bs rho) (ERec bs' rho') x).
  { intros x Hx. cbn [kept]. destruct (decide (x ∈ map lr_name bs)) as [Hin|Hn]; [left; by apply Hen|].
    right. split; [done|]. apply Hk, free_in_letrec. split; [intros Hin; apply Hn; by eapply elem_of_submseteq|].
    destruct Hx as [Hx|(rec & Hr & Hx)]; [by right|]. left. exists (lr_value rec). rewrite elem_of_map. eauto. }
  constructor; [|done|auto]. constructor; [done | | eauto]. split; [done|]. intros rec rec' Hr Hr' E. by apply Hv.
Qed.

(** ** Related programs *)

Definition sc_rel (f f' : list string * option snode) : Prop :=
  f'.1 = f.1 /\ option_Forall2 reordered f.2 f'.2.
Definition code_rel : code -> code -> Prop := Forall2 sc_rel.

Lemma bind_args_rel xs : forall args args', Forall2 clo_rel args args' ->
  env_rel (bind_args xs args) (bind_args xs args') /\ forall x, kept (bind_args xs args) (bind_args xs args') x.
Proof.
  induction xs as [|y xs IH]; intros args args' H; cbn; [by split; [constructor|]|].
  inversion H as [|cl cl' l l' Hcl Hl]; subst; [by split; [constructor|]|].
  destruct (IH _ _ Hl) as [H1 H2]. split; [by constructor | by right].
Qed.

Lemma code_rel_arity P Q h : code_rel P Q -> arity Q h = arity P h.
Proof.
  unfold code_rel, code in *. intros H. destruct h as [p|bif]; [|done]. cbn. unfold code. destruct (P !! p) as [[xs ob]|] eqn:E.
  - eapply Forall2_lookup_l in H as ([xs' ob'] & -> & [E' _]); [|exact E]. cbn in *. by subst.
  - rewrite lookup_ge_None in E. rewrite (Forall2_length _ _ _ H) in E. by apply lookup_ge_None in E as ->.
Qed.

Lemma reordered_leaf c c' : reordered c c' ->
  match c with
  | SNODE_APPLICATION _ _ _ _ | SNODE_LETREC _ _ _ => True
  | _ => c' = c
  end.
Proof. by destruct c. Qed.

Lemma reorder_simulates P Q : code_rel P Q -> simulation P Q clo_rel.
Proof.
  intros HPQ. split.
  - intros rho sl x [rho' c'] rho1 c1 H Hl. inversion H as [? ? ? ? He Hr Hk]; subst. apply reordered_leaf in Hr as ->.
    pose proof (lookup_rel rho rho' x He (Hk x eq_refl)) as Hr. rewrite Hl in Hr.
    inversion Hr as [? [rho1' c1'] H1 E1 E2|]; subst. eauto 10.
  - intros rho c rho' c' H. inversion H as [? ? ? ? He Hr Hk]; subst. apply reordered_leaf in Hr.
    destruct c; try done; subst; eauto.
  - intros rho sl st l r [rho' c'] H. inversion H as [? ? ? ? He Hr Hk]; subst.
    destruct c' as [sl' st' l' r'| | | | | | | |]; try done. destruct Hr as (-> & -> & Hl & Hr).
    exists rho', sl, st, l', r'. split_and!; [done | |]; (constructor; [done | done |]); intros x Hx; apply Hk; cbn; auto.
  - intros rho sl bs b [rho' c'] H. inversion H as [? ? ? ? He Hr Hk]; subst.
    destruct c' as [| | | |sl' bs' b'| | | |]; try done. exists rho', sl', bs', b'. split; [done|]. by eapply enter_rec.
  - intros h. by apply code_rel_arity.
  - intros p xs body args args' Hp Hargs. eapply Forall2_lookup_l in HPQ as ([xs' ob] & Hq & [E Ho]); [|exact Hp].
    cbn in *. subst. inversion Ho as [? body' Hb|]; subst. exists body'. split; [done|].
    destruct (bind_args_rel xs args args' Hargs). by constructor.
Qed.

Lemma reorder_simulated P Q : code_rel P Q -> simulation Q P (flip clo_rel).
Proof.
  intros HPQ. split.
  - intros rho' sl x [rho c] rho1 c1 H Hl. unfold flip in *. inversion H as [? ? ? ? He Hr Hk]; subst.
    destruct c; try done; (try by apply reordered_leaf in Hr). injection (reordered_leaf _ _ Hr) as -> ->.
    pose proof (lookup_rel _ _ _ He (Hk _ eq_refl)) as Hrel. rewrite Hl in Hrel.
    inversion Hrel as [[rho1' c1'] ? H1 E1 E2|]; subst. eauto 10.
  - intros rho c rho' c' H. inversion H as [? ? ? ? He Hr Hk]; subst.
    destruct c, c'; try done; try (by destruct Hr as (_ & _ & _)); try (injection (reordered_leaf _ _ Hr) as -> ->); eauto;
      try (by apply reordered_leaf in Hr).
  - intros rho' sl st l' r' [rho c] H. inversion H as [? ? ? ? He Hr Hk]; subst.
    destruct c as [sl1 st1 l r| | | | | | | |]; try (by apply reordered_leaf in Hr); [|done]. destruct Hr as (-> & -> & Hl & Hr).
    exists rho, sl1, st1, l, r. split_and!; [done | |]; (constructor; [done | done |]); intros x Hx; apply Hk; cbn; auto.
  - intros rho' sl bs' b' [rho c] H. inversion H as [? ? ? ? He Hr Hk]; subst.
    destruct c as [| | | |sl1 bs b| | | |]; try (by apply reordered_leaf in Hr); [done|].
    exists rho, sl1, bs, b. split; [done|]. by eapply enter_rec.
  - intros h. symmetry. by apply code_rel_arity.
  - intros p xs body' args' args Hp Hargs. eapply Forall2_lookup_r in HPQ as ([xs0 ob] & Hq & [E Ho]); [|exact Hp].
    cbn in *. subst. inversion Ho as [body ? Hb|]; subst. exists body. split; [done|].
    apply Forall2_flip in Hargs. destruct (bind_args_rel xs0 args args' Hargs). by constructor.
Qed.

(** Marks play no part. *)
Lemma free_in_erase x c : free_in x (erase c) <-> free_in x c.
Proof.
  snode_induction c; cbn [erase free_in]; try tauto; rewrite ?IHl, ?IHr, ?IHb; try done.
  rewrite Forall_forall in IHbs. rewrite !map_map. cbn. rewrite !Exists_exists. setoid_rewrite elem_of_map.
  split; intros [Hn [(A & (rec & -> & Hr) & HA)|H]]; (split; [done|]); try (by right); left;
    eexists; (split; [by exists rec|]); cbn in *; by apply IHbs.
Qed.

Lemma enough_erase names bs b :
  enough names bs b -> enough names (map (fun rec => Letrec (lr_name rec) (erase (lr_value rec)) false) bs) (erase b).
Proof.
  intros He x Hx Hf. rewrite map_map. cbn. apply He; [done|]. destruct Hf as [Hf|(rec & (r & -> & Hr)%elem_of_map & Hf)].
  - left. by apply free_in_erase.
  - right. exists r. split; [done|]. cbn in Hf. by apply (proj1 (free_in_erase _ _)).
Qed.

Lemma reordered_erase c : forall c', reordered c c' -> reordered (erase c) (erase c').
Proof.
  snode_induction c; intros c' Hr; try (cbn in Hr; by subst c').
  - destruct c' as [sl' st' l' r'| | | | | | | |]; try done. destruct Hr as (-> & -> & Hl & Hr). cbn. auto.
  - destruct c' as [| | | |sl' bs' b'| | | |]; try done. destruct Hr as (-> & Hb & Hs & Hv & Hen).
    rewrite Forall_id_map in Hv. rewrite Forall_forall in IHbs. cbn [erase reordered]. rewrite !map_map. cbn [lr_name lr_strict lr_value].
    split_and!; [done | auto | done | | by apply enough_erase]. rewrite Forall_id_map.
    intros rec Hr rec' (r & -> & Hr')%elem_of_map E. split; [done|]. cbn in *. apply IHbs; [done|]. by apply Hv.
Qed.

Lemma reordered_refl c : NoDup (binders c) -> reordered c c.
Proof.
  snode_induction c; try done; cbn [reordered binders].
  - intros (H1 & _ & H2)%list.NoDup_app. auto.
  - intros (H1 & _ & (H2 & _ & H3)%list.NoDup_app)%list.NoDup_app. rewrite Forall_forall in IHbs.
    split_and!; [done | auto | done | | by intros x]. rewrite Forall_id_map. intros rec Hr rec' Hr' E.
    assert (rec' = rec) as ->; [|split; [done|]; apply IHbs; [done | by eapply concat_binders_nodup]].
    apply (same_name [bs]); unfold names_of; cbn; rewrite ?app_nil_r; done.
Qed.

(** Supercombinators that are no longer in the table may have any body with
    distinct names. *)
Definition distinct_names (src : source) : Prop :=
  forall p sc body, src_heap src !! p = Some sc -> sc_body sc = Some body -> NoDup (binders body).

Lemma reorders_code ps src src' : distinct_names src -> reorders_program ps src src' -> code_rel (code_of src) (code_of src').
Proof.
  intros Hd HR. unfold code_rel. apply Forall2_same_length_lookup. unfold code_of.
  split; [by rewrite !length_fmap, (rp_length _ _ _ HR)|].
  intros p f f' Hf Hf'. rewrite list_lookup_fmap in Hf, Hf'.
  destruct (src_heap src !! p) as [sc|] eqn:Esc; [|done]. injection Hf as <-.
  destruct (decide (p ∈ ps)) as [Hin|Hn].
  - destruct (rp_done _ _ _ HR p sc Hin Esc) as (sc' & Esc' & b & b' & Eb & -> & Hr). rewrite Esc' in Hf'.
    injection Hf' as <-. split; [done|]. cbn. rewrite Eb. constructor. by apply reordered_erase.
  - rewrite (rp_other _ _ _ HR p Hn), Esc in Hf'. injection Hf' as <-. split; [done|]. cbn.
    destruct (sc_body sc) as [b|] eqn:Eb; constructor. apply reordered_refl. rewrite binders_erase. by eapply Hd.
Qed.

(** C16. Letrec reordering keeps the meaning of the program, whatever the built-ins
    do as long as they treat closures alike: a function applied to arguments
    has a value in the new program exactly when it has one in the old, and the
    values are the same up to reordering inside closures. *)
Theorem reorder_meaning fuel src bif_sem :
  wf_source src -> (forall p, p ∈ src_scombs src -> prepared src p) -> distinct_names src ->
  (forall p sc body, p ∈ src_scombs src -> src_heap src !! p = Some sc -> sc_body sc = Some body -> snode_size body < fuel) ->
  parametric bif_sem clo_rel -> parametric bif_sem (flip clo_rel) ->
  exists src', reorder_all fuel src (src_scombs src) = Done src' /\
    forall h args args', Forall2 clo_rel args args' ->
      (forall v, apply (code_of src) bif_sem h args v -> exists v', apply (code_of src') bif_sem h args' v' /\ value_rel clo_rel v v') /\
      (forall v', apply (code_of src') bif_sem h args' v' -> exists v, apply (code_of src) bif_sem h args v /\ value_rel clo_rel v v').
Proof.
  intros Hwf Hp Hd Hsz Hpar Hpar'.
  destruct (reorder_all_ok fuel (src_scombs src) src Hwf (wf_nodup _ Hwf)) as (src' & E & HR).
  { intros p Hin. destruct (Hp p Hin) as (sc & body & Hsc & Hb & Hrest). exists sc, body.
    split_and!; [done | done | | by eapply Hsz]. by eapply prepared_tidy; [apply Hp| |]. }
  exists src'. split; [done|]. intros h args args' Hargs. pose proof (reorders_code _ _ _ Hd HR) as HC. split.
  - intros v Ha. by eapply (simulate _ _ _ _ (reorder_simulates _ _ HC) Hpar).
  - intros v' Ha. destruct (proj1 (proj2 (simulate _ _ _ _ (reorder_simulated _ _ HC) Hpar')) h args' v' Ha args) as (v & Hv & Hr).
    + by apply Forall2_flip.
    + exists v. split; [done|]. by apply value_rel_flip.
Qed.

(** Addition of numbers as the only built-in. *)
Definition sample_bif_sem (bif : nat) (vs : list value) (cls : list clo) (r : value + clo) : Prop :=
  bif = B_ADD /\ exists a b, vs = [VNum a; VNum b] /\ cls = [] /\ r = inl (VNum (a + b)).

Lemma sample_parametric R : parametric sample_bif_sem R.
Proof.
  intros bif vs cls r vs' cls' (-> & a & b & -> & -> & ->) Hvs Hcls. inversion Hcls; subst.
  inversion Hvs as [|? va ? ? Ha T1]; subst. inversion T1 as [|? vb ? ? Hb T2]; subst. inversion T2; subst.
  inversion Ha; inversion Hb; subst. exists (inl (VNum (a + b))). split; [|constructor]. split; [done|]. by exists a, b.
Qed.

Lemma reorder_meaning_witness :
  exists src', reorder_all 50 (source_of [sample_letter]) [0] = Done src' /\
    forall h args args', Forall2 clo_rel args args' ->
      (forall v, apply (code_of (source_of [sample_letter])) sample_bif_sem h args v ->
        exists v', apply (code_of src') sample_bif_sem h args' v' /\ value_rel clo_rel v v') /\
      (forall v', apply (code_of src') sample_bif_sem h args' v' ->
        exists v, apply (code_of (source_of [sample_letter])) sample_bif_sem h args v /\ value_rel clo_rel v v').
Proof.
  apply (reorder_meaning 50 (source_of [sample_letter]) sample_bif_sem).
  - apply source_of_wf, NoDup_singleton.
  - intros p ->%list_elem_of_singleton. apply sample_letter_prepared.
  - intros [|p] sc body; [|done]. intros [= <-] [= <-]. by apply (bool_decide_unpack (NoDup ["c"; "b"; "d"; "a"])).
  - intros p sc body ->%list_elem_of_singleton [= <-] [= <-]. cbn. lia.
  - apply sample_parametric.
  - apply sample_parametric.
Defined.
