(* ===== verification/Nonstrict.v ===== *)
(** * Non-strict expression lifting (src/nreduce/compiler/lifting.c)

    An argument whose evaluation is suspended costs one frame per call in it.
    [nonstrict_lift] moves every such argument with calls among its own
    arguments into a supercombinator, so that a single frame stands for all of
    it. The new supercombinator is analysed for strictness at once and never
    sparks its arguments. *)

From S2P Require Import Prelude CString Builtins Util Source Resolve Lifting LiftingFacts LiftingCreate Semantics Reorder ReorderMeaning Double Bytecode StackDiscipline Applift AppliftFacts Strictness StrictnessFacts.

Definition is_application (c : snode) : bool :=
  match c with SNODE_APPLICATION _ _ _ _ => true | _ => false end.

(** [nappargs]: how many of the arguments are calls themselves. *)
Definition nappargs (c : snode) : nat := length (List.filter is_application (spine_args c)).

Definition is_cons_call (c : snode) : bool :=
  match spine_head c with SNODE_BUILTIN _ bif => Nat.eqb bif B_CONS || Nat.eqb bif B_LCONS | _ => false end.

(** The fields the new supercombinator gets before it is analysed. *)
Definition init_lifted (sc : scomb) : scomb :=
  set_strictin (Some (replicate (sc_nargs sc) false)) (Some (replicate (sc_nargs sc) false)) sc.
Definition set_nospark (sc : scomb) : scomb :=
  Scomb (sc_name sc) (sc_argnames sc) (sc_body sc) (sc_index sc) (sc_strictin sc) (sc_lazyin sc) (sc_sl sc)
    (sc_modname sc) true (sc_doesappend sc) (sc_appendver sc) (sc_caninline sc).

Section nonstrict_step.
Context (fuel : nat) (rec_ : source -> string -> snode -> outcome (source * snode)).

(** [nonstrict_lift(src,newsc)] of the supercombinator at [p]. *)
Definition nonstrict_with (src : source) (p : nat) : outcome source :=
  sc ← getsc src p;
  body ← deref (sc_body sc);
  '(src, body) ← rec_ src (sc_name sc) body;
  Done (upd src p (set_body body)).

Definition lift_if_complex (src : source) (name : string) (k : snode) : outcome (source * snode) :=
  if Nat.ltb 0 (nappargs k) then
    if is_cons_call k then rec_ src name k
    else
      '(src, p, k) ← lift_expr src name k;
      let src := upd src p init_lifted in
      '(src, _) ← check_strictness fuel src p false;
      let src := upd src p set_nospark in
      src ← nonstrict_with src p;
      Done (src, k)
  else Done (src, k).

Fixpoint nonstrict_values (src : source) (name : string) (bs : list letrec) : outcome (source * list letrec) :=
  match bs with
  | [] => Done (src, [])
  | rec :: bs =>
      '(src, v) ← rec_ src name (lr_value rec);
      '(src, bs) ← nonstrict_values src name bs;
      Done (src, set_value v rec :: bs)
  end.
End nonstrict_step.

(** The arguments of [if] and [seq] count as strict. *)
Definition runs_in_place (st : bool) (h : snode) : bool := st || is_bif B_IF h || is_bif B_SEQ h.

(** [nonstrict_lift_r(src,k,sc)]; [name] is [sc->name]. An abstraction falls
    through the [switch]. *)
Fixpoint nonstrict_lift_r (fuel : nat) (src : source) (name : string) (k : snode) : outcome (source * snode) :=
  match fuel with
  | O => Timeout
  | S fuel =>
      match k with
      | SNODE_APPLICATION sl st l r =>
          '(src, r) ← (if runs_in_place st (spine_head k) then nonstrict_lift_r fuel src name r
                       else lift_if_complex fuel (nonstrict_lift_r fuel) src name r);
          '(src, l) ← nonstrict_lift_r fuel src name l;
          Done (src, SNODE_APPLICATION sl st l r)
      | SNODE_LETREC sl bs b =>
          '(src, bs) ← nonstrict_values (nonstrict_lift_r fuel) src name bs;
          '(src, b) ← nonstrict_lift_r fuel src name b;
          Done (src, SNODE_LETREC sl bs b)
      | SNODE_SYMBOL _ _ | SNODE_BUILTIN _ _ | SNODE_SCREF _ _ | SNODE_NIL _ | SNODE_NUMBER _ _
      | SNODE_STRING _ _ | SNODE_LAMBDA _ _ _ => Done (src, k)
      end
  end.

Definition nonstrict_lift (fuel : nat) (src : source) (p : nat) : outcome source :=
  nonstrict_with (nonstrict_lift_r fuel) src p.

(** The loop of [source_process]. Its bound is the number of supercombinators
    before it; the ones it adds have been through the pass when they were
    made. *)
Fixpoint nonstrict_all (fuel : nat) (src : source) (ps : list nat) : outcome source :=
  match ps with
  | [] => Done src
  | p :: ps => src ← nonstrict_lift fuel src p; nonstrict_all fuel src ps
  end.

(** ** What non-strict expression lifting establishes

    After the pass no suspended argument contains a call among its own
    arguments, so building it takes one frame at most; the supercombinators it
    makes have been analysed, and everything the earlier passes established
    still holds. *)

(** ** Shape of the result *)

(** A suspended argument is a constant, a name, a letrec, or a call whose
    arguments are not calls; a cons cell is built in place, and so are the
    arguments of [if] and [seq] and marked ones. *)
Fixpoint shallow (c : snode) : Prop :=
  match c with
  | SNODE_APPLICATION _ st l r =>
      (if runs_in_place st (spine_head l) then shallow r
       else nappargs r = 0 \/ (is_cons_call r = true /\ shallow r)) /\ shallow l
  | SNODE_LETREC _ bs b => Forall id (map (fun rec => shallow (lr_value rec)) bs) /\ shallow b
  | _ => True
  end.

(** What the traversal needs to know of an expression: below its spine all is
    flat. *)
Definition spine_flat (src : source) (c : snode) : Prop :=
  Forall (flat src) (spine_args c) /\ flat src (spine_head c) /\ (0 < count_args c -> ~ letrec_head c).

Lemma fits_le src h m n : n <= m -> fits src h m -> fits src h n.
Proof. intros Hle. destruct h; cbn [fits]; try done; by apply fun_ok_le. Qed.

Lemma fits_not_letrec src c m : fits src (spine_head c) m -> ~ letrec_head c.
Proof. intros Hf (lsl & bs & b & E). by rewrite E in Hf. Qed.

Lemma fits_flat src h m : (forall sl st l r, h <> SNODE_APPLICATION sl st l r) -> fits src h m -> flat src h.
Proof. intros Hh. destruct h; cbn [fits flat]; try done; intros H; by apply (fun_ok_le _ _ m 0) in H; [|lia]. Qed.

Lemma flat_fits src c : flat src c -> 0 < count_args c -> fits src (spine_head c) (count_args c).
Proof. destruct c; cbn; try lia. tauto. Qed.

Lemma flat_spine src c : flat src c -> spine_flat src c.
Proof.
  intros Hf. split_and!.
  - snode_induction c; cbn [spine_args]; try constructor; cbn [flat] in Hf; [tauto | apply IHl; tauto].
  - snode_induction c; cbn [spine_head]; try done. apply IHl. apply Hf.
  - intros Hc. eapply fits_not_letrec, flat_fits; done.
Qed.

Lemma spine_flat_flat src c : spine_flat src c -> (0 < count_args c -> fits src (spine_head c) (count_args c)) -> flat src c.
Proof.
  snode_induction c; intros (Ha & Hh & Hl) Hf; try exact Hh. cbn [spine_args spine_head count_args] in *.
  apply Forall_cons in Ha as [Hr Ha]. pose proof (Hf ltac:(lia)) as Hfit. cbn [flat]. split_and!; [done | | done].
  apply IHl; [split_and!; [done | done | intros _; by eapply fits_not_letrec] | intros _; eapply fits_le; [|done]; lia].
Qed.

Lemma flat_body_spine src c : flat_body src c -> spine_flat src c.
Proof.
  intros [H|(Hc & Hh & Ha)]; [by apply flat_spine|]. split_and!; [done | |].
  - destruct (spine_head c) eqn:E; cbn [root_head flat] in *; try done.
  - intros _ (lsl & bs & b & E). by rewrite E in Hh.
Qed.

Lemma flat_body_intro src c : spine_flat src c ->
  (0 < count_args c -> fits src (spine_head c) (count_args c) \/ root_head src (spine_head c)) -> flat_body src c.
Proof.
  intros Hs Hr. destruct (decide (count_args c = 0)) as [E|E]; [left; apply spine_flat_flat; [done | lia]|].
  destruct (Hr ltac:(lia)) as [Hf|Hf]; [left; by apply spine_flat_flat | right]. split_and!; [lia | done | apply Hs].
Qed.

Lemma spine_flat_sigs src src' c : same_sigs src src' -> spine_flat src c -> spine_flat src' c.
Proof.
  intros Hs (Ha & Hh & Hl). split_and!; [|by eapply flat_sigs | done]. eapply Forall_impl; [exact Ha|]. intros a. by apply flat_sigs.
Qed.

Lemma spine_flat_app src sl st l r : spine_flat src (SNODE_APPLICATION sl st l r) -> spine_flat src l /\ flat src r.
Proof.
  intros (Ha & Hh & Hl). cbn [spine_args spine_head count_args] in *. apply Forall_cons in Ha as [Hr Ha].
  split; [split_and!; [done | done | intros _; apply Hl; lia] | done].
Qed.

Lemma flat_plain src c : flat src c -> plain src c.
Proof.
  snode_induction c; cbn [flat plain]; try done; [intros (_ & Hl & Hr); auto|].
  rewrite !Forall_id_map. rewrite Forall_forall in IHbs. intros [Hv Hb]. split; auto.
Qed.

(** ** Under other marks *)

Lemma fun_ok_erase src h m : fun_ok src (erase h) m <-> fun_ok src h m.
Proof. by destruct h. Qed.

Lemma fits_erase src h m : fits src (erase h) m <-> fits src h m.
Proof. by destruct h. Qed.

Lemma flat_erase src c : flat src (erase c) <-> flat src c.
Proof.
  snode_induction c; cbn [erase flat]; try done.
  - rewrite spine_head_erase, count_args_erase, fits_erase. tauto.
  - rewrite IHb, map_map, !Forall_id_map. cbn. rewrite Forall_forall in IHbs.
    split; intros [H1 H2]; split; try done; intros rec Hr; by apply IHbs; auto.
Qed.

Lemma unique_erase c c' : erase c' = erase c -> unique c -> unique c'.
Proof.
  intros E [Hn Hf]. unfold unique. rewrite <- (binders_erase c'), E, binders_erase. split; [done|].
  intros x Hx Hfx. apply (Hf x Hx). by rewrite <- free_in_erase, <- E, free_in_erase.
Qed.

(** ** The table grows *)

(** A supercombinator the pass made. *)
Definition helper (src : source) (q : nat) : Prop :=
  prepared src q /\ exists sc body st, src_heap src !! q = Some sc /\ sc_body sc = Some body /\ shallow body /\
    sc_strictin sc = Some st /\ length st = sc_nargs sc /\ sc_nospark sc = true.

(** The pass only adds helpers. *)
Record splits (src src' : source) : Prop := {
  sp_wf : wf_source src';
  sp_old : forall q, q ∈ src_scombs src -> q ∈ src_scombs src';
  sp_same : forall q, q ∈ src_scombs src -> src_heap src' !! q = src_heap src !! q;
  sp_new : forall q, q ∈ src_scombs src' -> q ∉ src_scombs src -> helper src' q
}.

Lemma splits_sigs src src' : splits src src' -> same_sigs src src'.
Proof. intros [_ Ho Hs _] q sc Hq Hh. split; [by apply Ho|]. exists sc. by rewrite Hs. Qed.

Lemma helper_sigs src src' q : same_sigs src src' -> src_heap src' !! q = src_heap src !! q -> helper src q -> helper src' q.
Proof.
  intros Hs He [Hp (sc & body & st & H1 & H2)]. split; [by eapply prepared_sigs|]. exists sc, body, st. by rewrite He.
Qed.

Lemma splits_refl src : wf_source src -> splits src src.
Proof. by split. Qed.

Lemma splits_trans src1 src2 src3 : splits src1 src2 -> splits src2 src3 -> splits src1 src3.
Proof.
  intros H12 H23. split; [apply H23 | intros q Hq; by apply H23, H12 | |].
  - intros q Hq. rewrite (sp_same _ _ H23) by (by apply H12). by apply H12.
  - intros q Hq Hn. destruct (decide (q ∈ src_scombs src2)) as [H2|H2]; [|by apply H23].
    eapply helper_sigs; [by apply splits_sigs | by apply H23 | by apply H12].
Qed.

Lemma splits_ready src src' : splits src src' -> strict_ready src -> strict_ready src'.
Proof.
  intros [_ Ho Hs Hn] Hr q Hq. destruct (decide (q ∈ src_scombs src)) as [H|H].
  - destruct (Hr q H) as (sc & st & E & ?). exists sc, st. by rewrite Hs.
  - destruct (Hn q Hq H) as [_ (sc & body & st & ? & _ & _ & ? & ? & _)]. by exists sc, st.
Qed.

(** The analysis of one supercombinator whose own table is there. *)
Lemma check_strictness_one fuel src p sc body old ch :
  strict_ready src -> src_heap src !! p = Some sc -> sc_body sc = Some body -> plain src body -> NoDup (binders body) ->
  snode_size body <= fuel -> sc_strictin sc = Some old -> length old = sc_nargs sc ->
  exists body' flags ch', check_strictness fuel src p ch =
      Done (upd src p (fun sc => set_strictin (Some flags) (sc_lazyin sc) (set_body body' sc)), ch') /\
    erase body' = erase body /\ length flags = sc_nargs sc.
Proof.
  intros Hr Hsc Hb Hpl Hnd Hz Hst Hl. unfold check_strictness, getsc. rewrite Hsc. cbn [deref mbind outcome_bind].
  rewrite Hb. cbn [deref mbind outcome_bind].
  destruct (check_strictness_r_ok src (fun _ _ _ _ => False) Hr fuel body [] ch) as (body' & used & ch1 & E & [Hm _ _]); [by split | done |].
  rewrite E. cbn [mbind outcome_bind]. rewrite Hst. cbn [deref mbind outcome_bind].
  rewrite (proj2 (Nat.eqb_eq _ _) Hl). cbn [cassert mbind outcome_bind]. eexists body', _, _. split; [reflexivity|].
  split; [apply Hm|]. rewrite length_zip_with. unfold sc_nargs in *. lia.
Qed.

Lemma upd_upd src p f g : upd (upd src p f) p g = upd src p (fun sc => g (f sc)).
Proof.
  unfold upd, set_heap. cbn. f_equal. apply list_eq. intros q. destruct (decide (q = p)) as [->|Hne].
  - rewrite !list_lookup_alter_eq. by destruct (src_heap src !! p).
  - by rewrite !list_lookup_alter_ne.
Qed.

(** ** A new entry *)

(** From [src] to [src1] the entry [p] has been made. *)
Record entered (src src1 : source) (p : nat) (sc : scomb) : Prop := {
  en_wf : wf_source src1;
  en_scombs : src_scombs src1 = src_scombs src ++ [p];
  en_new : p ∉ src_scombs src;
  en_old : forall q, q ∈ src_scombs src -> src_heap src1 !! q = src_heap src !! q;
  en_entry : src_heap src1 !! p = Some sc
}.

Lemma entered_upd src src1 p sc f : (forall sc, sc_name (f sc) = sc_name sc) -> entered src src1 p sc -> entered src (upd src1 p f) p (f sc).
Proof.
  intros Hn [H1 H2 H3 H4 H5]. split; [by apply upd_wf | done | done | |].
  - intros q Hq. rewrite upd_same by congruence. by apply H4.
  - cbn. by rewrite list_lookup_alter_eq, H5.
Qed.

Lemma entered_sigs src src1 p sc : entered src src1 p sc -> same_sigs src src1.
Proof.
  intros [_ H2 _ H4 _] q s Hq Hs. rewrite H2, elem_of_app. split; [by left|]. exists s. by rewrite H4.
Qed.

Lemma entered_in src src1 p sc q : entered src src1 p sc -> q ∈ src_scombs src1 <-> q ∈ src_scombs src \/ q = p.
Proof. intros H. by rewrite (en_scombs _ _ _ _ H), elem_of_app, list_elem_of_singleton. Qed.

Lemma entered_ready src src1 p sc st : entered src src1 p sc -> strict_ready src -> sc_strictin sc = Some st ->
  length st = sc_nargs sc -> strict_ready src1.
Proof.
  intros He Hr Hst Hl q [Hq| ->]%(entered_in _ _ _ _ _ He).
  - rewrite (en_old _ _ _ _ He q Hq). by apply Hr.
  - exists sc, st. by rewrite (en_entry _ _ _ _ He).
Qed.

(** Storing a body keeps every signature. *)
Lemma set_body_sigs src p b : same_sigs src (upd src p (set_body b)).
Proof.
  intros q sc Hq Hs. split; [done|]. destruct (decide (q = p)) as [->|Hne].
  - exists (set_body b sc). split; [|done]. cbn. by rewrite list_lookup_alter_eq, Hs.
  - exists sc. by rewrite upd_same.
Qed.

(** The entry is finished when its body is as a prepared one's. *)
Lemma entered_splits src src3 src4 p sc3 st b : entered src src3 p sc3 -> splits src3 src4 ->
  sc_strictin sc3 = Some st -> length st = sc_nargs sc3 -> sc_nospark sc3 = true ->
  flat src4 b -> shallow b -> (forall x, free_in x b -> x ∈ sc_argnames sc3) -> NoDup (sc_argnames sc3 ++ binders b) ->
  splits src (upd src4 p (set_body b)).
Proof.
  intros He Hsp Hst Hl Hns Hf Hsh Hfree Hnd. pose proof (set_body_sigs src4 p b) as Hsig.
  assert (src_heap (upd src4 p (set_body b)) !! p = Some (set_body b sc3)) as Hp.
  { cbn. rewrite list_lookup_alter_eq, (sp_same _ _ Hsp); [by rewrite (en_entry _ _ _ _ He)|]. apply (entered_in _ _ _ _ _ He). by right. }
  split.
  - apply upd_wf; [done | apply Hsp].
  - intros q Hq. apply (sp_old _ _ Hsp), (entered_in _ _ _ _ _ He). by left.
  - intros q Hq. rewrite upd_same by (intros ->; by apply (en_new _ _ _ _ He)).
    rewrite (sp_same _ _ Hsp); [by apply (en_old _ _ _ _ He)|]. apply (entered_in _ _ _ _ _ He). by left.
  - intros q Hq Hqn. destruct (decide (q = p)) as [->|Hne].
    + split; [|by exists (set_body b sc3), b, st]. exists (set_body b sc3), b. split_and!; try done. left. by eapply flat_sigs.
    + eapply helper_sigs; [done | by rewrite upd_same |]. apply (sp_new _ _ Hsp); [done|]. rewrite (entered_in _ _ _ _ _ He). naive_solver.
Qed.

Lemma make_app_simple sl p args : let c := make_app (SNODE_SCREF sl p) args in nappargs c = 0 /\ shallow c.
Proof.
  cbn zeta. unfold nappargs. induction args as [|x args [IHn IHs]] using rev_ind; [done|]. rewrite make_app_snoc.
  cbn [spine_args List.filter is_application shallow]. split; [exact IHn|]. split; [|exact IHs].
  destruct (runs_in_place false _); [done | by left].
Qed.

(** ** The traversal *)

(** The result for an expression. *)
Definition splits_to (src : source) (k : snode) (r : outcome (source * snode)) : Prop :=
  exists src' k', r = Done (src', k') /\ splits src src' /\ kept k k' /\ spine_flat src' k' /\ shallow k' /\
    count_args k' = count_args k /\ (~ letrec_head k -> spine_head k' = spine_head k).

Definition may_split (src : source) (k : snode) (fuel : nat) : Prop := spine_flat src k /\ unique k /\ snode_size k <= fuel.

Lemma may_split_sigs src src' k fuel : same_sigs src src' -> may_split src k fuel -> may_split src' k fuel.
Proof. intros Hs (? & ? & ?). split_and!; [by eapply spine_flat_sigs | done | done]. Qed.

Section step.
Context (fuel : nat).
#[local] Abbreviation rec_ := (nonstrict_lift_r fuel).
Hypothesis IH : forall src name k, wf_source src -> strict_ready src -> may_split src k fuel -> splits_to src k (rec_ src name k).

(** The entry made by [lift_expr] gets its table and the marks in its body. *)
Lemma analyse_new src src1 p sc k : entered src src1 p sc -> strict_ready src ->
  sc_body sc = Some k -> plain src k -> unique k -> snode_size k <= fuel ->
  exists src2 src3 sc3 body flags ch, check_strictness fuel (upd src1 p init_lifted) p false = Done (src2, ch) /\
    src3 = upd src2 p set_nospark /\ entered src src3 p sc3 /\ sc_body sc3 = Some body /\ sc_argnames sc3 = sc_argnames sc /\
    sc_strictin sc3 = Some flags /\ sc_nospark sc3 = true /\ erase body = erase k /\ length flags = sc_nargs sc3.
Proof using Type.
  intros He Hr Hb Hp Hu Hz. pose proof (entered_upd _ _ _ _ init_lifted ltac:(done) He) as Hi.
  assert (length (replicate (sc_nargs sc) false) = sc_nargs (init_lifted sc)) as Hlen by apply length_replicate.
  destruct (check_strictness_one fuel (upd src1 p init_lifted) p (init_lifted sc) k (replicate (sc_nargs sc) false) false)
    as (body & flags & ch & E & Her & Hl); try done.
  - by eapply entered_ready.
  - apply Hi.
  - by eapply plain_sigs; [eapply entered_sigs|].
  - apply Hu.
  - eexists _, _, _, body, flags, ch. split; [exact E|]. split; [reflexivity|].
    split; [apply entered_upd; [done|]; apply entered_upd; [done | exact Hi]|]. done.
Qed.

(** Results that are flat again. *)
Lemma splits_to_flat src src' k k' : flat src k -> splits src src' -> spine_flat src' k' -> count_args k' = count_args k ->
  (~ letrec_head k -> spine_head k' = spine_head k) -> flat src' k'.
Proof using Type.
  intros Hf Hsp Hs Hc Hh. apply spine_flat_flat; [done|]. rewrite Hc. intros Hpos. pose proof (flat_fits _ _ Hf Hpos) as Hfit.
  rewrite Hh by (by eapply fits_not_letrec). eapply fits_sigs; [by apply splits_sigs | done].
Qed.

(** A suspended call with calls among its arguments. *)
Lemma split_call src name k : wf_source src -> strict_ready src -> flat src k -> unique k -> snode_size k <= fuel ->
  exists src' c, ('(src, p, k) ← lift_expr src name k;
      let src := upd src p init_lifted in
      '(src, _) ← check_strictness fuel src p false;
      let src := upd src p set_nospark in
      src ← nonstrict_with rec_ src p;
      Done (src, k)) = Done (src', c) /\
    splits src src' /\ kept k c /\ flat src' c /\ nappargs c = 0 /\ shallow c.
Proof using IH.
  intros Hwf Hr Hf Hu Hz. pose proof (flat_plain _ _ Hf) as Hp.
  destruct (lift_expr_ok src name k Hwf Hp) as (src1 & p & sc & -> & Hwf1 & Hs1 & Hpn & Ho1 & Hsc & Hb & Hna & Hfv).
  cbn [mbind outcome_bind]. assert (entered src src1 p sc) as He by by split.
  destruct (analyse_new src src1 p sc k He Hr Hb Hp Hu Hz) as (src2 & src3 & sc3 & body & flags & ch & -> & -> & He3 & Hb3 & Ea & Hst & Hns & Her & Hl).
  cbn [mbind outcome_bind]. set (src3 := upd src2 p set_nospark) in *.
  unfold nonstrict_with, getsc. rewrite (en_entry _ _ _ _ He3). cbn [deref mbind outcome_bind]. rewrite Hb3. cbn [deref mbind outcome_bind].
  destruct (IH src3 (sc_name sc3) body) as (src4 & body4 & -> & Hsp & Hk & Hsf & Hsh & Hcnt & Hhd).
  { apply He3. } { by eapply entered_ready. }
  { split_and!; [|by eapply unique_erase | by rewrite <- snode_size_erase, Her, snode_size_erase].
    apply flat_spine, flat_erase. rewrite Her. apply flat_erase. by eapply flat_sigs; [eapply entered_sigs|]. }
  cbn [mbind outcome_bind]. assert (flat src4 body4) as Hf4.
  { apply (splits_to_flat src3 src4 body body4); [|done..]. apply flat_erase. rewrite Her. apply flat_erase. by eapply flat_sigs; [eapply entered_sigs|]. }
  assert (forall x, free_in x body <-> free_in x k) as Hfr by (intros x; by rewrite <- free_in_erase, Her, free_in_erase).
  assert (binders body = binders k) as Hbd by (by rewrite <- binders_erase, Her, binders_erase).
  destruct (make_app_call (node_sl k) p (sc_argnames sc)) as (_ & _ & Hbn & Hfc).
  assert (splits src (upd src4 p (set_body body4))) as Hres.
  { eapply (entered_splits src src3 src4 p sc3 flags); try done; rewrite Ea.
    - intros x Hx. apply Hfv, Hfr. by apply Hk.
    - apply list.NoDup_app. split_and!; [done | | apply Hk]. intros x Hx Hx'. apply Hfv in Hx. apply Hk in Hx'.
      rewrite Hbd in Hx'. by apply (proj2 Hu x). }
  eexists _, _. split; [reflexivity|]. split_and!; [exact Hres | | | by apply make_app_simple..].
  - split_and!; [intros x Hx; by apply Hfv, Hfc | rewrite Hbn; constructor | rewrite Hbn; in_nil].
  - apply make_app_flat. assert (p ∈ src_scombs src3) as Hin by (apply (entered_in _ _ _ _ _ He3); by right).
    split; [by apply Hsp|]. destruct (set_body_sigs src4 p body4 p sc3) as (_ & sc5 & H5 & Hn5).
    + by apply Hsp.
    + rewrite (sp_same _ _ Hsp) by done. apply He3.
    + exists sc5. split; [done|]. rewrite Hn5. unfold sc_nargs. by rewrite Ea.
Qed.

Lemma lift_if_complex_ok src name k : wf_source src -> strict_ready src -> flat src k -> unique k -> snode_size k <= fuel ->
  exists src' k', lift_if_complex fuel rec_ src name k = Done (src', k') /\ splits src src' /\ kept k k' /\ flat src' k' /\
    (nappargs k' = 0 \/ (is_cons_call k' = true /\ shallow k')).
Proof using IH.
  intros Hwf Hr Hf Hu Hz. unfold lift_if_complex. destruct (Nat.ltb_spec 0 (nappargs k)) as [Hn|Hn].
  - destruct (is_cons_call k) eqn:Ec.
    + destruct (IH src name k Hwf Hr) as (src' & k' & -> & Hsp & Hk & Hs & Hsh & Hcnt & Hh); [split_and!; [by apply flat_spine | done | done]|].
      exists src', k'. split_and!; [done | done | done | by eapply splits_to_flat |]. right. split; [|done].
      unfold is_cons_call in *. rewrite Hh; [done|]. intros (lsl & bs & b & E). by rewrite E in Ec.
    + destruct (split_call src name k Hwf Hr Hf Hu Hz) as (src' & c & E & H1 & H2 & H3 & H4 & _).
      exists src', c. split; [exact E|]. split_and!; try done. by left.
  - exists src, k. split_and!; [done | by apply splits_refl | by apply kept_refl | done | left; lia].
Qed.

Lemma nonstrict_values_ok name bs : forall src, wf_source src -> strict_ready src ->
  (forall rec, rec ∈ bs -> flat src (lr_value rec) /\ unique (lr_value rec) /\ snode_size (lr_value rec) <= fuel) ->
  exists src' bs', nonstrict_values rec_ src name bs = Done (src', bs') /\ splits src src' /\
    Forall2 kept_binding bs bs' /\ forall rec, rec ∈ bs' -> flat src' (lr_value rec) /\ shallow (lr_value rec).
Proof using IH.
  induction bs as [|rec bs IHbs]; intros src Hwf Hr Hok.
  { exists src, []. split_and!; [done | by apply splits_refl | constructor | in_nil]. }
  destruct (Hok rec (list_elem_of_here _ _)) as (Hf & Hu & Hs). cbn [nonstrict_values].
  destruct (IH src name (lr_value rec) Hwf Hr) as (src1 & v & -> & Hl1 & Hk1 & Hf1 & Hs1 & Hc1 & Hh1).
  { split_and!; [by apply flat_spine | done | done]. }
  cbn [mbind outcome_bind]. destruct (IHbs src1 (sp_wf _ _ Hl1)) as (src2 & bs' & -> & Hl2 & HF & Hf2).
  { by eapply splits_ready. }
  { intros r Hin. destruct (Hok r) as (? & ? & ?); [by right|]. split_and!; [|done|done]. by eapply flat_sigs; [apply splits_sigs|]. }
  exists src2, (set_value v rec :: bs'). split_and!; [done | by eapply splits_trans | by constructor |].
  intros r [->|Hin]%elem_of_cons; [|by apply Hf2]. split; [|done].
  eapply flat_sigs; [by apply splits_sigs | by eapply splits_to_flat].
Qed.

Lemma letrec_splits src name sl bs b : wf_source src -> strict_ready src -> may_split src (SNODE_LETREC sl bs b) (S fuel) ->
  splits_to src (SNODE_LETREC sl bs b) (nonstrict_lift_r (S fuel) src name (SNODE_LETREC sl bs b)).
Proof using IH.
  intros Hwf Hr ((_ & Hf & _) & Hu & Hsz). cbn [spine_head] in Hf. destruct (unique_letrec _ _ _ Hu) as [Hub Hubs].
  destruct Hf as [Hfbs Hfb]. rewrite Forall_id_map in Hfbs. cbn [nonstrict_lift_r].
  destruct (nonstrict_values_ok name bs src Hwf Hr) as (src1 & bs' & -> & Hl1 & HF & Hf1).
  { intros rec Hin. pose proof (letrec_value_size sl bs b rec Hin). split_and!; [auto | auto | lia]. }
  cbn [mbind outcome_bind]. cbn [snode_size] in Hsz.
  destruct (IH src1 name b (sp_wf _ _ Hl1)) as (src2 & b' & -> & Hl2 & Hk2 & Hf2 & Hs2 & Hc2 & Hh2).
  { by eapply splits_ready. }
  { split_and!; [|done | lia]. apply flat_spine. by eapply flat_sigs; [apply splits_sigs|]. }
  cbn [mbind outcome_bind]. eexists _, _. split; [reflexivity|].
  assert (flat src2 b') as Hfb' by (eapply splits_to_flat; [|done..]; by eapply flat_sigs; [apply splits_sigs|]).
  split_and!; [by eapply splits_trans | by apply kept_letrec | | | done | ].
  - apply flat_spine. cbn [flat]. rewrite Forall_id_map. split; [|done]. intros r Hin.
    eapply flat_sigs; [by apply splits_sigs | by apply Hf1].
  - cbn [shallow]. rewrite Forall_id_map. split; [|done]. intros r Hin. by apply Hf1.
  - intros Hl. destruct Hl. by exists sl, bs, b.
Qed.

Lemma app_splits src name sl st l r : let k := SNODE_APPLICATION sl st l r in
  wf_source src -> strict_ready src -> may_split src k (S fuel) -> splits_to src k (nonstrict_lift_r (S fuel) src name k).
Proof using IH.
  intros k Hwf Hr (Hs & Hu & Hsz). destruct (unique_app _ _ _ _ Hu) as [Hul Hur]. cbn [k snode_size] in Hsz.
  destruct (spine_flat_app _ _ _ _ _ Hs) as [Hsl Hfr]. subst k. cbn [nonstrict_lift_r].
  assert (exists src1 r', (if runs_in_place st (spine_head (SNODE_APPLICATION sl st l r)) then rec_ src name r else lift_if_complex fuel rec_ src name r)
      = Done (src1, r') /\ splits src src1 /\ kept r r' /\ flat src1 r' /\
      if runs_in_place st (spine_head l) then shallow r' else nappargs r' = 0 \/ (is_cons_call r' = true /\ shallow r'))
    as (src1 & r' & -> & Hl1 & Hk1 & Hf1 & Hsh1).
  { cbn [spine_head]. destruct (runs_in_place st (spine_head l)); [|apply lift_if_complex_ok; try done; lia].
    destruct (IH src name r Hwf Hr) as (src1 & r' & E & Hl1 & Hk1 & Hf1 & Hs1 & Hc1 & Hh1); [split_and!; [by apply flat_spine | done | lia]|].
    exists src1, r'. split_and!; try done. by eapply splits_to_flat. }
  cbn [mbind outcome_bind].
  destruct (IH src1 name l (sp_wf _ _ Hl1)) as (src2 & l' & -> & Hl2 & Hk2 & (Ha2 & Hd2 & Hn2) & Hsh2 & Hc2 & Hh2).
  { by eapply splits_ready. }
  { split_and!; [by eapply spine_flat_sigs; [apply splits_sigs|] | done | lia]. }
  cbn [mbind outcome_bind]. eexists _, _. split; [reflexivity|].
  assert (~ letrec_head l) as Hnl by (apply (proj2 (proj2 Hs)); cbn; lia).
  pose proof (Hh2 Hnl) as Hh. split_and!; [by eapply splits_trans | by apply kept_app | | | by cbn; f_equal | done].
  - split_and!; cbn [spine_args spine_head count_args].
    + apply Forall_cons. split; [by eapply flat_sigs; [apply splits_sigs|] | done].
    + done.
    + intros _ (lsl & bs & b & E). cbn in E; rewrite Hh in E. apply Hnl. by exists lsl, bs, b.
  - cbn [shallow]. rewrite Hh. done.
Qed.
End step.

(** An expression the traversal leaves alone. *)
Lemma leaf_splits src k : wf_source src -> spine_flat src k -> unique k -> shallow k -> splits_to src k (Done (src, k)).
Proof.
  intros Hwf Hs Hu Hsh. exists src, k. split; [done|]. split; [by apply splits_refl|]. split; [by apply kept_refl|]. done.
Qed.

(** One unit of fuel per node is enough. *)
Lemma nonstrict_lift_r_ok fuel : forall src name k, wf_source src -> strict_ready src -> may_split src k fuel ->
  splits_to src k (nonstrict_lift_r fuel src name k).
Proof.
  induction fuel as [|fuel IH]; intros src name k Hwf Hr Hm; [destruct Hm as (_ & _ & Hz); pose proof (snode_size_pos k); lia|].
  destruct k; try (by apply letrec_splits); try (by apply app_splits); apply leaf_splits; try done; apply Hm.
Qed.

(** ** A supercombinator and a program *)

(** What the pass starts from: a prepared body and its table. *)
Definition splittable (fuel : nat) (src : source) (p : nat) : Prop :=
  exists sc body, src_heap src !! p = Some sc /\ sc_body sc = Some body /\ flat_body src body /\
    (forall x, free_in x body -> x ∈ sc_argnames sc) /\ NoDup (sc_argnames sc ++ binders body) /\ snode_size body <= fuel.

(** What it leaves. *)
Definition suspended_shallow (src : source) (p : nat) : Prop :=
  prepared src p /\ exists sc body, src_heap src !! p = Some sc /\ sc_body sc = Some body /\ shallow body.

Lemma helper_shallow src q : helper src q -> suspended_shallow src q.
Proof. intros [Hp (sc & body & st & ? & ? & ? & _)]. split; [done|]. by exists sc, body. Qed.

Lemma suspended_shallow_sigs src src' q : same_sigs src src' -> src_heap src' !! q = src_heap src !! q ->
  suspended_shallow src q -> suspended_shallow src' q.
Proof. intros Hs He [Hp (sc & body & ?)]. split; [by eapply prepared_sigs|]. exists sc, body. by rewrite He. Qed.

Lemma splittable_sigs fuel src src' q : same_sigs src src' -> src_heap src' !! q = src_heap src !! q ->
  splittable fuel src q -> splittable fuel src' q.
Proof.
  intros Hs He (sc & body & ? & ? & ? & ?). exists sc, body. rewrite He. split_and!; try tauto. by eapply flat_body_sigs.
Qed.

(** The entry [p] is finished, the others are as before, new ones are helpers. *)
Record splits_at (p : nat) (src src' : source) : Prop := {
  sa_wf : wf_source src';
  sa_old : forall q, q ∈ src_scombs src -> q ∈ src_scombs src';
  sa_same : forall q, q ∈ src_scombs src -> q <> p -> src_heap src' !! q = src_heap src !! q;
  sa_entry : forall sc, src_heap src !! p = Some sc -> exists b, src_heap src' !! p = Some (set_body b sc);
  sa_done : suspended_shallow src' p;
  sa_new : forall q, q ∈ src_scombs src' -> q ∉ src_scombs src -> helper src' q
}.

Lemma splits_at_sigs p src src' : splits_at p src src' -> same_sigs src src'.
Proof.
  intros H q sc Hq Hs. split; [by apply H|]. destruct (decide (q = p)) as [->|Hne].
  - destruct (sa_entry _ _ _ H sc Hs) as [b Hb]. by exists (set_body b sc).
  - exists sc. by rewrite (sa_same _ _ _ H).
Qed.

Lemma splits_at_ready p src src' : splits_at p src src' -> strict_ready src -> strict_ready src'.
Proof.
  intros H Hr q Hq. destruct (decide (q ∈ src_scombs src)) as [Ho|Ho].
  - destruct (Hr q Ho) as (sc & st & Hs & ? & ?). destruct (decide (q = p)) as [->|Hne].
    + destruct (sa_entry _ _ _ H sc Hs) as [b Hb]. by exists (set_body b sc), st.
    + exists sc, st. by rewrite (sa_same _ _ _ H).
  - destruct (sa_new _ _ _ H q Hq Ho) as [_ (sc & body & st & ? & _ & _ & ? & ? & _)]. by exists sc, st.
Qed.

Lemma nonstrict_lift_ok fuel src p : wf_source src -> strict_ready src -> p ∈ src_scombs src -> splittable fuel src p ->
  exists src', nonstrict_lift fuel src p = Done src' /\ splits_at p src src'.
Proof.
  intros Hwf Hr Hp (sc & body & Hsc & Hb & Hf & Hfree & Hnd & Hz). apply list.NoDup_app in Hnd as (Hna & Hd & Hnb).
  assert (unique body) as Hu by (split; [done|]; intros x Hx Hfx; by apply (Hd x); auto).
  unfold nonstrict_lift, nonstrict_with, getsc. rewrite Hsc. cbn [deref mbind outcome_bind]. rewrite Hb. cbn [deref mbind outcome_bind].
  destruct (nonstrict_lift_r_ok fuel src (sc_name sc) body Hwf Hr) as (src1 & b & -> & Hsp & Hk & Hs & Hsh & Hc & Hh).
  { split_and!; [by apply flat_body_spine | done | done]. }
  cbn [mbind outcome_bind]. eexists. split; [reflexivity|].
  assert (src_heap (upd src1 p (set_body b)) !! p = Some (set_body b sc)) as Hp1.
  { cbn. by rewrite list_lookup_alter_eq, (sp_same _ _ Hsp), Hsc. }
  assert (flat_body src1 b) as Hfb.
  { destruct Hf as [Hf|(Hn & Hr' & Ha)]; [left; by eapply splits_to_flat|]. apply flat_body_intro; [done|]. intros _. right.
    rewrite Hh by (intros (lsl & bs & b' & E); by rewrite E in Hr'). destruct (spine_head body); cbn [root_head] in *; try done;
      by eapply fun_ok_sigs; [apply splits_sigs|]. }
  split.
  - apply upd_wf; [done | apply Hsp].
  - apply Hsp.
  - intros q Hq Hne. rewrite upd_same by done. by apply Hsp.
  - intros sc' Hs'. assert (sc' = sc) as -> by congruence. by exists b.
  - split; [|by exists (set_body b sc), b]. exists (set_body b sc), b. split_and!; [done | done | by eapply flat_body_sigs, Hfb; apply set_body_sigs | |].
    + intros x Hx. apply Hfree. by apply Hk.
    + apply list.NoDup_app. split_and!; [done | | apply Hk]. intros x Hx Hx'. apply Hk in Hx'. by apply (Hd x).
  - intros q Hq Hqn. eapply helper_sigs; [apply set_body_sigs | | by apply Hsp]. rewrite upd_same; [done|]. by intros ->.
Qed.

Lemma nonstrict_all_ok fuel ps : forall src, wf_source src -> strict_ready src -> NoDup ps ->
  (forall p, p ∈ ps -> p ∈ src_scombs src /\ splittable fuel src p) ->
  exists src', nonstrict_all fuel src ps = Done src' /\ wf_source src' /\ strict_ready src' /\ same_sigs src src' /\
    (forall q, q ∈ ps -> suspended_shallow src' q) /\
    (forall q, q ∈ src_scombs src -> q ∉ ps -> src_heap src' !! q = src_heap src !! q) /\
    (forall q, q ∈ src_scombs src' -> q ∉ src_scombs src -> helper src' q).
Proof.
  induction ps as [|p ps IH]; intros src Hwf Hr Hnd Hps.
  { exists src. split_and!; try done; [|in_nil]. intros q s Hq Hs. split; [done | by exists s]. }
  apply NoDup_cons in Hnd as [Hp Hnd]. destruct (Hps p (list_elem_of_here _ _)) as [Hlive Hsp].
  destruct (nonstrict_lift_ok fuel src p Hwf Hr Hlive Hsp) as (src1 & E & H). cbn [nonstrict_all]. rewrite E. cbn [mbind outcome_bind].
  pose proof (splits_at_sigs _ _ _ H) as Hsig.
  destruct (IH src1 (sa_wf _ _ _ H) (splits_at_ready _ _ _ H Hr) Hnd) as (src2 & -> & Hwf2 & Hr2 & Hs2 & Hall & Hsame & Hnew).
  { intros q Hq. destruct (Hps q (list_elem_of_further _ _ _ Hq)) as [Hql Hqi]. split; [by apply H|].
    eapply splittable_sigs; [done | | done]. apply H; [done|]. by intros ->. }
  exists src2. split_and!; try done.
  - intros q s Hq Hs. destruct (Hsig q s Hq Hs) as (Hq1 & s1 & Hs1 & E1). destruct (Hs2 q s1 Hq1 Hs1) as (? & s2 & ? & ?).
    split; [done|]. exists s2. split; [done | congruence].
  - intros q [->|Hq]%elem_of_cons; [|by apply Hall].
    eapply suspended_shallow_sigs; [exact Hs2 | | apply H]. apply Hsame; [by apply H | done].
  - intros q Hq [Hne Hqn]%not_elem_of_cons. rewrite Hsame; [by apply H | by apply H | done].
  - intros q Hq Hqn. destruct (decide (q ∈ src_scombs src1)) as [H1|H1]; [|by apply Hnew].
    eapply helper_sigs; [exact Hs2 | | by apply H]. apply Hsame; [done|]. intros Hin. apply Hqn. by apply Hps; right.
Qed.

(** C21. Non-strict expression lifting of a program returns, for every program as
    reordering and strictness analysis leave it. Afterwards no suspended
    argument of any function holds a call among its own arguments, outside
    cons cells, conditionals and sequences; every supercombinator still is in
    the form the compiler needs; the ones the pass made are in that form too,
    have a strictness table of the right length and never spark their
    arguments; and every function keeps its number of arguments. *)
Theorem nonstrict_program fuel src :
  wf_source src -> strict_ready src -> (forall p, p ∈ src_scombs src -> splittable fuel src p) ->
  exists src', nonstrict_all fuel src (src_scombs src) = Done src' /\ wf_source src' /\ strict_ready src' /\ same_sigs src src' /\
    (forall q, q ∈ src_scombs src' -> suspended_shallow src' q) /\
    (forall q, q ∈ src_scombs src' -> q ∉ src_scombs src -> helper src' q).
Proof.
  intros Hwf Hr Hsp. destruct (nonstrict_all_ok fuel (src_scombs src) src Hwf Hr (wf_nodup _ Hwf)) as
    (src' & E & Hwf' & Hr' & Hs & Hall & _ & Hnew); [by intros p Hp; split; [|apply Hsp]|].
  exists src'. split_and!; try done. intros q Hq. destruct (decide (q ∈ src_scombs src)) as [Ho|Ho]; [by apply Hall|].
  by apply helper_shallow, Hnew.
Qed.

(** [f x = + x (+ (+ x x) x)], nothing marked: the second argument is lifted. *)
Definition sample_nested : snode :=
  let x := SNODE_SYMBOL nosl "x" in
  let add a b := SNODE_APPLICATION nosl false (SNODE_APPLICATION nosl false (SNODE_BUILTIN nosl B_ADD) a) b in
  add x (add (add x x) x).
Definition sample_nester : scomb :=
  set_strictin (Some [false]) (Some [false]) (set_argnames ["x"] (set_body sample_nested (new_scomb "f" 0))).

Lemma nonstrict_program_witness :
  exists src', nonstrict_all 40 (source_of [sample_nester]) [0] = Done src' /\ wf_source src' /\ strict_ready src' /\
    same_sigs (source_of [sample_nester]) src' /\
    (forall q, q ∈ src_scombs src' -> suspended_shallow src' q) /\
    (forall q, q ∈ src_scombs src' -> q ∉ [0] -> helper src' q).
Proof.
  apply (nonstrict_program 40 (source_of [sample_nester])).
  - apply source_of_wf, NoDup_singleton.
  - intros p ->%list_elem_of_singleton. by exists sample_nester, [false].
  - intros p ->%list_elem_of_singleton. exists sample_nester, sample_nested. split_and!; try reflexivity.
    + left. cbn. split_and!; try done; (eexists; split; [reflexivity | cbn; lia]).
    + intros x. cbn [sample_nested free_in]. cbn. rewrite list_elem_of_singleton. tauto.
    + by apply (bool_decide_unpack (NoDup ["x"])).
    + cbn. lia.
Defined.

(** The witness indeed creates one. *)
Example sample_nester_split : (length <$> (src_scombs <$> match nonstrict_all 40 (source_of [sample_nester]) [0] with Done s => Some s | _ => None end)) = Some 2.
Proof. vm_compute. reflexivity. Qed.
