(* ===== verification/AppendOpt.v ===== *)
(** * Append optimisation (src/nreduce/compiler/appendopt.c)

    Calls of [append] whose first argument is built on the spot are pushed
    into it: a function whose result is appended to something gets a version
    with one more argument, the list to append. Supercombinators that are only
    used in that version are replaced by it. *)

From S2P Require Import Prelude Builtins Util Source Renaming Resolve Applift.

#[local] Set Warnings "-clear-no-such-hyp".

(** ** Copies *)

(** [snode_copy] aborts on an abstraction. *)
Fixpoint snode_copy (s : snode) : outcome snode :=
  match s with
  | SNODE_APPLICATION sl st l r =>
      l ← snode_copy l;
      r ← snode_copy r;
      Done (SNODE_APPLICATION sl st l r)
  | SNODE_LETREC sl bs b =>
      bs ← (fix copies (bs : list letrec) : outcome (list letrec) :=
              match bs with
              | [] => Done []
              | rec :: bs => v ← snode_copy (lr_value rec); bs ← copies bs; Done (set_value v rec :: bs)
              end) bs;
      b ← snode_copy b;
      Done (SNODE_LETREC sl bs b)
  | SNODE_LAMBDA _ _ _ => Crash
  | SNODE_BUILTIN _ _ | SNODE_SYMBOL _ _ | SNODE_SCREF _ _ | SNODE_NIL _ | SNODE_NUMBER _ _ | SNODE_STRING _ _ => Done s
  end.

(** [copy_scomb_body(src,sc,newargnames)]. The body is an argument, because the
    passes copy bodies that they are in the middle of changing. *)
Definition copy_scomb_body (src : source) (argnames : list string) (body : snode) (newargnames : list string) :
    outcome (source * snode) :=
  copy ← snode_copy body;
  Done (rename_sc_body_variables src copy argnames newargnames).

(** ** Versions that append *)

(** The copy of [strictin] or [lazyin], with one more entry. *)
Definition copy_flags (nargs : nat) (flags : option (list bool)) : outcome (option (list bool)) :=
  match flags with
  | Some l => cassert (nargs <=? length l);; Done (Some (take nargs l ++ [false]))
  | None => Done None
  end.

Definition make_append_version (src : source) (p : nat) (body : snode) : outcome source :=
  sc ← getsc src p;
  '(src, newsc) ← add_scomb src (sc_name sc);
  let sl := node_sl body in
  let '(src, restname) := next_var src "rest" in
  let argnames := sc_argnames sc ++ [restname] in
  strictin ← copy_flags (sc_nargs sc) (sc_strictin sc);
  lazyin ← copy_flags (sc_nargs sc) (sc_lazyin sc);
  append ← deref (get_scomb src "append");
  '(src, copy) ← copy_scomb_body src (sc_argnames sc) body argnames;
  let app1 := SNODE_APPLICATION sl false (SNODE_SCREF sl append) copy in
  let app2 := SNODE_APPLICATION sl false app1 (SNODE_SYMBOL sl restname) in
  let src := upd src newsc (fun n =>
    set_append true (sc_appendver n) (set_strictin strictin lazyin (set_argnames argnames (set_body app2 n)))) in
  Done (upd src p (fun sc => set_append (sc_doesappend sc) (Some newsc) sc)).

(** The version of the supercombinator at [p]; [body] is what its body is now. *)
Definition append_version (src : source) (p : nat) (body : outcome snode) : outcome (source * nat) :=
  sc ← getsc src p;
  src ← match sc_appendver sc with
        | None => body ← body; make_append_version src p body
        | Some _ => Done src
        end;
  sc ← getsc src p;
  v ← deref (sc_appendver sc);
  vsc ← getsc src v;
  cassert (sc_doesappend vsc);;
  Done (src, v).

(** ** The rules *)

Definition is_append (src : source) (p : nat) : outcome bool :=
  sc ← getsc src p; Done (String.eqb (sc_name sc) "append").

(** Rules 2 and 3, and the call of a function that already appends: the append
    moves into the last argument of [first]. If that is no call, only [first]
    is left. *)
Definition push_append (app2 : snode -> snode) (first second : snode) : snode :=
  match first with
  | SNODE_APPLICATION sl1 st1 l r => SNODE_APPLICATION sl1 st1 l (SNODE_APPLICATION sl1 st1 (app2 r) second)
  | _ => first
  end.

(** Rule 4, for [first] = [if c b d]. *)
Definition append_if (src : source) (sl : sourceloc) (first second : snode) : outcome (source * snode) :=
  match first with
  | SNODE_APPLICATION sl1 st1 (SNODE_APPLICATION sl2 st2 c b) d =>
      let asl := node_sl (spine_head first) in
      let '(src, firstsym) := next_var src "first" in
      append ← deref (get_scomb src "append");
      let sym := match second with SNODE_SYMBOL _ n => n | _ => firstsym end in
      let branch x :=
        SNODE_APPLICATION asl false (SNODE_APPLICATION asl false (SNODE_SCREF asl append) x) (SNODE_SYMBOL asl sym) in
      let first := SNODE_APPLICATION sl1 st1 (SNODE_APPLICATION sl2 st2 c (branch b)) (branch d) in
      Done (src, match second with
                 | SNODE_SYMBOL _ _ => first
                 | _ => SNODE_LETREC sl [Letrec firstsym second false] first
                 end)
  | _ => Crash
  end.

Section appreplace.
(** The supercombinator whose body is being changed. *)
Context (cur : nat).

(** The body of the function at [p], where [whole] is the one in progress. *)
Definition body_now (src : source) (whole : snode) (p : nat) : outcome snode :=
  if Nat.eqb p cur then Done whole
  else sc ← getsc src p; deref (sc_body sc).

(** What [appreplace_r] does at a node [s] = [append first second] whose parts
    have been dealt with, and whether that counts as a change. *)
Definition append_rules (src : source) (whole : snode) (sl : sourceloc) (st : bool) (app2 : snode -> snode)
    (first second : snode) : outcome (source * bool * snode) :=
  let unchanged := Done (src, false, SNODE_APPLICATION sl st (app2 first) second) in
  let nargs := count_args first in
  match first with
  | SNODE_LETREC lsl bs b => Done (src, true, SNODE_LETREC lsl bs (SNODE_APPLICATION sl st (app2 b) second))
  | _ =>
      match spine_head first with
      | SNODE_NIL _ => if Nat.eqb nargs 0 then Done (src, true, second) else unchanged
      | SNODE_BUILTIN _ bif =>
          if Nat.eqb bif B_CONS && Nat.eqb nargs 2 then Done (src, true, push_append app2 first second)
          else if Nat.eqb bif B_IF && Nat.eqb nargs 3 then
            '(src, s) ← append_if src sl first second; Done (src, true, s)
          else unchanged
      | SNODE_SCREF asl p =>
          b ← is_append src p;
          if b : bool then
            if Nat.eqb nargs 2 then Done (src, true, push_append app2 first second) else unchanged
          else
            sc ← getsc src p;
            if sc_doesappend sc then Done (src, false, push_append app2 first second)
            else
              '(src, v) ← append_version src p (body_now src whole p);
              Done (src, true, SNODE_APPLICATION sl st (set_head (SNODE_SCREF asl v) first) second)
      | _ => unchanged
      end
  end.

(** [appreplace_r(src,s,lappend,changed)]; the parameter [lappend] is never
    read. [ctx] is the body in progress around [s]. *)
Fixpoint appreplace_r (ctx : snode -> snode) (src : source) (changed : bool) (s : snode) : outcome (source * bool * snode) :=
  match s with
  | SNODE_APPLICATION sl st l r =>
      '(src, changed, l) ← appreplace_r (fun h => ctx (SNODE_APPLICATION sl st h r)) src changed l;
      '(src, changed, r) ← appreplace_r (fun h => ctx (SNODE_APPLICATION sl st l h)) src changed r;
      match l with
      | SNODE_APPLICATION sl2 st2 (SNODE_SCREF slr q) first =>
          b ← is_append src q;
          if b : bool then
            '(src, c, s) ← append_rules src (ctx (SNODE_APPLICATION sl st l r)) sl st
              (SNODE_APPLICATION sl2 st2 (SNODE_SCREF slr q)) first r;
            Done (src, changed || c, s)
          else Done (src, changed, SNODE_APPLICATION sl st l r)
      | _ => Done (src, changed, SNODE_APPLICATION sl st l r)
      end
  | SNODE_LETREC sl bs b =>
      '(src, changed, bs) ←
        (fix values (done todo : list letrec) (src : source) (changed : bool) : outcome (source * bool * list letrec) :=
           match todo with
           | [] => Done (src, changed, done)
           | rec :: todo =>
               '(src, changed, v) ← appreplace_r (fun h => ctx (SNODE_LETREC sl (done ++ set_value h rec :: todo) b))
                 src changed (lr_value rec);
               values (done ++ [set_value v rec]) todo src changed
           end) [] bs src changed;
      '(src, changed, b) ← appreplace_r (fun h => ctx (SNODE_LETREC sl bs h)) src changed b;
      Done (src, changed, SNODE_LETREC sl bs b)
  | SNODE_LAMBDA _ _ _ => Crash
  | SNODE_SCREF _ _ | SNODE_BUILTIN _ _ | SNODE_SYMBOL _ _ | SNODE_NIL _ | SNODE_NUMBER _ _ | SNODE_STRING _ _ =>
      Done (src, changed, s)
  end.
End appreplace.

(** The [do]-[while] loop of [appendopt] on one supercombinator. *)
Fixpoint appreplace_loop (rounds : nat) (src : source) (p : nat) : outcome source :=
  match rounds with
  | O => Timeout
  | S rounds =>
      sc ← getsc src p;
      body ← deref (sc_body sc);
      '(src, changed, body) ← appreplace_r p (fun s => s) src false body;
      let src := upd src p (set_body body) in
      if changed : bool then appreplace_loop rounds src p else Done src
  end.

(** The loop over the array, which grows on the way. *)
Fixpoint appreplace_all (fuel rounds : nat) (src : source) (scno : nat) : outcome source :=
  match fuel with
  | O => Timeout
  | S fuel =>
      match src_scombs src !! scno with
      | None => Done src
      | Some p => src ← appreplace_loop rounds src p; appreplace_all fuel rounds src (S scno)
      end
  end.

(** ** Dropping what is not used any more *)

Fixpoint mark_used (src : source) (s : snode) (used : list bool) : outcome (list bool) :=
  match s with
  | SNODE_APPLICATION _ _ l r => used ← mark_used src l used; mark_used src r used
  | SNODE_LETREC _ bs b =>
      used ← (fix values (bs : list letrec) (used : list bool) : outcome (list bool) :=
                match bs with
                | [] => Done used
                | rec :: bs => used ← mark_used src (lr_value rec) used; values bs used
                end) bs used;
      mark_used src b used
  | SNODE_SCREF _ p =>
      sc ← getsc src p;
      cassert (sc_index sc <? length used);;
      Done (<[sc_index sc := true]> used)
  | _ => Done used
  end.

Fixpoint mark_all_used (src : source) (ps : list nat) (used : list bool) : outcome (list bool) :=
  match ps with
  | [] => Done used
  | p :: ps =>
      sc ← getsc src p;
      body ← deref (sc_body sc);
      used ← mark_used src body used;
      mark_all_used src ps used
  end.

(** The last loop. [slots] is the array while entries of it are set to [NULL];
    [newscombs] the new array. A supercombinator that is freed stays in the
    heap of the model, but nothing leads to it. *)
Fixpoint select_scombs (used : list bool) (src : source) (slots : list (option nat)) (scnos : list nat)
    (newscombs : list nat) : outcome (source * list nat) :=
  match scnos with
  | [] => Done (src, newscombs)
  | scno :: scnos =>
      slot ← deref (slots !! scno);
      match slot with
      | None => select_scombs used src slots scnos newscombs
      | Some p =>
          sc ← getsc src p;
          let keep :=
            select_scombs used (upd src p (fun sc => set_index_name (length newscombs) (sc_name sc) sc)) slots scnos
              (newscombs ++ [p]) in
          match sc_appendver sc with
          | None => keep
          | Some v =>
              u ← deref (used !! sc_index sc);
              if (u : bool) || String.eqb (sc_name sc) "__start" then keep
              else
                vsc ← getsc src v;
                cassert (sc_index vsc <? length slots);;
                select_scombs used (upd src v (set_index_name (length newscombs) (sc_name sc)))
                  (<[sc_index vsc := None]> slots) scnos (newscombs ++ [v])
          end
      end
  end.

Definition appendopt (fuel rounds : nat) (src : source) : outcome source :=
  src ← appreplace_all fuel rounds src 0;
  let sccount := length (src_scombs src) in
  used ← mark_all_used src (src_scombs src) (replicate sccount false);
  '(src, newscombs) ← select_scombs used src (Some <$> src_scombs src) (seq 0 sccount) [];
  Done (schash_rebuild (set_scombs newscombs src)).

(** ** A call with too many arguments

    [append x y = if x (cons (head x) (append (tail x) y)) y],
    [f x = cons x], [g x y z = append (f x y) z]: rule * does not compare the
    number of arguments of [f] with that of the call ([AppendOptFacts] shows
    what comes of it). *)
Definition sample_apply (l r : snode) : snode := SNODE_APPLICATION nosl false l r.
Definition sample_var (x : string) : snode := SNODE_SYMBOL nosl x.
Definition sample_append : scomb :=
  set_argnames ["a"; "b"] (set_body
    (sample_apply (sample_apply (sample_apply (SNODE_BUILTIN nosl B_IF) (sample_var "a"))
      (sample_apply (sample_apply (SNODE_BUILTIN nosl B_CONS) (sample_apply (SNODE_BUILTIN nosl B_HEAD) (sample_var "a")))
        (sample_apply (sample_apply (SNODE_SCREF nosl 0) (sample_apply (SNODE_BUILTIN nosl B_TAIL) (sample_var "a"))) (sample_var "b"))))
      (sample_var "b")) (new_scomb "append" 0)).
Definition sample_pair : scomb :=
  set_argnames ["x"] (set_body (sample_apply (SNODE_BUILTIN nosl B_CONS) (sample_var "x")) (new_scomb "f" 1)).
Definition sample_over : scomb :=
  set_argnames ["x"; "y"; "z"] (set_body
    (sample_apply (sample_apply (SNODE_SCREF nosl 0) (sample_apply (sample_apply (SNODE_SCREF nosl 1) (sample_var "x")) (sample_var "y")))
      (sample_var "z")) (new_scomb "g" 2)).
Definition sample_lists : source := source_of [sample_append; sample_pair; sample_over].
