(* ===== verification/Inlining.v ===== *)
(** * Inlining (src/nreduce/compiler/inlining.c)

    A function whose body is one call with simple arguments is replaced by its
    body wherever it is called with all its arguments; the arguments are bound
    by a letrec. *)

From S2P Require Import Prelude CString Builtins Util Source Renaming Resolve Applift AppendOpt.

#[local] Set Warnings "-clear-no-such-hyp".

(** [replace_symbols]: the first entry of [oldsyms] that is the name counts. *)
Fixpoint replace_name (syms : list (string * string)) (name : string) : string :=
  match syms with
  | [] => name
  | (o, n) :: syms => if String.eqb name o then n else replace_name syms name
  end.
Fixpoint replace_symbols (syms : list (string * string)) (s : snode) : snode :=
  match s with
  | SNODE_APPLICATION sl st l r => SNODE_APPLICATION sl st (replace_symbols syms l) (replace_symbols syms r)
  | SNODE_LETREC sl bs b =>
      SNODE_LETREC sl (map (fun rec => set_value (replace_symbols syms (lr_value rec)) rec) bs) (replace_symbols syms b)
  | SNODE_SYMBOL sl n => SNODE_SYMBOL sl (replace_name syms n)
  | _ => s
  end.

(** The loop over the arguments of a call, from the last one to the first: a
    binding for each, with a new name. [argnames] and [strictin] are given in
    the same order. *)
Fixpoint bind_arguments (src : source) (args : list snode) (params : list (string * bool)) :
    outcome (source * list letrec) :=
  match args with
  | [] => Done (src, [])
  | a :: args =>
      match params with
      | [] => Crash
      | (x, st) :: params =>
          old ← real_varname src x;
          let '(src, name) := next_var src old in
          '(src, bs) ← bind_arguments src args params;
          Done (src, Letrec name a st :: bs)
      end
  end.

(** The arguments of a function with their marks. *)
Definition params_of (sc : scomb) : outcome (list (string * bool)) :=
  match sc_strictin sc with
  | None => Done (map (fun x => (x, false)) (sc_argnames sc))
  | Some st => cassert (sc_nargs sc <=? length st);; Done (zip (sc_argnames sc) st)
  end.

Section inline.
(** The supercombinator whose body is being changed. *)
Context (cur : nat).

(** A call [s] with all its arguments becomes a letrec. The node is changed
    before the body of the function is copied: if it is part of that body, the
    copy meets a letrec without a body. Trees are not shared here, so that case
    is an assertion on [p]. *)
Definition inline_call (src : source) (sl : sourceloc) (p : nat) (args : list snode) : outcome (source * snode) :=
  asc ← getsc src p;
  params ← params_of asc;
  '(src, bs) ← bind_arguments src args (rev params);
  cassert (negb (Nat.eqb p cur));;
  let newsyms := rev (map lr_name bs) in
  body ← deref (sc_body asc);
  '(src, body) ← copy_scomb_body src (sc_argnames asc) body newsyms;
  Done (src, SNODE_LETREC sl bs (replace_symbols (zip (sc_argnames asc) newsyms) body)).

(** The test of the application case. *)
Definition inlinable (src : source) (h : snode) (nargs : nat) : outcome (option nat) :=
  match h with
  | SNODE_SCREF _ p => sc ← getsc src p; Done (if Nat.eqb nargs (sc_nargs sc) && sc_caninline sc then Some p else None)
  | _ => Done None
  end.

(** [inline_r(src,s,changed)]; [ctx] is the body in progress around [s]. *)
Fixpoint inline_r (ctx : snode -> snode) (src : source) (changed : bool) (s : snode) : outcome (source * bool * snode) :=
  match s with
  | SNODE_APPLICATION sl st l r =>
      target ← inlinable src (spine_head s) (count_args s);
      match target with
      | Some p => '(src, s) ← inline_call src sl p (spine_args s); Done (src, true, s)
      | None =>
          '(src, changed, l) ← inline_r (fun h => ctx (SNODE_APPLICATION sl st h r)) src changed l;
          '(src, changed, r) ← inline_r (fun h => ctx (SNODE_APPLICATION sl st l h)) src changed r;
          Done (src, changed, SNODE_APPLICATION sl st l r)
      end
  | SNODE_LETREC sl bs b =>
      '(src, changed, bs) ←
        (fix values (done todo : list letrec) (src : source) (changed : bool) : outcome (source * bool * list letrec) :=
           match todo with
           | [] => Done (src, changed, done)
           | rec :: todo =>
               '(src, changed, v) ← inline_r (fun h => ctx (SNODE_LETREC sl (done ++ set_value h rec :: todo) b))
                 src changed (lr_value rec);
               values (done ++ [set_value v rec]) todo src changed
           end) [] bs src changed;
      '(src, changed, b) ← inline_r (fun h => ctx (SNODE_LETREC sl bs h)) src changed b;
      Done (src, changed, SNODE_LETREC sl bs b)
  | SNODE_SCREF _ p =>
      target ← inlinable src s 0;
      match target with
      | Some p =>
          body ← body_now cur src (ctx s) p;
          '(src, s) ← copy_scomb_body src [] body [];
          Done (src, changed, s)
      | None => Done (src, changed, s)
      end
  | SNODE_LAMBDA _ _ _ => Crash
  | SNODE_BUILTIN _ _ | SNODE_SYMBOL _ _ | SNODE_NIL _ | SNODE_NUMBER _ _ | SNODE_STRING _ _ => Done (src, changed, s)
  end.
End inline.

Definition is_simple (s : snode) : bool :=
  match s with
  | SNODE_BUILTIN _ _ | SNODE_SYMBOL _ _ | SNODE_SCREF _ _ | SNODE_NIL _ | SNODE_NUMBER _ _ | SNODE_STRING _ _ => true
  | SNODE_APPLICATION _ _ _ _ | SNODE_LAMBDA _ _ _ | SNODE_LETREC _ _ _ => false
  end.

(** The tests of the first loop of [inlining] on a body. *)
Definition caninline_body (src : source) (body : snode) : outcome bool :=
  let a := spine_head body in
  let nargs := count_args body in
  let ok := forallb is_simple (spine_args body) in
  match a with
  | SNODE_SCREF _ p => sc ← getsc src p; Done (ok && (Nat.eqb nargs (sc_nargs sc) || Nat.eqb nargs 0))
  | SNODE_BUILTIN _ bif => b ← deref (builtin_info !! bif); Done (ok && Nat.eqb nargs (bi_nargs b))
  | SNODE_NUMBER _ _ | SNODE_STRING _ _ | SNODE_NIL _ => Done (ok && Nat.eqb nargs 0)
  | _ => Done false
  end.

Fixpoint mark_caninline (src : source) (ps : list nat) : outcome source :=
  match ps with
  | [] => Done src
  | p :: ps =>
      sc ← getsc src p;
      body ← deref (sc_body sc);
      ok ← caninline_body src body;
      mark_caninline (upd src p (fun sc => set_caninline (sc_caninline sc || ok) sc)) ps
  end.

(** One round of the [do]-[while] loop, and the loop. *)
Fixpoint inline_round (src : source) (changed : bool) (ps : list nat) : outcome (source * bool) :=
  match ps with
  | [] => Done (src, changed)
  | p :: ps =>
      sc ← getsc src p;
      body ← deref (sc_body sc);
      '(src, changed, body) ← inline_r p (fun s => s) src changed body;
      inline_round (upd src p (set_body body)) changed ps
  end.

Fixpoint inline_rounds (rounds : nat) (src : source) : outcome source :=
  match rounds with
  | O => Timeout
  | S rounds =>
      '(src, changed) ← inline_round src false (src_scombs src);
      if changed : bool then inline_rounds rounds src else Done src
  end.

Definition inlining (rounds : nat) (src : source) : outcome source :=
  src ← mark_caninline src (src_scombs src);
  inline_rounds rounds src.

(** ** A function that only calls itself *)

Lemma bind_arguments_heap args : forall src params, match bind_arguments src args params with
  | Done (src', _) => src_heap src' = src_heap src | Crash => True | Timeout => False end.
Proof.
  induction args as [|x args IH]; intros src params; cbn [bind_arguments]; [done|]. destruct params as [|[n st] params]; [done|].
  destruct (real_varname src n) as [old| |] eqn:E; [|done|].
  - cbn [mbind outcome_bind]. destruct (next_var src old) as [src1 name] eqn:En. injection En as <- <-.
    specialize (IH (set_vars (src_varno src + 1) (src_oldnames src ++ [old]) src) params).
    destruct (bind_arguments _ args params) as [[src2 bs]| |]; [exact IH | done..].
  - unfold real_varname in E. destruct (is_prefix GENVAR_PREFIX n); [|done]. destruct (strtol (after_prefix n)) as [v e].
    unfold cassert in E. destruct (_ <? _)%Z; [|done]. cbn in E. destruct (0 <=? _)%Z; [|done]. cbn in E. by destruct (src_oldnames src !! _).
Qed.

Lemma snode_copy_returns c : snode_copy c <> Timeout.
Proof.
  snode_induction c; cbn [snode_copy]; try done.
  - destruct (snode_copy l); [|done..]. cbn. by destruct (snode_copy r).
  - intros H. apply IHb. clear IHb.
    set (vs := (fix copies (bs : list letrec) : outcome (list letrec) := _) bs) in H.
    assert (vs <> Timeout) as Hvs.
    { subst vs. clear H. induction IHbs as [|rec bs H _ IH]; [done|]. destruct (snode_copy (lr_value rec)); [|done..]. cbn.
      by destruct (_ bs). }
    destruct vs; [|done..]. cbn in H. by destruct (snode_copy b).
Qed.

Lemma copy_scomb_body_heap src olds body news : match copy_scomb_body src olds body news with
  | Done (src', _) => src_heap src' = src_heap src | Crash => True | Timeout => False end.
Proof.
  unfold copy_scomb_body. pose proof (snode_copy_returns body). destruct (snode_copy body) as [c| |]; [|done..]. cbn [mbind outcome_bind].
  unfold rename_sc_body_variables. destruct (rename_r_binders c src (rev (zip_with Mapping olds news))) as (src' & c' & -> & -> & _). done.
Qed.

(** The result of a step that gives out names only. *)
Definition quiet {A} (src : source) (r : outcome (source * A)) : Prop :=
  match r with Done (src', _) => src_heap src' = src_heap src | Crash => True | Timeout => False end.

Lemma quiet_bind {A B} src (r : outcome (source * A)) (f : source * A -> outcome (source * B)) :
  quiet src r -> (forall src' x, src_heap src' = src_heap src -> quiet src' (f (src', x))) -> quiet src (r ≫= f).
Proof.
  intros H Hf. destruct r as [[src' x]| |]; [|done..]. cbn in *. specialize (Hf src' x H). unfold quiet in *.
  destruct (f (src', x)) as [[src2 y]| |]; congruence.
Qed.

Lemma getsc_quiet {B} src p (f : scomb -> outcome (source * B)) : (forall sc, src_heap src !! p = Some sc -> quiet src (f sc)) ->
  quiet src (getsc src p ≫= f).
Proof. intros H. unfold getsc. destruct (src_heap src !! p) as [sc|] eqn:E; cbn; [by apply H | done]. Qed.

Lemma inlinable_returns src h n : inlinable src h n <> Timeout.
Proof. unfold inlinable, getsc. destruct h; try done. by destruct (src_heap src !! sc). Qed.

Lemma inline_call_quiet cur src sl p args : quiet src (inline_call cur src sl p args).
Proof.
  unfold inline_call. apply getsc_quiet. intros asc Hs. unfold params_of.
  assert (forall params, quiet src ('(src, bs) ← bind_arguments src args (rev params); cassert (negb (Nat.eqb p cur));;
    body ← deref (sc_body asc); '(src, body) ← copy_scomb_body src (sc_argnames asc) body (rev (map lr_name bs));
    Done (src, SNODE_LETREC sl bs (replace_symbols (zip (sc_argnames asc) (rev (map lr_name bs))) body)))) as H.
  { intros params. apply quiet_bind; [apply bind_arguments_heap|]. intros src1 bs H1. destruct (negb _); [|done]. cbn [cassert mbind outcome_bind].
    destruct (sc_body asc); [|done]. cbn [deref mbind outcome_bind]. apply quiet_bind; [apply copy_scomb_body_heap|]. by intros src2 c H2. }
  destruct (sc_strictin asc) as [st|]; cbn [mbind outcome_bind]; [|apply H]. destruct (_ <=? _); [|done]. cbn [cassert mbind outcome_bind]. apply H.
Qed.

Lemma inline_r_quiet cur s : forall ctx src changed, quiet src (
  '(src, c, s) ← inline_r cur ctx src changed s; Done (src, (c, s))).
Proof.
  assert (forall src (r : outcome (source * bool * snode)), quiet src ('(src, c, s) ← r; Done (src, (c, s))) <->
    match r with Done (src', _, _) => src_heap src' = src_heap src | Crash => True | Timeout => False end) as E.
  { intros src [[[src' c] t]| |]; done. }
  setoid_rewrite E. snode_induction s; intros ctx src changed; cbn [inline_r]; try done.
  - pose proof (inlinable_returns src (spine_head (SNODE_APPLICATION sl st l r)) (count_args (SNODE_APPLICATION sl st l r))) as Hi.
    destruct (inlinable _ _ _) as [[p|]| |]; [| |done..]; cbn [mbind outcome_bind].
    + pose proof (inline_call_quiet cur src sl p (spine_args (SNODE_APPLICATION sl st l r))) as Hq.
      destruct (inline_call _ _ _ _ _) as [[src' t]| |]; done.
    + specialize (IHl (fun h => ctx (SNODE_APPLICATION sl st h r)) src changed).
      destruct (inline_r _ _ src changed l) as [[[src1 c1] l1]| |]; [|done..]. cbn [mbind outcome_bind].
      specialize (IHr (fun h => ctx (SNODE_APPLICATION sl st l1 h)) src1 c1).
      destruct (inline_r _ _ src1 c1 r) as [[[src2 c2] r2]| |]; [|done..]. cbn. congruence.
  - set (values := fix values (done todo : list letrec) (src : source) (changed : bool) : outcome (source * bool * list letrec) :=
      match todo with
      | [] => Done (src, changed, done)
      | rec :: todo =>
          '(src, changed, v) ← inline_r cur (fun h => ctx (SNODE_LETREC sl (done ++ set_value h rec :: todo) b)) src changed (lr_value rec);
          values (done ++ [set_value v rec]) todo src changed
      end).
    assert (forall todo done src changed, Forall (fun rec => forall ctx src changed, match inline_r cur ctx src changed (lr_value rec) with
        Done (src', _, _) => src_heap src' = src_heap src | Crash => True | Timeout => False end) todo ->
      match values done todo src changed with Done (src', _, _) => src_heap src' = src_heap src | Crash => True | Timeout => False end) as Hv.
    { induction todo as [|rec todo IH]; intros dn s0 c0 Hall; [done|]. apply Forall_cons in Hall as [Hrec Hall]. cbn [values].
      specialize (Hrec (fun h => ctx (SNODE_LETREC sl (dn ++ set_value h rec :: todo) b)) s0 c0).
      destruct (inline_r _ _ s0 c0 (lr_value rec)) as [[[s1 c1] v]| |]; [|done..]. cbn [mbind outcome_bind].
      specialize (IH (dn ++ [set_value v rec]) s1 c1 Hall). destruct (values _ todo s1 c1) as [[[s2 c2] bs2]| |]; [congruence | done..]. }
    specialize (Hv bs [] src changed IHbs). destruct (values [] bs src changed) as [[[s1 c1] bs1]| |]; [|done..]. cbn [mbind outcome_bind].
    specialize (IHb (fun h => ctx (SNODE_LETREC sl bs1 h)) s1 c1). destruct (inline_r _ _ s1 c1 b) as [[[s2 c2] b2]| |]; [|done..]. cbn. congruence.
  - pose proof (inlinable_returns src (SNODE_SCREF sl sc) 0) as Hi. destruct (inlinable _ _ _) as [[p|]| |]; [| done..]; cbn [mbind outcome_bind].
    unfold body_now. assert (forall body, match ('(src, s) ← copy_scomb_body src [] body []; Done (src, changed, s)) with
        Done (src', _, _) => src_heap src' = src_heap src | Crash => True | Timeout => False end) as Hb.
    { intros body. pose proof (copy_scomb_body_heap src [] body []) as Hc. by destruct (copy_scomb_body src [] body []) as [[src' t]| |]. }
    destruct (Nat.eqb p cur); cbn [mbind outcome_bind]; [apply Hb|]. unfold getsc.
    destruct (src_heap src !! p) as [psc|]; [|done]. cbn. destruct (sc_body psc); [|done]. cbn. apply Hb.
Qed.

(** The supercombinator at [p] calls itself and does nothing else. *)
Definition calls_itself (src : source) (p : nat) : Prop := exists sc body sl, src_heap src !! p = Some sc /\ sc_body sc = Some body /\
  0 < count_args body /\ count_args body = sc_nargs sc /\ spine_head body = SNODE_SCREF sl p /\ forallb is_simple (spine_args body) = true.

Lemma inline_round_self p src changed ps : p ∈ ps -> NoDup ps -> calls_itself src p ->
  (exists sc, src_heap src !! p = Some sc /\ sc_caninline sc = true) -> inline_round src changed ps = Crash.
Proof.
  revert src changed. induction ps as [|q ps IH]; intros src changed Hp Hnd Hc Hi; [by apply not_elem_of_nil in Hp|]. apply NoDup_cons in Hnd as [Hq Hnd].
  cbn [inline_round]. unfold getsc at 1. destruct (decide (q = p)) as [->|Hne].
  - destruct Hc as (sc & body & sl & Hs & Hb & Hn & Hargs & Hh & _), Hi as (sc' & Hs' & Hcan). rewrite Hs in Hs'. injection Hs' as <-.
    rewrite Hs. cbn [deref mbind outcome_bind]. rewrite Hb. cbn [deref mbind outcome_bind].
    destruct body as [sl1 st l r| | | | | | | |]; try (cbn in Hn; lia). cbn [inline_r]. unfold inlinable, getsc. rewrite Hh, Hs.
    cbn [deref mbind outcome_bind]. rewrite Hargs, Nat.eqb_refl, Hcan. cbn [andb mbind outcome_bind].
    assert (inline_call p src sl1 p (spine_args (SNODE_APPLICATION sl1 st l r)) = Crash) as ->; [|done].
    unfold inline_call, getsc. rewrite Hs. cbn [deref mbind outcome_bind].
    assert (forall params, ('(src0, bs) ← bind_arguments src (spine_args (SNODE_APPLICATION sl1 st l r)) (rev params);
      cassert (negb (Nat.eqb p p));; body ← deref (sc_body sc);
      '(src0, body) ← copy_scomb_body src0 (sc_argnames sc) body (rev (map lr_name bs));
      Done (src0, SNODE_LETREC sl1 bs (replace_symbols (zip (sc_argnames sc) (rev (map lr_name bs))) body))) = Crash) as H.
    { intros params. pose proof (bind_arguments_heap (spine_args (SNODE_APPLICATION sl1 st l r)) src (rev params)) as H.
      destruct (bind_arguments _ _ _) as [[src1 bs]| |]; [|done..]. cbn [mbind outcome_bind]. by rewrite Nat.eqb_refl. }
    unfold params_of. destruct (sc_strictin sc) as [st'|]; [|apply H]. destruct (_ <=? _); [apply H | done].
  - apply elem_of_cons in Hp as [Hp|Hp]; [congruence|]. destruct (src_heap src !! q) as [sc|]; [|done]. cbn [deref mbind outcome_bind].
    destruct (sc_body sc) as [body|]; [|done]. cbn [deref mbind outcome_bind]. pose proof (inline_r_quiet q body (fun s => s) src changed) as Hr.
    destruct (inline_r q _ src changed body) as [[[src1 c1] body1]| |]; [|done..]. cbn in Hr. cbn [mbind outcome_bind].
    apply IH; [done | done | |].
    + destruct Hc as (psc & pb & sl & Hs & Hc). exists psc, pb, sl. split; [|done]. cbn. by rewrite list_lookup_alter_ne, Hr.
    + destruct Hi as (psc & Hs & Hc1). exists psc. split; [|done]. cbn. by rewrite list_lookup_alter_ne, Hr.
Qed.

Lemma caninline_body_returns src body : caninline_body src body <> Timeout.
Proof.
  unfold caninline_body, getsc. destruct (spine_head body) as [| |sl bif| | |sl p| | |]; try done.
  - by destruct (builtin_info !! bif).
  - by destruct (src_heap src !! p).
Qed.

Lemma caninline_self src p sc body sl : src_heap src !! p = Some sc -> count_args body = sc_nargs sc -> spine_head body = SNODE_SCREF sl p ->
  forallb is_simple (spine_args body) = true -> caninline_body src body = Done true.
Proof.
  intros Hs Hn Hh Ha. unfold caninline_body, getsc. rewrite Hh, Hs. cbn [deref mbind outcome_bind]. by rewrite Ha, Hn, Nat.eqb_refl.
Qed.

Lemma mark_caninline_self p ps : forall src, calls_itself src p ->
  match mark_caninline src ps with
  | Done src' => src_scombs src' = src_scombs src /\ calls_itself src' p /\
      ((exists sc, src_heap src !! p = Some sc /\ sc_caninline sc = true) \/ p ∈ ps -> exists sc, src_heap src' !! p = Some sc /\ sc_caninline sc = true)
  | Crash => True
  | Timeout => False
  end.
Proof.
  induction ps as [|q ps IH]; intros src Hc; cbn [mark_caninline].
  { split_and!; [done | done |]. intros [H|H]; [done | by apply not_elem_of_nil in H]. }
  unfold getsc. destruct (src_heap src !! q) as [sc|] eqn:Eq; [|done]. cbn [deref mbind outcome_bind].
  destruct (sc_body sc) as [body|] eqn:Eb; [|done]. cbn [deref mbind outcome_bind].
  pose proof (caninline_body_returns src body). destruct (caninline_body src body) as [ok| |] eqn:Eok; [|done..]. cbn [mbind outcome_bind].
  set (f := fun sc => set_caninline (sc_caninline sc || ok) sc). pose proof Hc as (psc & pb & sl & Hs & Hpb & Hn & Hargs & Hh & Ha).
  assert (calls_itself (upd src q f) p) as Hc'.
  { exists (if decide (q = p) then f psc else psc), pb, sl. cbn. rewrite list_lookup_alter. case_decide; [subst q; by rewrite Hs | done]. }
  specialize (IH _ Hc'). destruct (mark_caninline (upd src q f) ps) as [src'| |]; [|done..]. destruct IH as (H1 & H2 & H3).
  split_and!; [done | done |]. intros Hor. apply H3. rewrite elem_of_cons in Hor. cbn. rewrite list_lookup_alter.
  destruct (decide (q = p)) as [->|Hne].
  - left. rewrite Hs. exists (f psc). split; [done|]. simplify_eq. rewrite (caninline_self src p sc body sl) in Eok by done.
    injection Eok as <-. cbn. apply orb_true_r.
  - destruct Hor as [Hi|[Hp|Hp]]; [by left | congruence | by right].
Qed.

(** C34. Inlining a program in which some function's body is a call of the function
    itself with all its arguments, each of them a variable or a constant,
    always fails: the call counts as one that can be inlined, the node becomes
    a letrec that has no body yet, and the body that is copied into it is that
    same node. *)
Theorem inlining_self_call rounds src p : p ∈ src_scombs src -> NoDup (src_scombs src) -> calls_itself src p ->
  inlining (S rounds) src = Crash.
Proof.
  intros Hp Hnd Hc. unfold inlining. pose proof (mark_caninline_self p (src_scombs src) src Hc) as H.
  destruct (mark_caninline src (src_scombs src)) as [src1| |]; [|done..]. destruct H as (Es & Hc1 & Hi). cbn [mbind outcome_bind inline_rounds].
  rewrite Es, (inline_round_self p); [done | done | done | done |]. apply Hi. by right.
Qed.

(** [f x = f x] *)
Definition sample_loop : source :=
  source_of [set_argnames ["x"] (set_body (SNODE_APPLICATION nosl false (SNODE_SCREF nosl 0) (SNODE_SYMBOL nosl "x")) (new_scomb "f" 0))].

Lemma inlining_self_call_witness : inlining 7 sample_loop = Crash.
Proof.
  apply (inlining_self_call 6 sample_loop 0); [by left | by apply (bool_decide_unpack (NoDup [0])) |].
  eexists _, _, nosl. split_and!; try reflexivity. apply Nat.ltb_lt. reflexivity.
Defined.
