(* ===== verification/Sinking.v ===== *)
(** * Letrec sinking (src/nreduce/compiler/sinking.c)

    A binding that is used once takes the place of its use; any other moves to
    the smallest expression with all its uses. The pass works on the nodes in
    place and follows links from a node to its parent and from a binding to its
    users, some of which are out of date while it runs. So the tree is modelled
    as what it is here: nodes and bindings in a store, which refer to each
    other by address. *)

From S2P Require Import Prelude Builtins Util Source.

(** ** Nodes in a store *)

Inductive node : Type :=
| N_APPLICATION (strict : bool) (left right : nat)
| N_LAMBDA (name : string) (body : nat)
| N_BUILTIN (bif : nat)
| N_SYMBOL (name : string)
| N_LETREC (bindings : list nat) (body : nat)
| N_SCREF (sc : nat)
| N_NIL
| N_NUMBER (num : Z)
| N_STRING (value : string)
| N_WRAP (target : nat).

(** A node with its [sl], [parent] and [nextuser]. *)
Record snode_at := Node { n_sl : sourceloc; n_node : node; n_parent : option nat; n_nextuser : option nat }.

(** A binding; [r_users] is the first node of a list linked by [nextuser]. *)
Record binding_at := Rec { r_name : string; r_value : nat; r_strict : bool; r_users : option nat }.

Record store := Store { st_nodes : list snode_at; st_recs : list binding_at }.

Definition get (st : store) (a : nat) : outcome snode_at := deref (st_nodes st !! a).
Definition getrec (st : store) (r : nat) : outcome binding_at := deref (st_recs st !! r).
Definition put (a : nat) (n : snode_at) (st : store) : store := Store (<[a := n]> (st_nodes st)) (st_recs st).
Definition putrec (r : nat) (b : binding_at) (st : store) : store := Store (st_nodes st) (<[r := b]> (st_recs st)).
Definition set_node (a : nat) (n : node) (st : store) : outcome store :=
  x ← get st a; Done (put a (Node (n_sl x) n (n_parent x) (n_nextuser x)) st).
Definition set_parent (a : nat) (p : option nat) (st : store) : outcome store :=
  x ← get st a; Done (put a (Node (n_sl x) (n_node x) p (n_nextuser x)) st).
Definition new_node (n : snode_at) (st : store) : nat * store :=
  (length (st_nodes st), Store (st_nodes st ++ [n]) (st_recs st)).
Definition new_rec (b : binding_at) (st : store) : nat * store :=
  (length (st_recs st), Store (st_nodes st) (st_recs st ++ [b])).

(** A tree put into the store, and the tree at an address. *)
Fixpoint store_tree (c : snode) (st : store) : nat * store :=
  match c with
  | SNODE_APPLICATION sl s l r =>
      let '(l, st) := store_tree l st in
      let '(r, st) := store_tree r st in
      new_node (Node sl (N_APPLICATION s l r) None None) st
  | SNODE_LAMBDA sl n b => let '(b, st) := store_tree b st in new_node (Node sl (N_LAMBDA n b) None None) st
  | SNODE_LETREC sl bs b =>
      let '(bs, st) :=
        (fix store_recs (bs : list letrec) (st : store) : list nat * store :=
           match bs with
           | [] => ([], st)
           | rec :: bs =>
               let '(v, st) := store_tree (lr_value rec) st in
               let '(r, st) := new_rec (Rec (lr_name rec) v (lr_strict rec) None) st in
               let '(rs, st) := store_recs bs st in
               (r :: rs, st)
           end) bs st in
      let '(b, st) := store_tree b st in
      new_node (Node sl (N_LETREC bs b) None None) st
  | SNODE_BUILTIN sl bif => new_node (Node sl (N_BUILTIN bif) None None) st
  | SNODE_SYMBOL sl n => new_node (Node sl (N_SYMBOL n) None None) st
  | SNODE_SCREF sl p => new_node (Node sl (N_SCREF p) None None) st
  | SNODE_NIL sl => new_node (Node sl N_NIL None None) st
  | SNODE_NUMBER sl num => new_node (Node sl (N_NUMBER num) None None) st
  | SNODE_STRING sl s => new_node (Node sl (N_STRING s) None None) st
  end.

Fixpoint read_tree (fuel : nat) (st : store) (a : nat) : outcome snode :=
  match fuel with
  | O => Timeout
  | S fuel =>
      n ← get st a;
      let sl := n_sl n in
      match n_node n with
      | N_APPLICATION s l r => l ← read_tree fuel st l; r ← read_tree fuel st r; Done (SNODE_APPLICATION sl s l r)
      | N_LAMBDA x b => b ← read_tree fuel st b; Done (SNODE_LAMBDA sl x b)
      | N_LETREC rs b =>
          bs ← mapM (fun r => rec ← getrec st r; v ← read_tree fuel st (r_value rec);
                              Done (Letrec (r_name rec) v (r_strict rec))) rs;
          b ← read_tree fuel st b;
          Done (SNODE_LETREC sl bs b)
      | N_BUILTIN bif => Done (SNODE_BUILTIN sl bif)
      | N_SYMBOL x => Done (SNODE_SYMBOL sl x)
      | N_SCREF p => Done (SNODE_SCREF sl p)
      | N_NIL => Done (SNODE_NIL sl)
      | N_NUMBER num => Done (SNODE_NUMBER sl num)
      | N_STRING s => Done (SNODE_STRING sl s)
      | N_WRAP _ => Crash
      end
  end.

(** ** Parents and users *)

(** A loop over the addresses of bindings. *)
Definition over_recs (f : store -> nat -> outcome store) (st : store) (rs : list nat) : outcome store :=
  foldl (fun st r => st ← st; f st r) (Done st) rs.

Fixpoint set_parents (fuel : nat) (st : store) (s : nat) (parent : option nat) : outcome store :=
  match fuel with
  | O => Timeout
  | S fuel =>
      st ← set_parent s parent st;
      n ← get st s;
      match n_node n with
      | N_APPLICATION _ l r =>
          st ← set_parents fuel st l (Some s);
          set_parents fuel st r (Some s)
      | N_LAMBDA _ b => set_parents fuel st b (Some s)
      | N_WRAP t => set_parents fuel st t (Some s)
      | N_LETREC rs b =>
          st ← over_recs (fun st r => rec ← getrec st r; set_parents fuel st (r_value rec) (Some s)) st rs;
          set_parents fuel st b (Some s)
      | _ => Done st
      end
  end.

Fixpoint find_in (st : store) (rs : list nat) (name : string) : outcome (option nat) :=
  match rs with
  | [] => Done None
  | r :: rs => rec ← getrec st r; if String.eqb (r_name rec) name then Done (Some r) else find_in st rs name
  end.

(** The binding of the name of a symbol: the loop from [p] upwards. *)
Fixpoint find_binding (fuel : nat) (st : store) (p : option nat) (name : string) : outcome (option nat) :=
  match fuel with
  | O => Timeout
  | S fuel =>
      match p with
      | None => Done None
      | Some p =>
          n ← get st p;
          found ← match n_node n with N_LETREC rs _ => find_in st rs name | _ => Done None end;
          match found with
          | Some r => Done (Some r)
          | None => find_binding fuel st (n_parent n) name
          end
      end
  end.

(** The two loops of [common_parent]: is [y] above [x], or [x] itself? *)
Fixpoint is_above (fuel : nat) (st : store) (y : nat) (x : option nat) : outcome bool :=
  match fuel with
  | O => Timeout
  | S fuel =>
      match x with
      | None => Done false
      | Some x => if Nat.eqb x y then Done true else n ← get st x; is_above fuel st y (n_parent n)
      end
  end.
Fixpoint common_parent (depth fuel : nat) (st : store) (a : nat) (b : option nat) : outcome (option nat) :=
  match depth with
  | O => Timeout
  | S depth =>
      match b with
      | None => Done None
      | Some y =>
          above ← is_above fuel st y (Some a);
          if above : bool then Done (Some y)
          else n ← get st y; common_parent depth fuel st a (n_parent n)
      end
  end.

Fixpoint find_users (fuel : nat) (st : store) (s : nat) : outcome store :=
  match fuel with
  | O => Timeout
  | S fuel =>
      n ← get st s;
      match n_node n with
      | N_APPLICATION _ l r => st ← find_users fuel st l; find_users fuel st r
      | N_LAMBDA _ b => find_users fuel st b
      | N_WRAP t => find_users fuel st t
      | N_LETREC rs b =>
          st ← over_recs (fun st r => rec ← getrec st r; find_users fuel st (r_value rec)) st rs;
          find_users fuel st b
      | N_SYMBOL x =>
          found ← find_binding fuel st (n_parent n) x;
          match found with
          | Some r =>
              rec ← getrec st r;
              Done (putrec r (Rec (r_name rec) (r_value rec) (r_strict rec) (Some s))
                     (put s (Node (n_sl n) (n_node n) (n_parent n) (r_users rec)) st))
          | None => Done st
          end
      | _ => Done st
      end
  end.

(** [remove_wrappers]: a wrapper takes the contents of its target. *)
Fixpoint unwrap (fuel : nat) (st : store) (s : nat) : outcome store :=
  match fuel with
  | O => Timeout
  | S fuel =>
      n ← get st s;
      match n_node n with
      | N_WRAP t => x ← get st t; unwrap fuel (put s x st) s
      | _ => Done st
      end
  end.
Fixpoint remove_wrappers (fuel : nat) (st : store) (s : nat) : outcome store :=
  match fuel with
  | O => Timeout
  | S fuel =>
      n ← get st s;
      st ← unwrap fuel (put s (Node (n_sl n) (n_node n) None None) st) s;
      n ← get st s;
      match n_node n with
      | N_APPLICATION _ l r => st ← remove_wrappers fuel st l; remove_wrappers fuel st r
      | N_LAMBDA _ b => remove_wrappers fuel st b
      | N_LETREC rs b =>
          st ← over_recs (fun st r =>
                 rec ← getrec st r;
                 remove_wrappers fuel (putrec r (Rec (r_name rec) (r_value rec) (r_strict rec) None) st) (r_value rec)) st rs;
          remove_wrappers fuel st b
      | _ => Done st
      end
  end.

(** ** Moving a binding *)

(** The list of users from a node on. *)
Fixpoint users_from (fuel : nat) (st : store) (u : option nat) : outcome (list nat) :=
  match fuel with
  | O => Timeout
  | S fuel =>
      match u with
      | None => Done []
      | Some u => n ← get st u; users ← users_from fuel st (n_nextuser n); Done (u :: users)
      end
  end.

(** The smallest node above all users, in the order of the list. *)
Fixpoint highest_user (fuel : nat) (st : store) (users : list nat) (hu : option nat) : outcome (option nat) :=
  match users with
  | [] => Done hu
  | u :: users => hu ← common_parent fuel fuel st u hu; highest_user fuel st users hu
  end.

(** The loop that climbs out of letrecs and wrappers, and the one that follows
    wrappers down. *)
Fixpoint climb (fuel : nat) (st : store) (hu : nat) : outcome nat :=
  match fuel with
  | O => Timeout
  | S fuel =>
      n ← get st hu;
      match n_parent n with
      | None => Done hu
      | Some p =>
          np ← get st p;
          match n_node np with
          | N_LETREC _ _ | N_WRAP _ => climb fuel st p
          | _ => Done hu
          end
      end
  end.
Fixpoint descend (fuel : nat) (st : store) (hu : nat) : outcome nat :=
  match fuel with
  | O => Timeout
  | S fuel =>
      n ← get st hu;
      match n_node n with
      | N_WRAP t => descend fuel st t
      | _ => Done hu
      end
  end.

(** The children of a node that has been copied to [body]. *)
Definition adopt (st : store) (body : nat) : outcome store :=
  n ← get st body;
  match n_node n with
  | N_APPLICATION _ l r => st ← set_parent l (Some body) st; set_parent r (Some body) st
  | N_LAMBDA _ b => set_parent b (Some body) st
  | N_WRAP t => set_parent t (Some body) st
  | _ => Done st
  end.

(** [hu] becomes a letrec around a copy of itself, unless it is one; its
    other fields are cleared. *)
Definition make_letrec (st : store) (hu : nat) : outcome store :=
  n ← get st hu;
  match n_node n with
  | N_LETREC _ _ => Done st
  | _ =>
      let '(body, st) := new_node n st in
      st ← adopt st body;
      st ← set_parent body (Some hu) st;
      Done (put hu (Node (Sourceloc 0 0) (N_LETREC [] body) (n_parent n) None) st)
  end.

Definition append_binding (st : store) (hu r : nat) : outcome store :=
  n ← get st hu;
  match n_node n with
  | N_LETREC rs b => set_node hu (N_LETREC (rs ++ [r]) b) st
  | _ => Crash
  end.

(** The loop of [sink_single]: [kept] are the bindings before [recptr], [rs]
    those from it on. The list of [s] itself is written back at the end, since
    nothing else looks at it meanwhile. *)
Fixpoint sink_bindings (fuel : nat) (s : nat) (st : store) (changed : bool) (kept rs : list nat) :
    outcome (store * bool * list nat) :=
  match rs with
  | [] => Done (st, changed, kept)
  | r :: rs =>
      rec ← getrec st r;
      if r_strict rec : bool then sink_bindings fuel s st changed (kept ++ [r]) rs
      else
        users ← users_from fuel st (r_users rec);
        hu ← match users with
             | [] => Done None
             | u :: users => highest_user fuel st users (Some u)
             end;
        hu ← match hu with
             | None => Done None
             | Some hu => hu ← climb fuel st hu; hu ← descend fuel st hu; Done (Some hu)
             end;
        match users with
        | [u] =>
            n ← get st u;
            cassert (match n_node n with N_SYMBOL _ => true | _ => false end);;
            st ← set_node u (N_WRAP (r_value rec)) st;
            sink_bindings fuel s st changed kept rs
        | _ =>
            match hu with
            | Some hu =>
                if Nat.eqb hu s then sink_bindings fuel s st changed (kept ++ [r]) rs
                else
                  st ← make_letrec st hu;
                  st ← append_binding st hu r;
                  st ← set_parent (r_value rec) (Some hu) st;
                  sink_bindings fuel s st true kept rs
            | None => sink_bindings fuel s st changed (kept ++ [r]) rs
            end
        end
  end.

Definition sink_single (fuel : nat) (st : store) (changed : bool) (s : nat) : outcome (store * bool) :=
  n ← get st s;
  match n_node n with
  | N_LETREC rs b =>
      '(st, changed, rs) ← sink_bindings fuel s st changed [] rs;
      st ← set_node s (match rs with [] => N_WRAP b | _ => N_LETREC rs b end) st;
      Done (st, changed)
  | _ => Crash
  end.

(** A recursive call may change the fields of a node above it, so they are
    read again after it. *)
Definition app_right (st : store) (s : nat) : outcome nat :=
  n ← get st s; match n_node n with N_APPLICATION _ _ r => Done r | _ => Crash end.
Definition letrec_body (st : store) (s : nat) : outcome nat :=
  n ← get st s; match n_node n with N_LETREC _ b => Done b | _ => Crash end.

Section sink_letrecs_r.
Context (rec_ : store -> bool -> nat -> outcome (store * bool)).

(** The loop over the bindings of the letrec [s], from the one with number [i]
    on; bindings may be added at the end on the way. *)
Fixpoint sink_values (loops : nat) (st : store) (changed : bool) (s i : nat) : outcome (store * bool) :=
  match loops with
  | O => Timeout
  | S loops =>
      n ← get st s;
      match n_node n with
      | N_LETREC rs _ =>
          match rs !! i with
          | Some r =>
              rec ← getrec st r;
              '(st, changed) ← rec_ st changed (r_value rec);
              sink_values loops st changed s (S i)
          | None => Done (st, changed)
          end
      | _ => Crash
      end
  end.
End sink_letrecs_r.

Fixpoint sink_letrecs_r (fuel : nat) (st : store) (changed : bool) (s : nat) : outcome (store * bool) :=
  match fuel with
  | O => Timeout
  | S fuel =>
      n ← get st s;
      match n_node n with
      | N_APPLICATION _ l _ =>
          '(st, changed) ← sink_letrecs_r fuel st changed l;
          r ← app_right st s;
          sink_letrecs_r fuel st changed r
      | N_LAMBDA _ b => sink_letrecs_r fuel st changed b
      | N_LETREC _ _ =>
          '(st, changed) ← sink_values (sink_letrecs_r fuel) fuel st changed s 0;
          b ← letrec_body st s;
          '(st, changed) ← sink_letrecs_r fuel st changed b;
          sink_single fuel st changed s
      | _ => Done (st, changed)
      end
  end.

Fixpoint sink_rounds (rounds fuel : nat) (st : store) (s : nat) : outcome store :=
  match rounds with
  | O => Timeout
  | S rounds =>
      st ← set_parents fuel st s None;
      st ← find_users fuel st s;
      '(st, changed) ← sink_letrecs_r fuel st false s;
      st ← remove_wrappers fuel st s;
      if changed : bool then sink_rounds rounds fuel st s else Done st
  end.

(** [sink_letrecs(src,s)] *)
Definition sink_letrecs (rounds fuel : nat) (c : snode) : outcome snode :=
  let '(s, st) := store_tree c (Store [] []) in
  st ← sink_rounds rounds fuel st s;
  read_tree fuel st s.

(** ** Where sinking goes wrong

    [letrec a = head args in letrec !c = tail args; b = cons c a in cons b b],
    with [c] marked strict: [b] has two users, so it moves to the smallest node
    above them, which is the inner letrec, and from there out of the letrecs
    around it, past the binding of [c] that it needs. *)
Definition sample_app (l r : snode) : snode := SNODE_APPLICATION nosl false l r.
Definition sample_cons (l r : snode) : snode := sample_app (sample_app (SNODE_BUILTIN nosl B_CONS) l) r.
Definition sample_pairs : snode :=
  SNODE_LETREC nosl [Letrec "a" (sample_app (SNODE_BUILTIN nosl B_HEAD) (SNODE_SYMBOL nosl "args")) false]
    (SNODE_LETREC nosl
      [Letrec "c" (sample_app (SNODE_BUILTIN nosl B_TAIL) (SNODE_SYMBOL nosl "args")) true;
       Letrec "b" (sample_cons (SNODE_SYMBOL nosl "c") (SNODE_SYMBOL nosl "a")) false]
      (sample_cons (SNODE_SYMBOL nosl "b") (SNODE_SYMBOL nosl "b"))).

(** [letrec z = nil; y = nil in head (letrec a = cons z a; b = cons z b in y)]:
    a binding that only its own value uses is dropped, but the symbols in that
    value stay in the lists of users of [z]. *)
Definition sample_circles : snode :=
  SNODE_LETREC nosl [Letrec "z" (SNODE_NIL nosl) false; Letrec "y" (SNODE_NIL nosl) false]
    (sample_app (SNODE_BUILTIN nosl B_HEAD)
      (SNODE_LETREC nosl
        [Letrec "a" (sample_cons (SNODE_SYMBOL nosl "z") (SNODE_SYMBOL nosl "a")) false;
         Letrec "b" (sample_cons (SNODE_SYMBOL nosl "z") (SNODE_SYMBOL nosl "b")) false]
        (SNODE_SYMBOL nosl "y"))).

(** C35. Letrec sinking can take a variable out of scope: here is a tree closed
    over the argument [args], with distinct names and one strict binding, whose
    result has another free variable. *)
Theorem sink_letrecs_unbinds :
  (forall x, free_in x sample_pairs -> x = "args") /\ NoDup (binders sample_pairs) /\
  exists c, sink_letrecs 10 100 sample_pairs = Done c /\ free_in "c" c.
Proof.
  split_and!.
  - intros x. cbn. rewrite !elem_of_cons, !Exists_cons, !Exists_nil. unfold id. tauto.
  - by apply (bool_decide_unpack (NoDup ["a"; "c"; "b"])).
  - eexists. split; [vm_compute; reflexivity|]. cbn. split; [by intros ?%list_elem_of_singleton|].
    left. apply Exists_cons. left. unfold id. tauto.
Qed.

(** And an assertion of [sink_single] fails on a closed tree. *)
Example sink_letrecs_asserts : (forall x, ~ free_in x sample_circles) /\ sink_letrecs 10 100 sample_circles = Crash.
Proof.
  split; [|vm_compute; reflexivity]. intros x. cbn. rewrite !elem_of_cons, !Exists_cons, !Exists_nil. unfold id. tauto.
Qed.
