(* ===== verification/Schemes.v ===== *)
(** * The compilation schemes on whole bodies

    Letrecs, the mutual recursion of [C] and [E], and the scheme [R] for the
    body of a supercombinator. *)

From S2P Require Import Prelude CString Builtins Util Source Resolve Double Bytecode Peephole StackDiscipline.

#[local] Set Warnings "-clear-no-such-hyp".

(** ** Variable maps *)

Lemma presolve_app pm1 pm2 x :
  presolve (pm1 ++ pm2) x = match presolve pm1 x with Done i => Done i | _ => presolve pm2 x end.
Proof. induction pm1 as [|[y i] pm1 IH]; cbn; [done|]. by destruct (String.eqb y x). Qed.

Lemma presolve_notin pm x : x ∉ map fst pm -> presolve pm x = Crash.
Proof.
  induction pm as [|[y i] pm IH]; cbn; [done|]. intros [Hne Hn]%not_elem_of_cons.
  destruct (String.eqb_spec y x); [congruence | auto].
Qed.

Lemma presolve_in pm x i : presolve pm x = Done i -> x ∈ map fst pm.
Proof.
  intros H. destruct (decide (x ∈ map fst pm)) as [|Hn]; [done|]. by rewrite presolve_notin in H.
Qed.

Lemma bind_letrec_names bs n pm : map fst (bind_letrec bs n pm) = map fst pm ++ map lr_name bs.
Proof.
  unfold bind_letrec. rewrite map_app. f_equal. revert n. induction bs as [|rec bs IH]; intros n; [done|].
  cbn. f_equal. rewrite <- (IH (n + 1)%Z). f_equal. apply imap_ext. intros i r _. cbn. f_equal. lia.
Qed.

Lemma presolve_imap (bs : list letrec) : forall n i rec, NoDup (map lr_name bs) -> bs !! i = Some rec ->
  presolve (imap (fun i rec => (lr_name rec, n + Z.of_nat i + 1)%Z) bs) (lr_name rec) = Done (n + Z.of_nat i + 1)%Z.
Proof.
  induction bs as [|r bs IH]; intros n i rec Hnd Hi; [done|]. apply NoDup_cons in Hnd as [Hn Hnd].
  cbn [imap presolve]. destruct i as [|i]; cbn in Hi.
  - simplify_eq. rewrite String.eqb_refl. f_equal.
  - destruct (String.eqb_spec (lr_name r) (lr_name rec)) as [E|E].
    { exfalso. apply Hn. rewrite E. apply elem_of_map. exists rec. split; [done|]. by eapply list_elem_of_lookup_2. }
    replace (n + Z.of_nat (S i) + 1)%Z with ((n + 1) + Z.of_nat i + 1)%Z by lia.
    rewrite <- (IH (n + 1)%Z i rec Hnd Hi). f_equal. apply imap_ext. intros j r' _. cbn. f_equal. lia.
Qed.

Lemma presolve_bound (bs : list letrec) n pm i rec :
  NoDup (map lr_name bs) -> (forall x, x ∈ map lr_name bs -> x ∉ map fst pm) -> bs !! i = Some rec ->
  presolve (bind_letrec bs n pm) (lr_name rec) = Done (n + Z.of_nat i + 1)%Z.
Proof.
  intros Hnd Hfr Hi. unfold bind_letrec. rewrite presolve_app, presolve_notin; [by apply presolve_imap|].
  apply Hfr, elem_of_map. exists rec. split; [done|]. by eapply list_elem_of_lookup_2.
Qed.

Lemma presolve_outer bs n pm x i : presolve pm x = Done i -> presolve (bind_letrec bs n pm) x = Done i.
Proof. intros H. unfold bind_letrec. by rewrite presolve_app, H. Qed.

(** ** Usage *)

Lemma getusage_mono c : forall used x, x ∈ used -> x ∈ getusage c used.
Proof.
  snode_induction c; intros used x Hx; cbn [getusage]; auto.
  - unfold list_push. destruct (list_contains_string used n); [done | by right].
  - apply IHb. revert used Hx. induction IHbs as [|rec bs Hr _ IH]; intros used Hx; cbn; [done|].
    apply IH, Hr, Hx.
Qed.

Lemma getusage_list_mono (bs : list letrec) x : forall used, x ∈ used ->
  x ∈ fold_left (fun used rec => getusage (lr_value rec) used) bs used.
Proof. induction bs as [|r bs IH]; intros u Hu; cbn; [done|]. by apply IH, getusage_mono. Qed.

Lemma getusage_free src c : forall used x, shape src c -> free_in x c -> x ∈ getusage c used.
Proof.
  snode_induction c; intros used x Hs Hx; cbn [getusage]; try done.
  - destruct Hs as (_ & _ & Hl & Hr). destruct Hx; [by apply getusage_mono, IHl | by apply IHr].
  - cbn in Hx. subst. destruct (list_contains_string used n) eqn:E; [by apply list_contains_string_true | by left].
  - destruct Hs as (Hv & Hb). rewrite Forall_id_map in Hv.
    apply free_in_letrec in Hx as [_ [(v & (rec & -> & Hr)%elem_of_map & Hf)|Hf]]; [|by apply IHb].
    apply getusage_mono. clear IHb Hb. revert used.
    induction IHbs as [|rec' bs Hr' _ IH]; intros used; [by apply not_elem_of_nil in Hr|].
    cbn. apply elem_of_cons in Hr as [->|Hr].
    + apply getusage_list_mono, Hr'; [|done]. apply Hv. by left.
    + apply IH; [intros r Hr2; apply Hv; by right | done].
Qed.

(** An expression that does not use some bindings has none of their names
    free. *)
Lemma letrecs_used_none src c first x :
  shape src c -> letrecs_used c first = 0 -> free_in x c -> x ∉ map lr_name first.
Proof.
  intros Hs H Hf (rec & -> & Hr)%elem_of_map. unfold letrecs_used in H. apply length_zero_iff_nil in H.
  assert (rec ∈ List.filter (fun rec => list_contains_string (getusage c []) (lr_name rec)) first) as Hin.
  { apply list_elem_of_In, filter_In. split; [by apply list_elem_of_In|].
    apply list_contains_string_true. by eapply getusage_free. }
  rewrite H in Hin. by apply not_elem_of_nil in Hin.
Qed.

(** ** Letrecs *)

(** [UPDATE] of a slot [p] above [base] with the value on top of [s]. *)
Lemma UPDATE_ok comp base k s s1 p sl :
  le_st base s -> length s = length base + k -> holds comp s 1 s1 -> length base <= p < length s ->
  exists comp' s', UPDATE sl (Z.of_nat (length s) - Z.of_nat p) comp = Done comp' /\ after comp comp' s' /\
    holds comp' base k s'.
Proof.
  intros Hle Hl [Hsi Hok Hle1 Hl1] Hp. unfold UPDATE, top_pos, the_si. rewrite Hsi. cbn [deref mbind outcome_bind].
  unfold si_count; cbn [si_status].
  replace (Z.of_nat (length s1) - 1 - (Z.of_nat (length s) - Z.of_nat p))%Z with (Z.of_nat p) by lia.
  destruct (lookup_lt_is_Some_2 s1 (length s)) as [t Ht]; [lia|]. pose proof (st_ok_lookup _ _ _ Hok Ht) as Htr.
  destruct (add_instruction_ok comp sl OP_UPDATE (Z.of_nat p) 0 s1 (take (length s) (<[p := t]> s1)) Hsi) as (c1 & -> & Haf); [|done|done|].
  { cbn [si_step]. rewrite (proj2 (Z.leb_le _ _)) by lia. cbn [cassert mbind outcome_bind]. unfold si_count; cbn [si_status].
    rewrite (statusat_ok _ _ _ t) by (lia || (by replace (Z.to_nat (Z.of_nat (length s1) - 1)) with (length s) by lia)).
    cbn [mbind outcome_bind]. rewrite setstatusat_ok by lia. cbn [mbind outcome_bind]. rewrite Nat2Z.id.
    apply (popstatus_base _ s 1). rewrite length_insert. lia. }
  exists c1, (take (length s) (<[p := t]> s1)). split_and!; [done | done |]. split.
  - apply Haf.
  - by apply Forall_take, Forall_insert.
  - apply le_st_take; [|lia]. apply le_st_insert_above; [by eapply le_st_trans | lia].
  - rewrite length_take, length_insert. lia.
Qed.

(** A value that does not use the bindings from its own on only needs the slots
    below its own. *)
Section bound.
Context (src : source) (pm0 : pmap) (n : nat) (bs : list letrec) (strictcontext : bool).
Abbreviation pm := (bind_letrec bs (Z.of_nat n) pm0).
Hypothesis Hgood : forall rec, rec ∈ bs -> good src pm (n + length bs) (lr_value rec).
Hypothesis Hnd : NoDup (map lr_name bs).
Hypothesis Hfresh : forall x, x ∈ map lr_name bs -> x ∉ map fst pm0.
Hypothesis Hout : forall rec x, rec ∈ bs -> free_in x (lr_value rec) -> x ∉ map lr_name bs ->
  exists idx, presolve pm0 x = Done idx /\ (1 <= idx <= Z.of_nat n)%Z.

Lemma presolve_at pre rec suf : bs = pre ++ rec :: suf -> presolve pm (lr_name rec) = Done (Z.of_nat (n + length pre + 1)).
Proof using Hnd Hfresh.
  intros E'. rewrite (presolve_bound bs _ _ (length pre) rec Hnd Hfresh).
  - f_equal. lia.
  - rewrite E'. by apply list_lookup_middle.
Qed.

Lemma direct_good pre rec suf :
  bs = pre ++ rec :: suf -> direct strictcontext rec suf = true -> good src pm (n + length pre) (lr_value rec).
Proof using Hgood Hnd Hfresh Hout.
  intros E' Hd. unfold direct in Hd. apply andb_true_iff in Hd as [_ Hu%Nat.eqb_eq].
  destruct (Hgood rec) as (Hsh & Hsc & Hf); [rewrite E'; set_solver|].
  split_and!; try done. intros x Hx. destruct (Hsc x Hx) as (idx & Hi & Hr). exists idx. split; [done|].
  pose proof (letrecs_used_none src _ _ x Hsh Hu Hx) as Hn.
  destruct (decide (x ∈ map lr_name bs)) as [Hin|Hin].
  - rewrite E', map_app, elem_of_app in Hin. destruct Hin as [Hin|Hin]; [|done].
    apply elem_of_map in Hin as (r & -> & (j & Hj)%list_elem_of_lookup). apply lookup_lt_Some in Hj as Hlt.
    rewrite (presolve_bound bs _ _ j r Hnd Hfresh) in Hi; [|rewrite E'; by apply lookup_app_l_Some].
    injection Hi as <-. lia.
  - destruct (Hout rec x) as (i & Hi' & ?); [rewrite E'; set_solver | done | done |].
    rewrite (presolve_outer _ _ _ _ _ Hi') in Hi. injection Hi as <-. lia.
Qed.
End bound.

Section letrec.
Context (src : source) (C E : compilation -> snode -> pmap -> Z -> outcome compilation).
Context (pm0 : pmap) (base : list Z) (bs : list letrec) (strictcontext : bool).
Abbreviation pm := (bind_letrec bs (Z.of_nat (length base)) pm0).

Hypothesis Hvals : forall rec, rec ∈ bs ->
  compiles src C STATUS_UNKNOWN (lr_value rec) /\ compiles src E STATUS_SPARKED (lr_value rec) /\
  good src pm (length base + length bs) (lr_value rec).
Hypothesis Hnd : NoDup (map lr_name bs).
Hypothesis Hfresh : forall x, x ∈ map lr_name bs -> x ∉ map fst pm0.

Hypothesis Hout : forall rec x, rec ∈ bs -> free_in x (lr_value rec) -> x ∉ map lr_name bs ->
  exists idx, presolve pm0 x = Done idx /\ (1 <= idx <= Z.of_nat (length base))%Z.

Lemma Cletrec_direct_ok suf : forall pre comp s,
  bs = pre ++ suf -> holds comp base (length pre) s ->
  exists comp' pre' suf' s', Cletrec_direct E strictcontext suf pm (Z.of_nat (length base + length pre)) comp =
      Done (comp', suf', Z.of_nat (length base + length pre')) /\
    bs = pre' ++ suf' /\ after comp comp' s' /\ holds comp' base (length pre') s'.
Proof.
  induction suf as [|rec suf IH]; intros pre comp s E' H; cbn [Cletrec_direct].
  { exists comp, pre, [], s. split_and!; try done. by apply after_refl, H. }
  destruct (direct strictcontext rec suf) eqn:Ed.
  - destruct (Hvals rec) as (_ & HE & _); [rewrite E'; set_solver|].
    pose proof (ho_len _ _ _ _ H) as Hl. rewrite <- Hl.
    pose proof (direct_good src pm0 (length base) bs strictcontext (fun rec Hr => proj2 (proj2 (Hvals rec Hr))) Hnd Hfresh Hout _ _ _ E' Ed) as Hg. rewrite <- Hl in Hg.
    destruct (leaves_holds _ _ _ _ (HE comp pm s Hg (holds_self _ _ _ _ H))) as (c1 & s1 & -> & Haf & H1 & _).
    cbn [mbind outcome_bind].
    destruct (IH (pre ++ [rec]) c1 s1) as (c2 & pre' & suf' & s2 & E2 & Eb & Haf2 & H2).
    { by rewrite <- app_assoc. }
    { rewrite length_app. apply (holds_trans _ _ (length pre) s); [apply H | done | done]. }
    exists c2, pre', suf', s2. split_and!; [|done | by eapply after_trans | done].
    rewrite <- E2. f_equal. rewrite length_app. cbn. lia.
  - exists comp, pre, (rec :: suf), s. split_and!; try done. by apply after_refl, H.
Qed.

Lemma Cletrec_alloc_ok suf : forall pre comp s,
  bs = pre ++ suf -> holds comp base (length bs) s ->
  exists comp' s', Cletrec_alloc C E strictcontext suf pm (Z.of_nat (length base + length bs)) comp = Done comp' /\
    after comp comp' s' /\ holds comp' base (length bs) s'.
Proof.
  induction suf as [|rec suf IH]; intros pre comp s E' H; cbn [Cletrec_alloc].
  { exists comp, s. split_and!; try done. by apply after_refl, H. }
  destruct (Hvals rec) as (HC & HE & Hg); [rewrite E'; set_solver|].
  pose proof (ho_len _ _ _ _ H) as Hl. rewrite <- Hl in Hg |- *.
  assert (leaves comp s STATUS_UNKNOWN (if direct strictcontext rec suf
    then E comp (lr_value rec) pm (Z.of_nat (length s)) else C comp (lr_value rec) pm (Z.of_nat (length s)))) as HL.
  { pose proof (holds_self _ _ _ _ H). destruct (direct _ _ _); [|auto].
    eapply (leaves_weaken _ _ STATUS_SPARKED); [status_lia | auto]. }
  apply leaves_holds in HL as (c1 & s1 & -> & Haf & H1 & _). cbn [mbind outcome_bind].
  rewrite (presolve_at pm0 (length base) bs Hnd Hfresh _ _ _ E'). cbn [mbind outcome_bind].
  assert (length pre < length bs) as Hlt by (rewrite E', length_app; cbn; lia).
  destruct (UPDATE_ok c1 base (length bs) s s1 (length base + length pre) (node_sl (lr_value rec)))
    as (c2 & s2 & Eu & Haf2 & H2); [apply H | done | done | lia |].
  replace (Z.of_nat (length s) + 1 - Z.of_nat (length base + length pre + 1))%Z
    with (Z.of_nat (length s) - Z.of_nat (length base + length pre))%Z by lia.
  rewrite Eu. cbn [mbind outcome_bind]. rewrite Hl.
  destruct (IH (pre ++ [rec]) c2 s2) as (c3 & s3 & -> & Haf3 & H3); [by rewrite <- app_assoc | done |].
  exists c3, s3. split_and!; [done | | done]. eapply after_trans; [exact Haf|]. by eapply after_trans.
Qed.

Lemma Cletrec_ok comp s :
  holds comp base 0 s ->
  exists comp' s', Cletrec C E bs (Z.of_nat (length base)) pm strictcontext comp = Done comp' /\
    after comp comp' s' /\ holds comp' base (length bs) s'.
Proof.
  intros H. unfold Cletrec.
  destruct (Cletrec_direct_ok bs [] comp s eq_refl H) as (c1 & pre & suf & s1 & E1 & Eb & Haf1 & H1).
  cbn [length] in E1. rewrite Nat.add_0_r in E1. rewrite E1. cbn [mbind outcome_bind].
  destruct suf as [|rec suf].
  { exists c1, s1. rewrite app_nil_r in Eb. rewrite <- Eb in H1. done. }
  destruct (add_instruction_ok c1 (node_sl (lr_value rec)) OP_ALLOC (Z.of_nat (length (rec :: suf))) 0 s1
    (s1 ++ replicate (length (rec :: suf)) STATUS_UNKNOWN) (ho_si _ _ _ _ H1)) as (c2 & -> & Haf2); [|done|done|].
  { cbn [si_step]. by rewrite Nat2Z.id. }
  cbn [mbind outcome_bind]. pose proof (ho_len _ _ _ _ H1) as Hl1.
  replace (Z.of_nat (length base + length pre) + Z.of_nat (length (rec :: suf)))%Z
    with (Z.of_nat (length base + length bs)) by (rewrite Eb, length_app; lia).
  destruct (Cletrec_alloc_ok (rec :: suf) pre c2 (s1 ++ replicate (length (rec :: suf)) STATUS_UNKNOWN) Eb)
    as (c3 & s3 & -> & Haf3 & H3).
  { split; [apply Haf2 | | by apply le_st_app, H1 |].
    - apply Forall_app. split; [apply H1|]. apply Forall_replicate. status_lia.
    - rewrite length_app, length_replicate, Eb, length_app. lia. }
  exists c3, s3. split_and!; [done | | done]. eapply after_trans; [exact Haf1|]. by eapply after_trans.
Qed.
End letrec.

(** The parts of a good letrec. *)
Lemma good_letrec src pm n sl bs b :
  good src pm n (SNODE_LETREC sl bs b) ->
  let pm' := bind_letrec bs (Z.of_nat n) pm in
  (forall rec, rec ∈ bs -> good src pm' (n + length bs) (lr_value rec)) /\
  good src pm' (n + length bs) b /\ NoDup (map lr_name bs) /\
  (forall x, x ∈ map lr_name bs -> x ∉ map fst pm) /\
  (forall rec x, rec ∈ bs -> free_in x (lr_value rec) -> x ∉ map lr_name bs ->
    exists idx, presolve pm x = Done idx /\ (1 <= idx <= Z.of_nat n)%Z).
Proof.
  intros ((Hv & Hb) & Hs & Hnd & Hf) pm'. rewrite Forall_id_map in Hv. cbn [binders] in Hnd, Hf.
  apply list.NoDup_app in Hnd as (Hn1 & Hd1 & Hn2). apply list.NoDup_app in Hn2 as (Hn3 & Hd2 & Hn4).
  setoid_rewrite elem_of_app in Hf. setoid_rewrite elem_of_app in Hf.
  setoid_rewrite elem_of_app in Hd1.
  assert (Hsc : forall c, (forall x, free_in x c -> x ∉ map lr_name bs -> free_in x (SNODE_LETREC sl bs b)) -> scoped pm' (n + length bs) c).
  { intros c Hc x Hx. destruct (decide (x ∈ map lr_name bs)) as [Hin|Hin].
    - apply elem_of_map in Hin as (r & -> & (j & Hj)%list_elem_of_lookup). exists (Z.of_nat n + Z.of_nat j + 1)%Z.
      apply lookup_lt_Some in Hj as Hlt. split; [|lia]. apply presolve_bound; auto.
    - destruct (Hs x (Hc x Hx Hin)) as (idx & Hi & ?). exists idx. split; [by apply presolve_outer | lia]. }
  assert (Hfb : forall c, NoDup (binders c) -> (forall x, x ∈ binders c -> x ∈ concat (map (fun rec => binders (lr_value rec)) bs) \/ x ∈ binders b) ->
    fresh_binders pm' c).
  { intros c Hc Hin. split; [done|]. intros x Hx. unfold pm'. rewrite bind_letrec_names, elem_of_app.
    intros [H|H]; [by apply (Hf x); auto|]. by apply (Hd1 x H), Hin. }
  split_and!; auto.
  - intros rec Hr. split_and!; [auto | |].
    + apply Hsc. intros x Hx Hn. apply free_in_letrec. split; [done|]. left. exists (lr_value rec). rewrite elem_of_map. eauto.
    + apply Hfb; [|intros x Hx; left; apply elem_of_concat; eexists; rewrite elem_of_map; eauto].
      apply list_elem_of_split in Hr as (l1 & l2 & ->). rewrite map_app, concat_app in Hn3. cbn in Hn3.
      apply list.NoDup_app in Hn3 as (_ & _ & Hn3). by apply list.NoDup_app in Hn3 as (? & _ & _).
  - split_and!; [done | | apply Hfb; auto].
    apply Hsc. intros x Hx Hn. apply free_in_letrec. auto.
  - intros rec x Hr Hx Hn. apply Hs, free_in_letrec. split; [done|]. left. exists (lr_value rec). rewrite elem_of_map. eauto.
Qed.

(** ** The mutual recursion *)

Lemma compiles_leaves src rec_ lo c comp pm base s :
  compiles src rec_ lo c -> good src pm (length base) c -> holds comp base 0 s ->
  leaves comp base lo (rec_ comp c pm (Z.of_nat (length base))).
Proof.
  intros Hc Hg H. destruct (compiles_at _ _ _ _ _ _ _ _ Hc Hg H) as (c1 & s1 & l & E & _ & _ & Haf & [Hsi Hok Hle Hl] & Ht).
  exists c1, s1. split_and!; try done. lia.
Qed.

Lemma shape_literal src c : shape src c -> literal_ok src c.
Proof. destruct c; try (by intros _; split). by intros (_ & ? & _). Qed.

Lemma as_if_parts c cond t f : as_if c = Some (cond, t, f) ->
  exists sl1 st1 sl2 st2 sl3 st3 sl4, c = SNODE_APPLICATION sl1 st1 (SNODE_APPLICATION sl2 st2
    (SNODE_APPLICATION sl3 st3 (SNODE_BUILTIN sl4 B_IF) cond) t) f.
Proof.
  destruct c as [sl1 st1 [sl2 st2 [sl3 st3 [] ?| | | | | | | |] ?| | | | | | | |] ?| | | | | | | |]; try done.
  cbn. destruct (Nat.eqb_spec bif B_IF) as [->|]; [|done]. intros [= -> -> ->]. eauto 10.
Qed.

Lemma as_seq_parts c e1 e2 : as_seq c = Some (e1, e2) ->
  exists sl1 st1 sl2 st2 sl3, c = SNODE_APPLICATION sl1 st1
    (SNODE_APPLICATION sl2 st2 (SNODE_BUILTIN sl3 B_SEQ) e1) e2.
Proof.
  destruct c as [sl1 st1 [sl2 st2 [] ?| | | | | | | |] ?| | | | | | | |]; try done.
  cbn. destruct (Nat.eqb_spec bif B_SEQ) as [->|]; [|done]. intros [= -> ->]. eauto 10.
Qed.

Lemma eq_literal_parts c x num : eq_literal c = Some (x, num) ->
  exists sl1 st1 sl2 st2 h sl3, c = SNODE_APPLICATION sl1 st1 (SNODE_APPLICATION sl2 st2 h x) (SNODE_NUMBER sl3 num).
Proof.
  destruct c as [sl1 st1 [sl2 st2 [] ?| | | | | | | |] []| | | | | | | |]; try done.
  cbn. destruct (_ && _); [|done]. intros [= -> ->]. eauto 10.
Qed.

Lemma item_literal_parts src c num l : item_literal src c = Done (Some (num, l)) ->
  exists sl1 st1 h, c = SNODE_APPLICATION sl1 st1 h l.
Proof.
  destruct c as [sl1 st1 [sl2 st2 [] []| | | | | | | |] ?| | | | | | | |]; try done.
  cbn. intros H. outcome_inv. destruct (_ && _); [|done]. injection H as <- <-. eauto.
Qed.

Lemma item_literal_total mkfuel src c :
  src_ready mkfuel src -> shape src c -> exists r, item_literal src c = Done r.
Proof.
  intros Hsrc Hs. destruct c as [sl1 st1 [sl2 st2 [] []| | | | | | | |] ?| | | | | | | |]; try (by eexists).
  destruct Hs as ((Hp & sc' & Hs' & _) & _). cbn [item_literal]. unfold getsc. rewrite Hs'. by eexists.
Qed.

Lemma E_seq_ok src E comp e1 e2 pm s :
  compiles src E STATUS_SPARKED e1 -> compiles src E STATUS_SPARKED e2 ->
  good src pm (length s) e1 -> good src pm (length s) e2 -> holds comp s 0 s ->
  leaves comp s STATUS_SPARKED (E_seq E e1 e2 pm (Z.of_nat (length s)) comp).
Proof.
  intros H1 H2 G1 G2 H. unfold E_seq.
  pose proof (leaves_EVAL _ _ _ _ (node_sl e1) (H1 comp pm s G1 H)) as HL.
  apply leaves_holds in HL as (c1 & s1 & E1 & Haf & Hh & _). apply bind_Done_inv in E1 as (c0 & -> & E1).
  cbn [mbind outcome_bind]. rewrite E1. cbn [mbind outcome_bind].
  destruct (POP_ok c1 s s1 (node_sl e1) Hh) as (c2 & s2 & -> & Haf2 & Hh2). cbn [mbind outcome_bind].
  eapply leaves_after; [by eapply after_trans|]. by eapply compiles_leaves.
Qed.

Lemma E_item_ok src E comp base l pm s sl index a1 :
  compiles src E STATUS_SPARKED l -> good src pm (length base) l -> holds comp base 0 s ->
  leaves comp base STATUS_UNKNOWN
    (comp ← E comp l pm (Z.of_nat (length base)); add_instruction comp sl OP_ITEMN index a1).
Proof.
  intros Hl Hg H. destruct (compiles_at _ _ _ _ _ _ _ _ Hl Hg H) as (c1 & s1 & l1 & -> & _ & _ & Haf & H1 & t & Ht & _).
  cbn [mbind outcome_bind]. eapply leaves_after; [exact Haf|]. pose proof (ho_len _ _ _ _ H1) as Hlen.
  eapply (add_leaves _ _ _ _ _ _ _ _ STATUS_UNKNOWN); [exact H1 | done | done | | status_lia | done].
  cbn [si_step]. unfold si_count; cbn [si_status]. rewrite setstatusat_ok by lia. do 2 f_equal.
  replace (Z.to_nat (Z.of_nat (length s1) - 1)) with (length base) by lia.
  rewrite <- (take_drop_middle s1 (length base) t Ht) at 1. rewrite insert_app_r_alt by (rewrite length_take; lia).
  rewrite length_take, (drop_ge s1) by lia. by replace (length base - length base `min` length s1) with 0 by lia.
Qed.

Section application.
Context (mkfuel : nat) (src : source).
Hypothesis Hmk : 0 < mkfuel.
Hypothesis Hsrc : src_ready mkfuel src.
Context (C E : compilation -> snode -> pmap -> Z -> outcome compilation).

Lemma E_application_ok c : 0 < count_args c -> below src C E c ->
  compiles src (fun comp c pm n => E_application src mkfuel C E c pm n comp) STATUS_SPARKED c.
Proof.
  intros Hc Hb comp pm s Hg H. unfold E_application.
  destruct (fun_ok_callable mkfuel src _ _ Hmk Hsrc (shape_spine src c (or_intror Hc) (proj1 Hg))) as (fno & k & Hca & Hm).
  rewrite (ca_fun _ _ _ _ _ Hca). cbn [cassert mbind outcome_bind].
  rewrite (ca_fno _ _ _ _ _ Hca). cbn [mbind outcome_bind]. rewrite (ca_nargs _ _ _ _ _ Hca). cbn [mbind outcome_bind].
  rewrite (proj2 (Z.leb_le _ _)) by lia. cbn [cassert mbind outcome_bind].
  destruct (as_if c) as [[[cond t] f]|] eqn:Eif.
  { apply as_if_parts in Eif as (sl1 & st1 & sl2 & st2 & sl3 & st3 & sl4 & ->).
    apply good_app in Hg as [Hg Gf]. apply good_app in Hg as [Hg Gt]. apply good_app in Hg as [_ Gc].
    eapply E_if_ok; [|apply shape_literal, Gc | done].
    intros x [-> | [-> | [-> | (num & (? & ? & ? & ? & ? & ? & ->)%eq_literal_parts)]]];
      (split; [apply Hb; cbn; lia|]); try done.
    apply good_app in Gc as [Gc _]. by apply good_app in Gc as [_ Gx]. }
  destruct (as_seq c) as [[e1 e2]|] eqn:Eseq.
  { apply as_seq_parts in Eseq as (sl1 & st1 & sl2 & st2 & sl3 & ->).
    apply good_app in Hg as [Hg G2]. apply good_app in Hg as [_ G1].
    apply (E_seq_ok src); try done; apply Hb; cbn; lia. }
  destruct (item_literal_total mkfuel src c Hsrc (proj1 Hg)) as [item Ei]. rewrite Ei. cbn [mbind outcome_bind].
  destruct item as [[num l]|]; [|by eapply E_call_ok].
  destruct (Z.of_nat k =? 2)%Z; [|by eapply E_call_ok].
  destruct (proj2 (shape_literal src c (proj1 Hg)) num l Ei) as [v ->]. cbn [mbind outcome_bind].
  apply item_literal_parts in Ei as (sl1 & st1 & h & ->). apply good_app in Hg as [_ Gl].
  set (sl := node_sl (spine_head _)).
  assert (leaves comp s STATUS_SPARKED (comp ← (comp ← E comp l pm (Z.of_nat (length s));
    add_instruction comp sl OP_ITEMN v 0); SPARK sl 0 comp)) as HL.
  { eapply leaves_SPARK, E_item_ok; [|done|done]. apply Hb. cbn. lia. }
  by destruct (E comp l pm (Z.of_nat (length s))).
Qed.
End application.

Lemma letrec_body_ok src C E rec_ strictcontext sl bs b lo :
  (forall rec, rec ∈ bs -> compiles src C STATUS_UNKNOWN (lr_value rec) /\ compiles src E STATUS_SPARKED (lr_value rec)) ->
  compiles src rec_ lo b ->
  forall comp pm s, good src pm (length s) (SNODE_LETREC sl bs b) -> holds comp s 0 s ->
  leaves comp s lo (letrec_body C E rec_ strictcontext sl bs b pm (Z.of_nat (length s)) comp).
Proof.
  intros Hv Hb comp pm s Hg H.
  destruct (good_letrec _ _ _ _ _ _ Hg) as (Gv & Gb & Hnd & Hfr & Hout). unfold letrec_body.
  destruct (Cletrec_ok src C E pm s bs strictcontext) with (comp := comp) (s := s) as (c1 & s1 & -> & Haf & H1); try done.
  { intros rec Hr. destruct (Hv rec Hr). split_and!; auto. }
  cbn [mbind outcome_bind]. pose proof (ho_len _ _ _ _ H1) as Hl1.
  replace (Z.of_nat (length s) + Z.of_nat (length bs))%Z with (Z.of_nat (length s1)) by lia.
  rewrite <- Hl1 in Gb.
  destruct (leaves_holds _ _ _ _ (Hb c1 _ s1 Gb (holds_self _ _ _ _ H1))) as (c2 & s2 & -> & Haf2 & H2 & t & Ht & Hlo).
  cbn [mbind outcome_bind]. eapply leaves_after; [by eapply after_trans|].
  eapply (SQUEEZE_ok _ _ s2 (length bs) sl lo t); [| | done].
  - apply (holds_trans _ _ (length bs) s1); [apply H1 | done | done].
  - by rewrite <- Hl1.
Qed.

Lemma symbol_E_ok src sl x comp pm s :
  good src pm (length s) (SNODE_SYMBOL sl x) -> holds comp s 0 s ->
  leaves comp s STATUS_SPARKED (idx ← presolve pm x; comp ← SPARK sl (Z.of_nat (length s) - idx) comp;
    PUSH sl (Z.of_nat (length s) - idx) comp).
Proof.
  intros (_ & Hs & _) H. destruct (Hs x eq_refl) as (idx & -> & Hi). cbn [mbind outcome_bind].
  destruct (SPARK_ok comp sl (Z.of_nat (length s) - idx) s (ho_si _ _ _ _ H) (ho_ok _ _ _ _ H))
    as (c1 & s1 & -> & Haf & Hok1 & Hle1 & Hl1 & t & Ht & Hlo); [lia|].
  cbn [mbind outcome_bind]. rewrite <- Hl1.
  replace (length s - 1 - Z.to_nat (Z.of_nat (length s) - idx)) with (Z.to_nat (idx - 1)) in Ht by lia.
  destruct (PUSH_ok c1 s1 sl idx STATUS_SPARKED t) as (c2 & s2 & E2 & Haf2 & Hok2 & Hle2 & Hl2 & Ht2); try done.
  { split; [apply Haf | done | apply le_st_refl | lia]. } { lia. }
  exists c2, s2. split_and!; [done | by eapply after_trans | done | by eapply le_st_trans | lia |]. by rewrite <- Hl1.
Qed.
Section leaf.
Context (mkfuel : nat) (src : source).
Hypothesis Hmk : 0 < mkfuel.
Hypothesis Hsrc : src_ready mkfuel src.

Lemma function_ref_ok c comp s sl :
  is_function c = true -> shape src c -> holds comp s 0 s ->
  leaves comp s STATUS_UNKNOWN
    (fno ← snode_fno src c; nargs ← function_nargs src fno;
     if (nargs =? 0)%Z then domkframe mkfuel src sl fno 0 comp else MKCAP sl fno 0 comp).
Proof.
  intros Hf Hs H. assert (fun_ok src c 0) as Hfo by (by destruct c).
  destruct (fun_ok_callable mkfuel src c 0 Hmk Hsrc Hfo) as (fno & k & Hca & _).
  rewrite (ca_fno _ _ _ _ _ Hca). cbn [mbind outcome_bind]. rewrite (ca_nargs _ _ _ _ _ Hca). cbn [mbind outcome_bind].
  destruct (Z.eqb_spec (Z.of_nat k) 0) as [E0|E0].
  - assert (k = 0) as -> by lia. exact (ca_frame _ _ _ _ _ Hca comp s s sl H).
  - eapply leaves_weaken; [|exact (MKCAP_ok comp s 0 s sl fno H)]. status_lia.
Qed.

End leaf.

Lemma compiles_all mkfuel src : 0 < mkfuel -> src_ready mkfuel src -> forall fuel c,
  (2 * snode_size c <= S fuel -> compiles src (C fuel mkfuel src) STATUS_UNKNOWN c) /\
  (2 * snode_size c <= fuel -> compiles src (E fuel mkfuel src) STATUS_SPARKED c).
Proof.
  intros Hmk Hsrc. induction fuel as [|fuel IH]; intros c.
  { split; intros Hf; destruct c; cbn in Hf; lia. }
  assert (Hbelow : 2 * snode_size c <= S (S fuel) -> below src (C fuel mkfuel src) (E fuel mkfuel src) c).
  { intros Hf c' Hc'. split; apply IH; lia. }
  assert (Hrecs : forall sl bs b, c = SNODE_LETREC sl bs b -> 2 * snode_size c <= S (S fuel) ->
    (forall rec, rec ∈ bs -> compiles src (C fuel mkfuel src) STATUS_UNKNOWN (lr_value rec) /\
      compiles src (E fuel mkfuel src) STATUS_SPARKED (lr_value rec)) /\
    compiles src (C fuel mkfuel src) STATUS_UNKNOWN b /\ compiles src (E fuel mkfuel src) STATUS_SPARKED b).
  { intros sl bs b -> Hf. split; [|apply (Hbelow Hf); cbn; lia].
    intros rec Hr. apply (Hbelow Hf). by apply letrec_value_size. }
  split; intros Hf comp pm s Hg H.
  - destruct c as [sl st l r|sl n b|sl bif|sl x|sl bs b|sl p|sl|sl num|sl str]; cbn [C].
    + apply (C_application_ok mkfuel src Hmk Hsrc _ (E fuel mkfuel src) (SNODE_APPLICATION sl st l r)); [cbn; lia | auto | done | done].
    + by destruct Hg.
    + exact (function_ref_ok mkfuel src Hmk Hsrc (SNODE_BUILTIN sl bif) comp s sl eq_refl (proj1 Hg) H).
    + destruct Hg as (_ & Hs & _). destruct (Hs x eq_refl) as (idx & -> & Hi). cbn [mbind outcome_bind].
      destruct (lookup_lt_is_Some_2 s (Z.to_nat (idx - 1))) as [y Hy]; [lia|].
      eapply PUSH_ok; [done | done | done |]. by eapply st_ok_lookup; [apply H|].
    + destruct (Hrecs _ _ _ eq_refl Hf) as (Hv & Hb & _). by eapply letrec_body_ok.
    + exact (function_ref_ok mkfuel src Hmk Hsrc (SNODE_SCREF sl p) comp s sl eq_refl (proj1 Hg) H).
    + eapply leaves_weaken; [|eapply push_value_ok; [exact H|auto]]. status_lia.
    + eapply leaves_weaken; [|eapply push_value_ok; [exact H|auto]]. status_lia.
    + eapply leaves_weaken; [|by eapply push_string_ok]. status_lia.
  - assert (HCc : compiles src (C fuel mkfuel src) STATUS_UNKNOWN c) by (apply IH; lia).
    destruct c as [sl st l r|sl n b|sl bif|sl x|sl bs b|sl p|sl|sl num|sl str]; cbn [E];
      try (by eapply leaves_SPARK, HCc).
    + apply (E_application_ok mkfuel src Hmk Hsrc _ _ (SNODE_APPLICATION sl st l r)); [cbn; lia | apply Hbelow; lia | done | done].
    + by apply symbol_E_ok with (src := src).
    + destruct (Hrecs _ _ _ eq_refl ltac:(lia)) as (Hv & _ & Hb). by eapply letrec_body_ok.
Qed.
