(* ===== verification/SchemeR.v ===== *)
(** * The scheme for bodies

    [R] on the bodies the compiler accepts: it returns, its assertions hold,
    and the code it appends is closed: jumps stay inside and control never
    runs off the end. *)

From S2P Require Import Prelude CString Builtins Util Source Resolve Double Bytecode Peephole StackDiscipline Schemes.

#[local] Set Warnings "-clear-no-such-hyp".

(** ** Closed code *)

Definition is_final (op : opcode) : bool :=
  match op with OP_RETURN | OP_JFUN | OP_DO => true | _ => false end.

(** The optimiser removes POPs and folds a SQUEEZE into the RETURN after it,
    asserting that it removes something. So a SQUEEZE that removes nothing must
    not come to stand in front of a RETURN, however many POPs and SQUEEZEs are
    between them. *)
Definition soft (op : opcode) : bool := match op with OP_POP | OP_SQUEEZE => true | _ => false end.
Fixpoint first_solid (l : list instruction) : option opcode :=
  match l with
  | [] => None
  | i :: l => if soft (i_opcode i) then first_solid l else Some (i_opcode i)
  end.
Definition zero_squeeze (i : instruction) : Prop := i_opcode i = OP_SQUEEZE /\ (i_arg1 i <= 0)%Z.
Fixpoint guarded (l : list instruction) : Prop :=
  match l with
  | [] => True
  | i :: l => (zero_squeeze i -> first_solid l <> Some OP_RETURN) /\ guarded l
  end.

Definition final_code (l : list instruction) : Prop :=
  exists l0 i, l = l0 ++ [i] /\ is_final (i_opcode i) = true.

Lemma first_solid_app l1 l2 :
  first_solid (l1 ++ l2) = match first_solid l1 with Some op => Some op | None => first_solid l2 end.
Proof. induction l1 as [|i l1 IH]; cbn; [done|]. by destruct (soft (i_opcode i)). Qed.

Lemma no_return_solid l : no_return l -> first_solid l <> Some OP_RETURN.
Proof. induction 1 as [|i l Hi Hl IH]; cbn; [done|]. destruct (soft (i_opcode i)); [done | congruence]. Qed.

Lemma guarded_app l1 l2 : no_return l1 -> first_solid l2 <> Some OP_RETURN -> guarded l2 -> guarded (l1 ++ l2).
Proof.
  intros Hn Hs Hg. induction Hn as [|i l1 Hi Hl IH]; cbn; [done|]. split; [|done]. intros _.
  rewrite first_solid_app. pose proof (no_return_solid _ Hl). by destruct (first_solid l1).
Qed.

Lemma final_solid l : final_code l -> first_solid l <> None.
Proof.
  intros (l0 & i & -> & Hi). rewrite first_solid_app. destruct (first_solid l0); [done|]. cbn. by destruct (i_opcode i).
Qed.

Lemma guarded_final l1 l2 : final_code l1 -> guarded l1 -> guarded l2 -> guarded (l1 ++ l2).
Proof.
  intros (l0 & i & -> & Hi) H1 H2. induction l0 as [|j l0 IH]; cbn in *.
  - split; [|done]. intros [E _]. by rewrite E in Hi.
  - destruct H1 as [Hj H1]. split; [|by apply IH]. intros Hz. rewrite first_solid_app. specialize (Hj Hz).
    pose proof (final_solid (l0 ++ [i])) as Hs. destruct (first_solid (l0 ++ [i])) as [op|]; [done|].
    destruct Hs; [by exists l0, i | done].
Qed.

Record closed_code (l : list instruction) : Prop := {
  cc_ok : jumps_ok l;
  cc_guarded : guarded l;
  cc_solid : first_solid l <> Some OP_RETURN;
  cc_jumps : forall i instr, l !! i = Some instr -> is_jump (i_opcode instr) = true ->
    (Z.of_nat i + i_arg0 instr < Z.of_nat (length l))%Z;
  cc_final : final_code l
}.

Lemma jumps_ok_app l1 l2 : jumps_ok l1 -> jumps_ok l2 -> jumps_ok (l1 ++ l2).
Proof.
  intros J1 J2 i instr Hi Hj. rewrite length_app. apply lookup_app_Some in Hi as [Hi|[Hle Hi]].
  - destruct (J1 _ _ Hi Hj). lia.
  - destruct (J2 _ _ Hi Hj). lia.
Qed.

Lemma jumps_before l1 l2 : jumps_ok l1 -> 0 < length l2 ->
  (forall i instr, l2 !! i = Some instr -> is_jump (i_opcode instr) = true -> (Z.of_nat i + i_arg0 instr < Z.of_nat (length l2))%Z) ->
  forall i instr, (l1 ++ l2) !! i = Some instr -> is_jump (i_opcode instr) = true ->
    (Z.of_nat i + i_arg0 instr < Z.of_nat (length (l1 ++ l2)))%Z.
Proof.
  intros J1 Hpos J2 j instr Hj Hjmp. rewrite length_app. apply lookup_app_Some in Hj as [Hj|[Hle Hj]].
  - destruct (J1 _ _ Hj Hjmp). lia.
  - specialize (J2 _ _ Hj Hjmp). lia.
Qed.

Lemma final_code_pos l : final_code l -> 0 < length l.
Proof. intros (l0 & i & -> & _). rewrite length_app. cbn. lia. Qed.

Lemma closed_code_app l1 l2 : code_ok l1 -> closed_code l2 -> closed_code (l1 ++ l2).
Proof.
  intros [J1 N1] [O2 G2 S2 J2 F2]. split.
  - by apply jumps_ok_app.
  - by apply guarded_app.
  - rewrite first_solid_app. pose proof (no_return_solid _ N1). by destruct (first_solid l1).
  - apply jumps_before; [done | by apply final_code_pos | done].
  - destruct F2 as (l0 & i & -> & Hi). exists (l1 ++ l0), i. by rewrite <- app_assoc.
Qed.

Lemma single_jumps i : is_jump (i_opcode i) = false -> jumps_ok [i] /\
  forall n instr, [i] !! n = Some instr -> is_jump (i_opcode instr) = true -> (Z.of_nat n + i_arg0 instr < 1)%Z.
Proof. intros Hj. split; intros [|n] instr H Hjmp; cbn in H; simplify_eq; congruence. Qed.

Lemma closed_code_final i : is_final (i_opcode i) = true -> i_opcode i <> OP_RETURN -> closed_code [i].
Proof.
  intros Hi Hr. assert (is_jump (i_opcode i) = false) as Hj by (by destruct (i_opcode i)).
  destruct (single_jumps i Hj) as [J1 J2].
  split; [done | | | done | by exists [], i].
  - split; [|done]. intros [E _]. by rewrite E in Hi.
  - cbn. destruct (soft (i_opcode i)); [done | congruence].
Qed.

(** Code that may be followed by a RETURN: after its last instruction other
    than POP and SQUEEZE every SQUEEZE removes something. *)
Definition settled (l : list instruction) : Prop :=
  exists l0 i l1, l = l0 ++ i :: l1 /\ soft (i_opcode i) = false /\ Forall (fun j => ~ zero_squeeze j) l1.

Lemma closed_code_return l r : code_ok l -> settled l -> i_opcode r = OP_RETURN -> closed_code (l ++ [r]).
Proof.
  intros [J N] (l0 & i & l1 & El & Hi & Hz) Hr.
  assert (is_jump (i_opcode r) = false) as Hj by (by rewrite Hr). destruct (single_jumps r Hj) as [J1 J2].
  assert (i_opcode i <> OP_RETURN) as Hir.
  { eapply (proj1 (Forall_forall _ _) N). rewrite El, elem_of_app. right. by left. }
  assert (first_solid (i :: l1 ++ [r]) = Some (i_opcode i)) as Hs by (cbn; by rewrite Hi).
  split.
  - by apply jumps_ok_app.
  - subst l. rewrite <- app_assoc. cbn [app]. apply Forall_app in N as [N0 _]. apply guarded_app; [done | congruence |].
    split; [intros [E _]; by rewrite E in Hi|]. clear -Hz Hr. induction Hz as [|j l1 Hj Hl IH]; cbn.
    + split; [|done]. intros [E _]. congruence.
    + split; [|done]. intros Hj'. by destruct (Hj Hj').
  - subst l. rewrite <- app_assoc, first_solid_app. cbn [app]. apply Forall_app in N as [N0 _].
    pose proof (no_return_solid _ N0). destruct (first_solid l0); congruence.
  - apply jumps_before; [done | cbn; lia | done].
  - exists l, r. by rewrite Hr.
Qed.

(** A conditional jump over one closed branch to another. *)
Lemma closed_code_if l1 j lb1 lb2 :
  code_ok l1 -> is_jump (i_opcode j) = true -> closed_code lb1 -> closed_code lb2 ->
  closed_code (l1 ++ set_arg0 (1 + Z.of_nat (length lb1)) j :: lb1 ++ lb2).
Proof.
  intros H1 Hj [O1 G1 S1 J1 F1] [O2 G2 S2 J2 F2]. apply closed_code_app; [done|].
  pose proof (final_code_pos _ F2) as Hpos. set (j' := set_arg0 _ j).
  assert (first_solid (j' :: lb1 ++ lb2) = Some (i_opcode j)) as Hs by (cbn; by destruct (i_opcode j)).
  assert (Hj2 : forall i instr, (j' :: lb1 ++ lb2) !! i = Some instr -> is_jump (i_opcode instr) = true ->
    (1 <= i_arg0 instr /\ Z.of_nat i + i_arg0 instr < Z.of_nat (length (j' :: lb1 ++ lb2)))%Z).
  { intros [|n] instr Hn Hjmp; cbn in Hn; cbn [length].
    - simplify_eq. cbn. rewrite length_app. lia.
    - pose proof (jumps_before lb1 lb2 O1 Hpos J2 _ _ Hn Hjmp). pose proof (jumps_ok_app _ _ O1 O2 _ _ Hn Hjmp). lia. }
  split.
  - intros i instr Hi Hjmp. specialize (Hj2 i instr Hi Hjmp). lia.
  - split; [intros [E _]; cbn in E; rewrite E in Hj; done | by apply guarded_final].
  - rewrite Hs. intros [= E]. by rewrite E in Hj.
  - intros i instr Hi Hjmp. apply (Hj2 i instr Hi Hjmp).
  - destruct F2 as (l0 & i & -> & Hi). exists (j' :: lb1 ++ l0), i. cbn. by rewrite <- app_assoc.
Qed.

(** What [R] achieves. *)
Definition finishes (comp : compilation) (r : outcome compilation) : Prop :=
  exists comp' l, r = Done comp' /\ instructions comp' = instructions comp ++ l /\ closed_code l /\
    is_Some (comp_si comp').

Lemma finishes_after comp comp1 s r : after comp comp1 s -> finishes comp1 r -> finishes comp r.
Proof.
  intros [_ (l1 & E1 & O1)] (c2 & l2 & E2 & E3 & H2 & Hsi). exists c2, (l1 ++ l2).
  split_and!; [done | by rewrite E3, E1, app_assoc | by apply closed_code_app | done].
Qed.

(** *** Code up to a RETURN *)

Definition settles (comp comp' : compilation) : Prop :=
  exists l, instructions comp' = instructions comp ++ l /\ code_ok l /\ settled l.

Lemma add_instruction_code comp sl op a0 a1 comp' :
  add_instruction comp sl op a0 a1 = Done comp' ->
  exists i, instructions comp' = instructions comp ++ [i] /\ i_opcode i = op /\ i_arg1 i = a1.
Proof.
  unfold add_instruction. intros H. destruct (comp_si comp) as [si|]; outcome_inv; subst; eexists; by split_and!.
Qed.

Lemma settles_add comp sl op a0 a1 comp' :
  add_instruction comp sl op a0 a1 = Done comp' -> is_jump op = false -> op <> OP_RETURN -> soft op = false ->
  settles comp comp'.
Proof.
  intros (i & E & <- & _)%add_instruction_code Hj Hr Hs. exists [i]. split_and!; [done | by apply code_ok_single |].
  by exists [], i, [].
Qed.

Definition appends (comp comp' : compilation) : Prop :=
  exists l, instructions comp' = instructions comp ++ l /\ code_ok l.

Lemma settles_after comp comp1 comp2 : appends comp comp1 -> settles comp1 comp2 -> settles comp comp2.
Proof.
  intros (l1 & E1 & O1) (l2 & E2 & O2 & (l0 & i & l3 & -> & Hi & Hz)). exists (l1 ++ l0 ++ i :: l3).
  split_and!; [by rewrite E2, E1, <- app_assoc | by apply code_ok_app |]. exists (l1 ++ l0), i, l3. by rewrite <- app_assoc.
Qed.

Lemma settles_snoc comp comp1 comp2 i :
  settles comp comp1 -> instructions comp2 = instructions comp1 ++ [i] -> is_jump (i_opcode i) = false ->
  i_opcode i <> OP_RETURN -> ~ zero_squeeze i -> settles comp comp2.
Proof.
  intros (l & E & O & (l0 & k & l1 & -> & Hk & Hz)) E2 Hj Hr Hi. exists ((l0 ++ k :: l1) ++ [i]).
  split_and!; [by rewrite E2, E, <- app_assoc | apply code_ok_app; [done | by apply code_ok_single] |].
  exists l0, k, (l1 ++ [i]). rewrite <- app_assoc. split_and!; [done | done | apply Forall_app; by repeat constructor].
Qed.

Lemma settles_SQUEEZE comp comp1 comp2 sl n :
  settles comp comp1 -> SQUEEZE_to_1 sl n comp1 = Done comp2 -> settles comp comp2.
Proof.
  intros H. unfold SQUEEZE_to_1. destruct (Z.ltb_spec 0 n); [|by intros [= <-]].
  intros (i & E & Ho & Ha)%add_instruction_code. eapply settles_snoc; [done | done | by rewrite Ho | by rewrite Ho |].
  intros [_ Hz]. lia.
Qed.

Lemma settles_EVAL comp comp1 comp2 sl a :
  settles comp comp1 -> EVAL sl a comp1 = Done comp2 -> settles comp comp2.
Proof.
  intros H. unfold EVAL. intros He. outcome_inv. destruct (_ <? _)%Z; [|by simplify_eq].
  apply add_instruction_code in He as (i & E & Ho & _).
  eapply settles_snoc; [done | done | by rewrite Ho | by rewrite Ho |]. intros [E' _]. congruence.
Qed.

Lemma EVAL_appends comp comp' sl a : EVAL sl a comp = Done comp' -> appends comp comp'.
Proof.
  unfold EVAL. intros H. outcome_inv. destruct (_ <? _)%Z.
  - apply add_instruction_code in H as (i & E & Ho & _). exists [i]. split; [done|]. by apply code_ok_single; rewrite Ho.
  - simplify_eq. exists []. split; [by rewrite app_nil_r | apply code_ok_nil].
Qed.

Lemma eval_args_appends sl vs : forall comp comp', eval_args sl vs comp = Done comp' -> appends comp comp'.
Proof.
  induction vs as [|v vs IH]; intros comp comp' H; cbn [eval_args] in H.
  { simplify_eq. exists []. split; [by rewrite app_nil_r | apply code_ok_nil]. }
  apply bind_Done_inv in H as (c1 & (l1 & E1 & O1)%EVAL_appends & H).
  destruct (IH _ _ H) as (l2 & E2 & O2). exists (l1 ++ l2). split; [by rewrite E2, E1, app_assoc | by apply code_ok_app].
Qed.

Lemma settles_BIF comp comp' sl bif : BIF sl bif comp = Done comp' -> settles comp comp'.
Proof.
  unfold BIF. intros H. outcome_inv. eapply settles_after; [by eapply eval_args_appends|]. by eapply settles_add.
Qed.

(** A frame for a built-in. *)
Lemma settles_domkframe mkfuel src sl bif b n comp comp' :
  builtin_info !! bif = Some b -> domkframe mkfuel src sl (Z.of_nat bif) n comp = Done comp' -> settles comp comp'.
Proof.
  intros Hb H. destruct mkfuel as [|mkfuel]; [done|]. cbn [domkframe] in H.
  assert (bif < NUM_BUILTINS) as Hlt by (by apply lookup_lt_Some in Hb).
  rewrite (proj2 (Z.leb_gt _ _)) in H by lia. destruct (_ =? _)%Z; [|by eapply settles_add].
  outcome_inv. by eapply settles_BIF.
Qed.

Lemma return_ok comp comp1 s sl :
  comp_si comp1 = Some (Stackinfo s false) -> settles comp comp1 -> finishes comp (RETURN sl comp1).
Proof.
  intros Hsi (l & E & O & Hs). unfold RETURN, add_instruction. rewrite Hsi. cbn [si_invalid negb cassert mbind outcome_bind si_step].
  eexists _, _. split; [reflexivity|]. split_and!; [cbn; rewrite E; by rewrite <- app_assoc | | by eexists].
  by apply closed_code_return.
Qed.

Lemma return_after comp comp1 comp2 s s2 sl :
  after comp comp1 s -> settles comp1 comp2 -> comp_si comp2 = Some (Stackinfo s2 false) -> finishes comp (RETURN sl comp2).
Proof. intros [_ Ha] Hs Hsi. eapply return_ok; [done|]. by eapply settles_after. Qed.

Lemma final_ok comp sl op a0 a1 s :
  comp_si comp = Some (Stackinfo s false) -> is_final op = true -> op <> OP_RETURN ->
  finishes comp (add_instruction comp sl op a0 a1).
Proof.
  intros Hsi Hop Hr. unfold add_instruction. rewrite Hsi. cbn [si_invalid negb cassert mbind outcome_bind].
  assert (exists si, si_step (Stackinfo s false) op a0 a1 = Done si) as [si E] by (destruct op; try done; by eexists).
  rewrite E. cbn [mbind outcome_bind]. eexists _, _. split; [reflexivity|]. split_and!; [done | | by eexists].
  by apply closed_code_final.
Qed.

(** ** Arguments in place *)

Lemma S_skip_ok src pm n s exprs : forall m,
  Forall (fun a => good src pm n a.1) exprs -> length s = n -> m <= n ->
  exists rest m', S_skip exprs (Z.of_nat m) pm (Stackinfo s false) = Done (rest, Z.of_nat m') /\
    suffix rest exprs /\ m' + length rest = m + length exprs /\ m' <= n.
Proof.
  induction exprs as [|[a strict] exprs IH]; intros m Hg Hl Hm; cbn [S_skip].
  { exists [], m. split_and!; done || lia. }
  apply Forall_cons in Hg as [Ha Hg].
  assert (exists rest m', Done ((a, strict) :: exprs, Z.of_nat m) = Done (rest, Z.of_nat m') /\
    suffix rest ((a, strict) :: exprs) /\ m' + length rest = m + length ((a, strict) :: exprs) /\ m' <= n) as Hstop.
  { exists ((a, strict) :: exprs), m. split_and!; done || lia. }
  destruct a; try done. destruct Ha as (_ & Hs & _). destruct (Hs name eq_refl) as (idx & Hi & Hr).
  rewrite Hi. cbn [mbind outcome_bind]. destruct (Z.eqb_spec (idx - 1) (Z.of_nat m)) as [Ei|]; [|done].
  destruct (lookup_lt_is_Some_2 s m) as [x Hx]; [lia|].
  assert (exists b, (if strict then s0 ← statusat (Stackinfo s false) (Z.of_nat m); Done (s0 =? STATUS_UNKNOWN)%Z
    else Done false) = Done b) as [b ->].
  { destruct strict; [|by eexists]. rewrite (statusat_ok _ _ _ x) by (rewrite ?Nat2Z.id; done || lia). by eexists. }
  cbn [mbind outcome_bind]. destruct b; [done|].
  replace (Z.of_nat m + 1)%Z with (Z.of_nat (S m)) by lia.
  destruct (IH (S m) Hg Hl) as (rest & m' & -> & Hsuf & Hlen & Hm'); [lia|].
  exists rest, m'. split_and!; [done | by apply suffix_cons_r | cbn; lia | done].
Qed.

Lemma Forall_suffix {A} (P : A -> Prop) l1 l2 : suffix l1 l2 -> Forall P l2 -> Forall P l1.
Proof. intros [k ->] H. by apply Forall_app in H as [_ ?]. Qed.

Section R.
Context (src : source) (C E : compilation -> snode -> pmap -> Z -> outcome compilation).

Lemma S_ok exprs comp pm s sl :
  Forall (arg_ok src C E pm (length s)) exprs -> holds comp s 0 s ->
  exists comp' s', S_ C E sl exprs pm (Z.of_nat (length s)) comp = Done comp' /\ after comp comp' s' /\
    holds comp' [] (length exprs) s'.
Proof.
  intros Hargs H. unfold S_, the_si. rewrite (ho_si _ _ _ _ H). cbn [deref mbind outcome_bind].
  destruct (S_skip_ok src pm (length s) s exprs 0) as (rest & m & Esk & Hsuf & Hlen & Hm); [| done | lia |].
  { eapply Forall_impl; [exact Hargs|]. by intros a (_ & _ & ?). }
  change (Z.of_nat 0) with 0%Z in Esk. rewrite Esk. cbn [mbind outcome_bind].
  destruct (push_args_ok src C E rest comp pm s (Forall_suffix _ _ _ Hsuf Hargs) H) as (c1 & s1 & -> & Haf & H1 & _).
  cbn [mbind outcome_bind]. pose proof (ho_len _ _ _ _ H1) as Hl1.
  destruct (Z.ltb_spec 0 (Z.of_nat (length s) - Z.of_nat m)) as [Hlt|Hge].
  - destruct (add_instruction_ok c1 sl OP_SQUEEZE (Z.of_nat (length rest)) (Z.of_nat (length s) - Z.of_nat m) s1
      (take m s1 ++ drop (length s) s1) (ho_si _ _ _ _ H1)) as (c2 & -> & Haf2); [|done|done|].
    { cbn [si_step]. unfold si_count; cbn [si_status si_invalid]. rewrite (proj2 (Z.leb_le _ _)) by lia.
      cbn [cassert mbind outcome_bind].
      replace (Z.to_nat (Z.of_nat (length s1) - Z.of_nat (length rest) - (Z.of_nat (length s) - Z.of_nat m))) with m by lia.
      by replace (Z.to_nat (Z.of_nat (length s1) - Z.of_nat (length rest))) with (length s) by lia. }
    exists c2, (take m s1 ++ drop (length s) s1). split_and!; [done | by eapply after_trans |].
    split; [apply Haf2 | | done | rewrite length_app, length_take, length_drop; cbn; lia].
    apply Forall_app. split; [apply Forall_take, H1 | apply Forall_drop, H1].
  - exists c1, s1. split_and!; [done | done |]. split; [apply H1 | apply H1 | done | cbn; lia].
Qed.
End R.

(** ** Endings *)

Lemma squeeze1_ok comp s s1 sl :
  holds comp s 1 s1 -> exists comp' s', SQUEEZE_to_1 sl (Z.of_nat (length s)) comp = Done comp' /\
    after comp comp' s' /\ holds comp' [] 1 s'.
Proof.
  intros H. unfold SQUEEZE_to_1. pose proof (ho_len _ _ _ _ H) as Hl.
  destruct (Z.ltb_spec 0 (Z.of_nat (length s))) as [Hlt|Hge].
  - destruct (lookup_lt_is_Some_2 s1 (length s)) as [t Ht]; [lia|].
    destruct (SQUEEZE_ok comp [] s1 (length s) sl t t) as (c1 & s2 & E & Haf & Hok & _ & Hn & _); try done; [|].
    { split; [apply H | apply H | done | cbn; lia]. }
    exists c1, s2. split_and!; [done | done |]. split; [apply Haf | done | done | done].
  - exists comp, s1. split_and!; [done | by apply after_refl, H |].
    split; [apply H | apply H | done | cbn; lia].
Qed.

Lemma SPARK_EVAL_DO_ok comp s sl :
  comp_si comp = Some (Stackinfo s false) -> st_ok s -> 0 < length s -> finishes comp (SPARK_EVAL_DO sl comp).
Proof.
  intros Hsi Hok Hl. unfold SPARK_EVAL_DO.
  destruct (SPARK_ok comp sl 0 s Hsi Hok) as (c1 & s1 & -> & Haf & Hok1 & _ & Hl1 & _); [lia|]. cbn [mbind outcome_bind].
  destruct (EVAL_ok c1 sl 0 s1 (af_si _ _ _ Haf) Hok1) as (c2 & s2 & -> & Haf2 & _); [lia|]. cbn [mbind outcome_bind].
  eapply finishes_after; [by eapply after_trans|]. eapply final_ok; [apply Haf2 | done | done].
Qed.

Lemma EVAL_final_ok comp s sl op a0 :
  holds comp [] 1 s -> is_final op = true -> op <> OP_RETURN ->
  finishes comp (comp ← EVAL sl 0 comp; add_instruction comp sl op a0 0).
Proof.
  intros H Hop Hr. pose proof (ho_len _ _ _ _ H) as Hl. cbn in Hl.
  destruct (EVAL_ok comp sl 0 s (ho_si _ _ _ _ H) (ho_ok _ _ _ _ H)) as (c2 & s2 & -> & Haf2 & _); [lia|].
  cbn [mbind outcome_bind]. eapply finishes_after; [exact Haf2|]. eapply final_ok; [apply Haf2 | done | done].
Qed.

(** ** Built-ins *)

Lemma strict_sparked_ok s todo :
  (forall argno, argno ∈ todo -> argno < length s /\ exists t, s !! (length s - 1 - argno) = Some t /\ (STATUS_SPARKED <= t)%Z) ->
  strict_sparked (Stackinfo s false) todo = Done tt.
Proof.
  induction todo as [|a todo IH]; intros H; cbn [strict_sparked]; [done|].
  destruct (H a) as (Hlt & t & Ht & Hlo); [by left|]. unfold si_count; cbn [si_status].
  rewrite (statusat_ok _ _ _ t); [|lia|by replace (Z.to_nat (Z.of_nat (length s) - 1 - Z.of_nat a)) with (length s - 1 - a) by lia].
  cbn [mbind outcome_bind]. rewrite (proj2 (Z.leb_le _ _)) by done. cbn [cassert mbind outcome_bind].
  apply IH. intros argno Ha. apply H. by right.
Qed.

Section R_cases.
Context (mkfuel : nat) (src : source).
Hypothesis Hmk : 0 < mkfuel.
Hypothesis Hsrc : src_ready mkfuel src.
Context (C E : compilation -> snode -> pmap -> Z -> outcome compilation).

(** The strict arguments of a built-in carry the mark; the last argument comes
    first in the list. *)
Definition strict_marked (b : builtin) (args : list (snode * bool)) : Prop :=
  forall argno, argno < bi_nstrict b -> exists a, args !! (length args - 1 - argno) = Some (a, true).

Lemma R_builtin_ok comp pm s sl bif b args :
  builtin_info !! bif = Some b -> length args = bi_nargs b -> strict_marked b args ->
  Forall (arg_ok src C E pm (length s)) args -> holds comp s 0 s ->
  finishes comp (R_builtin src mkfuel C E sl bif args pm (Z.of_nat (length s)) comp).
Proof.
  intros Hb Hlen Hst Hargs H. unfold R_builtin, S2.
  destruct (push_args_ok src C E args comp pm s Hargs H) as (c1 & s1 & -> & Haf & H1 & Hspk).
  cbn [mbind outcome_bind]. rewrite Hb. cbn [deref mbind outcome_bind]. unfold the_si.
  rewrite (ho_si _ _ _ _ H1). cbn [deref mbind outcome_bind]. unfold si_count; cbn [si_status].
  pose proof (ho_len _ _ _ _ H1) as Hl1. pose proof (builtin_nstrict_le _ _ Hb) as Hns.
  rewrite (proj2 (Z.leb_le _ _)) by lia. cbn [cassert mbind outcome_bind].
  rewrite strict_sparked_ok.
  2: { intros a Ha%elem_of_seq. split; [lia|]. destruct (Hst a) as [x Hx]; [lia|].
    destruct (Hspk _ _ Hx) as (t & Ht & ?). exists t. split; [|done]. rewrite <- Ht. f_equal. lia. }
  cbn [mbind outcome_bind]. rewrite Hlen in H1.
  assert (leaves c1 s (if bi_reswhnf b then STATUS_EVALUATED else STATUS_UNKNOWN) (if bi_pure b then BIF sl bif c1
    else comp ← domkframe mkfuel src sl (Z.of_nat bif) (Z.of_nat (bi_nargs b)) c1; EVAL sl 0 comp)) as HL.
  { destruct (bi_pure b); [by eapply BIF_ok|].
    destruct (fun_ok_callable mkfuel src (SNODE_BUILTIN sl bif) (bi_nargs b) Hmk Hsrc) as (fno & k & Hca & _); [by exists b|].
    destruct (fno_builtin src sl bif b Hb) as (F1 & F2 & _). pose proof (ca_fno _ _ _ _ _ Hca) as F3.
    rewrite F1 in F3. injection F3 as <-. pose proof (ca_nargs _ _ _ _ _ Hca) as F4. rewrite F2 in F4. injection F4 as F4.
    assert (k = bi_nargs b) as -> by lia.
    eapply leaves_weaken; [|eapply leaves_EVAL, (ca_frame _ _ _ _ _ Hca), H1]. destruct (bi_reswhnf b); status_lia. }
  apply leaves_holds in HL as (c2 & s2 & E2 & Haf2 & H2 & _).
  assert (settles c1 c2) as Hset2.
  { destruct (bi_pure b); [by eapply settles_BIF|]. apply bind_Done_inv in E2 as (c0 & E0 & E2).
    eapply settles_EVAL; [|exact E2]. by eapply settles_domkframe. }
  rewrite E2. cbn [mbind outcome_bind].
  destruct (squeeze1_ok c2 s s2 sl H2) as (c3 & s3 & E3 & Haf3 & H3).
  pose proof (settles_SQUEEZE _ _ _ _ _ Hset2 E3) as Hset3. rewrite E3. cbn [mbind outcome_bind].
  rewrite (ho_si _ _ _ _ H3). cbn [deref mbind outcome_bind]. unfold si_count; cbn [si_status].
  rewrite (ho_len _ _ _ _ H3). cbn [length Nat.add]. change (Z.of_nat 1 =? 1)%Z with true. cbn [cassert mbind outcome_bind].
  destruct (bi_reswhnf b); [eapply return_after; [exact Haf | exact Hset3 | apply H3]|].
  eapply finishes_after; [eapply after_trans; [exact Haf|]; by eapply after_trans|]. by eapply EVAL_final_ok.
Qed.

End R_cases.

(** ** Conditionals and sequences *)

Section R_branching.
Context (src : source) (E : compilation -> snode -> pmap -> Z -> outcome compilation).

Definition R_spec (R : compilation -> snode -> pmap -> Z -> outcome compilation) (pm : pmap) (n : nat) (c : snode) : Prop :=
  forall comp s, length s = n -> holds comp s 0 s -> finishes comp (R comp c pm (Z.of_nat n)).

Context (R : compilation -> snode -> pmap -> Z -> outcome compilation).

(** A branch of [R_if]. *)
Lemma branch_body (pop : bool) comp base s sl x pm :
  holds comp base (if pop then 1 else 0) s -> R_spec R pm (length base) x ->
  exists c1 c2 lb, branch comp = Done c1 /\
    (c ← (if pop then add_instruction c1 sl OP_POP 1 0 else Done c1); R c x pm (Z.of_nat (length base))) = Done c2 /\
    instructions c2 = instructions comp ++ lb /\ closed_code lb.
Proof.
  intros H Hx. destruct (branch_ok _ _ _ _ H) as (c1 & E1 & Ei & H1).
  assert (exists c2 s2 lp, (if pop then add_instruction c1 sl OP_POP 1 0 else Done c1) = Done c2 /\
    instructions c2 = instructions comp ++ lp /\ code_ok lp /\ holds c2 base 0 s2) as (c2 & s2 & lp & E2 & Elp & Hlp & H2).
  { destruct pop.
    - destruct (POP_ok _ _ _ sl H1) as (c2 & s2 & E2 & [_ (lp & Elp & Hlp)] & H2).
      exists c2, s2, lp. rewrite <- Ei. done.
    - exists c1, s, []. rewrite app_nil_r. split_and!; try done. apply code_ok_nil. }
  pose proof (ho_len _ _ _ _ H2) as Hl2.
  destruct (Hx c2 s2) as (c3 & l3 & E3 & El3 & Hl3 & _); [lia | by eapply holds_self |].
  exists c1, c3, (lp ++ l3). rewrite E2. cbn [mbind outcome_bind]. split_and!; try done.
  - by rewrite El3, Elp, app_assoc.
  - by apply closed_code_app.
Qed.

Lemma R_if_branches (pop : bool) comp c0 label base s0 l j x1 x2 pm sl :
  jumped comp c0 label base (if pop then 1 else 0) s0 l j ->
  R_spec R pm (length base) x1 -> R_spec R pm (length base) x2 ->
  finishes comp
    (c ← branch c0;
     c ← (if pop then add_instruction c sl OP_POP 1 0 else Done c);
     c ← R c x1 pm (Z.of_nat (length base));
     let c := LABEL label (unbranch c0 c) in
     c ← branch c;
     c ← (if pop then add_instruction c sl OP_POP 1 0 else Done c);
     c ← R c x2 pm (Z.of_nat (length base));
     Done (unbranch c0 c)).
Proof.
  intros [Ha Hc Hl Hj Hh] H1 H2.
  destruct (branch_body pop c0 base s0 sl x1 pm Hh H1) as (b1 & b2 & lb1 & -> & Eb & Elb & Olb).
  cbn [mbind outcome_bind]. apply bind_Done_inv in Eb as (b3 & -> & Eb). cbn [mbind outcome_bind].
  rewrite Eb. cbn [mbind outcome_bind].
  assert (instructions (LABEL label (unbranch c0 b2)) =
    instructions comp ++ l ++ set_arg0 (1 + Z.of_nat (length lb1)) j :: lb1) as EL.
  { rewrite Ha. destruct (LABEL_at (unbranch c0 b2) (instructions comp ++ l) j lb1) as [-> _].
    - cbn. rewrite Elb, Hc. by rewrite <- !app_assoc.
    - by rewrite <- app_assoc. }
  destruct (branch_body pop (LABEL label (unbranch c0 b2)) base s0 sl x2 pm (holds_label _ _ _ _ _ _ Hh) H2)
    as (d1 & d2 & lb2 & -> & Ed & Eld & Old).
  cbn [mbind outcome_bind]. apply bind_Done_inv in Ed as (d3 & -> & Ed). cbn [mbind outcome_bind].
  rewrite Ed. cbn [mbind outcome_bind].
  exists (unbranch c0 d2), (l ++ set_arg0 (1 + Z.of_nat (length lb1)) j :: lb1 ++ lb2). split_and!; [done | | |].
  - cbn [unbranch set_si instructions]. rewrite Eld, EL, <- !app_assoc. done.
  - by apply closed_code_if.
  - cbn. rewrite (ho_si _ _ _ _ Hh). by eexists.
Qed.

Lemma R_if_ok comp cond t f pm s :
  (forall x, x = cond \/ (exists num, eq_literal cond = Some (x, num)) ->
    compiles src E STATUS_SPARKED x /\ good src pm (length s) x) ->
  R_spec R pm (length s) t -> R_spec R pm (length s) f -> literal_ok src cond -> holds comp s 0 s ->
  finishes comp (R_if E R cond t f pm (Z.of_nat (length s)) comp).
Proof.
  intros Hsub Ht Hf Hlit H. unfold R_if. destruct (eq_literal cond) as [[x num]|] eqn:Eq.
  - destruct (Hsub x ltac:(eauto)) as [Hx Gx].
    destruct (compiles_at _ _ _ _ comp pm s s Hx Gx H) as (c1 & s1 & l1 & -> & _ & _ & Haf & H1 & _).
    cbn [mbind outcome_bind]. destruct (proj1 Hlit _ _ Eq) as [v ->]. cbn [mbind outcome_bind].
    destruct (JEQ_ok c1 s s1 (node_sl cond) v H1) as (c0 & label & s0 & l & j & -> & HJ). cbn [mbind outcome_bind].
    eapply finishes_after; [exact Haf|]. exact (R_if_branches true c1 c0 label s s0 l j f t pm (node_sl cond) HJ Hf Ht).
  - destruct (Hsub cond ltac:(auto)) as [Hc Gc].
    destruct (compiles_at _ _ _ _ comp pm s s Hc Gc H) as (c1 & s1 & l1 & -> & _ & _ & Haf & H1 & _).
    cbn [mbind outcome_bind].
    destruct (JFALSE_ok c1 s s1 (node_sl cond) H1) as (c0 & label & s0 & l & j & -> & HJ). cbn [mbind outcome_bind].
    eapply finishes_after; [exact Haf|]. exact (R_if_branches false c1 c0 label s s0 l j t f pm (node_sl cond) HJ Ht Hf).
Qed.

Lemma R_seq_ok comp e1 e2 pm s :
  compiles src E STATUS_SPARKED e1 -> good src pm (length s) e1 -> R_spec R pm (length s) e2 -> holds comp s 0 s ->
  finishes comp (R_seq E R e1 e2 pm (Z.of_nat (length s)) comp).
Proof.
  intros H1 G1 H2 H. unfold R_seq.
  pose proof (leaves_EVAL _ _ _ _ (node_sl e1) (H1 comp pm s G1 H)) as HL.
  apply leaves_holds in HL as (c1 & s1 & E1 & Haf & Hh & _). apply bind_Done_inv in E1 as (c0 & -> & E1).
  cbn [mbind outcome_bind]. rewrite E1. cbn [mbind outcome_bind].
  destruct (POP_ok c1 s s1 (node_sl e1) Hh) as (c2 & s2 & -> & Haf2 & Hh2). cbn [mbind outcome_bind].
  pose proof (ho_len _ _ _ _ Hh2) as Hl2.
  eapply finishes_after; [by eapply after_trans|]. apply (H2 c2 s2); [lia | by eapply holds_self].
Qed.
End R_branching.

(** ** Tail calls *)

Lemma have_status_ok mkfuel src p sc body st s limit :
  src_ready mkfuel src -> p ∈ src_scombs src -> sc_ready mkfuel src p sc body st -> sc_nargs sc <= length s ->
  forall todo, Forall (fun i => i < sc_nargs sc) todo ->
  exists b, have_status src (Z.of_nat (sc_index sc + NUM_BUILTINS)) limit (Stackinfo s false) todo = Done b.
Proof.
  intros Hsrc Hp Hr Hn. induction todo as [|i todo IH]; intros Ht; cbn [have_status]; [by eexists|].
  apply Forall_cons in Ht as [Hi Ht]. destruct (lookup_lt_is_Some_2 s (length s - 1 - i)) as [x Hx]; [lia|].
  unfold si_count; cbn [si_status].
  rewrite (statusat_ok _ _ _ x); [|lia|by replace (Z.to_nat (Z.of_nat (length s) - 1 - Z.of_nat i)) with (length s - 1 - i) by lia].
  cbn [mbind outcome_bind].
  assert (exists b, (if (x <? limit)%Z then function_strictin src (Z.of_nat (sc_index sc + NUM_BUILTINS)) (Z.of_nat i) else Done false) = Done b) as [b ->].
  { destruct (x <? limit)%Z; [|by eexists].
    destruct (fno_scref _ _ nosl p Hsrc Hp) as (sc' & body' & st' & fno & Hr' & -> & _ & F2 & F3 & F4).
    assert (sc' = sc) as -> by (pose proof (sr_heap _ _ _ _ _ _ Hr); pose proof (sr_heap _ _ _ _ _ _ Hr'); congruence).
    unfold function_strictin. rewrite !(proj2 (Z.leb_le _ _)) by lia. cbn [cassert mbind outcome_bind].
    rewrite F3. cbn [mbind outcome_bind]. rewrite (proj2 (Z.ltb_lt (Z.of_nat i) _)) by lia. cbn [cassert mbind outcome_bind].
    rewrite (proj2 (Z.ltb_ge _ _)) by lia. rewrite F2. cbn [mbind outcome_bind].
    rewrite (sr_strict _ _ _ _ _ _ Hr). cbn [deref mbind outcome_bind]. rewrite Nat2Z.id.
    destruct (lookup_lt_is_Some_2 st i) as [b ->]; [rewrite (sr_strict_len _ _ _ _ _ _ Hr); lia|]. by eexists. }
  cbn [mbind outcome_bind]. destruct b; [by eexists | auto].
Qed.

Lemma JFUN_ok mkfuel src p sc body st comp base k s sl :
  src_ready mkfuel src -> p ∈ src_scombs src -> sc_ready mkfuel src p sc body st -> sc_nargs sc <= length s ->
  holds comp base k s -> finishes comp (JFUN src sl (Z.of_nat (sc_index sc + NUM_BUILTINS)) comp).
Proof.
  intros Hsrc Hp Hr Hn H. unfold JFUN, the_si. rewrite (ho_si _ _ _ _ H). cbn [deref mbind outcome_bind].
  assert (forall limit, exists b, have_args src (Z.of_nat (sc_index sc + NUM_BUILTINS)) limit (Stackinfo s false) = Done b) as Hb.
  { intros limit. destruct (fno_scref _ _ nosl p Hsrc Hp) as (sc' & body' & st' & fno & Hr' & -> & _ & F2 & F3 & F4).
    assert (sc' = sc) as -> by (pose proof (sr_heap _ _ _ _ _ _ Hr); pose proof (sr_heap _ _ _ _ _ _ Hr'); congruence).
    unfold have_args. rewrite F3. cbn [mbind outcome_bind]. unfold si_count; cbn [si_status].
    rewrite (proj2 (Z.leb_le _ _)) by lia. cbn [cassert mbind outcome_bind]. rewrite Nat2Z.id.
    eapply have_status_ok; try done. apply Forall_seq. intros i Hi. lia. }
  unfold have_resvals, have_reqsparks. destruct (Hb STATUS_EVALUATED) as [[] ->]; cbn [mbind outcome_bind].
  { eapply final_ok; [apply H | done | done]. }
  destruct (Hb STATUS_SPARKED) as [[] ->]; cbn [mbind outcome_bind]; (eapply final_ok; [apply H | done | done]).
Qed.

(** ** Lists *)

Lemma no_items_good src pm n c : good src pm n c ->
  Forall (good src pm n) [] /\ good src pm n c /\ Forall (fun x => snode_size x <= snode_size c) [c].
Proof. intros H. split_and!; [constructor | done | by apply Forall_singleton]. Qed.

Lemma cons_items_good src pm n c : good src pm n c ->
  Forall (good src pm n) (cons_items c).1 /\ good src pm n (cons_items c).2 /\
  Forall (fun x => snode_size x <= snode_size c) ((cons_items c).2 :: (cons_items c).1).
Proof.
  revert pm n. induction c as [sl st l IHl r IHr| | | | | | | |]; intros pm n Hg; cbn [cons_items];
    try (by apply no_items_good).
  destruct l as [sl2 st2 [| |sl3 bif| | | | | |] x| | | | | | | |]; try (by apply no_items_good).
  destruct (_ || _); [|by apply no_items_good].
  destruct (good_app _ _ _ _ _ _ _ Hg) as [Hl Gr]. destruct (good_app _ _ _ _ _ _ _ Hl) as [_ Gx].
  destruct (IHr _ _ Gr) as (H1 & H2 & H3). destruct (cons_items r) as [xs last]. cbn [fst snd] in *.
  split_and!; [by constructor | done |].
  apply Forall_cons in H3 as [H3 H4]. constructor; [cbn; lia|]. constructor; [cbn; lia|].
  eapply Forall_impl; [exact H4|]. cbn. lia.
Qed.

(** The elements of a list whose head and tail are good. *)
Lemma iscons_items src pm n c : iscons c = true -> Forall (fun a => good src pm n a.1) (spine_strict c) ->
  Forall (good src pm n) ((cons_items c).2 :: (cons_items c).1) /\
  Forall (fun x => snode_size x < snode_size c) ((cons_items c).2 :: (cons_items c).1).
Proof.
  destruct c as [sl1 st1 [sl2 st2 [| |sl3 bif| | | | | |] x| | | | | | | |] tl| | | | | | | |]; try done.
  cbn [iscons cons_items spine_strict]. intros -> [Gt [Gx _]%Forall_cons]%Forall_cons. cbn [fst] in *.
  destruct (cons_items_good _ _ _ _ Gt) as (H1 & H2 & H3). destruct (cons_items tl) as [xs last]. cbn [fst snd] in *.
  apply Forall_cons in H3 as [H3 H4]. split; [by rewrite !Forall_cons|].
  constructor; [cbn; lia|]. constructor; [cbn; lia|]. eapply Forall_impl; [exact H4|]. cbn. lia.
Qed.

Lemma Ccons_ok src C E comp c pm s :
  (forall x, x ∈ (cons_items c).2 :: (cons_items c).1 -> compiles src C STATUS_UNKNOWN x /\ compiles src E STATUS_SPARKED x) ->
  Forall (good src pm (length s)) ((cons_items c).2 :: (cons_items c).1) -> holds comp s 0 s ->
  exists comp' s', Ccons C E c pm (Z.of_nat (length s)) comp = Done comp' /\ settles comp comp' /\ holds comp' [] 1 s'.
Proof.
  intros Hc [G2 G1]%Forall_cons H. unfold Ccons.
  destruct (cons_items c) as [items tl]. cbn [fst snd] in *.
  set (exprs := map (fun x => (x, false)) (tl :: rev items)).
  destruct (S_ok src C E exprs comp pm s (node_sl c)) as (c1 & s1 & -> & Haf & H1); [|done|].
  { apply Forall_forall. intros a (x & -> & Hx)%elem_of_map.
    assert (x ∈ tl :: items) as Hx' by (rewrite elem_of_cons, elem_of_rev in Hx; rewrite elem_of_cons; tauto).
    destruct (Hc x Hx'). split_and!; try done. cbn [fst]. apply elem_of_cons in Hx' as [->|Hx']; [done|].
    by eapply Forall_forall in G1. }
  cbn [mbind outcome_bind]. pose proof (ho_len _ _ _ _ H1) as Hl1. cbn [length] in Hl1.
  assert (0 < length exprs) by (unfold exprs; cbn; lia).
  destruct (lookup_lt_is_Some_2 s1 0) as [y Hy]; [lia|].
  destruct (add_instruction_ok c1 (node_sl c) OP_CONSN (Z.of_nat (length exprs)) 0 s1 [STATUS_EVALUATED] (ho_si _ _ _ _ H1))
    as (c2 & E2 & Haf2); [|done|done|].
  { cbn [si_step]. rewrite popstatus_ok by lia. cbn [mbind outcome_bind].
    replace (length s1 - Z.to_nat (Z.of_nat (length exprs) - 1)) with 1 by lia.
    destruct s1 as [|z s1]; [done|]. cbn [take]. unfold si_count; cbn [si_status length].
    by rewrite setstatusat_ok by (cbn; lia). }
  exists c2, [STATUS_EVALUATED]. split_and!; [done | eapply settles_after; [apply Haf | by eapply settles_add] |].
  split; [apply Haf2 | apply Forall_singleton; status_lia | done | done].
Qed.

(** ** Bodies *)

(** What [R] accepts, with the variable map and the stack depth at that point.
    The arguments of a call are expressions for [C] and [E]; the branches of a
    conditional, the second part of a sequence and the body of a letrec are
    bodies again. *)
Definition args_good (src : source) (pm : pmap) (n : nat) (c : snode) : Prop :=
  0 < count_args c /\ Forall (fun a => good src pm n a.1) (spine_strict c).

Inductive rbody (src : source) : pmap -> nat -> snode -> Prop :=
| rb_if pm n sl1 st1 sl2 st2 sl3 st3 sl4 cond t f :
    good src pm n cond -> rbody src pm n t -> rbody src pm n f ->
    rbody src pm n (SNODE_APPLICATION sl1 st1 (SNODE_APPLICATION sl2 st2
      (SNODE_APPLICATION sl3 st3 (SNODE_BUILTIN sl4 B_IF) cond) t) f)
| rb_seq pm n sl1 st1 sl2 st2 sl3 e1 e2 :
    good src pm n e1 -> rbody src pm n e2 ->
    rbody src pm n (SNODE_APPLICATION sl1 st1 (SNODE_APPLICATION sl2 st2 (SNODE_BUILTIN sl3 B_SEQ) e1) e2)
| rb_builtin pm n c sl bif b :
    args_good src pm n c -> spine_head c = SNODE_BUILTIN sl bif -> builtin_info !! bif = Some b ->
    count_args c = bi_nargs b -> as_if c = None -> as_seq c = None -> strict_marked b (spine_strict c) ->
    rbody src pm n c
| rb_function pm n c :
    args_good src pm n c -> fun_ok src (spine_head c) 0 ->
    (forall sl bif b, spine_head c = SNODE_BUILTIN sl bif -> builtin_info !! bif = Some b -> count_args c <> bi_nargs b) ->
    (forall num l, item_literal src c = Done (Some (num, l)) -> exists v, int_of_double num = Done v) ->
    rbody src pm n c
| rb_variable pm n c sl x :
    args_good src pm n c -> spine_head c = SNODE_SYMBOL sl x -> good src pm n (SNODE_SYMBOL sl x) -> rbody src pm n c
| rb_leaf pm n c :
    count_args c = 0 -> (forall sl bs b, c <> SNODE_LETREC sl bs b) -> good src pm n c -> rbody src pm n c
| rb_letrec pm n sl bs b :
    (forall rec, rec ∈ bs -> good src (bind_letrec bs (Z.of_nat n) pm) (n + length bs) (lr_value rec)) ->
    NoDup (map lr_name bs) -> (forall x, x ∈ map lr_name bs -> x ∉ map fst pm) ->
    (forall rec x, rec ∈ bs -> free_in x (lr_value rec) -> x ∉ map lr_name bs ->
      exists idx, presolve pm x = Done idx /\ (1 <= idx <= Z.of_nat n)%Z) ->
    rbody src (bind_letrec bs (Z.of_nat n) pm) (n + length bs) b ->
    rbody src pm n (SNODE_LETREC sl bs b).

Lemma spine_size c : Forall (fun a => snode_size a.1 < snode_size c) (spine_strict c).
Proof.
  induction c as [sl st l IHl r IHr| | | | | | | |]; cbn; try constructor; cbn; [lia|].
  eapply Forall_impl; [exact IHl|]. cbn. lia.
Qed.

Section R_main.
Context (mkfuel : nat) (src : source).
Hypothesis Hmk : 0 < mkfuel.
Hypothesis Hsrc : src_ready mkfuel src.

Lemma args_arg_ok fuel pm n c :
  args_good src pm n c -> 2 * snode_size c <= S (S fuel) ->
  Forall (arg_ok src (C fuel mkfuel src) (E fuel mkfuel src) pm n) (spine_strict c).
Proof.
  intros [_ Hg] Hf. pose proof (spine_size c) as Hs. rewrite Forall_forall in Hg, Hs |- *.
  intros a Ha. split_and!; [| | by apply Hg]; apply (compiles_all mkfuel src Hmk Hsrc); specialize (Hs a Ha); lia.
Qed.

(** A saturated call of a supercombinator. *)
Lemma R_scref_ok fuel R c pm s comp sl p sc body st :
  spine_head c = SNODE_SCREF sl p -> p ∈ src_scombs src -> sc_ready mkfuel src p sc body st ->
  count_args c = sc_nargs sc -> args_good src pm (length s) c -> 2 * snode_size c <= S (S fuel) ->
  (forall num l, item_literal src c = Done (Some (num, l)) -> exists v, int_of_double num = Done v) ->
  holds comp s 0 s ->
  finishes comp (R_saturated src mkfuel (C fuel mkfuel src) (E fuel mkfuel src) R c
    (Z.of_nat (sc_index sc + NUM_BUILTINS)) (Z.of_nat (sc_nargs sc)) pm (Z.of_nat (length s)) comp).
Proof.
  intros Eh Hp Hr Hn Hargs Hf Hlit H. unfold R_saturated. rewrite Eh.
  pose proof (args_arg_ok _ _ _ _ Hargs Hf) as Hao.
  assert (exists r, item_literal src c = Done r) as [item Ei].
  { destruct c as [sl1 st1 [sl2 st2 [] []| | | | | | | |] ?| | | | | | | |]; try (by eexists).
    cbn in Eh. injection Eh as -> ->. cbn [item_literal]. unfold getsc. rewrite (sr_heap _ _ _ _ _ _ Hr). by eexists. }
  rewrite Ei. cbn [mbind outcome_bind]. destruct item as [[num l]|].
  - destruct (Hlit num l Ei) as [v ->]. cbn [mbind outcome_bind].
    apply item_literal_parts in Ei as (sl1 & st1 & h & ->). cbn in Hao. apply Forall_cons in Hao as [(_ & HE & Hg) _].
    destruct (leaves_holds _ _ _ _ (E_item_ok src (E fuel mkfuel src) comp s l pm s (node_sl (SNODE_SCREF sl p)) v 1 HE Hg H))
      as (c1 & s1 & E1 & Haf & H1 & _).
    apply bind_Done_inv in E1 as (c0 & -> & E1). cbn [mbind outcome_bind]. rewrite E1. cbn [mbind outcome_bind].
    destruct (squeeze1_ok c1 s s1 (node_sl (SNODE_SCREF sl p)) H1) as (c2 & s2 & -> & Haf2 & H2). cbn [mbind outcome_bind].
    eapply finishes_after; [by eapply after_trans|]. by eapply EVAL_final_ok.
  - destruct (S_ok src _ _ (spine_strict c) comp pm s (node_sl (SNODE_SCREF sl p)) Hao H) as (c1 & s1 & -> & Haf & H1).
    cbn [mbind outcome_bind]. eapply finishes_after; [exact Haf|]. rewrite spine_strict_length in H1.
    eapply JFUN_ok; try done. rewrite (ho_len _ _ _ _ H1). cbn. lia.
Qed.

Lemma R_call_ok fuel R c pm s comp :
  args_good src pm (length s) c -> 2 * snode_size c <= S (S fuel) -> fun_ok src (spine_head c) 0 ->
  (iscons c && match c with SNODE_APPLICATION _ _ _ r => iscons r | _ => false end) = false ->
  (forall sl bif b, spine_head c = SNODE_BUILTIN sl bif -> builtin_info !! bif = Some b -> count_args c <> bi_nargs b) ->
  (forall num l, item_literal src c = Done (Some (num, l)) -> exists v, int_of_double num = Done v) ->
  holds comp s 0 s ->
  finishes comp (R_application src mkfuel (C fuel mkfuel src) (E fuel mkfuel src) R c pm (Z.of_nat (length s)) comp).
Proof.
  intros Hargs Hf Hfun Hcons Hnb Hlit H. unfold R_application. rewrite Hcons.
  pose proof (args_arg_ok _ _ _ _ Hargs Hf) as Hao.
  destruct (fun_ok_callable mkfuel src _ _ Hmk Hsrc Hfun) as (fno & k & Hca & _).
  set (sl := node_sl (spine_head c)). pose proof (ca_fun _ _ _ _ _ Hca) as Hisf.
  assert (finishes comp (fno ← snode_fno src (spine_head c); k ← function_nargs src fno;
    if (k <? Z.of_nat (count_args c))%Z then
      comp ← S_ (C fuel mkfuel src) (E fuel mkfuel src) sl (spine_strict c) pm (Z.of_nat (length s)) comp;
      comp ← domkframe mkfuel src sl fno k comp; SPARK_EVAL_DO sl comp
    else if (Z.of_nat (count_args c) =? k)%Z
    then R_saturated src mkfuel (C fuel mkfuel src) (E fuel mkfuel src) R c fno k pm (Z.of_nat (length s)) comp
    else comp ← push_args_C (C fuel mkfuel src) (spine_strict c) pm (Z.of_nat (length s)) comp;
      comp ← MKCAP sl fno (Z.of_nat (count_args c)) comp; RETURN sl comp)) as HF; [|by destruct (spine_head c)].
  rewrite (ca_fno _ _ _ _ _ Hca). cbn [mbind outcome_bind]. rewrite (ca_nargs _ _ _ _ _ Hca). cbn [mbind outcome_bind].
  destruct (Z.ltb_spec (Z.of_nat k) (Z.of_nat (count_args c))) as [Hlt|Hge].
  { destruct (S_ok src _ _ (spine_strict c) comp pm s sl Hao H) as (c1 & s1 & -> & Haf & H1). cbn [mbind outcome_bind].
    rewrite spine_strict_length in H1. pose proof (ho_len _ _ _ _ H1) as Hl1. cbn in Hl1.
    destruct (ca_frame _ _ _ _ _ Hca c1 (take (count_args c - k) s1) s1 sl) as (c2 & s2 & -> & Haf2 & Hok2 & _ & Hl2 & _).
    { split; [apply H1 | apply H1 | | rewrite length_take; lia].
      intros i x Hx. apply lookup_take_Some in Hx as [Hx _]. by exists x. }
    cbn [mbind outcome_bind]. eapply finishes_after; [by eapply after_trans|].
    eapply SPARK_EVAL_DO_ok; [apply Haf2 | done | lia]. }
  destruct (Z.eqb_spec (Z.of_nat (count_args c)) (Z.of_nat k)) as [Eq|Hne].
  - unfold R_saturated. destruct (spine_head c) as [| |sl' bif| | |sl' p| | |] eqn:Eh; try done.
    { exfalso. destruct Hfun as (b & Hb & _). apply (Hnb _ _ _ eq_refl Hb).
      destruct (fno_builtin src sl' bif b Hb) as (F1 & F2 & _). pose proof (ca_fno _ _ _ _ _ Hca) as F3.
      rewrite F1 in F3. injection F3 as <-. pose proof (ca_nargs _ _ _ _ _ Hca) as F4. rewrite F2 in F4. injection F4. lia. }
    destruct Hfun as (Hp & _).
    destruct (fno_scref _ _ sl' p Hsrc Hp) as (sc & body & st & fno' & Hr & -> & F1 & _ & F3 & _).
    pose proof (ca_fno _ _ _ _ _ Hca) as F4. rewrite F1 in F4. injection F4 as <-.
    pose proof (ca_nargs _ _ _ _ _ Hca) as F5. rewrite F3 in F5. injection F5 as F5.
    pose proof (R_scref_ok fuel R c pm s comp sl' p sc body st Eh Hp Hr) as HR.
    unfold R_saturated in HR. rewrite Eh in HR. apply HR; try done. lia.
  - destruct (push_args_C_ok src _ _ (spine_strict c) comp pm s Hao H) as (c1 & s1 & -> & Haf & H1).
    cbn [mbind outcome_bind]. rewrite spine_strict_length in H1.
    destruct (MKCAP_ok c1 s (count_args c) s1 sl fno H1) as (c2 & s2 & E2 & Haf2 & _). rewrite E2. cbn [mbind outcome_bind].
    eapply return_after; [exact Haf | by eapply settles_add | apply Haf2].
Qed.

Lemma R_cons_ok fuel R c pm s comp :
  args_good src pm (length s) c -> 2 * snode_size c <= S (S fuel) ->
  (iscons c && match c with SNODE_APPLICATION _ _ _ r => iscons r | _ => false end) = true ->
  holds comp s 0 s ->
  finishes comp (R_application src mkfuel (C fuel mkfuel src) (E fuel mkfuel src) R c pm (Z.of_nat (length s)) comp).
Proof.
  intros [_ Hargs] Hf Hcons H. unfold R_application. rewrite Hcons. apply andb_true_iff in Hcons as [Hcons _].
  destruct (iscons_items src pm (length s) c Hcons Hargs) as [Hg Hsz].
  destruct (Ccons_ok src (C fuel mkfuel src) (E fuel mkfuel src) comp c pm s) as (c1 & s1 & -> & Hset & H1); try done.
  { intros x Hx. rewrite Forall_forall in Hsz. specialize (Hsz x Hx).
    split; apply (compiles_all mkfuel src Hmk Hsrc); lia. }
  cbn [mbind outcome_bind]. by eapply return_ok; [apply H1|].
Qed.

(** A value on top of the stack is returned. *)
Lemma leaves_RETURN comp s lo r sl :
  leaves comp s lo r -> (forall comp', r = Done comp' -> settles comp comp') -> finishes comp (comp ← r; RETURN sl comp).
Proof.
  intros (c1 & s1 & -> & Haf & _) Hs. cbn [mbind outcome_bind]. eapply return_ok; [apply Haf | by apply Hs].
Qed.

Lemma MKCAP_RETURN comp s sl fno : holds comp s 0 s -> finishes comp (comp ← MKCAP sl fno 0 comp; RETURN sl comp).
Proof.
  intros H. eapply leaves_RETURN; [exact (MKCAP_ok comp s 0 s sl fno H)|]. intros c1 E1. by eapply settles_add.
Qed.

(** A literal. *)
Lemma settles_literal fuel c pm n comp comp' :
  match c with SNODE_NIL _ | SNODE_NUMBER _ _ | SNODE_STRING _ _ => True | _ => False end ->
  C fuel mkfuel src comp c pm n = Done comp' -> settles comp comp'.
Proof.
  intros Hc. destruct fuel as [|fuel]; [done|]. destruct c; try done; cbn [C]; try (intros H; by eapply settles_add).
  unfold add_string. destruct (0 <=? _)%Z; intros H; [by eapply settles_add|].
  apply settles_add in H as (l & E & Hl); [by exists l | done..].
Qed.

Lemma settles_symbol fuel sl x pm n comp comp' :
  C fuel mkfuel src comp (SNODE_SYMBOL sl x) pm n = Done comp' -> settles comp comp'.
Proof.
  destruct fuel as [|fuel]; [done|]. cbn [C]. unfold PUSH. intros H. outcome_inv. by eapply settles_add.
Qed.

Lemma R_leaf_ok fuel c pm s comp :
  count_args c = 0 -> (forall sl bs b, c <> SNODE_LETREC sl bs b) -> good src pm (length s) c ->
  2 * snode_size c <= S fuel -> holds comp s 0 s ->
  finishes comp (R (S fuel) mkfuel src comp c pm (Z.of_nat (length s))).
Proof.
  intros Hc Hnl Hg Hf H. pose proof (proj1 (compiles_all mkfuel src Hmk Hsrc fuel c)) as HC.
  destruct c as [| |sl bif|sl x|sl bs b|sl p|sl|sl num|sl str]; try done; cbn [R];
    try (by destruct (Hnl sl bs b)); try (eapply leaves_RETURN; [by apply HC; [cbn; cbn in Hf; lia | ..] | intros c1; by apply settles_literal]).
  - by destruct Hg.
  - destruct (proj1 Hg) as (b & Hb & _). destruct (fno_builtin src sl bif b Hb) as (F1 & F2 & _).
    rewrite F1. cbn [mbind outcome_bind]. rewrite F2. cbn [mbind outcome_bind].
    pose proof (builtin_nargs_pos _ _ Hb). rewrite (proj2 (Z.eqb_neq _ _)) by lia.
    by eapply MKCAP_RETURN.
  - destruct (proj1 (proj2 Hg) x eq_refl) as (idx & _ & Hidx).
    destruct (leaves_holds _ _ _ _ (HC ltac:(cbn; cbn in Hf; lia) comp pm s Hg H)) as (c1 & s1 & E1 & Haf & H1 & _).
    destruct (squeeze1_ok c1 s s1 sl H1) as (c2 & s2 & E2 & Haf2 & H2).
    assert (settles comp c2) as Hset.
    { eapply settles_SQUEEZE; [|exact E2]. by eapply settles_symbol. }
    unfold SQUEEZE_to_1 in E2. rewrite (proj2 (Z.ltb_lt _ _)) in E2 by lia.
    rewrite E1. cbn [mbind outcome_bind]. rewrite E2. cbn [mbind outcome_bind].
    pose proof (ho_len _ _ _ _ H2) as Hl2. cbn in Hl2.
    destruct (EVAL_ok c2 sl 0 s2 (ho_si _ _ _ _ H2) (ho_ok _ _ _ _ H2)) as (c3 & s3 & E3 & Haf3 & _); [lia|].
    rewrite E3. cbn [mbind outcome_bind]. eapply return_ok; [apply Haf3 | by eapply settles_EVAL].
  - destruct (proj1 Hg) as (Hp & sc' & Hs' & _).
    destruct (fno_scref _ _ sl p Hsrc Hp) as (sc & body & st & fno & Hr & -> & F1 & _ & F3 & _).
    rewrite F1. cbn [mbind outcome_bind]. rewrite F3. cbn [mbind outcome_bind].
    destruct (Z.eqb_spec (Z.of_nat (sc_nargs sc)) 0) as [E0|E0].
    + eapply JFUN_ok; try done. lia.
    + by eapply MKCAP_RETURN.
Qed.

Lemma R_builtin_call_ok fuel R c pm s comp sl bif b :
  args_good src pm (length s) c -> spine_head c = SNODE_BUILTIN sl bif -> builtin_info !! bif = Some b ->
  count_args c = bi_nargs b -> as_if c = None -> as_seq c = None -> strict_marked b (spine_strict c) ->
  2 * snode_size c <= S (S fuel) -> holds comp s 0 s ->
  finishes comp (R_application src mkfuel (C fuel mkfuel src) (E fuel mkfuel src) R c pm (Z.of_nat (length s)) comp).
Proof.
  intros Ha Eh Hb Hn Hif Hseq Hst Hf H.
  destruct (iscons c && match c with SNODE_APPLICATION _ _ _ r => iscons r | _ => false end) eqn:Ec.
  { by apply R_cons_ok. }
  unfold R_application. rewrite Ec, Eh. destruct (fno_builtin src sl bif b Hb) as (F1 & F2 & _).
  rewrite F1. cbn [mbind outcome_bind]. rewrite F2. cbn [mbind outcome_bind].
  rewrite (proj2 (Z.ltb_ge _ _)) by lia. rewrite (proj2 (Z.eqb_eq _ _)) by lia.
  unfold R_saturated. rewrite Eh, Hif, Hseq.
  apply (R_builtin_ok mkfuel src Hmk Hsrc) with (b := b); try done; [by rewrite spine_strict_length | by apply args_arg_ok].
Qed.

Lemma iscons_head c : iscons c = true -> exists sl bif, spine_head c = SNODE_BUILTIN sl bif.
Proof. destruct c as [? ? [? ? [] ?| | | | | | | |] ?| | | | | | | |]; try done. by eexists _, _. Qed.

Lemma R_variable_ok fuel R c pm s comp sl x :
  args_good src pm (length s) c -> spine_head c = SNODE_SYMBOL sl x -> good src pm (length s) (SNODE_SYMBOL sl x) ->
  2 * snode_size c <= S fuel -> holds comp s 0 s ->
  finishes comp (R_application src mkfuel (C fuel mkfuel src) (E fuel mkfuel src) R c pm (Z.of_nat (length s)) comp).
Proof.
  intros Ha Eh Gx Hf H. unfold R_application.
  destruct (iscons c) eqn:Ec; [by destruct (iscons_head c Ec) as (? & ? & ?); congruence|].
  cbn [andb]. rewrite Eh. pose proof (proj1 Ha) as Hpos.
  assert (2 <= snode_size c) as Hsz by (destruct c; cbn in *; try lia; pose proof (snode_size_pos c1); lia).
  destruct (S_ok src (C fuel mkfuel src) (E fuel mkfuel src) (spine_strict c ++ [(SNODE_SYMBOL sl x, false)]) comp pm s (node_sl (SNODE_SYMBOL sl x)))
    as (c1 & s1 & -> & Haf & H1); [|done|].
  { apply Forall_app. split; [apply args_arg_ok; [done | lia]|]. apply Forall_singleton.
    split_and!; [| |done]; apply (compiles_all mkfuel src Hmk Hsrc); cbn; lia. }
  cbn [mbind outcome_bind]. eapply finishes_after; [exact Haf|].
  eapply SPARK_EVAL_DO_ok; [apply H1 | apply H1 |]. rewrite (ho_len _ _ _ _ H1), length_app. cbn. lia.
Qed.

Lemma R_ok pm n c : rbody src pm n c -> forall fuel comp s, 2 * snode_size c <= fuel -> length s = n ->
  holds comp s 0 s -> finishes comp (R fuel mkfuel src comp c pm (Z.of_nat n)).
Proof.
  induction 1 as [pm n sl1 st1 sl2 st2 sl3 st3 sl4 cond t f Gc Ht IHt Hf IHf|pm n sl1 st1 sl2 st2 sl3 e1 e2 G1 H2 IH2
    |pm n c sl bif b Ha Eh Hb Hn Hif Hseq Hst|pm n c Ha Hfun Hnb Hlit|pm n c sl x Ha Eh Gx|pm n c Hc Hnl Hg
    |pm n sl bs b Gv Hnd Hfr Hout Hb IHb];
    intros fuel comp s Hfuel <- H; (destruct fuel as [|fuel];
      [match type of Hfuel with context [snode_size ?e] => pose proof (snode_size_pos e) end; lia|]).
  - cbn [R]. unfold R_application. cbn [iscons andb spine_head snode_fno mbind outcome_bind].
    change (function_nargs src (Z.of_nat B_IF)) with (@Done Z 3%Z). cbn [mbind outcome_bind count_args].
    cbn [Z.ltb Z.eqb Z.compare Pos.compare Pos.compare_cont Z.of_nat Pos.of_succ_nat Pos.succ Pos.eqb].
    unfold R_saturated. cbn [spine_head as_if].
    assert (Hsub : forall x, x = cond \/ (exists num, eq_literal cond = Some (x, num)) ->
      compiles src (E fuel mkfuel src) STATUS_SPARKED x /\ good src pm (length s) x).
    { intros x Hx. destruct Hx as [->|(num & (? & ? & ? & ? & ? & ? & ->)%eq_literal_parts)].
      - split; [|done]. apply (compiles_all mkfuel src Hmk Hsrc). cbn in Hfuel. lia.
      - split; [apply (compiles_all mkfuel src Hmk Hsrc); cbn in Hfuel; lia|].
        apply good_app in Gc as [Gc _]. by apply good_app in Gc as [_ Gx]. }
    refine (R_if_ok src (E fuel mkfuel src) (R fuel mkfuel src) comp cond t f pm s Hsub _ _ _ H).
    + intros c1 s1 Hl1 H1. apply (IHt fuel c1 s1); try done. cbn in Hfuel. lia.
    + intros c1 s1 Hl1 H1. apply (IHf fuel c1 s1); try done. cbn in Hfuel. lia.
    + apply shape_literal, Gc.
  - cbn [R]. unfold R_application. cbn [iscons andb spine_head snode_fno mbind outcome_bind].
    change (function_nargs src (Z.of_nat B_SEQ)) with (@Done Z 2%Z). cbn [mbind outcome_bind count_args].
    cbn [Z.ltb Z.eqb Z.compare Pos.compare Pos.compare_cont Z.of_nat Pos.of_succ_nat Pos.succ Pos.eqb].
    unfold R_saturated. cbn [spine_head as_if as_seq].
    refine (R_seq_ok src (E fuel mkfuel src) (R fuel mkfuel src) comp e1 e2 pm s _ G1 _ H).
    + apply (compiles_all mkfuel src Hmk Hsrc). cbn in Hfuel. lia.
    + intros c1 s1 Hl1 H1. apply (IH2 fuel c1 s1); try done. cbn in Hfuel. lia.
  - destruct c; try (destruct Ha; cbn in *; lia). cbn [R].
    eapply R_builtin_call_ok; try done. lia.
  - destruct c as [sl st l r| | | | | | | |]; try (destruct Ha; cbn in *; lia). cbn [R].
    destruct (iscons (SNODE_APPLICATION sl st l r) && iscons r) eqn:Ec; [apply R_cons_ok; done || lia|].
    apply R_call_ok; done || lia.
  - destruct c; try (destruct Ha; cbn in *; lia). cbn [R]. by eapply R_variable_ok.
  - by apply R_leaf_ok.
  - cbn [R]. destruct (Cletrec_ok src (C fuel mkfuel src) (E fuel mkfuel src) pm s bs true) with (comp := comp) (s := s)
      as (c1 & s1 & -> & Haf & H1); try done.
    { intros rec Hr. pose proof (letrec_value_size sl bs b rec Hr).
      split_and!; [| |auto]; apply (compiles_all mkfuel src Hmk Hsrc); lia. }
    cbn [mbind outcome_bind]. eapply finishes_after; [exact Haf|].
    rewrite <- Nat2Z.inj_add. apply (IHb fuel c1 s1); [cbn in Hfuel; lia | apply H1 | by eapply holds_self].
Qed.
End R_main.
