(* ===== verification/PeepholeFacts.v ===== *)
(** * The peephole optimiser is safe on closed code

    It ends, its assertions hold, and the result is closed code again, not
    longer than before. *)

From S2P Require Import Prelude CString Builtins Util Source Resolve Double Bytecode Peephole StackDiscipline Schemes SchemeR.

#[local] Set Warnings "-clear-no-such-hyp".

(** ** One pass *)

(** The first instruction other than POP and SQUEEZE does not become a
    RETURN. *)
Definition no_new_return (l l' : list instruction) : Prop :=
  first_solid l' = Some OP_RETURN -> first_solid l = Some OP_RETURN.
Definition not_squeeze (i : instruction) : Prop := i_opcode i <> OP_SQUEEZE.

Lemma guarded_not_squeeze l1 l2 : Forall not_squeeze l1 -> guarded l2 -> guarded (l1 ++ l2).
Proof. intros H1 H2. induction H1 as [|i l1 Hi Hl IH]; cbn; [done|]. split; [|done]. by intros [E _]. Qed.

Lemma guarded_suffix l1 l2 : guarded (l1 ++ l2) -> guarded l2.
Proof. induction l1 as [|i l1 IH]; [done|]. intros [_ H]. by apply IH. Qed.

(** The jump targets that occur in a piece of code. *)
Definition targets (l : list instruction) : list Z :=
  map i_arg0 (List.filter (fun i => is_jump (i_opcode i)) l).

Lemma final_code_suffix l1 l2 : l2 <> [] -> final_code (l1 ++ l2) -> final_code l2.
Proof.
  intros Hne (l0 & i & E & Hi). destruct (decide (l2 = [])) as [|_]; [done|].
  destruct (exists_last Hne) as (k & j & ->). rewrite app_assoc in E. apply app_inj_tail in E as [_ ->].
  by exists k, i.
Qed.

Lemma final_code_last l i : final_code (l ++ [i]) -> is_final (i_opcode i) = true.
Proof. intros (l0 & j & E & Hj). by apply app_inj_tail in E as [_ ->]. Qed.

Lemma final_code_nonempty l : final_code l -> 0 < length l.
Proof. intros (l0 & i & -> & _). rewrite length_app. cbn. lia. Qed.

Lemma final_code_cons i l : final_code l -> final_code (i :: l).
Proof. intros (l0 & j & -> & Hj). by exists (i :: l0), j. Qed.

Lemma final_code_app l1 l2 : final_code l2 -> final_code (l1 ++ l2).
Proof. intros (l0 & j & -> & Hj). exists (l1 ++ l0), j. by rewrite app_assoc. Qed.

Lemma targets_app l1 l2 : targets (l1 ++ l2) = targets l1 ++ targets l2.
Proof. unfold targets. by rewrite List.filter_app, map_app. Qed.

Record pass_ok (dest : Z) (code : list instruction) (r : pass_result) : Prop := {
  po_len : length (pr_map r) = length code;
  po_shrink : length (pr_code r) + (if pr_changed r then 1 else 0) <= length code;
  po_range : forall m, m ∈ pr_map r -> (dest <= m <= dest + Z.of_nat (length (pr_code r)))%Z;
  po_strict : final_code code -> forall m, m ∈ pr_map r -> (m < dest + Z.of_nat (length (pr_code r)))%Z;
  po_targets : forall t, t ∈ targets (pr_code r) -> t ∈ targets code;
  po_guarded : guarded code -> guarded (pr_code r);
  po_return : no_new_return code (pr_code r);
  po_final : final_code code -> final_code (pr_code r)
}.

(** A rule that replaces [cs] by [is_]. *)
Record rule_ok (dest : Z) (cs : list instruction) (ms : list Z) (is_ : list instruction) (ch : bool) : Prop := {
  ru_len : length ms = length cs;
  ru_shrink : length is_ + (if ch then 1 else 0) <= length cs;
  ru_range : forall m, m ∈ ms -> (dest <= m <= dest + Z.of_nat (length is_))%Z;
  ru_targets : forall t, t ∈ targets is_ -> t ∈ targets cs;
  ru_guarded : forall rest rest', guarded (cs ++ rest) -> no_new_return rest rest' -> guarded rest' -> guarded (is_ ++ rest');
  ru_return : forall rest rest', no_new_return rest rest' -> no_new_return (cs ++ rest) (is_ ++ rest');
  ru_final : final_code cs -> final_code is_ /\ forall m, m ∈ ms -> (m < dest + Z.of_nat (length is_))%Z
}.

Lemma emit_ok dest cs rest ms is_ ch r :
  rule_ok dest cs ms is_ ch -> pass_ok (dest + Z.of_nat (length is_)) rest r -> pass_ok dest (cs ++ rest) (emit ms is_ ch r).
Proof.
  intros [R1 R2 R3 R4 R5 R5' R6] [P1 P2 P3 P4 P5 P6 P6' P7].
  assert (Hfin : final_code (cs ++ rest) -> final_code rest \/ (rest = [] /\ final_code cs)).
  { intros H. destruct rest as [|i rest]; [right; by rewrite app_nil_r in H|]. left. by apply final_code_suffix in H. }
  split; cbn [emit pr_code pr_map pr_changed].
  - by rewrite !length_app, R1, P1.
  - rewrite !length_app. destruct ch, (pr_changed r); cbn in *; lia.
  - intros m [Hm|Hm]%elem_of_app; rewrite length_app; [apply R3 in Hm | apply P3 in Hm]; lia.
  - intros Hf m Hm. rewrite length_app. apply elem_of_app in Hm as [Hm|Hm].
    + destruct (Hfin Hf) as [Hr|[-> Hc]].
      * apply R3 in Hm. apply P7, final_code_nonempty in Hr. lia.
      * apply (proj2 (R6 Hc)) in Hm. lia.
    + destruct (Hfin Hf) as [Hr|[-> Hc]]; [apply (P4 Hr) in Hm; lia|].
      destruct (pr_map r); [by apply not_elem_of_nil in Hm | done].
  - intros t. rewrite !targets_app, !elem_of_app. naive_solver.
  - intros Hg. apply (R5 rest); [done | done |]. by apply P6, (guarded_suffix cs).
  - by apply R5'.
  - intros Hf. destruct (Hfin Hf) as [Hr|[-> Hc]]; [by apply final_code_app, P7|].
    destruct (pr_code r); [rewrite app_nil_r; by apply R6 | cbn in P2; destruct (pr_changed r); lia].
Qed.

(** *** The rules *)

Lemma is_op_true op i : is_op op i = true <-> i_opcode i = op.
Proof. apply bool_decide_eq_true. Qed.

Ltac ops := repeat match goal with
  | H : _ && _ = true |- _ => apply andb_true_iff in H as [? ?]
  | H : is_op _ _ = true |- _ => apply is_op_true in H
  end.

(** An instruction kept as it is. *)
Lemma keep_ok dest i : rule_ok dest [i] [dest] [i] false.
Proof.
  split; cbn; try done || lia.
  - intros m Hm%list_elem_of_singleton. lia.
  - intros rest rest' [Hi _] Hr Hg. split; [|done]. intros Hz E. by apply (Hi Hz), Hr.
  - intros rest rest' Hr. unfold no_new_return in *. cbn. by destruct (soft (i_opcode i)).
  - intros H. split; [done|]. intros m Hm%list_elem_of_singleton. lia.
Qed.

(** An instruction replaced by one with another opcode, neither of them a
    jump, a SQUEEZE or final. *)
Lemma call_ok dest i : i_opcode i = OP_MKFRAME -> rule_ok dest [i] [dest] [set_opcode OP_CALL i] false.
Proof.
  intros Hi. split; cbn; try done || lia.
  - intros m Hm%list_elem_of_singleton. lia.
  - unfold targets; cbn. in_nil.
  - intros rest rest' _ _ Hg. split; [|done]. by intros [E _].
  - intros H. apply (final_code_last []) in H. by rewrite Hi in H.
Qed.

Lemma drop_pop_ok dest i : i_opcode i = OP_POP -> rule_ok dest [i] [dest] [] false.
Proof.
  intros Hi. split; cbn; try done || lia.
  - intros m Hm%list_elem_of_singleton. lia.
  - unfold targets; cbn. in_nil.
  - intros rest rest' Hr. unfold no_new_return in *. cbn. by rewrite Hi.
  - intros H. apply (final_code_last []) in H. by rewrite Hi in H.
Qed.

(** Two instructions replaced by one, the second or a variant of it. *)
Lemma pair_ok dest a b i :
  (forall t, t ∈ targets [i] -> t ∈ targets [a; b]) -> soft (i_opcode i) = false ->
  (i_opcode i = OP_RETURN -> first_solid [a; b] = Some OP_RETURN) ->
  (is_final (i_opcode b) = true -> is_final (i_opcode i) = true) ->
  rule_ok dest [a; b] [dest; dest] [i] true.
Proof.
  intros Ht Hs Hr Hf. split; try (cbn; done || lia).
  - intros m Hm. cbn [length]. rewrite !elem_of_cons in Hm. destruct Hm as [->|[->|Hm]]; [lia | lia | by apply not_elem_of_nil in Hm].
  - intros rest rest' _ _ Hg. split; [|done]. intros [E _]. by rewrite E in Hs.
  - intros rest rest' _ H. rewrite first_solid_app, Hr; [done|]. cbn in H. rewrite Hs in H. by injection H.
  - intros H. apply (final_code_last [a]) in H. split; [exists [], i; auto|].
    intros m Hm. cbn [length]. rewrite !elem_of_cons in Hm. destruct Hm as [->|[->|Hm]]; [lia | lia | by apply not_elem_of_nil in Hm].
Qed.

Lemma targets_pair a b t : t ∈ targets [b] -> t ∈ targets [a; b].
Proof. change [a; b] with ([a] ++ [b]). rewrite targets_app, elem_of_app. by right. Qed.

Lemma jcmp_ok dest a b : bif_jfalse a b = true -> rule_ok dest [a; b] [dest; dest] [jcmp a b] true.
Proof.
  intros [[_ Hb%is_op_true]%andb_true_iff _]%andb_true_iff. apply pair_ok; [|done|done|by rewrite Hb].
  intros t Ht. apply targets_pair. unfold targets in *; cbn in *. by rewrite Hb.
Qed.

Lemma squeeze_return_ok dest a b : squeeze_return a b = true ->
  rule_ok dest [a; b] [dest; dest] [set_expcount (i_expcount a) b] true.
Proof.
  intros [Ha%is_op_true Hb%is_op_true]%andb_true_iff.
  apply pair_ok; cbn; [|by rewrite Hb|by rewrite Ha, Hb|by rewrite Hb].
  intros t. unfold targets; cbn. rewrite Hb. cbn. in_nil.
Qed.

Lemma spark_eval_ok dest a b : spark_eval a b = true -> rule_ok dest [a; b] [dest; dest] [b] true.
Proof.
  intros [[_ Hb%is_op_true]%andb_true_iff _]%andb_true_iff. apply pair_ok; [apply targets_pair | by rewrite Hb | congruence | done].
Qed.

(** *** Chains of comparisons *)

(** What the inner loops consume and emit: [cs] ends in a JEQ or is empty. *)
Record loop_ok (dest : Z) (code : list instruction) (ms : list Z) (out rest : list instruction) : Prop := {
  lo_split : exists cs, code = cs ++ rest /\ length ms = length cs /\ length out <= length cs /\
    (cs = [] \/ exists l j, cs = l ++ [j] /\ i_opcode j = OP_JEQ) /\
    (forall t, t ∈ targets out -> t ∈ targets cs) /\ Forall not_squeeze out;
  lo_range : forall m, m ∈ ms -> (dest <= m < dest + Z.of_nat (length out))%Z
}.

Lemma loop_nil dest code : loop_ok dest code [] [] code.
Proof.
  split; [|in_nil]. exists []. split_and!; try done. by left.
Qed.

(** One more round consumes [p] in front of a JEQ [j] and keeps the JEQ. *)
Lemma loop_step dest p j code ms out rest :
  i_opcode j = OP_JEQ -> loop_ok (dest + 1) code ms out rest ->
  loop_ok dest (p ++ j :: code) (replicate (S (length p)) dest ++ ms) (j :: out) rest.
Proof.
  intros Hj [(cs & -> & H1 & H2 & H3 & H4 & H5) Hr]. split.
  - exists (p ++ j :: cs). split_and!.
    + by rewrite <- app_assoc.
    + rewrite !length_app, length_replicate. cbn. lia.
    + rewrite length_app. cbn. lia.
    + right. destruct H3 as [->|(l & k & -> & Hk)]; [by exists p, j|].
      exists (p ++ j :: l), k. split; [by rewrite <- app_assoc | done].
    + intros t. change (j :: out) with ([j] ++ out). change (j :: cs) with ([j] ++ cs).
      rewrite !targets_app, !elem_of_app. naive_solver.
    + constructor; [|done]. unfold not_squeeze. by rewrite Hj.
  - intros m [Hm|Hm]%elem_of_app; cbn [length].
    + apply elem_of_replicate in Hm as [-> _]. lia.
    + apply Hr in Hm. lia.
Qed.

Lemma jeq_loop1_ok fuel arg0 : forall dest code ms out rest,
  jeq_loop1 fuel arg0 dest code = (ms, out, rest) -> loop_ok dest code ms out rest.
Proof.
  induction fuel as [|fuel IH]; intros dest code ms out rest H; cbn [jeq_loop1] in H.
  { injection H as <- <- <-. apply loop_nil. }
  destruct code as [|a [|b [|c code]]]; try (injection H as <- <- <-; apply loop_nil).
  destruct (is_op OP_POP a && _ && _ && _) eqn:Ec; [|injection H as <- <- <-; apply loop_nil]. ops.
  destruct (jeq_loop1 fuel arg0 (dest + 1) code) as [[ms1 out1] rest1] eqn:E. injection H as <- <- <-.
  apply (loop_step dest [a; b] c); [done | by apply IH].
Qed.

Lemma jeq_loop2_ok fuel arg0 : forall dest code ms out rest,
  jeq_loop2 fuel arg0 dest code = (ms, out, rest) -> loop_ok dest code ms out rest.
Proof.
  induction fuel as [|fuel IH]; intros dest code ms out rest H; cbn [jeq_loop2] in H.
  { injection H as <- <- <-. apply loop_nil. }
  destruct code as [|a [|b [|c [|d code]]]]; try (injection H as <- <- <-; apply loop_nil).
  destruct (is_op OP_POP a && _ && _ && _ && _ && _) eqn:Ec; [|injection H as <- <- <-; apply loop_nil]. ops.
  destruct (jeq_loop2 fuel arg0 (dest + 1) code) as [[ms1 out1] rest1] eqn:E. injection H as <- <- <-.
  apply (loop_step dest [a; b; c] d); [done | by apply IH].
Qed.

(** A chain: the instructions [hd] kept, then the loop. *)
Lemma chain_ok dest hd ms0 code ms out rest :
  loop_ok (dest + Z.of_nat (length hd)) code ms out rest -> length ms0 = length hd ->
  Forall (fun m => dest <= m < dest + Z.of_nat (length hd))%Z ms0 ->
  (exists l i, hd = l ++ [i] /\ is_final (i_opcode i) = false) ->
  first_solid hd = Some OP_PUSH -> Forall not_squeeze hd ->
  exists cs, hd ++ code = cs ++ rest /\ cs <> [] /\ rule_ok dest cs (ms0 ++ ms) (hd ++ out) false.
Proof.
  intros [(cs & -> & H1 & H2 & H3 & H4 & H5) Hr] Hl0 H0 (l & i & -> & Hi) Hp Hns. set (hd := l ++ [i]) in *.
  rewrite Forall_forall in H0. exists (hd ++ cs). split; [by rewrite app_assoc|]. split; [unfold hd; by destruct l|].
  assert (Hm : forall m, m ∈ ms0 ++ ms -> (dest <= m < dest + Z.of_nat (length (hd ++ out)))%Z).
  { intros m. rewrite length_app. intros [Hm|Hm]%elem_of_app; [apply H0 in Hm | apply Hr in Hm]; lia. }
  split.
  - by rewrite !length_app, Hl0, H1.
  - rewrite !length_app. lia.
  - intros m Hin. apply Hm in Hin. lia.
  - intros t. rewrite !targets_app, !elem_of_app. naive_solver.
  - intros rest' rest'' _ _ Hg. apply guarded_not_squeeze; [by apply Forall_app | done].
  - intros rest' rest'' _. unfold no_new_return. by rewrite <- !app_assoc, !(first_solid_app hd), Hp.
  - intros Hf. exfalso. destruct H3 as [->|(l' & j & -> & Hj)].
    + rewrite app_nil_r in Hf. apply final_code_last in Hf. congruence.
    + rewrite app_assoc in Hf. apply final_code_last in Hf. by rewrite Hj in Hf.
Qed.

(** The rules tried when none for two neighbours applies. *)
Lemma jeq_chain1_hd code arg0 : jeq_chain1 code = Some arg0 ->
  exists a b rest, code = a :: b :: rest /\ i_opcode a = OP_PUSH /\ i_opcode b = OP_JEQ.
Proof.
  destruct code as [|a [|b [|c [|d rest]]]]; try done. cbn. destruct (_ && _) eqn:E; [|done]. ops. eauto 9.
Qed.
Lemma jeq_chain2_hd code arg0 : jeq_chain2 code = Some arg0 ->
  exists a b c rest, code = a :: b :: c :: rest /\ i_opcode a = OP_PUSH /\ i_opcode b = OP_EVAL /\ i_opcode c = OP_JEQ.
Proof.
  destruct code as [|a [|b [|c [|d [|e rest]]]]]; try done. cbn. destruct (_ && _) eqn:E; [|done]. ops. eauto 12.
Qed.

Lemma pass_nil_ok dest : pass_ok dest [] (PassResult [] [] false).
Proof. split; cbn; try done; in_nil. Qed.

(** Continue a pass after a rule has been applied. *)
Lemma pass_continue fuel dest cs rest ms is_ ch :
  (forall dest code, length code < fuel -> guarded code -> exists r, pass fuel dest code = Done r /\ pass_ok dest code r) ->
  rule_ok dest cs ms is_ ch -> length (cs ++ rest) < S fuel -> cs <> [] -> guarded (cs ++ rest) ->
  exists r, (r ← pass fuel (dest + Z.of_nat (length is_))%Z rest; Done (emit ms is_ ch r)) = Done r /\ pass_ok dest (cs ++ rest) r.
Proof.
  intros IH Hr Hl Hne Hs. rewrite length_app in Hl. assert (0 < length cs) by (destruct cs; [done | cbn; lia]).
  destruct (IH (dest + Z.of_nat (length is_))%Z rest) as (r & -> & Hp); [lia | by eapply guarded_suffix |].
  eexists. split; [reflexivity|]. by apply emit_ok.
Qed.

Lemma pass_total fuel : forall dest code, length code < fuel -> guarded code ->
  exists r, pass fuel dest code = Done r /\ pass_ok dest code r.
Proof.
  induction fuel as [|fuel IH]; intros dest code Hl Hs; [lia|]. cbn [pass].
  destruct code as [|a rest]; [by eexists; split; [|apply pass_nil_ok]|].
  assert (Hrule : forall cs ms is_ ch rest', a :: rest = cs ++ rest' -> cs <> [] -> rule_ok dest cs ms is_ ch ->
    exists r, (r ← pass fuel (dest + Z.of_nat (length is_))%Z rest'; Done (emit ms is_ ch r)) = Done r /\ pass_ok dest (a :: rest) r).
  { intros cs ms is_ ch rest' E Hne Hr. rewrite E in *. by apply pass_continue. }
  set (single := match jeq_chain1 _ with Some _ => _ | None => _ end).
  assert (Hsingle : exists r, single = Done r /\ pass_ok dest (a :: rest) r).
  { unfold single. destruct (jeq_chain1 (a :: rest)) as [arg0|] eqn:E1.
    { destruct (jeq_chain1_hd _ _ E1) as (a' & b & rest' & [= <- ->] & Ha & Hb).
      destruct (jeq_loop1 (length rest') arg0 (dest + 2) rest') as [[ms out] rest2] eqn:El. apply jeq_loop1_ok in El.
      destruct (chain_ok dest [a; b] [dest; dest + 1]%Z rest' ms out rest2 El eq_refl) as (cs & Ecs & Hne & Hr).
      - repeat constructor; cbn; lia.
      - exists [a], b. by rewrite Hb.
      - cbn. by rewrite Ha.
      - unfold not_squeeze. repeat constructor; congruence.
      - destruct (Hrule cs _ _ _ rest2 Ecs Hne Hr) as (r & E & Hp). exists r. split; [|done]. rewrite <- E.
        by replace (dest + Z.of_nat (length ([a; b] ++ out)))%Z with (dest + 2 + Z.of_nat (length out))%Z by (rewrite length_app; cbn; lia). }
    destruct (jeq_chain2 (a :: rest)) as [arg0|] eqn:E2.
    { destruct (jeq_chain2_hd _ _ E2) as (a' & b & c & rest' & [= <- ->] & Ha & He & Hb).
      destruct (jeq_loop2 (length rest') arg0 (dest + 3) rest') as [[ms out] rest2] eqn:El. apply jeq_loop2_ok in El.
      destruct (chain_ok dest [a; b; c] [dest; dest + 1; dest + 2]%Z rest' ms out rest2 El eq_refl) as (cs & Ecs & Hne & Hr).
      - repeat constructor; cbn; lia.
      - exists [a; b], c. by rewrite Hb.
      - cbn. by rewrite Ha.
      - unfold not_squeeze. repeat constructor; congruence.
      - destruct (Hrule cs _ _ _ rest2 Ecs Hne Hr) as (r & E & Hp). exists r. split; [|done]. rewrite <- E.
        by replace (dest + Z.of_nat (length ([a; b; c] ++ out)))%Z with (dest + 3 + Z.of_nat (length out))%Z by (rewrite length_app; cbn; lia). }
    destruct (is_op OP_POP a) eqn:Ep.
    - apply is_op_true in Ep. destruct (Hrule [a] _ _ _ rest eq_refl ltac:(done) (drop_pop_ok dest a Ep)) as (r & E & Hp).
      exists r. split; [|done]. rewrite <- E. cbn [length]. by rewrite Z.add_0_r.
    - exact (Hrule [a] _ _ _ rest eq_refl ltac:(done) (keep_ok dest a)). }
  destruct rest as [|b rest2]; [done|].
  destruct (spark_eval a b) eqn:R1; [exact (Hrule [a; b] _ _ _ rest2 eq_refl ltac:(done) (spark_eval_ok dest a b R1))|].
  destruct (mkframe_eval a b) eqn:R2.
  { unfold mkframe_eval in R2. ops. exact (Hrule [a] _ _ _ (b :: rest2) eq_refl ltac:(done) (call_ok dest a ltac:(done))). }
  destruct (squeeze_return a b) eqn:R3.
  { rewrite (proj2 (Z.ltb_lt _ _)); [cbn [cassert mbind outcome_bind]|].
    - exact (Hrule [a; b] _ _ _ rest2 eq_refl ltac:(done) (squeeze_return_ok dest a b R3)).
    - unfold squeeze_return in R3. ops. apply Z.nle_gt. intros Hz. destruct Hs as [Hs _]. apply Hs; [done|].
      cbn. by replace (i_opcode b) with OP_RETURN. }
  destruct (bif_jfalse a b) eqn:R4; [exact (Hrule [a; b] _ _ _ rest2 eq_refl ltac:(done) (jcmp_ok dest a b R4))|done].
Qed.

(** ** All passes *)

(** Code with absolute jump targets, all of them inside. *)
Record closed_abs (start : Z) (code : list instruction) : Prop := {
  ca_final : final_code code;
  ca_guarded : guarded code;
  ca_targets : forall t, t ∈ targets code -> (start <= t < start + Z.of_nat (length code))%Z
}.

Lemma targets_cons i l : targets (i :: l) = (if is_jump (i_opcode i) then [i_arg0 i] else []) ++ targets l.
Proof. unfold targets. cbn. by destruct (is_jump (i_opcode i)). Qed.

Lemma final_code_map (f : instruction -> instruction) l :
  (forall i, i_opcode (f i) = i_opcode i) -> final_code l -> final_code (map f l).
Proof. intros Hf (l0 & i & -> & Hi). exists (map f l0), (f i). by rewrite map_app, Hf. Qed.

Lemma remap_all_ok start m code :
  (forall t, t ∈ targets code -> (start <= t < start + Z.of_nat (length m))%Z) ->
  exists code', remap_all start m code = Done code' /\ length code' = length code /\
    (forall t, t ∈ targets code' -> t ∈ m) /\ map i_opcode code' = map i_opcode code /\ map i_arg1 code' = map i_arg1 code.
Proof.
  induction code as [|i code IH]; intros Ht; cbn [remap_all].
  { exists []. split_and!; try done. unfold targets; cbn. in_nil. }
  rewrite targets_cons in Ht. setoid_rewrite elem_of_app in Ht.
  destruct IH as (code' & -> & Hl & Hin & Ho & H1); [auto|]. unfold remap.
  destruct (is_jump (i_opcode i)) eqn:Ej.
  - destruct (Ht (i_arg0 i)) as [Hlo Hhi]; [left; by left|].
    destruct (lookup_lt_is_Some_2 m (Z.to_nat (i_arg0 i - start))) as [a Ha]; [lia|].
    rewrite Ha. cbn [deref mbind outcome_bind]. exists (set_arg0 a i :: code').
    split_and!; [done | cbn; lia | | cbn; by f_equal | cbn; by f_equal].
    intros t. rewrite targets_cons. cbn. rewrite Ej. intros [->|Ht']%elem_of_cons; [|auto].
    by eapply list_elem_of_lookup_2.
  - cbn [mbind outcome_bind]. exists (i :: code'). split_and!; [done | cbn; lia | | cbn; by f_equal | cbn; by f_equal].
    intros t. rewrite targets_cons, Ej. auto.
Qed.

(** Properties that only depend on opcodes and second arguments. *)
Lemma first_solid_same l l' : map i_opcode l' = map i_opcode l -> first_solid l' = first_solid l.
Proof.
  revert l'. induction l as [|i l IH]; intros [|i' l'] Ho; try done. injection Ho as Ho1 Ho2. cbn.
  by rewrite Ho1, (IH l').
Qed.

Lemma guarded_same l l' :
  map i_opcode l' = map i_opcode l -> map i_arg1 l' = map i_arg1 l -> guarded l -> guarded l'.
Proof.
  revert l'. induction l as [|i l IH]; intros [|i' l'] Ho H1 Hs; try done. injection Ho as Ho1 Ho2.
  injection H1 as Ha1 Ha2. destruct Hs as [Hi Hs]. split; [|by apply IH].
  unfold zero_squeeze in *. by rewrite Ho1, Ha1, (first_solid_same l l').
Qed.

Lemma final_code_same l l' : map i_opcode l' = map i_opcode l -> final_code l -> final_code l'.
Proof.
  intros Ho (l0 & i & -> & Hi). rewrite map_app in Ho. cbn in Ho.
  destruct l' as [|j l'] using rev_ind; [by destruct l0|]. rewrite map_app in Ho. cbn in Ho.
  apply app_inj_tail in Ho as [_ Ho]. exists l', j. by rewrite Ho.
Qed.

Lemma passes_ok fuel start : forall code, length code < fuel -> closed_abs start code ->
  exists code', passes fuel start code = Done code' /\ closed_abs start code' /\ length code' <= length code.
Proof.
  induction fuel as [|fuel IH]; intros code Hl [Hf Hs Ht]; [lia|]. cbn [passes].
  destruct (pass_total (S (length code)) start code) as (r & -> & Hp); [lia | done |]. cbn [mbind outcome_bind].
  destruct (remap_all_ok start (pr_map r) (pr_code r)) as (code1 & -> & Hl1 & Hin & Ho & H1).
  { intros t Htr. rewrite (po_len _ _ _ Hp). by apply Ht, (po_targets _ _ _ Hp). }
  cbn [mbind outcome_bind].
  assert (closed_abs start code1) as Hc1.
  { split.
    - eapply final_code_same; [exact Ho|]. by apply Hp.
    - eapply guarded_same; [exact Ho | exact H1 |]. by apply Hp.
    - intros t Htr. rewrite Hl1. apply Hin in Htr. pose proof (po_range _ _ _ Hp t Htr).
      pose proof (po_strict _ _ _ Hp Hf t Htr). lia. }
  pose proof (po_shrink _ _ _ Hp) as Hsh. destruct (pr_changed r).
  - destruct (IH code1) as (code2 & -> & Hc2 & Hl2); [lia | done |]. exists code2. split_and!; [done | done | lia].
  - exists code1. split_and!; [done | done | lia].
Qed.

(** ** Addresses *)

Lemma absolute_ok start count : forall code addr,
  (forall i instr, code !! i = Some instr -> is_jump (i_opcode instr) = true ->
    (start <= addr + Z.of_nat i + i_arg0 instr < count)%Z) ->
  exists code', absolute start count addr code = Done code' /\ length code' = length code /\
    (forall t, t ∈ targets code' -> (start <= t < count)%Z) /\
    map i_opcode code' = map i_opcode code /\ map i_arg1 code' = map i_arg1 code.
Proof.
  induction code as [|i code IH]; intros addr Ht; cbn [absolute].
  { exists []. split_and!; try done. unfold targets; cbn. in_nil. }
  destruct (IH (addr + 1)%Z) as (code' & E & Hl & Hin & Ho & H1).
  { intros j instr Hj Hjmp. specialize (Ht (S j) instr Hj Hjmp). lia. }
  destruct (is_jump (i_opcode i)) eqn:Ej.
  - specialize (Ht 0 i eq_refl Ej). rewrite (proj2 (Z.leb_le _ _)) by lia. rewrite (proj2 (Z.ltb_lt _ _)) by lia.
    cbn [cassert mbind outcome_bind]. rewrite E. cbn [mbind outcome_bind]. eexists. split; [reflexivity|].
    split_and!; [cbn; lia | | cbn; by f_equal | cbn; by f_equal].
    intros t. rewrite targets_cons. cbn. rewrite Ej. intros [->|Ht']%elem_of_cons; [lia | auto].
  - cbn [mbind outcome_bind]. rewrite E. cbn [mbind outcome_bind]. eexists. split; [reflexivity|].
    split_and!; [cbn; lia | | cbn; by f_equal | cbn; by f_equal].
    intros t. rewrite targets_cons, Ej. auto.
Qed.

Lemma relative_ok start count : forall code addr,
  (forall t, t ∈ targets code -> (start <= t < count)%Z) ->
  exists code', relative start count addr code = Done code' /\ length code' = length code /\
    (forall i instr, code' !! i = Some instr -> is_jump (i_opcode instr) = true ->
      (start <= addr + Z.of_nat i + i_arg0 instr < count)%Z) /\
    map i_opcode code' = map i_opcode code /\ map i_arg1 code' = map i_arg1 code.
Proof.
  induction code as [|i code IH]; intros addr Ht; cbn [relative].
  { exists []. by split_and!. }
  rewrite targets_cons in Ht. setoid_rewrite elem_of_app in Ht.
  destruct (IH (addr + 1)%Z) as (code' & E & Hl & Hin & Ho & H1); [auto|].
  assert (Hcons : forall i', i_opcode i' = i_opcode i ->
    (is_jump (i_opcode i) = true -> start <= addr + i_arg0 i' < count)%Z ->
    forall j instr, (i' :: code') !! j = Some instr -> is_jump (i_opcode instr) = true ->
    (start <= addr + Z.of_nat j + i_arg0 instr < count)%Z).
  { intros i' Ho' Hi' [|j] instr Hj Hjmp; cbn in Hj.
    - simplify_eq. rewrite Ho' in Hjmp. specialize (Hi' Hjmp). lia.
    - specialize (Hin j instr Hj Hjmp). lia. }
  destruct (is_jump (i_opcode i)) eqn:Ej.
  - destruct (Ht (i_arg0 i)) as [Hlo Hhi]; [left; by left|].
    rewrite (proj2 (Z.leb_le _ _)) by lia. rewrite (proj2 (Z.ltb_lt _ _)) by lia.
    cbn [cassert mbind outcome_bind]. rewrite E. cbn [mbind outcome_bind]. eexists. split; [reflexivity|].
    split_and!; [cbn; lia | | cbn; by f_equal | cbn; by f_equal]. apply Hcons; [done|]. cbn. lia.
  - cbn [mbind outcome_bind]. rewrite E. cbn [mbind outcome_bind]. eexists. split; [reflexivity|].
    split_and!; [cbn; lia | | cbn; by f_equal | cbn; by f_equal]. by apply Hcons.
Qed.

(** ** The result *)

(** Code in which no jump leaves the body and whose last instruction does not
    fall through. *)
Definition contained (code : list instruction) : Prop :=
  final_code code /\ guarded code /\
  forall i instr, code !! i = Some instr -> is_jump (i_opcode instr) = true ->
    (0 <= Z.of_nat i + i_arg0 instr < Z.of_nat (length code))%Z.

Lemma peephole_body_ok start code : closed_code code ->
  exists code', peephole_body start code = Done code' /\ contained code' /\ length code' <= length code.
Proof.
  intros [Hj Hsq _ Hjs Hfin]. unfold peephole_body.
  destruct (absolute_ok start (start + Z.of_nat (length code)) code start) as (c1 & -> & Hl1 & Ht1 & Ho1 & Ha1).
  { intros i instr Hi Hjmp. specialize (Hj i instr Hi Hjmp). specialize (Hjs i instr Hi Hjmp). lia. }
  cbn [mbind outcome_bind].
  destruct (passes_ok (S (length c1)) start c1) as (c2 & -> & [Hf2 Hs2 Ht2] & Hl2); [lia | |].
  { split; [by eapply final_code_same | by eapply guarded_same | by rewrite Hl1]. }
  cbn [mbind outcome_bind].
  destruct (relative_ok start (start + Z.of_nat (length c2)) c2 start Ht2) as (c3 & E3 & Hl3 & Hj3 & Ho3 & Ha3).
  exists c3. split_and!; [done | | lia]. split_and!; [by eapply final_code_same | by eapply guarded_same |].
  intros i instr Hi Hjmp. specialize (Hj3 i instr Hi Hjmp). lia.
Qed.
