(* ===== verification/Compile.v ===== *)
(** * Whole programs to bytecode (src/nreduce/compiler/bytecode.c)

    The functions around the schemes: one supercombinator ([F]), the prologue,
    the built-ins, the EVAL/DO sequences, the stack sizes, and the file image
    [gen_bytecode] lays out and the [bc_...] functions read back. *)

From S2P Require Import Prelude CString Builtins Util Source Resolve Double Bytecode Peephole.

#[local] Set Warnings "-clear-no-such-hyp".
#[local] Open Scope Z_scope.

(** The parts of [compilation] and [bcheader] the schemes do not touch. *)
Record program := Program {
  p_comp : compilation;
  p_finfo : list funinfo;
  p_evaldoaddr : Z;
  p_erroraddr : Z;
  p_itemfno : Z
}.

Definition set_comp (c : compilation) (p : program) : program :=
  Program c (p_finfo p) (p_evaldoaddr p) (p_erroraddr p) (p_itemfno p).

(** [comp->finfo[fno] = ...]; outside the array it is undefined. *)
Definition set_finfo (fno : Z) (fi : funinfo) (p : program) : outcome program :=
  cassert ((0 <=? fno) && (fno <? Z.of_nat (length (p_finfo p))));;
  Done (Program (p_comp p) (<[Z.to_nat fno := fi]> (p_finfo p)) (p_evaldoaddr p) (p_erroraddr p) (p_itemfno p)).
Definition get_finfo (fno : Z) (p : program) : outcome funinfo :=
  cassert (0 <=? fno);; deref (p_finfo p !! Z.to_nat fno).

(** A loop that runs a macro for each of a list of arguments. *)
Fixpoint for_args (f : Z -> compilation -> outcome compilation) (todo : list nat) (comp : compilation) :
    outcome compilation :=
  match todo with
  | [] => Done comp
  | i :: todo => comp ← f (Z.of_nat i) comp; for_args f todo comp
  end.

Definition push_statuses (l : list Z) (comp : compilation) : compilation :=
  set_si (Some (Stackinfo l false)) comp.

(** The positions of strict arguments. *)
Definition strict_positions (strictin : option (list bool)) (nargs : nat) : outcome (list nat) :=
  match strictin with
  | None => Done []
  | Some st =>
      cassert (Z.of_nat nargs <=? Z.of_nat (length st));;
      Done (List.filter (fun i => default false (st !! i)) (seq 0 nargs))
  end.

Definition arg_pmap (argnames : list string) : pmap :=
  imap (fun i n => (n, Z.of_nat (length argnames) - Z.of_nat i)) argnames.

(** The code in front of the body: returns [addressne] and [addressed]. *)
Definition F_entry (fno : Z) (sc : scomb) (comp : compilation) : outcome (compilation * Z * Z) :=
  let nargs := sc_nargs sc in
  if sc_nospark sc then
    st ← (match sc_strictin sc, nargs with Some st, _ => Done st | None, O => Done [] | None, _ => Crash end);
    cassert (Z.of_nat nargs <=? Z.of_nat (length st));;
    let comp := push_statuses (map (fun s : bool => if s then STATUS_SPARKED else STATUS_UNKNOWN) (take nargs st)) comp in
    comp ← add_instruction comp (sc_sl sc) OP_GLOBSTART fno (Z.of_nat nargs);
    Done (comp, code_count comp, code_count comp)
  else
    let comp := push_statuses (replicate nargs STATUS_UNKNOWN) comp in
    comp ← add_instruction comp (sc_sl sc) OP_GLOBSTART fno (Z.of_nat nargs);
    strict ← strict_positions (sc_strictin sc) nargs;
    comp ← for_args (SPARK (sc_sl sc)) strict comp;
    let addressne := code_count comp in
    comp ← for_args (EVAL (sc_sl sc)) strict comp;
    Done (comp, addressne, code_count comp).

Definition F (fuel mkfuel : nat) (src : source) (fno : Z) (sc : scomb) (p : program) : outcome program :=
  body ← deref (sc_body sc);
  let slot := Z.of_nat (NUM_BUILTINS + sc_index sc) in
  let address := code_count (p_comp p) in
  name ← real_scname src (sc_name sc);
  let '(comp, namepos) := add_string (p_comp p) name in
  let oldsi := comp_si comp in
  '(comp, addressne, addressed) ← F_entry fno sc comp;
  fi ← get_finfo slot p;
  let bodystart := code_count comp in
  comp ← R fuel mkfuel src comp body (arg_pmap (sc_argnames sc)) (Z.of_nat (sc_nargs sc));
  comp ← peephole bodystart comp;
  p ← set_finfo slot (Funinfo address addressne addressed (Z.of_nat (sc_nargs sc)) (fi_stacksize fi) namepos) p;
  let itemfno := if String.eqb (sc_name sc) "item" then fno else p_itemfno p in
  Done (Program (set_si oldsi comp) (p_finfo p) (p_evaldoaddr p) (p_erroraddr p) itemfno).

Fixpoint compile_scombs (fuel mkfuel : nat) (src : source) (ps : list nat) (p : program) : outcome program :=
  match ps with
  | [] => Done p
  | q :: ps =>
      sc ← getsc src q;
      p ← F fuel mkfuel src (Z.of_nat (NUM_BUILTINS + sc_index sc)) sc p;
      compile_scombs fuel mkfuel src ps p
  end.

Definition compile_prologue (mkfuel : nat) (src : source) (p : program) : outcome program :=
  q ← deref (get_scomb src "__start");
  startsc ← getsc src q;
  let sl := sc_sl startsc in
  let comp := push_statuses [STATUS_UNKNOWN] (p_comp p) in
  comp ← add_instruction comp sl OP_BEGIN 0 0;
  comp ← domkframe mkfuel src sl (Z.of_nat (sc_index startsc + NUM_BUILTINS)) 1 comp;
  comp ← SPARK sl 0 comp;
  comp ← EVAL sl 0 comp;
  comp ← add_instruction comp sl OP_END 0 0;
  let erroraddr := code_count comp in
  comp ← add_instruction (push_statuses [STATUS_UNKNOWN] comp) nosl OP_ERROR 0 0;
  Done (Program (set_si None comp) (p_finfo p) (p_evaldoaddr p) erroraddr (p_itemfno p)).

(** [compile_evaldo]: an EVAL/DO sequence for every stack depth below the
    largest one in use. *)
Definition max_expcount (l : list instruction) : Z :=
  fold_left (fun m i => if (m =? -1) || (m <? i_expcount i) then i_expcount i else m) l (-1).

Fixpoint evaldo_loop (base : Z) (depths : list nat) (comp : compilation) : outcome compilation :=
  match depths with
  | [] => Done comp
  | i :: depths =>
      comp ← EVAL nosl 0 (push_statuses (replicate i STATUS_UNKNOWN) comp);
      comp ← DO nosl 0 comp;
      cassert (code_count comp =? base + Z.of_nat i * 2);;
      evaldo_loop base depths comp
  end.

Definition compile_evaldo (p : program) : outcome program :=
  let base := code_count (p_comp p) in
  let maxcount := max_expcount (instructions (p_comp p)) in
  comp ← evaldo_loop base (seq 1 (Z.to_nat (maxcount - 1))) (p_comp p);
  Done (Program (set_si None comp) (p_finfo p) base (p_erroraddr p) (p_itemfno p)).

(** The code of a built-in. *)
Definition builtin_if (comp : compilation) : outcome compilation :=
  comp ← PUSH nosl 0 comp;
  comp ← SPARK nosl 0 comp;
  '(comp0, label1) ← JFALSE nosl comp;
  comp ← branch comp0;
  comp ← PUSH nosl 1 comp;
  '(comp, label2) ← JUMP nosl comp;
  let comp := LABEL label1 (unbranch comp0 comp) in
  comp ← PUSH nosl 2 comp;
  let comp := LABEL label2 comp in
  comp ← EVAL nosl 0 comp;
  RETURN nosl comp.

Definition builtin_call (i : nat) (bi : builtin) (comp : compilation) : outcome compilation :=
  comp ← for_args (SPARK nosl) (seq 0 (bi_nstrict bi)) comp;
  comp ← BIF nosl i comp;
  comp ← (if bi_reswhnf bi then Done comp else EVAL nosl 0 comp);
  RETURN nosl comp.

Definition compile_builtin (i : nat) (p : program) : outcome program :=
  bi ← deref (builtin_info !! i);
  let comp := push_statuses (replicate (bi_nargs bi) STATUS_UNKNOWN) (p_comp p) in
  let here := code_count comp in
  let '(comp, namepos) := add_string comp (bi_name bi) in
  fi ← get_finfo (Z.of_nat i) p;
  p ← set_finfo (Z.of_nat i) (Funinfo here here here (Z.of_nat (bi_nargs bi)) (fi_stacksize fi) namepos) p;
  comp ← add_instruction comp nosl OP_GLOBSTART (Z.of_nat i) (Z.of_nat (bi_nargs bi));
  comp ← (if Nat.eqb i B_IF then builtin_if comp else builtin_call i bi comp);
  Done (set_comp comp p).

Fixpoint compile_builtins_loop (todo : list nat) (p : program) : outcome program :=
  match todo with
  | [] => Done p
  | i :: todo => p ← compile_builtin i p; compile_builtins_loop todo p
  end.
Definition compile_builtins (p : program) : outcome program :=
  let topsi := comp_si (p_comp p) in
  p ← compile_builtins_loop (seq 0 NUM_BUILTINS) p;
  Done (set_comp (set_si topsi (p_comp p)) p).

(** [compute_stacksizes]: the largest [expcount] between a GLOBSTART and the
    next one of another function. *)
Fixpoint stacksizes_loop (fno stacksize : Z) (l : list instruction) (p : program) : outcome program :=
  let store p :=
    if 0 <=? fno then
      fi ← get_finfo fno p;
      set_finfo fno (Funinfo (fi_address fi) (fi_addressne fi) (fi_addressed fi) (fi_arity fi) stacksize (fi_name fi)) p
    else Done p in
  match l with
  | [] => store p
  | i :: l =>
      if bool_decide (i_opcode i = OP_GLOBSTART) && negb (fno =? i_arg0 i)
      then p ← store p; stacksizes_loop (i_arg0 i) (i_expcount i) l p
      else stacksizes_loop fno (if stacksize <? i_expcount i then i_expcount i else stacksize) l p
  end.
Definition compute_stacksizes (p : program) : outcome program :=
  stacksizes_loop (-1) 0 (instructions (p_comp p)) p.

Definition empty_funinfo : funinfo := Funinfo 0 0 0 0 0 0.

(** The list of source files is the one the parser makes when it adds the first
    file; [compile] of a source to which no file has been added would count a
    null array, and is not told apart from an empty list here. *)
Definition compile_program (fuel mkfuel : nat) (src : source) : outcome program :=
  let comp := fold_left (fun comp f => (add_string comp f).1) (src_parsedfiles src) (Compilation [] [] None) in
  let p := Program comp (replicate (NUM_BUILTINS + length (src_scombs src)) empty_funinfo) 0 0 0 in
  p ← compile_prologue mkfuel src p;
  p ← compile_scombs fuel mkfuel src (src_scombs src) p;
  p ← compile_builtins p;
  p ← compile_evaldo p;
  comp ← add_instruction (p_comp p) nosl OP_INVALID 0 0;
  compute_stacksizes (set_comp comp p).
