(* ===== verification/CompileFacts.v ===== *)
(** * Compiling a supercombinator

    [F] returns on a body of the right shape: entry code, closed body, and an
    entry of the function table that describes them. *)

From S2P Require Import Prelude CString Builtins Util Source Resolve Double Bytecode Peephole StackDiscipline Schemes SchemeR PeepholeFacts Compile.

#[local] Set Warnings "-clear-no-such-hyp".

(** ** Entry code *)

Lemma for_SPARK_ok sl todo : forall comp s,
  comp_si comp = Some (Stackinfo s false) -> st_ok s -> Forall (fun i => i < length s) todo ->
  exists comp' s', for_args (SPARK sl) todo comp = Done comp' /\ after comp comp' s' /\ st_ok s' /\ length s' = length s.
Proof.
  induction todo as [|i todo IH]; intros comp s Hsi Hok Ht; cbn [for_args].
  { exists comp, s. split_and!; try done. by apply after_refl. }
  apply Forall_cons in Ht as [Hi Ht].
  destruct (SPARK_ok comp sl (Z.of_nat i) s Hsi Hok) as (c1 & s1 & -> & Haf & Hok1 & _ & Hl1 & _); [lia|].
  cbn [mbind outcome_bind]. destruct (IH c1 s1) as (c2 & s2 & -> & Haf2 & Hok2 & Hl2); [apply Haf | done | by rewrite Hl1 |].
  exists c2, s2. split_and!; [done | by eapply after_trans | done | lia].
Qed.

Lemma for_EVAL_ok sl todo : forall comp s,
  comp_si comp = Some (Stackinfo s false) -> st_ok s -> Forall (fun i => i < length s) todo ->
  exists comp' s', for_args (EVAL sl) todo comp = Done comp' /\ after comp comp' s' /\ st_ok s' /\ length s' = length s.
Proof.
  induction todo as [|i todo IH]; intros comp s Hsi Hok Ht; cbn [for_args].
  { exists comp, s. split_and!; try done. by apply after_refl. }
  apply Forall_cons in Ht as [Hi Ht].
  destruct (EVAL_ok comp sl (Z.of_nat i) s Hsi Hok) as (c1 & s1 & -> & Haf & Hok1 & _ & Hl1 & _); [lia|].
  cbn [mbind outcome_bind]. destruct (IH c1 s1) as (c2 & s2 & -> & Haf2 & Hok2 & Hl2); [apply Haf | done | by rewrite Hl1 |].
  exists c2, s2. split_and!; [done | by eapply after_trans | done | lia].
Qed.

Lemma after_count comp comp' s : after comp comp' s -> (code_count comp <= code_count comp')%Z.
Proof. intros [_ (l & E & _)]. unfold code_count. rewrite E, length_app. lia. Qed.

Lemma strict_positions_ok st nargs : length st = nargs ->
  exists l, strict_positions (Some st) nargs = Done l /\ Forall (fun i => i < nargs) l.
Proof.
  intros Hl. unfold strict_positions. rewrite (proj2 (Z.leb_le _ _)) by lia. eexists. split; [reflexivity|].
  apply Forall_forall. intros i Hi%list_elem_of_In. apply filter_In in Hi as [Hi _]. apply in_seq in Hi. lia.
Qed.

Lemma F_entry_ok fno sc st comp :
  sc_strictin sc = Some st -> length st = sc_nargs sc ->
  exists comp' s ne ed, F_entry fno sc comp = Done (comp', ne, ed) /\
    (exists l, instructions comp' = instructions comp ++ l) /\ ed = code_count comp' /\
    (code_count comp < ne <= ed)%Z /\ holds comp' s 0 s /\ length s = sc_nargs sc.
Proof.
  intros Hst Hl. unfold F_entry. rewrite Hst.
  assert (Hglob : forall s sl a1, exists c1, add_instruction (push_statuses s comp) sl OP_GLOBSTART fno a1 = Done c1 /\
    after (push_statuses s comp) c1 s /\ code_count c1 = (code_count comp + 1)%Z).
  { intros s sl a1. destruct (add_instruction_ok (push_statuses s comp) sl OP_GLOBSTART fno a1 s s) as (c1 & E & Haf); try done.
    exists c1. split_and!; [done | done |]. unfold add_instruction in E. cbn in E. injection E as <-.
    unfold code_count; cbn. rewrite length_app. cbn. lia. }
  destruct (sc_nospark sc).
  - cbn [mbind outcome_bind]. rewrite (proj2 (Z.leb_le _ _)) by lia. cbn [cassert mbind outcome_bind].
    set (s := map _ (take (sc_nargs sc) st)).
    destruct (Hglob s (sc_sl sc) (Z.of_nat (sc_nargs sc))) as (c1 & -> & Haf & Hc). cbn [mbind outcome_bind].
    exists c1, s, (code_count c1), (code_count c1). split_and!; try done; try lia.
    + destruct Haf as [_ (l & E & _)]. by exists l.
    + split; [apply Haf | | apply le_st_refl | lia]. apply Forall_forall.
      intros x (b & -> & _)%elem_of_map. destruct b; status_lia.
    + unfold s. rewrite length_map, length_take. lia.
  - destruct (Hglob (replicate (sc_nargs sc) STATUS_UNKNOWN) (sc_sl sc) (Z.of_nat (sc_nargs sc))) as (c1 & -> & Haf & Hc).
    cbn [mbind outcome_bind]. destruct (strict_positions_ok st (sc_nargs sc) Hl) as (todo & -> & Htodo). cbn [mbind outcome_bind].
    destruct (for_SPARK_ok (sc_sl sc) todo c1 _ (af_si _ _ _ Haf)) as (c2 & s2 & -> & Haf2 & Hok2 & Hl2).
    { apply Forall_replicate. status_lia. } { by rewrite length_replicate. }
    cbn [mbind outcome_bind]. rewrite length_replicate in Hl2.
    destruct (for_EVAL_ok (sc_sl sc) todo c2 s2 (af_si _ _ _ Haf2) Hok2) as (c3 & s3 & -> & Haf3 & Hok3 & Hl3).
    { by rewrite Hl2. }
    cbn [mbind outcome_bind]. exists c3, s3, (code_count c2), (code_count c3).
    pose proof (after_count _ _ _ Haf2). pose proof (after_count _ _ _ Haf3). split_and!; try done; try lia.
    + destruct (after_trans _ _ _ _ _ Haf (after_trans _ _ _ _ _ Haf2 Haf3)) as [_ (l & E & _)]. by exists l.
    + split; [apply Haf3 | done | apply le_st_refl | lia].
Qed.

(** ** Functions *)

Lemma add_string_code comp str :
  instructions (add_string comp str).1 = instructions comp /\ comp_si (add_string comp str).1 = comp_si comp.
Proof. unfold add_string. by destruct (0 <=? _)%Z. Qed.

Lemma peephole_ok start comp pre body :
  instructions comp = pre ++ body -> start = Z.of_nat (length pre) -> closed_code body ->
  exists comp' body', peephole start comp = Done comp' /\ instructions comp' = pre ++ body' /\ contained body' /\
    length body' <= length body.
Proof.
  intros E -> Hc. unfold peephole. rewrite Nat2Z.id, E, drop_app_length, take_app_length.
  destruct (peephole_body_ok (Z.of_nat (length pre)) body Hc) as (b' & -> & Hb & Hl). cbn [mbind outcome_bind].
  by eexists _, b'.
Qed.

Lemma F_ok fuel mkfuel src q sc body st p name :
  0 < mkfuel -> src_ready mkfuel src -> sc_ready mkfuel src q sc body st ->
  rbody src (arg_pmap (sc_argnames sc)) (sc_nargs sc) body -> 2 * snode_size body <= fuel ->
  real_scname src (sc_name sc) = Done name -> NUM_BUILTINS + sc_index sc < length (p_finfo p) ->
  let fno := Z.of_nat (NUM_BUILTINS + sc_index sc) in
  exists p' entry body' fi, F fuel mkfuel src fno sc p = Done p' /\
    instructions (p_comp p') = instructions (p_comp p) ++ entry ++ body' /\ contained body' /\
    p_finfo p' = <[NUM_BUILTINS + sc_index sc := fi]> (p_finfo p) /\
    fi_address fi = code_count (p_comp p) /\ (fi_address fi < fi_addressne fi <= fi_addressed fi)%Z /\
    fi_addressed fi = Z.of_nat (length (instructions (p_comp p) ++ entry)) /\
    fi_arity fi = Z.of_nat (sc_nargs sc) /\ comp_si (p_comp p') = comp_si (p_comp p).
Proof.
  intros Hmk Hsrc Hr Hb Hf Hname Hfi fno. unfold F. rewrite (sr_body _ _ _ _ _ _ Hr). cbn [deref mbind outcome_bind].
  rewrite Hname. cbn [mbind outcome_bind]. destruct (add_string_code (p_comp p) name) as [Ei Es].
  destruct (add_string (p_comp p) name) as [comp namepos]. cbn [fst] in Ei, Es.
  destruct (F_entry_ok fno sc st comp (sr_strict _ _ _ _ _ _ Hr) (sr_strict_len _ _ _ _ _ _ Hr))
    as (c1 & s & ne & ed & -> & (entry & Ee) & Eed & Hne & Hh & Hl). cbn [mbind outcome_bind].
  unfold get_finfo. rewrite (proj2 (Z.leb_le _ _)) by lia. cbn [cassert mbind outcome_bind]. rewrite Nat2Z.id.
  destruct (lookup_lt_is_Some_2 (p_finfo p) (NUM_BUILTINS + sc_index sc)) as [fi0 ->]; [done|]. cbn [deref mbind outcome_bind].
  destruct (R_ok mkfuel src Hmk Hsrc _ _ _ Hb fuel c1 s Hf Hl Hh) as (c2 & l2 & -> & E2 & Hc2 & _). cbn [mbind outcome_bind].
  destruct (peephole_ok (code_count c1) c2 (instructions c1) l2 E2 eq_refl Hc2) as (c3 & b3 & -> & E3 & Hc3 & _).
  cbn [mbind outcome_bind]. unfold set_finfo.
  rewrite (proj2 (Z.leb_le _ _)) by lia. rewrite (proj2 (Z.ltb_lt _ _)) by lia. cbn [andb cassert mbind outcome_bind].
  assert (code_count comp = code_count (p_comp p)) as Ecc by (unfold code_count; by rewrite Ei).
  eexists _, entry, b3, _. split; [reflexivity|]. cbn [p_comp p_finfo instructions set_si fi_address fi_addressne fi_addressed fi_arity comp_si].
  rewrite Nat2Z.id. rewrite E3, Ee, Ei, <- app_assoc. split_and!; try done; cbn; try lia.
  rewrite Eed. unfold code_count. by rewrite Ee, Ei.
Qed.

(** *** A sample: [f x y = + x y] after strictness analysis *)
Definition sample_sum : snode :=
  SNODE_APPLICATION nosl true (SNODE_APPLICATION nosl true (SNODE_BUILTIN nosl B_ADD) (SNODE_SYMBOL nosl "x"))
    (SNODE_SYMBOL nosl "y").
Definition sample_f : scomb :=
  Scomb "f" ["x"; "y"] (Some sample_sum) 0 (Some [true; true]) (Some [false; false]) nosl None false false None false.

Lemma sample_f_ready : sc_ready 1 (source_of [sample_f]) 0 sample_f sample_sum [true; true].
Proof. split; try reflexivity. cbn. in_nil. Qed.

Lemma sample_src_ready : src_ready 1 (source_of [sample_f]).
Proof. intros p ->%list_elem_of_singleton. eexists _, _, _. apply sample_f_ready. Qed.

Lemma sample_symbol_good src x : x ∈ ["x"; "y"] -> good src (arg_pmap ["x"; "y"]) 2 (SNODE_SYMBOL nosl x).
Proof.
  intros Hx. split_and!; [done | | split; [constructor | cbn; in_nil]].
  intros z ->. rewrite !elem_of_cons in Hx. destruct Hx as [->|[->|Hx]]; [| |by apply not_elem_of_nil in Hx].
  - exists 2%Z. split; [reflexivity | lia].
  - exists 1%Z. split; [reflexivity | lia].
Qed.

Lemma sample_sum_good src : good src (arg_pmap ["x"; "y"]) 2 sample_sum.
Proof.
  assert (Hl : forall c, eq_literal c = None -> item_literal src c = Done None -> literal_ok src c).
  { intros c H1 H2. split; congruence. }
  split_and!; [| | split; [constructor | cbn; in_nil]].
  - cbn [shape sample_sum spine_head count_args fun_ok].
    split_and!; try done; try (eexists; split; [reflexivity | cbn; lia]); by apply Hl.
  - intros z Hz. cbn in Hz. destruct Hz as [[[]| ->]| ->].
    + apply (sample_symbol_good src "x"); [by left | done].
    + apply (sample_symbol_good src "y"); [right; by left | done].
Qed.

Lemma sample_sum_rbody src : rbody src (arg_pmap ["x"; "y"]) 2 sample_sum.
Proof.
  eapply rb_builtin; try reflexivity.
  - split; [cbn; lia|]. cbn. repeat apply Forall_cons_2; try apply Forall_nil_2; apply sample_symbol_good; set_solver.
  - intros [|[|n]] Hn; cbn in *; [by eexists | by eexists | lia].
Qed.

(** ** Theorems *)

(** C9. Compiling an expression with [E] or [C] succeeds on every expression in
    which functions are known and not over-applied, variables are on the stack
    and bound names are new, if following constants that are defined as other
    constants comes to an end: no assertion fails, the recursion ends, the
    instructions are appended, the slots below are kept or only become more
    evaluated, exactly one slot is added, and after [E] that slot has at least
    been sparked. *)
Theorem expressions_compile fuel mkfuel src comp c pm s :
  0 < mkfuel -> src_ready mkfuel src -> good src pm (length s) c -> 2 * snode_size c <= fuel ->
  comp_si comp = Some (Stackinfo s false) -> st_ok s ->
  (exists comp' s' t l, C fuel mkfuel src comp c pm (Z.of_nat (length s)) = Done comp' /\
    comp_si comp' = Some (Stackinfo (s' ++ [t]) false) /\ Forall2 Z.le s s' /\
    instructions comp' = instructions comp ++ l) /\
  (exists comp' s' t l, E fuel mkfuel src comp c pm (Z.of_nat (length s)) = Done comp' /\
    comp_si comp' = Some (Stackinfo (s' ++ [t]) false) /\ Forall2 Z.le s s' /\ (STATUS_SPARKED <= t)%Z /\
    instructions comp' = instructions comp ++ l).
Proof.
  intros Hmk Hsrc Hg Hf Hsi Hok. assert (holds comp s 0 s) as H by (split; [done | done | apply le_st_refl | lia]).
  destruct (compiles_all mkfuel src Hmk Hsrc fuel c) as [HC HE].
  assert (Hshape : forall comp' s' t, holds comp' s 1 s' -> s' !! length s = Some t ->
    comp_si comp' = Some (Stackinfo (take (length s) s' ++ [t]) false) /\ Forall2 Z.le s (take (length s) s')).
  { intros comp' s' t H' Ht. pose proof (ho_len _ _ _ _ H') as Hl. split.
    - rewrite (ho_si _ _ _ _ H'). do 2 f_equal. rewrite <- (take_drop (length s) s') at 1. f_equal.
      rewrite (drop_S _ _ _ Ht). f_equal. apply drop_ge. lia.
    - apply Forall2_same_length_lookup_2; [rewrite length_take; lia|]. intros i x y Hx Hy.
      apply lookup_take_Some in Hy as [Hy _]. destruct (ho_le _ _ _ _ H' i x Hx) as (z & Hz & ?). congruence. }
  split.
  - destruct (compiles_at _ _ _ _ _ _ _ _ (HC ltac:(lia)) Hg H) as (c1 & s1 & l & E1 & El & _ & _ & H1 & t & Ht & _).
    destruct (Hshape c1 s1 t H1 Ht). exists c1, (take (length s) s1), t, l. done.
  - destruct (compiles_at _ _ _ _ _ _ _ _ (HE Hf) Hg H) as (c1 & s1 & l & E1 & El & _ & _ & H1 & t & Ht & Hlo).
    destruct (Hshape c1 s1 t H1 Ht). exists c1, (take (length s) s1), t, l. done.
Qed.

Lemma expressions_compile_witness :
  (exists comp' s' t l, C 20 1 (source_of [sample_f]) (Compilation [] [] (Some (Stackinfo [0; 0]%Z false))) sample_sum
      (arg_pmap ["x"; "y"]) 2 = Done comp' /\
    comp_si comp' = Some (Stackinfo (s' ++ [t]) false) /\ Forall2 Z.le [0; 0]%Z s' /\ instructions comp' = [] ++ l) /\
  (exists comp' s' t l, E 20 1 (source_of [sample_f]) (Compilation [] [] (Some (Stackinfo [0; 0]%Z false))) sample_sum
      (arg_pmap ["x"; "y"]) 2 = Done comp' /\
    comp_si comp' = Some (Stackinfo (s' ++ [t]) false) /\ Forall2 Z.le [0; 0]%Z s' /\ (STATUS_SPARKED <= t)%Z /\
    instructions comp' = [] ++ l).
Proof.
  apply (expressions_compile 20 1 (source_of [sample_f]) (Compilation [] [] (Some (Stackinfo [0; 0]%Z false))) sample_sum
    (arg_pmap ["x"; "y"]) [0; 0]%Z);
    [lia | apply sample_src_ready | apply sample_sum_good | cbn; lia | reflexivity |].
  repeat apply Forall_cons_2; try apply Forall_nil_2; status_lia.
Defined.

(** C7. Compiling a supercombinator whose body has the shape the lifting passes
    establish, in a program where following constants that are defined as other
    constants comes to an end, returns: none of the assertions of the schemes or of the
    peephole optimiser fails. Its code is appended as an entry part and a body
    in which no jump leads outside and whose last instruction returns or jumps
    away, and the function table points to the three entry points in order,
    the last one being the start of the body. *)
Theorem supercombinator_compiles fuel mkfuel src q sc body st p name :
  0 < mkfuel -> src_ready mkfuel src -> sc_ready mkfuel src q sc body st ->
  rbody src (arg_pmap (sc_argnames sc)) (sc_nargs sc) body -> 2 * snode_size body <= fuel ->
  real_scname src (sc_name sc) = Done name -> NUM_BUILTINS + sc_index sc < length (p_finfo p) ->
  exists p' entry body' fi, F fuel mkfuel src (Z.of_nat (NUM_BUILTINS + sc_index sc)) sc p = Done p' /\
    instructions (p_comp p') = instructions (p_comp p) ++ entry ++ body' /\ contained body' /\
    p_finfo p' = <[NUM_BUILTINS + sc_index sc := fi]> (p_finfo p) /\
    fi_address fi = code_count (p_comp p) /\ (fi_address fi < fi_addressne fi <= fi_addressed fi)%Z /\
    fi_addressed fi = Z.of_nat (length (instructions (p_comp p) ++ entry)) /\
    fi_arity fi = Z.of_nat (sc_nargs sc).
Proof.
  intros Hmk Hsrc Hr Hb Hf Hname Hfi.
  destruct (F_ok fuel mkfuel src q sc body st p name Hmk Hsrc Hr Hb Hf Hname Hfi)
    as (p' & entry & body' & fi & H1 & H2 & H3 & H4 & H5 & H6 & H7 & H8 & _).
  by exists p', entry, body', fi.
Qed.

Lemma supercombinator_compiles_witness :
  exists p' entry body' fi, F 20 1 (source_of [sample_f]) (Z.of_nat (NUM_BUILTINS + 0)) sample_f
      (Program (Compilation [] [] None) (replicate 73 empty_funinfo) 0 0 0) = Done p' /\
    instructions (p_comp p') = [] ++ entry ++ body' /\ contained body' /\
    p_finfo p' = <[NUM_BUILTINS + 0 := fi]> (replicate 73 empty_funinfo) /\
    fi_address fi = 0%Z /\ (fi_address fi < fi_addressne fi <= fi_addressed fi)%Z /\
    fi_addressed fi = Z.of_nat (length ([] ++ entry)) /\ fi_arity fi = 2%Z.
Proof.
  apply (supercombinator_compiles 20 1 (source_of [sample_f]) 0 sample_f sample_sum [true; true]
    (Program (Compilation [] [] None) (replicate 73 empty_funinfo) 0 0 0) "f");
    [lia | apply sample_src_ready | apply sample_f_ready | apply sample_sum_rbody | cbn; lia | reflexivity |].
  cbn [p_finfo]. rewrite length_replicate. cbn. unfold NUM_BUILTINS. lia.
Defined.

(** C24. The peephole optimiser on closed code: the passes end, every address the
    map is asked for is in it, the assertions on jump targets hold after as
    they did before, the code in front of the body is untouched and the body
    does not grow. *)
Theorem peephole_safe start comp pre body :
  instructions comp = pre ++ body -> start = Z.of_nat (length pre) -> closed_code body ->
  exists comp' body', peephole start comp = Done comp' /\ instructions comp' = pre ++ body' /\ contained body' /\
    length body' <= length body.
Proof. apply peephole_ok. Qed.

(** SQUEEZE followed by RETURN, behind an instruction of other code. *)
Lemma peephole_safe_witness :
  exists comp' body', peephole 1 (Compilation [Instruction OP_BEGIN 0 0 0 0 0; Instruction OP_PUSH 1 0 0 0 2;
      Instruction OP_SQUEEZE 1 2 0 0 3; Instruction OP_RETURN 0 0 0 0 1] [] None) = Done comp' /\
    instructions comp' = [Instruction OP_BEGIN 0 0 0 0 0] ++ body' /\ contained body' /\ length body' <= 3.
Proof.
  apply (peephole_safe 1 (Compilation [Instruction OP_BEGIN 0 0 0 0 0; Instruction OP_PUSH 1 0 0 0 2;
      Instruction OP_SQUEEZE 1 2 0 0 3; Instruction OP_RETURN 0 0 0 0 1] [] None) [Instruction OP_BEGIN 0 0 0 0 0]
      [Instruction OP_PUSH 1 0 0 0 2; Instruction OP_SQUEEZE 1 2 0 0 3; Instruction OP_RETURN 0 0 0 0 1]); [reflexivity | reflexivity |].
  apply (closed_code_return [_; _]); [apply (code_ok_app [_] [_]); by apply code_ok_single | | reflexivity].
  eexists [], _, [_]. split_and!; [reflexivity | reflexivity |]. apply Forall_singleton. intros [_ Hz]. by cbn in Hz.
Defined.

(** C38. A constant defined as itself, directly or through a chain of constants
    that comes back, sends [domkframe] into a recursion without end: no amount
    of fuel is enough. *)
Theorem domkframe_cycle src (cycle : list nat) :
  (forall i p, cycle !! i = Some p -> exists sc sl q sc',
    src_heap src !! p = Some sc /\ src_scombs src !! sc_index sc = Some p /\ sc_argnames sc = [] /\
    sc_body sc = Some (SNODE_SCREF sl q) /\ q ∈ cycle /\ src_heap src !! q = Some sc' /\ sc_argnames sc' = []) ->
  forall fuel p sc sl comp, p ∈ cycle -> src_heap src !! p = Some sc ->
  domkframe fuel src sl (Z.of_nat (sc_index sc + NUM_BUILTINS)) 0 comp = Timeout.
Proof.
  intros Hc. induction fuel as [|fuel IH]; intros p sc sl comp Hp Hs; [done|].
  apply list_elem_of_lookup in Hp as [i Hi].
  destruct (Hc i p Hi) as (sc0 & sl1 & q & sc' & H1 & H2 & H3 & H4 & Hq & H6 & H7). simplify_eq.
  apply list_elem_of_lookup in Hq as [j Hj].
  destruct (Hc j q Hj) as (sc1 & sl2 & q2 & sc2 & K1 & K2 & K3 & _). simplify_eq.
  assert (Hfs : forall s r, src_heap src !! r = Some s -> src_scombs src !! sc_index s = Some r ->
    fno_scomb src (Z.of_nat (sc_index s + NUM_BUILTINS)) = Done s).
  { intros s r Hr Hi'. unfold fno_scomb, get_scomb_index.
    replace (Z.to_nat (Z.of_nat (sc_index s + NUM_BUILTINS) - Z.of_nat NUM_BUILTINS)) with (sc_index s) by lia.
    rewrite Hi'. cbn [deref mbind outcome_bind]. unfold getsc. by rewrite Hr. }
  cbn [domkframe]. rewrite (proj2 (Z.leb_le _ _)) by lia. rewrite (Hfs _ _ Hs H2). cbn [mbind outcome_bind].
  unfold sc_nargs at 1. rewrite H3. cbn [length Nat.eqb]. rewrite H4. cbn [deref mbind outcome_bind cassert Z.eqb snode_fno].
  unfold getsc. rewrite H6. cbn [deref mbind outcome_bind].
  unfold function_nargs. rewrite (proj2 (Z.leb_le _ _)) by lia. cbn [cassert mbind outcome_bind].
  rewrite (proj2 (Z.ltb_ge _ _)) by lia. rewrite (Hfs _ _ H6 K2). cbn [mbind outcome_bind].
  unfold sc_nargs at 1. rewrite K3. cbn [length Z.of_nat Z.eqb]. eapply IH; [by eapply list_elem_of_lookup_2 | done].
Qed.

(** The program [x = x]. *)
Definition sample_loop : scomb := set_body (SNODE_SCREF nosl 0) (new_scomb "x" 0).

Lemma domkframe_cycle_witness :
  domkframe 1000 (source_of [sample_loop]) nosl (Z.of_nat (sc_index sample_loop + NUM_BUILTINS)) 0 (Compilation [] [] None) = Timeout.
Proof.
  apply (domkframe_cycle (source_of [sample_loop]) [0]) with (p := 0); [|by left | reflexivity].
  intros [|i] p Hi; cbn in Hi; [|discriminate]. injection Hi as <-.
  exists sample_loop, nosl, 0, sample_loop. split_and!; try reflexivity. by left.
Defined.
