(* ===== verification/Emits.v ===== *)
(** * What the schemes append

    Whatever the schemes of bytecode.c are run on: when they return, code has
    been appended to what was there, and none of it is the entry of a function
    ([GLOBSTART]). So the entries in a compiled program are exactly the ones
    the functions around the schemes put there. *)

From S2P Require Import Prelude CString Builtins Util Source Resolve Double Bytecode Peephole Compile.

#[local] Set Warnings "-clear-no-such-hyp".

Definition inner (i : instruction) : Prop := i_opcode i <> OP_GLOBSTART.

(** [comp'] is [comp] with inner code appended. *)
Definition grown (comp comp' : compilation) : Prop :=
  exists l, instructions comp' = instructions comp ++ l /\ Forall inner l.

(** [r], if it returns, returns [base] with inner code appended. *)
Definition grows (base : compilation) (r : outcome compilation) : Prop := forall comp', r = Done comp' -> grown base comp'.

(** The same for macros that return the address of a jump still to be patched. *)
Definition jumps (base : compilation) (r : outcome (compilation * Z)) : Prop :=
  forall comp' addr, r = Done (comp', addr) -> grown base comp' /\ (code_count base <= addr)%Z.

(** ** Composition *)

Lemma grown_refl comp : grown comp comp.
Proof. exists []. by rewrite app_nil_r. Qed.

Lemma grown_same comp comp' : instructions comp' = instructions comp -> grown comp comp'.
Proof. intros E. exists []. by rewrite app_nil_r. Qed.

Lemma grown_trans c0 c1 c2 : grown c0 c1 -> grown c1 c2 -> grown c0 c2.
Proof.
  intros (l1 & E1 & H1) (l2 & E2 & H2). exists (l1 ++ l2). rewrite E2, E1, app_assoc.
  split; [done | by apply Forall_app].
Qed.

Lemma grown_count c0 c1 : grown c0 c1 -> (code_count c0 <= code_count c1)%Z.
Proof. intros (l & E & _). unfold code_count. rewrite E, length_app. lia. Qed.

Lemma grows_Done base comp : grown base comp -> grows base (Done comp).
Proof. by intros H comp' [= <-]. Qed.

Lemma grows_Crash base : grows base Crash.
Proof. done. Qed.

Lemma grows_Timeout base : grows base Timeout.
Proof. done. Qed.

Lemma grows_bind base e k :
  grows base e -> (forall comp, grown base comp -> grows base (k comp)) -> grows base (comp ← e; k comp).
Proof. intros He Hk comp' (comp & E & H)%bind_Done_inv. by eapply Hk; [apply He|]. Qed.

Lemma grows_other {A} base (e : outcome A) k : (forall x, e = Done x -> grows base (k x)) -> grows base (x ← e; k x).
Proof. intros Hk comp' (x & E & H)%bind_Done_inv. by eapply Hk. Qed.

Lemma grows_jump base e k :
  jumps base e -> (forall comp addr, grown base comp -> (code_count base <= addr)%Z -> grows base (k comp addr)) ->
  grows base ('(comp, addr) ← e; k comp addr).
Proof. intros He Hk comp' ([comp addr] & E & H)%bind_Done_inv. destruct (He _ _ E). by eapply Hk. Qed.

Lemma grown_si base comp si : grown base comp -> grown base (set_si si comp).
Proof. done. Qed.

Lemma grown_unbranch base comp comp0 : grown base comp -> grown base (unbranch comp0 comp).
Proof. done. Qed.

Lemma grown_label base comp addr : grown base comp -> (code_count base <= addr)%Z -> grown base (LABEL addr comp).
Proof.
  intros (l & E & H) Ha. unfold LABEL. cbn. rewrite E. unfold code_count in Ha.
  rewrite alter_app_r_alt by lia. eexists. split; [reflexivity|].
  apply Forall_alter; [done|]. by intros x Hx Hi.
Qed.

Lemma grown_string base comp str : grown base comp -> grown base (add_string comp str).1.
Proof. intros H. unfold add_string. by destruct (0 <=? _)%Z. Qed.

(** ** Instructions and macros *)

Lemma add_instruction_grown comp sl op a0 a1 comp' : add_instruction comp sl op a0 a1 = Done comp' ->
  exists i, instructions comp' = instructions comp ++ [i] /\ i_opcode i = op /\ i_arg0 i = a0 /\ i_arg1 i = a1.
Proof. unfold add_instruction. intros H. destruct (comp_si comp); outcome_inv; subst comp'; by eexists. Qed.

Lemma grows_add base comp sl op a0 a1 : op <> OP_GLOBSTART -> grown base comp -> grows base (add_instruction comp sl op a0 a1).
Proof.
  intros Hop Hb comp' (i & E & Ei & _)%add_instruction_grown. eapply grown_trans; [exact Hb|].
  exists [i]. split; [done|]. apply Forall_singleton. unfold inner. by rewrite Ei.
Qed.

(** One step of a proof that a function of the compiler only appends: the
    shape of the code tells which lemma applies. *)
Create HintDb emits.
#[export] Hint Resolve grown_refl grown_label grown_unbranch grown_si : emits.
Ltac emit_step :=
  match goal with
  | |- grown _ (unbranch _ _) => apply grown_unbranch
  | |- grown _ (set_si _ _) => apply grown_si
  | |- grown _ (LABEL _ _) => apply grown_label
  | |- grown _ _ => first [assumption | apply grown_refl]
  | |- (code_count _ <= code_count _)%Z => apply grown_count
  | |- (code_count _ <= _)%Z => assumption
  | |- _ <> OP_GLOBSTART => discriminate
  | |- grows _ (Done _) => apply grows_Done
  | |- grows _ Crash => apply grows_Crash
  | |- grows _ Timeout => apply grows_Timeout
  | |- grows _ (let '(_, _) := add_string ?c ?s in _) =>
      let H := fresh in
      assert (grown c (add_string c s).1) as H by (apply grown_string, grown_refl);
      destruct (add_string c s); cbn [fst] in H;
      match type of H with grown ?c ?c' =>
        match goal with G : grown ?b c |- _ => pose proof (grown_trans b c c' G H) | _ => idtac end end
  | |- grows _ (if ?b then _ else _) => destruct b eqn:?
  | |- grows _ (match ?x with _ => _ end) => destruct x eqn:?
  | |- grows _ (mbind (fun '(_, _) => _) (A:=compilation * Z) _) => apply grows_jump; [|intros ?comp ?addr ?Hg ?Ha]
  | |- grows _ (mbind _ (A:=compilation) _) => apply grows_bind; [|intros ?comp ?Hg]
  | |- grows _ (mbind _ _) => apply grows_other; intros ?x ?Hx
  | |- grows _ (add_instruction _ _ _ _ _) => apply grows_add
  | |- _ => solve [auto with emits]
  end.
Ltac emits := repeat (emit_step; cbv beta iota zeta).

Lemma grows_SPARK base sl a comp : grown base comp -> grows base (SPARK sl a comp).
Proof. intros H. unfold SPARK. emits. Qed.
Lemma grows_EVAL base sl a comp : grown base comp -> grows base (EVAL sl a comp).
Proof. intros H. unfold EVAL. emits. Qed.
Lemma grows_PUSH base sl a comp : grown base comp -> grows base (PUSH sl a comp).
Proof. intros H. unfold PUSH. emits. Qed.
Lemma grows_UPDATE base sl a comp : grown base comp -> grows base (UPDATE sl a comp).
Proof. intros H. unfold UPDATE. emits. Qed.
Lemma grows_MKCAP base sl fno n comp : grown base comp -> grows base (MKCAP sl fno n comp).
Proof. intros H. unfold MKCAP. emits. Qed.
Lemma grows_RETURN base sl comp : grown base comp -> grows base (RETURN sl comp).
Proof. intros H. unfold RETURN. emits. Qed.
Lemma grows_DO base sl a comp : grown base comp -> grows base (DO sl a comp).
Proof. intros H. unfold DO. emits. Qed.
Lemma grows_SQUEEZE_to_1 base sl n comp : grown base comp -> grows base (SQUEEZE_to_1 sl n comp).
Proof. intros H. unfold SQUEEZE_to_1. emits. Qed.
Lemma grows_pop_push base n s comp : grown base comp -> grows base (pop_push n s comp).
Proof. intros H. unfold pop_push. emits. Qed.
Lemma grows_branch base comp : grown base comp -> grows base (branch comp).
Proof. intros H. unfold branch. emits. Qed.
Lemma grows_JFUN base src sl fno comp : grown base comp -> grows base (JFUN src sl fno comp).
Proof. intros H. unfold JFUN. emits. Qed.
#[export] Hint Resolve grows_SPARK grows_EVAL grows_PUSH grows_UPDATE grows_MKCAP grows_RETURN grows_DO grows_SQUEEZE_to_1
  grows_pop_push grows_branch grows_JFUN : emits.

Lemma grows_eval_args base sl vs : forall comp, grown base comp -> grows base (eval_args sl vs comp).
Proof. induction vs as [|v vs IH]; intros comp H; cbn [eval_args]; emits. Qed.
Lemma grows_BIF base sl bif comp : grown base comp -> grows base (BIF sl bif comp).
Proof. intros H. unfold BIF. emits. by apply grows_eval_args. Qed.
#[export] Hint Resolve grows_BIF : emits.

Lemma jumps_JFALSE base sl comp : grown base comp -> jumps base (JFALSE sl comp).
Proof.
  intros H comp' addr E. unfold JFALSE in E. outcome_inv. subst.
  assert (grown base v) as Hv by (by eapply grows_EVAL in Hm). split; [|by apply grown_count].
  eapply grows_add in Hm0; [exact Hm0 | done | done].
Qed.
Lemma jumps_JEQ base sl v comp : grown base comp -> jumps base (JEQ sl v comp).
Proof.
  intros H comp' addr E. unfold JEQ in E. outcome_inv. subst.
  assert (grown base v0) as Hv by (by eapply grows_EVAL in Hm). split; [|by apply grown_count].
  eapply grows_add in Hm0; [exact Hm0 | done | done].
Qed.
Lemma jumps_JUMP base sl comp : grown base comp -> jumps base (JUMP sl comp).
Proof.
  intros H comp' addr E. unfold JUMP in E. outcome_inv. subst. split; [|by apply grown_count].
  eapply grows_add in Hm; [exact Hm | done | done].
Qed.
#[export] Hint Resolve jumps_JFALSE jumps_JEQ jumps_JUMP : emits.

Lemma grows_domkframe base fuel src : forall sl fno n comp, grown base comp -> grows base (domkframe fuel src sl fno n comp).
Proof. induction fuel as [|fuel IH]; intros sl fno n comp H; cbn [domkframe]; emits; auto using grows_MKCAP. Qed.
#[export] Hint Resolve grows_domkframe : emits.

(** ** Schemes *)

(** A scheme that appends to any code it is given. *)
Definition appends (f : compilation -> snode -> pmap -> Z -> outcome compilation) : Prop :=
  forall base comp c pm n, grown base comp -> grows base (f comp c pm n).

Section schemes.
Context (src : source) (mkfuel : nat) (C E : compilation -> snode -> pmap -> Z -> outcome compilation).
Context (HC : appends C) (HE : appends E).

Lemma grows_C base comp c pm n : grown base comp -> grows base (C comp c pm n).
Proof using HC. apply HC. Qed.
Lemma grows_E base comp c pm n : grown base comp -> grows base (E comp c pm n).
Proof using HE. apply HE. Qed.
#[local] Hint Resolve grows_C grows_E : emits.

Lemma grows_direct base strictcontext bs : forall pm n comp, grown base comp ->
  forall comp' rest m, Cletrec_direct E strictcontext bs pm n comp = Done (comp', rest, m) -> grown base comp'.
Proof using HE.
  induction bs as [|rec bs IH]; intros pm n comp H comp' rest m; cbn [Cletrec_direct]; [by intros [= -> _ _]|].
  destruct (direct strictcontext rec bs); [|by intros [= -> _ _]]. intros (c1 & E1 & H1)%bind_Done_inv.
  eapply IH; [|exact H1]. by eapply HE.
Qed.

Lemma grows_alloc base strictcontext bs : forall pm n comp, grown base comp ->
  grows base (Cletrec_alloc C E strictcontext bs pm n comp).
Proof using HC HE. induction bs as [|rec bs IH]; intros pm n comp H; cbn [Cletrec_alloc]; emits; auto using grows_UPDATE. Qed.

Lemma grows_Cletrec base bs n pm strictcontext comp : grown base comp -> grows base (Cletrec C E bs n pm strictcontext comp).
Proof using HC HE.
  intros H comp' E1. unfold Cletrec in E1. apply bind_Done_inv in E1 as ([[c1 rest] m] & E1 & E2).
  apply grows_direct with (base := base) in E1; [|done]. revert comp' E2. change (grows base (match rest with [] => Done c1 | rec :: _ =>
    comp ← add_instruction c1 (node_sl (lr_value rec)) OP_ALLOC (Z.of_nat (length rest)) 0;
    Cletrec_alloc C E strictcontext rest pm (m + Z.of_nat (length rest)) comp end)). emits. by apply grows_alloc.
Qed.

Lemma grows_push_args base args : forall pm n comp, grown base comp -> grows base (push_args C E args pm n comp).
Proof using HC HE. induction args as [|[a st] args IH]; intros pm n comp H; cbn [push_args]; emits; auto. Qed.
Lemma grows_push_args_C base args : forall pm n comp, grown base comp -> grows base (push_args_C C args pm n comp).
Proof using HC. induction args as [|[a st] args IH]; intros pm n comp H; cbn [push_args_C]; emits; auto. Qed.
#[local] Hint Resolve grows_Cletrec grows_push_args grows_push_args_C : emits.

Lemma grows_S base sl exprs pm n comp : grown base comp -> grows base (S_ C E sl exprs pm n comp).
Proof using HC HE. intros H. unfold S_. emits. Qed.
#[local] Hint Resolve grows_S : emits.

Lemma grows_E_if base cond t f pm n comp : grown base comp -> grows base (E_if E cond t f pm n comp).
Proof using HE. intros H. unfold E_if. emits. Qed.
Lemma grows_E_call base c fno k pm n comp : grown base comp -> grows base (E_call src mkfuel C E c fno k pm n comp).
Proof using HC HE. intros H. unfold E_call. emits. Qed.
Lemma grows_E_seq base e1 e2 pm n comp : grown base comp -> grows base (E_seq E e1 e2 pm n comp).
Proof using HE. intros H. unfold E_seq. emits. Qed.
#[local] Hint Resolve grows_E_if grows_E_call grows_E_seq : emits.

Lemma grows_E_application base c pm n comp : grown base comp -> grows base (E_application src mkfuel C E c pm n comp).
Proof using HC HE. intros H. unfold E_application. emits. Qed.
Lemma grows_C_application base c pm n comp : grown base comp -> grows base (C_application src mkfuel C c pm n comp).
Proof using HC. intros H. unfold C_application. emits. Qed.

Lemma grows_letrec_body base rec_ strictcontext sl bs b pm n comp : appends rec_ -> grown base comp ->
  grows base (letrec_body C E rec_ strictcontext sl bs b pm n comp).
Proof using HC HE. intros Hr H. unfold letrec_body. emits. Qed.

Lemma grows_Ccons base c pm n comp : grown base comp -> grows base (Ccons C E c pm n comp).
Proof using HC HE. intros H. unfold Ccons. emits. Qed.
Lemma grows_R_builtin base sl bif args pm n comp : grown base comp -> grows base (R_builtin src mkfuel C E sl bif args pm n comp).
Proof using HC HE. intros H. unfold R_builtin, S2. emits. Qed.
#[local] Hint Resolve grows_Ccons grows_R_builtin : emits.

Lemma grows_R_application base R c pm n comp : appends R -> grown base comp ->
  grows base (R_application src mkfuel C E R c pm n comp).
Proof using HC HE.
  intros HR H. assert (forall base comp c pm n, grown base comp -> grows base (R comp c pm n)) as HR' by apply HR.
  unfold R_application, R_saturated, R_if, R_seq, SPARK_EVAL_DO, constant_app. emits.
Qed.
End schemes.

Lemma schemes_append fuel mkfuel src : appends (C fuel mkfuel src) /\ appends (E fuel mkfuel src).
Proof.
  induction fuel as [|fuel [IHC IHE]]; [by split|]. split; intros base comp c pm n H; cbn [C E].
  - destruct c; emits; auto using grows_C_application, grows_letrec_body.
  - destruct c; emits; auto using grows_E_application, grows_letrec_body; by apply IHC.
Qed.

Lemma R_appends fuel mkfuel src : appends (R fuel mkfuel src).
Proof.
  induction fuel as [|fuel IH]; [done|]. destruct (schemes_append fuel mkfuel src) as [HC HE].
  intros base comp c pm n H. cbn [R].
  destruct c; emits; try (by apply HC); auto using grows_R_application, grows_Cletrec.
Qed.

(** ** The optimiser *)

Lemma jeq_loop1_inner fuel arg0 : forall dest code ms out rest, Forall inner code ->
  jeq_loop1 fuel arg0 dest code = (ms, out, rest) -> Forall inner out /\ Forall inner rest.
Proof.
  induction fuel as [|fuel IH]; intros dest code ms out rest H; cbn [jeq_loop1]; [by intros [= <- <- <-]|].
  destruct code as [|a [|b [|c code]]]; try (by intros [= <- <- <-]). destruct (_ && _); [|by intros [= <- <- <-]].
  destruct (jeq_loop1 fuel arg0 (dest + 1) code) as [[ms1 out1] rest1] eqn:E. intros [= <- <- <-].
  rewrite !Forall_cons in H. destruct H as (_ & _ & Hc & H). destruct (IH _ _ _ _ _ H E). split; [by constructor | done].
Qed.

Lemma jeq_loop2_inner fuel arg0 : forall dest code ms out rest, Forall inner code ->
  jeq_loop2 fuel arg0 dest code = (ms, out, rest) -> Forall inner out /\ Forall inner rest.
Proof.
  induction fuel as [|fuel IH]; intros dest code ms out rest H; cbn [jeq_loop2]; [by intros [= <- <- <-]|].
  destruct code as [|a [|b [|c [|d code]]]]; try (by intros [= <- <- <-]). destruct (_ && _); [|by intros [= <- <- <-]].
  destruct (jeq_loop2 fuel arg0 (dest + 1) code) as [[ms1 out1] rest1] eqn:E. intros [= <- <- <-].
  rewrite !Forall_cons in H. destruct H as (_ & _ & _ & Hd & H). destruct (IH _ _ _ _ _ H E). split; [by constructor | done].
Qed.

(** A rule of the optimiser in front of the rest of a pass. *)
Lemma emit_inner ms is_ ch (r : outcome pass_result) : Forall inner is_ ->
  (forall v, r = Done v -> Forall inner (pr_code v)) ->
  forall v, (x ← r; Done (emit ms is_ ch x)) = Done v -> Forall inner (pr_code v).
Proof. intros Hi Hr v (x & Hx & [= <-])%bind_Done_inv. cbn. apply Forall_app. split; [done | by apply Hr]. Qed.

Lemma pass_inner fuel : forall dest code r, Forall inner code -> pass fuel dest code = Done r -> Forall inner (pr_code r).
Proof.
  induction fuel as [|fuel IH]; intros dest code r H E; [done|]. cbn [pass] in E.
  destruct code as [|a rest]; [injection E as <-; by constructor|].
  set (single := match jeq_chain1 (a :: rest), jeq_chain2 (a :: rest), rest with | Some arg0, _, b :: rest => _ | _, _, _ => _ end) in E.
  assert (forall r, single = Done r -> Forall inner (pr_code r)) as Hsingle.
  { subst single. clear E r. intros r. pose proof H as [Ha Hr]%Forall_cons.
    assert (forall r, (if is_op OP_POP a then r ← pass fuel dest rest; Done (emit [dest] [] false r)
      else r ← pass fuel (dest + 1) rest; Done (emit [dest] [a] false r)) = Done r -> Forall inner (pr_code r)) as Hone.
    { clear r. intros r E. destruct (is_op OP_POP a); (eapply emit_inner; [| |exact E]; [by repeat constructor | eauto]). }
    destruct (jeq_chain1 (a :: rest)) as [arg0|]; [|destruct (jeq_chain2 (a :: rest)) as [arg0|]; [|exact (Hone r)]].
    - destruct rest as [|b rest]; [exact (Hone r)|]. apply Forall_cons in Hr as [Hb Hr].
      destruct (jeq_loop1 (length rest) arg0 (dest + 2) rest) as [[ms out] rest1] eqn:E1.
      destruct (jeq_loop1_inner _ _ _ _ _ _ _ Hr E1) as [Ho Hr1]. apply emit_inner; [by repeat constructor | eauto].
    - destruct rest as [|b [|c rest]]; try exact (Hone r). rewrite !Forall_cons in Hr. destruct Hr as (Hb & Hc & Hr).
      destruct (jeq_loop2 (length rest) arg0 (dest + 3) rest) as [[ms out] rest1] eqn:E1.
      destruct (jeq_loop2_inner _ _ _ _ _ _ _ Hr E1) as [Ho Hr1]. apply emit_inner; [by repeat constructor | eauto]. }
  clearbody single. destruct rest as [|b rest2]; [by apply Hsingle|]. rewrite !Forall_cons in H. destruct H as (Ha & Hb & Hr).
  destruct (spark_eval a b); [|destruct (mkframe_eval a b); [|destruct (squeeze_return a b); [|destruct (bif_jfalse a b)]]];
    try (by apply Hsingle); try (apply (bind_Done_inv (cassert _)) in E as (_ & _ & E));
    (eapply emit_inner; [| |exact E]; [by repeat constructor | by eauto using Forall_cons_2]).
Qed.

Lemma remap_all_inner start m : forall code code', Forall inner code -> remap_all start m code = Done code' -> Forall inner code'.
Proof.
  induction code as [|i code IH]; intros code' H E; cbn [remap_all] in E; outcome_inv; subst; [by constructor|].
  apply Forall_cons in H as [Hi H]. constructor; [|by apply IH]. unfold remap in Hm. destruct (is_jump _); outcome_inv; by subst.
Qed.

Lemma passes_inner fuel start : forall code code', Forall inner code -> passes fuel start code = Done code' -> Forall inner code'.
Proof.
  induction fuel as [|fuel IH]; intros code code' H E; cbn [passes] in E; [done|].
  apply bind_Done_inv in E as (r & Hr & E). apply bind_Done_inv in E as (code1 & H1 & E).
  apply pass_inner in Hr; [|done]. apply remap_all_inner in H1; [|done].
  destruct (pr_changed r); [by eapply IH | by injection E as <-].
Qed.

Lemma absolute_inner start count : forall code addr code', Forall inner code -> absolute start count addr code = Done code' -> Forall inner code'.
Proof.
  induction code as [|i code IH]; intros addr code' H E; cbn [absolute] in E; outcome_inv; subst; [by constructor|].
  apply Forall_cons in H as [Hi H]. constructor; [|by eapply IH]. destruct (is_jump _); outcome_inv; by subst.
Qed.

Lemma relative_inner start count : forall code addr code', Forall inner code -> relative start count addr code = Done code' -> Forall inner code'.
Proof.
  induction code as [|i code IH]; intros addr code' H E; cbn [relative] in E; outcome_inv; subst; [by constructor|].
  apply Forall_cons in H as [Hi H]. constructor; [|by eapply IH]. destruct (is_jump _); outcome_inv; by subst.
Qed.

Lemma peephole_grown start comp comp' base : start = code_count base -> grown base comp -> peephole start comp = Done comp' ->
  grown base comp'.
Proof.
  intros -> (l & E & Hl) Hp. unfold peephole, code_count in Hp. apply bind_Done_inv in Hp as (body & Hb & Hp). injection Hp as <-.
  exists body. cbn. rewrite Nat2Z.id, E in *. rewrite take_app_length. rewrite drop_app_length in Hb. split; [done|].
  unfold peephole_body in Hb. outcome_inv. by eapply relative_inner, Hb; eapply passes_inner, Hm0; eapply absolute_inner, Hm.
Qed.
