(* ===== verification/ProgramFacts.v ===== *)
(** * Compiling a program

    The functions around the schemes put the pieces together: every function of
    the program and every built-in gets a piece of code that starts with its
    entry, the function table says where it is, and the stack sizes computed at
    the end cover what each function uses. *)

From S2P Require Import Prelude CString Builtins Util Source Resolve Double Bytecode Peephole StackDiscipline Schemes SchemeR PeepholeFacts Compile CompileFacts Emits.

#[local] Set Warnings "-clear-no-such-hyp".

(** ** Entries *)

Definition entry_of (i : instruction) : option Z := if decide (i_opcode i = OP_GLOBSTART) then Some (i_arg0 i) else None.

(** The functions whose entries are in a piece of code, in order. *)
Definition entries (l : list instruction) : list Z := omap entry_of l.

Lemma entries_app l1 l2 : entries (l1 ++ l2) = entries l1 ++ entries l2.
Proof. apply omap_app. Qed.

Lemma entries_inner l : Forall inner l -> entries l = [].
Proof.
  induction 1 as [|i l Hi _ IH]; [done|]. unfold entries. cbn. unfold entry_of. rewrite decide_False by done. apply IH.
Qed.

Lemma entries_grown comp comp' : grown comp comp' -> entries (instructions comp') = entries (instructions comp).
Proof. intros (l & -> & H). by rewrite entries_app, (entries_inner l H), app_nil_r. Qed.

(** The code of the function [fno] at [start], with its row of the table. *)
Record function_code (fno nargs start : nat) (code : list instruction) (fi : funinfo) : Prop := {
  fc_start : exists g rest, code = g :: rest /\ i_opcode g = OP_GLOBSTART /\ i_arg0 g = Z.of_nat fno /\
    i_arg1 g = Z.of_nat nargs /\ Forall inner rest;
  fc_address : fi_address fi = Z.of_nat start;
  fc_order : (fi_address fi <= fi_addressne fi <= fi_addressed fi)%Z /\ (fi_addressed fi < Z.of_nat (start + length code))%Z;
  fc_arity : fi_arity fi = Z.of_nat nargs
}.

(** The error address holds the instruction that reports an error. *)
Definition error_ready (p : program) : Prop :=
  exists i, instructions (p_comp p) !! Z.to_nat (p_erroraddr p) = Some i /\ i_opcode i = OP_ERROR.

(** The program has code for the function. *)
Definition laid_out (p : program) (fno nargs : nat) : Prop :=
  exists pre code post fi, instructions (p_comp p) = pre ++ code ++ post /\ p_finfo p !! fno = Some fi /\
    function_code fno nargs (length pre) code fi.

(** [p'] is [p] with the code of one more function. *)
Definition adds_function (p : program) (fno nargs : nat) (p' : program) : Prop :=
  exists code fi, instructions (p_comp p') = instructions (p_comp p) ++ code /\ p_finfo p' = <[fno := fi]> (p_finfo p) /\
    p_erroraddr p' = p_erroraddr p /\ function_code fno nargs (length (instructions (p_comp p))) code fi.

Lemma function_entries fno nargs start code fi : function_code fno nargs start code fi -> entries code = [Z.of_nat fno].
Proof.
  intros H. destruct (fc_start _ _ _ _ _ H) as (g & rest & -> & Hg & Ha & _ & Hr). unfold entries. cbn.
  unfold entry_of at 1. rewrite decide_True by done. rewrite Ha. f_equal. by apply entries_inner.
Qed.

Lemma adds_entries p fno nargs p' : adds_function p fno nargs p' ->
  entries (instructions (p_comp p')) = entries (instructions (p_comp p)) ++ [Z.of_nat fno] /\ length (p_finfo p') = length (p_finfo p).
Proof.
  intros (code & fi & -> & -> & _ & H). rewrite entries_app, (function_entries _ _ _ _ _ H). split; [done | apply length_insert].
Qed.

Lemma adds_laid_out p fno nargs p' : fno < length (p_finfo p) -> adds_function p fno nargs p' -> laid_out p' fno nargs.
Proof.
  intros Hlt (code & fi & E & Ef & _ & H). exists (instructions (p_comp p)), code, [], fi. rewrite app_nil_r, Ef.
  split_and!; [done | by apply list_lookup_insert_eq | done].
Qed.

Lemma adds_keeps p fno nargs p' fno' nargs' : fno' <> fno -> adds_function p fno nargs p' -> laid_out p fno' nargs' -> laid_out p' fno' nargs'.
Proof.
  intros Hne (code & fi & E & Ef & _ & H) (pre & code' & post & fi' & E' & Hf & H'). exists pre, code', (post ++ code), fi'.
  rewrite E, E', Ef, <- !app_assoc. split_and!; [done | by rewrite list_lookup_insert_ne | done].
Qed.

(** ** The entry of a function *)

Lemma F_entry_grown fno sc comp comp' ne ed : F_entry fno sc comp = Done (comp', ne, ed) ->
  exists g rest, instructions comp' = instructions comp ++ g :: rest /\ i_opcode g = OP_GLOBSTART /\ i_arg0 g = fno /\
    i_arg1 g = Z.of_nat (sc_nargs sc) /\ Forall inner rest.
Proof.
  assert (forall f todo base comp, (forall a base comp, grown base comp -> grows base (f a comp)) -> grown base comp ->
    grows base (for_args f todo comp)) as Hfor.
  { intros f todo base. induction todo as [|i todo IH]; intros c Hf Hg; cbn [for_args]; [by apply grows_Done|].
    apply grows_bind; [by apply Hf|]. intros c' Hc'. by apply IH. }
  unfold F_entry. destruct (sc_nospark sc).
  - intros E. outcome_inv. subst.
    match goal with H : add_instruction _ _ _ _ _ = Done _ |- _ => apply add_instruction_grown in H as (i & -> & ? & ? & ?) end.
    by exists i, [].
  - intros E. outcome_inv. subst.
    apply add_instruction_grown in Hm as (i & Ei & ? & ? & ?).
    apply (Hfor (SPARK (sc_sl sc)) _ v) in Hm1; [|by auto using grows_SPARK | apply grown_refl].
    apply (Hfor (EVAL (sc_sl sc)) _ v) in Hm2; [|by auto using grows_EVAL | done].
    destruct Hm2 as (l & El & Hl). exists i, l. rewrite El, Ei. cbn. by rewrite <- app_assoc.
Qed.

(** One function after the other. *)
Inductive adds_functions : program -> list (nat * nat) -> program -> Prop :=
| af_nil p : adds_functions p [] p
| af_cons p fno nargs p1 l p' : fno < length (p_finfo p) -> adds_function p fno nargs p1 -> adds_functions p1 l p' ->
    adds_functions p ((fno, nargs) :: l) p'.

Lemma adds_functions_entries p l p' : adds_functions p l p' ->
  entries (instructions (p_comp p')) = entries (instructions (p_comp p)) ++ map (fun f => Z.of_nat f.1) l /\
  length (p_finfo p') = length (p_finfo p).
Proof.
  induction 1 as [p|p fno nargs p1 l p' Hlt H1 H2 [IH IHl]]; [by rewrite app_nil_r|].
  destruct (adds_entries _ _ _ _ H1) as [E El]. rewrite IH, E, <- app_assoc. cbn. split; [done | congruence].
Qed.

Lemma adds_functions_keep p l p' fno nargs : adds_functions p l p' -> fno ∉ map fst l -> laid_out p fno nargs -> laid_out p' fno nargs.
Proof.
  induction 1 as [p|p f n p1 l p' Hlt H1 H2 IH]; [done|]. cbn. rewrite not_elem_of_cons. intros [Hne Hn] Hl.
  apply IH; [done|]. by eapply adds_keeps.
Qed.

Lemma adds_functions_laid p l p' : adds_functions p l p' -> NoDup (map fst l) ->
  forall fno nargs, (fno, nargs) ∈ l -> laid_out p' fno nargs.
Proof.
  induction 1 as [p|p f n p1 l p' Hlt H1 H2 IH]; cbn; [intros; in_nil|]. rewrite NoDup_cons. intros [Hn Hnd] fno nargs.
  rewrite elem_of_cons. intros [[= -> ->]|Hin]; [|by apply IH].
  eapply adds_functions_keep; [done | done | by eapply adds_laid_out].
Qed.

(** The functions of the program from position [n] on. *)
Definition function_row (src : source) (i q : nat) : nat * nat :=
  (NUM_BUILTINS + i, match src_heap src !! q with Some sc => sc_nargs sc | None => 0 end).

(** ** Built-ins *)

Lemma for_SPARK_positions todo comp s : comp_si comp = Some (Stackinfo s false) -> st_ok s -> Forall (fun i => i < length s) todo ->
  exists comp' s', for_args (SPARK nosl) todo comp = Done comp' /\ holds comp' [] (length s) s'.
Proof.
  intros Hsi Hok Ht. destruct (for_SPARK_ok nosl todo comp s Hsi Hok Ht) as (c & s' & E & Haf & Hok' & Hl).
  exists c, s'. split; [done|]. split; [apply Haf | done | | done]. intros i x Hi. by rewrite lookup_nil in Hi.
Qed.

Lemma RETURN_total comp s sl : comp_si comp = Some (Stackinfo s false) -> exists comp', RETURN sl comp = Done comp'.
Proof. intros H. unfold RETURN, add_instruction. rewrite H. cbn. by eexists. Qed.

Lemma builtin_call_total i bi comp : builtin_info !! i = Some bi ->
  comp_si comp = Some (Stackinfo (replicate (bi_nargs bi) STATUS_UNKNOWN) false) -> exists comp', builtin_call i bi comp = Done comp'.
Proof.
  intros Hb Hsi. unfold builtin_call. pose proof (builtin_nstrict_le _ _ Hb) as Hn.
  destruct (for_SPARK_positions (seq 0 (bi_nstrict bi)) comp _ Hsi) as (c1 & s1 & -> & H1).
  { apply Forall_replicate. status_lia. }
  { apply Forall_seq. intros v Hv. rewrite length_replicate. lia. }
  cbn [mbind outcome_bind]. rewrite length_replicate in H1. pose proof (BIF_ok c1 [] s1 nosl i bi Hb H1) as Hl.
  destruct (BIF nosl i c1) as [c2| |]; [|by destruct Hl as (? & ? & ? & _)..]. cbn [mbind outcome_bind].
  destruct (bi_reswhnf bi).
  - destruct Hl as (c2' & s2 & [= <-] & Haf & _). cbn [mbind outcome_bind]. eapply RETURN_total, Haf.
  - apply (leaves_EVAL c1 [] _ (Done c2) nosl) in Hl. cbn [mbind outcome_bind] in Hl. destruct Hl as (c3 & s3 & -> & Haf & _).
    cbn [mbind outcome_bind]. eapply RETURN_total, Haf.
Qed.

Lemma builtin_if_total comp : comp_si comp = Some (Stackinfo [STATUS_UNKNOWN; STATUS_UNKNOWN; STATUS_UNKNOWN] false) ->
  exists comp', builtin_if comp = Done comp'.
Proof. destruct comp as [is_ sm si]. cbn [comp_si]. intros ->. eexists. vm_compute. reflexivity. Qed.

Lemma grows_builtin_code (i : nat) bi base comp : grown base comp ->
  grows base (if Nat.eqb i B_IF then builtin_if comp else builtin_call i bi comp).
Proof.
  assert (forall todo comp, grown base comp -> grows base (for_args (SPARK nosl) todo comp)) as Hfor.
  { induction todo as [|a todo IH]; intros c H; cbn [for_args]; emits. }
  intros H. destruct (Nat.eqb i B_IF); [unfold builtin_if | unfold builtin_call]; emits; by apply Hfor.
Qed.

Lemma compile_builtin_adds i bi p : builtin_info !! i = Some bi -> i < length (p_finfo p) ->
  exists p', compile_builtin i p = Done p' /\ adds_function p i (bi_nargs bi) p'.
Proof.
  intros Hb Hlt. unfold compile_builtin. rewrite Hb. cbn [deref mbind outcome_bind].
  set (comp := push_statuses _ _). destruct (add_string_code comp (bi_name bi)) as [Ei Es].
  destruct (add_string comp (bi_name bi)) as [comp1 namepos]. cbn [fst] in Ei, Es.
  unfold get_finfo, set_finfo. rewrite (proj2 (Z.leb_le _ _)) by lia. cbn [cassert mbind outcome_bind]. rewrite Nat2Z.id.
  destruct (lookup_lt_is_Some_2 _ _ Hlt) as [fi0 ->]. cbn [deref mbind outcome_bind].
  rewrite (proj2 (Z.ltb_lt _ _)) by lia. cbn [andb cassert mbind outcome_bind].
  destruct (add_instruction comp1 nosl OP_GLOBSTART (Z.of_nat i) (Z.of_nat (bi_nargs bi))) as [comp2| |] eqn:E2;
    [|by unfold add_instruction in E2; rewrite Es in E2..].
  cbn [mbind outcome_bind]. apply add_instruction_grown in E2 as Hg. destruct Hg as (g & Eg & ? & ? & ?).
  assert (comp_si comp2 = Some (Stackinfo (replicate (bi_nargs bi) STATUS_UNKNOWN) false)) as Hsi.
  { unfold add_instruction in E2. rewrite Es in E2. cbn in E2. by injection E2 as <-. }
  assert (exists comp3, (if Nat.eqb i B_IF then builtin_if comp2 else builtin_call i bi comp2) = Done comp3) as [comp3 E3].
  { destruct (Nat.eqb_spec i B_IF) as [->|_]; [|by apply builtin_call_total].
    apply builtin_if_total. rewrite Hsi. vm_compute in Hb. by injection Hb as <-. }
  rewrite E3. cbn [mbind outcome_bind]. apply grows_builtin_code with (base := comp2) in E3 as (l & El & Hl); [|apply grown_refl].
  eexists. split; [reflexivity|]. exists (g :: l). eexists. cbn [p_comp p_finfo set_comp]. rewrite El, Eg, Ei, <- app_assoc.
  split_and!; [done | done | done |]. unfold comp, code_count. cbn. split; cbn; try done; [by exists g, l | lia].
Qed.

Definition builtin_row (i : nat) : nat * nat := (i, match builtin_info !! i with Some b => bi_nargs b | None => 0 end).

Lemma compile_builtins_loop_adds todo : Forall (fun i => i < NUM_BUILTINS) todo -> forall p, NUM_BUILTINS <= length (p_finfo p) ->
  exists p', compile_builtins_loop todo p = Done p' /\ adds_functions p (map builtin_row todo) p'.
Proof.
  induction 1 as [|i todo Hi Ht IH]; intros p Hlen; cbn [compile_builtins_loop]; [exists p; split; [done | constructor]|].
  destruct (lookup_lt_is_Some_2 builtin_info i) as [bi Hb]; [by rewrite NUM_BUILTINS_length|].
  destruct (compile_builtin_adds i bi p Hb) as (p1 & -> & H1); [lia|]. cbn [mbind outcome_bind].
  destruct (adds_entries _ _ _ _ H1) as [_ Hl]. destruct (IH p1) as (p' & -> & H'); [lia|].
  exists p'. split; [done|]. cbn [map]. unfold builtin_row at 1. rewrite Hb. econstructor; [lia | exact H1 | exact H'].
Qed.

(** ** EVAL/DO sequences *)

Definition evaldo_code (i : nat) : list instruction :=
  [Instruction OP_EVAL (Z.of_nat i - 1) 0 (sl_fileno nosl) (sl_lineno nosl) (Z.of_nat i);
   Instruction OP_DO 0 0 (sl_fileno nosl) (sl_lineno nosl) (Z.of_nat i)].

Lemma evaldo_step i comp : 0 < i -> exists comp', (comp ← EVAL nosl 0 (push_statuses (replicate i STATUS_UNKNOWN) comp); DO nosl 0 comp) = Done comp' /\
  instructions comp' = instructions comp ++ evaldo_code i.
Proof.
  intros Hi. unfold EVAL, top_pos, the_si, push_statuses. cbn [set_si comp_si deref mbind outcome_bind].
  unfold si_count. cbn [si_status]. rewrite length_replicate.
  rewrite (statusat_ok _ _ _ STATUS_UNKNOWN); [|lia | apply lookup_replicate; split; [done | lia]].
  cbn [mbind outcome_bind]. rewrite (proj2 (Z.ltb_lt _ _)) by (cbv; done).
  unfold add_instruction. cbn [set_si comp_si si_invalid negb cassert mbind outcome_bind si_step].
  rewrite setstatusat_ok by (rewrite length_replicate; lia). unfold DO, add_instruction, si_count.
  cbn [mbind outcome_bind comp_si si_invalid negb cassert si_step si_status instructions set_si]. rewrite length_insert, length_replicate.
  eexists. split; [reflexivity|]. cbn [instructions]. rewrite <- app_assoc. cbn. unfold evaldo_code. replace (Z.of_nat i - 1 - 0)%Z with (Z.of_nat i - 1)%Z by lia. done.
Qed.

Lemma evaldo_loop_ok base m : forall k comp, 0 < k -> code_count comp = (base + Z.of_nat (k - 1) * 2)%Z ->
  exists comp', evaldo_loop base (seq k m) comp = Done comp' /\
    instructions comp' = instructions comp ++ concat (map evaldo_code (seq k m)).
Proof.
  induction m as [|m IH]; intros k comp Hk Hc; cbn [seq evaldo_loop].
  { exists comp. by rewrite app_nil_r. }
  destruct (evaldo_step k comp Hk) as (c1 & E1 & Ei). apply bind_Done_inv in E1 as (c0 & E0 & E1). rewrite E0. cbn [mbind outcome_bind].
  rewrite E1. cbn [mbind outcome_bind].
  assert (code_count c1 = (base + Z.of_nat k * 2)%Z) as Hc1.
  { unfold code_count in *. rewrite Ei, length_app. cbn. lia. }
  rewrite (proj2 (Z.eqb_eq _ _) Hc1). cbn [cassert mbind outcome_bind].
  destruct (IH (S k) c1) as (c' & -> & E'); [lia | rewrite Hc1; lia |]. exists c'. split; [done|].
  rewrite E', Ei, <- app_assoc. done.
Qed.

Lemma evaldo_inner l : Forall inner (concat (map evaldo_code l)).
Proof. induction l as [|i l IH]; [by constructor|]. by repeat constructor. Qed.

(** The sequence for depth [i] is where the runtime looks for it. *)
Lemma evaldo_lookup m i d : i < m -> d < 2 -> concat (map evaldo_code (seq 1 m)) !! (2 * i + d) = evaldo_code (S i) !! d.
Proof.
  intros Hi Hd. assert (forall k, concat (map evaldo_code (seq k m)) !! (2 * i + d) = evaldo_code (k + i) !! d) as H; [|exact (H 1)].
  revert i Hi. induction m as [|m IH]; intros i Hi k; [lia|]. cbn [seq map concat].
  destruct i as [|i]; [rewrite Nat.add_0_r; destruct d as [|[|d]]; [done | done | lia]|].
  replace (2 * S i + d) with (S (S (2 * i + d))) by lia. 
  change (concat (map evaldo_code (seq (S k) m)) !! (2 * i + d) = evaldo_code (k + S i) !! d). rewrite IH by lia. by rewrite Nat.add_succ_r.
Qed.

Lemma set_finfo_error fno fi p p' : set_finfo fno fi p = Done p' -> p_erroraddr p' = p_erroraddr p.
Proof. unfold set_finfo. intros (u & _ & E)%bind_Done_inv. by injection E as <-. Qed.

Lemma F_error fuel mkfuel src fno sc p p' : F fuel mkfuel src fno sc p = Done p' -> p_erroraddr p' = p_erroraddr p.
Proof.
  unfold F. intros (body & _ & E)%bind_Done_inv. apply bind_Done_inv in E as (name & _ & E).
  destruct (add_string (p_comp p) name) as [comp namepos]. apply bind_Done_inv in E as ([[c1 ne] ed] & _ & E).
  do 3 apply bind_Done_inv in E as (? & _ & E). apply bind_Done_inv in E as (p1 & H & E).
  injection E as <-. cbn [p_erroraddr]. exact (set_finfo_error _ _ _ _ H).
Qed.

(** ** Functions of the program *)

Section program.
Context (fuel mkfuel : nat) (src : source).

(** What the passes hand to the compiler: every supercombinator is ready, its
    body can be compiled in front of its own arguments, its name can be read
    back, and the fuel covers its depth. *)
Record compilable (q : nat) (sc : scomb) : Prop := {
  cp_ready : exists body st, sc_ready mkfuel src q sc body st /\ rbody src (arg_pmap (sc_argnames sc)) (sc_nargs sc) body /\
    2 * snode_size body <= fuel;
  cp_name : exists name, real_scname src (sc_name sc) = Done name
}.

Hypothesis Hmk : 0 < mkfuel.
Hypothesis Hsrc : forall q, q ∈ src_scombs src -> exists sc, compilable q sc.

Lemma all_ready : src_ready mkfuel src.
Proof using Hsrc.
  intros q Hq. destruct (Hsrc q Hq) as (sc & (body & st & Hr & _) & _). by exists sc, body, st.
Qed.

Lemma F_adds q sc p : compilable q sc -> NUM_BUILTINS + sc_index sc < length (p_finfo p) ->
  exists p', F fuel mkfuel src (Z.of_nat (NUM_BUILTINS + sc_index sc)) sc p = Done p' /\
    adds_function p (NUM_BUILTINS + sc_index sc) (sc_nargs sc) p'.
Proof using Hmk Hsrc.
  intros [(body & st & Hr & Hb & Hf) (name & Hn)] Hlt.
  destruct (F_ok fuel mkfuel src q sc body st p name Hmk all_ready Hr Hb Hf Hn Hlt)
    as (p' & entry & body' & fi & E & Ei & Hc & Ef & Ha & Ho & Hd & Har & _).
  exists p'. split; [done|]. exists (entry ++ body'), fi.
  pose proof (F_error _ _ _ _ _ _ _ E) as Eerr.
  split_and!; [done | done | done |].
  split; [| exact Ha | | exact Har].
  - clear Hc Ha Ho Hd Har Ef. unfold F in E. destruct (add_string_code (p_comp p) name) as [E1 _].
    rewrite Hn, (sr_body _ _ _ _ _ _ Hr) in E. cbn [deref mbind outcome_bind] in E.
    destruct (add_string (p_comp p) name) as [comp namepos]. cbn [fst] in E1.
    apply bind_Done_inv in E as ([[c1 ne] ed] & HF & E). outcome_inv. subst p'. cbn in Ei.
    apply F_entry_grown in HF as (g & rest & Eg & ? & ? & ? & Hrest).
    apply (R_appends fuel mkfuel src c1) in Hm0; [|apply grown_refl]. eapply peephole_grown in Hm1; [|done|exact Hm0].
    destruct Hm1 as (l & El & Hl). exists g, (rest ++ l).
    rewrite El, Eg, E1, <- app_assoc in Ei. apply app_inv_head in Ei. rewrite <- Ei.
    split_and!; try done. by apply Forall_app.
  - split; [lia|]. rewrite Hd, !length_app. destruct Hc as [Hc _]. apply final_code_pos in Hc. lia.
Qed.

Lemma compile_scombs_adds : NoDup (src_scombs src) -> forall ps n p, drop n (src_scombs src) = ps ->
  length (p_finfo p) = NUM_BUILTINS + length (src_scombs src) ->
  exists p', compile_scombs fuel mkfuel src ps p = Done p' /\ adds_functions p (imap (fun i => function_row src (n + i)) ps) p'.
Proof using Hmk Hsrc.
  intros Hnd. induction ps as [|q ps IH]; intros n p Hps Hlen; cbn [compile_scombs]; [exists p; split; [done | constructor]|].
  assert (src_scombs src !! n = Some q) as Hq.
  { pose proof (lookup_drop (src_scombs src) n 0) as H. rewrite Hps, Nat.add_0_r in H. by rewrite <- H. }
  destruct (Hsrc q) as (sc & Hc); [by eapply list_elem_of_lookup_2|]. destruct (cp_ready _ _ Hc) as (body & st & Hr & _).
  assert (sc_index sc = n) as Ei by (eapply NoDup_lookup; [exact Hnd | apply (sr_index _ _ _ _ _ _ Hr) | done]).
  unfold getsc. rewrite (sr_heap _ _ _ _ _ _ Hr). cbn [mbind outcome_bind deref]. apply lookup_lt_Some in Hq as Hlt.
  destruct (F_adds q sc p Hc) as (p1 & -> & H1); [lia|]. cbn [mbind outcome_bind].
  destruct (adds_entries _ _ _ _ H1) as [_ Hl1].
  destruct (IH (S n) p1) as (p' & -> & H'); [by rewrite (drop_S _ _ _ Hq) in Hps; injection Hps | lia |].
  exists p'. split; [done|]. cbn [imap]. unfold function_row at 1. rewrite Nat.add_0_r, (sr_heap _ _ _ _ _ _ Hr), <- Ei.
  econstructor; [lia | exact H1 |]. rewrite Ei. erewrite imap_ext; [exact H'|]. intros i x _. cbn. by rewrite Nat.add_succ_r.
Qed.

(** ** The start of the code *)

Lemma compile_prologue_ok q sc p : get_scomb src "__start" = Some q -> compilable q sc -> sc_nargs sc = 1 ->
  exists p' l, compile_prologue mkfuel src p = Done p' /\ instructions (p_comp p') = instructions (p_comp p) ++ l /\
    Forall inner l /\ p_finfo p' = p_finfo p /\ q ∈ src_scombs src /\
    error_ready p'.
Proof using Hmk Hsrc.
  intros Hq Hc Hn. destruct (cp_ready _ _ Hc) as (body & st & Hr & _). unfold compile_prologue. rewrite Hq.
  cbn [deref mbind outcome_bind]. unfold getsc. rewrite (sr_heap _ _ _ _ _ _ Hr). cbn [deref mbind outcome_bind].
  assert (q ∈ src_scombs src) as Hin by (eapply list_elem_of_lookup_2, (sr_index _ _ _ _ _ _ Hr)).
  set (sl := sc_sl sc). set (c0 := push_statuses [STATUS_UNKNOWN] (p_comp p)).
  destruct (add_instruction_ok c0 sl OP_BEGIN 0 0 [STATUS_UNKNOWN] [STATUS_UNKNOWN] eq_refl eq_refl eq_refl ltac:(done))
    as (c1 & E1 & Ha1). rewrite E1. cbn [mbind outcome_bind].
  assert (holds c1 [] 1 [STATUS_UNKNOWN]) as Hh.
  { split; [apply Ha1 | by repeat constructor | intros i x Hi; by rewrite lookup_nil in Hi | done]. }
  pose proof (domkframe_scref mkfuel src all_ready mkfuel q sc body st c1 [] 1 _ sl Hr (sr_const _ _ _ _ _ _ Hr) Hin Hh (eq_sym Hn)) as Hd.
  change (Z.of_nat 1) with 1%Z in Hd. pose proof (leaves_SPARK _ _ _ _ sl Hd) as Hs.
  pose proof (leaves_EVAL _ _ _ _ sl Hs) as He.
  destruct (domkframe mkfuel src sl (Z.of_nat (sc_index sc + NUM_BUILTINS)) 1 c1) as [c2| |] eqn:E2; [|by destruct Hd as (? & ? & ? & _)..].
  cbn [mbind outcome_bind] in *.
  destruct (SPARK sl 0 c2) as [c3| |] eqn:E3; [|by destruct Hs as (? & ? & ? & _)..]. cbn [mbind outcome_bind] in *.
  destruct (EVAL sl 0 c3) as [c4| |] eqn:E4; [|by destruct He as (? & ? & ? & _)..]. cbn [mbind outcome_bind].
  destruct He as (c4' & s4 & [= <-] & Ha4 & _).
  destruct (add_instruction_ok c4 sl OP_END 0 0 s4 s4 (af_si _ _ _ Ha4) eq_refl eq_refl ltac:(done)) as (c5 & E5 & _).
  rewrite E5. cbn [mbind outcome_bind].
  destruct (add_instruction (push_statuses [STATUS_UNKNOWN] c5) nosl OP_ERROR 0 0) as [c6| |] eqn:E6; [|by cbn in E6..].
  cbn [mbind outcome_bind].
  assert (grown c0 c5) as Hg.
  { assert (grown c0 c1) as G1 by (eapply (grows_add c0 c0) in E1; [done | done | apply grown_refl]).
    apply (grows_domkframe c0) in E2; [|done]. apply (grows_SPARK c0) in E3; [|done]. apply (grows_EVAL c0) in E4; [|done].
    by eapply (grows_add c0 c4) in E5. }
  destruct Hg as (l & El & Hl). change (instructions c0) with (instructions (p_comp p)) in El.
  destruct (add_instruction_grown _ _ _ _ _ _ E6) as (e & Ee & Eo & _). change (instructions (push_statuses _ c5)) with (instructions c5) in Ee.
  eexists _, (l ++ [e]). split; [reflexivity|]. cbn [p_comp p_finfo p_erroraddr comp_si set_si instructions].
  rewrite Ee, El, <- app_assoc. split_and!; try done.
  - apply Forall_app. split; [done|]. apply Forall_singleton. unfold inner. by rewrite Eo.
  - exists e. split; [|done]. cbn [p_comp p_erroraddr instructions set_si]. unfold code_count.
    by rewrite Nat2Z.id, Ee, lookup_app_r, Nat.sub_diag by lia.
Qed.

End program.

(** ** Stack sizes *)

Definition same_function (fi fi' : funinfo) : Prop :=
  fi_address fi' = fi_address fi /\ fi_addressne fi' = fi_addressne fi /\ fi_addressed fi' = fi_addressed fi /\
  fi_arity fi' = fi_arity fi.

(** The tables are the same but for the stack sizes of some functions. *)
Definition resized (changed : Z -> Prop) (p p' : program) : Prop :=
  p_comp p' = p_comp p /\ p_evaldoaddr p' = p_evaldoaddr p /\ p_erroraddr p' = p_erroraddr p /\
  length (p_finfo p') = length (p_finfo p) /\
  (forall i fi, p_finfo p !! i = Some fi -> exists fi', p_finfo p' !! i = Some fi' /\ same_function fi fi') /\
  (forall i, ~ changed (Z.of_nat i) -> p_finfo p' !! i = p_finfo p !! i).

Lemma same_function_trans fi1 fi2 fi3 : same_function fi1 fi2 -> same_function fi2 fi3 -> same_function fi1 fi3.
Proof. unfold same_function. intuition congruence. Qed.

Lemma resized_refl changed p : resized changed p p.
Proof. split_and!; try done. intros i fi H. by exists fi. Qed.

Lemma resized_trans (c1 c2 c : Z -> Prop) p p1 p2 : (forall z, c1 z -> c z) -> (forall z, c2 z -> c z) ->
  resized c1 p p1 -> resized c2 p1 p2 -> resized c p p2.
Proof.
  intros H1 H2 (A1 & A2 & A3 & A4 & A5 & A6) (B1 & B2 & B3 & B4 & B5 & B6). split_and!; try congruence.
  - intros i fi Hi. destruct (A5 i fi Hi) as (fi1 & Hi1 & S1). destruct (B5 i fi1 Hi1) as (fi2 & Hi2 & S2).
    exists fi2. split; [done | by eapply same_function_trans].
  - intros i Hc. rewrite B6, A6; auto.
Qed.

(** The end of a function: its largest count goes into its row. *)
Definition store_size (fno stacksize : Z) (p : program) : outcome program :=
  if (0 <=? fno)%Z then
    fi ← get_finfo fno p;
    set_finfo fno (Funinfo (fi_address fi) (fi_addressne fi) (fi_addressed fi) (fi_arity fi) stacksize (fi_name fi)) p
  else Done p.

Lemma store_size_ok fno s p : (fno < Z.of_nat (length (p_finfo p)))%Z ->
  exists p', store_size fno s p = Done p' /\ resized (eq fno) p p' /\
    ((0 <= fno)%Z -> exists fi, p_finfo p' !! Z.to_nat fno = Some fi /\ fi_stacksize fi = s).
Proof.
  intros Hlt. unfold store_size. destruct (Z.leb_spec 0 fno) as [H0|H0].
  - unfold get_finfo, set_finfo. rewrite (proj2 (Z.leb_le _ _)) by done. rewrite (proj2 (Z.ltb_lt _ _)) by done.
    destruct (lookup_lt_is_Some_2 (p_finfo p) (Z.to_nat fno)) as [fi Hfi]; [lia|]. rewrite Hfi.
    cbn [deref andb cassert mbind outcome_bind]. eexists. split; [reflexivity|].
    split; [split_and!; try done | intros _; eexists; split; [by apply list_lookup_insert_eq; lia | done]].
    + cbn. by rewrite length_insert.
    + intros i fi0 Hi. cbn. destruct (decide (i = Z.to_nat fno)) as [->|Hne].
      * rewrite list_lookup_insert_eq by lia. eexists. split; [reflexivity|]. simplify_eq. done.
      * rewrite list_lookup_insert_ne by done. by exists fi0.
    + intros i Hi. cbn. apply list_lookup_insert_ne. lia.
  - exists p. split_and!; [done | apply resized_refl | lia].
Qed.

(** The size in the row of the function [fno] covers an instruction. *)
Definition covers (p : program) (fno : Z) (i : instruction) : Prop :=
  exists fi, p_finfo p !! Z.to_nat fno = Some fi /\ (i_expcount i <= fi_stacksize fi)%Z.

Lemma covers_kept changed p p' fno i : resized changed p p' -> (0 <= fno)%Z -> ~ changed fno -> covers p fno i -> covers p' fno i.
Proof.
  intros (_ & _ & _ & _ & _ & H) H0 Hc (fi & Hfi & Hle). exists fi. rewrite H; [done|]. by rewrite Z2Nat.id.
Qed.

Lemma entries_start x l : i_opcode x = OP_GLOBSTART -> entries (x :: l) = i_arg0 x :: entries l.
Proof. intros H. unfold entries. cbn. unfold entry_of at 1. by rewrite decide_True. Qed.

Lemma entries_other x l : i_opcode x <> OP_GLOBSTART -> entries (x :: l) = entries l.
Proof. intros H. unfold entries. cbn. unfold entry_of at 1. by rewrite decide_False. Qed.

Lemma entry_of_Some g f : entry_of g = Some f -> i_opcode g = OP_GLOBSTART /\ i_arg0 g = f.
Proof. unfold entry_of. destruct (decide _); [|done]. by intros [= <-]. Qed.

(** What the loop does from a state in which the function [fno] has size [s] so
    far: it covers the rest of that function, and every later one. *)
Definition sizes_current (p' : program) (fno s : Z) (l : list instruction) : Prop :=
  forall seg post i, l = seg ++ post -> Forall inner seg -> (0 <= fno)%Z -> fno ∉ entries l ->
    i_expcount i = s \/ i ∈ seg -> covers p' fno i.
Definition sizes_later (p' : program) (fno : Z) (l : list instruction) : Prop :=
  forall pre g seg post f i, l = pre ++ g :: seg ++ post -> entry_of g = Some f -> Forall inner seg -> f <> fno ->
    f ∉ entries pre -> f ∉ entries post -> i ∈ g :: seg -> covers p' f i.

Lemma sizes_same p' fno s x l : i_opcode x = OP_GLOBSTART -> fno = i_arg0 x -> sizes_later p' fno l ->
  sizes_current p' fno s (x :: l) /\ sizes_later p' fno (x :: l).
Proof.
  intros Hx Hf Hc. split.
  - intros seg post i _ _ _ Hn. rewrite entries_start in Hn by done. set_solver.
  - intros [|y pre] g seg post f i El Hg Hseg Hff Hpre Hpost Hi; injection El as <- ->.
    + apply entry_of_Some in Hg as [_ Hg]. congruence.
    + rewrite entries_start in Hpre by done. apply not_elem_of_cons in Hpre as [_ Hpre]. by eapply Hc.
Qed.

Lemma sizes_next changed p1 p' fno s x l : i_opcode x = OP_GLOBSTART -> (0 <= i_arg0 x)%Z -> resized changed p1 p' ->
  (fno <> i_arg0 x -> fno ∉ entries l -> ~ changed fno) ->
  ((0 <= fno)%Z -> exists fi, p_finfo p1 !! Z.to_nat fno = Some fi /\ fi_stacksize fi = s) ->
  sizes_current p' (i_arg0 x) (i_expcount x) l -> sizes_later p' (i_arg0 x) l ->
  sizes_current p' fno s (x :: l) /\ sizes_later p' fno (x :: l).
Proof.
  intros Hx H0x Hr Hch Hs Hb Hc. split.
  - intros seg post i El Hseg H0 Hn Hi. rewrite entries_start in Hn by done. destruct seg as [|y seg].
    + destruct Hi as [Hi|Hi]; [|by apply not_elem_of_nil in Hi]. destruct (Hs H0) as (fi & Hfi & Ess).
      eapply covers_kept; [exact Hr | done | apply Hch; set_solver |]. exists fi. split; [done | lia].
    + injection El as <- ->. apply Forall_cons in Hseg as [Hy _]. by destruct Hy.
  - intros [|y pre] g seg post f i El Hg Hseg Hff Hpre Hpost Hi; injection El as <- ->.
    + apply entry_of_Some in Hg as [_ <-]. apply (Hb seg post); [done | done | done | | set_solver].
      by rewrite entries_app, (entries_inner seg Hseg).
    + rewrite entries_start in Hpre by done. apply not_elem_of_cons in Hpre as [Hfx Hpre]. by eapply Hc.
Qed.

Lemma sizes_inside p' fno s x l : i_opcode x <> OP_GLOBSTART ->
  sizes_current p' fno (if (s <? i_expcount x)%Z then i_expcount x else s) l -> sizes_later p' fno l ->
  sizes_current p' fno s (x :: l) /\ sizes_later p' fno (x :: l).
Proof.
  intros Hx Hb Hc. split.
  - intros seg post i El Hseg H0 Hn Hi. rewrite entries_other in Hn by done.
    assert (exists fi, p_finfo p' !! Z.to_nat fno = Some fi /\ (s <= fi_stacksize fi)%Z /\ (i_expcount x <= fi_stacksize fi)%Z)
      as (fi & Hfi & Hs & Hle).
    { destruct (Hb [] l (Instruction (i_opcode x) 0 0 0 0 (if (s <? i_expcount x)%Z then i_expcount x else s)))
        as (fi & Hfi & Hle); [done | by constructor | done | done | by left |]. cbn in Hle. exists fi. split; [done|].
      destruct (Z.ltb_spec s (i_expcount x)); lia. }
    destruct Hi as [Hi|Hi]; [exists fi; split; [done | lia]|]. destruct seg as [|y seg]; [by apply not_elem_of_nil in Hi|].
    injection El as <- ->. apply Forall_cons in Hseg as [_ Hseg]. apply elem_of_cons in Hi as [->|Hi]; [by exists fi|].
    eapply Hb; [done | done | done | done | by right].
  - intros [|y pre] g seg post f i El Hg Hseg Hff Hpre Hpost Hi; injection El as <- ->.
    + by apply entry_of_Some in Hg as [Hg _].
    + rewrite entries_other in Hpre by done. by eapply Hc.
Qed.

Lemma stacksizes_loop_ok l : forall fno s p, (fno < Z.of_nat (length (p_finfo p)))%Z ->
  (forall e, e ∈ entries l -> (0 <= e < Z.of_nat (length (p_finfo p)))%Z) ->
  exists p', stacksizes_loop fno s l p = Done p' /\ resized (fun z => z = fno \/ z ∈ entries l) p p' /\
    sizes_current p' fno s l /\ sizes_later p' fno l.
Proof.
  induction l as [|x l IH]; intros fno s p Hf He.
  { destruct (store_size_ok fno s p Hf) as (p' & E & Hr & Hs). exists p'. split_and!; [exact E | | |].
    - eapply resized_trans; [| |exact Hr | apply (resized_refl (fun _ => False))]; naive_solver.
    - intros seg post i El _ H0 _ [Hi|Hi]; [|by destruct seg; [apply not_elem_of_nil in Hi|]].
      destruct (Hs H0) as (fi & Hfi & Ess). exists fi. split; [done | lia].
    - intros pre g seg post f i El. by destruct pre. }
  cbn [stacksizes_loop]. fold (store_size fno s p). destruct (decide (i_opcode x = OP_GLOBSTART)) as [Hx|Hx].
  - rewrite bool_decide_true by done. cbn [andb]. rewrite (entries_start x l Hx) in *.
    destruct (Z.eqb_spec fno (i_arg0 x)) as [Heq|Hne]; cbn [negb].
    + destruct (IH fno (if (s <? i_expcount x)%Z then i_expcount x else s) p Hf) as (p' & E & Hr & Hb & Hc); [set_solver|].
      exists p'. split_and!; [exact E | | by eapply sizes_same..].
      eapply resized_trans; [| |exact Hr | apply (resized_refl (fun _ => False))]; set_solver.
    + destruct (store_size_ok fno s p Hf) as (p1 & E1 & Hr1 & Hs1). rewrite E1. cbn [mbind outcome_bind].
      pose proof Hr1 as (_ & _ & _ & Hlen & _). assert (i_arg0 x ∈ i_arg0 x :: entries l) as Hin by by left.
      destruct (IH (i_arg0 x) (i_expcount x) p1) as (p' & E & Hr & Hb & Hc).
      { rewrite Hlen. by apply He. } { intros e He'. rewrite Hlen. apply He. by right. }
      exists p'. split_and!; [exact E | | eapply sizes_next; try done; [by apply He | naive_solver]..].
      eapply resized_trans; [| |exact Hr1 | exact Hr]; set_solver.
  - rewrite bool_decide_false by done. cbn [andb]. rewrite (entries_other x l Hx) in *.
    destruct (IH fno (if (s <? i_expcount x)%Z then i_expcount x else s) p Hf He) as (p' & E & Hr & Hb & Hc).
    exists p'. split_and!; [exact E | exact Hr | by eapply sizes_inside..].
Qed.

(** ** The whole program *)

(** A function of the image: its code, its row, and room for its stack. *)
Definition function_ready (p : program) (fno nargs : nat) : Prop :=
  exists pre code post fi, instructions (p_comp p) = pre ++ code ++ post /\ p_finfo p !! fno = Some fi /\
    function_code fno nargs (length pre) code fi /\ forall i, i ∈ code -> (i_expcount i <= fi_stacksize fi)%Z.

Lemma max_expcount_from l : forall m, (forall i, i ∈ l -> (0 <= i_expcount i)%Z -> (i_expcount i <= fold_left (fun m i =>
    if (m =? -1) || (m <? i_expcount i) then i_expcount i else m) l m)%Z) /\
  ((0 <= m)%Z -> (m <= fold_left (fun m i => if (m =? -1) || (m <? i_expcount i) then i_expcount i else m) l m)%Z).
Proof.
  induction l as [|x l IH]; intros m; cbn [fold_left]; [split; [in_nil | lia]|].
  destruct (IH (if (m =? -1) || (m <? i_expcount x) then i_expcount x else m)%Z) as [H1 H2].
  destruct (Z.eqb_spec m (-1)); destruct (Z.ltb_spec m (i_expcount x)); cbn [orb] in *; (split; [|lia]);
    intros i [->|Hi]%elem_of_cons H0; try (by apply H1); lia.
Qed.

Lemma max_expcount_le l i : i ∈ l -> (0 <= i_expcount i)%Z -> (i_expcount i <= max_expcount l)%Z.
Proof. apply (max_expcount_from l (-1)). Qed.

Lemma laid_out_same p p' fno nargs : (exists l, instructions (p_comp p') = instructions (p_comp p) ++ l) -> p_finfo p' = p_finfo p ->
  laid_out p fno nargs -> laid_out p' fno nargs.
Proof.
  intros (l & E) Ef (pre & code & post & fi & E1 & Hf & Hc). exists pre, code, (post ++ l), fi. rewrite E, E1, Ef, <- !app_assoc. done.
Qed.

(** After the stack sizes are known. *)
Lemma compute_stacksizes_ok p : (forall e, e ∈ entries (instructions (p_comp p)) -> (0 <= e < Z.of_nat (length (p_finfo p)))%Z) ->
  NoDup (entries (instructions (p_comp p))) ->
  exists p', compute_stacksizes p = Done p' /\ p_comp p' = p_comp p /\ p_evaldoaddr p' = p_evaldoaddr p /\
    p_erroraddr p' = p_erroraddr p /\ length (p_finfo p') = length (p_finfo p) /\
    forall fno nargs, laid_out p fno nargs -> function_ready p' fno nargs.
Proof.
  intros He Hnd. destruct (stacksizes_loop_ok (instructions (p_comp p)) (-1) 0 p) as (p' & E & (E1 & E2 & E3 & E4 & Hs & _) & _ & Hl);
    [lia | done |].
  exists p'. split_and!; try done. intros fno nargs (pre & code & post & fi & Ei & Hf & Hc).
  destruct (Hs fno fi Hf) as (fi' & Hf' & S1 & S2 & S3 & S4). exists pre, code, post, fi'. rewrite E1. split_and!; try done.
  - destruct Hc as [H1 H2 H3 H4]. split; try congruence.
  - intros i Hi. destruct (fc_start _ _ _ _ _ Hc) as (g & rest & -> & Hg & Ha & _ & Hin).
    rewrite Ei, !entries_app, (entries_start g rest Hg), (entries_inner _ Hin), Ha in Hnd. cbn in Hnd.
    apply list.NoDup_app in Hnd as (_ & Hd & Hnd). apply NoDup_cons in Hnd as [Hpost _].
    destruct (Hl pre g rest post (Z.of_nat fno) i) as (fi2 & Hf2 & Hle); try done; try lia.
    + unfold entry_of. rewrite decide_True by done. by rewrite Ha.
    + intros Hpre. apply (Hd _ Hpre). by left.
    + rewrite Nat2Z.id in Hf2. congruence.
Qed.

Lemma initial_code files : instructions (fold_left (fun comp f => (add_string comp f).1) files (Compilation [] [] None)) = [].
Proof.
  assert (forall c, instructions c = [] -> instructions (fold_left (fun comp f => (add_string comp f).1) files c) = []) as H.
  { induction files as [|f files IH]; intros c Hc; cbn [fold_left]; [done|]. apply IH. by rewrite (proj1 (add_string_code c f)). }
  by apply H.
Qed.

Lemma rows_fst (l : list nat) n src : map fst (imap (fun i => function_row src (n + i)) l) = seq (NUM_BUILTINS + n) (length l).
Proof.
  revert n. induction l as [|q l IH]; intros n; cbn [imap map length seq]; [done|].
  unfold function_row at 1. cbn [fst]. rewrite Nat.add_0_r. f_equal. rewrite <- Nat.add_succ_r, <- (IH (S n)). f_equal. apply imap_ext. intros i x _. unfold compose. by rewrite Nat.add_succ_r.
Qed.

Lemma builtin_rows_fst l : map fst (map builtin_row l) = l.
Proof. induction l as [|i l IH]; cbn; [done | by rewrite IH]. Qed.

(** The program before the stack sizes are computed. *)
Record image (src : source) (p : program) : Prop := {
  im_len : length (p_finfo p) = NUM_BUILTINS + length (src_scombs src);
  im_entries : NoDup (entries (instructions (p_comp p)));
  im_range : forall e, e ∈ entries (instructions (p_comp p)) -> (0 <= e < Z.of_nat (length (p_finfo p)))%Z;
  im_scombs : forall i q sc, src_scombs src !! i = Some q -> src_heap src !! q = Some sc -> laid_out p (NUM_BUILTINS + i) (sc_nargs sc);
  im_builtins : forall i b, builtin_info !! i = Some b -> laid_out p i (bi_nargs b);
  im_error : error_ready p
}.

(** Code that only grows keeps the image. *)
Lemma image_grows src p p' l : image src p -> instructions (p_comp p') = instructions (p_comp p) ++ l -> Forall inner l ->
  p_finfo p' = p_finfo p -> p_erroraddr p' = p_erroraddr p -> image src p'.
Proof.
  intros [H1 H2 H3 H4 H5 (e & He & Ho)] E Hl Ef Ee.
  assert (entries (instructions (p_comp p')) = entries (instructions (p_comp p))) as En.
  { by rewrite E, entries_app, (entries_inner l Hl), app_nil_r. }
  split; rewrite ?En, ?Ef, ?Ee; try done.
  - intros i q sc Hi Hq. eapply laid_out_same; [by exists l | done | by eapply H4].
  - intros i b Hi. eapply laid_out_same; [by exists l | done | by eapply H5].
  - exists e. split; [|done]. rewrite E, Ee. by apply lookup_app_l_Some.
Qed.

Lemma adds_error p l p' : adds_functions p l p' -> error_ready p -> error_ready p'.
Proof.
  induction 1 as [p|p f m p1 l p' Hlt (code & fi & E & _ & Ee & _) H2 IH]; [done|]. intros (i & Hi & Ho). apply IH. exists i.
  split; [|done]. rewrite E, Ee. by apply lookup_app_l_Some.
Qed.

(** The prologue, the functions of the program and the built-ins make one. *)
Lemma adds_image src p1 p2 p3 : entries (instructions (p_comp p1)) = [] ->
  length (p_finfo p1) = NUM_BUILTINS + length (src_scombs src) ->
  adds_functions p1 (imap (function_row src) (src_scombs src)) p2 -> adds_functions p2 (map builtin_row (seq 0 NUM_BUILTINS)) p3 ->
  error_ready p1 -> image src p3.
Proof.
  intros E0 Hlen A1 A2 He. destruct (adds_functions_entries _ _ _ A1) as [E1 L1]. destruct (adds_functions_entries _ _ _ A2) as [E2 L2].
  pose proof (rows_fst (src_scombs src) 0 src) as R1. rewrite Nat.add_0_r in R1.
  change (map fst (imap (function_row src) (src_scombs src)) = seq NUM_BUILTINS (length (src_scombs src))) in R1.
  pose proof (builtin_rows_fst (seq 0 NUM_BUILTINS)) as R2.
  assert (entries (instructions (p_comp p3)) = map Z.of_nat (seq NUM_BUILTINS (length (src_scombs src)) ++ seq 0 NUM_BUILTINS)) as En.
  { rewrite E2, E1, E0. cbn [app]. rewrite <- !(map_map fst Z.of_nat), R2. rewrite map_app. f_equal. f_equal. exact R1. }
  split.
  - lia.
  - rewrite En. apply NoDup_fmap_2; [apply _|]. apply list.NoDup_app.
    split_and!; [apply NoDup_ListNoDup, seq_NoDup | | apply NoDup_ListNoDup, seq_NoDup].
    intros x. rewrite !elem_of_seq. lia.
  - rewrite En. intros e (n & -> & Hn)%elem_of_map. rewrite elem_of_app, !elem_of_seq in Hn. lia.
  - intros i q sc Hi Hq. eapply adds_functions_keep; [exact A2 | |].
    + rewrite R2, elem_of_seq. lia.
    + eapply adds_functions_laid; [exact A1 | |].
      * rewrite R1. apply NoDup_ListNoDup, seq_NoDup.
      * apply list_elem_of_lookup_2 with i. rewrite list_lookup_imap, Hi. cbn. unfold function_row. by rewrite Hq.
  - intros i b Hi. eapply adds_functions_laid; [exact A2 | rewrite R2; apply NoDup_ListNoDup, seq_NoDup |].
    apply lookup_lt_Some in Hi as Hlt. rewrite NUM_BUILTINS_length in Hlt.
    apply elem_of_map. exists i. split; [unfold builtin_row; by rewrite Hi | apply elem_of_seq; lia].
  - eapply adds_error; [exact A2 | by eapply adds_error].
Qed.

(** The sequence for a depth is the one the runtime expects. *)
Definition evaldo_at (p : program) (i : nat) : Prop := forall d instr, evaldo_code i !! d = Some instr ->
  instructions (p_comp p) !! (Z.to_nat (p_evaldoaddr p) + 2 * (i - 1) + d) = Some instr.

Lemma compile_evaldo_ok src p : image src p -> exists p', compile_evaldo p = Done p' /\ image src p' /\
  comp_si (p_comp p') = None /\
  forall instr i, instr ∈ instructions (p_comp p') -> 1 <= i -> (Z.of_nat i < i_expcount instr)%Z -> evaldo_at p' i.
Proof.
  intros Him. unfold compile_evaldo. set (m := Z.to_nat (max_expcount (instructions (p_comp p)) - 1)).
  destruct (evaldo_loop_ok (code_count (p_comp p)) m 1 (p_comp p)) as (c & E & Ei); [lia | cbn; lia |].
  rewrite E. cbn [mbind outcome_bind]. eexists. split; [reflexivity|]. split_and!; [|done|].
  - eapply image_grows; [exact Him | exact Ei | apply evaldo_inner | done | done].
  - intros instr i Hin Hi Hlt d x Hx. cbn [p_comp p_evaldoaddr instructions set_si] in *. rewrite Ei in Hin |- *.
    assert (i - 1 < m) as Him1.
    { apply elem_of_app in Hin as [Hin|Hin].
      - pose proof (max_expcount_le _ _ Hin ltac:(lia)). lia.
      - apply elem_of_concat in Hin as (l & (k & -> & Hk)%elem_of_map & Hin). apply elem_of_seq in Hk.
        unfold evaldo_code in Hin. rewrite !elem_of_cons in Hin. destruct Hin as [->|[->|Hin]]; [| |by apply not_elem_of_nil in Hin]; cbn in Hlt; lia. }
    rewrite lookup_app_r by (unfold code_count; lia). unfold code_count. rewrite Nat2Z.id.
    replace (length (instructions (p_comp p)) + 2 * (i - 1) + d - length (instructions (p_comp p))) with (2 * (i - 1) + d) by lia.
    apply lookup_lt_Some in Hx as Hd. rewrite evaldo_lookup by (cbn in Hd; lia). by replace (S (i - 1)) with i by lia.
Qed.

(** What is compiled before the stack sizes are computed. *)
Lemma compile_program_image fuel mkfuel src start sc :
  0 < mkfuel -> NoDup (src_scombs src) ->
  (forall q, q ∈ src_scombs src -> exists sc, compilable fuel mkfuel src q sc) ->
  get_scomb src "__start" = Some start -> compilable fuel mkfuel src start sc -> sc_nargs sc = 1 ->
  exists p, compile_program fuel mkfuel src = compute_stacksizes p /\ image src p /\
    (forall instr i, instr ∈ instructions (p_comp p) -> 1 <= i -> (Z.of_nat i < i_expcount instr)%Z -> evaldo_at p i).
Proof.
  intros Hmk Hnd Hsrc Hs Hc Hn. unfold compile_program. pose proof (initial_code (src_parsedfiles src)) as E0.
  set (comp := fold_left _ _ _) in *.
  set (p0 := Program comp (replicate (NUM_BUILTINS + length (src_scombs src)) empty_funinfo) 0 0 0).
  destruct (compile_prologue_ok fuel mkfuel src Hmk Hsrc start sc p0 Hs Hc Hn) as (p1 & l & -> & E1 & Hl & Ef1 & _ & He).
  change (instructions (p_comp p0)) with (instructions comp) in E1. rewrite E0 in E1. cbn [app] in E1.
  change (p_finfo p0) with (replicate (NUM_BUILTINS + length (src_scombs src)) empty_funinfo) in Ef1.
  assert (length (p_finfo p1) = NUM_BUILTINS + length (src_scombs src)) as Hlen1 by (by rewrite Ef1, length_replicate).
  cbn [mbind outcome_bind].
  destruct (compile_scombs_adds fuel mkfuel src Hmk Hsrc Hnd (src_scombs src) 0 p1 eq_refl Hlen1) as (p2 & E2 & A2).
  rewrite E2. cbn [mbind outcome_bind]. destruct (adds_functions_entries _ _ _ A2) as [_ Hlen2].
  unfold compile_builtins.
  destruct (compile_builtins_loop_adds (seq 0 NUM_BUILTINS)) with (p := p2) as (p3 & E3 & A3); [apply Forall_seq; lia | lia |].
  rewrite E3. cbn [mbind outcome_bind].
  assert (image src p3) as Him by (eapply adds_image; [by rewrite E1, entries_inner | done | exact A2 | exact A3 | done]).
  set (p4 := set_comp _ p3).
  destruct (compile_evaldo_ok src p4) as (p5 & E5 & Him5 & Hsi5 & Hev).
  { eapply (image_grows _ p3 p4 []); [done | by rewrite app_nil_r | constructor | done | done]. }
  rewrite E5. cbn [mbind outcome_bind]. unfold add_instruction. rewrite Hsi5. cbn [mbind outcome_bind].
  set (p6 := set_comp _ p5). set (inv := Instruction OP_INVALID 0 0 (sl_fileno nosl) (sl_lineno nosl) (-1)).
  exists p6. split_and!; [done | by eapply (image_grows _ p5 p6 [inv]); [done | | apply Forall_singleton | |] |].
  intros instr i Hin H1 Hlt d x Hx. change (p_evaldoaddr p6) with (p_evaldoaddr p5).
  change (instructions (p_comp p6)) with (instructions (p_comp p5) ++ [inv]) in Hin |- *.
  apply elem_of_app in Hin as [Hin|Hin%list_elem_of_singleton]; [|subst instr; cbn in Hlt; lia].
  apply lookup_app_l_Some. by eapply Hev.
Qed.

Lemma compile_program_returns fuel mkfuel src start sc :
  0 < mkfuel -> NoDup (src_scombs src) ->
  (forall q, q ∈ src_scombs src -> exists sc, compilable fuel mkfuel src q sc) ->
  get_scomb src "__start" = Some start -> compilable fuel mkfuel src start sc -> sc_nargs sc = 1 ->
  exists p, compile_program fuel mkfuel src = Done p.
Proof.
  intros Hmk Hnd Hsrc Hs Hc Hn. destruct (compile_program_image _ _ _ _ _ Hmk Hnd Hsrc Hs Hc Hn) as (p6 & -> & Him6 & _).
  destruct (compute_stacksizes_ok p6 (im_range _ _ Him6) (im_entries _ _ Him6)) as (p & E & _). by exists p.
Qed.

(** C8. Compiling a program returns, for every program whose supercombinators are
    ready, have compilable bodies and readable names, and which has a
    [__start] with one argument. Every function of the program and every
    built-in gets exactly one piece of code, which starts with its entry; its
    row of the function table has the address of that piece, entry points
    inside it in the right order, its arity, and a stack size that the depth
    before no instruction of the piece exceeds. The error address holds ERROR, and for
    every stack depth below one in use there is an EVAL/DO sequence where the
    runtime computes it to be. *)
Theorem program_compiles fuel mkfuel src start sc :
  0 < mkfuel -> NoDup (src_scombs src) ->
  (forall q, q ∈ src_scombs src -> exists sc, compilable fuel mkfuel src q sc) ->
  get_scomb src "__start" = Some start -> compilable fuel mkfuel src start sc -> sc_nargs sc = 1 ->
  exists p, compile_program fuel mkfuel src = Done p /\
    length (p_finfo p) = NUM_BUILTINS + length (src_scombs src) /\
    NoDup (entries (instructions (p_comp p))) /\
    (forall i q sc, src_scombs src !! i = Some q -> src_heap src !! q = Some sc -> function_ready p (NUM_BUILTINS + i) (sc_nargs sc)) /\
    (forall i b, builtin_info !! i = Some b -> function_ready p i (bi_nargs b)) /\
    error_ready p /\
    (forall instr i, instr ∈ instructions (p_comp p) -> 1 <= i -> (Z.of_nat i < i_expcount instr)%Z -> evaldo_at p i).
Proof.
  intros Hmk Hnd Hsrc Hs Hc Hn. destruct (compile_program_image _ _ _ _ _ Hmk Hnd Hsrc Hs Hc Hn) as (p6 & -> & Him6 & Hev).
  destruct (compute_stacksizes_ok p6 (im_range _ _ Him6) (im_entries _ _ Him6)) as (p & E & Ec & Eev & Eer & Elen & Hrdy).
  exists p. rewrite Elen. unfold error_ready. rewrite Ec, Eer. split_and!; try apply Him6; [done | | |].
  - intros i q sc' Hi Hq. by eapply Hrdy, (im_scombs _ _ Him6).
  - intros i b Hi. by eapply Hrdy, (im_builtins _ _ Him6).
  - intros instr i Hin H1 Hlt d x Hx. rewrite Ec, Eev. by eapply Hev.
Qed.

(** The program [f x y = + x y], [__start args = args]. *)
Definition sample_start : scomb :=
  Scomb "__start" ["args"] (Some (SNODE_SYMBOL nosl "args")) 1 (Some [false]) (Some [false]) nosl None false false None false.
Definition sample_image : source := source_of [sample_f; sample_start].

Lemma sample_f_compilable : compilable 20 1 sample_image 0 sample_f.
Proof.
  split; [exists sample_sum, [true; true] | by exists "f"]. split_and!; [|apply sample_sum_rbody | cbn; lia].
  split; try reflexivity. cbn. in_nil.
Qed.

Lemma sample_start_compilable : compilable 20 1 sample_image 1 sample_start.
Proof.
  split; [exists (SNODE_SYMBOL nosl "args"), [false] | by exists "__start"].
  split_and!; [split; try reflexivity; cbn; in_nil | | cbn; lia].
  apply rb_leaf; [done | done |]. split_and!; [done | | split; [constructor | cbn; in_nil]].
  intros x ->. exists 1%Z. split; [reflexivity | cbn; lia].
Qed.

Lemma program_compiles_witness :
  exists p, compile_program 20 1 sample_image = Done p /\ length (p_finfo p) = NUM_BUILTINS + 2 /\
    NoDup (entries (instructions (p_comp p))) /\
    (forall i q sc, src_scombs sample_image !! i = Some q -> src_heap sample_image !! q = Some sc ->
      function_ready p (NUM_BUILTINS + i) (sc_nargs sc)) /\
    (forall i b, builtin_info !! i = Some b -> function_ready p i (bi_nargs b)) /\
    error_ready p /\
    (forall instr i, instr ∈ instructions (p_comp p) -> 1 <= i -> (Z.of_nat i < i_expcount instr)%Z -> evaldo_at p i).
Proof.
  apply (program_compiles 20 1 sample_image 1 sample_start); [lia | | | reflexivity | apply sample_start_compilable | reflexivity].
  - cbn. apply NoDup_ListNoDup, (seq_NoDup 2 0).
  - cbn. intros q [->|[->|Hq]%elem_of_cons]%elem_of_cons; [exists sample_f; apply sample_f_compilable |
      exists sample_start; apply sample_start_compilable | by apply not_elem_of_nil in Hq].
Defined.
