(* ===== verification/Image.v ===== *)
(** * The bytecode file (src/nreduce/compiler/bytecode.c, [gen_bytecode] and [bc_...])

    A compiled program is written into one block of memory: a header, the
    instructions, the function table, the offsets of the strings and the
    strings. The runtime reads it in place. Integers are four bytes, least
    significant first, in two's complement; pointers take four bytes. A byte is
    a number from 0 to 255. *)

From S2P Require Import Prelude CString Builtins Util Source Resolve Double Bytecode Compile.

#[local] Set Warnings "-clear-no-such-hyp".
#[local] Open Scope Z_scope.

(** ** Memory *)

Definition int_bytes (z : Z) : list Z := [z mod 256; (z / 256) mod 256; (z / 65536) mod 256; (z / 16777216) mod 256].

Definition char_byte (c : ascii) : Z := Z.of_N (N_of_ascii c).
Definition byte_char (b : Z) : ascii := ascii_of_N (Z.to_N b).

(** [strlen(str)+1] bytes from [str] on. *)
Fixpoint string_bytes (s : string) : list Z :=
  match s with EmptyString => [0] | String c s => char_byte c :: string_bytes s end.

(** [memcpy] into a block; outside of it nothing may be written. *)
Definition memcpy (data : list Z) (pos : nat) (src : list Z) : outcome (list Z) :=
  cassert (Nat.leb (pos + length src) (length data));;
  Done (take pos data ++ src ++ drop (pos + length src) data).

(** [*(int* )&data[pos]]. *)
Definition load_int (data : list Z) (pos : nat) : outcome Z :=
  match take 4 (drop pos data) with
  | [a; b; c; d] => Done (wrap32 (a + 256 * b + 65536 * c + 16777216 * d))
  | _ => Crash
  end.

(** The C string at the head of some memory. *)
Fixpoint load_string (data : list Z) : outcome string :=
  match data with
  | [] => Crash
  | b :: data => if b =? 0 then Done EmptyString else s ← load_string data; Done (String (byte_char b) s)
  end.

(** ** Layout *)

Definition sizeof_int : nat := 4.
Definition sizeof_bcheader : nat := 40.
Definition sizeof_instruction : nat := 28.
Definition sizeof_funinfo : nat := 24.

(** The 16 characters of the signature, without a terminator. *)
Definition signature : list Z := take 16 (string_bytes "NREDUCE BYTECODE").

Record bcheader := Bcheader {
  bch_nops : Z; bch_nfunctions : Z; bch_nstrings : Z; bch_evaldoaddr : Z; bch_erroraddr : Z; bch_itemfno : Z
}.

Definition header_bytes (h : bcheader) : list Z :=
  signature ++ int_bytes (bch_nops h) ++ int_bytes (bch_nfunctions h) ++ int_bytes (bch_nstrings h) ++
  int_bytes (bch_evaldoaddr h) ++ int_bytes (bch_erroraddr h) ++ int_bytes (bch_itemfno h).

(** The last field is the pointer [code], null in the compiler. *)
Definition instruction_bytes (i : instruction) : list Z :=
  int_bytes (opcode_num (i_opcode i)) ++ int_bytes (i_arg0 i) ++ int_bytes (i_arg1 i) ++ int_bytes (i_fileno i) ++
  int_bytes (i_lineno i) ++ int_bytes (i_expcount i) ++ int_bytes 0.

Definition funinfo_bytes (fi : funinfo) : list Z :=
  int_bytes (fi_address fi) ++ int_bytes (fi_addressne fi) ++ int_bytes (fi_addressed fi) ++ int_bytes (fi_arity fi) ++
  int_bytes (fi_stacksize fi) ++ int_bytes (fi_name fi).

Section gen.
(** [malloc]: what the new block holds is not known. *)
Context (malloc : nat -> list Z).

(** The loop over the strings: the offset, then the characters. *)
Fixpoint put_strings (strs : list string) (pos strpos : nat) (data : list Z) : outcome (list Z * nat) :=
  match strs with
  | [] => Done (data, strpos)
  | str :: strs =>
      data ← memcpy data pos (int_bytes (Z.of_nat strpos));
      data ← memcpy data strpos (string_bytes str);
      put_strings strs (pos + sizeof_int) (strpos + length (string_bytes str)) data
  end.

Definition bytecode_size (p : program) : nat :=
  sizeof_bcheader + length (instructions (p_comp p)) * sizeof_instruction + length (p_finfo p) * sizeof_funinfo +
  length (stringmap (p_comp p)) * sizeof_int + sum_list_with (fun s => length (string_bytes s)) (stringmap (p_comp p)).

Definition bcheader_of (p : program) : bcheader :=
  Bcheader (Z.of_nat (length (instructions (p_comp p)))) (Z.of_nat (length (p_finfo p))) (Z.of_nat (length (stringmap (p_comp p))))
    (p_evaldoaddr p) (p_erroraddr p) (p_itemfno p).

(** Returns [*bcdata], whose length is [*bcsize]. *)
Definition gen_bytecode (p : program) : outcome (list Z) :=
  let size := bytecode_size p in
  cint (Z.of_nat size);;
  data ← memcpy (malloc size) 0 (header_bytes (bcheader_of p));
  let pos := sizeof_bcheader in
  let code := concat (map instruction_bytes (instructions (p_comp p))) in
  cassert (Nat.eqb (length (instructions (p_comp p)) * sizeof_instruction) (length code));;
  data ← memcpy data pos code;
  let pos := (pos + length code)%nat in
  data ← memcpy data pos (concat (map funinfo_bytes (p_finfo p)));
  let pos := (pos + length (p_finfo p) * sizeof_funinfo)%nat in
  '(data, strpos) ← put_strings (stringmap (p_comp p)) pos (pos + length (stringmap (p_comp p)) * sizeof_int)%nat data;
  cassert (Nat.eqb strpos size);;
  Done data.

(** [compile]: the program and its file. *)
Definition compile (fuel mkfuel : nat) (src : source) : outcome (list Z) :=
  p ← compile_program fuel mkfuel src; gen_bytecode p.
End gen.

(** ** Reading *)

Fixpoint load_ints (data : list Z) (pos n : nat) : outcome (list Z) :=
  match n with
  | O => Done []
  | S n => z ← load_int data pos; zs ← load_ints data (pos + sizeof_int) n; Done (z :: zs)
  end.

Definition bc_header (data : list Z) : outcome bcheader :=
  zs ← load_ints data 16 6;
  match zs with
  | [a; b; c; d; e; f] => Done (Bcheader a b c d e f)
  | _ => Crash
  end.

Definition opcode_of_num (z : Z) : option opcode :=
  List.find (fun op => opcode_num op =? z)
    [OP_BEGIN; OP_END; OP_GLOBSTART; OP_SPARK; OP_RETURN; OP_DO; OP_JFUN; OP_JFALSE; OP_JUMP; OP_PUSH; OP_UPDATE; OP_ALLOC;
     OP_SQUEEZE; OP_MKCAP; OP_MKFRAME; OP_BIF; OP_PUSHNIL; OP_PUSHNUMBER; OP_PUSHSTRING; OP_POP; OP_ERROR; OP_EVAL; OP_CALL;
     OP_JCMP; OP_CONSN; OP_ITEMN; OP_JEQ; OP_INVALID].

(** [bc_instructions(bcdata)[i]]. *)
Definition bc_instruction (data : list Z) (i : nat) : outcome instruction :=
  zs ← load_ints data (sizeof_bcheader + i * sizeof_instruction) 6;
  match zs with
  | [op; a; b; c; d; e] => op ← deref (opcode_of_num op); Done (Instruction op a b c d e)
  | _ => Crash
  end.

(** [bc_funinfo(bcdata)[fno]]. *)
Definition bc_funinfo (data : list Z) (fno : nat) : outcome funinfo :=
  h ← bc_header data;
  zs ← load_ints data (sizeof_bcheader + Z.to_nat (bch_nops h) * sizeof_instruction + fno * sizeof_funinfo) 6;
  match zs with
  | [a; b; c; d; e; f] => Done (Funinfo a b c d e f)
  | _ => Crash
  end.

Definition bc_string (data : list Z) (sno : nat) : outcome string :=
  h ← bc_header data;
  let pos := (sizeof_bcheader + Z.to_nat (bch_nops h) * sizeof_instruction + Z.to_nat (bch_nfunctions h) * sizeof_funinfo)%nat in
  offset ← load_int data (pos + sno * sizeof_int);
  load_string (drop (Z.to_nat offset) data).

Definition bc_function_name (data : list Z) (fno : Z) : outcome string :=
  if 0 >? fno then Done "(unknown)"%string
  else fi ← bc_funinfo data (Z.to_nat fno); bc_string data (Z.to_nat (fi_name fi)).

(** [tsk->bcaddr_to_fno] (task.c, [task_new]): the function an address is
    in. *)
Fixpoint mark_starts (fno : nat) (finfo : list funinfo) (m : list Z) : outcome (list Z) :=
  match finfo with
  | [] => Done m
  | fi :: finfo =>
      cassert ((0 <=? fi_address fi) && (fi_address fi <? Z.of_nat (length m)));;
      mark_starts (S fno) finfo (<[Z.to_nat (fi_address fi) := Z.of_nat fno]> m)
  end.
Fixpoint carry_over (cur : Z) (m : list Z) : list Z :=
  match m with
  | [] => []
  | z :: m => let cur := if 0 <=? z then z else cur in cur :: carry_over cur m
  end.
Definition bcaddr_to_fno (finfo : list funinfo) (nops : nat) : outcome (list Z) :=
  m ← mark_starts 0 finfo (replicate nops (-1)); Done (carry_over (-1) m).
