(* ===== verification/ImageFacts.v ===== *)
(** * The bytecode file is read back as it was written

    [gen_bytecode] fills its block exactly, whatever the block held before, and
    the readers find in it the header, every instruction, every row of the
    function table and every string. *)

From S2P Require Import Prelude CString Builtins Util Source Resolve Double Bytecode Compile Emits ProgramFacts Image.

#[local] Set Warnings "-clear-no-such-hyp".
#[local] Open Scope Z_scope.

(** ** Bytes *)

Lemma int_bytes_length z : length (int_bytes z) = 4%nat.
Proof. done. Qed.

Lemma int_bytes_value z : INT_MIN <= z <= INT_MAX ->
  wrap32 (z mod 256 + 256 * ((z / 256) mod 256) + 65536 * ((z / 65536) mod 256) + 16777216 * ((z / 16777216) mod 256)) = z.
Proof.
  unfold INT_MIN, INT_MAX, wrap32. intros H.
  assert (z mod 256 + 256 * ((z / 256) mod 256) + 65536 * ((z / 65536) mod 256) + 16777216 * ((z / 16777216) mod 256) = z mod 4294967296) as ->.
  { replace (z / 65536) with (z / 256 / 256) by (rewrite Z.div_div by lia; done).
    replace (z / 16777216) with (z / 256 / 256 / 256) by (rewrite !Z.div_div by lia; done).
    change 4294967296 with (256 * (256 * (256 * 256))). rewrite !Z.rem_mul_r by lia. lia. }
  rewrite Z.add_mod_idemp_l by lia. rewrite Z.mod_small by lia. lia.
Qed.

Lemma char_byte_char c : byte_char (char_byte c) = c.
Proof. unfold byte_char, char_byte. by rewrite N2Z.id, ascii_N_embedding. Qed.

(** A string without the terminator inside. *)
Fixpoint no_nul (s : string) : Prop :=
  match s with EmptyString => True | String c s => c <> "000"%char /\ no_nul s end.

Lemma char_byte_zero c : char_byte c = 0 -> c = "000"%char.
Proof. intros H. rewrite <- (char_byte_char c), H. reflexivity. Qed.

Lemma load_string_bytes s post : no_nul s -> load_string (string_bytes s ++ post) = Done s.
Proof.
  induction s as [|c s IH]; cbn [no_nul string_bytes app load_string]; [done|]. intros [Hc Hs].
  destruct (Z.eqb_spec (char_byte c) 0) as [E|_]; [by apply char_byte_zero in E|].
  rewrite IH by done. cbn [mbind outcome_bind]. by rewrite char_byte_char.
Qed.

(** ** Reading at a position *)

Lemma drop_at {A} (pre post : list A) n : n = length pre -> drop n (pre ++ post) = post.
Proof. intros ->. apply drop_app_length. Qed.

Lemma load_int_at pre z post n : n = length pre -> INT_MIN <= z <= INT_MAX -> load_int (pre ++ int_bytes z ++ post) n = Done z.
Proof. intros Hn Hz. unfold load_int. rewrite (drop_at pre _ n Hn). cbn [int_bytes app take firstn]. by rewrite int_bytes_value. Qed.

(** A row of integers. *)
Definition ints_bytes (zs : list Z) : list Z := concat (map int_bytes zs).

Lemma load_ints_at zs : forall pre post n, n = length pre -> Forall (fun z => INT_MIN <= z <= INT_MAX) zs ->
  load_ints (pre ++ ints_bytes zs ++ post) n (length zs) = Done zs.
Proof.
  induction zs as [|z zs IH]; intros pre post n Hn Hz; [done|]. apply Forall_cons in Hz as [Hz Hzs]. cbn [length load_ints].
  unfold ints_bytes. cbn [map concat]. fold (ints_bytes zs). rewrite <- (app_assoc (int_bytes z)). rewrite load_int_at by done.
  cbn [mbind outcome_bind]. rewrite (app_assoc pre). rewrite IH; [done | | done].
  rewrite length_app, int_bytes_length, Hn. unfold sizeof_int. lia.
Qed.

(** The [i]-th of equally long pieces. *)
Lemma concat_at {A} (f : A -> list Z) (k : nat) (l : list A) i a : (forall x, length (f x) = k) -> l !! i = Some a ->
  exists pre post, concat (map f l) = pre ++ f a ++ post /\ length pre = (i * k)%nat.
Proof.
  intros Hk Hi. exists (concat (map f (take i l))), (concat (map f (drop (S i) l))). split.
  - rewrite <- (take_drop_middle l i a Hi) at 1. by rewrite map_app, concat_app.
  - apply lookup_lt_Some in Hi. clear -Hk Hi. revert l Hi. induction i as [|i IH]; intros [|x l] Hi; cbn in *; try lia.
    rewrite length_app, Hk, IH by lia. done.
Qed.

Lemma concat_length {A} (f : A -> list Z) (k : nat) (l : list A) : (forall x, length (f x) = k) -> length (concat (map f l)) = (length l * k)%nat.
Proof. intros Hk. induction l as [|x l IH]; cbn; [done|]. by rewrite length_app, Hk, IH. Qed.

(** ** Writing *)

Lemma memcpy_at pre mid post src n : n = length pre -> length src = length mid ->
  memcpy (pre ++ mid ++ post) n src = Done (pre ++ src ++ post).
Proof.
  intros -> Hl. unfold memcpy. rewrite (proj2 (Nat.leb_le _ _)) by (rewrite !length_app; lia). cbn [cassert mbind outcome_bind].
  rewrite take_app_length, Hl. do 3 f_equal. rewrite app_assoc. apply drop_at. by rewrite length_app.
Qed.

(** A block cut at a position. *)
Lemma cut (l : list Z) n : (n <= length l)%nat -> exists a b, l = a ++ b /\ length a = n.
Proof. intros H. exists (take n l), (drop n l). rewrite take_drop, length_take. split; [done | lia]. Qed.

(** The offsets of strings that start at [strpos]. *)
Fixpoint offsets (strs : list string) (strpos : nat) : list Z :=
  match strs with
  | [] => []
  | s :: strs => Z.of_nat strpos :: offsets strs (strpos + length (string_bytes s))
  end.
Definition strings_size (strs : list string) : nat := sum_list_with (fun s => length (string_bytes s)) strs.

Lemma put_strings_ok strs : forall A B J1 J2 pos strpos,
  pos = length A -> length J1 = (length strs * 4)%nat -> strpos = length (A ++ J1 ++ B) -> length J2 = strings_size strs ->
  put_strings strs pos strpos (A ++ J1 ++ B ++ J2) =
    Done (A ++ ints_bytes (offsets strs strpos) ++ B ++ concat (map string_bytes strs), (strpos + strings_size strs)%nat).
Proof.
  induction strs as [|s strs IH]; intros A B J1 J2 pos strpos Hp H1 Hs H2; cbn [put_strings].
  { destruct J1; [|done]. destruct J2; [|done]. cbn. by rewrite app_nil_r, Nat.add_0_r. }
  cbn [length] in H1. destruct (cut J1 4) as (j & J1' & -> & Hj); [lia|]. rewrite length_app in H1.
  unfold strings_size in H2. cbn in H2. destruct (cut J2 (length (string_bytes s))) as (k & J2' & -> & Hk); [unfold strings_size in *; lia|].
  rewrite length_app in H2. rewrite <- (app_assoc j). rewrite (memcpy_at A j) by (done || by rewrite Hj). cbn [mbind outcome_bind].
  replace (A ++ int_bytes (Z.of_nat strpos) ++ J1' ++ B ++ k ++ J2') with ((A ++ int_bytes (Z.of_nat strpos) ++ J1' ++ B) ++ k ++ J2')
    by (by rewrite <- !app_assoc).
  rewrite memcpy_at; [|rewrite Hs, !length_app, int_bytes_length; lia | done]. cbn [mbind outcome_bind].
  replace ((A ++ int_bytes (Z.of_nat strpos) ++ J1' ++ B) ++ string_bytes s ++ J2')
    with ((A ++ int_bytes (Z.of_nat strpos)) ++ J1' ++ (B ++ string_bytes s) ++ J2') by (by rewrite <- !app_assoc).
  rewrite (IH _ _ J1' J2').
  - unfold ints_bytes. cbn [offsets map concat]. unfold strings_size. cbn [sum_list_with].
    rewrite <- !app_assoc. do 2 f_equal. lia.
  - rewrite length_app, int_bytes_length, Hp. unfold sizeof_int. lia.
  - lia.
  - rewrite Hs, !length_app, int_bytes_length, Hj. lia.
  - unfold strings_size. lia.
Qed.

(** ** The file *)

Definition instruction_ints (i : instruction) : list Z :=
  [opcode_num (i_opcode i); i_arg0 i; i_arg1 i; i_fileno i; i_lineno i; i_expcount i].
Definition funinfo_ints (fi : funinfo) : list Z :=
  [fi_address fi; fi_addressne fi; fi_addressed fi; fi_arity fi; fi_stacksize fi; fi_name fi].
Definition header_ints (h : bcheader) : list Z :=
  [bch_nops h; bch_nfunctions h; bch_nstrings h; bch_evaldoaddr h; bch_erroraddr h; bch_itemfno h].
Definition ints_fit (zs : list Z) : Prop := Forall (fun z => INT_MIN <= z <= INT_MAX) zs.

Lemma instruction_bytes_ints i : instruction_bytes i = ints_bytes (instruction_ints i) ++ int_bytes 0.
Proof. reflexivity. Qed.
Lemma funinfo_bytes_ints fi : funinfo_bytes fi = ints_bytes (funinfo_ints fi).
Proof. reflexivity. Qed.
Lemma header_bytes_ints h : header_bytes h = signature ++ ints_bytes (header_ints h).
Proof. reflexivity. Qed.

(** A program that fits: its integers are [int]s, its strings C strings, and
    its file has a size that is an [int]. *)
Record image_fits (p : program) : Prop := {
  if_size : (Z.of_nat (bytecode_size p) <= INT_MAX)%Z;
  if_code : Forall (fun i => ints_fit (instruction_ints i)) (instructions (p_comp p));
  if_finfo : Forall (fun fi => ints_fit (funinfo_ints fi)) (p_finfo p);
  if_addrs : ints_fit [p_evaldoaddr p; p_erroraddr p; p_itemfno p];
  if_strings : Forall no_nul (stringmap (p_comp p))
}.

(** The parts of the file. *)
Definition file_of (p : program) : list Z :=
  header_bytes (bcheader_of p) ++ concat (map instruction_bytes (instructions (p_comp p))) ++
  concat (map funinfo_bytes (p_finfo p)) ++
  ints_bytes (offsets (stringmap (p_comp p))
    (sizeof_bcheader + length (instructions (p_comp p)) * sizeof_instruction + length (p_finfo p) * sizeof_funinfo +
     length (stringmap (p_comp p)) * sizeof_int)) ++
  concat (map string_bytes (stringmap (p_comp p))).

Lemma gen_bytecode_layout malloc p : (forall n, length (malloc n) = n) -> (Z.of_nat (bytecode_size p) <= INT_MAX)%Z ->
  gen_bytecode malloc p = Done (file_of p).
Proof.
  intros Hm Hsz. unfold gen_bytecode. rewrite cint_Done by (unfold INT_MIN; lia). cbn [mbind outcome_bind].
  set (hdr := header_bytes (bcheader_of p)). set (code := concat (map instruction_bytes (instructions (p_comp p)))).
  set (tab := concat (map funinfo_bytes (p_finfo p))). set (strs := stringmap (p_comp p)).
  assert (length code = (length (instructions (p_comp p)) * sizeof_instruction)%nat) as Hc by (by apply concat_length).
  assert (length tab = (length (p_finfo p) * sizeof_funinfo)%nat) as Ht by (by apply concat_length).
  assert (length hdr = sizeof_bcheader) as Hh by done.
  assert (bytecode_size p = (length hdr + length code + length tab + length strs * 4 + strings_size strs)%nat) as Es.
  { unfold bytecode_size. rewrite Hh, Hc, Ht. done. }
  pose proof (Hm (bytecode_size p)) as Hl. set (blk := malloc (bytecode_size p)) in *. rewrite Es in Hl.
  destruct (cut blk (length hdr)) as (j0 & r0 & Eb & H0); [lia|]. rewrite Eb, length_app in Hl.
  destruct (cut r0 (length code)) as (j1 & r1 & Er0 & H1); [lia|]. rewrite Er0, length_app in Hl.
  destruct (cut r1 (length tab)) as (j2 & r2 & Er1 & H2); [lia|]. rewrite Er1, length_app in Hl.
  destruct (cut r2 (length strs * 4)) as (j3 & j4 & Er2 & H3); [lia|]. rewrite Er2, length_app in Hl.
  rewrite Eb, Er0, Er1, Er2. clear Eb Er0 Er1 Er2.
  pose proof (memcpy_at [] j0 (j1 ++ j2 ++ j3 ++ j4) hdr 0 eq_refl (eq_sym H0)) as E0. cbn [app] in E0. rewrite E0.
  cbn [mbind outcome_bind].
  rewrite (proj2 (Nat.eqb_eq _ _)) by done. cbn [cassert mbind outcome_bind].
  rewrite (memcpy_at hdr j1) by done. cbn [mbind outcome_bind].
  rewrite (app_assoc hdr). rewrite (memcpy_at (hdr ++ code) j2) by (rewrite ?length_app; lia). cbn [mbind outcome_bind].
  rewrite (app_assoc (hdr ++ code)).
  change (j3 ++ j4) with (j3 ++ [] ++ j4).
  rewrite (put_strings_ok strs ((hdr ++ code) ++ tab) [] j3 j4).
  - cbn [mbind outcome_bind app]. rewrite (proj2 (Nat.eqb_eq _ _)).
    + cbn [cassert mbind outcome_bind]. unfold file_of. fold hdr code tab strs. rewrite <- !app_assoc, <- Hc. done.
    + rewrite Es, Hc, Ht, Hh. unfold sizeof_int. lia.
  - rewrite !length_app, Hc, Ht, Hh. lia.
  - lia.
  - rewrite !length_app. cbn [length]. rewrite Hc, Ht, Hh, H3. unfold sizeof_int. lia.
  - lia.
Qed.

Lemma offsets_lookup strs : forall base i s, strs !! i = Some s -> exists pre post,
  concat (map string_bytes strs) = pre ++ string_bytes s ++ post /\ offsets strs base !! i = Some (Z.of_nat (base + length pre)).
Proof.
  induction strs as [|x strs IH]; intros base [|i] s Hi; try done.
  - injection Hi as ->. exists [], (concat (map string_bytes strs)). split; [done|]. cbn. by rewrite Nat.add_0_r.
  - destruct (IH (base + length (string_bytes x))%nat i s Hi) as (pre & post & E & Ho).
    exists (string_bytes x ++ pre), post. cbn [map concat offsets]. rewrite E, <- app_assoc. split; [done|].
    rewrite lookup_cons_ne_0 by done. cbn [Nat.pred]. rewrite Ho, length_app. do 2 f_equal. lia.
Qed.

Lemma strings_length strs : length (concat (map string_bytes strs)) = strings_size strs.
Proof. unfold strings_size. induction strs as [|x l IH]; cbn; [done|]. by rewrite length_app, IH. Qed.

Lemma offsets_length strs base : length (offsets strs base) = length strs.
Proof. revert base. induction strs as [|s strs IH]; intros base; cbn; [done | by rewrite IH]. Qed.

Lemma opcode_num_back op : opcode_of_num (opcode_num op) = Some op.
Proof. by destruct op. Qed.

(** ** Reading it back *)

Section read.
Context (p : program) (Hfit : image_fits p).

#[local] Abbreviation code := (instructions (p_comp p)).
#[local] Abbreviation strs := (stringmap (p_comp p)).

Lemma sizes_fit : Z.of_nat (length code) <= INT_MAX /\ Z.of_nat (length (p_finfo p)) <= INT_MAX /\ Z.of_nat (length strs) <= INT_MAX.
Proof using Hfit.
  pose proof (if_size _ Hfit) as H. unfold bytecode_size, sizeof_bcheader, sizeof_instruction, sizeof_funinfo, sizeof_int in H. lia.
Qed.

Lemma read_header : bc_header (file_of p) = Done (bcheader_of p).
Proof using Hfit.
  unfold bc_header, file_of. rewrite header_bytes_ints, <- app_assoc.
  change 6%nat with (length (header_ints (bcheader_of p))). rewrite load_ints_at; [done | done |].
  pose proof sizes_fit. pose proof (if_addrs _ Hfit) as Ha. unfold ints_fit in Ha. rewrite !Forall_cons in Ha.
  unfold header_ints, bcheader_of, INT_MIN. cbn [bch_nops bch_nfunctions bch_nstrings bch_evaldoaddr bch_erroraddr bch_itemfno].
  repeat (apply Forall_cons; split); try (apply Forall_nil; done); try tauto; lia.
Qed.

Lemma read_instruction i instr : code !! i = Some instr -> bc_instruction (file_of p) i = Done instr.
Proof using Hfit.
  intros Hi. destruct (concat_at instruction_bytes sizeof_instruction code i instr) as (pre & post & E & Hl); [done | done |].
  unfold bc_instruction, file_of. rewrite E, instruction_bytes_ints, <- !app_assoc, (app_assoc (header_bytes _)).
  change 6%nat with (length (instruction_ints instr)). rewrite load_ints_at; [| |by eapply (Forall_lookup_1 _ _ _ _ (if_code _ Hfit))].
  - cbn [instruction_ints mbind outcome_bind]. rewrite opcode_num_back. cbn. by destruct instr.
  - by rewrite length_app, Hl.
Qed.

Lemma read_funinfo fno fi : p_finfo p !! fno = Some fi -> bc_funinfo (file_of p) fno = Done fi.
Proof using Hfit.
  intros Hi. unfold bc_funinfo. rewrite read_header. cbn [mbind outcome_bind bcheader_of bch_nops]. rewrite Nat2Z.id.
  destruct (concat_at funinfo_bytes sizeof_funinfo (p_finfo p) fno fi) as (pre & post & E & Hl); [done | done |].
  unfold file_of. rewrite E, funinfo_bytes_ints, <- !app_assoc, (app_assoc (header_bytes _)), (app_assoc (_ ++ _) pre).
  change 6%nat with (length (funinfo_ints fi)). rewrite load_ints_at; [| |by eapply (Forall_lookup_1 _ _ _ _ (if_finfo _ Hfit))].
  - cbn [funinfo_ints mbind outcome_bind]. by destruct fi.
  - rewrite !length_app, Hl. by rewrite (concat_length instruction_bytes sizeof_instruction).
Qed.

Lemma offset_fits i s : strs !! i = Some s -> forall base pre post, concat (map string_bytes strs) = pre ++ string_bytes s ++ post ->
  (base + strings_size strs)%nat = bytecode_size p -> INT_MIN <= Z.of_nat (base + length pre) <= INT_MAX.
Proof using Hfit.
  intros Hi base pre post E Hb. pose proof (if_size _ Hfit) as Hs. apply (f_equal (@length Z)) in E.
  rewrite strings_length, !length_app in E. unfold INT_MIN. lia.
Qed.

Lemma read_string i s : strs !! i = Some s -> bc_string (file_of p) i = Done s.
Proof using Hfit.
  intros Hi. unfold bc_string. rewrite read_header. cbn [mbind outcome_bind bcheader_of bch_nops bch_nfunctions]. rewrite !Nat2Z.id.
  set (base := (sizeof_bcheader + length code * sizeof_instruction + length (p_finfo p) * sizeof_funinfo + length strs * sizeof_int)%nat).
  destruct (offsets_lookup strs base i s Hi) as (pre & post & E & Ho).
  destruct (concat_at int_bytes 4 (offsets strs base) i (Z.of_nat (base + length pre))) as (pre1 & post1 & E1 & Hl1); [done | done |].
  assert (length (header_bytes (bcheader_of p) ++ concat (map instruction_bytes code) ++ concat (map funinfo_bytes (p_finfo p))) =
    (sizeof_bcheader + length code * sizeof_instruction + length (p_finfo p) * sizeof_funinfo)%nat) as Hlen.
  { rewrite !length_app, (concat_length instruction_bytes sizeof_instruction), (concat_length funinfo_bytes sizeof_funinfo) by done.
    change (length (header_bytes (bcheader_of p))) with sizeof_bcheader. lia. }
  set (front := header_bytes (bcheader_of p) ++ concat (map instruction_bytes code) ++ concat (map funinfo_bytes (p_finfo p))) in *.
  assert (file_of p = (front ++ pre1) ++ int_bytes (Z.of_nat (base + length pre)) ++ post1 ++ concat (map string_bytes strs)) as Ef1.
  { unfold file_of. fold base. unfold ints_bytes. rewrite E1. unfold front. by rewrite <- !app_assoc. }
  assert (file_of p = (front ++ ints_bytes (offsets strs base) ++ pre) ++ string_bytes s ++ post) as Ef2.
  { unfold file_of. fold base. rewrite E. unfold front. by rewrite <- !app_assoc. }
  rewrite Ef1 at 1. rewrite load_int_at; [| |].
  - cbn [mbind outcome_bind]. rewrite Nat2Z.id, Ef2. rewrite drop_at.
    + by apply load_string_bytes, (Forall_lookup_1 _ _ _ _ (if_strings _ Hfit) Hi).
    + rewrite !length_app, Hlen. unfold ints_bytes. rewrite (concat_length int_bytes 4), offsets_length by done. unfold base, sizeof_int. lia.
  - rewrite length_app, Hlen, Hl1. done.
  - eapply offset_fits; [exact Hi | exact E |]. done.
Qed.

Lemma read_function_name fno fi s : p_finfo p !! fno = Some fi -> 0 <= fi_name fi -> strs !! Z.to_nat (fi_name fi) = Some s ->
  bc_function_name (file_of p) (Z.of_nat fno) = Done s.
Proof using Hfit.
  intros Hf H0 Hs. unfold bc_function_name. destruct (Z.gtb_spec 0 (Z.of_nat fno)) as [|_]; [lia|].
  rewrite Nat2Z.id, (read_funinfo fno fi Hf). cbn [mbind outcome_bind]. by apply read_string.
Qed.
End read.

(** ** Theorem *)

(** C25. The bytecode file of a program that fits is read back as it was written.
    [gen_bytecode] returns whatever the new block held, its writes stay inside
    the block and fill it, and in the result the readers of the runtime find
    the counts and addresses of the header, every instruction, every row of
    the function table, every string and the name of every function. *)
Theorem image_roundtrip malloc p : (forall n, length (malloc n) = n) -> image_fits p ->
  exists data, gen_bytecode malloc p = Done data /\ length data = bytecode_size p /\
    bc_header data = Done (bcheader_of p) /\
    (forall i instr, instructions (p_comp p) !! i = Some instr -> bc_instruction data i = Done instr) /\
    (forall fno fi, p_finfo p !! fno = Some fi -> bc_funinfo data fno = Done fi) /\
    (forall i s, stringmap (p_comp p) !! i = Some s -> bc_string data i = Done s) /\
    (forall fno fi s, p_finfo p !! fno = Some fi -> (0 <= fi_name fi)%Z -> stringmap (p_comp p) !! Z.to_nat (fi_name fi) = Some s ->
      bc_function_name data (Z.of_nat fno) = Done s).
Proof.
  intros Hm Hfit. exists (file_of p). split_and!.
  - by apply gen_bytecode_layout, if_size.
  - unfold file_of. rewrite !length_app, (concat_length instruction_bytes sizeof_instruction), (concat_length funinfo_bytes sizeof_funinfo) by done.
    unfold ints_bytes. rewrite (concat_length int_bytes 4), offsets_length by done. rewrite strings_length.
    change (length (header_bytes (bcheader_of p))) with sizeof_bcheader. unfold bytecode_size, strings_size, sizeof_int. lia.
  - by apply read_header.
  - intros i instr. by apply read_instruction.
  - intros fno fi. by apply read_funinfo.
  - intros i s. by apply read_string.
  - intros fno fi s. by apply read_function_name.
Qed.

(** The program [f x = x] with one function. *)
Definition sample_file : program :=
  Program (Compilation [Instruction OP_GLOBSTART 0 1 (-1) (-1) 1; Instruction OP_RETURN 0 0 (-1) 7 1] ["f.elc"; "f"] None)
    [Funinfo 0 0 1 1 1 1] 0 1 0.

Lemma image_roundtrip_witness :
  exists data, gen_bytecode (fun n => replicate n 170) sample_file = Done data /\ length data = bytecode_size sample_file /\
    bc_header data = Done (bcheader_of sample_file) /\
    (forall i instr, instructions (p_comp sample_file) !! i = Some instr -> bc_instruction data i = Done instr) /\
    (forall fno fi, p_finfo sample_file !! fno = Some fi -> bc_funinfo data fno = Done fi) /\
    (forall i s, stringmap (p_comp sample_file) !! i = Some s -> bc_string data i = Done s) /\
    (forall fno fi s, p_finfo sample_file !! fno = Some fi -> (0 <= fi_name fi)%Z ->
      stringmap (p_comp sample_file) !! Z.to_nat (fi_name fi) = Some s -> bc_function_name data (Z.of_nat fno) = Done s).
Proof.
  apply (image_roundtrip (fun n => replicate n 170) sample_file); [intros n; apply length_replicate|].
  split; [vm_compute; discriminate | | | |]; repeat (apply Forall_cons; split); try apply Forall_nil; try done;
    repeat (apply Forall_cons; split); try (by apply Forall_nil); try (vm_compute; split; discriminate).
Defined.

(** ** From addresses to functions *)

(** The rows have different addresses, all inside the code. *)
Definition starts_ok (finfo : list funinfo) (n : nat) : Prop :=
  (forall k fi, finfo !! k = Some fi -> 0 <= fi_address fi < Z.of_nat n) /\
  (forall k k' fi fi', finfo !! k = Some fi -> finfo !! k' = Some fi' -> fi_address fi = fi_address fi' -> k = k').

Lemma mark_starts_ok finfo : forall fno m, starts_ok finfo (length m) ->
  exists m', mark_starts fno finfo m = Done m' /\ length m' = length m /\
    (forall k fi, finfo !! k = Some fi -> m' !! Z.to_nat (fi_address fi) = Some (Z.of_nat (fno + k))) /\
    (forall a, (forall k fi, finfo !! k = Some fi -> fi_address fi <> Z.of_nat a) -> m' !! a = m !! a).
Proof.
  induction finfo as [|fi finfo IH]; intros fno m [Hr Hd]; cbn [mark_starts]; [by exists m|].
  pose proof (Hr 0%nat fi eq_refl) as H0. rewrite (proj2 (Z.leb_le _ _)), (proj2 (Z.ltb_lt _ _)) by lia.
  cbn [andb cassert mbind outcome_bind].
  destruct (IH (S fno) (<[Z.to_nat (fi_address fi):=Z.of_nat fno]> m)) as (m' & -> & Hl & Hin & Hout).
  { rewrite length_insert. split; [intros k fi' Hk; by apply (Hr (S k)) |].
    intros k k' fi1 fi2 H1 H2 E. specialize (Hd (S k) (S k') fi1 fi2 H1 H2 E). lia. }
  rewrite length_insert in Hl. exists m'. split_and!; [done | done | |].
  - intros [|k] fi' Hk; [|rewrite (Hin k fi' Hk); f_equal; lia]. injection Hk as ->.
    rewrite Hout, list_lookup_insert_eq by (try lia; intros k fi2 H2 E; specialize (Hd (S k) 0%nat fi2 fi' H2 eq_refl ltac:(lia)); lia).
    by rewrite Nat.add_0_r.
  - intros a Ha. rewrite Hout by (intros k fi' Hk; by apply (Ha (S k))). apply list_lookup_insert_ne.
    specialize (Ha 0%nat fi eq_refl). lia.
Qed.

Lemma carry_over_at m : forall cur s k z, m !! s = Some z -> 0 <= z ->
  (forall j, (s < j <= s + k)%nat -> exists y, m !! j = Some y /\ y < 0) -> carry_over cur m !! (s + k)%nat = Some z.
Proof.
  induction m as [|x m IH]; intros cur s k z Hs Hz Hj; [done|]. cbn [carry_over]. destruct s as [|s].
  - injection Hs as ->. rewrite (proj2 (Z.leb_le _ _)) by done. cbn [Nat.add]. clear IH.
    revert m Hj. induction k as [|k IHk]; intros m Hj; [done|]. destruct (Hj 1%nat ltac:(lia)) as (y & Hy & Hn).
    destruct m as [|y' m]; [done|]. injection Hy as ->. cbn [carry_over]. rewrite (proj2 (Z.leb_gt _ _)) by done.
    rewrite lookup_cons_ne_0 by done. cbn [Nat.pred]. apply IHk. intros j Hjk.
    destruct (Hj (S j) ltac:(lia)) as (w & Hw & ?). exists w. split; [|done]. destruct j as [|j]; [lia|]. exact Hw.
  - rewrite lookup_cons_ne_0 by done. cbn [Nat.add Nat.pred]. apply IH; [done | done |]. intros j Hjk. apply (Hj (S j)). lia.
Qed.

Lemma carry_over_length m : forall cur, length (carry_over cur m) = length m.
Proof. induction m as [|x m IH]; intros cur; cbn; [done | by rewrite IH]. Qed.

Lemma ready_start p fno fi nargs : p_finfo p !! fno = Some fi -> function_ready p fno nargs ->
  exists g, instructions (p_comp p) !! Z.to_nat (fi_address fi) = Some g /\ i_opcode g = OP_GLOBSTART /\ i_arg0 g = Z.of_nat fno /\ 0 <= fi_address fi.
Proof.
  intros Hf (pre & code & post & fi' & E & Hf' & Hc & _). assert (fi' = fi) as -> by congruence.
  destruct (fc_start _ _ _ _ _ Hc) as (g & rest & -> & Hg & Ha & _). exists g. rewrite (fc_address _ _ _ _ _ Hc), Nat2Z.id, E.
  split_and!; [|done|done|lia]. by rewrite lookup_app_r, Nat.sub_diag by lia.
Qed.

(** C26. The runtime's map from code addresses to functions, used for reports and
    statistics, is right for every program the compiler lays out: it is built
    without a write outside the array, and every address inside the code of a
    function is mapped to that function. *)
Theorem function_of_address p : (forall fno fi, p_finfo p !! fno = Some fi -> exists nargs, function_ready p fno nargs) ->
  exists m, bcaddr_to_fno (p_finfo p) (length (instructions (p_comp p))) = Done m /\ length m = length (instructions (p_comp p)) /\
    forall fno nargs pre code post fi k, instructions (p_comp p) = pre ++ code ++ post -> p_finfo p !! fno = Some fi ->
      function_code fno nargs (length pre) code fi -> (k < length code)%nat -> m !! (length pre + k)%nat = Some (Z.of_nat fno).
Proof.
  intros Hready. set (n := length (instructions (p_comp p))).
  assert (starts_ok (p_finfo p) n) as Hok.
  { split.
    - intros k fi Hk. destruct (Hready k fi Hk) as (nargs & Hr). destruct (ready_start p k fi nargs Hk Hr) as (g & Hg & _ & _ & H0).
      apply lookup_lt_Some in Hg. unfold n. lia.
    - intros k k' fi fi' Hk Hk' E. destruct (Hready k fi Hk) as (na & Hr). destruct (Hready k' fi' Hk') as (na' & Hr').
      destruct (ready_start p k fi na Hk Hr) as (g & Hg & _ & Ha & _). destruct (ready_start p k' fi' na' Hk' Hr') as (g' & Hg' & _ & Ha' & _).
      rewrite E in Hg. assert (g' = g) as -> by congruence. lia. }
  unfold bcaddr_to_fno. destruct (mark_starts_ok (p_finfo p) 0 (replicate n (-1))) as (m & -> & Hl & Hin & Hout).
  { by rewrite length_replicate. }
  rewrite length_replicate in Hl. cbn [mbind outcome_bind]. eexists. split; [reflexivity|]. split; [by rewrite carry_over_length|].
  intros fno nargs pre code post fi k E Hf Hc Hk. pose proof (fc_address _ _ _ _ _ Hc) as Hadr.
  apply carry_over_at; [|lia|].
  - specialize (Hin fno fi Hf). rewrite Hadr, Nat2Z.id in Hin. exact Hin.
  - intros j Hj. exists (-1). split; [|lia]. rewrite Hout.
    + apply lookup_replicate. split; [done|]. unfold n. rewrite E, !length_app. lia.
    + intros k' fi' Hk' Ea. destruct (Hready k' fi' Hk') as (na & Hr). destruct (ready_start p k' fi' na Hk' Hr) as (g & Hg & Hop & _).
      destruct (fc_start _ _ _ _ _ Hc) as (g0 & rest & -> & _ & _ & _ & Hinner). rewrite Ea, Nat2Z.id, E in Hg. cbn [length] in Hk.
      rewrite lookup_app_r in Hg by lia. replace (j - length pre)%nat with (S (j - length pre - 1)) in Hg by lia.
      rewrite <- app_comm_cons, lookup_cons_ne_0 in Hg by done. cbn [Nat.pred] in Hg.
      rewrite lookup_app_l in Hg by lia. by apply (Forall_lookup_1 _ _ _ _ Hinner Hg).
Qed.

Lemma function_of_address_witness :
  exists m, bcaddr_to_fno (p_finfo sample_file) 2 = Done m /\ length m = 2%nat /\
    forall fno nargs pre code post fi k, instructions (p_comp sample_file) = pre ++ code ++ post -> p_finfo sample_file !! fno = Some fi ->
      function_code fno nargs (length pre) code fi -> (k < length code)%nat -> m !! (length pre + k)%nat = Some (Z.of_nat fno).
Proof.
  apply (function_of_address sample_file). intros [|fno] fi Hf; [|done]. injection Hf as <-. exists 1%nat.
  exists [], (instructions (p_comp sample_file)), [], (Funinfo 0 0 1 1 1 1). split_and!; try reflexivity.
  - split; cbn; try lia. eexists _, _. split_and!; try reflexivity. by repeat constructor.
  - intros i Hi. cbn in Hi. rewrite !elem_of_cons in Hi. destruct Hi as [->|[->|Hi]]; cbn; [lia | lia | by apply not_elem_of_nil in Hi].
Defined.
