(* ===== verification/Chain.v ===== *)
(** * Linked lists threaded through a store

    The run-time system links frames and globals by pointer fields inside
    them: the run queue, the wait queues, the free list and the chains of the
    hash tables. [chain m next a l] says that following [next] from [a] visits
    exactly the addresses [l] and ends at [NULL]. *)

From S2P Require Import Prelude.
#[local] Open Scope Z_scope.

Section chain.
Context {A : Type} (next : A -> Z).

Inductive chain (m : gmap Z A) : Z -> list Z -> Prop :=
| chain_nil : chain m 0 []
| chain_cons a x l : a <> 0 -> m !! a = Some x -> chain m (next x) l -> chain m a (a :: l).

Lemma chain_0 m l : chain m 0 l <-> l = [].
Proof. split; [by inversion 1|]. intros ->. constructor. Qed.

Lemma chain_nonzero m a l : chain m a l -> a <> 0 -> exists x l', l = a :: l' /\ m !! a = Some x /\ chain m (next x) l'.
Proof. inversion 1; subst; [done|]. intros _. eauto. Qed.

Lemma chain_hd m a l : chain m a (a :: l) -> a <> 0 /\ exists x, m !! a = Some x /\ chain m (next x) l.
Proof. inversion 1; subst. eauto. Qed.

Lemma chain_det m a l1 : chain m a l1 -> forall l2, chain m a l2 -> l1 = l2.
Proof.
  induction 1 as [|a x l Ha Hx Hc IH]; intros l2 H2; inversion H2; subst; try done.
  simplify_eq. f_equal. by apply IH.
Qed.

Lemma chain_member m a l b : chain m a l -> b ∈ l -> b <> 0 /\ is_Some (m !! b).
Proof.
  induction 1 as [|a x l Ha Hx Hc IH]; intros Hb; [by apply not_elem_of_nil in Hb|].
  apply elem_of_cons in Hb as [->|Hb]; eauto.
Qed.

(** From a member on, the list is a suffix. *)
Lemma chain_suffix m a l b :
  chain m a l -> b ∈ l -> exists l1 l2, l = l1 ++ b :: l2 /\ chain m b (b :: l2).
Proof.
  induction 1 as [|a x l Ha Hx Hc IH]; intros Hb; [by apply not_elem_of_nil in Hb|].
  apply elem_of_cons in Hb as [->|Hb].
  - exists [], l. split; [done|]. by econstructor.
  - destruct (IH Hb) as (l1 & l2 & -> & H2). exists (a :: l1), l2. done.
Qed.

Lemma chain_NoDup m a l : chain m a l -> NoDup l.
Proof.
  intros H. remember (length l) as n eqn:Hn. revert a l H Hn.
  induction n as [|n IH]; intros a l H Hn; destruct H as [|a x l Ha Hx Hc]; try done; [constructor|].
  injection Hn as Hn. constructor; [|by eapply IH].
  intros Hin. destruct (chain_suffix _ _ _ _ Hc Hin) as (l1 & l2 & El & Hc2).
  assert (a :: l = a :: l2) as E.
  { eapply chain_det; [by econstructor | exact Hc2]. }
  injection E as E. apply (f_equal length) in El. rewrite length_app in El. cbn in El. subst l2. lia.
Qed.

(** Changes to the store that leave the chain alone. *)
Lemma chain_insert_same m a l b y y' :
  chain m a l -> m !! b = Some y -> next y' = next y -> chain (<[b := y']> m) a l.
Proof.
  intros H Hb E. induction H as [|a x l Ha Hx Hc IH]; [constructor|].
  destruct (decide (a = b)) as [->|Hne].
  - simplify_eq. apply (chain_cons _ _ y'); [done | by rewrite lookup_insert_eq | by rewrite E].
  - apply (chain_cons _ _ x); [done | by rewrite lookup_insert_ne | done].
Qed.

Lemma chain_insert_notin m a l b y : chain m a l -> b ∉ l -> chain (<[b := y]> m) a l.
Proof.
  induction 1 as [|a x l Ha Hx Hc IH]; intros Hb; [constructor|].
  rewrite not_elem_of_cons in Hb. destruct Hb as [Hne Hb].
  apply (chain_cons _ _ x); [done | by rewrite lookup_insert_ne | by apply IH].
Qed.

Lemma chain_push m a l b y : chain m a l -> b <> 0 -> b ∉ l -> next y = a -> chain (<[b := y]> m) b (b :: l).
Proof.
  intros H Hb Hl E. apply (chain_cons _ _ y); [done | by rewrite lookup_insert_eq|].
  rewrite E. by apply chain_insert_notin.
Qed.

(** Another store that agrees on the [next] fields. *)
Lemma chain_agree m m' a l :
  chain m a l -> (forall b x, b ∈ l -> m !! b = Some x -> exists x', m' !! b = Some x' /\ next x' = next x) ->
  chain m' a l.
Proof.
  induction 1 as [|a x l Ha Hx Hc IH]; intros Hm; [constructor|].
  destruct (Hm a x ltac:(left) Hx) as (x' & Hx' & E).
  apply (chain_cons _ _ x'); [done | done|]. rewrite E. apply IH. intros b y Hb. apply Hm. by right.
Qed.

Lemma chain_subset_size m a l : chain m a l -> (length l <= size m)%nat.
Proof.
  intros H. apply chain_NoDup in H as Hnd. rewrite <- (size_dom (D := gset Z)), <- (size_list_to_set (C := gset Z) l) by done.
  apply subseteq_size. intros b Hb. apply elem_of_list_to_set in Hb. apply elem_of_dom. by eapply chain_member.
Qed.

(** Unlinking a member: the one before it, if any, takes over its [next]. *)
Lemma chain_app m a l1 l2 : chain m a (l1 ++ l2) -> exists b, chain m b l2.
Proof.
  revert a. induction l1 as [|c l1 IH]; intros a H; cbn in H; [eauto|].
  inversion H; subst. eauto.
Qed.
End chain.

#[export] Hint Constructors chain : nred.
