(* ===== verification/Arith.v ===== *)
(** * Arithmetic on doubles (src/nreduce/runtime/builtins.c)

    The arithmetic operators of C on [double], on bit patterns. The program
    runs with the invalid-operation exception unmasked ([enable_invalid_fpe]),
    so an operation that would make a NaN out of numbers, an ordered
    comparison with a NaN and a conversion that does not fit an [int] raise
    SIGFPE: their result here is [None]. Results are rounded to double
    precision at once. *)

From Stdlib Require Import SpecFloat.
From S2P Require Import Prelude Double Pointer.
#[local] Open Scope Z_scope.

(** ** Bit patterns and values *)

Definition to_sf (b : Z) : spec_float :=
  let s := double_sign b in
  let m := double_frac b in
  let e := double_exp b in
  if e =? 2047 then (if m =? 0 then S754_infinity s else S754_nan)
  else if e =? 0 then (if m =? 0 then S754_zero s else S754_finite s (Z.to_pos m) (-1074))
  else S754_finite s (Z.to_pos (m + 2^52)) (e - 1075).

Definition sign_bit (s : bool) : Z := if s then 2^63 else 0.

(** The significand of a number below [2^52] is a subnormal one; the result
    is reduced to the 64 bits of a [double]. *)
Definition of_sf (f : spec_float) : Z :=
  match f with
  | S754_zero s => sign_bit s
  | S754_infinity s => sign_bit s + 2047 * 2^52
  | S754_nan => NAN_BITS
  | S754_finite s m e =>
      (sign_bit s + (if Z.pos m <? 2^52 then Z.pos m else (e + 1075) * 2^52 + (Z.pos m - 2^52))) mod 2^64
  end.

Definition sf_is_nan (f : spec_float) : bool := match f with S754_nan => true | _ => false end.

(** An operation that is invalid when it makes a NaN of two numbers. *)
Definition checked (op : spec_float -> spec_float -> spec_float) (a b : Z) : option Z :=
  let r := op (to_sf a) (to_sf b) in
  if sf_is_nan r && negb (is_nan a) && negb (is_nan b) then None else Some (of_sf r).

Definition fadd : Z -> Z -> option Z := checked (SFadd 53 1024).
Definition fsub : Z -> Z -> option Z := checked (SFsub 53 1024).
Definition fmul : Z -> Z -> option Z := checked (SFmul 53 1024).
Definition fdiv : Z -> Z -> option Z := checked (SFdiv 53 1024).

Definition fsqrt (a : Z) : option Z :=
  let r := SFsqrt 53 1024 (to_sf a) in
  if sf_is_nan r && negb (is_nan a) then None else Some (of_sf r).

(** [fmod]: the remainder of the truncating division, which is exact. *)
Definition sf_mod (x y : spec_float) : spec_float :=
  match x, y with
  | S754_nan, _ | _, S754_nan | S754_infinity _, _ | _, S754_zero _ => S754_nan
  | S754_zero _, _ | _, S754_infinity _ => x
  | S754_finite sx mx ex, S754_finite _ my ey =>
      let e := Z.min ex ey in
      let r := (Z.pos mx * 2^(ex - e)) mod (Z.pos my * 2^(ey - e)) in
      binary_normalize 53 1024 (if sx then - r else r) e sx
  end.
Definition ffmod : Z -> Z -> option Z := checked sf_mod.

(** [floor] and [ceil] of a finite number of scale below 0. *)
Definition sf_round (up : bool) (x : spec_float) : spec_float :=
  match x with
  | S754_finite s m e =>
      if 0 <=? e then x
      else
        let v := (if s then - Z.pos m else Z.pos m) in
        let q := if up then - ((- v) / 2^(-e)) else v / 2^(-e) in
        binary_normalize 53 1024 q 0 s
  | _ => x
  end.
Definition ffloor (a : Z) : Z := of_sf (sf_round false (to_sf a)).
Definition fceil (a : Z) : Z := of_sf (sf_round true (to_sf a)).

(** ** Comparison *)

Definition feqb (a b : Z) : bool := SFeqb (to_sf a) (to_sf b).
Definition ordered (a b : Z) (r : bool) : option bool :=
  if is_nan a || is_nan b then None else Some r.
Definition fltb (a b : Z) : option bool := ordered a b (SFltb (to_sf a) (to_sf b)).
Definition fleb (a b : Z) : option bool := ordered a b (SFleb (to_sf a) (to_sf b)).

(** ** Integers *)

(** [(double)i] is exact. *)
Definition double_of_int (i : Z) : Z := of_sf (binary_normalize 53 1024 i 0 false).

(** [(int)x] truncates. *)
Definition trunc_int (a : Z) : option Z :=
  match to_sf a with
  | S754_zero _ => Some 0
  | S754_finite s m e =>
      let v := (if 0 <=? e then Z.pos m * 2^e else Z.pos m / 2^(-e)) in
      let v := if s then - v else v in
      if in_int v then Some v else None
  | _ => None
  end.

(** ** Reading and writing agree *)

Lemma double_parts b :
  0 <= b < 2^64 -> b = sign_bit (double_sign b) + double_exp b * 2^52 + double_frac b /\
  0 <= double_exp b < 2048 /\ 0 <= double_frac b < 2^52.
Proof.
  intros Hb. rewrite double_exp_div, double_frac_mod by done.
  pose proof (Z.mod_pos_bound b (2^52)). pose proof (Z.mod_pos_bound (b / 2^52) (2^11)).
  split; [|lia]. pose proof (Z.div_mod b (2^52)). pose proof (Z.div_mod (b / 2^52) (2^11)).
  assert (b / 2^52 / 2^11 = Z.b2z (double_sign b)) as Hs.
  { unfold double_sign. rewrite Z.testbit_spec' by lia. rewrite Z.div_div by lia.
    change (2^52 * 2^11) with (2^63). symmetry. apply Z.mod_small.
    split; [apply Z.div_pos; lia | apply Z.div_lt_upper_bound; lia]. }
  destruct (double_sign b); cbn [Z.b2z sign_bit] in *; lia.
Qed.

(** A bit pattern that is not a NaN is recovered from the number it stands
    for; every result of an operation is again a bit pattern. *)
Theorem double_bits_roundtrip b : 0 <= b < 2^64 -> is_nan b = false -> of_sf (to_sf b) = b.
Proof.
  intros Hb Hn. destruct (double_parts b Hb) as (E & He & Hm). unfold is_nan in Hn. unfold to_sf.
  destruct (Z.eqb_spec (double_exp b) 2047) as [E1|E1].
  - cbn [andb] in Hn. apply negb_false_iff in Hn. rewrite Hn. apply Z.eqb_eq in Hn. cbn [of_sf]. lia.
  - destruct (Z.eqb_spec (double_exp b) 0) as [E0|E0].
    + destruct (Z.eqb_spec (double_frac b) 0) as [F0|F0]; cbn [of_sf]; [lia|].
      rewrite Z2Pos.id by lia. rewrite (proj2 (Z.ltb_lt _ _)) by lia. rewrite Z.mod_small; lia.
    + cbn [of_sf]. rewrite Z2Pos.id by lia. rewrite (proj2 (Z.ltb_ge _ _)) by lia.
      rewrite Z.mod_small; lia.
Qed.

Lemma double_bits_roundtrip_witness : of_sf (to_sf 4613937818241073152) = 4613937818241073152.
Proof. apply double_bits_roundtrip; [split; [discriminate | reflexivity] | reflexivity]. Defined.

Lemma of_sf_range f : 0 <= of_sf f < 2^64.
Proof.
  destruct f as [s|s| |s m e]; cbn [of_sf]; unfold sign_bit, NAN_BITS; try (destruct s; lia); [lia|].
  apply Z.mod_pos_bound. lia.
Qed.

(** 1.5 + 2.25 = 3.75, -7 mod 3 = -1, floor(-1.5) = -2, -1/0 = -INF, 0/0 traps. *)
Example fadd_example : fadd 4609434218613702656 4612248968380809216 = Some 4615626668101337088.
Proof. reflexivity. Qed.
Example ffmod_example : ffmod (double_of_int (-7)) (double_of_int 3) = Some (double_of_int (-1)).
Proof. vm_compute. reflexivity. Qed.
Example ffloor_example : ffloor 13832806255468478464 = double_of_int (-2).
Proof. vm_compute. reflexivity. Qed.
Example fdiv_infinity : fdiv (double_of_int (-1)) 0 = Some NEG_INFINITY.
Proof. vm_compute. reflexivity. Qed.
Example fdiv_invalid : fdiv 0 0 = None.
Proof. vm_compute. reflexivity. Qed.
