(* ===== verification/Memory.v ===== *)
(** * Objects and allocation (src/nreduce/runtime/memory.c, runtime.h)

    The state of a task, the monad its operations run in, and the allocator:
    heap objects (cells, caps, arrays) are carved out of the blocks of the new
    generation, frames out of frame blocks with a free list. An address is the
    [unsigned int] the C code computes with; [NULL] is 0. *)

From S2P Require Import Prelude Source Bytecode Compile Pointer.
#[local] Open Scope Z_scope.

(** ** Objects *)

Record gaddr := Gaddr { ga_tid : Z; ga_lid : Z }.

Record cell := Cell { c_type : Z; c_flags : Z; c_field1 : pntr; c_field2 : pntr }.

(** [cap_room] is the number of elements [data] was allocated with; [data]
    holds the [count] that are in use. *)
Record cap := Cap {
  cap_arity : Z; cap_address : Z; cap_fno : Z; cap_sl : sourceloc; cap_c : Z;
  cap_room : Z; cap_data : list pntr
}.
Definition cap_count (c : cap) : Z := Z.of_nat (length (cap_data c)).

(** [elements] of an array: pointers ([elemsize] is [sizeof(pntr)]) or
    characters ([elemsize] is 1); the [size] elements in use. *)
Inductive elements :=
| Pntrs (l : list pntr)
| Chars (l : list ascii).
Record carray := Carray { ca_alloc : Z; ca_elements : elements; ca_multiref : bool; ca_nchars : Z }.
Definition ca_size (a : carray) : Z :=
  match ca_elements a with Pntrs l => Z.of_nat (length l) | Chars l => Z.of_nat (length l) end.
Definition sizeof_pntr : Z := 8.
Definition ca_elemsize (a : carray) : Z :=
  match ca_elements a with Pntrs _ => sizeof_pntr | Chars _ => 1 end.

(** What an address of the heap holds: caps and arrays carry their size. *)
Inductive object :=
| OCell (c : cell)
| OCap (flags nbytes : Z) (c : cap)
| OArray (flags nbytes : Z) (a : carray).

Definition obj_type (o : object) : Z :=
  match o with OCell c => c_type c | OCap _ _ _ => CELL_O_CAP | OArray _ _ _ => CELL_O_ARRAY end.
Definition obj_flags (o : object) : Z :=
  match o with OCell c => c_flags c | OCap f _ _ => f | OArray f _ _ => f end.
Definition obj_set_flags (fl : Z) (o : object) : object :=
  match o with
  | OCell c => OCell (Cell (c_type c) fl (c_field1 c) (c_field2 c))
  | OCap _ n c => OCap fl n c
  | OArray _ n a => OArray fl n a
  end.

Definition FLAG_MARKED : Z := 1.
Definition FLAG_NEW : Z := 2.
Definition FLAG_DMB : Z := 4.
Definition FLAG_MATURE : Z := 32.
Definition FLAG_INRSET : Z := 64.
Definition has_flag (fl bit : Z) : bool := negb (Z.land fl bit =? 0).

Definition sizeof_cell : Z := 24.
Definition sizeof_cap : Z := 44.
Definition sizeof_frame : Z := 56.
Definition BLOCK_BYTES : Z := 32 * 1048576 - 1024.
Definition BLOCK_START : Z := 8.
Definition BLOCK_END : Z := BLOCK_START + BLOCK_BYTES.
Definition sizeof_block : Z := BLOCK_END.
Definition FRAMEBLOCK_SIZE : Z := 1048576.

(** ** Frames *)

Inductive frame_state := STATE_UNALLOCATED | STATE_NEW | STATE_SPARKED | STATE_ACTIVE | STATE_DONE.
#[export] Instance frame_state_eq_dec : EqDecision frame_state.
Proof. solve_decision. Defined.

(** [f_instr] is an index into the program, [f_retp] the frame and the slot
    it points into. *)
Record frame := Frame {
  f_instr : option Z; f_wq_frames : Z; f_wq_fetchers : list gaddr; f_c : Z; f_state : frame_state;
  f_resume : Z; f_retp : option (Z * Z); f_freelnk : Z; f_waitlnk : Z; f_rnext : Z;
  f_postponed : bool; f_sprev : Z; f_snext : Z; f_data : list pntr
}.

Definition set_f_instr (x : option Z) (f : frame) : frame :=
  Frame x (f_wq_frames f) (f_wq_fetchers f) (f_c f) (f_state f) (f_resume f) (f_retp f) (f_freelnk f)
    (f_waitlnk f) (f_rnext f) (f_postponed f) (f_sprev f) (f_snext f) (f_data f).
Definition set_f_wq_frames (x : Z) (f : frame) : frame :=
  Frame (f_instr f) x (f_wq_fetchers f) (f_c f) (f_state f) (f_resume f) (f_retp f) (f_freelnk f)
    (f_waitlnk f) (f_rnext f) (f_postponed f) (f_sprev f) (f_snext f) (f_data f).
Definition set_f_wq_fetchers (x : list gaddr) (f : frame) : frame :=
  Frame (f_instr f) (f_wq_frames f) x (f_c f) (f_state f) (f_resume f) (f_retp f) (f_freelnk f)
    (f_waitlnk f) (f_rnext f) (f_postponed f) (f_sprev f) (f_snext f) (f_data f).
Definition set_f_c (x : Z) (f : frame) : frame :=
  Frame (f_instr f) (f_wq_frames f) (f_wq_fetchers f) x (f_state f) (f_resume f) (f_retp f) (f_freelnk f)
    (f_waitlnk f) (f_rnext f) (f_postponed f) (f_sprev f) (f_snext f) (f_data f).
Definition set_f_state (x : frame_state) (f : frame) : frame :=
  Frame (f_instr f) (f_wq_frames f) (f_wq_fetchers f) (f_c f) x (f_resume f) (f_retp f) (f_freelnk f)
    (f_waitlnk f) (f_rnext f) (f_postponed f) (f_sprev f) (f_snext f) (f_data f).
Definition set_f_retp (x : option (Z * Z)) (f : frame) : frame :=
  Frame (f_instr f) (f_wq_frames f) (f_wq_fetchers f) (f_c f) (f_state f) (f_resume f) x (f_freelnk f)
    (f_waitlnk f) (f_rnext f) (f_postponed f) (f_sprev f) (f_snext f) (f_data f).
Definition set_f_freelnk (x : Z) (f : frame) : frame :=
  Frame (f_instr f) (f_wq_frames f) (f_wq_fetchers f) (f_c f) (f_state f) (f_resume f) (f_retp f) x
    (f_waitlnk f) (f_rnext f) (f_postponed f) (f_sprev f) (f_snext f) (f_data f).
Definition set_f_waitlnk (x : Z) (f : frame) : frame :=
  Frame (f_instr f) (f_wq_frames f) (f_wq_fetchers f) (f_c f) (f_state f) (f_resume f) (f_retp f)
    (f_freelnk f) x (f_rnext f) (f_postponed f) (f_sprev f) (f_snext f) (f_data f).
Definition set_f_rnext (x : Z) (f : frame) : frame :=
  Frame (f_instr f) (f_wq_frames f) (f_wq_fetchers f) (f_c f) (f_state f) (f_resume f) (f_retp f)
    (f_freelnk f) (f_waitlnk f) x (f_postponed f) (f_sprev f) (f_snext f) (f_data f).
Definition set_f_sprev (x : Z) (f : frame) : frame :=
  Frame (f_instr f) (f_wq_frames f) (f_wq_fetchers f) (f_c f) (f_state f) (f_resume f) (f_retp f)
    (f_freelnk f) (f_waitlnk f) (f_rnext f) (f_postponed f) x (f_snext f) (f_data f).
Definition set_f_snext (x : Z) (f : frame) : frame :=
  Frame (f_instr f) (f_wq_frames f) (f_wq_fetchers f) (f_c f) (f_state f) (f_resume f) (f_retp f)
    (f_freelnk f) (f_waitlnk f) (f_rnext f) (f_postponed f) (f_sprev f) x (f_data f).
Definition set_f_data (x : list pntr) (f : frame) : frame :=
  Frame (f_instr f) (f_wq_frames f) (f_wq_fetchers f) (f_c f) (f_state f) (f_resume f) (f_retp f)
    (f_freelnk f) (f_waitlnk f) (f_rnext f) (f_postponed f) (f_sprev f) (f_snext f) x.

(** ** The task *)

(** A message to another task and the values its format string names; how
    they are laid out in bytes is data.c's business. *)
Inductive msg_item := MAddr (a : gaddr) | MPntr (p : pntr) | MInt (i : Z) | MText (s : string).
Inductive destination := ToTask (tid : Z) | ToClient.
Inductive msg_name := MSG_RESPOND | MSG_FETCH | MSG_FISH | MSG_REPORT_ERROR.
Record message := Message { msg_dest : destination; msg_tag : msg_name; msg_items : list msg_item }.

(** An object other tasks know, or a reference to an object of theirs; the
    fields only the distributed collection uses are left out. *)
Record global := Global {
  g_addr : gaddr; g_p : pntr; g_fetching : bool; g_wq_frames : Z; g_wq_fetchers : list gaddr;
  g_flags : Z; g_targetnext : Z; g_physnext : Z; g_addrnext : Z
}.

(** The hash tables map a bucket to the first global of its chain; an absent
    bucket is [NULL]. *)
Record globaltab := Globaltab {
  gt_globals : gmap Z global;
  gt_list : list Z;             (* [tsk->globals] *)
  gt_targethash : gmap Z Z;
  gt_physhash : gmap Z Z;
  gt_addrhash : gmap Z Z;
  gt_nextlid : Z;
  gt_nfetching : Z;
  gt_indistgc : bool
}.

Record memory := Memory {
  m_heap : gmap Z object;
  m_newgen : list (Z * Z);      (* the blocks: address and [used] *)
  m_newgenoffset : Z;
  m_oldgenbytes : Z;
  m_need_minor : bool;
  m_newcellflags : Z;
  m_remembered : list Z
}.

Record framepool := Framepool {
  fp_frames : gmap Z frame;
  fp_blocks : list Z;
  fp_freeframe : Z;
  fp_run : Z;                   (* [*tsk->runptr] *)
  fp_sparklist : Z
}.

Record task := Task {
  t_tid : Z;
  t_prog : program;
  t_maxstack : Z;
  t_maxheap : Z;
  t_brk : Z;                    (* addresses from here on are unused *)
  t_mem : memory;
  t_pool : framepool;
  t_glob : globaltab;
  t_globnilpntr : pntr;
  t_globtruepntr : pntr;
  t_strings : list pntr;
  t_error : option string;
  t_errorsl : sourceloc;
  t_done : bool;
  t_interrupt : bool;           (* [endpt->interrupt] *)
  t_rc : Z;                     (* [endpt->rc] *)
  t_outbox : list message
}.

Definition set_brk (b : Z) (t : task) : task :=
  Task (t_tid t) (t_prog t) (t_maxstack t) (t_maxheap t) b (t_mem t) (t_pool t) (t_glob t) (t_globnilpntr t)
    (t_globtruepntr t) (t_strings t) (t_error t) (t_errorsl t) (t_done t) (t_interrupt t) (t_rc t) (t_outbox t).
Definition set_mem (m : memory) (t : task) : task :=
  Task (t_tid t) (t_prog t) (t_maxstack t) (t_maxheap t) (t_brk t) m (t_pool t) (t_glob t) (t_globnilpntr t)
    (t_globtruepntr t) (t_strings t) (t_error t) (t_errorsl t) (t_done t) (t_interrupt t) (t_rc t) (t_outbox t).
Definition set_pool (p : framepool) (t : task) : task :=
  Task (t_tid t) (t_prog t) (t_maxstack t) (t_maxheap t) (t_brk t) (t_mem t) p (t_glob t) (t_globnilpntr t)
    (t_globtruepntr t) (t_strings t) (t_error t) (t_errorsl t) (t_done t) (t_interrupt t) (t_rc t) (t_outbox t).
Definition set_glob (g : globaltab) (t : task) : task :=
  Task (t_tid t) (t_prog t) (t_maxstack t) (t_maxheap t) (t_brk t) (t_mem t) (t_pool t) g (t_globnilpntr t)
    (t_globtruepntr t) (t_strings t) (t_error t) (t_errorsl t) (t_done t) (t_interrupt t) (t_rc t) (t_outbox t).
Definition set_rc (r : Z) (t : task) : task :=
  Task (t_tid t) (t_prog t) (t_maxstack t) (t_maxheap t) (t_brk t) (t_mem t) (t_pool t) (t_glob t) (t_globnilpntr t)
    (t_globtruepntr t) (t_strings t) (t_error t) (t_errorsl t) (t_done t) (t_interrupt t) r (t_outbox t).
Definition set_task_error (e : option string) (sl : sourceloc) (t : task) : task :=
  Task (t_tid t) (t_prog t) (t_maxstack t) (t_maxheap t) (t_brk t) (t_mem t) (t_pool t) (t_glob t) (t_globnilpntr t)
    (t_globtruepntr t) (t_strings t) e sl (t_done t) (t_interrupt t) (t_rc t) (t_outbox t).
Definition set_done (d : bool) (t : task) : task :=
  Task (t_tid t) (t_prog t) (t_maxstack t) (t_maxheap t) (t_brk t) (t_mem t) (t_pool t) (t_glob t) (t_globnilpntr t)
    (t_globtruepntr t) (t_strings t) (t_error t) (t_errorsl t) d (t_interrupt t) (t_rc t) (t_outbox t).
Definition set_interrupt (i : bool) (t : task) : task :=
  Task (t_tid t) (t_prog t) (t_maxstack t) (t_maxheap t) (t_brk t) (t_mem t) (t_pool t) (t_glob t) (t_globnilpntr t)
    (t_globtruepntr t) (t_strings t) (t_error t) (t_errorsl t) (t_done t) i (t_rc t) (t_outbox t).
Definition set_outbox (o : list message) (t : task) : task :=
  Task (t_tid t) (t_prog t) (t_maxstack t) (t_maxheap t) (t_brk t) (t_mem t) (t_pool t) (t_glob t) (t_globnilpntr t)
    (t_globtruepntr t) (t_strings t) (t_error t) (t_errorsl t) (t_done t) (t_interrupt t) (t_rc t) o.

Definition set_heap (h : gmap Z object) (m : memory) : memory :=
  Memory h (m_newgen m) (m_newgenoffset m) (m_oldgenbytes m) (m_need_minor m) (m_newcellflags m) (m_remembered m).
Definition set_newgen (g : list (Z * Z)) (off : Z) (m : memory) : memory :=
  Memory (m_heap m) g off (m_oldgenbytes m) (m_need_minor m) (m_newcellflags m) (m_remembered m).
Definition set_need_minor (b : bool) (m : memory) : memory :=
  Memory (m_heap m) (m_newgen m) (m_newgenoffset m) (m_oldgenbytes m) b (m_newcellflags m) (m_remembered m).
Definition set_remembered (r : list Z) (m : memory) : memory :=
  Memory (m_heap m) (m_newgen m) (m_newgenoffset m) (m_oldgenbytes m) (m_need_minor m) (m_newcellflags m) r.

Definition set_frames (fs : gmap Z frame) (p : framepool) : framepool :=
  Framepool fs (fp_blocks p) (fp_freeframe p) (fp_run p) (fp_sparklist p).
Definition set_freeframe (x : Z) (p : framepool) : framepool :=
  Framepool (fp_frames p) (fp_blocks p) x (fp_run p) (fp_sparklist p).
Definition set_run (x : Z) (p : framepool) : framepool :=
  Framepool (fp_frames p) (fp_blocks p) (fp_freeframe p) x (fp_sparklist p).

Definition t_heap (t : task) : gmap Z object := m_heap (t_mem t).
Definition t_frames (t : task) : gmap Z frame := fp_frames (t_pool t).
Definition t_run (t : task) : Z := fp_run (t_pool t).
Definition t_sparklist (t : task) : Z := fp_sparklist (t_pool t).

(** ** The monad

    [MExit] is a call of [exit] or [fatal] (or of [malloc] without memory);
    [MCrash] a failed assertion or an access outside the model's memory;
    [MLoop] a loop that does not end; [MJump] is the [longjmp] of a signal
    handler out of the instruction being executed. *)
Inductive mres (A : Type) : Type :=
| MDone (a : A) (t : task)
| MExit (msg : string)
| MCrash
| MLoop
| MJump (t : task).
Arguments MDone {A} a t.
Arguments MJump {A} t.
Arguments MExit {A} msg.
Arguments MCrash {A}.
Arguments MLoop {A}.

Definition M (A : Type) : Type := task -> mres A.
#[export] Instance M_ret : MRet M := fun A a t => MDone a t.
#[export] Instance M_bind : MBind M := fun A B f m t =>
  match m t with
  | MDone a t => f a t
  | MExit msg => MExit msg
  | MCrash => MCrash
  | MLoop => MLoop
  | MJump t => MJump t
  end.

Definition gets {A} (f : task -> A) : M A := fun t => MDone (f t) t.
Definition modify (f : task -> task) : M unit := fun t => MDone tt (f t).
Definition fatal {A} (msg : string) : M A := fun _ => MExit msg.
Definition abort {A} : M A := fun _ => MCrash.
Definition longjmp {A} : M A := fun t => MJump t.
Definition diverge {A} : M A := fun _ => MLoop.
Definition massert (b : bool) : M unit := if b then mret tt else abort.
Definition mderef {A} (o : option A) : M A := match o with Some a => mret a | None => abort end.
Definition lift {A} (o : outcome A) : M A :=
  match o with Done a => mret a | Crash => abort | Timeout => diverge end.

(** ** Access to objects *)

Definition get_object (a : Z) : M object := h ← gets t_heap; mderef (h !! a).
Definition put_object (a : Z) (o : object) : M unit :=
  modify (fun t => set_mem (set_heap (<[a := o]> (t_heap t)) (t_mem t)) t).
Definition get_cell (a : Z) : M cell :=
  o ← get_object a; match o with OCell c => mret c | _ => abort end.
Definition put_cell (a : Z) (c : cell) : M unit := put_object a (OCell c).
Definition get_cap (a : Z) : M cap :=
  o ← get_object a; match o with OCap _ _ c => mret c | _ => abort end.
Definition put_cap (a : Z) (c : cap) : M unit :=
  o ← get_object a; match o with OCap fl n _ => put_object a (OCap fl n c) | _ => abort end.
Definition get_array (a : Z) : M carray :=
  o ← get_object a; match o with OArray _ _ x => mret x | _ => abort end.
Definition put_array (a : Z) (x : carray) : M unit :=
  o ← get_object a; match o with OArray fl n _ => put_object a (OArray fl n x) | _ => abort end.

Definition get_frame (a : Z) : M frame := fs ← gets t_frames; mderef (fs !! a).
Definition put_frame (a : Z) (f : frame) : M unit :=
  modify (fun t => set_pool (set_frames (<[a := f]> (t_frames t)) (t_pool t)) t).
Definition upd_frame (a : Z) (g : frame -> frame) : M unit := f ← get_frame a; put_frame a (g f).

(** [pntrtype], with the check of [checkcell]: the header tells the type. *)
Definition pntrtype (h : gmap Z object) (p : pntr) : option Z :=
  if is_pntr p then
    match h !! p_lo p with
    | Some o => if obj_type o =? CELL_EMPTY then None else Some (obj_type o)
    | None => None
    end
  else Some CELL_NUMBER.
Definition typeof (p : pntr) : M Z := h ← gets t_heap; mderef (pntrtype h p).

(** [resolve_pntr]: a chain of more indirections than there are objects is a
    cycle. *)
Fixpoint resolve (fuel : nat) (h : gmap Z object) (p : pntr) : outcome pntr :=
  ty ← deref (pntrtype h p);
  if ty =? CELL_IND then
    match fuel with
    | O => Timeout
    | S fuel =>
        match h !! p_lo p with
        | Some (OCell c) => resolve fuel h (c_field1 c)
        | _ => Crash
        end
    end
  else Done p.
Definition resolve_pntr (p : pntr) : M pntr := h ← gets t_heap; lift (resolve (size h) h p).

(** ** Allocation *)

(** [malloc] and [calloc]: the next free addresses, aligned to 16 bytes, as
    long as the 32-bit address space lasts. *)
Definition sys_alloc (n : Z) : M Z :=
  b ← gets t_brk;
  if b + n <=? 2^32 then
    modify (set_brk (b + (n + 15) / 16 * 16));; mret b
  else fatal "out of memory".

Definition send (m : message) : M unit := modify (fun t => set_outbox (t_outbox t ++ [m]) t).

Definition endpoint_interrupt : M unit := modify (set_interrupt true).

Definition force_minor_collection : M unit :=
  m ← gets t_mem;
  if m_need_minor m then mret tt
  else modify (fun t => set_mem (set_need_minor true (t_mem t)) t);; endpoint_interrupt.

(** The contents of fresh memory are indeterminate; the model gives them the
    type [CELL_EMPTY], which no access accepts. *)
Definition blank (flags : Z) : object := OCell (Cell CELL_EMPTY flags (Pntr 0 0) (Pntr 0 0)).

Definition new_block (nbytes : Z) : M unit :=
  m ← gets t_mem;
  if sizeof_block - nbytes <=? m_newgenoffset m then
    (match m_newgen m with [] => mret tt | _ => force_minor_collection end);;
    bl ← sys_alloc sizeof_block;
    modify (fun t => set_mem (set_newgen ((bl, m_newgenoffset m) :: m_newgen m) BLOCK_START (t_mem t)) t)
  else mret tt.

Definition alloc_mem (nbytes : Z) : M Z :=
  massert (nbytes mod 8 =? 0);;
  massert (nbytes <=? BLOCK_END - BLOCK_START);;
  m ← gets t_mem;
  massert ((sizeof_block <=? m_newgenoffset m) || (match m_newgen m with [] => false | _ => true end));;
  maxheap ← gets t_maxheap;
  (if negb (maxheap =? 0) && (match m_newgen m with [] => false | _ => true end) &&
      (maxheap <=? m_oldgenbytes m + m_newgenoffset m)
   then force_minor_collection else mret tt);;
  new_block nbytes;;
  m ← gets t_mem;
  match m_newgen m with
  | [] => abort
  | (bl, _) :: _ =>
      let h := m_newgenoffset m + bl in
      modify (fun t => set_mem (set_newgen (m_newgen m) (m_newgenoffset m + nbytes) (t_mem t)) t);;
      put_object h (blank (m_newcellflags m));;
      mret h
  end.

Definition alloc_cell : M Z := alloc_mem sizeof_cell.

(** Filling in a fresh cell. *)
Definition init_cell (a ty : Z) (f1 : pntr) : M unit :=
  c ← get_cell a; put_cell a (Cell ty (c_flags c) f1 (c_field2 c)).

Definition cap_alloc (arity address fno datasize : Z) : M Z :=
  let sizereq := sizeof_cap + datasize * sizeof_pntr in
  let sizereq := if sizereq mod 8 =? 0 then sizereq else sizereq + (8 - sizereq mod 8) in
  a ← alloc_mem sizereq;
  o ← get_object a;
  put_object a (OCap (obj_flags o) sizereq (Cap arity address fno (Sourceloc 0 0) 0 datasize []));;
  massert (0 <? arity);;
  mret a.

(** [c->data[c->count++] = p]. *)
Definition cap_push (a : Z) (p : pntr) : M unit :=
  c ← get_cap a;
  massert (cap_count c <? cap_room c);;
  put_cap a (Cap (cap_arity c) (cap_address c) (cap_fno c) (cap_sl c) (cap_c c) (cap_room c) (cap_data c ++ [p])).

Definition set_cell_type (a ty : Z) : M unit :=
  c ← get_cell a; put_cell a (Cell ty (c_flags c) (c_field1 c) (c_field2 c)).

(** ** Frames *)

Definition frame_zero (maxstack freelnk : Z) : frame :=
  Frame None 0 [] 0 STATE_UNALLOCATED 0 None freelnk 0 0 false 0 0
    (replicate (Z.to_nat maxstack) (Pntr 0 0)).
Definition framesize (t : task) : Z := sizeof_frame + t_maxstack t * sizeof_pntr.
Definition framesperblock (t : task) : Z := FRAMEBLOCK_SIZE / framesize t.

(** The frames of a block, each linked to the next. *)
Definition block_frames (mem framesize maxstack n : Z) : list (Z * frame) :=
  map (fun i => (mem + Z.of_nat i * framesize,
                 frame_zero maxstack (if Z.of_nat i =? n - 1 then 0 else mem + (Z.of_nat i + 1) * framesize)))
    (seq 0 (Z.to_nat n)).

Definition new_frameblock : M unit :=
  t ← gets id;
  fb ← sys_alloc (8 + FRAMEBLOCK_SIZE);
  modify (fun t' =>
    set_pool (Framepool
      (list_to_map (block_frames (fb + 8) (framesize t) (t_maxstack t) (framesperblock t)) ∪ t_frames t')
      (fb :: fp_blocks (t_pool t')) (fb + 8) (t_run t') (t_sparklist t')) t').

Definition frame_new : M Z :=
  p ← gets t_pool;
  (if fp_freeframe p =? 0 then new_frameblock else mret tt);;
  p ← gets t_pool;
  let a := fp_freeframe p in
  f ← get_frame a;
  modify (fun t => set_pool (set_freeframe (f_freelnk f) (t_pool t)) t);;
  put_frame a (Frame None (f_wq_frames f) (f_wq_fetchers f) 0 STATE_NEW 0 None 0
                 (f_waitlnk f) (f_rnext f) false 0 0 (f_data f));;
  massert (f_wq_frames f =? 0);;
  massert (match f_wq_fetchers f with [] => true | _ => false end);;
  massert (f_waitlnk f =? 0);;
  massert (f_rnext f =? 0);;
  mret a.

(** [tsk->done ||] in front of every assertion: a task that is being torn
    down frees frames in any state. *)
Definition frame_free (a : Z) : M unit :=
  done ← gets t_done;
  f ← get_frame a;
  massert (done || (bool_decide (f_retp f = None) && (f_c f =? 0)));;
  massert (done || bool_decide (f_state f = STATE_DONE) || bool_decide (f_state f = STATE_NEW));;
  massert (done || (f_wq_frames f =? 0));;
  massert (done || (match f_wq_fetchers f with [] => true | _ => false end));;
  p ← gets t_pool;
  put_frame a (set_f_freelnk (fp_freeframe p) (set_f_state STATE_UNALLOCATED f));;
  modify (fun t => set_pool (set_freeframe a (t_pool t)) t).

(** ** Write barriers *)

Definition write_barrier (c : Z) : M unit :=
  o ← get_object c;
  if negb (has_flag (obj_flags o) FLAG_INRSET) && has_flag (obj_flags o) FLAG_MATURE then
    modify (fun t => set_mem (set_remembered (m_remembered (t_mem t) ++ [c]) (t_mem t)) t);;
    put_object c (obj_set_flags (Z.lor (obj_flags o) FLAG_INRSET) o)
  else mret tt.

Definition write_barrier_ifnew (c : Z) (dest : pntr) : M unit :=
  if is_pntr dest then
    o ← get_object (p_lo dest);
    if negb (has_flag (obj_flags o) FLAG_MATURE) then write_barrier c else mret tt
  else mret tt.

Definition cell_make_ind (c : Z) (dest : pntr) : M unit :=
  write_barrier_ifnew c dest;; init_cell c CELL_IND dest.
