(* ===== verification/Globals.v ===== *)
(** * Objects known to other tasks (src/nreduce/runtime/task.c)

    Three hash tables with chains find a global by the object it stands for
    (as a target or as a local original) and by its address. The code of the
    tables is the same three times over; the model has it once, over the
    record [table] of what differs. *)

From S2P Require Import Prelude CString Util Source Pointer Memory Chain.
#[local] Open Scope Z_scope.

(** ** Keys as bytes *)

Definition byte_of (z : Z) : ascii := ascii_of_N (Z.to_N (z mod 256)).
Definition word_bytes (w : Z) : string :=
  String (byte_of w) (String (byte_of (w / 2^8)) (String (byte_of (w / 2^16)) (String (byte_of (w / 2^24)) ""))).
Definition pntr_bytes (p : pntr) : string := word_bytes (p_lo p) +:+ word_bytes (p_hi p).
Definition gaddr_bytes (a : gaddr) : string := word_bytes (ga_tid a) +:+ word_bytes (ga_lid a).

(** ** Tables *)

Record table := Table {
  tb_heads : globaltab -> gmap Z Z;
  tb_set_heads : gmap Z Z -> globaltab -> globaltab;
  tb_next : global -> Z;
  tb_set_next : Z -> global -> global;
  tb_hash : global -> Z
}.

Definition set_globals (gs : gmap Z global) (g : globaltab) : globaltab :=
  Globaltab gs (gt_list g) (gt_targethash g) (gt_physhash g) (gt_addrhash g) (gt_nextlid g) (gt_nfetching g)
    (gt_indistgc g).

Definition target_table : table := Table gt_targethash
  (fun h g => Globaltab (gt_globals g) (gt_list g) h (gt_physhash g) (gt_addrhash g) (gt_nextlid g)
     (gt_nfetching g) (gt_indistgc g))
  g_targetnext
  (fun n g => Global (g_addr g) (g_p g) (g_fetching g) (g_wq_frames g) (g_wq_fetchers g) (g_flags g) n
     (g_physnext g) (g_addrnext g))
  (fun g => hash (pntr_bytes (g_p g))).
Definition phys_table : table := Table gt_physhash
  (fun h g => Globaltab (gt_globals g) (gt_list g) (gt_targethash g) h (gt_addrhash g) (gt_nextlid g)
     (gt_nfetching g) (gt_indistgc g))
  g_physnext
  (fun n g => Global (g_addr g) (g_p g) (g_fetching g) (g_wq_frames g) (g_wq_fetchers g) (g_flags g)
     (g_targetnext g) n (g_addrnext g))
  (fun g => hash (pntr_bytes (g_p g))).
Definition addr_table : table := Table gt_addrhash
  (fun h g => Globaltab (gt_globals g) (gt_list g) (gt_targethash g) (gt_physhash g) h (gt_nextlid g)
     (gt_nfetching g) (gt_indistgc g))
  g_addrnext
  (fun n g => Global (g_addr g) (g_p g) (g_fetching g) (g_wq_frames g) (g_wq_fetchers g) (g_flags g)
     (g_targetnext g) (g_physnext g) n)
  (fun g => hash (gaddr_bytes (g_addr g))).

Definition same_gaddr (a b : gaddr) : bool := (ga_tid a =? ga_tid b) && (ga_lid a =? ga_lid b).
Definition has_pntr (p : pntr) (g : global) : bool := pntrequal (g_p g) p.
Definition has_addr (a : gaddr) (g : global) : bool := same_gaddr (g_addr g) a.

Section table.
Context (tb : table).

Definition head (h : Z) (gt : globaltab) : Z := default 0 (tb_heads tb gt !! h).

(** The loop of the three lookups; a chain is no longer than the number of
    globals. *)
Fixpoint find_global (fuel : nat) (gs : gmap Z global) (test : global -> bool) (a : Z) : outcome Z :=
  if a =? 0 then Done 0
  else
    g ← deref (gs !! a);
    if test g then Done a
    else match fuel with O => Timeout | S fuel => find_global fuel gs test (tb_next tb g) end.

Definition table_lookup (h : Z) (test : global -> bool) (gt : globaltab) : outcome Z :=
  find_global (size (gt_globals gt)) (gt_globals gt) test (head h gt).

(** [test] is the comparison of the lookup in the assertion. *)
Definition table_add (test : global -> bool) (a : Z) (gt : globaltab) : outcome globaltab :=
  g ← deref (gt_globals gt !! a);
  let h := tb_hash tb g in
  cassert (tb_next tb g =? 0);;
  other ← table_lookup h test gt;
  cassert (other =? 0);;
  Done (tb_set_heads tb (<[h := a]> (tb_heads tb gt))
          (set_globals (<[a := tb_set_next tb (head h gt) g]> (gt_globals gt)) gt)).

(** [ptr] walks over the links; [prev] is the global whose link it is, 0 for
    the bucket itself. *)
Fixpoint unlink (fuel : nat) (h a prev cur : Z) (gt : globaltab) : outcome globaltab :=
  if cur =? 0 then Done gt
  else
    g ← deref (gt_globals gt !! cur);
    if cur =? a then
      let cleared := <[a := tb_set_next tb 0 g]> (gt_globals gt) in
      if prev =? 0
      then Done (tb_set_heads tb (<[h := tb_next tb g]> (tb_heads tb gt)) (set_globals cleared gt))
      else
        pg ← deref (gt_globals gt !! prev);
        Done (set_globals (<[a := tb_set_next tb 0 g]> (<[prev := tb_set_next tb (tb_next tb g) pg]> (gt_globals gt))) gt)
    else match fuel with O => Timeout | S fuel => unlink fuel h a cur (tb_next tb g) gt end.

Definition table_remove (a : Z) (gt : globaltab) : outcome globaltab :=
  g ← deref (gt_globals gt !! a);
  let h := tb_hash tb g in
  unlink (size (gt_globals gt)) h a 0 (head h gt) gt.
End table.

Definition targethash_lookup (p : pntr) : globaltab -> outcome Z :=
  table_lookup target_table (hash (pntr_bytes p)) (has_pntr p).
Definition physhash_lookup (p : pntr) : globaltab -> outcome Z :=
  table_lookup phys_table (hash (pntr_bytes p)) (has_pntr p).
Definition addrhash_lookup (a : gaddr) : globaltab -> outcome Z :=
  table_lookup addr_table (hash (gaddr_bytes a)) (has_addr a).

Definition with_global {A} (a : Z) (f : global -> globaltab -> outcome A) (gt : globaltab) : outcome A :=
  g ← deref (gt_globals gt !! a); f g gt.
Definition targethash_add (a : Z) : globaltab -> outcome globaltab :=
  with_global a (fun g => table_add target_table (has_pntr (g_p g)) a).
Definition physhash_add (a : Z) : globaltab -> outcome globaltab :=
  with_global a (fun g => table_add phys_table (has_pntr (g_p g)) a).
Definition addrhash_add (a : Z) : globaltab -> outcome globaltab :=
  with_global a (fun g gt => cassert (0 <=? ga_lid (g_addr g));; table_add addr_table (has_addr (g_addr g)) a gt).
Definition targethash_remove : Z -> globaltab -> outcome globaltab := table_remove target_table.
Definition physhash_remove : Z -> globaltab -> outcome globaltab := table_remove phys_table.
Definition addrhash_remove : Z -> globaltab -> outcome globaltab := table_remove addr_table.

(** ** Addresses of objects *)

Definition sizeof_global : Z := 68.

(** [calloc], the fields and [llist_append]. *)
Definition new_global (addr : gaddr) (p : pntr) : M Z :=
  a ← sys_alloc sizeof_global;
  gt ← gets t_glob;
  let g := Global addr p false 0 [] (if gt_indistgc gt then FLAG_NEW else 0) 0 0 0 in
  modify (set_glob (Globaltab (<[a := g]> (gt_globals gt)) (gt_list gt ++ [a]) (gt_targethash gt)
    (gt_physhash gt) (gt_addrhash gt) (gt_nextlid gt) (gt_nfetching gt) (gt_indistgc gt)));;
  mret a.

Definition on_globals (f : globaltab -> outcome globaltab) : M unit :=
  gt ← gets t_glob; gt ← lift (f gt); modify (set_glob gt).

Definition next_lid : M Z :=
  gt ← gets t_glob;
  modify (set_glob (Globaltab (gt_globals gt) (gt_list gt) (gt_targethash gt) (gt_physhash gt)
    (gt_addrhash gt) (gt_nextlid gt + 1) (gt_nfetching gt) (gt_indistgc gt)));;
  mret (gt_nextlid gt).

(** The event log is not modelled. *)
Definition get_physical_address (p : pntr) : M gaddr :=
  tid ← gets t_tid;
  gt ← gets t_glob;
  a ← lift (physhash_lookup p gt);
  if a =? 0 then
    lid ← next_lid;
    a ← new_global (Gaddr tid lid) p;
    on_globals (physhash_add a);;
    on_globals (addrhash_add a);;
    mret (Gaddr tid lid)
  else
    g ← mderef (gt_globals gt !! a);
    massert (ga_tid (g_addr g) =? tid);;
    massert (0 <=? ga_tid (g_addr g));;
    massert (pntrequal (g_p g) p);;
    b ← lift (addrhash_lookup (g_addr g) gt);
    massert (b =? a);;
    mret (g_addr g).

Definition add_target (addr : gaddr) (p : pntr) : M Z :=
  tid ← gets t_tid;
  massert (negb (ga_tid addr =? tid));;
  gt ← gets t_glob;
  b ← lift (addrhash_lookup addr gt);
  massert (b =? 0);;
  b ← lift (targethash_lookup p gt);
  massert (b =? 0);;
  a ← new_global addr p;
  (if 0 <=? ga_lid addr then on_globals (addrhash_add a) else mret tt);;
  on_globals (targethash_add a);;
  mret a.

(** ** Lists of addresses *)

Definition add_gaddr (l : list gaddr) (addr : gaddr) : list gaddr :=
  if negb (ga_tid addr =? -1) || negb (ga_lid addr =? -1) then addr :: l else l.

(** Only the first instance goes; it must be there. *)
Fixpoint remove_gaddr (l : list gaddr) (addr : gaddr) : M (list gaddr) :=
  match l with
  | [] => fatal "gaddr not found"
  | item :: l =>
      if same_gaddr item addr then mret l
      else rest ← remove_gaddr l addr; mret (item :: rest)
  end.
