(* ===== verification/Sched.v ===== *)
(** * Frames in their queues (src/nreduce/runtime/task.c, interpreter.c)

    A frame that can run is in the run queue, whose head [*tsk->runptr] is the
    frame being executed; a frame that waits for another one is in that
    frame's wait queue; a frame that might be run later is in the spark list, a
    circular list with a sentinel. *)

From S2P Require Import Prelude Source Bytecode Compile Pointer Memory Globals.
#[local] Open Scope Z_scope.

(** ** Sparks *)

Definition append_spark (f : Z) : M unit :=
  fr ← get_frame f;
  massert (f_sprev fr =? 0);; massert (f_snext fr =? 0);;
  sparklist ← gets t_sparklist;
  s ← get_frame sparklist;
  let last := f_sprev s in
  upd_frame f (set_f_snext sparklist);;
  upd_frame f (set_f_sprev last);;
  upd_frame last (set_f_snext f);;
  upd_frame sparklist (set_f_sprev f).

Definition prepend_spark (f : Z) : M unit :=
  fr ← get_frame f;
  massert (f_sprev fr =? 0);; massert (f_snext fr =? 0);;
  sparklist ← gets t_sparklist;
  s ← get_frame sparklist;
  let first := f_snext s in
  upd_frame f (set_f_sprev sparklist);;
  upd_frame f (set_f_snext first);;
  upd_frame first (set_f_sprev f);;
  upd_frame sparklist (set_f_snext f).

Definition remove_spark (f : Z) : M unit :=
  fr ← get_frame f;
  massert (negb (f_sprev fr =? 0));; massert (negb (f_snext fr =? 0));;
  let prev := f_sprev fr in
  let next := f_snext fr in
  pf ← get_frame prev; massert (f_snext pf =? f);;
  nf ← get_frame next; massert (f_sprev nf =? f);;
  upd_frame prev (set_f_snext next);;
  upd_frame next (set_f_sprev prev);;
  upd_frame f (set_f_sprev 0);;
  upd_frame f (set_f_snext 0).

Definition not_sentinel (f : Z) : M unit := s ← gets t_sparklist; massert (negb (f =? s)).

Definition spark_frame (f : Z) : M unit :=
  not_sentinel f;;
  fr ← get_frame f;
  match f_state fr with
  | STATE_NEW => upd_frame f (set_f_state STATE_SPARKED);; prepend_spark f
  | _ => mret tt
  end.

Definition unspark_frame (f : Z) : M unit :=
  not_sentinel f;;
  fr ← get_frame f;
  massert (bool_decide (f_state fr = STATE_SPARKED) || bool_decide (f_state fr = STATE_NEW));;
  (if bool_decide (f_state fr = STATE_SPARKED) then remove_spark f else mret tt);;
  upd_frame f (set_f_state STATE_NEW);;
  if f_c fr =? 0 then mret tt
  else
    c ← get_cell (f_c fr);
    massert (c_type c =? CELL_FRAME);;
    p ← lift (get_pntr (c_field1 c));
    massert (p =? f).

(** ** The run queue *)

Definition set_runptr (f : Z) : M unit := modify (fun t => set_pool (set_run f (t_pool t)) t).

Definition activate (f : Z) : M unit :=
  run ← gets t_run;
  upd_frame f (set_f_rnext run);;
  upd_frame f (set_f_state STATE_ACTIVE);;
  set_runptr f.

Definition run_frame (f : Z) : M unit :=
  not_sentinel f;;
  fr ← get_frame f;
  match f_state fr with
  | STATE_SPARKED => remove_spark f;; activate f
  | STATE_NEW => activate f
  | _ => mret tt
  end.

(** The frame at the head stays the current one. *)
Definition insert_after_first (f : Z) : M unit :=
  run ← gets t_run;
  if run =? 0 then upd_frame f (set_f_rnext 0);; set_runptr f
  else
    first ← get_frame run;
    upd_frame f (set_f_rnext (f_rnext first));;
    upd_frame run (set_f_rnext f).

Definition run_frame_after_first (f : Z) : M unit :=
  not_sentinel f;;
  fr ← get_frame f;
  match f_state fr with
  | STATE_SPARKED => remove_spark f;; insert_after_first f;; upd_frame f (set_f_state STATE_ACTIVE)
  | STATE_NEW => insert_after_first f;; upd_frame f (set_f_state STATE_ACTIVE)
  | _ => mret tt
  end.

Definition check_runnable : M unit :=
  run ← gets t_run;
  massert (negb (run =? 1));;
  if run =? 0 then endpoint_interrupt else mret tt.

Definition is_active (f : frame) : bool := bool_decide (f_state f = STATE_ACTIVE).

Definition block_frame (f : Z) : M unit :=
  fr ← get_frame f;
  massert (is_active fr);;
  run ← gets t_run;
  massert (f =? run);;
  upd_frame f (set_f_rnext 0);;
  set_runptr (f_rnext fr).

Definition unblock_frame (f : Z) : M unit :=
  fr ← get_frame f;
  massert (is_active fr);;
  massert (f_rnext fr =? 0);;
  run ← gets t_run;
  upd_frame f (set_f_rnext run);;
  set_runptr f.

Definition unblock_frame_after_first (f : Z) : M unit :=
  fr ← get_frame f;
  massert (is_active fr);;
  massert (f_rnext fr =? 0);;
  insert_after_first f.

(** The macro of runtime.h. *)
Definition done_frame (f : Z) : M unit :=
  fr ← get_frame f;
  massert (is_active fr);;
  run ← gets t_run;
  massert (f =? run);;
  set_runptr (f_rnext fr);;
  upd_frame f (set_f_rnext 0);;
  upd_frame f (set_f_state STATE_DONE).

(** ** Waiting *)

Definition add_waiter_frame (w f : Z) : M unit :=
  fr ← get_frame f;
  massert (f_waitlnk fr =? 0);;
  wf ← get_frame w;
  upd_frame f (set_f_waitlnk (f_wq_frames wf));;
  upd_frame w (set_f_wq_frames f).

(** The instruction a frame is at. *)
Definition fetch (f : Z) : M instruction :=
  fr ← get_frame f;
  pc ← mderef (f_instr fr);
  prog ← gets t_prog;
  massert (0 <=? pc);;
  mderef (Bytecode.instructions (p_comp prog) !! Z.to_nat pc).

(** The loop of [resume_local_waiters] on the queue of frame [w]; a frame is
    in one wait queue at most, so the number of frames bounds it. *)
Fixpoint resume_loop (fuel : nat) (w : Z) : M unit :=
  wf ← get_frame w;
  let f := f_wq_frames wf in
  if f =? 0 then mret tt
  else match fuel with
       | O => lift Timeout
       | S fuel =>
           fr ← get_frame f;
           i ← fetch f;
           massert (bool_decide (i_opcode i = OP_EVAL) || bool_decide (i_opcode i = OP_CALL));;
           upd_frame w (set_f_wq_frames (f_waitlnk fr));;
           upd_frame f (set_f_waitlnk 0);;
           unblock_frame_after_first f;;
           resume_loop fuel w
       end.
Definition resume_local_waiters (w : Z) : M unit :=
  fs ← gets t_frames; resume_loop (size fs) w.

(** One RESPOND message for each task that asked for the object. *)
Fixpoint respond (obj : pntr) (l : list gaddr) : M unit :=
  match l with
  | [] => mret tt
  | ft :: l =>
      ty ← typeof obj;
      massert (negb (ty =? CELL_FRAME));;
      send (Message (ToTask (ga_tid ft)) MSG_RESPOND [MAddr ft; MPntr obj]);;
      respond obj l
  end.
Definition resume_fetchers (w : Z) (obj : pntr) : M unit :=
  obj ← resolve_pntr obj;
  wf ← get_frame w;
  respond obj (f_wq_fetchers wf);;
  upd_frame w (set_f_wq_fetchers []).

Definition resume_waiters (w : Z) (obj : pntr) : M unit :=
  resume_local_waiters w;;
  wf ← get_frame w;
  match f_wq_fetchers wf with [] => mret tt | _ => resume_fetchers w obj end.

(** ** Errors *)

Definition set_instr (f pc : Z) : M unit := upd_frame f (set_f_instr (Some pc)).

(** The message is given ready formatted. [runptr] is [NULL] in the graph
    reduction engine. *)
Definition set_error (msg : string) : M unit :=
  e ← gets t_error;
  massert (bool_decide (e = None));;
  sl ← gets t_errorsl;
  modify (set_task_error (Some msg) sl);;
  run ← gets t_run;
  if run =? 0 then mret tt
  else
    fr ← get_frame run;
    pc ← mderef (f_instr fr);
    prog ← gets t_prog;
    massert (0 <=? pc - 1);;
    i ← mderef (Bytecode.instructions (p_comp prog) !! Z.to_nat (pc - 1));
    modify (set_task_error (Some msg) (Sourceloc (i_fileno i) (i_lineno i)));;
    set_instr run (p_erroraddr prog);;
    modify (set_rc 1).

(** [find_spark]: the head of the spark list, unless it is one that should
    wait for the local machine to be less busy. *)
Definition MAX_LOCAL_CONNECTIONS : Z := 3.
Definition MAX_TOTAL_CONNECTIONS : Z := 128.

Definition find_spark (local_conns total_conns : Z) : M bool :=
  p ← gets t_pool;
  match fp_blocks p with
  | [] => mret false
  | _ =>
      s ← get_frame (fp_sparklist p);
      let spark := f_snext s in
      if spark =? fp_sparklist p then mret false
      else
        fr ← get_frame spark;
        if negb (f_postponed fr) || ((local_conns <? MAX_LOCAL_CONNECTIONS) && (total_conns <? MAX_TOTAL_CONNECTIONS))
        then run_frame spark;; mret true else mret false
  end.
