(* ===== verification/Arrays.v ===== *)
(** * Arrays in the heap (src/nreduce/runtime/builtins.c)

    A list may be held in an array: an AREF cell points to the array and to
    the rest of the list; a reference to it carries the index of the element
    it starts at. *)

From S2P Require Import Prelude Source Double Pointer Arith Memory.
#[local] Open Scope Z_scope.

Definition sizeof_carray : Z := 32.

(** [carray_new], [create_array_cell] and [create_array] (builtins.c). *)
Definition carray_new (dsize alloc : Z) : M Z :=
  let alloc := if MAX_ARRAY_SIZE <? alloc then MAX_ARRAY_SIZE else if alloc <=? 0 then 8 else alloc in
  let sizereq := sizeof_carray + alloc * dsize in
  let sizereq := if sizereq mod 8 =? 0 then sizereq else sizereq + (8 - sizereq mod 8) in
  a ← alloc_mem sizereq;
  o ← get_object a;
  put_object a (OArray (obj_flags o) sizereq
    (Carray alloc (if dsize =? sizeof_pntr then Pntrs [] else Chars []) false 0));;
  mret a.

Definition create_array_cell (dsize alloc : Z) : M Z :=
  carr ← carray_new dsize alloc;
  refcell ← alloc_cell;
  nil ← gets t_globnilpntr;
  c ← get_cell refcell;
  put_cell refcell (Cell CELL_AREF (c_flags c) (make_pntr carr) nil);;
  mret refcell.

Definition create_array (dsize alloc : Z) : M pntr :=
  refcell ← create_array_cell dsize alloc; mret (make_pntr refcell).

Definition aref_array (p : pntr) : M Z :=
  a ← lift (get_pntr p); c ← get_cell a; lift (get_pntr (c_field1 c)).

Definition aref_tail (p : pntr) : M pntr := a ← lift (get_pntr p); c ← get_cell a; mret (c_field2 c).

(** The array a cell refers to: [(carray* )get_pntr(refcell->field1)]. *)
Definition cell_array (refcell : Z) : M Z := c ← get_cell refcell; lift (get_pntr (c_field1 c)).

Definition set_field1 (a : Z) (p : pntr) : M unit :=
  c ← get_cell a; put_cell a (Cell (c_type c) (c_flags c) p (c_field2 c)).
Definition set_field2 (a : Z) (p : pntr) : M unit :=
  c ← get_cell a; put_cell a (Cell (c_type c) (c_flags c) (c_field1 c) p).

(** ** Cells and elements in place *)

Definition aref_set_tail (ref : Z) (newtail : pntr) : M unit :=
  set_field2 ref newtail;; write_barrier_ifnew ref newtail.

Definition aref_resolve_tail (c : Z) : M unit :=
  x ← get_cell c;
  ty ← typeof (c_field2 x);
  if ty =? CELL_IND then p ← resolve_pntr (c_field2 x); aref_set_tail c p else mret tt.

Definition set_elements (e : elements) (a : carray) : carray := Carray (ca_alloc a) e (ca_multiref a) (ca_nchars a).
Definition set_alloc (n : Z) (a : carray) : carray := Carray n (ca_elements a) (ca_multiref a) (ca_nchars a).
Definition set_multiref (a : carray) : carray := Carray (ca_alloc a) (ca_elements a) true (ca_nchars a).
Definition set_nchars (n : Z) (a : carray) : carray := Carray (ca_alloc a) (ca_elements a) (ca_multiref a) n.

(** The elements of an array of pointers. *)
Definition pelements (a : carray) : M (list pntr) :=
  match ca_elements a with Pntrs l => mret l | Chars _ => abort end.

Definition aref_resolve_element (refcell pos : Z) : M unit :=
  arr ← cell_array refcell;
  x ← get_array arr;
  l ← pelements x;
  p ← mderef (l !! Z.to_nat pos);
  ty ← typeof p;
  if ty =? CELL_IND then
    q ← resolve_pntr p;
    put_array arr (set_elements (Pntrs (<[Z.to_nat pos := q]> l)) x);;
    write_barrier_ifnew refcell q
  else mret tt.

(** ** Arrays of characters *)

(** A whole number from 0 to 255. *)
Definition is_char_double (d : Z) : bool :=
  floor_equal d && bool_decide (fleb 0 d = Some true) && bool_decide (fleb d (double_of_int 255) = Some true).
Definition pntr_is_char (p : pntr) : M bool :=
  ty ← typeof p; mret ((ty =? CELL_NUMBER) && is_char_double (pntrdouble p)).

(** [(unsigned char)d] *)
Definition char_of (p : pntr) : option ascii :=
  v ← trunc_int (pntrdouble p); Some (ascii_of_nat (Z.to_nat (v mod 256))).

(** The characters are written over the pointers, from the first one on; the
    [i]th of them only covers pointers that have been read. *)
Definition convert_to_string (arr : Z) : M unit :=
  x ← get_array arr;
  l ← pelements x;
  massert (ca_nchars x =? ca_size x);;
  s ← mderef (mapM char_of l);
  put_array arr (set_elements (Chars s) x).

(** The [while] loop of [check_array_convert]; [n]: elements not yet counted. *)
Fixpoint count_chars (n : nat) (refcell arr : Z) : M unit :=
  match n with
  | O => mret tt
  | S n =>
      x ← get_array arr;
      if ca_nchars x <? ca_size x then
        aref_resolve_element refcell (ca_nchars x);;
        x ← get_array arr;
        l ← pelements x;
        p ← mderef (l !! Z.to_nat (ca_nchars x));
        c ← pntr_is_char p;
        if c : bool then put_array arr (set_nchars (ca_nchars x + 1) x);; count_chars n refcell arr else mret tt
      else mret tt
  end.

Definition check_array_convert (refcell : Z) : M unit :=
  arr ← cell_array refcell;
  x ← get_array arr;
  massert (negb (ca_multiref x));;
  aref_resolve_tail refcell;;
  c ← get_cell refcell;
  (if ca_elemsize x =? sizeof_pntr then
     tail ← (if MAX_ARRAY_SIZE =? ca_size x then mret true
             else ty ← typeof (c_field2 c); mret (negb (ty =? CELL_FRAME)));
     if tail : bool then
       count_chars (Z.to_nat (ca_size x)) refcell arr;;
       x ← get_array arr;
       if ca_nchars x =? ca_size x then convert_to_string arr else mret tt
     else mret tt
   else mret tt).

(** ** Appending *)

(** [realloc_mem] (memory.c) of an array: the old one stays where it is. *)
Definition realloc_array (old nbytes : Z) : M Z :=
  o ← get_object old;
  match o with
  | OArray fl n a =>
      massert (n <? nbytes);;
      new ← alloc_mem nbytes;
      b ← get_object new;
      let keep bit := if has_flag fl bit then bit else 0 in
      put_object new (OArray (Z.lor (Z.lor (obj_flags b) (keep FLAG_DMB)) (keep FLAG_NEW)) n a);;
      mret new
  | _ => abort
  end.

Definition set_nbytes (a n : Z) : M unit :=
  o ← get_object a; match o with OArray fl _ x => put_object a (OArray fl n x) | _ => abort end.

(** [while (arr->alloc < need) arr->alloc *= 4] *)
Fixpoint grow (fuel : nat) (alloc need : Z) : outcome Z :=
  if alloc <? need then
    match fuel with O => Timeout | S fuel => a ← cint (alloc * 4); grow fuel a need end
  else Done alloc.

Definition append_elements (e d : elements) : option elements :=
  match e, d with
  | Pntrs l, Pntrs m => Some (Pntrs (l ++ m))
  | Chars l, Chars m => Some (Chars (l ++ m))
  | _, _ => None
  end.
Definition elements_size (e : elements) : Z :=
  match e with Pntrs l => Z.of_nat (length l) | Chars l => Z.of_nat (length l) end.
Definition take_elements (n : nat) (e : elements) : elements :=
  match e with Pntrs l => Pntrs (take n l) | Chars l => Chars (take n l) end.

(** [data += count] on a [void*] advances by bytes: by an eighth of the count
    when [data] are pointers, and to the middle of one when it is not a
    multiple of eight. *)
Definition advance (count : Z) (e : elements) : option elements :=
  match e with
  | Chars l => Some (Chars (drop (Z.to_nat count) l))
  | Pntrs l => if count mod 8 =? 0 then Some (Pntrs (drop (Z.to_nat (count / 8)) l)) else None
  end.

(** Room for [need] elements in the array of [refcell]. *)
Definition ensure_room (refcell need : Z) : M unit :=
  arr ← cell_array refcell;
  x ← get_array arr;
  if ca_alloc x <? need then
    n ← lift (grow 32 (ca_alloc x) need);
    put_array arr (set_alloc n x);;
    let sizereq := sizeof_carray + n * ca_elemsize x in
    let sizereq := if sizereq mod 8 =? 0 then sizereq else sizereq + (8 - sizereq mod 8) in
    o ← get_object arr;
    arr' ← match o with
           | OArray _ nbytes _ =>
               if nbytes <? sizereq then new ← realloc_array arr sizereq; set_nbytes new sizereq;; mret new else mret arr
           | _ => abort
           end;
    write_barrier refcell;;
    set_field1 refcell (make_pntr arr')
  else mret tt.

(** What fits of [data] goes into the array of [refcell]; the number of
    elements that is. [data] is read as it is at the start. *)
Definition append_part (refcell : Z) (data : elements) (totalcount : Z) : M Z :=
  arr ← cell_array refcell;
  x ← get_array arr;
  let count := if MAX_ARRAY_SIZE <? ca_size x + totalcount then MAX_ARRAY_SIZE - ca_size x else totalcount in
  ensure_room refcell (ca_size x + count);;
  arr ← cell_array refcell;
  write_barrier arr;;
  x ← get_array arr;
  massert (count <=? elements_size data);;
  e ← mderef (append_elements (ca_elements x) (take_elements (Z.to_nat count) data));
  put_array arr (set_elements e x);;
  mret count.

(** A new array for [n] elements behind that of [refcell]; the cell that
    refers to it. *)
Definition append_array (refcell dsize n : Z) : M Z :=
  check_array_convert refcell;;
  arr ← carray_new dsize n;
  next ← alloc_cell;
  nil ← gets t_globnilpntr;
  c ← get_cell next;
  put_cell next (Cell CELL_AREF (c_flags c) (make_pntr arr) nil);;
  p ← lift (make_aref_pntr next 0);
  aref_set_tail refcell p;;
  mret next.

(** The loop of [carray_append], which returns the cell [*refcell] is at the
    end. *)
Fixpoint append_loop (fuel : nat) (refcell : Z) (data : elements) (totalcount dsize : Z) : M Z :=
  count ← append_part refcell data totalcount;
  if totalcount - count =? 0 then mret refcell
  else
    match fuel with
    | O => diverge
    | S fuel =>
        rest ← mderef (advance count data);
        next ← append_array refcell dsize (totalcount - count);
        append_loop fuel next rest (totalcount - count) dsize
    end.

(** The first array takes what fits, each of the next ones [MAX_ARRAY_SIZE]. *)
Definition carray_append (refcell : Z) (data : elements) (totalcount dsize : Z) : M Z :=
  arr ← cell_array refcell;
  x ← get_array arr;
  massert (dsize =? ca_elemsize x);;
  massert (negb (ca_multiref x));;
  append_loop (S (Z.to_nat (totalcount / MAX_ARRAY_SIZE))) refcell data totalcount dsize.
