(* ===== verification/Interpreter.v ===== *)
(** * The bytecode interpreter (src/nreduce/runtime/interpreter.c)

    One function per instruction, working on the frame at the head of the run
    queue, and the body of the interpreter's loop. [expcount] of an
    instruction says how many slots of the frame are in use before it; there
    is no stack pointer. *)

From S2P Require Import Prelude CString Builtins Source Bytecode Compile Pointer Memory Globals Sched Arith Arrays.
#[local] Open Scope Z_scope.

(** The functions the table of built-ins points to, given the frame and the
    slot [argstack] points at. *)
Class BuiltinFuns := bif_f : nat -> Z -> Z -> M unit.

(** ** Slots *)

Definition get_slot (f i : Z) : M pntr :=
  fr ← get_frame f; massert (0 <=? i);; mderef (f_data fr !! Z.to_nat i).
Definition set_slot (f i : Z) (v : pntr) : M unit :=
  fr ← get_frame f;
  massert ((0 <=? i) && (i <? Z.of_nat (length (f_data fr))));;
  put_frame f (set_f_data (<[Z.to_nat i := v]> (f_data fr)) fr).

(** A loop that runs its body for [n] successive indices. *)
Fixpoint for_z (i : Z) (n : nat) (body : Z -> M unit) : M unit :=
  match n with O => mret tt | S n => body i;; for_z (i + 1) n body end.

(** ** Errors *)

Definition cell_types : list string := [
  "EMPTY"; "APPLICATION"; "BUILTIN"; "CONS"; "REMOTEREF"; "IND"; "SCREF"; "AREF"; "HOLE"; "FRAME"; "CAP";
  "NIL"; "NUMBER"; "SYMBOL"; "SYSOBJECT"; "[OBJS]"; "[ARRAY]"; "[CAP]"]%string.
Definition type_name (ty : Z) : string := default ""%string (cell_types !! Z.to_nat ty).
Definition builtin_name (bif : Z) : M string := b ← mderef (builtin_info !! Z.to_nat bif); mret (bi_name b).

Definition bc_string (sno : Z) : M string :=
  prog ← gets t_prog; massert (0 <=? sno);; mderef (stringmap (p_comp prog) !! Z.to_nat sno).
Definition bc_funinfo (fno : Z) : M funinfo := prog ← gets t_prog; lift (get_finfo fno prog).
Definition bc_function_name (fno : Z) : M string :=
  if fno <? 0 then mret "(unknown)"%string else fi ← bc_funinfo fno; bc_string (fi_name fi).

Definition CONSTANT_APP_MSG : string := "constant cannot be applied to arguments".

Definition incomplete (name : string) (arity count : Z) : string :=
  name +:+ " requires " +:+ pretty arity +:+ " args, only have " +:+ pretty count.

Definition cap_error (cappntr : pntr) : M unit :=
  ty ← typeof cappntr;
  massert (ty =? CELL_CAP);;
  capval ← get_cell (p_lo cappntr);
  a ← lift (get_pntr (c_field1 capval));
  c ← get_cap a;
  name ← bc_function_name (cap_fno c);
  let text := incomplete name (cap_arity c) (cap_count c) in
  let head := ("Attempt to evaluate incomplete function application" +:+ String "010" "")%string in
  if 0 <=? sl_fileno (cap_sl c) then
    file ← bc_string (sl_fileno (cap_sl c));
    set_error (head +:+ file +:+ ":" +:+ pretty (sl_lineno (cap_sl c)) +:+ ": " +:+ text)
  else set_error (head +:+ text).

Definition handle_error : M unit :=
  e ← gets t_error;
  text ← mderef e;
  sl ← gets t_errorsl;
  pre ← (if 0 <=? sl_fileno sl then
           file ← bc_string (sl_fileno sl);
           mret (file +:+ ":" +:+ pretty (sl_lineno sl) +:+ ": ")%string
         else mret ""%string);
  send (Message ToClient MSG_REPORT_ERROR [MInt 1; MText (pre +:+ text)]);;
  endpoint_interrupt;;
  modify (set_done true).

Definition incompatible (name : string) (t1 t2 : Z) : string :=
  name +:+ ": incompatible arguments: (" +:+ type_name t1 +:+ "," +:+ type_name t2 +:+ ")".

(** The handler of the floating point exception. *)
Definition interpreter_sigfpe {A} : M A :=
  f ← gets t_run;
  fr ← get_frame f;
  pc ← mderef (f_instr fr);
  prog ← gets t_prog;
  massert (0 <=? pc - 1);;
  instr ← mderef (instructions (p_comp prog) !! Z.to_nat (pc - 1));
  (if bool_decide (i_opcode instr = OP_BIF) || bool_decide (i_opcode instr = OP_JCMP) then
     let bif := if bool_decide (i_opcode instr = OP_BIF) then i_arg0 instr else i_arg1 instr in
     b ← mderef (builtin_info !! Z.to_nat bif);
     if Nat.eqb (bi_nargs b) 2 then
       p1 ← get_slot f (i_expcount instr - 1);
       p0 ← get_slot f (i_expcount instr - 2);
       t1 ← typeof p1;
       t0 ← typeof p0;
       if negb (t1 =? CELL_NUMBER) || negb (t0 =? CELL_NUMBER)
       then set_error (incompatible (bi_name b) t1 t0)
       else set_error (bi_name b +:+ ": floating point exception")
     else set_error (bi_name b +:+ ": floating point exception")
   else set_error "floating point exception");;
  longjmp.

(** The result of an operation that may be invalid. *)
Definition trapping {A} (o : option A) : M A :=
  match o with Some a => mret a | None => interpreter_sigfpe end.

(** ** Returning *)

Definition frame_return (curf : Z) (val : pntr) : M unit :=
  massert (negb (is_nullpntr val));;
  fr ← get_frame curf;
  (if negb (f_c fr =? 0) then
     massert (bool_decide (f_retp fr = None));;
     c ← get_cell (f_c fr);
     massert (c_type c =? CELL_FRAME);;
     cell_make_ind (f_c fr) val;;
     upd_frame curf (set_f_c 0)
   else
     '(g, i) ← mderef (f_retp fr);
     set_slot g i val;;
     upd_frame curf (set_f_retp None));;
  done_frame curf;;
  resume_waiters curf val;;
  check_runnable;;
  frame_free curf.

(** ** Instructions *)

(** A new frame for [fno] in a cell of its own, or without one. *)
Definition enter_function (newf fno : Z) : M unit :=
  fi ← bc_funinfo fno;
  prog ← gets t_prog;
  massert (0 <=? fi_address fi);;
  start ← mderef (instructions (p_comp prog) !! Z.to_nat (fi_address fi));
  massert (bool_decide (i_opcode start = OP_GLOBSTART));;
  set_instr newf (fi_address fi + 1).

Definition new_frame_cell (newf : Z) : M Z :=
  holder ← alloc_cell;
  init_cell holder CELL_FRAME (make_pntr newf);;
  upd_frame newf (set_f_c holder);;
  mret holder.

(** Copies [n] slots of [src] starting at [from] to [dst] starting at [to]. *)
Definition copy_slots (src from dst to : Z) (n : Z) : M unit :=
  for_z 0 (Z.to_nat n) (fun i => v ← get_slot src (from + i); set_slot dst (to + i) v).

Definition op_begin (f : Z) (instr : instruction) : M unit := mret tt.
Definition op_globstart (f : Z) (instr : instruction) : M unit := mret tt.
Definition op_pop (f : Z) (instr : instruction) : M unit := mret tt.

Definition op_end (f : Z) (instr : instruction) : M unit :=
  done_frame f;;
  check_runnable;;
  fr ← get_frame f;
  massert (negb (f_c fr =? 0));;
  set_cell_type (f_c fr) CELL_NIL;;
  upd_frame f (set_f_c 0);;
  frame_free f.

(** [pframe(p)] of a FRAME cell. *)
Definition pframe (p : pntr) : M Z :=
  a ← lift (get_pntr p); c ← get_cell a; lift (get_pntr (c_field1 c)).

Definition op_spark (f : Z) (instr : instruction) : M unit :=
  v ← get_slot f (i_arg0 instr);
  p ← resolve_pntr v;
  ty ← typeof p;
  if ty =? CELL_FRAME then g ← pframe p; spark_frame g else mret tt.

Definition op_return (f : Z) (instr : instruction) : M unit :=
  v ← get_slot f (i_expcount instr - 1); frame_return f v.

(** The three cases of [op_do], by the number of arguments. *)
Definition do_partial (f e : Z) (cp : cap) : M unit :=
  newcp ← cap_alloc (cap_arity cp) (cap_address cp) (cap_fno cp) (e - 1 + cap_count cp);
  c ← get_cap newcp;
  put_cap newcp (Cap (cap_arity c) (cap_address c) (cap_fno c) (cap_sl cp) (cap_c c) (cap_room c) []);;
  for_z 0 (Z.to_nat (e - 1)) (fun i => v ← get_slot f i; cap_push newcp v);;
  for_z 0 (length (cap_data cp)) (fun i => v ← mderef (cap_data cp !! Z.to_nat i); cap_push newcp v);;
  fr ← get_frame f;
  rep ← (if negb (f_c fr =? 0) then
           write_barrier (f_c fr);;
           init_cell (f_c fr) CELL_CAP (make_pntr newcp);;
           c ← get_cap newcp;
           put_cap newcp (Cap (cap_arity c) (cap_address c) (cap_fno c) (cap_sl c) (f_c fr) (cap_room c) (cap_data c));;
           upd_frame f (set_f_c 0);;
           mret (make_pntr (f_c fr))
         else
           capc ← alloc_cell;
           c ← get_cap newcp;
           put_cap newcp (Cap (cap_arity c) (cap_address c) (cap_fno c) (cap_sl c) capc (cap_room c) (cap_data c));;
           init_cell capc CELL_CAP (make_pntr newcp);;
           '(g, i) ← mderef (f_retp fr);
           set_slot g i (make_pntr capc);;
           upd_frame f (set_f_retp None);;
           mret (make_pntr capc));
  done_frame f;;
  resume_waiters f rep;;
  check_runnable;;
  frame_free f.

Definition check_globstart (addr : Z) : M unit :=
  prog ← gets t_prog;
  massert (0 <=? addr);;
  start ← mderef (instructions (p_comp prog) !! Z.to_nat addr);
  massert (bool_decide (i_opcode start = OP_GLOBSTART)).

Definition push_cap_args (f base : Z) (cp : cap) : M unit :=
  for_z 0 (length (cap_data cp)) (fun i => v ← mderef (cap_data cp !! Z.to_nat i); set_slot f (base + i) v).

Definition do_exact (f e : Z) (cp : cap) : M unit :=
  check_globstart (cap_address cp);;
  set_instr f (cap_address cp + 1);;
  push_cap_args f (e - 1) cp.

Definition EVALDO_SEQUENCE_SIZE : Z := 2.

Definition do_over (f e : Z) (cp : cap) : M unit :=
  let newcount := e - 1 in
  let extra := cap_arity cp - cap_count cp in
  newf ← frame_new;
  check_globstart (cap_address cp);;
  set_instr newf (cap_address cp + 1);;
  copy_slots f (newcount - extra) newf 0 extra;;
  push_cap_args newf extra cp;;
  holder ← new_frame_cell newf;
  set_slot f (newcount - extra) (make_pntr holder);;
  prog ← gets t_prog;
  set_instr f (p_evaldoaddr prog + (newcount + (1 - extra) - 1) * EVALDO_SEQUENCE_SIZE).

Definition op_do (f : Z) (instr : instruction) : M unit :=
  let e := i_expcount instr in
  p ← get_slot f (e - 1);
  ty ← typeof p;
  massert (negb (ty =? CELL_IND));;
  massert ((i_arg0 instr =? 0) || negb (ty =? CELL_FRAME));;
  if negb (i_arg0 instr =? 0) && negb (ty =? CELL_CAP) then frame_return f p
  else if negb (ty =? CELL_CAP) then set_error CONSTANT_APP_MSG
  else
    capholder ← get_cell (p_lo p);
    a ← lift (get_pntr (c_field1 capholder));
    cp ← get_cap a;
    if e - 1 + cap_count cp <? cap_arity cp then do_partial f e cp
    else if e - 1 + cap_count cp =? cap_arity cp then do_exact f e cp
    else do_over f e cp.

Definition op_jfun (f : Z) (instr : instruction) : M unit :=
  fi ← bc_funinfo (i_arg0 instr);
  if i_arg1 instr =? 2 then set_instr f (fi_addressed fi)
  else if i_arg1 instr =? 1 then set_instr f (fi_addressne fi)
  else check_globstart (fi_address fi);; set_instr f (fi_address fi + 1).

(** [runnable->instr += arg0-1]. *)
Definition jump_by (f : Z) (instr : instruction) : M unit :=
  fr ← get_frame f;
  pc ← mderef (f_instr fr);
  set_instr f (pc + i_arg0 instr - 1).

Definition op_jfalse (f : Z) (instr : instruction) : M unit :=
  test ← get_slot f (i_expcount instr - 1);
  ty ← typeof test;
  massert (negb (ty =? CELL_IND));;
  massert (negb (ty =? CELL_APPLICATION));;
  massert (negb (ty =? CELL_FRAME));;
  if ty =? CELL_CAP then cap_error test
  else if ty =? CELL_NIL then jump_by f instr else mret tt.

Definition op_jump (f : Z) (instr : instruction) : M unit := jump_by f instr.

Definition op_push (f : Z) (instr : instruction) : M unit :=
  v ← get_slot f (i_arg0 instr); set_slot f (i_expcount instr) v.

Definition op_update (f : Z) (instr : instruction) : M unit :=
  targetp ← get_slot f (i_arg0 instr);
  ty ← typeof targetp;
  massert (ty =? CELL_HOLE);;
  target ← lift (get_pntr targetp);
  v ← get_slot f (i_expcount instr - 1);
  res ← resolve_pntr v;
  if pntrequal targetp res then fatal "Attempt to update cell with itself"
  else
    cell_make_ind target res;;
    set_slot f (i_arg0 instr) res.

Definition op_alloc (f : Z) (instr : instruction) : M unit :=
  for_z 0 (Z.to_nat (i_arg0 instr)) (fun i =>
    hole ← alloc_cell;
    set_cell_type hole CELL_HOLE;;
    set_slot f (i_expcount instr + i) (make_pntr hole)).

Definition op_squeeze (f : Z) (instr : instruction) : M unit :=
  let count := i_arg0 instr in
  let remove := i_arg1 instr in
  let base := i_expcount instr - count - remove in
  for_z 0 (Z.to_nat count) (fun i => v ← get_slot f (base + i + remove); set_slot f (base + i) v).

Definition op_mkcap (f : Z) (instr : instruction) : M unit :=
  let n := i_arg1 instr in
  let e := i_expcount instr in
  fi ← bc_funinfo (i_arg0 instr);
  a ← cap_alloc (fi_arity fi) (fi_address fi) (i_arg0 instr) n;
  c ← get_cap a;
  put_cap a (Cap (cap_arity c) (cap_address c) (cap_fno c) (Sourceloc (i_fileno instr) (i_lineno instr))
               (cap_c c) (cap_room c) []);;
  for_z (e - n) (Z.to_nat n) (fun i => v ← get_slot f i; cap_push a v);;
  capv ← alloc_cell;
  c ← get_cap a;
  put_cap a (Cap (cap_arity c) (cap_address c) (cap_fno c) (cap_sl c) capv (cap_room c) (cap_data c));;
  init_cell capv CELL_CAP (make_pntr a);;
  set_slot f (e - n) (make_pntr capv).

Definition op_mkframe (f : Z) (instr : instruction) : M unit :=
  let n := i_arg1 instr in
  let e := i_expcount instr in
  newf ← frame_new;
  holder ← new_frame_cell newf;
  enter_function newf (i_arg0 instr);;
  copy_slots f (e - n) newf 0 n;;
  set_slot f (e - n) (make_pntr holder).

(** The assertions of the debugging build around a built-in. *)
Definition check_strict (f e : Z) (i : Z) : M unit :=
  p ← get_slot f (e - 1 - i);
  ty ← typeof p;
  massert (negb (ty =? CELL_APPLICATION));;
  massert (negb (ty =? CELL_FRAME));;
  massert (negb (ty =? CELL_REMOTEREF));;
  massert (negb (ty =? CELL_IND)).

Definition check_result (f argpos : Z) (b : builtin) : M unit :=
  fr ← get_frame f;
  if bool_decide (f_state fr = STATE_DONE) || negb (bi_reswhnf b) then mret tt
  else
    p ← get_slot f argpos;
    ty ← typeof p;
    massert (negb (ty =? CELL_IND) || negb (f_resume fr =? 0)).

Definition op_bif `{BuiltinFuns} (f : Z) (instr : instruction) : M unit :=
  let bif := i_arg0 instr in
  massert (0 <=? bif);;
  b ← mderef (builtin_info !! Z.to_nat bif);
  for_z 0 (bi_nstrict b) (check_strict f (i_expcount instr));;
  bif_f (Z.to_nat bif) f (i_expcount instr - Z.of_nat (bi_nargs b));;
  check_result f (i_expcount instr - Z.of_nat (bi_nargs b)) b.

Definition op_pushnil (f : Z) (instr : instruction) : M unit :=
  nil ← gets t_globnilpntr; set_slot f (i_expcount instr) nil.

(** [*((pntr* )&instr->arg0)]: the two [int]s are the two words. *)
Definition op_pushnumber (f : Z) (instr : instruction) : M unit :=
  set_slot f (i_expcount instr) (Pntr (i_arg0 instr mod 2^32) (i_arg1 instr mod 2^32)).

Definition op_pushstring (f : Z) (instr : instruction) : M unit :=
  strings ← gets t_strings;
  massert (0 <=? i_arg0 instr);;
  s ← mderef (strings !! Z.to_nat (i_arg0 instr));
  set_slot f (i_expcount instr) s.

Definition op_error (f : Z) (instr : instruction) : M unit := handle_error.

(** [f->instr--]. *)
Definition instr_back (f : Z) : M unit :=
  fr ← get_frame f;
  pc ← mderef (f_instr fr);
  set_instr f (pc - 1).

Definition upd_global (a : Z) (g : global -> global) : M unit :=
  on_globals (fun gt => x ← deref (gt_globals gt !! a); Done (set_globals (<[a := g x]> (gt_globals gt)) gt)).

Definition add_waiter_global (a f : Z) : M unit :=
  fr ← get_frame f;
  massert (f_waitlnk fr =? 0);;
  gt ← gets t_glob;
  g ← mderef (gt_globals gt !! a);
  upd_frame f (set_f_waitlnk (g_wq_frames g));;
  upd_global a (fun g => Global (g_addr g) (g_p g) (g_fetching g) f (g_wq_fetchers g) (g_flags g)
                           (g_targetnext g) (g_physnext g) (g_addrnext g)).

Definition eval_remoteref (f : Z) (ref : pntr) : M unit :=
  r ← lift (get_pntr ref);
  c ← get_cell r;
  a ← lift (get_pntr (c_field1 c));
  gt ← gets t_glob;
  target ← mderef (gt_globals gt !! a);
  (if negb (g_fetching target) && (0 <=? ga_lid (g_addr target)) then
     tid ← gets t_tid;
     massert (negb (ga_tid (g_addr target) =? tid));;
     ty ← typeof ref;
     massert (ty =? CELL_REMOTEREF);;
     storeaddr ← get_physical_address ref;
     massert (ga_tid storeaddr =? tid);;
     send (Message (ToTask (ga_tid (g_addr target))) MSG_FETCH [MAddr (g_addr target); MAddr storeaddr]);;
     upd_global a (fun g => Global (g_addr g) (g_p g) true (g_wq_frames g) (g_wq_fetchers g) (g_flags g)
                              (g_targetnext g) (g_physnext g) (g_addrnext g))
   else mret tt);;
  gt ← gets t_glob;
  massert (0 <=? gt_nfetching gt);;
  modify (set_glob (Globaltab (gt_globals gt) (gt_list gt) (gt_targethash gt) (gt_physhash gt)
    (gt_addrhash gt) (gt_nextlid gt) (gt_nfetching gt + 1) (gt_indistgc gt)));;
  add_waiter_global a f;;
  instr_back f;;
  block_frame f;;
  check_runnable.

Definition op_eval (f : Z) (instr : instruction) : M unit :=
  v ← get_slot f (i_arg0 instr);
  p ← resolve_pntr v;
  set_slot f (i_arg0 instr) p;;
  ty ← typeof p;
  if ty =? CELL_FRAME then
    newf ← pframe p;
    instr_back f;;
    add_waiter_frame newf f;;
    block_frame f;;
    run_frame newf;;
    check_runnable
  else if ty =? CELL_REMOTEREF then eval_remoteref f p
  else mret tt.

Definition op_call (f : Z) (instr : instruction) : M unit :=
  let n := i_arg1 instr in
  let e := i_expcount instr in
  newf ← frame_new;
  enter_function newf (i_arg0 instr);;
  upd_frame newf (set_f_retp (Some (f, e - n)));;
  copy_slots f (e - n) newf 0 n;;
  add_waiter_frame newf f;;
  block_frame f;;
  run_frame newf.

Definition compare (bif : Z) (a b : Z) : M bool :=
  if bif =? Z.of_nat B_EQ then mret (feqb a b)
  else if bif =? Z.of_nat B_NE then mret (negb (feqb a b))
  else if bif =? Z.of_nat B_LT then trapping (fltb a b)
  else if bif =? Z.of_nat B_LE then trapping (fleb a b)
  else if bif =? Z.of_nat B_GT then trapping (fltb b a)
  else if bif =? Z.of_nat B_GE then trapping (fleb b a)
  else abort.

Definition op_jcmp (f : Z) (instr : instruction) : M unit :=
  p1 ← get_slot f (i_expcount instr - 1);
  p2 ← get_slot f (i_expcount instr - 2);
  t1 ← typeof p1;
  t2 ← typeof p2;
  if negb (t1 =? CELL_NUMBER) || negb (t2 =? CELL_NUMBER) then
    name ← builtin_name (i_arg1 instr); set_error (incompatible name t1 t2)
  else
    cmp ← compare (i_arg1 instr) (pntrdouble p1) (pntrdouble p2);
    if cmp : bool then mret tt else jump_by f instr.

Definition op_jeq (f : Z) (instr : instruction) : M unit :=
  p ← get_slot f (i_expcount instr - 1);
  ty ← typeof p;
  if negb (ty =? CELL_NUMBER) then set_error ("==: incompatible argument: (" +:+ type_name ty +:+ ")")
  else if feqb (pntrdouble p) (double_of_int (i_arg1 instr)) then jump_by f instr else mret tt.

(** ** Arrays *)

(** The slots from the top down to, and not including, the last of the [n]. *)
Fixpoint top_slots (f e : Z) (i : Z) (n : nat) : M (list pntr) :=
  match n with
  | O => mret []
  | S n => v ← get_slot f (e - i - 1); rest ← top_slots f e (i + 1) n; mret (v :: rest)
  end.

Definition op_consn (f : Z) (instr : instruction) : M unit :=
  let n := i_arg0 instr in
  let e := i_expcount instr in
  aref ← create_array sizeof_pntr (n - 1);
  refcell ← lift (get_pntr aref);
  a ← aref_array aref;
  arr ← get_array a;
  massert (n - 1 =? ca_alloc arr);;
  vs ← top_slots f e 0 (Z.to_nat (n - 1));
  put_array a (Carray (ca_alloc arr) (Pntrs vs) (ca_multiref arr) (ca_nchars arr));;
  last ← get_slot f (e - n);
  c ← get_cell refcell;
  put_cell refcell (Cell (c_type c) (c_flags c) (c_field1 c) last);;
  p ← lift (make_aref_pntr refcell 0);
  set_slot f (e - n) p.

(** [(double)pos] fills the second slot of a frame for [item]. *)
Definition make_item_frame (f e pos : Z) : M unit :=
  prog ← gets t_prog;
  newf ← frame_new;
  holder ← new_frame_cell newf;
  enter_function newf (p_itemfno prog);;
  v ← get_slot f (e - 1);
  set_slot newf 0 v;;
  set_slot newf 1 (set_pntrdouble (double_of_int pos));;
  set_slot f (e - 1) (make_pntr holder).

Definition op_itemn (f : Z) (instr : instruction) : M unit :=
  let pos := i_arg0 instr in
  let e := i_expcount instr in
  v ← get_slot f (e - 1);
  p ← resolve_pntr v;
  set_slot f (e - 1) p;;
  ty ← typeof p;
  if ty =? CELL_AREF then
    a ← aref_array p;
    arr ← get_array a;
    match ca_elements arr with
    | Pntrs l =>
        if aref_index p + pos <? Z.of_nat (length l) then
          massert (0 <=? aref_index p + pos);;
          x ← mderef (l !! Z.to_nat (aref_index p + pos)); set_slot f (e - 1) x
        else make_item_frame f e pos
    | Chars _ => make_item_frame f e pos
    end
  else make_item_frame f e pos.

Definition op_invalid (f : Z) (instr : instruction) : M unit := fatal "Invalid instruction".

(** ** The loop *)

Definition dispatch `{BuiltinFuns} (f : Z) (instr : instruction) : M unit :=
  match i_opcode instr with
  | OP_BEGIN => op_begin f instr
  | OP_END => op_end f instr
  | OP_GLOBSTART => abort
  | OP_SPARK => op_spark f instr
  | OP_EVAL => op_eval f instr
  | OP_RETURN => op_return f instr
  | OP_DO => op_do f instr
  | OP_JFUN => op_jfun f instr
  | OP_JFALSE => op_jfalse f instr
  | OP_JUMP => op_jump f instr
  | OP_PUSH => op_push f instr
  | OP_POP => op_pop f instr
  | OP_UPDATE => op_update f instr
  | OP_ALLOC => op_alloc f instr
  | OP_SQUEEZE => op_squeeze f instr
  | OP_MKCAP => op_mkcap f instr
  | OP_MKFRAME => op_mkframe f instr
  | OP_BIF => op_bif f instr
  | OP_PUSHNIL => op_pushnil f instr
  | OP_PUSHNUMBER => op_pushnumber f instr
  | OP_PUSHSTRING => op_pushstring f instr
  | OP_ERROR => op_error f instr
  | OP_CALL => op_call f instr
  | OP_JCMP => op_jcmp f instr
  | OP_JEQ => op_jeq f instr
  | OP_CONSN => op_consn f instr
  | OP_ITEMN => op_itemn f instr
  | OP_INVALID => op_invalid f instr
  end.

(** One turn of the loop when no interrupt is pending. *)
Definition step `{BuiltinFuns} : M unit :=
  runnable ← gets t_run;
  massert (negb (runnable =? 0));;
  instr ← fetch runnable;
  pc ← (fr ← get_frame runnable; mderef (f_instr fr));
  set_instr runnable (pc + 1);;
  dispatch runnable instr.

(** The loop up to the next interrupt, for at most [fuel] instructions;
    [true] when an interrupt is pending. *)
Fixpoint run `{BuiltinFuns} (fuel : nat) : M bool :=
  i ← gets t_interrupt;
  if i : bool then mret true
  else match fuel with O => mret false | S fuel => step;; run fuel end.

(** The branch of [setjmp]. The loop of the code goes on after an interrupt,
    when [handle_interrupt] has collected garbage, taken a message or waited for
    one; here it ends. *)
Definition interpret `{BuiltinFuns} (fuel : nat) : M bool := fun t =>
  match run fuel t with
  | MJump t => (handle_error;; mret true) t
  | r => r
  end.

(** The first frame of a program ([interpreter_thread]), at instruction 0. *)
Definition start_program (args : pntr) : M unit :=
  prog ← gets t_prog;
  initial ← frame_new;
  set_instr initial 0;;
  first ← mderef (instructions (p_comp prog) !! 0%nat);
  massert (i_expcount first =? 1);;
  set_slot initial 0 args;;
  new_frame_cell initial;;
  run_frame initial.
