(* ===== verification/Lists.v ===== *)
(** * Lists held in arrays (src/nreduce/runtime/builtins.c)

    A chain of cons cells and short arrays is gathered into one array when
    its tail is asked for; strings and arguments become arrays, and lists of
    characters are read back as strings. A loop over a list gets as much fuel
    as there are objects in the heap: a list that is longer has a cycle, and
    the loop of the C code ends only when memory does. *)

From S2P Require Import Prelude Source Double Pointer Arith Memory Arrays.
#[local] Open Scope Z_scope.

(** ** Expanding an array *)

(** Case 1: two consecutive cons cells become an array. *)
Definition cons_to_array (firstcell : Z) : M unit :=
  c ← get_cell firstcell;
  firsthead ← resolve_pntr (c_field1 c);
  firsttail ← resolve_pntr (c_field2 c);
  ty ← typeof firsttail;
  if ty =? CELL_CONS then
    secondcell ← lift (get_pntr firsttail);
    c2 ← get_cell secondcell;
    secondhead ← resolve_pntr (c_field1 c2);
    secondtail ← resolve_pntr (c_field2 c2);
    arr ← carray_new sizeof_pntr 8;
    write_barrier firstcell;;
    nil ← gets t_globnilpntr;
    c ← get_cell firstcell;
    put_cell firstcell (Cell CELL_AREF (c_flags c) (make_pntr arr) nil);;
    x ← get_array arr;
    put_array arr (set_elements (Pntrs [firsthead; secondhead]) x);;
    aref_set_tail firstcell secondtail
  else mret tt.

(** The elements from [index] on of the array [arr], for an append of all of
    them to the list that ends in [refcell]. An array that is appended to
    itself and does not fit into it is overwritten while it is read. *)
Definition elements_from (refcell arr index : Z) : M elements :=
  x ← get_array arr;
  own ← cell_array refcell;
  y ← get_array own;
  massert (negb ((own =? arr) && (MAX_ARRAY_SIZE <? ca_size y + (ca_size x - index))));;
  mret (match ca_elements x with
        | Pntrs l => Pntrs (drop (Z.to_nat index) l)
        | Chars l => Chars (drop (Z.to_nat index) l)
        end).

(** The loop for pointers. [arr] stays the array there was at the start, also
    after [carray_append] has put another in its place. *)
Fixpoint expand_pntrs (fuel : nat) (arr refcell : Z) : M Z :=
  x ← get_array arr;
  if ca_size x <? MAX_ARRAY_SIZE then
    c ← get_cell refcell;
    ty ← typeof (c_field2 c);
    if ty =? CELL_CONS then
      match fuel with
      | O => diverge
      | S fuel =>
          tailcell ← lift (get_pntr (c_field2 c));
          tc ← get_cell tailcell;
          tailhead ← resolve_pntr (c_field1 tc);
          refcell ← carray_append refcell (Pntrs [tailhead]) 1 sizeof_pntr;
          tc ← get_cell tailcell;
          q ← resolve_pntr (c_field2 tc);
          aref_set_tail refcell q;;
          expand_pntrs fuel arr refcell
      end
    else if ty =? CELL_AREF then
      otharr ← aref_array (c_field2 c);
      y ← get_array otharr;
      if ca_elemsize y =? sizeof_pntr then
        match fuel with
        | O => diverge
        | S fuel =>
            othtail ← aref_tail (c_field2 c);
            let othindex := aref_index (c_field2 c) in
            data ← elements_from refcell otharr othindex;
            refcell ← carray_append refcell data (ca_size y - othindex) sizeof_pntr;
            aref_set_tail refcell othtail;;
            expand_pntrs fuel arr refcell
        end
      else mret refcell
    else mret refcell
  else mret refcell.

(** The loop for strings; here too the size is that of the first array. *)
Fixpoint expand_chars (fuel : nat) (arr refcell : Z) : M Z :=
  c ← get_cell refcell;
  ty ← typeof (c_field2 c);
  if negb (ty =? CELL_AREF) then mret refcell
  else
    tail_arr ← aref_array (c_field2 c);
    tail_tail ← aref_tail (c_field2 c);
    let tail_index := aref_index (c_field2 c) in
    y ← get_array tail_arr;
    x ← get_array arr;
    let tail_size := ca_size y - tail_index in
    if negb (ca_elemsize y =? ca_elemsize x) then mret refcell
    else if MAX_ARRAY_SIZE <? ca_size x + tail_size then mret refcell
    else
      match fuel with
      | O => diverge
      | S fuel =>
          data ← elements_from refcell tail_arr tail_index;
          refcell ← carray_append refcell data tail_size (ca_elemsize x);
          aref_set_tail refcell tail_tail;;
          expand_chars fuel arr refcell
      end.

Definition heap_size : M nat := h ← gets t_heap; mret (size h).

Definition maybe_expand_array (p : pntr) : M unit :=
  ty ← typeof p;
  (if ty =? CELL_CONS then firstcell ← lift (get_pntr p); cons_to_array firstcell else mret tt);;
  ty ← typeof p;
  if ty =? CELL_AREF then
    refcell ← lift (get_pntr p);
    arr ← aref_array p;
    x ← get_array arr;
    if ca_multiref x then mret tt
    else
      aref_resolve_tail refcell;;
      fuel ← heap_size;
      last ← (if ca_elemsize x =? sizeof_pntr then expand_pntrs fuel arr refcell else expand_chars fuel arr refcell);
      check_array_convert last
  else mret tt.

(** ** Making lists *)

(** [pointers_to_list] and [binary_data_to_list]. *)
Definition data_to_list (data : elements) (dsize : Z) (tail : pntr) : M pntr :=
  let size := elements_size data in
  if size =? 0 then mret tail
  else
    aref ← create_array dsize size;
    refcell ← lift (get_pntr aref);
    refcell ← carray_append refcell data size dsize;
    aref_set_tail refcell tail;;
    mret aref.
Definition pointers_to_list (data : list pntr) (tail : pntr) : M pntr := data_to_list (Pntrs data) sizeof_pntr tail.
Definition binary_data_to_list (data : list ascii) (tail : pntr) : M pntr := data_to_list (Chars data) 1 tail.

(** Of a C string, so without a zero byte. *)
Definition string_to_array (str : string) : M pntr :=
  nil ← gets t_globnilpntr; binary_data_to_list (String.list_ascii_of_string str) nil.

(** ** Reading lists *)

(** The characters of an array of pointers: [None] when one of them is none. *)
Fixpoint read_chars (l : list pntr) : M (option (list ascii)) :=
  match l with
  | [] => mret (Some [])
  | p :: l =>
      elem ← resolve_pntr p;
      b ← pntr_is_char elem;
      if b : bool then
        c ← mderef (char_of elem);
        rest ← read_chars l;
        mret (match rest with Some s => Some (c :: s) | None => None end)
      else mret None
  end.

(** [array_to_string]: the bytes of the string, or [None] where it returns -1. *)
Fixpoint array_to_string_loop (fuel : nat) (p : pntr) (buf : list ascii) : M (option (list ascii)) :=
  ty ← typeof p;
  if ty =? CELL_CONS then
    match fuel with
    | O => diverge
    | S fuel =>
        a ← lift (get_pntr p);
        c ← get_cell a;
        head ← resolve_pntr (c_field1 c);
        tail ← resolve_pntr (c_field2 c);
        b ← pntr_is_char head;
        if b : bool then
          cc ← mderef (char_of head);
          p ← resolve_pntr tail;
          array_to_string_loop fuel p (buf ++ [cc])
        else mret None
    end
  else if ty =? CELL_AREF then
    match fuel with
    | O => diverge
    | S fuel =>
        arr ← aref_array p;
        x ← get_array arr;
        let index := Z.to_nat (aref_index p) in
        s ← match ca_elements x with
            | Chars l => mret (Some (drop index l))
            | Pntrs l => read_chars (drop index l)
            end;
        tail ← aref_tail p;
        q ← resolve_pntr tail;
        match s with
        | Some s => array_to_string_loop fuel q (buf ++ s)
        | None => mret None
        end
    end
  else if ty =? CELL_NIL then mret (Some buf)
  else mret None.
Definition array_to_string (p : pntr) : M (option (list ascii)) :=
  fuel ← heap_size; array_to_string_loop fuel p [].

(** The bytes up to the first NUL, as the C string functions see them. *)
Fixpoint c_string (l : list ascii) : string :=
  match l with
  | [] => EmptyString
  | c :: l => if Ascii.eqb c zero then EmptyString else String c (c_string l)
  end.

(** ** Flattening *)

Fixpoint resolve_all_pntrs (l : list pntr) : M (list pntr) :=
  match l with
  | [] => mret []
  | p :: l => q ← resolve_pntr p; m ← resolve_all_pntrs l; mret (q :: m)
  end.

Definition char_pntr (c : ascii) : pntr := set_pntrdouble (double_of_int (Z.of_nat (nat_of_ascii c))).

(** [flatten_list]: the elements, or [None] where it returns -1. The tail of
    an array is not resolved. *)
Fixpoint flatten_loop (fuel : nat) (p : pntr) (buf : list pntr) : M (option (list pntr)) :=
  ty ← typeof p;
  if ty =? CELL_CONS then
    match fuel with
    | O => diverge
    | S fuel =>
        a ← lift (get_pntr p);
        c ← get_cell a;
        head ← resolve_pntr (c_field1 c);
        tail ← resolve_pntr (c_field2 c);
        flatten_loop fuel tail (buf ++ [head])
    end
  else if ty =? CELL_AREF then
    match fuel with
    | O => diverge
    | S fuel =>
        arr ← aref_array p;
        x ← get_array arr;
        let index := Z.to_nat (aref_index p) in
        items ← match ca_elements x with
                | Chars l => mret (map char_pntr (drop index l))
                | Pntrs l =>
                    l' ← resolve_all_pntrs (drop index l);
                    put_array arr (set_elements (Pntrs (take index l ++ l')) x);;
                    mret l'
                end;
        tail ← aref_tail p;
        flatten_loop fuel tail (buf ++ items)
    end
  else if ty =? CELL_NIL then mret (Some buf)
  else mret None.
Definition flatten_list (p : pntr) : M (option (list pntr)) := fuel ← heap_size; flatten_loop fuel p [].
