(* ===== verification/Wp.v ===== *)
(** * Reasoning about the run-time system's operations

    [wp m Q t]: run from [t], [m] neither fails an assertion nor accesses
    memory it must not, it ends, and [Q] holds of its result. It may end the
    process only with one of the messages in [exit_messages], and a signal
    handler only leaves it with an error recorded. *)

From S2P Require Import Prelude Source Bytecode Compile Pointer Memory.
#[local] Open Scope Z_scope.

Definition exit_messages : list string := [
  "out of memory"; "Attempt to update cell with itself"; "<<: incompatible arguments (must be numbers)"; ">>: incompatible arguments (must be numbers)";
  "&: incompatible arguments (must be numbers)"; "|: incompatible arguments (must be numbers)";
  "^: incompatible arguments (must be numbers)"; "~: incompatible argument (must be a number)"]%string.
Definition exit_ok (msg : string) : Prop := msg ∈ exit_messages.

(** After a jump out of an instruction the error can be reported. *)
Definition jump_ok (t : task) : Prop :=
  is_Some (t_error t) /\ sl_fileno (t_errorsl t) < Z.of_nat (length (stringmap (p_comp (t_prog t)))).

Definition wp {A} (m : M A) (Q : A -> task -> Prop) (t : task) : Prop :=
  match m t with
  | MDone a t' => Q a t'
  | MExit msg => exit_ok msg
  | MJump t' => jump_ok t'
  | MCrash | MLoop => False
  end.

(** ** Structural rules *)

Lemma wp_mono {A} (m : M A) (Q R : A -> task -> Prop) t :
  wp m Q t -> (forall a t', Q a t' -> R a t') -> wp m R t.
Proof. unfold wp. destruct (m t); auto. Qed.

Lemma wp_bind {A B} (m : M A) (f : A -> M B) Q t :
  wp m (fun a t' => wp (f a) Q t') t -> wp (m ≫= f) Q t.
Proof. unfold wp, mbind, M_bind. destruct (m t); auto. Qed.

Lemma wp_bind_inv {A B} (m : M A) (f : A -> M B) Q t :
  wp (m ≫= f) Q t -> wp m (fun a t' => wp (f a) Q t') t.
Proof. unfold wp, mbind, M_bind. destruct (m t); auto. Qed.

(** A step with a specification of its own. *)
Lemma wp_use {A B} (m : M A) (f : A -> M B) (P : A -> task -> Prop) Q t :
  wp m P t -> (forall a t', P a t' -> wp (f a) Q t') -> wp (m ≫= f) Q t.
Proof. intros H Hf. apply wp_bind. by eapply wp_mono. Qed.

Lemma wp_ret {A} (a : A) Q t : Q a t -> wp (mret a) Q t.
Proof. done. Qed.

Lemma wp_gets {A} (f : task -> A) Q t : Q (f t) t -> wp (gets f) Q t.
Proof. done. Qed.

Lemma wp_modify f Q t : Q tt (f t) -> wp (modify f) Q t.
Proof. done. Qed.

Lemma wp_massert b Q t : b = true -> Q tt t -> wp (massert b) Q t.
Proof. intros -> H. done. Qed.

Lemma wp_mderef {A} (o : option A) a Q t : o = Some a -> Q a t -> wp (mderef o) Q t.
Proof. intros -> H. done. Qed.

Lemma wp_lift {A} (o : outcome A) a Q t : o = Done a -> Q a t -> wp (lift o) Q t.
Proof. intros -> H. done. Qed.

Lemma wp_fatal {A} msg (Q : A -> task -> Prop) t : exit_ok msg -> wp (fatal msg) Q t.
Proof. done. Qed.

(** ** State *)

Definition heap_put (a : Z) (o : object) (t : task) : task :=
  set_mem (set_heap (<[a := o]> (t_heap t)) (t_mem t)) t.
Definition frame_put (a : Z) (f : frame) (t : task) : task :=
  set_pool (set_frames (<[a := f]> (t_frames t)) (t_pool t)) t.

Lemma wp_get_object a o Q t : t_heap t !! a = Some o -> Q o t -> wp (get_object a) Q t.
Proof. intros H HQ. unfold get_object. apply wp_bind, wp_gets. by eapply wp_mderef. Qed.

Lemma wp_put_object a o Q t : Q tt (heap_put a o t) -> wp (put_object a o) Q t.
Proof. done. Qed.

Lemma wp_get_cell a c Q t : t_heap t !! a = Some (OCell c) -> Q c t -> wp (get_cell a) Q t.
Proof. intros H HQ. unfold get_cell. apply wp_bind. by eapply wp_get_object. Qed.

Lemma wp_put_cell a c Q t : Q tt (heap_put a (OCell c) t) -> wp (put_cell a c) Q t.
Proof. done. Qed.

Lemma wp_get_cap a fl n c Q t : t_heap t !! a = Some (OCap fl n c) -> Q c t -> wp (get_cap a) Q t.
Proof. intros H HQ. unfold get_cap. apply wp_bind. by eapply wp_get_object. Qed.

Lemma wp_put_cap a fl n c c' Q t :
  t_heap t !! a = Some (OCap fl n c) -> Q tt (heap_put a (OCap fl n c') t) -> wp (put_cap a c') Q t.
Proof. intros H HQ. unfold put_cap. apply wp_bind. by eapply wp_get_object. Qed.

Lemma wp_get_array a fl n x Q t : t_heap t !! a = Some (OArray fl n x) -> Q x t -> wp (get_array a) Q t.
Proof. intros H HQ. unfold get_array. apply wp_bind. by eapply wp_get_object. Qed.

Lemma wp_put_array a fl n x x' Q t :
  t_heap t !! a = Some (OArray fl n x) -> Q tt (heap_put a (OArray fl n x') t) -> wp (put_array a x') Q t.
Proof. intros H HQ. unfold put_array. apply wp_bind. by eapply wp_get_object. Qed.

Lemma wp_get_frame a f Q t : t_frames t !! a = Some f -> Q f t -> wp (get_frame a) Q t.
Proof. intros H HQ. unfold get_frame. apply wp_bind, wp_gets. by eapply wp_mderef. Qed.

Lemma wp_put_frame a f Q t : Q tt (frame_put a f t) -> wp (put_frame a f) Q t.
Proof. done. Qed.

Lemma wp_upd_frame a f g Q t :
  t_frames t !! a = Some f -> Q tt (frame_put a (g f) t) -> wp (upd_frame a g) Q t.
Proof. intros H HQ. unfold upd_frame. apply wp_bind. by eapply wp_get_frame. Qed.

Lemma wp_typeof p ty Q t : pntrtype (t_heap t) p = Some ty -> Q ty t -> wp (typeof p) Q t.
Proof. intros H HQ. unfold typeof. apply wp_bind, wp_gets. by eapply wp_mderef. Qed.

(** ** Loops *)

Lemma frames_frame_put a f t : t_frames (frame_put a f t) = <[a := f]> (t_frames t).
Proof. reflexivity. Qed.

Lemma heap_heap_put a o t : t_heap (heap_put a o t) = <[a := o]> (t_heap t).
Proof. reflexivity. Qed.

(** The rules that leave a condition to be proved, in one step of the proof
    of a program; [wp_auto] uses the hypotheses for it. *)
Ltac wp_prim :=
  lazymatch goal with
  | |- wp (mbind _ _) _ _ => apply wp_bind
  | |- wp (mret _) _ _ => apply wp_ret
  | |- wp (gets _) _ _ => apply wp_gets
  | |- wp (modify _) _ _ => apply wp_modify
  | |- wp (put_object _ _) _ _ => apply wp_put_object
  | |- wp (put_cell _ _) _ _ => apply wp_put_cell
  | |- wp (put_frame _ _) _ _ => apply wp_put_frame
  | |- wp (massert _) _ _ => apply wp_massert; [first [reflexivity | assumption | idtac]|]
  | |- wp (mderef _) _ _ => eapply wp_mderef; [first [eassumption | reflexivity | idtac]|]
  | |- wp (lift _) _ _ => eapply wp_lift; [first [eassumption | reflexivity | idtac]|]
  | |- wp (get_object _) _ _ => eapply wp_get_object; [first [eassumption | idtac]|]
  | |- wp (get_cell _) _ _ => eapply wp_get_cell; [first [eassumption | idtac]|]
  | |- wp (get_cap _) _ _ => eapply wp_get_cap; [first [eassumption | idtac]|]
  | |- wp (get_array _) _ _ => eapply wp_get_array; [first [eassumption | idtac]|]
  | |- wp (get_frame _) _ _ => eapply wp_get_frame; [first [eassumption | idtac]|]
  | |- wp (upd_frame _ _) _ _ => eapply wp_upd_frame; [first [eassumption | idtac]|]
  | |- wp (put_cap _ _) _ _ => eapply wp_put_cap; [first [eassumption | idtac]|]
  | |- wp (put_array _ _) _ _ => eapply wp_put_array; [first [eassumption | idtac]|]
  | |- wp (typeof _) _ _ => eapply wp_typeof; [first [eassumption | idtac]|]
  end; cbv beta.
