(* ===== verification/SchedFacts.v ===== *)
(** * The queues of frames are well formed (task.c)

    The link fields of the frames hold four structures: the run queue, the
    wait queues, the free list and the circular list of sparks. [links p q]
    says that they hold the lists of [q]; every operation of [Sched] is shown
    to change those lists as intended and nothing else. *)

From S2P Require Import Prelude Source Bytecode Compile Pointer Chain Memory Sched Wp.
#[local] Open Scope Z_scope.

(** ** Views of the frames *)

(** What a frame holds beside its links. *)
Record core := Core {
  k_instr : option Z; k_fetchers : list gaddr; k_c : Z; k_state : frame_state; k_resume : Z;
  k_retp : option (Z * Z); k_postponed : bool; k_data : list pntr
}.
Definition core_of (f : frame) : core :=
  Core (f_instr f) (f_wq_fetchers f) (f_c f) (f_state f) (f_resume f) (f_retp f) (f_postponed f) (f_data f).


(** The frame pool field by field. *)
Record views := Views {
  v_cores : gmap Z core; v_rnext : gmap Z Z; v_waitlnk : gmap Z Z; v_wq : gmap Z Z; v_freelnk : gmap Z Z;
  v_sprev : gmap Z Z; v_snext : gmap Z Z; v_run : Z; v_freeframe : Z
}.
Definition vw (t : task) : views :=
  let F := t_frames t in
  Views (core_of <$> F) (f_rnext <$> F) (f_waitlnk <$> F) (f_wq_frames <$> F) (f_freelnk <$> F)
    (f_sprev <$> F) (f_snext <$> F) (t_run t) (fp_freeframe (t_pool t)).
Definition cores (t : task) : gmap Z core := core_of <$> t_frames t.

(** Everything but the links, the head pointers and the interrupt flag. *)
Definition rest (t : task) : task :=
  set_interrupt false
    (set_pool (Framepool ∅ (fp_blocks (t_pool t)) 0 0 (fp_sparklist (t_pool t))) t).

(** A view of the frames after one of them has been replaced. *)
Lemma view_put {B} (g : frame -> B) (F : gmap Z frame) a f : g <$> <[a := f]> F = <[a := g f]> (g <$> F).
Proof. apply fmap_insert. Qed.

Lemma view_same {B} (g : frame -> B) (F : gmap Z frame) a f f' :
  F !! a = Some f -> g f' = g f -> g <$> <[a := f']> F = g <$> F.
Proof. intros Hf E. rewrite fmap_insert. apply insert_id. by rewrite lookup_fmap, Hf, E. Qed.

Lemma view_lookup {B} (g : frame -> B) (F : gmap Z frame) a f : F !! a = Some f -> (g <$> F) !! a = Some (g f).
Proof. intros H. by rewrite lookup_fmap, H. Qed.

Lemma view_lookup_inv {B} (g : frame -> B) (F : gmap Z frame) a b :
  (g <$> F) !! a = Some b -> exists f, F !! a = Some f /\ b = g f.
Proof. rewrite lookup_fmap. destruct (F !! a) as [f|]; cbn; [|done]. intros [= <-]. eauto. Qed.

Lemma core_frame t a k : cores t !! a = Some k -> exists f, t_frames t !! a = Some f /\ k = core_of f.
Proof. apply view_lookup_inv. Qed.

(** ** The four structures *)

Abbreviation links_to := (chain (fun n : Z => n)).

Definition run_ok (N : gmap Z Z) (run : Z) (rq : list Z) : Prop :=
  links_to N run rq /\ forall a n, N !! a = Some n -> a ∉ rq -> n = 0.

Record wait_ok (L W : gmap Z Z) (wl : Z -> list Z) : Prop := {
  wt_chain : forall w h, W !! w = Some h -> links_to L h (wl w);
  wt_dom : forall w x, x ∈ wl w -> is_Some (W !! w);
  wt_disjoint : forall w w' x, x ∈ wl w -> x ∈ wl w' -> w = w';
  wt_zero : forall a n, L !! a = Some n -> (forall w, a ∉ wl w) -> n = 0
}.

(** [dseg S P a l b]: [a], the members of [l] and [b] are linked in this order
    and back. *)
Fixpoint dseg (S P : gmap Z Z) (a : Z) (l : list Z) (b : Z) : Prop :=
  match l with
  | [] => S !! a = Some b /\ P !! b = Some a
  | x :: l => S !! a = Some x /\ P !! x = Some a /\ dseg S P x l b
  end.

Record spark_ok (S P : gmap Z Z) (s : Z) (sl : list Z) : Prop := {
  sk_nodup : NoDup (s :: sl);
  sk_nonzero : 0 ∉ s :: sl;
  sk_seg : dseg S P s sl s;
  sk_zero : forall a, a ∉ s :: sl -> (forall n, S !! a = Some n -> n = 0) /\ (forall n, P !! a = Some n -> n = 0)
}.

Record queues := Queues { q_run : list Z; q_wait : Z -> list Z; q_free : list Z; q_spark : list Z }.

Record links (s : Z) (v : views) (q : queues) : Prop := {
  lk_run : run_ok (v_rnext v) (v_run v) (q_run q);
  lk_wait : wait_ok (v_waitlnk v) (v_wq v) (q_wait q);
  lk_free : links_to (v_freelnk v) (v_freeframe v) (q_free q);
  lk_spark : spark_ok (v_snext v) (v_sprev v) s (q_spark q);
  lk_addr : forall a k, v_cores v !! a = Some k -> 8 <= a
}.

(** What an operation on links leaves: new queues and cores, the rest as it
    was. *)
Record moved (t : task) (ks : gmap Z core) (q : queues) (t' : task) : Prop := {
  mv_links : links (t_sparklist t') (vw t') q;
  mv_cores : cores t' = ks;
  mv_rest : rest t' = rest t
}.

(** ** The run queue *)

Lemma run_ok_pop N f r n : run_ok N f (f :: r) -> N !! f = Some n -> run_ok (<[f := 0]> N) n r.
Proof.
  intros [Hc Hz] Hn. eapply chain_NoDup in Hc as Hnd. apply NoDup_cons in Hnd as [Hf _].
  eapply chain_hd in Hc as (_ & n' & Hn' & Hc). simplify_eq. split; [by apply chain_insert_notin|].
  intros a m Ha Hr. apply lookup_insert_Some in Ha as [[_ <-]|[Hne Ha]]; [done|].
  apply (Hz a m Ha). rewrite not_elem_of_cons. done.
Qed.

Lemma run_ok_push N f n run rq :
  run_ok N run rq -> N !! f = Some n -> f <> 0 -> f ∉ rq -> run_ok (<[f := run]> N) f (f :: rq).
Proof.
  intros [Hc Hz] Hn H0 Hf. split; [by eapply chain_push|].
  intros a m Ha Hr. rewrite not_elem_of_cons in Hr. destruct Hr as [Hne Hr].
  rewrite lookup_insert_ne in Ha by done. eauto.
Qed.

(** After the head. *)
Lemma run_ok_after N f n run r m :
  run_ok N run (run :: r) -> N !! f = Some n -> f <> 0 -> f ∉ run :: r -> N !! run = Some m ->
  run_ok (<[run := f]> (<[f := m]> N)) run (run :: f :: r).
Proof.
  intros [Hc Hz] Hn H0 Hf Hm. eapply chain_NoDup in Hc as Hnd. apply NoDup_cons in Hnd as [Hr _].
  eapply chain_hd in Hc as (Hrun & m' & Hm' & Hc). simplify_eq. rewrite not_elem_of_cons in Hf. destruct Hf as [Hne Hf].
  split.
  - apply (chain_cons _ _ _ f); [done | by rewrite lookup_insert_eq|].
    apply chain_insert_notin; [by eapply chain_push|]. rewrite not_elem_of_cons. done.
  - intros a k Ha Hin. rewrite !not_elem_of_cons in Hin. destruct Hin as (H1 & H2 & H3).
    rewrite !lookup_insert_ne in Ha by done. apply (Hz a k Ha). rewrite not_elem_of_cons. done.
Qed.

Lemma run_ok_nil N f n run : run_ok N run [] -> N !! f = Some n -> f <> 0 -> run_ok (<[f := 0]> N) f [f].
Proof.
  intros [Hc Hz] Hn H0. inversion Hc; subst. split.
  - apply (chain_cons _ _ _ 0); [done | by rewrite lookup_insert_eq | constructor].
  - intros a m Ha Hin. apply lookup_insert_Some in Ha as [[_ <-]|[_ Ha]]; [done|]. apply (Hz a m Ha), not_elem_of_nil.
Qed.

(** ** The wait queues *)

Definition set_wait (wl : Z -> list Z) (w : Z) (l : list Z) : Z -> list Z :=
  fun v => if decide (v = w) then l else wl v.

Lemma set_wait_eq wl w l : set_wait wl w l w = l.
Proof. unfold set_wait. by rewrite decide_True. Qed.
Lemma set_wait_ne wl w l v : v <> w -> set_wait wl w l v = wl v.
Proof. intros H. unfold set_wait. by rewrite decide_False. Qed.

Lemma wait_ok_push L W wl w f h n :
  wait_ok L W wl -> W !! w = Some h -> L !! f = Some n -> f <> 0 -> (forall v, f ∉ wl v) ->
  wait_ok (<[f := h]> L) (<[w := f]> W) (set_wait wl w (f :: wl w)).
Proof.
  intros [Hc Hd Hj Hz] Hw Hf H0 Hn. split.
  - intros v g Hv. apply lookup_insert_Some in Hv as [[-> <-]|[Hne Hv]].
    + rewrite set_wait_eq. by eapply chain_push; eauto.
    + rewrite set_wait_ne by done. by apply chain_insert_notin; eauto.
  - intros v x Hx. destruct (decide (v = w)) as [->|Hne]; [by rewrite lookup_insert_eq|].
    rewrite set_wait_ne in Hx by done. rewrite lookup_insert_ne by done. eauto.
  - intros v v' x Hx Hx'. unfold set_wait in *. destruct (decide (v = w)) as [->|], (decide (v' = w)) as [->|]; [done|..|by eauto].
    + apply elem_of_cons in Hx as [->|Hx]; [by destruct (Hn v') | eauto].
    + apply elem_of_cons in Hx' as [->|Hx']; [by destruct (Hn v) | eauto].
  - intros a m Ha Hno. destruct (decide (a = f)) as [->|Hne].
    + destruct (Hno w). rewrite set_wait_eq. left.
    + rewrite lookup_insert_ne in Ha by done. apply (Hz a m Ha). intros v Hv. apply (Hno v).
      unfold set_wait. case_decide; subst; [by right | done].
Qed.

Lemma wait_ok_pop L W wl w f l n :
  wait_ok L W wl -> wl w = f :: l -> L !! f = Some n -> wait_ok (<[f := 0]> L) (<[w := n]> W) (set_wait wl w l).
Proof.
  intros [Hc Hd Hj Hz] Hw Hf. destruct (Hd w f) as [h Hh]; [rewrite Hw; left|].
  assert (Hcw := Hc w h Hh). rewrite Hw in Hcw. eapply chain_NoDup in Hcw as Hnd. apply NoDup_cons in Hnd as [Hfl _].
  inversion Hcw as [|? x ? Hf0 Hx Hcl]; subst. rewrite Hf in Hx. injection Hx as <-. split.
  - intros v g Hv. apply lookup_insert_Some in Hv as [[-> <-]|[Hne Hv]].
    + rewrite set_wait_eq. by apply chain_insert_notin.
    + rewrite set_wait_ne by done. apply chain_insert_notin; [eauto|]. intros Hin. apply Hne.
      apply (Hj w v f); [rewrite Hw; left | done].
  - intros v x Hx. destruct (decide (v = w)) as [->|Hne]; [by rewrite lookup_insert_eq|].
    rewrite set_wait_ne in Hx by done. rewrite lookup_insert_ne by done. eauto.
  - intros v v' x Hx Hx'. unfold set_wait in *. destruct (decide (v = w)) as [->|], (decide (v' = w)) as [->|]; [done|..|by eauto].
    + apply (Hj w v' x); [rewrite Hw; by right | done].
    + apply (Hj v w x); [done | rewrite Hw; by right].
  - intros a m Ha Hno. apply lookup_insert_Some in Ha as [[_ <-]|[Hne Ha]]; [done|]. apply (Hz a m Ha).
    intros v Hv. apply (Hno v). unfold set_wait. case_decide; subst; [|done].
    rewrite Hw in Hv. apply elem_of_cons in Hv as [->|Hv]; done.
Qed.

(** ** The spark list *)

Lemma dseg_app S P l1 : forall a x l2 b, dseg S P a (l1 ++ x :: l2) b <-> dseg S P a l1 x /\ dseg S P x l2 b.
Proof. induction l1 as [|y l1 IH]; intros a x l2 b; cbn; [tauto|]. rewrite IH. tauto. Qed.

Lemma dseg_frame S P l : forall a b x n y p,
  dseg S P a l b -> x ∉ a :: l -> y ∉ l ++ [b] -> dseg (<[x := n]> S) (<[y := p]> P) a l b.
Proof.
  induction l as [|z l IH]; intros a b x n y p; cbn; rewrite ?not_elem_of_cons.
  - intros [H1 H2] [Hx _] [Hy _]. by rewrite !lookup_insert_ne.
  - intros (H1 & H2 & H3) (Hx & Hz) (Hy & Hl). rewrite !lookup_insert_ne by (intros ->; tauto).
    split_and!; [done | done|]. apply IH; [done | rewrite not_elem_of_cons; tauto | done].
Qed.

Lemma dseg_frame_next S P l a b x n : dseg S P a l b -> x ∉ a :: l -> dseg (<[x := n]> S) P a l b.
Proof.
  revert a. induction l as [|z l IH]; intros a; cbn; rewrite ?not_elem_of_cons.
  - intros [H1 H2] [Hx _]. by rewrite lookup_insert_ne.
  - intros (H1 & H2 & H3) (Hx & Hz). rewrite lookup_insert_ne by (intros ->; tauto).
    split_and!; [done | done|]. apply IH; [done | rewrite not_elem_of_cons; tauto].
Qed.

Lemma dseg_frame_prev S P l a b y p : dseg S P a l b -> y ∉ l ++ [b] -> dseg S (<[y := p]> P) a l b.
Proof.
  revert a. induction l as [|z l IH]; intros a; cbn; rewrite ?not_elem_of_cons.
  - intros [H1 H2] [Hy _]. by rewrite lookup_insert_ne.
  - intros (H1 & H2 & H3) (Hy & Hl). rewrite lookup_insert_ne by (intros ->; tauto).
    split_and!; [done | done|]. by apply IH.
Qed.

Lemma dseg_prev S P l1 a f l2 b p : dseg S P a (l1 ++ f :: l2) b -> P !! f = Some p -> p ∈ a :: l1.
Proof.
  revert a. induction l1 as [|y l1 IH]; intros a; cbn.
  - intros (_ & Hp & _) Hf. simplify_eq. left.
  - intros (_ & _ & H) Hf. right. by apply IH.
Qed.

Lemma dseg_next S P l1 a f l2 b n : dseg S P a (l1 ++ f :: l2) b -> S !! f = Some n -> n ∈ l2 ++ [b].
Proof.
  rewrite dseg_app. intros [_ H] Hn. destruct l2 as [|x l2]; cbn in H |- *.
  - destruct H as [H _]. simplify_eq. left.
  - destruct H as [H _]. simplify_eq. left.
Qed.

Lemma dseg_remove S P l1 : forall a f l2 b p n,
  dseg S P a (l1 ++ f :: l2) b -> NoDup (a :: l1 ++ f :: l2) -> b ∉ l1 ++ f :: l2 ->
  P !! f = Some p -> S !! f = Some n -> dseg (<[p := n]> S) (<[n := p]> P) a (l1 ++ l2) b.
Proof.
  induction l1 as [|y l1 IH]; intros a f l2 b p n H Hnd Hb Hp Hn; cbn [app] in *.
  - cbn in H. destruct H as (Ha & Hp' & H). simplify_eq. apply NoDup_cons in Hnd as [Haf Hnd].
    rewrite not_elem_of_cons in Haf, Hb. destruct l2 as [|x l2]; cbn in H |- *.
    + destruct H as [H1 H2]. simplify_eq. by rewrite !lookup_insert_eq.
    + destruct H as (H1 & H2 & H3). simplify_eq. rewrite !lookup_insert_eq. split_and!; [done | done|].
      apply dseg_frame; [done | tauto|]. rewrite NoDup_cons in Hnd. destruct Hnd as [_ Hnd]. rewrite NoDup_cons in Hnd.
      rewrite elem_of_app, list_elem_of_singleton. rewrite not_elem_of_cons in Hb. intros [?| ->]; tauto.
  - cbn in H. destruct H as (H1 & H2 & H3). rewrite NoDup_cons in Hnd. destruct Hnd as [Ha Hnd].
    rewrite not_elem_of_cons in Hb. destruct Hb as [Hby Hb]. cbn. split_and!.
    + rewrite lookup_insert_ne; [done|]. intros ->. apply Ha. pose proof (dseg_prev _ _ _ _ _ _ _ _ H3 Hp) as Hin.
      rewrite elem_of_cons in Hin |- *. destruct Hin as [->|Hin]; [by left|]. right. rewrite elem_of_app. by left.
    + rewrite lookup_insert_ne; [done|]. intros ->. pose proof (dseg_next _ _ _ _ _ _ _ _ H3 Hn) as Hin.
      rewrite elem_of_app, list_elem_of_singleton in Hin. destruct Hin as [Hin| ->]; [|done].
      apply NoDup_cons in Hnd as [Hy _]. apply Hy. rewrite elem_of_app, elem_of_cons. auto.
    + by eapply IH.
Qed.

Lemma dseg_last S P l a b : dseg S P a l b -> exists p, P !! b = Some p /\ p ∈ a :: l /\ S !! p = Some b.
Proof.
  revert a. induction l as [|y l IH]; intros a; cbn.
  - intros [H1 H2]. exists a. split_and!; [done | left | done].
  - intros (_ & _ & H). destruct (IH _ H) as (p & ? & ? & ?). exists p. split_and!; [done | by right | done].
Qed.

Lemma dseg_snoc S P l : forall a b f p,
  dseg S P a l b -> NoDup (a :: l) -> f ∉ a :: l -> f <> b -> b ∉ l -> P !! b = Some p ->
  dseg (<[p := f]> (<[f := b]> S)) (<[b := f]> (<[f := p]> P)) a (l ++ [f]) b.
Proof.
  induction l as [|y l IH]; intros a b f p H Hnd Hf Hfb Hb Hp; cbn [app] in *.
  - cbn in *. destruct H as [H1 H2]. simplify_eq. rewrite not_elem_of_cons in Hf. destruct Hf as [Hf _].
    split_and!; [by rewrite lookup_insert_eq | | |by rewrite lookup_insert_eq].
    + rewrite lookup_insert_ne by done. by rewrite lookup_insert_eq.
    + rewrite lookup_insert_ne by done. by rewrite lookup_insert_eq.
  - cbn in *. destruct H as (H1 & H2 & H3). rewrite not_elem_of_cons in Hf, Hb. destruct Hf as [Hfa Hf], Hb as [Hby Hb].
    rewrite NoDup_cons in Hnd. destruct Hnd as [Ha Hnd]. destruct (dseg_last _ _ _ _ _ H3) as (p' & Hp' & Hin & _). simplify_eq.
    split_and!.
    + rewrite lookup_insert_ne by (intros ->; done). by rewrite lookup_insert_ne.
    + rewrite lookup_insert_ne by done. rewrite lookup_insert_ne; [done|]. intros ->. apply Hf. left.
    + by apply IH.
Qed.

Lemma dseg_cons S P l a b f n :
  dseg S P a l b -> NoDup (a :: l) -> f ∉ a :: l -> f <> b -> b ∉ l -> S !! a = Some n ->
  dseg (<[a := f]> (<[f := n]> S)) (<[n := f]> (<[f := a]> P)) a (f :: l) b.
Proof.
  intros H Hnd Hf Hfb Hb Hn. rewrite not_elem_of_cons in Hf. destruct Hf as [Hfa Hf].
  cbn. rewrite lookup_insert_eq. split_and!; [done|..]; destruct l as [|x l]; cbn in *.
  - destruct H as [H1 H2]. simplify_eq. by rewrite lookup_insert_ne, lookup_insert_eq by done.
  - destruct H as (H1 & H2 & H3). simplify_eq. rewrite not_elem_of_cons in Hf. destruct Hf as [Hfx _].
    by rewrite lookup_insert_ne, lookup_insert_eq by done.
  - destruct H as [H1 H2]. simplify_eq. rewrite lookup_insert_ne, !lookup_insert_eq by done. done.
  - destruct H as (H1 & H2 & H3). simplify_eq. rewrite not_elem_of_cons in Hf, Hb. destruct Hf as [Hfx Hf], Hb as [Hbx Hb].
    rewrite NoDup_cons, not_elem_of_cons, NoDup_cons in Hnd. destruct Hnd as ((Hax & Hal) & Hx & Hnd).
    rewrite lookup_insert_ne, !lookup_insert_eq by done. split_and!; [done | done|].
    assert (f ∉ l ++ [b]) by (rewrite elem_of_app, list_elem_of_singleton; tauto).
    assert (x ∉ l ++ [b]) by (rewrite elem_of_app, list_elem_of_singleton; intros [?| ->]; tauto).
    apply dseg_frame; [|rewrite not_elem_of_cons; done | done]. apply dseg_frame; [done | rewrite not_elem_of_cons; done | done].
Qed.

(** ** Single updates *)

Definition sv_cores (x : gmap Z core) (v : views) : views :=
  Views x (v_rnext v) (v_waitlnk v) (v_wq v) (v_freelnk v) (v_sprev v) (v_snext v) (v_run v) (v_freeframe v).
Definition sv_rnext (x : gmap Z Z) (v : views) : views :=
  Views (v_cores v) x (v_waitlnk v) (v_wq v) (v_freelnk v) (v_sprev v) (v_snext v) (v_run v) (v_freeframe v).
Definition sv_waitlnk (x : gmap Z Z) (v : views) : views :=
  Views (v_cores v) (v_rnext v) x (v_wq v) (v_freelnk v) (v_sprev v) (v_snext v) (v_run v) (v_freeframe v).
Definition sv_wq (x : gmap Z Z) (v : views) : views :=
  Views (v_cores v) (v_rnext v) (v_waitlnk v) x (v_freelnk v) (v_sprev v) (v_snext v) (v_run v) (v_freeframe v).
Definition sv_freelnk (x : gmap Z Z) (v : views) : views :=
  Views (v_cores v) (v_rnext v) (v_waitlnk v) (v_wq v) x (v_sprev v) (v_snext v) (v_run v) (v_freeframe v).
Definition sv_sprev (x : gmap Z Z) (v : views) : views :=
  Views (v_cores v) (v_rnext v) (v_waitlnk v) (v_wq v) (v_freelnk v) x (v_snext v) (v_run v) (v_freeframe v).
Definition sv_snext (x : gmap Z Z) (v : views) : views :=
  Views (v_cores v) (v_rnext v) (v_waitlnk v) (v_wq v) (v_freelnk v) (v_sprev v) x (v_run v) (v_freeframe v).
Definition sv_run (x : Z) (v : views) : views :=
  Views (v_cores v) (v_rnext v) (v_waitlnk v) (v_wq v) (v_freelnk v) (v_sprev v) (v_snext v) x (v_freeframe v).
Definition sv_freeframe (x : Z) (v : views) : views :=
  Views (v_cores v) (v_rnext v) (v_waitlnk v) (v_wq v) (v_freelnk v) (v_sprev v) (v_snext v) (v_run v) x.

(** A frame in terms of the views. *)
Lemma vw_lookup t a f :
  t_frames t !! a = Some f ->
  v_cores (vw t) !! a = Some (core_of f) /\ v_rnext (vw t) !! a = Some (f_rnext f) /\
  v_waitlnk (vw t) !! a = Some (f_waitlnk f) /\ v_wq (vw t) !! a = Some (f_wq_frames f) /\
  v_freelnk (vw t) !! a = Some (f_freelnk f) /\ v_sprev (vw t) !! a = Some (f_sprev f) /\
  v_snext (vw t) !! a = Some (f_snext f).
Proof. intros H. cbn. by rewrite !lookup_fmap, H. Qed.

Lemma vw_put t a f :
  vw (frame_put a f t) =
  Views (<[a := core_of f]> (v_cores (vw t))) (<[a := f_rnext f]> (v_rnext (vw t)))
    (<[a := f_waitlnk f]> (v_waitlnk (vw t))) (<[a := f_wq_frames f]> (v_wq (vw t)))
    (<[a := f_freelnk f]> (v_freelnk (vw t))) (<[a := f_sprev f]> (v_sprev (vw t)))
    (<[a := f_snext f]> (v_snext (vw t))) (v_run (vw t)) (v_freeframe (vw t)).
Proof. unfold vw. cbn. by rewrite !fmap_insert. Qed.

Lemma rest_put t a f : rest (frame_put a f t) = rest t.
Proof. reflexivity. Qed.

(** [upd_frame a (set_f_x n)] changes one view; [sv] is its setter. *)
Ltac vw_put_solve :=
  intros; rewrite vw_put; unfold sv_cores, sv_rnext, sv_waitlnk, sv_wq, sv_freelnk, sv_sprev, sv_snext;
  f_equal; cbn; try reflexivity;
  apply insert_id; match goal with H : t_frames _ !! _ = Some _ |- _ => by rewrite lookup_fmap, H end.

Lemma vw_put_rnext t a f n : t_frames t !! a = Some f ->
  vw (frame_put a (set_f_rnext n f) t) = sv_rnext (<[a := n]> (v_rnext (vw t))) (vw t).
Proof. vw_put_solve. Qed.
Lemma vw_put_waitlnk t a f n : t_frames t !! a = Some f ->
  vw (frame_put a (set_f_waitlnk n f) t) = sv_waitlnk (<[a := n]> (v_waitlnk (vw t))) (vw t).
Proof. vw_put_solve. Qed.
Lemma vw_put_wq t a f n : t_frames t !! a = Some f ->
  vw (frame_put a (set_f_wq_frames n f) t) = sv_wq (<[a := n]> (v_wq (vw t))) (vw t).
Proof. vw_put_solve. Qed.
Lemma vw_put_sprev t a f n : t_frames t !! a = Some f ->
  vw (frame_put a (set_f_sprev n f) t) = sv_sprev (<[a := n]> (v_sprev (vw t))) (vw t).
Proof. vw_put_solve. Qed.
Lemma vw_put_snext t a f n : t_frames t !! a = Some f ->
  vw (frame_put a (set_f_snext n f) t) = sv_snext (<[a := n]> (v_snext (vw t))) (vw t).
Proof. vw_put_solve. Qed.

(** Updates that keep all links. *)
Lemma vw_put_core t a f f' : t_frames t !! a = Some f ->
  f_rnext f' = f_rnext f -> f_waitlnk f' = f_waitlnk f -> f_wq_frames f' = f_wq_frames f ->
  f_freelnk f' = f_freelnk f -> f_sprev f' = f_sprev f -> f_snext f' = f_snext f ->
  vw (frame_put a f' t) = sv_cores (<[a := core_of f']> (v_cores (vw t))) (vw t).
Proof.
  intros Hf E1 E2 E3 E4 E5 E6. rewrite vw_put. unfold sv_cores. rewrite E1, E2, E3, E4, E5, E6.
  f_equal; apply insert_id; cbn; by rewrite lookup_fmap, Hf.
Qed.

(** One step of a program that updates a field. *)
Definition is_frame (t : task) (a : Z) : Prop := is_Some (cores t !! a).

Lemma is_frame_lookup t a : is_frame t a <-> is_Some (t_frames t !! a).
Proof. unfold is_frame, cores. by rewrite lookup_fmap, fmap_is_Some. Qed.

Lemma is_frame_view t a {B} (g : frame -> B) : is_frame t a <-> is_Some ((g <$> t_frames t) !! a).
Proof. rewrite is_frame_lookup. by rewrite lookup_fmap, fmap_is_Some. Qed.

Section upd.
Context (Q : unit -> task -> Prop) (t : task) (a n : Z).
Hypothesis Ha : is_frame t a.

Lemma wp_upd_rnext :
  (forall t', vw t' = sv_rnext (<[a := n]> (v_rnext (vw t))) (vw t) -> rest t' = rest t -> Q tt t') ->
  wp (upd_frame a (set_f_rnext n)) Q t.
Proof. intros H. apply is_frame_lookup in Ha as [f Hf]. eapply wp_upd_frame; [done|]. apply H; [by apply vw_put_rnext | done]. Qed.
Lemma wp_upd_waitlnk :
  (forall t', vw t' = sv_waitlnk (<[a := n]> (v_waitlnk (vw t))) (vw t) -> rest t' = rest t -> Q tt t') ->
  wp (upd_frame a (set_f_waitlnk n)) Q t.
Proof. intros H. apply is_frame_lookup in Ha as [f Hf]. eapply wp_upd_frame; [done|]. apply H; [by apply vw_put_waitlnk | done]. Qed.
Lemma wp_upd_wq :
  (forall t', vw t' = sv_wq (<[a := n]> (v_wq (vw t))) (vw t) -> rest t' = rest t -> Q tt t') ->
  wp (upd_frame a (set_f_wq_frames n)) Q t.
Proof. intros H. apply is_frame_lookup in Ha as [f Hf]. eapply wp_upd_frame; [done|]. apply H; [by apply vw_put_wq | done]. Qed.
Lemma wp_upd_sprev :
  (forall t', vw t' = sv_sprev (<[a := n]> (v_sprev (vw t))) (vw t) -> rest t' = rest t -> Q tt t') ->
  wp (upd_frame a (set_f_sprev n)) Q t.
Proof. intros H. apply is_frame_lookup in Ha as [f Hf]. eapply wp_upd_frame; [done|]. apply H; [by apply vw_put_sprev | done]. Qed.
Lemma wp_upd_snext :
  (forall t', vw t' = sv_snext (<[a := n]> (v_snext (vw t))) (vw t) -> rest t' = rest t -> Q tt t') ->
  wp (upd_frame a (set_f_snext n)) Q t.
Proof. intros H. apply is_frame_lookup in Ha as [f Hf]. eapply wp_upd_frame; [done|]. apply H; [by apply vw_put_snext | done]. Qed.
End upd.

Lemma wp_upd_core (g : frame -> frame) (gk : core -> core) Q t a k :
  (forall f, f_rnext (g f) = f_rnext f /\ f_waitlnk (g f) = f_waitlnk f /\ f_wq_frames (g f) = f_wq_frames f /\
     f_freelnk (g f) = f_freelnk f /\ f_sprev (g f) = f_sprev f /\ f_snext (g f) = f_snext f /\
     core_of (g f) = gk (core_of f)) ->
  cores t !! a = Some k ->
  (forall t', vw t' = sv_cores (<[a := gk k]> (v_cores (vw t))) (vw t) -> rest t' = rest t -> Q tt t') ->
  wp (upd_frame a g) Q t.
Proof.
  intros Hg Hk H. destruct (core_frame _ _ _ Hk) as (f & Hf & ->). eapply wp_upd_frame; [done|].
  destruct (Hg f) as (E1 & E2 & E3 & E4 & E5 & E6 & Ek). apply H; [|done]. rewrite <- Ek. by apply (vw_put_core _ _ f).
Qed.

Definition sk_state (x : frame_state) (k : core) : core :=
  Core (k_instr k) (k_fetchers k) (k_c k) x (k_resume k) (k_retp k) (k_postponed k) (k_data k).
Definition sk_instr (x : option Z) (k : core) : core :=
  Core x (k_fetchers k) (k_c k) (k_state k) (k_resume k) (k_retp k) (k_postponed k) (k_data k).
Definition sk_c (x : Z) (k : core) : core :=
  Core (k_instr k) (k_fetchers k) x (k_state k) (k_resume k) (k_retp k) (k_postponed k) (k_data k).
Definition sk_retp (x : option (Z * Z)) (k : core) : core :=
  Core (k_instr k) (k_fetchers k) (k_c k) (k_state k) (k_resume k) x (k_postponed k) (k_data k).
Definition sk_data (x : list pntr) (k : core) : core :=
  Core (k_instr k) (k_fetchers k) (k_c k) (k_state k) (k_resume k) (k_retp k) (k_postponed k) x.

(** Reading a frame. *)
Lemma wp_read_frame Q t a :
  is_frame t a -> (forall f, t_frames t !! a = Some f -> Q f t) -> wp (get_frame a) Q t.
Proof. intros [f Hf]%is_frame_lookup H. eapply wp_get_frame; [done | by apply H]. Qed.

Lemma is_frame_vw t t' a : v_cores (vw t') = v_cores (vw t) -> is_frame t a -> is_frame t' a.
Proof. unfold is_frame. intros E. change (v_cores (vw t')) with (cores t') in E. by rewrite E. Qed.

Lemma view_is_frame {B} t a (g : frame -> B) x : (g <$> t_frames t) !! a = Some x -> is_frame t a.
Proof. intros H. apply (is_frame_view t a g). eauto. Qed.

(** ** Sparks *)

Definition q_set_spark (l : list Z) (q : queues) : queues := Queues (q_run q) (q_wait q) (q_free q) l.
Definition q_set_run (l : list Z) (q : queues) : queues := Queues l (q_wait q) (q_free q) (q_spark q).
Definition q_set_wait (w : Z -> list Z) (q : queues) : queues := Queues (q_run q) w (q_free q) (q_spark q).
Definition q_set_free (l : list Z) (q : queues) : queues := Queues (q_run q) (q_wait q) l (q_spark q).

Lemma spark_ok_remove S P s l1 f l2 p n :
  spark_ok S P s (l1 ++ f :: l2) -> P !! f = Some p -> S !! f = Some n ->
  spark_ok (<[f := 0]> (<[p := n]> S)) (<[f := 0]> (<[n := p]> P)) s (l1 ++ l2).
Proof.
  intros [Hnd H0 Hseg Hz] Hp Hn.
  assert (Hnd' := Hnd). rewrite NoDup_cons in Hnd'. destruct Hnd' as [Hs Hnd'].
  rewrite list.NoDup_app, NoDup_cons in Hnd'. destruct Hnd' as (Hn1 & Hdis & Hf2 & Hn2).
  assert (f ∉ l1) as Hf1 by (intros Hin; apply (Hdis f Hin); left).
  assert (f <> s) as Hfs by (intros ->; apply Hs; rewrite elem_of_app; right; left).
  assert (p ∈ s :: l1) as Hp1 by (by eapply dseg_prev).
  assert (n ∈ l2 ++ [s]) as Hn2' by (by eapply dseg_next).
  split.
  - apply NoDup_cons. rewrite list.NoDup_app. split_and!; [|done|..|done].
    + rewrite elem_of_app in Hs |- *. intros [?|?]; apply Hs; [by left | right; by right].
    + intros x Hx Hx2. apply (Hdis x Hx). by right.
  - rewrite elem_of_cons, elem_of_app in H0 |- *. intros [?|[?|?]]; apply H0; [by left | right; by left | right; right; by right].
  - apply dseg_frame.
    + eapply dseg_remove; try done.
    + rewrite elem_of_cons, elem_of_app. tauto.
    + rewrite !elem_of_app, list_elem_of_singleton. tauto.
  - intros a Ha. rewrite elem_of_cons, elem_of_app in Ha. destruct (decide (a = f)) as [->|Hne].
    { rewrite !lookup_insert_eq. split; by intros ? [= <-]. }
    rewrite !(lookup_insert_ne _ f) by done.
    assert (a <> p) by (intros ->; apply Ha; rewrite elem_of_cons in Hp1; tauto).
    assert (a <> n) by (intros ->; apply Ha; rewrite elem_of_app, list_elem_of_singleton in Hn2'; tauto).
    rewrite !lookup_insert_ne by done. apply Hz. rewrite elem_of_cons, elem_of_app, elem_of_cons. tauto.
Qed.

Lemma spark_ok_push S P s l f n :
  spark_ok S P s l -> f ∉ s :: l -> f <> 0 -> S !! s = Some n ->
  spark_ok (<[s := f]> (<[f := n]> S)) (<[n := f]> (<[f := s]> P)) s (f :: l).
Proof.
  intros [Hnd H0 Hseg Hz] Hf Hf0 Hn. assert (Hf' := Hf). rewrite not_elem_of_cons in Hf'. destruct Hf' as [Hfs Hfl].
  assert (Hnd' := Hnd). rewrite NoDup_cons in Hnd'. destruct Hnd' as [Hs Hnd'].
  assert (n ∈ l ++ [s]) as Hin.
  { destruct l as [|x l]; cbn in Hseg; destruct Hseg as [Hx _]; simplify_eq; left. }
  split.
  - rewrite NoDup_cons, NoDup_cons, not_elem_of_cons. split_and!; [|done|done|done]. by intros ->.
  - rewrite not_elem_of_cons in H0. destruct H0. do 2 (apply not_elem_of_cons; split; [congruence|]). done.
  - by apply dseg_cons.
  - intros a Ha. rewrite !not_elem_of_cons in Ha. destruct Ha as (Has & Haf & Hal).
    assert (a <> n) by (intros ->; rewrite elem_of_app, list_elem_of_singleton in Hin; tauto).
    rewrite !lookup_insert_ne by done. apply Hz. rewrite not_elem_of_cons. done.
Qed.

Lemma spark_ok_snoc S P s l f p :
  spark_ok S P s l -> f ∉ s :: l -> f <> 0 -> P !! s = Some p ->
  spark_ok (<[p := f]> (<[f := s]> S)) (<[s := f]> (<[f := p]> P)) s (l ++ [f]).
Proof.
  intros [Hnd H0 Hseg Hz] Hf Hf0 Hp. assert (Hf' := Hf). rewrite not_elem_of_cons in Hf'. destruct Hf' as [Hfs Hfl].
  assert (Hnd' := Hnd). rewrite NoDup_cons in Hnd'. destruct Hnd' as [Hs Hnd'].
  destruct (dseg_last _ _ _ _ _ Hseg) as (p' & Hp' & Hin & _). simplify_eq.
  split.
  - rewrite NoDup_cons, list.NoDup_app, elem_of_app, list_elem_of_singleton. split_and!; [|done| |by apply NoDup_singleton].
    + intros [?| ->]; done.
    + intros x Hx ->%list_elem_of_singleton. done.
  - rewrite elem_of_cons, elem_of_app, list_elem_of_singleton. rewrite not_elem_of_cons in H0. intros [?|[?|?]]; subst; tauto.
  - by apply dseg_snoc.
  - intros a Ha. rewrite not_elem_of_cons, elem_of_app, list_elem_of_singleton in Ha. destruct Ha as (Has & Haf).
    assert (a <> p) by (intros ->; rewrite elem_of_cons in Hin; tauto).
    assert (a <> f) by (intros ->; tauto).
    rewrite !lookup_insert_ne by done. apply Hz. rewrite not_elem_of_cons. tauto.
Qed.

(** The neighbours of a member are frames and point at it. *)
Lemma dseg_around S P a l1 f l2 b :
  dseg S P a (l1 ++ f :: l2) b ->
  exists p n, P !! f = Some p /\ S !! f = Some n /\ S !! p = Some f /\ P !! n = Some f /\ p ∈ a :: l1 /\ n ∈ l2 ++ [b].
Proof.
  intros H. assert (H' := H). apply dseg_app in H' as [H1 H2].
  destruct (dseg_last _ _ _ _ _ H1) as (p & Hp & Hin & Hpf). exists p.
  destruct l2 as [|x l2]; cbn in H2.
  - destruct H2 as [H2 H3]. exists b. split_and!; try done. left.
  - destruct H2 as (H2 & H3 & _). exists x. split_and!; try done. left.
Qed.

(** A frame known from one of the views. *)
Ltac known_frame :=
  match goal with
  | H : is_frame ?t ?a |- is_frame ?t ?a => exact H
  | H : _ !! ?a = Some _ |- is_frame _ ?a => exact (view_is_frame _ _ _ _ H)
  end.

Lemma remove_spark_spec t q f l1 l2 :
  links (t_sparklist t) (vw t) q -> q_spark q = l1 ++ f :: l2 ->
  wp (remove_spark f) (fun _ => moved t (cores t) (q_set_spark (l1 ++ l2) q)) t.
Proof.
  intros [Hrun Hwait Hfree Hsp Haddr] Eq. rewrite Eq in Hsp.
  destruct (dseg_around _ _ _ _ _ _ _ (sk_seg _ _ _ _ Hsp)) as (p & n & Hp & Hn & Hpf & Hnf & Hp1 & Hn2).
  assert (p <> 0) as Hp0.
  { intros ->. apply (sk_nonzero _ _ _ _ Hsp). rewrite elem_of_cons in Hp1 |- *. rewrite elem_of_app. tauto. }
  assert (n <> 0) as Hn0.
  { intros ->. apply (sk_nonzero _ _ _ _ Hsp). rewrite elem_of_app, list_elem_of_singleton in Hn2.
    rewrite elem_of_cons, elem_of_app, elem_of_cons. destruct Hn2; subst; auto. }
  unfold remove_spark. apply wp_bind, wp_read_frame; [known_frame|]. intros fr Hfr.
  destruct (vw_lookup _ _ _ Hfr) as (_ & _ & _ & _ & _ & Ep & En). rewrite Hp in Ep. rewrite Hn in En.
  injection Ep as Ep. injection En as En. rewrite <- Ep, <- En.
  apply wp_bind, wp_massert; [by apply negb_true_iff, Z.eqb_neq|].
  apply wp_bind, wp_massert; [by apply negb_true_iff, Z.eqb_neq|]. cbv zeta.
  apply wp_bind, wp_read_frame; [known_frame|]. intros pf Hpf'.
  destruct (vw_lookup _ _ _ Hpf') as (_ & _ & _ & _ & _ & _ & E). rewrite Hpf in E. injection E as <-.
  apply wp_bind, wp_massert; [apply Z.eqb_refl|].
  apply wp_bind, wp_read_frame; [known_frame|]. intros nf Hnf'.
  destruct (vw_lookup _ _ _ Hnf') as (_ & _ & _ & _ & _ & E & _). rewrite Hnf in E. injection E as <-.
  apply wp_bind, wp_massert; [apply Z.eqb_refl|].
  assert (forall t', v_cores (vw t') = v_cores (vw t) -> is_frame t' p /\ is_frame t' n /\ is_frame t' f) as Hfs.
  { intros t' E. split_and!; eapply is_frame_vw; try exact E; apply is_frame_lookup; eauto. }
  apply wp_bind, wp_upd_snext; [by apply Hfs|]. intros t1 V1 R1.
  apply wp_bind, wp_upd_sprev; [apply Hfs; by rewrite V1|]. intros t2 V2 R2.
  apply wp_bind, wp_upd_sprev; [apply Hfs; by rewrite V2, V1|]. intros t3 V3 R3.
  apply wp_upd_snext; [apply Hfs; by rewrite V3, V2, V1|]. intros t4 V4 R4.
  assert (rest t4 = rest t) as R by congruence.
  rewrite V3, V2, V1 in V4. cbn in V4. split; [|change (cores t4) with (v_cores (vw t4)); by rewrite V4 | done].
  change (t_sparklist t4) with (t_sparklist (rest t4)). rewrite R. rewrite V4.
  split; cbn; try done. by apply spark_ok_remove.
Qed.

(** The end of every such proof: the queues of [t'] from its views. *)
Lemma moved_intro t t' ks q :
  links (t_sparklist t) (vw t') q -> cores t' = ks -> rest t' = rest t -> moved t ks q t'.
Proof.
  intros H E R. split; [|done | done].
  change (t_sparklist t') with (t_sparklist (rest t')). rewrite R. exact H.
Qed.

Lemma moved_sparklist t ks q t' : moved t ks q t' -> t_sparklist t' = t_sparklist t.
Proof. intros H. change (t_sparklist (rest t') = t_sparklist (rest t)). by rewrite (mv_rest _ _ _ _ H). Qed.

Lemma moved_trans t ks q t' ks' q' t'' : moved t ks q t' -> moved t' ks' q' t'' -> moved t ks' q' t''.
Proof. intros H1 H2. destruct H1, H2. split; [done | done | congruence]. Qed.

Lemma moved_refl t q : links (t_sparklist t) (vw t) q -> moved t (cores t) q t.
Proof. by split. Qed.

Lemma zero_of_notin S P s l f :
  spark_ok S P s l -> f ∉ s :: l -> (forall n, S !! f = Some n -> n = 0) /\ (forall n, P !! f = Some n -> n = 0).
Proof. intros [_ _ _ Hz]. apply Hz. Qed.

Lemma frame_nonzero s v q t a : links s v q -> v = vw t -> is_frame t a -> a <> 0.
Proof. intros H -> [k Hk]. apply (lk_addr _ _ _ H) in Hk. lia. Qed.

Lemma prepend_spark_spec t q f :
  links (t_sparklist t) (vw t) q -> is_frame t f -> f ∉ t_sparklist t :: q_spark q ->
  wp (prepend_spark f) (fun _ => moved t (cores t) (q_set_spark (f :: q_spark q) q)) t.
Proof.
  intros H Hf Hn. assert (Hf0 := frame_nonzero _ _ _ _ _ H eq_refl Hf).
  destruct H as [Hrun Hwait Hfree Hsp Haddr].
  destruct (zero_of_notin _ _ _ _ _ Hsp Hn) as [HS HP].
  assert (exists n, v_snext (vw t) !! t_sparklist t = Some n /\ is_frame t n /\ is_frame t (t_sparklist t)) as (n & Hsn & Hnf & Hsf).
  { pose proof (sk_seg _ _ _ _ Hsp) as Hseg. destruct (q_spark q) as [|x l]; cbn in Hseg.
    - destruct Hseg as [H1 H2]. exists (t_sparklist t). split_and!; [done | known_frame | known_frame].
    - destruct Hseg as (H1 & H2 & _). exists x. split_and!; [done | known_frame | known_frame]. }
  unfold prepend_spark. apply wp_bind, wp_read_frame; [done|]. intros fr Hfr.
  destruct (vw_lookup _ _ _ Hfr) as (_ & _ & _ & _ & _ & Ep & En).
  apply wp_bind, wp_massert; [by apply Z.eqb_eq, HP|].
  apply wp_bind, wp_massert; [by apply Z.eqb_eq, HS|].
  apply wp_bind, wp_gets, wp_bind, wp_read_frame; [done|]. intros sf Hsf'.
  destruct (vw_lookup _ _ _ Hsf') as (_ & _ & _ & _ & _ & _ & E). rewrite Hsn in E. injection E as ->. cbv zeta.
  assert (forall t', v_cores (vw t') = v_cores (vw t) -> is_frame t' f /\ is_frame t' (f_snext sf) /\ is_frame t' (t_sparklist t)) as Hfs.
  { intros t' E. split_and!; by eapply is_frame_vw. }
  apply wp_bind, wp_upd_sprev; [by apply Hfs|]. intros t1 V1 R1.
  apply wp_bind, wp_upd_snext; [apply Hfs; by rewrite V1|]. intros t2 V2 R2.
  apply wp_bind, wp_upd_sprev; [apply Hfs; by rewrite V2, V1|]. intros t3 V3 R3.
  apply wp_upd_snext; [apply Hfs; by rewrite V3, V2, V1|]. intros t4 V4 R4.
  rewrite V3, V2, V1 in V4. cbn in V4. apply moved_intro; [|change (cores t4) with (v_cores (vw t4)); by rewrite V4 | congruence].
  rewrite V4. split; cbn; try done. by apply spark_ok_push.
Qed.

Lemma append_spark_spec t q f :
  links (t_sparklist t) (vw t) q -> is_frame t f -> f ∉ t_sparklist t :: q_spark q ->
  wp (append_spark f) (fun _ => moved t (cores t) (q_set_spark (q_spark q ++ [f]) q)) t.
Proof.
  intros H Hf Hn. assert (Hf0 := frame_nonzero _ _ _ _ _ H eq_refl Hf).
  destruct H as [Hrun Hwait Hfree Hsp Haddr].
  destruct (zero_of_notin _ _ _ _ _ Hsp Hn) as [HS HP].
  destruct (dseg_last _ _ _ _ _ (sk_seg _ _ _ _ Hsp)) as (p & Hsp' & _ & Hps).
  assert (is_frame t (t_sparklist t)) as Hsf by known_frame. assert (is_frame t p) as Hpf by known_frame.
  unfold append_spark. apply wp_bind, wp_read_frame; [done|]. intros fr Hfr.
  destruct (vw_lookup _ _ _ Hfr) as (_ & _ & _ & _ & _ & Ep & En).
  apply wp_bind, wp_massert; [by apply Z.eqb_eq, HP|].
  apply wp_bind, wp_massert; [by apply Z.eqb_eq, HS|].
  apply wp_bind, wp_gets, wp_bind, wp_read_frame; [done|]. intros sf Hsf'.
  destruct (vw_lookup _ _ _ Hsf') as (_ & _ & _ & _ & _ & E & _). rewrite Hsp' in E. injection E as ->. cbv zeta.
  assert (forall t', v_cores (vw t') = v_cores (vw t) -> is_frame t' f /\ is_frame t' (f_sprev sf) /\ is_frame t' (t_sparklist t)) as Hfs.
  { intros t' E. split_and!; by eapply is_frame_vw. }
  apply wp_bind, wp_upd_snext; [by apply Hfs|]. intros t1 V1 R1.
  apply wp_bind, wp_upd_sprev; [apply Hfs; by rewrite V1|]. intros t2 V2 R2.
  apply wp_bind, wp_upd_snext; [apply Hfs; by rewrite V2, V1|]. intros t3 V3 R3.
  apply wp_upd_sprev; [apply Hfs; by rewrite V3, V2, V1|]. intros t4 V4 R4.
  rewrite V3, V2, V1 in V4. cbn in V4. apply moved_intro; [|change (cores t4) with (v_cores (vw t4)); by rewrite V4 | congruence].
  rewrite V4. split; cbn; try done. by apply spark_ok_snoc.
Qed.

(** A change of the cores alone. *)
Lemma links_cores s v q ks :
  links s v q -> (forall a k, ks !! a = Some k -> is_Some (v_cores v !! a)) -> links s (sv_cores ks v) q.
Proof.
  intros [H1 H2 H3 H4 H5] Hk. split; cbn; try done. intros a k Ha. destruct (Hk a k Ha) as [k' Hk']. eauto.
Qed.

Lemma upd_core_spec (g : frame -> frame) (gk : core -> core) t q a k :
  (forall f, f_rnext (g f) = f_rnext f /\ f_waitlnk (g f) = f_waitlnk f /\ f_wq_frames (g f) = f_wq_frames f /\
     f_freelnk (g f) = f_freelnk f /\ f_sprev (g f) = f_sprev f /\ f_snext (g f) = f_snext f /\
     core_of (g f) = gk (core_of f)) ->
  links (t_sparklist t) (vw t) q -> cores t !! a = Some k ->
  wp (upd_frame a g) (fun _ => moved t (<[a := gk k]> (cores t)) q) t.
Proof.
  intros Hg Hl Hk. eapply wp_upd_core; [exact Hg | exact Hk|]. intros t' V R.
  apply moved_intro; [rewrite V | change (v_cores (vw t') = <[a := gk k]> (v_cores (vw t))); by rewrite V | done].
  apply links_cores; [done|]. intros b k' Hb. change (is_Some (cores t !! b)).
  apply lookup_insert_Some in Hb as [[<- _]|[_ Hb]]; [by eexists | by exists k'].
Qed.

Lemma wp_read_core Q t a k :
  cores t !! a = Some k -> (forall f, t_frames t !! a = Some f -> k = core_of f -> Q f t) -> wp (get_frame a) Q t.
Proof. intros (f & Hf & ->)%core_frame H. eapply wp_get_frame; [done | by apply H]. Qed.

Ltac core_setter := intros; split_and!; reflexivity.

Lemma set_state_spec t q a k st :
  links (t_sparklist t) (vw t) q -> cores t !! a = Some k ->
  wp (upd_frame a (set_f_state st)) (fun _ => moved t (<[a := sk_state st k]> (cores t)) q) t.
Proof. intros Hl Hk. apply upd_core_spec; [core_setter | done | done]. Qed.

Lemma wp_not_sentinel f Q t : f <> t_sparklist t -> Q tt t -> wp (not_sentinel f) Q t.
Proof. intros H HQ. apply wp_bind, wp_gets, wp_massert; [by apply negb_true_iff, Z.eqb_neq | done]. Qed.

(** [spark_frame]: only a NEW frame becomes a spark, at the front. *)
Lemma spark_frame_spec t q f k :
  links (t_sparklist t) (vw t) q -> cores t !! f = Some k -> f <> t_sparklist t ->
  (k_state k = STATE_NEW -> f ∉ q_spark q) ->
  wp (spark_frame f)
    (fun _ => if bool_decide (k_state k = STATE_NEW)
              then moved t (<[f := sk_state STATE_SPARKED k]> (cores t)) (q_set_spark (f :: q_spark q) q)
              else moved t (cores t) q) t.
Proof.
  intros Hl Hk Hs Hn. apply wp_bind, wp_not_sentinel; [done|].
  apply wp_bind. eapply wp_read_core; [done|]. intros fr Hfr ->. change (k_state (core_of fr)) with (f_state fr) in *.
  destruct (f_state fr) eqn:E; try (rewrite bool_decide_false by done; by apply wp_ret, moved_refl).
  rewrite bool_decide_true by done. eapply wp_use; [by eapply set_state_spec|]. intros [] t1 M1. cbv beta in M1.
  assert (S1 := moved_sparklist _ _ _ _ M1). eapply wp_mono.
  - apply prepend_spark_spec; [apply M1 | unfold is_frame; rewrite (mv_cores _ _ _ _ M1), lookup_insert_eq; eauto |].
    rewrite S1, not_elem_of_cons. auto.
  - cbv beta. intros _ t2 M2. rewrite (mv_cores _ _ _ _ M1) in M2. by eapply moved_trans.
Qed.

(** ** Running *)

Lemma run_zero t q : links (t_sparklist t) (vw t) q -> v_run (vw t) = 0 -> q_run q = [].
Proof. intros [[Hc _] _ _ _ _] E. rewrite E in Hc. by apply chain_0 in Hc. Qed.

Lemma run_cons t q : links (t_sparklist t) (vw t) q -> t_run t <> 0 -> exists r, q_run q = t_run t :: r.
Proof. intros [[Hc _] _ _ _ _] Hr. destruct (chain_nonzero _ _ _ _ Hc Hr) as (x & r & E & _). eauto. Qed.

Lemma run_hd t q f r : links (t_sparklist t) (vw t) q -> q_run q = f :: r -> t_run t = f /\ f <> 0 /\ is_frame t f.
Proof.
  intros [[Hc _] _ _ _ _] E. rewrite E in Hc. inversion Hc as [|? n ? H1 H2 H3]; subst. split_and!; [done | done|].
  known_frame.
Qed.

Definition head_post (t : task) (ks : gmap Z core) (q : queues) (run : Z) (t' : task) : Prop :=
  moved t ks q t' /\ t_run t' = run.

Lemma activate_spec t q f k :
  links (t_sparklist t) (vw t) q -> cores t !! f = Some k -> f ∉ q_run q ->
  wp (activate f) (fun _ => moved t (<[f := sk_state STATE_ACTIVE k]> (cores t)) (q_set_run (f :: q_run q) q)) t.
Proof.
  intros Hl Hk Hn. assert (is_frame t f) as Hf by (by exists k).
  assert (Hf0 := frame_nonzero _ _ _ _ _ Hl eq_refl Hf). destruct Hl as [Hrun Hwait Hfree Hsp Haddr].
  unfold activate. apply wp_bind, wp_gets, wp_bind, wp_upd_rnext; [done|]. intros t1 V1 R1.
  apply wp_bind. eapply (wp_upd_core _ (sk_state STATE_ACTIVE) _ _ _ k); [core_setter | change (v_cores (vw t1) !! f = Some k); by rewrite V1|].
  intros t2 V2 R2. apply wp_modify.
  assert (vw (set_pool (set_run f (t_pool t2)) t2) = sv_run f (vw t2)) as V3 by reflexivity.
  rewrite V2, V1 in V3. cbn in V3. apply is_frame_lookup in Hf as [fr Hfr].
  destruct (vw_lookup _ _ _ Hfr) as (_ & En & _).
  apply moved_intro; [|apply (f_equal v_cores V3) | change (rest t2 = rest t); congruence].
  rewrite V3. split; cbn; try done.
  - by eapply run_ok_push.
  - intros a k' [[<- _]|[_ Ha]]%lookup_insert_Some; eauto.
Qed.

(** [run_frame]: a frame that has not run yet becomes the current one. *)
Definition not_started (st : frame_state) : bool := match st with STATE_NEW | STATE_SPARKED => true | _ => false end.

Lemma run_frame_new_spec t q f k :
  links (t_sparklist t) (vw t) q -> cores t !! f = Some k -> f <> t_sparklist t -> k_state k = STATE_NEW ->
  f ∉ q_run q ->
  wp (run_frame f) (fun _ => moved t (<[f := sk_state STATE_ACTIVE k]> (cores t)) (q_set_run (f :: q_run q) q)) t.
Proof.
  intros Hl Hk Hs E Hn. apply wp_bind, wp_not_sentinel; [done|].
  apply wp_bind. eapply wp_read_core; [done|]. intros fr Hfr ->. change (f_state fr = STATE_NEW) in E. rewrite E.
  by apply activate_spec.
Qed.

Lemma run_frame_sparked_spec t q f k l1 l2 :
  links (t_sparklist t) (vw t) q -> cores t !! f = Some k -> f <> t_sparklist t -> k_state k = STATE_SPARKED ->
  f ∉ q_run q -> q_spark q = l1 ++ f :: l2 ->
  wp (run_frame f) (fun _ => moved t (<[f := sk_state STATE_ACTIVE k]> (cores t))
    (q_set_run (f :: q_run q) (q_set_spark (l1 ++ l2) q))) t.
Proof.
  intros Hl Hk Hs E Hn Eq. apply wp_bind, wp_not_sentinel; [done|].
  apply wp_bind. eapply wp_read_core; [done|]. intros fr Hfr ->. change (f_state fr = STATE_SPARKED) in E. rewrite E.
  eapply wp_use; [by eapply remove_spark_spec|]. intros [] t1 M1. cbv beta in M1. eapply wp_mono.
  - apply activate_spec; [apply M1 | rewrite (mv_cores _ _ _ _ M1); exact Hk | exact Hn].
  - cbv beta. intros _ t2 M2. rewrite (mv_cores _ _ _ _ M1) in M2. by eapply moved_trans.
Qed.

Lemma run_frame_other_spec t q f k :
  links (t_sparklist t) (vw t) q -> cores t !! f = Some k -> f <> t_sparklist t -> not_started (k_state k) = false ->
  wp (run_frame f) (fun _ => moved t (cores t) q) t.
Proof.
  intros Hl Hk Hs E. apply wp_bind, wp_not_sentinel; [done|].
  apply wp_bind. eapply wp_read_core; [done|]. intros fr Hfr ->. cbn in E.
  destruct (f_state fr); try done; by apply wp_ret, moved_refl.
Qed.

(** ** Leaving the head of the queue *)

Lemma block_frame_spec t q f r k :
  links (t_sparklist t) (vw t) q -> q_run q = f :: r -> cores t !! f = Some k -> k_state k = STATE_ACTIVE ->
  wp (block_frame f) (fun _ => moved t (cores t) (q_set_run r q)) t.
Proof.
  intros Hl Eq Hk E. destruct (run_hd _ _ _ _ Hl Eq) as (Er & Hf0 & Hf). destruct Hl as [Hrun Hwait Hfree Hsp Haddr].
  rewrite Eq in Hrun. change (v_run (vw t)) with (t_run t) in Hrun. rewrite Er in Hrun. unfold block_frame. apply wp_bind. eapply wp_read_core; [done|]. intros fr Hfr ->.
  destruct (vw_lookup _ _ _ Hfr) as (_ & En & _).
  apply wp_bind, wp_massert; [by apply bool_decide_true|].
  apply wp_bind, wp_gets, wp_bind, wp_massert; [by apply Z.eqb_eq|].
  apply wp_bind, wp_upd_rnext; [done|]. intros t1 V1 R1. apply wp_modify.
  assert (vw (set_pool (set_run (f_rnext fr) (t_pool t1)) t1) = sv_run (f_rnext fr) (vw t1)) as V2 by reflexivity.
  rewrite V1 in V2. cbn in V2. apply moved_intro; [|apply (f_equal v_cores V2) | done].
  rewrite V2. split; cbn; try done. by apply run_ok_pop.
Qed.

Lemma done_frame_spec t q f r k :
  links (t_sparklist t) (vw t) q -> q_run q = f :: r -> cores t !! f = Some k -> k_state k = STATE_ACTIVE ->
  wp (done_frame f) (fun _ => moved t (<[f := sk_state STATE_DONE k]> (cores t)) (q_set_run r q)) t.
Proof.
  intros Hl Eq Hk E. destruct (run_hd _ _ _ _ Hl Eq) as (Er & Hf0 & Hf). destruct Hl as [Hrun Hwait Hfree Hsp Haddr].
  rewrite Eq in Hrun. change (v_run (vw t)) with (t_run t) in Hrun. rewrite Er in Hrun. unfold done_frame. apply wp_bind. eapply wp_read_core; [done|]. intros fr Hfr Ek.
  destruct (vw_lookup _ _ _ Hfr) as (_ & En & _).
  apply wp_bind, wp_massert; [apply bool_decide_true; by rewrite Ek in E|].
  apply wp_bind, wp_gets, wp_bind, wp_massert; [by apply Z.eqb_eq|].
  apply wp_bind, wp_modify.
  assert (vw (set_pool (set_run (f_rnext fr) (t_pool t)) t) = sv_run (f_rnext fr) (vw t)) as V0 by reflexivity.
  apply wp_bind, wp_upd_rnext; [done|]. intros t1 V1 R1. rewrite V0 in V1. cbn in V1.
  eapply (wp_upd_core _ (sk_state STATE_DONE) _ _ _ k); [core_setter | change (v_cores (vw t1) !! f = Some k); by rewrite V1|].
  intros t2 V2 R2. rewrite V1 in V2. cbn in V2. apply moved_intro; [|apply (f_equal v_cores V2) | by rewrite R2, R1].
  rewrite V2. split; cbn; try done.
  - by apply run_ok_pop.
  - intros a k' [[<- _]|[_ Ha]]%lookup_insert_Some; eauto.
Qed.

(** ** Coming back *)

Definition after_first (f : Z) (rq : list Z) : list Z :=
  match rq with [] => [f] | x :: r => x :: f :: r end.

Lemma insert_after_first_spec t q f :
  links (t_sparklist t) (vw t) q -> is_frame t f -> f ∉ q_run q ->
  wp (insert_after_first f) (fun _ => moved t (cores t) (q_set_run (after_first f (q_run q)) q)) t.
Proof.
  intros Hl Hf Hn. assert (Hf0 := frame_nonzero _ _ _ _ _ Hl eq_refl Hf).
  unfold insert_after_first. apply wp_bind, wp_gets. destruct (Z.eqb_spec (t_run t) 0) as [E0|E0].
  - assert (q_run q = []) as Eq by (by eapply run_zero). destruct Hl as [Hrun Hwait Hfree Hsp Haddr]. rewrite Eq in *.
    apply wp_bind, wp_upd_rnext; [done|]. intros t1 V1 R1. apply wp_modify.
    assert (vw (set_pool (set_run f (t_pool t1)) t1) = sv_run f (vw t1)) as V2 by reflexivity.
    rewrite V1 in V2. cbn in V2. apply moved_intro; [|apply (f_equal v_cores V2) | done].
    rewrite V2. apply is_frame_lookup in Hf as [fr Hfr]. destruct (vw_lookup _ _ _ Hfr) as (_ & En & _).
    split; cbn; try done. by eapply run_ok_nil.
  - destruct (run_cons _ _ Hl E0) as [r Eq]. destruct (run_hd _ _ _ _ Hl Eq) as (_ & _ & Hr).
    destruct Hl as [Hrun Hwait Hfree Hsp Haddr]. rewrite Eq in *.
    apply wp_bind, wp_read_frame; [done|]. intros first Hfirst. destruct (vw_lookup _ _ _ Hfirst) as (_ & Efi & _).
    apply wp_bind, wp_upd_rnext; [done|]. intros t1 V1 R1.
    apply wp_upd_rnext; [eapply is_frame_vw; [|exact Hr]; by rewrite V1|]. intros t2 V2 R2. rewrite V1 in V2. cbn in V2.
    apply moved_intro; [|apply (f_equal v_cores V2) | congruence].
    rewrite V2. apply is_frame_lookup in Hf as [fr Hfr]. destruct (vw_lookup _ _ _ Hfr) as (_ & En & _).
    split; cbn; try done. by eapply run_ok_after.
Qed.

Lemma unblock_after_first_spec t q f k :
  links (t_sparklist t) (vw t) q -> cores t !! f = Some k -> k_state k = STATE_ACTIVE -> f ∉ q_run q ->
  wp (unblock_frame_after_first f) (fun _ => moved t (cores t) (q_set_run (after_first f (q_run q)) q)) t.
Proof.
  intros Hl Hk E Hn. unfold unblock_frame_after_first. apply wp_bind. eapply wp_read_core; [done|]. intros fr Hfr Ek.
  destruct (vw_lookup _ _ _ Hfr) as (_ & En & _).
  apply wp_bind, wp_massert; [apply bool_decide_true; by rewrite Ek in E|].
  apply wp_bind, wp_massert; [apply Z.eqb_eq; by apply (lk_run _ _ _ Hl) in En|].
  apply insert_after_first_spec; [done | by exists k | done].
Qed.

(** ** Waiting *)

Lemma add_waiter_spec t q w f :
  links (t_sparklist t) (vw t) q -> is_frame t w -> is_frame t f -> (forall v, f ∉ q_wait q v) ->
  wp (add_waiter_frame w f)
    (fun _ => moved t (cores t) (q_set_wait (set_wait (q_wait q) w (f :: q_wait q w)) q)) t.
Proof.
  intros Hl Hw Hf Hn. assert (Hf0 := frame_nonzero _ _ _ _ _ Hl eq_refl Hf).
  destruct Hl as [Hrun Hwait Hfree Hsp Haddr]. unfold add_waiter_frame.
  apply wp_bind, wp_read_frame; [done|]. intros fr Hfr. destruct (vw_lookup _ _ _ Hfr) as (_ & _ & En & _).
  apply wp_bind, wp_massert; [apply Z.eqb_eq; by apply (wt_zero _ _ _ Hwait _ _ En)|].
  apply wp_bind, wp_read_frame; [done|]. intros wf Hwf. destruct (vw_lookup _ _ _ Hwf) as (_ & _ & _ & Eh & _).
  apply wp_bind, wp_upd_waitlnk; [done|]. intros t1 V1 R1.
  apply wp_upd_wq; [eapply is_frame_vw; [|exact Hw]; by rewrite V1|]. intros t2 V2 R2. rewrite V1 in V2. cbn in V2.
  apply moved_intro; [|apply (f_equal v_cores V2) | congruence].
  rewrite V2. split; cbn; try done. by eapply wait_ok_push.
Qed.

(** The frame is at an instruction it can be woken up at. *)
Definition wakeable (t : task) (k : core) : Prop :=
  exists pc i, k_instr k = Some pc /\ 0 <= pc /\
    Bytecode.instructions (p_comp (t_prog t)) !! Z.to_nat pc = Some i /\ i_opcode i = OP_EVAL.

Lemma wp_fetch Q t f k i pc :
  cores t !! f = Some k -> k_instr k = Some pc -> 0 <= pc ->
  Bytecode.instructions (p_comp (t_prog t)) !! Z.to_nat pc = Some i -> Q i t -> wp (fetch f) Q t.
Proof.
  intros Hk Hpc H0 Hi HQ. apply wp_bind. eapply wp_read_core; [done|]. intros fr Hfr ->.
  apply wp_bind. eapply wp_mderef; [exact Hpc|]. apply wp_bind, wp_gets, wp_bind, wp_massert; [by apply Z.leb_le|].
  by eapply wp_mderef.
Qed.

(** The run queue after the frames of [l] have come back one by one. *)
Definition resumed (l rq : list Z) : list Z := fold_left (fun rq f => after_first f rq) l rq.

Lemma elem_after_first f rq x : x ∈ after_first f rq <-> x = f \/ x ∈ rq.
Proof. destruct rq as [|y r]; cbn; rewrite !elem_of_cons, ?elem_of_nil; tauto. Qed.

Lemma elem_resumed l : forall rq x, x ∈ resumed l rq <-> x ∈ l \/ x ∈ rq.
Proof.
  induction l as [|f l IH]; intros rq x; cbn.
  - rewrite elem_of_nil. tauto.
  - change (fold_left _ l _) with (resumed l (after_first f rq)). rewrite IH, elem_after_first, elem_of_cons. tauto.
Qed.

Lemma wait_ok_ext L W wl wl' : (forall v, wl' v = wl v) -> wait_ok L W wl -> wait_ok L W wl'.
Proof.
  intros E [H1 H2 H3 H4]. split.
  - intros v h Hv. rewrite E. eauto.
  - intros v x. rewrite E. eauto.
  - intros v v' x. rewrite !E. eauto.
  - intros a n Ha Hn. apply (H4 a n Ha). intros v. rewrite <- E. apply Hn.
Qed.

(** Queues that hold the same lists. *)
Lemma moved_ext t ks q q' t' :
  q_run q' = q_run q -> (forall v, q_wait q' v = q_wait q v) -> q_free q' = q_free q -> q_spark q' = q_spark q ->
  moved t ks q t' -> moved t ks q' t'.
Proof.
  intros E1 E2 E3 E4 [[L1 L2 L3 L4 L5] C R]. split; [|done|done].
  split; rewrite ?E1, ?E3, ?E4; try done. by eapply wait_ok_ext.
Qed.

Lemma wait_head t q w :
  links (t_sparklist t) (vw t) q -> is_frame t w ->
  exists h, v_wq (vw t) !! w = Some h /\ links_to (v_waitlnk (vw t)) h (q_wait q w).
Proof.
  intros [_ Hwait _ _ _] Hw. assert (is_Some (v_wq (vw t) !! w)) as [h Hh] by (by apply is_frame_view).
  exists h. split; [done|]. by apply (wt_chain _ _ _ Hwait).
Qed.

Lemma resume_loop_nil fuel w t q :
  links (t_sparklist t) (vw t) q -> is_frame t w -> q_wait q w = [] ->
  wp (resume_loop fuel w) (fun _ => moved t (cores t) q) t.
Proof.
  intros Hl Hw Eq. destruct (wait_head _ _ _ Hl Hw) as (h & Hh & Hc). rewrite Eq in Hc. inversion Hc; subst.
  destruct fuel; cbn [resume_loop]; apply wp_bind, wp_read_frame; try done; intros wf Hwf;
    destruct (vw_lookup _ _ _ Hwf) as (_ & _ & _ & E & _); rewrite Hh in E; injection E as <-;
    by apply wp_ret, moved_refl.
Qed.

(** One turn of the loop. *)
Lemma resume_loop_cons fuel w f l k t q :
  links (t_sparklist t) (vw t) q -> is_frame t w -> q_wait q w = f :: l -> (f ∉ q_run q) ->
  cores t !! f = Some k -> k_state k = STATE_ACTIVE -> wakeable t k ->
  forall Q,
    (forall t1, moved t (cores t) (q_set_run (after_first f (q_run q)) (q_set_wait (set_wait (q_wait q) w l) q)) t1 ->
       wp (resume_loop fuel w) Q t1) ->
    wp (resume_loop (S fuel) w) Q t.
Proof.
  intros Hl Hw Eq Hnr Hk Hst (pc & i & Hpc & Hpc0 & Hi & Hop) Q HQ.
  destruct (wait_head _ _ _ Hl Hw) as (h & Hh & Hc). rewrite Eq in Hc. inversion Hc as [|? n ? Hf0 Hn Hcl]; subst.
  destruct Hl as [Hrun Hwait Hfree Hsp Haddr]. cbn [resume_loop].
  apply wp_bind, wp_read_frame; [done|]. intros wf Hwf. destruct (vw_lookup _ _ _ Hwf) as (_ & _ & _ & E & _).
  rewrite Hh in E. injection E as <-. cbv zeta. rewrite (proj2 (Z.eqb_neq _ _)) by done.
  apply wp_bind. eapply wp_read_core; [done|]. intros fr Hfr Ek. destruct (vw_lookup _ _ _ Hfr) as (_ & _ & E & _).
  rewrite Hn in E. injection E as ->.
  apply wp_bind. eapply wp_fetch; try done.
  apply wp_bind, wp_massert; [by rewrite (bool_decide_true _ Hop)|].
  apply wp_bind, wp_upd_wq; [done|]. intros t1 V1 R1.
  apply wp_bind, wp_upd_waitlnk; [eapply is_frame_vw; [|apply is_frame_lookup; eauto]; by rewrite V1|].
  intros t2 V2 R2. rewrite V1 in V2. cbn in V2.
  assert (M2 : moved t (cores t) (q_set_wait (set_wait (q_wait q) w l) q) t2).
  { apply moved_intro; [|apply (f_equal v_cores V2) | congruence].
    rewrite V2. split; cbn; try done. by apply wait_ok_pop. }
  assert (Ek2 := mv_cores _ _ _ _ M2). eapply wp_use.
  { apply (unblock_after_first_spec t2 (q_set_wait (set_wait (q_wait q) w l) q) f k); [apply M2 | by rewrite Ek2 | done | done]. }
  intros [] t3 M3. cbv beta in M3. rewrite Ek2 in M3. apply HQ. by eapply moved_trans.
Qed.

Lemma resume_loop_spec w l : forall fuel t q,
  links (t_sparklist t) (vw t) q -> is_frame t w -> q_wait q w = l -> (length l <= fuel)%nat ->
  (forall f, f ∈ l -> (f ∉ q_run q) /\ exists k, cores t !! f = Some k /\ k_state k = STATE_ACTIVE /\ wakeable t k) ->
  wp (resume_loop fuel w)
    (fun _ => moved t (cores t) (q_set_run (resumed l (q_run q)) (q_set_wait (set_wait (q_wait q) w []) q))) t.
Proof.
  induction l as [|f l IH]; intros fuel t q Hl Hw Eq Hfuel Hall.
  - eapply wp_mono; [by eapply resume_loop_nil|]. cbv beta. intros _ t'. apply moved_ext; try done.
    intros v. cbn. unfold set_wait. case_decide; by subst.
  - destruct fuel as [|fuel]; cbn in Hfuel; [lia|].
    destruct (Hall f) as (Hnr & k & Hk & Hst & Hwk); [left|].
    assert (f ∉ l) as Hfl.
    { destruct (wait_head _ _ _ Hl Hw) as (h & Hh & Hc). rewrite Eq in Hc. apply chain_NoDup in Hc. by apply NoDup_cons in Hc as [? _]. }
    eapply resume_loop_cons; try done. intros t1 M1.
    assert (t_prog t1 = t_prog t) as Ep by apply (f_equal t_prog (mv_rest _ _ _ _ M1)).
    assert (Ek := mv_cores _ _ _ _ M1).
    eapply wp_mono; [apply (IH fuel _ _ (mv_links _ _ _ _ M1))|].
    + unfold is_frame. by rewrite Ek.
    + cbn. by rewrite set_wait_eq.
    + lia.
    + intros g Hg. destruct (Hall g) as (Hgr & kg & Hkg & Hsg & Hwg); [by right|]. split.
      * cbn. rewrite elem_after_first. intros [->|?]; done.
      * exists kg. rewrite Ek. unfold wakeable. by rewrite Ep.
    + cbv beta. intros _ t2 M2. rewrite Ek in M2. eapply moved_ext; [..|by eapply moved_trans]; try done.
      intros v. cbn. unfold set_wait. by destruct (decide (v = w)).
Qed.

(** There are no more waiting frames than frames. *)
Lemma wait_length t q w : links (t_sparklist t) (vw t) q -> is_frame t w -> (length (q_wait q w) <= size (t_frames t))%nat.
Proof.
  intros Hl Hw. destruct (wait_head _ _ _ Hl Hw) as (h & _ & Hc). apply chain_subset_size in Hc.
  cbn in Hc. by rewrite map_size_fmap in Hc.
Qed.

Lemma resume_local_waiters_spec w t q :
  links (t_sparklist t) (vw t) q -> is_frame t w ->
  (forall f, f ∈ q_wait q w -> (f ∉ q_run q) /\ exists k, cores t !! f = Some k /\ k_state k = STATE_ACTIVE /\ wakeable t k) ->
  wp (resume_local_waiters w)
    (fun _ => moved t (cores t) (q_set_run (resumed (q_wait q w) (q_run q)) (q_set_wait (set_wait (q_wait q) w []) q))) t.
Proof.
  intros Hl Hw Hall. apply wp_bind, wp_gets. apply resume_loop_spec; try done. by apply wait_length.
Qed.
