(* ===== verification/Typing.v ===== *)
(** * Types for bytecode

    The interpreter trusts the code it runs: it reads slots it takes to be in
    use, treats slots as evaluated without looking, updates cells it takes to
    be holes. A typing gives every address the stack the code there relies on;
    [check_program] decides whether each instruction of a program respects it.
    There is no such check in nreduce: it stands for what the compiler has to
    guarantee. *)

From S2P Require Import Prelude Builtins Source Bytecode Compile Pointer Arith Memory Interpreter.
#[local] Open Scope Z_scope.

(** What is known of a slot: a hole nobody has updated yet, an evaluated
    value, or any value. *)
Inductive slot_ty := SHole | SVal | SAny.
#[export] Instance slot_ty_eq_dec : EqDecision slot_ty.
Proof. solve_decision. Defined.

Definition stack_ty : Type := list slot_ty.

(** A slot of type [have] can be used where [need] is expected. *)
Definition sub_ty (need have : slot_ty) : bool :=
  match need, have with
  | SAny, _ | SVal, SVal | SHole, SHole => true
  | _, _ => false
  end.
Fixpoint sub_st (need have : stack_ty) : bool :=
  match need, have with
  | [], _ => true
  | n :: need, h :: have => sub_ty n h && sub_st need have
  | _ :: _, [] => false
  end.

(** The type of an address; [pt_main] marks the code of the program's first
    frame, which ends with END. *)
Record pc_ty := PcTy { pt_main : bool; pt_stack : stack_ty }.
Definition typing : Type := list (option pc_ty).

(** The value a copy of a slot, or of its resolution, has. *)
Definition copy_ty (ty : slot_ty) : slot_ty := match ty with SVal => SVal | _ => SAny end.

Definition zlookup {A} (l : list A) (i : Z) : option A := if 0 <=? i then l !! Z.to_nat i else None.

Lemma zlookup_Some {A} (l : list A) i x : zlookup l i = Some x <-> 0 <= i /\ l !! Z.to_nat i = Some x.
Proof. unfold zlookup. destruct (Z.leb_spec 0 i); split; [done | tauto | done | lia]. Qed.

Section check.
Context (prog : program) (T : typing) (maxstack nstrings : Z).

Definition ops : list instruction := instructions (p_comp prog).

(** Control may go on at [pc] with the stack [st]. *)
Definition goes (pc : Z) (main : bool) (st : stack_ty) : bool :=
  match zlookup T pc with
  | Some (Some pt) => implb (pt_main pt) main && sub_st (pt_stack pt) st
  | _ => false
  end.

(** [address] is the entry of a function of [arity] arguments. *)
Definition entry (address arity : Z) : bool :=
  match zlookup ops address with
  | Some i => bool_decide (i_opcode i = OP_GLOBSTART)
  | None => false
  end && goes (address + 1) false (replicate (Z.to_nat arity) SAny) && (0 <=? arity) && (arity <=? maxstack).

Definition finfo_entry (fno : Z) (ok : funinfo -> bool) : bool :=
  match zlookup (p_finfo prog) fno with
  | Some fi => entry (fi_address fi) (fi_arity fi) && ok fi
  | None => false
  end.

Definition slot_is (st : stack_ty) (i : Z) (p : slot_ty -> bool) : bool :=
  match zlookup st i with Some ty => p ty | None => false end.
Definition is_val (ty : slot_ty) : bool := bool_decide (ty = SVal).
Definition is_hole (ty : slot_ty) : bool := bool_decide (ty = SHole).
Definition top_is_val (st : stack_ty) : bool := slot_is st (Z.of_nat (length st) - 1) is_val.

Definition ztake (n : Z) (st : stack_ty) : stack_ty := take (Z.to_nat n) st.

(** The last [n] slots become one of type [ty]. *)
Definition replace_top (n : Z) (ty : slot_ty) (st : stack_ty) : stack_ty :=
  ztake (Z.of_nat (length st) - n) st ++ [ty].
Definition can_replace (n : Z) (st : stack_ty) : bool :=
  (0 <=? n) && (n <=? Z.of_nat (length st)) && (Z.of_nat (length st) - n + 1 <=? maxstack).

(** An instruction at [pc] run on a stack of type [st]. *)
Definition check_op (pc : Z) (main : bool) (st : stack_ty) (i : instruction) : bool :=
  let e := Z.of_nat (length st) in
  let next := goes (pc + 1) main in
  let a0 := i_arg0 i in
  let a1 := i_arg1 i in
  match i_opcode i with
  | OP_BEGIN | OP_POP => next st
  | OP_END => main
  | OP_GLOBSTART | OP_INVALID | OP_ERROR => false
  | OP_SPARK => slot_is st a0 (fun _ => true) && next st
  | OP_EVAL => slot_is st a0 (fun _ => true) && next (<[Z.to_nat a0 := SVal]> st)
  | OP_RETURN => top_is_val st
  | OP_DO =>
      top_is_val st &&
      forallb (fun d => goes (p_evaldoaddr prog + (Z.of_nat d - 1) * EVALDO_SEQUENCE_SIZE) false (replicate d SAny))
        (seq 2 (Z.to_nat (e - 2)))
  | OP_JFUN =>
      match zlookup (p_finfo prog) a0 with
      | Some fi =>
          if a1 =? 2 then goes (fi_addressed fi) false st
          else if a1 =? 1 then goes (fi_addressne fi) false st
          else entry (fi_address fi) (fi_arity fi) && goes (fi_address fi + 1) false st
      | None => false
      end
  | OP_JFALSE => top_is_val st && next st && goes (pc + a0) main st
  | OP_JUMP => goes (pc + a0) main st
  | OP_PUSH =>
      (e <? maxstack) && match zlookup st a0 with Some ty => next (st ++ [copy_ty ty]) | None => false end
  | OP_UPDATE =>
      slot_is st a0 is_hole && (a0 <? e - 1) &&
      match zlookup st (e - 1) with Some ty => next (<[Z.to_nat a0 := copy_ty ty]> st) | None => false end
  | OP_ALLOC => (0 <=? a0) && (e + a0 <=? maxstack) && next (st ++ replicate (Z.to_nat a0) SHole)
  | OP_SQUEEZE =>
      (0 <=? a0) && (0 <=? a1) && (0 <=? e - a0 - a1) &&
      next (ztake (e - a0 - a1) st ++ drop (Z.to_nat (e - a0)) st)
  | OP_MKCAP =>
      finfo_entry a0 (fun fi => a1 <? fi_arity fi) && can_replace a1 st && next (replace_top a1 SVal st)
  | OP_MKFRAME =>
      finfo_entry a0 (fun fi => a1 =? fi_arity fi) && can_replace a1 st && next (replace_top a1 SAny st)
  | OP_CALL =>
      finfo_entry a0 (fun fi => a1 =? fi_arity fi) && can_replace a1 st && next (replace_top a1 SAny st) &&
      match zlookup ops (pc + 1) with
      | Some j => bool_decide (i_opcode j = OP_EVAL)
      | None => false
      end
  | OP_BIF =>
      match zlookup builtin_info a0 with
      | Some b =>
          let n := Z.of_nat (bi_nargs b) in
          can_replace n st &&
          forallb (fun k => slot_is st (e - 1 - Z.of_nat k) is_val) (seq 0 (bi_nstrict b)) &&
          next (replace_top n (if bi_reswhnf b then SVal else SAny) st)
      | None => false
      end
  | OP_PUSHNIL => (e <? maxstack) && next (st ++ [SVal])
  | OP_PUSHNUMBER =>
      (e <? maxstack) && negb (is_pntr (Pntr (a0 mod 2^32) (a1 mod 2^32))) && next (st ++ [SVal])
  | OP_PUSHSTRING => (e <? maxstack) && (0 <=? a0) && (a0 <? nstrings) && next (st ++ [SVal])
  | OP_JCMP =>
      top_is_val st && slot_is st (e - 2) is_val &&
      bool_decide (Z.to_nat a1 ∈ [B_EQ; B_NE; B_LT; B_LE; B_GT; B_GE]) && (0 <=? a1) &&
      next st && goes (pc + a0) main st
  | OP_JEQ => top_is_val st && next st && goes (pc + a0) main st
  | OP_CONSN =>
      (2 <=? a0) && (a0 - 1 <=? MAX_ARRAY_SIZE) && can_replace a0 st && next (replace_top a0 SVal st)
  | OP_ITEMN =>
      (0 <=? a0) && (1 <=? e) && (2 <=? maxstack) && negb (is_pntr (set_pntrdouble (double_of_int a0))) &&
      finfo_entry (p_itemfno prog) (fun fi => fi_arity fi =? 2) && next (replace_top 1 SAny st)
  end.

(** Source positions are printed in error messages. *)
Definition check_pos (i : instruction) : bool :=
  (i_fileno i <? 0) || (i_fileno i <? Z.of_nat (length (stringmap (p_comp prog)))).

Definition check_instr (pc : nat) (i : instruction) : bool :=
  check_pos i &&
  match T !! pc with
  | Some (Some pt) =>
      (i_expcount i =? Z.of_nat (length (pt_stack pt))) && (i_expcount i <=? maxstack) &&
      check_op (Z.of_nat pc) (pt_main pt) (pt_stack pt) i
  | _ => true
  end.

(** Every function can be named. *)
Definition check_finfo (fi : funinfo) : bool :=
  (0 <=? fi_name fi) && (fi_name fi <? Z.of_nat (length (stringmap (p_comp prog)))).

Definition check_error : bool :=
  match zlookup ops (p_erroraddr prog) with
  | Some i => bool_decide (i_opcode i = OP_ERROR)
  | None => false
  end.

(** A block holds at least one frame. *)
Definition check_size : bool := (0 <=? maxstack) && (sizeof_frame + maxstack * sizeof_pntr <=? FRAMEBLOCK_SIZE).

Definition check_program : bool :=
  check_size && check_error && forallb check_finfo (p_finfo prog) &&
  forallb (fun '(pc, i) => check_instr pc i) (imap (fun pc i => (pc, i)) ops) &&
  (Z.of_nat (length T) <=? Z.of_nat (length ops)).
End check.

(** The code at the start is that of a program's first frame. *)
Definition check_start (prog : program) (T : typing) : bool :=
  match instructions (p_comp prog) !! 0%nat with Some first => i_expcount first =? 1 | None => false end && goes T 0 true [SAny].
