(* ===== verification/Boot.v ===== *)
(** * Starting a task (src/nreduce/runtime/task.c, [task_new])

    The first task of a program from the zeroed structure up to its first
    frame in the run queue: the constants, the arguments and the strings of
    the program as lists, the object for the output connection, and the
    sentinel of the spark list. Statistics, event files and the tables for
    messages are left out. *)

From S2P Require Import Prelude Builtins Source Bytecode Compile Pointer Arith Memory Globals Sched Arrays Interpreter Lists Typing.
#[local] Open Scope Z_scope.

(** [calloc(1,sizeof(task))] with the program loaded; the allocators of the
    model hand out addresses from [FIRST_ADDRESS] on. *)
Definition FIRST_ADDRESS : Z := 4096.
Definition task_zero (tid : Z) (prog : program) (maxheap : Z) : task :=
  Task tid prog 0 maxheap FIRST_ADDRESS (Memory ∅ [] sizeof_block 0 false 0 []) (Framepool ∅ [] 0 0 0)
    (Globaltab ∅ [] ∅ ∅ ∅ 0 0 false) (Pntr 0 0) (Pntr 0 0) [] None (Sourceloc 0 0) false false 0 [].

Definition set_constants (nil true_ : pntr) (t : task) : task :=
  Task (t_tid t) (t_prog t) (t_maxstack t) (t_maxheap t) (t_brk t) (t_mem t) (t_pool t) (t_glob t) nil
    true_ (t_strings t) (t_error t) (t_errorsl t) (t_done t) (t_interrupt t) (t_rc t) (t_outbox t).
Definition set_maxstack (n : Z) (t : task) : task :=
  Task (t_tid t) (t_prog t) n (t_maxheap t) (t_brk t) (t_mem t) (t_pool t) (t_glob t) (t_globnilpntr t)
    (t_globtruepntr t) (t_strings t) (t_error t) (t_errorsl t) (t_done t) (t_interrupt t) (t_rc t) (t_outbox t).
Definition set_strings (l : list pntr) (t : task) : task :=
  Task (t_tid t) (t_prog t) (t_maxstack t) (t_maxheap t) (t_brk t) (t_mem t) (t_pool t) (t_glob t) (t_globnilpntr t)
    (t_globtruepntr t) l (t_error t) (t_errorsl t) (t_done t) (t_interrupt t) (t_rc t) (t_outbox t).
Definition set_sparklist (a : Z) (t : task) : task :=
  set_pool (Framepool (t_frames t) (fp_blocks (t_pool t)) (fp_freeframe (t_pool t)) (t_run t) a) t.

Fixpoint strings_to_arrays (l : list string) : M (list pntr) :=
  match l with
  | [] => mret []
  | s :: l => p ← string_to_array s; ps ← strings_to_arrays l; mret (p :: ps)
  end.

(** [maxstack]: the largest [stacksize] of the function table. *)
Definition max_stack (fis : list funinfo) : Z :=
  fold_left (fun m fi => if m <? fi_stacksize fi then fi_stacksize fi else m) fis 0.

(** [new_sysobject] (memory.c): the object itself is outside the heap, a cell
    refers to it. *)
Definition sizeof_sysobject : Z := 512.
Definition new_sysobject : M Z :=
  so ← sys_alloc sizeof_sysobject;
  c ← alloc_cell;
  init_cell c CELL_SYSOBJECT (make_pntr so);;
  mret c.

Definition new_sentinel : M unit :=
  s ← frame_new;
  modify (set_sparklist s);;
  upd_frame s (set_f_snext s);;
  upd_frame s (set_f_sprev s);;
  set_instr s 0;;
  c ← alloc_cell;
  upd_frame s (set_f_c c);;
  init_cell c CELL_FRAME (make_pntr s).

(** The result is [tsk->argsp]. *)
Definition task_new (args : list string) : M pntr :=
  globnilvalue ← alloc_cell;
  set_cell_type globnilvalue CELL_NIL;;
  modify (set_constants (make_pntr globnilvalue) (set_pntrdouble (double_of_int 1)));;
  argsp ← match args with
          | [] => gets t_globnilpntr
          | _ => pointers ← strings_to_arrays args; nil ← gets t_globnilpntr; pointers_to_list pointers nil
          end;
  prog ← gets t_prog;
  modify (set_maxstack (max_stack (p_finfo prog)));;
  strings ← strings_to_arrays (stringmap (p_comp prog));
  modify (set_strings strings);;
  new_sysobject;;
  new_sentinel;;
  mret argsp.

(** [task_new] and the beginning of [interpreter_thread] on task 0. *)
Definition boot (args : list string) : M unit := argsp ← task_new args; start_program argsp.

(** ** A program that runs

    The factorial of a number: its source, its bytecode and what it returns. *)

Module Factorial.
Definition lazy (l r : snode) : snode := SNODE_APPLICATION nosl false l r.
Definition strict (l r : snode) : snode := SNODE_APPLICATION nosl true l r.
Definition call2 (f a b : snode) : snode := strict (strict f a) b.
Definition op (b : nat) : snode := SNODE_BUILTIN nosl b.
Definition number (z : Z) : snode := SNODE_NUMBER nosl (double_of_int z).
Definition variable (x : string) : snode := SNODE_SYMBOL nosl x.
Definition function (name : string) (index : nat) (args : list string) (strictin : list bool) (body : snode) : scomb :=
  Scomb name args (Some body) index (Some strictin) None nosl None false false None false.

(** f n acc = (if (== n 0) acc (f (- n 1) ( * acc n))) *)
Definition f_body : snode :=
  lazy (call2 (op B_IF) (call2 (op B_EQ) (variable "n") (number 0)) (variable "acc"))
    (call2 (SNODE_SCREF nosl 1) (call2 (op B_SUBTRACT) (variable "n") (number 1)) (call2 (op B_MULTIPLY) (variable "acc") (variable "n"))).

(** __start args = (+ (f 5 1) 1) *)
Definition start_body : snode := call2 (op B_ADD) (call2 (SNODE_SCREF nosl 1) (number 5) (number 1)) (number 1).

Definition src : source :=
  source_of [function "__start" 0 ["args"] [false] start_body; function "f" 1 ["n"; "acc"] [true; true] f_body].

Definition compiled : program :=
  match compile_program 50 50 src with Done p => p | _ => Program (Compilation [] [] None) [] 0 0 0 end.

(** Frames of 10000 slots: a block holds few of them. *)
Definition roomy (fi : funinfo) : funinfo :=
  Funinfo (fi_address fi) (fi_addressne fi) (fi_addressed fi) (fi_arity fi) 10000 (fi_name fi).
Definition prog : program :=
  Program (p_comp compiled) (map roomy (p_finfo compiled)) (p_evaldoaddr compiled) (p_erroraddr compiled) (p_itemfno compiled).

(** The stacks of the code in use: the program's first frame, [__start] and
    [f]. The sequences for DO and the built-in functions' own code are not
    reached. *)
Definition main_code : list (Z * stack_ty) := [(0, [SAny]); (1, [SAny]); (2, [SAny]); (3, [SAny]); (4, [SVal])].
Definition start_code : list (Z * stack_ty) :=
  [(7, [SAny]); (8, [SAny; SVal]); (9, [SAny; SVal; SVal]); (10, [SAny; SVal; SVal; SVal]); (11, [SAny; SVal; SAny]);
   (12, [SAny; SVal; SVal]); (13, [SAny; SVal])].
Definition f_code : list (Z * stack_ty) :=
  [(15, [SAny; SAny]); (16, [SAny; SAny]); (17, [SAny; SAny]); (18, [SAny; SVal]); (19, [SVal; SVal]); (20, [SVal; SVal; SVal]);
   (21, [SVal; SVal]); (22, [SVal; SVal; SVal]); (23, [SVal; SVal; SVal; SVal]); (24, [SVal; SVal; SVal]);
   (25, [SVal; SVal; SVal; SVal]); (26, [SVal; SVal; SVal; SVal; SVal]); (27, [SVal; SVal; SVal; SVal]); (28, [SVal; SVal]);
   (29, [SVal; SVal]); (30, [SVal; SVal; SVal])].

Definition typed (main : bool) (code : list (Z * stack_ty)) (T : typing) : typing :=
  fold_right (fun '(pc, st) (T : typing) => <[Z.to_nat pc := Some (PcTy main st)]> T) T code.
Definition types : typing :=
  typed true main_code (typed false start_code (typed false f_code (replicate (length (instructions (p_comp prog))) None))).

Lemma checked : check_program prog types (max_stack (p_finfo prog)) (Z.of_nat (length (stringmap (p_comp prog)))) = true.
Proof. vm_compute. reflexivity. Qed.

Lemma starts : check_start prog types = true.
Proof. vm_compute. reflexivity. Qed.
End Factorial.
