(* ===== verification/Flow.v ===== *)
(** * Typed pieces of code

    A piece of code is typed by the stacks its instructions find: each
    instruction can be run on its stack and leaves what the next one, or the
    target of its jump, relies on. Pieces are composed in sequence and by
    branches; what a piece relies on of the rest of the program is a parameter. *)

From S2P Require Import Prelude CString Builtins Util Source Resolve Double Pointer Bytecode Peephole Compile Arith Typing.

(** ** Slots and stacks *)

Definition drop_top (k : nat) (st : (list slot_ty)) : (list slot_ty) := take (length st - k) st.

Lemma sub_ty_trans a b c : sub_ty a b = true -> sub_ty b c = true -> sub_ty a c = true.
Proof. by destruct a, b, c. Qed.
Lemma sub_ty_refl a : sub_ty a a = true.
Proof. by destruct a. Qed.
Lemma sub_ty_any a : sub_ty SAny a = true.
Proof. by destruct a. Qed.

Lemma sub_st_spec (need : list slot_ty) : forall have : list slot_ty, sub_st need have = true <->
  forall i n, need !! i = Some n -> exists h, have !! i = Some h /\ sub_ty n h = true.
Proof.
  induction need as [|n need IH]; intros have; [split; [by intros _ [|i] n Hi | done]|].
  destruct have as [|h have]; cbn [sub_st].
  - split; [done|]. intros H. by destruct (H 0 n eq_refl) as (x & Hx & _).
  - rewrite andb_true_iff, IH. split.
    + intros [Hn H] [|i] m Hi; cbn in *; [simplify_eq; eauto | eauto].
    + intros H. split; [by destruct (H 0 n eq_refl) as (x & [= ->] & ?)|]. intros i m Hi. by apply (H (S i)).
Qed.

Lemma sub_st_refl (st : list slot_ty) : sub_st st st = true.
Proof. apply sub_st_spec. intros i n Hi. exists n. split; [done | apply sub_ty_refl]. Qed.
Lemma sub_st_trans (a b c : list slot_ty) : sub_st a b = true -> sub_st b c = true -> sub_st a c = true.
Proof.
  rewrite !sub_st_spec. intros H1 H2 i n Hi. destruct (H1 i n Hi) as (m & Hm & Hnm).
  destruct (H2 i m Hm) as (k & Hk & Hmk). exists k. split; [done | by eapply sub_ty_trans].
Qed.
Lemma sub_st_le (need have : list slot_ty) : sub_st need have = true -> length need <= length have.
Proof.
  intros H. destruct (decide (length need = 0)) as [->|Hn]; [lia|].
  destruct (lookup_lt_is_Some_2 need (length need - 1)) as [x Hx]; [lia|].
  destruct (proj1 (sub_st_spec _ _) H _ _ Hx) as (y & Hy & _). apply lookup_lt_Some in Hy. lia.
Qed.
Lemma sub_st_prefix (need have : list slot_ty) k : sub_st need (take k have) = true -> sub_st need have = true.
Proof.
  rewrite !sub_st_spec. intros H i n Hi. destruct (H i n Hi) as (h & Hh & Hs). exists h. split; [|done].
  by apply lookup_take_Some in Hh as [? _].
Qed.
Lemma sub_st_take k (need have : list slot_ty) : sub_st need have = true -> sub_st (take k need) (take k have) = true.
Proof.
  rewrite !sub_st_spec. intros H i n [Hi Hk]%lookup_take_Some. destruct (H i n Hi) as (h & Hh & Hs). exists h.
  split; [|done]. by rewrite lookup_take_lt.
Qed.
Lemma sub_st_app (a b c d : list slot_ty) : length a = length b -> sub_st a b = true -> sub_st c d = true -> sub_st (a ++ c) (b ++ d) = true.
Proof.
  rewrite !sub_st_spec. intros Hl H1 H2 i n [Hi|[Hle Hi]]%lookup_app_Some.
  - destruct (H1 i n Hi) as (h & Hh & Hs). exists h. split; [by apply lookup_app_l_Some | done].
  - destruct (H2 _ n Hi) as (h & Hh & Hs). exists h. split; [|done]. rewrite lookup_app_r by lia. by rewrite <- Hl.
Qed.

(** The stack an instruction at the next address finds: exactly the one left,
    or one of which it uses the lower part. *)
Definition fits (exact : bool) (t st : (list slot_ty)) : Prop :=
  sub_st t st = true /\ (exact = true -> length t = length st).

Lemma fits_refl ex st : fits ex st st.
Proof. split; [apply sub_st_refl | done]. Qed.
Lemma fits_trans ex a b c : fits ex a b -> fits ex b c -> fits ex a c.
Proof. intros [H1 L1] [H2 L2]. split; [by eapply sub_st_trans|]. intros H. rewrite L1, L2; done. Qed.
Lemma fits_weaken ex t st : fits true t st -> fits ex t st.
Proof. intros [H L]. split; auto. Qed.

(** ** Instructions *)

(** What a program's code relies on: functions that can be called, with their
    arity; the entries a jump to a function can go to, with the stacks they
    accept; the built-ins that may be used; a function [item]; how many source
    files there are. *)
Record surroundings := Surroundings {
  su_callee : Z -> Z -> Prop;
  su_enter : Z -> Z -> (list slot_ty) -> Prop;
  su_allowed : nat -> bool;
  su_item : Prop;
  su_files : Z
}.

Section flow.
Context (su : surroundings).

(** [next] and [jump] say what the next instruction and the target of a jump
    accept, [follow] what comes next; [n] is the number of strings. *)
Definition okop (n : Z) (jump : Z -> (list slot_ty) -> Prop) (next : (list slot_ty) -> Prop) (follow : option opcode)
    (st : (list slot_ty)) (i : instruction) : Prop :=
  let e := Z.of_nat (length st) in
  let a0 := i_arg0 i in
  let a1 := i_arg1 i in
  match i_opcode i with
  | OP_BEGIN => next st
  | OP_END | OP_GLOBSTART | OP_INVALID | OP_ERROR => False
  | OP_SPARK => is_Some (zlookup st a0) /\ next st
  | OP_EVAL => is_Some (zlookup st a0) /\ next (<[Z.to_nat a0 := SVal]> st)
  | OP_RETURN | OP_DO => top_is_val st = true
  | OP_JFUN => su_enter su a0 a1 st
  | OP_JFALSE => top_is_val st = true /\ next (drop_top 1 st) /\ jump a0 (drop_top 1 st)
  | OP_JCMP =>
      top_is_val st = true /\ slot_is st (e - 2) is_val = true /\
      (Z.to_nat a1 ∈ [B_EQ; B_NE; B_LT; B_LE; B_GT; B_GE] /\ (0 <= a1)%Z) /\
      next (drop_top 2 st) /\ jump a0 (drop_top 2 st)
  | OP_JEQ => top_is_val st = true /\ next st /\ jump a0 st
  | OP_JUMP => jump a0 st
  | OP_POP => (1 <= e)%Z /\ next (drop_top 1 st)
  | OP_PUSH => exists ty, zlookup st a0 = Some ty /\ next (st ++ [copy_ty ty])
  | OP_UPDATE =>
      exists ty, zlookup st a0 = Some SHole /\ (a0 < e - 1)%Z /\ zlookup st (e - 1) = Some ty /\
        next (drop_top 1 (<[Z.to_nat a0 := copy_ty ty]> st))
  | OP_ALLOC => (0 <= a0)%Z /\ next (st ++ replicate (Z.to_nat a0) SHole)
  | OP_SQUEEZE =>
      (0 <= a0)%Z /\ (0 <= a1)%Z /\ (0 <= e - a0 - a1)%Z /\
      next (ztake (e - a0 - a1) st ++ drop (Z.to_nat (e - a0)) st)
  | OP_MKCAP => exists k, su_callee su a0 k /\ (0 <= a1 < k)%Z /\ (a1 <= e)%Z /\ next (replace_top a1 SVal st)
  | OP_MKFRAME => su_callee su a0 a1 /\ (0 <= a1 <= e)%Z /\ next (replace_top a1 SAny st)
  | OP_CALL => (su_callee su a0 a1 /\ (0 <= a1 <= e)%Z /\ next (replace_top a1 SAny st)) /\ follow = Some OP_EVAL
  | OP_BIF =>
      exists b, zlookup builtin_info a0 = Some b /\ su_allowed su (Z.to_nat a0) = true /\ (Z.of_nat (bi_nargs b) <= e)%Z /\
        (forall k, (k < bi_nstrict b)%nat -> slot_is st (e - 1 - Z.of_nat k) is_val = true) /\
        next (replace_top (Z.of_nat (bi_nargs b)) (if bi_reswhnf b then SVal else SAny) st)
  | OP_PUSHNIL => next (st ++ [SVal])
  | OP_PUSHNUMBER => is_pntr (Pntr (a0 mod 2^32) (a1 mod 2^32)) = false /\ next (st ++ [SVal])
  | OP_PUSHSTRING => (0 <= a0 < n)%Z /\ next (st ++ [SVal])
  | OP_CONSN => (2 <= a0 <= e)%Z /\ next (replace_top a0 SVal st)
  | OP_ITEMN => (0 <= a0 <= INT_MAX)%Z /\ (1 <= e)%Z /\ su_item su /\ next (replace_top 1 SAny st)
  end.

Lemma okop_mono n n' (jump jump' : Z -> (list slot_ty) -> Prop) (next next' : (list slot_ty) -> Prop) follow follow' st i :
  (n <= n')%Z -> (is_jump (i_opcode i) = true -> forall st, jump (i_arg0 i) st -> jump' (i_arg0 i) st) ->
  (forall st, next st -> next' st) -> (follow = Some OP_EVAL -> follow' = Some OP_EVAL) ->
  okop n jump next follow st i -> okop n' jump' next' follow' st i.
Proof.
  intros Hn Hj Hx Hf. unfold okop. destruct (i_opcode i); try specialize (Hj eq_refl); try (by auto); naive_solver (auto with lia).
Qed.

Definition place_ok (i : instruction) : Prop := (i_fileno i < su_files su)%Z.

(** [flows ex n jump fin pos l ts]: the instructions of [l], from position
    [pos] on, are typed by [ts]; after the last one control may go on with the
    stack [fin], if there is one. *)
Fixpoint flows (ex : bool) (n : Z) (jump : nat -> Z -> (list slot_ty) -> Prop) (fin : list (list slot_ty)) (pos : nat)
    (l : list instruction) (ts : list (list slot_ty)) : Prop :=
  match l, ts with
  | [], [] => True
  | i :: l, t :: ts =>
      i_expcount i = Z.of_nat (length t) /\ place_ok i /\
      okop n (jump pos) (fun st => exists t', head (ts ++ fin) = Some t' /\ fits ex t' st)
        (i_opcode <$> head l) t i /\
      flows ex n jump fin (S pos) l ts
  | _, _ => False
  end.

Lemma flows_length ex n jump fin l : forall pos ts, flows ex n jump fin pos l ts -> length ts = length l.
Proof.
  induction l as [|i l IH]; intros pos [|t ts] H; cbn [flows] in H; try done.
  cbn. f_equal. eapply IH, H.
Qed.

Lemma flows_mono ex n n' (jump jump' : nat -> Z -> (list slot_ty) -> Prop) fin d l : forall pos ts,
  (n <= n')%Z ->
  (forall k i, l !! k = Some i -> is_jump (i_opcode i) = true -> forall st,
    jump (pos + k) (i_arg0 i) st -> jump' (pos + k + d) (i_arg0 i) st) ->
  flows ex n jump fin pos l ts -> flows ex n' jump' fin (pos + d) l ts.
Proof.
  induction l as [|i l IH]; intros pos [|t ts] Hn Hj H; cbn [flows] in *; try done.
  destruct H as (H1 & H2 & H3 & H4). split_and!; [done | done | |].
  - eapply okop_mono; [exact Hn | | | | exact H3]; try done.
    intros Hi st Hs. specialize (Hj 0 i eq_refl Hi st). rewrite !Nat.add_0_r in Hj. by apply Hj.
  - apply (IH (S pos)); [done | | done]. intros k j Hk Hi st. specialize (Hj (S k) j Hk Hi st).
    by replace (S pos + k) with (pos + S k) by lia.
Qed.

Lemma flows_app ex n jump st fin l1 l2 ts1 ts2 : forall pos,
  flows ex n jump [st] pos l1 ts1 -> flows ex n jump fin (pos + length l1) l2 ts2 ->
  (exists t, head (ts2 ++ fin) = Some t /\ fits ex t st) ->
  flows ex n jump fin pos (l1 ++ l2) (ts1 ++ ts2).
Proof.
  revert ts1. induction l1 as [|i l1 IH]; intros ts1 pos H1 H2 Hst.
  { destruct ts1; [|done]. rewrite Nat.add_0_r in H2. done. }
  destruct ts1 as [|t ts1]; [done|]. cbn [flows app] in *. destruct H1 as (He & Hp & Ho & H1). split_and!; [done | done | |].
  - eapply okop_mono; [done | done | | | exact Ho].
    + intros st' (t' & Ht & Hf). destruct ts1 as [|t1 ts1]; cbn in *; [|eauto].
      simplify_eq. destruct Hst as (t2 & -> & Hf2). exists t2. split; [done | by eapply fits_trans].
    + by destruct l1.
  - apply IH; [done | | done]. by replace (S pos + length l1) with (pos + S (length l1)) by lia.
Qed.

Lemma flows_fin ex n jump b out pos l ts : fits ex out b -> flows ex n jump [b] pos l ts -> flows ex n jump [out] pos l ts.
Proof.
  intros Hf H. pose proof (flows_app ex n jump b [out] l [] ts [] pos H) as H'. rewrite !app_nil_r in H'.
  apply H'; [done|]. by exists out.
Qed.

(** Relative jumps among the stacks [tys]. *)
Definition rjump (tys : list (list slot_ty)) (pos : nat) (a : Z) (st : (list slot_ty)) : Prop :=
  exists t, zlookup tys (Z.of_nat pos + a) = Some t /\ sub_st t st = true.

(** [piece n l ts st fin]: entered with the stack [st]. *)
Record piece (n : Z) (l : list instruction) (ts : list (list slot_ty)) (st : (list slot_ty)) (fin : list (list slot_ty)) : Prop := {
  pi_entry : exists t, head (ts ++ fin) = Some t /\ fits true t st;
  pi_flows : flows true n (rjump (ts ++ fin)) fin 0 l ts
}.

Lemma piece_length n l ts st fin : piece n l ts st fin -> length ts = length l.
Proof. intros H. eapply flows_length, pi_flows, H. Qed.

Lemma piece_weaken n n' l ts st fin : (n <= n')%Z -> piece n l ts st fin -> piece n' l ts st fin.
Proof.
  intros Hn [H1 H2]. split; [done|]. pose proof (flows_mono true n n' (rjump (ts ++ fin)) (rjump (ts ++ fin)) fin 0 l 0 ts Hn) as H.
  apply H; [|done]. intros k i _ _ st'. by rewrite Nat.add_0_r.
Qed.

Lemma piece_nil n st : piece n [] [] st [st].
Proof. split; [|done]. exists st. split; [done | apply fits_refl]. Qed.

Lemma piece_enter n l ts st st' fin : fits true st st' -> piece n l ts st fin -> piece n l ts st' fin.
Proof. intros H [(t & Ht & Hf) H2]. split; [|done]. exists t. split; [done | by eapply fits_trans]. Qed.

Lemma zlookup_of_nat {A} (l : list A) (k : nat) : zlookup l (Z.of_nat k) = l !! k.
Proof. unfold zlookup. rewrite (proj2 (Z.leb_le _ _)) by lia. by rewrite Nat2Z.id. Qed.
Lemma zlookup_app_r {A} (l1 l2 : list A) (k : Z) x : zlookup l2 k = Some x -> zlookup (l1 ++ l2) (Z.of_nat (length l1) + k) = Some x.
Proof.
  rewrite !zlookup_Some. intros [Hk Hx]. split; [lia|]. rewrite lookup_app_r by lia.
  by replace (Z.to_nat (Z.of_nat (length l1) + k) - length l1) with (Z.to_nat k) by lia.
Qed.
Lemma zlookup_app_l {A} (l1 l2 : list A) (k : Z) x : zlookup l1 k = Some x -> zlookup (l1 ++ l2) k = Some x.
Proof. rewrite !zlookup_Some. intros [Hk Hx]. split; [done | by apply lookup_app_l_Some]. Qed.

(** Jumps within the first part, or to where the second begins. *)
Lemma rjump_left ts1 tys b pos a st : (exists t, head tys = Some t /\ fits true t b) ->
  rjump (ts1 ++ [b]) pos a st -> rjump (ts1 ++ tys) pos a st.
Proof.
  intros (t0 & H0 & [Hf _]) (t & [Hp Ht]%zlookup_Some & Hs). apply lookup_app_Some in Ht as [Ht|[Hle Ht]].
  - exists t. split; [|done]. apply zlookup_Some. split; [done | by apply lookup_app_l_Some].
  - apply list_lookup_singleton_Some in Ht as [Hz <-]. exists t0. split; [|by eapply sub_st_trans].
    apply zlookup_Some. split; [done|]. rewrite lookup_app_r by done. rewrite Hz. by destruct tys.
Qed.
Lemma rjump_right ts1 tys pos a st : rjump tys pos a st -> rjump (ts1 ++ tys) (pos + length ts1) a st.
Proof.
  intros (t & Ht & Hs). exists t. split; [|done].
  replace (Z.of_nat (pos + length ts1) + a)%Z with (Z.of_nat (length ts1) + (Z.of_nat pos + a))%Z by lia.
  by apply zlookup_app_r.
Qed.

Lemma piece_app n l1 l2 ts1 ts2 st b fin :
  piece n l1 ts1 st [b] -> piece n l2 ts2 b fin -> piece n (l1 ++ l2) (ts1 ++ ts2) st fin.
Proof.
  intros [(t & Ht & Hf) H1] [Hb H2]. pose proof (flows_length _ _ _ _ _ _ _ H1) as Hl. split.
  - destruct ts1 as [|t1 ts1]; cbn in *; simplify_eq; [|eauto]. destruct Hb as (t2 & -> & Hf2).
    exists t2. split; [done | by eapply fits_trans].
  - rewrite <- app_assoc. apply (flows_app _ _ _ b); [| |done].
    + apply (flows_mono _ n n (rjump (ts1 ++ [b])) (rjump (ts1 ++ ts2 ++ fin)) [b] 0 l1 0 ts1) in H1; [exact H1 | done|].
      intros k i _ _ st' Hj. rewrite Nat.add_0_r. by eapply rjump_left.
    + rewrite <- Hl. apply (flows_mono _ n n (rjump (ts2 ++ fin)) (rjump (ts1 ++ ts2 ++ fin)) fin (length ts1) l2 0 ts2) in H2; [exact H2 | done|].
      intros k i _ _ st' Hj. by apply rjump_right.
Qed.

(** One instruction. *)
Lemma piece_single n i st fin :
  i_expcount i = Z.of_nat (length st) -> place_ok i -> is_jump (i_opcode i) = false ->
  okop n (fun _ _ => False) (fun st' => exists t', head fin = Some t' /\ fits true t' st') None st i ->
  piece n [i] [st] st fin.
Proof.
  intros He Hp Hj Ho. split; [by exists st; split; [|apply fits_refl]|]. cbn [flows]. split_and!; [done | done | | done].
  eapply okop_mono; [done | | | | exact Ho]; done || congruence.
Qed.

(** ** Branches *)

(** What the target of a jump sees in the stacks of a piece. *)
Lemma rjump_to tys pos (k : nat) t st : tys !! (pos + k) = Some t -> sub_st t st = true -> rjump tys pos (Z.of_nat k) st.
Proof. intros Ht Hs. exists t. split; [|done]. by rewrite <- Nat2Z.inj_add, zlookup_of_nat. Qed.

(** A piece inside a larger one, whose stacks are [pre ++ ts ++ tys]. *)
Lemma flows_inside n l ts st fin pre tys : piece n l ts st fin ->
  (forall b, head fin = Some b -> exists t, head tys = Some t /\ fits true t b) -> length fin <= 1 ->
  flows true n (rjump (pre ++ ts ++ tys)) fin (length pre) l ts.
Proof.
  intros [_ H] Hb Hf. apply (flows_mono _ n n (rjump (ts ++ fin)) (rjump (pre ++ ts ++ tys)) fin (length pre) l 0 ts) in H; [exact H | done|].
  intros k i _ _ st' Hj. apply rjump_right. destruct fin as [|b [|]]; [|eapply rjump_left; [|exact Hj]; by apply Hb | cbn in *; lia].
  destruct Hj as (t & Ht & Hs). exists t. split; [|done]. rewrite app_nil_r in Ht. by apply zlookup_app_l.
Qed.

(** The instruction that starts a conditional. *)
Definition conditional (j : instruction) (st st2 : list slot_ty) : Prop :=
  (i_opcode j = OP_JFALSE /\ st2 = drop_top 1 st \/ i_opcode j = OP_JEQ /\ st2 = st) /\ top_is_val st = true /\
  place_ok j /\ i_expcount j = Z.of_nat (length st).

Lemma conditional_ok n jump next follow a j st st2 : conditional j st st2 -> next st2 -> jump a st2 ->
  okop n jump next follow st (set_arg0 a j).
Proof. intros (Hop & Ht & _) Hn Hj. unfold okop. cbn. by destruct Hop as [[-> ->]|[-> ->]]. Qed.

(** Two branches that do not come back. *)
Lemma piece_fork n j st st2 l1 l2 ts1 ts2 :
  conditional j st st2 -> piece n l1 ts1 st2 [] -> piece n l2 ts2 st2 [] ->
  piece n (set_arg0 (1 + Z.of_nat (length l1)) j :: l1 ++ l2) (st :: ts1 ++ ts2) st [].
Proof.
  intros Hc H1 H2. pose proof (piece_length _ _ _ _ _ H1) as L1. pose proof (piece_length _ _ _ _ _ H2) as L2.
  destruct (pi_entry _ _ _ _ _ H1) as (t1 & Ht1 & Hf1). destruct (pi_entry _ _ _ _ _ H2) as (t2 & Ht2 & Hf2).
  rewrite app_nil_r in Ht1, Ht2.
  assert (forall c, flows true n c [] 1 l1 ts1 -> flows true n c [] (1 + length l1) l2 ts2 -> flows true n c [] 1 (l1 ++ l2) (ts1 ++ ts2)) as Happ.
  { clear. intros c. generalize 1. revert ts1. induction l1 as [|i l1 IH]; intros ts1 pos H1 H2; destruct ts1 as [|t ts1]; try done.
    - by rewrite Nat.add_0_r in H2.
    - cbn [flows app] in *. destruct H1 as (? & ? & Ho & H1). split_and!; [done | done | |].
      + eapply okop_mono; [done | done | | | exact Ho].
        * intros st' (t' & Ht & Hf). rewrite app_nil_r in *. exists t'. split; [|done]. by destruct ts1.
        * by destruct l1.
      + apply IH; [done|]. by replace (S pos + length l1) with (pos + S (length l1)) by lia. }
  split; [by exists st; split; [|apply fits_refl]|]. rewrite app_nil_r. cbn [flows]. split_and!.
  - apply Hc.
  - apply Hc.
  - eapply conditional_ok; [exact Hc | |].
    + exists t1. split; [|done]. rewrite app_nil_r. by destruct ts1.
    + replace (1 + Z.of_nat (length l1))%Z with (Z.of_nat (1 + length l1)) by lia. apply (rjump_to _ _ _ t2); [|apply Hf2].
      destruct ts2 as [|t ts2]; [done|]. cbn in Ht2. simplify_eq. apply (list_lookup_middle (st :: ts1) ts2 t2). cbn. lia.
  - apply Happ.
    + pose proof (flows_inside n l1 ts1 st2 [] [st] ts2 H1) as H. apply H; [done | cbn; lia].
    + pose proof (flows_inside n l2 ts2 st2 [] (st :: ts1) [] H2) as H. rewrite app_nil_r in H. cbn in H. rewrite L1 in H.
      apply H; [done | lia].
Qed.

(** Two branches that meet again. *)
Lemma piece_join n j k st st2 stk l1 l2 ts1 ts2 b2 out :
  conditional j st st2 -> piece n l1 ts1 st2 [stk] -> piece n l2 ts2 st2 [b2] ->
  i_opcode k = OP_JUMP -> place_ok k -> i_expcount k = Z.of_nat (length stk) -> fits true out stk -> fits true out b2 ->
  piece n (set_arg0 (2 + Z.of_nat (length l1)) j :: l1 ++ set_arg0 (1 + Z.of_nat (length l2)) k :: l2)
    (st :: ts1 ++ stk :: ts2) st [out].
Proof.
  intros Hc H1 H2 Hk Hpk Hek Ho1 Ho2. pose proof (piece_length _ _ _ _ _ H1) as L1. pose proof (piece_length _ _ _ _ _ H2) as L2.
  destruct (pi_entry _ _ _ _ _ H1) as (t1 & Ht1 & Hf1). destruct (pi_entry _ _ _ _ _ H2) as (t2 & Ht2 & Hf2).
  assert (exists t, head (ts2 ++ [out]) = Some t /\ fits true t st2) as (t2' & Ht2' & Hf2').
  { destruct ts2 as [|t ts2]; cbn in *; simplify_eq; [|eauto]. exists out. split; [done | by eapply fits_trans]. }
  split; [by exists st; split; [|apply fits_refl]|].
  assert (flows true n (rjump ((st :: ts1) ++ (stk :: ts2) ++ [out])) [stk] 1 l1 ts1) as F1.
  { pose proof (flows_inside n l1 ts1 st2 [stk] [st] ((stk :: ts2) ++ [out]) H1) as H. apply H; [|cbn; lia].
    intros b [= ->]. exists b. split; [done | apply fits_refl]. }
  assert (flows true n (rjump ((st :: ts1) ++ (stk :: ts2) ++ [out])) [out] (2 + length l1) l2 ts2) as F2.
  { pose proof (flows_inside n l2 ts2 st2 [b2] (st :: ts1 ++ [stk]) [out] H2) as H. cbn in H |- *.
    rewrite <- app_assoc, length_app, L1 in H. cbn in H.
    assert (flows true n (rjump (st :: ts1 ++ stk :: ts2 ++ [out])) [b2] (2 + length l1) l2 ts2) as H'.
    { replace (2 + length l1) with (S (length l1 + 1)) by lia. apply H; [|lia]. intros b [= ->]. by exists out. }
    by apply (flows_fin _ _ _ b2). }
  assert (length ts1 = length l1) as L1' by done.
  cbn [flows]. split_and!; [apply Hc | apply Hc | | ].
  - eapply conditional_ok; [exact Hc | |].
    + rewrite <- app_assoc. cbn. exists t1. split; [|done]. by destruct ts1.
    + replace (2 + Z.of_nat (length l1))%Z with (Z.of_nat (2 + length l1)) by lia. apply (rjump_to _ _ _ t2'); [|apply Hf2'].
      rewrite <- app_comm_cons, <- app_assoc, <- app_comm_cons. destruct (ts2 ++ [out]) as [|t tys]; [done|].
      cbn in Ht2'. simplify_eq. rewrite (app_comm_cons ts1), (cons_middle stk), app_assoc.
      apply list_lookup_middle. rewrite length_app. cbn. lia.
  - cbn [app]. rewrite <- app_assoc. apply (flows_app _ _ _ stk); [exact F1 | | exists stk; split; [done | apply fits_refl]].
    cbn [flows]. split_and!; [done | done | | exact F2].
    unfold okop. cbn [i_opcode set_arg0 i_arg0]. rewrite Hk.
    replace (1 + Z.of_nat (length l2))%Z with (Z.of_nat (1 + length l2)) by lia. apply (rjump_to _ _ _ out); [|apply Ho1].
    rewrite app_comm_cons, app_assoc. apply (list_lookup_middle ((st :: ts1) ++ stk :: ts2) []). rewrite length_app. cbn. lia.
Qed.
End flow.
