(* ===== verification/MacrosTyped.v ===== *)
(** * The compiler's macros emit typed code

    The status the compiler keeps of a slot tells what may be relied on: a slot
    it takes to be evaluated is. Every macro of bytecode.c, when it returns,
    has appended a typed piece of code that leads from the stack before it to
    the one after it. *)

From S2P Require Import Prelude CString Builtins Util Source Resolve Double Pointer Bytecode Peephole StackDiscipline Schemes Compile Arith Typing Flow.

#[local] Set Warnings "-clear-no-such-hyp".

(** ** Statuses and types *)

Definition agree (s : list Z) (st : list slot_ty) : Prop :=
  Forall2 (fun x ty => (STATUS_EVALUATED <= x)%Z -> ty = SVal) s st.

Lemma agree_length s st : agree s st -> length s = length st.
Proof. apply Forall2_length. Qed.
Lemma agree_lookup s st i x : agree s st -> s !! i = Some x ->
  exists ty, st !! i = Some ty /\ ((STATUS_EVALUATED <= x)%Z -> ty = SVal).
Proof. intros H Hi. by eapply Forall2_lookup_l in H. Qed.
Lemma agree_app s1 s2 st1 st2 : agree s1 st1 -> agree s2 st2 -> agree (s1 ++ s2) (st1 ++ st2).
Proof. apply Forall2_app. Qed.
Lemma agree_take k s st : agree s st -> agree (take k s) (take k st).
Proof. apply Forall2_take. Qed.
Lemma agree_drop k s st : agree s st -> agree (drop k s) (drop k st).
Proof. apply Forall2_drop. Qed.
Lemma agree_insert i x ty s st : ((STATUS_EVALUATED <= x)%Z -> ty = SVal) -> agree s st -> agree (<[i := x]> s) (<[i := ty]> st).
Proof. intros H Ha. by apply Forall2_insert. Qed.
Lemma agree_one x ty : ((STATUS_EVALUATED <= x)%Z -> ty = SVal) -> agree [x] [ty].
Proof. intros H. by constructor; [|constructor]. Qed.
Lemma agree_low s : Forall (fun x => (x < STATUS_EVALUATED)%Z) s -> forall st, length st = length s -> agree s st.
Proof.
  induction 1 as [|x s Hx _ IH]; intros [|ty st] Hl; try done; constructor; [lia|]. apply IH. by injection Hl.
Qed.
Lemma agree_raise s st i x y : agree s st -> s !! i = Some x -> (y < STATUS_EVALUATED)%Z -> agree (<[i := y]> s) st.
Proof.
  intros Ha Hi Hy. destruct (agree_lookup _ _ _ _ Ha Hi) as (ty & Ht & _).
  rewrite <- (list_insert_id st i ty) by done. apply agree_insert; [lia | done].
Qed.

(** What the successful status operations say. *)
Lemma statusat_inv si i x : statusat si i = Done x -> (0 <= i < si_count si)%Z /\ si_status si !! Z.to_nat i = Some x.
Proof. unfold statusat. intros H. outcome_inv. apply Z.ltb_lt in Hm. apply Z.leb_le in Hm0. split; [lia | done]. Qed.
Lemma setstatusat_inv si i x si' : setstatusat si i x = Done si' ->
  (0 <= i < si_count si)%Z /\ si' = Stackinfo (<[Z.to_nat i := x]> (si_status si)) (si_invalid si).
Proof. unfold setstatusat. intros H. outcome_inv. apply Z.ltb_lt in Hm. apply Z.leb_le in Hm0. split; [lia | done]. Qed.
Lemma popstatus_inv si n si' : popstatus si n = Done si' ->
  (0 <= n <= si_count si)%Z /\ si' = Stackinfo (take (length (si_status si) - Z.to_nat n) (si_status si)) (si_invalid si).
Proof.
  unfold popstatus. intros H. outcome_inv. apply Z.leb_le in Hm, Hm0. unfold si_count in *. split; [lia|].
  subst. do 2 f_equal. lia.
Qed.
Ltac status_inv :=
  repeat match goal with
  | H : statusat _ _ = Done _ |- _ => apply statusat_inv in H as [? H]
  | H : setstatusat _ _ _ = Done _ |- _ => apply setstatusat_inv in H as [? H]
  | H : popstatus _ _ = Done _ |- _ => apply popstatus_inv in H as [? H]
  end.

(** ** Going from one stack to another *)

Section goes.
Context (su : surroundings).

Definition strings (comp : compilation) : Z := Z.of_nat (length (stringmap comp)).

Definition ready (comp : compilation) (st : list slot_ty) : Prop :=
  exists s inv, comp_si comp = Some (Stackinfo s inv) /\ agree s st.

Definition sl_ok (sl : sourceloc) : Prop := (sl_fileno sl < su_files su)%Z.

(** [comp'] is [comp] with code that leads from [st] to [st']. *)
Record goesto (comp : compilation) (st : list slot_ty) (comp' : compilation) (st' : list slot_ty) : Prop := {
  gt_ready : ready comp' st';
  gt_strings : exists l, stringmap comp' = stringmap comp ++ l;
  gt_code : exists l ts, instructions comp' = instructions comp ++ l /\ piece su (strings comp') l ts st [st']
}.

(** [comp'] is [comp] with code that does not come back. *)
Record ends (comp : compilation) (st : list slot_ty) (comp' : compilation) : Prop := {
  en_strings : exists l, stringmap comp' = stringmap comp ++ l;
  en_code : exists l ts, instructions comp' = instructions comp ++ l /\ piece su (strings comp') l ts st []
}.

Lemma strings_le comp comp' l : stringmap comp' = stringmap comp ++ l -> (strings comp <= strings comp')%Z.
Proof. unfold strings. intros ->. rewrite length_app. lia. Qed.

Lemma goesto_refl comp st : ready comp st -> goesto comp st comp st.
Proof.
  intros H. split; [done | by exists []; rewrite app_nil_r|]. exists [], []. rewrite app_nil_r. split; [done | apply piece_nil].
Qed.

Lemma goesto_trans c0 c1 c2 st0 st1 st2 : goesto c0 st0 c1 st1 -> goesto c1 st1 c2 st2 -> goesto c0 st0 c2 st2.
Proof.
  intros [_ (s1 & E1) (l1 & ts1 & F1 & P1)] [R2 (s2 & E2) (l2 & ts2 & F2 & P2)]. split; [done | |].
  - exists (s1 ++ s2). by rewrite E2, E1, app_assoc.
  - exists (l1 ++ l2), (ts1 ++ ts2). rewrite F2, F1, app_assoc. split; [done|]. eapply piece_app; [|exact P2].
    eapply piece_weaken; [|exact P1]. by eapply strings_le.
Qed.

Lemma goesto_ends c0 c1 c2 st0 st1 : goesto c0 st0 c1 st1 -> ends c1 st1 c2 -> ends c0 st0 c2.
Proof.
  intros [_ (s1 & E1) (l1 & ts1 & F1 & P1)] [(s2 & E2) (l2 & ts2 & F2 & P2)]. split.
  - exists (s1 ++ s2). by rewrite E2, E1, app_assoc.
  - exists (l1 ++ l2), (ts1 ++ ts2). rewrite F2, F1, app_assoc. split; [done|]. eapply piece_app; [|exact P2].
    eapply piece_weaken; [|exact P1]. by eapply strings_le.
Qed.

(** The same code, with a stack of which less is known. *)
Lemma goesto_same comp comp' st st' : instructions comp' = instructions comp -> stringmap comp' = stringmap comp ->
  fits true st' st -> ready comp' st' -> goesto comp st comp' st'.
Proof.
  intros E1 E2 Hf Hr. split; [done | by exists []; rewrite app_nil_r|]. exists [], []. rewrite app_nil_r. split; [done|].
  eapply piece_enter; [exact Hf | apply piece_nil].
Qed.

(** ** Single instructions *)

Lemma add_inv comp sl op a0 a1 comp' s inv : comp_si comp = Some (Stackinfo s inv) -> add_instruction comp sl op a0 a1 = Done comp' ->
  exists si', si_step (Stackinfo s inv) op a0 a1 = Done si' /\ comp_si comp' = Some si' /\ stringmap comp' = stringmap comp /\
    instructions comp' = instructions comp ++ [Instruction op a0 a1 (sl_fileno sl) (sl_lineno sl) (Z.of_nat (length s))].
Proof. intros Hsi. unfold add_instruction. rewrite Hsi. intros H. outcome_inv. exists v0. by subst comp'. Qed.

(** The instruction as it stands, its operands and the depth it is run at. *)
Abbreviation instr op a0 a1 sl st := (Instruction op a0 a1 (sl_fileno sl) (sl_lineno sl) (Z.of_nat (length st))).

Lemma add_goes comp sl op a0 a1 comp' st :
  ready comp st -> sl_ok sl -> add_instruction comp sl op a0 a1 = Done comp' -> is_jump op = false ->
  exists s inv si', comp_si comp = Some (Stackinfo s inv) /\ agree s st /\ si_step (Stackinfo s inv) op a0 a1 = Done si' /\
    forall st', agree (si_status si') st' ->
      okop su (strings comp) (fun _ _ => False) (fun t => t = st') None st (instr op a0 a1 sl st) -> goesto comp st comp' st'.
Proof.
  intros (s & inv & Hsi & Ha) Hsl Hadd Hj. destruct (add_inv _ _ _ _ _ _ _ _ Hsi Hadd) as (si' & E1 & E2 & E3 & E4).
  exists s, inv, si'. split_and!; [done | done | done|]. intros st' Ha' Ho. rewrite (agree_length _ _ Ha) in E4. split.
  - exists (si_status si'), (si_invalid si'). rewrite E2. by destruct si'.
  - exists []. by rewrite app_nil_r.
  - eexists _, [st]. split; [exact E4|]. apply piece_single; [done | done | done |].
    unfold strings. rewrite E3. eapply okop_mono; [| | | | exact Ho]; try done.
    intros t ->. exists st'. split; [done | apply fits_refl].
Qed.

Lemma add_ends comp sl op a0 a1 comp' st :
  ready comp st -> sl_ok sl -> add_instruction comp sl op a0 a1 = Done comp' -> is_jump op = false ->
  okop su (strings comp) (fun _ _ => False) (fun _ => False) None st (instr op a0 a1 sl st) ->
  ends comp st comp'.
Proof.
  intros (s & inv & Hsi & Ha) Hsl Hadd Hj Ho. destruct (add_inv _ _ _ _ _ _ _ _ Hsi Hadd) as (si' & E1 & E2 & E3 & E4).
  rewrite (agree_length _ _ Ha) in E4. split.
  - exists []. by rewrite app_nil_r.
  - eexists _, [st]. split; [exact E4|]. apply piece_single; [done | done | done |].
    unfold strings. rewrite E3. eapply okop_mono; [| | | | exact Ho]; done.
Qed.

(** Slots and their positions, in the form the instructions use them. *)
Lemma slot_at (st : list slot_ty) (p : Z) (ty : slot_ty) : (0 <= p)%Z -> st !! Z.to_nat p = Some ty -> zlookup st p = Some ty.
Proof. intros Hp H. by apply zlookup_Some. Qed.
Lemma top_pos_inv comp s inv a p : comp_si comp = Some (Stackinfo s inv) -> top_pos comp a = Done p ->
  p = (Z.of_nat (length s) - 1 - a)%Z.
Proof. unfold top_pos, the_si. intros ->. cbn. unfold si_count. cbn. by intros [= <-]. Qed.
Lemma the_si_inv comp s inv si : comp_si comp = Some (Stackinfo s inv) -> the_si comp = Done si -> si = Stackinfo s inv.
Proof. unfold the_si. intros ->. by intros [= <-]. Qed.

(** The position [a] slots below the top. *)
Definition below_top (st : list slot_ty) (a : Z) : nat := Z.to_nat (Z.of_nat (length st) - 1 - a).

Lemma SPARK_goes sl a comp st comp' : ready comp st -> sl_ok sl -> SPARK sl a comp = Done comp' -> goesto comp st comp' st.
Proof.
  intros Hr Hsl H. unfold SPARK in H. outcome_inv. status_inv.
  destruct (v1 <? STATUS_SPARKED)%Z; [|injection H as <-; by apply goesto_refl].
  destruct (add_goes _ _ _ _ _ _ _ Hr Hsl H eq_refl) as (s & inv & si' & Hsi & Ha & Hst & Hgo).
  apply Hgo.
  - cbn [si_step] in Hst. outcome_inv. status_inv. case_match; [|by injection Hst as <-].
    status_inv. subst si'. cbn in *. by eapply agree_raise.
  - pose proof (the_si_inv _ _ _ _ Hsi Hm0) as ->. cbn in Hm1. destruct (agree_lookup _ _ _ _ Ha Hm1) as (ty & Ht & _).
    split; [|done]. exists ty. apply slot_at; cbn; [lia | done].
Qed.

Lemma EVAL_goes sl a comp st comp' : ready comp st -> sl_ok sl -> EVAL sl a comp = Done comp' ->
  (0 <= Z.of_nat (length st) - 1 - a < Z.of_nat (length st))%Z /\ goesto comp st comp' (<[below_top st a := SVal]> st).
Proof.
  intros Hr Hsl H. unfold EVAL in H. outcome_inv. destruct Hr as (s & inv & Hsi & Ha).
  pose proof (top_pos_inv _ _ _ _ _ Hsi Hm) as ->. pose proof (the_si_inv _ _ _ _ Hsi Hm0) as ->. status_inv.
  pose proof (agree_length _ _ Ha) as Hl. cbn in Hm1. unfold si_count in H0; cbn in H0. rewrite Hl in *. split; [done|].
  destruct (agree_lookup _ _ _ _ Ha Hm1) as (ty & Ht & Hty). fold (below_top st a) in *.
  destruct (Z.ltb_spec v1 STATUS_EVALUATED).
  - destruct (add_goes comp sl OP_EVAL _ 0 comp' st ltac:(by exists s, inv) Hsl H eq_refl) as (s2 & inv2 & si' & Hsi2 & Ha2 & Hst & Hgo).
    rewrite Hsi in Hsi2. injection Hsi2 as <- <-. apply Hgo.
    + cbn [si_step] in Hst. apply setstatusat_inv in Hst as [_ ->]. cbn. by apply agree_insert.
    + split; [|done]. exists ty. apply slot_at; cbn; [lia | done].
  - injection H as <-. rewrite list_insert_id by (rewrite Ht; f_equal; auto). apply goesto_refl. by exists s, inv.
Qed.

Lemma PUSH_at sl a comp st comp' : ready comp st -> sl_ok sl -> PUSH sl a comp = Done comp' ->
  exists ty, st !! below_top st a = Some ty /\ goesto comp st comp' (st ++ [copy_ty ty]).
Proof.
  intros Hr Hsl H. unfold PUSH in H. apply bind_Done_inv in H as (pos & Hp & H).
  destruct (add_goes _ _ _ _ _ _ _ Hr Hsl H eq_refl) as (s & inv & si' & Hsi & Ha & Hst & Hgo).
  pose proof (top_pos_inv _ _ _ _ _ Hsi Hp) as ->. rewrite (agree_length _ _ Ha) in *.
  cbn [si_step] in Hst. outcome_inv. status_inv. cbn in Hm0. subst si'.
  destruct (agree_lookup _ _ _ _ Ha Hm0) as (ty & Ht & Hty). exists ty. split; [exact Ht|]. apply Hgo.
  - cbn. apply agree_app; [done|]. apply agree_one. intros Hx. by rewrite (Hty Hx).
  - exists ty. split; [|done]. apply slot_at; cbn; [lia | done].
Qed.

Lemma PUSH_goes sl a comp st comp' : ready comp st -> sl_ok sl -> PUSH sl a comp = Done comp' ->
  exists ty, goesto comp st comp' (st ++ [ty]).
Proof. intros Hr Hsl H. destruct (PUSH_at _ _ _ _ _ Hr Hsl H) as (ty & _ & Hgo). by eexists. Qed.

Lemma push_value_goes sl op a0 a1 comp st comp' : ready comp st -> sl_ok sl ->
  op = OP_PUSHNIL \/ op = OP_PUSHNUMBER /\ is_pntr (Pntr (a0 mod 2^32) (a1 mod 2^32)) = false \/ op = OP_PUSHSTRING /\ (0 <= a0 < strings comp)%Z ->
  add_instruction comp sl op a0 a1 = Done comp' -> goesto comp st comp' (st ++ [SVal]).
Proof.
  intros Hr Hsl Hop H.
  destruct (add_goes comp sl op a0 a1 comp' st Hr Hsl H ltac:(by destruct Hop as [-> | [[-> _] | [-> _]]]))
    as (s & inv & si' & Hsi & Ha & Hst & Hgo).
  assert (si' = pushstatus (Stackinfo s inv) STATUS_EVALUATED) as ->.
  { destruct Hop as [-> | [[-> _] | [-> _]]]; cbn in Hst; by injection Hst. }
  apply Hgo; [cbn; by apply agree_app, agree_one|]. by destruct Hop as [-> | [[-> ?] | [-> ?]]].
Qed.

(** A slot in place of the [n] on top. *)
Lemma agree_replace s st n x ty : agree s st -> ((STATUS_EVALUATED <= x)%Z -> ty = SVal) -> (0 <= n <= Z.of_nat (length s))%Z ->
  agree (take (length s - Z.to_nat n) s ++ [x]) (replace_top n ty st).
Proof.
  intros Ha Hx Hn. unfold replace_top, ztake. rewrite <- (agree_length _ _ Ha).
  replace (Z.to_nat (Z.of_nat (length s) - n)) with (length s - Z.to_nat n) by lia.
  apply agree_app; [by apply agree_take | by apply agree_one].
Qed.

Lemma MKCAP_goes sl fno n k comp st comp' : ready comp st -> sl_ok sl -> su_callee su fno k -> (n < k)%Z ->
  MKCAP sl fno n comp = Done comp' -> (0 <= n <= Z.of_nat (length st))%Z /\ goesto comp st comp' (replace_top n SVal st).
Proof.
  intros Hr Hsl Hc Hn H. unfold MKCAP in H.
  destruct (add_goes _ _ _ _ _ _ _ Hr Hsl H eq_refl) as (s & inv & si' & Hsi & Ha & Hst & Hgo).
  cbn [si_step] in Hst. outcome_inv. status_inv. subst. unfold si_count in *. cbn in *.
  pose proof (agree_length _ _ Ha) as Hl. split; [lia|]. apply Hgo; cbn.
  - apply agree_replace; [done | done | lia].
  - exists k. split_and!; try done; lia.
Qed.

Lemma mkframe_goes sl fno n comp st comp' : ready comp st -> sl_ok sl -> su_callee su fno n ->
  add_instruction comp sl OP_MKFRAME fno n = Done comp' ->
  (0 <= n <= Z.of_nat (length st))%Z /\ goesto comp st comp' (replace_top n SAny st).
Proof.
  intros Hr Hsl Hc H.
  destruct (add_goes _ _ _ _ _ _ _ Hr Hsl H eq_refl) as (s & inv & si' & Hsi & Ha & Hst & Hgo).
  cbn [si_step] in Hst. outcome_inv. status_inv. subst. unfold si_count in *. cbn in *.
  pose proof (agree_length _ _ Ha) as Hl. split; [lia|]. apply Hgo; cbn.
  - apply agree_replace; [done | status_lia | lia].
  - split_and!; try done; lia.
Qed.

Lemma eval_args_goes sl vs : forall comp st comp', ready comp st -> sl_ok sl -> eval_args sl vs comp = Done comp' ->
  exists st', goesto comp st comp' st' /\ length st' = length st /\
    (forall j, (forall v, v ∈ vs -> j <> below_top st (Z.of_nat v)) -> st' !! j = st !! j) /\
    (forall v, v ∈ vs -> st' !! below_top st (Z.of_nat v) = Some SVal).
Proof.
  induction vs as [|v vs IH]; intros comp st comp' Hr Hsl H; cbn [eval_args] in H.
  { injection H as <-. exists st. split_and!; [by apply goesto_refl | done | done|]. intros v Hv. by apply not_elem_of_nil in Hv. }
  outcome_inv. destruct (EVAL_goes _ _ _ _ _ Hr Hsl Hm) as [Hp Hgo].
  destruct (IH _ _ _ (gt_ready _ _ _ _ Hgo) Hsl H) as (st' & Hgo' & Hl & Hother & Hval).
  rewrite length_insert in Hl.
  assert (forall a, below_top (<[below_top st (Z.of_nat v) := SVal]> st) a = below_top st a) as Hb.
  { intros a. unfold below_top. by rewrite length_insert. }
  setoid_rewrite Hb in Hother. setoid_rewrite Hb in Hval.
  exists st'. split_and!; [by eapply goesto_trans | done | |].
  - intros j Hj. rewrite Hother; [|intros w Hw; apply Hj; by right].
    apply list_lookup_insert_ne. intros E. apply (Hj v); [by left | done].
  - intros w Hw. destruct (decide (w ∈ vs)) as [Hin|Hn]; [by apply Hval|].
    apply elem_of_cons in Hw as [->|]; [|done].
    destruct (decide (below_top st (Z.of_nat v) ∈ map (fun u => below_top st (Z.of_nat u)) vs)) as [(u & -> & Hu)%elem_of_map|Hne].
    + by apply Hval.
    + rewrite Hother; [|intros u Hu E; apply Hne, elem_of_map; by exists u]. apply list_lookup_insert_eq. unfold below_top. lia.
Qed.

(** The slot on top is set after [n - 1] have been removed. *)
Lemma agree_set_top s st n x ty : agree s st -> ((STATUS_EVALUATED <= x)%Z -> ty = SVal) -> (1 <= n <= Z.of_nat (length s))%Z ->
  let s1 := take (length s - Z.to_nat (n - 1)) s in
  agree (<[Z.to_nat (Z.of_nat (length s1) - 1) := x]> s1) (replace_top n ty st).
Proof.
  intros Ha Hx Hn s1. assert (length s1 = S (length s - Z.to_nat n)) as Hl by (unfold s1; rewrite length_take; lia).
  destruct (lookup_lt_is_Some_2 s (length s - Z.to_nat n)) as [y Hy]; [lia|].
  assert (s1 = take (length s - Z.to_nat n) s ++ [y]) as E.
  { unfold s1. replace (length s - Z.to_nat (n - 1)) with (S (length s - Z.to_nat n)) by lia. by apply take_S_r. }
  rewrite Hl, E. replace (Z.to_nat (Z.of_nat (S (length s - Z.to_nat n)) - 1)) with (length s - Z.to_nat n + 0) by lia.
  rewrite insert_app_r_alt; rewrite length_take; [|lia].
  replace (length s - Z.to_nat n + 0 - (length s - Z.to_nat n) `min` length s) with 0 by lia.
  apply agree_replace; [done | done | lia].
Qed.

(** Slots that are at most raised below a replaced top. *)
Lemma replace_top_same st st' n ty : length st' = length st -> (0 <= n <= Z.of_nat (length st))%Z ->
  (forall j, j < length st - Z.to_nat n -> st' !! j = st !! j) -> replace_top n ty st' = replace_top n ty st.
Proof.
  intros Hl Hn H. unfold replace_top, ztake. f_equal. rewrite Hl. apply list_eq. intros j.
  destruct (decide (j < Z.to_nat (Z.of_nat (length st) - n))) as [Hj|Hj].
  - rewrite !lookup_take_lt by done. apply H. lia.
  - rewrite !lookup_take_ge by lia. done.
Qed.

Lemma BIF_goes sl bif b comp st comp' : ready comp st -> sl_ok sl -> su_allowed su bif = true -> builtin_info !! bif = Some b ->
  BIF sl bif comp = Done comp' ->
  (1 <= Z.of_nat (bi_nargs b) <= Z.of_nat (length st))%Z /\
  goesto comp st comp' (replace_top (Z.of_nat (bi_nargs b)) (if bi_reswhnf b then SVal else SAny) st).
Proof.
  intros Hr Hsl Hal Hb H. unfold BIF in H. rewrite Hb in H. cbn [deref mbind outcome_bind] in H. outcome_inv.
  destruct (eval_args_goes _ _ _ _ _ Hr Hsl Hm) as (st1 & Hgo1 & Hl & Hother & Hval).
  destruct (add_goes _ _ _ _ _ _ _ (gt_ready _ _ _ _ Hgo1) Hsl H eq_refl) as (s & inv & si' & Hsi & Ha & Hst & Hgo).
  pose proof (builtin_nargs_pos _ _ Hb) as Hpos. pose proof (builtin_nstrict_le _ _ Hb) as Hstr.
  cbn [si_step] in Hst. rewrite Nat2Z.id, Hb in Hst. cbn [deref mbind outcome_bind] in Hst. outcome_inv. status_inv.
  subst. unfold si_count in *. cbn in *. pose proof (agree_length _ _ Ha) as Hls. rewrite length_take in H0.
  split; [lia|]. eapply goesto_trans; [exact Hgo1|].
  rewrite <- (replace_top_same st st1); [|done | lia | intros j Hj; apply Hother; intros w Hw%elem_of_seq; unfold below_top; lia].
  apply Hgo.
  - apply agree_set_top; [done | destruct (bi_reswhnf b); [done | status_lia] | lia].
  - exists b. rewrite zlookup_of_nat, Nat2Z.id. split_and!; [done | done | lia | | done].
    intros k Hk. unfold slot_is. specialize (Hval k ltac:(apply elem_of_seq; lia)).
    replace (Z.of_nat (length st1) - 1 - Z.of_nat k)%Z with (Z.of_nat (below_top st (Z.of_nat k))) by (unfold below_top; lia).
    by rewrite zlookup_of_nat, Hval.
Qed.

Lemma CONSN_goes sl n comp st comp' : ready comp st -> sl_ok sl -> (2 <= n)%Z ->
  add_instruction comp sl OP_CONSN n 0 = Done comp' ->
  (n <= Z.of_nat (length st))%Z /\ goesto comp st comp' (replace_top n SVal st).
Proof.
  intros Hr Hsl Hn H. destruct (add_goes _ _ _ _ _ _ _ Hr Hsl H eq_refl) as (s & inv & si' & Hsi & Ha & Hst & Hgo).
  cbn [si_step] in Hst. outcome_inv. status_inv. subst. unfold si_count in *. cbn in *.
  pose proof (agree_length _ _ Ha) as Hl. rewrite length_take in H0. split; [lia|]. apply Hgo.
  - apply agree_set_top; [done | done | lia].
  - split; [cbn; lia | done].
Qed.

Lemma ITEMN_goes sl n a1 comp st comp' : ready comp st -> sl_ok sl -> (0 <= n <= INT_MAX)%Z -> su_item su ->
  add_instruction comp sl OP_ITEMN n a1 = Done comp' ->
  (1 <= Z.of_nat (length st))%Z /\ goesto comp st comp' (replace_top 1 SAny st).
Proof.
  intros Hr Hsl Hn Hi H. destruct (add_goes _ _ _ _ _ _ _ Hr Hsl H eq_refl) as (s & inv & si' & Hsi & Ha & Hst & Hgo).
  cbn [si_step] in Hst. status_inv. subst. unfold si_count in *. cbn in *.
  pose proof (agree_length _ _ Ha) as Hl. split; [lia|]. apply Hgo.
  - pose proof (agree_set_top s st 1 STATUS_UNKNOWN SAny Ha ltac:(status_lia) ltac:(lia)) as H1. cbv zeta in H1.
    rewrite Nat.sub_0_r, take_ge in H1 by done. exact H1.
  - split_and!; try done; lia.
Qed.

Lemma SQUEEZE_goes sl a0 a1 comp st comp' : ready comp st -> sl_ok sl -> (0 <= a0)%Z -> (0 <= a1)%Z ->
  add_instruction comp sl OP_SQUEEZE a0 a1 = Done comp' ->
  (a0 + a1 <= Z.of_nat (length st))%Z /\
  goesto comp st comp' (ztake (Z.of_nat (length st) - a0 - a1) st ++ drop (Z.to_nat (Z.of_nat (length st) - a0)) st).
Proof.
  intros Hr Hsl H0 H1 H. destruct (add_goes _ _ _ _ _ _ _ Hr Hsl H eq_refl) as (s & inv & si' & Hsi & Ha & Hst & Hgo).
  cbn [si_step] in Hst. outcome_inv. apply Z.leb_le in Hm. subst. unfold si_count in *. cbn in *.
  pose proof (agree_length _ _ Ha) as Hl. split; [lia|]. apply Hgo.
  - rewrite <- Hl. apply agree_app; [by apply agree_take | by apply agree_drop].
  - split_and!; try done; lia.
Qed.

(** The value on top goes where the [n] slots below it were. *)
Lemma SQUEEZE1_goes sl n comp st mid ty comp' : ready comp (st ++ mid ++ [ty]) -> sl_ok sl -> n = Z.of_nat (length mid) ->
  add_instruction comp sl OP_SQUEEZE 1 n = Done comp' -> goesto comp (st ++ mid ++ [ty]) comp' (st ++ [ty]).
Proof.
  intros Hr Hsl -> H. destruct (SQUEEZE_goes sl 1 (Z.of_nat (length mid)) comp _ comp' Hr Hsl ltac:(lia) ltac:(lia) H) as [_ Hgo].
  rewrite !length_app in Hgo. cbn [length] in Hgo. unfold ztake in Hgo.
  replace (Z.to_nat (Z.of_nat (length st + (length mid + 1)) - 1 - Z.of_nat (length mid))) with (length st) in Hgo by lia.
  rewrite take_app_length in Hgo.
  replace (Z.to_nat (Z.of_nat (length st + (length mid + 1)) - 1)) with (length (st ++ mid) + 0) in Hgo by (rewrite length_app; lia).
  rewrite app_assoc, drop_app_add in Hgo by done. by rewrite <- app_assoc in Hgo.
Qed.

Lemma UPDATE_goes sl a comp st ty comp' : ready comp (st ++ [ty]) -> sl_ok sl ->
  (Z.of_nat (length st) - a < Z.of_nat (length st))%Z -> zlookup st (Z.of_nat (length st) - a) = Some SHole ->
  UPDATE sl a comp = Done comp' ->
  goesto comp (st ++ [ty]) comp' (<[Z.to_nat (Z.of_nat (length st) - a) := copy_ty ty]> st).
Proof.
  intros Hr Hsl Hp Hh H. unfold UPDATE in H. outcome_inv.
  destruct (add_goes _ _ _ _ _ _ _ Hr Hsl H eq_refl) as (s & inv & si' & Hsi & Ha & Hst & Hgo).
  pose proof (top_pos_inv _ _ _ _ _ Hsi Hm) as ->. pose proof (agree_length _ _ Ha) as Hl. rewrite length_app in Hl. cbn in Hl.
  replace (Z.of_nat (length s) - 1 - a)%Z with (Z.of_nat (length st) - a)%Z in * by lia.
  set (p := (Z.of_nat (length st) - a)%Z) in *. pose proof Hh as [Hp0 Hh']%zlookup_Some.
  assert (st = drop_top 1 (st ++ [ty])) as Edrop.
  { unfold drop_top. rewrite length_app. cbn. replace (length st + 1 - 1) with (length st) by lia. by rewrite take_app_length. }
  assert (zlookup (st ++ [ty]) (Z.of_nat (length (st ++ [ty])) - 1) = Some ty) as Htop.
  { rewrite length_app. cbn. replace (Z.of_nat (length st + 1) - 1)%Z with (Z.of_nat (length st)) by lia.
    rewrite zlookup_of_nat, lookup_app_r by lia. by rewrite Nat.sub_diag. }
  assert (drop_top 1 (<[Z.to_nat p := copy_ty ty]> (st ++ [ty])) = <[Z.to_nat p := copy_ty ty]> st) as Einsert.
  { rewrite insert_app_l by lia. unfold drop_top. rewrite length_app, length_insert. cbn.
    replace (length st + 1 - 1) with (length (<[Z.to_nat p := copy_ty ty]> st)) by (rewrite length_insert; lia). apply take_app_length. }
  apply Hgo.
  - cbn [si_step] in Hst. outcome_inv. status_inv. subst. unfold si_count in *. cbn in *.
    rewrite <- Einsert. unfold drop_top. rewrite !length_insert, <- (agree_length _ _ Ha).
    apply agree_take, agree_insert; [|done].
    destruct (agree_lookup _ _ _ _ Ha Hm1) as (ty' & Ht & Hty). intros Hx. specialize (Hty Hx).
    apply zlookup_Some in Htop as [_ Htop]. rewrite length_app in Htop. cbn in Htop.
    replace (Z.to_nat (Z.of_nat (length st + 1) - 1)) with (Z.to_nat (Z.of_nat (length s) - 1)) in Htop by lia.
    rewrite Ht in Htop. injection Htop as <-. by rewrite Hty.
  - exists ty. split_and!; [by apply zlookup_app_l | rewrite length_app; cbn; lia | done | by rewrite <- Einsert].
Qed.

Lemma ALLOC_goes sl n comp st comp' : ready comp st -> sl_ok sl ->
  add_instruction comp sl OP_ALLOC (Z.of_nat n) 0 = Done comp' -> goesto comp st comp' (st ++ replicate n SHole).
Proof.
  intros Hr Hsl H. destruct (add_goes _ _ _ _ _ _ _ Hr Hsl H eq_refl) as (s & inv & si' & Hsi & Ha & Hst & Hgo).
  cbn [si_step] in Hst. injection Hst as <-. apply Hgo.
  - cbn. rewrite Nat2Z.id. apply agree_app; [done|]. apply agree_low; [|by rewrite !length_replicate].
    apply Forall_replicate. status_lia.
  - split; [cbn; lia|]. cbn [i_arg0]. by rewrite Nat2Z.id.
Qed.

Lemma POP_goes sl comp st ty comp' : ready comp (st ++ [ty]) -> sl_ok sl ->
  add_instruction comp sl OP_POP 1 0 = Done comp' -> goesto comp (st ++ [ty]) comp' st.
Proof.
  intros Hr Hsl H. destruct (add_goes _ _ _ _ _ _ _ Hr Hsl H eq_refl) as (s & inv & si' & Hsi & Ha & Hst & Hgo).
  assert (drop_top 1 (st ++ [ty]) = st) as E.
  { unfold drop_top. rewrite length_app. cbn. replace (length st + 1 - 1) with (length st) by lia. by rewrite take_app_length. }
  cbn [si_step] in Hst. outcome_inv. status_inv. subst. cbn in *. apply Hgo.
  - rewrite <- E. unfold drop_top. rewrite <- (agree_length _ _ Ha). by apply agree_take.
  - split; [rewrite length_app; cbn; lia | done].
Qed.

(** ** Ends *)

Lemma top_val st : top_is_val (st ++ [SVal]) = true.
Proof.
  unfold top_is_val, slot_is. rewrite length_app. cbn. replace (Z.of_nat (length st + 1) - 1)%Z with (Z.of_nat (length st)) by lia.
  rewrite zlookup_of_nat, lookup_app_r by lia. by rewrite Nat.sub_diag.
Qed.

Lemma final_ends sl op a0 comp st comp' : ready comp st -> sl_ok sl -> op = OP_RETURN \/ op = OP_DO -> top_is_val st = true ->
  add_instruction comp sl op a0 0 = Done comp' -> ends comp st comp'.
Proof.
  intros Hr Hsl Hop Ht H. eapply add_ends; [done | done | exact H | by destruct Hop as [-> | ->]|].
  by destruct Hop as [-> | ->].
Qed.

(** ** Jumps *)

(** [comp0] is [comp] with the code of the condition and the jump [j], at
    [addr]; the branches start with the stack [st2]. *)
Definition forks (comp : compilation) (st : list slot_ty) (comp0 : compilation) (addr : Z) (st2 : list slot_ty) : Prop :=
  exists comp1 j st1, goesto comp st comp1 st1 /\ instructions comp0 = instructions comp1 ++ [j] /\
    stringmap comp0 = stringmap comp1 /\ addr = code_count comp1 /\ conditional su j st1 st2 /\ ready comp0 st2.

Lemma eval_top st ty : <[below_top (st ++ [ty]) 0 := SVal]> (st ++ [ty]) = st ++ [SVal].
Proof.
  unfold below_top. rewrite length_app. cbn. replace (Z.to_nat (Z.of_nat (length st + 1) - 1 - 0)) with (length st + 0) by lia.
  by rewrite insert_app_r.
Qed.

Lemma jump_forks sl op a1 comp st comp0 addr :
  ready comp (st ++ [SVal]) -> sl_ok sl -> op = OP_JFALSE \/ op = OP_JEQ ->
  (comp0 ← add_instruction comp sl op 0 a1; Done (comp0, code_count comp)) = Done (comp0, addr) ->
  forks comp (st ++ [SVal]) comp0 addr (if decide (op = OP_JFALSE) then st else st ++ [SVal]).
Proof.
  intros Hr Hsl Hop (c & Hm & [= -> <-])%bind_Done_inv. pose proof Hr as (s & inv & Hsi & Ha).
  destruct (add_inv _ _ _ _ _ _ _ _ Hsi Hm) as (si' & E1 & E2 & E3 & E4).
  assert (drop_top 1 (st ++ [SVal]) = st) as Ed.
  { unfold drop_top. rewrite length_app. cbn. replace (length st + 1 - 1) with (length st) by lia. by rewrite take_app_length. }
  eexists comp, _, (st ++ [SVal]). split_and!; [by apply goesto_refl | exact E4 | done | done | |].
  - split_and!; [|apply top_val | done | cbn; by rewrite (agree_length _ _ Ha)].
    destruct Hop as [-> | ->]; cbn; [left | right]; by rewrite ?Ed.
  - exists (si_status si'), (si_invalid si'). rewrite E2. split; [by destruct si'|].
    destruct Hop as [-> | ->]; cbn [si_step] in E1; status_inv; [subst si'|injection E1 as <-; done].
    rewrite decide_True by done. cbn [si_status].
    rewrite <- Ed. unfold drop_top. rewrite <- (agree_length _ _ Ha). cbn. by apply agree_take.
Qed.

Lemma forks_after comp comp1 st st1 comp0 addr st2 : goesto comp st comp1 st1 -> forks comp1 st1 comp0 addr st2 -> forks comp st comp0 addr st2.
Proof. intros H (c & j & s & H1 & H2). exists c, j, s. split; [by eapply goesto_trans | done]. Qed.

Lemma JFALSE_forks sl comp st ty comp0 addr : ready comp (st ++ [ty]) -> sl_ok sl ->
  JFALSE sl comp = Done (comp0, addr) -> forks comp (st ++ [ty]) comp0 addr st.
Proof.
  intros Hr Hsl H. unfold JFALSE in H. apply bind_Done_inv in H as (c & Hm & H).
  destruct (EVAL_goes _ _ _ _ _ Hr Hsl Hm) as [_ Hgo]. rewrite eval_top in Hgo. eapply forks_after; [exact Hgo|].
  eapply (jump_forks sl OP_JFALSE 0); [apply (gt_ready _ _ _ _ Hgo) | done | by left | exact H].
Qed.
Lemma JEQ_forks sl v comp st ty comp0 addr : ready comp (st ++ [ty]) -> sl_ok sl ->
  JEQ sl v comp = Done (comp0, addr) -> forks comp (st ++ [ty]) comp0 addr (st ++ [SVal]).
Proof.
  intros Hr Hsl H. unfold JEQ in H. apply bind_Done_inv in H as (c & Hm & H).
  destruct (EVAL_goes _ _ _ _ _ Hr Hsl Hm) as [_ Hgo]. rewrite eval_top in Hgo. eapply forks_after; [exact Hgo|].
  eapply (jump_forks sl OP_JEQ v); [apply (gt_ready _ _ _ _ Hgo) | done | by right | exact H].
Qed.

Lemma JUMP_inv sl comp st comp' addr : ready comp st -> sl_ok sl -> JUMP sl comp = Done (comp', addr) ->
  exists k, instructions comp' = instructions comp ++ [k] /\ stringmap comp' = stringmap comp /\ addr = code_count comp /\
    i_opcode k = OP_JUMP /\ place_ok su k /\ i_expcount k = Z.of_nat (length st).
Proof.
  intros (s & inv & Hsi & Ha) Hsl H. unfold JUMP in H. apply bind_Done_inv in H as (c & Hm & [= -> <-]).
  destruct (add_inv _ _ _ _ _ _ _ _ Hsi Hm) as (si' & E1 & E2 & E3 & E4).
  eexists. split_and!; [exact E4 | done | done | done | done|]. cbn. by rewrite (agree_length _ _ Ha).
Qed.

Lemma branch_ready comp comp' st : ready comp st -> branch comp = Done comp' ->
  ready comp' st /\ instructions comp' = instructions comp /\ stringmap comp' = stringmap comp.
Proof.
  intros (s & inv & Hsi & Ha) H. unfold branch in H. outcome_inv. subst comp'.
  pose proof (the_si_inv _ _ _ _ Hsi Hm) as ->. split_and!; [|done | done]. by exists s, false.
Qed.

Lemma string_prefix comp comp' l : stringmap comp' = stringmap comp ++ l -> forall n, (strings comp' <= n)%Z -> (strings comp <= n)%Z.
Proof. intros E n Hn. pose proof (strings_le _ _ _ E). lia. Qed.

(** The code of a branch and a jump over the other one; [label] and [end_] are
    set afterwards. *)
Lemma forks_join comp st comp0 label st2 b1 b2 b3 sl end_ stk d1 d2 stk2 out :
  forks comp st comp0 label st2 -> sl_ok sl ->
  branch comp0 = Done b1 -> goesto b1 st2 b2 stk -> JUMP sl b2 = Done (b3, end_) ->
  branch (LABEL label (unbranch comp0 b3)) = Done d1 -> goesto d1 st2 d2 stk2 ->
  fits true out stk -> fits true out stk2 ->
  ready (LABEL end_ (unbranch comp0 d2)) st2 /\
  forall comp', instructions comp' = instructions (LABEL end_ (unbranch comp0 d2)) -> stringmap comp' = stringmap d2 -> ready comp' out ->
    goesto comp st comp' out.
Proof.
  intros (c1 & j & st1 & Hgo & Ej & Es & -> & Hc & Hr0) Hsl Hb1 Hg1 Hju Hb2 Hg2 Ho1 Ho2.
  destruct (branch_ready _ _ _ Hr0 Hb1) as (_ & Ei1 & Es1).
  destruct Hg1 as [Hrb (sx1 & Ex1) (lb1 & tb1 & El1 & P1)].
  destruct (JUMP_inv _ _ _ _ _ Hrb Hsl Hju) as (k & Ek & Esk & -> & Hk).
  set (c3 := LABEL (code_count c1) (unbranch comp0 b3)) in *.
  assert (instructions c3 = instructions c1 ++ set_arg0 (2 + Z.of_nat (length lb1)) j :: lb1 ++ [k]) as E3.
  { destruct (LABEL_at (unbranch comp0 b3) (instructions c1) j (lb1 ++ [k])) as [E _].
    - cbn. rewrite Ek, El1, Ei1, Ej, <- !app_assoc. done.
    - unfold c3, code_count. rewrite E. do 3 f_equal. rewrite length_app. cbn. lia. }
  destruct (branch_ready c3 d1 st2 Hr0 Hb2) as (_ & Ei2 & Es2).
  destruct Hg2 as [Hrd (sx2 & Ex2) (lb2 & tb2 & El2 & P2)].
  split; [exact Hr0|]. intros comp' Ei Est Hr. eapply goesto_trans; [exact Hgo|].
  assert (instructions comp' = instructions c1 ++ set_arg0 (2 + Z.of_nat (length lb1)) j :: lb1 ++ set_arg0 (1 + Z.of_nat (length lb2)) k :: lb2) as E.
  { rewrite Ei. destruct (LABEL_at (unbranch comp0 d2) (instructions c1 ++ set_arg0 (2 + Z.of_nat (length lb1)) j :: lb1) k lb2) as [E' _].
    - cbn. rewrite El2, Ei2, E3, <- !app_assoc. cbn. by rewrite <- app_assoc.
    - unfold code_count. rewrite El1, Ei1, Ej. rewrite <- app_assoc.
      replace (length (instructions c1 ++ [j] ++ lb1)) with (length (instructions c1 ++ set_arg0 (2 + Z.of_nat (length lb1)) j :: lb1))
        by (rewrite !length_app; cbn; lia).
      by rewrite E', <- app_assoc. }
  assert (stringmap comp' = stringmap c1 ++ sx1 ++ sx2) as Estr.
  { rewrite Est, Ex2, Es2. cbn. by rewrite Esk, Ex1, Es1, Es, app_assoc. }
  split; [done | by eexists|]. eexists _, _. split; [exact E|].
  assert (strings b2 <= strings comp')%Z as Hn1.
  { apply (strings_le b2 comp' sx2). by rewrite Estr, Ex1, Es1, Es, app_assoc. }
  assert (strings d2 <= strings comp')%Z as Hn2 by (unfold strings; rewrite Est; lia).
  destruct Hk as (Hk1 & Hk2 & Hk3).
  eapply (piece_join _ _ _ _ _ _ stk); [exact Hc | eapply piece_weaken; [|exact P1]; done | eapply piece_weaken; [|exact P2]; done | done..].
Qed.

(** Two branches that do not come back. *)
Lemma forks_ends comp st comp0 label st2 b1 b2 d1 d2 :
  forks comp st comp0 label st2 -> branch comp0 = Done b1 -> ends b1 st2 b2 ->
  branch (LABEL label (unbranch comp0 b2)) = Done d1 -> ends d1 st2 d2 ->
  ends comp st (unbranch comp0 d2).
Proof.
  intros (c1 & j & st1 & Hgo & Ej & Es & -> & Hc & Hr0) Hb1 [(sx1 & Ex1) (lb1 & tb1 & El1 & P1)] Hb2 [(sx2 & Ex2) (lb2 & tb2 & El2 & P2)].
  destruct (branch_ready _ _ _ Hr0 Hb1) as (_ & Ei1 & Es1).
  set (c3 := LABEL (code_count c1) (unbranch comp0 b2)) in *.
  assert (instructions c3 = instructions c1 ++ set_arg0 (1 + Z.of_nat (length lb1)) j :: lb1) as E3.
  { destruct (LABEL_at (unbranch comp0 b2) (instructions c1) j lb1) as [E _]; [cbn; by rewrite El1, Ei1, Ej, <- app_assoc | exact E]. }
  destruct (branch_ready c3 d1 st2 Hr0 Hb2) as (_ & Ei2 & Es2).
  eapply goesto_ends; [exact Hgo|].
  assert (stringmap d2 = stringmap c1 ++ sx1 ++ sx2) as Estr by (rewrite Ex2, Es2; cbn; by rewrite Ex1, Es1, Es, app_assoc).
  split; [by eexists|]. eexists _, _. split.
  - cbn. rewrite El2, Ei2, E3, <- app_assoc. reflexivity.
  - cbn [app]. eapply (piece_fork _ _ _ _ _ lb1 lb2); [exact Hc | eapply piece_weaken; [|exact P1] | exact P2].
    apply (strings_le b2 d2 sx2). by rewrite Estr, Ex1, Es1, Es, app_assoc.
Qed.
End goes.
