(* ===== verification/SchemesTyped.v ===== *)
(** * The compilation schemes emit typed code

    [C] and [E] lead from any stack to the same stack with one more slot,
    whatever is known of the slots below; [R] emits code that does not come
    back. *)

From S2P Require Import Prelude CString Builtins Util Source Resolve Double Pointer Bytecode Peephole StackDiscipline Schemes SchemeR Compile Arith Typing Flow MacrosTyped.

#[local] Set Warnings "-clear-no-such-hyp".

(** ** What the code of a program may rely on *)

Section typed.
Context (src : source) (allowed : nat -> bool) (files : Z).

(** The stack the entries of a function are given: strict arguments are
    evaluated where the code that evaluates them is skipped. *)
Definition strict_arg (sc : scomb) (i : nat) : bool :=
  match sc_strictin sc with Some st => default false (st !! i) | None => false end.
Definition strict_stack (sc : scomb) : list slot_ty :=
  map (fun p => if strict_arg sc (sc_nargs sc - 1 - p) then SVal else SAny) (seq 0 (sc_nargs sc)).
Definition entry_stack (sc : scomb) (level : Z) : list slot_ty :=
  if (level =? 2)%Z && negb (sc_nospark sc) then strict_stack sc else replicate (sc_nargs sc) SAny.

Definition surroundings_of : surroundings := {|
  su_callee fno k := function_nargs src fno = Done k /\ ((fno < Z.of_nat NUM_BUILTINS)%Z -> allowed (Z.to_nat fno) = true);
  su_enter fno level st := (Z.of_nat NUM_BUILTINS <= fno)%Z /\ (0 <= level <= 2)%Z /\
    exists sc, fno_scomb src fno = Done sc /\ sub_st (entry_stack sc level) st = true;
  su_allowed := allowed;
  su_item := exists q sc, q ∈ src_scombs src /\ src_heap src !! q = Some sc /\ sc_name sc = "item" /\ sc_nargs sc = 2;
  su_files := files
|}.
Abbreviation su := surroundings_of.

(** Trees whose literals are numbers, whose positions are in a file of the
    program, that use only the built-ins allowed and only take elements of
    lists at positions that are not negative. *)
Definition place_in (sl : sourceloc) : bool := (sl_fileno sl <? files)%Z.
Definition literal_number (num : Z) : bool := negb (is_pntr (Pntr (double_lo num mod 2^32) (double_hi num mod 2^32))).
Definition position_ok (c : snode) : bool :=
  match item_literal src c with
  | Done (Some (num, _)) => match int_of_double num with Done v => (0 <=? v)%Z | _ => true end
  | _ => true
  end.
Fixpoint tame (c : snode) : bool :=
  place_in (node_sl c) &&
  match c with
  | SNODE_APPLICATION _ _ l r => position_ok c && tame l && tame r
  | SNODE_LAMBDA _ _ b => tame b
  | SNODE_BUILTIN _ bif => allowed bif
  | SNODE_LETREC _ bs b => forallb (fun rec => tame (lr_value rec)) bs && tame b
  | SNODE_NUMBER _ num => literal_number num
  | SNODE_SYMBOL _ _ | SNODE_SCREF _ _ | SNODE_NIL _ | SNODE_STRING _ _ => true
  end.

(** Constants stand for supercombinators without arguments. *)
Definition bodies_tame : Prop :=
  forall q sc body, q ∈ src_scombs src -> src_heap src !! q = Some sc -> sc_body sc = Some body -> tame body = true.

Lemma tame_sl c : tame c = true -> sl_ok su (node_sl c).
Proof. destruct c; cbn; rewrite ?andb_true_iff; intros [H _]; by apply Z.ltb_lt in H. Qed.
Lemma tame_app sl st l r : tame (SNODE_APPLICATION sl st l r) = true -> tame l = true /\ tame r = true.
Proof. cbn [tame]. rewrite !andb_true_iff. tauto. Qed.
Lemma tame_letrec sl bs b : tame (SNODE_LETREC sl bs b) = true -> (forall rec, rec ∈ bs -> tame (lr_value rec) = true) /\ tame b = true.
Proof.
  cbn [tame]. rewrite !andb_true_iff. intros (_ & H & Hb). split; [|done]. intros rec Hr.
  rewrite forallb_forall in H. by apply H, list_elem_of_In.
Qed.
Lemma tame_spine c : tame c = true -> tame (spine_head c) = true /\ Forall (fun a => tame a.1 = true) (spine_strict c).
Proof.
  induction c as [sl st l IHl r IHr| | | | | | | |]; try (intros H; split; [exact H | constructor]).
  intros [Hl Hr]%tame_app. destruct (IHl Hl). split; [done | by constructor].
Qed.

Lemma tame_callee c fno k : tame c = true -> is_function c = true -> snode_fno src c = Done fno ->
  function_nargs src fno = Done k -> su_callee su fno k.
Proof.
  intros Ht Hf Hfno Hn. split; [done|]. destruct c; try done; cbn in Hfno; outcome_inv.
  - subst. intros _. rewrite Nat2Z.id. cbn in Ht. by apply andb_true_iff in Ht as [_ ?].
  - intros H. lia.
Qed.

Lemma elem_at_split {A} (l pre : list A) x suf : l = pre ++ x :: suf -> x ∈ l.
Proof. intros ->. apply elem_of_app. right. by left. Qed.

(** ** Frames for calls *)

Lemma replace_top_0 ty st : replace_top 0 ty st = st ++ [ty].
Proof. unfold replace_top, ztake. rewrite Z.sub_0_r, Nat2Z.id. by rewrite take_ge. Qed.
Lemma replace_top_app n ty (st tys : list slot_ty) : n = Z.of_nat (length tys) -> replace_top n ty (st ++ tys) = st ++ [ty].
Proof.
  intros ->. unfold replace_top, ztake. rewrite length_app.
  replace (Z.to_nat (Z.of_nat (length st + length tys) - Z.of_nat (length tys))) with (length st) by lia. by rewrite take_app_length.
Qed.

Lemma callee_nonneg fno k : su_callee su fno k -> (0 <= k)%Z.
Proof.
  intros [H _]. unfold function_nargs in H. outcome_inv. destruct (fno <? _)%Z; outcome_inv; lia.
Qed.

Lemma fno_scomb_live fno sc : fno_scomb src fno = Done sc -> exists q, q ∈ src_scombs src /\ src_heap src !! q = Some sc.
Proof.
  unfold fno_scomb, get_scomb_index, getsc. intros H. outcome_inv. exists v. split; [by eapply list_elem_of_lookup_2 | done].
Qed.

Lemma find_string_range l str : forall i, (0 <= i)%Z -> (find_string l i str < i + Z.of_nat (length l))%Z.
Proof.
  induction l as [|x l IH]; intros i Hi; cbn [find_string length]; [lia|].
  destruct (String.eqb x str); [lia|]. specialize (IH (i + 1)%Z ltac:(lia)). lia.
Qed.

Lemma push_literal_string sl str comp st comp' : ready comp st -> sl_ok su sl ->
  (let '(comp, pos) := add_string comp str in add_instruction comp sl OP_PUSHSTRING pos 0) = Done comp' ->
  goesto su comp st comp' (st ++ [SVal]).
Proof.
  intros Hr Hsl H. unfold add_string in H.
  pose proof (find_string_range (stringmap comp) str 0 ltac:(lia)) as Hf.
  destruct (Z.leb_spec 0 (find_string (stringmap comp) 0 str)) as [Hp|Hp].
  - eapply push_value_goes; [done | done | | exact H]. right; right. split; [done|]. unfold strings. lia.
  - set (c1 := Compilation _ _ _) in H.
    assert (goesto su c1 st comp' (st ++ [SVal])) as [H1 (l & H2) H3].
    { eapply push_value_goes; [| done | | exact H]; [by destruct Hr as (s & inv & ? & ?); exists s, inv|].
      right; right. split; [done|]. unfold strings, c1. cbn. rewrite length_app. cbn. lia. }
    split; [done | | exact H3]. exists ([str] ++ l). rewrite H2. cbn. by rewrite <- app_assoc.
Qed.

Lemma domkframe_goes (Hall : bodies_tame) fuel : forall sl fno n comp st comp', ready comp st -> sl_ok su sl -> su_callee su fno n ->
  domkframe fuel src sl fno n comp = Done comp' ->
  (0 <= n <= Z.of_nat (length st))%Z /\ exists ty, goesto su comp st comp' (replace_top n ty st).
Proof.
  induction fuel as [|fuel IH]; intros sl fno n comp st comp' Hr Hsl Hc H; [done|]. cbn [domkframe] in H.
  assert (add_instruction comp sl OP_MKFRAME fno n = Done comp' ->
    (0 <= n <= Z.of_nat (length st))%Z /\ exists ty, goesto su comp st comp' (replace_top n ty st)) as Hframe.
  { intros H'. destruct (mkframe_goes su _ _ _ _ _ _ Hr Hsl Hc H') as [? ?]. split; [done | by eexists]. }
  destruct (_ <=? fno)%Z eqn:Enb.
  - apply bind_Done_inv in H as (sc & Hsc & H). destruct (Nat.eqb (sc_nargs sc) 0); [|by apply Hframe].
    apply bind_Done_inv in H as (body & Hb & H). apply deref_Done in Hb. apply bind_Done_inv in H as (u0 & H0 & H).
    apply cassert_Done, Z.eqb_eq in H0. subst n. destruct (fno_scomb_live _ _ Hsc) as (q & Hq & Hh).
    pose proof (Hall _ _ _ Hq Hh Hb) as Ht. pose proof (tame_sl _ Ht) as Hslb.
    destruct body as [| | | | |sl2 p2|sl2|sl2 num|sl2 str]; try (by apply Hframe); (split; [lia|]); cbn [node_sl] in Hslb.
    + apply bind_Done_inv in H as (fno2 & Hf2 & H). apply bind_Done_inv in H as (nargs & Hn2 & H).
      pose proof (tame_callee _ _ _ Ht eq_refl Hf2 Hn2) as Hc2. pose proof (callee_nonneg _ _ Hc2).
      destruct (Z.eqb_spec nargs 0) as [->|Hne].
      * by apply (IH sl2 fno2 0%Z comp st comp').
      * exists SVal. eapply (MKCAP_goes su _ _ _ nargs); [done | done | done | lia | exact H].
    + exists SVal. rewrite replace_top_0. eapply push_value_goes; [done | done | by left | exact H].
    + exists SVal. rewrite replace_top_0. eapply push_value_goes; [done | done | | exact H]. right; left. split; [done|].
      cbn in Ht. apply andb_true_iff in Ht as [_ Ht]. by apply negb_true_iff in Ht.
    + exists SVal. rewrite replace_top_0. by eapply push_literal_string.
  - destruct (Z.eqb_spec fno (Z.of_nat B_CONS)) as [->|_]; [|by apply Hframe].
    apply bind_Done_inv in H as (u0 & H0 & H). apply cassert_Done, Z.eqb_eq in H0. subst n.
    destruct Hc as [_ Hal]. specialize (Hal ltac:(vm_compute; reflexivity)). rewrite Nat2Z.id in Hal.
    destruct (BIF_goes su sl B_CONS _ comp st comp' Hr Hsl Hal eq_refl H) as [Hn Hgo]. split; [cbn in Hn; lia|].
    eexists. exact Hgo.
Qed.

(** ** Expressions *)

Definition typed_at (rec_ : compilation -> snode -> pmap -> Z -> outcome compilation) (c : snode) : Prop :=
  forall comp pm st comp', ready comp st -> good src pm (length st) c ->
    rec_ comp c pm (Z.of_nat (length st)) = Done comp' -> exists ty, goesto su comp st comp' (st ++ [ty]).

Section schemes.
Context (mkfuel : nat) (C E : compilation -> snode -> pmap -> Z -> outcome compilation).
Hypothesis HC : forall c, tame c = true -> typed_at C c.
Hypothesis HE : forall c, tame c = true -> typed_at E c.
Hypothesis Hall : bodies_tame.
Hypothesis Hidx : forall q sc, q ∈ src_scombs src -> src_heap src !! q = Some sc -> src_scombs src !! sc_index sc = Some q.

Definition good_arg (pm : pmap) (n : nat) (a : snode * bool) : Prop := good src pm n a.1 /\ tame a.1 = true.
Lemma good_arg_mono pm n m a : n <= m -> good_arg pm n a -> good_arg pm m a.
Proof. intros Hle [H ?]. split; [by eapply good_mono | done]. Qed.

Lemma spine_good_args pm n c : good src pm n c -> tame c = true -> Forall (good_arg pm n) (spine_strict c).
Proof.
  intros Hg Ht. pose proof (spine_good _ _ _ _ Hg) as H1. destruct (tame_spine _ Ht) as [_ H2].
  rewrite Forall_forall in *. intros a Ha. split; [by apply H1 | by apply H2].
Qed.

Lemma push_args_goes args : forall comp pm st comp', ready comp st -> Forall (good_arg pm (length st)) args ->
  push_args C E args pm (Z.of_nat (length st)) comp = Done comp' ->
  exists tys, length tys = length args /\ goesto su comp st comp' (st ++ tys).
Proof using HC HE.
  induction args as [|[a strict] args IH]; intros comp pm st comp' Hr Ha H; cbn [push_args] in H.
  { injection H as <-. exists []. rewrite app_nil_r. split; [done | by apply goesto_refl]. }
  apply Forall_cons in Ha as [[Hg Ht] Ha]. cbn [fst] in *. apply bind_Done_inv in H as (c1 & H1 & H).
  assert (exists ty, goesto su comp st c1 (st ++ [ty])) as [ty Hgo] by (destruct strict; [eapply HE | eapply HC]; eauto).
  replace (Z.of_nat (length st) + 1)%Z with (Z.of_nat (length (st ++ [ty]))) in H by (rewrite length_app; cbn; lia).
  destruct (IH c1 pm (st ++ [ty]) comp') as (tys & Hl & Hgo2); [apply (gt_ready _ _ _ _ _ Hgo) | | done|].
  { eapply Forall_impl; [exact Ha|]. intros x. apply good_arg_mono. rewrite length_app. lia. }
  exists (ty :: tys). split; [cbn; lia|]. rewrite <- app_assoc in Hgo2. by eapply goesto_trans.
Qed.

Lemma push_args_C_goes args : forall comp pm st comp', ready comp st -> Forall (good_arg pm (length st)) args ->
  push_args_C C args pm (Z.of_nat (length st)) comp = Done comp' ->
  exists tys, length tys = length args /\ goesto su comp st comp' (st ++ tys).
Proof using HC.
  induction args as [|[a strict] args IH]; intros comp pm st comp' Hr Ha H; cbn [push_args_C] in H.
  { injection H as <-. exists []. rewrite app_nil_r. split; [done | by apply goesto_refl]. }
  apply Forall_cons in Ha as [[Hg Ht] Ha]. cbn [fst] in *. apply bind_Done_inv in H as (c1 & H1 & H).
  destruct (HC a Ht comp pm st c1 Hr Hg H1) as [ty Hgo].
  replace (Z.of_nat (length st) + 1)%Z with (Z.of_nat (length (st ++ [ty]))) in H by (rewrite length_app; cbn; lia).
  destruct (IH c1 pm (st ++ [ty]) comp') as (tys & Hl & Hgo2); [apply (gt_ready _ _ _ _ _ Hgo) | | done|].
  { eapply Forall_impl; [exact Ha|]. intros x. apply good_arg_mono. rewrite length_app. lia. }
  exists (ty :: tys). split; [cbn; lia|]. rewrite <- app_assoc in Hgo2. by eapply goesto_trans.
Qed.

(** ** Letrecs *)

Section letrec.
Context (pm0 : pmap) (base : list slot_ty) (bs : list letrec) (strictcontext : bool).
Abbreviation pm := (bind_letrec bs (Z.of_nat (length base)) pm0).
Hypothesis Hgood : forall rec, rec ∈ bs -> good src pm (length base + length bs) (lr_value rec).
Hypothesis Htame : forall rec, rec ∈ bs -> tame (lr_value rec) = true.
Hypothesis Hnd : NoDup (map lr_name bs).
Hypothesis Hfresh : forall x, x ∈ map lr_name bs -> x ∉ map fst pm0.
Hypothesis Hout : forall rec x, rec ∈ bs -> free_in x (lr_value rec) -> x ∉ map lr_name bs ->
  exists idx, presolve pm0 x = Done idx /\ (1 <= idx <= Z.of_nat (length base))%Z.

Lemma Cletrec_direct_goes suf : forall pre tys comp comp' suf' n', bs = pre ++ suf -> length tys = length pre ->
  ready comp (base ++ tys) ->
  Cletrec_direct E strictcontext suf pm (Z.of_nat (length base + length pre)) comp = Done (comp', suf', n') ->
  exists pre' tys', bs = pre' ++ suf' /\ length tys' = length pre' /\ n' = Z.of_nat (length base + length pre') /\
    goesto su comp (base ++ tys) comp' (base ++ tys').
Proof using HE Hgood Htame Hnd Hfresh Hout.
  induction suf as [|rec suf IH]; intros pre tys comp comp' suf' n' Eb Hl Hr H; cbn [Cletrec_direct] in H.
  { injection H as <- <- <-. exists pre, tys. split_and!; [done | done | done | by apply goesto_refl]. }
  destruct (direct strictcontext rec suf) eqn:Ed.
  - apply bind_Done_inv in H as (c1 & H1 & H).
    pose proof (direct_good src pm0 (length base) bs strictcontext Hgood Hnd Hfresh Hout _ _ _ Eb Ed) as Hg.
    rewrite <- Hl, <- length_app in Hg. rewrite <- Hl, <- length_app in H1.
    destruct (HE _ (Htame rec (elem_at_split _ _ _ _ Eb)) _ _ _ _ Hr Hg H1) as [ty Hgo].
    destruct (IH (pre ++ [rec]) (tys ++ [ty]) c1 comp' suf' n') as (pre' & tys' & E1 & E2 & E3 & Hgo').
    + by rewrite <- app_assoc.
    + rewrite !length_app. cbn. lia.
    + rewrite app_assoc. apply (gt_ready _ _ _ _ _ Hgo).
    + rewrite <- H. f_equal. rewrite length_app. cbn. lia.
    + exists pre', tys'. split_and!; [done | done | done|]. rewrite app_assoc in Hgo'. by eapply goesto_trans.
  - injection H as <- <- <-. exists pre, tys. split_and!; [done | done | done | by apply goesto_refl].
Qed.

Lemma Cletrec_alloc_goes suf : forall pre tys comp comp', bs = pre ++ suf -> length tys = length pre ->
  ready comp (base ++ tys ++ replicate (length suf) SHole) ->
  Cletrec_alloc C E strictcontext suf pm (Z.of_nat (length base + length bs)) comp = Done comp' ->
  exists tys', length tys' = length bs /\ goesto su comp (base ++ tys ++ replicate (length suf) SHole) comp' (base ++ tys').
Proof using HC HE Hgood Htame Hnd Hfresh.
  induction suf as [|rec suf IH]; intros pre tys comp comp' Eb Hl Hr H; cbn [Cletrec_alloc] in H.
  { injection H as <-. cbn in *. rewrite !app_nil_r in *. exists tys. split; [by rewrite Eb|]. by apply goesto_refl. }
  apply bind_Done_inv in H as (c1 & H1 & H). rewrite (presolve_at pm0 (length base) bs Hnd Hfresh _ _ _ Eb) in H.
  cbn [mbind outcome_bind] in H. apply bind_Done_inv in H as (c2 & H2 & H).
  set (st := base ++ tys ++ replicate (length (rec :: suf)) SHole) in *.
  assert (length st = length base + length bs) as Hls by (unfold st; rewrite !length_app, length_replicate, Eb, length_app; lia).
  rewrite <- Hls in H1, H2. pose proof (Htame rec (elem_at_split _ _ _ _ Eb)) as Ht.
  pose proof (Hgood rec (elem_at_split _ _ _ _ Eb)) as Hg. rewrite <- Hls in Hg.
  assert (exists ty, goesto su comp st c1 (st ++ [ty])) as [ty Hgo].
  { destruct (direct _ _ _); [eapply HE | eapply HC]; eauto. }
  replace (Z.of_nat (length st) + 1 - Z.of_nat (length base + length pre + 1))%Z
    with (Z.of_nat (length st) - Z.of_nat (length base + length pre))%Z in H2 by lia.
  assert (length pre < length bs) as Hlt by (rewrite Eb, length_app; cbn; lia).
  assert (Z.of_nat (length st) - (Z.of_nat (length st) - Z.of_nat (length base + length pre)) = Z.of_nat (length base + length tys))%Z as Ep by lia.
  assert (zlookup st (Z.of_nat (length base + length tys)) = Some SHole) as Hhole.
  { rewrite zlookup_of_nat. unfold st. rewrite app_assoc. apply (list_lookup_middle (base ++ tys) (replicate (length suf) SHole)).
    rewrite length_app. lia. }
  pose proof (UPDATE_goes su _ (Z.of_nat (length st) - Z.of_nat (length base + length pre)) c1 st ty c2 (gt_ready _ _ _ _ _ Hgo) (tame_sl _ Ht)) as Hup. rewrite Ep in Hup.
  specialize (Hup ltac:(lia) Hhole H2). rewrite Nat2Z.id in Hup.
  assert (<[length base + length tys := copy_ty ty]> st = base ++ (tys ++ [copy_ty ty]) ++ replicate (length suf) SHole) as Ei.
  { unfold st. cbn [length replicate]. rewrite insert_app_r. rewrite <- (Nat.add_0_r (length tys)), insert_app_r. cbn.
    by rewrite <- app_assoc. }
  rewrite Ei in Hup.
  destruct (IH (pre ++ [rec]) (tys ++ [copy_ty ty]) c2 comp') as (tys' & Hl' & Hgo').
  - by rewrite <- app_assoc.
  - rewrite !length_app. cbn. lia.
  - apply (gt_ready _ _ _ _ _ Hup).
  - exact H.
  - exists tys'. split; [done|]. eapply goesto_trans; [exact Hgo|]. by eapply goesto_trans.
Qed.

Lemma Cletrec_goes comp comp' : ready comp base ->
  Cletrec C E bs (Z.of_nat (length base)) pm strictcontext comp = Done comp' ->
  exists tys, length tys = length bs /\ goesto su comp base comp' (base ++ tys).
Proof using HC HE Hgood Htame Hnd Hfresh Hout.
  intros Hr H. unfold Cletrec in H. apply bind_Done_inv in H as ([[c1 suf] n'] & H1 & H).
  destruct (Cletrec_direct_goes bs [] [] comp c1 suf n' eq_refl eq_refl) as (pre & tys & Eb & Hl & -> & Hgo).
  { by rewrite app_nil_r. } { cbn [length]. by rewrite Nat.add_0_r. }
  rewrite app_nil_r in Hgo. destruct suf as [|rec suf].
  { injection H as <-. exists tys. rewrite app_nil_r in Eb. by subst pre. }
  apply bind_Done_inv in H as (c2 & H2 & H).
  pose proof (ALLOC_goes su _ _ _ _ _ (gt_ready _ _ _ _ _ Hgo) (tame_sl _ (Htame rec (elem_at_split _ _ _ _ Eb))) H2) as Hal.
  rewrite <- app_assoc in Hal.
  replace (Z.of_nat (length base + length pre) + Z.of_nat (length (rec :: suf)))%Z with (Z.of_nat (length base + length bs)) in H
    by (rewrite Eb, length_app; lia).
  destruct (Cletrec_alloc_goes (rec :: suf) pre tys c2 comp' Eb Hl (gt_ready _ _ _ _ _ Hal) H) as (tys' & Hl' & Hgo').
  exists tys'. split; [done|]. eapply goesto_trans; [exact Hgo|]. by eapply goesto_trans.
Qed.
End letrec.

Lemma letrec_body_goes rec_ strictcontext sl bs b comp pm st comp' :
  (forall c, tame c = true -> typed_at rec_ c) -> tame (SNODE_LETREC sl bs b) = true ->
  ready comp st -> good src pm (length st) (SNODE_LETREC sl bs b) ->
  letrec_body C E rec_ strictcontext sl bs b pm (Z.of_nat (length st)) comp = Done comp' ->
  exists ty, goesto su comp st comp' (st ++ [ty]).
Proof using HC HE.
  intros Hrec Ht Hr Hg H. pose proof (tame_sl _ Ht) as Hsl. apply tame_letrec in Ht as [Hts Htb].
  destruct (good_letrec _ _ _ _ _ _ Hg) as (Gv & Gb & Hnd & Hfr & Hout). unfold letrec_body in H.
  apply bind_Done_inv in H as (c1 & H1 & H). apply bind_Done_inv in H as (c2 & H2 & H).
  destruct (Cletrec_goes pm st bs strictcontext Gv Hts Hnd Hfr Hout comp c1 Hr H1) as (tys & Hl & Hgo).
  rewrite <- Nat2Z.inj_add, <- Hl, <- length_app in H2. rewrite <- Hl, <- length_app in Gb.
  destruct (Hrec b Htb _ _ _ _ (gt_ready _ _ _ _ _ Hgo) Gb H2) as [ty Hgo2]. exists ty.
  eapply goesto_trans; [exact Hgo|]. rewrite <- app_assoc in Hgo2. eapply goesto_trans; [exact Hgo2|].
  eapply SQUEEZE1_goes; [apply (gt_ready _ _ _ _ _ Hgo2) | done | by rewrite Hl | exact H].
Qed.

(** ** Applications *)

Lemma pop_push_inv n comp st tys comp' : ready comp (st ++ tys) -> n = Z.of_nat (length tys) ->
  pop_push n STATUS_SPARKED comp = Done comp' ->
  instructions comp' = instructions comp /\ stringmap comp' = stringmap comp /\ ready comp' (st ++ [SAny]).
Proof.
  intros (s & inv & Hsi & Ha) -> H. unfold pop_push in H. outcome_inv.
  pose proof (the_si_inv _ _ _ _ Hsi Hm) as ->. status_inv. subst. split_and!; [done | done|]. eexists _, _. split; [reflexivity|].
  cbn. pose proof (agree_length _ _ Ha) as Hl. rewrite length_app in Hl. apply agree_app; [|apply agree_one; status_lia].
  replace (length s - Z.to_nat (Z.of_nat (length tys))) with (length st) by lia.
  rewrite <- (take_app_length st tys) at 2. by apply agree_take.
Qed.

(** The beginning of a branch. *)
Lemma branch_goes (pop : bool) sl comp b1 b2 st st2 :
  ready comp st2 -> sl_ok su sl -> st2 = (if pop then st ++ [SVal] else st) -> branch comp = Done b1 ->
  (if pop then add_instruction b1 sl OP_POP 1 0 else Done b1) = Done b2 -> goesto su b1 st2 b2 st.
Proof.
  intros Hr Hsl -> Hb H. destruct (branch_ready _ _ _ Hr Hb) as (Hr1 & _). destruct pop.
  - by eapply POP_goes.
  - injection H as <-. by apply goesto_refl.
Qed.

Lemma E_if_branches_goes (pop : bool) sl comp st0 st comp0 label x1 x2 pm comp' :
  forks su comp st0 comp0 label (if pop then st ++ [SVal] else st) -> sl_ok su sl ->
  good_arg pm (length st) (x1, pop) -> good_arg pm (length st) (x2, pop) ->
  (c ← branch comp0;
   c ← (if pop then add_instruction c sl OP_POP 1 0 else Done c);
   c ← E c x1 pm (Z.of_nat (length st));
   '(c, end_) ← JUMP sl c;
   let c := LABEL label (unbranch comp0 c) in
   c ← branch c;
   c ← (if pop then add_instruction c sl OP_POP 1 0 else Done c);
   c ← E c x2 pm (Z.of_nat (length st));
   pop_push (if pop then 1 else 0) STATUS_SPARKED (LABEL end_ (unbranch comp0 c))) = Done comp' ->
  goesto su comp st0 comp' (st ++ [SAny]).
Proof using HE.
  intros HF Hsl [G1 T1] [G2 T2] H. cbn [fst] in *.
  apply bind_Done_inv in H as (b1 & Hb1 & H). apply bind_Done_inv in H as (b2 & Hb2 & H).
  apply bind_Done_inv in H as (b3 & Hb3 & H). apply bind_Done_inv in H as ([b4 end_] & Hb4 & H).
  apply bind_Done_inv in H as (d1 & Hd1 & H). apply bind_Done_inv in H as (d2 & Hd2 & H).
  apply bind_Done_inv in H as (d3 & Hd3 & H).
  assert (ready comp0 (if pop then st ++ [SVal] else st)) as Hr0 by (destruct HF as (c & j & st1 & HF); apply HF).
  pose proof (branch_goes pop sl _ _ _ st _ Hr0 Hsl eq_refl Hb1 Hb2) as B1.
  destruct (HE x1 T1 _ _ _ _ (gt_ready _ _ _ _ _ B1) G1 Hb3) as [t1 P1].
  pose proof (branch_goes pop sl (LABEL label (unbranch comp0 b4)) _ _ st _ Hr0 Hsl eq_refl Hd1 Hd2) as B2.
  destruct (HE x2 T2 _ _ _ _ (gt_ready _ _ _ _ _ B2) G2 Hd3) as [t2 P2].
  assert (forall t, fits true (st ++ [SAny]) (st ++ [t])) as Hfit.
  { intros t. split; [|by rewrite !length_app]. apply sub_st_app; [done | apply sub_st_refl | by destruct t]. }
  destruct (forks_join su comp _ comp0 label _ b1 b3 b4 sl end_ _ d1 d3 _ (st ++ [SAny]) HF Hsl Hb1
    (goesto_trans _ _ _ _ _ _ _ B1 P1) Hb4 Hd1 (goesto_trans _ _ _ _ _ _ _ B2 P2) (Hfit _) (Hfit _)) as [Hr Hj].
  assert (ready (LABEL end_ (unbranch comp0 d3)) (st ++ if pop then [SVal] else [])) as Hr2 by (destruct pop; [exact Hr | by rewrite app_nil_r]).
  destruct (pop_push_inv (if pop then 1 else 0)%Z _ st _ comp' Hr2 ltac:(by destruct pop) H) as (H1 & H2 & H3).
  by apply Hj.
Qed.

Lemma E_if_goes comp cond t f pm st comp' : ready comp st -> sl_ok su (node_sl cond) ->
  (forall x, x = cond \/ x = t \/ x = f \/ (exists num, eq_literal cond = Some (x, num)) -> good_arg pm (length st) (x, true)) ->
  E_if E cond t f pm (Z.of_nat (length st)) comp = Done comp' -> exists ty, goesto su comp st comp' (st ++ [ty]).
Proof using HE.
  intros Hr Hsl Hsub H. exists SAny. pose proof (Hsub t ltac:(auto)) as Gt. pose proof (Hsub f ltac:(auto)) as Gf.
  unfold E_if in H. destruct (eq_literal cond) as [[x num]|] eqn:Eq.
  - destruct (Hsub x ltac:(eauto)) as [Gx Tx]. apply bind_Done_inv in H as (c1 & H1 & H). apply bind_Done_inv in H as (v & Hv & H).
    destruct (HE x Tx _ _ _ _ Hr Gx H1) as [ty Hgo]. eapply goesto_trans; [exact Hgo|].
    apply bind_Done_inv in H as ([c0 label] & Hj & H).
    pose proof (JEQ_forks su _ _ _ _ _ _ _ (gt_ready _ _ _ _ _ Hgo) Hsl Hj) as HF.
    exact (E_if_branches_goes true _ _ _ _ _ _ f t pm comp' HF Hsl Gf Gt H).
  - destruct (Hsub cond ltac:(auto)) as [Gx Tx]. apply bind_Done_inv in H as (c1 & H1 & H).
    destruct (HE cond Tx _ _ _ _ Hr Gx H1) as [ty Hgo]. eapply goesto_trans; [exact Hgo|].
    apply bind_Done_inv in H as ([c0 label] & Hj & H).
    pose proof (JFALSE_forks su _ _ _ _ _ _ (gt_ready _ _ _ _ _ Hgo) Hsl Hj) as HF.
    exact (E_if_branches_goes false _ _ _ _ _ _ t f pm comp' HF Hsl Gt Gf H).
Qed.

Lemma E_seq_goes e1 e2 comp pm st comp' : ready comp st -> good_arg pm (length st) (e1, true) -> good_arg pm (length st) (e2, true) ->
  E_seq E e1 e2 pm (Z.of_nat (length st)) comp = Done comp' -> exists ty, goesto su comp st comp' (st ++ [ty]).
Proof using HE.
  intros Hr [G1 T1] [G2 T2] H. unfold E_seq in H. cbn [fst] in *.
  apply bind_Done_inv in H as (c1 & H1 & H). apply bind_Done_inv in H as (c2 & H2 & H). apply bind_Done_inv in H as (c3 & H3 & H).
  destruct (HE e1 T1 _ _ _ _ Hr G1 H1) as [t1 Hg1].
  destruct (EVAL_goes su _ _ _ _ _ (gt_ready _ _ _ _ _ Hg1) (tame_sl _ T1) H2) as [_ Hg2]. rewrite eval_top in Hg2.
  pose proof (POP_goes su _ _ _ _ _ (gt_ready _ _ _ _ _ Hg2) (tame_sl _ T1) H3) as Hg3.
  destruct (HE e2 T2 _ _ _ _ (gt_ready _ _ _ _ _ Hg3) G2 H) as [t2 Hg4]. exists t2.
  eapply goesto_trans; [exact Hg1|]. eapply goesto_trans; [exact Hg2|]. by eapply goesto_trans.
Qed.

(** A call in which the arguments are on the stack already. *)
Lemma MKCAP_call sl fno k comp st tys comp' : ready comp (st ++ tys) -> sl_ok su sl -> su_callee su fno k ->
  (Z.of_nat (length tys) < k)%Z -> MKCAP sl fno (Z.of_nat (length tys)) comp = Done comp' -> goesto su comp (st ++ tys) comp' (st ++ [SVal]).
Proof.
  intros Hr Hsl Hc Hn H. destruct (MKCAP_goes su _ _ _ _ _ _ _ Hr Hsl Hc Hn H) as [_ Hgo]. by rewrite replace_top_app in Hgo.
Qed.
Lemma MKFRAME_call sl fno comp st tys comp' : ready comp (st ++ tys) -> sl_ok su sl -> su_callee su fno (Z.of_nat (length tys)) ->
  domkframe mkfuel src sl fno (Z.of_nat (length tys)) comp = Done comp' -> exists ty, goesto su comp (st ++ tys) comp' (st ++ [ty]).
Proof using Hall.
  intros Hr Hsl Hc H. destruct (domkframe_goes Hall _ _ _ _ _ _ _ Hr Hsl Hc H) as [_ [ty Hgo]]. exists ty. by rewrite replace_top_app in Hgo.
Qed.

Lemma goesto_SPARK sl comp st ty c1 comp' : goesto su comp st c1 (st ++ [ty]) -> sl_ok su sl -> SPARK sl 0 c1 = Done comp' ->
  exists ty, goesto su comp st comp' (st ++ [ty]).
Proof.
  intros Hgo Hsl H. exists ty. eapply goesto_trans; [exact Hgo|]. eapply SPARK_goes; [apply (gt_ready _ _ _ _ _ Hgo) | done | exact H].
Qed.

Lemma C_application_goes c comp pm st comp' : ready comp st -> good src pm (length st) c -> tame c = true ->
  C_application src mkfuel C c pm (Z.of_nat (length st)) comp = Done comp' -> exists ty, goesto su comp st comp' (st ++ [ty]).
Proof using HC Hall.
  intros Hr Hg Ht H. unfold C_application in H. apply bind_Done_inv in H as (c1 & H1 & H). outcome_inv.
  destruct (push_args_C_goes (spine_strict c) _ _ _ _ Hr (spine_good_args _ _ _ Hg Ht) H1) as (tys & Hl & Hgo).
  rewrite spine_strict_length in Hl. destruct (tame_spine _ Ht) as [Hth _].
  pose proof (tame_callee _ _ _ Hth Hm Hm0 Hm1) as Hc. apply Z.leb_le in Hm2. rewrite <- Hl in *.
  destruct (Z.eqb_spec (Z.of_nat (length tys)) v1) as [<-|Hne].
  - destruct (MKFRAME_call _ _ _ _ _ _ (gt_ready _ _ _ _ _ Hgo) (tame_sl _ Hth) Hc H) as [ty Hgo2]. exists ty. by eapply goesto_trans.
  - exists SVal. eapply goesto_trans; [exact Hgo|].
    eapply MKCAP_call; [apply (gt_ready _ _ _ _ _ Hgo) | by apply tame_sl | exact Hc | lia | exact H].
Qed.

Lemma E_call_goes c fno k comp pm st comp' : ready comp st -> good src pm (length st) c -> tame c = true ->
  snode_fno src (spine_head c) = Done fno -> is_function (spine_head c) = true -> function_nargs src fno = Done k -> (Z.of_nat (count_args c) <= k)%Z ->
  E_call src mkfuel C E c fno k pm (Z.of_nat (length st)) comp = Done comp' -> exists ty, goesto su comp st comp' (st ++ [ty]).
Proof using HC HE Hall.
  intros Hr Hg Ht Hfno Hf Hk Hle H. unfold E_call in H. apply bind_Done_inv in H as (c1 & H1 & H).
  destruct (push_args_goes (spine_strict c) _ _ _ _ Hr (spine_good_args _ _ _ Hg Ht) H1) as (tys & Hl & Hgo).
  rewrite spine_strict_length in Hl. destruct (tame_spine _ Ht) as [Hth _]. pose proof (tame_sl _ Hth) as Hsl.
  pose proof (tame_callee _ _ _ Hth Hf Hfno Hk) as Hc. rewrite <- Hl in *. pose proof (gt_ready _ _ _ _ _ Hgo) as Hr1.
  assert (forall sl c2, sl_ok su sl -> domkframe mkfuel src sl fno (Z.of_nat (length tys)) c1 = Done c2 -> Z.of_nat (length tys) = k ->
    exists ty, goesto su comp st c2 (st ++ [ty])) as Hframe.
  { intros sl c2 Hs H2 <-. destruct (MKFRAME_call _ _ _ _ _ _ Hr1 Hs Hc H2) as [ty Hgo2]. exists ty. by eapply goesto_trans. }
  destruct (Z.eqb_spec (Z.of_nat (length tys)) k) as [Ek|Hne].
  - rewrite <- Ek in H.
    destruct (spine_head c) as [| |sl bif| | |sl p| | |] eqn:Eh; try done; cbn [node_sl] in Hsl.
    + apply bind_Done_inv in H as (b & Hb & H). apply deref_Done in Hb. destruct (bi_pure b).
      * apply bind_Done_inv in H as (c2 & H2 & H). destruct Hc as [Hn Hal].
        cbn in Hfno. injection Hfno as <-. destruct (fno_builtin src sl bif b Hb) as (_ & F2 & F3).
        rewrite F2 in Hk. injection Hk as Hk. specialize (Hal F3). rewrite Nat2Z.id in Hal.
        destruct (BIF_goes su sl bif b c1 _ c2 Hr1 Hsl Hal Hb H2) as [_ Hgo2].
        rewrite replace_top_app in Hgo2 by lia. pose proof (goesto_trans _ _ _ _ _ _ _ Hgo Hgo2) as Hgo3.
        destruct (bi_reswhnf b); [injection H as <-; by eexists|]. by eapply goesto_SPARK.
      * apply bind_Done_inv in H as (c2 & H2 & H). destruct (Hframe _ _ Hsl H2 Ek) as [ty Hgo2].
        destruct (EVAL_goes su _ _ _ _ _ (gt_ready _ _ _ _ _ Hgo2) Hsl H) as [_ Hgo3]. rewrite eval_top in Hgo3.
        exists SVal. by eapply goesto_trans.
    + apply bind_Done_inv in H as (c2 & H2 & H). destruct (Hframe _ _ Hsl H2 Ek) as [ty Hgo2]. by eapply goesto_SPARK.
  - apply bind_Done_inv in H as (c2 & H2 & H).
    eapply goesto_SPARK; [|exact Hsl | exact H]. eapply goesto_trans; [exact Hgo|].
    eapply MKCAP_call; [done | done | exact Hc | lia | exact H2].
Qed.

(** The literal position of [item]. *)
Lemma int_of_double_range num v : int_of_double num = Done v -> (INT_MIN <= v <= INT_MAX)%Z.
Proof.
  unfold int_of_double. destruct (_ =? 2047)%Z; [done|]. destruct (magnitude_whole num); [|done]. intros [-> ?]%cint_inv. done.
Qed.

Lemma fno_scomb_index q sc : q ∈ src_scombs src -> src_heap src !! q = Some sc ->
  fno_scomb src (Z.of_nat (sc_index sc + NUM_BUILTINS)) = Done sc.
Proof using Hidx.
  intros Hq Hs. unfold fno_scomb, get_scomb_index, getsc.
  replace (Z.to_nat (Z.of_nat (sc_index sc + NUM_BUILTINS) - Z.of_nat NUM_BUILTINS)) with (sc_index sc) by lia.
  rewrite (Hidx _ _ Hq Hs). cbn. by rewrite Hs.
Qed.

Lemma item_literal_item c num l v fno : item_literal src c = Done (Some (num, l)) -> int_of_double num = Done v ->
  tame c = true -> fun_ok src (spine_head c) 0 -> snode_fno src (spine_head c) = Done fno -> function_nargs src fno = Done 2%Z ->
  (0 <= v <= INT_MAX)%Z /\ su_item su.
Proof using Hidx.
  intros Hi Hv Ht Hf Hfno Hk. destruct c as [sl1 st1 [sl2 st2 [| | | | |sl3 p| | |] [| | | | | | |sl4 x|]| | | | | | | |] r1| | | | | | | |]; try done. split.
  - split; [|apply int_of_double_range in Hv; lia]. cbn [tame] in Ht. rewrite !andb_true_iff in Ht.
    destruct Ht as (_ & (Hpos & _) & _). unfold position_ok in Hpos. rewrite Hi, Hv in Hpos. by apply Z.leb_le in Hpos.
  - cbn [item_literal snode_fno spine_head fun_ok] in Hi, Hfno, Hf. destruct Hf as (Hp & sc & Hs & _). unfold getsc in Hi, Hfno.
    rewrite Hs in Hi, Hfno. cbn [mbind outcome_bind deref] in Hi, Hfno.
    destruct (String.eqb_spec (sc_name sc) "item") as [En|]; cbn [andb] in Hi; [|discriminate Hi].
    assert (fno = Z.of_nat (sc_index sc + NUM_BUILTINS)) as -> by congruence.
    exists p, sc. split_and!; try done. clear Hi Hv. unfold function_nargs in Hk. outcome_inv.
    rewrite (proj2 (Z.ltb_ge _ _)) in Hk by lia. rewrite (fno_scomb_index p) in Hk by done. cbn [mbind outcome_bind] in Hk. injection Hk. lia.
Qed.

Lemma good_head pm n c : good src pm n c -> is_function (spine_head c) = true -> fun_ok src (spine_head c) (count_args c).
Proof. intros [Hs _] Hf. apply shape_spine; [by left | done]. Qed.
Lemma fun_ok_mono h m m' : m' <= m -> fun_ok src h m -> fun_ok src h m'.
Proof. intros Hle. destruct h; try done; cbn; [intros (b & ? & ?) | intros (? & s0 & ? & ?)]; eauto with lia. Qed.

Lemma good_arg_app pm n sl st l r : good src pm n (SNODE_APPLICATION sl st l r) -> tame (SNODE_APPLICATION sl st l r) = true ->
  (good src pm n l /\ tame l = true) /\ good_arg pm n (r, true).
Proof. intros Hg Ht. destruct (good_app _ _ _ _ _ _ _ Hg), (tame_app _ _ _ _ Ht). by split. Qed.

Lemma E_application_goes c comp pm st comp' : ready comp st -> good src pm (length st) c -> tame c = true ->
  E_application src mkfuel C E c pm (Z.of_nat (length st)) comp = Done comp' -> exists ty, goesto su comp st comp' (st ++ [ty]).
Proof using HC HE Hall Hidx.
  intros Hr Hg Ht H. unfold E_application in H. apply bind_Done_inv in H as (u0 & Hf & H). apply cassert_Done in Hf.
  apply bind_Done_inv in H as (fno & Hfno & H). apply bind_Done_inv in H as (k & Hk & H).
  apply bind_Done_inv in H as (u1 & Hle & H). apply cassert_Done, Z.leb_le in Hle.
  destruct (as_if c) as [[[cond t] f]|] eqn:Eif.
  { apply as_if_parts in Eif as (sl1 & st1 & sl2 & st2 & sl3 & st3 & sl4 & ->).
    destruct (good_arg_app _ _ _ _ _ _ Hg Ht) as [[Hg1 Ht1] Gf]. destruct (good_arg_app _ _ _ _ _ _ Hg1 Ht1) as [[Hg2 Ht2] Gt].
    destruct (good_arg_app _ _ _ _ _ _ Hg2 Ht2) as [_ [Gc Tc]]. cbn [fst] in Gc, Tc. eapply E_if_goes; [done | by apply tame_sl | | exact H].
    intros x [-> | [-> | [-> | (num & (? & ? & ? & ? & ? & ? & ->)%eq_literal_parts)]]]; try done.
    destruct (good_arg_app _ _ _ _ _ _ Gc Tc) as [[Hg3 Ht3] _]. by destruct (good_arg_app _ _ _ _ _ _ Hg3 Ht3) as [_ ?]. }
  destruct (as_seq c) as [[e1 e2]|] eqn:Eseq.
  { apply as_seq_parts in Eseq as (sl1 & st1 & sl2 & st2 & sl3 & ->).
    destruct (good_arg_app _ _ _ _ _ _ Hg Ht) as [[Hg1 Ht1] G2]. destruct (good_arg_app _ _ _ _ _ _ Hg1 Ht1) as [_ G1].
    eapply E_seq_goes; [done | exact G1 | exact G2 | exact H]. }
  apply bind_Done_inv in H as (item & Hi & H). destruct item as [[num l]|]; [|by eapply E_call_goes].
  destruct (Z.eqb_spec k 2) as [->|_]; [|by eapply E_call_goes].
  apply bind_Done_inv in H as (v & Hv & H). apply bind_Done_inv in H as (c1 & H1 & H). apply bind_Done_inv in H as (c2 & H2 & H).
  pose proof (fun_ok_mono _ _ 0 ltac:(lia) (good_head _ _ _ Hg Hf)) as Hfun.
  destruct (item_literal_item _ _ _ _ _ Hi Hv Ht Hfun Hfno Hk) as [Hvr Hitem].
  destruct (tame_spine _ Ht) as [Hth _]. pose proof (tame_sl _ Hth) as Hsl.
  apply item_literal_parts in Hi as (sl1 & st1 & h & ->). destruct (good_arg_app _ _ _ _ _ _ Hg Ht) as [_ [Gl Tl]].
  destruct (HE l Tl _ _ _ _ Hr Gl H1) as [ty Hgo].
  destruct (ITEMN_goes su _ _ _ _ _ _ (gt_ready _ _ _ _ _ Hgo) Hsl Hvr Hitem H2) as [_ Hgo2].
  rewrite (replace_top_app 1 SAny st [ty]) in Hgo2 by done.
  eapply goesto_SPARK; [|exact Hsl | exact H]. by eapply goesto_trans.
Qed.
End schemes.

(** ** [C] and [E] *)

Lemma typed_all mkfuel (Hall : bodies_tame)
  (Hidx : forall q sc, q ∈ src_scombs src -> src_heap src !! q = Some sc -> src_scombs src !! sc_index sc = Some q) :
  forall fuel c, tame c = true -> typed_at (C fuel mkfuel src) c /\ typed_at (E fuel mkfuel src) c.
Proof.
  induction fuel as [|fuel IH]; [done|]. intros c Ht.
  assert (HC : forall c, tame c = true -> typed_at (C fuel mkfuel src) c) by (intros c' Hc'; by apply IH).
  assert (HE : forall c, tame c = true -> typed_at (E fuel mkfuel src) c) by (intros c' Hc'; by apply IH).
  pose proof (tame_sl _ Ht) as Hsl. split; intros comp pm st comp' Hr Hg H.
  - destruct c as [sl s l r|sl n b|sl bif|sl x|sl bs b|sl p|sl|sl num|sl str]; cbn [C node_sl] in *.
    + exact (C_application_goes mkfuel _ HC Hall _ _ _ _ _ Hr Hg Ht H).
    + done.
    + outcome_inv. pose proof (tame_callee _ _ _ Ht eq_refl Hm Hm0) as Hc. destruct (Z.eqb_spec v0 0) as [->|Hne].
      * destruct (domkframe_goes Hall _ _ _ _ _ _ _ Hr Hsl Hc H) as [_ [ty Hgo]]. rewrite replace_top_0 in Hgo. by eexists.
      * pose proof (callee_nonneg _ _ Hc). destruct (MKCAP_goes su _ _ 0 v0 _ _ _ Hr Hsl Hc ltac:(lia) H) as [_ Hgo].
        rewrite replace_top_0 in Hgo. by eexists.
    + apply bind_Done_inv in H as (idx & _ & H). by eapply PUSH_goes.
    + exact (letrec_body_goes _ _ HC HE _ _ _ _ _ _ _ _ _ HC Ht Hr Hg H).
    + outcome_inv. pose proof (tame_callee _ _ _ Ht eq_refl Hm Hm0) as Hc. destruct (Z.eqb_spec v0 0) as [->|Hne].
      * destruct (domkframe_goes Hall _ _ _ _ _ _ _ Hr Hsl Hc H) as [_ [ty Hgo]]. rewrite replace_top_0 in Hgo. by eexists.
      * pose proof (callee_nonneg _ _ Hc). destruct (MKCAP_goes su _ _ 0 v0 _ _ _ Hr Hsl Hc ltac:(lia) H) as [_ Hgo].
        rewrite replace_top_0 in Hgo. by eexists.
    + exists SVal. by eapply push_value_goes; [done | done | left |].
    + exists SVal. eapply push_value_goes; [done | done | | exact H]. right; left. split; [done|].
      cbn in Ht. apply andb_true_iff in Ht as [_ Ht]. by apply negb_true_iff in Ht.
    + exists SVal. by eapply push_literal_string.
  - assert ((c1 ← C fuel mkfuel src comp c pm (Z.of_nat (length st)); SPARK (node_sl c) 0 c1) = Done comp' ->
      exists ty, goesto su comp st comp' (st ++ [ty])) as HSP.
    { intros H'. apply bind_Done_inv in H' as (c1 & H1 & H2). destruct (HC c Ht _ _ _ _ Hr Hg H1) as [ty Hgo]. by eapply goesto_SPARK. }
    destruct c as [sl s l r|sl n b|sl bif|sl x|sl bs b|sl p|sl|sl num|sl str]; cbn [E node_sl] in *; try (by apply HSP).
    + exact (E_application_goes mkfuel _ _ HC HE Hall Hidx _ _ _ _ _ Hr Hg Ht H).
    + apply bind_Done_inv in H as (idx & _ & H). apply bind_Done_inv in H as (c1 & H1 & H2).
      pose proof (SPARK_goes su _ _ _ _ _ Hr Hsl H1) as Hgo. destruct (PUSH_goes su _ _ _ _ _ (gt_ready _ _ _ _ _ Hgo) Hsl H2) as [ty Hgo2].
      exists ty. by eapply goesto_trans.
    + exact (letrec_body_goes _ _ HC HE _ _ _ _ _ _ _ _ _ HE Ht Hr Hg H).
Qed.
End typed.
