(* ===== verification/SchemeRTyped.v ===== *)
(** * Bodies of functions compile to typed code

    [R], when it returns, has appended code that does not come back: it ends in
    a RETURN or DO of an evaluated value or in a jump to a function whose
    arguments are in place. *)

From S2P Require Import Prelude CString Builtins Util Source Resolve Double Pointer Bytecode Peephole StackDiscipline Schemes SchemeR Compile Arith Typing Flow MacrosTyped SchemesTyped.

#[local] Set Warnings "-clear-no-such-hyp".

Lemma tame_spine_args src allowed files pm n c : args_good src pm n c -> tame src allowed files c = true ->
  Forall (good_arg src allowed files pm n) (spine_strict c).
Proof.
  intros [_ Hg] Ht. destruct (tame_spine _ _ _ _ Ht) as [_ H2]. rewrite Forall_forall in *.
  intros a Ha. split; [by apply Hg | by apply H2].
Qed.

Lemma S_skip_inv src pm n si exprs : forall m rest m',
  Forall (fun a => good src pm n a.1) exprs -> m <= n -> S_skip exprs (Z.of_nat m) pm si = Done (rest, m') ->
  suffix rest exprs /\ exists k, m' = Z.of_nat k /\ k + length rest = m + length exprs /\ k <= n.
Proof.
  induction exprs as [|[a strict] exprs IH]; intros m rest m' Hg Hm H; cbn [S_skip] in H.
  { injection H as <- <-. split; [done|]. exists m. split_and!; done || lia. }
  apply Forall_cons in Hg as [Ha Hg].
  assert (Done ((a, strict) :: exprs, Z.of_nat m) = Done (rest, m') ->
    suffix rest ((a, strict) :: exprs) /\ exists k, m' = Z.of_nat k /\ k + length rest = m + length ((a, strict) :: exprs) /\ k <= n) as Hstop.
  { intros [= <- <-]. split; [done|]. exists m. split_and!; done || lia. }
  destruct a; try by apply Hstop. destruct Ha as (_ & Hs & _). destruct (Hs name eq_refl) as (idx & Hi & Hr).
  rewrite Hi in H. cbn [mbind outcome_bind] in H. destruct (Z.eqb_spec (idx - 1) (Z.of_nat m)) as [Ei|]; [|by apply Hstop].
  apply bind_Done_inv in H as (b & _ & H). destruct b; [by apply Hstop|].
  replace (Z.of_nat m + 1)%Z with (Z.of_nat (S m)) in H by lia.
  destruct (IH (S m) rest m' Hg ltac:(lia) H) as (Hsuf & k & -> & Hlen & Hk). split; [by apply suffix_cons_r|].
  exists k. split_and!; [done | cbn; lia | done].
Qed.

Section R.
Context (src : source) (allowed : nat -> bool) (files : Z) (mkfuel : nat).
Abbreviation su := (surroundings_of src allowed files).
Abbreviation tame := (tame src allowed files).
Abbreviation good_arg := (good_arg src allowed files).
Hypothesis Hall : bodies_tame src allowed files.
Hypothesis Hidx : forall q sc, q ∈ src_scombs src -> src_heap src !! q = Some sc -> src_scombs src !! sc_index sc = Some q.

Section cases.
Context (C E : compilation -> snode -> pmap -> Z -> outcome compilation).
Hypothesis HC : forall c, tame c = true -> typed_at src allowed files C c.
Hypothesis HE : forall c, tame c = true -> typed_at src allowed files E c.

(** ** Arguments in place *)

Lemma S_goes sl exprs comp pm st comp' : ready comp st -> sl_ok su sl -> Forall (good_arg pm (length st)) exprs ->
  S_ C E sl exprs pm (Z.of_nat (length st)) comp = Done comp' ->
  exists st', length st' = length exprs /\ goesto su comp st comp' st'.
Proof using HC HE.
  intros Hr Hsl Ha H. unfold S_ in H. apply bind_Done_inv in H as (si & _ & H). apply bind_Done_inv in H as ([rest m'] & Hs & H).
  apply bind_Done_inv in H as (c1 & H1 & H).
  destruct (S_skip_inv src pm (length st) si exprs 0 rest m') as (Hsuf & m & -> & Hlen & Hm); [|lia|exact Hs|].
  { eapply Forall_impl; [exact Ha|]. by intros a [? _]. }
  destruct (push_args_goes src allowed files C E HC HE rest _ _ _ _ Hr (Forall_suffix _ _ _ Hsuf Ha) H1) as (tys & Hl & Hgo).
  destruct (Z.ltb_spec 0 (Z.of_nat (length st) - Z.of_nat m)) as [Hlt|Hge].
  - destruct (SQUEEZE_goes su sl (Z.of_nat (length rest)) (Z.of_nat (length st) - Z.of_nat m) _ _ _ (gt_ready _ _ _ _ _ Hgo) Hsl ltac:(lia) ltac:(lia) H) as [_ Hgo2].
    eexists. split; [|by eapply goesto_trans]. unfold ztake. rewrite !length_app, length_take, length_drop, length_app. lia.
  - injection H as <-. exists (st ++ tys). split; [rewrite length_app; lia | done].
Qed.

Lemma SQUEEZE_to_1_goes sl comp st ty comp' : ready comp (st ++ [ty]) -> sl_ok su sl ->
  SQUEEZE_to_1 sl (Z.of_nat (length st)) comp = Done comp' -> goesto su comp (st ++ [ty]) comp' [ty].
Proof.
  intros Hr Hsl H. unfold SQUEEZE_to_1 in H. destruct (Z.ltb_spec 0 (Z.of_nat (length st))).
  - exact (SQUEEZE1_goes su sl _ comp [] st ty comp' Hr Hsl eq_refl H).
  - assert (st = []) as -> by (destruct st; [done | cbn in *; lia]). injection H as <-. by apply goesto_refl.
Qed.

(** ** Endings *)

Lemma snoc_of (st : list slot_ty) : 0 < length st -> exists st0 ty, st = st0 ++ [ty].
Proof. intros H. destruct st as [|x st _] using rev_ind; [cbn in H; lia | by eexists _, _]. Qed.

Lemma EVAL_DO_ends sl a comp st comp' : ready comp st -> 0 < length st -> sl_ok su sl ->
  (comp ← EVAL sl 0 comp; DO sl a comp) = Done comp' -> ends su comp st comp'.
Proof.
  intros Hr Hl Hsl H. apply bind_Done_inv in H as (c1 & H1 & H). destruct (snoc_of st Hl) as (st0 & ty & ->).
  destruct (EVAL_goes su _ _ _ _ _ Hr Hsl H1) as [_ Hgo]. rewrite eval_top in Hgo.
  eapply goesto_ends; [exact Hgo|]. eapply final_ends; [apply (gt_ready _ _ _ _ _ Hgo) | done | by right | apply top_val | exact H].
Qed.

Lemma SPARK_EVAL_DO_ends sl comp st comp' : ready comp st -> 0 < length st -> sl_ok su sl ->
  SPARK_EVAL_DO sl comp = Done comp' -> ends su comp st comp'.
Proof.
  intros Hr Hl Hsl H. unfold SPARK_EVAL_DO in H. apply bind_Done_inv in H as (c1 & H1 & H).
  pose proof (SPARK_goes su _ _ _ _ _ Hr Hsl H1) as Hgo. eapply goesto_ends; [exact Hgo|].
  by eapply EVAL_DO_ends; [apply (gt_ready _ _ _ _ _ Hgo) | | | exact H].
Qed.

Lemma RETURN_ends sl comp st st0 c1 comp' : goesto su comp st c1 (st0 ++ [SVal]) -> sl_ok su sl -> RETURN sl c1 = Done comp' ->
  ends su comp st comp'.
Proof.
  intros Hgo Hsl H. eapply goesto_ends; [exact Hgo|].
  eapply final_ends; [apply (gt_ready _ _ _ _ _ Hgo) | done | by left | apply top_val | exact H].
Qed.

(** A value is left alone on the stack, evaluated and entered or returned. *)
Lemma result_DO_ends sl a comp st ty comp' : ready comp (st ++ [ty]) -> sl_ok su sl ->
  (comp ← SQUEEZE_to_1 sl (Z.of_nat (length st)) comp; comp ← EVAL sl 0 comp; DO sl a comp) = Done comp' ->
  ends su comp (st ++ [ty]) comp'.
Proof.
  intros Hr Hsl H. apply bind_Done_inv in H as (c1 & H1 & H). pose proof (SQUEEZE_to_1_goes _ _ _ _ _ Hr Hsl H1) as Hgo.
  eapply goesto_ends; [exact Hgo|]. eapply EVAL_DO_ends; [apply (gt_ready _ _ _ _ _ Hgo) | cbn; lia | done | exact H].
Qed.

(** ** Jumps to functions *)

Lemma have_status_inv fno limit s inv nargs sc todo :
  (Z.of_nat NUM_BUILTINS <= fno)%Z -> function_nargs src fno = Done (Z.of_nat nargs) -> fno_scomb src fno = Done sc ->
  have_status src fno limit (Stackinfo s inv) todo = Done true ->
  forall i x, i ∈ todo -> s !! (length s - 1 - i) = Some x -> (x < limit)%Z -> strict_arg sc i = false.
Proof.
  intros Hf Hn Hs. induction todo as [|j todo IH]; intros H i x Hi Hx Hlt; [by apply not_elem_of_nil in Hi|].
  cbn [have_status] in H. apply bind_Done_inv in H as (y & Hy & H). apply bind_Done_inv in H as (bad & Hb & H).
  destruct bad; [done|]. apply elem_of_cons in Hi as [->|Hi]; [|by eapply IH].
  apply statusat_inv in Hy as [Hr Hy]. unfold si_count in *. cbn [si_status] in *.
  replace (Z.to_nat (Z.of_nat (length s) - 1 - Z.of_nat j)) with (length s - 1 - j) in Hy by lia.
  rewrite Hx in Hy. injection Hy as <-. rewrite (proj2 (Z.ltb_lt _ _) Hlt) in Hb.
  unfold function_strictin in Hb. rewrite Hn in Hb. rewrite (proj2 (Z.ltb_ge fno _)) in Hb by lia. rewrite Hs in Hb.
  outcome_inv. subst. rewrite Nat2Z.id in Hb. unfold strict_arg. by rewrite Hm4, Hb.
Qed.

Lemma strict_stack_sub sc (st : list slot_ty) : length st = sc_nargs sc ->
  (forall i, i < sc_nargs sc -> st !! (sc_nargs sc - 1 - i) = Some SVal \/ strict_arg sc i = false) ->
  sub_st (strict_stack sc) st = true.
Proof.
  intros Hl H. apply sub_st_spec. intros p n Hp. unfold strict_stack in Hp.
  rewrite list_lookup_fmap in Hp. apply fmap_Some in Hp as (q & [-> Hq]%lookup_seq & ->). cbn in *.
  destruct (lookup_lt_is_Some_2 st p) as [ty Hty]; [lia|]. exists ty. split; [done|].
  destruct (H (sc_nargs sc - 1 - p)) as [Hv| ->]; [lia | | by destruct ty].
  replace (sc_nargs sc - 1 - (sc_nargs sc - 1 - p)) with p in Hv by lia. rewrite Hty in Hv. injection Hv as ->.
  by destruct (strict_arg _ _).
Qed.

Lemma any_stack_sub k (st : list slot_ty) : k <= length st -> sub_st (replicate k SAny) st = true.
Proof.
  intros Hl. apply sub_st_spec. intros p n [-> Hp]%lookup_replicate.
  destruct (lookup_lt_is_Some_2 st p) as [ty Hty]; [lia|]. exists ty. split; [done | by destruct ty].
Qed.

Lemma JFUN_ends sl fno comp st sc comp' : ready comp st -> sl_ok su sl -> (Z.of_nat NUM_BUILTINS <= fno)%Z ->
  fno_scomb src fno = Done sc -> function_nargs src fno = Done (Z.of_nat (sc_nargs sc)) ->
  (length st = sc_nargs sc \/ sc_nargs sc = 0) -> JFUN src sl fno comp = Done comp' -> ends su comp st comp'.
Proof.
  intros Hr Hsl Hf Hs Hn Hl H. unfold JFUN in H. pose proof Hr as (s & inv & Hsi & Ha).
  apply bind_Done_inv in H as (si & H0 & H). pose proof (the_si_inv _ _ _ _ Hsi H0) as ->.
  apply bind_Done_inv in H as (vals & Hv & H). pose proof (agree_length _ _ Ha) as Hls.
  assert (forall level, (0 <= level <= 2)%Z -> (level = 2%Z -> vals = true) -> su_enter su fno level st) as Hent.
  { intros level Hlev Hvals. split; [done|]. split; [done|]. exists sc. split; [done|]. unfold entry_stack.
    destruct (Z.eqb_spec level 2) as [E2|]; cbn [andb]; [destruct (negb _)|]; [|apply any_stack_sub; lia..].
    destruct Hl as [Hl|Hl]; [|unfold strict_stack; by rewrite Hl]. apply strict_stack_sub; [done|]. intros i Hi.
    rewrite (Hvals E2) in Hv. unfold have_resvals, have_args in Hv. rewrite Hn in Hv. cbn [mbind outcome_bind] in Hv.
    apply bind_Done_inv in Hv as (u0 & _ & Hv). rewrite Nat2Z.id in Hv.
    destruct (lookup_lt_is_Some_2 s (length s - 1 - i)) as [x Hx]; [lia|].
    destruct (agree_lookup _ _ _ _ Ha Hx) as (ty & Hty & Hval).
    destruct (Z.ltb_spec x STATUS_EVALUATED) as [Hlt|Hge].
    - right. eapply (have_status_inv fno STATUS_EVALUATED s inv (sc_nargs sc)); try done. apply elem_of_seq. lia.
    - left. rewrite <- Hl, <- Hls, Hty. f_equal. by apply Hval. }
  destruct vals; [|apply bind_Done_inv in H as (sparks & _ & H); destruct sparks];
    (eapply add_ends; [done | done | exact H | done | by apply Hent]).
Qed.

(** ** Lists and built-ins *)

Lemma tame_items c : tame c = true -> Forall (fun x => tame x = true) ((cons_items c).2 :: (cons_items c).1).
Proof.
  assert (forall c, tame c = true -> Forall (fun x => tame x = true) [c]) as Hone by (intros; by apply Forall_singleton).
  induction c as [sl st l IHl r IHr| | | | | | | |]; intros Ht; try by apply Hone.
  cbn [cons_items]. destruct l as [sl2 st2 [| |sl3 bif| | | | | |] x| | | | | | | |]; try by apply Hone.
  destruct (_ || _); [|by apply Hone].
  destruct (tame_app _ _ _ _ _ _ _ Ht) as [Hl Hr]. destruct (tame_app _ _ _ _ _ _ _ Hl) as [_ Hx].
  specialize (IHr Hr). destruct (cons_items r) as [xs last]. cbn [fst snd] in *.
  apply Forall_cons in IHr as [H1 H2]. by repeat constructor.
Qed.

Lemma Ccons_goes c comp pm st comp' : ready comp st -> iscons c = true -> tame c = true ->
  Forall (good_arg pm (length st)) (spine_strict c) ->
  Ccons C E c pm (Z.of_nat (length st)) comp = Done comp' -> goesto su comp st comp' [SVal].
Proof using HC HE.
  intros Hr Hc Ht Ha H. unfold Ccons in H. pose proof (tame_items _ Ht) as Hti.
  destruct (iscons_items src pm (length st) c Hc) as [Hg _]; [eapply Forall_impl; [exact Ha|]; by intros a [? _]|].
  assert (length (cons_items c).1 >= 1) as Hne.
  { destruct c as [? ? [? ? [] ?| | | | | | | |] r| | | | | | | |]; try done. cbn [iscons] in Hc. cbn [cons_items].
    rewrite Hc. destruct (cons_items r). cbn. lia. }
  destruct (cons_items c) as [items tl]. cbn [fst snd] in *. apply bind_Done_inv in H as (c1 & H1 & H).
  set (exprs := map (fun x => (x, false)) (tl :: rev items)) in *.
  destruct (S_goes (node_sl c) exprs comp pm st c1 Hr (tame_sl _ _ _ _ Ht)) as (st' & Hl & Hgo); [|exact H1|].
  { apply Forall_forall. intros a (x & -> & Hx)%elem_of_map. rewrite elem_of_cons, elem_of_rev in Hx.
    rewrite Forall_forall in Hg, Hti. split; cbn; [apply Hg | apply Hti]; rewrite elem_of_cons; tauto. }
  eapply goesto_trans; [exact Hgo|].
  assert (2 <= Z.of_nat (length exprs))%Z as H2 by (unfold exprs; rewrite length_map; cbn; rewrite length_rev; lia).
  destruct (CONSN_goes su _ _ _ _ _ (gt_ready _ _ _ _ _ Hgo) (tame_sl _ _ _ _ Ht) H2 H) as [_ Hgo2].
  rewrite (replace_top_app _ SVal [] st') in Hgo2 by lia. exact Hgo2.
Qed.

Lemma R_builtin_ends sl bif b args comp pm st comp' : ready comp st -> sl_ok su sl -> allowed bif = true ->
  builtin_info !! bif = Some b -> length args = bi_nargs b -> Forall (good_arg pm (length st)) args ->
  R_builtin src mkfuel C E sl bif args pm (Z.of_nat (length st)) comp = Done comp' -> ends su comp st comp'.
Proof using HC HE Hall.
  intros Hr Hsl Hal Hb Hn Ha H. unfold R_builtin, S2 in H. rewrite Hb in H. cbn [deref mbind outcome_bind] in H.
  apply bind_Done_inv in H as (c1 & H1 & H). apply bind_Done_inv in H as (si & _ & H).
  apply bind_Done_inv in H as (u0 & _ & H). apply bind_Done_inv in H as (u1 & _ & H). apply bind_Done_inv in H as (c2 & H2 & H).
  destruct (push_args_goes src allowed files C E HC HE args _ _ _ _ Hr Ha H1) as (tys & Hl & Hgo).
  pose proof (gt_ready _ _ _ _ _ Hgo) as Hr1.
  assert (exists ty, goesto su c1 (st ++ tys) c2 (st ++ [ty]) /\ (bi_reswhnf b = true -> ty = SVal)) as (ty & Hgo2 & Hty).
  { destruct (bi_pure b).
    - destruct (BIF_goes su sl bif b c1 _ c2 Hr1 Hsl Hal Hb H2) as [_ Hgo2]. rewrite replace_top_app in Hgo2 by lia.
      eexists. split; [exact Hgo2|]. by intros ->.
    - apply bind_Done_inv in H2 as (c3 & H3 & H2). destruct (fno_builtin src sl bif b Hb) as (_ & F2 & F3).
      assert (su_callee su (Z.of_nat bif) (Z.of_nat (length tys))) as Hc.
      { split; [rewrite F2; do 2 f_equal; lia|]. intros _. by rewrite Nat2Z.id. }
      replace (Z.of_nat (bi_nargs b)) with (Z.of_nat (length tys)) in H3 by lia.
      destruct (MKFRAME_call src allowed files mkfuel Hall _ _ _ _ _ _ Hr1 Hsl Hc H3) as [ty Hgo3].
      destruct (EVAL_goes su _ _ _ _ _ (gt_ready _ _ _ _ _ Hgo3) Hsl H2) as [_ Hgo4]. rewrite eval_top in Hgo4.
      exists SVal. split; [by eapply goesto_trans | done]. }
  eapply goesto_ends; [by eapply goesto_trans|]. pose proof (gt_ready _ _ _ _ _ Hgo2) as Hr2.
  apply bind_Done_inv in H as (c3 & H3 & H). apply bind_Done_inv in H as (si' & _ & H). apply bind_Done_inv in H as (u2 & _ & H).
  destruct (bi_reswhnf b).
  - rewrite (Hty eq_refl) in *. eapply (RETURN_ends sl c2 _ []); [|exact Hsl | exact H]. exact (SQUEEZE_to_1_goes _ _ _ _ _ Hr2 Hsl H3).
  - eapply result_DO_ends; [done | done|]. rewrite H3. exact H.
Qed.

(** ** Conditionals and sequences *)

Section branches.
Context (R : compilation -> snode -> pmap -> Z -> outcome compilation).

Definition R_typed_at (pm : pmap) (n : nat) (c : snode) : Prop :=
  forall comp st comp', length st = n -> ready comp st -> R comp c pm (Z.of_nat n) = Done comp' -> ends su comp st comp'.

Lemma R_if_branches_ends (pop : bool) sl comp st0 st comp0 label x1 x2 pm comp' :
  forks su comp st0 comp0 label (if pop then st ++ [SVal] else st) -> sl_ok su sl ->
  R_typed_at pm (length st) x1 -> R_typed_at pm (length st) x2 ->
  (c ← branch comp0;
   c ← (if pop then add_instruction c sl OP_POP 1 0 else Done c);
   c ← R c x1 pm (Z.of_nat (length st));
   let c := LABEL label (unbranch comp0 c) in
   c ← branch c;
   c ← (if pop then add_instruction c sl OP_POP 1 0 else Done c);
   c ← R c x2 pm (Z.of_nat (length st));
   Done (unbranch comp0 c)) = Done comp' ->
  ends su comp st0 comp'.
Proof.
  intros HF Hsl T1 T2 H.
  apply bind_Done_inv in H as (b1 & Hb1 & H). apply bind_Done_inv in H as (b2 & Hb2 & H).
  apply bind_Done_inv in H as (b3 & Hb3 & H). apply bind_Done_inv in H as (d1 & Hd1 & H).
  apply bind_Done_inv in H as (d2 & Hd2 & H). apply bind_Done_inv in H as (d3 & Hd3 & H). injection H as <-.
  assert (ready comp0 (if pop then st ++ [SVal] else st)) as Hr0 by (destruct HF as (c & j & st1 & HF); apply HF).
  pose proof (branch_goes src allowed files pop sl _ _ _ st _ Hr0 Hsl eq_refl Hb1 Hb2) as B1.
  pose proof (T1 _ _ _ eq_refl (gt_ready _ _ _ _ _ B1) Hb3) as P1.
  pose proof (branch_goes src allowed files pop sl (LABEL label (unbranch comp0 b3)) _ _ st _ Hr0 Hsl eq_refl Hd1 Hd2) as B2.
  pose proof (T2 _ _ _ eq_refl (gt_ready _ _ _ _ _ B2) Hd3) as P2.
  exact (forks_ends su comp st0 comp0 label _ b1 b3 d1 d3 HF Hb1 (goesto_ends _ _ _ _ _ _ B1 P1) Hd1 (goesto_ends _ _ _ _ _ _ B2 P2)).
Qed.

Lemma R_if_ends comp cond t f pm st comp' : ready comp st -> sl_ok su (node_sl cond) ->
  (forall x, x = cond \/ (exists num, eq_literal cond = Some (x, num)) -> good_arg pm (length st) (x, true)) ->
  R_typed_at pm (length st) t -> R_typed_at pm (length st) f ->
  R_if E R cond t f pm (Z.of_nat (length st)) comp = Done comp' -> ends su comp st comp'.
Proof using HE.
  intros Hr Hsl Hsub Tt Tf H. unfold R_if in H. destruct (eq_literal cond) as [[x num]|] eqn:Eq.
  - destruct (Hsub x ltac:(eauto)) as [Gx Tx]. apply bind_Done_inv in H as (c1 & H1 & H). apply bind_Done_inv in H as (v & Hv & H).
    destruct (HE x Tx _ _ _ _ Hr Gx H1) as [ty Hgo]. eapply goesto_ends; [exact Hgo|].
    apply bind_Done_inv in H as ([c0 label] & Hj & H).
    pose proof (JEQ_forks su _ _ _ _ _ _ _ (gt_ready _ _ _ _ _ Hgo) Hsl Hj) as HF.
    exact (R_if_branches_ends true _ _ _ _ _ _ f t pm comp' HF Hsl Tf Tt H).
  - destruct (Hsub cond ltac:(auto)) as [Gx Tx]. apply bind_Done_inv in H as (c1 & H1 & H).
    destruct (HE cond Tx _ _ _ _ Hr Gx H1) as [ty Hgo]. eapply goesto_ends; [exact Hgo|].
    apply bind_Done_inv in H as ([c0 label] & Hj & H).
    pose proof (JFALSE_forks su _ _ _ _ _ _ (gt_ready _ _ _ _ _ Hgo) Hsl Hj) as HF.
    exact (R_if_branches_ends false _ _ _ _ _ _ t f pm comp' HF Hsl Tt Tf H).
Qed.

Lemma R_seq_ends e1 e2 comp pm st comp' : ready comp st -> good_arg pm (length st) (e1, true) -> R_typed_at pm (length st) e2 ->
  R_seq E R e1 e2 pm (Z.of_nat (length st)) comp = Done comp' -> ends su comp st comp'.
Proof using HE.
  intros Hr [G1 T1] T2 H. unfold R_seq in H. cbn [fst] in *.
  apply bind_Done_inv in H as (c1 & H1 & H). apply bind_Done_inv in H as (c2 & H2 & H). apply bind_Done_inv in H as (c3 & H3 & H).
  destruct (HE e1 T1 _ _ _ _ Hr G1 H1) as [t1 Hg1].
  destruct (EVAL_goes su _ _ _ _ _ (gt_ready _ _ _ _ _ Hg1) (tame_sl _ _ _ _ T1) H2) as [_ Hg2]. rewrite eval_top in Hg2.
  pose proof (POP_goes su _ _ _ _ _ (gt_ready _ _ _ _ _ Hg2) (tame_sl _ _ _ _ T1) H3) as Hg3.
  eapply goesto_ends; [exact Hg1|]. eapply goesto_ends; [exact Hg2|]. eapply goesto_ends; [exact Hg3|].
  eapply T2; [done | apply (gt_ready _ _ _ _ _ Hg3) | exact H].
Qed.

(** ** Calls *)

Lemma scref_arity sl p fno sc : p ∈ src_scombs src -> src_heap src !! p = Some sc -> snode_fno src (SNODE_SCREF sl p) = Done fno ->
  (Z.of_nat NUM_BUILTINS <= fno)%Z /\ fno_scomb src fno = Done sc /\ function_nargs src fno = Done (Z.of_nat (sc_nargs sc)).
Proof using Hidx.
  intros Hp Hs Hf. cbn [snode_fno] in Hf. unfold getsc in Hf. rewrite Hs in Hf. cbn [deref mbind outcome_bind] in Hf.
  assert (fno = Z.of_nat (sc_index sc + NUM_BUILTINS)) as -> by congruence.
  pose proof (fno_scomb_index src Hidx p sc Hp Hs) as Hi. split; [lia|]. split; [done|].
  unfold function_nargs. rewrite (proj2 (Z.leb_le _ _)), (proj2 (Z.ltb_ge _ _)) by lia. cbn [cassert mbind outcome_bind].
  rewrite Hi. done.
Qed.

Lemma R_scref_ends c sl p fno k pm comp st comp' : spine_head c = SNODE_SCREF sl p -> fun_ok src (SNODE_SCREF sl p) 0 ->
  snode_fno src (spine_head c) = Done fno -> function_nargs src fno = Done k -> Z.of_nat (count_args c) = k ->
  args_good src pm (length st) c -> tame c = true -> ready comp st ->
  R_saturated src mkfuel C E R c fno k pm (Z.of_nat (length st)) comp = Done comp' -> ends su comp st comp'.
Proof using HC HE Hidx.
  intros Eh (Hp & sc & Hs & _) Hfno Hk Hn Hargs Ht Hr H. destruct (tame_spine _ _ _ _ Ht) as [Hth _].
  pose proof (tame_sl _ _ _ _ Hth) as Hsl. rewrite Eh in *.
  destruct (scref_arity _ _ _ _ Hp Hs Hfno) as (F1 & F2 & F3). rewrite F3 in Hk. injection Hk as Hk.
  unfold R_saturated in H. rewrite Eh in H. pose proof (tame_spine_args _ _ _ _ _ _ Hargs Ht) as Ha.
  apply bind_Done_inv in H as (item & Hi & H). destruct item as [[num l]|].
  - apply bind_Done_inv in H as (v & Hv & H). apply bind_Done_inv in H as (c1 & H1 & H). apply bind_Done_inv in H as (c2 & H2 & H).
    assert (count_args c = 2 /\ exists sl1 st1 h, c = SNODE_APPLICATION sl1 st1 h l) as [H0 (sl1 & st1 & h & ->)].
    { split; [|by eapply item_literal_parts]. destruct c as [? ? [? ? [] []| | | | | | | |] ?| | | | | | | |]; by done. }
    pose proof (item_literal_item src allowed files Hidx _ _ _ _ fno Hi Hv Ht) as Hit. rewrite Eh in Hit.
    destruct Hit as [Hvr Hitem]; [by split; [|exists sc; split; [|lia]] | done | rewrite F3; do 2 f_equal; lia |].
    cbn [spine_strict] in Ha. apply Forall_cons in Ha as [[Gl Tl] _]. cbn [fst] in *.
    destruct (HE l Tl _ _ _ _ Hr Gl H1) as [ty Hgo].
    destruct (ITEMN_goes su _ _ _ _ _ _ (gt_ready _ _ _ _ _ Hgo) Hsl Hvr Hitem H2) as [_ Hgo2].
    rewrite (replace_top_app 1 SAny st [ty]) in Hgo2 by done.
    eapply goesto_ends; [exact Hgo|]. eapply goesto_ends; [exact Hgo2|].
    eapply result_DO_ends; [apply (gt_ready _ _ _ _ _ Hgo2) | exact Hsl | exact H].
  - apply bind_Done_inv in H as (c1 & H1 & H).
    destruct (S_goes _ _ _ _ _ _ Hr Hsl Ha H1) as (st' & Hl & Hgo). rewrite spine_strict_length in Hl.
    eapply goesto_ends; [exact Hgo|]. eapply JFUN_ends; [apply (gt_ready _ _ _ _ _ Hgo) | exact Hsl | exact F1 | exact F2 | exact F3 | left; lia | exact H].
Qed.

Lemma R_cons_ends c comp pm st comp' : ready comp st -> args_good src pm (length st) c -> tame c = true ->
  (iscons c && match c with SNODE_APPLICATION _ _ _ r => iscons r | _ => false end) = true ->
  R_application src mkfuel C E R c pm (Z.of_nat (length st)) comp = Done comp' -> ends su comp st comp'.
Proof using HC HE.
  intros Hr Hargs Ht Hc H. unfold R_application in H. rewrite Hc in H. apply andb_true_iff in Hc as [Hc _].
  apply bind_Done_inv in H as (c1 & H1 & H).
  pose proof (Ccons_goes c comp pm st c1 Hr Hc Ht (tame_spine_args _ _ _ _ _ _ Hargs Ht) H1) as Hgo.
  eapply (RETURN_ends _ _ _ []); [exact Hgo | by apply (tame_sl src allowed) | exact H].
Qed.

Lemma R_variable_ends c sl x comp pm st comp' : ready comp st -> args_good src pm (length st) c -> tame c = true ->
  spine_head c = SNODE_SYMBOL sl x -> good src pm (length st) (SNODE_SYMBOL sl x) ->
  R_application src mkfuel C E R c pm (Z.of_nat (length st)) comp = Done comp' -> ends su comp st comp'.
Proof using HC HE.
  intros Hr Hargs Ht Eh Gx H. unfold R_application in H.
  destruct (iscons c) eqn:Ec; [by destruct (iscons_head c Ec) as (? & ? & ?); congruence|]. cbn [andb] in H.
  destruct (tame_spine _ _ _ _ Ht) as [Hth _]. pose proof (tame_sl _ _ _ _ Hth) as Hsl. rewrite Eh in *.
  apply bind_Done_inv in H as (c1 & H1 & H).
  assert (Forall (good_arg pm (length st)) (spine_strict c ++ [(SNODE_SYMBOL sl x, false)])) as Hga.
  { apply Forall_app. split; [by apply tame_spine_args|]. apply Forall_singleton. by split. }
  destruct (S_goes _ _ _ _ _ _ Hr Hsl Hga H1) as (st' & Hl & Hgo).
  eapply goesto_ends; [exact Hgo|]. eapply SPARK_EVAL_DO_ends; [apply (gt_ready _ _ _ _ _ Hgo) | | exact Hsl | exact H].
  rewrite Hl, length_app. cbn. lia.
Qed.

(** A call of a function: too many, enough or too few arguments. *)
Lemma R_call_ends c comp pm st comp' : ready comp st -> args_good src pm (length st) c -> tame c = true ->
  is_function (spine_head c) = true ->
  (iscons c && match c with SNODE_APPLICATION _ _ _ r => iscons r | _ => false end) = false ->
  (forall fno k c1, snode_fno src (spine_head c) = Done fno -> function_nargs src fno = Done k -> Z.of_nat (count_args c) = k ->
    R_saturated src mkfuel C E R c fno k pm (Z.of_nat (length st)) comp = Done c1 -> ends su comp st c1) ->
  R_application src mkfuel C E R c pm (Z.of_nat (length st)) comp = Done comp' -> ends su comp st comp'.
Proof using HC HE Hall.
  intros Hr Hargs Ht Hf Hc Hsat H. unfold R_application in H. rewrite Hc in H.
  destruct (tame_spine _ _ _ _ Ht) as [Hth _]. pose proof (tame_sl _ _ _ _ Hth) as Hsl. set (sl := node_sl (spine_head c)) in *.
  pose proof (tame_spine_args _ _ _ _ _ _ Hargs Ht) as Ha.
  assert ((fno ← snode_fno src (spine_head c); k ← function_nargs src fno;
    if (k <? Z.of_nat (count_args c))%Z then
      comp ← S_ C E sl (spine_strict c) pm (Z.of_nat (length st)) comp;
      comp ← domkframe mkfuel src sl fno k comp; SPARK_EVAL_DO sl comp
    else if (Z.of_nat (count_args c) =? k)%Z
    then R_saturated src mkfuel C E R c fno k pm (Z.of_nat (length st)) comp
    else comp ← push_args_C C (spine_strict c) pm (Z.of_nat (length st)) comp;
      comp ← MKCAP sl fno (Z.of_nat (count_args c)) comp; RETURN sl comp) = Done comp') as H'
    by (destruct (spine_head c); try done; exact H).
  clear H. apply bind_Done_inv in H' as (fno & Hfno & H). apply bind_Done_inv in H as (k & Hk & H).
  pose proof (tame_callee src allowed files _ _ _ Hth Hf Hfno Hk) as Hcal. pose proof (callee_nonneg _ _ _ _ _ Hcal) as Hk0.
  destruct (Z.ltb_spec k (Z.of_nat (count_args c))).
  - apply bind_Done_inv in H as (c1 & H1 & H). apply bind_Done_inv in H as (c2 & H2 & H).
    destruct (S_goes _ _ _ _ _ _ Hr Hsl Ha H1) as (st' & Hl & Hgo). rewrite spine_strict_length in Hl.
    destruct (domkframe_goes src allowed files Hall _ _ _ _ _ _ _ (gt_ready _ _ _ _ _ Hgo) Hsl Hcal H2) as (Hn & ty & Hgo2).
    eapply goesto_ends; [exact Hgo|]. eapply goesto_ends; [exact Hgo2|].
    eapply SPARK_EVAL_DO_ends; [apply (gt_ready _ _ _ _ _ Hgo2) | | exact Hsl | exact H].
    unfold replace_top. rewrite length_app. cbn. lia.
  - destruct (Z.eqb_spec (Z.of_nat (count_args c)) k) as [Ek|Hne]; [by eapply Hsat|].
    apply bind_Done_inv in H as (c1 & H1 & H). apply bind_Done_inv in H as (c2 & H2 & H).
    destruct (push_args_C_goes src allowed files C HC (spine_strict c) _ _ _ _ Hr Ha H1) as (tys & Hl & Hgo).
    rewrite spine_strict_length in Hl. rewrite <- Hl in *.
    pose proof (MKCAP_call src allowed files _ _ _ _ _ _ _ (gt_ready _ _ _ _ _ Hgo) Hsl Hcal ltac:(lia) H2) as Hgo2.
    eapply RETURN_ends; [by eapply goesto_trans | exact Hsl | exact H].
Qed.
End branches.
End cases.

(** ** [R] *)

Lemma R_leaf_ends fuel c comp pm st comp' : ready comp st -> count_args c = 0 -> (forall sl bs b, c <> SNODE_LETREC sl bs b) ->
  good src pm (length st) c -> tame c = true ->
  R (S fuel) mkfuel src comp c pm (Z.of_nat (length st)) = Done comp' -> ends su comp st comp'.
Proof using Hall Hidx.
  intros Hr Hc Hnl Hg Ht H. pose proof (tame_sl _ _ _ _ Ht) as Hsl.
  pose proof (proj1 (typed_all src allowed files mkfuel Hall Hidx fuel c Ht)) as HC.
  assert (forall sl, sl_ok su sl -> (c1 ← C fuel mkfuel src comp c pm (Z.of_nat (length st)); RETURN sl c1) = Done comp' ->
    match c with SNODE_NIL _ | SNODE_NUMBER _ _ | SNODE_STRING _ _ => True | _ => False end -> ends su comp st comp') as Hlit.
  { intros sl Hs H' Hl. apply bind_Done_inv in H' as (c1 & H1 & H'). eapply RETURN_ends; [|exact Hs | exact H'].
    destruct fuel as [|fuel]; [done|]. destruct c as [| | | | | |sl1|sl1 num|sl1 str]; try done; cbn [Bytecode.C] in H1; cbn [node_sl] in Hsl.
    - eapply push_value_goes; [done | exact Hsl | by left | exact H1].
    - eapply push_value_goes; [done | exact Hsl | | exact H1]. right; left. split; [done|].
      cbn in Ht. apply andb_true_iff in Ht as [_ Ht]. by apply negb_true_iff in Ht.
    - eapply push_literal_string; [done | exact Hsl | exact H1]. }
  destruct c as [sl s l r|sl n b|sl bif|sl x|sl bs b|sl p|sl|sl num|sl str]; try done; cbn [R node_sl] in *; try (by eapply Hlit);
    try (by destruct (Hnl sl bs b)).
  - apply bind_Done_inv in H as (fno & Hf & H). apply bind_Done_inv in H as (k & Hk & H).
    pose proof (tame_callee src allowed files _ _ _ Ht eq_refl Hf Hk) as Hcal. pose proof (callee_nonneg _ _ _ _ _ Hcal) as Hk0.
    destruct (proj1 Hg) as (b & Hb & _). destruct (fno_builtin src sl bif b Hb) as (F1 & F2 & _).
    rewrite F1 in Hf. injection Hf as <-. rewrite F2 in Hk. injection Hk as Hk. pose proof (builtin_nargs_pos _ _ Hb).
    rewrite (proj2 (Z.eqb_neq _ _)) in H by lia. apply bind_Done_inv in H as (c1 & H1 & H).
    destruct (MKCAP_goes su _ _ 0 k _ _ _ Hr Hsl Hcal ltac:(lia) H1) as [_ Hgo]. rewrite replace_top_0 in Hgo.
    by eapply RETURN_ends.
  - apply bind_Done_inv in H as (c1 & H1 & H). apply bind_Done_inv in H as (c2 & H2 & H). apply bind_Done_inv in H as (c3 & H3 & H).
    destruct (HC _ _ _ _ Hr Hg H1) as [ty Hgo].
    pose proof (SQUEEZE1_goes su sl _ c1 [] st ty c2 (gt_ready _ _ _ _ _ Hgo) Hsl eq_refl H2) as Hgo2.
    destruct (EVAL_goes su _ _ _ _ _ (gt_ready _ _ _ _ _ Hgo2) Hsl H3) as [_ Hgo3]. rewrite eval_top in Hgo3.
    eapply RETURN_ends; [|exact Hsl | exact H]. eapply goesto_trans; [exact Hgo|]. by eapply goesto_trans.
  - apply bind_Done_inv in H as (fno & Hf & H). apply bind_Done_inv in H as (k & Hk & H).
    pose proof (tame_callee src allowed files _ _ _ Ht eq_refl Hf Hk) as Hcal. pose proof (callee_nonneg _ _ _ _ _ Hcal) as Hk0.
    destruct (proj1 Hg) as (Hp & sc & Hs & _). destruct (scref_arity _ _ _ _ Hp Hs Hf) as (F1 & F2 & F3).
    rewrite F3 in Hk. injection Hk as Hk. destruct (Z.eqb_spec k 0).
    + eapply JFUN_ends; [done | exact Hsl | exact F1 | exact F2 | exact F3 | right; lia | exact H].
    + apply bind_Done_inv in H as (c1 & H1 & H).
      destruct (MKCAP_goes su _ _ 0 k _ _ _ Hr Hsl Hcal ltac:(lia) H1) as [_ Hgo]. rewrite replace_top_0 in Hgo.
      by eapply RETURN_ends.
Qed.

Lemma R_ends pm n c : rbody src pm n c -> forall fuel comp st comp', length st = n -> tame c = true -> ready comp st ->
  R fuel mkfuel src comp c pm (Z.of_nat n) = Done comp' -> ends su comp st comp'.
Proof using Hall Hidx.
  induction 1 as [pm n sl1 st1 sl2 st2 sl3 st3 sl4 cond t f Gc _ IHt _ IHf|pm n sl1 st1 sl2 st2 sl3 e1 e2 G1 _ IH2
    |pm n c sl bif b Ha Eh Hb Hn Hif Hseq Hst|pm n c Ha Hfun Hnb Hlit|pm n c sl x Ha Eh Gx|pm n c Hc Hnl Hg
    |pm n sl bs b Gv Hnd Hfr Hout _ IHb]; intros fuel comp st comp' <- Ht Hr H;
    (destruct fuel as [|fuel]; [done|]);
    assert (HC : forall c, tame c = true -> typed_at src allowed files (C fuel mkfuel src) c) by (intros c' Hc'; by apply typed_all);
    assert (HE : forall c, tame c = true -> typed_at src allowed files (E fuel mkfuel src) c) by (intros c' Hc'; by apply typed_all).
  - destruct (tame_app _ _ _ _ _ _ _ Ht) as [Ht1 Tf]. destruct (tame_app _ _ _ _ _ _ _ Ht1) as [Ht2 Tt].
    destruct (tame_app _ _ _ _ _ _ _ Ht2) as [Tb Tc].
    cbn [R] in H. unfold R_application in H. cbn [iscons andb spine_head snode_fno mbind outcome_bind] in H.
    change (function_nargs src (Z.of_nat B_IF)) with (@Done Z 3%Z) in H. cbn [mbind outcome_bind count_args] in H.
    cbn [Z.ltb Z.eqb Z.compare Pos.compare Pos.compare_cont Z.of_nat Pos.of_succ_nat Pos.succ Pos.eqb] in H.
    unfold R_saturated in H. cbn [spine_head as_if] in H. rewrite Nat.eqb_refl in H.
    refine (R_if_ends (E fuel mkfuel src) HE (R fuel mkfuel src) comp cond t f pm st comp' Hr (tame_sl _ _ _ _ Tc) _ _ _ H).
    + intros x [-> |(num & (? & ? & ? & ? & ? & ? & ->)%eq_literal_parts)]; [by split|].
      apply good_app in Gc as [Gc _]. apply good_app in Gc as [_ Gx]. apply tame_app in Tc as [Tc _]. apply tame_app in Tc as [_ Tx].
      by split.
    + intros c1 s1 c1' Hl1 H1 H2. by eapply IHt.
    + intros c1 s1 c1' Hl1 H1 H2. by eapply IHf.
  - destruct (tame_app _ _ _ _ _ _ _ Ht) as [Ht1 T2]. destruct (tame_app _ _ _ _ _ _ _ Ht1) as [_ T1].
    cbn [R] in H. unfold R_application in H. cbn [iscons andb spine_head snode_fno mbind outcome_bind] in H.
    change (function_nargs src (Z.of_nat B_SEQ)) with (@Done Z 2%Z) in H. cbn [mbind outcome_bind count_args] in H.
    cbn [Z.ltb Z.eqb Z.compare Pos.compare Pos.compare_cont Z.of_nat Pos.of_succ_nat Pos.succ Pos.eqb] in H.
    unfold R_saturated in H. cbn [spine_head as_if as_seq] in H. rewrite Nat.eqb_refl in H.
    refine (R_seq_ends (E fuel mkfuel src) HE (R fuel mkfuel src) e1 e2 comp pm st comp' Hr _ _ H); [by split|].
    intros c1 s1 c1' Hl1 H1 H2. by eapply IH2.
  - destruct c as [sl0 s0 l0 r0| | | | | | | |]; try (destruct Ha; cbn in *; lia). cbn [R] in H.
    set (c := SNODE_APPLICATION sl0 s0 l0 r0) in *.
    destruct (iscons c && iscons r0) eqn:Ec; [by eapply (R_cons_ends (C fuel mkfuel src) (E fuel mkfuel src) HC HE)|].
    eapply (R_call_ends (C fuel mkfuel src) (E fuel mkfuel src) HC HE); [done | exact Ha | done | by rewrite Eh | exact Ec | | exact H].
    intros fno k c1 Hfno Hk Hnk H1. unfold R_saturated in H1. rewrite Eh, Hif, Hseq in H1.
    destruct (tame_spine _ _ _ _ Ht) as [Hth _]. rewrite Eh in Hth.
    eapply (R_builtin_ends (C fuel mkfuel src) (E fuel mkfuel src) HC HE); [done | by apply (tame_sl _ _ _ _ Hth) | | exact Hb | | | exact H1].
    + cbn in Hth. by apply andb_true_iff in Hth as [_ ?].
    + by rewrite spine_strict_length.
    + by apply tame_spine_args.
  - destruct c as [sl0 s0 l0 r0| | | | | | | |]; try (destruct Ha; cbn in *; lia). cbn [R] in H.
    set (c := SNODE_APPLICATION sl0 s0 l0 r0) in *.
    destruct (iscons c && iscons r0) eqn:Ec; [by eapply (R_cons_ends (C fuel mkfuel src) (E fuel mkfuel src) HC HE)|].
    assert (is_function (spine_head c) = true) as Hf by (by destruct (spine_head c)).
    eapply (R_call_ends (C fuel mkfuel src) (E fuel mkfuel src) HC HE); [done | exact Ha | done | exact Hf | exact Ec | | exact H].
    intros fno k c1 Hfno Hk Hnk H1. destruct (spine_head c) as [| |sl bif| | |sl p| | |] eqn:Eh; try done.
    + exfalso. destruct Hfun as (b & Hb & _). apply (Hnb _ _ _ eq_refl Hb).
      destruct (fno_builtin src sl bif b Hb) as (F1 & F2 & _). rewrite F1 in Hfno. injection Hfno as <-.
      rewrite F2 in Hk. injection Hk as <-. lia.
    + eapply (R_scref_ends (C fuel mkfuel src) (E fuel mkfuel src) HC HE); [exact Eh | exact Hfun | by rewrite Eh | exact Hk | done | exact Ha | done | done | exact H1].
  - destruct c as [sl0 s0 l0 r0| | | | | | | |]; try (destruct Ha; cbn in *; lia). cbn [R] in H.
    by eapply (R_variable_ends (C fuel mkfuel src) (E fuel mkfuel src) HC HE).
  - by eapply R_leaf_ends.
  - cbn [R] in H. apply bind_Done_inv in H as (c1 & H1 & H). apply tame_letrec in Ht as [Hts Htb].
    destruct (Cletrec_goes src allowed files _ _ HC HE pm st bs true Gv Hts Hnd Hfr Hout comp c1 Hr H1) as (tys & Hl & Hgo).
    eapply goesto_ends; [exact Hgo|]. rewrite <- Nat2Z.inj_add in H.
    eapply IHb; [|exact Htb | apply (gt_ready _ _ _ _ _ Hgo) | exact H]. rewrite length_app. lia.
Qed.
End R.
