(* ===== verification/Tidy.v ===== *)
(** * The code the schemes emit is tidy

    The peephole rules look at a few neighbouring instructions. On any code
    they would not all be right: a POP in front of a RETURN, a jump to the
    second of two instructions that become one. The schemes of bytecode.c never
    emit such code, whatever they are run on. *)

From S2P Require Import Prelude CString Builtins Util Source Resolve Double Bytecode Peephole StackDiscipline SchemeR Compile Emits.

#[local] Set Warnings "-clear-no-such-hyp".

(** ** Windows

    [rp] are the instructions before one, the nearest first; [lab]: it is the
    target of a jump. *)

Definition top_op (rp : list instruction) : option opcode := i_opcode <$> head rp.

Definition pop_after_jeq (rp : list instruction) : Prop := top_op rp = Some OP_POP /\ top_op (tail rp) = Some OP_JEQ.
Definition push_pop_jeq (rp : list instruction) : Prop := top_op rp = Some OP_PUSH /\ pop_after_jeq (tail rp).

(** The last instruction before a label. *)
Definition good_last (rp : list instruction) : Prop :=
  rp <> [] /\ top_op rp <> Some OP_POP /\ top_op rp <> Some OP_JEQ /\ ~ push_pop_jeq rp.

Definition allowed_at (rp : list instruction) (lab : Prop) (i : instruction) : Prop :=
  match i_opcode i with
  | OP_RETURN =>
      top_op rp <> Some OP_POP /\
      (top_op rp = Some OP_SQUEEZE ->
        ~ lab /\ (forall s, head rp = Some s -> 1 <= i_arg0 s)%Z /\
        top_op (tail rp) <> Some OP_SQUEEZE /\ top_op (tail rp) <> Some OP_POP)
  | OP_JFALSE => top_op rp <> Some OP_POP /\ (lab -> top_op rp <> Some OP_BIF)
  | OP_POP => lab -> top_op rp <> Some OP_JEQ
  | OP_PUSH => lab -> top_op rp <> Some OP_POP
  | OP_EVAL => lab -> ~ push_pop_jeq rp
  | _ => True
  end.

Fixpoint tidy (rp : list instruction) (tg : nat -> Prop) (l : list instruction) : Prop :=
  match l with
  | [] => True
  | i :: l => allowed_at rp (tg 0) i /\ tidy (i :: rp) (fun k => tg (S k)) l
  end.

Lemma allowed_mono rp (lab lab' : Prop) i : (lab' -> lab) -> allowed_at rp lab i -> allowed_at rp lab' i.
Proof. intros H. unfold allowed_at. destruct (i_opcode i); try tauto. Qed.

Lemma tidy_mono l : forall rp (tg tg' : nat -> Prop), (forall k, k < length l -> tg' k -> tg k) -> tidy rp tg l -> tidy rp tg' l.
Proof.
  induction l as [|i l IH]; intros rp tg tg' H Ht; [done|]. destruct Ht as [H1 H2]. split.
  - eapply allowed_mono; [|exact H1]. apply H. cbn. lia.
  - eapply IH; [|exact H2]. intros k Hk. apply H. cbn. lia.
Qed.

Lemma tidy_app l1 l2 : forall rp tg, tidy rp tg (l1 ++ l2) <-> tidy rp tg l1 /\ tidy (rev l1 ++ rp) (fun k => tg (length l1 + k)) l2.
Proof.
  induction l1 as [|i l1 IH]; intros rp tg; cbn; [tauto|]. rewrite IH. rewrite <- app_assoc. cbn. tauto.
Qed.

(** ** Pieces of code *)

(** Position [k] is the target of a jump of [l]. *)
Definition hits (l : list instruction) (k : nat) : Prop :=
  exists p i, l !! p = Some i /\ is_jump (i_opcode i) = true /\ (Z.of_nat p + i_arg0 i = Z.of_nat k)%Z.

Definition forward (l : list instruction) : Prop :=
  forall p i, l !! p = Some i -> is_jump (i_opcode i) = true -> (1 <= i_arg0 i /\ Z.of_nat p + i_arg0 i <= Z.of_nat (length l))%Z.

Lemma hits_range l k : forward l -> hits l k -> 1 <= k <= length l.
Proof. intros Hf (p & i & Hp & Hj & E). destruct (Hf p i Hp Hj). lia. Qed.

Lemma hits_app l1 l2 k : hits (l1 ++ l2) k <-> hits l1 k \/ (exists k', hits l2 k' /\ k = length l1 + k') \/
  exists p i, l2 !! p = Some i /\ is_jump (i_opcode i) = true /\ (Z.of_nat p + i_arg0 i < 0)%Z /\ (Z.of_nat (length l1) + Z.of_nat p + i_arg0 i = Z.of_nat k)%Z.
Proof.
  split.
  - intros (p & i & Hp & Hj & E). apply lookup_app_Some in Hp as [Hp|[Hl Hp]]; [left; by exists p, i|]. right.
    destruct (Z.ltb_spec (Z.of_nat (p - length l1) + i_arg0 i) 0) as [Hn|Hn].
    + right. exists (p - length l1), i. split_and!; done || lia.
    + left. exists (k - length l1). split; [|lia]. exists (p - length l1), i. split_and!; done || lia.
  - intros [(p & i & Hp & Hj & E)|[(k' & (p & i & Hp & Hj & E) & ->)|(p & i & Hp & Hj & _ & E)]].
    + exists p, i. split_and!; [by apply lookup_app_l_Some | done | done].
    + exists (length l1 + p), i. split_and!; [by rewrite lookup_app_r, Nat.add_comm, Nat.add_sub by lia | done | lia].
    + exists (length l1 + p), i. split_and!; [by rewrite lookup_app_r, Nat.add_comm, Nat.add_sub by lia | done | lia].
Qed.

Lemma hits_app_forward l1 l2 k : forward l2 -> hits (l1 ++ l2) k <-> hits l1 k \/ exists k', hits l2 k' /\ k = length l1 + k'.
Proof.
  intros Hf. rewrite hits_app. split; [|tauto]. intros [H|[H|(p & i & Hp & Hj & Hn & _)]]; [by left | by right|].
  destruct (Hf p i Hp Hj). lia.
Qed.

Lemma forward_app l1 l2 : forward l1 -> forward l2 -> forward (l1 ++ l2).
Proof.
  intros H1 H2 p i Hp Hj. rewrite length_app. apply lookup_app_Some in Hp as [Hp|[Hl Hp]].
  - destruct (H1 p i Hp Hj). lia.
  - destruct (H2 _ i Hp Hj). lia.
Qed.

Definition valid (rp : list instruction) (lab : Prop) : Prop := lab -> good_last rp.

(** [l] is tidy after any code that does not end in a label it could not
    follow, and so is what follows [l]. *)
Record steps (l : list instruction) : Prop := {
  st_forward : forward l;
  st_tidy : forall rp (lab : Prop), valid rp lab ->
    tidy rp (fun k => k = 0 /\ lab \/ hits l k) l /\ valid (rev l ++ rp) (l = [] /\ lab \/ hits l (length l))
}.

Lemma steps_nil : steps [].
Proof.
  split; [done|]. intros rp lab H. split; [done|]. intros [[_ Hl]|(p & i & Hp & _)]; [by apply H | done].
Qed.

Lemma steps_app l1 l2 : steps l1 -> steps l2 -> steps (l1 ++ l2).
Proof.
  intros [F1 T1] [F2 T2]. split; [by apply forward_app|]. intros rp lab Hv.
  destruct (T1 rp lab Hv) as [Ht1 Hv1]. destruct (T2 _ _ Hv1) as [Ht2 Hv2]. split.
  - apply tidy_app. split.
    + eapply tidy_mono; [|exact Ht1]. intros k Hk [?|H]; [by left|]. right. apply hits_app_forward in H; [|done]. destruct H as [?|(k' & H & ->)]; [done | lia].
    + eapply tidy_mono; [|exact Ht2]. intros k Hk [[E Hl]|H].
      * left. split; [lia|]. left. split; [|done]. destruct l1; [done | cbn in E; lia].
      * apply hits_app_forward in H; [|done]. destruct H as [H|(k' & H & E)].
        -- left. pose proof (hits_range _ _ F1 H). assert (k = 0) as -> by lia. split; [done|]. right. by rewrite Nat.add_0_r in H.
        -- right. by replace k with k' by lia.
  - rewrite rev_app_distr, <- app_assoc. intros H. apply Hv2. rewrite length_app in H. destruct H as [[E Hl]|H].
    + apply app_nil in E as [-> ->]. left. split; [done|]. by left.
    + apply hits_app_forward in H; [|done]. destruct H as [H|(k' & H & E)].
      * left. pose proof (hits_range _ _ F1 H). assert (length l2 = 0) as E by lia. split; [by apply nil_length_inv|]. right.
        by rewrite E, Nat.add_0_r in H.
      * right. by replace (length l2) with k' by lia.
Qed.

(** An instruction that is not tied to the ones before it. *)
Definition free_op (op : opcode) : bool :=
  match op with OP_RETURN | OP_JFALSE | OP_JEQ | OP_JUMP | OP_JCMP => false | _ => true end.

Lemma hits_single i k : is_jump (i_opcode i) = false -> ~ hits [i] k.
Proof. intros Hj (p & j & Hp & Hj' & _). apply list_lookup_singleton_Some in Hp as [_ <-]. congruence. Qed.

Lemma free_allowed rp (lab : Prop) i : valid rp lab -> free_op (i_opcode i) = true -> allowed_at rp lab i.
Proof.
  intros Hv Hf. unfold allowed_at. destruct (i_opcode i); try done; intros Hl; by apply Hv in Hl as (_ & ? & ? & ?).
Qed.

Lemma free_jump op : free_op op = true -> is_jump op = false.
Proof. by destruct op. Qed.

Lemma steps_free i : free_op (i_opcode i) = true -> steps [i].
Proof.
  intros Hf. pose proof (free_jump _ Hf) as Hj. split.
  - intros p j Hp Hj'. apply list_lookup_singleton_Some in Hp as [_ <-]. congruence.
  - intros rp lab Hv. split.
    + split; [|done]. eapply allowed_mono; [|by apply free_allowed]. intros [[_ ?]|H]; [done | by apply hits_single in H].
    + intros [[? _]|H]; [done | by apply hits_single in H].
Qed.

Lemma no_end_hit l i : forward l -> is_jump (i_opcode i) = false -> ~ hits (l ++ [i]) (length (l ++ [i])).
Proof.
  intros Hf Hj H. rewrite hits_app_forward in H.
  - rewrite length_app in H. destruct H as [H|(k & H & _)]; [apply (hits_range _ _ Hf) in H; cbn in H; lia | by apply hits_single in H].
  - intros p j Hp Hj'. apply list_lookup_singleton_Some in Hp as [_ <-]. congruence.
Qed.

(** ** Compilations *)

Definition tidied (base comp : compilation) : Prop := exists l, instructions comp = instructions base ++ l /\ steps l.

(** After [l], in any code but that of a branch just begun, a label can follow. *)
Definition solid_end (l : list instruction) : Prop :=
  exists l0 x, l = l0 ++ [x] /\ i_opcode x <> OP_POP /\ i_opcode x <> OP_JEQ.
Definition fine (l : list instruction) : Prop := solid_end l /\ forall rp, ~ pop_after_jeq rp -> ~ push_pop_jeq (rev l ++ rp).

Lemma fine_good l rp : fine l -> ~ pop_after_jeq rp -> good_last (rev l ++ rp).
Proof.
  intros [(l0 & x & -> & H1 & H2) H] Hrp. specialize (H rp Hrp). rewrite rev_app_distr in *. cbn in *.
  split_and!; [done | unfold top_op; cbn; congruence | unfold top_op; cbn; congruence | done].
Qed.

(** The slot on top is not taken to be evaluated. *)
Definition low_top (comp : compilation) : Prop :=
  exists si x, comp_si comp = Some si /\ statusat si (si_count si - 1 - 0) = Done x /\ (x < STATUS_EVALUATED)%Z.

(** What [C] and [E] append: if it ends in a label, the value left is still to
    be evaluated. *)
Definition neat (base comp : compilation) : Prop :=
  exists l, instructions comp = instructions base ++ l /\ steps l /\ fine l /\ (hits l (length l) -> low_top comp).
Definition clear (base comp : compilation) : Prop :=
  exists l, instructions comp = instructions base ++ l /\ steps l /\ fine l /\ ~ hits l (length l).

Lemma tidied_refl comp : tidied comp comp.
Proof. exists []. rewrite app_nil_r. split; [done | apply steps_nil]. Qed.
Lemma tidied_same base comp comp' : instructions comp' = instructions comp -> tidied base comp -> tidied base comp'.
Proof. intros E (l & E' & H). exists l. by rewrite E. Qed.
Lemma tidied_trans c0 c1 c2 : tidied c0 c1 -> tidied c1 c2 -> tidied c0 c2.
Proof. intros (l1 & E1 & H1) (l2 & E2 & H2). exists (l1 ++ l2). rewrite E2, E1, app_assoc. split; [done | by apply steps_app]. Qed.
Lemma clear_neat base comp : clear base comp -> neat base comp.
Proof. intros (l & E & H1 & H2 & H3). exists l. by split_and!. Qed.
Lemma neat_tidied base comp : neat base comp -> tidied base comp.
Proof. intros (l & E & H & _). by exists l. Qed.
Lemma clear_tidied base comp : clear base comp -> tidied base comp.
Proof. intros H. by apply neat_tidied, clear_neat. Qed.

Lemma tidied_add base comp sl op a0 a1 comp' : free_op op = true -> tidied base comp ->
  add_instruction comp sl op a0 a1 = Done comp' -> tidied base comp'.
Proof.
  intros Hf Ht (i & E & Ei & _)%add_instruction_grown. eapply tidied_trans; [exact Ht|]. exists [i]. split; [done|].
  apply steps_free. by rewrite Ei.
Qed.

(** Operations after which anything but a RETURN of a squeezed stack goes. *)
Definition end_op (op : opcode) : bool :=
  free_op op && match op with OP_POP | OP_PUSH => false | _ => true end.

Lemma fine_snoc l i : end_op (i_opcode i) = true -> fine (l ++ [i]).
Proof.
  intros Hi. split.
  - exists l, i. split_and!; [done | intros E; by rewrite E in Hi..].
  - intros rp _. rewrite rev_app_distr. cbn. intros [[= E] _]. by rewrite E in Hi.
Qed.

Lemma clear_snoc base comp sl op a0 a1 comp' : end_op op = true -> tidied base comp ->
  add_instruction comp sl op a0 a1 = Done comp' -> clear base comp'.
Proof.
  intros Hf (l & E0 & Hl) (i & E & Ei & _)%add_instruction_grown. subst op.
  assert (free_op (i_opcode i) = true) as Hfr by (by apply andb_true_iff in Hf as [? _]).
  exists (l ++ [i]). split_and!.
  - by rewrite E, E0, app_assoc.
  - apply steps_app; [done | by apply steps_free].
  - by apply fine_snoc.
  - apply no_end_hit; [apply Hl | by apply free_jump].
Qed.

(** A value has been built on top of the stack: what comes last is neither a
    jump nor an operation that only moves slots. *)
Definition value_op (op : opcode) : bool := end_op op && negb (bool_decide (op = OP_SQUEEZE)).
Definition built (base comp : compilation) : Prop :=
  exists l x, instructions comp = instructions base ++ l ++ [x] /\ steps l /\ value_op (i_opcode x) = true.

Lemma built_add base comp sl op a0 a1 comp' : value_op op = true -> tidied base comp ->
  add_instruction comp sl op a0 a1 = Done comp' -> built base comp'.
Proof.
  intros Hv (l & E0 & Hl) (i & E & Ei & _)%add_instruction_grown. exists l, i. rewrite E, E0, Ei. by rewrite <- app_assoc.
Qed.

Lemma value_free op : value_op op = true -> free_op op = true.
Proof. by destruct op. Qed.
Lemma built_clear base comp : built base comp -> clear base comp.
Proof.
  intros (l & x & E & Hl & Hx). pose proof (value_free _ Hx) as Hf. exists (l ++ [x]). split_and!.
  - done.
  - apply steps_app; [done | by apply steps_free].
  - apply fine_snoc. by apply andb_true_iff in Hx as [? _].
  - apply no_end_hit; [apply Hl | by apply free_jump].
Qed.
Lemma built_tidied base comp : built base comp -> tidied base comp.
Proof. intros H. by apply clear_tidied, built_clear. Qed.

(** ** Macros *)

Ltac code_inv := repeat match goal with
  | H : mbind _ _ = Done _ |- _ => let x := fresh "v" in let Hx := fresh "Hv" in apply bind_Done_inv in H as (x & Hx & H)
  end.

Lemma tidied_SPARK base sl a comp comp' : tidied base comp -> SPARK sl a comp = Done comp' -> tidied base comp'.
Proof. intros Ht H. unfold SPARK in H. code_inv. destruct (_ <? _)%Z; [by eapply tidied_add in H | by injection H as <-]. Qed.
Lemma neat_SPARK base sl a comp comp' : neat base comp -> SPARK sl a comp = Done comp' -> neat base comp'.
Proof.
  intros Ht H. unfold SPARK in H. code_inv. destruct (_ <? _)%Z; [|by injection H as <-].
  eapply clear_neat, clear_snoc; [|by apply neat_tidied | exact H]. done.
Qed.
Lemma tidied_EVAL base sl a comp comp' : tidied base comp -> EVAL sl a comp = Done comp' -> tidied base comp'.
Proof. intros Ht H. unfold EVAL in H. code_inv. destruct (_ <? _)%Z; [by eapply tidied_add in H | by injection H as <-]. Qed.
Lemma clear_EVAL base sl comp comp' : neat base comp -> EVAL sl 0 comp = Done comp' -> clear base comp'.
Proof.
  intros Ht H. unfold EVAL in H. code_inv. destruct (_ <? _)%Z eqn:El.
  - eapply clear_snoc; [|by apply neat_tidied | exact H]. done.
  - injection H as <-. destruct Ht as (l & E & K1 & K2 & K3). exists l. split_and!; [done..|]. intros Hh.
    destruct (K3 Hh) as (si & x & Hsi & Hx & Hlt). unfold top_pos, the_si in *. rewrite Hsi in *. cbn in *. simplify_eq.
    rewrite Hx in Hv1. injection Hv1 as ->. apply Z.ltb_ge in El. lia.
Qed.
Lemma tidied_PUSH base sl a comp comp' : tidied base comp -> PUSH sl a comp = Done comp' -> tidied base comp'.
Proof. intros Ht H. unfold PUSH in H. code_inv. by eapply tidied_add in H. Qed.
Lemma tidied_UPDATE base sl a comp comp' : tidied base comp -> UPDATE sl a comp = Done comp' -> tidied base comp'.
Proof. intros Ht H. unfold UPDATE in H. code_inv. by eapply tidied_add in H. Qed.
Lemma neat_PUSH base comp0 sl a comp comp' : tidied comp0 comp -> instructions comp = instructions base \/
    (exists i, instructions comp = instructions base ++ [i] /\ i_opcode i = OP_SPARK) ->
  PUSH sl a comp = Done comp' -> neat base comp'.
Proof.
  intros _ Hc H. unfold PUSH in H. code_inv. apply add_instruction_grown in H as (i & E & Ei & _). apply clear_neat.
  assert (steps [i]) as Hi by (apply steps_free; by rewrite Ei).
  destruct Hc as [Hc|(s & Hc & Hs)].
  - exists [i]. rewrite E, Hc. split_and!; [done | done | | apply hits_single; by rewrite Ei].
    split; [exists [], i; by rewrite Ei|]. intros rp Hrp. cbn. by intros [_ ?].
  - exists [s; i]. rewrite E, Hc, <- app_assoc. split_and!; [done | | |].
    + apply (steps_app [s] [i]); [|done]. apply steps_free. by rewrite Hs.
    + split; [exists [s], i; by rewrite Ei|]. intros rp Hrp. cbn. intros (_ & [= E'] & _). by rewrite Hs in E'.
    + apply (no_end_hit [s] i); [|by rewrite Ei]. intros p j Hp Hj. apply list_lookup_singleton_Some in Hp as [_ <-]. by rewrite Hs in Hj.
Qed.

Lemma tidied_eval_args base sl vs : forall comp comp', tidied base comp -> eval_args sl vs comp = Done comp' -> tidied base comp'.
Proof.
  induction vs as [|v vs IH]; intros comp comp' Ht H; cbn [eval_args] in H; [by injection H as <-|].
  code_inv. eapply IH; [|exact H]. by eapply tidied_EVAL.
Qed.
Lemma built_BIF base sl bif comp comp' : tidied base comp -> BIF sl bif comp = Done comp' -> built base comp'.
Proof. intros Ht H. unfold BIF in H. code_inv. eapply built_add; [|by eapply tidied_eval_args | exact H]. done. Qed.
Lemma built_MKCAP base sl fno n comp comp' : tidied base comp -> MKCAP sl fno n comp = Done comp' -> built base comp'.
Proof. intros Ht H. by eapply built_add in H. Qed.

Lemma add_string_instructions comp str : instructions (add_string comp str).1 = instructions comp.
Proof. unfold add_string. by destruct (0 <=? _)%Z. Qed.

Lemma built_string base sl str comp comp' : tidied base comp ->
  (let '(comp, pos) := add_string comp str in add_instruction comp sl OP_PUSHSTRING pos 0) = Done comp' -> built base comp'.
Proof.
  intros Ht H. pose proof (add_string_instructions comp str) as Es. destruct (add_string comp str) as [c pos]. cbn in Es.
  eapply built_add; [| |exact H]; [done | by eapply tidied_same].
Qed.

Lemma built_domkframe base src fuel : forall sl fno n comp comp', tidied base comp -> domkframe fuel src sl fno n comp = Done comp' -> built base comp'.
Proof.
  induction fuel as [|fuel IH]; intros sl fno n comp comp' Ht H; [done|]. cbn [domkframe] in H.
  destruct (_ <=? fno)%Z.
  - apply bind_Done_inv in H as (sc & _ & H). destruct (Nat.eqb _ 0); [|by eapply built_add in H].
    apply bind_Done_inv in H as (body & _ & H). apply bind_Done_inv in H as (u0 & _ & H).
    destruct body; try (by eapply built_add in H).
    + code_inv. destruct (_ =? 0)%Z; [by eapply IH | by eapply built_MKCAP].
    + by eapply built_string.
  - destruct (_ =? _)%Z; [|by eapply built_add in H]. code_inv. by eapply built_BIF.
Qed.

(** ** Conditionals *)

(** A condition, the conditional jump [j] over the first branch [m], and the
    second branch: [m] jumps within itself or to the very end. *)
Section fork.
Context (lc m lb2 : list instruction) (j : instruction).
Abbreviation whole := (lc ++ j :: m ++ lb2).
Hypothesis Hlc : steps lc.
Hypothesis Hsolid : solid_end lc.
Hypothesis Hj : i_opcode j = OP_JEQ \/ i_opcode j = OP_JFALSE /\ ~ hits lc (length lc).
Hypothesis Htarget : i_arg0 j = (1 + Z.of_nat (length m))%Z.
Hypothesis Hm_hits : forall p i, m !! p = Some i -> is_jump (i_opcode i) = true ->
  (1 <= i_arg0 i)%Z /\ (Z.of_nat p + i_arg0 i <= Z.of_nat (length m) \/ Z.of_nat p + i_arg0 i = Z.of_nat (length (m ++ lb2)))%Z.
Hypothesis Hm : forall rp, tidy rp (hits m) m.
Hypothesis Hm_last : forall rp, good_last (rev m ++ rp).
Hypothesis Hb2 : steps lb2.
Hypothesis Hend : forall rp, good_last (rev lb2 ++ rev m ++ rp).

Lemma fork_lookup p i : whole !! p = Some i -> is_jump (i_opcode i) = true ->
  (lc !! p = Some i) \/ (p = length lc /\ i = j) \/ (exists q, p = length lc + 1 + q /\ m !! q = Some i) \/
  (exists q, p = length lc + 1 + length m + q /\ lb2 !! q = Some i).
Proof.
  intros [Hp|[Hl Hp]]%lookup_app_Some _; [by left|]. right. destruct (p - length lc) as [|q] eqn:Eq; cbn in Hp.
  - left. split; [lia | congruence].
  - right. apply lookup_app_Some in Hp as [Hp|[Hl' Hp]]; [left; exists q | right; exists (q - length m)]; (split; [lia | done]).
Qed.

Lemma fork_forward : forward whole.
Proof using Hlc Htarget Hm_hits Hb2.
  intros p i Hp Hi. rewrite length_app. cbn [length]. destruct (fork_lookup p i Hp Hi) as [H|[[-> ->]|[(q & -> & H)|(q & -> & H)]]].
  - destruct (st_forward _ Hlc p i H Hi). lia.
  - rewrite Htarget, length_app. lia.
  - destruct (Hm_hits q i H Hi) as [? [?|?]]; [rewrite length_app in *; lia|lia].
  - destruct (st_forward _ Hb2 q i H Hi). rewrite length_app. lia.
Qed.

Lemma fork_hits k : hits whole k -> hits lc k \/ k = length lc + 1 + length m \/
  (exists k', hits m k' /\ k = length lc + 1 + k') \/ (exists k', hits lb2 k' /\ k = length lc + 1 + length m + k').
Proof using Htarget Hm_hits Hb2.
  intros (p & i & Hp & Hi & E). destruct (fork_lookup p i Hp Hi) as [H|[[-> ->]|[(q & -> & H)|(q & -> & H)]]].
  - left. by exists p, i.
  - right; left. lia.
  - right; right; left. exists (k - (length lc + 1)). destruct (Hm_hits q i H Hi). split; [|lia]. exists q, i. split_and!; [done | done | lia].
  - right; right; right. exists (k - (length lc + 1 + length m)). destruct (st_forward _ Hb2 q i H Hi). split; [|lia].
    exists q, i. split_and!; [done | done | lia].
Qed.

Lemma hits_m k : hits m k -> 1 <= k /\ (k <= length m \/ k = length (m ++ lb2)).
Proof using Hm_hits. intros (p & i & Hp & Hi & E). destruct (Hm_hits p i Hp Hi) as [? [?|?]]; lia. Qed.

Lemma steps_fork : steps whole.
Proof using Hlc Hsolid Hj Htarget Hm_hits Hm Hm_last Hb2 Hend.
  split; [apply fork_forward|]. intros rp lab Hv. destruct (st_tidy _ Hlc rp lab Hv) as [T1 V1].
  assert (length m <> 0) as Hm0.
  { intros E. apply nil_length_inv in E. specialize (Hm_last []). rewrite E in Hm_last. by destruct Hm_last. }
  split.
  - apply tidy_app. split.
    { eapply tidy_mono; [|exact T1]. intros k Hk [?|H]; [by left|]. right.
      apply fork_hits in H as [H|[->|[(k' & H & ->)|(k' & H & ->)]]]; [done | lia..]. }
    cbn [tidy]. split.
    { assert (top_op (rev lc ++ rp) <> Some OP_POP) as Hp.
      { destruct Hsolid as (l0 & x & -> & H1 & _). rewrite rev_app_distr. unfold top_op. cbn. congruence. }
      unfold allowed_at. destruct Hj as [->|[-> Hn]]; [done|]. split; [done|]. intros [[E _]|H]; exfalso.
      - destruct Hsolid as (l0 & x & E' & _). rewrite E', length_app in E. cbn in E. lia.
      - apply fork_hits in H as [H|[E|[(k' & H & E)|(k' & H & E)]]]; try lia.
        by rewrite Nat.add_0_r in H. }
    apply tidy_app. split.
    { eapply tidy_mono; [|apply Hm]. intros k Hk [[E _]|H]; [lia|].
      apply fork_hits in H as [H|[E|[(k' & H & E)|(k' & H & E)]]].
      - apply (hits_range _ _ (st_forward _ Hlc)) in H. lia.
      - lia.
      - by replace k with k' by lia.
      - lia. }
    destruct (st_tidy _ Hb2 (rev m ++ j :: rev lc ++ rp) True) as [T2 _]; [intros _; apply Hm_last|].
    eapply tidy_mono; [|exact T2]. intros k Hk [[E _]|H]; [lia|].
    apply fork_hits in H as [H|[E|[(k' & H & E)|(k' & H & E)]]].
    + apply (hits_range _ _ (st_forward _ Hlc)) in H. lia.
    + left. split; [lia | done].
    + destruct (hits_m _ H) as [? [?|E']]; [left; split; [lia | done] | rewrite length_app in E'; lia].
    + right. by replace k with k' by lia.
  - intros _. rewrite rev_app_distr. cbn [rev]. rewrite rev_app_distr, <- !app_assoc. apply Hend.
Qed.

Lemma fork_fine : fine whole.
Proof using Hend.
  clear Hlc Hsolid Hj Htarget Hm_hits Hm Hm_last Hb2. pose proof (Hend []) as H0. rewrite app_nil_r, <- rev_app_distr in H0. split.
  - destruct H0 as (Hne & H1 & H2 & _). destruct (exists_last (l := m ++ lb2)) as (l & x & E); [intros E; by rewrite E in Hne|].
    exists (lc ++ j :: l), x. rewrite E, rev_app_distr in *. unfold top_op in *. cbn in *.
    split; [by rewrite <- app_assoc | split; intros E'; rewrite E' in *; done].
  - intros rp _. specialize (Hend (j :: rev lc ++ rp)). rewrite rev_app_distr. cbn [rev]. rewrite rev_app_distr, <- !app_assoc. apply Hend.
Qed.
End fork.

Definition opened (comp comp0 : compilation) (addr : Z) : Prop :=
  exists lc j, instructions comp0 = instructions comp ++ lc ++ [j] /\ addr = Z.of_nat (length (instructions comp ++ lc)) /\
    steps lc /\ solid_end lc /\ (i_opcode j = OP_JEQ \/ i_opcode j = OP_JFALSE /\ ~ hits lc (length lc)).

Lemma opened_jump comp c1 sl op a1 comp0 addr : clear comp c1 -> op = OP_JEQ \/ op = OP_JFALSE ->
  (comp0 ← add_instruction c1 sl op 0 a1; Done (comp0, code_count c1)) = Done (comp0, addr) -> opened comp comp0 addr.
Proof.
  intros (l & E & Hl & [Hs _] & Hn) Hop H. apply bind_Done_inv in H as (c & H & [= -> <-]).
  apply add_instruction_grown in H as (i & E' & Ei & _). exists l, i. split_and!; [by rewrite E', E, app_assoc | by rewrite <- E | done | done|].
  rewrite Ei. destruct Hop as [-> | ->]; [by left | by right].
Qed.

Lemma JFALSE_opened comp c1 sl comp0 addr : neat comp c1 -> JFALSE sl c1 = Done (comp0, addr) -> opened comp comp0 addr.
Proof.
  intros Hn H. unfold JFALSE in H. apply bind_Done_inv in H as (c & H1 & H).
  eapply opened_jump; [by eapply clear_EVAL | by right | exact H].
Qed.
Lemma JEQ_opened comp c1 sl v comp0 addr : neat comp c1 -> JEQ sl v c1 = Done (comp0, addr) -> opened comp comp0 addr.
Proof.
  intros Hn H. unfold JEQ in H. apply bind_Done_inv in H as (c & H1 & H).
  eapply opened_jump; [by eapply clear_EVAL | by left | exact H].
Qed.

Lemma branch_code comp comp' : branch comp = Done comp' -> instructions comp' = instructions comp.
Proof. unfold branch. intros H. code_inv. by injection H as <-. Qed.

(** A branch: the value of the condition may have to be removed first. *)
Definition popped (pop : bool) (l : list instruction) : Prop :=
  if pop then exists p, l = [p] /\ i_opcode p = OP_POP else l = [].

Lemma branch_pops (pop : bool) sl comp b1 b2 : branch comp = Done b1 ->
  (if pop then add_instruction b1 sl OP_POP 1 0 else Done b1) = Done b2 ->
  exists lp, instructions b2 = instructions comp ++ lp /\ popped pop lp.
Proof.
  intros Hb H. apply branch_code in Hb. rewrite <- Hb. destruct pop; cbn.
  - apply add_instruction_grown in H as (i & E & Ei & _). exists [i]. split; [done | by exists i].
  - injection H as <-. exists []. by rewrite app_nil_r.
Qed.

Lemma popped_steps pop lp : popped pop lp -> steps lp.
Proof. destruct pop; cbn; [intros (p & -> & Hp); apply steps_free; by rewrite Hp | intros ->; apply steps_nil]. Qed.

Lemma popped_after pop lp k rp : popped pop lp -> i_opcode k <> OP_POP -> i_opcode k <> OP_JEQ -> ~ pop_after_jeq (rev lp ++ k :: rp).
Proof.
  intros Hp H1 H2. destruct pop; cbn in Hp; [destruct Hp as (p & -> & Hp)|subst lp]; intros [E1 E2]; unfold top_op in *; cbn in *; congruence.
Qed.

(** The code of a conditional in an expression. *)
Lemma opened_join (pop : bool) comp comp0 label sl b1 b2 b3 b4 end_ d1 d2 d3 :
  opened comp comp0 label ->
  branch comp0 = Done b1 -> (if pop then add_instruction b1 sl OP_POP 1 0 else Done b1) = Done b2 -> neat b2 b3 ->
  JUMP sl b3 = Done (b4, end_) ->
  branch (LABEL label (unbranch comp0 b4)) = Done d1 -> (if pop then add_instruction d1 sl OP_POP 1 0 else Done d1) = Done d2 -> neat d2 d3 ->
  exists l, instructions (LABEL end_ (unbranch comp0 d3)) = instructions comp ++ l /\ steps l /\ fine l.
Proof.
  intros (lc & j & E0 & -> & Hlc & Hs & Hj) Hb1 Hb2 (l1 & E1 & S1 & F1 & _) Hk Hd1 Hd2 (l2 & E2 & S2 & F2 & _).
  destruct (branch_pops _ _ _ _ _ Hb1 Hb2) as (p1 & Ep1 & Hp1). destruct (branch_pops _ _ _ _ _ Hd1 Hd2) as (p2 & Ep2 & Hp2).
  unfold JUMP in Hk. apply bind_Done_inv in Hk as (b5 & Hk & [= -> <-]). apply add_instruction_grown in Hk as (k & Ek & Hk & _).
  set (c3 := LABEL _ (unbranch comp0 b4)) in *.
  assert (instructions c3 = instructions comp ++ lc ++ set_arg0 (2 + Z.of_nat (length (p1 ++ l1))) j :: p1 ++ l1 ++ [k]) as E3.
  { destruct (LABEL_at (unbranch comp0 b4) (instructions comp ++ lc) j (p1 ++ l1 ++ [k])) as [E _].
    - cbn. rewrite Ek, E1, Ep1, E0, <- !app_assoc. done.
    - unfold c3. rewrite E, <- app_assoc. do 4 f_equal. rewrite !length_app. cbn. lia. }
  set (a := (1 + Z.of_nat (length (p2 ++ l2)))%Z).
  assert (instructions (LABEL (code_count b3) (unbranch comp0 d3)) =
    instructions comp ++ lc ++ set_arg0 (2 + Z.of_nat (length (p1 ++ l1))) j :: (p1 ++ l1 ++ [set_arg0 a k]) ++ (p2 ++ l2)) as E4.
  { destruct (LABEL_at (unbranch comp0 d3) (instructions comp ++ lc ++ set_arg0 (2 + Z.of_nat (length (p1 ++ l1))) j :: p1 ++ l1) k (p2 ++ l2)) as [E _].
    - cbn. rewrite E2, Ep2, E3. rewrite <- !app_assoc. cbn. rewrite <- !app_assoc. done.
    - unfold code_count. rewrite E1, Ep1, E0.
      replace (length (((instructions comp ++ lc ++ [j]) ++ p1) ++ l1)) with
        (length (instructions comp ++ lc ++ set_arg0 (2 + Z.of_nat (length (p1 ++ l1))) j :: p1 ++ l1)) by (rewrite !length_app; cbn; rewrite !length_app; lia).
      rewrite E, <- !app_assoc. cbn. rewrite <- !app_assoc. done. }
  eexists. split; [exact E4|].
  assert (steps (p1 ++ l1)) as Hm1 by (apply steps_app; [by eapply popped_steps | done]).
  assert (steps (p2 ++ l2)) as Hm2 by (apply steps_app; [by eapply popped_steps | done]).
  assert (forall rp, good_last (rev (p2 ++ l2) ++ rev (p1 ++ l1 ++ [set_arg0 a k]) ++ rp)) as Hend.
  { intros rp. rewrite app_assoc, !rev_app_distr, <- !app_assoc. apply fine_good; [done|]. cbn. apply (popped_after pop); [done | cbn; congruence..]. }
  split; [|by apply fork_fine].
  assert (p1 ++ l1 ++ [set_arg0 a k] = (p1 ++ l1) ++ [set_arg0 a k]) as Em by (by rewrite app_assoc).
  apply steps_fork; [done | done | exact Hj | rewrite !length_app; cbn; lia | | | | done | exact Hend]; rewrite Em.
  - intros p i [Hp|[Hl Hp]]%lookup_app_Some Hi.
    + destruct (st_forward _ Hm1 p i Hp Hi). rewrite (length_app _ [_]). cbn. lia.
    + destruct (p - length (p1 ++ l1)) eqn:Eq; [|done]. injection Hp as <-. cbn [set_arg0 i_arg0]. unfold a.
      split; [lia|]. right. rewrite (length_app _ (p2 ++ l2)), (length_app _ [_]). cbn. lia.
  - intros rp. destruct (st_tidy _ Hm1 rp False) as [T _]; [done|]. apply tidy_app. split.
    + eapply tidy_mono; [|exact T]. intros k' Hk' (p & i & [Hp|[Hl Hp]]%lookup_app_Some & Hi & E).
      * right. by exists p, i.
      * destruct (p - length (p1 ++ l1)) eqn:Eq; [|done]. injection Hp as <-. cbn [set_arg0 i_arg0] in E. unfold a in E. lia.
    + cbn [tidy]. split; [|done]. unfold allowed_at. cbn. by rewrite Hk.
  - intros rp. rewrite rev_app_distr. cbn. split_and!; [done | unfold top_op; cbn; congruence | unfold top_op; cbn; congruence|].
    intros [H1 _]. unfold top_op in H1. cbn in H1. congruence.
Qed.

(** What [R] appends. *)
Definition finished (base comp : compilation) : Prop :=
  exists l, instructions comp = instructions base ++ l /\ steps l /\ final_code l.

Lemma final_good l rp : final_code l -> good_last (rev l ++ rp).
Proof.
  intros (l0 & x & -> & Hx). rewrite rev_app_distr. cbn. split_and!; [done | | |]; unfold push_pop_jeq, top_op; cbn.
  - intros [= E]. by rewrite E in Hx.
  - intros [= E]. by rewrite E in Hx.
  - intros [[= E] _]. by rewrite E in Hx.
Qed.

Lemma tidied_finished c0 c1 c2 : tidied c0 c1 -> finished c1 c2 -> finished c0 c2.
Proof.
  intros (l1 & E1 & H1) (l2 & E2 & H2 & (l0 & x & E & Hx)). exists (l1 ++ l2). rewrite E2, E1, app_assoc. split_and!; [done | by apply steps_app|].
  exists (l1 ++ l0), x. by rewrite E, app_assoc.
Qed.

Lemma finished_add base comp sl op a0 a1 comp' : is_final op = true -> op <> OP_RETURN -> tidied base comp ->
  add_instruction comp sl op a0 a1 = Done comp' -> finished base comp'.
Proof.
  intros Hf Hr Ht (i & E & Ei & _)%add_instruction_grown. eapply tidied_finished; [exact Ht|]. exists [i]. split_and!; [done | |].
  - apply steps_free. rewrite Ei. by destruct op.
  - exists [], i. by rewrite Ei.
Qed.

Lemma opened_finished (pop : bool) comp comp0 label sl b1 b2 b3 d1 d2 d3 :
  opened comp comp0 label ->
  branch comp0 = Done b1 -> (if pop then add_instruction b1 sl OP_POP 1 0 else Done b1) = Done b2 -> finished b2 b3 ->
  branch (LABEL label (unbranch comp0 b3)) = Done d1 -> (if pop then add_instruction d1 sl OP_POP 1 0 else Done d1) = Done d2 -> finished d2 d3 ->
  finished comp d3.
Proof.
  intros (lc & j & E0 & -> & Hlc & Hs & Hj) Hb1 Hb2 (l1 & E1 & S1 & F1) Hd1 Hd2 (l2 & E2 & S2 & F2).
  destruct (branch_pops _ _ _ _ _ Hb1 Hb2) as (p1 & Ep1 & Hp1). destruct (branch_pops _ _ _ _ _ Hd1 Hd2) as (p2 & Ep2 & Hp2).
  set (c3 := LABEL _ (unbranch comp0 b3)) in *.
  assert (instructions c3 = instructions comp ++ lc ++ set_arg0 (1 + Z.of_nat (length (p1 ++ l1))) j :: p1 ++ l1) as E3.
  { destruct (LABEL_at (unbranch comp0 b3) (instructions comp ++ lc) j (p1 ++ l1)) as [E _].
    - cbn. rewrite E1, Ep1, E0, <- !app_assoc. done.
    - unfold c3. by rewrite E, <- app_assoc. }
  assert (forall p l, final_code l -> final_code (p ++ l)) as Hfa.
  { intros p l (l0 & x & -> & Hx). exists (p ++ l0), x. by rewrite app_assoc. }
  assert (steps (p1 ++ l1)) as Hm1 by (apply steps_app; [by eapply popped_steps | done]).
  assert (steps (p2 ++ l2)) as Hm2 by (apply steps_app; [by eapply popped_steps | done]).
  exists (lc ++ set_arg0 (1 + Z.of_nat (length (p1 ++ l1))) j :: (p1 ++ l1) ++ p2 ++ l2). split_and!.
  - rewrite E2, Ep2, E3, <- !app_assoc. cbn. by rewrite <- !app_assoc.
  - apply steps_fork; [done | done | exact Hj | done | | | | done |].
    + intros p i Hp Hi. destruct (st_forward _ Hm1 p i Hp Hi). lia.
    + intros rp. destruct (st_tidy _ Hm1 rp False) as [T _]; [done|]. eapply tidy_mono; [|exact T]. intros k _ H. by right.
    + intros rp. apply final_good. by apply Hfa.
    + intros rp. apply final_good. by apply Hfa.
  - rewrite cons_middle, !app_assoc. apply Hfa. exact F2.
Qed.

(** ** Schemes *)

Definition emits_neat (f : compilation -> snode -> pmap -> Z -> outcome compilation) : Prop :=
  forall comp c pm n comp', f comp c pm n = Done comp' -> neat comp comp'.

Section schemes.
Context (src : source) (mkfuel : nat) (C E : compilation -> snode -> pmap -> Z -> outcome compilation).
Hypothesis HC : emits_neat C.
Hypothesis HE : emits_neat E.

Lemma tidied_C base comp c pm n comp' : tidied base comp -> C comp c pm n = Done comp' -> tidied base comp'.
Proof using HC. intros Ht H. eapply tidied_trans; [exact Ht|]. by eapply neat_tidied, HC. Qed.
Lemma tidied_E base comp c pm n comp' : tidied base comp -> E comp c pm n = Done comp' -> tidied base comp'.
Proof using HE. intros Ht H. eapply tidied_trans; [exact Ht|]. by eapply neat_tidied, HE. Qed.

Lemma tidied_direct base strictcontext bs : forall pm n comp comp' rest m, tidied base comp ->
  Cletrec_direct E strictcontext bs pm n comp = Done (comp', rest, m) -> tidied base comp'.
Proof using HE.
  induction bs as [|rec bs IH]; intros pm n comp comp' rest m Ht H; cbn [Cletrec_direct] in H; [by injection H as <- _ _|].
  destruct (direct strictcontext rec bs); [|by injection H as <- _ _]. code_inv. eapply IH; [|exact H]. by eapply tidied_E.
Qed.

Lemma tidied_alloc base strictcontext bs : forall pm n comp comp', tidied base comp ->
  Cletrec_alloc C E strictcontext bs pm n comp = Done comp' -> tidied base comp'.
Proof using HC HE.
  induction bs as [|rec bs IH]; intros pm n comp comp' Ht H; cbn [Cletrec_alloc] in H; [by injection H as <-|].
  apply bind_Done_inv in H as (c1 & H1 & H). apply bind_Done_inv in H as (idx & _ & H). apply bind_Done_inv in H as (c2 & H2 & H).
  eapply IH; [|exact H]. eapply tidied_UPDATE; [|exact H2].
  destruct (direct _ _ _); [by eapply tidied_E | by eapply tidied_C].
Qed.

Lemma tidied_Cletrec base bs n pm strictcontext comp comp' : tidied base comp ->
  Cletrec C E bs n pm strictcontext comp = Done comp' -> tidied base comp'.
Proof using HC HE.
  intros Ht H. unfold Cletrec in H. apply bind_Done_inv in H as ([[c1 rest] m] & H1 & H).
  apply (tidied_direct base) in H1; [|done]. destruct rest as [|rec rest]; [by injection H as <-|].
  apply bind_Done_inv in H as (c2 & H2 & H). eapply tidied_alloc; [|exact H]. by eapply tidied_add in H2.
Qed.

Lemma tidied_push_args base args : forall pm n comp comp', tidied base comp -> push_args C E args pm n comp = Done comp' -> tidied base comp'.
Proof using HC HE.
  induction args as [|[a st] args IH]; intros pm n comp comp' Ht H; cbn [push_args] in H; [by injection H as <-|].
  apply bind_Done_inv in H as (c1 & H1 & H). eapply IH; [|exact H]. destruct st; [by eapply tidied_E | by eapply tidied_C].
Qed.
Lemma tidied_push_args_C base args : forall pm n comp comp', tidied base comp -> push_args_C C args pm n comp = Done comp' -> tidied base comp'.
Proof using HC.
  induction args as [|[a st] args IH]; intros pm n comp comp' Ht H; cbn [push_args_C] in H; [by injection H as <-|].
  apply bind_Done_inv in H as (c1 & H1 & H). eapply IH; [|exact H]. by eapply tidied_C.
Qed.

Lemma tidied_S base sl exprs pm n comp comp' : tidied base comp -> S_ C E sl exprs pm n comp = Done comp' -> tidied base comp'.
Proof using HC HE.
  intros Ht H. unfold S_ in H. apply bind_Done_inv in H as (si & _ & H). apply bind_Done_inv in H as ([rest m] & _ & H).
  apply bind_Done_inv in H as (c1 & H1 & H). apply (tidied_push_args base) in H1; [|done].
  destruct (0 <? _)%Z; [by eapply tidied_add in H | by injection H as <-].
Qed.

Lemma neat_letrec_body rec_ strictcontext sl bs b pm n comp comp' : emits_neat rec_ ->
  letrec_body C E rec_ strictcontext sl bs b pm n comp = Done comp' -> neat comp comp'.
Proof using HC HE.
  intros Hr H. unfold letrec_body in H. apply bind_Done_inv in H as (c1 & H1 & H). apply bind_Done_inv in H as (c2 & H2 & H).
  apply (tidied_Cletrec comp) in H1; [|apply tidied_refl]. apply Hr, neat_tidied in H2.
  eapply clear_neat, clear_snoc; [|by eapply tidied_trans | exact H]. done.
Qed.

Lemma pop_push_low n comp comp' : pop_push n STATUS_SPARKED comp = Done comp' ->
  instructions comp' = instructions comp /\ low_top comp'.
Proof.
  unfold pop_push. intros H. code_inv. injection H as <-. split; [done|]. eexists _, STATUS_SPARKED. split; [reflexivity|].
  split; [|done]. unfold statusat, pushstatus, si_count. cbn. rewrite length_app. cbn.
  rewrite (proj2 (Z.ltb_lt _ _)), (proj2 (Z.leb_le _ _)) by lia. cbn.
  replace (Z.to_nat _) with (length (si_status v0)) by lia. rewrite lookup_app_r by lia. by rewrite Nat.sub_diag.
Qed.

Lemma E_if_branches_neat (pop : bool) sl comp comp0 label x1 x2 pm n comp' :
  opened comp comp0 label ->
  (c ← branch comp0;
   c ← (if pop then add_instruction c sl OP_POP 1 0 else Done c);
   c ← E c x1 pm n;
   '(c, end_) ← JUMP sl c;
   let c := LABEL label (unbranch comp0 c) in
   c ← branch c;
   c ← (if pop then add_instruction c sl OP_POP 1 0 else Done c);
   c ← E c x2 pm n;
   pop_push (if pop then 1 else 0) STATUS_SPARKED (LABEL end_ (unbranch comp0 c))) = Done comp' ->
  neat comp comp'.
Proof using HE.
  intros Ho H.
  apply bind_Done_inv in H as (b1 & Hb1 & H). apply bind_Done_inv in H as (b2 & Hb2 & H).
  apply bind_Done_inv in H as (b3 & Hb3 & H). apply bind_Done_inv in H as ([b4 end_] & Hb4 & H).
  apply bind_Done_inv in H as (d1 & Hd1 & H). apply bind_Done_inv in H as (d2 & Hd2 & H).
  apply bind_Done_inv in H as (d3 & Hd3 & H). apply pop_push_low in H as [H Hlow].
  destruct (opened_join pop comp comp0 label sl b1 b2 b3 b4 end_ d1 d2 d3 Ho Hb1 Hb2 (HE _ _ _ _ _ Hb3) Hb4 Hd1 Hd2 (HE _ _ _ _ _ Hd3)) as (l & El & Sl & Fl).
  exists l. by rewrite H.
Qed.

Lemma neat_E_if cond t f pm n comp comp' : E_if E cond t f pm n comp = Done comp' -> neat comp comp'.
Proof using HE.
  intros H. unfold E_if in H. destruct (eq_literal cond) as [[x num]|].
  - apply bind_Done_inv in H as (c1 & H1 & H). apply bind_Done_inv in H as (v & Hv & H). apply bind_Done_inv in H as ([c0 label] & Hj & H).
    exact (E_if_branches_neat true _ _ _ _ f t pm n comp' (JEQ_opened _ _ _ _ _ _ (HE _ _ _ _ _ H1) Hj) H).
  - apply bind_Done_inv in H as (c1 & H1 & H). apply bind_Done_inv in H as ([c0 label] & Hj & H).
    exact (E_if_branches_neat false _ _ _ _ t f pm n comp' (JFALSE_opened _ _ _ _ _ (HE _ _ _ _ _ H1) Hj) H).
Qed.

(** A value computed, evaluated and dropped. *)
Lemma dropped_fine comp c1 sl1 c2 sl2 c3 : neat comp c1 -> EVAL sl1 0 c1 = Done c2 -> add_instruction c2 sl2 OP_POP 1 0 = Done c3 ->
  exists l, instructions c3 = instructions comp ++ l /\ steps l /\ forall rp, ~ pop_after_jeq (rev l ++ rp).
Proof.
  intros Hn He Hp. destruct (clear_EVAL _ _ _ _ Hn He) as (l & E1 & S1 & [(l0 & x & -> & _ & Hx) _] & _).
  apply add_instruction_grown in Hp as (p & Ep & Hp & _). exists ((l0 ++ [x]) ++ [p]). split_and!; [by rewrite Ep, E1, <- app_assoc | |].
  - apply steps_app; [done|]. apply steps_free. by rewrite Hp.
  - intros rp. rewrite !rev_app_distr. cbn. intros [_ H]. unfold top_op in H. cbn in H. congruence.
Qed.

Lemma neat_E_seq e1 e2 pm n comp comp' : E_seq E e1 e2 pm n comp = Done comp' -> neat comp comp'.
Proof using HE.
  intros H. unfold E_seq in H.
  apply bind_Done_inv in H as (c1 & H1 & H). apply bind_Done_inv in H as (c2 & H2 & H). apply bind_Done_inv in H as (c3 & H3 & H).
  destruct (dropped_fine _ _ _ _ _ _ (HE _ _ _ _ _ H1) H2 H3) as (l & El & Sl & Fl).
  destruct (HE _ _ _ _ _ H) as (l2 & E2 & S2 & [(l0 & x & -> & Hx) F2] & L2). exists (l ++ l0 ++ [x]). split_and!.
  - by rewrite E2, El, <- app_assoc.
  - by apply steps_app.
  - split; [exists (l ++ l0), x; by rewrite app_assoc|]. intros rp _. rewrite rev_app_distr, <- app_assoc. apply F2, Fl.
  - intros Hh. apply L2. apply hits_app_forward in Hh; [|apply S2]. rewrite length_app in Hh. destruct Hh as [Hh|(k & Hh & Ek)].
    + apply (hits_range _ _ (st_forward _ Sl)) in Hh. rewrite length_app in Hh. cbn in Hh. lia.
    + by replace (length (l0 ++ [x])) with k by lia.
Qed.

Lemma neat_E_call c fno k pm n comp comp' : E_call src mkfuel C E c fno k pm n comp = Done comp' -> neat comp comp'.
Proof using HC HE.
  intros H. unfold E_call in H. apply bind_Done_inv in H as (c1 & H1 & H). apply (tidied_push_args comp) in H1; [|apply tidied_refl].
  assert (forall sl, (comp ← domkframe mkfuel src sl fno k c1; SPARK sl 0 comp) = Done comp' -> neat comp comp') as Hframe.
  { intros sl H'. apply bind_Done_inv in H' as (c2 & H2 & H'). eapply neat_SPARK; [|exact H']. by eapply clear_neat, built_clear, built_domkframe. }
  destruct (_ =? k)%Z.
  - destruct (spine_head c); try (by eapply Hframe). apply bind_Done_inv in H as (b & _ & H). destruct (bi_pure b).
    + apply bind_Done_inv in H as (c2 & H2 & H). apply (built_BIF comp) in H2; [|done]. apply built_clear, clear_neat in H2.
      destruct (bi_reswhnf b); [by injection H as <- | by eapply neat_SPARK].
    + apply bind_Done_inv in H as (c2 & H2 & H). eapply clear_neat, clear_EVAL; [|exact H]. by eapply clear_neat, built_clear, built_domkframe.
  - apply bind_Done_inv in H as (c2 & H2 & H). eapply neat_SPARK; [|exact H]. by eapply clear_neat, built_clear, built_MKCAP.
Qed.

Lemma neat_E_application c pm n comp comp' : E_application src mkfuel C E c pm n comp = Done comp' -> neat comp comp'.
Proof using HC HE.
  intros H. unfold E_application in H. apply bind_Done_inv in H as (u0 & _ & H). apply bind_Done_inv in H as (fno & _ & H).
  apply bind_Done_inv in H as (k & _ & H). apply bind_Done_inv in H as (u1 & _ & H).
  destruct (as_if c) as [[[cond t] f]|]; [by eapply neat_E_if|]. destruct (as_seq c) as [[e1 e2]|]; [by eapply neat_E_seq|].
  apply bind_Done_inv in H as (item & _ & H). destruct item as [[num l]|]; [|by eapply neat_E_call].
  destruct (k =? 2)%Z; [|by eapply neat_E_call]. apply bind_Done_inv in H as (v & _ & H). apply bind_Done_inv in H as (c1 & H1 & H).
  apply bind_Done_inv in H as (c2 & H2 & H). eapply neat_SPARK; [|exact H]. apply HE, neat_tidied in H1.
  eapply clear_neat, clear_snoc; [|exact H1 | exact H2]. done.
Qed.

Lemma neat_C_application c pm n comp comp' : C_application src mkfuel C c pm n comp = Done comp' -> neat comp comp'.
Proof using HC.
  intros H. unfold C_application in H. apply bind_Done_inv in H as (c1 & H1 & H). apply (tidied_push_args_C comp) in H1; [|apply tidied_refl].
  apply bind_Done_inv in H as (u0 & _ & H). apply bind_Done_inv in H as (fno & _ & H).
  apply bind_Done_inv in H as (k & _ & H). apply bind_Done_inv in H as (u1 & _ & H).
  apply clear_neat, built_clear. destruct (_ =? k)%Z; [by eapply built_domkframe | by eapply built_MKCAP].
Qed.
End schemes.

Lemma schemes_neat fuel mkfuel src : emits_neat (C fuel mkfuel src) /\ emits_neat (E fuel mkfuel src).
Proof.
  induction fuel as [|fuel [HC HE]]; [done|]. split; intros comp c pm n comp' H.
  - assert (forall sl, (fno ← snode_fno src c; nargs ← function_nargs src fno;
      if (nargs =? 0)%Z then domkframe mkfuel src sl fno 0 comp else MKCAP sl fno 0 comp) = Done comp' -> neat comp comp') as Hf.
    { intros sl H'. apply bind_Done_inv in H' as (fno & _ & H'). apply bind_Done_inv in H' as (k & _ & H'). apply clear_neat, built_clear.
      destruct (k =? 0)%Z; [eapply built_domkframe; [apply tidied_refl | exact H'] | eapply built_MKCAP; [apply tidied_refl | exact H']]. }
    destruct c; cbn [C] in H; try discriminate H; try (by eapply Hf).
    + exact (neat_C_application src mkfuel _ HC _ _ _ _ _ H).
    + apply bind_Done_inv in H as (idx & _ & H). eapply (neat_PUSH comp comp); [apply tidied_refl | by left | exact H].
    + exact (neat_letrec_body _ _ HC HE _ _ _ _ _ _ _ _ _ HC H).
    + eapply clear_neat, clear_snoc; [|apply tidied_refl | exact H]. done.
    + eapply clear_neat, clear_snoc; [|apply tidied_refl | exact H]. done.
    + eapply clear_neat, built_clear, built_string; [apply tidied_refl | exact H].
  - assert ((c1 ← C fuel mkfuel src comp c pm n; SPARK (node_sl c) 0 c1) = Done comp' -> neat comp comp') as Hs.
    { intros H'. apply bind_Done_inv in H' as (c1 & H1 & H'). eapply neat_SPARK; [|exact H']. eapply HC; exact H1. }
    destruct c; cbn [E] in H; try (by apply Hs).
    + exact (neat_E_application src mkfuel _ _ HC HE _ _ _ _ _ H).
    + apply bind_Done_inv in H as (idx & _ & H). apply bind_Done_inv in H as (c1 & H1 & H).
      eapply (neat_PUSH comp comp); [| |exact H].
      * eapply tidied_SPARK; [apply tidied_refl | exact H1].
      * unfold SPARK in H1. code_inv. destruct (_ <? _)%Z; [|left; by injection H1 as <-].
        apply add_instruction_grown in H1 as (i & Ei & Hi & _). right. by exists i.
    + exact (neat_letrec_body _ _ HC HE _ _ _ _ _ _ _ _ _ HE H).
Qed.

(** ** [R] *)

(** A RETURN can follow: the stack may have been squeezed after the value has
    been built. *)
Definition returnable (base comp : compilation) : Prop :=
  exists l x, instructions comp = instructions base ++ l ++ [x] /\ steps l /\
    free_op (i_opcode x) = true /\ i_opcode x <> OP_POP /\
    (i_opcode x = OP_SQUEEZE -> (1 <= i_arg0 x)%Z /\ exists l0 y, l = l0 ++ [y] /\ i_opcode y <> OP_SQUEEZE /\ i_opcode y <> OP_POP).

Lemma built_returnable base comp : built base comp -> returnable base comp.
Proof.
  intros (l & x & E & Hl & Hx). exists l, x. split_and!; [done | done | by apply value_free | |]; intros Ex; by rewrite Ex in Hx.
Qed.

Lemma returnable_SQUEEZE base l x comp sl n comp' : instructions comp = instructions base ++ l ++ [x] -> steps l ->
  free_op (i_opcode x) = true -> i_opcode x <> OP_SQUEEZE -> i_opcode x <> OP_POP ->
  add_instruction comp sl OP_SQUEEZE 1 n = Done comp' -> returnable base comp'.
Proof.
  intros E Hl Hx H1 H2 (i & E' & Ei & Ea & _)%add_instruction_grown. exists (l ++ [x]), i. split_and!.
  - by rewrite E', E, <- !app_assoc.
  - apply steps_app; [done | by apply steps_free].
  - by rewrite Ei.
  - by rewrite Ei.
  - intros _. split; [lia|]. by exists l, x.
Qed.

Lemma returnable_SQUEEZE_to_1 base comp sl n comp' : built base comp -> SQUEEZE_to_1 sl n comp = Done comp' -> returnable base comp'.
Proof.
  intros Hb H. unfold SQUEEZE_to_1 in H. destruct (0 <? n)%Z; [|injection H as <-; by apply built_returnable].
  destruct Hb as (l & x & E & Hl & Hx). eapply (returnable_SQUEEZE base l x); [done | done | by apply value_free | | | exact H];
    intros Ex; by rewrite Ex in Hx.
Qed.

Lemma returnable_tidied base comp : returnable base comp -> tidied base comp.
Proof. intros (l & x & E & H & Hx & _). exists (l ++ [x]). split; [done|]. apply steps_app; [done | by apply steps_free]. Qed.

Lemma returnable_EVAL base sl comp comp' : returnable base comp -> EVAL sl 0 comp = Done comp' -> returnable base comp'.
Proof.
  intros Hr H. unfold EVAL in H. code_inv. destruct (_ <? _)%Z; [|by injection H as <-].
  eapply built_returnable, built_add; [|by apply returnable_tidied | exact H]. done.
Qed.

Lemma RETURN_finished base sl comp comp' : returnable base comp -> RETURN sl comp = Done comp' -> finished base comp'.
Proof.
  intros (l & x & E & Hl & Hx & Hp & Hs) (i & E' & Ei & _)%add_instruction_grown. exists ((l ++ [x]) ++ [i]).
  rewrite E', E, <- app_assoc. split_and!; [done | | exists (l ++ [x]), i; by rewrite Ei].
  assert (forward [i]) as Hi by (intros p j Hj Hjj; apply list_lookup_singleton_Some in Hj as [_ <-]; by rewrite Ei in Hjj).
  assert (steps (l ++ [x])) as Hlx by (apply steps_app; [done | by apply steps_free]).
  assert (forall k, hits ((l ++ [x]) ++ [i]) k -> hits (l ++ [x]) k) as Hh.
  { intros k [H|(k' & H & _)]%hits_app_forward; [done | exfalso | done]. apply hits_single in H; [done | by rewrite Ei]. }
  split; [apply forward_app; [apply Hlx | done]|]. intros rp lab Hv. destruct (st_tidy _ Hlx rp lab Hv) as [T _]. split.
  - apply tidy_app. split.
    + eapply tidy_mono; [|exact T]. intros k _ [?|H]; [by left | right; by apply Hh].
    + cbn [tidy]. split; [|done]. unfold allowed_at. rewrite Ei, rev_app_distr. unfold top_op. cbn. split; [congruence|].
      intros [= Ex]. destruct (Hs Ex) as (Ha & l0 & y & -> & Hy1 & Hy2). split_and!.
      * intros [[E0 _]|H]; [rewrite !length_app in E0; cbn in E0; lia|]. apply Hh in H. rewrite Nat.add_0_r in H. revert H.
        apply no_end_hit; [apply Hl | by apply free_jump].
      * by intros s [= <-].
      * rewrite rev_app_distr. cbn. congruence.
      * rewrite rev_app_distr. cbn. congruence.
  - intros H. destruct H as [[H _]|H]; [by destruct (l ++ [x])|]. exfalso. revert H. apply no_end_hit; [apply Hlx | by rewrite Ei].
Qed.

Section R.
Context (src : source) (mkfuel : nat) (C E : compilation -> snode -> pmap -> Z -> outcome compilation).
Hypothesis HC : emits_neat C.
Hypothesis HE : emits_neat E.

Lemma EVAL_DO_finished base sl a comp comp' : tidied base comp -> (comp ← EVAL sl 0 comp; DO sl a comp) = Done comp' -> finished base comp'.
Proof.
  intros Ht H. apply bind_Done_inv in H as (c1 & H1 & H). eapply finished_add; [| |by eapply tidied_EVAL | exact H]; done.
Qed.
Lemma SPARK_EVAL_DO_finished base sl comp comp' : tidied base comp -> SPARK_EVAL_DO sl comp = Done comp' -> finished base comp'.
Proof.
  intros Ht H. unfold SPARK_EVAL_DO in H. apply bind_Done_inv in H as (c1 & H1 & H). eapply EVAL_DO_finished; [|exact H]. by eapply tidied_SPARK.
Qed.
Lemma tidied_SQUEEZE_to_1 base comp sl n comp' : tidied base comp -> SQUEEZE_to_1 sl n comp = Done comp' -> tidied base comp'.
Proof. intros Ht H. unfold SQUEEZE_to_1 in H. destruct (0 <? n)%Z; [by eapply tidied_add in H | by injection H as <-]. Qed.

Lemma Ccons_built c pm n comp comp' : Ccons C E c pm n comp = Done comp' -> built comp comp'.
Proof using HC HE.
  intros H. unfold Ccons in H. destruct (cons_items c) as [items tl]. apply bind_Done_inv in H as (c1 & H1 & H).
  eapply built_add; [| |exact H]; [done|]. eapply tidied_S; [exact HC | exact HE | apply tidied_refl | exact H1].
Qed.

Lemma R_builtin_finished sl bif args pm n comp comp' : R_builtin src mkfuel C E sl bif args pm n comp = Done comp' -> finished comp comp'.
Proof using HC HE.
  intros H. unfold R_builtin, S2 in H. apply bind_Done_inv in H as (c1 & H1 & H). apply bind_Done_inv in H as (bi & _ & H).
  apply bind_Done_inv in H as (si & _ & H). apply bind_Done_inv in H as (u0 & _ & H). apply bind_Done_inv in H as (u1 & _ & H).
  apply bind_Done_inv in H as (c2 & H2 & H). apply bind_Done_inv in H as (c3 & H3 & H).
  apply bind_Done_inv in H as (si' & _ & H). apply bind_Done_inv in H as (u2 & _ & H).
  assert (tidied comp c1) as T1 by (eapply (tidied_push_args C E HC HE); [apply tidied_refl | exact H1]).
  assert (built comp c2) as B2.
  { destruct (bi_pure bi); [by eapply built_BIF|]. apply bind_Done_inv in H2 as (c4 & H4 & H2).
    apply (built_domkframe comp) in H4; [|done]. unfold EVAL in H2. code_inv. destruct (_ <? _)%Z; [|by injection H2 as <-].
    eapply built_add; [|by apply built_tidied | exact H2]. done. }
  destruct (bi_reswhnf bi).
  - eapply RETURN_finished; [|exact H]. by eapply returnable_SQUEEZE_to_1.
  - eapply EVAL_DO_finished; [|exact H]. eapply tidied_SQUEEZE_to_1; [by apply built_tidied | exact H3].
Qed.

Section branches.
Context (R : compilation -> snode -> pmap -> Z -> outcome compilation).
Hypothesis HR : forall comp c pm n comp', R comp c pm n = Done comp' -> finished comp comp'.

Lemma R_if_branches_finished (pop : bool) sl comp comp0 label x1 x2 pm n comp' :
  opened comp comp0 label ->
  (c ← branch comp0;
   c ← (if pop then add_instruction c sl OP_POP 1 0 else Done c);
   c ← R c x1 pm n;
   let c := LABEL label (unbranch comp0 c) in
   c ← branch c;
   c ← (if pop then add_instruction c sl OP_POP 1 0 else Done c);
   c ← R c x2 pm n;
   Done (unbranch comp0 c)) = Done comp' ->
  finished comp comp'.
Proof using HR.
  intros Ho H.
  apply bind_Done_inv in H as (b1 & Hb1 & H). apply bind_Done_inv in H as (b2 & Hb2 & H).
  apply bind_Done_inv in H as (b3 & Hb3 & H). apply bind_Done_inv in H as (d1 & Hd1 & H).
  apply bind_Done_inv in H as (d2 & Hd2 & H). apply bind_Done_inv in H as (d3 & Hd3 & H). injection H as <-.
  exact (opened_finished pop comp comp0 label sl b1 b2 b3 d1 d2 d3 Ho Hb1 Hb2 (HR _ _ _ _ _ Hb3) Hd1 Hd2 (HR _ _ _ _ _ Hd3)).
Qed.

Lemma R_if_finished cond t f pm n comp comp' : R_if E R cond t f pm n comp = Done comp' -> finished comp comp'.
Proof using HE HR.
  intros H. unfold R_if in H. destruct (eq_literal cond) as [[x num]|].
  - apply bind_Done_inv in H as (c1 & H1 & H). apply bind_Done_inv in H as (v & Hv & H). apply bind_Done_inv in H as ([c0 label] & Hj & H).
    exact (R_if_branches_finished true _ _ _ _ f t pm n comp' (JEQ_opened _ _ _ _ _ _ (HE _ _ _ _ _ H1) Hj) H).
  - apply bind_Done_inv in H as (c1 & H1 & H). apply bind_Done_inv in H as ([c0 label] & Hj & H).
    exact (R_if_branches_finished false (node_sl cond) _ _ _ t f pm n comp' (JFALSE_opened _ _ _ _ _ (HE _ _ _ _ _ H1) Hj) H).
Qed.

Lemma R_seq_finished e1 e2 pm n comp comp' : R_seq E R e1 e2 pm n comp = Done comp' -> finished comp comp'.
Proof using HE HR.
  intros H. unfold R_seq in H.
  apply bind_Done_inv in H as (c1 & H1 & H). apply bind_Done_inv in H as (c2 & H2 & H). apply bind_Done_inv in H as (c3 & H3 & H).
  destruct (dropped_fine _ _ _ _ _ _ (HE _ _ _ _ _ H1) H2 H3) as (l & El & Sl & _).
  eapply tidied_finished; [|by eapply HR]. by exists l.
Qed.

Lemma JFUN_finished base sl fno comp comp' : tidied base comp -> JFUN src sl fno comp = Done comp' -> finished base comp'.
Proof.
  intros Ht H. unfold JFUN in H. code_inv. destruct v0; [|code_inv; destruct v0]; (eapply finished_add; [| |exact Ht | exact H]; done).
Qed.

Lemma R_saturated_finished c fno k pm n comp comp' : R_saturated src mkfuel C E R c fno k pm n comp = Done comp' -> finished comp comp'.
Proof using HC HE HR.
  intros H. unfold R_saturated in H.
  assert (forall sl, (item ← item_literal src c; match item with
    | Some (num, l) => index ← int_of_double num; comp ← E comp l pm n; comp ← add_instruction comp sl OP_ITEMN index 1;
        comp ← SQUEEZE_to_1 sl n comp; comp ← EVAL sl 0 comp; DO sl 1 comp
    | None => comp ← S_ C E sl (spine_strict c) pm n comp; JFUN src sl fno comp end) = Done comp' -> finished comp comp') as Hs.
  { intros sl H'. apply bind_Done_inv in H' as (item & _ & H'). destruct item as [[num l]|].
    - apply bind_Done_inv in H' as (v & _ & H'). apply bind_Done_inv in H' as (c1 & H1 & H'). apply bind_Done_inv in H' as (c2 & H2 & H').
      apply bind_Done_inv in H' as (c3 & H3 & H'). eapply EVAL_DO_finished; [|exact H']. eapply tidied_SQUEEZE_to_1; [|exact H3].
      apply HE, neat_tidied in H1. by eapply tidied_add in H2.
    - apply bind_Done_inv in H' as (c1 & H1 & H'). eapply JFUN_finished; [|exact H'].
      eapply tidied_S; [exact HC | exact HE | apply tidied_refl | exact H1]. }
  destruct (spine_head c); try (by eapply Hs).
  destruct (as_if c) as [[[cond t] f]|]; [by eapply R_if_finished|]. destruct (as_seq c) as [[e1 e2]|]; [by eapply R_seq_finished|].
  by eapply R_builtin_finished.
Qed.

Lemma R_application_finished c pm n comp comp' : R_application src mkfuel C E R c pm n comp = Done comp' -> finished comp comp'.
Proof using HC HE HR.
  intros H. unfold R_application in H. destruct (iscons c && _).
  { apply bind_Done_inv in H as (c1 & H1 & H). eapply RETURN_finished; [|exact H]. by eapply built_returnable, Ccons_built. }
  set (sl := node_sl (spine_head c)) in *.
  assert ((fno ← snode_fno src (spine_head c); k ← function_nargs src fno;
    if (k <? Z.of_nat (count_args c))%Z then
      comp ← S_ C E sl (spine_strict c) pm n comp; comp ← domkframe mkfuel src sl fno k comp; SPARK_EVAL_DO sl comp
    else if (Z.of_nat (count_args c) =? k)%Z then R_saturated src mkfuel C E R c fno k pm n comp
    else comp ← push_args_C C (spine_strict c) pm n comp; comp ← MKCAP sl fno (Z.of_nat (count_args c)) comp; RETURN sl comp) = Done comp' ->
    finished comp comp') as Hf.
  { clear H. intros H. apply bind_Done_inv in H as (fno & _ & H). apply bind_Done_inv in H as (k & _ & H). destruct (k <? _)%Z.
    - apply bind_Done_inv in H as (c1 & H1 & H). apply bind_Done_inv in H as (c2 & H2 & H).
      eapply SPARK_EVAL_DO_finished; [|exact H]. eapply built_tidied, built_domkframe; [|exact H2].
      eapply tidied_S; [exact HC | exact HE | apply tidied_refl | exact H1].
    - destruct (_ =? k)%Z; [by eapply R_saturated_finished|]. apply bind_Done_inv in H as (c1 & H1 & H).
      apply bind_Done_inv in H as (c2 & H2 & H). eapply RETURN_finished; [|exact H]. eapply built_returnable, built_MKCAP; [|exact H2].
      eapply tidied_push_args_C; [exact HC | apply tidied_refl | exact H1]. }
  destruct (spine_head c); try discriminate H; try (by apply Hf). apply bind_Done_inv in H as (c1 & H1 & H).
  eapply SPARK_EVAL_DO_finished; [|exact H]. eapply tidied_S; [exact HC | exact HE | apply tidied_refl | exact H1].
Qed.
End branches.
End R.

Lemma R_finished fuel mkfuel src : forall comp c pm n comp', R fuel mkfuel src comp c pm n = Done comp' -> finished comp comp'.
Proof.
  induction fuel as [|fuel IH]; [done|]. intros comp c pm n comp' H. destruct (schemes_neat fuel mkfuel src) as [HC HE].
  assert (forall sl, (c1 ← C fuel mkfuel src comp c pm n; RETURN sl c1) = Done comp' ->
    match c with SNODE_NIL _ | SNODE_NUMBER _ _ | SNODE_STRING _ _ => True | _ => False end -> finished comp comp') as Hlit.
  { intros sl H' Hc. apply bind_Done_inv in H' as (c1 & H1 & H'). eapply RETURN_finished; [|exact H']. apply built_returnable.
    destruct fuel as [|fuel]; [done|]. destruct c; try done; cbn [C] in H1.
    - eapply built_add; [|apply tidied_refl | exact H1]. done.
    - eapply built_add; [|apply tidied_refl | exact H1]. done.
    - eapply built_string; [apply tidied_refl | exact H1]. }
  assert (forall sl, (fno ← snode_fno src c; nargs ← function_nargs src fno;
    if (nargs =? 0)%Z then JFUN src sl fno comp else comp ← MKCAP sl fno 0 comp; RETURN sl comp) = Done comp' -> finished comp comp') as Hf.
  { intros sl H'. apply bind_Done_inv in H' as (fno & _ & H'). apply bind_Done_inv in H' as (k & _ & H').
    destruct (k =? 0)%Z; [eapply JFUN_finished; [apply tidied_refl | exact H']|]. apply bind_Done_inv in H' as (c1 & H1 & H').
    eapply RETURN_finished; [|exact H']. eapply built_returnable, built_MKCAP; [apply tidied_refl | exact H1]. }
  destruct c; cbn [R] in H; try discriminate H; try (by eapply Hf); try (by eapply Hlit).
  - by eapply (R_application_finished src mkfuel _ _ HC HE).
  - apply bind_Done_inv in H as (c1 & H1 & H). apply bind_Done_inv in H as (c2 & H2 & H). apply bind_Done_inv in H as (c3 & H3 & H).
    eapply RETURN_finished; [|exact H]. eapply returnable_EVAL; [|exact H3].
    destruct fuel as [|fuel]; [done|]. cbn [C] in H1. unfold PUSH in H1. code_inv. apply add_instruction_grown in H1 as (i & E1 & Ei & _).
    eapply (returnable_SQUEEZE comp [] i); [exact E1 | apply steps_nil | by rewrite Ei | by rewrite Ei | by rewrite Ei | exact H2].
  - apply bind_Done_inv in H as (c1 & H1 & H). eapply tidied_finished; [|by eapply IH].
    eapply tidied_Cletrec; [exact HC | exact HE | apply tidied_refl | exact H1].
Qed.
