(* ===== verification/PeepholeTyped.v ===== *)
(** * The peephole optimiser keeps code typed

    On the tidy code the schemes emit: an instruction may now find more on the
    stack than it needs, where a POP has been removed. *)

From S2P Require Import Prelude CString Builtins Util Source Resolve Double Pointer Bytecode Peephole StackDiscipline SchemeR PeepholeFacts Compile Arith Typing Flow MacrosTyped Tidy.

#[local] Set Warnings "-clear-no-such-hyp".

(** ** Stacks *)

Lemma drop_top_sub k (t : list slot_ty) : sub_st (drop_top k t) t = true.
Proof. eapply sub_st_prefix. apply sub_st_refl. Qed.

Lemma top_is_val_lookup (t : list slot_ty) : top_is_val t = true <-> 0 < length t /\ t !! (length t - 1) = Some SVal.
Proof.
  unfold top_is_val, slot_is. split.
  - destruct (zlookup t _) as [ty|] eqn:E; [|done]. apply zlookup_Some in E as [Hp E]. intros H%bool_decide_eq_true. subst ty.
    replace (Z.to_nat (Z.of_nat (length t) - 1)) with (length t - 1) in E by lia. split; [lia | done].
  - intros [Hp H]. rewrite (proj2 (zlookup_Some t _ SVal)); [done|]. split; [lia|].
    by replace (Z.to_nat (Z.of_nat (length t) - 1)) with (length t - 1) by lia.
Qed.

(** Two stacks of the same depth with values on top. *)
Lemma sub_top (a b : list slot_ty) : length a = length b -> sub_st (drop_top 1 a) b = true -> top_is_val a = true -> top_is_val b = true ->
  sub_st a b = true.
Proof.
  intros Hl Hs [Ha0 Ha]%top_is_val_lookup [Hb0 Hb]%top_is_val_lookup. rewrite sub_st_spec in Hs |- *. intros i n Hi.
  pose proof (lookup_lt_Some _ _ _ Hi). destruct (decide (i = length a - 1)) as [->|Hne].
  - rewrite Ha in Hi. injection Hi as <-. exists SVal. split; [by rewrite Hl | done].
  - apply (Hs i n). unfold drop_top. rewrite lookup_take_lt by lia. done.
Qed.

Lemma drop_top_snoc (t t' : list slot_ty) x : length t' = length (t ++ [x]) -> sub_st t' (t ++ [x]) = true -> sub_st (drop_top 1 t') t = true.
Proof.
  intros Hl Hs. unfold drop_top. rewrite Hl, length_app. cbn. rewrite Nat.add_sub.
  apply (sub_st_take (length t)) in Hs. by rewrite take_app_length in Hs.
Qed.

Section peephole.
Context (su : surroundings) (n : Z) (J : Z -> list slot_ty -> Prop).
Hypothesis HJ : forall a (st st' : list slot_ty), J a st -> sub_st st st' = true -> J a st'.

Definition typed (ex : bool) (l : list instruction) (ts : list (list slot_ty)) : Prop := flows su ex n (fun _ => J) [] 0 l ts.

(** What the code typed by [ts] accepts. *)
Definition takes (ex : bool) (ts : list (list slot_ty)) (st : list slot_ty) : Prop := exists t, head ts = Some t /\ fits ex t st.

Lemma flows_pos ex l : forall pos pos' ts, flows su ex n (fun _ => J) [] pos l ts -> flows su ex n (fun _ => J) [] pos' l ts.
Proof.
  induction l as [|i l IH]; intros pos pos' [|t ts]; cbn [flows]; try done. intros (H1 & H2 & H3 & H4). split_and!; [done | done | done|].
  by eapply IH.
Qed.

Lemma typed_cons ex i l t ts : typed ex (i :: l) (t :: ts) <->
  i_expcount i = Z.of_nat (length t) /\ place_ok su i /\ okop su n J (takes ex ts) (i_opcode <$> head l) t i /\ typed ex l ts.
Proof.
  unfold typed. cbn [flows]. rewrite app_nil_r. split; intros (H1 & H2 & H3 & H4); split_and!; try done; by eapply flows_pos.
Qed.

Lemma typed_nil ex ts : typed ex [] ts <-> ts = [].
Proof. by destruct ts. Qed.
Lemma typed_length ex l ts : typed ex l ts -> length ts = length l.
Proof. apply flows_length. Qed.

Lemma typed_inv ex i l ts : typed ex (i :: l) ts -> exists t ts', ts = t :: ts' /\
  i_expcount i = Z.of_nat (length t) /\ place_ok su i /\ okop su n J (takes ex ts') (i_opcode <$> head l) t i /\ typed ex l ts'.
Proof. destruct ts as [|t ts]; [done|]. intros H%typed_cons. by exists t, ts. Qed.

Lemma takes_weaken ex ts st : takes ex ts st -> takes false ts st.
Proof. intros (t & Ht & [Hf _]). by exists t. Qed.
Lemma takes_sub ts st st' : takes false ts st -> sub_st st st' = true -> takes false ts st'.
Proof. intros (t & Ht & [Hf _]) Hs. exists t. split; [done|]. split; [by eapply sub_st_trans | done]. Qed.

(** ** What a pass leaves

    [tg] are the addresses that are targets of jumps. *)
Record typed_out (tg : nat -> Prop) (dest : Z) (code : list instruction) (ts : list (list slot_ty)) (ms : list Z)
    (out : list instruction) (ts' : list (list slot_ty)) : Prop := {
  to_flows : typed false out ts';
  to_head : forall st, takes false ts st -> takes false ts' st;
  to_map : forall k (t : list slot_ty), tg k -> ts !! k = Some t -> exists m (t' : list slot_ty), ms !! k = Some m /\ (dest <= m)%Z /\
    ts' !! Z.to_nat (m - dest) = Some t' /\ sub_st t' t = true;
  to_eval : i_opcode <$> head code = Some OP_EVAL -> i_opcode <$> head out = Some OP_EVAL
}.

Lemma typed_emit tg dest cs tcs rest trest ms0 is_ tis ms out ts' :
  length tcs = length cs -> length ms0 = length cs -> length tis = length is_ ->
  typed_out (fun k => tg (length cs + k)) (dest + Z.of_nat (length is_)) rest trest ms out ts' ->
  typed false (is_ ++ out) (tis ++ ts') ->
  (forall st, takes false (tcs ++ trest) st -> takes false (tis ++ ts') st) ->
  (forall k (t : list slot_ty), tg k -> tcs !! k = Some t -> exists m (t' : list slot_ty), ms0 !! k = Some m /\ (dest <= m)%Z /\
    (tis ++ ts') !! Z.to_nat (m - dest) = Some t' /\ sub_st t' t = true) ->
  (i_opcode <$> head (cs ++ rest) = Some OP_EVAL -> i_opcode <$> head (is_ ++ out) = Some OP_EVAL) ->
  typed_out tg dest (cs ++ rest) (tcs ++ trest) (ms0 ++ ms) (is_ ++ out) (tis ++ ts').
Proof.
  intros L1 L2 L3 [T1 T2 T3 T4] Hf Hh Hm He. split; [done | done | | done].
  intros k t Hk [Ht|[Hl Ht]]%lookup_app_Some.
  - destruct (Hm k t Hk Ht) as (m & t' & E & ?). exists m, t'. split; [by apply lookup_app_l_Some | done].
  - assert (length cs + (k - length cs) = k) as Ek by lia.
    destruct (T3 (k - length cs) t) as (m & t' & E1 & E2 & E3 & E4); [by rewrite Ek | by rewrite <- L1|].
    exists m, t'. split_and!; [rewrite lookup_app_r by lia; by rewrite L2 | lia | | done].
    rewrite lookup_app_r by lia. rewrite <- E3. f_equal. lia.
Qed.

(** An instruction kept, or replaced by one for the same stack. *)
Lemma typed_keep tg dest a a' t rest trest ms out ts' :
  i_expcount a' = Z.of_nat (length t) -> place_ok su a' ->
  (i_opcode a = OP_EVAL -> i_opcode a' = OP_EVAL) ->
  typed_out (fun k => tg (S k)) (dest + 1) rest trest ms out ts' ->
  okop su n J (takes false ts') (i_opcode <$> head out) t a' ->
  typed_out tg dest (a :: rest) (t :: trest) (dest :: ms) (a' :: out) (t :: ts').
Proof.
  intros He Hp Hop Ho Hok. apply (typed_emit tg dest [a] [t] rest trest [dest] [a'] [t] ms out ts'); try done.
  - apply typed_cons. split_and!; [done | done | done | apply Ho].
  - intros [|k] t' _ Ht; [|done]. exists dest, t. injection Ht as <-. split_and!; [done | lia | by rewrite Z.sub_diag | apply sub_st_refl].
  - cbn. intros [= E]. by rewrite Hop.
Qed.

Lemma kept_ok ex tg dest a t rest trest ms out ts' :
  okop su n J (takes ex trest) (i_opcode <$> head rest) t a -> typed_out tg dest rest trest ms out ts' ->
  okop su n J (takes false ts') (i_opcode <$> head out) t a.
Proof.
  intros Hok [_ Hh _ He]. eapply okop_mono; [| | | |exact Hok]; [done | done | | done].
  intros st Hst. by apply Hh, (takes_weaken ex).
Qed.

Lemma typed_kept ex tg dest a t rest trest ms out ts' :
  typed ex (a :: rest) (t :: trest) -> typed_out (fun k => tg (S k)) (dest + 1) rest trest ms out ts' ->
  typed_out tg dest (a :: rest) (t :: trest) (dest :: ms) (a :: out) (t :: ts').
Proof.
  intros (He & Hp & Hok & _)%typed_cons Ho. eapply typed_keep; [done | done | done | exact Ho | by eapply kept_ok].
Qed.

(** Two instructions that become one for the stack of the first, or of the
    second if no less is known of it. *)
Lemma typed_pair (tg : nat -> Prop) dest a b c t1 t2 t rest trest ms out ts' :
  i_expcount c = Z.of_nat (length t) -> place_ok su c -> i_opcode a <> OP_EVAL ->
  sub_st t t1 = true -> (tg 1 -> sub_st t t2 = true) ->
  typed_out (fun k => tg (S (S k))) (dest + 1) rest trest ms out ts' ->
  okop su n J (takes false ts') (i_opcode <$> head out) t c ->
  typed_out tg dest (a :: b :: rest) (t1 :: t2 :: trest) (dest :: dest :: ms) (c :: out) (t :: ts').
Proof.
  intros He Hp Hop H1 H2 Ho Hok. apply (typed_emit tg dest [a; b] [t1; t2] rest trest [dest; dest] [c] [t] ms out ts'); try done.
  - apply typed_cons. split_and!; [done | done | done | apply Ho].
  - intros st (t0 & [= <-] & [Hs _]). exists t. split; [done|]. split; [by eapply sub_st_trans | done].
  - intros [|[|k]] t' Hk Ht; [| |done]; exists dest, t; injection Ht as <-; (split_and!; [done | lia | by rewrite Z.sub_diag | by auto]).
  - cbn. intros [= E]. congruence.
Qed.

Lemma typed_spark_eval ex tg dest a b rest ts ms out : spark_eval a b = true -> typed ex (a :: b :: rest) ts ->
  (forall trest, typed ex rest trest -> exists ts' : list (list slot_ty), typed_out (fun k => tg (S (S k))) (dest + 1) rest trest ms out ts') ->
  exists ts' : list (list slot_ty), typed_out tg dest (a :: b :: rest) ts (dest :: dest :: ms) (b :: out) ts'.
Proof.
  intros Hr (t1 & ts1 & -> & _ & _ & H1 & (t2 & trest & -> & He & Hp & H2 & H3)%typed_inv)%typed_inv Hrest.
  unfold spark_eval in Hr. apply andb_true_iff in Hr as [[Ha%is_op_true Hb%is_op_true]%andb_true_iff _].
  destruct (Hrest _ H3) as [ts'' Ho]. exists (t2 :: ts''). unfold okop in H1. rewrite Ha in H1.
  destruct H1 as [_ (t & [= <-] & [Hs _])]. eapply typed_pair; [done | done | congruence | done | intros _; apply sub_st_refl | exact Ho | by eapply kept_ok].
Qed.

Lemma typed_mkframe_eval ex tg dest a b rest ts ms out : mkframe_eval a b = true -> typed ex (a :: b :: rest) ts ->
  (forall trest, typed ex (b :: rest) trest -> exists ts' : list (list slot_ty), typed_out (fun k => tg (S k)) (dest + 1) (b :: rest) trest ms out ts') ->
  exists ts' : list (list slot_ty), typed_out tg dest (a :: b :: rest) ts (dest :: ms) (set_opcode OP_CALL a :: out) ts'.
Proof.
  intros Hr (t1 & ts1 & -> & He & Hp & H1 & H2)%typed_inv Hrest.
  unfold mkframe_eval in Hr. apply andb_true_iff in Hr as [[Ha%is_op_true Hb%is_op_true]%andb_true_iff _].
  destruct (Hrest _ H2) as [ts'' Ho]. exists (t1 :: ts''). eapply typed_keep; [done | done | congruence | exact Ho|].
  pose proof (to_eval _ _ _ _ _ _ _ Ho) as Hev. cbn in Hev. rewrite Hb in Hev. specialize (Hev eq_refl). rewrite Hev.
  pose proof (kept_ok _ _ _ _ _ _ _ _ _ _ H1 Ho) as Hk. unfold okop in *. cbn. by rewrite Ha in Hk.
Qed.

Lemma typed_squeeze_return tg dest rp a b rest ts ms out : squeeze_return a b = true -> typed true (a :: b :: rest) ts ->
  tidy rp tg (a :: b :: rest) ->
  (forall trest, typed true rest trest -> exists ts' : list (list slot_ty), typed_out (fun k => tg (S (S k))) (dest + 1) rest trest ms out ts') ->
  exists ts' : list (list slot_ty), typed_out tg dest (a :: b :: rest) ts (dest :: dest :: ms) (set_expcount (i_expcount a) b :: out) ts'.
Proof.
  intros Hr (t1 & ts1 & -> & He1 & Hp1 & H1 & (t2 & trest & -> & He & Hp & H2 & H3)%typed_inv)%typed_inv (_ & Hall & _) Hrest.
  unfold squeeze_return in Hr. apply andb_true_iff in Hr as [Ha%is_op_true Hb%is_op_true].
  destruct (Hrest _ H3) as [ts'' Ho]. exists (t1 :: ts''). unfold allowed_at in Hall. rewrite Hb in Hall. unfold top_op in Hall. cbn in Hall.
  destruct Hall as [_ Hall]. rewrite Ha in Hall. destruct (Hall eq_refl) as (Hlab & Ha0 & _). specialize (Ha0 a eq_refl).
  eapply typed_pair; [done | done | congruence | apply sub_st_refl | done | exact Ho|].
  unfold okop in *. cbn. rewrite Hb in *. rewrite Ha in H1. destruct H1 as (H0 & H1 & H4 & (t & [= <-] & [Hs Hl])).
  specialize (Hl eq_refl). apply top_is_val_lookup in H2 as [Hl2 H2]. apply top_is_val_lookup.
  rewrite sub_st_spec in Hs. destruct (Hs _ _ H2) as (ty & Hty & Hsub). unfold ztake in *.
  rewrite length_app, length_take, length_drop in Hl. rewrite lookup_app_r in Hty by (rewrite length_take; lia).
  rewrite lookup_drop, length_take in Hty. split; [lia|].
  replace (Z.to_nat (Z.of_nat (length t1) - i_arg0 a) + (length t2 - 1 - Z.to_nat (Z.of_nat (length t1) - i_arg0 a - i_arg1 a) `min` length t1))
    with (length t1 - 1) in Hty by lia. rewrite Hty. by destruct ty.
Qed.

Lemma comparison_builtin bif : is_comparison bif = true -> (0 <= bif)%Z /\ Z.to_nat bif ∈ [B_EQ; B_NE; B_LT; B_LE; B_GT; B_GE] /\
  exists b, zlookup builtin_info bif = Some b /\ bi_nargs b = 2 /\ bi_nstrict b = 2.
Proof.
  unfold is_comparison. intros (b & Hb & E%Z.eqb_eq)%existsb_exists. subst bif. rewrite zlookup_of_nat, Nat2Z.id.
  split; [lia|]. split; [by apply list_elem_of_In|].
  cbn [In] in Hb. destruct Hb as [<-|[<-|[<-|[<-|[<-|[<-|[]]]]]]]; by eexists.
Qed.

Lemma typed_bif_jfalse tg dest rp a b rest ts ms out : bif_jfalse a b = true -> typed true (a :: b :: rest) ts ->
  tidy rp tg (a :: b :: rest) ->
  (forall trest, typed true rest trest -> exists ts' : list (list slot_ty), typed_out (fun k => tg (S (S k))) (dest + 1) rest trest ms out ts') ->
  exists ts' : list (list slot_ty), typed_out tg dest (a :: b :: rest) ts (dest :: dest :: ms) (jcmp a b :: out) ts'.
Proof using HJ.
  intros Hr (t1 & ts1 & -> & He1 & Hp1 & H1 & (t2 & trest & -> & He & Hp & H2 & H3)%typed_inv)%typed_inv (_ & Hall & _) Hrest.
  unfold bif_jfalse in Hr. apply andb_true_iff in Hr as [[Ha%is_op_true Hb%is_op_true]%andb_true_iff Hc].
  destruct (comparison_builtin _ Hc) as (Hc0 & Hc1 & bi & Hbi & Hn & Hs).
  destruct (Hrest _ H3) as [ts'' Ho]. exists (t1 :: ts''). unfold allowed_at in Hall. rewrite Hb in Hall. unfold top_op in Hall. cbn in Hall.
  destruct Hall as [_ Hall]. rewrite Ha in Hall.
  eapply typed_pair; [done | done | congruence | apply sub_st_refl | by intros Hlab; destruct (Hall Hlab) | exact Ho|].
  pose proof (kept_ok _ _ _ _ _ _ _ _ _ _ H2 Ho) as Hk. unfold okop in Hk, H1 |- *. cbn. rewrite Ha in H1. rewrite Hb in Hk.
  destruct H1 as (b' & Hb' & _ & Hle & Hstr & (t & [= <-] & [Hf Hl])). rewrite Hbi in Hb'. injection Hb' as <-. rewrite Hn, Hs in *.
  destruct Hk as (_ & Hnext & Hjump). specialize (Hl eq_refl).
  assert (sub_st (drop_top 1 t2) (drop_top 2 t1) = true) as Hsub.
  { unfold replace_top, ztake in *. rewrite length_app, length_take in Hl. cbn in Hl. unfold drop_top.
    replace (length t2 - 1) with (length t1 - 2) by lia. apply (sub_st_take (length t1 - 2)) in Hf.
    rewrite take_app_le, take_take in Hf by (rewrite length_take; lia).
    by replace ((length t1 - 2) `min` Z.to_nat (Z.of_nat (length t1) - Z.of_nat 2)) with (length t1 - 2) in Hf by lia. }
  split_and!.
  - specialize (Hstr 0 ltac:(lia)). unfold top_is_val. by rewrite Z.sub_0_r in Hstr.
  - specialize (Hstr 1 ltac:(lia)). by replace (Z.of_nat (length t1) - 1 - Z.of_nat 1)%Z with (Z.of_nat (length t1) - 2)%Z in Hstr by lia.
  - done.
  - done.
  - by eapply takes_sub.
  - by eapply HJ.
Qed.

Lemma typed_drop_pop ex tg dest a rest ts ms out : i_opcode a = OP_POP -> typed ex (a :: rest) ts ->
  (forall trest, typed ex rest trest -> exists ts' : list (list slot_ty), typed_out (fun k => tg (S k)) dest rest trest ms out ts') ->
  exists ts' : list (list slot_ty), typed_out tg dest (a :: rest) ts (dest :: ms) out ts'.
Proof.
  intros Ha (t & trest & -> & He & Hp & H1 & H2)%typed_inv Hrest. destruct (Hrest _ H2) as [ts' Ho]. exists ts'.
  unfold okop in H1. rewrite Ha in H1. destruct H1 as [_ Hn].
  destruct (to_head _ _ _ _ _ _ _ Ho _ (takes_weaken _ _ _ Hn)) as (t' & Ht' & [Hs _]).
  assert (sub_st t' t = true) as Hst by (eapply sub_st_trans; [exact Hs | apply drop_top_sub]).
  destruct ts' as [|t0 ts']; [done|]. injection Ht' as <-.
  apply (typed_emit tg dest [a] [t] rest trest [dest] [] [] ms out (t0 :: ts')); try done.
  - cbn. rewrite Z.add_0_r. exact Ho.
  - apply Ho.
  - intros st (t1 & [= <-] & [Hs1 _]). exists t0. split; [done|]. split; [eapply sub_st_trans; [exact Hst | exact Hs1] | done].
  - intros [|k] t1 _ Ht; [|done]. injection Ht as <-. exists dest, t0. split_and!; [done | lia | by rewrite Z.sub_diag | done].
  - cbn. intros [= E]. congruence.
Qed.

(** ** Chains of comparisons

    In front of the code, the stack [st] is the one a JEQ has left. *)
Record typed_loop (tg : nat -> Prop) (dest : Z) (st : list slot_ty) (ts : list (list slot_ty)) (ms : list Z)
    (out : list instruction) (ts' : list (list slot_ty)) : Prop := {
  tl_flows : typed false out ts';
  tl_takes : takes false ts' st;
  tl_map : forall k (t : list slot_ty), tg k -> ts !! k = Some t -> exists m (t' : list slot_ty), ms !! k = Some m /\ (dest <= m)%Z /\
    ts' !! Z.to_nat (m - dest) = Some t' /\ sub_st t' t = true
}.

(** What the loop leaves for the rest of the pass. *)
Definition loop_typed (tg : nat -> Prop) (dest : Z) (rp : list instruction) (st : list slot_ty) (code : list instruction)
    (ts : list (list slot_ty)) (ms : list Z) (out rest : list instruction) : Prop :=
  exists cs tcs trest, code = cs ++ rest /\ ts = tcs ++ trest /\ length tcs = length cs /\ typed true rest trest /\
    forall ms' out' ts', typed_out (fun k => tg (length cs + k)) (dest + Z.of_nat (length out)) rest trest ms' out' ts' ->
      exists ts'', typed_loop tg dest st ts (ms ++ ms') (out ++ out') ts''.

Lemma loop_typed_nil tg dest rp st code ts : typed true code ts -> takes true ts st -> loop_typed tg dest rp st code ts [] [] code.
Proof.
  intros Hf Ht. exists [], [], ts. split_and!; try done. intros ms' out' ts' [T1 T2 T3 _]. exists ts'. split; [done | | ].
  - by apply T2, (takes_weaken true).
  - intros k t Hk Hts. destruct (T3 k t Hk Hts) as (m & t' & E1 & E2 & E3 & E4). exists m, t'. cbn in E2, E3. rewrite Z.add_0_r in *. done.
Qed.

(** One round: [p] in front of the JEQ [c] is dropped, and nothing jumps there. *)
Lemma loop_typed_step (tg : nat -> Prop) dest rp rp' st p c code tp tc tcode ms out rest :
  typed true (c :: code) (tc :: tcode) -> length tp = length p -> sub_st tc st = true -> i_opcode c = OP_JEQ ->
  (forall k, k < length p -> ~ tg k) ->
  loop_typed (fun k => tg (S (length p + k))) (dest + 1) rp' tc code tcode ms out rest ->
  loop_typed tg dest rp st (p ++ c :: code) (tp ++ tc :: tcode) (replicate (S (length p)) dest ++ ms) (c :: out) rest.
Proof.
  intros Hc Hlp Hsub Hop Hno (cs & tcs & trest & -> & -> & Hl & Hrest & Hcont).
  exists (p ++ c :: cs), (tp ++ tc :: tcs), trest. split_and!; [by rewrite <- app_assoc | by rewrite <- app_assoc | rewrite !length_app; cbn; lia | done |].
  intros ms' out' ts' Ho. destruct (Hcont ms' out' ts') as (ts'' & [T1 T2 T3]).
  { destruct Ho as [O1 O2 O3 O4]. split; [done | done | | done]. intros k t Hk Ht. destruct (O3 k t) as (m & t' & E1 & E2 & E3 & E4); [|done|].
    - rewrite length_app. cbn. by replace (length p + S (length cs) + k) with (S (length p + (length cs + k))) by lia.
    - exists m, t'. cbn [length] in E2, E3. split_and!; [done | lia | | done]. rewrite <- E3. f_equal. lia. }
  exists (tc :: ts''). apply typed_cons in Hc as (He & Hp & Hok & _). split.
  - apply typed_cons. split_and!; [done | done | | done]. unfold okop in *. rewrite Hop in *. destruct Hok as (H1 & _ & H3). by split_and!.
  - exists tc. by split.
  - intros k t Hk Ht. destruct (decide (k < length p)) as [Hlt|Hge]; [by destruct (Hno k Hlt)|].
    rewrite lookup_app_r in Ht by lia. rewrite <- app_assoc. destruct (k - length tp) as [|k'] eqn:Ek; cbn in Ht.
    + injection Ht as <-. exists dest, tc. split_and!; [|lia | by rewrite Z.sub_diag | apply sub_st_refl].
      apply lookup_app_l_Some, lookup_replicate. split; [done | lia].
    + destruct (T3 k' t) as (m & t' & E1 & E2 & E3 & E4); [by replace (S (length p + k')) with k by lia | done|].
      exists m, t'. split_and!; [|lia | |done].
      * rewrite lookup_app_r; rewrite length_replicate; [|lia]. by replace (k - S (length p)) with k' by lia.
      * replace (Z.to_nat (m - dest)) with (S (Z.to_nat (m - (dest + 1)))) by lia. done.
Qed.

Lemma loop1_typed fuel arg0 : forall dest code ms out rest ts rp tg st,
  jeq_loop1 fuel arg0 dest code = (ms, out, rest) -> typed true code ts -> tidy rp tg code -> top_op rp = Some OP_JEQ ->
  takes true ts st -> top_is_val st = true -> loop_typed tg dest rp st code ts ms out rest.
Proof.
  induction fuel as [|fuel IH]; intros dest code ms out rest ts rp tg st H Hf Htd Hrp Ht Hv; cbn [jeq_loop1] in H.
  { injection H as <- <- <-. by apply loop_typed_nil. }
  destruct code as [|a [|b [|c code]]]; try (injection H as <- <- <-; by apply loop_typed_nil).
  destruct (is_op OP_POP a && _ && _ && _) eqn:Ec; [|injection H as <- <- <-; by apply loop_typed_nil]. ops.
  match goal with H : i_opcode a = _ |- _ => rename H into Ha end. match goal with H : i_opcode b = _ |- _ => rename H into Hb end.
  match goal with H : i_opcode c = _ |- _ => rename H into Hcop end. match goal with H : (arg0 =? _)%Z = true |- _ => clear H end.
  destruct (jeq_loop1 fuel arg0 (dest + 1) code) as [[ms1 out1] rest1] eqn:E. injection H as <- <- <-.
  apply typed_inv in Hf as (t1 & ts1 & -> & _ & _ & H1 & Hf). apply typed_inv in Hf as (t2 & ts2 & -> & _ & _ & H2 & Hf).
  pose proof Hf as Hc. apply typed_inv in Hf as (t3 & ts3 & -> & _ & _ & H3 & Hf).
  destruct Htd as (A1 & A2 & A3 & Htd). unfold allowed_at, top_op in A1, A2. cbn [head] in A2. cbn in A2.
  rewrite Ha in A1, A2. rewrite Hb in A2.
  unfold okop in H1, H2, H3. rewrite Ha in H1. rewrite Hb in H2. rewrite Hcop in H3.
  destruct Ht as (t & [= <-] & [S1 L1]). destruct H1 as [_ (t & [= <-] & [S2 L2])]. destruct H2 as (ty & _ & (t & [= <-] & [S3 L3])).
  specialize (L1 eq_refl). specialize (L2 eq_refl). specialize (L3 eq_refl).
  assert (length t3 = length st) as Hl3.
  { rewrite L3, length_app, L2. unfold drop_top. rewrite length_take. cbn. apply top_is_val_lookup in Hv as [? _]. lia. }
  assert (sub_st t3 st = true) as Hsub.
  { apply sub_top; [done | | by destruct H3 | done]. eapply sub_st_trans; [by eapply drop_top_snoc|].
    eapply sub_st_trans; [exact S2|]. eapply sub_st_trans; [apply drop_top_sub | exact S1]. }
  apply (loop_typed_step tg dest rp (c :: b :: a :: rp) st [a; b] c code [t1; t2] t3 ts3 ms1 out1 rest1 Hc eq_refl Hsub Hcop).
  - intros [|[|k]] Hk Htg; cbn in Hk; [by apply A1 in Htg | by apply A2 in Htg | lia].
  - eapply IH; [exact E | done | exact Htd | unfold top_op; cbn; by rewrite Hcop | | by destruct H3].
    destruct H3 as (_ & H3 & _). exact H3.
Qed.

Lemma loop2_typed fuel arg0 : forall dest code ms out rest ts rp tg st,
  jeq_loop2 fuel arg0 dest code = (ms, out, rest) -> typed true code ts -> tidy rp tg code -> top_op rp = Some OP_JEQ ->
  takes true ts st -> top_is_val st = true -> loop_typed tg dest rp st code ts ms out rest.
Proof.
  induction fuel as [|fuel IH]; intros dest code ms out rest ts rp tg st H Hf Htd Hrp Ht Hv; cbn [jeq_loop2] in H.
  { injection H as <- <- <-. by apply loop_typed_nil. }
  destruct code as [|a [|b [|e [|c code]]]]; try (injection H as <- <- <-; by apply loop_typed_nil).
  destruct (is_op OP_POP a && _ && _ && _ && _ && _) eqn:Ec; [|injection H as <- <- <-; by apply loop_typed_nil]. ops.
  match goal with H : i_opcode a = _ |- _ => rename H into Ha end. match goal with H : i_opcode b = _ |- _ => rename H into Hb end.
  match goal with H : i_opcode e = _ |- _ => rename H into He end. match goal with H : i_opcode c = _ |- _ => rename H into Hcop end.
  match goal with H : (arg0 =? _)%Z = true |- _ => clear H end.
  destruct (jeq_loop2 fuel arg0 (dest + 1) code) as [[ms1 out1] rest1] eqn:E. injection H as <- <- <-.
  match goal with H : (i_arg0 e =? i_expcount b)%Z = true |- _ => apply Z.eqb_eq in H; rename H into Harg end.
  apply typed_inv in Hf as (t1 & ts1 & -> & _ & _ & H1 & Hf). apply typed_inv in Hf as (t2 & ts2 & -> & Heb & _ & H2 & Hf).
  apply typed_inv in Hf as (t3 & ts3 & -> & _ & _ & H3 & Hf).
  pose proof Hf as Hc. apply typed_inv in Hf as (t4 & ts4 & -> & _ & _ & H4 & Hf).
  destruct Htd as (A1 & A2 & A3 & A4 & Htd). unfold allowed_at, push_pop_jeq, pop_after_jeq in A1, A2, A3. unfold top_op in A1, A2, A3. cbn in A2, A3.
  rewrite Ha in A1. rewrite Hb, Ha in A2. rewrite He, Hb, Ha in A3.
  unfold okop in H1, H2, H3, H4. rewrite Ha in H1. rewrite Hb in H2. rewrite He in H3. rewrite Hcop in H4.
  destruct Ht as (t & [= <-] & [S1 L1]). destruct H1 as [_ (t & [= <-] & [S2 L2])]. destruct H2 as (ty & _ & (t & [= <-] & [S3 L3])).
  destruct H3 as (_ & (t & [= <-] & [S4 L4])).
  specialize (L1 eq_refl). specialize (L2 eq_refl). specialize (L3 eq_refl). specialize (L4 eq_refl). rewrite length_insert in L4.
  assert (length t4 = length st) as Hl3.
  { rewrite L4, L3, length_app, L2. unfold drop_top. rewrite length_take. cbn. apply top_is_val_lookup in Hv as [? _]. lia. }
  assert (sub_st (drop_top 1 t4) t2 = true) as Hsub2.
  { eapply (sub_st_trans _ (drop_top 1 t3)); [|by eapply drop_top_snoc]. unfold drop_top. rewrite L4.
    apply (sub_st_take (length t3 - 1)) in S4. rewrite take_insert_ge in S4; [done|].
    rewrite Harg, Heb, L3, length_app. cbn. lia. }
  assert (sub_st t4 st = true) as Hsub.
  { apply sub_top; [done | | by destruct H4 | done]. eapply sub_st_trans; [exact Hsub2|].
    eapply sub_st_trans; [exact S2|]. eapply sub_st_trans; [apply drop_top_sub | exact S1]. }
  apply (loop_typed_step tg dest rp (c :: e :: b :: a :: rp) st [a; b; e] c code [t1; t2; t3] t4 ts4 ms1 out1 rest1 Hc eq_refl Hsub Hcop).
  - intros [|[|[|k]]] Hk Htg; cbn in Hk; [by apply A1 in Htg | by apply A2 in Htg | by apply (A3 Htg) | lia].
  - eapply IH; [exact E | done | exact Htd | unfold top_op; cbn; by rewrite Hcop | | by destruct H4].
    destruct H4 as (_ & H4 & _). exact H4.
Qed.

(** ** The first pass *)

Lemma typed_chain tg dest a b rest ms out t1 t2 ts ts' :
  typed true (a :: b :: rest) (t1 :: t2 :: ts) -> i_opcode a = OP_PUSH -> i_opcode b = OP_JEQ ->
  typed_loop (fun k => tg (S (S k))) (dest + 2) t2 ts ms out ts' ->
  typed_out tg dest (a :: b :: rest) (t1 :: t2 :: ts) (dest :: (dest + 1)%Z :: ms) (a :: b :: out) (t1 :: t2 :: ts').
Proof.
  intros (Ea & Pa & H1 & (Eb & Pb & H2 & Hf)%typed_cons)%typed_cons Ha Hb [T1 T2 T3].
  assert (typed false (b :: out) (t2 :: ts')) as Hfb.
  { apply typed_cons. split_and!; [done | done | | done]. unfold okop in *. rewrite Hb in *. destruct H2 as (H2 & _ & H4). by split_and!. }
  split.
  - apply typed_cons. split_and!; [done | done | | done]. unfold okop in *. rewrite Ha in *.
    destruct H1 as (ty & H1 & (t & [= <-] & [Hs _])). exists ty. split; [done|]. by exists t2.
  - intros st (t & [= <-] & Hs). by exists t1.
  - intros [|[|k]] t Hk Ht; cbn in Ht.
    + injection Ht as <-. exists dest, t1. split_and!; [done | lia | by rewrite Z.sub_diag | apply sub_st_refl].
    + injection Ht as <-. exists (dest + 1)%Z, t2. split_and!; [done | lia | | apply sub_st_refl].
      by replace (Z.to_nat (dest + 1 - dest)) with 1 by lia.
    + destruct (T3 k t Hk Ht) as (m & t' & E1 & E2 & E3 & E4). exists m, t'. split_and!; [done | lia | | done].
      by replace (Z.to_nat (m - dest)) with (S (S (Z.to_nat (m - (dest + 2))))) by lia.
  - cbn. by rewrite Ha.
Qed.

Lemma typed_chain2 tg dest a b c rest ms out t1 t2 t3 ts ts' :
  typed true (a :: b :: c :: rest) (t1 :: t2 :: t3 :: ts) -> i_opcode a = OP_PUSH -> i_opcode b = OP_EVAL -> i_opcode c = OP_JEQ ->
  typed_loop (fun k => tg (S (S (S k)))) (dest + 3) t3 ts ms out ts' ->
  typed_out tg dest (a :: b :: c :: rest) (t1 :: t2 :: t3 :: ts) (dest :: (dest + 1)%Z :: (dest + 2)%Z :: ms) (a :: b :: c :: out) (t1 :: t2 :: t3 :: ts').
Proof.
  intros (Ea & Pa & H1 & (Eb & Pb & H2 & (Ec & Pc & H3 & Hf)%typed_cons)%typed_cons)%typed_cons Ha Hb Hc [T1 T2 T3].
  split.
  - rewrite !typed_cons. unfold okop in *. rewrite Ha in H1. rewrite Hb in H2. rewrite Hc in H3. rewrite Ha, Hb, Hc.
    destruct H1 as (ty & H1 & (t & [= <-] & [Hs _])). destruct H2 as (H2 & (t & [= <-] & [Hs2 _])). destruct H3 as (H3 & _ & H4).
    split_and!; try done. + exists ty. split; [done|]. by exists t2. + by exists t3.
  - intros st (t & [= <-] & Hs). by exists t1.
  - intros [|[|[|k]]] t Hk Ht; cbn in Ht.
    + injection Ht as <-. exists dest, t1. split_and!; [done | lia | by rewrite Z.sub_diag | apply sub_st_refl].
    + injection Ht as <-. exists (dest + 1)%Z, t2. split_and!; [done | lia | | apply sub_st_refl].
      by replace (Z.to_nat (dest + 1 - dest)) with 1 by lia.
    + injection Ht as <-. exists (dest + 2)%Z, t3. split_and!; [done | lia | | apply sub_st_refl].
      by replace (Z.to_nat (dest + 2 - dest)) with 2 by lia.
    + destruct (T3 k t Hk Ht) as (m & t' & E1 & E2 & E3 & E4). exists m, t'. split_and!; [done | lia | | done].
      by replace (Z.to_nat (m - dest)) with (S (S (S (Z.to_nat (m - (dest + 3)))))) by lia.
  - cbn. by rewrite Ha.
Qed.

(** The chain found at [code], with what the pass does after it. *)
Lemma jeq_chain1_split a rest arg0 : jeq_chain1 (a :: rest) = Some arg0 -> i_opcode a = OP_PUSH /\ exists b rest', rest = b :: rest' /\ i_opcode b = OP_JEQ.
Proof. intros H. apply jeq_chain1_hd in H as (a' & b & rest' & [= <- ->] & ? & ?). eauto. Qed.
Lemma jeq_chain2_split a rest arg0 : jeq_chain2 (a :: rest) = Some arg0 ->
  i_opcode a = OP_PUSH /\ exists b c rest', rest = b :: c :: rest' /\ i_opcode b = OP_EVAL /\ i_opcode c = OP_JEQ.
Proof. intros H. apply jeq_chain2_hd in H as (a' & b & c & rest' & [= <- ->] & ? & ? & ?). eauto 8. Qed.

Lemma tidy_suffix l1 l2 rp tg : tidy rp tg (l1 ++ l2) -> exists rp', tidy rp' (fun k => tg (length l1 + k)) l2.
Proof. intros [_ H]%tidy_app. by eexists. Qed.

Definition passes_typed (fuel : nat) : Prop := forall dest code r ts rp tg,
  pass fuel dest code = Done r -> typed true code ts -> tidy rp tg code ->
  exists ts' : list (list slot_ty), typed_out tg dest code ts (pr_map r) (pr_code r) ts'.

Lemma loop_continue fuel dest tg rp st code ts ms out rest r : passes_typed fuel -> tidy rp tg code ->
  loop_typed tg dest rp st code ts ms out rest -> pass fuel (dest + Z.of_nat (length out)) rest = Done r ->
  exists ts', typed_loop tg dest st ts (ms ++ pr_map r) (out ++ pr_code r) ts'.
Proof.
  intros IH Htd (cs & tcs & trest & -> & -> & Hl & Hf & Hcont) Hp. destruct (tidy_suffix _ _ _ _ Htd) as [rp' Htd'].
  destruct (IH _ _ _ _ _ _ Hp Hf Htd') as [ts' Ho]. by eapply Hcont.
Qed.

Lemma pass_typed fuel : passes_typed fuel.
Proof using HJ.
  induction fuel as [|fuel IH]; intros dest code r ts rp tg H Hf Htd; [done|]. cbn [pass] in H.
  destruct code as [|a rest].
  { injection H as <-. apply typed_nil in Hf as ->. exists []. split; done. }
  set (single := match jeq_chain1 (a :: rest), jeq_chain2 (a :: rest), rest with | Some arg0, _, b :: rest => _ | _, _, _ => _ end) in H.
  assert (forall rest' trest, (exists cs, a :: rest = cs ++ rest') -> typed true rest' trest -> forall dest' r', pass fuel dest' rest' = Done r' ->
    forall m, (exists cs, a :: rest = cs ++ rest' /\ m = length cs) -> exists ts' : list (list slot_ty), typed_out (fun k => tg (m + k)) dest' rest' trest (pr_map r') (pr_code r') ts') as Hnext.
  { intros rest' trest _ Hf' dest' r' Hp m (cs & E & ->). rewrite E in Htd. destruct (tidy_suffix _ _ _ _ Htd) as [rp' Htd'].
    by eapply IH. }
  assert (single = Done r -> exists ts' : list (list slot_ty), typed_out tg dest (a :: rest) ts (pr_map r) (pr_code r) ts') as Hsingle.
  { subst single. clear H. intros H.
    assert ((if is_op OP_POP a then r ← pass fuel dest rest; Done (emit [dest] [] false r)
      else r ← pass fuel (dest + 1) rest; Done (emit [dest] [a] false r)) = Done r ->
      exists ts' : list (list slot_ty), typed_out tg dest (a :: rest) ts (pr_map r) (pr_code r) ts') as Hone.
    { clear H. intros H. destruct (is_op OP_POP a) eqn:Ea; apply bind_Done_inv in H as (r' & Hp & [= <-]); cbn [emit pr_map pr_code app].
      - apply is_op_true in Ea. eapply typed_drop_pop; [done | exact Hf|]. intros trest Hf'.
        apply (Hnext rest trest) with (m := 1); [by exists [a] | done | done | by exists [a]].
      - apply typed_inv in Hf as Hf'. destruct Hf' as (t & trest & -> & _ & _ & _ & Hf').
        destruct (Hnext rest trest) with (dest' := (dest + 1)%Z) (r' := r') (m := 1) as [ts' Ho]; [by exists [a] | done | done | by exists [a] |].
        exists (t :: ts'). by eapply typed_kept. }
    destruct (jeq_chain1 (a :: rest)) as [arg0|] eqn:E1; [|destruct (jeq_chain2 (a :: rest)) as [arg0|] eqn:E2; [|by apply Hone]].
    - destruct (jeq_chain1_split _ _ _ E1) as (Ha & b & rest' & -> & Hb).
      destruct (jeq_loop1 _ arg0 (dest + 2) rest') as [[ms out] rest1] eqn:El. apply bind_Done_inv in H as (r' & Hp & [= <-]).
      pose proof Hf as Hf'. apply typed_inv in Hf' as (t1 & ts1 & -> & _ & _ & _ & Hf'). apply typed_inv in Hf' as (t2 & ts2 & -> & _ & _ & H2 & Hf').
      unfold okop in H2. rewrite Hb in H2. destruct H2 as (Hv & Hn & _). destruct Htd as (_ & _ & Htd).
      destruct (loop_continue fuel (dest + 2) _ _ t2 _ _ _ _ _ _ IH Htd (loop1_typed _ _ _ _ _ _ _ _ _ _ _ El Hf' Htd ltac:(unfold top_op; cbn; by rewrite Hb) Hn Hv) Hp) as [ts' HL].
      exists (t1 :: t2 :: ts'). cbn [emit pr_map pr_code app]. by apply typed_chain.
    - destruct (jeq_chain2_split _ _ _ E2) as (Ha & b & c & rest' & -> & Hb & Hc).
      destruct (jeq_loop2 _ arg0 (dest + 3) rest') as [[ms out] rest1] eqn:El. apply bind_Done_inv in H as (r' & Hp & [= <-]).
      pose proof Hf as Hf'. apply typed_inv in Hf' as (t1 & ts1 & -> & _ & _ & _ & Hf'). apply typed_inv in Hf' as (t2 & ts2 & -> & _ & _ & _ & Hf').
      apply typed_inv in Hf' as (t3 & ts3 & -> & _ & _ & H3 & Hf').
      unfold okop in H3. rewrite Hc in H3. destruct H3 as (Hv & Hn & _). destruct Htd as (_ & _ & _ & Htd).
      destruct (loop_continue fuel (dest + 3) _ _ t3 _ _ _ _ _ _ IH Htd (loop2_typed _ _ _ _ _ _ _ _ _ _ _ El Hf' Htd ltac:(unfold top_op; cbn; by rewrite Hc) Hn Hv) Hp) as [ts' HL].
      exists (t1 :: t2 :: t3 :: ts'). cbn [emit pr_map pr_code app]. by apply typed_chain2. }
  clearbody single. destruct rest as [|b rest2]; [by apply Hsingle|].
  destruct (spark_eval a b) eqn:R1.
  { apply bind_Done_inv in H as (r' & Hp & [= <-]). cbn [emit pr_map pr_code app]. eapply typed_spark_eval; [done | exact Hf|].
    intros trest Hf'. apply (Hnext rest2 trest) with (m := 2); [by exists [a; b] | done | done | by exists [a; b]]. }
  destruct (mkframe_eval a b) eqn:R2.
  { apply bind_Done_inv in H as (r' & Hp & [= <-]). cbn [emit pr_map pr_code app]. eapply typed_mkframe_eval; [done | exact Hf|].
    intros trest Hf'. apply (Hnext (b :: rest2) trest) with (m := 1); [by exists [a] | done | done | by exists [a]]. }
  destruct (squeeze_return a b) eqn:R3.
  { apply bind_Done_inv in H as (u0 & _ & H). apply bind_Done_inv in H as (r' & Hp & [= <-]). cbn [emit pr_map pr_code app].
    eapply typed_squeeze_return; [done | exact Hf | exact Htd|].
    intros trest Hf'. apply (Hnext rest2 trest) with (m := 2); [by exists [a; b] | done | done | by exists [a; b]]. }
  destruct (bif_jfalse a b) eqn:R4; [|by apply Hsingle].
  apply bind_Done_inv in H as (r' & Hp & [= <-]). cbn [emit pr_map pr_code app]. eapply typed_bif_jfalse; [done | exact Hf | exact Htd|].
  intros trest Hf'. apply (Hnext rest2 trest) with (m := 2); [by exists [a; b] | done | done | by exists [a; b]].
Qed.
End peephole.
