(* ===== verification/PassesTyped.v ===== *)
(** * All passes of the optimiser keep code typed

    After the first pass none of the rules applies that rely on tidy code; the
    passes after it only fold a SPARK into the EVAL after it. *)

From S2P Require Import Prelude CString Builtins Util Source Resolve Double Pointer Bytecode Peephole StackDiscipline SchemeR PeepholeFacts Compile Arith Typing Flow MacrosTyped Tidy PeepholeTyped.

#[local] Set Warnings "-clear-no-such-hyp".

(** ** Plain code *)

Fixpoint plain (l : list instruction) : Prop :=
  match l with
  | [] => True
  | a :: l => i_opcode a <> OP_POP /\ (forall b, head l = Some b -> squeeze_return a b = false /\ bif_jfalse a b = false) /\ plain l
  end.

(** What can begin with a RETURN or a JFALSE after a pass. *)
Record plain_out (code out : list instruction) : Prop := {
  pn_plain : plain out;
  pn_return : top_op out = Some OP_RETURN -> top_op code = Some OP_RETURN \/
    top_op code = Some OP_SQUEEZE /\ top_op (tail code) = Some OP_RETURN;
  pn_jfalse : top_op out = Some OP_JFALSE -> top_op code = Some OP_JFALSE
}.

Definition other_op (i : instruction) : bool :=
  match i_opcode i with OP_POP | OP_SQUEEZE | OP_BIF | OP_RETURN | OP_JFALSE => false | _ => true end.

Lemma other_plain i out : other_op i = true -> plain out -> plain (i :: out).
Proof.
  intros Hi Hp. unfold other_op in Hi. split; [intros E; by rewrite E in Hi|]. split; [|done]. intros b _.
  unfold squeeze_return, bif_jfalse, is_op. split; case_bool_decide as E; rewrite ?E in Hi; done.
Qed.
Lemma others_plain l out : forallb other_op l = true -> plain out -> plain (l ++ out).
Proof. induction l as [|i l IH]; [done|]. cbn. intros [Hi Hl]%andb_true_iff Hp. apply other_plain; [done | by apply IH]. Qed.

Lemma others_out code l i out : l = i :: tail l -> forallb other_op l = true -> plain out -> plain_out code (l ++ out).
Proof.
  intros El Hl Hp. split; [by apply others_plain | |]; rewrite El in *; unfold top_op; cbn; intros [= E]; cbn in Hl;
    apply andb_true_iff in Hl as [Hi _]; unfold other_op in Hi; by rewrite E in Hi.
Qed.

Lemma squeeze_return_ops a b : squeeze_return a b = true <-> i_opcode a = OP_SQUEEZE /\ i_opcode b = OP_RETURN.
Proof. unfold squeeze_return. by rewrite andb_true_iff, !is_op_true. Qed.
Lemma bif_jfalse_ops a b : bif_jfalse a b = true <-> (i_opcode a = OP_BIF /\ i_opcode b = OP_JFALSE) /\ is_comparison (i_arg0 a) = true.
Proof. unfold bif_jfalse. by rewrite !andb_true_iff, !is_op_true. Qed.

Lemma top_op_head (l : list instruction) op : top_op l = Some op -> exists b, head l = Some b /\ i_opcode b = op.
Proof. unfold top_op. destruct l as [|b l]; [done|]. intros [= <-]. by exists b. Qed.

(** An instruction to which no rule applies. *)
Lemma kept_plain rp tg a rest out : tidy rp tg (a :: rest) -> i_opcode a <> OP_POP ->
  (forall b, head rest = Some b -> squeeze_return a b = false /\ bif_jfalse a b = false) ->
  plain_out rest out -> plain_out (a :: rest) (a :: out).
Proof.
  intros [_ Htd] Ha Hb [H1 H2 H3]. split; [|by left | done]. split; [done|]. split; [|done]. intros b Hout. split.
  - destruct (squeeze_return a b) eqn:E; [|done]. exfalso. apply squeeze_return_ops in E as [E1 E2].
    destruct H2 as [H2|[H2 H2']]; [unfold top_op; rewrite Hout; cbn; by rewrite E2 | |].
    + apply top_op_head in H2 as (b' & Hb' & E'). destruct (Hb b' Hb') as [H _]. by rewrite (proj2 (squeeze_return_ops a b') (conj E1 E')) in H.
    + destruct rest as [|s [|r rest]]; try done. unfold top_op in H2, H2'. cbn in H2, H2'. injection H2 as H2. injection H2' as H2'.
      destruct Htd as (_ & Hr & _). unfold allowed_at in Hr. rewrite H2' in Hr. unfold top_op in Hr. cbn in Hr. rewrite H2 in Hr.
      destruct Hr as [_ Hr]. destruct (Hr eq_refl) as (_ & _ & Hn & _). by rewrite E1 in Hn.
  - destruct (bif_jfalse a b) eqn:E; [|done]. exfalso. apply bif_jfalse_ops in E as [[E1 E2] E3].
    destruct (top_op_head rest OP_JFALSE) as (b' & Hb' & E'); [apply H3; unfold top_op; rewrite Hout; cbn; by rewrite E2|].
    destruct (Hb b' Hb') as [_ H]. by rewrite (proj2 (bif_jfalse_ops a b') (conj (conj E1 E') E3)) in H.
Qed.

(** A POP dropped. *)
Lemma dropped_plain rp tg a rest out : tidy rp tg (a :: rest) -> i_opcode a = OP_POP -> plain_out rest out -> plain_out (a :: rest) out.
Proof.
  intros [_ Htd] Ha [H1 H2 H3]. split; [done | |].
  - intros H. exfalso. destruct (H2 H) as [Hr|[Hs Hr]].
    + destruct rest as [|r rest]; [done|]. unfold top_op in Hr. cbn in Hr. injection Hr as Hr. destruct Htd as [Hal _].
      unfold allowed_at in Hal. rewrite Hr in Hal. unfold top_op in Hal. cbn in Hal. rewrite Ha in Hal. by destruct Hal.
    + destruct rest as [|s [|r rest]]; try done. unfold top_op in Hs, Hr. cbn in Hs, Hr. injection Hs as Hs. injection Hr as Hr.
      destruct Htd as (_ & Hal & _). unfold allowed_at in Hal. rewrite Hr in Hal. unfold top_op in Hal. cbn in Hal. rewrite Hs in Hal.
      destruct Hal as [_ Hal]. destruct (Hal eq_refl) as (_ & _ & _ & Hn). by rewrite Ha in Hn.
  - intros H. exfalso. specialize (H3 H). destruct rest as [|r rest]; [done|]. unfold top_op in H3. cbn in H3. injection H3 as Hr.
    destruct Htd as [Hal _]. unfold allowed_at in Hal. rewrite Hr in Hal. unfold top_op in Hal. cbn in Hal. rewrite Ha in Hal. by destruct Hal.
Qed.

Lemma loop1_other fuel arg0 : forall dest code ms out rest, jeq_loop1 fuel arg0 dest code = (ms, out, rest) ->
  forallb other_op out = true /\ exists cs, code = cs ++ rest.
Proof.
  induction fuel as [|fuel IH]; intros dest code ms out rest H; cbn [jeq_loop1] in H.
  { injection H as <- <- <-. split; [done | by exists []]. }
  destruct code as [|a [|b [|c code]]]; try (injection H as <- <- <-; split; [done | by exists []]).
  destruct (is_op OP_POP a && _ && _ && _) eqn:Ec; [|injection H as <- <- <-; split; [done | by exists []]]. ops.
  destruct (jeq_loop1 fuel arg0 (dest + 1) code) as [[ms1 out1] rest1] eqn:E. injection H as <- <- <-.
  destruct (IH _ _ _ _ _ E) as [Ho (cs & ->)]. split; [|by exists (a :: b :: c :: cs)]. cbn. rewrite Ho, andb_true_r.
  unfold other_op. match goal with H : i_opcode c = _ |- _ => by rewrite H end.
Qed.
Lemma loop2_other fuel arg0 : forall dest code ms out rest, jeq_loop2 fuel arg0 dest code = (ms, out, rest) ->
  forallb other_op out = true /\ exists cs, code = cs ++ rest.
Proof.
  induction fuel as [|fuel IH]; intros dest code ms out rest H; cbn [jeq_loop2] in H.
  { injection H as <- <- <-. split; [done | by exists []]. }
  destruct code as [|a [|b [|e [|c code]]]]; try (injection H as <- <- <-; split; [done | by exists []]).
  destruct (is_op OP_POP a && _ && _ && _ && _ && _) eqn:Ec; [|injection H as <- <- <-; split; [done | by exists []]]. ops.
  destruct (jeq_loop2 fuel arg0 (dest + 1) code) as [[ms1 out1] rest1] eqn:E. injection H as <- <- <-.
  destruct (IH _ _ _ _ _ E) as [Ho (cs & ->)]. split; [|by exists (a :: b :: e :: c :: cs)]. cbn. rewrite Ho, andb_true_r.
  unfold other_op. match goal with H : i_opcode c = _ |- _ => by rewrite H end.
Qed.

Lemma pass_plain fuel : forall dest code r rp tg, pass fuel dest code = Done r -> tidy rp tg code -> plain_out code (pr_code r).
Proof.
  induction fuel as [|fuel IH]; intros dest code r rp tg H Htd; [done|]. cbn [pass] in H.
  destruct code as [|a rest]; [injection H as <-; by split|].
  set (single := match jeq_chain1 (a :: rest), jeq_chain2 (a :: rest), rest with | Some arg0, _, b :: rest => _ | _, _, _ => _ end) in H.
  assert (forall rest' dest' r', (exists cs, a :: rest = cs ++ rest') -> pass fuel dest' rest' = Done r' -> plain_out rest' (pr_code r')) as Hnext.
  { intros rest' dest' r' (cs & E) Hp. rewrite E in Htd. destruct (tidy_suffix _ _ _ _ Htd) as [rp' Htd']. by eapply IH. }
  assert ((forall b, head rest = Some b -> squeeze_return a b = false /\ bif_jfalse a b = false) -> single = Done r ->
    plain_out (a :: rest) (pr_code r)) as Hsingle.
  { intros Hno. subst single. clear H. intros H.
    assert ((if is_op OP_POP a then r ← pass fuel dest rest; Done (emit [dest] [] false r)
      else r ← pass fuel (dest + 1) rest; Done (emit [dest] [a] false r)) = Done r -> plain_out (a :: rest) (pr_code r)) as Hone.
    { clear H. intros H. destruct (is_op OP_POP a) eqn:Ea; apply bind_Done_inv in H as (r' & Hp & [= <-]); cbn [emit pr_code app].
      - eapply dropped_plain; [exact Htd | by apply is_op_true | eapply Hnext; [by exists [a] | exact Hp]].
      - eapply kept_plain; [exact Htd | | exact Hno | eapply Hnext; [by exists [a] | exact Hp]].
        intros E. by rewrite (proj2 (is_op_true _ _) E) in Ea. }
    destruct (jeq_chain1 (a :: rest)) as [arg0|] eqn:E1; [|destruct (jeq_chain2 (a :: rest)) as [arg0|] eqn:E2; [|by apply Hone]].
    - destruct (jeq_chain1_split _ _ _ E1) as (Ha & b & rest' & -> & Hb).
      destruct (jeq_loop1 _ arg0 (dest + 2) rest') as [[ms out] rest1] eqn:El. apply bind_Done_inv in H as (r' & Hp & [= <-]).
      destruct (loop1_other _ _ _ _ _ _ _ El) as [Ho (cs & ->)]. cbn [emit pr_code].
      eapply others_out; [done | cbn; rewrite Ho; unfold other_op; by rewrite Ha, Hb | eapply Hnext; [by exists (a :: b :: cs) | exact Hp]].
    - destruct (jeq_chain2_split _ _ _ E2) as (Ha & b & c & rest' & -> & Hb & Hc).
      destruct (jeq_loop2 _ arg0 (dest + 3) rest') as [[ms out] rest1] eqn:El. apply bind_Done_inv in H as (r' & Hp & [= <-]).
      destruct (loop2_other _ _ _ _ _ _ _ El) as [Ho (cs & ->)]. cbn [emit pr_code].
      eapply others_out; [done | cbn; rewrite Ho; unfold other_op; by rewrite Ha, Hb, Hc | eapply Hnext; [by exists (a :: b :: c :: cs) | exact Hp]]. }
  clearbody single. destruct rest as [|b rest2]; [by apply Hsingle|].
  destruct (spark_eval a b) eqn:R1.
  { apply bind_Done_inv in H as (r' & Hp & [= <-]). unfold spark_eval in R1. ops. cbn [emit pr_code].
    eapply (others_out _ [b]); [done | cbn; unfold other_op; by match goal with H : i_opcode b = _ |- _ => rewrite H end |
      eapply Hnext; [by exists [a; b] | exact Hp]]. }
  destruct (mkframe_eval a b) eqn:R2.
  { apply bind_Done_inv in H as (r' & Hp & [= <-]). cbn [emit pr_code].
    eapply (others_out _ [set_opcode OP_CALL a]); [done | done | eapply Hnext; [by exists [a] | exact Hp]]. }
  destruct (squeeze_return a b) eqn:R3.
  { apply bind_Done_inv in H as (u0 & _ & H). apply bind_Done_inv in H as (r' & Hp & [= <-]). cbn [emit pr_code app].
    apply squeeze_return_ops in R3 as [Ea Eb]. destruct (Hnext rest2 _ _ ltac:(by exists [a; b]) Hp) as [P _ _]. split.
    - split; [cbn; by rewrite Eb|]. split; [|done]. intros c _. split.
      + apply not_true_is_false. intros [E _]%squeeze_return_ops. cbn in E. congruence.
      + apply not_true_is_false. intros [[E _] _]%bif_jfalse_ops. cbn in E. congruence.
    - intros _. right. unfold top_op. cbn. by rewrite Ea, Eb.
    - unfold top_op. cbn. by rewrite Eb. }
  destruct (bif_jfalse a b) eqn:R4.
  { apply bind_Done_inv in H as (r' & Hp & [= <-]). cbn [emit pr_code].
    eapply (others_out _ [jcmp a b]); [done | done | eapply Hnext; [by exists [a; b] | exact Hp]]. }
  apply Hsingle; [|done]. by intros c [= <-].
Qed.

(** ** Passes over plain code *)

Section passes.
Context (su : surroundings) (n : Z).

Section plain_pass.
Context (J : Z -> list slot_ty -> Prop).
Abbreviation typed := (typed su n J).
Abbreviation typed_out := (typed_out su n J).

Lemma plain_tail a l : plain (a :: l) -> plain l.
Proof. by intros (_ & _ & H). Qed.

(** On plain code a pass only keeps instructions or folds a SPARK or MKFRAME. *)
Record still_plain (code out : list instruction) : Prop := {
  sp_plain : plain out;
  sp_return : top_op out = Some OP_RETURN -> top_op code = Some OP_RETURN;
  sp_jfalse : top_op out = Some OP_JFALSE -> top_op code = Some OP_JFALSE
}.

Lemma still_kept a rest out : plain (a :: rest) -> still_plain rest out -> still_plain (a :: rest) (a :: out).
Proof.
  intros (Ha & Hb & _) [H1 H2 H3]. split; [|done | done]. split; [done|]. split; [|done]. intros b Hout. split; apply not_true_is_false.
  - intros [E1 E2]%squeeze_return_ops. destruct (top_op_head rest OP_RETURN) as (b' & Hb' & E'); [apply H2; unfold top_op; rewrite Hout; cbn; by rewrite E2|].
    destruct (Hb b' Hb') as [H _]. by rewrite (proj2 (squeeze_return_ops a b') (conj E1 E')) in H.
  - intros [[E1 E2] E3]%bif_jfalse_ops. destruct (top_op_head rest OP_JFALSE) as (b' & Hb' & E'); [apply H3; unfold top_op; rewrite Hout; cbn; by rewrite E2|].
    destruct (Hb b' Hb') as [_ H]. by rewrite (proj2 (bif_jfalse_ops a b') (conj (conj E1 E') E3)) in H.
Qed.

Lemma still_other code i out : other_op i = true -> plain out -> still_plain code (i :: out).
Proof. intros Hi Hp. split; [by apply other_plain | |]; unfold top_op; cbn; intros [= E]; unfold other_op in Hi; by rewrite E in Hi. Qed.

Lemma no_chains a rest : plain (a :: rest) -> jeq_chain1 (a :: rest) = None /\ jeq_chain2 (a :: rest) = None.
Proof.
  intros Hp. split.
  - destruct rest as [|b [|c [|d rest]]]; try done. cbn [jeq_chain1]. destruct (_ && _) eqn:E; [|done]. ops. exfalso.
    destruct Hp as (_ & _ & (_ & _ & (Hc & _))). done.
  - destruct rest as [|b [|c [|d [|e rest]]]]; try done. cbn [jeq_chain2]. destruct (_ && _) eqn:E; [|done]. ops. exfalso.
    destruct Hp as (_ & _ & (_ & _ & (_ & _ & (Hd & _)))). done.
Qed.

Lemma plain_pass_typed fuel : forall dest code r ts tg, pass fuel dest code = Done r -> typed false code ts -> plain code ->
  still_plain code (pr_code r) /\ exists ts' : list (list slot_ty), typed_out tg dest code ts (pr_map r) (pr_code r) ts'.
Proof.
  induction fuel as [|fuel IH]; intros dest code r ts tg H Hf Hpl; [done|]. cbn [pass] in H.
  destruct code as [|a rest].
  { injection H as <-. apply typed_nil in Hf as ->. split; [by split|]. exists []. by split. }
  destruct (no_chains a rest Hpl) as [E1 E2]. rewrite E1, E2 in H.
  assert (is_op OP_POP a = false) as Ep by (apply not_true_is_false; intros E; apply is_op_true in E; by destruct Hpl).
  rewrite Ep in H. pose proof (plain_tail _ _ Hpl) as Hpl1.
  assert ((r ← pass fuel (dest + 1) rest; Done (emit [dest] [a] false r)) = Done r ->
    still_plain (a :: rest) (pr_code r) /\ exists ts' : list (list slot_ty), typed_out tg dest (a :: rest) ts (pr_map r) (pr_code r) ts') as Hone.
  { clear H. intros H. apply bind_Done_inv in H as (r' & Hp & [= <-]). cbn [emit pr_map pr_code app].
    pose proof Hf as Hf'. apply typed_inv in Hf' as (t & trest & -> & _ & _ & _ & Hf').
    destruct (IH _ _ _ _ (fun k => tg (S k)) Hp Hf' Hpl1) as [Hs [ts' Ho]]. split; [by apply still_kept|].
    exists (t :: ts'). by eapply typed_kept. }
  destruct rest as [|b rest2]; [by apply Hone|].
  destruct (spark_eval a b) eqn:R1.
  { apply bind_Done_inv in H as (r' & Hp & [= <-]). cbn [emit pr_map pr_code app]. split.
    - apply typed_inv in Hf as (t & trest & -> & _ & _ & _ & Hf). apply typed_inv in Hf as (t2 & trest2 & -> & _ & _ & _ & Hf).
      destruct (IH _ _ _ _ tg Hp Hf (plain_tail _ _ Hpl1)) as [[Hs _ _] _]. unfold spark_eval in R1. ops. apply still_other; [|done].
      unfold other_op. by match goal with H : i_opcode b = _ |- _ => rewrite H end.
    - eapply typed_spark_eval; [done | exact Hf|]. intros trest Hf'. by eapply IH; [exact Hp | exact Hf' | apply (plain_tail _ _ Hpl1)]. }
  destruct (mkframe_eval a b) eqn:R2.
  { apply bind_Done_inv in H as (r' & Hp & [= <-]). cbn [emit pr_map pr_code app]. split.
    - apply typed_inv in Hf as (t & trest & -> & _ & _ & _ & Hf). destruct (IH _ _ _ _ tg Hp Hf Hpl1) as [[Hs _ _] _]. by apply still_other.
    - eapply typed_mkframe_eval; [done | exact Hf|]. intros trest Hf'. by eapply IH; [exact Hp | exact Hf' | done]. }
  destruct Hpl as (_ & Hb & _). destruct (Hb b eq_refl) as [-> ->] in H. by apply Hone.
Qed.
End plain_pass.

(** ** Targets of jumps *)

(** [l'] is [l] but for where its jumps go. *)
Definition retargeted (jump jump' : nat -> Z -> list slot_ty -> Prop) (l l' : list instruction) : Prop :=
  length l' = length l /\ forall k i, l !! k = Some i -> exists i', l' !! k = Some i' /\
    (is_jump (i_opcode i) = false /\ i' = i \/
     is_jump (i_opcode i) = true /\ exists a, i' = set_arg0 a i /\ forall st, jump k (i_arg0 i) st -> jump' k a st).

Lemma retargeted_cons jump jump' i l i' l' : retargeted jump jump' (i :: l) (i' :: l') ->
  (is_jump (i_opcode i) = false /\ i' = i \/ is_jump (i_opcode i) = true /\ exists a, i' = set_arg0 a i /\ forall st, jump 0 (i_arg0 i) st -> jump' 0 a st) /\
  retargeted (fun k => jump (S k)) (fun k => jump' (S k)) l l'.
Proof.
  intros [Hl H]. split.
  - destruct (H 0 i eq_refl) as (j & [= <-] & Hj). exact Hj.
  - split; [by injection Hl|]. intros k j Hk. exact (H (S k) j Hk).
Qed.

Lemma retargeted_op jump jump' l l' : retargeted jump jump' l l' -> i_opcode <$> head l' = i_opcode <$> head l.
Proof.
  intros [Hl H]. destruct l as [|i l], l' as [|i' l']; try done. destruct (H 0 i eq_refl) as (j & [= <-] & [[_ ->]|[_ (a & -> & _)]]); done.
Qed.

Lemma okop_target (jump jump' : Z -> list slot_ty -> Prop) next follow st i a : is_jump (i_opcode i) = true ->
  (forall st, jump (i_arg0 i) st -> jump' a st) -> okop su n jump next follow st i -> okop su n jump' next follow st (set_arg0 a i).
Proof. intros Hj Ha. unfold okop. cbn. destruct (i_opcode i); try done; naive_solver. Qed.

Lemma flows_retargeted ex fin l : forall (jump jump' : nat -> Z -> list slot_ty -> Prop) l' pos pos' ts,
  flows su ex n jump fin pos l ts -> retargeted (fun k => jump (pos + k)) (fun k => jump' (pos' + k)) l l' -> flows su ex n jump' fin pos' l' ts.
Proof.
  induction l as [|i l IH]; intros jump jump' l' pos pos' ts Hf Hr.
  { destruct Hr as [Hl _]. by destruct l'. }
  destruct l' as [|i' l']; [by destruct Hr|]. destruct ts as [|t ts]; [done|]. cbn [flows] in *. destruct Hf as (He & Hp & Hok & Hf).
  pose proof (retargeted_cons _ _ _ _ _ _ Hr) as [Hi Hr']. pose proof (retargeted_op _ _ _ _ Hr') as Hop. rewrite Hop.
  split_and!.
  - destruct Hi as [[_ ->]|[_ (a & -> & _)]]; done.
  - destruct Hi as [[_ ->]|[_ (a & -> & _)]]; done.
  - destruct Hi as [[Hj ->]|[Hj (a & -> & Ha)]].
    + eapply okop_mono; [| | | |exact Hok]; [done | congruence | done | done].
    + eapply okop_target; [done | | exact Hok]. rewrite !Nat.add_0_r in Ha. done.
  - eapply IH; [exact Hf|]. destruct Hr' as [Hl Hr']. split; [done|]. intros k j Hk. specialize (Hr' k j Hk).
    rewrite !Nat.add_succ_r in Hr'. exact Hr'.
Qed.

Lemma absolute_retargeted start count : forall code addr code', absolute start count addr code = Done code' ->
  retargeted (fun k a st => True) (fun k a st => True) code code' /\
  forall k i, code !! k = Some i -> is_jump (i_opcode i) = true -> code' !! k = Some (set_arg0 (i_arg0 i + (addr + Z.of_nat k)) i).
Proof.
  induction code as [|i code IH]; intros addr code' H; cbn [absolute] in H.
  { injection H as <-. done. }
  apply bind_Done_inv in H as (i' & Hi & H). apply bind_Done_inv in H as (code1 & H1 & [= <-]). destruct (IH _ _ H1) as [[Hl Hr] Hj].
  assert (i' = if is_jump (i_opcode i) then set_arg0 (i_arg0 i + addr) i else i) as ->.
  { destruct (is_jump _); [|by injection Hi]. outcome_inv. done. }
  split.
  - split; [cbn; by rewrite Hl|]. intros [|k] j Hk; [|by apply Hr]. injection Hk as <-. eexists. split; [reflexivity|].
    destruct (is_jump (i_opcode i)); [right | by left]. split; [done|]. by eexists.
  - intros [|k] j Hk Hjj.
    + injection Hk as <-. rewrite Hjj. cbn. by rewrite Z.add_0_r.
    + etrans; [exact (Hj k j Hk Hjj)|]. do 2 f_equal. lia.
Qed.

Lemma remap_retargeted start m : forall code code', remap_all start m code = Done code' ->
  length code' = length code /\
  forall k i, code !! k = Some i -> exists i', code' !! k = Some i' /\
    (is_jump (i_opcode i) = false /\ i' = i \/
     is_jump (i_opcode i) = true /\ exists a, m !! Z.to_nat (i_arg0 i - start) = Some a /\ i' = set_arg0 a i).
Proof.
  induction code as [|i code IH]; intros code' H; cbn [remap_all] in H.
  { injection H as <-. done. }
  apply bind_Done_inv in H as (i' & Hi & H). apply bind_Done_inv in H as (code1 & H1 & [= <-]). destruct (IH _ H1) as [Hl Hr].
  split; [cbn; by rewrite Hl|]. intros [|k] j Hk; [|by apply Hr]. injection Hk as <-. exists i'. split; [done|].
  unfold remap in Hi. destruct (is_jump (i_opcode i)); [right | left; by injection Hi].
  split; [done|]. apply bind_Done_inv in Hi as (a & Ha & [= <-]). apply deref_Done in Ha. by exists a.
Qed.

Lemma relative_retargeted start count : forall code addr code', relative start count addr code = Done code' ->
  length code' = length code /\
  forall k i, code !! k = Some i -> exists i', code' !! k = Some i' /\
    (is_jump (i_opcode i) = false /\ i' = i \/
     is_jump (i_opcode i) = true /\ (start <= i_arg0 i)%Z /\ i' = set_arg0 (i_arg0 i - (addr + Z.of_nat k)) i).
Proof.
  induction code as [|i code IH]; intros addr code' H; cbn [relative] in H.
  { injection H as <-. done. }
  apply bind_Done_inv in H as (i' & Hi & H). apply bind_Done_inv in H as (code1 & H1 & [= <-]). destruct (IH _ _ H1) as [Hl Hr].
  split; [cbn; by rewrite Hl|]. intros [|k] j Hk.
  - injection Hk as <-. exists i'. split; [done|]. destruct (is_jump (i_opcode i)); [right | left; by injection Hi].
    split; [done|]. outcome_inv. split; [lia|]. subst i'. do 2 f_equal. lia.
  - destruct (Hr k j Hk) as (j' & Hj' & Hor). exists j'. split; [done|].
    by replace (addr + Z.of_nat (S k))%Z with (addr + 1 + Z.of_nat k)%Z by lia.
Qed.

(** Jumps to absolute addresses from [start] on. *)
Definition to_abs (start : Z) (ts : list (list slot_ty)) (a : Z) (st : list slot_ty) : Prop :=
  (start <= a)%Z /\ exists t : list slot_ty, ts !! Z.to_nat (a - start) = Some t /\ sub_st t st = true.

Lemma to_abs_sub start ts a (st st' : list slot_ty) : to_abs start ts a st -> sub_st st st' = true -> to_abs start ts a st'.
Proof. intros (Ha & t & Ht & Hs) Hst. split; [done|]. exists t. split; [done | by eapply sub_st_trans]. Qed.

(** A pass and the jumps through its map. *)
Lemma remap_typed start m code ts out ts' code' tg :
  typed_out su n (to_abs start ts) tg start code ts m out ts' ->
  (forall i, i ∈ out -> is_jump (i_opcode i) = true -> tg (Z.to_nat (i_arg0 i - start))) ->
  remap_all start m out = Done code' ->
  typed su n (to_abs start ts') false code' ts'.
Proof.
  intros [T1 _ T3 _] Htg H. destruct (remap_retargeted _ _ _ _ H) as [Hl Hr]. unfold typed in *.
  eapply flows_retargeted; [exact T1|]. split; [done|]. intros k i Hk. destruct (Hr k i Hk) as (i' & Hi' & Hor). exists i'. split; [done|].
  destruct Hor as [?|[Hj (a & Ha & ->)]]; [by left|]. right. split; [done|]. exists a. split; [done|].
  intros st (_ & t & Ht & Hs). destruct (T3 _ t (Htg i ltac:(by eapply list_elem_of_lookup_2) Hj) Ht) as (a' & t' & Ea & Hle & Ht' & Hs').
  rewrite Ha in Ea. injection Ea as <-. split; [done|]. exists t'. split; [done | by eapply sub_st_trans].
Qed.

Lemma plain_remap start m : forall l l', remap_all start m l = Done l' -> plain l -> plain l'.
Proof.
  assert (forall j j', remap start m j = Done j' -> i_opcode j' = i_opcode j /\ (i_opcode j = OP_BIF -> i_arg0 j' = i_arg0 j)) as Hsame.
  { intros j j' H. unfold remap in H. destruct (is_jump (i_opcode j)) eqn:Ej; [|by injection H as <-].
    apply bind_Done_inv in H as (a & _ & [= <-]). split; [done|]. intros E. by rewrite E in Ej. }
  induction l as [|i l IH]; intros l' H Hp; cbn [remap_all] in H; [by injection H as <-|].
  apply bind_Done_inv in H as (i' & Hi & H). apply bind_Done_inv in H as (l1 & H1 & [= <-]).
  destruct Hp as (Hop & Hb & Hp). destruct (Hsame _ _ Hi) as [Hx Hx0]. split; [by rewrite Hx|]. split; [|by apply IH].
  intros b' Hb'. destruct l as [|b l]; [by injection H1 as <-|]. cbn [remap_all] in H1.
  apply bind_Done_inv in H1 as (b2 & Hb2 & H1). apply bind_Done_inv in H1 as (l2 & _ & [= <-]). injection Hb' as <-.
  destruct (Hsame _ _ Hb2) as [Hy _]. destruct (Hb b eq_refl) as [B1 B2].
  unfold squeeze_return, bif_jfalse, is_op in *. rewrite Hx, Hy. split; [done|].
  destruct (decide (i_opcode i = OP_BIF)) as [E|E]; [by rewrite Hx0 | by rewrite bool_decide_eq_false_2].
Qed.

Lemma passes_typed_plain fuel start : forall code code' ts, passes fuel start code = Done code' ->
  typed su n (to_abs start ts) false code ts -> plain code ->
  exists ts' : list (list slot_ty), typed su n (to_abs start ts') false code' ts' /\ forall st, takes false ts st -> takes false ts' st.
Proof.
  induction fuel as [|fuel IH]; intros code code' ts H Hf Hpl; cbn [passes] in H; [done|].
  apply bind_Done_inv in H as (r & Hr & H). apply bind_Done_inv in H as (code1 & H1 & H).
  destruct (plain_pass_typed (to_abs start ts) _ _ _ _ _ (fun _ => True) Hr Hf Hpl) as [Hs [ts1 Ho]].
  pose proof (remap_typed _ _ _ _ _ _ _ _ Ho ltac:(done) H1) as Hf1. pose proof (to_head _ _ _ _ _ _ _ _ _ _ Ho) as Hh.
  destruct (pr_changed r); [|injection H as <-; by exists ts1].
  pose proof (plain_remap _ _ _ _ H1 (sp_plain _ _ Hs)) as Hpl1.
  destruct (IH _ _ _ H Hf1 Hpl1) as (ts' & Hf' & Hh'). exists ts'. split; [done|]. auto.
Qed.
End passes.

(** ** The whole optimiser *)

(** The same instructions but for the targets of jumps. *)
Definition alike (i i' : instruction) : Prop := i_opcode i' = i_opcode i /\ (is_jump (i_opcode i) = false -> i' = i).

Lemma alike_top rp rp' : Forall2 alike rp rp' -> top_op rp' = top_op rp.
Proof. intros [|i i' l l' [E _] _]; [done|]. unfold top_op. cbn. by rewrite E. Qed.
Lemma alike_tail rp rp' : Forall2 alike rp rp' -> Forall2 alike (tail rp) (tail rp').
Proof. by intros [|i i' l l' _ H]. Qed.

Lemma allowed_alike rp rp' lab i i' : Forall2 alike rp rp' -> alike i i' -> allowed_at rp lab i -> allowed_at rp' lab i'.
Proof.
  intros Hr [Hi _]. pose proof (alike_top _ _ Hr) as E1. pose proof (alike_top _ _ (alike_tail _ _ Hr)) as E2.
  pose proof (alike_top _ _ (alike_tail _ _ (alike_tail _ _ Hr))) as E3.
  unfold allowed_at, push_pop_jeq, pop_after_jeq. rewrite Hi, E1, E2, E3. destruct (i_opcode i); try done.
  intros [H1 H2]. split; [done|]. intros Hs. destruct (H2 Hs) as (A & B & C & D). split_and!; [done | | done..].
  intros s Hh. destruct Hr as [|x x' l l' [Hx Hx'] _]; [done|]. injection Hh as <-. unfold top_op in Hs. cbn in Hs. injection Hs as Hs.
  rewrite Hx' by (by rewrite Hs). by apply B.
Qed.

Lemma tidy_alike l l' : Forall2 alike l l' -> forall rp rp' tg, Forall2 alike rp rp' -> tidy rp tg l -> tidy rp' tg l'.
Proof.
  induction 1 as [|i i' l l' Hi _ IH]; intros rp rp' tg Hr Ht; [done|]. destruct Ht as [H1 H2]. split; [by eapply allowed_alike|].
  eapply IH; [|exact H2]. by constructor.
Qed.

Lemma retargeted_alike jump jump' l l' : retargeted jump jump' l l' -> Forall2 alike l l'.
Proof.
  intros [Hl H]. apply Forall2_same_length_lookup_2; [done|]. intros k i i' Hi Hi'. destruct (H k i Hi) as (j & Hj & Hor).
  rewrite Hi' in Hj. injection Hj as <-. destruct Hor as [[Hj ->]|[Hj (a & -> & _)]]; split; try done. cbn. congruence.
Qed.

Lemma hits_targets start code abs k : (forall k i, code !! k = Some i -> is_jump (i_opcode i) = true ->
    abs !! k = Some (set_arg0 (i_arg0 i + (start + Z.of_nat k)) i)) -> length abs = length code -> Forall2 alike code abs ->
  (start + Z.of_nat k)%Z ∈ targets abs -> hits code k.
Proof.
  intros Hj Hl Ha Ht. unfold targets in Ht. apply elem_of_map in Ht as (i & Ei & Hi). apply list_elem_of_In, filter_In in Hi as [Hi Hjj].
  apply list_elem_of_In, list_elem_of_lookup in Hi as [p Hp]. pose proof (lookup_lt_Some _ _ _ Hp).
  destruct (lookup_lt_is_Some_2 code p) as [j Hjp]; [lia|].
  destruct (Forall2_lookup_lr _ _ _ _ _ _ Ha Hjp Hp) as [Ho _]. rewrite Ho in Hjj. specialize (Hj p j Hjp Hjj). rewrite Hp in Hj. injection Hj as ->.
  exists p, j. split_and!; [done | done |]. cbn in Ei. lia.
Qed.

Lemma peephole_typed su n start l ts st l' : (0 <= start)%Z ->
  piece su n l ts st [] -> steps l -> closed_code l -> peephole_body start l = Done l' ->
  exists ts' : list (list slot_ty), flows su false n (rjump ts') [] 0 l' ts' /\ takes false ts' st.
Proof.
  intros Hstart [Hent Hflows] Hst Hcl H. rewrite app_nil_r in *. unfold peephole_body in H.
  apply bind_Done_inv in H as (abs & Habs & H). apply bind_Done_inv in H as (opt & Hopt & H).
  destruct (absolute_retargeted _ _ _ _ _ Habs) as [Hrt Hjmp]. pose proof (retargeted_alike _ _ _ _ Hrt) as Hal. destruct Hrt as [Hl Hrt].
  assert (typed su n (to_abs start ts) true abs ts) as Habst.
  { unfold typed. eapply flows_retargeted; [exact Hflows|]. split; [done|]. intros k i Hk. destruct (Hrt k i Hk) as (i' & Hi' & Hor).
    exists i'. split; [done|]. destruct Hor as [?|[Hj _]]; [by left|]. right. split; [done|]. rewrite (Hjmp k i Hk Hj) in Hi'. injection Hi' as <-.
    eexists. split; [reflexivity|]. intros s (t & [Hp Ht]%zlookup_Some & Hs). split; [cbn in Hp; lia|]. exists t. split; [|done].
    rewrite <- Ht. f_equal. lia. }
  assert (tidy [] (hits l) abs) as Htd.
  { eapply tidy_alike; [exact Hal | constructor|]. destruct (st_tidy _ Hst [] False) as [T _]; [done|].
    eapply tidy_mono; [|exact T]. intros k _ Hk. by right. }
  destruct (absolute_ok start (start + Z.of_nat (length l)) l start) as (abs' & E' & _ & Htg & Ho & H1).
  { intros k i Hk Hj. pose proof (cc_jumps _ Hcl k i Hk Hj). destruct (st_forward _ Hst k i Hk Hj). lia. }
  rewrite Habs in E'. injection E' as <-.
  assert (guarded abs) as Hg by (eapply guarded_same; [exact Ho | exact H1 | apply Hcl]).
  cbn [passes] in Hopt. apply bind_Done_inv in Hopt as (r & Hr & Hopt). apply bind_Done_inv in Hopt as (code1 & Hc1 & Hopt).
  destruct (pass_total (S (length abs)) start abs) as (r' & Er & Hpo); [lia | done|]. rewrite Hr in Er. injection Er as <-.
  destruct (pass_typed su n (to_abs start ts) (to_abs_sub start ts) _ _ _ _ _ _ _ Hr Habst Htd) as [ts1 Hout].
  pose proof (pass_plain _ _ _ _ _ _ Hr Htd) as [Hpl _ _].
  assert (typed su n (to_abs start ts1) false code1 ts1) as Ht1.
  { eapply remap_typed; [exact Hout | | exact Hc1]. intros i Hi Hj.
    assert (i_arg0 i ∈ targets abs) as Hin.
    { apply (po_targets _ _ _ Hpo). unfold targets. apply elem_of_map. exists i. split; [done|]. apply list_elem_of_In, filter_In. split; [by apply list_elem_of_In | done]. }
    specialize (Htg _ Hin). eapply hits_targets; [exact Hjmp | done | done|]. by replace (start + Z.of_nat (Z.to_nat (i_arg0 i - start)))%Z with (i_arg0 i) by lia. }
  assert (takes false ts1 st) as Htk.
  { apply (to_head _ _ _ _ _ _ _ _ _ _ Hout). destruct Hent as (t & Ht & Hf). exists t. split; [done|]. split; [apply Hf | done]. }
  assert (exists ts' : list (list slot_ty), typed su n (to_abs start ts') false opt ts' /\ takes false ts' st) as (ts' & Hts & Htk').
  { destruct (pr_changed r); [|injection Hopt as <-; by exists ts1].
    destruct (passes_typed_plain su n _ _ _ _ _ Hopt Ht1) as (ts' & Hts & Hh); [|exists ts'; auto].
    by eapply plain_remap. }
  exists ts'. split; [|done]. destruct (relative_retargeted _ _ _ _ _ H) as [Hl' Hr'].
  unfold typed in Hts. eapply flows_retargeted; [exact Hts|]. split; [done|]. intros k i Hk. destruct (Hr' k i Hk) as (i' & Hi' & Hor).
  exists i'. split; [done|]. destruct Hor as [?|[Hj [Hs ->]]]; [by left|]. right. split; [done|]. eexists. split; [reflexivity|].
  intros s (_ & t & Ht & Hsub). exists t. split; [|done]. apply zlookup_Some. split; [cbn; lia|]. rewrite <- Ht. f_equal. cbn. lia.
Qed.
