(* ===== verification/Blocks.v ===== *)
(** * Blocks of typed code

    The code of a program is laid out block after block: the prologue, the
    functions, the built-ins, the EVAL/DO sequences. A block is typed by a list
    of address types, some of which may be missing; blocks are put one after
    the other, and code whose parts rely only on what the program has passes
    the checker. *)

From S2P Require Import Prelude CString Builtins Util Source Resolve Double Pointer Bytecode Peephole StackDiscipline Compile Arith Memory Interpreter Typing Flow PeepholeTyped.
From Stdlib Require Import Floats.SpecFloat.

(** ** Where control may go *)

Lemma goes_spec (T : list (option pc_ty)) pc main (st : list slot_ty) : goes T pc main st = true <->
  exists pt, zlookup T pc = Some (Some pt) /\ implb (pt_main pt) main = true /\ sub_st (pt_stack pt) st = true.
Proof.
  unfold goes. destruct (zlookup T pc) as [[pt|]|]; [|split; [done | by intros (? & ? & _)]..].
  rewrite andb_true_iff. split; [intros [? ?]; by exists pt | by intros (? & [= <-] & ? & ?)].
Qed.

Lemma implb_trans a b c : implb a b = true -> implb b c = true -> implb a c = true.
Proof. by destruct a, b, c. Qed.
Lemma implb_refl a : implb a a = true.
Proof. by destruct a. Qed.

Lemma goes_sub (T : list (option pc_ty)) pc main (st st' : list slot_ty) : goes T pc main st = true -> sub_st st st' = true -> goes T pc main st' = true.
Proof. rewrite !goes_spec. intros (pt & H1 & H2 & H3) Hs. exists pt. split_and!; [done | done | by eapply sub_st_trans]. Qed.
Lemma goes_main (T : list (option pc_ty)) pc m m' (st : list slot_ty) : goes T pc m st = true -> implb m m' = true -> goes T pc m' st = true.
Proof. rewrite !goes_spec. intros (pt & H1 & H2 & H3) Hm. exists pt. split_and!; [done | by eapply implb_trans | done]. Qed.
Lemma goes_app_l (T T' : list (option pc_ty)) pc main (st : list slot_ty) : goes T pc main st = true -> goes (T ++ T') pc main st = true.
Proof. rewrite !goes_spec. intros (pt & H1 & H2). exists pt. split; [by apply zlookup_app_l | done]. Qed.
Lemma goes_app_r (T T' : list (option pc_ty)) pc main (st : list slot_ty) : goes T' pc main st = true -> goes (T ++ T') (Z.of_nat (length T) + pc) main st = true.
Proof. rewrite !goes_spec. intros (pt & H1 & H2). exists pt. split; [by apply zlookup_app_r | done]. Qed.

(** Control goes to where the second part begins. *)
Lemma goes_join (T T' : list (option pc_ty)) pc main m (st0 st : list slot_ty) :
  goes (T ++ [Some (PcTy m st0)]) pc main st = true -> goes T' 0 m st0 = true -> goes (T ++ T') pc main st = true.
Proof.
  rewrite (goes_spec (T ++ [_])). intros (pt & [Hp Ht]%zlookup_Some & Hm & Hs) H0. apply lookup_app_Some in Ht as [Ht|[Hle Ht]].
  - apply goes_app_l, goes_spec. exists pt. split; [by apply zlookup_Some | done].
  - apply list_lookup_singleton_Some in Ht as [Hz [= <-]]. cbn in *.
    replace pc with (Z.of_nat (length T) + 0)%Z by lia. eapply goes_app_r, goes_sub; [|exact Hs]. by eapply goes_main.
Qed.

(** ** Blocks *)

Section blocks.
Context (su : surroundings) (n : Z).

Definition block_op (T : list (option pc_ty)) (code : list instruction) (k : nat) (i : instruction) (pt : pc_ty) : Prop :=
  i_expcount i = Z.of_nat (length (pt_stack pt)) /\
  (pt_main pt = true /\ i_opcode i = OP_END \/
   okop su n (fun a st => goes T (Z.of_nat k + a) (pt_main pt) st = true) (fun st => goes T (Z.of_nat k + 1) (pt_main pt) st = true)
     (i_opcode <$> code !! S k) (pt_stack pt) i).

(** [fin]: the type of the address after the block, if the block leads there. *)
Record block (code : list instruction) (types fin : list (option pc_ty)) : Prop := {
  bl_length : length types = length code;
  bl_place : Forall (place_ok su) code;
  bl_op : forall k i pt, code !! k = Some i -> types !! k = Some (Some pt) -> block_op (types ++ fin) code k i pt
}.

Lemma block_app c1 t1 fin1 c2 t2 fin2 : block c1 t1 fin1 -> block c2 t2 fin2 ->
  (forall x, x ∈ fin1 -> exists m st, fin1 = [Some (PcTy m st)] /\ goes (t2 ++ fin2) 0 m st = true) ->
  block (c1 ++ c2) (t1 ++ t2) fin2.
Proof.
  intros [L1 P1 O1] [L2 P2 O2] Hf. split; [by rewrite !length_app, L1, L2 | by apply Forall_app|].
  intros k i pt Hc Ht. rewrite <- app_assoc. apply lookup_app_Some in Hc as [Hc|[Hle Hc]].
  - apply lookup_lt_Some in Hc as Hlt. rewrite lookup_app_l in Ht by lia. destruct (O1 k i pt Hc Ht) as [He Ho].
    split; [done|]. destruct Ho as [Ho|Ho]; [by left|]. right.
    assert (forall x m st, goes (t1 ++ fin1) x m st = true -> goes (t1 ++ t2 ++ fin2) x m st = true) as Hg.
    { intros x m st Hg. destruct fin1 as [|y fin1]; [rewrite app_nil_r in Hg; by apply goes_app_l|].
      destruct (Hf y) as (m1 & st1 & E & H1); [by left|]. rewrite E in Hg. by eapply goes_join. }
    eapply okop_mono; [| | | | exact Ho]; [done | by auto | by auto |]. intros Hn.
    destruct (c1 !! S k) as [j|] eqn:Ej; [|done]. by rewrite (lookup_app_l_Some _ _ _ _ Ej).
  - rewrite lookup_app_r in Ht by lia. rewrite L1 in Ht. destruct (O2 _ i pt Hc Ht) as [He Ho].
    split; [done|]. destruct Ho as [Ho|Ho]; [by left|]. right.
    assert (forall x m st, goes (t2 ++ fin2) (Z.of_nat (k - length c1) + x) m st = true -> goes (t1 ++ t2 ++ fin2) (Z.of_nat k + x) m st = true) as Hg.
    { intros x m st Hg. replace (Z.of_nat k + x)%Z with (Z.of_nat (length t1) + (Z.of_nat (k - length c1) + x))%Z by lia. by apply goes_app_r. }
    eapply okop_mono; [| | | | exact Ho]; [done | by auto | by auto |].
    rewrite lookup_app_r by lia. replace (S k - length c1) with (S (k - length c1)) by lia. done.
Qed.

Lemma block_none code : Forall (place_ok su) code -> block code (replicate (length code) None) [].
Proof. intros H. split; [apply length_replicate | done|]. intros k i pt _ Ht. by apply lookup_replicate in Ht as [? _]. Qed.

Lemma block_nil fin : block [] [] fin.
Proof. by split. Qed.

Lemma block_closed_app c1 t1 c2 t2 fin : block c1 t1 [] -> block c2 t2 fin -> block (c1 ++ c2) (t1 ++ t2) fin.
Proof. intros H1 H2. eapply block_app; [exact H1 | exact H2|]. intros x Hx. by apply not_elem_of_nil in Hx. Qed.

(** Typed pieces are blocks. *)
Lemma flows_lookup ex jump fin l : forall pos ts k i t, flows su ex n jump fin pos l ts -> l !! k = Some i -> ts !! k = Some t ->
  i_expcount i = Z.of_nat (length t) /\ place_ok su i /\
  okop su n (jump (pos + k)) (fun st => exists t', (ts ++ fin) !! S k = Some t' /\ fits ex t' st) (i_opcode <$> l !! S k) t i.
Proof.
  induction l as [|a l IH]; intros pos [|b ts] k i t H Hi Ht; cbn [flows] in H; try done. destruct H as (H1 & H2 & H3 & H4).
  destruct k as [|k]; cbn in Hi, Ht.
  - injection Hi as <-. injection Ht as <-. rewrite Nat.add_0_r. split_and!; [done | done|].
    eapply okop_mono; [| | | | exact H3]; [done | done | | by destruct l].
    intros st (t' & Ht' & Hf). exists t'. split; [|done]. rewrite head_lookup in Ht'. exact Ht'.
  - replace (pos + S k) with (S pos + k) by lia. by apply (IH (S pos) ts).
Qed.

Definition typed_main (m : bool) (ts : list (list slot_ty)) : list (option pc_ty) := map (fun t => Some (PcTy m t)) ts.

Lemma typed_main_length m (ts : list (list slot_ty)) : length (typed_main m ts) = length ts.
Proof. apply length_map. Qed.

Lemma typed_main_goes m ts pc t st : zlookup ts pc = Some t -> sub_st t st = true -> goes (typed_main m ts) pc m st = true.
Proof.
  intros [Hp Ht]%zlookup_Some Hs. apply goes_spec. exists (PcTy m t). split_and!; [|apply implb_refl | done].
  apply zlookup_Some. split; [done|]. unfold typed_main. change (map ?f ts) with (f <$> ts). by rewrite list_lookup_fmap, Ht.
Qed.

Lemma flows_block ex m l ts fin : flows su ex n (rjump (ts ++ fin)) fin 0 l ts -> block l (typed_main m ts) (typed_main m fin).
Proof.
  intros H. pose proof (flows_length su _ _ _ _ _ _ _ H) as Hl.
  assert (forall k t, typed_main m ts !! k = Some (Some t) -> exists t', t = PcTy m t' /\ ts !! k = Some t') as Hty.
  { intros k t Ht. unfold typed_main in Ht. change (map ?f ts) with (f <$> ts) in Ht. rewrite list_lookup_fmap in Ht.
    apply fmap_Some in Ht as (x & Hx & [= ->]). by exists x. }
  split.
  - unfold typed_main. by rewrite length_map.
  - apply Forall_lookup. intros k i Hi. destruct (lookup_lt_is_Some_2 ts k) as [t Ht]; [apply lookup_lt_Some in Hi; lia|].
    apply (flows_lookup _ _ _ _ _ _ _ _ _ H Hi Ht).
  - intros k i pt Hi (t & -> & Ht)%Hty. destruct (flows_lookup _ _ _ _ _ _ _ _ _ H Hi Ht) as (He & _ & Ho).
    split; [done|]. right. cbn [pt_main pt_stack]. unfold typed_main. rewrite <- map_app. fold (typed_main m (ts ++ fin)).
    eapply okop_mono; [| | | | exact Ho]; [done | | | done].
    + intros _ st (t' & Ht' & Hs). by eapply typed_main_goes.
    + intros st (t' & Ht' & Hs & _). eapply typed_main_goes; [|exact Hs].
      replace (Z.of_nat k + 1)%Z with (Z.of_nat (S k)) by lia. by rewrite zlookup_of_nat.
Qed.

Lemma piece_block m l ts st fin : piece su n l ts st fin -> block l (typed_main m ts) (typed_main m fin) /\
  goes (typed_main m (ts ++ fin)) 0 m st = true.
Proof.
  intros [(t & Ht & Hs & _) H]. split; [by eapply flows_block|]. eapply typed_main_goes; [|exact Hs].
  change 0%Z with (Z.of_nat 0). by rewrite zlookup_of_nat, <- head_lookup.
Qed.
End blocks.

Lemma block_weaken su n n' code types fin : (n <= n')%Z -> block su n code types fin -> block su n' code types fin.
Proof.
  intros Hn [H1 H2 H3]. split; [done | done|]. intros k i pt Hc Ht. destruct (H3 k i pt Hc Ht) as [He Ho]. split; [done|].
  destruct Ho as [Ho|Ho]; [by left | right]. eapply okop_mono; [exact Hn | | | | exact Ho]; done.
Qed.

(** ** Whole numbers are numbers on the machine *)

Section whole.
#[local] Open Scope Z_scope.

Lemma digits2_shift d (p : positive) : digits2_pos (Pos.iter xO p d) = (digits2_pos p + d)%positive.
Proof.
  induction d as [|d IH] using Pos.peano_ind; [cbn; lia|]. rewrite Pos.iter_succ. cbn [digits2_pos]. rewrite IH. lia.
Qed.

Lemma digits2_bounds (p : positive) : 2^(Z.pos (digits2_pos p) - 1) <= Z.pos p < 2^(Z.pos (digits2_pos p)).
Proof.
  induction p as [p IH|p IH|]; cbn [digits2_pos]; [| |cbn; lia];
    rewrite Pos2Z.inj_succ, <- Z.add_1_r, Z.add_simpl_r, Z.pow_add_r by lia;
    (replace (2 ^ Z.pos (digits2_pos p)) with (2 * 2^(Z.pos (digits2_pos p) - 1)) in * by
       (rewrite <- Z.pow_succ_r by lia; f_equal; lia)); lia.
Qed.

(** A positive whole number of at most 52 bits, scaled to 53. *)
Lemma normalize_small (p : positive) : Z.pos (digits2_pos p) < 53 ->
  exists d, Z.neg d = Z.pos (digits2_pos p) - 53 /\
    binary_normalize 53 1024 (Z.pos p) 0 false = S754_finite false (Pos.iter xO p d) (Z.neg d).
Proof.
  intros Hd. destruct (Z.pos (digits2_pos p) - 53) as [|d|d] eqn:Ed; [lia | lia|]. exists d. split; [done|].
  unfold binary_normalize, binary_round.
  assert (fexp 53 1024 (Z.pos (digits2_pos p) + 0) = Z.neg d) as Ef by (unfold fexp, emin; lia). rewrite Ef.
  unfold shl_align. rewrite Z.sub_0_r. unfold binary_round_aux.
  assert (forall l, shr_fexp 53 1024 (Z.pos (Pos.iter xO p d)) (Z.neg d) l = (shr_record_of_loc (Z.pos (Pos.iter xO p d)) l, Z.neg d)) as Hs.
  { intros l. unfold shr_fexp. cbn [Zdigits2]. rewrite digits2_shift.
    assert (fexp 53 1024 (Z.pos (digits2_pos p + d) + Z.neg d) - Z.neg d = 0) as -> by (unfold fexp, emin; lia). done. }
  rewrite Hs. cbn [shr_record_of_loc shr_m loc_of_shr_record round_nearest_even]. rewrite Hs. cbn [shr_record_of_loc shr_m].
  by rewrite (proj2 (Z.leb_le _ _)) by lia.
Qed.

(** A literal that is a number on the machine. *)
Lemma int_number i : 0 <= i <= INT_MAX -> is_pntr (set_pntrdouble (double_of_int i)) = false.
Proof.
  intros Hi. assert (0 <= double_of_int i < 2^63) as H.
  { destruct i as [|p|p]; [cbn; lia| |lia]. unfold double_of_int. pose proof (digits2_bounds p) as Hb.
    assert (Z.pos (digits2_pos p) < 33) as H33.
    { apply Z.nle_gt. intros H. pose proof (Z.pow_le_mono_r 2 32 (Z.pos (digits2_pos p) - 1)). unfold INT_MAX in Hi. lia. }
    destruct (normalize_small p) as (d & Ed & ->); [lia|]. cbn [of_sf sign_bit].
    pose proof (digits2_bounds (Pos.iter xO p d)) as Hm. rewrite digits2_shift in Hm.
    replace (Z.pos (digits2_pos p + d)) with 53 in Hm by lia.
    destruct (Z.ltb_spec (Z.pos (Pos.iter xO p d)) (2^52)); [lia|].
    rewrite Z.mod_small; lia. }
  apply not_true_is_false. rewrite is_pntr_double by lia. unfold NEG_INFINITY. lia.
Qed.
End whole.

(** ** Code that passes the checker *)

Section checked.
Context (su : surroundings) (prog : program) (T : list (option pc_ty)) (maxstack : Z).
Abbreviation nstrings := (Z.of_nat (length (stringmap (p_comp prog)))).

(** What an instruction adds to the stack. *)
Definition growth (i : instruction) : Z :=
  match i_opcode i with
  | OP_PUSH | OP_PUSHNIL | OP_PUSHNUMBER | OP_PUSHSTRING => 1
  | OP_ALLOC => i_arg0 i
  | OP_MKCAP | OP_MKFRAME | OP_CALL => Z.max 0 (1 - i_arg1 i)
  | _ => 0
  end.
Definition roomy (i : instruction) : bool := (i_expcount i + growth i <=? maxstack)%Z.

Definition callable (fi : funinfo) : Prop := entry prog T maxstack (fi_address fi) (fi_arity fi) = true.

(** The program has what its code relies on. *)
Record realised : Prop := {
  rz_size : check_size maxstack = true;
  rz_callee : forall fno k, su_callee su fno k -> exists fi, zlookup (p_finfo prog) fno = Some fi /\ fi_arity fi = k /\ callable fi;
  rz_enter : forall fno level st, su_enter su fno level st -> (0 <= level <= 2)%Z /\
    exists fi, zlookup (p_finfo prog) fno = Some fi /\ callable fi /\
      goes T (if (level =? 2)%Z then fi_addressed fi else if (level =? 1)%Z then fi_addressne fi else fi_address fi + 1) false st = true;
  rz_item : su_item su -> exists fi, zlookup (p_finfo prog) (p_itemfno prog) = Some fi /\ fi_arity fi = 2%Z /\ callable fi;
  rz_files : (su_files su <= nstrings)%Z;
  rz_evaldo : forall i d, i ∈ instructions (p_comp prog) -> 2 <= d -> (Z.of_nat d < i_expcount i)%Z ->
    goes T (p_evaldoaddr prog + (Z.of_nat d - 1) * EVALDO_SEQUENCE_SIZE) false (replicate d SAny) = true
}.
Hypothesis Hrz : realised.

Lemma callable_finfo fno k ok : su_callee su fno k -> (forall fi, fi_arity fi = k -> ok fi = true) -> finfo_entry prog T maxstack fno ok = true.
Proof using Hrz.
  intros Hc Hok. destruct (rz_callee Hrz _ _ Hc) as (fi & Hf & Ha & He). unfold finfo_entry. rewrite Hf, (Hok fi Ha). by rewrite He.
Qed.

Lemma drop_top_goes k pc main (st : list slot_ty) : goes T pc main (drop_top k st) = true -> goes T pc main st = true.
Proof. intros H. eapply goes_sub; [exact H | apply drop_top_sub]. Qed.

Lemma can_replace_ok n (st : list slot_ty) : (0 <= n <= Z.of_nat (length st))%Z -> (Z.of_nat (length st) + Z.max 0 (1 - n) <= maxstack)%Z ->
  can_replace maxstack n st = true.
Proof. intros H1 H2. unfold can_replace. rewrite !andb_true_iff, !Z.leb_le. lia. Qed.

Lemma okop_checks k m st i follow : i ∈ instructions (p_comp prog) -> instructions (p_comp prog) !! k = Some i ->
  i_expcount i = Z.of_nat (length st) -> roomy i = true ->
  (follow = Some OP_EVAL -> i_opcode <$> instructions (p_comp prog) !! S k = Some OP_EVAL) ->
  okop su nstrings (fun a st => goes T (Z.of_nat k + a) m st = true) (fun st => goes T (Z.of_nat k + 1) m st = true) follow st i ->
  check_op prog T maxstack nstrings (Z.of_nat k) m st i = true.
Proof using Hrz.
  intros Hin Hk He Hroom Hfollow H. unfold roomy in Hroom. apply Z.leb_le in Hroom. unfold growth in Hroom. rewrite He in Hroom.
  unfold check_op. unfold okop in H. destruct (i_opcode i) eqn:Eop; try done.
  - destruct H as [[ty Ht] H]. unfold slot_is. by rewrite Ht.
  - rewrite H. cbn [andb]. apply forallb_forall. intros d [Hd1 Hd2]%in_seq. apply (rz_evaldo Hrz i); [done | lia | lia].
  - destruct (rz_enter Hrz _ _ _ H) as (Hl & fi & -> & Hc & Hg).
    destruct (i_arg1 i =? 2)%Z; [done|]. destruct (i_arg1 i =? 1)%Z; [done|]. rewrite Hg. unfold callable in Hc. by rewrite Hc.
  - destruct H as (-> & H1 & H2). by rewrite (drop_top_goes _ _ _ _ H1), (drop_top_goes _ _ _ _ H2).
  - destruct H as (ty & -> & H). rewrite (proj2 (Z.ltb_lt _ _)) by lia. exact H.
  - destruct H as (ty & H0 & Hlt & Ht & H). unfold slot_is. rewrite H0, Ht, !andb_true_iff, Z.ltb_lt. split_and!; [done | done | exact (drop_top_goes _ _ _ _ H)].
  - destruct H as [H0 H]. rewrite H, !(proj2 (Z.leb_le _ _)) by lia. done.
  - destruct H as (H0 & H1 & H2 & H). rewrite H, !(proj2 (Z.leb_le _ _)) by lia. done.
  - destruct H as (b & Hc & H1 & H2 & H). rewrite (callable_finfo _ b), H; [| done | intros fi <-; apply Z.ltb_lt; lia].
    rewrite can_replace_ok by lia. done.
  - destruct H as (Hc & H1 & H). rewrite (callable_finfo _ (i_arg1 i)), H; [| done | intros fi <-; by apply Z.eqb_eq].
    rewrite can_replace_ok by lia. done.
  - destruct H as (b & Hb & _ & H1 & H2 & H). rewrite Hb, H.
    pose proof (builtin_nargs_pos (Z.to_nat (i_arg0 i)) b) as Hpos. apply zlookup_Some in Hb as [_ Hb]. specialize (Hpos Hb).
    rewrite can_replace_ok by lia. cbn [andb]. rewrite andb_true_r. apply forallb_forall. intros d Hd%in_seq. apply H2. lia.
  - rewrite H, (proj2 (Z.ltb_lt _ _)) by lia. done.
  - destruct H as [Hn H]. rewrite H, Hn, (proj2 (Z.ltb_lt _ _)) by lia. done.
  - destruct H as [Hn H]. rewrite H, !(proj2 (Z.ltb_lt _ _)), (proj2 (Z.leb_le _ _)) by lia. done.
  - destruct H as [_ H]. exact (drop_top_goes _ _ _ _ H).
  - destruct H as [[ty Ht] H]. unfold slot_is. by rewrite Ht.
  - destruct H as ((Hc & H1 & H) & Hf). rewrite (callable_finfo _ (i_arg1 i)), H; [| done | intros fi <-; by apply Z.eqb_eq].
    rewrite can_replace_ok by lia. cbn [andb]. specialize (Hfollow Hf). unfold ops.
    replace (Z.of_nat k + 1)%Z with (Z.of_nat (S k)) by lia. rewrite zlookup_of_nat.
    destruct (instructions (p_comp prog) !! S k); [|done]. injection Hfollow as ->. done.
  - destruct H as (-> & -> & (Hb & H0) & H1 & H2). rewrite (drop_top_goes _ _ _ _ H1), (drop_top_goes _ _ _ _ H2).
    rewrite bool_decide_true by done. by rewrite (proj2 (Z.leb_le _ _) H0).
  - destruct H as [H1 H]. rewrite H, can_replace_ok by lia. pose proof (rz_size Hrz) as Hs. unfold check_size in Hs.
    rewrite andb_true_iff, !Z.leb_le in Hs. unfold sizeof_frame, sizeof_pntr, FRAMEBLOCK_SIZE in Hs. change MAX_ARRAY_SIZE with 524288%Z.
    rewrite !(proj2 (Z.leb_le _ _)) by lia. done.
  - destruct H as (H0 & H1 & Hi & H). destruct (rz_item Hrz Hi) as (fi & Hf & Ha & Hc). unfold finfo_entry. rewrite Hf, Ha.
    unfold callable in Hc. rewrite Ha in Hc. rewrite Hc, int_number, H by done.
    unfold entry in Hc. rewrite !andb_true_iff in Hc. destruct Hc as [_ Hc]. rewrite Hc, !(proj2 (Z.leb_le _ _)) by lia. done.
  - destruct H as (-> & H1 & H2). by rewrite H1, H2.
Qed.

Lemma imap_pairs {A} (l : list A) k x : (k, x) ∈ imap (fun pc i => (pc, i)) l -> l !! k = Some x.
Proof.
  intros [j Hj]%list_elem_of_lookup. rewrite list_lookup_imap in Hj. apply fmap_Some in Hj as (y & Hy & [= -> ->]). exact Hy.
Qed.

Lemma block_checks : block su nstrings (instructions (p_comp prog)) T [] ->
  (forall i, i ∈ instructions (p_comp prog) -> roomy i = true) -> check_error prog = true ->
  (forall fi, fi ∈ p_finfo prog -> check_finfo prog fi = true) ->
  check_program prog T maxstack nstrings = true.
Proof using Hrz.
  intros [Hl Hp Ho] Hroom Herr Hfi. unfold check_program. unfold ops. rewrite (rz_size Hrz), Herr.
  rewrite (proj2 (forallb_forall _ _)) by (intros fi Hin; by apply Hfi, list_elem_of_In).
  rewrite (proj2 (Z.leb_le _ _)) by lia. cbn [andb]. rewrite andb_true_r. apply forallb_forall.
  intros [k i] Hin%list_elem_of_In%imap_pairs. pose proof (list_elem_of_lookup_2 _ _ _ Hin) as Hi.
  unfold check_instr, check_pos, typing. rewrite Forall_lookup in Hp. specialize (Hp k i Hin). unfold place_ok in Hp.
  pose proof (rz_files Hrz) as Hf. rewrite (proj2 (Z.ltb_lt (i_fileno i) nstrings)) by lia. rewrite orb_true_r. cbn [andb].
  destruct (T !! k) as [[pt|]|] eqn:ET; [|done..]. destruct (Ho k i pt Hin ET) as [He H]. rewrite app_nil_r in H.
  pose proof (Hroom i Hi) as Hr. rewrite He, Z.eqb_refl. cbn [andb].
  assert (Z.of_nat (length (pt_stack pt)) <= maxstack)%Z as Hle.
  { apply Z.leb_le in Hr. rewrite He in Hr. destruct H as [[_ H]|H]; [unfold growth in Hr; rewrite H in Hr; lia|].
    unfold growth in Hr. unfold okop in H. destruct (i_opcode i); try lia. }
  rewrite (proj2 (Z.leb_le _ _) Hle). cbn [andb].
  destruct H as [[Hm H]|H]; [by unfold check_op; rewrite H|]. eapply okop_checks; [done | done | done | done | | exact H]. done.
Qed.
End checked.
