(* ===== verification/ProgramTyped.v ===== *)
(** * Compiled programs are typed

    The pieces of [compile_program] are typed blocks: the prologue, each
    function with its entry code and optimised body, each built-in, the EVAL/DO
    sequences. Together they pass the checker, so the program the compiler
    writes is one the interpreter runs safely. *)

From S2P Require Import Prelude CString Builtins Util Source Resolve Double Pointer Bytecode Peephole StackDiscipline Schemes SchemeR PeepholeFacts Compile CompileFacts Emits ProgramFacts Arith Memory Interpreter Boot Typing Flow MacrosTyped SchemesTyped SchemeRTyped Tidy PeepholeTyped PassesTyped Blocks.

#[local] Set Warnings "-clear-no-such-hyp".

(** ** Entry code *)

Section entry_code.
Context (su : surroundings).

Lemma for_SPARK_goes sl todo : forall comp st comp', ready comp st -> sl_ok su sl -> for_args (SPARK sl) todo comp = Done comp' ->
  goesto su comp st comp' st.
Proof.
  induction todo as [|i todo IH]; intros comp st comp' Hr Hsl H; cbn [for_args] in H; [injection H as <-; by apply goesto_refl|].
  apply bind_Done_inv in H as (c1 & H1 & H). pose proof (SPARK_goes su _ _ _ _ _ Hr Hsl H1) as Hg.
  eapply goesto_trans; [exact Hg|]. eapply IH; [apply (gt_ready _ _ _ _ _ Hg) | done | exact H].
Qed.

Lemma for_EVAL_eval_args sl todo : forall comp, for_args (EVAL sl) todo comp = eval_args sl todo comp.
Proof. induction todo as [|i todo IH]; intros comp; cbn [for_args eval_args]; [done|]. by destruct (EVAL sl _ comp); cbn. Qed.

Lemma strict_positions_elem sc stl l i : sc_strictin sc = Some stl -> strict_positions (Some stl) (sc_nargs sc) = Done l ->
  i ∈ l <-> i < sc_nargs sc /\ strict_arg sc i = true.
Proof.
  intros Hs H. unfold strict_positions in H. apply bind_Done_inv in H as (u & _ & [= <-]).
  rewrite list_elem_of_In, filter_In, in_seq. unfold strict_arg. rewrite Hs. split; intros [? ?]; split; (lia || done).
Qed.

(** After the strict arguments have been evaluated. *)
Lemma for_EVAL_strict sc stl l comp comp' : sc_strictin sc = Some stl -> strict_positions (Some stl) (sc_nargs sc) = Done l ->
  ready comp (replicate (sc_nargs sc) SAny) -> sl_ok su (sc_sl sc) -> for_args (EVAL (sc_sl sc)) l comp = Done comp' ->
  goesto su comp (replicate (sc_nargs sc) SAny) comp' (strict_stack sc).
Proof.
  intros Hs Hl Hr Hsl H. rewrite for_EVAL_eval_args in H. destruct (eval_args_goes su _ _ _ _ _ Hr Hsl H) as (st' & Hgo & Hlen & Hother & Hval).
  rewrite length_replicate in Hlen. unfold below_top in Hother, Hval. rewrite length_replicate in Hother, Hval.
  assert (st' = strict_stack sc) as <-; [|done]. apply list_eq. intros p. unfold strict_stack. rewrite list_lookup_fmap.
  destruct (decide (p < sc_nargs sc)) as [Hp|Hp].
  - rewrite (lookup_seq_lt _ _ _ Hp). cbn [fmap option_fmap option_map Nat.add]. destruct (strict_arg sc (sc_nargs sc - 1 - p)) eqn:Ea.
    + rewrite <- (Hval (sc_nargs sc - 1 - p)) by (eapply strict_positions_elem; [exact Hs | exact Hl | split; [lia | done]]). f_equal. lia.
    + rewrite Hother; [by apply lookup_replicate|]. intros v Hv E.
      apply (strict_positions_elem sc stl l v Hs Hl) in Hv as [Hv Hsv]. replace (sc_nargs sc - 1 - p) with v in Ea by lia. congruence.
  - rewrite lookup_ge_None_2 by lia. rewrite lookup_seq_ge by lia. done.
Qed.

(** [g] and two pieces: the sparks and the evaluations. *)
Definition entry_code (fno : Z) (sc : scomb) (comp comp' : compilation) (ne ed : Z) : Prop :=
  exists g l1 l2 ts1 ts2 (st : list slot_ty), instructions comp' = instructions comp ++ g :: l1 ++ l2 /\ i_opcode g = OP_GLOBSTART /\
    place_ok su g /\ i_expcount g = Z.of_nat (sc_nargs sc) /\
    (exists s, stringmap comp' = stringmap comp ++ s) /\ ready comp' st /\ length st = sc_nargs sc /\
    piece su (strings comp') l1 ts1 (replicate (sc_nargs sc) SAny) [replicate (sc_nargs sc) SAny] /\
    piece su (strings comp') l2 ts2 (replicate (sc_nargs sc) SAny) [st] /\ sub_st st (entry_stack sc 2) = true /\
    ne = (code_count comp + 1 + Z.of_nat (length l1))%Z /\ ed = (code_count comp + 1 + Z.of_nat (length l1) + Z.of_nat (length l2))%Z.

Lemma start_ready l comp sl fno k st comp' : agree l st -> sl_ok su sl ->
  add_instruction (push_statuses l comp) sl OP_GLOBSTART fno k = Done comp' ->
  exists g, instructions comp' = instructions comp ++ [g] /\ i_opcode g = OP_GLOBSTART /\ place_ok su g /\
    i_expcount g = Z.of_nat (length l) /\ stringmap comp' = stringmap comp /\ ready comp' st.
Proof.
  intros Ha Hsl H. destruct (add_inv (push_statuses l comp) sl OP_GLOBSTART fno k comp' l false eq_refl H) as (si' & E1 & E2 & E3 & E4). cbn in E1. injection E1 as <-.
  eexists. split_and!; [exact E4 | done | exact Hsl | done | exact E3 | by exists l, false].
Qed.

Lemma F_entry_typed fno sc stl comp comp' ne ed : sc_strictin sc = Some stl -> length stl = sc_nargs sc -> sl_ok su (sc_sl sc) ->
  F_entry fno sc comp = Done (comp', ne, ed) -> entry_code fno sc comp comp' ne ed.
Proof.
  intros Hs Hl Hsl H. unfold F_entry in H. rewrite Hs in H. destruct (sc_nospark sc) eqn:En.
  - cbn [mbind outcome_bind] in H. apply bind_Done_inv in H as (u0 & _ & H). apply bind_Done_inv in H as (c1 & H1 & [= -> <- <-]).
    eapply start_ready with (st := replicate (sc_nargs sc) SAny) in H1 as (g & Eg & Ho & Hp & Eex & Es & Hr); [| |done].
    2: { apply agree_low; [apply Forall_map, Forall_true; intros []; status_lia|]. rewrite length_replicate, length_map, length_take. lia. }
    exists g, [], [], [], [], (replicate (sc_nargs sc) SAny).
    split_and!; [exact Eg | done | done | by rewrite Eex, length_map, length_take, Hl, Nat.min_id | by exists []; rewrite app_nil_r | done | apply length_replicate | apply piece_nil | apply piece_nil | | |].
    + unfold entry_stack. rewrite En. apply sub_st_refl.
    + unfold code_count. rewrite Eg, length_app. cbn. lia.
    + unfold code_count. rewrite Eg, length_app. cbn. lia.
  - apply bind_Done_inv in H as (c1 & H1 & H). apply bind_Done_inv in H as (l & Hp & H).
    apply bind_Done_inv in H as (c2 & H2 & H). apply bind_Done_inv in H as (c3 & H3 & [= <- <- <-]).
    eapply start_ready with (st := replicate (sc_nargs sc) SAny) in H1 as (g & Eg & Ho & Hpl & Eex & Es & Hr); [| |done].
    2: { apply agree_low; [apply Forall_replicate; status_lia | by rewrite !length_replicate]. }
    pose proof (for_SPARK_goes _ _ _ _ _ Hr Hsl H2) as G2. destruct G2 as [Hr2 (s2 & Es2) (l2 & ts2 & E2 & P2)].
    destruct (for_EVAL_strict _ _ _ _ _ Hs Hp Hr2 Hsl H3) as [Hr3 (s3 & Es3) (l3 & ts3 & E3 & P3)].
    exists g, l2, l3, ts2, ts3, (strict_stack sc).
    split_and!; [| done | done | by rewrite Eex, length_replicate | | exact Hr3 | by unfold strict_stack; rewrite length_map, length_seq | | exact P3 | | |].
    + by rewrite E3, E2, Eg, <- !app_assoc.
    + rewrite Es3, Es2, Es, <- app_assoc. by eexists.
    + eapply piece_weaken; [|exact P2]. by eapply strings_le.
    + unfold entry_stack. rewrite En. apply sub_st_refl.
    + unfold code_count. rewrite E2, Eg, !length_app. cbn. lia.
    + unfold code_count. rewrite E3, E2, Eg, !length_app. cbn. lia.
Qed.
End entry_code.

(** ** Built-ins *)

Section builtin_code.
Context (src : source) (allowed : nat -> bool) (files : Z).
Abbreviation su := (surroundings_of src allowed files).
Hypothesis Hnosl : sl_ok su nosl.

Lemma builtin_call_ends i bi comp comp' : builtin_info !! i = Some bi -> su_allowed su i = true ->
  ready comp (replicate (bi_nargs bi) SAny) -> builtin_call i bi comp = Done comp' -> ends su comp (replicate (bi_nargs bi) SAny) comp'.
Proof using Hnosl.
  intros Hb Hal Hr H. unfold builtin_call in H. apply bind_Done_inv in H as (c1 & H1 & H).
  pose proof (for_SPARK_goes su _ _ _ _ _ Hr Hnosl H1) as G1. apply bind_Done_inv in H as (c2 & H2 & H).
  destruct (BIF_goes su nosl i bi _ _ _ (gt_ready _ _ _ _ _ G1) Hnosl Hal Hb H2) as [Hn G2].
  rewrite length_replicate in Hn.
  assert (forall ty, replace_top (Z.of_nat (bi_nargs bi)) ty (replicate (bi_nargs bi) SAny) = [ty]) as Et.
  { intros ty. unfold replace_top, ztake. by rewrite length_replicate, Z.sub_diag. }
  rewrite Et in G2. pose proof (goesto_trans _ _ _ _ _ _ _ G1 G2) as G. destruct (bi_reswhnf bi).
  - cbn [mbind outcome_bind] in H. by eapply (RETURN_ends src allowed files nosl comp _ []).
  - apply bind_Done_inv in H as (c3 & H3 & H).
    destruct (EVAL_goes su _ _ _ _ _ (gt_ready _ _ _ _ _ G2) Hnosl H3) as [_ G3].
    eapply (RETURN_ends src allowed files nosl comp _ []); [eapply goesto_trans; [exact G | exact G3] | done | exact H].
Qed.

(** Code depends on the compilation before it only by what it is appended to. *)
Lemma goesto_from comp d st comp' st' : instructions d = instructions comp -> stringmap d = stringmap comp ->
  goesto su comp st comp' st' -> goesto su d st comp' st'.
Proof. intros Ei Es [H1 H2 H3]. split; [done | by rewrite Es | by rewrite Ei]. Qed.

Lemma builtin_if_ends comp comp' : ready comp [SAny; SAny; SAny] -> builtin_if comp = Done comp' -> ends su comp [SAny; SAny; SAny] comp'.
Proof using Hnosl.
  intros Hr H. unfold builtin_if in H. set (st := [SAny; SAny; SAny]) in *.
  apply bind_Done_inv in H as (c1 & H1 & H). destruct (PUSH_goes su _ _ _ _ _ Hr Hnosl H1) as [ty G1].
  apply bind_Done_inv in H as (c2 & H2 & H). pose proof (SPARK_goes su _ _ _ _ _ (gt_ready _ _ _ _ _ G1) Hnosl H2) as G2.
  apply bind_Done_inv in H as ([comp0 label1] & Hj & H).
  pose proof (JFALSE_forks su _ _ _ _ _ _ (gt_ready _ _ _ _ _ G2) Hnosl Hj) as HF.
  assert (ready comp0 st) as Hr0 by (destruct HF as (c & j & s & HF); apply HF).
  apply bind_Done_inv in H as (b1 & Hb1 & H). destruct (branch_ready _ _ _ Hr0 Hb1) as (Hrb & _).
  apply bind_Done_inv in H as (b2 & Hb2 & H). destruct (PUSH_at su _ _ _ _ _ Hrb Hnosl Hb2) as (t1 & Ht1 & P1).
  apply bind_Done_inv in H as ([b3 label2] & Hju & H). apply bind_Done_inv in H as (d2 & Hd2 & H).
  destruct (PUSH_at su _ _ (LABEL label1 (unbranch comp0 b3)) st _ Hr0 Hnosl Hd2) as (t2 & Ht2 & P2).
  cbn in Ht1, Ht2. injection Ht1 as <-. injection Ht2 as <-. cbn [copy_ty] in P1, P2.
  assert (exists d1, branch (LABEL label1 (unbranch comp0 b3)) = Done d1) as [d1 Hd1].
  { destruct Hr0 as (s & inv & Hs & _). unfold branch, the_si. cbn [LABEL set_instructions unbranch set_si comp_si]. rewrite Hs. by eexists. }
  destruct (branch_ready (LABEL label1 (unbranch comp0 b3)) d1 st Hr0 Hd1) as (_ & Ei & Es). apply (goesto_from _ d1) in P2; [|done..].
  destruct (forks_join su c2 _ comp0 label1 st b1 b2 b3 nosl label2 _ d1 d2 _ (st ++ [SAny]) HF Hnosl Hb1 P1 Hju Hd1 P2
    (fits_refl _ _) (fits_refl _ _)) as [_ Hjoin].
  specialize (Hjoin (LABEL label2 d2) eq_refl eq_refl (gt_ready _ _ _ _ _ P2)).
  apply bind_Done_inv in H as (c4 & H4 & H). destruct (EVAL_goes su _ _ _ _ _ (gt_ready _ _ _ _ _ Hjoin) Hnosl H4) as [_ G4].
  rewrite (eval_top st SAny) in G4. apply (RETURN_ends src allowed files nosl comp _ st c4); [|done | exact H].
  eapply goesto_trans; [exact G1|]. eapply goesto_trans; [exact G2|]. by eapply goesto_trans.
Qed.
End builtin_code.

(** ** Blocks one after the other *)

Lemma block_lead su n m l ts st st1 c2 t2 : piece su n l ts st [st1] -> block su n c2 t2 [] -> goes t2 0 m st1 = true ->
  block su n (l ++ c2) (typed_main m ts ++ t2) [] /\ goes (typed_main m ts ++ t2) 0 m st = true.
Proof.
  intros Hp Hb Hg. destruct (piece_block su n m _ _ _ _ Hp) as [Hb1 Hg1]. split.
  - eapply block_app; [exact Hb1 | exact Hb|]. intros x _. exists m, st1. rewrite app_nil_r. done.
  - unfold typed_main in Hg1. rewrite map_app in Hg1. eapply goes_join; [exact Hg1 | exact Hg].
Qed.

Lemma place_block su n i : place_ok su i -> block su n [i] [None] [].
Proof. intros H. apply (block_none su n [i]). by apply Forall_singleton. Qed.

Section program.
Context (fuel mkfuel : nat) (src : source) (allowed : nat -> bool) (files : Z).
Abbreviation su := (surroundings_of src allowed files).

(** ** Rows of the function table *)

Definition level_address (level : Z) (fi : funinfo) : Z :=
  if (level =? 2)%Z then fi_addressed fi else if (level =? 1)%Z then fi_addressne fi else fi_address fi + 1.

Record row (fno : Z) (code : list instruction) (T : list (option pc_ty)) (n : Z) (fi : funinfo) : Prop := {
  rw_name : (0 <= fi_name fi < n)%Z;
  rw_callee : forall k, su_callee su fno k -> fi_arity fi = k /\
    (exists g, zlookup code (fi_address fi) = Some g /\ i_opcode g = OP_GLOBSTART /\ i_expcount g = k) /\
    goes T (fi_address fi + 1) false (replicate (Z.to_nat k) SAny) = true;
  rw_enter : forall level st, su_enter su fno level st -> goes T (level_address level fi) false st = true
}.

Lemma row_grows fno code T n fi c t n' : row fno code T n fi -> (n <= n')%Z -> row fno (code ++ c) (T ++ t) n' fi.
Proof.
  intros [H1 H2 H3] Hn. split; [lia | |].
  - intros k Hk. destruct (H2 k Hk) as (Ha & (g & Hg & Ho & He) & Hgo). split_and!; [done | | by apply goes_app_l].
    exists g. split; [by apply zlookup_app_l | done].
  - intros level st Hs. by apply goes_app_l, H3.
Qed.

(** ** One function *)

(** [p'] is [p] with a typed function. *)
Definition adds_typed (p : program) (fno : nat) (p' : program) : Prop :=
  exists code types fi, instructions (p_comp p') = instructions (p_comp p) ++ code /\
    (exists s, stringmap (p_comp p') = stringmap (p_comp p) ++ s) /\
    p_finfo p' = <[fno := fi]> (p_finfo p) /\ p_erroraddr p' = p_erroraddr p /\
    block su (strings (p_comp p')) code types [] /\
    forall T, length T = length (instructions (p_comp p)) ->
      row (Z.of_nat fno) (instructions (p_comp p')) (T ++ types) (strings (p_comp p')) fi.

Hypothesis Hmk : 0 < mkfuel.
Hypothesis Hsrc : forall q, q ∈ src_scombs src -> exists sc, compilable fuel mkfuel src q sc.
Hypothesis Htame : bodies_tame src allowed files.
Hypothesis Hplace : forall q sc, q ∈ src_scombs src -> src_heap src !! q = Some sc -> place_in files (sc_sl sc) = true.
Hypothesis Hfiles : (0 <= files)%Z.

Lemma scomb_indexes q sc : q ∈ src_scombs src -> src_heap src !! q = Some sc -> src_scombs src !! sc_index sc = Some q.
Proof using Hsrc.
  intros Hq Hs. destruct (Hsrc q Hq) as (sc' & (body & st & Hr & _) & _). rewrite (sr_heap _ _ _ _ _ _ Hr) in Hs.
  injection Hs as <-. apply (sr_index _ _ _ _ _ _ Hr).
Qed.

Lemma own_number q sc sc' : q ∈ src_scombs src -> src_heap src !! q = Some sc ->
  fno_scomb src (Z.of_nat (NUM_BUILTINS + sc_index sc)) = Done sc' -> sc' = sc.
Proof using Hsrc.
  intros Hq Hs H. rewrite Nat.add_comm, (fno_scomb_index src scomb_indexes q sc Hq Hs) in H. congruence.
Qed.

Lemma find_string_nonneg l str i : (0 <= i)%Z -> (-1 <= find_string l i str)%Z.
Proof. revert i. induction l as [|x l IH]; intros i Hi; cbn; [lia|]. destruct (String.eqb x str); [lia|]. apply IH. lia. Qed.

Lemma add_string_pos comp str comp' pos : add_string comp str = (comp', pos) ->
  (0 <= pos < strings comp')%Z /\ exists s, stringmap comp' = stringmap comp ++ s.
Proof.
  unfold add_string, strings. pose proof (find_string_range (stringmap comp) str 0 ltac:(lia)) as Hf.
  destruct (Z.leb_spec 0 (find_string (stringmap comp) 0 str)); intros [= <- <-].
  - split; [lia | by exists []; rewrite app_nil_r].
  - cbn. rewrite length_app. cbn. split; [lia | by eexists].
Qed.

Lemma body_typed q sc body stl c1 (st : list slot_ty) s c2 c3 : q ∈ src_scombs src -> sc_ready mkfuel src q sc body stl ->
  rbody src (arg_pmap (sc_argnames sc)) (sc_nargs sc) body -> 2 * snode_size body <= fuel ->
  ready c1 st -> length st = sc_nargs sc -> holds c1 s 0 s -> length s = sc_nargs sc ->
  R fuel mkfuel src c1 body (arg_pmap (sc_argnames sc)) (Z.of_nat (sc_nargs sc)) = Done c2 ->
  peephole (code_count c1) c2 = Done c3 ->
  exists l ts, instructions c3 = instructions c1 ++ l /\ (exists x, stringmap c3 = stringmap c1 ++ x) /\
    block su (strings c3) l (typed_main false ts) [] /\ goes (typed_main false ts) 0 false st = true.
Proof using Hmk Hsrc Htame.
  intros Hq Hr Hb Hf Hrd Hl Hh Hls HR HP.
  assert (tame src allowed files body = true) as Ht by exact (Htame _ _ _ Hq (sr_heap _ _ _ _ _ _ Hr) (sr_body _ _ _ _ _ _ Hr)).
  destruct (R_ends src allowed files mkfuel Htame scomb_indexes _ _ _ Hb fuel c1 st c2 Hl Ht Hrd HR) as [(x & Ex) (l & ts & El & Hpc)].
  destruct (R_finished _ _ _ _ _ _ _ _ HR) as (l1 & E1 & Hst & _).
  destruct (R_ok mkfuel src Hmk (all_ready fuel mkfuel src Hsrc) _ _ _ Hb fuel c1 s Hf Hls Hh) as (c2' & l2 & E2 & E2' & Hcl & _).
  rewrite HR in E2. injection E2 as <-. rewrite El in E1, E2'. apply app_inv_head in E1, E2'. subst l1 l2.
  unfold peephole in HP. rewrite El in HP. unfold code_count in HP. rewrite Nat2Z.id, drop_app_length, take_app_length in HP.
  apply bind_Done_inv in HP as (l' & HP & [= <-]). cbn [instructions stringmap set_instructions].
  destruct (peephole_typed _ _ _ _ _ _ _ (Nat2Z.is_nonneg _) Hpc Hst Hcl HP) as (ts' & Hfl & (t & Hhd & Hs & _)).
  exists l', ts'. split_and!; [done | by exists x | |].
  - apply (flows_block su _ false false l' ts' []). by rewrite app_nil_r.
  - eapply typed_main_goes; [|exact Hs]. change 0%Z with (Z.of_nat 0). by rewrite zlookup_of_nat, <- head_lookup.
Qed.

Lemma set_finfo_inv fno fi p p' : set_finfo fno fi p = Done p' ->
  p' = Program (p_comp p) (<[Z.to_nat fno := fi]> (p_finfo p)) (p_evaldoaddr p) (p_erroraddr p) (p_itemfno p).
Proof. unfold set_finfo. destruct (cassert _); cbn [mbind outcome_bind]; [by intros [= <-] | done | done]. Qed.

Lemma row_of_function fno sc (T : list (option pc_ty)) code n fi q : q ∈ src_scombs src -> src_heap src !! q = Some sc ->
  fno = Z.of_nat (NUM_BUILTINS + sc_index sc) -> (0 <= fi_name fi < n)%Z -> fi_arity fi = Z.of_nat (sc_nargs sc) ->
  (exists g, zlookup code (fi_address fi) = Some g /\ i_opcode g = OP_GLOBSTART /\ i_expcount g = Z.of_nat (sc_nargs sc)) ->
  goes T (fi_address fi + 1) false (replicate (sc_nargs sc) SAny) = true ->
  goes T (fi_addressne fi) false (replicate (sc_nargs sc) SAny) = true ->
  goes T (fi_addressed fi) false (entry_stack sc 2) = true -> row fno code T n fi.
Proof using Hmk Hsrc.
  intros Hq Hs -> Hn Ha Hg H0 H1 H2. split; [done | |].
  - intros k [Hk _]. unfold function_nargs in Hk. rewrite (proj2 (Z.leb_le _ _)), (proj2 (Z.ltb_ge _ _)) in Hk by lia.
    cbn [cassert mbind outcome_bind] in Hk. apply bind_Done_inv in Hk as (sc' & Hsc & [= <-]).
    apply (own_number q sc) in Hsc as ->; [|done..]. rewrite Nat2Z.id. done.
  - intros level st (_ & Hlev & sc' & Hsc & Hsub). apply (own_number q sc) in Hsc as ->; [|done..]. unfold level_address.
    unfold entry_stack in Hsub, H2. destruct (Z.eqb_spec level 2) as [->|Hne].
    + eapply goes_sub; [exact H2 | exact Hsub].
    + cbn [andb] in Hsub. destruct (level =? 1)%Z; by eapply goes_sub.
Qed.

Lemma F_adds_typed q sc p p' : q ∈ src_scombs src -> src_heap src !! q = Some sc -> compilable fuel mkfuel src q sc ->
  F fuel mkfuel src (Z.of_nat (NUM_BUILTINS + sc_index sc)) sc p = Done p' ->
  adds_typed p (NUM_BUILTINS + sc_index sc) p' /\
  p_itemfno p' = (if String.eqb (sc_name sc) "item" then Z.of_nat (NUM_BUILTINS + sc_index sc) else p_itemfno p).
Proof using Hmk Hsrc Htame Hplace.
  intros Hq Hs Hc H. pose proof (F_error _ _ _ _ _ _ _ H) as Eerr.
  destruct (cp_ready _ _ _ _ _ Hc) as (body & stl & Hr & Hb & Hf).
  unfold F in H. rewrite (sr_body _ _ _ _ _ _ Hr) in H. cbn [deref mbind outcome_bind] in H.
  apply bind_Done_inv in H as (name & _ & H).
  destruct (add_string_code (p_comp p) name) as [Ei0 Es0].
  destruct (add_string (p_comp p) name) as [comp pos] eqn:Eadd. cbn [fst] in Ei0, Es0.
  destruct (add_string_pos _ _ _ _ Eadd) as (Hpos & x0 & Ex0).
  apply bind_Done_inv in H as ([[c1 ne] ed] & HF & H). apply bind_Done_inv in H as (fi0 & _ & H).
  apply bind_Done_inv in H as (c2 & HR & H). apply bind_Done_inv in H as (c3 & HP & H). apply bind_Done_inv in H as (p1 & Hset & [= <-]).
  pose proof (sr_strict _ _ _ _ _ _ Hr) as Hst. pose proof (sr_strict_len _ _ _ _ _ _ Hr) as Hstl.
  assert (sl_ok su (sc_sl sc)) as Hsl by (apply Z.ltb_lt; exact (Hplace _ _ Hq Hs)).
  destruct (F_entry_typed su _ _ _ _ _ _ _ Hst Hstl Hsl HF) as (g & l1 & l2 & ts1 & ts2 & st & Ec1 & Hg & Hpg & Hgx & (x1 & Ex1) & Hrd & Hlen & P1 & P2 & Hsub & Ene & Eed).
  destruct (F_entry_ok (Z.of_nat (NUM_BUILTINS + sc_index sc)) sc stl comp Hst Hstl) as (c1' & s & ne' & ed' & HF' & _ & _ & _ & Hh & Hls).
  rewrite HF in HF'. injection HF' as <- <- <-.
  destruct (body_typed q sc body stl c1 st s c2 c3 Hq Hr Hb Hf Hrd Hlen Hh Hls HR HP) as (l3 & ts3 & Ec3 & (x3 & Ex3) & B3 & G3).
  assert (strings c1 <= strings c3)%Z as Hle by (by eapply strings_le).
  pose proof (piece_weaken su _ _ _ _ _ _ Hle P1) as P1'. pose proof (piece_weaken su _ _ _ _ _ _ Hle P2) as P2'.
  destruct (block_lead su _ false _ _ _ _ _ _ P2' B3 G3) as [B2 G2]. destruct (block_lead su _ false _ _ _ _ _ _ P1' B2 G2) as [B1 G1].
  pose proof (block_closed_app su _ [g] [None] _ _ [] (place_block su _ g Hpg) B1) as B.
  pose proof (piece_length _ _ _ _ _ _ P1) as L1. pose proof (piece_length _ _ _ _ _ _ P2) as L2.
  apply set_finfo_inv in Hset as ->. rewrite Nat2Z.id.
  split; [|done]. eexists _, _, _. cbn [p_comp p_finfo p_erroraddr instructions stringmap set_si] in *. split_and!; [ | | reflexivity | exact Eerr | exact B |].
  - rewrite Ec3, Ec1, Ei0, <- !app_assoc. cbn [app]. by rewrite <- app_assoc.
  - rewrite Ex3, Ex1, Ex0, <- !app_assoc. by eexists.
  - intros T HT. unfold code_count in *. rewrite Ei0 in Ene, Eed.
    eapply (row_of_function _ sc _ _ _ _ q); cbn [fi_name fi_address fi_addressne fi_addressed fi_arity]; try done.
    + destruct Hpos as [? Hp]. split; [done|]. unfold strings in *. cbn [stringmap set_si]. rewrite Ex3, Ex1, !length_app. lia.
    + exists g. split; [|done]. rewrite zlookup_of_nat, Ec3, Ec1, Ei0, <- !app_assoc, lookup_app_r, Nat.sub_diag by done. done.
    + rewrite <- HT. replace (Z.of_nat (length T) + 1)%Z with (Z.of_nat (length T) + (Z.of_nat (length [@None pc_ty]) + 0))%Z by done.
      by apply goes_app_r, goes_app_r.
    + rewrite Ene, <- HT. replace (Z.of_nat (length T) + 1 + Z.of_nat (length l1))%Z
        with (Z.of_nat (length T) + (Z.of_nat (length [@None pc_ty]) + (Z.of_nat (length (typed_main false ts1)) + 0)))%Z
        by (rewrite typed_main_length; cbn [length]; lia).
      by apply goes_app_r, goes_app_r, goes_app_r.
    + rewrite Eed, <- HT. replace (Z.of_nat (length T) + 1 + Z.of_nat (length l1) + Z.of_nat (length l2))%Z
        with (Z.of_nat (length T) + (Z.of_nat (length [@None pc_ty]) + (Z.of_nat (length (typed_main false ts1)) + (Z.of_nat (length (typed_main false ts2)) + 0))))%Z
        by (rewrite !typed_main_length; cbn [length]; lia).
      eapply goes_app_r, goes_app_r, goes_app_r, goes_app_r, goes_sub; [exact G3 | exact Hsub].
Qed.

(** ** One built-in *)

Lemma builtin_code_ends al i bi comp comp' : sl_ok (surroundings_of src al files) nosl -> al i = true -> builtin_info !! i = Some bi ->
  ready comp (replicate (bi_nargs bi) SAny) ->
  (if Nat.eqb i B_IF then builtin_if comp else builtin_call i bi comp) = Done comp' ->
  ends (surroundings_of src al files) comp (replicate (bi_nargs bi) SAny) comp'.
Proof using.
  intros Hsl Hal Hb Hr H. destruct (Nat.eqb_spec i B_IF) as [->|_].
  - assert (bi_nargs bi = 3) as E by (vm_compute in Hb; by injection Hb as <-). rewrite E in *. by apply builtin_if_ends.
  - by eapply builtin_call_ends.
Qed.

(** The code of a built-in that is not used is not typed. *)
Lemma builtin_block i bi comp comp' : builtin_info !! i = Some bi -> ready comp (replicate (bi_nargs bi) SAny) ->
  (if Nat.eqb i B_IF then builtin_if comp else builtin_call i bi comp) = Done comp' ->
  exists l types, instructions comp' = instructions comp ++ l /\ (exists s, stringmap comp' = stringmap comp ++ s) /\
    block su (strings comp') l types [] /\ (allowed i = true -> goes types 0 false (replicate (bi_nargs bi) SAny) = true).
Proof using Hmk Hfiles.
  intros Hb Hr H. assert (forall al, sl_ok (surroundings_of src al files) nosl) as Hsl by (intros al; unfold sl_ok; cbn; lia).
  destruct (allowed i) eqn:Ea.
  - destruct (builtin_code_ends allowed i bi comp comp' (Hsl _) Ea Hb Hr H) as [Hs (l & ts & El & Hp)].
    destruct (piece_block _ _ false _ _ _ _ Hp) as [Hbl Hg]. rewrite app_nil_r in Hg. by exists l, (typed_main false ts).
  - destruct (builtin_code_ends (fun _ => true) i bi comp comp' (Hsl _) eq_refl Hb Hr H) as [Hs (l & ts & El & Hp)].
    destruct (piece_block _ _ false _ _ _ _ Hp) as [Hbl _]. exists l, (replicate (length l) None).
    split_and!; [done | done | | done]. apply block_none. exact (bl_place _ _ _ _ _ Hbl).
Qed.

Lemma compile_builtin_adds_typed i p p' : i < NUM_BUILTINS -> compile_builtin i p = Done p' ->
  adds_typed p i p' /\ p_itemfno p' = p_itemfno p.
Proof using Hmk Hfiles.
  intros Hi H. unfold compile_builtin in H. apply bind_Done_inv in H as (bi & Hb & H). apply deref_Done in Hb.
  set (c0 := push_statuses _ _) in H. destruct (add_string_code c0 (bi_name bi)) as [Ei0 Es0].
  destruct (add_string c0 (bi_name bi)) as [c1 pos] eqn:Eadd. cbn [fst] in Ei0, Es0.
  destruct (add_string_pos _ _ _ _ Eadd) as (Hpos & x0 & Ex0).
  apply bind_Done_inv in H as (fi0 & _ & H). apply bind_Done_inv in H as (p1 & Hset & H). apply set_finfo_inv in Hset as ->.
  apply bind_Done_inv in H as (c2 & H2 & H). apply bind_Done_inv in H as (c3 & H3 & [= <-]).
  assert (ready c1 (replicate (bi_nargs bi) SAny)) as Hr1.
  { eexists _, false. split; [exact Es0|]. apply agree_low; [apply Forall_replicate; status_lia | by rewrite !length_replicate]. }
  assert (exists g, instructions c2 = instructions c1 ++ [g] /\ i_opcode g = OP_GLOBSTART /\ place_ok su g /\
    i_expcount g = Z.of_nat (bi_nargs bi) /\ stringmap c2 = stringmap c1 /\ ready c2 (replicate (bi_nargs bi) SAny)) as (g & Eg & Ho & Hpg & Hgx & Esm & Hr2).
  { destruct (add_inv _ _ _ _ _ _ _ _ Es0 H2) as (si' & E1 & E2 & E3 & E4). cbn in E1. injection E1 as <-.
    eexists. split_and!; [exact E4 | done | unfold place_ok; cbn; lia | cbn; by rewrite length_replicate | exact E3 |].
    eexists _, false. split; [exact E2|]. apply agree_low; [apply Forall_replicate; status_lia | by rewrite !length_replicate]. }
  destruct (builtin_block i bi c2 c3 Hb Hr2 H3) as (l & types & El & (x3 & Ex3) & Hbl & Hgo).
  pose proof (block_closed_app su _ [g] [None] _ _ [] (place_block su _ g Hpg) Hbl) as B.
  split; [|done]. eexists _, _, _. cbn [p_comp p_finfo p_erroraddr instructions stringmap set_comp]. rewrite Nat2Z.id.
  change (instructions c0) with (instructions (p_comp p)) in Ei0. change (stringmap c0) with (stringmap (p_comp p)) in Ex0.
  split_and!; [ | | reflexivity | reflexivity | exact B |].
  - by rewrite El, Eg, Ei0, <- !app_assoc.
  - rewrite Ex3, Esm, Ex0, <- !app_assoc. by eexists.
  - intros T HT. split; cbn [fi_name fi_address fi_arity].
    + destruct Hpos as [? Hp]. split; [done|]. unfold strings in *. rewrite Ex3, Esm, !length_app. lia.
    + intros k [Hk Hal]. assert (allowed i = true) as Ha by (rewrite <- (Nat2Z.id i); apply Hal; lia).
      unfold function_nargs in Hk. rewrite (proj2 (Z.leb_le _ _)), (proj2 (Z.ltb_lt _ _)) in Hk by lia.
      cbn [cassert mbind outcome_bind] in Hk. rewrite Nat2Z.id, Hb in Hk. injection Hk as <-. rewrite Nat2Z.id.
      split_and!; [done | |].
      * exists g. split; [|done]. unfold code_count. rewrite zlookup_of_nat. change (instructions c0) with (instructions (p_comp p)).
        rewrite El, Eg, Ei0, <- !app_assoc, lookup_app_r, Nat.sub_diag by done. done.
      * unfold code_count. change (instructions c0) with (instructions (p_comp p)). rewrite <- HT.
        replace (Z.of_nat (length T) + 1)%Z with (Z.of_nat (length T) + (Z.of_nat (length [@None pc_ty]) + 0))%Z by done.
        by apply goes_app_r, goes_app_r, Hgo.
    + intros level st' (Hnb & _). exfalso. lia.
Qed.

(** ** The program as it grows *)

(** The functions [S] are there and typed. *)
Definition has_row (p : program) (T : list (option pc_ty)) (f : nat) : Prop :=
  exists fi, p_finfo p !! f = Some fi /\ row (Z.of_nat f) (instructions (p_comp p)) T (strings (p_comp p)) fi.
Record laid (S : nat -> Prop) (p : program) (T : list (option pc_ty)) : Prop := {
  ld_block : block su (strings (p_comp p)) (instructions (p_comp p)) T [];
  ld_start : goes T 0 true [SAny] = true;
  ld_first : exists i, instructions (p_comp p) !! 0 = Some i /\ i_expcount i = 1%Z;
  ld_error : exists i, zlookup (instructions (p_comp p)) (p_erroraddr p) = Some i /\ i_opcode i = OP_ERROR;
  ld_files : (files <= strings (p_comp p))%Z;
  ld_rows : forall f, S f -> has_row p T f
}.

Lemma laid_grows S S' p T p' code types : laid S p T -> block su (strings (p_comp p')) code types [] ->
  instructions (p_comp p') = instructions (p_comp p) ++ code -> (exists s, stringmap (p_comp p') = stringmap (p_comp p) ++ s) ->
  p_erroraddr p' = p_erroraddr p ->
  (forall f, S' f -> S f /\ p_finfo p' !! f = p_finfo p !! f \/ has_row p' (T ++ types) f) -> laid S' p' (T ++ types).
Proof using Hmk Hfiles.
  intros [H1 H2 (i & Hi & He) (j & Hj & Hje) H5 H6] Hb Ei (s & Es) Ee Hrows.
  assert (strings (p_comp p) <= strings (p_comp p'))%Z as Hle by (by eapply strings_le). split.
  - rewrite Ei. eapply block_closed_app; [|exact Hb]. by eapply block_weaken.
  - by apply goes_app_l.
  - exists i. split; [|done]. rewrite Ei. by apply lookup_app_l_Some.
  - exists j. split; [|done]. rewrite Ei, Ee. by apply zlookup_app_l.
  - lia.
  - intros f Hf. destruct (Hrows f Hf) as [[HS Ef]|]; [|done]. destruct (H6 f HS) as (fi & Hfi & Hr). exists fi.
    rewrite Ef, Ei. split; [done | by apply row_grows with (n := strings (p_comp p))].
Qed.

Lemma laid_adds S p T f p' : laid S p T -> adds_typed p f p' -> f < length (p_finfo p) ->
  exists T', laid (fun g => S g \/ g = f) p' T' /\ length (p_finfo p') = length (p_finfo p).
Proof using Hmk Hfiles.
  intros Hl (code & types & fi & Ei & Hs & Ef & Ee & Hb & Hrow) Hlt. exists (T ++ types). split; [|by rewrite Ef, length_insert].
  eapply laid_grows; [exact Hl | exact Hb | done..|]. intros g Hg.
  destruct (decide (g = f)) as [->|Hne].
  - right. exists fi. split; [rewrite Ef; by apply list_lookup_insert_eq|]. apply Hrow, (bl_length _ _ _ _ _ (ld_block _ _ _ Hl)).
  - left. split; [by destruct Hg|]. rewrite Ef. by apply list_lookup_insert_ne.
Qed.

Lemma laid_weaken (S S' : nat -> Prop) p T : (forall f, S' f -> S f) -> laid S p T -> laid S' p T.
Proof using. intros H [H1 H2 H3 H4 H5 H6]. split; auto. Qed.

(** The number of [item]. *)
Definition item_at (z : Z) : Prop :=
  exists q sc, q ∈ src_scombs src /\ src_heap src !! q = Some sc /\ sc_name sc = "item" /\ z = Z.of_nat (NUM_BUILTINS + sc_index sc).

Lemma compile_scombs_laid (Hnd : NoDup (src_scombs src)) ps : forall n S p T p', drop n (src_scombs src) = ps -> laid S p T ->
  length (p_finfo p) = NUM_BUILTINS + length (src_scombs src) -> compile_scombs fuel mkfuel src ps p = Done p' ->
  exists T', laid (fun f => S f \/ NUM_BUILTINS + n <= f < NUM_BUILTINS + length (src_scombs src)) p' T' /\
    length (p_finfo p') = length (p_finfo p) /\
    ((exists q sc, q ∈ ps /\ src_heap src !! q = Some sc /\ sc_name sc = "item") \/ item_at (p_itemfno p) -> item_at (p_itemfno p')).
Proof using Hmk Hsrc Htame Hplace Hfiles.
  induction ps as [|q ps IH]; intros n S p T p' Hps Hl Hlen H; cbn [compile_scombs] in H.
  { injection H as <-. exists T. split_and!; [|done | intros [(q & sc & Hq & _)|]; [by apply not_elem_of_nil in Hq | done]].
    eapply laid_weaken; [|exact Hl]. intros f [?|Hf]; [done|]. pose proof (length_drop (src_scombs src) n) as Hd. rewrite Hps in Hd. cbn in Hd. lia. }
  assert (src_scombs src !! n = Some q) as Hn.
  { pose proof (lookup_drop (src_scombs src) n 0) as H'. rewrite Hps, Nat.add_0_r in H'. by rewrite <- H'. }
  pose proof (list_elem_of_lookup_2 _ _ _ Hn) as Hq. apply bind_Done_inv in H as (sc & Hsc & H). apply deref_Done in Hsc.
  destruct (Hsrc q Hq) as (sc' & Hc). destruct (cp_ready _ _ _ _ _ Hc) as (body & st & Hr & _).
  pose proof (sr_heap _ _ _ _ _ _ Hr) as Hh. rewrite Hsc in Hh. injection Hh as <-.
  assert (sc_index sc = n) as En by (eapply NoDup_lookup; [exact Hnd | apply (sr_index _ _ _ _ _ _ Hr) | done]).
  apply bind_Done_inv in H as (p1 & HF & H). destruct (F_adds_typed q sc p p1 Hq Hsc Hc HF) as [Hadd Hitem].
  apply lookup_lt_Some in Hn as Hlt. destruct (laid_adds S p T _ p1 Hl Hadd) as (T1 & Hl1 & Hlen1); [lia|].
  assert (drop (1 + n) (src_scombs src) = ps) as Hps' by (by rewrite (drop_S _ _ _ Hn) in Hps; injection Hps).
  destruct (IH _ _ p1 T1 p' Hps' Hl1 ltac:(lia) H) as (T' & Hl' & Hlen' & Hit).
  { exists T'. split_and!; [|lia|].
    - eapply laid_weaken; [|exact Hl']. intros f [?|Hf]; [by left; left|]. destruct (decide (f = NUM_BUILTINS + n)) as [->|];
        [left; right; by rewrite En | right; lia].
    - intros Hor. apply Hit. rewrite Hitem. destruct (String.eqb_spec (sc_name sc) "item") as [Ename|Hne].
      * right. by exists q, sc.
      * destruct Hor as [(q' & sc' & [->|Hin]%elem_of_cons & Hs' & Hn')|Hi]; [congruence | left; by exists q', sc' | by right]. }
Qed.

Lemma compile_builtins_laid todo : forall S p T p', Forall (fun i => i < NUM_BUILTINS) todo -> laid S p T ->
  NUM_BUILTINS <= length (p_finfo p) -> compile_builtins_loop todo p = Done p' ->
  exists T', laid (fun f => S f \/ f ∈ todo) p' T' /\ length (p_finfo p') = length (p_finfo p) /\ p_itemfno p' = p_itemfno p.
Proof using Hmk Hfiles.
  induction todo as [|i todo IH]; intros S p T p' Ht Hl Hlen H; cbn [compile_builtins_loop] in H.
  { injection H as <-. exists T. split_and!; [|done | done]. eapply laid_weaken; [|exact Hl]. intros f [?|Hf]; [done | by apply not_elem_of_nil in Hf]. }
  apply Forall_cons in Ht as [Hi Ht]. apply bind_Done_inv in H as (p1 & H1 & H).
  destruct (compile_builtin_adds_typed i p p1 Hi H1) as [Hadd Hitem]. destruct (laid_adds S p T i p1 Hl Hadd) as (T1 & Hl1 & Hlen1); [lia|].
  destruct (IH _ p1 T1 p' Ht Hl1 ltac:(lia) H) as (T' & Hl' & Hlen' & Hit). exists T'. split_and!; [|congruence | congruence].
  eapply laid_weaken; [|exact Hl']. intros f [?|[->|?]%elem_of_cons]; [by left; left | by left; right | by right].
Qed.

(** ** The prologue *)

Lemma compile_prologue_laid q sc p p' : get_scomb src "__start" = Some q -> compilable fuel mkfuel src q sc -> sc_nargs sc = 1 ->
  instructions (p_comp p) = [] -> strings (p_comp p) = files -> compile_prologue mkfuel src p = Done p' ->
  exists T, laid (fun _ => False) p' T /\ p_finfo p' = p_finfo p /\ p_itemfno p' = p_itemfno p.
Proof using Hmk Hsrc Htame Hplace Hfiles.
  intros Hq Hc Hn E0 Estr H. destruct (cp_ready _ _ _ _ _ Hc) as (body & stl & Hr & _). unfold compile_prologue in H.
  rewrite Hq in H. cbn [deref mbind outcome_bind] in H. unfold getsc in H. rewrite (sr_heap _ _ _ _ _ _ Hr) in H.
  cbn [deref mbind outcome_bind] in H.
  assert (q ∈ src_scombs src) as Hin by (eapply list_elem_of_lookup_2, (sr_index _ _ _ _ _ _ Hr)).
  assert (sl_ok su (sc_sl sc)) as Hsl by (apply Z.ltb_lt; exact (Hplace _ _ Hin (sr_heap _ _ _ _ _ _ Hr))).
  assert (su_callee su (Z.of_nat (sc_index sc + NUM_BUILTINS)) 1) as Hcallee.
  { split; [|intros Hlt; lia]. unfold function_nargs. rewrite (proj2 (Z.leb_le _ _)), (proj2 (Z.ltb_ge _ _)) by lia.
    rewrite (fno_scomb_index src scomb_indexes q sc Hin (sr_heap _ _ _ _ _ _ Hr)). cbn [cassert mbind outcome_bind]. by rewrite Hn. }
  set (c0 := push_statuses [STATUS_UNKNOWN] (p_comp p)) in H.
  assert (ready c0 [SAny]) as Hr0 by (exists [STATUS_UNKNOWN], false; split; [done | by apply agree_one]).
  apply bind_Done_inv in H as (c1 & H1 & H). apply bind_Done_inv in H as (c2 & H2 & H). apply bind_Done_inv in H as (c3 & H3 & H).
  apply bind_Done_inv in H as (c4 & H4 & H). apply bind_Done_inv in H as (c5 & H5 & H). apply bind_Done_inv in H as (c6 & H6 & [= <-]).
  destruct (add_inv c0 (sc_sl sc) OP_BEGIN 0 0 c1 [STATUS_UNKNOWN] false eq_refl H1) as (si1 & _ & _ & _ & E1).
  destruct (add_goes su _ _ _ _ _ _ _ Hr0 Hsl H1 eq_refl) as (s & inv & si' & Hsi & Ha & Hst & Hgo1).
  injection Hsi as <- <-. cbn in Hst. injection Hst as <-. specialize (Hgo1 [SAny] Ha eq_refl).
  destruct (domkframe_goes src allowed files Htame _ _ _ _ _ _ _ (gt_ready _ _ _ _ _ Hgo1) Hsl Hcallee H2) as (_ & ty & Hgo2).
  change (replace_top 1 ty [SAny]) with ([] ++ [ty]) in Hgo2.
  pose proof (SPARK_goes su _ _ _ _ _ (gt_ready _ _ _ _ _ Hgo2) Hsl H3) as Hgo3.
  destruct (EVAL_goes su _ _ _ _ _ (gt_ready _ _ _ _ _ Hgo3) Hsl H4) as [_ Hgo4]. rewrite eval_top in Hgo4.
  pose proof (goesto_trans _ _ _ _ _ _ _ Hgo2 (goesto_trans _ _ _ _ _ _ _ Hgo3 Hgo4)) as Hgo234.
  destruct (gt_code _ _ _ _ _ Hgo234) as (lx & _ & Ex & _).
  pose proof (goesto_trans _ _ _ _ _ _ _ Hgo1 Hgo234) as [Hr4 (xs & Exs) (l & ts & El & Hp)].
  pose proof Hr4 as (s4 & inv4 & Hsi4 & Ha4). apply agree_length in Ha4 as Hl4.
  destruct (add_inv _ _ _ _ _ _ _ _ Hsi4 H5) as (si5 & _ & _ & Es5 & E5).
  destruct (add_inv (push_statuses [STATUS_UNKNOWN] c5) nosl OP_ERROR 0 0 c6 [STATUS_UNKNOWN] false eq_refl H6) as (si6 & _ & _ & Es6 & E6).
  rewrite Hl4 in E5. cbn [length app] in E5. change (instructions (push_statuses _ c5)) with (instructions c5) in E6.
  change (stringmap (push_statuses _ c5)) with (stringmap c5) in Es6. change (instructions c0) with (instructions (p_comp p)) in El, E1.
  change (stringmap c0) with (stringmap (p_comp p)) in Exs. rewrite E0 in El, E1. cbn [app] in El, E1.
  destruct (piece_block su _ true _ _ _ _ Hp) as [Hb Hg].
  set (tail := [Some (PcTy true [SVal]); None]).
  assert (goes tail 0 true [SVal] = true) as Hgt by done.
  set (iend := Instruction OP_END 0 0 (sl_fileno (sc_sl sc)) (sl_lineno (sc_sl sc)) (Z.of_nat 1)) in *.
  set (ierr := Instruction OP_ERROR 0 0 (sl_fileno nosl) (sl_lineno nosl) (Z.of_nat (length [STATUS_UNKNOWN]))) in *.
  assert (forall n, block su n [iend; ierr] tail []) as Htail.
  { intros n. split; [done | apply Forall_cons_2; [exact Hsl | apply Forall_singleton; unfold place_ok; cbn; lia]|].
    intros [|[|k]] i pt Hi Ht; [| done | done]. injection Hi as <-. injection Ht as <-. split; [done | by left]. }
  exists (typed_main true ts ++ tail). split; [|done].
  assert (instructions c6 = l ++ [iend; ierr]) as Ec6 by (by rewrite E6, E5, El, <- app_assoc).
  assert (strings c6 = strings c4) as Estr6 by (unfold strings; by rewrite Es6, Es5).
  split; cbn [p_comp p_erroraddr set_si instructions stringmap]; [| | | | | done].
  - rewrite Ec6. unfold strings. cbn [stringmap set_si]. fold (strings c6). rewrite Estr6.
    eapply block_app; [exact Hb | apply Htail |]. intros x _. exists true, [SVal]. split; [done|]. by rewrite app_nil_r.
  - unfold typed_main in Hg. rewrite map_app in Hg. eapply goes_join; [exact Hg | exact Hgt].
  - rewrite E6, E5, Ex, E1. eexists. split; [reflexivity | done].
  - exists ierr. split; [|done]. unfold code_count. rewrite zlookup_of_nat, E6, lookup_app_r, Nat.sub_diag by lia. done.
  - unfold strings in *. cbn [stringmap set_si]. rewrite Es6, Es5, Exs, length_app. lia.
Qed.

(** ** EVAL/DO sequences *)

Definition evaldo_types (i : nat) : list (list slot_ty) := [replicate i SAny; replicate (i - 1) SAny ++ [SVal]].

Lemma replicate_last (i : nat) : 0 < i -> replicate i SAny = replicate (i - 1) SAny ++ [SAny].
Proof using. clear. intros Hi. replace i with (S (i - 1)) at 1 by lia. apply replicate_S_end. Qed.

Lemma evaldo_block n i : 0 < i -> block su n (evaldo_code i) (typed_main false (evaldo_types i)) [].
Proof using Hmk Hfiles.
  intros Hi. apply (flows_block su n false false _ _ []). unfold evaldo_code, evaldo_types. rewrite (replicate_last i) by done.
  assert (Z.of_nat i - 1 = Z.of_nat (length (replicate (i - 1) SAny)))%Z as Ei by (rewrite length_replicate; lia).
  cbn [flows i_expcount]. split_and!; try done.
  - rewrite length_app, length_replicate. cbn. lia.
  - unfold place_ok. cbn. lia.
  - unfold okop. cbn [i_opcode i_arg0]. rewrite Ei. split.
    + exists SAny. rewrite zlookup_of_nat. by apply list_lookup_middle.
    + eexists. split; [reflexivity|]. rewrite Nat2Z.id. rewrite insert_app_r_alt by lia. rewrite Nat.sub_diag. apply fits_refl.
  - rewrite length_app, length_replicate. cbn. lia.
  - unfold place_ok. cbn. lia.
  - unfold okop. cbn [i_opcode]. apply top_val.
Qed.

Lemma evaldo_blocks n m : forall k, 0 < k ->
  block su n (concat (map evaldo_code (seq k m))) (concat (map (fun i => typed_main false (evaldo_types i)) (seq k m))) [].
Proof using Hmk Hfiles.
  induction m as [|m IH]; intros k Hk; cbn [seq map concat]; [apply block_nil|].
  apply block_closed_app; [by apply evaldo_block | apply IH; lia].
Qed.

Lemma evaldo_goes m : forall k d, k <= d < k + m ->
  goes (concat (map (fun i => typed_main false (evaldo_types i)) (seq k m))) (Z.of_nat (2 * (d - k))) false (replicate d SAny) = true.
Proof using.
  clear. induction m as [|m IH]; intros k d Hd; [lia|]. cbn [seq map concat]. destruct (decide (d = k)) as [->|Hne].
  - rewrite Nat.sub_diag. apply goes_app_l. apply (typed_main_goes false (evaldo_types k) 0 (replicate k SAny)); [done | apply sub_st_refl].
  - replace (Z.of_nat (2 * (d - k))) with (Z.of_nat (length (typed_main false (evaldo_types k))) + Z.of_nat (2 * (d - S k)))%Z.
    + apply goes_app_r, IH. lia.
    + rewrite typed_main_length. unfold evaldo_types. cbn [length]. lia.
Qed.

Lemma evaldo_loop_strings base depths : forall comp comp', evaldo_loop base depths comp = Done comp' -> stringmap comp' = stringmap comp.
Proof using.
  clear. assert (forall c sl op a0 a1 c', add_instruction c sl op a0 a1 = Done c' -> stringmap c' = stringmap c) as Hadd.
  { intros c sl op a0 a1 c' H. unfold add_instruction in H. destruct (comp_si c); outcome_inv; by subst c'. }
  induction depths as [|i depths IH]; intros comp comp' H; cbn [evaldo_loop] in H; [by injection H as <-|].
  apply bind_Done_inv in H as (c1 & H1 & H). apply bind_Done_inv in H as (c2 & H2 & H). apply bind_Done_inv in H as (u & _ & H).
  rewrite (IH _ _ H), (Hadd _ _ _ _ _ _ H2). unfold EVAL in H1. apply bind_Done_inv in H1 as (pos & _ & H1).
  apply bind_Done_inv in H1 as (si & _ & H1). apply bind_Done_inv in H1 as (s & _ & H1).
  destruct (s <? STATUS_EVALUATED)%Z; [by rewrite (Hadd _ _ _ _ _ _ H1) | by injection H1 as <-].
Qed.

Definition evaldo_ready (p : program) (T : list (option pc_ty)) : Prop :=
  forall i d, i ∈ instructions (p_comp p) -> 2 <= d -> (Z.of_nat d < i_expcount i)%Z ->
    goes T (p_evaldoaddr p + (Z.of_nat d - 1) * EVALDO_SEQUENCE_SIZE) false (replicate d SAny) = true.

Lemma compile_evaldo_laid S p T p' : laid S p T -> compile_evaldo p = Done p' ->
  exists T', laid S p' T' /\ evaldo_ready p' T' /\ p_finfo p' = p_finfo p /\ p_itemfno p' = p_itemfno p /\ comp_si (p_comp p') = None.
Proof using Hmk Hfiles.
  intros Hl H. unfold compile_evaldo in H. set (m := Z.to_nat (max_expcount (instructions (p_comp p)) - 1)) in H.
  destruct (evaldo_loop_ok (code_count (p_comp p)) m 1 (p_comp p)) as (c & E & Ei); [lia | cbn; lia |].
  rewrite E in H. cbn [mbind outcome_bind] in H. injection H as <-. pose proof (evaldo_loop_strings _ _ _ _ E) as Es.
  pose proof (bl_length _ _ _ _ _ (ld_block _ _ _ Hl)) as HlT.
  eexists (T ++ _). split_and!; [| | done | done | done].
  - eapply (laid_grows S S p T); cbn [p_comp p_finfo p_erroraddr instructions stringmap set_si].
    + exact Hl.
    + apply (evaldo_blocks _ m 1). lia.
    + exact Ei.
    + exists []. by rewrite app_nil_r.
    + done.
    + intros f Hf. by left.
  - intros i d Hin Hd Hlt. cbn [p_comp p_evaldoaddr instructions set_si] in *. rewrite Ei in Hin. unfold code_count. rewrite <- HlT.
    replace (Z.of_nat (length T) + (Z.of_nat d - 1) * EVALDO_SEQUENCE_SIZE)%Z with (Z.of_nat (length T) + Z.of_nat (2 * (d - 1)))%Z
      by (unfold EVALDO_SEQUENCE_SIZE; lia).
    apply goes_app_r, evaldo_goes. split; [lia|]. unfold m. apply elem_of_app in Hin as [Hin|Hin].
    + pose proof (max_expcount_le _ _ Hin ltac:(lia)). lia.
    + apply elem_of_concat in Hin as (l & (k & -> & Hk)%elem_of_map & Hin). apply elem_of_seq in Hk. fold m.
      unfold evaldo_code in Hin. rewrite !elem_of_cons in Hin. destruct Hin as [->|[->|Hin]]; [| |by apply not_elem_of_nil in Hin]; cbn in Hlt; lia.
Qed.

Lemma invalid_laid S p T comp : laid S p T -> comp_si (p_comp p) = None -> add_instruction (p_comp p) nosl OP_INVALID 0 0 = Done comp ->
  laid S (set_comp comp p) (T ++ [None]) /\
  exists i, instructions comp = instructions (p_comp p) ++ [i] /\ i_expcount i = (-1)%Z.
Proof using Hmk Hfiles.
  intros Hl Hsi H. unfold add_instruction in H. rewrite Hsi in H. injection H as <-.
  set (i := Instruction OP_INVALID 0 0 (sl_fileno nosl) (sl_lineno nosl) (-1)). assert (place_ok su i) as Hp by (unfold place_ok; cbn; lia).
  split; [|by exists i]. eapply (laid_grows S S p T); [exact Hl | by apply (place_block su _ i) | done | | done |].
  - exists []. by rewrite app_nil_r.
  - intros f Hf. by left.
Qed.
End program.

(** ** Stack sizes *)

Definition unsized (fi : funinfo) : funinfo := Funinfo (fi_address fi) (fi_addressne fi) (fi_addressed fi) (fi_arity fi) 0 (fi_name fi).

(** The same program, but for the stack sizes. *)
Definition sized (p p' : program) : Prop :=
  p_comp p' = p_comp p /\ p_evaldoaddr p' = p_evaldoaddr p /\ p_erroraddr p' = p_erroraddr p /\ p_itemfno p' = p_itemfno p /\
  map unsized (p_finfo p') = map unsized (p_finfo p).

Lemma store_size_sized fno s p p' : store_size fno s p = Done p' -> sized p p'.
Proof.
  unfold store_size. destruct (0 <=? fno)%Z; [|by intros [= <-]]. intros H. apply bind_Done_inv in H as (fi & Hfi & H).
  unfold get_finfo in Hfi. apply bind_Done_inv in Hfi as (u & _ & Hfi). apply deref_Done in Hfi.
  apply set_finfo_inv in H as ->. split_and!; try done. cbn [p_finfo]. change (map ?f ?l) with (f <$> l).
  rewrite list_fmap_insert. apply list_insert_id. rewrite list_lookup_fmap, Hfi. done.
Qed.

Lemma stacksizes_loop_sized l : forall fno s p p', stacksizes_loop fno s l p = Done p' -> sized p p'.
Proof.
  induction l as [|i l IH]; intros fno s p p' H; cbn [stacksizes_loop] in H; [exact (store_size_sized _ _ _ _ H)|].
  destruct (_ && _); [|exact (IH _ _ _ _ H)]. apply bind_Done_inv in H as (p1 & H1 & H).
  destruct (store_size_sized _ _ _ _ H1) as (A1 & A2 & A3 & A4 & A5). destruct (IH _ _ _ _ H) as (B1 & B2 & B3 & B4 & B5).
  split_and!; congruence.
Qed.

Lemma sized_row p p' f fi : sized p p' -> p_finfo p !! f = Some fi -> exists fi', p_finfo p' !! f = Some fi' /\ unsized fi' = unsized fi.
Proof.
  intros (_ & _ & _ & _ & H) Hf. assert (map unsized (p_finfo p') !! f = Some (unsized fi)) as Hm.
  { rewrite H. change (map ?g ?l) with (g <$> l). by rewrite list_lookup_fmap, Hf. }
  change (map ?g ?l) with (g <$> l) in Hm. rewrite list_lookup_fmap in Hm. apply fmap_Some in Hm as (fi' & ? & ?). by exists fi'.
Qed.

Lemma row_unsized src allowed files fno code T n fi fi' : unsized fi' = unsized fi -> row src allowed files fno code T n fi ->
  row src allowed files fno code T n fi'.
Proof.
  intros E [H1 H2 H3]. injection E as E1 E2 E3 E4 E5. split; [by rewrite E5 | |].
  - intros k Hk. rewrite E1, E4. by apply H2.
  - intros level st Hs. unfold level_address. rewrite E1, E2, E3. by apply H3.
Qed.

Lemma laid_sized src allowed files S p p' T : sized p p' -> laid src allowed files S p T -> laid src allowed files S p' T.
Proof.
  intros Hs [H1 H2 H3 H4 H5 H6]. pose proof Hs as (E1 & E2 & E3 & E4 & _). split; rewrite ?E1, ?E3; try done.
  intros f Hf. destruct (H6 f Hf) as (fi & Hfi & Hr). destruct (sized_row _ _ _ _ Hs Hfi) as (fi' & Hfi' & Eu). exists fi'.
  rewrite E1. split; [done | by eapply row_unsized].
Qed.

(** ** The whole program *)

(** The strings of a program begin with the names of its source files. *)
Definition initial_comp (src : source) : compilation :=
  fold_left (fun comp f => (add_string comp f).1) (src_parsedfiles src) (Compilation [] [] None).
Definition source_files (src : source) : Z := strings (initial_comp src).

(** Every stack fits: an instruction never leaves more than the largest stack
    size, and a frame of that size fits into a block. *)
Definition program_fits (p : program) : bool :=
  check_size (max_stack (p_finfo p)) && forallb (roomy (max_stack (p_finfo p))) (instructions (p_comp p)).

(** What the source must look like, beyond what compiling it needs: its trees
    use only allowed built-ins and proper literals, positions are in its files,
    and a function called [item] takes two arguments. *)
Record typable (allowed : nat -> bool) (src : source) : Prop := {
  ty_tame : bodies_tame src allowed (source_files src);
  ty_place : forall q sc, q ∈ src_scombs src -> src_heap src !! q = Some sc -> place_in (source_files src) (sc_sl sc) = true;
  ty_item : forall q sc, q ∈ src_scombs src -> src_heap src !! q = Some sc -> sc_name sc = "item" -> sc_nargs sc = 2
}.

Section whole_program.
Context (fuel mkfuel : nat) (src : source) (allowed : nat -> bool).
Abbreviation files := (source_files src).
Abbreviation su := (surroundings_of src allowed files).
Hypothesis Hmk : 0 < mkfuel.
Hypothesis Hnd : NoDup (src_scombs src).
Hypothesis Hsrc : forall q, q ∈ src_scombs src -> exists sc, compilable fuel mkfuel src q sc.
Hypothesis Hty : typable allowed src.

Definition every (f : nat) : Prop := f < NUM_BUILTINS + length (src_scombs src).

Lemma callee_every fno k : su_callee su fno k -> exists f, fno = Z.of_nat f /\ every f.
Proof using.
  clear. intros [H _]. unfold function_nargs in H. apply bind_Done_inv in H as (u & H0%cassert_Done%Z.leb_le & H).
  exists (Z.to_nat fno). split; [lia|]. unfold every. destruct (Z.ltb_spec fno (Z.of_nat NUM_BUILTINS)); [lia|].
  apply bind_Done_inv in H as (sc & Hsc & _). unfold fno_scomb, get_scomb_index in Hsc. outcome_inv.
  apply lookup_lt_Some in Hm. lia.
Qed.

Lemma enter_callee fno level st : su_enter su fno level st -> exists k, su_callee su fno k.
Proof using.
  clear. intros (Hnb & _ & sc & Hsc & _). exists (Z.of_nat (sc_nargs sc)). split; [|lia]. unfold function_nargs.
  rewrite (proj2 (Z.leb_le _ _)), (proj2 (Z.ltb_ge _ _)) by lia. cbn [cassert mbind outcome_bind]. by rewrite Hsc.
Qed.

Lemma laid_realised p T : laid src allowed files every p T -> program_fits p = true -> evaldo_ready p T ->
  ((exists q sc, q ∈ src_scombs src /\ src_heap src !! q = Some sc /\ sc_name sc = "item") -> item_at src (p_itemfno p)) ->
  realised su p T (max_stack (p_finfo p)).
Proof using Hmk Hsrc Hty.
  intros Hl Hfit Hev Hitem. unfold program_fits in Hfit. apply andb_true_iff in Hfit as [Hsize Hroom].
  rewrite forallb_forall in Hroom. setoid_rewrite <- list_elem_of_In in Hroom.
  assert (forall fno k, su_callee su fno k -> exists fi, zlookup (p_finfo p) fno = Some fi /\ fi_arity fi = k /\
    callable p T (max_stack (p_finfo p)) fi /\ row src allowed files fno (instructions (p_comp p)) T (strings (p_comp p)) fi) as Hrow.
  { intros fno k Hk. destruct (callee_every _ _ Hk) as (f & -> & Hf). destruct (ld_rows _ _ _ _ _ _ Hl f Hf) as (fi & Hfi & Hr).
    exists fi. rewrite zlookup_of_nat. destruct (rw_callee _ _ _ _ _ _ _ _ Hr k Hk) as (Ha & (g & Hg & Ho & He) & Hgo).
    split_and!; [done | done | | done]. pose proof (callee_nonneg _ _ _ _ _ Hk) as Hk0.
    unfold callable, entry, ops. rewrite Hg, Ha, Hgo, bool_decide_true by done.
    apply zlookup_Some in Hg as [_ Hg]. pose proof (Hroom g (list_elem_of_lookup_2 _ _ _ Hg)) as Hrm. unfold roomy, growth in Hrm.
    rewrite Ho in Hrm. apply Z.leb_le in Hrm. rewrite !(proj2 (Z.leb_le _ _)) by lia. done. }
  split.
  - exact Hsize.
  - intros fno k Hk. destruct (Hrow fno k Hk) as (fi & ? & ? & ? & _). by exists fi.
  - intros fno level st Hs. pose proof Hs as (_ & Hlev & _). split; [done|]. destruct (enter_callee _ _ _ Hs) as [k Hk].
    destruct (Hrow fno k Hk) as (fi & Hfi & _ & Hc & Hr). exists fi. split_and!; [done | done|].
    exact (rw_enter _ _ _ _ _ _ _ _ Hr level st Hs).
  - intros (q & sc & Hq & Hs & Hn & H2). destruct Hitem as (q' & sc' & Hq' & Hs' & Hn' & ->); [by exists q, sc|].
    destruct (Hrow (Z.of_nat (NUM_BUILTINS + sc_index sc')) 2%Z) as (fi & ? & ? & ? & _); [|by exists fi].
    split; [|lia]. unfold function_nargs. rewrite (proj2 (Z.leb_le _ _)), (proj2 (Z.ltb_ge _ _)) by lia.
    rewrite Nat.add_comm, (fno_scomb_index src (scomb_indexes fuel mkfuel src Hsrc) q' sc' Hq' Hs'). cbn [cassert mbind outcome_bind].
    by rewrite (ty_item _ _ Hty q' sc' Hq' Hs' Hn').
  - exact (ld_files _ _ _ _ _ _ Hl).
  - exact Hev.
Qed.

Lemma laid_set_si S p T si : laid src allowed files S p T -> laid src allowed files S (set_comp (set_si si (p_comp p)) p) T.
Proof using.
  clear. intros [H1 H2 H3 H4 H5 H6]. by split.
Qed.

Lemma checked_parts p T : laid src allowed files every p T -> realised su p T (max_stack (p_finfo p)) -> program_fits p = true ->
  length (p_finfo p) = NUM_BUILTINS + length (src_scombs src) ->
  check_program p T (max_stack (p_finfo p)) (Z.of_nat (length (stringmap (p_comp p)))) = true /\ check_start p T = true.
Proof using.
  clear. intros [H1 H2 (i & Hi & He) (e & Herr & Ho) H5 H6] Hrz Hfit Hlen. unfold program_fits in Hfit. apply andb_true_iff in Hfit as [_ Hroom].
  rewrite forallb_forall in Hroom. split.
  - apply (block_checks su p T _ Hrz H1).
    + intros x Hx. by apply Hroom, list_elem_of_In.
    + unfold check_error, ops. rewrite Herr. by apply bool_decide_true.
    + intros fi [f Hf]%list_elem_of_lookup. destruct (H6 f) as (fi' & Hf' & [Hn _ _]).
      * unfold every. apply lookup_lt_Some in Hf. lia.
      * rewrite Hf in Hf'. injection Hf' as <-. unfold check_finfo. unfold strings in Hn.
        rewrite (proj2 (Z.leb_le _ _)), (proj2 (Z.ltb_lt _ _)) by lia. done.
  - unfold check_start. by rewrite Hi, He, H2.
Qed.

(** The typed built-ins of a program are allowed ones. *)
Lemma laid_uses S p T k i pt : laid src allowed files S p T -> instructions (p_comp p) !! k = Some i -> T !! k = Some (Some pt) ->
  i_opcode i = OP_BIF -> allowed (Z.to_nat (i_arg0 i)) = true.
Proof using.
  clear. intros Hl Hi Ht Ho. destruct (bl_op _ _ _ _ _ (ld_block _ _ _ _ _ _ Hl) k i pt Hi Ht) as [_ [[_ H]|H]]; [congruence|].
  unfold okop in H. rewrite Ho in H. by destruct H as (b & _ & H & _).
Qed.

Lemma compile_program_laid start sc p : get_scomb src "__start" = Some start -> compilable fuel mkfuel src start sc -> sc_nargs sc = 1 ->
  compile_program fuel mkfuel src = Done p ->
  exists T, laid src allowed files every p T /\ evaldo_ready p T /\ length (p_finfo p) = NUM_BUILTINS + length (src_scombs src) /\
    ((exists q sc, q ∈ src_scombs src /\ src_heap src !! q = Some sc /\ sc_name sc = "item") -> item_at src (p_itemfno p)).
Proof using Hmk Hnd Hsrc Hty.
  intros Hs Hc Hn H. unfold compile_program in H. fold (initial_comp src) in H.
  assert (0 <= files)%Z as Hfiles by (unfold source_files, strings; lia).
  set (p0 := Program _ _ _ _ _) in H. apply bind_Done_inv in H as (p1 & H1 & H).
  destruct (compile_prologue_laid fuel mkfuel src allowed files Hmk Hsrc (ty_tame _ _ Hty) (ty_place _ _ Hty) Hfiles start sc p0 p1 Hs Hc Hn
    (initial_code _) eq_refl H1) as (T1 & L1 & Ef1 & Ei1).
  assert (length (p_finfo p1) = NUM_BUILTINS + length (src_scombs src)) as Hlen1 by (by rewrite Ef1; cbn [p_finfo p0]; rewrite length_replicate).
  apply bind_Done_inv in H as (p2 & H2 & H).
  destruct (compile_scombs_laid fuel mkfuel src allowed files Hmk Hsrc (ty_tame _ _ Hty) (ty_place _ _ Hty) Hfiles Hnd _ 0 _ _ _ _ eq_refl L1 Hlen1 H2)
    as (T2 & L2 & Hlen2 & Hit2).
  apply bind_Done_inv in H as (p4 & H4 & H). unfold compile_builtins in H4. apply bind_Done_inv in H4 as (p3 & H3 & [= <-]).
  destruct (compile_builtins_laid mkfuel src allowed files Hmk Hfiles (seq 0 NUM_BUILTINS) _ p2 T2 p3 ltac:(apply Forall_seq; lia) L2 ltac:(lia) H3)
    as (T3 & L3 & Hlen3 & Hit3).
  apply (laid_set_si _ _ _ (comp_si (p_comp p2))) in L3. apply bind_Done_inv in H as (p5 & H5 & H).
  destruct (compile_evaldo_laid mkfuel src allowed files Hmk Hfiles _ _ _ _ L3 H5) as (T5 & L5 & Hev & Ef5 & Ei5 & Hsi5).
  apply bind_Done_inv in H as (c6 & H6 & H). destruct (invalid_laid mkfuel src allowed files Hmk Hfiles _ _ _ _ L5 Hsi5 H6) as [L6 (inv & Einv & Hinv)].
  pose proof (stacksizes_loop_sized _ _ _ _ _ H) as Hsz. apply (laid_sized _ _ _ _ _ _ _ Hsz) in L6.
  destruct Hsz as (S1 & S2 & _ & S4 & S5). exists (T5 ++ [None]). split_and!.
  - eapply laid_weaken; [|exact L6]. unfold every. intros f Hf. destruct (decide (f < NUM_BUILTINS)) as [Hb|Hb].
    + right. apply elem_of_seq. lia.
    + left. right. lia.
  - intros i d Hi Hd Hlt. rewrite S2. apply goes_app_l. apply (Hev i); [|done..]. rewrite S1 in Hi. cbn [p_comp set_comp] in Hi.
    rewrite Einv in Hi. apply elem_of_app in Hi as [Hi|Hi%list_elem_of_singleton]; [done|]. subst i. lia.
  - apply (f_equal length) in S5. rewrite !length_map in S5. cbn [p_finfo set_comp] in S5. rewrite S5, Ef5. cbn [p_finfo set_comp]. lia.
  - intros Hitem. rewrite S4. cbn [p_itemfno set_comp]. rewrite Ei5. cbn [p_itemfno set_comp]. rewrite Hit3. apply Hit2. by left.
Qed.
End whole_program.

(** A source as the passes leave it, with literals and built-ins that are
    typed. *)
Record runnable (allowed : nat -> bool) (fuel mkfuel : nat) (src : source) : Prop := {
  rn_fuel : 0 < mkfuel;
  rn_nodup : NoDup (src_scombs src);
  rn_compilable : forall q, q ∈ src_scombs src -> exists sc, compilable fuel mkfuel src q sc;
  rn_start : exists start sc, get_scomb src "__start" = Some start /\ compilable fuel mkfuel src start sc /\ sc_nargs sc = 1;
  rn_typable : typable allowed src
}.

Lemma runnable_compiles allowed fuel mkfuel src : runnable allowed fuel mkfuel src -> exists p, compile_program fuel mkfuel src = Done p.
Proof. intros [Hmk Hnd Hsrc (start & sc & Hs & Hc & Hn) _]. by eapply compile_program_returns. Qed.

Lemma runnable_typed allowed fuel mkfuel src p : runnable allowed fuel mkfuel src -> compile_program fuel mkfuel src = Done p ->
  program_fits p = true ->
  exists T, check_program p T (max_stack (p_finfo p)) (Z.of_nat (length (stringmap (p_comp p)))) = true /\ check_start p T = true /\
    forall k i pt, instructions (p_comp p) !! k = Some i -> T !! k = Some (Some pt) -> i_opcode i = OP_BIF ->
      allowed (Z.to_nat (i_arg0 i)) = true.
Proof.
  intros [Hmk Hnd Hsrc (start & sc & Hs & Hc & Hn) Hty] H Hfit.
  destruct (compile_program_laid fuel mkfuel src allowed Hmk Hnd Hsrc Hty start sc p Hs Hc Hn H) as (T & Hl & Hev & Hlen & Hitem).
  exists T. pose proof (laid_realised fuel mkfuel src allowed Hmk Hsrc Hty p T Hl Hfit Hev Hitem) as Hrz.
  destruct (checked_parts src allowed p T Hl Hrz Hfit Hlen) as [H1 H2]. split_and!; [done | done|].
  intros k i pt. by eapply laid_uses.
Qed.

(** *** A sample: [__start args = args], [f x y = + x y] and a function of many arguments *)
Definition sample_wide : scomb :=
  Scomb "wide" (replicate 600 "x") (Some (SNODE_NIL nosl)) 2 (Some (replicate 600 false)) (Some (replicate 600 false)) nosl None false
    false None false.
Definition sample_program : source := source_of [sample_f; sample_start; sample_wide].

Lemma sample_program_runnable : runnable (fun b => Nat.eqb b B_ADD) 20 1 sample_program.
Proof.
  assert (compilable 20 1 sample_program 0 sample_f) as C0.
  { split; [exists sample_sum, [true; true] | by exists "f"]. split_and!; [|apply sample_sum_rbody | cbn; lia].
    split; try reflexivity. cbn. in_nil. }
  assert (compilable 20 1 sample_program 1 sample_start) as C1.
  { split; [exists (SNODE_SYMBOL nosl "args"), [false] | by exists "__start"].
    split_and!; [split; try reflexivity; cbn; in_nil | | cbn; lia].
    apply rb_leaf; [done | done |]. split_and!; [done | | split; [constructor | cbn; in_nil]].
    intros x ->. exists 1%Z. split; [reflexivity | cbn; lia]. }
  assert (compilable 20 1 sample_program 2 sample_wide) as C2.
  { split; [exists (SNODE_NIL nosl), (replicate 600 false) | by exists "wide"].
    split_and!; [split; try reflexivity; cbn; in_nil | | cbn; lia].
    apply rb_leaf; [done | done |]. split_and!; [done | intros x []| split; [constructor | cbn; in_nil]]. }
  assert (forall q, q ∈ src_scombs sample_program -> q = 0 \/ q = 1 \/ q = 2) as Hq.
  { cbn. intros q. rewrite !elem_of_cons. intros [->|[->|[->|H]]]; [tauto..|by apply not_elem_of_nil in H]. }
  split; [lia | apply NoDup_ListNoDup, (seq_NoDup 3 0) | | exists 1, sample_start; split_and!; [reflexivity | exact C1 | reflexivity] |].
  - intros q [->|[-> | ->]]%Hq; [by exists sample_f | by exists sample_start | by exists sample_wide].
  - split.
    + intros q sc body [->|[-> | ->]]%Hq Hs Hb; injection Hs as <-; injection Hb as <-; reflexivity.
    + intros q sc [->|[-> | ->]]%Hq Hs; injection Hs as <-; reflexivity.
    + intros q sc [->|[-> | ->]]%Hq Hs Hn; injection Hs as <-; discriminate Hn.
Qed.

Lemma sample_program_compiles : exists p, compile_program 20 1 sample_program = Done p /\ program_fits p = true.
Proof.
  assert (match compile_program 20 1 sample_program with Done p => program_fits p | _ => false end = true) as H by (vm_compute; reflexivity).
  destruct (compile_program 20 1 sample_program) as [p| |]; [by exists p | done | done].
Qed.

(** ** Theorems *)

(** C5. The optimiser keeps code typed: from typed code of the shape the
    schemes emit, whatever is on the stack where, all passes of the peephole
    optimiser lead to code that can still be typed, entered with the same stack;
    the stacks inside may be deeper than what the new code relies on. *)
Theorem optimised_code_typed su n start l ts st l' : (0 <= start)%Z ->
  piece su n l ts st [] -> steps l -> closed_code l -> peephole_body start l = Done l' ->
  exists ts' : list (list slot_ty), flows su false n (rjump ts') [] 0 l' ts' /\ takes false ts' st.
Proof. apply peephole_typed. Qed.

(** The body of [f x y = + x y], as the scheme R emits it. *)
Lemma optimised_code_typed_witness : exists c l',
  R 20 1 sample_program (Compilation [] [] (Some (Stackinfo [0; 0]%Z false))) sample_sum (arg_pmap ["x"; "y"]) 2 = Done c /\
  peephole_body 0 (instructions c) = Done l' /\
  exists ts' : list (list slot_ty), flows (surroundings_of sample_program (fun b => Nat.eqb b B_ADD) 0) false (strings c) (rjump ts') [] 0 l' ts' /\
    takes false ts' [SAny; SAny].
Proof.
  set (c0 := Compilation [] [] _). destruct sample_program_runnable as [_ _ Hsrc _ Hty].
  destruct (R 20 1 sample_program c0 sample_sum (arg_pmap ["x"; "y"]) 2) as [c| |] eqn:HR; [|by vm_compute in HR..].
  destruct (peephole_body 0 (instructions c)) as [l'| |] eqn:HP;
    [|by vm_compute in HR; injection HR as <-; vm_compute in HP..].
  exists c, l'. split; [done|]. split; [done|].
  assert (Forall (fun x => (x < STATUS_EVALUATED)%Z) [0; 0]%Z) as Hlow by (repeat constructor).
  assert (ready c0 [SAny; SAny]) as Hr by (exists [0; 0]%Z, false; split; [done | by apply agree_low]).
  assert (holds c0 [0; 0]%Z 0 [0; 0]%Z) as Hh by (split; [done | by repeat constructor | apply le_st_refl | done]).
  destruct (R_ends sample_program _ 0 1 (ty_tame _ _ Hty) (scomb_indexes 20 1 sample_program Hsrc) _ _ _ (sample_sum_rbody sample_program) 20 c0
    [SAny; SAny] c eq_refl eq_refl Hr HR) as [_ (l & ts & El & Hp)].
  destruct (R_finished _ _ _ _ _ _ _ _ HR) as (l1 & E1 & Hst & _).
  destruct (R_ok 1 sample_program (le_n 1) (all_ready 20 1 sample_program Hsrc) _ _ _ (sample_sum_rbody sample_program) 20 c0 [0; 0]%Z
    ltac:(cbn; lia) eq_refl Hh) as (c' & l2 & E2 & E2' & Hcl & _).
  pose proof (eq_trans (eq_sym HR) E2) as [= <-]. cbn [c0 instructions app] in *. rewrite E1 in El, HP. subst l. rewrite E2' in E1. subst l2.
  eapply (optimised_code_typed _ _ 0); [done | exact Hp | exact Hst | exact Hcl | exact HP].
Defined.

(** C4. What [compile_program] makes of a source is typed code, if it fits its
    stacks ([program_fits]: no instruction leaves more on the stack than the
    largest stack size, and a frame of that size fits into a block): there is a
    type for every address the program can reach, under which the checker
    accepts every instruction, the code starts as the first frame needs it, and
    only the allowed built-ins are used. The compiler does not check that a
    program fits. *)
Theorem compiled_program_typed allowed fuel mkfuel src p :
  runnable allowed fuel mkfuel src -> compile_program fuel mkfuel src = Done p -> program_fits p = true ->
  exists T, check_program p T (max_stack (p_finfo p)) (Z.of_nat (length (stringmap (p_comp p)))) = true /\ check_start p T = true /\
    forall k i pt, instructions (p_comp p) !! k = Some i -> T !! k = Some (Some pt) -> i_opcode i = OP_BIF ->
      allowed (Z.to_nat (i_arg0 i)) = true.
Proof. apply runnable_typed. Qed.

Lemma compiled_program_typed_witness : exists p, compile_program 20 1 sample_program = Done p /\
  exists T, check_program p T (max_stack (p_finfo p)) (Z.of_nat (length (stringmap (p_comp p)))) = true /\ check_start p T = true /\
    forall k i pt, instructions (p_comp p) !! k = Some i -> T !! k = Some (Some pt) -> i_opcode i = OP_BIF ->
      Nat.eqb (Z.to_nat (i_arg0 i)) B_ADD = true.
Proof.
  destruct sample_program_compiles as (p & Hp & Hfit). exists p. split; [exact Hp|].
  apply (compiled_program_typed (fun b => Nat.eqb b B_ADD) 20 1 sample_program p); [apply sample_program_runnable | exact Hp | exact Hfit].
Defined.
