(* ===== verification/Process.v ===== *)
(** * All passes (src/nreduce/compiler/source.c)

    [source_process] reads the modules a program imports and runs the passes
    one after the other; [source_compile] turns the result into bytecode. *)

From S2P Require Import Prelude Builtins Util Source Renaming Resolve Lifting Applift Strictness StrictnessFacts Reorder Nonstrict Bytecode Compile Image AppendOpt Inlining Sinking.

(** ** Modules *)

(** An entry of the table of built-in modules, which the build makes from the
    files of the directory. *)
Record module_info := Module_info { mi_name : string; mi_filename : string; mi_source : string }.

Definition MODULE_EXTENSION : string := ".elc".

Definition source_new : source := Source [] ∅ 0 [] [] [] [] (list_push [] "prelude").

Section imports.
Context (modules : list module_info).
(** The parser, made by bison from grammar.y: it is given the number of the
    file, the name of the module and the text. *)
Context (yyparse : source -> Z -> string -> string -> outcome (Z * source)).
(** The contents of a file, if it can be opened. *)
Context (read_file : string -> option string).

Definition source_parse_string (src : source) (str filename : string) (modname : option string) : outcome (Z * source) :=
  let '(src, fileno) := add_parsedfile src filename in
  yyparse src fileno (default "" modname) str.

Definition source_parse_file (src : source) (filename : string) (modname : string) : outcome (Z * source) :=
  match read_file filename with
  | None => Done ((-1)%Z, src)
  | Some text => let '(src, fileno) := add_parsedfile src filename in yyparse src fileno modname text
  end.

Definition import_module (src : source) (modname : string) : outcome (Z * source) :=
  match List.find (fun m => String.eqb modname (mi_name m)) modules with
  | Some m =>
      let prefix := if String.eqb (mi_name m) "prelude" then None else Some (mi_name m) in
      source_parse_string src (mi_source m) (mi_filename m) prefix
  | None => source_parse_file src (modname +:+ MODULE_EXTENSION) modname
  end.

Fixpoint import_modules (src : source) (names : list string) : outcome (Z * source) :=
  match names with
  | [] => Done (0%Z, src)
  | modname :: names =>
      '(r, src) ← import_module src modname;
      if (r =? 0)%Z then import_modules src names else Done (r, src)
  end.

(** The loop of [process_imports]; each round may find new imports. *)
Fixpoint process_imports (rounds : nat) (src : source) : outcome (Z * source) :=
  match rounds with
  | O => Timeout
  | S rounds =>
      match src_newimports src with
      | [] => Done (0%Z, src)
      | newimports =>
          let src := set_imports (fold_left list_push newimports (src_imports src)) [] src in
          '(r, src) ← import_modules src newimports;
          if (r =? 0)%Z then process_imports rounds src else Done (r, src)
      end
  end.
End imports.

(** ** The passes *)

(** [compile_stage]: a check of the hash table in front of every pass. *)
Definition compile_stage (src : source) : outcome unit := cassert (schash_check src).

(** A loop over the supercombinators that are there before it. *)
Fixpoint for_scombs (f : source -> nat -> outcome source) (ps : list nat) (src : source) : outcome source :=
  match ps with
  | [] => Done src
  | p :: ps => src ← f src p; for_scombs f ps src
  end.

(** Under [strict_evaluation] every argument is strict that is not marked as
    lazy. *)
Fixpoint strict_flags (strictin lazyin : list bool) (nargs : nat) : outcome (list bool) :=
  match nargs with
  | O => Done strictin
  | S nargs =>
      match strictin, lazyin with
      | s :: strictin, l :: lazyin => rest ← strict_flags strictin lazyin nargs; Done ((s || negb l) :: rest)
      | _, _ => Crash
      end
  end.
Definition make_strict (src : source) (p : nat) : outcome source :=
  sc ← getsc src p;
  if Nat.eqb (sc_nargs sc) 0 then Done src
  else
    st ← deref (sc_strictin sc);
    lz ← deref (sc_lazyin sc);
    st ← strict_flags st lz (sc_nargs sc);
    Done (upd src p (set_strictin (Some st) (Some lz))).

Definition sink_scomb (rounds fuel : nat) (src : source) (p : nat) : outcome source :=
  sc ← getsc src p;
  body ← deref (sc_body sc);
  body ← sink_letrecs rounds fuel body;
  Done (upd src p (set_body body)).

(** The options of [source_process]. *)
Record options := Options {
  strict_evaluation : bool; stopafterlambda : bool; nosink : bool; disstrict : bool; appendoptdebug : bool }.

(** The bounds of the passes that work on finished trees follow from the size
    of the program. *)
Definition tree_size (src : source) : nat :=
  sum_list_with (fun p => default 0 (sc ← src_heap src !! p; snode_size <$> sc_body sc)) (src_scombs src).

(** The passes after letrec sinking. *)
Definition back_end (opts : options) (src : source) : outcome source :=
  compile_stage src;;
  src ← applift_all (2 * tree_size src) src (src_scombs src);
  compile_stage src;;
  src ← reorder_all (S (tree_size src)) src (src_scombs src);
  if disstrict opts then Done src
  else
    compile_stage src;;
    src ← strictness_analysis (S (prog_unset (init_all src))) (tree_size src) src;
    compile_stage src;;
    nonstrict_all (tree_size src) src (src_scombs src).

(** The passes before letrec sinking; [false] if there are unbound variables. *)
Definition front_end (fuel : nat) (opts : options) (src : source) : outcome (bool * source) :=
  src ← (if strict_evaluation opts then for_scombs make_strict (src_scombs src) src else Done src);
  compile_stage src;;
  src ← for_scombs rename_variables (src_scombs src) src;
  compile_stage src;;
  '(src, unbound) ← resolve_all src (src_scombs src) [];
  if negb (handle_unbound unbound =? 0)%Z then Done (false, src)
  else
    compile_stage src;;
    src ← for_scombs (lift fuel) (src_scombs src) src;
    Done (true, src).

Definition middle_end (fuel : nat) (opts : options) (src : source) : outcome (bool * source) :=
  compile_stage src;;
  src ← appendopt fuel fuel src;
  if appendoptdebug opts then Done (false, src)
  else
    compile_stage src;;
    src ← inlining fuel src;
    if nosink opts then Done (true, src)
    else
      compile_stage src;;
      src ← for_scombs (sink_scomb fuel fuel) (src_scombs src) src;
      Done (true, src).

(** [source_process] after the modules are read. *)
Definition process_passes (fuel : nat) (opts : options) (src : source) : outcome (Z * source) :=
  '(r, src) ← check_for_main src;
  if negb (r =? 0)%Z then Done ((-1)%Z, src)
  else
    '(ok, src) ← front_end fuel opts src;
    if negb ok then Done ((-1)%Z, src)
    else if stopafterlambda opts then Done (0%Z, src)
    else
      '(go, src) ← middle_end fuel opts src;
      if negb go then Done (0%Z, src)
      else src ← back_end opts src; Done (0%Z, src).

Definition source_process (fuel : nat) (modules : list module_info)
    (yyparse : source -> Z -> string -> string -> outcome (Z * source)) (read_file : string -> option string)
    (opts : options) (src : source) : outcome (Z * source) :=
  '(r, src) ← process_imports modules yyparse read_file fuel src;
  if negb (r =? 0)%Z then Done ((-1)%Z, src) else process_passes fuel opts src.

(** [source_compile] *)
Definition source_compile (malloc : nat -> list Z) (fuel mkfuel : nat) (src : source) : outcome (list Z) :=
  compile_stage src;; compile malloc fuel mkfuel src.
