(* ===== verification/BackEnd.v ===== *)
(** * The last passes together

    What application lifting, letrec reordering, the strictness analysis and
    non-strict lifting make of a program is what the bytecode compiler needs:
    the marks in tail positions and the shapes the passes establish are those
    scheme R relies on. *)

From S2P Require Import Prelude CString Builtins Util Source Resolve Lifting LiftingFacts LiftingCreate Double Bytecode StackDiscipline Applift AppliftFacts Semantics Strictness StrictnessFacts Reorder ReorderMeaning Nonstrict Schemes SchemeR Compile CompileFacts ProgramFacts SchemesTyped ProgramTyped Process.

#[local] Set Warnings "-clear-no-such-hyp".

(** ** Marks in tail positions *)

(** What is evaluated last: the body, the branches of an [if], the second
    argument of [seq] and the body of a letrec. A call of a built-in there has
    its strict arguments marked. *)
Definition call_marked (c : snode) : Prop := forall sl bif b,
  spine_head c = SNODE_BUILTIN sl bif -> builtin_info !! bif = Some b -> count_args c = bi_nargs b ->
  strict_marked b (spine_strict c).

Fixpoint tail_marked (c : snode) : Prop :=
  match c with
  | SNODE_APPLICATION _ _ l r =>
      call_marked c /\
      (is_bif B_IF (spine_head l) = true -> count_args l = 2 -> tail_marked r /\ match l with SNODE_APPLICATION _ _ _ t => tail_marked t | _ => True end) /\
      (is_bif B_SEQ (spine_head l) = true -> count_args l = 1 -> tail_marked r)
  | SNODE_LETREC _ _ b => tail_marked b
  | _ => True
  end.

(** Spines of the same length with the same function, if it is known. *)
Definition same_spine (c c' : snode) : Prop :=
  count_args c' = count_args c /\
  match spine_head c with SNODE_LETREC _ _ _ => match spine_head c' with SNODE_LETREC _ _ _ => True | _ => False end
  | h => spine_head c' = h end.

Lemma same_spine_refl c : same_spine c c.
Proof. split; [done|]. by destruct (spine_head c). Qed.

Lemma same_spine_trans a b c : same_spine a b -> same_spine b c -> same_spine a c.
Proof.
  intros [H1 H2] [H3 H4]. split; [congruence|].
  destruct (spine_head a), (spine_head b), (spine_head c); try done; congruence.
Qed.

Lemma same_spine_app c c' sl st r r' sl' st' : same_spine c c' ->
  same_spine (SNODE_APPLICATION sl st c r) (SNODE_APPLICATION sl' st' c' r').
Proof. intros [H1 H2]. split; [cbn; congruence | done]. Qed.

Lemma same_spine_known c c' : same_spine c c' -> is_known (spine_head c) = true \/ is_known (spine_head c') = true ->
  spine_head c' = spine_head c.
Proof. intros [_ H]. destruct (spine_head c), (spine_head c'); cbn; naive_solver. Qed.

Section tails.
Context (src : source).

Lemma nstrict_le bif b : builtin_info !! bif = Some b -> bi_nstrict b <= bi_nargs b.
Proof.
  assert (forallb (fun b => bi_nstrict b <=? bi_nargs b) builtin_info = true) as H by (vm_compute; reflexivity).
  rewrite forallb_forall in H. intros Hb. apply Nat.leb_le, H. eapply list_elem_of_In, list_elem_of_lookup_2, Hb.
Qed.

(** A spine with too few arguments is left alone. *)
Lemma check_short fuel : forall c used ch r n, is_known (spine_head c) = true -> fun_nargs src (spine_head c) = Done n ->
  count_args c < n -> check_strictness_r fuel src c used ch = Done r -> r = (c, used, ch).
Proof.
  induction fuel as [|fuel IH]; intros c used ch r n Hk Hn Hlt H; cbn [check_strictness_r] in H; [done|].
  destruct c as [sl st l rr| | | | | | | |]; try (cbn in Hk; done); try (by simplify_eq).
  unfold check_application, is_saturated in H. rewrite Hk, Hn in H. cbn [mbind outcome_bind] in H.
  rewrite (proj2 (Nat.eqb_neq _ _)) in H by lia. cbn [mbind outcome_bind] in H.
  apply bind_Done_inv in H as ([[l' u] c'] & H1 & H2). apply (IH _ _ _ _ n) in H1; [|done..|cbn in Hlt; lia].
  by simplify_eq.
Qed.

(** *** The arguments of a call *)

Definition arg_marks (h : snode) (n : nat) (l : list (snode * bool)) : Prop :=
  forall j a b, l !! j = Some (a, b) -> exists s, fun_strictin src h (n - 1 - j) = Done s /\ (s = true -> b = true).

Section one.
Context (check : snode -> list string -> bool -> outcome checked).
Hypothesis Hspine : forall c used ch c' used' ch', check c used ch = Done (c', used', ch') -> same_spine c c'.
Hypothesis Htail : forall c used ch c' used' ch', check c used ch = Done (c', used', ch') -> tail_marked c'.

Lemma mark_args_marks h c : forall used ch c' used' ch', mark_args src check h c used ch = Done (c', used', ch') ->
  same_spine c c' /\ arg_marks h (count_args c) (spine_strict c').
Proof using Type.
  induction c as [sl st l IHl r _| | | | | | | |]; intros used ch c' used' ch' H; cbn [mark_args] in H;
    try (injection H as <- _ _; split; [apply same_spine_refl | by intros j a b Hj]).
  apply bind_Done_inv in H as (strict & Hs & H). apply bind_Done_inv in H as ([[r1 u1] h1] & H1 & H).
  apply bind_Done_inv in H as ([[l1 u2] h2] & H2 & H). injection H as <- _ _. destruct (IHl _ _ _ _ _ H2) as [Hl Hm].
  split; [by apply same_spine_app|]. intros [|j] a b Hj; cbn in Hj.
  - injection Hj as <- <-. exists strict. cbn [count_args]. rewrite Nat.sub_0_r. replace (S (count_args l) - 1) with (count_args l) by lia.
    split; [done|]. intros ->. by destruct st.
  - cbn [count_args]. replace (S (count_args l) - 1 - S j) with (count_args l - 1 - j) by lia. by apply (Hm j a).
Qed.

Lemma arg_marks_snd h n l l' : map snd l' = map snd l -> arg_marks h n l -> arg_marks h n l'.
Proof using Type.
  intros E H j a b Hj. assert (exists a0, l !! j = Some (a0, b)) as [a0 Ha].
  { assert (snd <$> l !! j = Some b) as Hb by (rewrite <- list_lookup_fmap; setoid_rewrite <- E; by rewrite list_lookup_fmap, Hj).
    apply fmap_Some in Hb as ([a0 b0] & ? & ->). by exists a0. }
  by apply (H j a0).
Qed.

(** The parts of a saturated call that are evaluated last. *)
Definition tail_parts (c : snode) : Prop :=
  match c with
  | SNODE_APPLICATION _ _ l r =>
      (is_bif B_IF (spine_head l) = true -> count_args l = 2 -> tail_marked r /\ match l with SNODE_APPLICATION _ _ _ t => tail_marked t | _ => True end) /\
      (is_bif B_SEQ (spine_head l) = true -> count_args l = 1 -> tail_marked r)
  | _ => True
  end.

Lemma check_call_tail h c used ch c' used' ch' : spine_head c = h -> is_known h = true -> 0 < count_args c ->
  check_call src check h c used ch = Done (c', used', ch') ->
  same_spine c c' /\ arg_marks h (count_args c) (spine_strict c') /\ tail_parts c'.
Proof using Hspine Htail.
  intros Hh Hk Hn H. unfold check_call in H. apply bind_Done_inv in H as ([[c1 u1] h1] & H1 & H).
  apply bind_Done_inv in H as ([[c2 u2] h2] & H2 & H3). apply mark_args_marks in H1 as [Hs Hm].
  assert (spine_head c1 = h) as Hh1 by (rewrite <- Hh; apply same_spine_known; [done | left; by rewrite Hh]).
  destruct c as [sl st l r| | | | | | | |]; try (cbn in Hn; lia).
  destruct c1 as [sl1 st1 l1 r1| | | | | | | |]; try (destruct Hs as [Hs _]; done).
  unfold check_if_call in H2. unfold check_seq_call in H3. destruct (is_bif B_IF h) eqn:Eif.
  - unfold check_if in H2. destruct l1 as [sl2 st2 l2 t| | | | | | | |]; try done.
    apply bind_Done_inv in H2 as ([[t' u3] h3] & Ht & H2). apply bind_Done_inv in H2 as ([[f' u4] h4] & Hf & H2).
    injection H2 as <- <- <-. assert (is_bif B_SEQ h = false) as Eseq.
    { destruct h; try done. cbn in Eif |- *. apply Nat.eqb_eq in Eif as ->. done. }
    rewrite Eseq in H3. injection H3 as <- _ _. cbn in Hh1. split_and!.
    + eapply same_spine_trans; [exact Hs|]. apply same_spine_app, same_spine_app, same_spine_refl.
    + by eapply arg_marks_snd; [|exact Hm].
    + cbn [tail_parts spine_head]. rewrite Hh1, Eif, Eseq. split; [|done]. intros _ _. split; by eapply Htail.
  - injection H2 as <- <- <-. destruct (is_bif B_SEQ h) eqn:Eseq.
    + unfold check_seq in H3. apply bind_Done_inv in H3 as ([[a' u3] h3] & Ha & H3). injection H3 as <- _ _. cbn in Hh1. split_and!.
      * eapply same_spine_trans; [exact Hs|]. apply same_spine_app, same_spine_refl.
      * by eapply arg_marks_snd; [|exact Hm].
      * cbn [tail_parts spine_head]. rewrite Hh1, Eif, Eseq. split; [done|]. intros _ _. by eapply Htail.
    + injection H3 as <- _ _. cbn in Hh1. split_and!; [done | done |]. cbn [tail_parts spine_head]. rewrite Hh1, Eif, Eseq. done.
Qed.
End one.

Lemma check_letrec_tail check sl bs b used ch c' used' ch' :
  (forall c used ch c' used' ch', check c used ch = Done (c', used', ch') -> tail_marked c') ->
  check_letrec check sl bs b used ch = Done (c', used', ch') -> exists bs' b', c' = SNODE_LETREC sl bs' b' /\ tail_marked b'.
Proof.
  intros Ht H. unfold check_letrec in H. apply bind_Done_inv in H as ([[[bs1 b1] u1] h1] & H & E). injection E as <- _ _.
  exists bs1, b1. split; [done|]. revert H. generalize (S (length bs)) as n, ch, (@nil string). intros n. revert bs b.
  induction n as [|n IH]; intros bs b ch0 u0 H; cbn [letrec_loop] in H; [done|].
  apply bind_Done_inv in H as ([[bs2 u2] h2] & _ & H). apply bind_Done_inv in H as ([[b2 u3] h3] & Hb & H).
  destruct (mark_bindings u3 bs2) as [bs3 again]. destruct again; [by eapply IH|]. injection H as _ <- _ _. by eapply Ht.
Qed.

Lemma check_spine_tail fuel : forall c used ch c' used' ch', check_strictness_r fuel src c used ch = Done (c', used', ch') ->
  same_spine c c' /\ tail_marked c'.
Proof.
  induction fuel as [|fuel IH]; intros c used ch c' used' ch' H; cbn [check_strictness_r] in H; [done|].
  destruct c as [sl st l r| | | |sl bs b| | | |]; try done; try (by injection H as <- _ _).
  2:{ apply check_letrec_tail in H as (bs' & b' & -> & Hb); [done|]. intros. by eapply IH. }
  unfold check_application in H. apply bind_Done_inv in H as (sat & Hsat & H).
  apply bind_Done_inv in H as ([[c1 u1] h1] & H1 & H). unfold is_saturated in Hsat.
  set (h := spine_head (SNODE_APPLICATION sl st l r)) in *.
  destruct sat.
  - destruct (is_known h) eqn:Hk; [|done]. apply bind_Done_inv in Hsat as (n & Hn & Hsat). injection Hsat as Hc. change (Nat.eqb (S (count_args l)) n = true) in Hc. apply Nat.eqb_eq in Hc.
    apply check_call_tail in H1 as (Hs & Hm & Hp); [| by intros; eapply IH | by intros; eapply IH | done | done | cbn; lia].
    destruct c1 as [sl1 st1 l1 r1| | | | | | | |]; try done. assert (spine_head (SNODE_APPLICATION sl1 st1 l1 r1) = h) as Hh1.
    { apply same_spine_known; [done | by left]. }
    apply bind_Done_inv in H as ([[l2 u2] h2] & H2 & H). injection H as <- _ _.
    assert (l2 = l1) as ->.
    { apply check_short with (n := n) in H2; [by injection H2 | | |].
      - cbn in Hh1. by rewrite Hh1.
      - cbn in Hh1. by rewrite Hh1.
      - destruct Hs as [Hs _]. cbn in Hs, Hc. lia. }
    split; [done|]. cbn [tail_marked]. split; [|exact Hp]. intros sl0 bif b Eh Eb Ec argno Ha. rewrite Hh1 in Eh.
    pose proof (nstrict_le _ _ Eb). rewrite spine_strict_length, Ec.
    destruct (spine_strict (SNODE_APPLICATION sl1 st1 l1 r1) !! (bi_nargs b - 1 - argno)) as [[a s]|] eqn:E.
    + exists a. destruct (Hm _ _ _ E) as (s' & Hf & Hs'). unfold fun_strictin in Hf. rewrite Eh in Hf, Hn. cbn in Hn. rewrite Eb in Hn.
      injection Hn as Hn. apply bind_Done_inv in Hf as (n' & _ & Hf). apply bind_Done_inv in Hf as (? & _ & Hf). rewrite Eb in Hf.
      injection Hf as <-. rewrite Hs'; [done|]. apply Nat.ltb_lt. lia.
    + apply lookup_ge_None in E. rewrite spine_strict_length in E. lia.
  - injection H1 as <- <- <-. apply bind_Done_inv in H as ([[l1 u1] h1] & H1 & H). injection H as <- _ _.
    apply IH in H1 as [Hs Ht]. split; [by apply same_spine_app|].
    assert (forall bif b, spine_head l1 = SNODE_BUILTIN bif b -> spine_head l = SNODE_BUILTIN bif b) as Hb.
    { intros bif b E. destruct Hs as [_ Hs]. destruct (spine_head l), (spine_head l1); try done; congruence. }
    assert (forall bif bi sl0, spine_head l1 = SNODE_BUILTIN sl0 bif -> builtin_info !! bif = Some bi -> S (count_args l1) <> bi_nargs bi) as Hne.
    { intros bif bi sl0 E%Hb Ebi Ec. subst h. cbn in Hsat. rewrite E in Hsat. cbn in Hsat. rewrite Ebi in Hsat. injection Hsat as Hsat. change (Nat.eqb (S (count_args l)) (bi_nargs bi) = false) in Hsat. apply Nat.eqb_neq in Hsat.
      destruct Hs as [Hs _]. lia. }
    cbn [tail_marked]. split_and!.
    + intros sl0 bif b E Ebi Ec. by destruct (Hne _ _ _ E Ebi).
    + intros E Ec. destruct (spine_head l1) as [| |sl0 bif| | | | | |] eqn:Eh; try done. cbn in E. apply Nat.eqb_eq in E as ->.
      by destruct (Hne B_IF _ sl0 eq_refl eq_refl); rewrite Ec.
    + intros E Ec. destruct (spine_head l1) as [| |sl0 bif| | | | | |] eqn:Eh; try done. cbn in E. apply Nat.eqb_eq in E as ->.
      by destruct (Hne B_SEQ _ sl0 eq_refl eq_refl); rewrite Ec.
Qed.
End tails.

(** *** Non-strict lifting keeps them *)

Definition all_tails (src : source) : Prop := forall p sc body, p ∈ src_scombs src -> src_heap src !! p = Some sc ->
  sc_body sc = Some body -> tail_marked body.

Lemma strict_marked_snd b l l' : map snd l' = map snd l -> strict_marked b l -> strict_marked b l'.
Proof.
  intros E H argno Ha. destruct (H argno Ha) as (a & Hl). assert (length l' = length l) as El by (by rewrite <- (length_map snd), E, length_map).
  rewrite El. assert (snd <$> l' !! (length l - 1 - argno) = Some true) as Hb.
  { rewrite <- list_lookup_fmap. setoid_rewrite E. by rewrite list_lookup_fmap, Hl. }
  apply fmap_Some in Hb as ([a' b'] & ? & ->). by exists a'.
Qed.

(** The supercombinator at [p] gets the body. *)
Lemma all_tails_upd src p f body : (forall q sc b, q <> p -> q ∈ src_scombs src -> src_heap src !! q = Some sc -> sc_body sc = Some b -> tail_marked b) ->
  (forall sc, sc_body (f sc) = Some body) -> tail_marked body -> all_tails (upd src p f).
Proof.
  intros H Hf Hb q sc b Hq Hs E. cbn in Hs. rewrite list_lookup_alter in Hs. case_decide as Hd; [|by eapply H].
  destruct (src_heap src !! p) as [sc0|]; [|done]. cbn in Hs. injection Hs as <-. rewrite Hf in E. by injection E as <-.
Qed.

(** What a call leaves. *)
Definition tails_kept (k k' : snode) : Prop :=
  same_spine k k' /\ map snd (spine_strict k') = map snd (spine_strict k) /\ (tail_marked k -> tail_marked k') /\
  match k, k' with
  | SNODE_APPLICATION _ _ _ r, SNODE_APPLICATION _ _ _ r' => is_bif B_IF (spine_head k) = true -> tail_marked r -> tail_marked r'
  | SNODE_APPLICATION _ _ _ _, _ => False
  | _, _ => True
  end.
Definition keeps_tails (src : source) (k : snode) (r : outcome (source * snode)) : Prop :=
  forall src' k', r = Done (src', k') -> all_tails src' /\ tails_kept k k'.

Lemma lift_expr_new src name k src1 p k1 : lift_expr src name k = Done (src1, p, k1) ->
  (forall q sc, q <> p -> src_heap src1 !! q = Some sc -> src_heap src !! q = Some sc) /\
  src_scombs src1 = src_scombs src ++ [p].
Proof.
  intros H. unfold lift_expr, add_scomb in H. outcome_inv. destruct v as [src0 p0]. outcome_inv. simplify_eq. cbn. split; [|done].
  intros q sc Hq Hs. rewrite list_lookup_alter_ne in Hs by done. apply lookup_app_Some in Hs as [Hs|[Hl Hs]]; [done|].
  destruct (q - length (src_heap src)) eqn:E; [lia | done].
Qed.

(** All bodies but the one at [p]. *)
Definition other_tails (src : source) (p : nat) : Prop := forall q sc b, q <> p -> q ∈ src_scombs src -> src_heap src !! q = Some sc ->
  sc_body sc = Some b -> tail_marked b.

Lemma other_tails_upd src p f : other_tails src p -> other_tails (upd src p f) p.
Proof. intros H q sc b Hq Hin Hs. cbn in Hs. rewrite list_lookup_alter_ne in Hs by done. by eapply H. Qed.

Lemma check_strictness_tails fuel src p ch src' ch' : other_tails src p -> check_strictness fuel src p ch = Done (src', ch') ->
  all_tails src' /\ src_scombs src' = src_scombs src.
Proof.
  intros Ho H. unfold check_strictness in H. apply bind_Done_inv in H as (sc & _ & H). apply bind_Done_inv in H as (body & _ & H).
  apply bind_Done_inv in H as ([[body' used] ch1] & Hc & H). apply bind_Done_inv in H as (old & _ & H). apply bind_Done_inv in H as (_ & _ & H).
  injection H as <- _. apply check_spine_tail in Hc as [_ Ht]. split; [|done]. by eapply all_tails_upd.
Qed.

Section nonstrict_step.
Context (fuel : nat) (rec_ : source -> string -> snode -> outcome (source * snode)).
Hypothesis Hrec : forall src name k, all_tails src -> keeps_tails src k (rec_ src name k).

Lemma nonstrict_with_tails src p src' : all_tails src -> p ∈ src_scombs src -> nonstrict_with rec_ src p = Done src' -> all_tails src'.
Proof using Hrec.
  intros Ha Hp H. unfold nonstrict_with in H. apply bind_Done_inv in H as (sc & Hs & H). apply bind_Done_inv in H as (body & Hb & H).
  apply bind_Done_inv in H as ([src1 body1] & H1 & H). injection H as <-. apply deref_Done in Hs, Hb.
  destruct (Hrec _ _ _ Ha _ _ H1) as (Ha1 & _ & _ & Hk & _). apply (all_tails_upd _ _ _ body1); [|done | apply Hk; by eapply Ha].
  intros q sc0 b _. apply Ha1.
Qed.

Lemma lift_if_complex_tails src name k src' k' : all_tails src -> lift_if_complex fuel rec_ src name k = Done (src', k') -> all_tails src'.
Proof using Hrec.
  intros Ha H. unfold lift_if_complex in H. destruct (0 <? nappargs k); [|by simplify_eq].
  destruct (is_cons_call k); [by destruct (Hrec _ _ _ Ha _ _ H)|]. apply bind_Done_inv in H as ([[src1 p] k1] & H1 & H).
  apply lift_expr_new in H1 as [Hn Hs]. apply bind_Done_inv in H as ([src3 ch] & H3 & H).
  apply bind_Done_inv in H as (src5 & H5 & H). injection H as <- _.
  apply check_strictness_tails in H3 as [H3 E3].
  - apply nonstrict_with_tails in H5; [done | | by cbn; rewrite E3; cbn; rewrite Hs, elem_of_app; right; left].
    intros q sc b Hin Hq Hb. cbn in Hq. rewrite list_lookup_alter in Hq. case_decide; [|by eapply H3].
    apply fmap_Some in Hq as (sc0 & Hq & ->). subst q. exact (H3 p sc0 b Hin Hq Hb).
  - apply other_tails_upd. intros q sc b Hq Hin Hh Hb. rewrite Hs, elem_of_app in Hin. destruct Hin as [Hin|Hin%list_elem_of_singleton]; [|done].
    eapply Ha; [done | by apply Hn | done].
Qed.

Lemma nonstrict_values_tails name bs : forall src src' bs', all_tails src ->
  nonstrict_values rec_ src name bs = Done (src', bs') -> all_tails src'.
Proof using Hrec.
  induction bs as [|rec bs IH]; intros src src' bs' Ha H; cbn [nonstrict_values] in H; [by simplify_eq|].
  apply bind_Done_inv in H as ([src1 v] & H1 & H). apply bind_Done_inv in H as ([src2 bs2] & H2 & H). injection H as <- _.
  eapply IH; [|exact H2]. by destruct (Hrec _ _ _ Ha _ _ H1).
Qed.
End nonstrict_step.

Lemma bif_not_both h : is_bif B_IF h = true -> is_bif B_SEQ h = false.
Proof. destruct h; try done. cbn. by intros ->%Nat.eqb_eq. Qed.

Lemma tails_kept_leaf k : match k with SNODE_APPLICATION _ _ _ _ => False | _ => True end -> tails_kept k k.
Proof. intros H. split; [apply same_spine_refl|]. by destruct k. Qed.

Lemma app_tails_kept sl st l l' r r' : tails_kept l l' ->
  (runs_in_place st (spine_head l) = true -> tail_marked r -> tail_marked r') ->
  tails_kept (SNODE_APPLICATION sl st l r) (SNODE_APPLICATION sl st l' r').
Proof.
  intros (Hs & Hm & Ht & Hl) Hr.
  assert (forall sl0 bif, spine_head l' = SNODE_BUILTIN sl0 bif -> spine_head l = SNODE_BUILTIN sl0 bif) as Hb.
  { intros sl0 bif E. rewrite <- E. symmetry. apply same_spine_known; [done|]. right. by rewrite E. }
  assert (forall n, is_bif n (spine_head l') = true -> is_bif n (spine_head l) = true) as Hbif.
  { intros n E. destruct (spine_head l') eqn:Eh; try done. by rewrite (Hb _ _ eq_refl). }
  pose proof (proj1 Hs) as Hcnt. split_and!.
  - by apply same_spine_app.
  - cbn. by rewrite Hm.
  - cbn [tail_marked]. intros (H1 & H2 & H3). split_and!.
    + intros sl0 bif b E Eb Ec. eapply strict_marked_snd; [|eapply (H1 sl0 bif b)]; [cbn; by rewrite Hm | by apply Hb | done | cbn in Ec |- *; congruence].
    + intros E%Hbif Ec. destruct (H2 E) as [H4 H5]; [congruence|]. split; [apply Hr; [|done]; unfold runs_in_place; rewrite E; by destruct st|].
      destruct l as [? ? ? t| | | | | | | |], l' as [? ? ? t'| | | | | | | |]; try done. auto.
    + intros E%Hbif Ec. apply Hr; [unfold runs_in_place; rewrite E; by rewrite orb_true_r|]. apply H3; [done | congruence].
  - intros E. apply Hr. unfold runs_in_place. cbn in E. rewrite E. by destruct st.
Qed.

Lemma nonstrict_tails fuel : forall src name k, all_tails src -> keeps_tails src k (nonstrict_lift_r fuel src name k).
Proof.
  induction fuel as [|fuel IH]; intros src name k Ha src' k' H; cbn [nonstrict_lift_r] in H; [done|].
  destruct k as [sl st l r| | | |sl bs b| | | |]; try (injection H as <- <-; split; [done | by apply tails_kept_leaf]).
  - apply bind_Done_inv in H as ([src1 r1] & H1 & H). apply bind_Done_inv in H as ([src2 l1] & H2 & H). injection H as <- <-.
    assert (all_tails src1 /\ (runs_in_place st (spine_head l) = true -> tail_marked r -> tail_marked r1)) as [Ha1 Hr].
    { cbn [spine_head] in H1. destruct (runs_in_place st (spine_head l)).
      - destruct (IH _ _ _ Ha _ _ H1) as (? & _ & _ & ? & _). by split.
      - split; [|done]. by eapply lift_if_complex_tails. }
    destruct (IH _ _ _ Ha1 _ _ H2) as (Ha2 & Hl). split; [done|]. by apply app_tails_kept.
  - apply bind_Done_inv in H as ([src1 bs1] & H1 & H). apply bind_Done_inv in H as ([src2 b1] & H2 & H). injection H as <- <-.
    apply nonstrict_values_tails in H1 as Ha1; [|done..]. destruct (IH _ _ _ Ha1 _ _ H2) as (Ha2 & _ & _ & Hb & _).
    split; [done|]. by split_and!.
Qed.

Lemma nonstrict_all_tails fuel ps : forall src src', all_tails src -> (forall p, p ∈ ps -> p ∈ src_scombs src) ->
  (forall src1 p src2, nonstrict_lift fuel src1 p = Done src2 -> forall q, q ∈ src_scombs src1 -> q ∈ src_scombs src2) ->
  nonstrict_all fuel src ps = Done src' -> all_tails src'.
Proof.
  induction ps as [|p ps IH]; intros src src' Ha Hp Hk H; cbn [nonstrict_all] in H; [by simplify_eq|].
  apply bind_Done_inv in H as (src1 & H1 & H). eapply IH; [| |exact Hk|exact H].
  - eapply nonstrict_with_tails; [by apply nonstrict_tails | exact Ha | apply Hp; by left | exact H1].
  - intros q Hq. eapply Hk; [exact H1|]. apply Hp. by right.
Qed.

(** The analysis leaves every body marked. *)
Lemma check_all_tails fuel ps : forall src ch src' ch' (D : nat -> Prop),
  (forall q sc b, D q -> src_heap src !! q = Some sc -> sc_body sc = Some b -> tail_marked b) ->
  check_all fuel src ps ch = Done (src', ch') ->
  forall q sc b, D q \/ q ∈ ps -> src_heap src' !! q = Some sc -> sc_body sc = Some b -> tail_marked b.
Proof.
  induction ps as [|p ps IH]; intros src ch src' ch' D HD H q sc b Hq Hs Hb; cbn [check_all] in H.
  { simplify_eq. destruct Hq as [Hq|Hq]; [by eapply HD | by apply not_elem_of_nil in Hq]. }
  apply bind_Done_inv in H as ([src1 ch1] & H1 & H). rewrite elem_of_cons in Hq.
  apply (IH _ _ _ _ (fun q => D q \/ q = p)) with (q := q) (sc := sc) (b := b) in H; [done | |tauto | done..]. clear Hs Hb Hq q sc b.
  unfold check_strictness in H1. apply bind_Done_inv in H1 as (sc0 & _ & H1). apply bind_Done_inv in H1 as (body & _ & H1).
  apply bind_Done_inv in H1 as ([[body' used] ch2] & Hc & H1). apply bind_Done_inv in H1 as (old & _ & H1). apply bind_Done_inv in H1 as (_ & _ & H1).
  injection H1 as <- _. apply check_spine_tail in Hc as [_ Ht]. intros r rc b0 Hr Hs Hb. cbn in Hs. rewrite list_lookup_alter in Hs.
  case_decide as Hd; [|destruct Hr as [Hr|Hr]; [by eapply HD | congruence]].
  apply fmap_Some in Hs as (sc1 & _ & ->). cbn in Hb. by injection Hb as <-.
Qed.

(** ** What the passes do not touch *)

(** Every supercombinator knows its place in the array. *)
Definition indexed (src : source) : Prop := forall i p sc, src_scombs src !! i = Some p -> src_heap src !! p = Some sc -> sc_index sc = i.
(** Tables of strict arguments have one entry for each. *)
Definition flags_fit (src : source) : Prop := forall p sc st, p ∈ src_scombs src -> src_heap src !! p = Some sc ->
  sc_strictin sc = Some st -> length st = sc_nargs sc.

Lemma indexed_upd src p f : (forall sc, sc_index (f sc) = sc_index sc) -> indexed src -> indexed (upd src p f).
Proof.
  intros Hf H i q sc Hi Hs. cbn in Hs. rewrite list_lookup_alter in Hs. case_decide; [|by eapply H].
  apply fmap_Some in Hs as (sc0 & Hs & ->). rewrite Hf. eapply H; [exact Hi|]. by subst.
Qed.

Lemma flags_fit_upd src p f : (forall sc st, sc_strictin (f sc) = Some st ->
    sc_strictin sc = Some st /\ sc_nargs (f sc) = sc_nargs sc \/ length st = sc_nargs (f sc)) -> flags_fit src -> flags_fit (upd src p f).
Proof.
  intros Hf H q sc st Hq Hs Hst. cbn in Hs. rewrite list_lookup_alter in Hs. case_decide; [|by eapply H].
  apply fmap_Some in Hs as (sc0 & Hs & ->). destruct (Hf _ _ Hst) as [[H1 H2]|?]; [|done]. rewrite H2. subst q. by eapply H.
Qed.

Lemma lookup_snoc_inv {A} (l : list A) x i y : (l ++ [x]) !! i = Some y -> l !! i = Some y \/ (i = length l /\ y = x).
Proof. intros [H|[Hl H]]%lookup_app_Some; [by left|]. right. destruct (i - length l) eqn:E; [|done]. split; [lia | by injection H]. Qed.

Lemma lift_expr_indexed src name k src1 p k1 : (forall q, q ∈ src_scombs src -> q < length (src_heap src)) ->
  lift_expr src name k = Done (src1, p, k1) -> indexed src -> indexed src1.
Proof.
  intros Hv H Hi. unfold lift_expr, add_scomb in H. outcome_inv. destruct v as [src0 p0]. outcome_inv. simplify_eq.
  apply indexed_upd; [done|]. intros i q sc Hq Hs. cbn in Hq, Hs. apply lookup_snoc_inv in Hq as [Hq|[-> ->]].
  - rewrite lookup_app_l in Hs; [by eapply Hi|]. eapply Hv, list_elem_of_lookup_2, Hq.
  - rewrite lookup_app_r, Nat.sub_diag in Hs by lia. by injection Hs as <-.
Qed.

Lemma lift_expr_flags src name k src1 p k1 : lift_expr src name k = Done (src1, p, k1) -> flags_fit src -> flags_fit src1.
Proof.
  intros H Hf. pose proof (lift_expr_new _ _ _ _ _ _ H) as [Hn Hs]. intros q sc st Hq Hh Hst.
  rewrite Hs, elem_of_app in Hq. destruct (decide (q = p)) as [->|Hd].
  - exfalso. unfold lift_expr, add_scomb in H. outcome_inv. destruct v as [src0 p0]. outcome_inv. simplify_eq. cbn in Hh.
    rewrite list_lookup_alter_eq in Hh. apply fmap_Some in Hh as (sc0 & Hh & ->). cbn in Hst.
    rewrite lookup_app_r, Nat.sub_diag in Hh by lia. injection Hh as <-. done.
  - apply (Hf q); [|by apply Hn | done]. destruct Hq as [Hq|Hq%list_elem_of_singleton]; done.
Qed.

(** What holds of the table through [applift] and [nonstrict_lift]. *)
Section invariant.
Context (I : source -> Prop).
Hypothesis Hlift : forall src name k src1 p k1, lift_expr src name k = Done (src1, p, k1) -> I src -> I src1.
Hypothesis Hbody : forall src p b, I src -> I (upd src p (set_body b)).

Definition keeps {A} (src : source) (r : outcome (source * A)) : Prop := forall src' a, r = Done (src', a) -> I src -> I src'.

Section applift_step.
Context (rec_ : source -> bool -> string -> snode -> outcome (source * snode)).
Hypothesis Hrec : forall src b name k, keeps src (rec_ src b name k).

Lemma applift_args_keeps name c : forall src, keeps src (applift_args rec_ src name c).
Proof using Hrec.
  induction c; intros src src' a H Hi; cbn [applift_args] in H; try (by injection H as <- _).
  apply bind_Done_inv in H as ([src1 r1] & H1 & H). apply bind_Done_inv in H as ([src2 l1] & H2 & H). injection H as <- _.
  eapply IHc1; [exact H2|]. by eapply Hrec.
Qed.

Lemma applift_values_keeps name bs : forall src, keeps src (applift_values rec_ src name bs).
Proof using Hrec.
  induction bs as [|rec bs IH]; intros src src' a H Hi; cbn [applift_values] in H; [by injection H as <- _|].
  apply bind_Done_inv in H as ([src1 v] & H1 & H). apply bind_Done_inv in H as ([src2 bs2] & H2 & H). injection H as <- _.
  eapply IH; [exact H2|]. by eapply Hrec.
Qed.

Lemma applift_with_keeps src p src' : applift_with rec_ src p = Done src' -> I src -> I src'.
Proof using Hrec Hbody.
  intros H Hi. unfold applift_with in H. apply bind_Done_inv in H as (sc & _ & H). apply bind_Done_inv in H as (body & _ & H).
  apply bind_Done_inv in H as ([src1 b1] & H1 & H). injection H as <-. apply Hbody. by eapply Hrec.
Qed.
End applift_step.

Lemma applift_r_keeps fuel : forall src isroot name k, keeps src (applift_r fuel src isroot name k).
Proof using Hlift Hbody.
  induction fuel as [|fuel IH]; intros src isroot name k src' a H Hi; cbn [applift_r] in H; [done|].
  destruct k as [sl st l r| | | |sl bs b| | | |]; try (by injection H as <- _).
  - assert (forall h, (lift ← must_lift src h (count_args (SNODE_APPLICATION sl st l r));
        if lift : bool then
          if isroot then applift_args (applift_r fuel) src name (SNODE_APPLICATION sl st l r)
          else '(src, p, k) ← lift_expr src name (SNODE_APPLICATION sl st l r);
               src ← applift_with (applift_r fuel) src p; Done (src, k)
        else '(src, l) ← applift_r fuel src false name l; '(src, r) ← applift_r fuel src false name r;
             Done (src, SNODE_APPLICATION sl st l r)) = Done (src', a) -> I src') as Hcase.
    { clear H. intros h H. apply bind_Done_inv in H as (lift & _ & H). destruct lift; [destruct isroot|].
      - by eapply applift_args_keeps.
      - apply bind_Done_inv in H as ([[src1 p] k1] & H1 & H). apply bind_Done_inv in H as (src2 & H2 & H). injection H as <- _.
        eapply applift_with_keeps; [exact IH | exact H2 | by eapply Hlift].
      - apply bind_Done_inv in H as ([src1 l1] & H1 & H). apply bind_Done_inv in H as ([src2 r1] & H2 & H). injection H as <- _.
        eapply IH; [exact H2|]. by eapply IH. }
    destruct (spine_head (SNODE_APPLICATION sl st l r)); try (by eapply Hcase). by eapply IH.
  - apply bind_Done_inv in H as ([src1 bs1] & H1 & H). apply bind_Done_inv in H as ([src2 b1] & H2 & H). injection H as <- _.
    eapply IH; [exact H2|]. by eapply applift_values_keeps.
Qed.

Lemma applift_all_keeps fuel ps : forall src src', applift_all fuel src ps = Done src' -> I src -> I src'.
Proof using Hlift Hbody.
  induction ps as [|p ps IH]; intros src src' H Hi; cbn [applift_all] in H; [by simplify_eq|].
  apply bind_Done_inv in H as (src1 & H1 & H). eapply IH; [exact H|]. eapply applift_with_keeps; [apply applift_r_keeps | exact H1 | done].
Qed.

(** Non-strict lifting changes other fields of what it makes, too. *)
Hypothesis Hupd : forall src p f, (forall sc, sc_index (f sc) = sc_index sc /\ sc_name (f sc) = sc_name sc) -> I src -> I (upd src p f).

Lemma check_strictness_keeps fuel src p ch src' ch' : check_strictness fuel src p ch = Done (src', ch') -> I src -> I src'.
Proof using Hupd.
  intros H Hi. unfold check_strictness in H. apply bind_Done_inv in H as (sc & _ & H). apply bind_Done_inv in H as (body & _ & H).
  apply bind_Done_inv in H as ([[body' used] ch1] & _ & H). apply bind_Done_inv in H as (old & _ & H). apply bind_Done_inv in H as (_ & _ & H).
  injection H as <- _. by apply Hupd.
Qed.

Section nonstrict_step.
Context (fuel : nat) (rec_ : source -> string -> snode -> outcome (source * snode)).
Hypothesis Hrec : forall src name k, keeps src (rec_ src name k).

Lemma nonstrict_with_keeps src p src' : nonstrict_with rec_ src p = Done src' -> I src -> I src'.
Proof using Hrec Hbody.
  intros H Hi. unfold nonstrict_with in H. apply bind_Done_inv in H as (sc & _ & H). apply bind_Done_inv in H as (body & _ & H).
  apply bind_Done_inv in H as ([src1 b1] & H1 & H). injection H as <-. apply Hbody. by eapply Hrec.
Qed.

Lemma lift_if_complex_keeps src name k : keeps src (lift_if_complex fuel rec_ src name k).
Proof using Hrec Hbody Hlift Hupd.
  intros src' a H Hi. unfold lift_if_complex in H. destruct (0 <? nappargs k); [|by injection H as <- _].
  destruct (is_cons_call k); [by eapply Hrec|]. apply bind_Done_inv in H as ([[src1 p] k1] & H1 & H).
  apply bind_Done_inv in H as ([src3 ch] & H3 & H). apply bind_Done_inv in H as (src5 & H5 & H). injection H as <- _.
  eapply nonstrict_with_keeps; [exact H5|]. apply Hupd; [done|]. eapply check_strictness_keeps; [exact H3|].
  apply Hupd; [done|]. by eapply Hlift.
Qed.

Lemma nonstrict_values_keeps name bs : forall src, keeps src (nonstrict_values rec_ src name bs).
Proof using Hrec.
  induction bs as [|rec bs IH]; intros src src' a H Hi; cbn [nonstrict_values] in H; [by injection H as <- _|].
  apply bind_Done_inv in H as ([src1 v] & H1 & H). apply bind_Done_inv in H as ([src2 bs2] & H2 & H). injection H as <- _.
  eapply IH; [exact H2|]. by eapply Hrec.
Qed.
End nonstrict_step.

Lemma nonstrict_r_keeps fuel : forall src name k, keeps src (nonstrict_lift_r fuel src name k).
Proof using Hlift Hbody Hupd.
  induction fuel as [|fuel IH]; intros src name k src' a H Hi; cbn [nonstrict_lift_r] in H; [done|].
  destruct k as [sl st l r| | | |sl bs b| | | |]; try (by injection H as <- _).
  - apply bind_Done_inv in H as ([src1 r1] & H1 & H). apply bind_Done_inv in H as ([src2 l1] & H2 & H). injection H as <- _.
    eapply IH; [exact H2|]. destruct (runs_in_place _ _); [by eapply IH | by eapply lift_if_complex_keeps].
  - apply bind_Done_inv in H as ([src1 bs1] & H1 & H). apply bind_Done_inv in H as ([src2 b1] & H2 & H). injection H as <- _.
    eapply IH; [exact H2|]. by eapply nonstrict_values_keeps.
Qed.

Lemma nonstrict_all_keeps fuel ps : forall src src', nonstrict_all fuel src ps = Done src' -> I src -> I src'.
Proof using Hlift Hbody Hupd.
  induction ps as [|p ps IH]; intros src src' H Hi; cbn [nonstrict_all] in H; [by simplify_eq|].
  apply bind_Done_inv in H as (src1 & H1 & H). eapply IH; [exact H|]. eapply nonstrict_with_keeps; [apply nonstrict_r_keeps | exact H1 | done].
Qed.

Lemma check_all_keeps fuel ps : forall src ch src' ch', check_all fuel src ps ch = Done (src', ch') -> I src -> I src'.
Proof using Hupd.
  induction ps as [|p ps IH]; intros src ch src' ch' H Hi; cbn [check_all] in H; [by simplify_eq|].
  apply bind_Done_inv in H as ([s2 c2] & H2 & H). eapply IH; [exact H|]. by eapply check_strictness_keeps.
Qed.

Lemma strictness_keeps rounds fuel src src' : strictness_analysis rounds fuel src = Done src' -> I src -> I src'.
Proof using Hupd.
  intros H Hi. unfold strictness_analysis in H. assert (I (init_all src)) as Hi0.
  { unfold init_all. revert src Hi H. intros src Hi _. generalize (src_scombs src) as ps. intros ps. revert src Hi.
    induction ps as [|p ps IH]; intros src Hi; [done|]. apply IH, Hupd; [|done]. intros sc. unfold init_strictin. by destruct (sc_strictin sc). }
  revert H Hi0. generalize (init_all src) as s0. clear Hi src. induction rounds as [|rounds IH]; intros s0 H Hi; cbn [strictness_loop] in H; [done|].
  apply bind_Done_inv in H as ([s1 ch] & H1 & H). apply check_all_keeps in H1; [|done].
  destruct ch; [by eapply IH | by simplify_eq].
Qed.
End invariant.

(** ** The form scheme R needs *)

(** What the passes cannot establish: no constant is in function position, and
    literals that become part of an instruction fit an [int]. *)
Definition is_constant (h : snode) : bool :=
  match h with SNODE_NIL _ | SNODE_NUMBER _ _ | SNODE_STRING _ _ => true | _ => false end.
Definition fits_int (num : Z) : bool := match int_of_double num with Done _ => true | _ => false end.
Definition literals_fit (src : source) (c : snode) : bool :=
  match eq_literal c with Some (_, num) => fits_int num | None => true end &&
  match item_literal src c with Done (Some (num, _)) => fits_int num | _ => true end.
Fixpoint sensible (src : source) (c : snode) : bool :=
  match c with
  | SNODE_APPLICATION _ _ l r =>
      negb (is_constant (spine_head l)) && literals_fit src c && sensible src l && sensible src r
  | SNODE_LETREC _ bs b => forallb (fun rec => sensible src (lr_value rec)) bs && sensible src b
  | _ => true
  end.

Section rbody.
Context (src : source).

Lemma fits_int_ok num : fits_int num = true -> exists v, int_of_double num = Done v.
Proof. unfold fits_int. destruct (int_of_double num); [eauto | done..]. Qed.

Lemma literals_ok c : literals_fit src c = true -> literal_ok src c.
Proof.
  unfold literals_fit. intros [H1 H2]%andb_true_iff. split.
  - intros x num E. rewrite E in H1. by apply fits_int_ok.
  - intros num l E. rewrite E in H2. by apply fits_int_ok.
Qed.

Lemma fits_fun_ok h m : is_constant h = false -> fits src h m -> fun_ok src h m.
Proof. by destruct h. Qed.

Lemma flat_shape c : flat src c -> sensible src c = true -> shape src c.
Proof.
  snode_induction c; cbn [flat shape sensible]; try done.
  - intros (H1 & H2 & H3) [[[Hc Hl]%andb_true_iff H4]%andb_true_iff H5]%andb_true_iff. apply negb_true_iff in Hc.
    split_and!; [by apply fits_fun_ok | by apply literals_ok | auto..].
  - intros [Hv Hb] [Hsv Hsb]%andb_true_iff. split; [|auto]. rewrite Forall_id_map in Hv |- *. rewrite forallb_forall in Hsv.
    rewrite Forall_forall in IHbs. intros rec Hr. apply IHbs; auto. by apply Hsv, list_elem_of_In.
Qed.

(** The arguments of a call whose arguments are flat. *)
Lemma spine_args_good pm n c : Forall (flat src) (spine_args c) -> sensible src c = true -> scoped pm n c -> fresh_binders pm c ->
  Forall (fun a => good src pm n a.1) (spine_strict c).
Proof.
  induction c as [sl st l IHl r _| | | | | | | |]; intros Hf Hs Hsc Hb; cbn; try constructor.
  - cbn in Hf, Hs. apply Forall_cons in Hf as [Hf _]. rewrite !andb_true_iff in Hs. destruct Hs as [_ Hs]. split_and!; [by apply flat_shape | |].
    + intros x Hx. apply Hsc. cbn. tauto.
    + destruct Hb as [Hb1 Hb2]. cbn [binders] in *. apply list.NoDup_app in Hb1 as (_ & _ & ?). split; [done|]. intros x Hx. apply Hb2.
      rewrite elem_of_app. tauto.
  - cbn in Hf, Hs. apply Forall_cons in Hf as [_ Hf]. rewrite !andb_true_iff in Hs. apply IHl; [done | tauto | |].
    + intros x Hx. apply Hsc. cbn. tauto.
    + destruct Hb as [Hb1 Hb2]. cbn [binders] in *. apply list.NoDup_app in Hb1 as (? & _ & _). split; [done|]. intros x Hx. apply Hb2.
      rewrite elem_of_app. tauto.
Qed.

Lemma flat_args c : flat src c -> Forall (flat src) (spine_args c).
Proof. induction c as [sl st l IHl r _| | | | | | | |]; cbn; try constructor; [tauto | apply IHl; tauto]. Qed.

Lemma item_ok c : sensible src c = true -> forall num l, item_literal src c = Done (Some (num, l)) -> exists v, int_of_double num = Done v.
Proof.
  intros Hs num l E. destruct c as [sl st a b| | | | | | | |]; try done. cbn [sensible] in Hs. rewrite !andb_true_iff in Hs.
  destruct Hs as [[[_ Hl] _] _]. apply literals_ok in Hl as [_ Hl]. by eapply Hl.
Qed.

Definition part (c : snode) (pm : pmap) (k : nat) : Prop :=
  flat src c /\ sensible src c = true /\ scoped pm k c /\ fresh_binders pm c /\ tail_marked c.

Lemma part_good c pm k : part c pm k -> good src pm k c.
Proof. intros (Hf & Hs & Hsc & Hb & _). split_and!; [by apply flat_shape | done | apply Hb..]. Qed.

Lemma good_part c pm k : good src pm k c -> flat src c -> sensible src c = true -> tail_marked c -> part c pm k.
Proof. intros (_ & H1 & H2) H3 H4 H5. by split_and!. Qed.

(** A call of a known function, with the arguments it has. *)
Lemma call_rbody c pm k : (forall e, snode_size e < snode_size c -> forall pm k, part e pm k -> rbody src pm k e) ->
  0 < count_args c -> fun_ok src (spine_head c) 0 -> Forall (flat src) (spine_args c) -> sensible src c = true -> scoped pm k c ->
  fresh_binders pm c -> tail_marked c -> rbody src pm k c.
Proof.
  intros IH Hn Hfun Hf Hs Hsc Hb Ht. pose proof (spine_args_good pm k c Hf Hs Hsc Hb) as Hg. pose proof (item_ok c Hs) as Hi.
  destruct (as_if c) as [[[cond t] f]|] eqn:Eif.
  - apply as_if_parts in Eif as (sl1 & st1 & sl2 & st2 & sl3 & st3 & sl4 & ->). cbn in Hg, Hf.
    rewrite !Forall_cons in Hg. rewrite !Forall_cons in Hf. destruct Hg as (G1 & G2 & G3 & _), Hf as (F1 & F2 & F3 & _). cbn [fst] in *.
    cbn [sensible] in Hs. rewrite !andb_true_iff in Hs. destruct Hs as [[_ [[_ Hs2] Hs1]] Hs0].
    cbn [tail_marked] in Ht. destruct Ht as (_ & Ht & _). destruct Ht as [Ht1 Ht2]; [done | done|].
    apply rb_if; [done | |]; (apply IH; [cbn; lia | by apply good_part]).
  - destruct (as_seq c) as [[e1 e2]|] eqn:Eseq.
    + apply as_seq_parts in Eseq as (sl1 & st1 & sl2 & st2 & sl3 & ->). cbn in Hg, Hf.
      rewrite !Forall_cons in Hg. rewrite !Forall_cons in Hf. destruct Hg as (G1 & G2 & _), Hf as (F1 & F2 & _). cbn [fst] in *.
      cbn [sensible] in Hs. rewrite !andb_true_iff in Hs. destruct Hs as [_ Hs0].
      cbn [tail_marked] in Ht. destruct Ht as (_ & _ & Ht). specialize (Ht eq_refl eq_refl).
      apply rb_seq; [done|]. apply IH; [cbn; lia | by apply good_part].
    + destruct (spine_head c) as [| |sl bif| | |sl p| | |] eqn:Eh; try done.
      * destruct Hfun as (b & Hbi & _). destruct (decide (count_args c = bi_nargs b)) as [Ec|Ec].
        -- eapply rb_builtin; [by split | exact Eh | exact Hbi | done..|]. destruct c; try (cbn in Hn; lia). by eapply (proj1 Ht).
        -- apply rb_function; [by split | rewrite Eh; exists b; split; [done | lia] | | done]. intros ? ? b' E Hb'. rewrite Eh in E. injection E as <- <-. by simplify_eq.
      * apply rb_function; [by split | by rewrite Eh | | done]. intros ? ? b' E. by rewrite Eh in E.
Qed.

Lemma flat_rbody n : forall c pm k, snode_size c < n -> part c pm k -> rbody src pm k c.
Proof.
  induction n as [|n IH]; intros c pm k Hn Hp; [lia|]. pose proof (part_good _ _ _ Hp) as Hg. destruct Hp as (Hf & Hs & Hsc & Hb & Ht).
  destruct c as [sl st l r|sl x b|sl bif|sl x|sl bs b|sl p|sl|sl num|sl s]; try done; try (by apply rb_leaf).
  - apply call_rbody; try done; [intros; apply IH; [lia | done] | cbn; lia | | by apply flat_args].
    destruct Hf as (Hf & _ & _). cbn [sensible] in Hs. rewrite !andb_true_iff, negb_true_iff in Hs. destruct Hs as [[[Hs _] _] _].
    apply fits_fun_ok in Hf; [|done]. by eapply fun_ok_le; [|exact Hf]; lia.
  - destruct (good_letrec _ _ _ _ _ _ Hg) as (H1 & H2 & H3 & H4 & H5). apply rb_letrec; try done.
    apply IH; [cbn in Hn; lia|]. cbn [sensible] in Hs. apply andb_true_iff in Hs as [_ Hs]. apply good_part; [done | by destruct Hf | done | done].
Qed.

Lemma flat_body_rbody c pm k : flat_body src c -> sensible src c = true -> scoped pm k c -> fresh_binders pm c -> tail_marked c -> rbody src pm k c.
Proof.
  intros [Hf|(Hn & Hh & Hf)] Hs Hsc Hb Ht; [by apply (flat_rbody (S (snode_size c))); [lia|]|].
  destruct (spine_head c) as [| | |sl x| | | | |] eqn:Eh; try done; try (apply call_rbody; [intros e _ pm1 k1 He; apply (flat_rbody (S (snode_size e))); [lia | done] | done | by rewrite Eh | done..]).
  eapply rb_variable; [split; [done | by apply spine_args_good] | exact Eh |]. split_and!; [done | | split; [constructor | cbn; in_nil]].
  intros y Hy. apply Hsc. apply free_in_spine. left. by rewrite Eh.
Qed.
End rbody.

(** ** The passes one after the other *)

(** A supercombinator after lambda lifting. *)
Definition lifted (src : source) (p : nat) : Prop :=
  exists sc body, src_heap src !! p = Some sc /\ sc_body sc = Some body /\ AppliftFacts.plain src body /\
    (forall x, free_in x body -> x ∈ sc_argnames sc) /\ NoDup (sc_argnames sc ++ binders body).

(** What is left to check of the finished program: constants do not call each
    other in a circle, literals, names and source locations are in range, and
    there is a [__start]. *)
Definition admissible_scomb (allowed : nat -> bool) (mkfuel : nat) (src : source) (p : nat) : bool :=
  match src_heap src !! p with
  | Some sc =>
      match sc_body sc with
      | Some body =>
          sensible src body && tame src allowed (source_files src) body && place_in (source_files src) (sc_sl sc) &&
          (negb (String.eqb (sc_name sc) "item") || Nat.eqb (sc_nargs sc) 2) && const_ends mkfuel src p &&
          match real_scname src (sc_name sc) with Done _ => true | _ => false end
      | None => false
      end
  | None => false
  end.
Definition admissible (allowed : nat -> bool) (mkfuel : nat) (src : source) : bool :=
  (0 <? mkfuel) && forallb (admissible_scomb allowed mkfuel src) (src_scombs src) &&
  match get_scomb src "__start" with
  | Some p => match src_heap src !! p with Some sc => Nat.eqb (sc_nargs sc) 1 | None => false end
  | None => false
  end.

Lemma size_le_tree src p sc body : p ∈ src_scombs src -> src_heap src !! p = Some sc -> sc_body sc = Some body ->
  snode_size body <= tree_size src.
Proof.
  intros Hp Hs Hb. unfold tree_size. induction Hp as [|q p l Hp IH]; cbn; [|specialize (IH Hs); lia].
  rewrite Hs. cbn. rewrite Hb. cbn. lia.
Qed.

Lemma lifted_liftable src p : p ∈ src_scombs src -> lifted src p -> liftable (2 * tree_size src) src p.
Proof.
  intros Hp (sc & body & H1 & H2 & H3 & H4 & H5). exists sc, body. split_and!; try done.
  pose proof (size_le_tree _ _ _ _ Hp H1 H2). lia.
Qed.

Lemma flat_body_plain src c : flat_body src c -> AppliftFacts.plain src c.
Proof.
  intros [H|(_ & H1 & H2)]; [by apply flat_plain|]. induction c as [sl st l IHl r _| | | | | | | |]; try done.
  cbn in H1, H2. apply Forall_cons in H2 as [H2 H3]. split; [|by apply flat_plain]. auto.
Qed.

Lemma spine_args_erase_flat src c : Forall (flat src) (spine_args (erase c)) <-> Forall (flat src) (spine_args c).
Proof. rewrite spine_args_erase, Forall_map. split; intros H; (eapply Forall_impl; [exact H|]; intros a; by rewrite flat_erase). Qed.

Lemma flat_body_erase src c : flat_body src (erase c) <-> flat_body src c.
Proof.
  unfold flat_body. rewrite flat_erase, count_args_erase, spine_head_erase, spine_args_erase_flat.
  assert (root_head src (erase (spine_head c)) <-> root_head src (spine_head c)) as ->; [|done].
  destruct (spine_head c); try done.
Qed.

(** Pointers in the array lead to supercombinators. *)
Definition valid (src : source) : Prop := forall q, q ∈ src_scombs src -> q < length (src_heap src).

Lemma valid_upd src p f : valid src -> valid (upd src p f).
Proof. intros H q Hq. cbn. rewrite length_alter. by apply H. Qed.

Lemma lift_expr_valid src name k src1 p k1 : lift_expr src name k = Done (src1, p, k1) -> valid src -> valid src1.
Proof.
  intros H Hv. unfold lift_expr, add_scomb in H. outcome_inv. destruct v as [src0 p0]. outcome_inv. simplify_eq.
  apply valid_upd. intros q Hq. cbn in Hq |- *. rewrite length_app. cbn. apply elem_of_app in Hq as [Hq|Hq%list_elem_of_singleton]; [apply Hv in Hq|]; lia.
Qed.

Definition table_ok (src : source) : Prop := valid src /\ indexed src.

Lemma lift_expr_table src name k src1 p k1 : lift_expr src name k = Done (src1, p, k1) -> table_ok src -> table_ok src1.
Proof. intros H [Hv Hi]. split; [by eapply lift_expr_valid | by eapply lift_expr_indexed]. Qed.

Lemma table_upd src p f : (forall sc, sc_index (f sc) = sc_index sc) -> table_ok src -> table_ok (upd src p f).
Proof. intros Hf [Hv Hi]. split; [by apply valid_upd | by apply indexed_upd]. Qed.

Lemma flags_body src p b : flags_fit src -> flags_fit (upd src p (set_body b)).
Proof. intros H. apply flags_fit_upd; [|done]. intros sc st E. by left. Qed.


(** *** Arguments as places on the stack *)

Lemma presolve_names (f : nat -> Z) names x : forall k, x ∈ names ->
  exists i, i < length names /\ presolve (imap (fun i n => (n, f (k + i))) names) x = Done (f (k + i)).
Proof.
  induction names as [|y names IH]; intros k Hx; [by apply not_elem_of_nil in Hx|]. cbn [imap presolve].
  destruct (String.eqb_spec y x) as [->|Hd]; [exists 0; split; [cbn; lia | done]|].
  apply elem_of_cons in Hx as [Hx|Hx]; [congruence|]. destruct (IH (S k) Hx) as (i & Hi & E). exists (S i). split; [cbn; lia|].
  rewrite <- Nat.add_succ_comm, <- E. f_equal. apply imap_ext. intros j n _. cbn. do 2 f_equal. lia.
Qed.

Lemma scoped_args names c : (forall x, free_in x c -> x ∈ names) -> scoped (arg_pmap names) (length names) c.
Proof.
  intros H x Hx. unfold arg_pmap. destruct (presolve_names (fun i => Z.of_nat (length names) - Z.of_nat i)%Z names x 0 (H x Hx)) as (i & Hi & E).
  exists (Z.of_nat (length names) - Z.of_nat (0 + i))%Z. split; [exact E | lia].
Qed.

Lemma arg_pmap_fst names : map fst (arg_pmap names) = names.
Proof.
  unfold arg_pmap. generalize (Z.of_nat (length names)) as z. intros z. change (fst <$> imap (fun i n => (n, (z - Z.of_nat i)%Z)) names = names).
  rewrite fmap_imap. transitivity (imap (fun _ n => n) names); [by apply imap_ext|]. clear z. induction names as [|n names IH]; [done|].
  cbn [imap]. f_equal. rewrite <- IH at 2. by apply imap_ext.
Qed.

Lemma fresh_args names c : NoDup (names ++ binders c) -> fresh_binders (arg_pmap names) c.
Proof. intros (_ & H1 & H2)%list.NoDup_app. split; [done|]. intros x Hx Hn. rewrite arg_pmap_fst in Hn. by eapply H1. Qed.

Lemma flat_screfs src c : flat src c -> forall q, q ∈ screfs c -> q ∈ src_scombs src.
Proof.
  snode_induction c; cbn [flat screfs]; try (intros _; in_nil); try done.
  - intros (_ & H1 & H2) q. rewrite elem_of_app. naive_solver.
  - intros [Hv Hb] q Hin. apply (screfs_letrec q sl) in Hin as [(v & (rec & -> & Hr)%elem_of_map & Hq)|Hq]; [|auto].
    rewrite Forall_id_map in Hv. rewrite Forall_forall in IHbs. eapply IHbs; eauto.
  - intros (Hp & _) q ->%list_elem_of_singleton. done.
Qed.

Lemma flat_body_screfs src c : flat_body src c -> forall q, q ∈ screfs c -> q ∈ src_scombs src.
Proof.
  intros [H|(_ & Hh & Ha)]; [by apply flat_screfs|]. induction c as [sl st l IHl r _| | | | | | | |]; cbn in *; try done; try (in_nil; fail).
  - apply Forall_cons in Ha as [Hr Ha]. intros q. rewrite elem_of_app. intros [Hq|Hq]; [by apply IHl | by eapply flat_screfs].
  - intros q ->%list_elem_of_singleton. by destruct Hh.
Qed.

(** *** The pipeline *)

Lemma reordered_table src src' : src_scombs src' = src_scombs src ->
  (forall p, p ∈ src_scombs src' -> exists sc sc', src_heap src !! p = Some sc /\ src_heap src' !! p = Some sc' /\ reordered_sc sc sc') ->
  indexed src /\ flags_fit src -> indexed src' /\ flags_fit src'.
Proof.
  intros Es H [Hi Hf]. split.
  - intros i p sc' Hp Hs. destruct (H p) as (sc & sc1 & H1 & H2 & (b & b' & _ & -> & _)); [by eapply list_elem_of_lookup_2|].
    rewrite Hs in H2. injection H2 as ->. eapply (Hi i p sc); [by rewrite <- Es | done].
  - intros p sc' st Hp Hs Hst. destruct (H p Hp) as (sc & sc1 & H1 & H2 & (b & b' & _ & -> & _)).
    rewrite Hs in H2. injection H2 as ->. eapply (Hf p sc); [by rewrite <- Es | done | done].
Qed.

(** What a source is after application lifting and reordering. *)
Record shaped (src : source) : Prop := {
  sh_wf : wf_source src;
  sh_prepared : forall p, p ∈ src_scombs src -> prepared src p;
  sh_indexed : indexed src;
  sh_flags : flags_fit src
}.

Lemma wf_lt src : wf_source src -> valid src.
Proof. intros H q Hq. by apply lookup_lt_is_Some, wf_valid. Qed.

Lemma same_sigs_trans a b c : same_sigs a b -> same_sigs b c -> same_sigs a c.
Proof.
  intros H1 H2 q s Hq Hs. destruct (H1 q s Hq Hs) as (Hq1 & s1 & Hs1 & E1). destruct (H2 q s1 Hq1 Hs1) as (? & s2 & ? & ?).
  split; [done|]. exists s2. split; [done | congruence].
Qed.

Lemma lifting_reordering src : wf_source src -> indexed src -> flags_fit src -> (forall p, p ∈ src_scombs src -> lifted src p) ->
  exists src1 src2, applift_all (2 * tree_size src) src (src_scombs src) = Done src1 /\ wf_source src1 /\
    reorder_all (S (tree_size src1)) src1 (src_scombs src1) = Done src2 /\ shaped src2 /\ same_sigs src src2.
Proof.
  intros Hwf Hi Hf Hl. destruct (applift_all_ok (2 * tree_size src) (src_scombs src) src) as (src1 & H1 & Hwf1 & Hs1 & Hp1);
    [done | by apply wf_nodup | intros p Hp; split; [done | by apply lifted_liftable; auto] | done|].
  assert (table_ok src1) as [_ Hi1].
  { eapply (applift_all_keeps table_ok); [apply lift_expr_table | intros; by apply table_upd | exact H1 | by split; [apply wf_lt|]]. }
  assert (flags_fit src1) as Hf1.
  { eapply (applift_all_keeps flags_fit); [apply lift_expr_flags | intros; by apply flags_body | exact H1 | done]. }
  assert (forall p, p ∈ src_scombs src1 -> is_Some (src_heap src1 !! p)) as Hv by (intros p; by apply wf_valid).
  destruct (reorder_all_ok (S (tree_size src1)) (src_scombs src1) src1 Hwf1 (wf_nodup _ Hwf1)) as (src2 & H2 & HR).
  { intros p Hp. destruct (Hp1 p Hp) as (sc & body & Hs & Hb & _). exists sc, body. split_and!; [done | done | by eapply prepared_tidy; [apply Hp1| |] |].
    pose proof (size_le_tree _ _ _ _ Hp Hs Hb). lia. }
  pose proof (reorders_sigs _ _ _ Hv HR) as Hs2. pose proof (rp_scombs _ _ _ HR) as Es.
  destruct (reordered_table src1 src2) as [Hi2 Hf2]; [done | | done|].
  { intros p Hp. rewrite Es in Hp. destruct (Hv p Hp) as [sc Hsc]. destruct (rp_done _ _ _ HR p sc Hp Hsc) as (sc' & ? & ?). eauto. }
  exists src1, src2. split_and!; try done.
  - split; [apply HR | intros p Hp; rewrite Es in Hp; by eapply reorders_prepared; [|exact HR | apply Hp1] | done..].
  - by eapply same_sigs_trans.
Qed.

Lemma prepared_analysable src p : p ∈ src_scombs src -> flags_fit src -> prepared src p -> sc_ready_for_analysis (tree_size src) src p.
Proof.
  intros Hp Hf (sc & body & Hs & Hb & Hfl & _ & Hnd). apply list.NoDup_app in Hnd as (Hn1 & _ & Hn2).
  exists sc, body. split_and!; try done; [split; [by apply flat_body_plain | done] | by eapply size_le_tree | intros st Hst; by eapply Hf].
Qed.

Lemma code_scomb src src' p sc : code_of src' = code_of src -> src_heap src' !! p = Some sc ->
  exists sc0, src_heap src !! p = Some sc0 /\ sc_argnames sc0 = sc_argnames sc /\ erase <$> sc_body sc0 = erase <$> sc_body sc.
Proof.
  intros E H. pose proof (code_lookup src' p) as Hc. rewrite E, code_lookup, H in Hc.
  destruct (src_heap src !! p) as [sc0|]; [|done]. injection Hc as E1 E2. by exists sc0.
Qed.

Lemma prepared_code src src' p : src_scombs src' = src_scombs src -> code_of src' = code_of src -> p ∈ src_scombs src' ->
  prepared src p -> prepared src' p.
Proof.
  intros Es Ec Hp (sc0 & body0 & H0 & Hb0 & Hf & Hcl & Hnd).
  destruct (same_sigs_code _ _ Es Ec p sc0) as (_ & sc & Hs & _); [by rewrite <- Es | done|].
  destruct (code_scomb _ _ _ _ Ec Hs) as (sc1 & H1 & Ea & Eb). rewrite H0 in H1. injection H1 as <-. rewrite Hb0 in Eb.
  destruct (sc_body sc) as [body|] eqn:E; [|done]. cbn in Eb. injection Eb as Eb. exists sc, body. split_and!; [done | done | | |].
  - apply (flat_body_sigs src); [by apply same_sigs_code|]. rewrite <- flat_body_erase, <- Eb, flat_body_erase. done.
  - intros x Hx. rewrite <- Ea. apply Hcl. rewrite <- free_in_erase, Eb, free_in_erase. done.
  - rewrite <- Ea, <- binders_erase, <- Eb, binders_erase. done.
Qed.

(** What the strictness analysis leaves. *)
Record analysed (src : source) : Prop := {
  an_shaped : shaped src;
  an_ready : strict_ready src;
  an_tails : all_tails src
}.

Lemma ready_flags src : strict_ready src -> flags_fit src.
Proof. intros H p sc st Hp Hs Hst. destruct (H p Hp) as (sc' & st' & H1 & H2 & H3). by simplify_eq. Qed.

Lemma analysing src : shaped src -> exists src', strictness_analysis (S (prog_unset (init_all src))) (tree_size src) src = Done src' /\
  analysed src' /\ same_sigs src src'.
Proof.
  intros [Hwf Hp Hi Hf]. assert (forall p, p ∈ src_scombs src -> sc_ready_for_analysis (tree_size src) src p) as Hr.
  { intros p Hin. by apply prepared_analysable; [| |apply Hp]. }
  destruct (strictness_loop_ok (tree_size src) (S (prog_unset (init_all src))) (init_all src)) as (src' & ch & E & R & Hfix);
    [by apply init_analysable | lia|]. exists src'. split; [exact E|].
  assert (code_of src' = code_of src) as Ec by (rewrite (rf_code _ _ _ _ _ R); apply init_code).
  assert (src_scombs src' = src_scombs src) as Es by (rewrite (rf_scombs _ _ _ _ _ R); exact (proj2 (init_all_lookup src 0))).
  assert (strict_ready src') as Hr' by (eapply analysable_ready, R). split; [split; [split | done |] | by apply same_sigs_code].
  - eapply (strictness_keeps wf_source); [|exact E | done]. intros s p f Hf0. apply upd_wf. intros sc. by apply Hf0.
  - intros p Hin. eapply prepared_code; [exact Es | exact Ec | done|]. apply Hp. by rewrite <- Es.
  - eapply (strictness_keeps indexed); [|exact E | done]. intros s p f Hf0. apply indexed_upd. intros sc. by apply Hf0.
  - by apply ready_flags.
  - intros p sc body Hin Hs Hb. eapply (check_all_tails _ _ _ _ _ _ (fun _ => False)); [done | exact Hfix | by right | done..].
Qed.

Lemma suspending src : analysed src -> exists src', nonstrict_all (tree_size src) src (src_scombs src) = Done src' /\
  analysed src' /\ same_sigs src src'.
Proof.
  intros [[Hwf Hp Hi Hf] Hr Ht]. destruct (nonstrict_all_ok (tree_size src) (src_scombs src) src Hwf Hr (wf_nodup _ Hwf)) as
    (src' & E & Hwf' & Hr' & Hs & Hold & _ & Hnew).
  { intros p Hin. split; [done|]. destruct (Hp p Hin) as (sc & body & H1 & H2 & H3 & H4 & H5). exists sc, body.
    split_and!; try done. by eapply size_le_tree. }
  exists src'. split_and!; [done | | done]. split; [split | done |].
  - done.
  - intros q Hq. destruct (decide (q ∈ src_scombs src)) as [Ho|Ho]; [by apply Hold | by apply Hnew].
  - assert (table_ok src') as [_ Hi']; [|done].
    eapply (nonstrict_all_keeps table_ok); [apply lift_expr_table | intros; by apply table_upd | | exact E | by split; [apply wf_lt|]].
    intros s p f Hf0. apply table_upd. intros sc. by apply Hf0.
  - by apply ready_flags.
  - eapply nonstrict_all_tails; [exact Ht | done | | exact E]. intros s1 p s2 H q Hq. unfold nonstrict_lift in H.
    eapply (nonstrict_with_keeps (fun s => q ∈ src_scombs s)); [| |exact H | exact Hq].
    + done.
    + intros s name k. apply (nonstrict_r_keeps (fun s => q ∈ src_scombs s)); [|done | done].
      intros s3 name3 k3 s4 p4 k4 H3 Hin. apply lift_expr_new in H3 as [_ ->]. apply elem_of_app. by left.
Qed.

Lemma indexed_at src p sc : indexed src -> p ∈ src_scombs src -> src_heap src !! p = Some sc -> src_scombs src !! sc_index sc = Some p.
Proof. intros Hi [i Hp]%list_elem_of_lookup Hs. by rewrite (Hi i p sc Hp Hs). Qed.

Section admissible.
Context (allowed : nat -> bool) (mkfuel : nat) (src : source).
Hypothesis Han : analysed src.
Hypothesis Had : admissible allowed mkfuel src = true.

Lemma admissible_at p : p ∈ src_scombs src -> admissible_scomb allowed mkfuel src p = true.
Proof using Had. clear Han. unfold admissible in Had. rewrite !andb_true_iff in Had. destruct Had as [[_ H] _]. rewrite forallb_forall in H. intros Hp. by apply H, list_elem_of_In. Qed.

Lemma admissible_compilable p sc : p ∈ src_scombs src -> src_heap src !! p = Some sc ->
  compilable (2 * tree_size src) mkfuel src p sc.
Proof using Han Had.
  intros Hp Hs. destruct Han as [[Hwf Hpr Hi _] Hr Ht]. destruct (Hpr p Hp) as (sc0 & body & H0 & Hb & Hf & Hcl & Hnd).
  rewrite Hs in H0. injection H0 as <-. destruct (Hr p Hp) as (sc0 & st & H0 & Hst & Hlen). rewrite Hs in H0. injection H0 as <-.
  pose proof (admissible_at p Hp) as H. unfold admissible_scomb in H. rewrite Hs, Hb, !andb_true_iff in H.
  destruct H as (((((Hsen & _) & _) & _) & Hce) & Hrn). split.
  - exists body, st. split_and!.
    + split; try done; [by apply indexed_at | by apply flat_body_screfs].
    + apply flat_body_rbody; [done | done | by apply scoped_args | by apply fresh_args | by eapply Ht].
    + pose proof (size_le_tree _ _ _ _ Hp Hs Hb). lia.
  - destruct (real_scname src (sc_name sc)); [by eexists | done..].
Qed.

Lemma admissible_typable : typable allowed src.
Proof using Had.
  clear Han. split.
  - intros q sc body Hq Hs Hb. pose proof (admissible_at q Hq) as H. unfold admissible_scomb in H. rewrite Hs, Hb, !andb_true_iff in H. tauto.
  - intros q sc Hq Hs. pose proof (admissible_at q Hq) as H. unfold admissible_scomb in H. rewrite Hs in H. destruct (sc_body sc); [|done].
    rewrite !andb_true_iff in H. tauto.
  - intros q sc Hq Hs Hn. pose proof (admissible_at q Hq) as H. unfold admissible_scomb in H. rewrite Hs in H. destruct (sc_body sc); [|done].
    rewrite !andb_true_iff in H. destruct H as [[[_ H] _] _]. rewrite Hn in H. cbn in H. by apply Nat.eqb_eq.
Qed.

Lemma admissible_runnable : runnable allowed (2 * tree_size src) mkfuel src.
Proof using Han Had.
  pose proof Had as H. unfold admissible in H. rewrite !andb_true_iff in H. destruct H as [[Hmk _] Hst]. apply Nat.ltb_lt in Hmk.
  pose proof (sh_wf _ (an_shaped _ Han)) as Hwf. split; [done | by apply wf_nodup | | | apply admissible_typable].
  - intros q Hq. destruct (wf_valid _ Hwf q Hq) as [sc Hs]. exists sc. by apply admissible_compilable.
  - destruct (get_scomb src "__start") as [p|] eqn:Eg; [|done]. destruct (src_heap src !! p) as [sc|] eqn:Es; [|done].
    exists p, sc. split_and!; [done | apply admissible_compilable; [by apply (get_scomb_spec _ _ _ Hwf) in Eg as [? _] | done] | by apply Nat.eqb_eq].
Qed.
End admissible.

Lemma back_end_done opts src : disstrict opts = false -> wf_source src -> indexed src -> flags_fit src ->
  (forall p, p ∈ src_scombs src -> lifted src p) ->
  exists src', back_end opts src = Done src' /\ analysed src' /\ same_sigs src src'.
Proof.
  intros Ho Hwf Hi Hf Hl. destruct (lifting_reordering src Hwf Hi Hf Hl) as (src1 & src2 & H1 & Hwf1 & H2 & Hsh & Hs).
  destruct (analysing src2 Hsh) as (src3 & H3 & Han & Hs3). destruct (suspending src3 Han) as (src4 & H4 & Han4 & Hs4).
  exists src4. split; [|split; [done | eapply same_sigs_trans; [exact Hs|]; by eapply same_sigs_trans]].
  assert (forall s, wf_source s -> compile_stage s = Done tt) as Hst by (intros s Hs0; unfold compile_stage; by rewrite schash_check_wf).
  unfold back_end. rewrite Hst by done. cbn [mbind outcome_bind]. rewrite H1. cbn [mbind outcome_bind]. rewrite Hst by done.
  cbn [mbind outcome_bind]. rewrite H2. cbn [mbind outcome_bind]. rewrite Ho, Hst by apply Hsh. cbn [mbind outcome_bind]. rewrite H3.
  cbn [mbind outcome_bind]. rewrite Hst by apply Han. cbn [mbind outcome_bind]. exact H4.
Qed.

(** *** A program as lambda lifting leaves it: [f x y = + x y], [__start args = args], [h k x = + (k x) (k (k x))] *)
Definition apply (l r : snode) : snode := SNODE_APPLICATION nosl false l r.
Definition sample_twice : snode :=
  let x := SNODE_SYMBOL nosl "x" in let k := SNODE_SYMBOL nosl "k" in
  apply (apply (SNODE_BUILTIN nosl B_ADD) (apply k x)) (apply k (apply k x)).
Definition sample_h : scomb := set_argnames ["k"; "x"] (set_body sample_twice (new_scomb "h" 2)).
Definition sample_lifted : source := source_of [sample_f; sample_start; sample_h].
Definition usual : options := Options false false false false false.

Lemma sample_lifted_ok : wf_source sample_lifted /\ indexed sample_lifted /\ flags_fit sample_lifted /\
  forall p, p ∈ src_scombs sample_lifted -> lifted sample_lifted p.
Proof.
  assert (forall p, p ∈ src_scombs sample_lifted -> p = 0 \/ p = 1 \/ p = 2) as Hp.
  { intros p. change (src_scombs sample_lifted) with [0; 1; 2]. rewrite !elem_of_cons, elem_of_nil. tauto. }
  assert (AppliftFacts.plain sample_lifted (SNODE_BUILTIN nosl B_ADD)) as Hadd by (eexists; split; [reflexivity | lia]).
  split_and!.
  - apply source_of_wf. by apply (bool_decide_unpack (NoDup ["f"; "__start"; "h"])).
  - intros [|[|[|i]]] p sc Hi Hs; cbn in Hi; try discriminate; injection Hi as <-; injection Hs as <-; reflexivity.
  - intros p sc st Hin Hs Hst. apply Hp in Hin as [->|[->| ->]]; injection Hs as <-; try discriminate; injection Hst as <-; reflexivity.
  - intros p [->|[->| ->]]%Hp; (eexists _, _; split; [reflexivity|]; split; [reflexivity|]); (split; [cbn; auto|]); split.
    + intros x. cbn. rewrite !elem_of_cons. tauto.
    + by apply (bool_decide_unpack (NoDup ["x"; "y"])).
    + intros x ->. by left.
    + by apply (bool_decide_unpack (NoDup ["args"])).
    + intros x. cbn. rewrite !elem_of_cons. tauto.
    + by apply (bool_decide_unpack (NoDup ["k"; "x"])).
Qed.

(** C3. The last passes of the compiler (application lifting, letrec reordering,
    strictness analysis, non-strict lifting, each behind the check of the hash
    table) return for every program as lambda lifting leaves it: none of their
    assertions fails, the trees they walk and the loop over the program are
    bounded by the size of the program, and every function keeps its number of
    arguments. Of the result only decidable conditions on its constants,
    literals and names are left to test; a program that passes is one that the
    bytecode compiler translates without failing. *)
Theorem back_end_runnable allowed mkfuel opts src : disstrict opts = false -> wf_source src -> indexed src -> flags_fit src ->
  (forall p, p ∈ src_scombs src -> lifted src p) ->
  exists src', back_end opts src = Done src' /\ wf_source src' /\ same_sigs src src' /\
    (admissible allowed mkfuel src' = true -> runnable allowed (2 * tree_size src') mkfuel src').
Proof.
  intros Ho Hwf Hi Hf Hl. destruct (back_end_done opts src Ho Hwf Hi Hf Hl) as (src' & H & Han & Hs).
  exists src'. split_and!; [done | apply Han | done|]. by apply admissible_runnable.
Qed.

Lemma back_end_runnable_witness : exists src', back_end usual sample_lifted = Done src' /\ wf_source src' /\ same_sigs sample_lifted src' /\
  (admissible (fun b => Nat.eqb b B_ADD) 1 src' = true -> runnable (fun b => Nat.eqb b B_ADD) (2 * tree_size src') 1 src').
Proof. destruct sample_lifted_ok as (H1 & H2 & H3 & H4). apply (back_end_runnable (fun b => Nat.eqb b B_ADD) 1 usual sample_lifted); done. Defined.
