(* ===== verification/AppendOptFacts.v ===== *)
(** * What append optimisation establishes

    The pass ends on every program as lambda lifting leaves it: each rule makes
    a weight of the body smaller, and there is at most one new version of each
    function. No assertion fails on the way, and the program it leaves is in
    the form the later passes need. *)

From S2P Require Import Prelude CString Builtins Util Source Semantics Renaming Resolve Lifting LiftingFacts LiftingCreate Double Bytecode StackDiscipline Applift AppliftFacts Reorder Nonstrict AppendOpt Process BackEnd.

#[local] Set Warnings "-clear-no-such-hyp".

(** ** Names that have been generated *)

Definition older (src : source) (x : string) : Prop := forall k, x = genvar k -> (k < src_varno src)%N.
Definition fresh (src src' : source) (x : string) : Prop :=
  exists k, (src_varno src <= k < src_varno src')%N /\ x = genvar k.

Lemma older_mono src src' x : (src_varno src <= src_varno src')%N -> older src x -> older src' x.
Proof. intros Hle H k E. pose proof (H k E). lia. Qed.

Lemma fresh_not_older src src' x : fresh src src' x -> ~ older src x.
Proof. intros (k & Hk & ->) H. pose proof (H k eq_refl). lia. Qed.

Lemma fresh_older src src' x : fresh src src' x -> older src' x.
Proof. intros (k & Hk & ->) j E. apply genvar_inj in E. lia. Qed.

Lemma fresh_trans src src1 src2 x : (src_varno src <= src_varno src1)%N -> (src_varno src1 <= src_varno src2)%N ->
  fresh src src1 x \/ fresh src1 src2 x -> fresh src src2 x.
Proof. intros H1 H2 [(k & Hk & ->)|(k & Hk & ->)]; exists k; (split; [lia | done]). Qed.

(** ** Copies *)

(** A tree without its names. *)
Fixpoint strip (c : snode) : snode :=
  match c with
  | SNODE_APPLICATION sl st l r => SNODE_APPLICATION sl st (strip l) (strip r)
  | SNODE_LAMBDA sl _ b => SNODE_LAMBDA sl "" (strip b)
  | SNODE_LETREC sl bs b => SNODE_LETREC sl (map (fun rec => Letrec "" (strip (lr_value rec)) (lr_strict rec)) bs) (strip b)
  | SNODE_SYMBOL sl _ => SNODE_SYMBOL sl ""
  | _ => c
  end.

Lemma zip_strip vs : forall (rs : list letrec), length vs = length rs ->
  map (fun rec => Letrec "" (strip (lr_value rec)) (lr_strict rec)) (zip_with set_value vs rs) =
  zip_with (fun v st => Letrec "" v st) (map strip vs) (map lr_strict rs).
Proof. induction vs as [|v vs IH]; intros [|r rs] H; cbn in *; try done. f_equal. apply IH. lia. Qed.

Lemma rename_values_strip ms bs : Forall (fun rec => forall src ms, strip (rename_variables_r src (lr_value rec) ms).2 = strip (lr_value rec)) bs ->
  forall src, map strip (smap (fun src rec => rename_variables_r src (lr_value rec) ms) src bs).2 = map (fun rec => strip (lr_value rec)) bs.
Proof.
  induction 1 as [|rec bs H _ IH]; intros src; [done|]. cbn [smap map]. specialize (H src ms).
  destruct (rename_variables_r src (lr_value rec) ms) as [s1 v]. specialize (IH s1).
  destruct (smap _ s1 bs) as [s2 vs]. cbn in *. by rewrite H, IH.
Qed.

Lemma rename_strip c : forall src ms, strip (rename_variables_r src c ms).2 = strip c.
Proof.
  snode_induction c; intros src ms; cbn [rename_variables_r]; try done.
  - specialize (IHl src ms). destruct (rename_variables_r src l ms) as [s1 l']. specialize (IHr s1 ms).
    destruct (rename_variables_r s1 r ms) as [s2 r']. cbn in *. by rewrite IHl, IHr.
  - destruct (next_var src n) as [s1 n1]. specialize (IHb s1 (Mapping n n1 :: ms)). destruct (rename_variables_r s1 b _) as [s2 b'].
    cbn in *. by rewrite IHb.
  - destruct (rename_bindings_spec bs src ms) as (s1 & -> & _). set (ms' := rev _ ++ ms).
    pose proof (rename_values_strip ms' bs IHbs s1) as Hv.
    destruct (rename_values_spec ms' bs s1) as (s2 & vs & E & Hl & _); [apply Forall_forall; intros rec _ src0; apply rename_r_binders|].
    rewrite E in Hv |- *. specialize (IHb s2 ms'). destruct (rename_variables_r s2 b ms') as [s3 b']. cbn [snd strip] in *. rewrite IHb. f_equal.
    destruct (zip_set_name_names bs (genvars (src_varno src) (length bs))) as (_ & Hst & Hlen); [by rewrite genvars_length|].
    rewrite zip_strip by lia. rewrite Hst, Hv. clear. induction bs as [|rec bs IH]; [done|]. cbn. by rewrite IH.
Qed.

Lemma plain_strip src c : plain src (strip c) <-> plain src c.
Proof.
  snode_induction c; cbn [strip plain]; try done; [by rewrite IHl, IHr|]. rewrite IHb, !Forall_id_map. setoid_rewrite elem_of_map.
  rewrite Forall_forall in IHbs. split; intros [H ?]; (split; [|done]).
  - intros rec Hr. apply IHbs; [done|]. apply (H (Letrec "" (strip (lr_value rec)) (lr_strict rec))). by exists rec.
  - intros rec (rec0 & -> & Hr). cbn. by apply IHbs, H.
Qed.

Lemma screfs_strip c : screfs (strip c) = screfs c.
Proof.
  snode_induction c; cbn [strip screfs]; try done; [by rewrite IHl, IHr|]. rewrite IHb. f_equal. f_equal. rewrite map_map. cbn [lr_value].
  apply map_ext_Forall, IHbs.
Qed.

(** The free variables of a copy are images of those of the original. *)
Lemma apply_mappings_app ms1 ms2 x : apply_mappings (ms1 ++ ms2) x = apply_mappings ms2 (apply_mappings ms1 x).
Proof. unfold apply_mappings. by rewrite fold_left_app. Qed.

Lemma apply_mappings_cons mp ms x :
  apply_mappings (mp :: ms) x = apply_mappings ms (if String.eqb (mp_from mp) x then mp_to mp else x).
Proof. done. Qed.

Lemma apply_mappings_other ms x : (forall mp, mp ∈ ms -> mp_from mp <> x) -> apply_mappings ms x = x.
Proof.
  induction ms as [|mp ms IH]; intros H; [done|]. rewrite apply_mappings_cons. destruct (String.eqb_spec (mp_from mp) x) as [E|_].
  - destruct (H mp); [by left | done].
  - apply IH. intros mp' Hm. apply H. by right.
Qed.

Lemma apply_mappings_in ms x : (exists mp, mp ∈ ms /\ mp_from mp = x) -> exists mp, mp ∈ ms /\ apply_mappings ms x = mp_to mp.
Proof.
  assert (forall ms y, apply_mappings ms y = y \/ exists mp, mp ∈ ms /\ apply_mappings ms y = mp_to mp) as Hor.
  { induction ms0 as [|mp ms0 IH]; intros y; [by left|]. rewrite apply_mappings_cons.
    destruct (String.eqb_spec (mp_from mp) y) as [E|_].
    - right. destruct (IH (mp_to mp)) as [->|(mp' & Hm & ->)]; [exists mp; split; [by left | done] | exists mp'; split; [by right | done]].
    - destruct (IH y) as [->|(mp' & Hm & ->)]; [by left | right; exists mp'; split; [by right | done]]. }
  induction ms as [|mp ms IH]; intros (mp0 & Hin & E); [by apply not_elem_of_nil in Hin|]. rewrite apply_mappings_cons.
  destruct (String.eqb_spec (mp_from mp) x) as [E'|Hd].
  - destruct (Hor ms (mp_to mp)) as [Hq|(mp' & Hm & Hq)]; [exists mp; split; [by left | done] | exists mp'; split; [by right | done]].
  - apply elem_of_cons in Hin as [->|Hin]; [done|]. destruct IH as (mp' & Hm & Hq); [by exists mp0|]. exists mp'. split; [by right | done].
Qed.

Definition from_older (src : source) (ms : list mapping) : Prop := forall mp, mp ∈ ms -> older src (mp_from mp).

Lemma from_older_mono src src' ms : (src_varno src <= src_varno src')%N -> from_older src ms -> from_older src' ms.
Proof. intros Hle H mp Hm. by eapply older_mono, H. Qed.

Lemma apply_mappings_new src ms k : from_older src ms -> (src_varno src <= k)%N -> apply_mappings ms (genvar k) = genvar k.
Proof. intros H Hk. apply apply_mappings_other. intros mp Hm E. pose proof (H mp Hm k E). lia. Qed.

(** The mappings that a letrec or an abstraction adds. *)
Lemma apply_pushed src ms olds y : from_older src ms ->
  let ms' := rev (zip_with Mapping olds (genvars (src_varno src) (length olds))) ++ ms in
  (y ∈ olds -> apply_mappings ms' y ∈ genvars (src_varno src) (length olds)) /\ (y ∉ olds -> apply_mappings ms' y = apply_mappings ms y).
Proof.
  intros H. cbv zeta. rewrite apply_mappings_app. set (news := genvars _ _). set (ms1 := rev _).
  assert (forall mp, mp ∈ ms1 -> mp_from mp ∈ olds /\ mp_to mp ∈ news) as Hms.
  { intros mp Hm. subst ms1. rewrite elem_of_rev in Hm. apply elem_of_lookup_zip_with in Hm as (i & o & n & -> & Ho & Hn).
    split; by eapply list_elem_of_lookup_2. }
  split; intros Hy.
  - destruct (apply_mappings_in ms1 y) as (mp & Hm & ->).
    { apply list_elem_of_lookup in Hy as [i Hi]. destruct (lookup_lt_is_Some_2 news i) as [n Hn].
      { subst news. rewrite genvars_length. by eapply lookup_lt_Some. }
      exists (Mapping y n). split; [|done]. subst ms1. apply elem_of_rev, elem_of_lookup_zip_with. by exists i, y, n. }
    destruct (Hms mp Hm) as [_ Hn]. pose proof Hn as Hn'. subst news. apply genvars_elem in Hn' as (i & _ & E).
    rewrite E, (apply_mappings_new src) by (done || lia). by rewrite <- E.
  - rewrite (apply_mappings_other ms1); [done|]. intros mp Hm E. apply Hy. rewrite <- E. by apply Hms.
Qed.

Lemma push_from_older src src' ms olds news : (src_varno src <= src_varno src')%N -> from_older src ms -> (forall x, x ∈ olds -> older src x) ->
  from_older src' (rev (zip_with Mapping olds news) ++ ms).
Proof.
  intros Hle H Ho mp [Hm|Hm]%elem_of_app; [|by eapply older_mono, H].
  rewrite elem_of_rev in Hm. apply elem_of_lookup_zip_with in Hm as (i & o & n & -> & Hi & _). eapply older_mono; [exact Hle|].
  by eapply Ho, list_elem_of_lookup_2.
Qed.

Definition renames_free (c : snode) : Prop := forall src ms, from_older src ms -> (forall x, x ∈ binders c -> older src x) ->
  forall x, free_in x (rename_variables_r src c ms).2 -> exists y, free_in y c /\ x = apply_mappings ms y.

Lemma rename_values_free ms bs : Forall (fun rec => renames_free (lr_value rec)) bs -> forall src, from_older src ms ->
  (forall rec x, rec ∈ bs -> x ∈ binders (lr_value rec) -> older src x) ->
  forall x v, v ∈ (smap (fun src rec => rename_variables_r src (lr_value rec) ms) src bs).2 -> free_in x v ->
  exists rec y, rec ∈ bs /\ free_in y (lr_value rec) /\ x = apply_mappings ms y.
Proof.
  induction 1 as [|rec bs H _ IH]; intros src Hms Ho x v Hv Hx; cbn [smap] in Hv; [by apply not_elem_of_nil in Hv|].
  assert (forall y, y ∈ binders (lr_value rec) -> older src y) as Ho1 by (intros y; apply Ho; by left).
  pose proof (H src ms Hms Ho1 x) as Hrec. destruct (rename_r_binders (lr_value rec) src ms) as (s1 & v1 & E & Ha & _).
  rewrite E in Hv, Hrec. cbn [snd] in *. pose proof (advanced_varno _ _ _ Ha) as Hvar.
  specialize (IH s1 (from_older_mono src s1 ms ltac:(lia) Hms)). destruct (smap _ s1 bs) as [s2 vs]. cbn [snd] in *.
  apply elem_of_cons in Hv as [->|Hv].
  - destruct (Hrec Hx) as (y & Hy & ->). exists rec, y. split; [by left | done].
  - destruct (IH) with (x := x) (v := v) as (rec' & y & ? & ? & ?); [|done|done|].
    + intros rec' y Hr Hy. eapply older_mono; [|eapply Ho; [by right | exact Hy]]. lia.
    + exists rec', y. split; [by right | done].
Qed.

Lemma rename_free c : renames_free c.
Proof.
  snode_induction c; intros src ms Hms Ho x; cbn [rename_variables_r binders] in *; try (cbn; tauto).
  - assert (forall y, y ∈ binders l -> older src y) as Hl by (intros y Hy; apply Ho, elem_of_app; by left).
    assert (forall y, y ∈ binders r -> older src y) as Hr by (intros y Hy; apply Ho, elem_of_app; by right).
    pose proof (IHl src ms Hms Hl x) as H1. destruct (rename_r_binders l src ms) as (s1 & l1 & E & Ha & _). rewrite E in H1 |- *.
    pose proof (advanced_varno _ _ _ Ha) as Hvar.
    pose proof (IHr s1 ms (from_older_mono src s1 ms ltac:(lia) Hms) (fun y Hy => older_mono src s1 y ltac:(lia) (Hr y Hy)) x) as H2.
    destruct (rename_variables_r s1 r ms) as [s2 r1]. cbn [snd free_in] in *.
    intros [H|H]; [destruct (H1 H) as (y & ? & ?) | destruct (H2 H) as (y & ? & ?)]; eauto.
  - destruct (next_var src n) as [s1 n1] eqn:E. injection E as E1 En.
    assert (forall y, y ∈ [n] -> older src y) as Hn by (intros y ->%list_elem_of_singleton; apply Ho; by left).
    assert (src_varno src <= src_varno s1)%N as Hle by (rewrite <- E1; cbn; lia).
    pose proof (IHb s1 (Mapping n n1 :: ms)) as H1. destruct (rename_variables_r s1 b _) as [s2 b1]. cbn [snd free_in] in *. intros [Hx Hf].
    destruct (H1 (push_from_older src s1 ms [n] [n1] Hle Hms Hn)
      ltac:(intros y Hy; eapply older_mono; [exact Hle | apply Ho; by right]) x Hf) as (y & Hy & ->).
    pose proof (apply_pushed src ms [n] y Hms) as Hp. cbn [length] in Hp. assert (genvars (src_varno src) 1 = [n1]) as Eg.
    { rewrite <- En. unfold genvars. cbn. by rewrite N.add_0_r. }
    rewrite Eg in Hp. cbn [zip_with rev app] in Hp. destruct Hp as [Hp1 Hp2]. destruct (decide (y = n)) as [->|Hd].
    + exfalso. apply Hx. apply list_elem_of_singleton, Hp1. by left.
    + exists y. split; [done|]. apply Hp2. by intros ?%list_elem_of_singleton.
  - intros ->. by exists n.
  - destruct (rename_bindings_spec bs src ms) as (s1 & -> & Ha1). pose proof (advanced_varno _ _ _ Ha1) as Hv1.
    assert (forall y, y ∈ map lr_name bs -> older src y) as Hn by (intros y Hy; apply Ho; rewrite !elem_of_app; tauto).
    assert (src_varno src <= src_varno s1)%N as Hle by lia.
    pose proof (push_from_older src s1 ms _ (genvars (src_varno src) (length bs)) Hle Hms Hn) as Hms1.
    pose proof (fun y => apply_pushed src ms (map lr_name bs) y Hms) as Hp. rewrite length_map in Hp. cbv zeta in Hp. set (ms' := rev _ ++ ms) in *.
    assert (forall rec y, rec ∈ bs -> y ∈ binders (lr_value rec) -> older s1 y) as Ho1.
    { intros rec y Hr Hy. eapply older_mono; [exact Hle|]. apply Ho.
      rewrite !elem_of_app. right. left. apply elem_of_concat. exists (binders (lr_value rec)). split; [apply elem_of_map; by exists rec | done]. }
    pose proof (rename_values_free ms' bs IHbs s1 Hms1 Ho1 x) as HV.
    destruct (rename_values_spec ms' bs s1) as (s2 & vs & E & Hl & Ha2 & _); [apply Forall_forall; intros rec _ src0; apply rename_r_binders|].
    rewrite E in HV |- *. pose proof (advanced_varno _ _ _ Ha2) as Hv2.
    assert (forall y, y ∈ binders b -> older s2 y) as Hob.
    { intros y Hy. apply (older_mono src); [lia|]. apply Ho. rewrite !elem_of_app. tauto. }
    pose proof (IHb s2 ms' (from_older_mono s1 s2 ms' ltac:(lia) Hms1) Hob x) as HB.
    destruct (rename_variables_r s2 b ms') as [s3 b']. cbn [snd] in *. rewrite !free_in_letrec.
    destruct (zip_set_name_names bs (genvars (src_varno src) (length bs))) as (Hn1 & _ & Hlen); [by rewrite genvars_length|].
    destruct (zip_set_value_names (zip_with set_name (genvars (src_varno src) (length bs)) bs) vs) as (Hn2 & Hn3 & _); [lia|].
    rewrite Hn2, Hn1, Hn3. intros [Hx Hf].
    assert (exists y, ((exists v, v ∈ map lr_value bs /\ free_in y v) \/ free_in y b) /\ x = apply_mappings ms' y) as (y & Hy & ->).
    { destruct Hf as [(v & Hv & Hf)|Hf].
      - destruct (HV v Hv Hf) as (rec & y & Hr & Hy & ->). exists y. split; [|done]. left. exists (lr_value rec). split; [|done]. apply elem_of_map. by exists rec.
      - destruct (HB Hf) as (y & Hy & ->). exists y. by split; [right|]. }
    exists y. rewrite free_in_letrec. destruct (decide (y ∈ map lr_name bs)) as [Hi|Hi].
    + destruct Hx. by apply Hp.
    + split; [done|]. by apply Hp.
Qed.

Lemma snode_copy_id c : lambda_free c -> snode_copy c = Done c.
Proof.
  snode_induction c; cbn [lambda_free snode_copy]; try done.
  - intros [Hl Hr]. rewrite IHl, IHr by done. done.
  - intros [Hv Hb]. rewrite Forall_id_map in Hv. rewrite Forall_forall in IHbs.
    rewrite (IHb Hb). assert ((fix copies (bs : list letrec) : outcome (list letrec) :=
      match bs with
      | [] => Done []
      | rec :: bs => v ← snode_copy (lr_value rec); bs ← copies bs; Done (set_value v rec :: bs)
      end) bs = Done bs) as ->; [|done].
    clear IHb Hb. induction bs as [|rec bs IH]; [done|]. rewrite IHbs by (by left || (apply Hv; by left)).
    cbn [mbind outcome_bind]. rewrite IH; [by destruct rec | intros; apply IHbs; [by right | done] | intros; apply Hv; by right].
Qed.

Lemma plain_lambda_free src c : plain src c -> lambda_free c.
Proof.
  snode_induction c; cbn [plain lambda_free]; try done; [tauto|]. rewrite !Forall_id_map, Forall_forall in *. intros [H1 H2]. auto.
Qed.

(** The copy of a closed body over other arguments. *)
Lemma copy_ok src args body news : plain src body -> (forall x, free_in x body -> x ∈ args) -> length news >= length args ->
  (forall x, x ∈ args ++ binders body -> older src x) ->
  exists src' c, copy_scomb_body src args body news = Done (src', c) /\ advanced src src' (binders body) /\
    plain src c /\ strip c = strip body /\ binders c = genvars (src_varno src) (length (binders body)) /\
    forall x, free_in x c -> x ∈ take (length args) news.
Proof.
  intros Hp Hc Hl Ho. unfold copy_scomb_body. rewrite snode_copy_id by (by eapply plain_lambda_free). cbn [mbind outcome_bind].
  unfold rename_sc_body_variables. set (ms := rev (zip_with Mapping args news)).
  destruct (rename_r_binders body src ms) as (src' & c & E & Ha & Hb). pose proof (rename_strip body src ms) as Hs.
  pose proof (rename_free body src ms) as Hf. rewrite E in Hs, Hf |- *. cbn [snd] in *.
  exists src', c. split_and!; [done | done | by rewrite <- plain_strip, Hs, plain_strip | done | done |].
  assert (forall mp, mp ∈ ms -> mp_from mp ∈ args /\ mp_to mp ∈ take (length args) news) as Hms.
  { intros mp Hm. subst ms. rewrite elem_of_rev in Hm. apply elem_of_lookup_zip_with in Hm as (i & o & n & -> & Hi & Hn).
    split; [by eapply list_elem_of_lookup_2|]. apply list_elem_of_lookup_2 with (i := i). rewrite lookup_take_lt; [done | by eapply lookup_lt_Some]. }
  intros x Hx. apply Hf in Hx as (y & Hy & ->); [| intros mp Hm; apply Ho, elem_of_app; left; by apply Hms | intros z Hz; apply Ho, elem_of_app; by right].
  destruct (apply_mappings_in ms y) as (mp & Hm & ->); [|by apply Hms].
  pose proof (Hc y Hy) as Hin. apply list_elem_of_lookup in Hin as [i Hi]. destruct (lookup_lt_is_Some_2 news i) as [n Hn].
  { apply lookup_lt_Some in Hi. lia. }
  exists (Mapping y n). split; [|done]. subst ms. apply elem_of_rev, elem_of_lookup_zip_with. by exists i, y, n.
Qed.

(** ** A weight *)

Section weight.
(** The supercombinators that are [append]. *)
Context (a : nat -> bool).

(** [may c k]: rewriting in [c] may lead to [append] with [k] arguments. *)
Fixpoint may (c : snode) (k : nat) : bool :=
  match c with
  | SNODE_SCREF _ p => a p && Nat.eqb k 0
  | SNODE_APPLICATION _ _ l r => match k with O => false | S k => may l k end || (may l 1 && may r k)
  | _ => false
  end.

(** The first argument of [append] counts twice. *)
Fixpoint wt (c : snode) : nat :=
  match c with
  | SNODE_APPLICATION _ _ l r => wt l + (if may l 0 then 2 else 1) * wt r
  | SNODE_LAMBDA _ _ b => S (wt b)
  | SNODE_LETREC _ bs b => S (sum_list_with (fun rec => wt (lr_value rec)) bs + wt b)
  | SNODE_BUILTIN _ bif => if Nat.eqb bif B_IF then 4 else 1
  | _ => 1
  end.

Lemma wt_pos c : 0 < wt c.
Proof. induction c; cbn; try lia. destruct (bif =? B_IF); lia. Qed.

Definition names_append (h : snode) : bool := match h with SNODE_SCREF _ p => a p | _ => false end.

Lemma may_head c k : names_append (spine_head c) = false -> may c k = false.
Proof.
  revert k. induction c as [sl st l IHl r _| | | | | | | |]; intros k H; try done.
  - cbn [may spine_head] in *. destruct k; by rewrite !IHl.
  - cbn in *. by rewrite H.
Qed.

Lemma may_strip c k : may (strip c) k = may c k.
Proof. revert k. induction c; intros k; cbn; try done. by destruct k; rewrite ?IHc1, ?IHc2. Qed.
Lemma wt_strip c : wt (strip c) = wt c.
Proof.
  snode_induction c; cbn [strip wt]; try done; [by rewrite may_strip, IHl, IHr | by rewrite IHb |]. rewrite IHb. f_equal. f_equal.
  clear IHb. induction IHbs as [|rec bs H _ IH]; [done|]. cbn. by rewrite H, IH.
Qed.

(** One side of a rewriting step. *)
Definition lighter (b : bool) (c c' : snode) : Prop := wt c' + Nat.b2n b <= wt c /\ forall k, may c' k = true -> may c k = true.

Lemma lighter_refl c : lighter false c c.
Proof. split; [cbn; lia | done]. Qed.
Lemma lighter_trans b1 b2 c1 c2 c3 : lighter b1 c1 c2 -> lighter b2 c2 c3 -> lighter (b1 || b2) c1 c3.
Proof. intros [H1 H2] [H3 H4]. split; [destruct b1, b2; cbn in *; lia | auto]. Qed.

Lemma lighter_left b sl st l l' r : lighter b l l' -> lighter b (SNODE_APPLICATION sl st l r) (SNODE_APPLICATION sl st l' r).
Proof.
  intros [H1 H2]. split; cbn [wt].
  - pose proof (H2 0). destruct (may l' 0), (may l 0); [| by discriminate (H eq_refl) | |]; lia.
  - intros k. cbn. destruct k; rewrite ?orb_true_iff, ?andb_true_iff; naive_solver.
Qed.
Lemma lighter_right b sl st l r r' : lighter b r r' -> lighter b (SNODE_APPLICATION sl st l r) (SNODE_APPLICATION sl st l r').
Proof.
  intros [H1 H2]. split; cbn [wt].
  - destruct (may l 0); lia.
  - intros k. cbn. destruct k; rewrite ?orb_true_iff, ?andb_true_iff; naive_solver.
Qed.
Lemma lighter_body b sl bs c c' : lighter b c c' -> lighter b (SNODE_LETREC sl bs c) (SNODE_LETREC sl bs c').
Proof. intros [H1 _]. split; [cbn [wt]; lia | done]. Qed.
Lemma lighter_value b sl bs1 rec bs2 v c : lighter b (lr_value rec) v ->
  lighter b (SNODE_LETREC sl (bs1 ++ rec :: bs2) c) (SNODE_LETREC sl (bs1 ++ set_value v rec :: bs2) c).
Proof. intros [H1 _]. split; [|done]. cbn [wt]. rewrite !sum_list_with_app. cbn. lia. Qed.
End weight.

(** ** Rewriting steps *)

(** A tree whose names are told apart and have been given out. *)
Record sane (src : source) (c : snode) : Prop := {
  sn_plain : plain src c;
  sn_nodup : NoDup (binders c);
  sn_apart : forall x, x ∈ binders c -> ~ free_in x c;
  sn_older : forall x, x ∈ binders c \/ free_in x c -> older src x
}.

Lemma sane_mono src src' c : same_sigs src src' -> (src_varno src <= src_varno src')%N -> sane src c -> sane src' c.
Proof. intros Hs Hv [H1 H2 H3 H4]. split; [by eapply plain_sigs | done | done |]. intros x Hx. eapply older_mono; eauto. Qed.

Lemma sane_app src sl st l r : sane src (SNODE_APPLICATION sl st l r) -> sane src l /\ sane src r.
Proof.
  intros [[H1 H2] H3 H4 H5]. cbn [binders free_in] in *. apply list.NoDup_app in H3 as (N1 & D & N2). setoid_rewrite elem_of_app in H4.
  setoid_rewrite elem_of_app in H5. split; (split; [done | done | |]); naive_solver.
Qed.

Section rewriting.
Context (a : nat -> bool).

Record rewrites (b : bool) (src : source) (c : snode) (src' : source) (c' : snode) : Prop := {
  rw_plain : plain src' c';
  rw_free : forall x, free_in x c' -> free_in x c;
  rw_binders : forall x, x ∈ binders c' -> x ∈ binders c \/ fresh src src' x;
  rw_nodup : NoDup (binders c');
  rw_lighter : lighter a b c c'
}.

Lemma rewrites_sane b src c src' c' : (src_varno src <= src_varno src')%N -> sane src c -> rewrites b src c src' c' -> sane src' c'.
Proof.
  intros Hle [H1 H2 H3 H4] [R1 R2 R3 R4 R5]. split; [done | done | |].
  - intros x Hx Hf. apply R2 in Hf. destruct (R3 x Hx) as [Hb|Hb]; [by apply (H3 x)|]. eapply fresh_not_older; [exact Hb|]. apply H4. by right.
  - intros x [Hx|Hx].
    + destruct (R3 x Hx) as [Hb|Hb]; [|by eapply fresh_older]. eapply older_mono; [exact Hle|]. apply H4. by left.
    + eapply older_mono; [exact Hle|]. apply H4. right. by apply R2.
Qed.

Lemma rewrites_refl src c : sane src c -> rewrites false src c src c.
Proof. intros [H1 H2 _ _]. split; [done | done | by left | done | apply lighter_refl]. Qed.

Lemma rewrites_trans b1 b2 src c src1 c1 src2 c2 : (src_varno src <= src_varno src1)%N -> (src_varno src1 <= src_varno src2)%N ->
  rewrites b1 src c src1 c1 -> rewrites b2 src1 c1 src2 c2 -> rewrites (b1 || b2) src c src2 c2.
Proof.
  intros Hl1 Hl2 [R1 R2 R3 R4 R5] [S1 S2 S3 S4 S5]. split; [done | auto | | done | by eapply lighter_trans].
  intros x Hx. destruct (S3 x Hx) as [Hb|Hb].
  - destruct (R3 x Hb) as [?|?]; [by left | right; eapply fresh_trans; eauto].
  - right. eapply fresh_trans; eauto.
Qed.

(** A step inside a tree: what is needed of the tree around it. *)
Lemma rewrites_inside b src c src' c' h h' (rest : list string) :
  rewrites b src h src' h' -> sane src c -> plain src' c' -> lighter a b c c' ->
  binders c ≡ₚ binders h ++ rest -> binders c' ≡ₚ binders h' ++ rest ->
  (forall x, free_in x c' -> free_in x c) -> rewrites b src c src' c'.
Proof.
  intros [R1 R2 R3 R4 R5] [H1 H2 H3 H4] Hp Hl Hb Hb' Hf. split; [done | done | | | done].
  - intros x. rewrite Hb', Hb, !elem_of_app. naive_solver.
  - rewrite Hb'. rewrite Hb in H2. apply list.NoDup_app in H2 as (N1 & D & N2). apply list.NoDup_app. split_and!; [done | | done].
    intros x Hx Hr. destruct (R3 x Hx) as [?|Hfr]; [by apply (D x)|]. eapply fresh_not_older; [exact Hfr|]. apply H4. left.
    rewrite Hb, elem_of_app. by right.
Qed.

Lemma rewrites_left b src l src' l' sl st r : same_sigs src src' -> sane src (SNODE_APPLICATION sl st l r) ->
  rewrites b src l src' l' -> rewrites b src (SNODE_APPLICATION sl st l r) src' (SNODE_APPLICATION sl st l' r).
Proof.
  intros Hs Hsn HR. eapply (rewrites_inside _ _ _ _ _ l l' (binders r)); [done | done | | by apply lighter_left, HR | done | done |].
  - split; [apply HR | eapply plain_sigs; [done | by apply Hsn]].
  - intros x. cbn. pose proof (rw_free _ _ _ _ _ HR x). tauto.
Qed.

Lemma rewrites_right b src r src' r' sl st l : same_sigs src src' -> sane src (SNODE_APPLICATION sl st l r) ->
  rewrites b src r src' r' -> rewrites b src (SNODE_APPLICATION sl st l r) src' (SNODE_APPLICATION sl st l r').
Proof.
  intros Hs Hsn HR. eapply (rewrites_inside _ _ _ _ _ r r' (binders l)); [done | done | | by apply lighter_right, HR | | |].
  - split; [eapply plain_sigs; [done | by apply Hsn] | apply HR].
  - cbn. apply Permutation_app_comm.
  - cbn. apply Permutation_app_comm.
  - intros x. cbn. pose proof (rw_free _ _ _ _ _ HR x). tauto.
Qed.

Lemma letrec_binders_middle sl bs1 rec bs2 c : binders (SNODE_LETREC sl (bs1 ++ rec :: bs2) c) ≡ₚ
  binders (lr_value rec) ++ map lr_name (bs1 ++ rec :: bs2) ++ concat (map (fun rec => binders (lr_value rec)) (bs1 ++ bs2)) ++ binders c.
Proof. cbn [binders]. rewrite !map_app, !concat_app. cbn [map concat]. solve_Permutation. Qed.

(** The parts of a letrec. *)
Lemma sane_letrec src sl bs b : sane src (SNODE_LETREC sl bs b) -> (forall rec, rec ∈ bs -> sane src (lr_value rec)) /\ sane src b.
Proof.
  intros [[Hp Hpb] Hn Ha Ho]. rewrite Forall_id_map in Hp.
  assert (forall v rest, plain src v -> binders (SNODE_LETREC sl bs b) ≡ₚ binders v ++ map lr_name bs ++ rest ->
    (forall x, x ∉ map lr_name bs -> free_in x v -> free_in x (SNODE_LETREC sl bs b)) -> sane src v) as H.
  { intros v rest Hpv Hb Hf. pose proof Hn as Hn2. rewrite Hb in Hn2. apply list.NoDup_app in Hn2 as (N1 & D & _).
    assert (forall x, x ∈ binders (SNODE_LETREC sl bs b) <-> x ∈ binders v \/ x ∈ map lr_name bs \/ x ∈ rest) as Hin
      by (intros x; by rewrite Hb, !elem_of_app).
    split; [done | done | |].
    - intros x Hx Hfx. destruct (decide (x ∈ map lr_name bs)) as [Hi|Hi].
      + apply (D x Hx). apply elem_of_app. by left.
      + apply (Ha x); [apply Hin; by left | by apply Hf].
    - intros x [Hx|Hx]; [apply Ho; left; apply Hin; by left|]. apply Ho.
      destruct (decide (x ∈ map lr_name bs)) as [Hi|Hi]; [left; apply Hin; tauto | right; by apply Hf]. }
  split.
  - intros rec Hr. apply list_elem_of_split in Hr as (bs1 & bs2 & ->). eapply H; [apply Hp, elem_of_app; right; by left | apply letrec_binders_middle |].
    intros x Hx Hf. apply free_in_letrec. split; [done|]. left. exists (lr_value rec). split; [|done]. apply elem_of_map. exists rec.
    split; [done|]. apply elem_of_app. right. by left.
  - eapply (H b (concat (map (fun rec => binders (lr_value rec)) bs))); [done | |].
    + cbn [binders]. rewrite app_assoc. rewrite (Permutation_app_comm (binders b)). done.
    + intros x Hx Hf. apply free_in_letrec. tauto.
Qed.

Lemma rewrites_value b src v src' sl bs1 rec bs2 c : same_sigs src src' -> sane src (SNODE_LETREC sl (bs1 ++ rec :: bs2) c) ->
  rewrites b src (lr_value rec) src' v ->
  rewrites b src (SNODE_LETREC sl (bs1 ++ rec :: bs2) c) src' (SNODE_LETREC sl (bs1 ++ set_value v rec :: bs2) c).
Proof.
  intros Hs Hsn HR. pose proof (letrec_binders_middle sl bs1 rec bs2 c) as H1.
  pose proof (letrec_binders_middle sl bs1 (set_value v rec) bs2 c) as H2.
  assert (map lr_name (bs1 ++ set_value v rec :: bs2) = map lr_name (bs1 ++ rec :: bs2)) as En by (by rewrite !map_app).
  eapply (rewrites_inside _ _ _ _ _ (lr_value rec) v); [done | done | | by apply lighter_value, HR | exact H1 | rewrite H2, En; done |].
  - destruct (sn_plain _ _ Hsn) as [Hv Hb]. split; [|by eapply plain_sigs]. rewrite Forall_id_map in Hv |- *.
    intros rec' Hin. rewrite elem_of_app, elem_of_cons in Hin. destruct Hin as [Hin|[->|Hin]]; [| apply HR |];
      (eapply plain_sigs; [done|]; apply Hv; rewrite elem_of_app, elem_of_cons; tauto).
  - intros x. rewrite !free_in_letrec, En. intros [Hx Hf]. split; [done|]. destruct Hf as [(w & Hw & Hf)|Hf]; [left | by right].
    rewrite map_app, elem_of_app in Hw. cbn [map] in Hw. rewrite elem_of_cons in Hw. destruct Hw as [Hw|[->|Hw]].
    + exists w. split; [|done]. rewrite map_app, elem_of_app. by left.
    + exists (lr_value rec). split; [|by eapply rw_free]. rewrite map_app, elem_of_app. right. by left.
    + exists w. split; [|done]. rewrite map_app, elem_of_app. right. by right.
Qed.

Lemma rewrites_body b src c src' c' sl bs : same_sigs src src' -> sane src (SNODE_LETREC sl bs c) ->
  rewrites b src c src' c' -> rewrites b src (SNODE_LETREC sl bs c) src' (SNODE_LETREC sl bs c').
Proof.
  intros Hs Hsn HR. eapply (rewrites_inside _ _ _ _ _ c c' (map lr_name bs ++ concat (map (fun rec => binders (lr_value rec)) bs)));
    [done | done | | by apply lighter_body, HR | | |].
  - destruct (sn_plain _ _ Hsn) as [Hv Hb]. split; [|apply HR]. rewrite Forall_id_map in Hv |- *. intros rec Hin. eapply plain_sigs; [exact Hs | by apply Hv].
  - cbn [binders]. rewrite app_assoc. apply Permutation_app_comm.
  - cbn [binders]. rewrite app_assoc. apply Permutation_app_comm.
  - intros x. rewrite !free_in_letrec. pose proof (rw_free _ _ _ _ _ HR x). tauto.
Qed.
End rewriting.

(** ** The rules on trees *)

Section tree_rules.
Context (a : nat -> bool) (src : source) (q : nat) (sl sl2 slr : sourceloc) (st st2 : bool).
Hypothesis Hq : a q = true.
Local Abbreviation app2 := (SNODE_APPLICATION sl2 st2 (SNODE_SCREF slr q)).
Local Abbreviation call f s := (SNODE_APPLICATION sl st (app2 f) s).

Lemma may_call f s k : may a (call f s) k = Nat.eqb k 2 || may a s k.
Proof using Hq.
  assert (forall j, may a (app2 f) j = Nat.eqb j 1) as H.
  { intros [|[|j]]; cbn; by rewrite ?Hq. }
  destruct k as [|k].
  - change (may a (call f s) 0) with (may a (app2 f) 1 && may a s 0). by rewrite H.
  - change (may a (call f s) (S k)) with (may a (app2 f) k || (may a (app2 f) 1 && may a s (S k))). rewrite !H. by destruct k as [|[|k]].
Qed.

Lemma wt_call f s : wt a (call f s) = 1 + 2 * wt a f + wt a s.
Proof using Hq. cbn. rewrite Hq. cbn. lia. Qed.

Lemma plain_parts f s : plain src (call f s) -> plain src (SNODE_SCREF slr q) /\ plain src f /\ plain src s.
Proof using Type. intros [[H1 H2] H3]. done. Qed.

(** The result binds the same variables. *)
Lemma rewrites_same b c c' : sane src c -> plain src c' -> binders c' ≡ₚ binders c -> (forall x, free_in x c' -> free_in x c) -> lighter a b c c' ->
  rewrites a b src c src c'.
Proof using Type.
  intros [H1 H2 H3 H4] Hp Hb Hf Hl. split; [done | done | | by rewrite Hb | done]. intros x. rewrite Hb. by left.
Qed.

(** Rule 1. *)
Lemma rule_second f s : sane src (call f s) -> rewrites a true src (call f s) src s.
Proof using Hq.
  intros H. destruct (plain_parts _ _ (sn_plain _ _ H)) as (P1 & P2 & P3). split; [done | | | |].
  - intros x Hx. cbn. tauto.
  - intros x Hx. left. cbn. rewrite elem_of_app. tauto.
  - pose proof (sn_nodup _ _ H) as N. cbn in N. by apply list.NoDup_app in N as (_ & _ & ?).
  - split; [rewrite wt_call; cbn; lia|]. intros k Hk. rewrite may_call, Hk. apply orb_true_r.
Qed.

(** A function with no argument is left alone. *)
Lemma rule_first f s : names_append a (spine_head f) = false -> sane src (call f s) -> rewrites a true src (call f s) src f.
Proof using Hq.
  intros Hh H. destruct (plain_parts _ _ (sn_plain _ _ H)) as (P1 & P2 & P3). split; [done | | | |].
  - intros x Hx. cbn. tauto.
  - intros x Hx. left. cbn. rewrite elem_of_app. tauto.
  - pose proof (sn_nodup _ _ H) as N. cbn in N. by apply list.NoDup_app in N as (? & _ & _).
  - split; [rewrite wt_call; cbn; lia|]. intros k Hk. by rewrite may_head in Hk.
Qed.

Lemma rule_letrec lsl bs b s : sane src (call (SNODE_LETREC lsl bs b) s) ->
  rewrites a true src (call (SNODE_LETREC lsl bs b) s) src (SNODE_LETREC lsl bs (call b s)).
Proof using Hq.
  intros H. destruct (plain_parts _ _ (sn_plain _ _ H)) as (P1 & [P2 P3] & P4). apply rewrites_same; [done | done | | |].
  - cbn [binders app]. solve_Permutation.
  - intros x Hx. apply free_in_letrec in Hx. cbn [free_in] in Hx.
    change ((False \/ free_in x (SNODE_LETREC lsl bs b)) \/ free_in x s). rewrite free_in_letrec.
    destruct Hx as [Hx [Hf|[[[]|Hf]|Hf]]]; [|..|by right]; left; right; (split; [done|]); [by left | by right].
  - split; [|done]. rewrite wt_call. cbn [wt]. fold (wt a). pose proof (wt_call b s) as E. cbn in *. lia.
Qed.

(** Rules 2 and 3. *)
Lemma rule_push sl1 st1 l r s : (forall j, may a l j = true -> j = 1) -> sane src (call (SNODE_APPLICATION sl1 st1 l r) s) ->
  rewrites a true src (call (SNODE_APPLICATION sl1 st1 l r) s) src
    (SNODE_APPLICATION sl1 st1 l (SNODE_APPLICATION sl1 st1 (app2 r) s)).
Proof using Hq.
  intros Hl H. destruct (plain_parts _ _ (sn_plain _ _ H)) as (P1 & [P2 P3] & P4). apply rewrites_same; [done | done | | |].
  - cbn [binders app]. solve_Permutation.
  - intros x. cbn [free_in]. tauto.
  - assert (may a l 0 = false) as H0 by (destruct (may a l 0) eqn:E; [by apply Hl in E | done]).
    split.
    + rewrite wt_call. cbn [wt]. rewrite H0. cbn [may]. rewrite Hq. cbn. pose proof (wt_pos a l). lia.
    + intros k Hk. rewrite may_call. change (may a (SNODE_APPLICATION sl1 st1 l ?x) k) with
        ((match k with O => false | S k => may a l k end) || (may a l 1 && may a x k)) in Hk.
      apply orb_true_iff in Hk as [Hk|Hk].
      * destruct k as [|k]; [done|]. apply Hl in Hk. by subst k.
      * apply andb_true_iff in Hk as [_ Hk]. pose proof (may_call r s k) as E. cbn [may] in *. by rewrite <- E.
Qed.

Lemma rule_version f s p v : names_append a (spine_head f) = false -> spine_head f = SNODE_SCREF p v -> forall slv v', a v' = false ->
  sane src (call f s) -> fun_ok src (SNODE_SCREF slv v') 0 ->
  rewrites a true src (call f s) src (SNODE_APPLICATION sl st (set_head (SNODE_SCREF slv v') f) s).
Proof using Hq.
  intros Hh Eh slv v' Hv H Hok. destruct (plain_parts _ _ (sn_plain _ _ H)) as (P1 & P2 & P3).
  assert (binders (set_head (SNODE_SCREF slv v') f) = binders f /\ (forall x, free_in x (set_head (SNODE_SCREF slv v') f) <-> free_in x f) /\
    wt a (set_head (SNODE_SCREF slv v') f) = wt a f /\ spine_head (set_head (SNODE_SCREF slv v') f) = SNODE_SCREF slv v' /\
    plain src (set_head (SNODE_SCREF slv v') f)) as (E1 & E2 & E3 & E4 & E5).
  { clear H. induction f as [sl1 st1 l IHl r _| | | | | | | |]; cbn in Hh, Eh; try done.
    destruct P2 as [P2 P4]. destruct (IHl Hh Eh P2) as (F1 & F2 & F3 & F4 & F5). cbn [set_head binders free_in wt spine_head plain]. split_and!.
    - by rewrite F1.
    - intros x. by rewrite F2.
    - rewrite F3, !may_head; [done | done | by rewrite F4].
    - done.
    - done.
    - done. }
  apply rewrites_same; [done | done | | |].
  - cbn [binders]. rewrite E1. done.
  - intros x. cbn [free_in]. rewrite E2. tauto.
  - split.
    + rewrite wt_call. cbn [wt]. rewrite E3, may_head by (by rewrite E4). cbn. pose proof (wt_pos a f). lia.
    + intros k Hk. rewrite may_head in Hk; [done|]. cbn. by rewrite E4.
Qed.

Lemma next_var_sigs n : same_sigs src (next_var src n).1.
Proof using Type. intros p sc Hp Hs. split; [done|]. by exists sc. Qed.

(** Rule 4. *)
Section conditional.
Context (asl sl1 sl3 sl4 sl5 : sourceloc) (st1 st3 st4 : bool) (c b d : snode) (ap : nat).
Hypothesis Hap : a ap = true.
Hypothesis Hlive : fun_ok src (SNODE_SCREF asl ap) 0.
Local Abbreviation branch sym x := (SNODE_APPLICATION asl false (SNODE_APPLICATION asl false (SNODE_SCREF asl ap) x) (SNODE_SYMBOL asl sym)).
Local Abbreviation cond x y := (SNODE_APPLICATION sl1 st1 (SNODE_APPLICATION sl3 st3 (SNODE_APPLICATION sl4 st4 (SNODE_BUILTIN sl5 B_IF) c) x) y).

Lemma wt_cond x y : wt a (cond x y) = 4 + wt a c + wt a x + wt a y.
Proof using Type. cbn. lia. Qed.

Lemma may_cond x y k : may a (cond x y) k = false.
Proof using Type. by apply may_head. Qed.

Lemma branch_wt sym x : wt a (branch sym x) = 2 + 2 * wt a x.
Proof using Hap. cbn. rewrite Hap. cbn. lia. Qed.

Lemma rule_if_symbol ssl x : sane src (call (cond b d) (SNODE_SYMBOL ssl x)) ->
  rewrites a true src (call (cond b d) (SNODE_SYMBOL ssl x)) src (cond (branch x b) (branch x d)).
Proof using Hq Hap Hlive.
  intros H. destruct (plain_parts _ _ (sn_plain _ _ H)) as (P1 & [[[P2 P3] P4] P5] & P6). apply rewrites_same; [done | | | |].
  - by split_and!.
  - cbn [binders app]. solve_Permutation.
  - intros y. cbn [free_in]. tauto.
  - split; [|intros k Hk; by rewrite may_cond in Hk]. rewrite wt_call, !wt_cond, !branch_wt. cbn. lia.
Qed.

Lemma rule_if_letrec s src1 : src1 = (next_var src "first").1 -> sane src (call (cond b d) s) ->
  rewrites a true src (call (cond b d) s) src1
    (SNODE_LETREC sl [Letrec (genvar (src_varno src)) s false] (cond (branch (genvar (src_varno src)) b) (branch (genvar (src_varno src)) d))).
Proof using Hq Hap Hlive.
  intros -> H. destruct (plain_parts _ _ (sn_plain _ _ H)) as (P1 & [[[P2 P3] P4] P5] & P6).
  assert (binders (SNODE_LETREC sl [Letrec (genvar (src_varno src)) s false] (cond (branch (genvar (src_varno src)) b) (branch (genvar (src_varno src)) d)))
    ≡ₚ genvar (src_varno src) :: binders (call (cond b d) s)) as Hb by (cbn [binders app map lr_name lr_value concat]; solve_Permutation).
  assert (fresh src (next_var src "first").1 (genvar (src_varno src))) as Hf by (exists (src_varno src); split; [cbn; lia | done]).
  split.
  - apply (plain_sigs src); [apply next_var_sigs|]. cbn [plain map lr_value]. split; [by apply Forall_singleton|]. by split_and!.
  - intros y. rewrite free_in_letrec. cbn [map lr_name lr_value]. intros [Hy [(v & ->%list_elem_of_singleton & Hv)|Hv]].
    + cbn. tauto.
    + cbn [free_in] in *. rewrite list_elem_of_singleton in Hy. tauto.
  - intros y. rewrite Hb, elem_of_cons. intros [->|Hy]; [by right | by left].
  - rewrite Hb. apply NoDup_cons. split; [|apply H]. intros Hin. eapply fresh_not_older; [exact Hf|]. apply (sn_older _ _ H). by left.
  - split; [|done]. rewrite wt_call, wt_cond. cbn [wt sum_list_with lr_value]. fold (wt a).
    pose proof (wt_cond (branch (genvar (src_varno src)) b) (branch (genvar (src_varno src)) d)) as E. rewrite !branch_wt in E.
    cbn [wt] in E |- *. pose proof (wt_pos a c). cbn [Nat.b2n]. lia.
Qed.
End conditional.
End tree_rules.

(** ** The program in between *)

(** A body that may be copied. *)
Record good_body (src : source) (args : list string) (body : snode) : Prop := {
  gb_plain : plain src body;
  gb_closed : forall x, free_in x body -> x ∈ args;
  gb_nodup : NoDup (args ++ binders body);
  gb_older : forall x, x ∈ args ++ binders body -> older src x
}.

Lemma good_body_sane src args body : good_body src args body -> sane src body.
Proof.
  intros [H1 H2 H3 H4]. apply list.NoDup_app in H3 as (N1 & D & N2). setoid_rewrite elem_of_app in H4. split; [done | done | |].
  - intros x Hx Hf. by apply (D x); auto.
  - intros x [Hx|Hx]; auto.
Qed.

Lemma good_body_mono src src' args body : same_sigs src src' -> (src_varno src <= src_varno src')%N -> good_body src args body ->
  good_body src' args body.
Proof. intros Hs Hv [H1 H2 H3 H4]. split; [by eapply plain_sigs | done | done |]. intros x Hx. eapply older_mono; eauto. Qed.

Lemma good_body_rewrites a b src args body src' body' : same_sigs src src' -> (src_varno src <= src_varno src')%N ->
  good_body src args body -> rewrites a b src body src' body' -> good_body src' args body'.
Proof.
  intros Hs Hv [H1 H2 H3 H4] [R1 R2 R3 R4 R5]. apply list.NoDup_app in H3 as (N1 & D & N2). setoid_rewrite elem_of_app in H4.
  split; [done | auto | |].
  - apply list.NoDup_app. split_and!; [done | | done]. intros x Hx Hb. destruct (R3 x Hb) as [?|Hf]; [by apply (D x)|].
    eapply fresh_not_older; [exact Hf|]. auto.
  - intros x [Hx|Hx]%elem_of_app; [eapply older_mono; eauto|]. destruct (R3 x Hx) as [?|Hf]; [eapply older_mono; eauto | by eapply fresh_older].
Qed.

(** A supercombinator with such a body. *)
Record sound_scomb (src : source) (sc : scomb) : Prop := {
  ss_body : exists body, sc_body sc = Some body /\ good_body src (sc_argnames sc) body;
  ss_strict : forall st, sc_strictin sc = Some st -> length st = sc_nargs sc;
  ss_lazy : forall st, sc_lazyin sc = Some st -> length st = sc_nargs sc
}.

Lemma sound_scomb_mono src src' sc : same_sigs src src' -> (src_varno src <= src_varno src')%N -> sound_scomb src sc -> sound_scomb src' sc.
Proof.
  intros Hs Hv [(body & H1 & H2) H3 H4]. split; [|done|done]. exists body. split; [done | by eapply good_body_mono].
Qed.

(** A scomb that may have got a version that appends. *)
Definition kept (sc sc' : scomb) : Prop := exists v, sc' = set_append (sc_doesappend sc) v sc.

Lemma kept_self sc : kept sc sc.
Proof. exists (sc_appendver sc). by destruct sc. Qed.
Lemma kept_trans s1 s2 s3 : kept s1 s2 -> kept s2 s3 -> kept s1 s3.
Proof. intros [v1 ->] [v2 ->]. by exists v2. Qed.

Section pass.
(** Which supercombinator is [append], and how many there were at first. *)
Context (a : nat -> bool) (n0 : nat).

Record phase (src : source) : Prop := {
  ph_wf : wf_source src;
  ph_indexed : indexed src;
  ph_sound : forall p sc, p ∈ src_scombs src -> src_heap src !! p = Some sc -> sound_scomb src sc;
  ph_append : forall p, a p = true <-> p ∈ src_scombs src /\ name_at src p = Some "append";
  ph_version : forall p sc v, p ∈ src_scombs src -> src_heap src !! p = Some sc -> sc_appendver sc = Some v ->
    v ∈ src_scombs src /\ sc_doesappend sc = false /\ exists vsc, src_heap src !! v = Some vsc /\ sc_doesappend vsc = true;
  ph_inj : forall p q sc sc' v, p ∈ src_scombs src -> q ∈ src_scombs src -> src_heap src !! p = Some sc -> src_heap src !! q = Some sc' ->
    sc_appendver sc = Some v -> sc_appendver sc' = Some v -> p = q;
  ph_new : forall p sc, p ∈ src_scombs src -> src_heap src !! p = Some sc -> sc_doesappend sc = true <-> n0 <= sc_index sc;
  ph_origin : forall v vsc, v ∈ src_scombs src -> src_heap src !! v = Some vsc -> sc_doesappend vsc = true ->
    exists p sc, p ∈ src_scombs src /\ src_heap src !! p = Some sc /\ sc_appendver sc = Some v;
  ph_count : n0 <= length (src_scombs src);
  ph_base : forall p sc, a p = true -> src_heap src !! p = Some sc -> sc_doesappend sc = false
}.

Record step (src src' : source) : Prop := {
  st_phase : phase src';
  st_varno : (src_varno src <= src_varno src')%N;
  st_scombs : exists l, src_scombs src' = src_scombs src ++ l;
  st_heap : forall p sc, p ∈ src_scombs src -> src_heap src !! p = Some sc -> exists sc', src_heap src' !! p = Some sc' /\ kept sc sc'
}.

Lemma step_refl src : phase src -> step src src.
Proof. intros H. split; [done | lia | exists []; by rewrite app_nil_r |]. intros p sc _ Hs. exists sc. split; [done | apply kept_self]. Qed.

Lemma step_live src src' p : step src src' -> p ∈ src_scombs src -> p ∈ src_scombs src'.
Proof. intros [_ _ [l ->] _] Hp. apply elem_of_app. by left. Qed.

Lemma step_trans s1 s2 s3 : step s1 s2 -> step s2 s3 -> step s1 s3.
Proof.
  intros H1 H2. split; [apply H2 | | |].
  - pose proof (st_varno _ _ H1). pose proof (st_varno _ _ H2). lia.
  - destruct (st_scombs _ _ H1) as [l1 E1], (st_scombs _ _ H2) as [l2 E2]. exists (l1 ++ l2). by rewrite E2, E1, app_assoc.
  - intros p sc Hp Hs. destruct (st_heap _ _ H1 p sc Hp Hs) as (sc1 & Hs1 & K1).
    destruct (st_heap _ _ H2 p sc1 (step_live _ _ _ H1 Hp) Hs1) as (sc2 & Hs2 & K2). exists sc2. split; [done | by eapply kept_trans].
Qed.

Lemma step_sigs src src' : step src src' -> same_sigs src src'.
Proof.
  intros H p sc Hp Hs. split; [by eapply step_live|]. destruct (st_heap _ _ H p sc Hp Hs) as (sc' & Hs' & [v ->]). by eexists.
Qed.

Lemma next_var_step src n : phase src -> step src (next_var src n).1.
Proof.
  intros [H1 H2 H3 H4 H5 H6 H7 H8 H9 H10]. split.
  - split; try done; [by destruct H1|]. intros p sc Hp Hs. eapply sound_scomb_mono; [apply next_var_sigs | cbn; lia | by eapply H3].
  - cbn. lia.
  - exists []. by rewrite app_nil_r.
  - intros p sc _ Hs. exists sc. split; [done | apply kept_self].
Qed.

(** A new version. *)
Section add_version.
Context (src src' : source) (p v : nat) (sc vsc : scomb).
Hypothesis Hph : phase src.
Hypothesis Hp : p ∈ src_scombs src.
Hypothesis Hsc : src_heap src !! p = Some sc.
Hypothesis Hno : sc_appendver sc = None.
Hypothesis Hdoes : sc_doesappend sc = false.
Hypothesis Hwf : wf_source src'.
Hypothesis Hscs : src_scombs src' = src_scombs src ++ [v].
Hypothesis Hv : v ∉ src_scombs src.
Hypothesis Hp' : src_heap src' !! p = Some (set_append false (Some v) sc).
Hypothesis Hv' : src_heap src' !! v = Some vsc.
Hypothesis Hold : forall q, q ∈ src_scombs src -> q <> p -> src_heap src' !! q = src_heap src !! q.
Hypothesis Hvar : (src_varno src <= src_varno src')%N.
Hypothesis Hidx : sc_index vsc = length (src_scombs src).
Hypothesis Hvd : sc_doesappend vsc = true.
Hypothesis Hvv : sc_appendver vsc = None.
Hypothesis Hvn : sc_name vsc <> "append".
Hypothesis Hvs : sound_scomb src' vsc.

Lemma added_live q : q ∈ src_scombs src' <-> q ∈ src_scombs src \/ q = v.
Proof using Hscs. by rewrite Hscs, elem_of_app, list_elem_of_singleton. Qed.

Lemma added_heap q scq : q ∈ src_scombs src' -> src_heap src' !! q = Some scq ->
  (q = v /\ scq = vsc) \/ (q = p /\ q ∈ src_scombs src /\ scq = set_append false (Some v) sc) \/
  (q ∈ src_scombs src /\ q <> p /\ src_heap src !! q = Some scq).
Proof using Hscs Hp' Hv' Hold Hp.
  intros Hq Hs. apply added_live in Hq as [Hq| ->]; [|left; by simplify_eq].
  destruct (decide (q = p)) as [->|Hd]; [right; left; by simplify_eq|]. right. right. rewrite Hold in Hs by done. done.
Qed.

Lemma added_kept q scq : q ∈ src_scombs src -> src_heap src !! q = Some scq -> exists sc', src_heap src' !! q = Some sc' /\ kept scq sc'.
Proof using Hp' Hold Hsc Hdoes.
  intros Hq Hs. destruct (decide (q = p)) as [->|Hd].
  - exists (set_append false (Some v) sc). split; [done|]. rewrite Hsc in Hs. injection Hs as <-. exists (Some v). by rewrite Hdoes.
  - exists scq. rewrite Hold by done. split; [done | apply kept_self].
Qed.

Lemma added_sigs : same_sigs src src'.
Proof using Hscs Hp' Hold Hsc Hdoes.
  intros q scq Hq Hs. split; [apply added_live; by left|]. destruct (added_kept q scq Hq Hs) as (sc' & ? & [w ->]). by eexists.
Qed.

Lemma added_phase : phase src'.
Proof using Hdoes Hidx Hno Hold Hp Hp' Hph Hsc Hscs Hv Hv' Hvar Hvd Hvn Hvs Hvv Hwf.
  destruct Hph as [P1 P2 P3 P4 P5 P6 P7 P8 P9 P10]. split; [done | | | | | | | | |].
  - intros i q scq Hi Hs. rewrite Hscs in Hi. apply lookup_snoc_inv in Hi as [Hi|[-> ->]]; [|by simplify_eq].
    pose proof (list_elem_of_lookup_2 _ _ _ Hi) as Hq. destruct (decide (q = p)) as [->|Hd].
    + rewrite Hp' in Hs. injection Hs as <-. by apply (P2 i p sc).
    + rewrite Hold in Hs by done. by apply (P2 i q scq).
  - intros q scq Hq Hs. destruct (added_heap q scq Hq Hs) as [[-> ->]|[(-> & _ & ->)|(Hq1 & _ & Hs1)]]; [done | |].
    + pose proof (sound_scomb_mono _ _ _ added_sigs Hvar (P3 p sc Hp Hsc)) as [S1 S2 S3]. by split.
    + eapply sound_scomb_mono; [apply added_sigs | done | by eapply P3].
  - intros q. rewrite P4, added_live. unfold name_at. split.
    + intros [Hq Hn]. split; [by left|]. destruct (decide (q = p)) as [->|Hd]; [by rewrite Hp'; rewrite Hsc in Hn | by rewrite Hold].
    + intros [[Hq| ->] Hn]; [|rewrite Hv' in Hn; cbn in Hn; congruence]. split; [done|].
      destruct (decide (q = p)) as [->|Hd]; [by rewrite Hp' in Hn; rewrite Hsc | by rewrite Hold in Hn].
  - intros q scq w Hq Hs Hw. destruct (added_heap q scq Hq Hs) as [[-> ->]|[(-> & _ & ->)|(Hq1 & _ & Hs1)]]; [congruence | |].
    + injection Hw as <-. split_and!; [apply added_live; by right | done | by exists vsc].
    + destruct (P5 q scq w Hq1 Hs1 Hw) as (H1 & H2 & vsc' & H3 & H4). split_and!; [apply added_live; by left | done |].
      destruct (added_kept w vsc' H1 H3) as (x & ? & [z ->]). by eexists.
  - intros q r scq scr w Hq Hr Hsq Hsr Hwq Hwr.
    destruct (added_heap q scq Hq Hsq) as [[-> ->]|[(-> & _ & ->)|(Hq1 & _ & Hs1)]]; [congruence | |];
      (destruct (added_heap r scr Hr Hsr) as [[-> ->]|[(-> & _ & ->)|(Hr1 & _ & Hs2)]]; [congruence | |]); [done | | | by eapply (P6 q r)].
    + injection Hwq as <-. by destruct (P5 r scr v Hr1 Hs2 Hwr) as [? _].
    + injection Hwr as <-. by destruct (P5 q scq v Hq1 Hs1 Hwq) as [? _].
  - intros q scq Hq Hs. destruct (added_heap q scq Hq Hs) as [[-> ->]|[(-> & _ & ->)|(Hq1 & _ & Hs1)]]; [| |by apply P7 with (p := q)].
    + rewrite Hvd, Hidx. by split.
    + cbn. rewrite <- Hdoes. by apply P7 with (p := p).
  - intros q scq Hq Hs Hd. destruct (added_heap q scq Hq Hs) as [[-> ->]|[(-> & _ & ->)|(Hq1 & Hne & Hs1)]]; [|done|].
    + exists p, (set_append false (Some v) sc). split_and!; [apply added_live; by left | done | done].
    + destruct (P8 q scq Hq1 Hs1 Hd) as (r & scr & Hr & Hsr & Hw). exists r, scr. split_and!; [apply added_live; by left | | done].
      rewrite Hold; [done | done |]. intros ->. congruence.
  - rewrite Hscs, length_app. lia.
  - intros q scq Ha Hs. pose proof (proj1 (P4 q) Ha) as [Hq _]. destruct (decide (q = p)) as [->|Hd]; [by simplify_eq|].
    rewrite Hold in Hs by done. by apply (P10 q).
Qed.

Lemma added_step : step src src'.
Proof using Hdoes Hidx Hno Hold Hp Hp' Hph Hsc Hscs Hv Hv' Hvar Hvd Hvn Hvs Hvv Hwf.
  split; [apply added_phase | done | by exists [v] | apply added_kept].
Qed.
End add_version.

Lemma copy_flags_ok n fl : (forall st, fl = Some st -> length st = n) -> exists fl', copy_flags n fl = Done fl' /\
  forall st, fl' = Some st -> length st = S n.
Proof.
  intros H. destruct fl as [st|]; [|by exists None]. pose proof (H st eq_refl) as Hl. exists (Some (take n st ++ [false])). split.
  - unfold copy_flags. by rewrite (proj2 (Nat.leb_le _ _)) by lia.
  - intros st' [= <-]. rewrite length_app, length_take. cbn. lia.
Qed.

Lemma append_live src : phase src -> (exists q, a q = true) -> exists ap, get_scomb src "append" = Some ap /\ a ap = true /\ ap ∈ src_scombs src.
Proof.
  intros H [q Hq]. pose proof Hq as Hq2. apply (ph_append _ H) in Hq2 as [Hl Hn]. exists q. split; [|done].
  apply get_scomb_spec; [apply H | done].
Qed.

(** The body of the new version: what it appends to is a new variable, and the
    copy of the old body binds names generated after that one. *)
Lemma version_body_good src src' ap sl args body copy : good_body src args body -> ap ∈ src_scombs src' -> is_Some (src_heap src' !! ap) ->
  plain src' copy -> (forall x, free_in x copy -> x ∈ args) -> binders copy = genvars (src_varno src + 1) (length (binders body)) ->
  src_varno src' = (src_varno src + 1 + N.of_nat (length (binders body)))%N ->
  good_body src' (args ++ [genvar (src_varno src)])
    (SNODE_APPLICATION sl false (SNODE_APPLICATION sl false (SNODE_SCREF sl ap) copy) (SNODE_SYMBOL sl (genvar (src_varno src)))).
Proof.
  intros [G1 G2 G3 G4] Hl [sca Hsa] Hpc Hcf Hcb Evar. apply list.NoDup_app in G3 as (N1 & _ & _). setoid_rewrite elem_of_app in G4.
  assert (forall x, x ∈ binders copy -> exists j, (src_varno src < j < src_varno src')%N /\ x = genvar j) as Hcf2.
  { rewrite Hcb. intros x (i & Hi & ->)%genvars_elem. eexists. split; [|done]. lia. }
  assert (~ older src (genvar (src_varno src))) as Hrn by (intros H; pose proof (H _ eq_refl); lia).
  split.
  - cbn [plain]. split_and!; [|done|done]. split; [done|]. exists sca. split; [done | lia].
  - intros x. cbn. rewrite elem_of_app, list_elem_of_singleton. intros [[[]|Hx]| ->]; [left; by apply Hcf | by right].
  - cbn [binders app]. rewrite app_nil_r. apply list.NoDup_app. split_and!.
    + apply list.NoDup_app. split_and!; [done | | apply NoDup_singleton]. intros x Hx ->%list_elem_of_singleton. apply Hrn, G4. by left.
    + intros x Hx (j & Hj & ->)%Hcf2. apply elem_of_app in Hx as [Hx|Hx%list_elem_of_singleton].
      * pose proof (G4 _ (or_introl Hx) j eq_refl). lia.
      * apply genvar_inj in Hx. lia.
    + rewrite Hcb. apply genvars_NoDup.
  - cbn [binders app]. rewrite app_nil_r. intros x. rewrite !elem_of_app, list_elem_of_singleton.
    intros [[Hx| ->]|(j & Hj & ->)%Hcf2]; [|intros i Ei%genvar_inj; lia|].
    + eapply older_mono; [|apply G4; by left]. lia.
    + intros i Ei%genvar_inj. lia.
Qed.

(** The version of [sc] that appends: it has a copy of the body. *)
Definition version_of (src : source) (sc : scomb) (body : snode) (vsc : scomb) : Prop := exists ap sl copy,
  get_scomb src "append" = Some ap /\ sc_argnames vsc = sc_argnames sc ++ [genvar (src_varno src)] /\ strip copy = strip body /\
  sc_body vsc = Some (SNODE_APPLICATION sl false (SNODE_APPLICATION sl false (SNODE_SCREF sl ap) copy) (SNODE_SYMBOL sl (genvar (src_varno src)))).

Lemma make_version_ok src p sc body : phase src -> p ∈ src_scombs src -> src_heap src !! p = Some sc -> sc_appendver sc = None ->
  sc_doesappend sc = false -> (exists q, a q = true) -> good_body src (sc_argnames sc) body ->
  exists src' v vsc, make_append_version src p body = Done src' /\ step src src' /\ v ∈ src_scombs src' /\
    src_heap src' !! p = Some (set_append false (Some v) sc) /\ src_heap src' !! v = Some vsc /\ sc_doesappend vsc = true /\ version_of src sc body vsc.
Proof.
  intros Hph Hp Hsc Hno Hdoes Hap Hgb. destruct (append_live src Hph Hap) as (ap & Hget & Hapa & Hapl).
  pose proof (ph_wf _ Hph) as Hwf. destruct (add_scomb_ok src (sc_name sc) Hwf) as (name & k & _ & Hfr & Eadd).
  set (v := length (src_heap src)) in *. set (src1 := push_scomb src name) in *.
  set (src2 := (next_var src1 "rest").1). set (rest := genvar (src_varno src)).
  destruct (ph_sound _ Hph p sc Hp Hsc) as [_ Hss Hsl].
  destruct (copy_flags_ok (sc_nargs sc) (sc_strictin sc) Hss) as (st' & Est & Hst'). destruct (copy_flags_ok (sc_nargs sc) (sc_lazyin sc) Hsl) as (lz' & Elz & Hlz').
  assert (forall q, q ∈ src_scombs src -> q < v) as Hlt by (intros q Hq; by apply live_lt).
  assert (same_sigs src src2) as Hsig2.
  { intros q scq Hq Hs. split; [cbn; apply elem_of_app; by left|]. exists scq. split; [|done]. cbn. rewrite lookup_app_l; [done | by apply Hlt]. }
  pose proof (good_body_mono src src2 _ _ Hsig2 ltac:(cbn; lia) Hgb) as Hgb2.
  destruct (copy_ok src2 (sc_argnames sc) body (sc_argnames sc ++ [rest])) as (src3 & copy & Ecopy & Hadv & _ & Hstrip & Hcb & Hcf);
    [apply Hgb2 | apply Hgb2 | rewrite length_app; lia | apply Hgb2 |].
  rewrite take_app_length in Hcf.
  set (sl := node_sl body).
  set (app2 := SNODE_APPLICATION sl false (SNODE_APPLICATION sl false (SNODE_SCREF sl ap) copy) (SNODE_SYMBOL sl rest)).
  set (f := fun n => set_append true (sc_appendver n) (set_strictin st' lz' (set_argnames (sc_argnames sc ++ [rest]) (set_body app2 n)))).
  set (src' := upd (upd src3 v f) p (fun sc => set_append (sc_doesappend sc) (Some v) sc)).
  assert (make_append_version src p body = Done src') as E.
  { unfold make_append_version, getsc. rewrite Hsc. cbn [deref mbind outcome_bind]. rewrite Eadd. cbn [mbind outcome_bind].
    change (next_var src1 "rest") with (src2, rest). cbv beta iota zeta. rewrite Est. cbn [mbind outcome_bind]. rewrite Elz. cbn [mbind outcome_bind].
    assert (get_scomb src2 "append" = Some ap) as -> by (by apply (push_get_old src name Hwf Hfr)).
    cbn [deref mbind outcome_bind]. rewrite Ecopy. done. }
  assert (src_heap src' = alter (fun sc => set_append (sc_doesappend sc) (Some v) sc) p (alter f v (src_heap src ++ [new_scomb name (length (src_scombs src))]))) as Eh
    by (subst src'; rewrite Hadv; done).
  assert (p < v) as Hpv by (by apply Hlt).
  assert (src_heap src' !! p = Some (set_append false (Some v) sc)) as Hp'.
  { rewrite Eh, list_lookup_alter_eq, list_lookup_alter_ne, lookup_app_l, Hsc by lia. cbn. by rewrite Hdoes. }
  assert (src_heap src' !! v = Some (f (new_scomb name (length (src_scombs src))))) as Hv'.
  { rewrite Eh, list_lookup_alter_ne, list_lookup_alter_eq by lia. subst v. by rewrite lookup_snoc_new. }
  assert (src_scombs src' = src_scombs src ++ [v]) as Es by (subst src'; rewrite Hadv; done).
  assert (forall q, q ∈ src_scombs src -> q <> p -> src_heap src' !! q = src_heap src !! q) as Hold.
  { intros q Hq Hne. pose proof (Hlt q Hq). rewrite Eh, !list_lookup_alter_ne, lookup_app_l by lia. done. }
  assert (src_varno src' = src_varno src + 1 + N.of_nat (length (binders body)))%N as Evar by (subst src'; rewrite Hadv; done).
  assert (wf_source src3) as Hwf3 by (rewrite Hadv; pose proof (push_wf src name Hwf Hfr) as [? ? ? ?]; by split).
  assert (v ∉ src_scombs src) as Hvn by (intros Hin%Hlt; lia).
  assert (same_sigs src src') as Hsig by (by eapply (added_sigs src src' p v sc)).
  assert (plain src' copy) as Hpc by (eapply plain_sigs; [exact Hsig|]; rewrite <- plain_strip, Hstrip, plain_strip; apply Hgb).
  assert (good_body src' (sc_argnames sc ++ [rest]) app2) as Hgv.
  { destruct (wf_valid _ Hwf ap Hapl) as [sca Hsa]. destruct (Hsig ap sca Hapl Hsa) as (Hl & sca' & Hsa' & _). apply (version_body_good src src' ap sl _ body); try done. }
  exists src', v, (f (new_scomb name (length (src_scombs src)))). split_and!; [done | | rewrite Es; apply elem_of_app; right; by left | done | done | done | by exists ap, sl, copy].
  eapply (added_step src src' p v sc); try done; [| lia | |].
  - by apply upd_wf, upd_wf.
  - cbn. intros En. rewrite En in Hfr. congruence.
  - split; [exists app2; split; [done | exact Hgv] | |]; cbn; unfold sc_nargs; cbn; rewrite length_app, Nat.add_comm; done.
Qed.

(** *** The rules on a program *)

Lemma rewrites_weaken b src c src' c' : rewrites a b src c src' c' -> rewrites a false src c src' c'.
Proof. intros [H1 H2 H3 H4 [H5 H6]]. split; try done. split; [destruct b; cbn in *; lia | done]. Qed.

Lemma rewrites_from b src src' c c' : rewrites a b src' c src' c' -> rewrites a b src c src' c'.
Proof.
  intros [H1 H2 H3 H4 H5]. split; try done. intros x Hx. destruct (H3 x Hx) as [?|(k & Hk & _)]; [by left | lia].
Qed.

Lemma plain_spine_head src c : plain src c -> plain src (spine_head c).
Proof. induction c as [sl st l IHl r _| | | | | | | |]; try done. cbn. intros [H _]. by apply IHl. Qed.

Lemma is_append_ok src p sc : phase src -> p ∈ src_scombs src -> src_heap src !! p = Some sc -> is_append src p = Done (a p).
Proof.
  intros Hph Hp Hs. unfold is_append, getsc. rewrite Hs. cbn. f_equal. pose proof (ph_append _ Hph p) as H. unfold name_at in H. rewrite Hs in H. cbn in H.
  destruct (String.eqb_spec (sc_name sc) "append") as [E|E], (a p); try done.
  - symmetry. apply H. by rewrite E.
  - exfalso. apply E. destruct (proj1 H eq_refl) as [_ [= En]]. done.
Qed.

Section rules.
(** The supercombinator whose body is being rewritten. *)
Context (cur : nat).

Definition whole_ok (src : source) (whole : snode) : Prop :=
  exists csc, cur ∈ src_scombs src /\ src_heap src !! cur = Some csc /\ good_body src (sc_argnames csc) whole.

Lemma append_version_ok src p sc whole : phase src -> p ∈ src_scombs src -> src_heap src !! p = Some sc -> sc_doesappend sc = false ->
  (exists q, a q = true) -> whole_ok src whole ->
  exists src' v vsc, append_version src p (body_now cur src whole p) = Done (src', v) /\ step src src' /\ v ∈ src_scombs src' /\
    src_heap src' !! v = Some vsc /\ sc_doesappend vsc = true.
Proof.
  intros Hph Hp Hs Hd Ha (csc & Hcl & Hcs & Hw). unfold append_version, getsc. rewrite Hs. cbn [deref mbind outcome_bind].
  destruct (sc_appendver sc) as [v|] eqn:Ev.
  - destruct (ph_version _ Hph p sc v Hp Hs Ev) as (Hv & _ & vsc & Hvs & Hvd). exists src, v, vsc.
    cbn [deref mbind outcome_bind]. rewrite Hs. cbn [deref mbind outcome_bind]. rewrite Ev. cbn [deref mbind outcome_bind]. rewrite Hvs. cbn [deref mbind outcome_bind].
    rewrite Hvd. split_and!; [done | by apply step_refl | done..].
  - assert (exists body, body_now cur src whole p = Done body /\ good_body src (sc_argnames sc) body) as (body & -> & Hb).
    { unfold body_now. destruct (Nat.eqb_spec p cur) as [->|_]; [exists whole; split; [done | by simplify_eq]|].
      unfold getsc. rewrite Hs. destruct (ss_body _ _ (ph_sound _ Hph p sc Hp Hs)) as (body & Hb & Hg). exists body. cbn. by rewrite Hb. }
    cbn [mbind outcome_bind]. destruct (make_version_ok src p sc body Hph Hp Hs Ev Hd Ha Hb) as (src' & v & vsc & -> & Hst & Hv & Hps & Hvs & Hvd & _).
    cbn [mbind outcome_bind]. exists src', v, vsc. rewrite Hps. cbn [deref mbind outcome_bind sc_appendver set_append].
    rewrite Hvs. cbn [deref mbind outcome_bind]. rewrite Hvd. done.
Qed.

Section node.
Context (src : source) (whole : snode) (q : nat) (sl sl2 slr : sourceloc) (st st2 : bool).
Hypothesis Hph : phase src.
Hypothesis Hw : whole_ok src whole.
Hypothesis Hq : a q = true.
Local Abbreviation app2 := (SNODE_APPLICATION sl2 st2 (SNODE_SCREF slr q)).
Local Abbreviation call f s := (SNODE_APPLICATION sl st (app2 f) s).

(** What the rules may answer. *)
Definition rewritten (c : snode) (r : outcome (source * bool * snode)) : Prop :=
  exists src' ch c', r = Done (src', ch, c') /\ step src src' /\ rewrites a ch src c src' c'.

Lemma rewritten_same ch c c' : rewrites a ch src c src c' -> rewritten c (Done (src, ch, c')).
Proof using Hph. intros H. exists src, ch, c'. split_and!; [done | by apply step_refl | done]. Qed.

Lemma rewritten_unchanged c : sane src c -> rewritten c (Done (src, false, c)).
Proof using Hph. intros H. apply rewritten_same. by apply rewrites_refl. Qed.

Lemma push_append_ok f s : (forall sl1 st1 l r, f = SNODE_APPLICATION sl1 st1 l r -> forall j, may a l j = true -> j = 1) ->
  (count_args f = 0 -> names_append a (spine_head f) = false) -> sane src (call f s) -> rewrites a true src (call f s) src (push_append app2 f s).
Proof using Hq.
  intros H1 H2 Hsn. destruct f as [sl1 st1 l r| | | | | | | |]; try (by apply rule_first; [done | by apply H2 | done]). apply rule_push; [done | | done].
  by apply (H1 sl1 st1 l r).
Qed.

Lemma append_if_ok sl1 st1 sl3 st3 sl4 st4 sl5 c b d s :
  let first := SNODE_APPLICATION sl1 st1 (SNODE_APPLICATION sl3 st3 (SNODE_APPLICATION sl4 st4 (SNODE_BUILTIN sl5 B_IF) c) b) d in
  sane src (call first s) -> rewritten (call first s) ('(src, s) ← append_if src sl first s; Done (src, true, s)).
Proof using Hph Hq.
  cbv zeta. intros Hsn. destruct (append_live src Hph (ex_intro _ q Hq)) as (ap & Hget & Hap & Hl).
  assert (fun_ok src (SNODE_SCREF sl5 ap) 0) as Hok.
  { destruct (wf_valid _ (ph_wf _ Hph) ap Hl) as [sca Hs]. split; [done|]. exists sca. split; [done | lia]. }
  unfold append_if. cbn [spine_head node_sl]. change (next_var src "first") with ((next_var src "first").1, genvar (src_varno src)).
  cbv beta iota. change (get_scomb (next_var src "first").1 "append") with (get_scomb src "append"). rewrite Hget. cbn [deref mbind outcome_bind].
  assert (step src (next_var src "first").1) as Hst by (by apply next_var_step).
  destruct s as [| | |ssl x| | | | |]; eexists _, true, _; (split; [reflexivity|]); (split; [exact Hst|]);
    try (by apply rule_if_letrec).
  apply (rule_if_symbol a src q sl sl2 slr st st2 Hq sl5 sl1 sl3 sl4 sl5 st1 st3 st4 c b d ap Hap Hok) in Hsn. destruct Hsn as [R1 R2 R3 R4 R5].
  split; [by apply (plain_sigs src); [apply next_var_sigs|] | done | | done | done]. intros y Hy. destruct (R3 y Hy) as [?|(k & Hk & _)]; [by left | lia].
Qed.

(** The cases of [append_rules] by the head of [first]. *)
Definition head_rules (f s : snode) : outcome (source * bool * snode) :=
  let unchanged := Done (src, false, call f s) in
  match spine_head f with
  | SNODE_NIL _ => if Nat.eqb (count_args f) 0 then Done (src, true, s) else unchanged
  | SNODE_BUILTIN _ bif =>
      if Nat.eqb bif B_CONS && Nat.eqb (count_args f) 2 then Done (src, true, push_append app2 f s)
      else if Nat.eqb bif B_IF && Nat.eqb (count_args f) 3 then '(src, s) ← append_if src sl f s; Done (src, true, s)
      else unchanged
  | SNODE_SCREF asl p =>
      b ← is_append src p;
      if b : bool then if Nat.eqb (count_args f) 2 then Done (src, true, push_append app2 f s) else unchanged
      else
        sc ← getsc src p;
        if sc_doesappend sc then Done (src, false, push_append app2 f s)
        else '(src, v) ← append_version src p (body_now cur src whole p);
             Done (src, true, SNODE_APPLICATION sl st (set_head (SNODE_SCREF asl v) f) s)
  | _ => unchanged
  end.

Lemma append_rules_head f s : (forall lsl bs b, f <> SNODE_LETREC lsl bs b) -> append_rules cur src whole sl st app2 f s = head_rules f s.
Proof using Type. intros H. unfold append_rules, head_rules. destruct f; try done. by destruct (H sl0 bindings f). Qed.

Lemma count_args_app f n : count_args f = S n -> exists sl1 st1 l r, f = SNODE_APPLICATION sl1 st1 l r /\ count_args l = n.
Proof using Type. destruct f as [sl1 st1 l r| | | | | | | |]; try done. intros [= H]. by exists sl1, st1, l, r. Qed.

Lemma count_args_leaf f : count_args f = 0 -> spine_head f = f.
Proof using Type. by destruct f. Qed.

Lemma scref_rules_ok f s asl p : spine_head f = SNODE_SCREF asl p -> sane src (call f s) -> rewritten (call f s) (head_rules f s).
Proof using Hph Hw Hq.
  intros Eh Hsn. destruct (plain_parts src q sl sl2 slr st st2 _ _ (sn_plain _ _ Hsn)) as (_ & Hpf & _). pose proof (plain_spine_head _ _ Hpf) as Hp.
  rewrite Eh in Hp. destruct Hp as (Hp & psc & Hps & _). unfold head_rules. rewrite Eh, (is_append_ok src p psc Hph Hp Hps). cbn [mbind outcome_bind].
  destruct (a p) eqn:Ea.
  - destruct (Nat.eqb_spec (count_args f) 2) as [En|]; [|by apply rewritten_unchanged]. apply rewritten_same, push_append_ok; [| lia | done].
    intros sl1 st1 l r -> j Hj. cbn in En, Eh. apply Nat.succ_inj in En. apply count_args_app in En as (sl3 & st3 & l3 & r3 & -> & E0).
    apply count_args_leaf in E0. cbn in Eh. rewrite Eh in E0. subst l3. destruct j as [|[|j]]; cbn in Hj; [|done|]; by rewrite ?andb_false_r, ?Ea in Hj.
  - assert (names_append a (spine_head f) = false) as Hna by (by rewrite Eh).
    unfold getsc. rewrite Hps. cbn [deref mbind outcome_bind]. destruct (sc_doesappend psc) eqn:Ed.
    + apply rewritten_same. eapply rewrites_weaken. apply push_append_ok; [|done|done].
      intros sl1 st1 l r -> j Hj. rewrite may_head in Hj by done. done.
    + destruct (append_version_ok src p psc whole Hph Hp Hps Ed (ex_intro _ q Hq) Hw) as (src' & v & vsc & -> & Hst & Hv & Hvs & Hvd).
      cbn [mbind outcome_bind]. eexists src', true, _. split; [reflexivity|]. split; [done|].
      eapply rewrites_from, rule_version; [done | done | exact Eh | | eapply sane_mono; [by apply step_sigs | apply Hst | done] |].
      * destruct (a v) eqn:Eav; [|done]. pose proof (ph_base _ (st_phase _ _ Hst) v vsc Eav Hvs). congruence.
      * split; [done|]. exists vsc. split; [done | lia].
Qed.

Lemma append_rules_ok f s : sane src (call f s) -> rewritten (call f s) (append_rules cur src whole sl st app2 f s).
Proof using Hph Hw Hq.
  intros Hsn. assert ((exists lsl bs b, f = SNODE_LETREC lsl bs b) \/ ~ exists lsl bs b, f = SNODE_LETREC lsl bs b) as [(lsl & bs & b & ->)|Hl].
  { destruct f; try (right; intros (? & ? & ? & ?); discriminate). left. eauto. }
  { apply rewritten_same. by apply rule_letrec. }
  rewrite append_rules_head by (intros lsl bs b ->; apply Hl; eauto).
  destruct (spine_head f) as [| |sl5 bif| | |asl p| | |] eqn:Eh; try (unfold head_rules; rewrite Eh; by apply rewritten_unchanged).
  - unfold head_rules. rewrite Eh.
    assert (forall k, may a f k = false) as Hm by (intros k; apply may_head; by rewrite Eh).
    destruct (Nat.eqb bif B_CONS && Nat.eqb (count_args f) 2).
    { apply rewritten_same, push_append_ok; [| by rewrite Eh | done]. intros sl1 st1 l r -> j Hj. rewrite may_head in Hj; [done|]. cbn in Eh. by rewrite Eh. }
    destruct (Nat.eqb_spec bif B_IF) as [->|]; [|by apply rewritten_unchanged].
    destruct (Nat.eqb_spec (count_args f) 3) as [En|]; [|by apply rewritten_unchanged]. cbn [andb].
    apply count_args_app in En as (sl1 & st1 & l1 & d & -> & En). apply count_args_app in En as (sl3 & st3 & l3 & b & -> & En).
    apply count_args_app in En as (sl4 & st4 & l4 & c & -> & En). apply count_args_leaf in En. cbn in Eh. rewrite Eh in En. subst l4.
    by apply append_if_ok.
  - by eapply scref_rules_ok.
  - unfold head_rules. rewrite Eh. destruct (count_args f =? 0); [|by apply rewritten_unchanged]. apply rewritten_same. by apply rule_second.
Qed.
End node.

(** *** The traversal *)

(** Whatever becomes of the part at hand, the whole is a good body. *)
Definition ctx_ok (src : source) (ctx : snode -> snode) (s : snode) : Prop :=
  forall b src1 s1, step src src1 -> rewrites a b src s src1 s1 -> whole_ok src1 (ctx s1).

Lemma ctx_ok_step src ctx s b src1 s1 : ctx_ok src ctx s -> step src src1 -> rewrites a b src s src1 s1 -> ctx_ok src1 ctx s1.
Proof.
  intros H Hst HR b2 src2 s2 Hst2 HR2. eapply H; [by eapply step_trans|]. eapply rewrites_trans; [apply Hst | apply Hst2 | exact HR | exact HR2].
Qed.

Lemma ctx_ok_inside src ctx s (f : snode -> snode) h : ctx_ok src ctx s ->
  (forall b src1 h1, step src src1 -> rewrites a b src h src1 h1 -> rewrites a b src s src1 (f h1)) -> ctx_ok src (fun h => ctx (f h)) h.
Proof. intros H Hf b src1 h1 Hst HR. eapply H; [done|]. by apply Hf. Qed.

Definition replaced (src : source) (changed : bool) (s : snode) (r : outcome (source * bool * snode)) : Prop :=
  exists src' ch s', r = Done (src', changed || ch, s') /\ step src src' /\ rewrites a ch src s src' s'.

Definition replaces (s : snode) : Prop := forall ctx src changed, phase src -> sane src s -> ctx_ok src ctx s ->
  replaced src changed s (appreplace_r cur ctx src changed s).

Lemma replaced_same src changed s : phase src -> sane src s -> replaced src changed s (Done (src, changed, s)).
Proof. intros Hph Hs. exists src, false, s. rewrite orb_false_r. split_and!; [done | by apply step_refl | by apply rewrites_refl]. Qed.

Lemma replaces_app sl st l r : replaces l -> replaces r -> replaces (SNODE_APPLICATION sl st l r).
Proof.
  intros IHl IHr ctx src changed Hph Hs Hc. cbn [appreplace_r].
  destruct (IHl (fun h => ctx (SNODE_APPLICATION sl st h r)) src changed Hph) as (src1 & ch1 & l1 & -> & Hst1 & HR1); [by apply sane_app in Hs as [? _] | |].
  { apply (ctx_ok_inside _ _ _ (fun h => SNODE_APPLICATION sl st h r) l Hc). intros b s1 h1 H1 HR. by apply rewrites_left; [apply step_sigs| |]. }
  apply (rewrites_left a ch1 src l src1 l1 sl st r) in HR1; [|by apply step_sigs | done]. cbn [mbind outcome_bind].
  assert (sane src1 (SNODE_APPLICATION sl st l1 r)) as Hs1 by (eapply rewrites_sane; [apply Hst1 | exact Hs | exact HR1]).
  pose proof (ctx_ok_step _ _ _ _ _ _ Hc Hst1 HR1) as Hc1. pose proof (st_phase _ _ Hst1) as Hph1.
  destruct (IHr (fun h => ctx (SNODE_APPLICATION sl st l1 h)) src1 (changed || ch1) Hph1) as (src2 & ch2 & r2 & -> & Hst2 & HR2); [by apply sane_app in Hs1 as [_ ?] | |].
  { apply (ctx_ok_inside _ _ _ (fun h => SNODE_APPLICATION sl st l1 h) r Hc1). intros b s1 h1 H1 HR. by apply rewrites_right; [apply step_sigs| |]. }
  apply (rewrites_right a ch2 src1 r src2 r2 sl st l1) in HR2; [|by apply step_sigs | done]. cbn [mbind outcome_bind].
  assert (sane src2 (SNODE_APPLICATION sl st l1 r2)) as Hs2 by (eapply rewrites_sane; [apply Hst2 | exact Hs1 | exact HR2]).
  pose proof (ctx_ok_step _ _ _ _ _ _ Hc1 Hst2 HR2) as Hc2. pose proof (st_phase _ _ Hst2) as Hph2.
  pose proof (rewrites_trans a _ _ _ _ _ _ _ _ (st_varno _ _ Hst1) (st_varno _ _ Hst2) HR1 HR2) as HR. pose proof (step_trans _ _ _ Hst1 Hst2) as Hst.
  assert (replaced src changed (SNODE_APPLICATION sl st l r) (Done (src2, changed || ch1 || ch2, SNODE_APPLICATION sl st l1 r2))) as Hdone.
  { exists src2, (ch1 || ch2), (SNODE_APPLICATION sl st l1 r2). by rewrite orb_assoc. }
  destruct l1 as [sl2 st2 [| | | | |slr q| | |] first| | | | | | | |]; try exact Hdone.
  destruct (sn_plain _ _ Hs2) as [[(Hq & qsc & Hqs & _) _] _]. rewrite (is_append_ok src2 q qsc Hph2 Hq Hqs). cbn [mbind outcome_bind].
  destruct (a q) eqn:Ea; [|exact Hdone].
  assert (whole_ok src2 (ctx (SNODE_APPLICATION sl st (SNODE_APPLICATION sl2 st2 (SNODE_SCREF slr q) first) r2))) as Hw.
  { eapply Hc2; [by apply step_refl | by apply rewrites_refl]. }
  destruct (append_rules_ok src2 _ q sl sl2 slr st st2 Hph2 Hw Ea first r2 Hs2) as (src3 & ch3 & s3 & -> & Hst3 & HR3). cbn [mbind outcome_bind].
  exists src3, (ch1 || ch2 || ch3), s3. rewrite !orb_assoc. split_and!; [done | by eapply step_trans | eapply rewrites_trans; [apply Hst | apply Hst3 | done | done]].
Qed.

Lemma replaces_letrec sl bs b : Forall (fun rec => replaces (lr_value rec)) bs -> replaces b -> replaces (SNODE_LETREC sl bs b).
Proof.
  intros IHbs IHb ctx src changed Hph Hs Hc. cbn [appreplace_r].
  set (values := fix values (done todo : list letrec) (src : source) (changed : bool) : outcome (source * bool * list letrec) :=
    match todo with
    | [] => Done (src, changed, done)
    | rec :: todo =>
        '(src, changed, v) ← appreplace_r cur (fun h => ctx (SNODE_LETREC sl (done ++ set_value h rec :: todo) b)) src changed (lr_value rec);
        values (done ++ [set_value v rec]) todo src changed
    end).
  assert (forall todo dn src changed, Forall (fun rec => replaces (lr_value rec)) todo -> phase src -> sane src (SNODE_LETREC sl (dn ++ todo) b) ->
    ctx_ok src ctx (SNODE_LETREC sl (dn ++ todo) b) -> exists src' ch bs', values dn todo src changed = Done (src', changed || ch, bs') /\
      step src src' /\ rewrites a ch src (SNODE_LETREC sl (dn ++ todo) b) src' (SNODE_LETREC sl bs' b)) as Hv.
  { clear. induction todo as [|rec todo IH]; intros dn src changed Hall Hph Hs Hc.
    { exists src, false, dn. rewrite orb_false_r, app_nil_r. rewrite app_nil_r in Hs. split_and!; [done | by apply step_refl | by apply rewrites_refl]. }
    apply Forall_cons in Hall as [Hrec Hall]. cbn [values].
    destruct (Hrec (fun h => ctx (SNODE_LETREC sl (dn ++ set_value h rec :: todo) b)) src changed Hph) as (src1 & ch1 & v & -> & Hst1 & HR1).
    { apply sane_letrec in Hs as [Hs _]. apply Hs, elem_of_app. right. by left. }
    { apply (ctx_ok_inside _ _ _ (fun h => SNODE_LETREC sl (dn ++ set_value h rec :: todo) b) (lr_value rec) Hc).
      intros b0 s1 h1 H1 HR. by apply rewrites_value; [apply step_sigs| |]. }
    apply (rewrites_value a ch1 src v src1 sl dn rec todo b) in HR1; [|by apply step_sigs | done]. cbn [mbind outcome_bind].
    replace (dn ++ set_value v rec :: todo) with ((dn ++ [set_value v rec]) ++ todo) in HR1 by (by rewrite <- app_assoc).
    destruct (IH (dn ++ [set_value v rec]) src1 (changed || ch1) Hall) as (src2 & ch2 & bs2 & -> & Hst2 & HR2).
    - apply Hst1.
    - eapply rewrites_sane; [apply Hst1 | exact Hs | exact HR1].
    - by eapply ctx_ok_step.
    - exists src2, (ch1 || ch2), bs2. rewrite orb_assoc. split_and!; [done | by eapply step_trans | eapply rewrites_trans; [apply Hst1 | apply Hst2 | done | done]]. }
  destruct (Hv bs [] src changed IHbs Hph Hs Hc) as (src1 & ch1 & bs1 & -> & Hst1 & HR1). cbn [mbind outcome_bind app] in *.
  pose proof (ctx_ok_step _ _ _ _ _ _ Hc Hst1 HR1) as Hc1.
  assert (sane src1 (SNODE_LETREC sl bs1 b)) as Hs1 by (eapply rewrites_sane; [apply Hst1 | exact Hs | exact HR1]).
  destruct (IHb (fun h => ctx (SNODE_LETREC sl bs1 h)) src1 (changed || ch1) (st_phase _ _ Hst1)) as (src2 & ch2 & b2 & -> & Hst2 & HR2).
  { by apply sane_letrec in Hs1 as [_ ?]. }
  { apply (ctx_ok_inside _ _ _ (fun h => SNODE_LETREC sl bs1 h) b Hc1). intros b0 s1 h1 H1 HR. by apply rewrites_body; [apply step_sigs| |]. }
  apply (rewrites_body a ch2 src1 b src2 b2 sl bs1) in HR2; [|by apply step_sigs | done]. cbn [mbind outcome_bind].
  exists src2, (ch1 || ch2), (SNODE_LETREC sl bs1 b2). rewrite orb_assoc.
  split_and!; [done | by eapply step_trans | eapply rewrites_trans; [apply Hst1 | apply Hst2 | done | done]].
Qed.

Lemma appreplace_ok s : replaces s.
Proof.
  snode_induction s; try (intros ctx src changed Hph Hs Hc; by apply replaced_same); try (intros ctx src changed Hph Hs Hc; by destruct (sn_plain _ _ Hs)).
  - by apply replaces_app.
  - by apply replaces_letrec.
Qed.
End rules.

(** *** The loops *)

Section set_body.
Context (src : source) (p : nat) (sc : scomb) (b : snode).
Hypothesis Hph : phase src.
Hypothesis Hp : p ∈ src_scombs src.
Hypothesis Hsc : src_heap src !! p = Some sc.
Hypothesis Hb : good_body src (sc_argnames sc) b.

Lemma set_body_heap q scq : src_heap (upd src p (set_body b)) !! q = Some scq ->
  exists sc0, src_heap src !! q = Some sc0 /\ (scq = sc0 \/ (q = p /\ scq = set_body b sc0)).
Proof using Type.
  cbn. rewrite list_lookup_alter. case_decide as Hd; [subst q|eauto]. intros (sc0 & H1 & ->)%fmap_Some. exists sc0. split; [done|]. right. done.
Qed.

Lemma set_body_at q sc0 : src_heap src !! q = Some sc0 -> exists scq, src_heap (upd src p (set_body b)) !! q = Some scq /\
  (scq = sc0 \/ scq = set_body b sc0).
Proof using Type. intros H. cbn. rewrite list_lookup_alter. case_decide; [subst q; rewrite H; eauto | eauto]. Qed.

Lemma set_body_phase : phase (upd src p (set_body b)).
Proof using Hph Hp Hsc Hb.
  destruct Hph as [P1 P2 P3 P4 P5 P6 P7 P8 P9 P10]. pose proof (set_body_sigs src p b) as Hs. split.
  - by apply upd_wf.
  - by apply indexed_upd.
  - intros q scq Hq Hs0. destruct (set_body_heap q scq Hs0) as (sc0 & H0 & [->|[-> ->]]).
    + eapply sound_scomb_mono; [exact Hs | done | by eapply P3].
    + rewrite Hsc in H0. injection H0 as <-. destruct (P3 p sc Hp Hsc) as [_ S2 S3]. split; [|done|done].
      exists b. split; [done|]. cbn. by eapply good_body_mono; [exact Hs | |].
  - intros q. rewrite P4. assert (name_at (upd src p (set_body b)) q = name_at src q) as ->; [|done]. unfold name_at. cbn.
    rewrite list_lookup_alter. case_decide; [subst q|done]. by destruct (src_heap src !! p).
  - intros q scq v Hq Hs0 Hv. destruct (set_body_heap q scq Hs0) as (sc0 & H0 & Heq).
    destruct (P5 q sc0 v Hq H0) as (H1 & H2 & vsc & H3 & H4); [by destruct Heq as [->|[_ ->]]|].
    destruct (set_body_at v vsc H3) as (vsc' & H5 & H6). split_and!; [done | by destruct Heq as [->|[_ ->]] |].
    exists vsc'. split; [done|]. by destruct H6 as [->| ->].
  - intros q r scq scr v Hq Hr Hsq Hsr Hvq Hvr. destruct (set_body_heap q scq Hsq) as (sc0 & H0 & E0), (set_body_heap r scr Hsr) as (sc1 & H1 & E1).
    apply (P6 q r sc0 sc1 v); try done; [by destruct E0 as [->|[_ ->]] | by destruct E1 as [->|[_ ->]]].
  - intros q scq Hq Hs0. destruct (set_body_heap q scq Hs0) as (sc0 & H0 & Heq). destruct Heq as [->|[_ ->]]; exact (P7 q sc0 Hq H0).
  - intros v scv Hv Hs0 Hd. destruct (set_body_heap v scv Hs0) as (sc0 & H0 & Heq). destruct (P8 v sc0 Hv H0) as (o & osc & H1 & H2 & H3);
      [by destruct Heq as [->|[_ ->]]|]. destruct (set_body_at o osc H2) as (osc' & H4 & H5). exists o, osc'. split_and!; [done | done | by destruct H5 as [->| ->]].
  - done.
  - intros q scq Ha Hs0. destruct (set_body_heap q scq Hs0) as (sc0 & H0 & Heq). destruct Heq as [->|[_ ->]]; by apply (P10 q sc0).
Qed.
End set_body.

(** What a loop keeps. *)
Record loose (src src' : source) : Prop := {
  lo_phase : phase src';
  lo_scombs : exists l, src_scombs src' = src_scombs src ++ l;
  lo_names : forall q sc, q ∈ src_scombs src -> src_heap src !! q = Some sc -> exists sc', src_heap src' !! q = Some sc' /\
    sc_name sc' = sc_name sc /\ sc_argnames sc' = sc_argnames sc
}.

Lemma loose_refl src : phase src -> loose src src.
Proof. intros H. split; [done | exists []; by rewrite app_nil_r |]. intros q sc _ Hs. by exists sc. Qed.
Lemma loose_trans s1 s2 s3 : loose s1 s2 -> loose s2 s3 -> loose s1 s3.
Proof.
  intros [H1 [l1 E1] H3] [H4 [l2 E2] H6]. split; [done | exists (l1 ++ l2); by rewrite E2, E1, app_assoc |].
  intros q sc Hq Hs. destruct (H3 q sc Hq Hs) as (sc1 & Hs1 & N1 & A1). destruct (H6 q sc1) as (sc2 & Hs2 & N2 & A2); [|done|].
  - rewrite E1, elem_of_app. by left.
  - exists sc2. split_and!; congruence.
Qed.

Lemma step_loose src src' p b : phase src -> step src src' -> phase (upd src' p (set_body b)) -> loose src (upd src' p (set_body b)).
Proof.
  intros Hph0 Hst Hph. split; [done | destruct (st_scombs _ _ Hst) as [l E]; by exists l |].
  intros q sc Hq Hs. destruct (st_heap _ _ Hst q sc Hq Hs) as (sc' & Hs' & [v ->]).
  cbn. rewrite list_lookup_alter. case_decide; [subst q|]; rewrite Hs'; by eexists.
Qed.

Lemma appreplace_loop_ok rounds : forall src p sc body, phase src -> p ∈ src_scombs src -> src_heap src !! p = Some sc -> sc_body sc = Some body ->
  wt a body < rounds -> exists src', appreplace_loop rounds src p = Done src' /\ loose src src'.
Proof.
  induction rounds as [|rounds IH]; intros src p sc body Hph Hp Hs Hb Hlt; [lia|]. cbn [appreplace_loop]. unfold getsc. rewrite Hs.
  cbn [deref mbind outcome_bind]. rewrite Hb. cbn [deref mbind outcome_bind].
  assert (good_body src (sc_argnames sc) body) as Hg.
  { destruct (ss_body _ _ (ph_sound _ Hph p sc Hp Hs)) as (b0 & Hb0 & Hg). by simplify_eq. }
  destruct (appreplace_ok p body (fun s => s) src false Hph (good_body_sane _ _ _ Hg)) as (src1 & ch & body1 & -> & Hst & HR).
  { intros b src1 s1 Hst HR. destruct (st_heap _ _ Hst p sc Hp Hs) as (sc1 & Hs1 & [v ->]). eexists. split; [by eapply step_live|]. split; [exact Hs1|].
    eapply good_body_rewrites; [by apply step_sigs | apply Hst | exact Hg | exact HR]. }
  cbn [mbind outcome_bind orb]. destruct (st_heap _ _ Hst p sc Hp Hs) as (sc1 & Hs1 & [v Ev]).
  assert (good_body src1 (sc_argnames sc1) body1) as Hg1.
  { subst sc1. eapply good_body_rewrites; [by apply step_sigs | apply Hst | exact Hg | exact HR]. }
  assert (p ∈ src_scombs src1) as Hp1 by (by eapply step_live).
  pose proof (set_body_phase src1 p sc1 body1 (st_phase _ _ Hst) Hp1 Hs1 Hg1) as Hph1.
  pose proof (step_loose src src1 p body1 Hph Hst Hph1) as Hlo.
  destruct ch; [|by eexists].
  destruct (IH (upd src1 p (set_body body1)) p (set_body body1 sc1) body1 Hph1 Hp1) as (src2 & E & Hlo2).
  - cbn. by rewrite list_lookup_alter_eq, Hs1.
  - done.
  - destruct (rw_lighter _ _ _ _ _ _ HR) as [Hw _]. cbn in Hw. lia.
  - exists src2. split; [exact E | by eapply loose_trans].
Qed.

Lemma appreplace_loop_mono rounds : forall src p src', appreplace_loop rounds src p = Done src' -> forall more, rounds <= more ->
  appreplace_loop more src p = Done src'.
Proof.
  induction rounds as [|rounds IH]; intros src p src' H more Hle; [done|]. destruct more as [|more]; [lia|]. cbn [appreplace_loop] in *.
  apply bind_Done_inv in H as (sc & -> & H). cbn [mbind outcome_bind]. apply bind_Done_inv in H as (body & -> & H). cbn [mbind outcome_bind].
  apply bind_Done_inv in H as ([[s1 ch] b1] & -> & H). cbn [mbind outcome_bind]. destruct ch; [|done]. apply IH; [done | lia].
Qed.

(** There is at most one version of each function. *)
Lemma phase_count src : phase src -> length (src_scombs src) <= 2 * n0.
Proof.
  intros H. pose proof (ph_count _ H) as Hc. pose proof (wf_nodup _ (ph_wf _ H)) as Hnd.
  set (old := take n0 (src_scombs src)). set (new := drop n0 (src_scombs src)).
  assert (length new <= length (omap (fun p => sc ← src_heap src !! p; sc_appendver sc) old)) as Hle.
  { apply submseteq_length, NoDup_submseteq; [rewrite <- (take_drop n0 (src_scombs src)) in Hnd; by apply list.NoDup_app in Hnd as (_ & _ & ?)|].
    intros v Hv. apply list_elem_of_lookup in Hv as [i Hi]. subst new. rewrite lookup_drop in Hi.
    pose proof (list_elem_of_lookup_2 _ _ _ Hi) as Hvl. destruct (wf_valid _ (ph_wf _ H) v Hvl) as [vsc Hvs].
    pose proof (ph_indexed _ H _ _ _ Hi Hvs) as Hidx.
    assert (sc_doesappend vsc = true) as Hd by (apply (ph_new _ H v vsc Hvl Hvs); lia).
    destruct (ph_origin _ H v vsc Hvl Hvs Hd) as (p & sc & Hp & Hs & Hv). apply list_elem_of_omap. exists p. rewrite Hs. split; [|done].
    apply list_elem_of_lookup in Hp as [j Hj]. pose proof (ph_indexed _ H _ _ _ Hj Hs) as Hjx.
    pose proof (list_elem_of_lookup_2 _ _ _ Hj) as Hp. destruct (ph_version _ H p sc v Hp Hs Hv) as (_ & Hnd' & _).
    apply list_elem_of_lookup_2 with (i := j). subst old. rewrite lookup_take_lt; [done|].
    destruct (decide (j < n0)) as [|Hge]; [done|]. pose proof (proj2 (ph_new _ H p sc Hp Hs)) as Hx. rewrite Hnd' in Hx. discriminate Hx. lia. }
  assert (length (omap (fun p => sc ← src_heap src !! p; sc_appendver sc) old) <= length old) as Hom.
  { clear. induction old as [|p l IH]; [done|]. cbn. destruct (_ ≫= _); cbn; lia. }
  subst old new. rewrite length_drop in Hle. rewrite length_take in Hom. lia.
Qed.

Lemma appreplace_all_ok m : forall src scno, phase src -> 2 * n0 - scno <= m ->
  exists bound src', (forall fuel rounds, bound <= fuel -> bound <= rounds -> appreplace_all fuel rounds src scno = Done src') /\ loose src src'.
Proof.
  induction m as [|m IH]; intros src scno Hph Hm; pose proof (phase_count src Hph) as Hc.
  - exists 1, src. split; [|by apply loose_refl]. intros [|fuel] rounds Hf Hr; [lia|]. cbn [appreplace_all]. rewrite lookup_ge_None_2 by lia. done.
  - destruct (src_scombs src !! scno) as [p|] eqn:Ep.
    2:{ exists 1, src. split; [|by apply loose_refl]. intros [|fuel] rounds Hf Hr; [lia|]. cbn [appreplace_all]. by rewrite Ep. }
    pose proof (list_elem_of_lookup_2 _ _ _ Ep) as Hp. apply lookup_lt_Some in Ep as Hlt. destruct (wf_valid _ (ph_wf _ Hph) p Hp) as [sc Hs].
    destruct (ss_body _ _ (ph_sound _ Hph p sc Hp Hs)) as (body & Hb & _).
    destruct (appreplace_loop_ok (S (wt a body)) src p sc body Hph Hp Hs Hb ltac:(lia)) as (src1 & E1 & Hlo1).
    destruct (IH src1 (S scno) (lo_phase _ _ Hlo1) ltac:(lia)) as (bound & src2 & E2 & Hlo2).
    exists (S (bound + wt a body)), src2. split; [|by eapply loose_trans]. intros [|fuel] rounds Hf Hr; [lia|]. cbn [appreplace_all]. rewrite Ep.
    rewrite (appreplace_loop_mono _ _ _ _ E1) by lia. cbn [mbind outcome_bind]. apply E2; lia.
Qed.
End pass.

(** ** Which supercombinators stay *)

Lemma plain_refs src c : plain src c -> forall q, q ∈ screfs c -> q ∈ src_scombs src /\ is_Some (src_heap src !! q).
Proof.
  snode_induction c; cbn [plain screfs]; try (intros _; in_nil); try done.
  - intros [H1 H2] q [Hq|Hq]%elem_of_app; auto.
  - intros [Hv Hb] q Hin. apply (screfs_letrec q sl) in Hin as [(v & (rec & -> & Hr)%elem_of_map & Hq)|Hq]; [|auto].
    rewrite Forall_id_map in Hv. rewrite Forall_forall in IHbs. eapply IHbs; eauto.
  - intros (Hp & scq & Hs & _) q ->%list_elem_of_singleton. split; [done | by exists scq].
Qed.

Lemma plain_keep src src' c : plain src c -> (forall q, q ∈ screfs c -> q ∈ src_scombs src' /\ is_Some (src_heap src' !! q)) -> plain src' c.
Proof.
  snode_induction c; cbn [plain screfs]; try done.
  - intros [H1 H2] H. split; [apply IHl | apply IHr]; try done; intros q Hq; apply H, elem_of_app; tauto.
  - intros [Hv Hb] H. assert (forall q, (exists rec, rec ∈ bs /\ q ∈ screfs (lr_value rec)) \/ q ∈ screfs b -> q ∈ src_scombs src' /\ is_Some (src_heap src' !! q)) as H'.
    { intros q Hq. apply H. apply (screfs_letrec q sl). destruct Hq as [(rec & Hr & Hq)|Hq]; [left | by right].
      exists (lr_value rec). split; [|done]. apply elem_of_map. by exists rec. }
    rewrite Forall_id_map in Hv |- *. rewrite Forall_forall in IHbs. split.
    + intros rec Hr. apply IHbs; [done | by apply Hv |]. intros q Hq. apply H'. left. by exists rec.
    + apply IHb; [done|]. intros q Hq. apply H'. by right.
  - intros _ H. destruct (H sc) as [Hl [scq Hs]]; [by left|]. split; [done|]. exists scq. split; [done | lia].
Qed.

Definition in_range (src : source) (n : nat) (q : nat) : Prop := exists sc, src_heap src !! q = Some sc /\ sc_index sc < n.
Definition marked (src : source) (used : list bool) (q : nat) : Prop := forall sc, src_heap src !! q = Some sc -> used !! sc_index sc = Some true.
Definition more_used (u u' : list bool) : Prop := length u' = length u /\ forall i, u !! i = Some true -> u' !! i = Some true.

Lemma more_used_trans a b c : more_used a b -> more_used b c -> more_used a c.
Proof. intros [H1 H2] [H3 H4]. split; [congruence | auto]. Qed.
Lemma more_marked src u u' q : more_used u u' -> marked src u q -> marked src u' q.
Proof. intros [_ H] Hm sc Hs. by apply H, Hm. Qed.

Lemma mark_used_ok src s : lambda_free s -> forall used, (forall q, q ∈ screfs s -> in_range src (length used) q) ->
  exists used', mark_used src s used = Done used' /\ more_used used used' /\ forall q, q ∈ screfs s -> marked src used' q.
Proof.
  snode_induction s; cbn [lambda_free screfs mark_used]; try done; try (intros _ used _; exists used; split_and!; [done | done | in_nil]).
  - intros [Hl Hr] used H. setoid_rewrite elem_of_app in H. destruct (IHl Hl used) as (u1 & -> & M1 & K1); [naive_solver|]. cbn [mbind outcome_bind].
    destruct (IHr Hr u1) as (u2 & -> & M2 & K2); [rewrite (proj1 M1); naive_solver|]. exists u2. split_and!; [done | by eapply more_used_trans |].
    intros q [Hq|Hq]%elem_of_app; [eapply more_marked; eauto | auto].
  - intros [Hv Hb] used H.
    set (values := fix values (bs : list letrec) (used : list bool) : outcome (list bool) :=
      match bs with [] => Done used | rec :: bs => used ← mark_used src (lr_value rec) used; values bs used end).
    assert (forall used, (forall q, q ∈ concat (map (fun rec => screfs (lr_value rec)) bs) -> in_range src (length used) q) ->
      exists used', values bs used = Done used' /\ more_used used used' /\
        forall q, q ∈ concat (map (fun rec => screfs (lr_value rec)) bs) -> marked src used' q) as Hvs.
    { clear IHb Hb H used. induction IHbs as [|rec bs IHrec _ IH]; intros used H; cbn [values map concat] in *.
      { exists used. split_and!; [done | done | in_nil]. }
      apply Forall_cons in Hv as [Hv1 Hv2]. setoid_rewrite elem_of_app in H. destruct (IHrec Hv1 used) as (u1 & -> & M1 & K1); [naive_solver|].
      cbn [mbind outcome_bind]. destruct (IH Hv2 u1) as (u2 & E2 & M2 & K2); [rewrite (proj1 M1); naive_solver|]. rewrite E2.
      exists u2. split_and!; [done | by eapply more_used_trans |]. intros q [Hq|Hq]%elem_of_app; [eapply more_marked; eauto | auto]. }
    setoid_rewrite elem_of_app in H. destruct (Hvs used) as (u1 & -> & M1 & K1); [naive_solver|]. cbn [mbind outcome_bind].
    destruct (IHb Hb u1) as (u2 & -> & M2 & K2); [rewrite (proj1 M1); naive_solver|]. exists u2. split_and!; [done | by eapply more_used_trans |].
    intros q [Hq|Hq]%elem_of_app; [eapply more_marked; eauto | auto].
  - intros _ used H. destruct (H sc) as (scq & Hs & Hl); [by left|]. unfold getsc. rewrite Hs. cbn [deref mbind outcome_bind].
    rewrite (proj2 (Nat.ltb_lt _ _)) by done. cbn [cassert mbind outcome_bind]. eexists. split; [reflexivity|]. split; [split|].
    + apply length_insert.
    + intros i Hi. rewrite list_lookup_insert. case_decide; [|done]. done.
    + intros q ->%list_elem_of_singleton scq' Hs'. rewrite Hs in Hs'. injection Hs' as <-. by apply list_lookup_insert_eq.
Qed.

Lemma mark_all_used_ok src ps : forall used, (forall p, p ∈ ps -> exists sc body, src_heap src !! p = Some sc /\ sc_body sc = Some body /\ lambda_free body /\
    forall q, q ∈ screfs body -> in_range src (length used) q) ->
  exists used', mark_all_used src ps used = Done used' /\ more_used used used' /\
    forall p sc body q, p ∈ ps -> src_heap src !! p = Some sc -> sc_body sc = Some body -> q ∈ screfs body -> marked src used' q.
Proof.
  induction ps as [|p ps IH]; intros used H; cbn [mark_all_used].
  { exists used. split_and!; [done | done |]. intros p sc body q Hp. by apply not_elem_of_nil in Hp. }
  destruct (H p) as (sc & body & Hs & Hb & Hl & Hr); [by left|]. unfold getsc. rewrite Hs. cbn [deref mbind outcome_bind]. rewrite Hb.
  cbn [deref mbind outcome_bind]. destruct (mark_used_ok src body Hl used Hr) as (u1 & -> & M1 & K1). cbn [mbind outcome_bind].
  destruct (IH u1) as (u2 & E2 & M2 & K2).
  { intros p' Hp'. rewrite (proj1 M1). apply H. by right. }
  exists u2. split_and!; [exact E2 | by eapply more_used_trans |]. intros p' sc' body' q [->|Hp']%elem_of_cons Hs' Hb' Hq; [|by eapply K2].
  simplify_eq. eapply more_marked; [exact M2 | by apply K1].
Qed.

Section select.
Context (a : nat -> bool) (n0 : nat) (src0 : source) (used : list bool).
Hypothesis Hph : phase a n0 src0.
Hypothesis Hused : length used = length (src_scombs src0).
Local Abbreviation ps := (src_scombs src0).

(** A supercombinator stays, or the version that appends takes its place. *)
Definition stays (o : nat) : bool :=
  match src_heap src0 !! o with
  | Some sc => match sc_appendver sc with
               | Some _ => default false (used !! sc_index sc) || String.eqb (sc_name sc) "__start"
               | None => true
               end
  | None => true
  end.
Definition successor (o : nat) : nat := if stays o then o else default o (sc ← src_heap src0 !! o; sc_appendver sc).

(** Its place has been taken by then. *)
Definition gone (k v : nat) : bool := existsb (fun o => negb (stays o) && Nat.eqb (successor o) v) (take k ps).

Lemma gone_spec k v : gone k v = true <-> exists j o, j < k /\ ps !! j = Some o /\ stays o = false /\ successor o = v.
Proof using Type.
  unfold gone. rewrite existsb_exists. split.
  - intros (o & Hin & H). apply andb_true_iff in H as [H1 H2]. apply list_elem_of_In, list_elem_of_lookup in Hin as [j Hj].
    apply lookup_take_Some in Hj as [Hj Hlt]. exists j, o. split_and!; [done | done | by destruct (stays o) | by apply Nat.eqb_eq].
  - intros (j & o & Hlt & Hj & H1 & H2). exists o. split; [|by rewrite H1, H2, Nat.eqb_refl].
    apply list_elem_of_In, list_elem_of_lookup_2 with (i := j). by apply lookup_take_Some.
Qed.

Lemma dropped o : o ∈ ps -> stays o = false -> exists sc v vsc, src_heap src0 !! o = Some sc /\ sc_appendver sc = Some v /\ successor o = v /\ v ∈ ps /\
  src_heap src0 !! v = Some vsc /\ sc_doesappend sc = false /\ sc_doesappend vsc = true /\ sc_index sc < sc_index vsc.
Proof using Hph Hused.
  intros Ho Hs. destruct (wf_valid _ (ph_wf _ _ _ Hph) o Ho) as [sc Hsc]. unfold successor. rewrite Hs. unfold stays in Hs. rewrite Hsc in Hs |- *.
  destruct (sc_appendver sc) as [v|] eqn:Ev; [|done]. destruct (ph_version _ _ _ Hph o sc v Ho Hsc Ev) as (Hv & Hd & vsc & Hvs & Hvd).
  exists sc, v, vsc. cbn. rewrite Ev. split_and!; try done.
  pose proof (proj1 (ph_new _ _ _ Hph v vsc Hv Hvs) Hvd) as H1. destruct (decide (sc_index sc < n0)) as [|Hge]; [lia|].
  pose proof (proj2 (ph_new _ _ _ Hph o sc Ho Hsc)) as H2. rewrite Hd in H2. discriminate H2. lia.
Qed.

Lemma gone_position k i p : ps !! i = Some p -> i <= k -> gone k p = gone i p.
Proof using Hph Hused.
  intros Hi Hle. destruct (gone k p) eqn:E.
  - symmetry. apply gone_spec in E as (j & o & Hj & Ho & Hs & Hsu). apply gone_spec. exists j, o. split_and!; try done.
    pose proof (list_elem_of_lookup_2 _ _ _ Ho) as Hin. destruct (dropped o Hin Hs) as (sc & v & vsc & H1 & _ & H2 & _ & H4 & _ & _ & H5).
    rewrite Hsu in H2. subst v. by rewrite (ph_indexed _ _ _ Hph j o sc Ho H1), (ph_indexed _ _ _ Hph i p vsc Hi H4) in H5.
  - destruct (gone i p) eqn:E2; [|done]. apply gone_spec in E2 as (j & o & Hj & Hr). rewrite <- E. apply gone_spec. exists j, o. split; [lia | done].
Qed.

(** The supercombinators whose name is kept, in their order. *)
Definition owners (k : nat) : list nat := filter (fun o => gone (length ps) o = false) (take k ps).

Lemma owners_S k p : ps !! k = Some p -> owners (k + 1) = owners k ++ (if gone k p then [] else [p]).
Proof using Hph Hused.
  intros Hk. unfold owners. rewrite Nat.add_1_r, (take_S_r _ _ p) by done. rewrite filter_app, filter_cons, filter_nil. f_equal.
  rewrite (gone_position (length ps) k p Hk) by (apply lookup_lt_Some in Hk; lia). case_decide as H; [by rewrite H|]. by destruct (gone k p).
Qed.

Lemma owners_before k o : o ∈ owners k -> exists j, j < k /\ ps !! j = Some o /\ gone j o = false.
Proof using Hph Hused.
  intros [Hg Hin]%list_elem_of_filter. apply list_elem_of_lookup in Hin as [j Hj]. apply lookup_take_Some in Hj as [Hj Hlt]. exists j.
  split_and!; [done | done |]. rewrite <- Hg. symmetry. apply gone_position; [done|]. apply lookup_lt_Some in Hj. lia.
Qed.

(** Nothing takes the place of two, or of one that is still there. *)
Lemma successor_fresh k p : ps !! k = Some p -> gone k p = false -> successor p ∉ map successor (owners k).
Proof using Hph Hused.
  intros Hk Hg (o & Eo & Ho)%elem_of_map. apply owners_before in Ho as (j & Hj & Hjo & Hgo).
  pose proof (list_elem_of_lookup_2 _ _ _ Hk) as Hp. pose proof (list_elem_of_lookup_2 _ _ _ Hjo) as Hin.
  assert (o <> p) as Hne by (intros ->; pose proof (NoDup_lookup _ _ _ _ (wf_nodup _ (ph_wf _ _ _ Hph)) Hk Hjo); lia).
  destruct (stays p) eqn:Sp, (stays o) eqn:So.
  - unfold successor in Eo. rewrite Sp, So in Eo. congruence.
  - assert (gone k p = true); [|congruence]. apply gone_spec. exists j, o. split_and!; try done. rewrite <- Eo. unfold successor. by rewrite Sp.
  - destruct (dropped p Hp Sp) as (sc & v & vsc & H1 & _ & H2 & _ & H4 & _ & _ & H5).
    rewrite H2 in Eo. unfold successor in Eo. rewrite So in Eo. subst v.
    rewrite (ph_indexed _ _ _ Hph k p sc Hk H1), (ph_indexed _ _ _ Hph j o vsc Hjo H4) in H5. lia.
  - destruct (dropped p Hp Sp) as (sc & v & vsc & H1 & E1 & H2 & _). destruct (dropped o Hin So) as (sc' & v' & vsc' & H1' & E1' & H2' & _).
    apply Hne. eapply (ph_inj _ _ _ Hph); [exact Hin | exact Hp | exact H1' | exact H1 | exact E1' | congruence].
Qed.

Lemma self_fresh k p : ps !! k = Some p -> gone k p = false -> p ∉ map successor (owners k).
Proof using Hph Hused.
  intros Hk Hg (o & Eo & Ho)%elem_of_map. apply owners_before in Ho as (j & Hj & Hjo & _). destruct (stays o) eqn:So.
  - unfold successor in Eo. rewrite So in Eo. subst o. pose proof (NoDup_lookup _ _ _ _ (wf_nodup _ (ph_wf _ _ _ Hph)) Hk Hjo). lia.
  - assert (gone k p = true); [|congruence]. apply gone_spec. exists j, o. by split_and!.
Qed.

(** The table while the loop runs. *)
Record selecting (k : nat) (src : source) (slots : list (option nat)) (news : list nat) : Prop := {
  se_src : exists h, src = Source.set_heap h src0;
  se_length : length slots = length ps;
  se_slots : forall i p, k <= i -> ps !! i = Some p -> slots !! i = Some (if gone k p then None else Some p);
  se_news : news = map successor (owners k);
  se_other : forall q, q ∉ news -> src_heap src !! q = src_heap src0 !! q;
  se_placed : forall j o, owners k !! j = Some o -> exists osc vsc, src_heap src0 !! o = Some osc /\ src_heap src0 !! successor o = Some vsc /\
    src_heap src !! successor o = Some (set_index_name j (sc_name osc) vsc)
}.

Lemma select_place k p osc vsc src slots slots' news : selecting k src slots news -> ps !! k = Some p -> gone k p = false ->
  src_heap src0 !! p = Some osc -> src_heap src0 !! successor p = Some vsc ->
  length slots' = length ps -> (forall i q, k + 1 <= i -> ps !! i = Some q -> slots' !! i = Some (if gone (k + 1) q then None else Some q)) ->
  selecting (k + 1) (upd src (successor p) (set_index_name (length news) (sc_name osc))) slots' (news ++ [successor p]).
Proof using Hph Hused.
  intros [[h Eh] H2 H3 H4 H5 H6] Hk Hg Ho Hv Hl Hs. pose proof (successor_fresh k p Hk Hg) as Hf. rewrite <- H4 in Hf.
  pose proof (owners_S k p Hk) as Eo. rewrite Hg in Eo. split.
  - subst src. by eexists.
  - done.
  - done.
  - by rewrite Eo, map_app, <- H4.
  - intros q Hq. rewrite elem_of_app, list_elem_of_singleton in Hq. cbn. rewrite list_lookup_alter_ne by (intros <-; tauto). apply H5. tauto.
  - intros j o Hj. rewrite Eo in Hj. apply lookup_snoc_inv in Hj as [Hj|[-> ->]].
    + destruct (H6 j o Hj) as (osc' & vsc' & ? & ? & H7). exists osc', vsc'. split_and!; [done | done |].
      cbn. rewrite list_lookup_alter_ne; [done|]. intros E. apply Hf. rewrite E, H4. apply elem_of_map. exists o. split; [done | by eapply list_elem_of_lookup_2].
    + exists osc, vsc. split_and!; [done | done |]. cbn. rewrite list_lookup_alter_eq, H5, Hv by done. cbn. by rewrite H4, length_map.
Qed.

Lemma gone_next k i p q : ps !! k = Some p -> ps !! i = Some q ->
  gone (k + 1) q = gone k q || (negb (stays p) && Nat.eqb (successor p) q).
Proof using Type. intros Hk Hi. unfold gone. rewrite Nat.add_1_r, (take_S_r _ _ p) by done. rewrite existsb_app. cbn. by rewrite orb_false_r. Qed.

(** Its place is taken already. *)
Lemma select_skip k p src slots news : selecting k src slots news -> ps !! k = Some p -> gone k p = true -> selecting (k + 1) src slots news.
Proof using Hph Hused.
  intros [[h Eh] H2 H3 H4 H5 H6] Hk Hg. pose proof (owners_S k p Hk) as Eo. rewrite Hg, app_nil_r in Eo.
  assert (stays p = true) as Sp.
  { apply gone_spec in Hg as (j & o & Hj & Hjo & So & Hsu). pose proof (list_elem_of_lookup_2 _ _ _ Hk) as Hp.
    destruct (dropped o (list_elem_of_lookup_2 _ _ _ Hjo) So) as (sc & v & vsc & _ & _ & E & _ & Hvs & _ & Hd & _).
    rewrite Hsu in E. subst v. unfold stays. rewrite Hvs. destruct (sc_appendver vsc) as [w|] eqn:Ew; [|done].
    destruct (ph_version _ _ _ Hph p vsc w Hp Hvs Ew) as (_ & Hd' & _). congruence. }
  split; [by exists h | done | | by rewrite Eo | done | by rewrite Eo].
  intros i q Hi Hq. rewrite (gone_next k i p q Hk Hq), Sp, orb_false_r. apply H3; [lia | done].
Qed.

(** It stays where it is. *)
Lemma select_keep k p (sc : scomb) src slots news : selecting k src slots news -> ps !! k = Some p -> gone k p = false ->
  src_heap src0 !! p = Some sc -> stays p = true -> src_heap src !! p = Some sc /\
  selecting (k + 1) (upd src p (fun s0 => set_index_name (length news) (sc_name s0) s0)) slots (news ++ [p]).
Proof using Hph Hused.
  intros Hsel Hk Hg Hs Sp. pose proof (successor_fresh k p Hk Hg) as Hf. rewrite <- (se_news _ _ _ _ Hsel) in Hf.
  assert (successor p = p) as Esu by (unfold successor; by rewrite Sp). rewrite Esu in Hf.
  assert (src_heap src !! p = Some sc) as Hsp by (by rewrite (se_other _ _ _ _ Hsel)). split; [done|].
  pose proof (select_place k p sc sc src slots slots news Hsel Hk Hg Hs) as H. rewrite Esu in H.
  assert (upd src p (fun s0 => set_index_name (length news) (sc_name s0) s0) = upd src p (set_index_name (length news) (sc_name sc))) as ->; [|apply H; try done].
  - unfold upd. f_equal. apply list_eq. intros i. rewrite !list_lookup_alter. case_decide; [subst i; by rewrite Hsp | done].
  - apply Hsel.
  - intros i q Hi Hq. rewrite (gone_next k i p q Hk Hq), Sp, orb_false_r. apply (se_slots _ _ _ _ Hsel); [lia | done].
Qed.

Lemma select_ok m : forall k src slots news, m + k = length ps -> selecting k src slots news ->
  exists src' slots' news', select_scombs used src slots (seq k m) news = Done (src', news') /\ selecting (length ps) src' slots' news'.
Proof using Hph Hused.
  induction m as [|m IH]; intros k src slots news Hm Hsel; cbn [seq select_scombs].
  { exists src, slots, news. split; [done|]. by replace (length ps) with k by lia. }
  destruct (lookup_lt_is_Some_2 ps k) as [p Hk]; [lia|]. pose proof (se_slots _ _ _ _ Hsel k p (Nat.le_refl _) Hk) as Hslot.
  rewrite Hslot. cbn [deref mbind outcome_bind]. rewrite <- Nat.add_1_r. pose proof (list_elem_of_lookup_2 _ _ _ Hk) as Hp.
  destruct (gone k p) eqn:Hg.
  { apply IH; [lia | by eapply select_skip]. }
  destruct (wf_valid _ (ph_wf _ _ _ Hph) p Hp) as [sc Hs].
  pose proof (successor_fresh k p Hk Hg) as Hf. rewrite <- (se_news _ _ _ _ Hsel) in Hf.
  destruct (stays p) eqn:Sp.
  - destruct (select_keep k p sc src slots news Hsel Hk Hg Hs Sp) as [Hsp Hnext].
    unfold getsc. rewrite Hsp. cbn [deref mbind outcome_bind].
    assert (forall X, match sc_appendver sc with
        | None => select_scombs used (upd src p (fun s0 => set_index_name (length news) (sc_name s0) s0)) slots (seq (k + 1) m) (news ++ [p])
        | Some v => u ← deref (used !! sc_index sc); if (u : bool) || String.eqb (sc_name sc) "__start"
            then select_scombs used (upd src p (fun s0 => set_index_name (length news) (sc_name s0) s0)) slots (seq (k + 1) m) (news ++ [p]) else X v end =
        select_scombs used (upd src p (fun s0 => set_index_name (length news) (sc_name s0) s0)) slots (seq (k + 1) m) (news ++ [p])) as E.
    { intros X. unfold stays in Sp. rewrite Hs in Sp. destruct (sc_appendver sc); [|done].
      destruct (lookup_lt_is_Some_2 used (sc_index sc)) as [u Hu].
      { rewrite Hused, (ph_indexed _ _ _ Hph k p sc Hk Hs). lia. }
      rewrite Hu in Sp |- *. change (default false (Some u)) with u in Sp. cbn [deref mbind outcome_bind]. by rewrite Sp. }
    rewrite E. apply IH; [lia | done].
  - destruct (dropped p Hp Sp) as (sc' & v & vsc & Hs' & Ev & Esu & Hv & Hvs & _ & _ & Hlt). rewrite Hs in Hs'. injection Hs' as <-.
    rewrite Esu in Hf.
    assert (src_heap src !! p = Some sc) as Hsp.
    { rewrite (se_other _ _ _ _ Hsel); [done|]. rewrite (se_news _ _ _ _ Hsel). by apply self_fresh. }
    assert (src_heap src !! v = Some vsc) as Hvs1 by (by rewrite (se_other _ _ _ _ Hsel)).
    apply list_elem_of_lookup in Hv as [iv Hiv]. pose proof (ph_indexed _ _ _ Hph iv v vsc Hiv Hvs) as Eiv. apply lookup_lt_Some in Hiv as Hlv.
    unfold stays in Sp. rewrite Hs, Ev in Sp. unfold getsc. rewrite Hsp. cbn [deref mbind outcome_bind]. rewrite Ev.
    destruct (lookup_lt_is_Some_2 used (sc_index sc)) as [u Hu]; [rewrite Hused, (ph_indexed _ _ _ Hph k p sc Hk Hs); lia|].
    rewrite Hu in Sp |- *. change (default false (Some u)) with u in Sp. cbn [deref mbind outcome_bind]. rewrite Sp. rewrite Hvs1. cbn [deref mbind outcome_bind].
    rewrite (proj2 (Nat.ltb_lt _ _)) by (rewrite (se_length _ _ _ _ Hsel), Eiv; done). cbn [cassert mbind outcome_bind].
    apply IH; [lia|]. rewrite <- Esu. eapply select_place; [exact Hsel | exact Hk | exact Hg | exact Hs | by rewrite Esu | |].
    + by rewrite length_insert, (se_length _ _ _ _ Hsel).
    + intros i q Hi Hq. rewrite (gone_next k i p q Hk Hq).
      assert (stays p = false) as Sp' by (unfold stays; rewrite Hs, Ev, Hu; exact Sp). rewrite Sp', Esu. cbn [negb andb].
      destruct (Nat.eqb_spec v q) as [->|Hne].
      * assert (i = iv) as -> by (by eapply (NoDup_lookup _ _ _ _ (wf_nodup _ (ph_wf _ _ _ Hph)))).
        rewrite orb_true_r, Eiv. apply list_lookup_insert_eq. by rewrite (se_length _ _ _ _ Hsel).
      * rewrite orb_false_r, list_lookup_insert_ne; [by apply (se_slots _ _ _ _ Hsel); [lia|]|]. intros E. rewrite Eiv in E. subst i. congruence.
Qed.

Lemma news_NoDup k : k <= length ps -> NoDup (map successor (owners k)).
Proof using Hph Hused.
  induction k as [|k IH]; intros Hk; [constructor|]. destruct (lookup_lt_is_Some_2 ps k) as [p Hp]; [lia|].
  rewrite <- Nat.add_1_r, (owners_S k p Hp), map_app. destruct (gone k p) eqn:Hg; cbn; [rewrite app_nil_r; apply IH; lia|].
  apply list.NoDup_app. split_and!; [apply IH; lia | | apply NoDup_singleton].
  intros x Hx ->%list_elem_of_singleton. by apply (successor_fresh k p Hp Hg).
Qed.

Lemma gone_version v vsc : gone (length ps) v = true -> src_heap src0 !! v = Some vsc -> sc_doesappend vsc = true.
Proof using Hph Hused.
  intros (j & o & _ & Hj & Hs & Hsu)%gone_spec Hv. destruct (dropped o (list_elem_of_lookup_2 _ _ _ Hj) Hs) as (sc & v' & vsc' & _ & _ & E & _ & H & _ & Hd & _).
  rewrite Hsu in E. subst v'. congruence.
Qed.

Lemma owners_all o : o ∈ owners (length ps) <-> o ∈ ps /\ gone (length ps) o = false.
Proof using Type. unfold owners. rewrite list_elem_of_filter, firstn_all. tauto. Qed.

(** What is used stays, as itself or as the version that has taken its place. *)
Lemma used_stays q : q ∈ ps -> marked src0 used q -> q ∈ map successor (owners (length ps)).
Proof using Hph Hused.
  intros Hq Hm. apply elem_of_map. destruct (gone (length ps) q) eqn:Hg.
  - apply gone_spec in Hg as (j & o & _ & Hj & Hs & Hsu). exists o. split; [done|]. pose proof (list_elem_of_lookup_2 _ _ _ Hj) as Ho.
    apply owners_all. split; [done|]. destruct (gone (length ps) o) eqn:Hgo; [|done].
    destruct (dropped o Ho Hs) as (sc & v & vsc & Hsc & _ & _ & _ & _ & Hd & _). pose proof (gone_version o sc Hgo Hsc). congruence.
  - exists q. split; [|by apply owners_all]. unfold successor. assert (stays q = true) as ->; [|done]. unfold stays.
    destruct (src_heap src0 !! q) as [sc|] eqn:E; [|done]. destruct (sc_appendver sc); [|done]. by rewrite (Hm sc E).
Qed.
End select.

(** ** The pass *)

(** A program that has not been through the pass: bodies are closed and free of
    abstractions, names are told apart and have been given out, tables of
    strict and lazy arguments fit. *)
Record unoptimised (src : source) : Prop := {
  un_wf : wf_source src;
  un_indexed : indexed src;
  un_sound : forall p sc, p ∈ src_scombs src -> src_heap src !! p = Some sc ->
    sound_scomb src sc /\ sc_doesappend sc = false /\ sc_appendver sc = None
}.

Definition is_append_of (src : source) (p : nat) : bool := bool_decide (p ∈ src_scombs src /\ name_at src p = Some "append").

Lemma unoptimised_phase src : unoptimised src -> phase (is_append_of src) (length (src_scombs src)) src.
Proof.
  intros [H1 H2 H3]. split; try done.
  - intros p sc Hp Hs. by apply (H3 p sc).
  - intros p. unfold is_append_of. by rewrite bool_decide_eq_true.
  - intros p sc v Hp Hs Hv. destruct (H3 p sc Hp Hs) as (_ & _ & E). congruence.
  - intros p q sc sc' v Hp Hq Hs Hs' Hv. destruct (H3 p sc Hp Hs) as (_ & _ & E). congruence.
  - intros p sc Hp Hs. destruct (H3 p sc Hp Hs) as (_ & E & _). rewrite E. split; [done|]. intros Hle. exfalso.
    apply list_elem_of_lookup in Hp as [i Hi]. rewrite (H2 i p sc Hi Hs) in Hle. apply lookup_lt_Some in Hi. lia.
  - intros v vsc Hv Hs Hd. destruct (H3 v vsc Hv Hs) as (_ & E & _). congruence.
  - intros p sc Ha Hs. unfold is_append_of in Ha. rewrite bool_decide_eq_true in Ha. destruct Ha as [Hp _]. by destruct (H3 p sc Hp Hs) as (_ & E & _).
Qed.

(** The table the last loop leaves. *)
Section selected.
Context (a : nat -> bool) (n0 : nat) (src0 src : source) (used : list bool) (slots : list (option nat)) (news : list nat).
Hypothesis Hph : phase a n0 src0.
Hypothesis Hused : length used = length (src_scombs src0).
Hypothesis Hrefs : forall p sc body q, p ∈ src_scombs src0 -> src_heap src0 !! p = Some sc -> sc_body sc = Some body -> q ∈ screfs body -> marked src0 used q.
Hypothesis Hsel : selecting src0 used (length (src_scombs src0)) src slots news.
Local Abbreviation last := (schash_rebuild (set_scombs news src)).
Local Abbreviation successor := (successor src0 used).
Local Abbreviation owners := (owners src0 used (length (src_scombs src0))).

Lemma last_at j q : news !! j = Some q -> exists o osc vsc, owners !! j = Some o /\ q = successor o /\ o ∈ src_scombs src0 /\
  src_heap src0 !! o = Some osc /\ src_heap src0 !! q = Some vsc /\ src_heap last !! q = Some (set_index_name j (sc_name osc) vsc).
Proof using Hph Hused Hsel.
  intros Hj. rewrite (se_news _ _ _ _ _ _ Hsel) in Hj. change (map ?f ?l) with (f <$> l) in Hj. rewrite list_lookup_fmap in Hj.
  apply fmap_Some in Hj as (o & Ho & ->). destruct (se_placed _ _ _ _ _ _ Hsel j o Ho) as (osc & vsc & H1 & H2 & H3).
  exists o, osc, vsc. split_and!; try done. apply list_elem_of_lookup_2, owners_all in Ho. tauto.
Qed.

Lemma last_live q : q ∈ news -> exists j o osc vsc, news !! j = Some q /\ owners !! j = Some o /\ q = successor o /\ o ∈ src_scombs src0 /\
  src_heap src0 !! o = Some osc /\ src_heap src0 !! q = Some vsc /\ src_heap last !! q = Some (set_index_name j (sc_name osc) vsc).
Proof using Hph Hused Hsel. intros [j Hj]%list_elem_of_lookup. destruct (last_at j q Hj) as (o & osc & vsc & ?). by exists j, o, osc, vsc. Qed.

Lemma successor_live o : o ∈ src_scombs src0 -> successor o ∈ src_scombs src0.
Proof using Hph Hused.
  intros Ho. destruct (stays src0 used o) eqn:E; [unfold AppendOptFacts.successor; by rewrite E|].
  destruct (dropped a n0 src0 used Hph Hused o Ho E) as (_ & v & _ & _ & _ & -> & Hv & _). done.
Qed.

Lemma last_wf : wf_source last.
Proof using Hph Hused Hsel.
  apply rebuild_wf.
  - intros q Hq. destruct (last_live q Hq) as (j & o & osc & vsc & _ & _ & _ & _ & _ & _ & H). by eexists.
  - cbn. rewrite (se_news _ _ _ _ _ _ Hsel). by apply (news_NoDup a n0).
  - intros q1 q2 n H1 H2 N1 N2. destruct (last_live q1 H1) as (j1 & o1 & osc1 & v1 & _ & _ & -> & O1 & S1 & _ & L1).
    destruct (last_live q2 H2) as (j2 & o2 & osc2 & v2 & _ & _ & -> & O2 & S2 & _ & L2).
    unfold name_at in N1, N2. change (src_heap (set_scombs news src)) with (src_heap last) in N1, N2. rewrite L1 in N1. rewrite L2 in N2. cbn in N1, N2.
    f_equal. eapply (wf_names _ (ph_wf _ _ _ Hph) o1 o2 n); [done | done | unfold name_at; by rewrite S1 | unfold name_at; by rewrite S2].
Qed.

Lemma last_indexed : indexed last.
Proof using Hph Hused Hsel.
  intros j q sc Hj Hs. destruct (last_at j q Hj) as (o & osc & vsc & _ & _ & _ & _ & _ & H). rewrite H in Hs. by injection Hs as <-.
Qed.

Lemma last_sound q sc : q ∈ news -> src_heap last !! q = Some sc -> sound_scomb last sc.
Proof using Hph Hused Hsel Hrefs.
  intros Hq Hs. destruct (last_live q Hq) as (j & o & osc & vsc & _ & _ & E & Ho & _ & Hv & L). rewrite L in Hs. injection Hs as <-.
  assert (q ∈ src_scombs src0) as Hq0 by (subst q; by apply successor_live).
  destruct (ph_sound _ _ _ Hph q vsc Hq0 Hv) as [(body & Hb & [G1 G2 G3 G4]) S2 S3]. split; [|done|done]. exists body. split; [done|]. split; [|done|done|].
  - eapply plain_keep; [exact G1|]. intros r Hr. destruct (plain_refs _ _ G1 r Hr) as [Hrl _].
    assert (r ∈ news) as Hrn.
    { rewrite (se_news _ _ _ _ _ _ Hsel). apply (used_stays a n0 src0 used Hph Hused r Hrl). by apply (Hrefs q vsc body r). }
    split; [done|]. destruct (last_live r Hrn) as (? & ? & ? & ? & _ & _ & _ & _ & _ & _ & H). by eexists.
  - intros x Hx. pose proof (G4 x Hx) as Hold. destruct (se_src _ _ _ _ _ _ Hsel) as [h ->]. exact Hold.
Qed.

(** A function that is no new version keeps its name. *)
Lemma last_name p psc : p ∈ src_scombs src0 -> src_heap src0 !! p = Some psc -> sc_doesappend psc = false ->
  get_scomb last (sc_name psc) = Some (successor p).
Proof using Hph Hused Hsel.
  intros Hp Hs Hd. assert (gone src0 used (length (src_scombs src0)) p = false) as Hg.
  { destruct (gone src0 used (length (src_scombs src0)) p) eqn:E; [|done]. by rewrite (gone_version a n0 src0 used Hph Hused p psc E Hs) in Hd. }
  assert (p ∈ owners) as Ho by (by apply owners_all). apply list_elem_of_lookup in Ho as [j Hj].
  apply get_scomb_spec; [apply last_wf|]. assert (news !! j = Some (successor p)) as Hn.
  { rewrite (se_news _ _ _ _ _ _ Hsel). change (map ?f ?l) with (f <$> l). by rewrite list_lookup_fmap, Hj. }
  split; [by eapply list_elem_of_lookup_2|]. destruct (last_at j _ Hn) as (o & osc & vsc & Ho & _ & _ & Hos & _ & L). rewrite Hj in Ho. injection Ho as <-.
  unfold name_at. rewrite L. cbn. congruence.
Qed.
End selected.


Lemma selecting_start src used : selecting src used 0 src (Some <$> src_scombs src) [].
Proof.
  split.
  - exists (src_heap src). by destruct src.
  - apply length_fmap.
  - intros i p _ Hp. by rewrite list_lookup_fmap, Hp.
  - done.
  - done.
  - done.
Qed.

(** Marking and selecting, once no rule applies any more. *)
Lemma appendopt_rest a n0 src : phase a n0 src -> exists used src' news,
  mark_all_used src (src_scombs src) (replicate (length (src_scombs src)) false) = Done used /\
  select_scombs used src (Some <$> src_scombs src) (seq 0 (length (src_scombs src))) [] = Done (src', news) /\
  let final := schash_rebuild (set_scombs news src') in
  wf_source final /\ indexed final /\ (forall q sc, q ∈ news -> src_heap final !! q = Some sc -> sound_scomb final sc) /\
  forall p sc, p ∈ src_scombs src -> src_heap src !! p = Some sc -> sc_doesappend sc = false -> is_Some (get_scomb final (sc_name sc)).
Proof.
  intros Hph. destruct (mark_all_used_ok src (src_scombs src) (replicate (length (src_scombs src)) false)) as (used & Hm & [Hlen _] & Hmk).
  { intros p Hp. destruct (wf_valid _ (ph_wf _ _ _ Hph) p Hp) as [sc Hs]. destruct (ss_body _ _ (ph_sound _ _ _ Hph p sc Hp Hs)) as (body & Hb & [Hpl _ _ _]).
    exists sc, body. split_and!; [done | done | by eapply plain_lambda_free |]. intros q Hq. destruct (plain_refs _ _ Hpl q Hq) as [Hql [qsc Hqs]].
    exists qsc. split; [done|]. rewrite length_replicate. apply list_elem_of_lookup in Hql as [i Hi]. rewrite (ph_indexed _ _ _ Hph i q qsc Hi Hqs).
    by apply lookup_lt_Some in Hi. }
  rewrite length_replicate in Hlen.
  destruct (select_ok a n0 src used Hph Hlen (length (src_scombs src)) 0 src (Some <$> src_scombs src) []) as (src' & slots & news & Hs & Hsel);
    [lia | apply selecting_start|].
  exists used, src', news. split_and!; [done | done |]. cbn zeta. split_and!.
  - by apply (last_wf a n0 src src' used slots news).
  - by apply (last_indexed a n0 src src' used slots news).
  - by apply (last_sound a n0 src src' used slots news).
  - intros p sc Hp Hsc Hd. eexists. by apply (last_name a n0 src src' used slots news).
Qed.

(** [append], [f x = cons x] and [g x y z = append (f x y) z]. *)
Lemma sample_names args : bool_decide (args ⊆ ["a"; "b"; "x"; "y"; "z"]) = true -> forall x, x ∈ args -> older sample_lists x.
Proof.
  rewrite bool_decide_eq_true. intros H x Hx k ->. apply H in Hx. rewrite !elem_of_cons, elem_of_nil in Hx.
  destruct Hx as [Hx|[Hx|[Hx|[Hx|[Hx|[]]]]]]; discriminate Hx.
Qed.

Lemma sample_good sc body : sc_body sc = Some body -> plain sample_lists body ->
  (forall x, free_in x body -> x ∈ sc_argnames sc) -> NoDup (sc_argnames sc ++ binders body) ->
  bool_decide (sc_argnames sc ++ binders body ⊆ ["a"; "b"; "x"; "y"; "z"]) = true ->
  sc_strictin sc = None -> sc_lazyin sc = None -> sound_scomb sample_lists sc.
Proof.
  intros H1 H2 H3 H4 H5 H6 H7. split; [|by rewrite H6 | by rewrite H7]. exists body. split; [done|]. split; [done | done | done |]. by apply sample_names.
Qed.

Lemma sample_unoptimised : unoptimised sample_lists.
Proof.
  assert (forall p, p ∈ src_scombs sample_lists -> p = 0 \/ p = 1 \/ p = 2) as Hp.
  { intros p. change (src_scombs sample_lists) with [0; 1; 2]. rewrite !elem_of_cons, elem_of_nil. tauto. }
  assert (forall b, b ∈ [B_IF; B_CONS; B_HEAD; B_TAIL] -> plain sample_lists (SNODE_BUILTIN nosl b)) as Hb.
  { intros b. rewrite !elem_of_cons, elem_of_nil. intros [->|[->|[->|[->|[]]]]]; eexists; (split; [reflexivity | lia]). }
  assert (forall q, q < 2 -> plain sample_lists (SNODE_SCREF nosl q)) as Hs.
  { intros [|[|q]] Hq; [| |lia]; (split; [cbn; set_solver | eexists; split; [reflexivity | cbn; lia]]). }
  split.
  - apply source_of_wf. by apply (bool_decide_unpack (NoDup ["append"; "f"; "g"])).
  - intros [|[|[|i]]] p sc Hi Hsc; cbn in Hi; try discriminate; injection Hi as <-; injection Hsc as <-; reflexivity.
  - intros p sc [->|[->| ->]]%Hp Hsc; injection Hsc as <-; (split; [|done]); eapply sample_good; try reflexivity.
    + cbn [plain sample_append sample_apply sample_var]. split_and!; try done; first [apply Hs; lia | apply Hb; set_solver].
    + intros x. cbn. rewrite !elem_of_cons. naive_solver.
    + by apply (bool_decide_unpack (NoDup ["a"; "b"])).
    + cbn [plain sample_pair sample_apply sample_var]. split_and!; try done. apply Hb; set_solver.
    + intros x. cbn. rewrite !elem_of_cons. naive_solver.
    + by apply (bool_decide_unpack (NoDup ["x"])).
    + cbn [plain sample_over sample_apply sample_var]. split_and!; try done; apply Hs; lia.
    + intros x. cbn. rewrite !elem_of_cons. naive_solver.
    + by apply (bool_decide_unpack (NoDup ["x"; "y"; "z"])).
Qed.

(** C19. Append optimisation ends on every program as lambda lifting leaves it:
    with enough rounds (each makes the weight of a body smaller, and there are
    at most twice as many functions as before) it returns, so no assertion
    fails on the way and no function that is still called is thrown away. The
    table of the result has no duplicates and is numbered from zero, every body
    is closed, free of abstractions and binds each name once, no name that the
    program defined is lost, and the last passes return on it. *)
Theorem appendopt_program src : unoptimised src ->
  exists bound src', (forall fuel rounds, bound <= fuel -> bound <= rounds -> appendopt fuel rounds src = Done src') /\
    wf_source src' /\ indexed src' /\ flags_fit src' /\ (forall p, p ∈ src_scombs src' -> lifted src' p) /\
    (forall n, is_Some (get_scomb src n) -> is_Some (get_scomb src' n)) /\
    forall opts, disstrict opts = false -> exists src'', back_end opts src' = Done src'' /\ same_sigs src' src''.
Proof.
  intros Hun. pose proof (unoptimised_phase src Hun) as Hph.
  destruct (appreplace_all_ok (is_append_of src) (length (src_scombs src)) (2 * length (src_scombs src)) src 0 Hph ltac:(lia))
    as (bound & src1 & E1 & [Hph1 [l El] Hn1]).
  destruct (appendopt_rest _ _ _ Hph1) as (used & src2 & news & Em & Es & Hwf & Hix & Hso & Hnm). cbn zeta in Hwf, Hix, Hso, Hnm.
  set (final := schash_rebuild (set_scombs news src2)) in *.
  assert (flags_fit final) as Hff by (intros p sc st Hp Hs Hst; by apply (ss_strict _ _ (Hso p sc Hp Hs))).
  assert (forall p, p ∈ src_scombs final -> lifted final p) as Hl.
  { intros p Hp. destruct (wf_valid _ Hwf p Hp) as [sc Hs]. destruct (ss_body _ _ (Hso p sc Hp Hs)) as (body & Hb & [G1 G2 G3 _]).
    exists sc, body. by split_and!. }
  exists bound, final. split_and!; [| done | done | done | done | |].
  - intros fuel rounds H1 H2. unfold appendopt. rewrite E1 by done. cbn [mbind outcome_bind]. rewrite Em. cbn [mbind outcome_bind]. by rewrite Es.
  - intros n [p Hp]. apply (get_scomb_spec _ _ _ (un_wf _ Hun)) in Hp as [Hp Hname]. unfold name_at in Hname.
    apply fmap_Some in Hname as (sc & Hs & ->). destruct (Hn1 p sc Hp Hs) as (sc1 & Hs1 & <- & _).
    assert (p ∈ src_scombs src1) as Hp1 by (rewrite El; apply elem_of_app; by left). apply (Hnm p sc1 Hp1 Hs1).
    pose proof (ph_new _ _ _ Hph1 p sc1 Hp1 Hs1) as Hnew. destruct (sc_doesappend sc1); [|done]. exfalso.
    apply list_elem_of_lookup in Hp as [i Hi]. pose proof (lookup_lt_Some _ _ _ Hi) as Hlt.
    rewrite (ph_indexed _ _ _ Hph1 i p sc1) in Hnew; [|by rewrite El, lookup_app_l | done]. pose proof (proj1 Hnew eq_refl). lia.
  - intros opts Ho. destruct (back_end_done opts final Ho Hwf Hix Hff Hl) as (src3 & H1 & _ & H2). by exists src3.
Qed.

Lemma appendopt_program_witness : exists bound src', (forall fuel rounds, bound <= fuel -> bound <= rounds -> appendopt fuel rounds sample_lists = Done src') /\
  wf_source src' /\ indexed src' /\ flags_fit src' /\ (forall p, p ∈ src_scombs src' -> lifted src' p) /\
  (forall n, is_Some (get_scomb sample_lists n) -> is_Some (get_scomb src' n)) /\
  forall opts, disstrict opts = false -> exists src'', back_end opts src' = Done src'' /\ same_sigs src' src''.
Proof. apply (appendopt_program sample_lists), sample_unoptimised. Defined.

(** ** Calls with too many arguments *)

Lemma set_head_spine h c : count_args h = 0 -> spine_head h = h ->
  spine_head (set_head h c) = h /\ count_args (set_head h c) = count_args c /\ spine_args (set_head h c) = spine_args c.
Proof.
  intros H0 Hh. induction c as [sl st l IHl r _| | | | | | | |]; cbn [set_head spine_head count_args spine_args];
    try by (split_and!; destruct h).
  destruct IHl as (E1 & E2 & E3). split_and!; congruence.
Qed.

Lemma arg_clos_erase rho c c' : spine_args c = spine_args c' -> arg_clos rho (erase c) = arg_clos rho (erase c').
Proof. intros E. unfold arg_clos. by rewrite !spine_args_erase, E. Qed.

(** What rule * makes of [append (f a1 ... am) second] when [f], which has no
    version yet, is not in the middle of being changed. *)
Lemma first_version cur src whole p sc body sl st sl2 st2 slr q first second asl : unoptimised src -> is_Some (get_scomb src "append") ->
  p ∈ src_scombs src -> src_heap src !! p = Some sc -> sc_body sc = Some body -> sc_name sc <> "append" -> p <> cur ->
  spine_head first = SNODE_SCREF asl p -> exists src' v vsc,
    append_rules cur src whole sl st (SNODE_APPLICATION sl2 st2 (SNODE_SCREF slr q)) first second =
      Done (src', true, SNODE_APPLICATION sl st (set_head (SNODE_SCREF asl v) first) second) /\
    src_heap src' !! v = Some vsc /\ version_of src sc body vsc.
Proof.
  intros Hun [ap Hap] Hp Hs Hb Hn Hne Eh. pose proof (unoptimised_phase src Hun) as Hph.
  destruct (un_sound _ Hun p sc Hp Hs) as ([(body' & Hb' & Hg) _ _] & Hd & Hv). rewrite Hb in Hb'. injection Hb' as <-.
  assert (is_append_of src ap = true) as Ha.
  { unfold is_append_of. rewrite bool_decide_eq_true. by apply (get_scomb_spec _ _ _ (un_wf _ Hun)). }
  destruct (make_version_ok (is_append_of src) (length (src_scombs src)) src p sc body Hph Hp Hs Hv Hd (ex_intro _ ap Ha) Hg)
    as (src' & v & vsc & E & _ & _ & Hps & Hvs & Hvd & Hof).
  exists src', v, vsc. split_and!; [|done|done]. rewrite append_rules_head by (intros lsl bs b ->; discriminate Eh).
  unfold head_rules. rewrite Eh. unfold is_append, append_version, body_now, getsc. rewrite (proj2 (Nat.eqb_neq _ _) Hne), Hs.
  cbn [deref mbind outcome_bind]. rewrite (proj2 (String.eqb_neq _ _) Hn), Hd, Hv, Hb. cbn [deref mbind outcome_bind]. rewrite E.
  cbn [deref mbind outcome_bind]. rewrite Hps. cbn [deref mbind outcome_bind sc_appendver set_append]. rewrite Hvs. cbn [deref mbind outcome_bind].
  by rewrite Hvd.
Qed.

(** The version takes one argument more than [f]. If that is one of those [f]
    is applied to, it is appended, and the result is applied to the rest. *)
Lemma version_over bif_sem src' v vsc ext n asl sl st first second rho w : src_heap src' !! v = Some vsc -> sc_body vsc = Some ext ->
  length (sc_argnames vsc) = S n -> n < count_args first ->
  eval (code_of src') bif_sem rho (erase (SNODE_APPLICATION sl st (set_head (SNODE_SCREF asl v) first) second)) w ->
  exists h cls, eval (code_of src') bif_sem (bind_args (sc_argnames vsc) (take (S n) (arg_clos rho (erase first)))) (erase ext) (VFun h cls).
Proof.
  intros Hv Hb Hn Hlt He. destruct (set_head_spine (SNODE_SCREF asl v) first eq_refl eq_refl) as (E1 & E2 & E3).
  set (call := SNODE_APPLICATION sl st (set_head (SNODE_SCREF asl v) first) second) in *.
  destruct (eval_over (code_of src') bif_sem (erase call) rho w (FSc v) (S n)) as (h & cls & Hen); [| | |done|].
  - rewrite spine_head_erase. cbn [call spine_head]. by rewrite E1.
  - cbn. rewrite code_lookup, Hv. cbn. by rewrite Hn.
  - rewrite count_args_erase. cbn [call count_args]. rewrite E2. lia.
  - exists h, cls. cbn [call erase] in Hen. rewrite arg_clos_app, take_app_le in Hen by (rewrite arg_clos_length, count_args_erase, E2; lia).
    rewrite (arg_clos_erase rho _ first E3) in Hen. inversion Hen as [? xs body ? ? Hc He'| | | | |]; subst. rewrite code_lookup, Hv in Hc. cbn in Hc.
    rewrite Hb in Hc. injection Hc as <- <-. exact He'.
Qed.

(** [cons] makes a cell of its two arguments, whatever they are. *)
Definition makes_cells (bif_sem : nat -> list value -> list clo -> value + clo -> Prop) : Prop :=
  forall vs cls r, bif_sem B_CONS vs cls r <-> r = inl (VData 0 cls).

Section sample.
Context (bif_sem : nat -> list value -> list clo -> value + clo -> Prop).
Hypothesis Hcells : makes_cells bif_sem.

Lemma enter_cons P x y : enter P bif_sem (FBif B_CONS) [x; y] (VData 0 [x; y]).
Proof using Hcells. eapply en_bif_value; [done | done | reflexivity | constructor | by apply Hcells]. Qed.

Lemma enter_cons_data P args v : enter P bif_sem (FBif B_CONS) args v -> v = VData 0 args.
Proof using Hcells.
  intros H. inversion H as [| | | |? b ? vs ? _ _ Hb _ Hr|? b ? vs rho c ? _ _ Hb _ Hr _]; subst; (injection Hb as <-); apply Hcells in Hr; by simplify_eq.
Qed.

(** Before: the list whose first element is [x]. *)
Lemma sample_before x y z : exists v, enter (code_of sample_lists) bif_sem (FSc 2) [x; y; z] v.
Proof using Hcells.
  destruct x as [rx cx], y as [ry cy], z as [rz cz]. set (rho := bind_args ["x"; "y"; "z"] [Clo rx cx; Clo ry cy; Clo rz cz]).
  set (P := code_of sample_lists).
  assert (exists x', eval P bif_sem rho (sample_apply (SNODE_SCREF nosl 1) (sample_var "x")) (VFun (FBif B_CONS) [x'])) as [x' Hf].
  { eexists. eapply ev_app; [eapply ev_fun; [reflexivity|]; eapply ap_partial; [reflexivity | cbn; lia]|].
    eapply ap_call; [reflexivity | done|]. eapply en_scomb; [reflexivity|].
    eapply ev_app; [eapply ev_fun; [reflexivity|]; eapply ap_partial; [reflexivity | cbn; lia]|]. eapply ap_partial; [reflexivity | cbn; lia]. }
  eexists. eapply en_scomb; [reflexivity|]. cbn [erase sample_apply sample_var].
  eapply ev_app; [eapply ev_app; [eapply ev_fun; [reflexivity|]; eapply ap_partial; [reflexivity | cbn; lia]|]; eapply ap_partial; [reflexivity | cbn; lia]|].
  eapply ap_call; [reflexivity | done|]. eapply en_scomb; [reflexivity|]. cbn [erase sample_apply sample_var app].
  eapply ev_app; [eapply ev_app; [eapply ev_app; [eapply ev_fun; [reflexivity|]; eapply ap_partial; [reflexivity | cbn; lia]|];
    eapply ap_partial; [reflexivity | cbn; lia]|]; eapply ap_partial; [reflexivity | cbn; lia]|].
  eapply ap_call; [reflexivity | done|]. cbn [app]. eapply en_true.
  - eapply ev_symbol; [reflexivity|]. eapply ev_app; [exact Hf|]. eapply ap_call; [reflexivity | done | apply enter_cons].
  - done.
  - eapply ev_app; [eapply ev_app; [eapply ev_fun; [reflexivity|]; eapply ap_partial; [reflexivity | cbn; lia]|]; eapply ap_partial; [reflexivity | cbn; lia]|].
    eapply ap_call; [reflexivity | done | apply enter_cons].
Qed.

(** A call of [append] with something that is a function, even a partial one,
    gives a cell. *)
Lemma append_gives_data P sl rho c r w : P !! 0 = code_of sample_lists !! 0 -> 
  (forall v, eval P bif_sem rho c v -> v <> VNil) ->
  eval P bif_sem rho (SNODE_APPLICATION sl false (SNODE_APPLICATION sl false (SNODE_SCREF sl 0) c) r) w -> exists cls, w = VData 0 cls.
Proof using Hcells.
  intros HP Hc He. assert (arity P (FSc 0) = Some 2) as Har by (cbn; by rewrite HP).
  eapply eval_spine in He; [|reflexivity | exact Har | done]. eapply apply_full in He; [|exact Har | done].
  inversion He as [? xs body ? ? Hb He'| | | | |]; subst. rewrite HP in Hb. injection Hb as <- <-.
  eapply eval_spine in He'; [|reflexivity | reflexivity | done]. eapply apply_full in He'; [|reflexivity | done].
  inversion He' as [|? ? ? ? ? ? ? _ _ H2|? ? ? ? ? ? H1 _| |? ? ? ? ? Hn|? ? ? ? ? ? ? Hn]; subst; [| |done..].
  - eapply eval_spine in H2; [|reflexivity | reflexivity | done]. eapply apply_full in H2; [|reflexivity | done].
    eexists. by eapply enter_cons_data.
  - inversion H1 as [? ? ? ? ? ? Hx Hv| | | |? ? ? ? Hf| |]; subst; [|cbn in Hf; discriminate Hf].
    cbn in Hx. injection Hx as <- <-. by destruct (Hc _ Hv).
Qed.

(** After: nothing. *)
Lemma sample_after src p args w : appendopt 20 20 sample_lists = Done src -> get_scomb src "g" = Some p -> ~ enter (code_of src) bif_sem (FSc p) args w.
Proof using Hcells.
  intros E Hg He. set (res := appendopt 20 20 sample_lists) in E. vm_compute in res. subst res. injection E as <-. vm_compute in Hg. injection Hg as <-.
  inversion He as [? xs body ? ? Hb Hv| | | | |]; subst. vm_compute in Hb. injection Hb as <- <-.
  eapply eval_over in Hv; [|reflexivity | reflexivity | cbn; lia]. destruct Hv as (h & cls & Hen).
  inversion Hen as [? xs body ? ? Hb Hw| | | | |]; subst. vm_compute in Hb. injection Hb as <- <-.
  eapply append_gives_data in Hw as [? [=]]; [reflexivity|]. intros v Hcons ->.
  eapply eval_spine in Hcons; [|reflexivity | reflexivity | cbn; lia]. by eapply apply_short in Hcons; [|reflexivity | cbn; lia].
Qed.
End sample.

(** C36. Append optimisation can change what a program means: rule * takes
    [append (f a1 ... am) z] for a call of the appending version of [f] without
    comparing [m] with the number [n] of arguments of [f]. In every program it
    has not been through yet, if [m] is greater than [n], the call that takes
    the place of [append (f a1 ... am) z] has a value only if appending the
    [n+1]st argument to the body of [f] gives a function. In the program
    [f x = cons x], [g x y z = append (f x y) z], for every meaning of the
    built-ins where [cons] makes a cell, every call of [g] has a value before
    the pass and none has one after it. *)
Theorem append_version_overapplied bif_sem : makes_cells bif_sem ->
  (forall cur src whole p sc body sl st sl2 st2 slr q first second asl, unoptimised src -> is_Some (get_scomb src "append") ->
     p ∈ src_scombs src -> src_heap src !! p = Some sc -> sc_body sc = Some body -> sc_name sc <> "append" -> p <> cur ->
     spine_head first = SNODE_SCREF asl p -> sc_nargs sc < count_args first ->
     exists src' v vsc ext, let call := SNODE_APPLICATION sl st (set_head (SNODE_SCREF asl v) first) second in
       append_rules cur src whole sl st (SNODE_APPLICATION sl2 st2 (SNODE_SCREF slr q)) first second = Done (src', true, call) /\
       src_heap src' !! v = Some vsc /\ version_of src sc body vsc /\ sc_body vsc = Some ext /\
       forall rho w, eval (code_of src') bif_sem rho (erase call) w -> exists h cls,
         eval (code_of src') bif_sem (bind_args (sc_argnames vsc) (take (S (sc_nargs sc)) (arg_clos rho (erase first)))) (erase ext) (VFun h cls)) /\
  (forall x y z, exists v, enter (code_of sample_lists) bif_sem (FSc 2) [x; y; z] v) /\
  (exists src p, appendopt 20 20 sample_lists = Done src /\ get_scomb src "g" = Some p /\ forall args w, ~ enter (code_of src) bif_sem (FSc p) args w).
Proof.
  intros Hcells. split_and!.
  - intros cur src whole p sc body sl st sl2 st2 slr q first second asl Hun Hap Hp Hs Hb Hn Hne Eh Hlt.
    destruct (first_version cur src whole p sc body sl st sl2 st2 slr q first second asl Hun Hap Hp Hs Hb Hn Hne Eh) as (src' & v & vsc & E & Hv & Hof).
    pose proof Hof as (ap & sl' & copy & _ & Hargs & _ & Hext). exists src', v, vsc. eexists. cbn zeta. split_and!; [exact E | exact Hv | exact Hof | exact Hext |].
    intros rho w. eapply version_over; [exact Hv | exact Hext | by rewrite Hargs, length_app, Nat.add_comm | exact Hlt].
  - by apply sample_before.
  - eexists _, _. split; [vm_compute; reflexivity|]. split; [vm_compute; reflexivity|]. intros args w. by eapply sample_after.
Qed.

(** In the sample the rule applies to the body of [g]. *)
Definition sample_cells (bif : nat) (vs : list value) (cls : list clo) (r : value + clo) : Prop := r = inl (VData 0 cls).
Definition sample_call : snode := sample_apply (sample_apply (SNODE_SCREF nosl 1) (sample_var "x")) (sample_var "y").

Lemma append_version_overapplied_witness : makes_cells sample_cells /\
  (exists src' v vsc ext, let call := SNODE_APPLICATION nosl false (set_head (SNODE_SCREF nosl v) sample_call) (sample_var "z") in
     append_rules 2 sample_lists (sample_var "z") nosl false (SNODE_APPLICATION nosl false (SNODE_SCREF nosl 0)) sample_call (sample_var "z") =
       Done (src', true, call) /\
     src_heap src' !! v = Some vsc /\ version_of sample_lists sample_pair (sample_apply (SNODE_BUILTIN nosl B_CONS) (sample_var "x")) vsc /\
     sc_body vsc = Some ext /\
     forall rho w, eval (code_of src') sample_cells rho (erase call) w -> exists h cls,
       eval (code_of src') sample_cells (bind_args (sc_argnames vsc) (take 2 (arg_clos rho (erase sample_call)))) (erase ext) (VFun h cls)) /\
  (forall x y z, exists v, enter (code_of sample_lists) sample_cells (FSc 2) [x; y; z] v) /\
  (exists src p, appendopt 20 20 sample_lists = Done src /\ get_scomb src "g" = Some p /\ forall args w, ~ enter (code_of src) sample_cells (FSc p) args w).
Proof.
  assert (makes_cells sample_cells) as Hc by done. split; [exact Hc|].
  destruct (append_version_overapplied sample_cells Hc) as [Hall Hsample]. split; [|exact Hsample].
  apply (Hall 2 sample_lists (sample_var "z") 1 sample_pair _ nosl false nosl false nosl 0 sample_call (sample_var "z") nosl sample_unoptimised);
    [by eexists | right; left | first [done | cbn; lia]..].
Defined.
