(* ===== verification/MachineOk.v ===== *)
(** * The invariant of the machine

    What holds of a task between instructions: the heap is well formed, every
    frame is in the queue its state says, its slots have the types the code
    it is about to run relies on, and it knows where to deliver its result.
    [good] says this of the heap, the frames and the queues; it can treat one
    frame specially: the one whose instruction is being executed, with the
    stack it is known to have at that moment. [snap] says that a task holds
    such a heap, frames and queues. *)

From S2P Require Import Prelude Builtins Source Bytecode Compile Pointer Memory Interpreter Wp SchedFacts Typing.
#[local] Open Scope Z_scope.

(** What does not change while a program runs: the program and its typing,
    the sentinel of the spark list and its cell, the cell of the program's
    first frame, and the constants. *)
Record env := Env {
  e_prog : program; e_typing : typing; e_maxstack : Z;
  e_sentinel : Z; e_scell : Z; e_mcell : Z;
  e_nil : pntr; e_true : pntr; e_strings : list pntr
}.
Definition checked_env (E : env) : bool :=
  check_program (e_prog E) (e_typing E) (e_maxstack E) (Z.of_nat (length (e_strings E))).

(** The cells no value points to. *)
Definition hid (E : env) : list Z := [e_scell E; e_mcell E].

(** ** Values *)

(** Types of the cells a slot or field may point to, and of those that are
    evaluated. *)
Definition visible_type (ty : Z) : bool :=
  bool_decide (ty ∈ [CELL_CONS; CELL_IND; CELL_AREF; CELL_HOLE; CELL_FRAME; CELL_CAP; CELL_NIL; CELL_SYSOBJECT]).
Definition whnf_type (ty : Z) : bool :=
  bool_decide (ty ∈ [CELL_CONS; CELL_AREF; CELL_CAP; CELL_NIL; CELL_SYSOBJECT]).
Definition hole_type (ty : Z) : bool := ty =? CELL_HOLE.

Definition live (st : frame_state) : bool :=
  match st with STATE_NEW | STATE_SPARKED | STATE_ACTIVE => true | _ => false end.

(** Following indirections from [p] ends at [q]. *)
Inductive resolves (h : gmap Z object) : pntr -> pntr -> Prop :=
| resolves_done p ty : pntrtype h p = Some ty -> ty <> CELL_IND -> resolves h p p
| resolves_next p c q : is_pntr p = true -> h !! p_lo p = Some (OCell c) -> c_type c = CELL_IND ->
    resolves h (c_field1 c) q -> resolves h p q.

Section ok.
Context (E : env).

(** The upper half of a pointer to a cell is the index of an element of an
    array, which is there, if the cell refers to an array; a pointer to a hole
    has none. *)
Definition upper_ok (h : gmap Z object) (c : cell) (p : pntr) : Prop :=
  (c_type c = CELL_HOLE -> p_hi p = PNTR_VALUE) /\
  (c_type c = CELL_AREF -> exists x fl n arr, get_pntr (c_field1 c) = Done x /\ h !! x = Some (OArray fl n arr) /\ aref_index p < ca_size arr).

(** [p] is a number or points to a cell whose type satisfies [ok]. *)
Definition points (h : gmap Z object) (ok : Z -> bool) (p : pntr) : Prop :=
  is_pntr p = true ->
  exists c, h !! p_lo p = Some (OCell c) /\ ok (c_type c) = true /\ (p_lo p ∉ hid E) /\
    upper_ok h c p.

Definition visible (h : gmap Z object) : pntr -> Prop := points h visible_type.
Definition whnf (h : gmap Z object) : pntr -> Prop := points h whnf_type.
Definition is_hole_pntr (h : gmap Z object) (p : pntr) : Prop := is_pntr p = true /\ points h hole_type p.

Definition slot_ok (h : gmap Z object) (ty : slot_ty) (p : pntr) : Prop :=
  match ty with SAny => visible h p | SVal => whnf h p | SHole => is_hole_pntr h p end.

(** ** Objects *)

Definition pos_ok (fileno : Z) : Prop := fileno < Z.of_nat (length (stringmap (p_comp (e_prog E)))).

Record cap_ok (h : gmap Z object) (c : cap) : Prop := {
  cp_entry : entry (e_prog E) (e_typing E) (e_maxstack E) (cap_address c) (cap_arity c) = true;
  cp_count : cap_count c < cap_arity c;
  cp_args : Forall (visible h) (cap_data c);
  cp_fno : is_Some (zlookup (p_finfo (e_prog E)) (cap_fno c));
  cp_pos : pos_ok (sl_fileno (cap_sl c))
}.

(** The cell of a frame and the frame point at each other. *)
Definition frame_cell (ks : gmap Z core) (a : Z) (p : pntr) : Prop :=
  exists g k, get_pntr p = Done g /\ ks !! g = Some k /\ k_c k = a /\ live (k_state k) = true.

(** A cell of type [CELL_EMPTY] is still being built; nothing points to it. *)
Record cell_ok (h : gmap Z object) (ks : gmap Z core) (a : Z) (c : cell) : Prop := {
  ce_ind : c_type c = CELL_IND -> visible h (c_field1 c);
  ce_cons : c_type c = CELL_CONS -> visible h (c_field1 c) /\ visible h (c_field2 c);
  ce_aref : c_type c = CELL_AREF ->
     (exists x fl n arr, get_pntr (c_field1 c) = Done x /\ h !! x = Some (OArray fl n arr)) /\ visible h (c_field2 c);
  ce_cap : c_type c = CELL_CAP -> exists x fl n cp, get_pntr (c_field1 c) = Done x /\ h !! x = Some (OCap fl n cp);
  ce_frame : c_type c = CELL_FRAME -> frame_cell ks a (c_field1 c)
}.

Definition object_ok (h : gmap Z object) (ks : gmap Z core) (a : Z) (o : object) : Prop :=
  match o with
  | OCell c => cell_ok h ks a c
  | OCap _ _ c => cap_ok h c
  | OArray _ _ arr => match ca_elements arr with Pntrs l => Forall (visible h) l | Chars _ => True end
  end.

(** ** Frames *)

(** A frame in use other than the sentinel. *)
Definition busy (ks : gmap Z core) (a : Z) (k : core) : Prop :=
  ks !! a = Some k /\ a <> e_sentinel E /\ live (k_state k) = true.

(** The slot a callee will write its result to: nothing is known of it. *)
Definition exempt (ks : gmap Z core) (a i : Z) : Prop := exists b k, busy ks b k /\ k_retp k = Some (a, i).

Definition slots_ok (h : gmap Z object) (ks : gmap Z core) (a : Z) (st : stack_ty) (d : list pntr) : Prop :=
  forall i ty, st !! i = Some ty ->
    (exempt ks a (Z.of_nat i) -> ty = SAny) /\
    (exempt ks a (Z.of_nat i) \/ exists p, d !! i = Some p /\ slot_ok h ty p).

(** Where the result goes: to the frame's cell, or to a slot of a frame that
    waits for it. *)
Definition return_ok (h : gmap Z object) (wl : Z -> list Z) (a : Z) (k : core) : Prop :=
  (k_c k <> 0 /\ k_retp k = None /\
     exists c, h !! k_c k = Some (OCell c) /\ c_type c = CELL_FRAME /\ get_pntr (c_field1 c) = Done a) \/
  (k_c k = 0 /\ exists g i, k_retp k = Some (g, i) /\ g ∈ wl a /\ 0 <= i < e_maxstack E).

(** The type of a frame's stack: given for the frame [cur], from the typing
    for any other. *)
Definition frame_ty (cur : option (Z * pc_ty)) (a : Z) (k : core) (pt : pc_ty) : Prop :=
  match cur with
  | Some (f, ct) => if decide (a = f) then pt = ct else
      exists pc, k_instr k = Some pc /\ zlookup (e_typing E) pc = Some (Some pt)
  | None => exists pc, k_instr k = Some pc /\ zlookup (e_typing E) pc = Some (Some pt)
  end.

(** The stack [pt] of frame [a]; the program's first frame has a cell nobody
    knows, so nobody waits for it. *)
Record typed (h : gmap Z object) (ks : gmap Z core) (wl : Z -> list Z) (a : Z) (k : core) (pt : pc_ty) : Prop := {
  ty_length : Z.of_nat (length (pt_stack pt)) <= e_maxstack E;
  ty_slots : slots_ok h ks a (pt_stack pt) (k_data k);
  ty_main : pt_main pt = true -> k_c k = e_mcell E /\ k_c k <> 0 /\ wl a = []
}.

Record core_ok (h : gmap Z object) (ks : gmap Z core) (wl : Z -> list Z) (cur : option (Z * pc_ty))
    (a : Z) (k : core) : Prop := {
  ko_data : Z.of_nat (length (k_data k)) = e_maxstack E;
  ko_fetchers : k_fetchers k = [];
  ko_idle : live (k_state k) = false -> k_state k = STATE_UNALLOCATED /\ wl a = [];
  ko_return : live (k_state k) = true -> return_ok h wl a k;
  ko_typed : live (k_state k) = true -> exists pt, frame_ty cur a k pt /\ typed h ks wl a k pt
}.

(** [p] is in a slot of frame [a] that holds a hole. *)
Definition hole_slot (ks : gmap Z core) (cur : option (Z * pc_ty)) (a : Z) (i : nat) (p : pntr) : Prop :=
  exists k pt, busy ks a k /\ frame_ty cur a k pt /\ pt_stack pt !! i = Some SHole /\ k_data k !! i = Some p.

(** No two slots hold the same hole. *)
Definition holes_apart (ks : gmap Z core) (cur : option (Z * pc_ty)) : Prop :=
  forall a b i j p p', hole_slot ks cur a i p -> hole_slot ks cur b j p' -> p_lo p = p_lo p' -> a = b /\ i = j.

(** The frame is at an instruction it can be woken up at. *)
Definition wakeable_at (k : core) : Prop :=
  exists pc i, k_instr k = Some pc /\ 0 <= pc /\
    instructions (p_comp (e_prog E)) !! Z.to_nat pc = Some i /\ i_opcode i = OP_EVAL.

(** Frames are in the queues their states say. *)
Record states_ok (ks : gmap Z core) (q : queues) : Prop := {
  so_run : forall a, a ∈ q_run q -> exists k, ks !! a = Some k /\ k_state k = STATE_ACTIVE;
  so_wait : forall w a, a ∈ q_wait q w ->
    (a ∉ q_run q) /\ exists k, ks !! a = Some k /\ k_state k = STATE_ACTIVE /\ wakeable_at k;
  so_active : forall a k, ks !! a = Some k -> k_state k = STATE_ACTIVE -> a ∈ q_run q \/ exists w, a ∈ q_wait q w;
  so_spark : forall a, a ∈ q_spark q <-> exists k, ks !! a = Some k /\ k_state k = STATE_SPARKED;
  so_free : forall a, a ∈ q_free q <-> exists k, ks !! a = Some k /\ k_state k = STATE_UNALLOCATED;
  so_sentinel : exists k, ks !! e_sentinel E = Some k /\ k_state k = STATE_NEW /\ k_c k = e_scell E
}.

(** ** The invariant *)

Record good (cur : option (Z * pc_ty)) (h : gmap Z object) (ks : gmap Z core) (q : queues) : Prop := {
  gd_states : states_ok ks q;
  gd_addr : forall a, is_Some (h !! a) -> 8 <= a;
  gd_hidden : forall a, a ∈ hid E -> is_Some (h !! a);
  gd_heap : forall a o, h !! a = Some o -> object_ok h ks a o;
  gd_resolves : forall p, visible h p -> exists p', resolves h p p';
  gd_cores : forall a k, ks !! a = Some k -> a <> e_sentinel E -> core_ok h ks (q_wait q) cur a k;
  gd_holes : holes_apart ks cur;
  gd_nil : whnf h (e_nil E);
  gd_true : whnf h (e_true E);
  gd_strings : Forall (whnf h) (e_strings E)
}.
End ok.

(** ** The task *)

(** Nothing lies in the free part of the newest block. *)
Definition newgen_ok (t : task) : Prop :=
  match m_newgen (t_mem t) with
  | [] => m_newgenoffset (t_mem t) = sizeof_block
  | (bl, _) :: _ =>
      8 <= bl /\ bl + sizeof_block <= t_brk t /\ BLOCK_START <= m_newgenoffset (t_mem t) /\
      forall a, is_Some (t_heap t !! a) -> bl <= a < bl + sizeof_block -> a < bl + m_newgenoffset (t_mem t)
  end.

Record memory_ok (t : task) : Prop := {
  mo_brk : 8 <= t_brk t;
  mo_heap : forall a, is_Some (t_heap t !! a) -> 8 <= a < t_brk t;
  mo_frames : forall a, is_frame t a -> 8 <= a < t_brk t;
  mo_newgen : newgen_ok t
}.

Record misc_ok (E : env) (t : task) : Prop := {
  mi_prog : t_prog t = e_prog E;
  mi_maxstack : t_maxstack t = e_maxstack E;
  mi_sentinel : t_sparklist t = e_sentinel E;
  mi_nil : t_globnilpntr t = e_nil E;
  mi_true : t_globtruepntr t = e_true E;
  mi_strings : t_strings t = e_strings E;
  mi_error : t_error t = None;
  mi_done : t_done t = false
}.

(** The task [t] holds the heap [h], the frames [ks] and the queues [q]; [i]:
    an interrupt is known to be pending. *)
Record snap (E : env) (h : gmap Z object) (ks : gmap Z core) (q : queues) (i : bool) (t : task) : Prop := {
  sn_links : links (e_sentinel E) (vw t) q;
  sn_heap : t_heap t = h;
  sn_cores : cores t = ks;
  sn_memory : memory_ok t;
  sn_misc : misc_ok E t;
  sn_interrupt : i = true -> t_interrupt t = true
}.

(** Between instructions: running, or stopped by an error that the next
    instruction reports, or reported. *)
Definition running (E : env) (t : task) : Prop :=
  exists h ks q i, snap E h ks q i t /\ good E None h ks q /\ (q_run q = [] -> i = true).

Definition failing (E : env) (t : task) : Prop :=
  is_Some (t_error t) /\ pos_ok E (sl_fileno (t_errorsl t)) /\ t_prog t = e_prog E /\
  (t_interrupt t = true \/
   exists f fr, t_run t = f /\ f <> 0 /\ t_frames t !! f = Some fr /\ f_instr fr = Some (p_erroraddr (e_prog E))).

Definition machine_ok (E : env) (t : task) : Prop := running E t \/ failing E t.
