(* ===== verification/Store.v ===== *)
(** * The memory of a task by itself

    Allocation, write barriers and accesses to objects leave everything but
    the memory of the task alone, and what they do there does not depend on
    the rest. [store t0 h t]: [t] is [t0] with another memory, which holds the
    heap [h]; the rules below say what each operation does to it. *)

From S2P Require Import Prelude Builtins Source Bytecode Compile Pointer Memory Globals Sched Arrays Interpreter Wp SchedFacts Typing MachineOk.
#[local] Open Scope Z_scope.

(** An interrupt may be requested. *)
Definition only_mem (t t' : task) : Prop :=
  exists m b i, t' = set_mem m (set_brk b (set_interrupt i t)) /\ (t_interrupt t = true -> i = true).

#[export] Instance only_mem_preorder : PreOrder only_mem.
Proof.
  split.
  - intros t. exists (t_mem t), (t_brk t), (t_interrupt t). by destruct t.
  - intros t1 t2 t3 (m & b & i & -> & Hi) (m' & b' & i' & -> & Hi'). exists m', b', i'. auto.
Qed.

Record store (t0 : task) (h : gmap Z object) (t : task) : Prop := {
  sr_heap : t_heap t = h;
  sr_memory : memory_ok t;
  sr_only : only_mem t0 t
}.

Section store.
Context (t0 : task).
Implicit Types (h : gmap Z object) (c : cell) (t : task).

Lemma store_self t : memory_ok t -> store t (t_heap t) t.
Proof. intros M. by split. Qed.

Lemma store_again h t : store t0 h t -> store t h t.
Proof. intros S. by split; [apply S | apply S|]. Qed.

Lemma store_trans h h' t t' : store t0 h t -> store t h' t' -> store t0 h' t'.
Proof. intros [_ _ R] [? ? R']. split; [done | done | by transitivity t]. Qed.

(** ** Objects *)

Lemma store_get_object h t a o Q : store t0 h t -> h !! a = Some o -> Q o t -> wp (get_object a) Q t.
Proof. intros S H HQ. eapply wp_get_object; [|exact HQ]. by rewrite (sr_heap _ _ _ S). Qed.
Lemma store_get_cell h t a c Q : store t0 h t -> h !! a = Some (OCell c) -> Q c t -> wp (get_cell a) Q t.
Proof. intros S H HQ. eapply wp_get_cell; [|exact HQ]. by rewrite (sr_heap _ _ _ S). Qed.
Lemma store_get_array h t a fl n x Q : store t0 h t -> h !! a = Some (OArray fl n x) -> Q x t -> wp (get_array a) Q t.
Proof. intros S H HQ. eapply wp_get_array; [|exact HQ]. by rewrite (sr_heap _ _ _ S). Qed.
Lemma store_typeof h t p ty Q : store t0 h t -> pntrtype h p = Some ty -> Q ty t -> wp (typeof p) Q t.
Proof. intros S H HQ. eapply wp_typeof; [|exact HQ]. by rewrite (sr_heap _ _ _ S). Qed.

Lemma newgen_sub t t' :
  m_newgen (t_mem t') = m_newgen (t_mem t) -> m_newgenoffset (t_mem t') = m_newgenoffset (t_mem t) -> t_brk t' = t_brk t ->
  (forall a, is_Some (t_heap t' !! a) -> is_Some (t_heap t !! a)) -> newgen_ok t -> newgen_ok t'.
Proof.
  intros Eg Eo Eb Hd N. unfold newgen_ok in *. rewrite Eg, Eo, Eb. destruct (m_newgen (t_mem t)) as [|[bl u] l]; [done|].
  destruct N as (N1 & N2 & N3 & N4). split_and!; [done..|]. intros a Ha. apply N4, Hd, Ha.
Qed.

Lemma store_heap_put h t a o : store t0 h t -> is_Some (h !! a) -> store t0 (<[a := o]> h) (heap_put a o t).
Proof.
  intros [Hh [M1 M2 M3 M4] R] Ha.
  assert (forall b, is_Some (t_heap (heap_put a o t) !! b) -> is_Some (t_heap t !! b)) as Hd.
  { intros b [x Hb]. rewrite heap_heap_put, Hh in Hb. rewrite Hh. apply lookup_insert_Some in Hb as [[<- _]|[_ Hb]]; eauto. }
  split; [rewrite heap_heap_put; by rewrite Hh | split; [done | |done|] |].
  - intros b Hb. apply M2, Hd, Hb.
  - eapply (newgen_sub t); [done | done | done | exact Hd | exact M4].
  - transitivity t; [done|]. exists (set_heap (<[a := o]> (t_heap t)) (t_mem t)), (t_brk t), (t_interrupt t). by destruct t.
Qed.

Lemma store_put_object h t a o Q :
  store t0 h t -> is_Some (h !! a) -> (forall t', store t0 (<[a := o]> h) t' -> Q tt t') -> wp (put_object a o) Q t.
Proof. intros S Ha HQ. apply wp_put_object, HQ. by apply store_heap_put. Qed.

Lemma store_put_cell h t a c Q :
  store t0 h t -> is_Some (h !! a) -> (forall t', store t0 (<[a := OCell c]> h) t' -> Q tt t') -> wp (put_cell a c) Q t.
Proof. apply store_put_object. Qed.

Lemma store_put_array h t a fl n x x' Q :
  store t0 h t -> h !! a = Some (OArray fl n x) ->
  (forall t', store t0 (<[a := OArray fl n x']> h) t' -> Q tt t') -> wp (put_array a x') Q t.
Proof.
  intros S Ha HQ. apply wp_bind. eapply store_get_object; [done | done|]. eapply store_put_object; [done | eauto | done].
Qed.

Lemma store_set_cell_type h t a ty c Q :
  store t0 h t -> h !! a = Some (OCell c) ->
  (forall t', store t0 (<[a := OCell (Cell ty (c_flags c) (c_field1 c) (c_field2 c))]> h) t' -> Q tt t') -> wp (set_cell_type a ty) Q t.
Proof.
  intros S Ha HQ. apply wp_bind. eapply store_get_cell; [done | done|]. eapply store_put_cell; [done | eauto | done].
Qed.

(** ** Allocation *)

Definition same_block t t' : Prop :=
  m_newgen (t_mem t') = m_newgen (t_mem t) /\ m_newgenoffset (t_mem t') = m_newgenoffset (t_mem t).

Lemma store_force_minor h t : store t0 h t -> wp force_minor_collection (fun _ t' => store t0 h t' /\ same_block t t') t.
Proof.
  intros [Hh [M1 M2 M3 M4] R]. unfold force_minor_collection. apply wp_bind, wp_gets.
  destruct (m_need_minor (t_mem t)); [by apply wp_ret|]. apply wp_bind, wp_modify, wp_modify. split; [|done].
  split; [done | by split|]. transitivity t; [done|]. by exists (set_need_minor true (t_mem t)), (t_brk t), true.
Qed.

(** Address space is given out in order. *)
Lemma store_sys_alloc h t n Q :
  store t0 h t -> 0 <= n ->
  (forall t', store t0 h t' -> same_block t t' -> t_brk t + n <= t_brk t' -> Q (t_brk t) t') -> wp (sys_alloc n) Q t.
Proof.
  intros [Hh [M1 M2 M3 M4] R] Hn HQ. unfold sys_alloc. apply wp_bind, wp_gets. destruct (t_brk t + n <=? 2^32).
  2: { apply wp_fatal. unfold exit_ok, exit_messages. set_solver. }
  assert (n <= (n + 15) / 16 * 16) as Hle by (pose proof (Z.div_mod (n + 15) 16); pose proof (Z.mod_pos_bound (n + 15) 16); lia).
  apply wp_bind, wp_modify, wp_ret, HQ; [|done|cbn; lia]. split; [done | split; cbn; [lia | | |] |].
  - intros a Ha. specialize (M2 a Ha). lia.
  - intros a Ha. specialize (M3 a Ha). lia.
  - unfold newgen_ok in *. cbn. unfold t_heap in *. cbn. destruct (m_newgen (t_mem t)) as [|[bl u] l]; [done|].
    destruct M4 as (? & ? & ? & ?). split_and!; [done | lia | done..].
  - transitivity t; [done|]. exists (t_mem t), (t_brk t + (n + 15) / 16 * 16), (t_interrupt t). by destruct t.
Qed.

Definition room t (n : Z) : Prop :=
  exists bl u l, m_newgen (t_mem t) = (bl, u) :: l /\ m_newgenoffset (t_mem t) + n <= sizeof_block.

Lemma store_new_block h t n :
  store t0 h t -> 0 < n <= BLOCK_BYTES -> wp (new_block n) (fun _ t' => store t0 h t' /\ room t' n) t.
Proof.
  intros S Hn. unfold new_block. apply wp_bind, wp_gets. destruct (Z.leb_spec (sizeof_block - n) (m_newgenoffset (t_mem t))) as [Hle|Hgt].
  - apply wp_bind. eapply (wp_mono _ (fun _ t' => store t0 h t' /\ same_block t t')).
    { destruct (m_newgen (t_mem t)); [by apply wp_ret | by apply store_force_minor]. }
    intros [] t1 (S1 & _). cbv beta. apply wp_bind. eapply store_sys_alloc; [done | unfold sizeof_block, BLOCK_END, BLOCK_START, BLOCK_BYTES; lia|].
    intros t2 S2 B2 Hbrk. apply wp_modify. split; [|eexists _, _, _; split; [reflexivity|]; cbn; unfold sizeof_block, BLOCK_END; lia].
    destruct S1 as [H1 [N1 N2 N3 N4] _], S2 as [H2 [M1 M2 M3 M4] R2]. split; [done | split; [done | done | done|] |].
    + unfold newgen_ok. cbn. split_and!; [lia | lia | lia|]. intros a Ha Hr. unfold t_heap in *. cbn in Ha. rewrite H2, <- H1 in Ha.
      specialize (N2 a Ha). lia.
    + transitivity t2; [done|]. exists (set_newgen ((t_brk t1, m_newgenoffset (t_mem t)) :: m_newgen (t_mem t)) BLOCK_START (t_mem t2)), (t_brk t2), (t_interrupt t2).
      by destruct t2.
  - apply wp_ret. split; [done|]. assert (N := mo_newgen _ (sr_memory _ _ _ S)). unfold newgen_ok in N. unfold room.
    destruct (m_newgen (t_mem t)) as [|[bl u] l]; [lia|]. exists bl, u, l. split; [done | lia].
Qed.

(** The next address of the newest block. *)
Lemma store_bump h t n bl u l :
  store t0 h t -> m_newgen (t_mem t) = (bl, u) :: l -> 0 < n -> m_newgenoffset (t_mem t) + n <= sizeof_block ->
  let a := m_newgenoffset (t_mem t) + bl in
  h !! a = None /\ 8 <= a /\
  forall o, store t0 (<[a := o]> h) (heap_put a o (set_mem (set_newgen (m_newgen (t_mem t)) (m_newgenoffset (t_mem t) + n) (t_mem t)) t)).
Proof.
  intros [Hh [M1 M2 M3 M4] R] Hg Hn Hroom a. unfold newgen_ok in M4. rewrite Hg in M4. destruct M4 as (N1 & N2 & N3 & N4). unfold BLOCK_START in N3.
  split_and!; [|lia|].
  - destruct (h !! a) as [o|] eqn:Eo; [|done]. rewrite <- Hh in Eo. specialize (N4 a ltac:(eauto) ltac:(lia)). lia.
  - intros o. set (t' := heap_put a o _). assert (t_heap t' = <[a := o]> (t_heap t)) as Ht' by done.
    assert (Hd : forall b, is_Some (t_heap t' !! b) -> b = a \/ is_Some (t_heap t !! b)).
    { intros b [x Hb]. rewrite Ht' in Hb. apply lookup_insert_Some in Hb as [[<- _]|[_ Hb]]; eauto. }
    split; [by rewrite Ht', Hh | split; [done| |done|] |].
    + intros b [->|Hb]%Hd; [change (t_brk t') with (t_brk t); lia | by apply M2].
    + unfold newgen_ok. change (m_newgen (t_mem t')) with (m_newgen (t_mem t)). change (t_brk t') with (t_brk t).
      change (m_newgenoffset (t_mem t')) with (m_newgenoffset (t_mem t) + n). rewrite Hg. split_and!; [done | done | unfold BLOCK_START; lia|].
      intros b [->|Hb]%Hd Hr; [lia|]. specialize (N4 b Hb Hr). lia.
    + transitivity t; [done|]. exists (t_mem t'), (t_brk t), (t_interrupt t). by destruct t.
Qed.

(** The address [alloc_mem] returns is a fresh one. *)
Lemma store_alloc_mem h t n Q :
  store t0 h t -> n mod 8 = 0 -> 0 < n <= BLOCK_BYTES ->
  (forall a fl t', h !! a = None -> 8 <= a -> store t0 (<[a := blank fl]> h) t' -> Q a t') -> wp (alloc_mem n) Q t.
Proof.
  intros S H8 Hn HQ. unfold alloc_mem. apply wp_bind, wp_massert; [by apply Z.eqb_eq|].
  apply wp_bind, wp_massert; [apply Z.leb_le; unfold BLOCK_END; lia|].
  apply wp_bind, wp_gets, wp_bind, wp_massert.
  { assert (M := mo_newgen _ (sr_memory _ _ _ S)). unfold newgen_ok in M.
    destruct (m_newgen (t_mem t)) as [|[bl u] l]; [|by rewrite orb_true_r]. rewrite M. by rewrite Z.leb_refl. }
  apply wp_bind, wp_gets. eapply (wp_use _ _ (fun _ t' => store t0 h t')).
  { destruct (_ && _); [|by apply wp_ret]. eapply wp_mono; [by eapply store_force_minor|]. by intros _ t' [? _]. }
  intros [] t1 S1. eapply wp_use; [by eapply store_new_block|]. intros [] t2 (S2 & bl & u & l & Hg & Hroom).
  apply wp_bind, wp_gets. rewrite Hg. cbv zeta. apply wp_bind, wp_modify, wp_bind, wp_put_object, wp_ret.
  destruct (store_bump _ _ _ _ _ _ S2 Hg (proj1 Hn) Hroom) as (Hnone & H8' & Hst). eapply (HQ _ (m_newcellflags (t_mem t2))); [done | done|].
  rewrite <- Hg. apply Hst.
Qed.

Lemma store_alloc_cell h t Q :
  store t0 h t -> (forall a fl t', h !! a = None -> 8 <= a -> store t0 (<[a := blank fl]> h) t' -> Q a t') -> wp alloc_cell Q t.
Proof. intros S. eapply store_alloc_mem; [done | done | unfold sizeof_cell, BLOCK_BYTES; lia]. Qed.

(** ** Write barriers *)

Lemma store_write_barrier h t a o Q :
  store t0 h t -> h !! a = Some o ->
  (forall fl t', store t0 (<[a := obj_set_flags fl o]> h) t' -> Q tt t') -> wp (write_barrier a) Q t.
Proof.
  intros S Ha HQ. unfold write_barrier. apply wp_bind. eapply store_get_object; [done | done|]. destruct (_ && _).
  - apply wp_bind, wp_modify. destruct S as [Hh [M1 M2 M3 M4] R].
    eapply (store_put_object h); [|by eauto|intros t' S'; by eapply HQ].
    split; [done | by split|]. transitivity t; [done|].
    exists (set_remembered (m_remembered (t_mem t) ++ [a]) (t_mem t)), (t_brk t), (t_interrupt t). by destruct t.
  - apply wp_ret, (HQ (obj_flags o)). rewrite insert_id; [done|]. rewrite Ha. by destruct o as [[]| |].
Qed.

(** [dest] points to an object, if it points. *)
Lemma store_write_barrier_ifnew h t a o dest Q :
  store t0 h t -> h !! a = Some o -> (is_pntr dest = true -> is_Some (h !! p_lo dest)) ->
  (forall fl t', store t0 (<[a := obj_set_flags fl o]> h) t' -> Q tt t') -> wp (write_barrier_ifnew a dest) Q t.
Proof.
  intros S Ha Hd HQ. assert (store t0 (<[a := obj_set_flags (obj_flags o) o]> h) t) as S0.
  { rewrite insert_id; [done|]. rewrite Ha. by destruct o as [[]| |]. }
  unfold write_barrier_ifnew. destruct (is_pntr dest) eqn:Ed; [|apply wp_ret; by eapply HQ].
  destruct (Hd eq_refl) as [x Hx]. cbv iota. apply wp_bind. eapply store_get_object; [exact S | exact Hx|].
  destruct (negb _); [|apply wp_ret; by eapply HQ]. eapply store_write_barrier; [exact S | exact Ha | exact HQ].
Qed.

(** ** Arrays *)

Lemma align8 n : (if n mod 8 =? 0 then n else n + (8 - n mod 8)) mod 8 = 0.
Proof.
  destruct (Z.eqb_spec (n mod 8) 0) as [|H]; [done|].
  replace (n + (8 - n mod 8)) with ((n / 8 + 1) * 8) by (pose proof (Z.div_mod n 8); lia). apply Z.mod_mul. lia.
Qed.

Lemma align8_bound n : n <= (if n mod 8 =? 0 then n else n + (8 - n mod 8)) <= n + 8.
Proof. pose proof (Z.mod_pos_bound n 8). destruct (n mod 8 =? 0); lia. Qed.

Definition array_room (n : Z) : Z := if MAX_ARRAY_SIZE <? n then MAX_ARRAY_SIZE else if n <=? 0 then 8 else n.
Lemma array_room_id n : 0 < n <= MAX_ARRAY_SIZE -> array_room n = n.
Proof. intros Hn. unfold array_room. rewrite (proj2 (Z.ltb_ge _ _)), (proj2 (Z.leb_gt _ _)) by lia. done. Qed.
Definition no_elements (d : Z) : elements := if d =? sizeof_pntr then Pntrs [] else Chars [].

Lemma store_carray_new h t d n Q :
  store t0 h t -> 0 < d <= 8 ->
  (forall a fl b t', h !! a = None -> 8 <= a -> store t0 (<[a := OArray fl b (Carray (array_room n) (no_elements d) false 0)]> h) t' -> Q a t') ->
  wp (carray_new d n) Q t.
Proof.
  intros S Hd HQ. unfold carray_new. cbv zeta. fold (array_room n).
  assert (0 < array_room n <= 524288) as Hn.
  { unfold array_room, MAX_ARRAY_SIZE. change (Z.shiftl 1 19) with 524288. destruct (Z.ltb_spec 524288 n); [lia|]. destruct (Z.leb_spec n 0); lia. }
  assert (0 < array_room n * d <= 524288 * 8) as Hnd by nia.
  pose proof (align8_bound (sizeof_carray + array_room n * d)) as Hb. pose proof (align8 (sizeof_carray + array_room n * d)) as Ha.
  unfold sizeof_carray in Hb. apply wp_bind. eapply store_alloc_mem; [done | exact Ha | unfold sizeof_carray, BLOCK_BYTES; lia|].
  intros a fl t1 Hnone H8 S1. apply wp_bind. eapply store_get_object; [done | by rewrite lookup_insert_eq|].
  apply wp_bind. eapply store_put_object; [done | rewrite lookup_insert_eq; eauto|]. intros t2 S2. rewrite insert_insert_eq in S2.
  apply wp_ret. by eapply HQ.
Qed.

(** An empty array and the cell that refers to it. *)
Lemma store_create_array h t d n Q :
  store t0 h t -> 0 < d <= 8 ->
  (forall x b r fx fr t', h !! x = None -> 8 <= x -> h !! r = None -> 8 <= r -> r <> x ->
     store t0 (<[r := OCell (Cell CELL_AREF fr (make_pntr x) (t_globnilpntr t0))]>
       (<[x := OArray fx b (Carray (array_room n) (no_elements d) false 0)]> h)) t' ->
     Q (make_pntr r) t') ->
  wp (create_array d n) Q t.
Proof.
  intros S Hd HQ. unfold create_array, create_array_cell. apply wp_bind, wp_bind. eapply store_carray_new; [done | done|].
  intros x fx b t1 Hx Hx8 S1. apply wp_bind. eapply store_alloc_cell; [done|]. intros r fr t2 Hr Hr8 S2.
  apply lookup_insert_None in Hr as [Hr Hne]. apply wp_bind, wp_gets, wp_bind.
  assert (t_globnilpntr t2 = t_globnilpntr t0) as -> by (destruct (sr_only _ _ _ S2) as (? & ? & ? & -> & _); done).
  eapply store_get_cell; [done | by rewrite lookup_insert_eq|]. apply wp_bind. eapply store_put_cell; [done | rewrite lookup_insert_eq; eauto|].
  intros t3 S3. rewrite insert_insert_eq in S3. cbn [c_flags] in S3. apply wp_ret, wp_ret. by eapply (HQ x b r fx fr).
Qed.
End store.
