(* ===== verification/ArrayFacts.v ===== *)
(** * Making lists in arrays

    What [binary_data_to_list] and [pointers_to_list] leave in the heap: a
    chain of cells that refer to arrays, the last of them followed by the
    given tail; every other object is as it was. *)

From S2P Require Import Prelude Builtins Source Bytecode Compile Pointer Memory Globals Sched Arrays Interpreter Lists Wp SchedFacts Typing MachineOk Store.
#[local] Open Scope Z_scope.

Lemma max_array_pos : 0 < MAX_ARRAY_SIZE.
Proof. reflexivity. Qed.
#[local] Hint Resolve max_array_pos : core.

Lemma make_aref_0 r : make_aref_pntr r 0 = Done (make_pntr r).
Proof. reflexivity. Qed.

(** ** Lists of characters *)

Definition array_at (h : gmap Z object) (x : Z) (e : elements) : Prop :=
  exists fl b al mr nc, h !! x = Some (OArray fl b (Carray al e mr nc)).
Definition aref_at (h : gmap Z object) (r x : Z) (tl : pntr) : Prop :=
  exists fl, h !! r = Some (OCell (Cell CELL_AREF fl (make_pntr x) tl)).

(** The list that begins at [r] has the characters [l] and goes on at [tail]. *)
Inductive chars_list (h : gmap Z object) (tail : pntr) : Z -> list ascii -> Prop :=
| chars_last r x l : aref_at h r x tail -> array_at h x (Chars l) -> l <> [] -> chars_list h tail r l
| chars_more r x l r' l' : aref_at h r x (make_pntr r') -> array_at h x (Chars l) -> l <> [] ->
    chars_list h tail r' l' -> chars_list h tail r (l ++ l').

(** A cell that refers to an array with at least one element. *)
Definition full_ref (h : gmap Z object) (r : Z) : Prop :=
  exists c x e, h !! r = Some (OCell c) /\ c_type c = CELL_AREF /\ c_field1 c = make_pntr x /\ array_at h x e /\ 0 < elements_size e.

(** An array of values or characters, or a cell that refers to one. *)
Definition list_object (h : gmap Z object) (ok : pntr -> Prop) (o : object) : Prop :=
  match o with
  | OArray _ _ a => match ca_elements a with Chars _ => True | Pntrs l => Forall ok l end
  | OCell c => c_type c = CELL_AREF /\ (exists x e, c_field1 c = make_pntr x /\ array_at h x e) /\
      (ok (c_field2 c) \/ exists r, c_field2 c = make_pntr r /\ full_ref h r)
  | OCap _ _ _ => False
  end.

Lemma nonempty_size (l : list ascii) : l <> [] -> 0 < elements_size (Chars l).
Proof. destruct l; [done|]. cbn. lia. Qed.

Lemma chars_list_full h tail r l : chars_list h tail r l -> full_ref h r.
Proof. intros [? x ? [fl H] Hx Hn|? x ? ? ? [fl H] Hx Hn _]; (eexists _, x, _; split_and!; [exact H | done | done | exact Hx | by apply nonempty_size]). Qed.

Lemma full_ref_kept h h' r : (forall a o, h !! a = Some o -> h' !! a = Some o) -> full_ref h r -> full_ref h' r.
Proof.
  intros Hs (c & x & e & Hc & Ht & Hf & (fl & b & al & mr & nc & Ha) & Hn). exists c, x, e. split_and!; [by apply Hs | done | done | | done].
  exists fl, b, al, mr, nc. by apply Hs.
Qed.

(** From [h] to [h']: only the objects at [rs] have changed; these and the new
    ones are objects of lists. *)
Record lists_made (rs : list Z) (ok : pntr -> Prop) (h h' : gmap Z object) : Prop := {
  lm_old : forall a o, h !! a = Some o -> (a ∉ rs) -> h' !! a = Some o;
  lm_new : forall a o, h' !! a = Some o -> (h !! a = Some o /\ (a ∉ rs)) \/ (list_object h' ok o /\ 8 <= a)
}.

(** ** Rules *)

Section rules.
Context (t0 : task).
Implicit Types (h : gmap Z object) (t : task).

Lemma store_nil h t : store t0 h t -> t_globnilpntr t = t_globnilpntr t0.
Proof. intros S. by destruct (sr_only _ _ _ S) as (? & ? & ? & -> & _). Qed.

Lemma store_cell_array h t r c x Q :
  store t0 h t -> h !! r = Some (OCell c) -> c_field1 c = make_pntr x -> Q x t -> wp (cell_array r) Q t.
Proof. intros S Hr Hx HQ. unfold cell_array. apply wp_bind. eapply store_get_cell; [done | done|]. rewrite Hx. by eapply wp_lift. Qed.

Lemma store_aref_set_tail h t r c tail Q :
  store t0 h t -> h !! r = Some (OCell c) -> (is_pntr tail = true -> is_Some (h !! p_lo tail)) ->
  (forall fl t', store t0 (<[r := OCell (Cell (c_type c) fl (c_field1 c) tail)]> h) t' -> Q tt t') -> wp (aref_set_tail r tail) Q t.
Proof.
  intros S Hr Hd HQ. unfold aref_set_tail, set_field2. apply wp_bind, wp_bind. eapply store_get_cell; [done | done|].
  eapply store_put_cell; [done | eauto|]. intros t1 S1. eapply store_write_barrier_ifnew; [exact S1 | by rewrite lookup_insert_eq | |].
  - intros Hp. destruct (decide (p_lo tail = r)) as [->|Hn]; [rewrite lookup_insert_eq; eauto|]. rewrite lookup_insert_ne; [by apply Hd | done].
  - intros fl t2 S2. rewrite insert_insert_eq in S2. by eapply HQ.
Qed.

(** There is room for the elements. *)
Lemma store_ensure_room h t r c x fl b a n Q :
  store t0 h t -> h !! r = Some (OCell c) -> c_field1 c = make_pntr x -> h !! x = Some (OArray fl b a) -> n <= ca_alloc a ->
  Q tt t -> wp (ensure_room r n) Q t.
Proof.
  intros S Hr Hc Hx Hn HQ. unfold ensure_room. apply wp_bind. eapply store_cell_array; [done | done | done|].
  apply wp_bind. eapply store_get_array; [done | done|]. rewrite (proj2 (Z.ltb_ge _ _)) by done. by apply wp_ret.
Qed.

(** The characters of a full array of characters need no conversion. *)
Lemma store_check_chars h t r c x fl b a l Q :
  store t0 h t -> h !! r = Some (OCell c) -> c_field1 c = make_pntr x -> h !! x = Some (OArray fl b a) ->
  ca_elements a = Chars l -> ca_multiref a = false -> pntrtype h (c_field2 c) = Some CELL_NIL -> Q tt t -> wp (check_array_convert r) Q t.
Proof.
  intros S Hr Hc Hx He Hm Ht HQ. unfold check_array_convert. apply wp_bind. eapply store_cell_array; [done | done | done|].
  apply wp_bind. eapply store_get_array; [done | done|]. apply wp_bind, wp_massert; [by rewrite Hm|]. apply wp_bind. unfold aref_resolve_tail.
  apply wp_bind. eapply store_get_cell; [done | done|]. apply wp_bind. eapply store_typeof; [done | done|]. apply wp_ret.
  apply wp_bind. eapply store_get_cell; [done | done|]. unfold ca_elemsize. rewrite He. by apply wp_ret.
Qed.

(** The first part of a turn of the loop: as much as fits goes into an empty
    array. *)
Definition part (l : list ascii) : Z := if MAX_ARRAY_SIZE <? Z.of_nat (length l) then MAX_ARRAY_SIZE else Z.of_nat (length l).

Lemma part_bound l : l <> [] -> 0 < part l <= Z.of_nat (length l) /\ part l <= MAX_ARRAY_SIZE.
Proof.
  pose proof max_array_pos. intros Hl. assert (0 < length l)%nat by (by destruct l; cbn; [|lia]).
  unfold part. destruct (Z.ltb_spec MAX_ARRAY_SIZE (Z.of_nat (length l))); lia.
Qed.

Lemma take_nonempty {A} n (l : list A) : (0 < n)%nat -> l <> [] -> take n l <> [].
Proof. destruct n, l; intros; cbn; [lia | lia | done | done]. Qed.
End rules.

(** The heap after that part. *)
Lemma typeof_kept h a o o' p ty :
  h !! a = Some o -> obj_type o' = obj_type o -> pntrtype h p = Some ty -> pntrtype (<[a := o']> h) p = Some ty.
Proof.
  unfold pntrtype. intros Ha Hty. destruct (is_pntr p); [|done]. destruct (decide (p_lo p = a)) as [->|Hn]; [|by rewrite lookup_insert_ne].
  by rewrite Ha, lookup_insert_eq, Hty.
Qed.

(** ** The loop *)

Section chars.
Context (t0 : task) (nilc : cell) (tail : pntr).
Implicit Types (h : gmap Z object) (t : task).
#[local] Abbreviation nil := (t_globnilpntr t0).

(** The constants: the nil cell, and a tail to refer to. *)
Record consts h : Prop := {
  cs_nil : is_pntr nil = true;
  cs_cell : h !! p_lo nil = Some (OCell nilc);
  cs_type : c_type nilc = CELL_NIL;
  cs_tail : is_pntr tail = true -> is_Some (h !! p_lo tail)
}.

Lemma nil_type h : consts h -> pntrtype h nil = Some CELL_NIL.
Proof. intros [C1 C2 C3 C4]. unfold pntrtype. by rewrite C1, C2; cbn; rewrite C3. Qed.

(** A cell that refers to an empty array. *)
Record blank_list h (r x : Z) (room : Z) : Prop := {
  bl_cell : aref_at h r x nil;
  bl_array : exists fl b al nc, h !! x = Some (OArray fl b (Carray al (Chars []) false nc)) /\ room <= al;
  bl_addr : 8 <= r /\ 8 <= x
}.

(** What the loop has made. *)
Definition made h h' r x l : Prop := chars_list h' tail r l /\ lists_made [r; x] (fun p => p = tail) h h'.

(** As much as fits. *)
Lemma store_append_part h t r x l Q :
  store t0 h t -> blank_list h r x (part l) -> l <> [] ->
  (forall fl b al nc t', store t0 (<[x := OArray fl b (Carray al (Chars (take (Z.to_nat (part l)) l)) false nc)]> h) t' -> Q (part l) t') ->
  wp (append_part r (Chars l) (Z.of_nat (length l))) Q t.
Proof.
  intros S [[fr Hr] (fl & b & al & nc & Hx & Hroom) _] Hl HQ. destruct (part_bound _ Hl) as [P1 P2]. unfold append_part.
  apply wp_bind. eapply store_cell_array; [exact S | exact Hr | done|]. apply wp_bind. eapply store_get_array; [exact S | exact Hx|].
  change (ca_size (Carray al (Chars []) false nc)) with 0. rewrite Z.sub_0_r. cbv zeta. rewrite !Z.add_0_l. fold (part l).
  apply wp_bind. eapply store_ensure_room; [exact S | exact Hr | done | exact Hx | exact Hroom|].
  apply wp_bind. eapply store_cell_array; [exact S | exact Hr | done|]. apply wp_bind. eapply store_write_barrier; [exact S | exact Hx|].
  intros fl' t1 S1. apply wp_bind. eapply store_get_array; [exact S1 | by rewrite lookup_insert_eq|].
  apply wp_bind, wp_massert; [cbn [elements_size]; apply Z.leb_le; lia|]. apply wp_bind. eapply wp_mderef; [reflexivity|].
  apply wp_bind. eapply store_put_array; [exact S1 | by rewrite lookup_insert_eq|]. intros t2 S2. rewrite insert_insert_eq in S2.
  apply wp_ret. by eapply HQ.
Qed.

(** The next array. *)
Lemma store_append_array h t r x fl b al l nc n Q :
  store t0 h t -> consts h -> aref_at h r x nil -> h !! x = Some (OArray fl b (Carray al (Chars l) false nc)) ->
  (forall r' x' fr' fr fx' b' t', h !! x' = None -> 8 <= x' -> h !! r' = None -> 8 <= r' -> r' <> x' ->
     store t0 (<[r := OCell (Cell CELL_AREF fr (make_pntr x) (make_pntr r'))]> (<[r' := OCell (Cell CELL_AREF fr' (make_pntr x') nil)]>
       (<[x' := OArray fx' b' (Carray (array_room n) (Chars []) false 0)]> h))) t' -> Q r' t') ->
  wp (append_array r 1 n) Q t.
Proof.
  intros S C [fr Hr] Hx HQ. unfold append_array.
  apply wp_bind. eapply store_check_chars; [exact S | exact Hr | done | exact Hx | done | done | by apply nil_type|].
  apply wp_bind. eapply store_carray_new; [exact S | lia|]. intros x' fx' b' t1 Hx' Hx8 S1.
  apply wp_bind. eapply store_alloc_cell; [exact S1|]. intros r' fr' t2 Hr' Hr8 S2. apply lookup_insert_None in Hr' as [Hr' Hne].
  apply wp_bind, wp_gets. rewrite (store_nil _ _ _ S2). apply wp_bind. eapply store_get_cell; [exact S2 | by rewrite lookup_insert_eq|].
  apply wp_bind. eapply store_put_cell; [exact S2 | rewrite lookup_insert_eq; eauto|]. intros t3 S3. rewrite insert_insert_eq in S3.
  cbn [c_flags] in S3. apply wp_bind. eapply wp_lift; [apply make_aref_0|].
  apply wp_bind. eapply store_aref_set_tail; [exact S3 | | |].
  - rewrite lookup_insert_ne by (intros ->; congruence). rewrite lookup_insert_ne by (intros ->; congruence). exact Hr.
  - intros _. cbn [p_lo make_pntr]. rewrite lookup_insert_eq. eauto.
  - intros fr2 t4 S4. apply wp_ret. eapply HQ; [exact Hx' | exact Hx8 | exact Hr' | exact Hr8 | by intros -> | exact S4].
Qed.

Lemma consts_kept h h' :
  consts h -> (forall a o, h !! a = Some o -> is_Some (h' !! a)) -> (forall a c, h !! a = Some (OCell c) -> c_type c = CELL_NIL -> h' !! a = Some (OCell c)) ->
  consts h'.
Proof. intros [C1 C2 C3 C4] Hd Hc. split; [done | by apply Hc | done|]. intros Hp. destruct (C4 Hp) as [o Ho]. by eapply Hd. Qed.

(** What a turn that is not the last leaves. *)
Definition linked h r x fr arr r' x' fr' arr' : gmap Z object :=
  <[r := OCell (Cell CELL_AREF fr (make_pntr x) (make_pntr r'))]> (<[r' := OCell (Cell CELL_AREF fr' (make_pntr x') nil)]>
    (<[x' := arr']> (<[x := arr]> h))).

Lemma linked_ne h r x fr arr r' x' fr' arr' a : a <> r -> a <> x -> a <> r' -> a <> x' -> linked h r x fr arr r' x' fr' arr' !! a = h !! a.
Proof. intros ? ? ? ?. unfold linked. by rewrite !lookup_insert_ne. Qed.

Lemma made_last h r x fl b al nc fr l :
  aref_at h r x nil -> is_Some (h !! x) -> r <> x -> 8 <= r -> 8 <= x -> l <> [] ->
  made h (<[r := OCell (Cell CELL_AREF fr (make_pntr x) tail)]> (<[x := OArray fl b (Carray al (Chars l) false nc)]> h)) r x l.
Proof.
  intros Hr Hx Hn Hr8 Hx8 Hl. set (h' := <[r := _]> _).
  assert (Hx' : array_at h' x (Chars l)) by (exists fl, b, al, false, nc; unfold h'; rewrite lookup_insert_ne by done; by rewrite lookup_insert_eq).
  split; [|split].
  - eapply chars_last; [exists fr; by unfold h'; rewrite lookup_insert_eq | exact Hx' | exact Hl].
  - intros a o Ha Hin. rewrite !not_elem_of_cons in Hin. unfold h'. by rewrite !lookup_insert_ne by naive_solver.
  - intros a o Ha. unfold h' in Ha. apply lookup_insert_Some in Ha as [[<- <-]|[Hne Ha]].
    + right. split; [|done]. split; [done|]. split; [eauto | by left].
    + apply lookup_insert_Some in Ha as [[<- <-]|[Hne2 Ha]]; [by right|]. left. split; [done|]. rewrite !not_elem_of_cons. set_solver.
Qed.

Lemma made_more h r x fr r' x' fr' fx' b' al' fl b al nc l l' h' :
  let h4 := linked h r x fr (OArray fl b (Carray al (Chars l) false nc)) r' x' fr' (OArray fx' b' (Carray al' (Chars []) false 0)) in
  is_Some (h !! r) -> is_Some (h !! x) -> r <> x -> h !! r' = None -> h !! x' = None -> r' <> x' -> 8 <= r -> 8 <= x -> l <> [] ->
  made h4 h' r' x' l' -> made h h' r x (l ++ l').
Proof.
  intros h4 [ro Hr] [xo Hx] Hrx Hr' Hx' Hne Hr8 Hx8 Hl [Hc [Hold Hnew]].
  assert (r <> r' /\ r <> x' /\ x <> r' /\ x <> x') as (N1 & N2 & N3 & N4) by (split_and!; congruence).
  assert (Hc1 : h' !! r = Some (OCell (Cell CELL_AREF fr (make_pntr x) (make_pntr r')))).
  { apply Hold; [unfold h4, linked; by rewrite lookup_insert_eq | set_solver]. }
  assert (Hx1 : array_at h' x (Chars l)).
  { exists fl, b, al, false, nc. apply Hold; [unfold h4, linked; rewrite !lookup_insert_ne by done; by rewrite lookup_insert_eq | set_solver]. }
  pose proof (chars_list_full _ _ _ _ Hc) as Hr1.
  split; [|split].
  - eapply chars_more; [by exists fr | exact Hx1 | exact Hl | exact Hc].
  - intros a o Ha Hin. rewrite !not_elem_of_cons in Hin. apply Hold; [unfold h4; rewrite linked_ne; [done | naive_solver | naive_solver | congruence | congruence]|].
    rewrite !not_elem_of_cons. split_and!; [congruence | congruence | set_solver].
  - intros a o Ha. destruct (Hnew a o Ha) as [[H4 Hin]|Ho]; [|by right]. rewrite !not_elem_of_cons in Hin. destruct Hin as (M1 & M2 & _).
    destruct (decide (a = r)) as [->|D1].
    { rewrite Hc1 in Ha. injection Ha as <-. right. split; [|done]. split; [done|]. split; [eauto|]. right. eauto. }
    destruct (decide (a = x)) as [->|D2].
    { destruct Hx1 as (? & ? & ? & ? & ? & Hx1). rewrite Hx1 in Ha. injection Ha as <-. by right. }
    left. split; [by rewrite <- (linked_ne h r x fr (OArray fl b (Carray al (Chars l) false nc)) r' x' fr' (OArray fx' b' (Carray al' (Chars []) false 0)))|]. set_solver.
Qed.

Lemma linked_consts h r x fr fl b a r' x' fr' arr' :
  consts h -> aref_at h r x nil -> (exists fl0 b0 a0, h !! x = Some (OArray fl0 b0 a0)) -> h !! r' = None -> h !! x' = None -> r' <> x' ->
  consts (linked h r x fr (OArray fl b a) r' x' fr' arr').
Proof.
  intros C [fr0 Hr] (fl0 & b0 & a0 & Hx) Hr' Hx' Hne. assert (r <> x) by congruence. eapply consts_kept; [exact C | |].
  - intros c o Hc. unfold linked. destruct (decide (c = r)) as [->|]; [rewrite lookup_insert_eq; eauto|]. rewrite lookup_insert_ne by done.
    rewrite !lookup_insert_ne by congruence. destruct (decide (c = x)) as [->|]; [rewrite lookup_insert_eq; eauto|]. rewrite lookup_insert_ne by done. eauto.
  - intros c y Hc Hty. rewrite linked_ne; [done | | congruence..]. intros ->. rewrite Hr in Hc. injection Hc as <-. done.
Qed.

Lemma append_chars fuel : forall h t r x l,
  store t0 h t -> consts h -> blank_list h r x (part l) -> l <> [] -> Z.of_nat (length l) <= (Z.of_nat fuel + 1) * MAX_ARRAY_SIZE ->
  wp (append_loop fuel r (Chars l) (Z.of_nat (length l)) 1)
    (fun last t' => wp (aref_set_tail last tail) (fun _ t3 => exists h', store t0 h' t3 /\ made h h' r x l) t') t.
Proof.
  induction fuel as [|fuel IH]; intros h t r x l S C B Hl Hf; destruct (part_bound _ Hl) as [P1 P2]; cbn [append_loop];
    apply wp_bind; (eapply store_append_part; [exact S | exact B | exact Hl|]); intros fl b al nc t1 S1;
    destruct B as [[fr Hr] (fl0 & b0 & al0 & nc0 & Hx & Hroom) [Hr8 Hx8]]; assert (r <> x) as Hrx by congruence.
  all: assert (C1 : consts (<[x := OArray fl b (Carray al (Chars (take (Z.to_nat (part l)) l)) false nc)]> h)).
  1, 3: (eapply consts_kept; [exact C | intros a o Ha; destruct (decide (a = x)) as [->|]; [rewrite lookup_insert_eq | rewrite lookup_insert_ne by done]; eauto |
    intros a c Ha _; rewrite lookup_insert_ne; [done | congruence]]).
  all: assert (Hr1 : (<[x := OArray fl b (Carray al (Chars (take (Z.to_nat (part l)) l)) false nc)]> h) !! r = Some (OCell (Cell CELL_AREF fr (make_pntr x) nil)))
    by (by rewrite lookup_insert_ne).
  all: destruct (Z.eqb_spec (Z.of_nat (length l) - part l) 0) as [E0|E0].
  1, 3: (apply wp_ret; eapply store_aref_set_tail; [exact S1 | exact Hr1 | apply C1|]; intros fr' t2 S2; eexists; split; [exact S2|];
    rewrite take_ge by lia; apply made_last; [by exists fr | eauto | done..]).
  1: (unfold part in E0; destruct (Z.ltb_spec MAX_ARRAY_SIZE (Z.of_nat (length l))); lia).
  apply wp_bind. eapply wp_mderef; [reflexivity|]. apply wp_bind. set (rest := drop (Z.to_nat (part l)) l).
  assert (Hrest : Z.of_nat (length rest) = Z.of_nat (length l) - part l) by (unfold rest; rewrite length_drop; lia).
  assert (rest <> []) as Hne by (intros Hn; rewrite Hn in Hrest; cbn in Hrest; lia). rewrite <- Hrest.
  eapply store_append_array; [exact S1 | exact C1 | by exists fr | by rewrite lookup_insert_eq|].
  intros r' x' fr' fr2 fx' b' t2 Hx' Hx8' Hr' Hr8' Hn' S2. apply lookup_insert_None in Hx' as [Hx' _], Hr' as [Hr' _].
  eapply wp_mono; [eapply (IH _ _ r' x' rest)|].
  - exact S2.
  - apply (linked_consts h); try done; [by exists fr | eauto].
  - split; [| |done].
    + exists fr'. rewrite lookup_insert_ne by congruence. by rewrite lookup_insert_eq.
    + eexists _, _, _, _. rewrite lookup_insert_ne by congruence. rewrite lookup_insert_ne by done. rewrite lookup_insert_eq. split; [reflexivity|].
      destruct (part_bound _ Hne). unfold array_room, part. destruct (Z.ltb_spec MAX_ARRAY_SIZE (Z.of_nat (length rest))); [lia|].
      destruct (Z.leb_spec (Z.of_nat (length rest)) 0); lia.
  - done.
  - unfold part in *. destruct (Z.ltb_spec MAX_ARRAY_SIZE (Z.of_nat (length l))); lia.
  - cbv beta. intros last t3 H3. eapply wp_mono; [exact H3|]. intros [] t4 (h' & S4 & M). exists h'. split; [exact S4|].
    rewrite <- (take_drop (Z.to_nat (part l)) l). fold rest.
    eapply made_more; [eauto | eauto | exact Hrx | exact Hr' | exact Hx' | exact Hn' | done | done | apply take_nonempty; [lia | done] | exact M].
Qed.
End chars.
