(* ===== verification/ListFacts.v ===== *)
(** * Strings as lists

    A string that is made a list of the heap is read back as the same
    string, however many arrays it takes. *)

From S2P Require Import Prelude Builtins Source Bytecode Compile Pointer Chain Memory Globals Sched Arrays Interpreter Lists Wp SchedFacts Typing MachineOk Store ArrayFacts.
#[local] Open Scope Z_scope.

(** ** Making a list *)

Section make.
Context (t0 : task) (nilc : cell) (tail : pntr).
Implicit Types (h : gmap Z object) (t : task).
#[local] Abbreviation nil := (t_globnilpntr t0).

Lemma lists_made_fresh rs ok h h1 h' :
  (forall a o, h !! a = Some o -> h1 !! a = Some o /\ (a ∉ rs)) -> (forall a, a ∈ rs \/ h1 !! a = h !! a) ->
  lists_made rs ok h1 h' -> lists_made [] ok h h'.
Proof.
  intros H1 H2 [L1 L2]. split.
  - intros a o Ha _. destruct (H1 _ _ Ha). by apply L1.
  - intros a o Ha. destruct (L2 _ _ Ha) as [[Ho Hn]|]; [|by right]. left. destruct (H2 a) as [?|E]; [done|].
    split; [congruence | set_solver].
Qed.

Lemma lists_made_refl ok h : lists_made [] ok h h.
Proof. split; [done|]. intros a o Ha. left. split; [done | set_solver]. Qed.

(** A list of characters: a new one, unless there are none. *)
Definition is_list h h' (p : pntr) (l : list ascii) : Prop :=
  (l = [] /\ p = tail) \/ exists r, p = make_pntr r /\ h !! r = None /\ chars_list h' tail r l.

Lemma store_binary_data h t l Q :
  store t0 h t -> consts t0 nilc tail h ->
  (forall p h' t', store t0 h' t' -> lists_made [] (fun q => q = tail) h h' -> is_list h h' p l -> Q p t') ->
  wp (binary_data_to_list l tail) Q t.
Proof.
  intros S C HQ. unfold binary_data_to_list, data_to_list. cbn [elements_size].
  destruct (Z.eqb_spec (Z.of_nat (length l)) 0) as [E0|E0].
  { assert (l = []) as -> by (destruct l; [done | cbn in E0; lia]). apply wp_ret.
    eapply HQ; [exact S | apply lists_made_refl | by left]. }
  assert (l <> []) as Hl by (intros ->; done). assert (0 < MAX_ARRAY_SIZE) as HM by done. destruct (part_bound _ Hl) as [P1 P2].
  apply wp_bind. eapply store_create_array; [exact S | lia|]. intros x b r fx fr t1 Hx Hx8 Hr Hr8 Hne S1.
  apply wp_bind. eapply wp_lift; [apply get_make_pntr|].
  set (h1 := <[r := _]> (<[x := _]> h)) in S1.
  assert (Hr1 : h1 !! r = Some (OCell (Cell CELL_AREF fr (make_pntr x) nil))) by (by unfold h1; rewrite lookup_insert_eq).
  assert (Hx1 : h1 !! x = Some (OArray fx b (Carray (array_room (Z.of_nat (length l))) (Chars []) false 0))) by (by unfold h1; rewrite lookup_insert_ne, lookup_insert_eq).
  assert (Hold : forall a o, h !! a = Some o -> h1 !! a = Some o /\ (a ∉ [r; x])).
  { intros a o Ha. assert (a <> r /\ a <> x) as [? ?] by (split; congruence). unfold h1. rewrite !lookup_insert_ne by done. set_solver. }
  apply wp_bind. unfold carray_append. apply wp_bind. eapply store_cell_array; [exact S1 | exact Hr1 | done|].
  apply wp_bind. eapply store_get_array; [exact S1 | exact Hx1|]. apply wp_bind, wp_massert; [done|]. apply wp_bind, wp_massert; [done|].
  eapply wp_mono.
  { eapply (append_chars t0 nilc tail); [exact S1 | | | exact Hl|].
    - eapply consts_kept; [exact C | |]; intros a o Ha; [|intros _]; destruct (Hold _ _ Ha) as [-> _]; eauto.
    - split; [by exists fr | | done]. eexists fx, b, _, _. split; [exact Hx1|]. unfold array_room, part.
      destruct (Z.ltb_spec MAX_ARRAY_SIZE (Z.of_nat (length l))); [lia|]. destruct (Z.leb_spec (Z.of_nat (length l)) 0); lia.
    - pose proof (Z.div_mod (Z.of_nat (length l)) MAX_ARRAY_SIZE ltac:(lia)). pose proof (Z.mod_pos_bound (Z.of_nat (length l)) MAX_ARRAY_SIZE HM).
      assert (0 <= Z.of_nat (length l) / MAX_ARRAY_SIZE) by (apply Z.div_pos; lia). nia. }
  cbv beta. intros last t2 H2. apply wp_bind. eapply wp_mono; [exact H2|]. intros [] t3 (h' & S3 & Hc & Hm). apply wp_ret.
  eapply HQ; [exact S3 | | right; by exists r].
  eapply lists_made_fresh; [exact Hold | | exact Hm]. intros a. destruct (decide (a = r)) as [->|]; [left; set_solver|].
  destruct (decide (a = x)) as [->|]; [left; set_solver|]. right. unfold h1. by rewrite !lookup_insert_ne.
Qed.

(** One array is enough for the given elements. *)
Lemma store_pointers h t l Q :
  store t0 h t -> consts t0 nilc tail h -> l <> [] -> Z.of_nat (length l) <= MAX_ARRAY_SIZE ->
  (forall r h' t', store t0 h' t' -> h !! r = None -> lists_made [] (fun q => q = tail \/ q ∈ l) h h' ->
     full_ref h' r -> Q (make_pntr r) t') ->
  wp (pointers_to_list l tail) Q t.
Proof.
  intros S C Hl HM HQ. unfold pointers_to_list, data_to_list. cbn [elements_size].
  assert (0 < Z.of_nat (length l)) as H0 by (destruct l; [done | cbn; lia]). rewrite (proj2 (Z.eqb_neq _ 0)) by lia.
  apply wp_bind. eapply store_create_array; [exact S | unfold sizeof_pntr; lia|]. intros x b r fx fr t1 Hx Hx8 Hr Hr8 Hne S1.
  rewrite array_room_id in S1 by done. apply wp_bind. eapply wp_lift; [apply get_make_pntr|]. set (h1 := <[r := _]> (<[x := _]> h)) in S1.
  assert (Hr1 : h1 !! r = Some (OCell (Cell CELL_AREF fr (make_pntr x) nil))) by (by unfold h1; rewrite lookup_insert_eq).
  assert (Hx1 : h1 !! x = Some (OArray fx b (Carray (Z.of_nat (length l)) (Pntrs []) false 0))) by (by unfold h1; rewrite lookup_insert_ne, lookup_insert_eq).
  apply wp_bind. unfold carray_append. apply wp_bind. eapply store_cell_array; [exact S1 | exact Hr1 | done|].
  apply wp_bind. eapply store_get_array; [exact S1 | exact Hx1|]. apply wp_bind, wp_massert; [done|]. apply wp_bind, wp_massert; [done|].
  cbn [append_loop]. apply wp_bind. unfold append_part. apply wp_bind. eapply store_cell_array; [exact S1 | exact Hr1 | done|].
  apply wp_bind. eapply store_get_array; [exact S1 | exact Hx1|]. change (ca_size (Carray (Z.of_nat (length l)) (Pntrs []) false 0)) with 0.
  cbv zeta. rewrite !Z.add_0_l, (proj2 (Z.ltb_ge _ _)) by done.
  apply wp_bind. eapply store_ensure_room; [exact S1 | exact Hr1 | done | exact Hx1 | done|].
  apply wp_bind. eapply store_cell_array; [exact S1 | exact Hr1 | done|]. apply wp_bind. eapply store_write_barrier; [exact S1 | exact Hx1|].
  intros fx' t2 S2. apply wp_bind. eapply store_get_array; [exact S2 | by rewrite lookup_insert_eq|].
  apply wp_bind, wp_massert; [by apply Z.leb_refl|]. apply wp_bind. eapply wp_mderef; [reflexivity|].
  apply wp_bind. eapply store_put_array; [exact S2 | by rewrite lookup_insert_eq|]. intros t3 S3. rewrite insert_insert_eq in S3.
  apply wp_ret. rewrite (proj2 (Z.eqb_eq _ 0)) by lia. apply wp_ret.
  apply wp_bind. eapply store_aref_set_tail; [exact S3 | by rewrite lookup_insert_ne | |].
  { intros Hp. destruct (cs_tail _ _ _ _ C Hp) as [o Ho]. exists o. rewrite lookup_insert_ne by congruence. unfold h1. by rewrite !lookup_insert_ne by congruence. }
  intros fr' t4 S4. apply wp_ret. eapply HQ; [exact S4 | done | |].
  2: { eexists _, x, _. split_and!; [by rewrite lookup_insert_eq | done | done | |].
    - eexists _, _, _, _, _. rewrite lookup_insert_ne by done. by rewrite lookup_insert_eq.
    - cbn. rewrite Nat2Z.id, take_ge by lia. lia. }
  split.
  - intros a o Ha _. assert (a <> r /\ a <> x) as [? ?] by (split; congruence). unfold h1. by rewrite !lookup_insert_ne.
  - intros a o Ha. apply lookup_insert_Some in Ha as [[<- <-]|[D1 Ha]].
    + right. split; [|done]. split; [done|]. split; [|left; by left]. eexists x, _. split; [done|]. eexists _, _, _, _, _.
      rewrite lookup_insert_ne by done. by rewrite lookup_insert_eq.
    + apply lookup_insert_Some in Ha as [[<- <-]|[D2 Ha]].
      * right. split; [|done]. cbn. rewrite Nat2Z.id, take_ge by lia. apply Forall_forall. by right.
      * unfold h1 in Ha. rewrite !lookup_insert_ne in Ha by done. left. split; [done | set_solver].
Qed.
End make.

(** ** Reading it back *)

Definition list_next (o : object) : Z :=
  match o with OCell c => if c_type c =? CELL_AREF then p_lo (c_field2 c) else 0 | _ => 0 end.

(** The cells of a list: as many as the fuel that reading it takes. *)
Inductive chars_cells (h : gmap Z object) (tail : pntr) : Z -> list ascii -> nat -> Prop :=
| cells_last r x l : aref_at h r x tail -> array_at h x (Chars l) -> chars_cells h tail r l 1
| cells_more r x l r' l' n : aref_at h r x (make_pntr r') -> array_at h x (Chars l) -> chars_cells h tail r' l' n ->
    chars_cells h tail r (l ++ l') (S n).

Lemma chars_list_cells h tail r l : chars_list h tail r l -> exists n, chars_cells h tail r l n.
Proof. induction 1 as [r x l Hr Hx|r x l r' l' Hr Hx _ _ [n Hn]]; eexists; [by eapply cells_last | by eapply cells_more]. Qed.

(** They are different, so the heap has that many objects. *)
Lemma chars_cells_size h tail c r l n :
  (forall a, is_Some (h !! a) -> 8 <= a) -> h !! p_lo tail = Some (OCell c) -> c_type c = CELL_NIL ->
  chars_cells h tail r l n -> (n <= size h)%nat.
Proof.
  intros H8 Ht Hc Hn. assert (exists cs, chain list_next h r cs /\ length cs = S n) as (cs & Hcs & Hlen).
  { induction Hn as [r x l [fl Hr] Hx|r x l r' l' n [fl Hr] Hx Hn (cs & Hcs & Hlen)].
    - exists [r; p_lo tail]. split; [|done]. assert (8 <= r) by eauto. assert (8 <= p_lo tail) by eauto.
      eapply chain_cons; [lia | exact Hr|]. eapply chain_cons; [cbn; lia | exact Ht|]. cbn. rewrite Hc. constructor.
    - exists (r :: cs). split; [|cbn; lia]. assert (8 <= r) by eauto. eapply chain_cons; [lia | exact Hr | exact Hcs]. }
  apply chain_subset_size in Hcs. lia.
Qed.

Lemma resolve_value n h p ty : pntrtype h p = Some ty -> ty <> CELL_IND -> resolve n h p = Done p.
Proof. intros Hp Hn. destruct n; cbn [resolve]; rewrite Hp; cbn [deref mbind outcome_bind]; by rewrite (proj2 (Z.eqb_neq _ _)). Qed.

Lemma wp_resolve_value t p ty Q : pntrtype (t_heap t) p = Some ty -> ty <> CELL_IND -> Q p t -> wp (resolve_pntr p) Q t.
Proof. intros Hp Hn HQ. unfold resolve_pntr. apply wp_bind, wp_gets. eapply wp_lift; [by eapply resolve_value | done]. Qed.

Section read.
Context (t : task) (tail : pntr) (nilc : cell).
#[local] Abbreviation h := (t_heap t).
Hypothesis Hp : is_pntr tail = true.
Hypothesis Ht : h !! p_lo tail = Some (OCell nilc).
Hypothesis Hc : c_type nilc = CELL_NIL.

Lemma tail_type : pntrtype h tail = Some CELL_NIL.
Proof using Hp Ht Hc. unfold pntrtype. rewrite Hp, Ht. cbn. by rewrite Hc. Qed.

Lemma aref_type r x tl : aref_at h r x tl -> pntrtype h (make_pntr r) = Some CELL_AREF.
Proof. intros [fl Hr]. unfold pntrtype. rewrite make_pntr_is_pntr. cbn [p_lo make_pntr]. by rewrite Hr. Qed.

(** One array of the list is read. *)
Lemma read_array fuel r x tl l buf q ty (Q : option (list ascii) -> task -> Prop) :
  aref_at h r x tl -> array_at h x (Chars l) -> pntrtype h tl = Some ty -> ty <> CELL_IND -> q = tl ->
  wp (array_to_string_loop fuel q (buf ++ l)) Q t -> wp (array_to_string_loop (S fuel) (make_pntr r) buf) Q t.
Proof.
  intros Hr Hx Hty Hn -> HQ. assert (Hrt := aref_type _ _ _ Hr). destruct Hr as [fl Hr], Hx as (fl' & b & al & mr & nc & Hx).
  cbn [array_to_string_loop]. apply wp_bind. eapply wp_typeof; [exact Hrt|]. cbn [Z.eqb CELL_AREF CELL_CONS Pos.eqb].
  apply wp_bind. unfold aref_array. apply wp_bind. eapply wp_lift; [apply get_make_pntr|]. apply wp_bind. eapply wp_get_cell; [exact Hr|].
  eapply wp_lift; [apply get_make_pntr|]. apply wp_bind. eapply wp_get_array; [exact Hx|].
  apply wp_bind, wp_ret, wp_bind. unfold aref_tail. apply wp_bind. eapply wp_lift; [apply get_make_pntr|].
  apply wp_bind. eapply wp_get_cell; [exact Hr|]. apply wp_ret, wp_bind. eapply wp_resolve_value; [exact Hty | exact Hn | exact HQ].
Qed.

Lemma read_cells n r l : chars_cells h tail r l n -> forall fuel buf, (n <= fuel)%nat ->
  wp (array_to_string_loop fuel (make_pntr r) buf) (fun s t' => s = Some (buf ++ l) /\ t' = t) t.
Proof using Hp Ht Hc.
  induction 1 as [r x l Hr Hx|r x l r' l' n Hr Hx Hn IH]; intros fuel buf Hf; (destruct fuel as [|fuel]; [lia|]).
  - eapply read_array; [exact Hr | exact Hx | exact tail_type | done | done|].
    destruct fuel; cbn [array_to_string_loop]; (apply wp_bind; eapply wp_typeof; [exact tail_type|]); by apply wp_ret.
  - assert (exists x' tl', aref_at h r' x' tl') as (x' & tl' & Hr') by (by inversion Hn; eauto).
    eapply read_array; [exact Hr | exact Hx | by eapply aref_type | done | done|]. rewrite app_assoc. apply IH. lia.
Qed.
End read.

(** ** The round trip *)

(** The nil cell of a task. *)
Definition nil_ok (t : task) : Prop :=
  exists c, is_pntr (t_globnilpntr t) = true /\ t_heap t !! p_lo (t_globnilpntr t) = Some (OCell c) /\ c_type c = CELL_NIL.

Lemma nil_consts t c :
  is_pntr (t_globnilpntr t) = true -> t_heap t !! p_lo (t_globnilpntr t) = Some (OCell c) -> c_type c = CELL_NIL ->
  consts t c (t_globnilpntr t) (t_heap t).
Proof. intros. split; [done..|]. eauto. Qed.

(** C14. A string made into a list by [string_to_array] is read back by
    [array_to_string]: whatever the string and however full the memory,
    neither fails an assertion or meets an invalid pointer, the list is
    finite and flat, the bytes read are the bytes written, and nothing but
    the memory of the task has changed (as everywhere, the process may end
    because there is no memory left). *)
Theorem string_roundtrip t str :
  memory_ok t -> nil_ok t ->
  wp (p ← string_to_array str; array_to_string p)
    (fun s t' => s = Some (String.list_ascii_of_string str) /\ only_mem t t' /\ memory_ok t') t.
Proof.
  intros M (c & N1 & N2 & N3). apply wp_bind. unfold string_to_array. apply wp_bind, wp_gets.
  eapply (store_binary_data t c); [by apply store_self | by apply nil_consts|]. intros p h' t' S L Hl.
  assert (N2' : t_heap t' !! p_lo (t_globnilpntr t) = Some (OCell c)) by (rewrite (sr_heap _ _ _ S); eapply lm_old; [exact L | exact N2 | set_solver]).
  unfold array_to_string, heap_size. apply wp_bind, wp_bind, wp_gets, wp_ret. destruct Hl as [[-> ->]|(r & -> & _ & Hl)].
  - destruct (size _); cbn [array_to_string_loop]; (apply wp_bind; eapply wp_typeof; [by eapply tail_type|]); apply wp_ret;
      (split; [done | split; apply S]).
  - rewrite <- (sr_heap _ _ _ S) in Hl. destruct (chars_list_cells _ _ _ _ Hl) as [n Hn]. eapply wp_mono.
    { eapply read_cells; [exact N1 | exact N2' | exact N3 | exact Hn|]. eapply chars_cells_size; [|exact N2' | exact N3 | exact Hn].
      intros a Ha. destruct (mo_heap _ (sr_memory _ _ _ S) _ Ha). done. }
    cbv beta. intros s t2 [-> ->]. split; [done | split; apply S].
Qed.

(** A task with a heap of one cell. *)
Definition NIL_CELL : Z := 4104.
Definition small_task : task :=
  Task 0 (Program (Compilation [] [] None) [] 0 0 0) 0 0 8192
    (Memory {[NIL_CELL := OCell (Cell CELL_NIL 0 (Pntr 0 0) (Pntr 0 0))]} [] sizeof_block 0 false 0 []) (Framepool ∅ [] 0 0 0)
    (Globaltab ∅ [] ∅ ∅ ∅ 0 0 false) (make_pntr NIL_CELL) (Pntr 0 0) [] None (Sourceloc 0 0) false false 0 [].

Lemma small_memory : memory_ok small_task.
Proof.
  split; [by apply Z.leb_le | | | done].
  - intros a Ha. change (t_heap small_task) with ({[NIL_CELL := OCell (Cell CELL_NIL 0 (Pntr 0 0) (Pntr 0 0))]} : gmap Z object) in Ha.
    apply lookup_singleton_is_Some in Ha as <-. by vm_compute.
  - intros a Ha. apply is_frame_lookup in Ha as [f Ha]. change (t_frames small_task) with (∅ : gmap Z frame) in Ha. by rewrite lookup_empty in Ha.
Qed.

Lemma small_nil : nil_ok small_task.
Proof. eexists. split_and!; [done | apply lookup_insert_eq | done]. Qed.

Lemma string_roundtrip_witness :
  (exists t', (p ← string_to_array "hello, world"; array_to_string p) small_task =
     MDone (Some (String.list_ascii_of_string "hello, world")) t') /\
  wp (p ← string_to_array "hello, world"; array_to_string p)
    (fun s t' => s = Some (String.list_ascii_of_string "hello, world") /\ only_mem small_task t' /\ memory_ok t') small_task.
Proof.
  split; [eexists; vm_compute; reflexivity|]. apply string_roundtrip; [apply small_memory | apply small_nil].
Defined.
