(* ===== verification/HeapFacts.v ===== *)
(** * Lemmas on the heap

    How the conditions on values carry over when cells change type, objects
    are added and headers are marked; resolution of indirections; and the
    allocator. *)

From S2P Require Import Prelude Builtins Source Bytecode Compile Pointer Chain Memory Interpreter Wp SchedFacts Typing MachineOk.
#[local] Open Scope Z_scope.

(** ** Types of cells *)

Lemma whnf_visible ty : whnf_type ty = true -> visible_type ty = true.
Proof.
  unfold whnf_type, visible_type. rewrite !bool_decide_eq_true, !elem_of_cons. tauto.
Qed.

(** An evaluated value is none of the things the assertions exclude. *)
Lemma whnf_type_excludes ty :
  whnf_type ty = true ->
  ty <> CELL_IND /\ ty <> CELL_FRAME /\ ty <> CELL_APPLICATION /\ ty <> CELL_REMOTEREF /\ ty <> CELL_HOLE.
Proof. intros H. split_and!; intros ->; discriminate H. Qed.

Lemma visible_type_excludes ty :
  visible_type ty = true -> ty <> CELL_APPLICATION /\ ty <> CELL_REMOTEREF /\ ty <> CELL_EMPTY.
Proof. intros H. split_and!; intros ->; discriminate H. Qed.

(** What is not a pointer is a number; what is visible and neither a hole nor
    delayed is evaluated. *)
Lemma visible_whnf_type ty :
  visible_type ty = true -> ty <> CELL_IND -> ty <> CELL_FRAME -> ty <> CELL_HOLE -> whnf_type ty = true.
Proof.
  unfold whnf_type, visible_type. rewrite !bool_decide_eq_true, !elem_of_cons. tauto.
Qed.

Section facts.
Context (E : env).
Implicit Types (h : gmap Z object) (p : pntr).
#[local] Abbreviation points := (points E).
#[local] Abbreviation visible := (visible E).
#[local] Abbreviation whnf := (whnf E).
#[local] Abbreviation slot_ok := (slot_ok E).

Lemma points_mono_type (ok ok' : Z -> bool) h p :
  (forall ty, ok ty = true -> ok' ty = true) -> points h ok p -> points h ok' p.
Proof. intros Ht H Hp. destruct (H Hp) as (c & ? & ? & ? & ?). eauto 10. Qed.

Lemma whnf_is_visible h p : whnf h p -> visible h p.
Proof. apply points_mono_type, whnf_visible. Qed.

Lemma hole_is_visible h p : is_hole_pntr E h p -> visible h p.
Proof. intros [_ H]. eapply points_mono_type; [|exact H]. intros ty ->%Z.eqb_eq. done. Qed.

Lemma slot_ok_visible h ty p : slot_ok h ty p -> visible h p.
Proof. destruct ty; cbn; [apply hole_is_visible | apply whnf_is_visible | done]. Qed.

Lemma slot_ok_sub h need have p : sub_ty need have = true -> slot_ok h have p -> slot_ok h need p.
Proof. destruct need, have; try done; intros _; [apply hole_is_visible | apply whnf_is_visible]. Qed.

Lemma slot_ok_copy h ty p : slot_ok h ty p -> slot_ok h (copy_ty ty) p.
Proof. destruct ty; cbn; try done. apply hole_is_visible. Qed.

Lemma number_points h ok p : is_pntr p = false -> points h ok p.
Proof. intros E0 H. congruence. Qed.

(** The type [typeof] finds. *)
Lemma points_typeof h ok p :
  ok CELL_EMPTY = false -> points h ok p ->
  exists ty, pntrtype h p = Some ty /\
    ((is_pntr p = false /\ ty = CELL_NUMBER) \/
     (is_pntr p = true /\ ok ty = true /\ (p_lo p ∉ hid E) /\ exists c, h !! p_lo p = Some (OCell c) /\ c_type c = ty)).
Proof.
  intros He H. unfold pntrtype. destruct (is_pntr p) eqn:Ep; [|eexists; split; [done | by left]].
  destruct (H Ep) as (c & Hc & Hok & Hh & _). rewrite Hc. cbn [obj_type].
  destruct (Z.eqb_spec (c_type c) CELL_EMPTY) as [Hz|Hz]; [rewrite Hz in Hok; congruence|].
  exists (c_type c). split; [done|]. right. eauto 10.
Qed.

Lemma visible_typeof h p :
  visible h p -> exists ty, pntrtype h p = Some ty /\
    ((is_pntr p = false /\ ty = CELL_NUMBER) \/
     (is_pntr p = true /\ visible_type ty = true /\ (p_lo p ∉ hid E) /\ exists c, h !! p_lo p = Some (OCell c) /\ c_type c = ty)).
Proof. by apply points_typeof. Qed.

Lemma whnf_typeof h p :
  whnf h p -> exists ty, pntrtype h p = Some ty /\
    ((is_pntr p = false /\ ty = CELL_NUMBER) \/
     (is_pntr p = true /\ whnf_type ty = true /\ (p_lo p ∉ hid E) /\ exists c, h !! p_lo p = Some (OCell c) /\ c_type c = ty)).
Proof. by apply points_typeof. Qed.

Lemma whnf_ty h p : whnf h p -> exists ty, pntrtype h p = Some ty /\ ty <> CELL_IND /\ ty <> CELL_FRAME /\ ty <> CELL_APPLICATION /\ ty <> CELL_REMOTEREF.
Proof.
  intros H. destruct (whnf_typeof _ _ H) as (ty & Hty & [[_ ->]|(_ & Hw & _)]); eexists; (split; [exact Hty|]); [done|].
  destruct (whnf_type_excludes _ Hw) as (? & ? & ? & ? & ?). done.
Qed.

(** Something visible of a certain type. *)
Lemma visible_cell h p ty :
  visible h p -> pntrtype h p = Some ty -> ty <> CELL_NUMBER ->
  is_pntr p = true /\ (p_lo p ∉ hid E) /\ exists c, h !! p_lo p = Some (OCell c) /\ c_type c = ty.
Proof.
  intros H Hty Hn. destruct (visible_typeof _ _ H) as (ty' & Hty' & Hc). rewrite Hty in Hty'. injection Hty' as <-.
  destruct Hc as [[_ ->]|(Hp & _ & Hh & Hc)]; done.
Qed.

(** Evaluated: what resolution and the interpreter's test leave. *)
Lemma visible_is_whnf h p ty :
  visible h p -> pntrtype h p = Some ty -> ty <> CELL_IND -> ty <> CELL_FRAME -> ty <> CELL_HOLE -> whnf h p.
Proof.
  intros H Hty H1 H2 H3 Hp. destruct (H Hp) as (c & Hc & Hv & Hh & Hhi). exists c. split_and!; try done.
  unfold pntrtype in Hty. rewrite Hp, Hc in Hty. cbn in Hty.
  destruct (c_type c =? CELL_EMPTY); [done|]. injection Hty as <-. by apply visible_whnf_type.
Qed.

(** ** Growing heaps *)

(** Cells may change type, but what could be seen stays visible, and what was
    evaluated stays evaluated; nothing becomes a hole or a reference to an
    array; caps and arrays stay what they are, and arrays do not shrink. *)
Definition becomes (c c' : cell) : Prop :=
  (c_type c' = CELL_HOLE -> c_type c = CELL_HOLE) /\ (c_type c' = CELL_AREF -> c_type c = CELL_AREF /\ c_field1 c' = c_field1 c).

Record heap_le (h h' : gmap Z object) : Prop := {
  hl_cell : forall a c, h !! a = Some (OCell c) -> visible_type (c_type c) = true ->
    exists c', h' !! a = Some (OCell c') /\ visible_type (c_type c') = true /\
      (whnf_type (c_type c) = true -> whnf_type (c_type c') = true) /\ becomes c c';
  hl_cap : forall a fl n c, h !! a = Some (OCap fl n c) -> exists fl' n' c', h' !! a = Some (OCap fl' n' c');
  hl_array : forall a fl n x, h !! a = Some (OArray fl n x) -> exists fl' n' x', h' !! a = Some (OArray fl' n' x') /\ ca_size x <= ca_size x'
}.

Lemma becomes_refl c : becomes c c.
Proof. done. Qed.
Lemma becomes_other c c' : c_type c' <> CELL_HOLE -> c_type c' <> CELL_AREF -> becomes c c'.
Proof. done. Qed.
Lemma becomes_trans c1 c2 c3 : becomes c1 c2 -> becomes c2 c3 -> becomes c1 c3.
Proof. intros [A1 A2] [B1 B2]. split; [auto|]. intros H. destruct (B2 H) as [H2 ->]. by apply A2. Qed.
#[local] Hint Resolve becomes_refl : core.

Lemma upper_le h h' c c' p : heap_le h h' -> becomes c c' -> upper_ok h c p -> upper_ok h' c' p.
Proof.
  intros Hle [B1 B2] [H1 H2]. split; [auto|]. intros Ht. destruct (B2 Ht) as [Hc ->]. destruct (H2 Hc) as (x & fl & n & arr & Hx & Ha & Hi).
  destruct (hl_array _ _ Hle _ _ _ _ Ha) as (fl' & n' & arr' & Ha' & Hs). exists x, fl', n', arr'. split_and!; [done | done | lia].
Qed.

(** A hole is visible as long as its cell stays. *)
Lemma hole_pntr_keep h h' p : h' !! p_lo p = h !! p_lo p -> is_hole_pntr E h p -> is_hole_pntr E h' p.
Proof.
  intros Hh [Hp H]. split; [done|]. intros _. destruct (H Hp) as (c & Hc & Ht & Hn & Hu & _). exists c. split_and!; [congruence | done | done|].
  split; [done|]. apply Z.eqb_eq in Ht. rewrite Ht. done.
Qed.


#[export] Instance heap_le_refl : Reflexive heap_le.
Proof. intros h. split; [|eauto|]; [intros a c Hc Hv; by exists c|]. intros a fl n x Hx. eexists _, _, _. split; [exact Hx | lia]. Qed.

#[export] Instance heap_le_trans : Transitive heap_le.
Proof.
  intros h1 h2 h3 [A1 B1 C1] [A2 B2 C2]. split.
  - intros a c Hc Hv. destruct (A1 a c Hc Hv) as (c' & Hc' & Hv' & Hw' & Hh').
    destruct (A2 a c' Hc' Hv') as (c2 & ? & ? & ? & ?). exists c2. split_and!; eauto using becomes_trans.
  - intros a fl n c Hc. destruct (B1 _ _ _ _ Hc) as (? & ? & ? & H). eauto.
  - intros a fl n c Hc. destruct (C1 _ _ _ _ Hc) as (? & ? & ? & H & L1). destruct (C2 _ _ _ _ H) as (? & ? & ? & H2 & L2).
    eexists _, _, _. split; [exact H2 | lia].
Qed.

Lemma visible_le h h' p : heap_le h h' -> visible h p -> visible h' p.
Proof.
  intros Hle H Hp. destruct (H Hp) as (c & ? & ? & ? & ?).
  destruct (hl_cell _ _ Hle _ _ ltac:(done) ltac:(done)) as (c' & ? & ? & ? & ?). exists c'. split_and!; eauto using upper_le.
Qed.

Lemma whnf_le h h' p : heap_le h h' -> whnf h p -> whnf h' p.
Proof.
  intros Hle H Hp. destruct (H Hp) as (c & ? & Hw & ? & ?).
  destruct (hl_cell _ _ Hle _ _ ltac:(done) (whnf_visible _ Hw)) as (c' & ? & ? & ? & ?). exists c'. split_and!; eauto using upper_le.
Qed.

Lemma cap_ok_le h h' c : heap_le h h' -> cap_ok E h c -> cap_ok E h' c.
Proof.
  intros Hle [H1 H2 H3 H4 H5]. split; try done. eapply Forall_impl; [exact H3|]. intros p. by apply visible_le.
Qed.

(** An object that has not changed is still well formed when the others have
    grown; [ks'] must still know the frames of FRAME cells. *)
Lemma object_ok_le h h' ks ks' a o :
  heap_le h h' -> (forall c, o = OCell c -> c_type c = CELL_FRAME -> frame_cell ks' a (c_field1 c)) ->
  object_ok E h ks a o -> object_ok E h' ks' a o.
Proof.
  intros Hle Hks. destruct o as [c|fl n c|fl n arr]; cbn.
  - intros [H1 H2 H3 H4 H5]. split.
    + intros Ey. by eapply visible_le; eauto.
    + intros Ey. destruct (H2 Ey). split; by eapply visible_le; eauto.
    + intros Ey. destruct (H3 Ey) as ((x & fl & n & arr & Hx & Ha) & Hv). split; [|by eapply visible_le; eauto].
      destruct (hl_array _ _ Hle _ _ _ _ Ha) as (? & ? & ? & ? & _). eauto 10.
    + intros Ey. destruct (H4 Ey) as (x & fl & n & cp & Hx & Hc).
      destruct (hl_cap _ _ Hle _ _ _ _ Hc) as (? & ? & ? & ?). eauto 10.
    + intros Ey. by apply Hks.
  - by apply cap_ok_le.
  - destruct (ca_elements arr); [|done]. intros H. eapply Forall_impl; [exact H|]. intros p. by apply visible_le.
Qed.

(** The usual updates. *)
Lemma heap_le_fresh h a o : h !! a = None -> heap_le h (<[a := o]> h).
Proof.
  intros Ha. assert (forall b x, h !! b = Some x -> <[a := o]> h !! b = Some x) as Hb.
  { intros b x Hb. rewrite lookup_insert_ne; [done|]. intros ->. congruence. }
  split; [|eauto|]; [intros b c Hc Hv; exists c; auto|]. intros b fl n x Hx. eexists _, _, _. split; [by apply Hb | lia].
Qed.

Lemma heap_le_cell h a c c' :
  h !! a = Some (OCell c) ->
  (visible_type (c_type c) = true -> visible_type (c_type c') = true) ->
  (whnf_type (c_type c) = true -> whnf_type (c_type c') = true) ->
  (becomes c c' \/ visible_type (c_type c) = false) ->
  heap_le h (<[a := OCell c']> h).
Proof.
  intros Ha Hv Hw Hh. split.
  - intros b x Hb Hvb. destruct (decide (b = a)) as [->|Hne].
    + rewrite Ha in Hb. injection Hb as <-. exists c'. rewrite lookup_insert_eq. split_and!; auto.
      destruct Hh; [done | congruence].
    + exists x. rewrite lookup_insert_ne by done. done.
  - intros b fl n x Hb. exists fl, n, x. rewrite lookup_insert_ne; [done|]. intros ->. congruence.
  - intros b fl n x Hb. exists fl, n, x. split; [|done]. rewrite lookup_insert_ne; [done|]. intros ->. congruence.
Qed.

Lemma heap_le_cap h a fl n c fl' n' c' :
  h !! a = Some (OCap fl n c) -> heap_le h (<[a := OCap fl' n' c']> h).
Proof.
  intros Ha. split.
  - intros b x Hb Hvb. exists x. rewrite lookup_insert_ne; [auto|]. intros ->. congruence.
  - intros b fb nb x Hb. destruct (decide (b = a)) as [->|Hne]; [|exists fb, nb, x; by rewrite lookup_insert_ne].
    exists fl', n', c'. by rewrite lookup_insert_eq.
  - intros b fb nb x Hb. exists fb, nb, x. split; [|done]. rewrite lookup_insert_ne; [done|]. intros ->. congruence.
Qed.

Lemma heap_le_array h a fl n x fl' n' x' :
  h !! a = Some (OArray fl n x) -> ca_size x <= ca_size x' -> heap_le h (<[a := OArray fl' n' x']> h).
Proof.
  intros Ha Hs. split.
  - intros b c Hb Hvb. exists c. rewrite lookup_insert_ne; [auto|]. intros ->. congruence.
  - intros b fb nb c Hb. exists fb, nb, c. rewrite lookup_insert_ne; [done|]. intros ->. congruence.
  - intros b fb nb c Hb. destruct (decide (b = a)) as [->|Hne]; [|exists fb, nb, c; by rewrite lookup_insert_ne].
    rewrite Ha in Hb. injection Hb as <- <- <-. exists fl', n', x'. by rewrite lookup_insert_eq.
Qed.

(** ** Resolution *)

Lemma pntrtype_cell h p c :
  is_pntr p = true -> h !! p_lo p = Some (OCell c) -> c_type c <> CELL_EMPTY -> pntrtype h p = Some (c_type c).
Proof. intros Ep Hc Hn. unfold pntrtype. rewrite Ep, Hc. cbn. by rewrite (proj2 (Z.eqb_neq _ _)). Qed.

Lemma resolves_type h p q : resolves h p q -> exists ty, pntrtype h q = Some ty /\ ty <> CELL_IND.
Proof. induction 1; eauto. Qed.

(** The fields of the indirections are visible, so everything on the way is. *)
Definition inds_ok h : Prop :=
  forall a c, h !! a = Some (OCell c) -> c_type c = CELL_IND -> visible h (c_field1 c).

Lemma resolves_visible h p q : inds_ok h -> resolves h p q -> visible h p -> visible h q.
Proof. intros Hi. induction 1 as [|p c q Hp Hc Hty Hr IH]; [done|]. intros _. apply IH. by eapply Hi. Qed.

Lemma resolves_det h p q1 q2 : resolves h p q1 -> resolves h p q2 -> q1 = q2.
Proof.
  intros H. revert q2. induction H as [p ty Hty Hn|p c q Hp Hc Hty Hr IH]; intros q2 H2; inversion H2 as [? ty2 Hty2 Hn2|? c2 ? Hp2 Hc2 Ht2 Hr2]; subst.
  - done.
  - unfold pntrtype in Hty. rewrite Hp2, Hc2 in Hty. cbn in Hty. rewrite Ht2 in Hty. by injection Hty as <-.
  - unfold pntrtype in Hty2. rewrite Hp, Hc in Hty2. cbn in Hty2. rewrite Hty in Hty2. by injection Hty2 as <-.
  - apply IH. rewrite Hc in Hc2. by injection Hc2 as <-.
Qed.

(** Another heap: the indirections are the same, and the ends of all ways in
    [h] lead somewhere in [h']. *)
Lemma resolves_update h h' :
  inds_ok h ->
  (forall a c, h !! a = Some (OCell c) -> c_type c = CELL_IND ->
     exists c', h' !! a = Some (OCell c') /\ c_type c' = CELL_IND /\ c_field1 c' = c_field1 c) ->
  (forall q ty, visible h q -> pntrtype h q = Some ty -> ty <> CELL_IND -> exists q', resolves h' q q') ->
  forall p q, resolves h p q -> visible h p -> exists q', resolves h' p q'.
Proof.
  intros Hi Hind Hend p q H. induction H as [p ty Hty Hn|p c q Hp Hc Hty Hr IH]; intros Hv; [by eapply Hend|].
  destruct IH as [q' Hq']; [by eapply Hi|]. destruct (Hind _ _ Hc Hty) as (c' & Hc' & Hty' & Ef).
  exists q'. eapply resolves_next; [done | exact Hc' | done | by rewrite Ef].
Qed.

(** The way of the function [resolve] is a chain of indirections. *)
Definition is_ind h (p : pntr) : bool :=
  is_pntr p && match h !! p_lo p with Some (OCell c) => c_type c =? CELL_IND | _ => false end.
Definition ind_start h (p : pntr) : Z := if is_ind h p then p_lo p else 0.
Definition ind_next h (o : object) : Z :=
  match o with OCell c => ind_start h (c_field1 c) | _ => 0 end.

Lemma resolve_mono n : forall m h p q, resolve n h p = Done q -> (n <= m)%nat -> resolve m h p = Done q.
Proof.
  induction n as [|n IH]; intros m h p q H Hm; destruct m as [|m]; try lia; cbn [resolve] in *;
    destruct (deref (pntrtype h p)) as [ty| |]; try done; cbn [mbind outcome_bind] in *;
    destruct (ty =? CELL_IND); try done; destruct (h !! p_lo p) as [[c| |]|]; try done.
  apply IH; [done | lia].
Qed.

Lemma resolves_chain h p q :
  (forall a, is_Some (h !! a) -> a <> 0) -> resolves h p q ->
  exists l, chain (ind_next h) h (ind_start h p) l /\ resolve (length l) h p = Done q.
Proof.
  intros H0. induction 1 as [p ty Hty Hn|p c q Hp Hc Hty Hr (l & Hl & Hres)].
  - exists []. unfold ind_start, is_ind. unfold pntrtype in Hty.
    assert (resolve 0 h p = Done p) as Hr.
    { cbn [resolve]. unfold pntrtype. rewrite Hty. cbn [deref mbind outcome_bind]. by rewrite (proj2 (Z.eqb_neq _ _)). }
    split; [|done]. destruct (is_pntr p); cbn [andb]; [|constructor].
    destruct (h !! p_lo p) as [[c|fl n c|fl n x]|]; try constructor. cbn in Hty.
    destruct (Z.eqb_spec (c_type c) CELL_IND) as [Hi|Hi]; [|constructor].
    destruct (c_type c =? CELL_EMPTY); [done|]. injection Hty as <-. done.
  - exists (p_lo p :: l). split.
    + unfold ind_start, is_ind. rewrite Hp, Hc, Hty. cbn. econstructor; [apply H0; eauto | exact Hc | done].
    + cbn [length resolve]. rewrite (pntrtype_cell _ _ _ Hp Hc) by (by rewrite Hty).
      cbn [deref mbind outcome_bind]. rewrite Hty. cbn. by rewrite Hc.
Qed.

Lemma resolve_spec h p q :
  (forall a, is_Some (h !! a) -> a <> 0) -> resolves h p q -> resolve (size h) h p = Done q.
Proof.
  intros H0 H. destruct (resolves_chain _ _ _ H0 H) as (l & Hl & Hr).
  eapply resolve_mono; [exact Hr | by eapply chain_subset_size].
Qed.
End facts.
