(* ===== verification/WorldFacts.v ===== *)
(** * What the instructions do to a good machine

    Pure lemmas: the changes to heap, frames and queues the instructions
    consist of keep [good]. *)

From S2P Require Import Prelude Builtins Source Bytecode Compile Pointer Chain Memory Interpreter Wp SchedFacts Typing MachineOk HeapFacts.
#[local] Open Scope Z_scope.

Section world.
Context (E : env).
Implicit Types (h : gmap Z object) (ks : gmap Z core) (q : queues) (cur : option (Z * pc_ty)) (k : core) (c : cell).

(** ** Consequences *)

Lemma good_inds cur h ks q : good E cur h ks q -> inds_ok E h.
Proof. intros G a c Hc. exact (ce_ind _ _ _ _ _ (gd_heap _ _ _ _ _ G _ _ Hc)). Qed.

Lemma good_resolve cur h ks q p :
  good E cur h ks q -> visible E h p ->
  exists p' ty, resolve (size h) h p = Done p' /\ visible E h p' /\ pntrtype h p' = Some ty /\ ty <> CELL_IND.
Proof.
  intros G Hp. destruct (gd_resolves _ _ _ _ _ G p Hp) as [p' Hr]. destruct (resolves_type _ _ _ Hr) as (ty & Hty & Hn).
  exists p', ty. split_and!; try done.
  - apply resolve_spec; [|done]. intros a Ha ->. apply (gd_addr _ _ _ _ _ G) in Ha. lia.
  - eapply resolves_visible; [by eapply good_inds | done | done].
Qed.

Lemma good_busy cur h ks q a k : good E cur h ks q -> busy E ks a k -> core_ok E h ks (q_wait q) cur a k.
Proof. intros G (Hk & Hs & _). by apply (gd_cores _ _ _ _ _ G). Qed.

Lemma busy_det ks a k k' : busy E ks a k -> busy E ks a k' -> k = k'.
Proof. intros (H & _) (H' & _). rewrite H in H'. by injection H'. Qed.

Lemma run_busy cur h ks q f : good E cur h ks q -> f ∈ q_run q -> exists k, busy E ks f k /\ k_state k = STATE_ACTIVE.
Proof.
  intros G Hf. destruct (so_run _ _ _ (gd_states _ _ _ _ _ G) _ Hf) as (k & Hk & Hst). exists k.
  split; [|done]. split_and!; [done | | by rewrite Hst]. intros ->.
  destruct (so_sentinel _ _ _ (gd_states _ _ _ _ _ G)) as (k' & Hk' & Hst' & _). rewrite Hk in Hk'. injection Hk' as <-. congruence.
Qed.

(** The frame at work is in no wait queue, so no result is due to it. *)
Lemma run_not_waiting cur h ks q f w : good E cur h ks q -> f ∈ q_run q -> f ∉ q_wait q w.
Proof. intros G Hf Hw. by destruct (so_wait _ _ _ (gd_states _ _ _ _ _ G) _ _ Hw) as [? _]. Qed.

Lemma run_not_exempt cur h ks q f i : good E cur h ks q -> f ∈ q_run q -> ~ exempt E ks f i.
Proof.
  intros G Hf (b & k & Hb & Hr). destruct (ko_return _ _ _ _ _ _ _ (good_busy _ _ _ _ _ _ G Hb)) as [(_ & Hn & _)|(_ & g & j & Hr' & Hg & _)].
  - apply Hb.
  - congruence.
  - rewrite Hr in Hr'. injection Hr' as <- _. by eapply run_not_waiting.
Qed.

(** The slots of the frame at work. *)
Lemma cur_slot f main st h ks q k i ty :
  good E (Some (f, PcTy main st)) h ks q -> f ∈ q_run q -> ks !! f = Some k -> st !! i = Some ty ->
  exists p, k_data k !! i = Some p /\ slot_ok E h ty p.
Proof.
  intros G Hf Hk Hi. destruct (run_busy _ _ _ _ _ G Hf) as (k' & Hb & _). assert (k' = k) as ->.
  { destruct Hb as (Hb & _). rewrite Hk in Hb. by injection Hb. }
  destruct (ko_typed _ _ _ _ _ _ _ (good_busy _ _ _ _ _ _ G Hb) ltac:(apply Hb)) as (pt & Hpt & Hty).
  cbn in Hpt. rewrite decide_True in Hpt by done. subst pt.
  destruct (ty_slots _ _ _ _ _ _ _ Hty _ _ Hi) as [_ [Hx|Hp]]; [|done]. by destruct (run_not_exempt _ _ _ _ _ _ G Hf Hx).
Qed.

Lemma cur_data f main st h ks q k :
  good E (Some (f, PcTy main st)) h ks q -> f ∈ q_run q -> ks !! f = Some k ->
  Z.of_nat (length (k_data k)) = e_maxstack E /\ Z.of_nat (length st) <= e_maxstack E /\
  (main = true -> k_c k = e_mcell E /\ k_c k <> 0 /\ q_wait q f = []).
Proof.
  intros G Hf Hk. destruct (run_busy _ _ _ _ _ G Hf) as (k' & Hb & _). assert (k' = k) as ->.
  { destruct Hb as (Hb & _). rewrite Hk in Hb. by injection Hb. }
  assert (C := good_busy _ _ _ _ _ _ G Hb). split; [apply C|].
  destruct (ko_typed _ _ _ _ _ _ _ C ltac:(apply Hb)) as (pt & Hpt & Hty).
  cbn in Hpt. rewrite decide_True in Hpt by done. subst pt. split; apply Hty.
Qed.

(** ** Changing parts *)

Lemma frame_ty_ne f ct a k pt cur' :
  cur' = Some (f, ct) -> a <> f -> frame_ty E cur' a k pt <-> frame_ty E None a k pt.
Proof. intros -> Hn. cbn. by rewrite decide_False. Qed.

Lemma slots_ok_mono h h' ks ks' a st d :
  heap_le h h' -> (forall i, exempt E ks a i <-> exempt E ks' a i) ->
  (forall i p, st !! i = Some SHole -> d !! i = Some p -> is_hole_pntr E h p -> is_hole_pntr E h' p) ->
  slots_ok E h ks a st d -> slots_ok E h' ks' a st d.
Proof.
  intros Hle Hx Hh H i ty Hi. destruct (H i ty Hi) as [Ha Hp]. rewrite <- Hx. split; [done|].
  destruct Hp as [Hp|(p & Hp & Hok)]; [by left|]. right. exists p. split; [done|].
  destruct ty; cbn in *; [by eapply Hh | by eapply whnf_le | by eapply visible_le].
Qed.

Lemma return_ok_mono h h' wl wl' a k :
  (forall c, h !! k_c k = Some (OCell c) -> c_type c = CELL_FRAME -> get_pntr (c_field1 c) = Done a ->
     exists c', h' !! k_c k = Some (OCell c') /\ c_type c' = CELL_FRAME /\ get_pntr (c_field1 c') = Done a) ->
  (forall g, g ∈ wl a -> (exists i, k_retp k = Some (g, i)) -> g ∈ wl' a) ->
  return_ok E h wl a k -> return_ok E h' wl' a k.
Proof.
  intros Hc Hw [(H1 & H2 & c & H3 & H4 & H5)|(H1 & g & i & H2 & H3 & H4)].
  - left. split_and!; [done | done|]. by eapply Hc.
  - right. split; [done|]. exists g, i. split_and!; [done | apply Hw; eauto | lia..].
Qed.

(** A frame that does not change itself. *)
Lemma core_ok_mono cur cur' h h' ks ks' wl wl' a k :
  heap_le h h' -> busy E ks a k \/ live (k_state k) = false ->
  (forall i, exempt E ks a i <-> exempt E ks' a i) ->
  (forall pt, frame_ty E cur a k pt -> frame_ty E cur' a k pt) ->
  (forall i p, hole_slot E ks cur a i p -> is_hole_pntr E h p -> is_hole_pntr E h' p) ->
  (live (k_state k) = true -> return_ok E h wl a k -> return_ok E h' wl' a k) ->
  (wl a = [] -> wl' a = [] \/ (live (k_state k) = true /\ k_c k <> e_mcell E)) ->
  core_ok E h ks wl cur a k -> core_ok E h' ks' wl' cur' a k.
Proof.
  intros Hle Hb Hx Hf Hh Hr Hw [H1 H2 H3 H4 H5]. split; [done | done|..].
  - intros Hl. destruct (H3 Hl) as [? Hn]. split; [done|]. destruct (Hw Hn) as [?|[? _]]; [done | congruence].
  - intros Hl. apply (Hr Hl), (H4 Hl).
  - intros Hl. destruct Hb as [Hb|Hb]; [|congruence]. destruct (H5 Hl) as (pt & Hpt & [T1 T2 T3]).
    exists pt. split; [by apply Hf|]. split; [done|..].
    + eapply slots_ok_mono; [done | done| |exact T2]. intros i p Hi Hp. apply (Hh i). exists k, pt. done.
    + intros Hm. destruct (T3 Hm) as (? & ? & Hn). split_and!; [done | done|]. destruct (Hw Hn) as [?|[_ ?]]; [done | congruence].
Qed.

Lemma consts_le cur h h' ks q :
  good E cur h ks q -> heap_le h h' ->
  whnf E h' (e_nil E) /\ whnf E h' (e_true E) /\ Forall (whnf E h') (e_strings E).
Proof.
  intros G Hle. split_and!; [by eapply whnf_le, G; done | by eapply whnf_le, G; done|].
  eapply Forall_impl; [apply (gd_strings _ _ _ _ _ G)|]. intros p. by apply whnf_le.
Qed.

(** ** Changing the heap *)

Lemma pntrtype_ne h t o p : p_lo p <> t \/ is_pntr p = false -> pntrtype (<[t := o]> h) p = pntrtype h p.
Proof. unfold pntrtype. destruct (is_pntr p); [|done]. intros [?|?]; [by rewrite lookup_insert_ne | done]. Qed.

(** What an indirection elsewhere is, it was before. *)
Lemma visible_ind_ne h t o p c : p_lo p <> t -> visible E (<[t := o]> h) p -> h !! p_lo p = Some (OCell c) -> c_type c = CELL_IND -> visible E h p.
Proof.
  intros Hn H Hc Hi Hp. destruct (H Hp) as (c' & Hc' & Hv & Hh & _). rewrite lookup_insert_ne in Hc' by done. rewrite Hc in Hc'. injection Hc' as <-.
  exists c. split_and!; [done..|]. split; rewrite Hi; done.
Qed.

(** An object is replaced by one that leads somewhere. *)
Definition leads (h : gmap Z object) (t : Z) (o : object) : Prop :=
  forall c, o = OCell c -> c_type c = CELL_IND ->
    exists ty, pntrtype h (c_field1 c) = Some ty /\ ty <> CELL_IND /\ (p_lo (c_field1 c) <> t \/ is_pntr (c_field1 c) = false).

Lemma resolves_at h t c p :
  leads h t (OCell c) -> visible_type (c_type c) = true -> is_pntr p = true -> p_lo p = t ->
  exists p', resolves (<[t := OCell c]> h) p p'.
Proof.
  intros Hl Hv Hp Ht. destruct (visible_type_excludes _ Hv) as (_ & _ & He).
  assert (<[t := OCell c]> h !! p_lo p = Some (OCell c)) as Hc by (by rewrite Ht, lookup_insert_eq).
  destruct (Z.eq_dec (c_type c) CELL_IND) as [Hi|Hi].
  - destruct (Hl c eq_refl Hi) as (ty & Hty & Hn & Hne). exists (c_field1 c).
    eapply resolves_next; [done | done | done|]. eapply resolves_done; [by rewrite pntrtype_ne | done].
  - exists p. eapply resolves_done; [by apply pntrtype_cell | done].
Qed.

Lemma resolves_set h t o :
  inds_ok E h -> (forall p, visible E h p -> exists p', resolves h p p') ->
  (forall c, h !! t = Some (OCell c) -> c_type c <> CELL_IND) ->
  heap_le h (<[t := o]> h) -> leads h t o ->
  forall p, visible E (<[t := o]> h) p -> exists p', resolves (<[t := o]> h) p p'.
Proof.
  intros Hi Hr Ht Hle Hl p Hp. destruct (is_pntr p) eqn:Ep.
  2: { exists p. apply (resolves_done _ _ CELL_NUMBER); [by unfold pntrtype; rewrite Ep | done]. }
  destruct (Z.eq_dec (p_lo p) t) as [E0|Hn].
  { destruct (Hp Ep) as (c & Hc & Hv & _). rewrite E0, lookup_insert_eq in Hc. injection Hc as ->. by apply resolves_at. }
  destruct (Hp Ep) as (c & Hc & Hv & _). assert (h !! p_lo p = Some (OCell c)) as Hc0 by (by rewrite lookup_insert_ne in Hc).
  destruct (Z.eq_dec (c_type c) CELL_IND) as [Hci|Hni].
  2: { exists p. eapply resolves_done; [apply pntrtype_cell; [done | exact Hc|] | exact Hni]. apply (visible_type_excludes _ Hv). }
  apply (visible_ind_ne _ _ _ _ c) in Hp; [|done..]. clear c Hc Hv Hc0 Hci. destruct (Hr p Hp) as [q Hq]. revert Hq Hp. apply (resolves_update E); [done|..].
  - intros a c Hc Hty. exists c. rewrite lookup_insert_ne; [done|]. intros <-. by apply (Ht _ Hc).
  - intros x ty Hx Hty Hn2. destruct (is_pntr x) eqn:Ex.
    2: { exists x. eapply resolves_done; [|exact Hn2]. rewrite pntrtype_ne by auto. done. }
    destruct (Z.eq_dec (p_lo x) t) as [E0|Hn3].
    + destruct (Hx Ex) as (c & Hc & Hv & _). rewrite E0 in Hc. destruct (hl_cell _ _ Hle _ _ Hc Hv) as (c' & Hc' & Hv' & _).
      rewrite lookup_insert_eq in Hc'. injection Hc' as ->. by apply resolves_at.
    + exists x. eapply resolves_done; [|exact Hn2]. rewrite pntrtype_ne by auto. done.
Qed.

(** Everything but the frames, for a heap with one object replaced. *)
Record heap_change (h : gmap Z object) (ks : gmap Z core) (t : Z) (o : object) : Prop := {
  hc_addr : 8 <= t;
  hc_le : heap_le h (<[t := o]> h);
  hc_old : forall c, h !! t = Some (OCell c) -> c_type c <> CELL_IND;
  hc_leads : leads h t o
}.

Lemma heap_change_world cur h ks q t o :
  good E cur h ks q -> heap_change h ks t o ->
  let h' := <[t := o]> h in
  (forall a, is_Some (h' !! a) -> 8 <= a) /\ (forall a, a ∈ hid E -> is_Some (h' !! a)) /\
  (forall p, visible E h' p -> exists p', resolves h' p p') /\
  whnf E h' (e_nil E) /\ whnf E h' (e_true E) /\ Forall (whnf E h') (e_strings E).
Proof.
  intros G [H1 H2 H3 H4] h'. split_and!.
  - intros a [x Ha]. apply lookup_insert_Some in Ha as [[<- _]|[_ Ha]]; [done|]. by eapply gd_addr.
  - intros a Ha. unfold h'. destruct (decide (t = a)) as [->|]; [by rewrite lookup_insert_eq|].
    rewrite lookup_insert_ne by done. by eapply gd_hidden.
  - apply resolves_set; [by eapply good_inds | by eapply gd_resolves | done..].
  - by eapply consts_le.
  - by eapply consts_le.
  - by eapply consts_le.
Qed.

Lemma fresh_change cur h ks q t o :
  good E cur h ks q -> h !! t = None -> 8 <= t -> (forall c, o = OCell c -> c_type c <> CELL_IND) -> heap_change h ks t o.
Proof.
  intros G Ht H8 Hi. split; [done | by apply heap_le_fresh | by rewrite Ht|]. intros c Hc Hty. by destruct (Hi c).
Qed.

Lemma hole_fresh h t o p : h !! t = None -> is_hole_pntr E h p -> is_hole_pntr E (<[t := o]> h) p.
Proof.
  intros Ht H. apply (hole_pntr_keep _ h); [|done]. destruct H as [Hp H]. destruct (H Hp) as (c & Hc & _).
  rewrite lookup_insert_ne; [done|]. congruence.
Qed.

(** A new object. *)
Lemma good_put cur h ks q t o :
  good E cur h ks q -> h !! t = None -> 8 <= t -> (forall c, o = OCell c -> c_type c <> CELL_IND) ->
  object_ok E (<[t := o]> h) ks t o -> good E cur (<[t := o]> h) ks q.
Proof.
  intros G Ht H8 Hi Ho. assert (C := fresh_change _ _ _ _ _ _ G Ht H8 Hi).
  destruct (heap_change_world _ _ _ _ _ _ G C) as (A1 & A2 & A3 & A4 & A5 & A6).
  split; [apply G | done | done| |done| |apply G |done | done | done].
  - intros a x Ha. apply lookup_insert_Some in Ha as [[<- <-]|[_ Ha]]; [done|].
    assert (Hx := gd_heap _ _ _ _ _ G _ _ Ha). eapply object_ok_le; [apply C| |exact Hx].
    intros c -> Hc. by apply (ce_frame _ _ _ _ _ Hx).
  - intros a k Hk Hs. eapply core_ok_mono; [apply C| |done|done| |..|by eapply gd_cores].
    + destruct (live (k_state k)) eqn:El; [left | by right]. done.
    + intros i p _. by apply hole_fresh.
    + intros _. apply return_ok_mono; [|done]. intros c Hc Hty Hf. exists c. rewrite lookup_insert_ne; [done|]. congruence.
    + intros Hn. by left.
Qed.

(** A hole that is in no slot any more becomes an indirection. *)
Lemma good_update cur h ks q t c c' ty :
  good E cur h ks q -> h !! t = Some (OCell c) -> c_type c = CELL_HOLE ->
  (forall a i p, hole_slot E ks cur a i p -> p_lo p <> t) ->
  c_type c' = CELL_IND -> visible E h (c_field1 c') -> pntrtype h (c_field1 c') = Some ty -> ty <> CELL_IND ->
  p_lo (c_field1 c') <> t \/ is_pntr (c_field1 c') = false ->
  good E cur (<[t := OCell c']> h) ks q.
Proof.
  intros G Ht Hc Hno Hc' Hv Hty Hn Hne.
  assert (C : heap_change h ks t (OCell c')).
  { split.
    - by eapply gd_addr.
    - eapply heap_le_cell; [done | by rewrite Hc' | by rewrite Hc | left; by apply becomes_other; rewrite Hc'].
    - intros x Hx. rewrite Ht in Hx. injection Hx as <-. by rewrite Hc.
    - intros x [= <-] _. eauto. }
  destruct (heap_change_world _ _ _ _ _ _ G C) as (A1 & A2 & A3 & A4 & A5 & A6).
  split; [apply G | done | done| |done| |apply G |done | done | done].
  - intros a x Ha. apply lookup_insert_Some in Ha as [[<- <-]|[_ Ha]].
    + split; rewrite Hc'; try done. intros _. eapply visible_le; [apply C | done].
    + assert (Hx := gd_heap _ _ _ _ _ G _ _ Ha). eapply object_ok_le; [apply C| |exact Hx].
      intros x0 -> Hx0. by apply (ce_frame _ _ _ _ _ Hx).
  - intros a k Hk Hs. eapply core_ok_mono; [apply C| |done|done| |..|by eapply gd_cores].
    + destruct (live (k_state k)) eqn:El; [left | by right]. done.
    + intros i p Hslot. apply hole_pntr_keep. rewrite lookup_insert_ne; [done|]. intros E0. by apply (Hno _ _ _ Hslot).
    + intros _. apply return_ok_mono; [|done]. intros x Hx Hxt Hf. exists x. rewrite lookup_insert_ne; [done|]. intros E0.
      rewrite <- E0, Ht in Hx. injection Hx as <-. rewrite Hc in Hxt. done.
    + intros Hn0. by left.
Qed.

(** ** Changing a frame that keeps its role *)

Definition same_role k k' : Prop :=
  k_state k' = k_state k /\ k_c k' = k_c k /\ k_retp k' = k_retp k /\ k_fetchers k' = k_fetchers k.

(** Seen from other frames. *)
Definition alike k k' : Prop := live (k_state k') = live (k_state k) /\ k_c k' = k_c k /\ k_retp k' = k_retp k.

Lemma same_alike k k' : same_role k k' -> alike k k'.
Proof. intros (R1 & R2 & R3 & R4). split_and!; [by rewrite R1 | done | done]. Qed.

Lemma busy_ne ks f k' a k : a <> f -> busy E (<[f := k']> ks) a k <-> busy E ks a k.
Proof. intros Hn. unfold busy. by rewrite lookup_insert_ne. Qed.

Lemma busy_eq ks f k' k : busy E (<[f := k']> ks) f k <-> k = k' /\ f <> e_sentinel E /\ live (k_state k) = true.
Proof. unfold busy. rewrite lookup_insert_eq. split; [intros ([= ->] & ?); done | intros (-> & ?); done]. Qed.

Lemma exempt_role ks f k k' a i :
  ks !! f = Some k -> alike k k' -> exempt E (<[f := k']> ks) a i <-> exempt E ks a i.
Proof.
  intros Hk (R1 & R2 & R3). split; intros (b & kb & Hb & Hr); destruct (decide (b = f)) as [->|Hn].
  - apply busy_eq in Hb as (-> & Hs & Hl). exists f, k. unfold busy. rewrite <- R1, <- R3. done.
  - apply busy_ne in Hb; [|done]. by exists b, kb.
  - exists f, k'. rewrite busy_eq. destruct Hb as (Hb & Hs & Hl). rewrite Hk in Hb. injection Hb as <-.
    rewrite R1, R3. done.
  - exists b, kb. by rewrite busy_ne.
Qed.

Lemma frame_cell_role ks f k k' a p :
  ks !! f = Some k -> alike k k' -> frame_cell ks a p -> frame_cell (<[f := k']> ks) a p.
Proof.
  intros Hk (R1 & R2 & R3) (g & kg & Hp & Hg & Hc & Hl). destruct (decide (g = f)) as [->|Hn].
  - rewrite Hk in Hg. injection Hg as <-. exists f, k'. rewrite lookup_insert_eq, R1, R2. done.
  - exists g, kg. by rewrite lookup_insert_ne.
Qed.

Lemma states_role ks q f k k' :
  states_ok E ks q -> ks !! f = Some k -> same_role k k' -> ((exists w, f ∈ q_wait q w) -> wakeable_at E k') ->
  states_ok E (<[f := k']> ks) q.
Proof.
  intros [H1 H2 H3 H4 H5 H6] Hk (R1 & R2 & R3 & R4) Hw.
  assert (forall a P, (forall x x', k_state x' = k_state x -> P x -> P x' : Prop) ->
    (exists x, <[f := k']> ks !! a = Some x /\ P x) <-> (exists x, ks !! a = Some x /\ P x)) as Hx.
  { intros a P HP. destruct (decide (a = f)) as [->|Hn]; [|by rewrite lookup_insert_ne].
    rewrite lookup_insert_eq, Hk. split; intros (x & [= <-] & Hx); eexists; (split; [done|]); eapply HP; try exact Hx; congruence. }
  split.
  - intros a Ha. apply Hx; [by intros ?? ->|]. by apply H1.
  - intros w a Ha. destruct (H2 w a Ha) as (Hr & x & Hx' & Hst & Hwk). split; [done|].
    destruct (decide (a = f)) as [->|Hn]; [|exists x; by rewrite lookup_insert_ne].
    exists k'. rewrite lookup_insert_eq. rewrite Hk in Hx'. injection Hx' as <-. split_and!; [done | congruence | eauto].
  - intros a x Ha Hst. destruct (decide (a = f)) as [->|Hn].
    + rewrite lookup_insert_eq in Ha. injection Ha as <-. apply (H3 _ _ Hk). congruence.
    + rewrite lookup_insert_ne in Ha by done. by eapply H3.
  - intros a. rewrite H4. symmetry. apply Hx. by intros ?? ->.
  - intros a. rewrite H5. symmetry. apply Hx. by intros ?? ->.
  - destruct H6 as (x & Hx' & Hst & Hc). destruct (decide (e_sentinel E = f)) as [E0|Hn].
    + exists k'. rewrite E0 in *. rewrite lookup_insert_eq. rewrite Hk in Hx'. injection Hx' as <-. split_and!; congruence.
    + exists x. by rewrite lookup_insert_ne.
Qed.

Lemma frame_ty_det cur a k pt pt' : frame_ty E cur a k pt -> frame_ty E cur a k pt' -> pt = pt'.
Proof.
  assert (forall pt pt', frame_ty E None a k pt -> frame_ty E None a k pt' -> pt = pt') as H0.
  { intros p p' (pc & Hpc & H) (pc' & Hpc' & H'). rewrite Hpc in Hpc'. injection Hpc' as <-. rewrite H in H'. by injection H'. }
  destruct cur as [[f ct]|]; [|apply H0]. cbn. destruct (decide (a = f)); [congruence | apply H0].
Qed.

(** The slots of frame [f] and their types change. *)
Lemma good_role cur cur' h ks q f k k' pt' :
  good E cur h ks q -> busy E ks f k -> same_role k k' ->
  ((exists w, f ∈ q_wait q w) -> wakeable_at E k') -> length (k_data k') = length (k_data k) ->
  (forall a ka pt, a <> f -> frame_ty E cur' a ka pt <-> frame_ty E cur a ka pt) ->
  frame_ty E cur' f k' pt' -> typed E h ks (q_wait q) f k' pt' ->
  (forall i j p p', pt_stack pt' !! i = Some SHole -> pt_stack pt' !! j = Some SHole ->
     k_data k' !! i = Some p -> k_data k' !! j = Some p' -> p_lo p = p_lo p' -> i = j) ->
  (forall i p, pt_stack pt' !! i = Some SHole -> k_data k' !! i = Some p ->
     (exists j p0, hole_slot E ks cur f j p0 /\ p_lo p0 = p_lo p) \/
     (forall b j p0, hole_slot E ks cur b j p0 -> p_lo p0 <> p_lo p)) ->
  good E cur' h (<[f := k']> ks) q.
Proof.
  intros G Hb R Hw Hlen Hty Hpt' T HP1 HP2. assert (Hk := proj1 Hb). assert (C := good_busy _ _ _ _ _ _ G Hb).
  assert (forall a i, exempt E ks a i <-> exempt E (<[f := k']> ks) a i) as Hx.
  { intros a i. symmetry. eapply exempt_role; [done | by apply same_alike]. }
  assert (forall i p, hole_slot E (<[f := k']> ks) cur' f i p -> pt_stack pt' !! i = Some SHole /\ k_data k' !! i = Some p) as Hs1.
  { intros i p (x & pt & Hx1 & Hx2 & Hx3 & Hx4). apply busy_eq in Hx1 as (-> & _).
    by rewrite (frame_ty_det _ _ _ _ _ Hpt' Hx2). }
  assert (forall a i p, a <> f -> hole_slot E (<[f := k']> ks) cur' a i p -> hole_slot E ks cur a i p) as Hs2.
  { intros a i p Hn (x & pt & Hx1 & Hx2 & Hx3). exists x, pt. rewrite busy_ne in Hx1 by done. rewrite Hty in Hx2 by done. done. }
  assert (A := same_alike _ _ R). destruct R as (R1 & R2 & R3 & R4).
  split; try (by apply G).
  - eapply states_role; [apply G | done..].
  - intros a o Ha. assert (Ho := gd_heap _ _ _ _ _ G _ _ Ha). eapply object_ok_le; [reflexivity| |exact Ho].
    intros c -> Hc. eapply frame_cell_role; [done | by apply same_alike|]. by apply (ce_frame _ _ _ _ _ Ho).
  - intros a x Ha Hs. destruct (decide (a = f)) as [->|Hn].
    + rewrite lookup_insert_eq in Ha. injection Ha as <-. destruct C as [C1 C2 C3 C4 C5].
      split; rewrite ?R1, ?R4; try done; [by rewrite Hlen | |].
      * intros Hl. destruct (C4 Hl) as [D|D]; [left | right]; by rewrite R2, R3.
      * intros _. exists pt'. split; [done|]. destruct T as [T1 T2 T3]. split; [done| |done].
        eapply slots_ok_mono; [reflexivity | apply Hx | done | done].
    + rewrite lookup_insert_ne in Ha by done. eapply core_ok_mono; [reflexivity| |apply Hx| |..|by eapply gd_cores].
      * destruct (live (k_state x)) eqn:El; [left | by right]. done.
      * intros pt. by apply Hty.
      * done.
      * done.
      * auto.
  - intros a b i j p p' Ha Hb' E0. destruct (decide (a = f)) as [->|Hna], (decide (b = f)) as [->|Hnb].
    + apply Hs1 in Ha as [A1 A2]. apply Hs1 in Hb' as [B1 B2]. split; [done|]. by eapply HP1.
    + apply Hs1 in Ha as [A1 A2]. apply Hs2 in Hb'; [|done]. destruct (HP2 _ _ A1 A2) as [(j0 & p0 & Hj & E1)|Hno].
      * destruct (gd_holes _ _ _ _ _ G _ _ _ _ _ _ Hj Hb') as [? _]; [congruence | done].
      * by destruct (Hno _ _ _ Hb').
    + apply Hs1 in Hb' as [B1 B2]. apply Hs2 in Ha; [|done]. destruct (HP2 _ _ B1 B2) as [(j0 & p0 & Hj & E1)|Hno].
      * destruct (gd_holes _ _ _ _ _ G _ _ _ _ _ _ Hj Ha) as [? _]; [congruence | done].
      * by destruct (Hno _ _ _ Ha).
    + apply Hs2 in Ha, Hb'; [|done..]. by eapply (gd_holes _ _ _ _ _ G).
Qed.

(** ** The frame at work *)

Lemma hole_slot_hole cur h ks q a i p : good E cur h ks q -> hole_slot E ks cur a i p -> is_hole_pntr E h p.
Proof.
  intros G (k & pt & Hb & Hpt & Hi & Hp).
  destruct (ko_typed _ _ _ _ _ _ _ (good_busy _ _ _ _ _ _ G Hb) ltac:(apply Hb)) as (pt' & Hpt' & T).
  rewrite (frame_ty_det _ _ _ _ _ Hpt Hpt') in Hi. destruct (ty_slots _ _ _ _ _ _ _ T _ _ Hi) as [Hx [He|(p' & Hp' & Hok)]].
  - by specialize (Hx He).
  - rewrite Hp in Hp'. injection Hp' as <-. done.
Qed.

Lemma cur_frame_ty f ct a k pt pt' :
  a <> f -> frame_ty E (Some (f, ct)) a k pt <-> frame_ty E (Some (f, pt')) a k pt.
Proof. intros Hn. cbn. by rewrite !decide_False. Qed.

(** [r] tells where the holes were before. *)
Lemma good_cur_move (r : nat -> nat) f main main' st st' h ks q k k' :
  good E (Some (f, PcTy main st)) h ks q -> f ∈ q_run q -> ks !! f = Some k -> same_role k k' ->
  length (k_data k') = length (k_data k) -> Z.of_nat (length st') <= e_maxstack E -> (main' = true -> main = true) ->
  (forall i ty, st' !! i = Some ty -> exists p, k_data k' !! i = Some p /\ slot_ok E h ty p) ->
  (forall i, st' !! i = Some SHole -> st !! r i = Some SHole /\ k_data k !! r i = k_data k' !! i) ->
  (forall i j, st' !! i = Some SHole -> st' !! j = Some SHole -> r i = r j -> i = j) ->
  good E (Some (f, PcTy main' st')) h (<[f := k']> ks) q.
Proof.
  intros G Hf Hk R Hlen Hst Hm Hs Hr Hinj. destruct (run_busy _ _ _ _ _ G Hf) as (k0 & Hb & _).
  assert (k0 = k) as -> by (destruct Hb as (Hb & _); rewrite Hk in Hb; by injection Hb).
  destruct (cur_data _ _ _ _ _ _ _ G Hf Hk) as (D1 & D2 & D3).
  assert (forall i p, st' !! i = Some SHole -> k_data k' !! i = Some p ->
    hole_slot E ks (Some (f, PcTy main st)) f (r i) p) as Hold.
  { intros i p Hi Hp. destruct (Hr i Hi) as [E1 E2]. exists k, (PcTy main st). cbn. rewrite decide_True by done.
    split_and!; [done | done | done | congruence]. }
  apply (good_role (Some (f, PcTy main st)) _ _ _ _ _ k _ (PcTy main' st')); try done.
  - intros [w Hw]. by destruct (run_not_waiting _ _ _ _ _ w G Hf).
  - intros a ka pt Hn. by apply cur_frame_ty.
  - cbn. by rewrite decide_True.
  - destruct R as (R1 & R2 & R3 & R4). split; cbn [pt_stack pt_main]; [done| |].
    + intros i ty Hi. split; [|right; by apply Hs]. intros Hx. by destruct (run_not_exempt _ _ _ _ _ _ G Hf Hx).
    + rewrite R2. auto.
  - cbn. intros i j p p' Hi Hj Hp Hp' E0. apply Hinj; [done | done|].
    by destruct (gd_holes _ _ _ _ _ G _ _ _ _ _ _ (Hold _ _ Hi Hp) (Hold _ _ Hj Hp') E0).
  - cbn. intros i p Hi Hp. left. exists (r i), p. split; [by apply Hold | done].
Qed.

Lemma good_cur_upd f main main' st st' h ks q k k' :
  good E (Some (f, PcTy main st)) h ks q -> f ∈ q_run q -> ks !! f = Some k -> same_role k k' ->
  length (k_data k') = length (k_data k) -> Z.of_nat (length st') <= e_maxstack E -> (main' = true -> main = true) ->
  (forall i ty, st' !! i = Some ty -> exists p, k_data k' !! i = Some p /\ slot_ok E h ty p) ->
  (forall i, st' !! i = Some SHole -> st !! i = Some SHole /\ k_data k !! i = k_data k' !! i) ->
  good E (Some (f, PcTy main' st')) h (<[f := k']> ks) q.
Proof. intros. by eapply (good_cur_move (fun i => i)). Qed.

Lemma same_role_refl k : same_role k k.
Proof. done. Qed.

Lemma sub_st_lookup need have i ty :
  sub_st need have = true -> need !! i = Some ty -> exists ty', have !! i = Some ty' /\ sub_ty ty ty' = true.
Proof.
  revert have i. induction need as [|n need IH]; intros have i H Hi; [done|].
  destruct have as [|x have]; [done|]. cbn in H. apply andb_true_iff in H as [H1 H2].
  destruct i as [|i]; cbn in *; [injection Hi as <-; eauto | by apply IH].
Qed.

Lemma sub_st_length need have : sub_st need have = true -> (length need <= length have)%nat.
Proof.
  revert have. induction need as [|n need IH]; intros have H; cbn; [lia|].
  destruct have as [|x have]; [done|]. cbn in *. apply andb_true_iff in H as [_ H]. specialize (IH _ H). lia.
Qed.

(** Less is known of the stack. *)
Lemma good_weaken f main main' st st' h ks q :
  good E (Some (f, PcTy main st)) h ks q -> f ∈ q_run q -> (main' = true -> main = true) -> sub_st st' st = true ->
  good E (Some (f, PcTy main' st')) h ks q.
Proof.
  intros G Hf Hm Hsub. destruct (run_busy _ _ _ _ _ G Hf) as (k & (Hk & _) & _).
  rewrite <- (insert_id ks f k) by done. eapply good_cur_upd; try done.
  - destruct (cur_data _ _ _ _ _ _ _ G Hf Hk) as (_ & D & _). apply sub_st_length in Hsub. lia.
  - intros i ty Hi. destruct (sub_st_lookup _ _ _ _ Hsub Hi) as (ty' & Hi' & Hty).
    destruct (cur_slot _ _ _ _ _ _ _ _ _ G Hf Hk Hi') as (p & Hp & Hok). exists p. split; [done|]. by eapply slot_ok_sub.
  - intros i Hi. destruct (sub_st_lookup _ _ _ _ Hsub Hi) as (ty' & Hi' & Hty). by destruct ty'.
Qed.

(** Another view of the same types. *)
Lemma good_retype cur cur' h ks q :
  good E cur h ks q -> (forall a k pt, busy E ks a k -> frame_ty E cur' a k pt <-> frame_ty E cur a k pt) -> good E cur' h ks q.
Proof.
  intros G Hty. split; try (by apply G).
  - intros a k Hk Hs. destruct (gd_cores _ _ _ _ _ G _ _ Hk Hs) as [C1 C2 C3 C4 C5]. split; try done.
    intros Hl. destruct (C5 Hl) as (pt & Hpt & T). exists pt. split; [|done]. by apply Hty.
  - intros a b i j p p' (k & pt & Hb & Hpt & H) (k' & pt' & Hb' & Hpt' & H').
    apply Hty in Hpt; [|done]. apply Hty in Hpt'; [|done].
    apply (gd_holes _ _ _ _ _ G); [by exists k, pt | by exists k', pt'].
Qed.

Lemma good_focus h ks q f k pc pt :
  good E None h ks q -> ks !! f = Some k -> k_instr k = Some pc -> zlookup (e_typing E) pc = Some (Some pt) ->
  good E (Some (f, pt)) h ks q.
Proof.
  intros G Hk Hpc Hpt. eapply good_retype; [done|]. intros a ka pt' (Ha & _). cbn. destruct (decide (a = f)) as [->|]; [|done].
  rewrite Hk in Ha. injection Ha as <-. split; [intros ->; by exists pc|]. intros (pc' & Hpc' & H). congruence.
Qed.

Lemma good_unfocus h ks q f k pc pt :
  good E (Some (f, pt)) h ks q -> ks !! f = Some k -> k_instr k = Some pc -> zlookup (e_typing E) pc = Some (Some pt) ->
  good E None h ks q.
Proof.
  intros G Hk Hpc Hpt. eapply good_retype; [done|]. intros a ka pt' (Ha & _). cbn. destruct (decide (a = f)) as [->|]; [|done].
  rewrite Hk in Ha. injection Ha as <-. split; [|intros ->; by exists pc]. intros (pc' & Hpc' & H). congruence.
Qed.

(** The frame goes on at an address that accepts its stack. *)
Lemma good_next f main st h ks q k pc :
  good E (Some (f, PcTy main st)) h ks q -> f ∈ q_run q -> ks !! f = Some k -> k_instr k = Some pc ->
  goes (e_typing E) pc main st = true -> good E None h ks q.
Proof.
  intros G Hf Hk Hpc Hgo. unfold goes in Hgo. destruct (zlookup (e_typing E) pc) as [[[m' st']|]|] eqn:Et; try done.
  apply andb_true_iff in Hgo as [Hm Hs]. cbn in *. eapply good_unfocus; [|done..].
  eapply good_weaken; [done | done | by destruct m', main | done].
Qed.

(** A new hole on top of the stack. *)
Lemma good_push_hole f main st h ks q k a fl f1 f2 :
  good E (Some (f, PcTy main st)) h ks q -> f ∈ q_run q -> ks !! f = Some k -> h !! a = None -> 8 <= a ->
  Z.of_nat (length st) < e_maxstack E ->
  good E (Some (f, PcTy main (st ++ [SHole]))) (<[a := OCell (Cell CELL_HOLE fl f1 f2)]> h)
    (<[f := sk_data (<[length st := make_pntr a]> (k_data k)) k]> ks) q.
Proof.
  intros G Hf Hk Ha H8 Hl. set (h' := <[a := _]> h).
  assert (G' : good E (Some (f, PcTy main st)) h' ks q).
  { apply good_put; [done | done | done | by intros c [= <-] | split; done]. }
  destruct (run_busy _ _ _ _ _ G Hf) as (k0 & Hb & _).
  assert (k0 = k) as -> by (destruct Hb as (Hb & _); rewrite Hk in Hb; by injection Hb).
  destruct (cur_data _ _ _ _ _ _ _ G Hf Hk) as (D1 & D2 & D3).
  assert (length st < length (k_data k))%nat as Hlt by lia.
  assert (a ∉ hid E) as Hh.
  { intros Hin. destruct (gd_hidden _ _ _ _ _ G _ Hin) as [x Hx]. congruence. }
  assert (Hold : forall i p, st !! i = Some SHole -> <[length st := make_pntr a]> (k_data k) !! i = Some p ->
    hole_slot E ks (Some (f, PcTy main st)) f i p).
  { intros i p Hi Hp. rewrite list_lookup_insert_ne in Hp by (apply lookup_lt_Some in Hi; lia).
    exists k, (PcTy main st). cbn. by rewrite decide_True. }
  assert (Hne : forall b j p, hole_slot E ks (Some (f, PcTy main st)) b j p -> p_lo p <> a).
  { intros b j p Hs E0. destruct (hole_slot_hole _ _ _ _ _ _ _ G Hs) as [Hp H]. destruct (H Hp) as (c & Hc & _). congruence. }
  apply (good_role (Some (f, PcTy main st)) _ _ _ _ _ k _ (PcTy main (st ++ [SHole]))); try done.
  - intros [w Hw]. by destruct (run_not_waiting _ _ _ _ _ w G Hf).
  - cbn. by rewrite length_insert.
  - intros b kb pt Hn. by apply cur_frame_ty.
  - cbn. by rewrite decide_True.
  - split; cbn [pt_stack pt_main sk_data k_data k_c]; [rewrite length_app; cbn; lia| |done].
    intros i ty Hi. split; [intros Hx; by destruct (run_not_exempt _ _ _ _ _ _ G Hf Hx)|]. right.
    apply lookup_snoc_Some in Hi as [[Hi1 Hi]|[-> <-]].
    + destruct (cur_slot _ _ _ _ _ _ _ _ _ G' Hf Hk Hi) as (p & Hp & Hok). exists p.
      rewrite list_lookup_insert_ne by lia. done.
    + exists (make_pntr a). rewrite list_lookup_insert_eq by done. split; [done|]. split; [done|].
      intros _. eexists. unfold h'. cbn [p_lo make_pntr]. rewrite lookup_insert_eq. done.
  - cbn. intros i j p p' Hi Hj Hp Hp' E0. apply lookup_snoc_Some in Hi as [[Hi1 Hi]|[-> _]], Hj as [[Hj1 Hj]|[-> _]]; [|..|done].
    + by destruct (gd_holes _ _ _ _ _ G _ _ _ _ _ _ (Hold _ _ Hi Hp) (Hold _ _ Hj Hp') E0).
    + rewrite list_lookup_insert_eq in Hp' by done. injection Hp' as <-. by destruct (Hne _ _ _ (Hold _ _ Hi Hp)).
    + rewrite list_lookup_insert_eq in Hp by done. injection Hp as <-. by destruct (Hne _ _ _ (Hold _ _ Hj Hp')).
  - cbn. intros i p Hi Hp. apply lookup_snoc_Some in Hi as [[Hi1 Hi]|[-> _]].
    + left. exists i, p. split; [by apply Hold | done].
    + right. rewrite list_lookup_insert_eq in Hp by done. injection Hp as <-. intros b j p0 Hs. by eapply Hne.
Qed.

(** ** Starting frames *)

(** A frame changes state but keeps living. *)
Lemma good_state cur h ks q q' f k st :
  good E cur h ks q -> busy E ks f k -> live st = true -> q_wait q' = q_wait q ->
  states_ok E (<[f := sk_state st k]> ks) q' -> good E cur h (<[f := sk_state st k]> ks) q'.
Proof.
  intros G Hb Hst Hq Hstates. assert (Hk := proj1 Hb). assert (C := good_busy _ _ _ _ _ _ G Hb).
  assert (A : alike k (sk_state st k)) by (split_and!; [cbn; by rewrite Hst, (proj2 (proj2 Hb)) | done | done]).
  assert (forall a i, exempt E ks a i <-> exempt E (<[f := sk_state st k]> ks) a i) as Hx.
  { intros a i. symmetry. by eapply exempt_role. }
  assert (forall a x, busy E (<[f := sk_state st k]> ks) a x -> exists x', busy E ks a x' /\ k_instr x' = k_instr x /\ k_data x' = k_data x) as Hold.
  { intros a x Ha. destruct (decide (a = f)) as [->|Hn]; [|apply busy_ne in Ha; eauto]. apply busy_eq in Ha as (-> & _). eauto. }
  assert (forall a x x' pt, k_instr x' = k_instr x -> frame_ty E cur a x pt -> frame_ty E cur a x' pt) as Hty.
  { intros a x x' pt Ei. destruct cur as [[g ct]|]; cbn; rewrite Ei; done. }
  split; try (by apply G); [done|..].
  - intros a o Ha. assert (Ho := gd_heap _ _ _ _ _ G _ _ Ha). eapply object_ok_le; [reflexivity| |exact Ho].
    intros c -> Hc. eapply frame_cell_role; [done | done|]. by apply (ce_frame _ _ _ _ _ Ho).
  - intros a x Ha Hs. rewrite Hq. destruct (decide (a = f)) as [->|Hn].
    + rewrite lookup_insert_eq in Ha. injection Ha as <-. destruct C as [C1 C2 C3 C4 C5]. destruct Hb as (_ & _ & Hl).
      split; cbn; try done; [by rewrite Hst | intros _; by apply C4 |]. intros _. destruct (C5 Hl) as (pt & Hpt & [T1 T2 T3]).
      exists pt. split; [by eapply Hty|]. split; [done| |done]. eapply slots_ok_mono; [reflexivity | apply Hx | done | done].
    + rewrite lookup_insert_ne in Ha by done. eapply core_ok_mono; [reflexivity| |apply Hx|done|done|done|auto|by eapply gd_cores].
      destruct (live (k_state x)) eqn:El; [left | by right]. done.
  - intros a b i j p p' (x & pt & H1 & H2 & H3 & H4) (x' & pt' & H1' & H2' & H3' & H4').
    destruct (Hold _ _ H1) as (y & Hy & Ei & Ed). destruct (Hold _ _ H1') as (y' & Hy' & Ei' & Ed').
    apply (gd_holes _ _ _ _ _ G); [exists y, pt | exists y', pt']; (split_and!; [done | by eapply Hty | done | congruence]).
Qed.

(** The states after one frame has moved from queue to queue. *)
Lemma states_start ks q w k :
  states_ok E ks q -> busy E ks w k -> not_started (k_state k) = true ->
  forall sl, (forall a, a ∈ sl <-> a ∈ q_spark q /\ a <> w) ->
  states_ok E (<[w := sk_state STATE_ACTIVE k]> ks) (q_set_run (w :: q_run q) (q_set_spark sl q)).
Proof.
  intros [H1 H2 H3 H4 H5 H6] (Hk & Hs & Hl) Hn sl Hsl.
  split; cbn [q_set_run q_set_spark q_run q_wait q_free q_spark].
  - intros a [->|Ha]%elem_of_cons; [eexists; by rewrite lookup_insert_eq|].
    destruct (decide (a = w)) as [->|Hne]; [eexists; by rewrite lookup_insert_eq|]. rewrite lookup_insert_ne by done. by apply H1.
  - intros v a Ha. destruct (H2 v a Ha) as (Hr & x & Hx & Hst & Hwk). assert (a <> w) as Hne.
    { intros ->. rewrite Hk in Hx. injection Hx as <-. by rewrite Hst in Hn. }
    split; [by apply not_elem_of_cons|]. exists x. by rewrite lookup_insert_ne.
  - intros a x Ha Hst. destruct (decide (a = w)) as [->|Hne]; [left; left|]. rewrite lookup_insert_ne in Ha by done.
    destruct (H3 _ _ Ha Hst) as [?|?]; [left; by right | by right].
  - intros a. rewrite Hsl, H4. destruct (decide (a = w)) as [->|Hne].
    + rewrite lookup_insert_eq. split; [tauto|]. intros (x & [= <-] & Hst). done.
    + rewrite lookup_insert_ne by done. tauto.
  - intros a. rewrite H5. destruct (decide (a = w)) as [->|Hne]; [|by rewrite lookup_insert_ne].
    rewrite lookup_insert_eq, Hk. split; [|by intros (x & [= <-] & ?)]. intros (x & [= <-] & Hst). by rewrite Hst in Hn.
  - rewrite lookup_insert_ne by done. done.
Qed.

Lemma good_start cur h ks q w k sl :
  good E cur h ks q -> busy E ks w k -> not_started (k_state k) = true -> (forall a, a ∈ sl <-> a ∈ q_spark q /\ a <> w) ->
  good E cur h (<[w := sk_state STATE_ACTIVE k]> ks) (q_set_run (w :: q_run q) (q_set_spark sl q)).
Proof. intros G Hb Hn Hsl. eapply good_state; try done. eapply states_start; try done. apply G. Qed.

Lemma good_spark cur h ks q w k :
  good E cur h ks q -> busy E ks w k -> k_state k = STATE_NEW ->
  good E cur h (<[w := sk_state STATE_SPARKED k]> ks) (q_set_spark (w :: q_spark q) q).
Proof.
  intros G Hb Hn. eapply good_state; try done. destruct (gd_states _ _ _ _ _ G) as [H1 H2 H3 H4 H5 H6].
  destruct Hb as (Hk & Hs & Hl).
  assert (forall a x, ks !! a = Some x -> k_state x <> STATE_NEW -> a <> w) as Hne by (intros a x Hx Hst ->; congruence).
  split; cbn [q_set_spark q_run q_wait q_free q_spark].
  - intros a Ha. destruct (H1 a Ha) as (x & Hx & Hst). exists x. rewrite lookup_insert_ne; [done|]. symmetry. eapply Hne; [done|congruence].
  - intros v a Ha. destruct (H2 v a Ha) as (Hr & x & Hx & Hst & Hwk). split; [done|]. exists x.
    rewrite lookup_insert_ne; [done|]. symmetry. eapply Hne; [done|congruence].
  - intros a x Ha Hst. destruct (decide (a = w)) as [->|Hnw]; [rewrite lookup_insert_eq in Ha; by injection Ha as <-|].
    rewrite lookup_insert_ne in Ha by done. by eapply H3.
  - intros a. rewrite elem_of_cons, H4. destruct (decide (a = w)) as [->|Hnw].
    + rewrite lookup_insert_eq. split; [eauto | by left].
    + rewrite lookup_insert_ne by done. tauto.
  - intros a. rewrite H5. destruct (decide (a = w)) as [->|Hnw]; [|by rewrite lookup_insert_ne].
    rewrite lookup_insert_eq, Hk. split; [|by intros (x & [= <-] & ?)]. intros (x & [= <-] & Hst). congruence.
  - by rewrite lookup_insert_ne.
Qed.
End world.
