(* ===== verification/FrameFacts.v ===== *)
(** * Frames come and go in a good machine

    New frames with a cell of their own or with a caller to return to, frames
    that block, and frames that deliver their result and are freed. *)

From S2P Require Import Prelude Builtins Source Bytecode Compile Pointer Chain Memory Interpreter Wp SchedFacts Typing MachineOk HeapFacts WorldFacts.
#[local] Open Scope Z_scope.

Section frames.
Context (E : env).
Implicit Types (h : gmap Z object) (ks : gmap Z core) (q : queues) (cur : option (Z * pc_ty)) (k : core) (c : cell).

(** ** Free frames *)

Lemma free_idle cur h ks q a :
  good E cur h ks q -> a ∈ q_free q ->
  exists k, ks !! a = Some k /\ k_state k = STATE_UNALLOCATED /\ q_wait q a = [] /\ a <> e_sentinel E /\
    k_fetchers k = [] /\ Z.of_nat (length (k_data k)) = e_maxstack E.
Proof.
  intros G Ha. apply (so_free _ _ _ (gd_states _ _ _ _ _ G)) in Ha as (k & Hk & Hst). exists k.
  assert (a <> e_sentinel E) as Hs.
  { intros ->. destruct (so_sentinel _ _ _ (gd_states _ _ _ _ _ G)) as (k' & Hk' & Hst' & _). congruence. }
  destruct (gd_cores _ _ _ _ _ G _ _ Hk Hs) as [C1 C2 C3 C4 C5]. destruct C3 as [_ Hw]; [by rewrite Hst|]. done.
Qed.

(** Idle frames are added to an empty free list. *)
Lemma good_idle cur h ks new q l :
  good E cur h ks q -> q_free q = [] -> (forall a, a ∈ l <-> is_Some (new !! a)) ->
  (forall a k, new !! a = Some k -> ks !! a = None /\ q_wait q a = [] /\ k_state k = STATE_UNALLOCATED /\
     k_fetchers k = [] /\ Z.of_nat (length (k_data k)) = e_maxstack E) ->
  good E cur h (new ∪ ks) (q_set_free l q).
Proof.
  intros G Hf Hl Hnew. assert (Hold : forall a k, ks !! a = Some k -> (new ∪ ks) !! a = Some k).
  { intros a k Hk. apply lookup_union_Some_raw. right. split; [|done].
    destruct (new !! a) as [x|] eqn:Ex; [|done]. destruct (Hnew _ _ Ex). congruence. }
  assert (Hinv : forall a k, (new ∪ ks) !! a = Some k -> new !! a = Some k \/ ks !! a = Some k).
  { intros a k [?|[_ ?]]%lookup_union_Some_raw; auto. }
  assert (Hlive : forall a k, live (k_state k) = true -> (new ∪ ks) !! a = Some k <-> ks !! a = Some k).
  { intros a k Hk. split; [|apply Hold]. intros [Hn|?]%Hinv; [|done]. destruct (Hnew _ _ Hn) as (_ & _ & Hst & _). by rewrite Hst in Hk. }
  assert (Hb : forall a k, busy E (new ∪ ks) a k <-> busy E ks a k).
  { intros a k. split; intros (H1 & H2 & H3); (split_and!; [|done|done]); by apply (Hlive _ _ H3). }
  assert (Hx : forall a i, exempt E ks a i <-> exempt E (new ∪ ks) a i).
  { intros a i. split; intros (b & k & Hbk & Hr); exists b, k; (split; [|done]); by apply Hb. }
  assert (forall a k, (new ∪ ks) !! a = Some k -> k_state k <> STATE_UNALLOCATED -> ks !! a = Some k) as Hst.
  { intros a k [Hn|?]%Hinv Hk; [|done]. by destruct (Hnew _ _ Hn) as (_ & _ & Hst & _). }
  destruct (gd_states _ _ _ _ _ G) as [H1 H2 H3 H4 H5 H6].
  split; try (by apply G); [split|..]; cbn [q_set_free q_run q_wait q_spark q_free].
  - intros a Ha. destruct (H1 a Ha) as (k & Hk & ?). exists k. auto.
  - intros w a Ha. destruct (H2 w a Ha) as (? & k & Hk & ?). split; [done|]. exists k. auto.
  - intros a k Ha E0. apply (H3 a k); [|done]. apply Hst; [done | congruence].
  - intros a. rewrite H4. split; intros (k & Hk & E0); exists k; (split; [|done]); [by apply Hold|]. apply Hst; [done | congruence].
  - intros a. rewrite Hl. split.
    + intros [k Hk]. exists k. split; [|by apply (Hnew a)]. by apply lookup_union_Some_l.
    + intros (k & [Hn|Hk]%Hinv & E0); [by exists k|]. assert (a ∈ q_free q) as Ha by (apply H5; eauto). rewrite Hf in Ha. by apply elem_of_nil in Ha.
  - destruct H6 as (k & Hk & ?). exists k. auto.
  - intros a o Ha. assert (Ho := gd_heap _ _ _ _ _ G _ _ Ha). eapply object_ok_le; [reflexivity| |exact Ho].
    intros c -> Hc. destruct (ce_frame _ _ _ _ _ Ho Hc) as (g & k & ? & Hk & ?). exists g, k. auto.
  - intros a k [Hn|Hk]%Hinv Hs.
    + destruct (Hnew _ _ Hn) as (_ & Hw & E0 & Hfe & Hd). split; try done; by rewrite E0.
    + eapply core_ok_mono; [reflexivity| |apply Hx|done|done|done|auto|by eapply gd_cores].
      destruct (live (k_state k)) eqn:El; [left | by right]. done.
  - intros a b i j p p' (k & pt & Hk & Hr) (k' & pt' & Hk' & Hr'). apply Hb in Hk, Hk'.
    apply (gd_holes _ _ _ _ _ G); [by exists k, pt | by exists k', pt'].
Qed.

(** ** New frames *)

(** The stack of a frame that is about to run a function from its start. *)
Definition started h k : Prop :=
  exists pc pt, k_instr k = Some pc /\ zlookup (e_typing E) pc = Some (Some pt) /\ pt_main pt = false /\
    Z.of_nat (length (pt_stack pt)) <= e_maxstack E /\
    forall i ty, pt_stack pt !! i = Some ty -> ty = SAny /\ exists p, k_data k !! i = Some p /\ visible E h p.

Lemma started_typed h h' ks wl a k cur :
  started h k -> heap_le h h' -> (forall i, ~ exempt E ks a i) ->
  (match cur with Some (f, _) => a <> f | None => True end) ->
  exists pt, frame_ty E cur a k pt /\ typed E h' ks wl a k pt /\ forall i, pt_stack pt !! i <> Some SHole.
Proof.
  intros (pc & pt & Hpc & Hpt & Hm & Hlen & Hs) Hle Hx Hcur. exists pt. split_and!.
  - destruct cur as [[f ct]|]; cbn; [rewrite decide_False by done|]; eauto.
  - split; [done| |congruence]. intros i ty Hi. destruct (Hs i ty Hi) as (-> & p & Hp & Hv). split; [done|]. right.
    exists p. split; [done|]. cbn. by eapply visible_le.
  - intros i Hi. by destruct (Hs _ _ Hi).
Qed.

(** Frame [a] leaves the free list as NEW. *)
Lemma states_new ks q a l k :
  states_ok E ks q -> q_free q = a :: l -> a ∉ l -> k_state k = STATE_NEW -> a <> e_sentinel E ->
  states_ok E (<[a := k]> ks) (q_set_free l q).
Proof.
  intros [H1 H2 H3 H4 H5 H6] Hf Hal Hk Hs. destruct (proj1 (H5 a)) as (x & Hx & Hst); [rewrite Hf; left|].
  assert (forall b y, ks !! b = Some y -> k_state y <> STATE_UNALLOCATED -> a <> b) as Hne by (intros b y Hy Hyst ->; congruence).
  split; cbn [q_set_free q_run q_wait q_free q_spark].
  - intros b Hb. destruct (H1 b Hb) as (y & Hy & Hyst). exists y. rewrite lookup_insert_ne; [done|]. eapply Hne; [done|congruence].
  - intros v b Hb. destruct (H2 v b Hb) as (Hr & y & Hy & Hyst & ?). split; [done|]. exists y. rewrite lookup_insert_ne; [done|]. eapply Hne; [done|congruence].
  - intros b y Hb Hyst. apply lookup_insert_Some in Hb as [[<- <-]|[_ Hb]]; [congruence|]. by eapply H3.
  - intros b. rewrite H4. destruct (decide (b = a)) as [->|Hn]; [|by rewrite lookup_insert_ne].
    rewrite lookup_insert_eq, Hx. split; intros (y & [= <-] & ?); congruence.
  - intros b. destruct (decide (b = a)) as [->|Hn].
    + rewrite lookup_insert_eq. split; [done|]. intros (y & [= <-] & ?). congruence.
    + rewrite lookup_insert_ne by done. rewrite <- H5, Hf, elem_of_cons. tauto.
  - by rewrite lookup_insert_ne.
Qed.

(** What a new frame is to the others: the slot it returns to, if any, is
    exempt from now on. *)
Lemma busy_new ks a x k b y :
  ks !! a = Some x -> live (k_state x) = false -> b <> a -> busy E (<[a := k]> ks) b y <-> busy E ks b y.
Proof. intros. by apply busy_ne. Qed.

Lemma busy_not_idle ks a x b y : ks !! a = Some x -> k_state x = STATE_UNALLOCATED -> busy E ks b y -> b <> a.
Proof. intros Hx Hst (Hy & _ & Hl) ->. rewrite Hx in Hy. injection Hy as <-. by rewrite Hst in Hl. Qed.

Lemma exempt_new ks a x k b i :
  ks !! a = Some x -> k_state x = STATE_UNALLOCATED -> a <> e_sentinel E -> live (k_state k) = true ->
  exempt E (<[a := k]> ks) b i <-> exempt E ks b i \/ k_retp k = Some (b, i).
Proof.
  intros Hx Hst Hs Hl. split.
  - intros (c & y & Hc & Hr). destruct (decide (c = a)) as [->|Hn].
    + apply busy_eq in Hc as (-> & _). by right.
    + apply busy_ne in Hc; [|done]. left. by exists c, y.
  - intros [(c & y & Hc & Hr)|Hr].
    + exists c, y. split; [|done]. apply busy_ne; [|done]. by eapply busy_not_idle.
    + exists a, k. rewrite busy_eq. done.
Qed.

Lemma frame_cell_new ks a x k b p :
  ks !! a = Some x -> k_state x = STATE_UNALLOCATED -> frame_cell ks b p -> frame_cell (<[a := k]> ks) b p.
Proof.
  intros Hx Hst (g & y & Hp & Hg & Hc & Hl). exists g, y. rewrite lookup_insert_ne; [done|].
  intros <-. rewrite Hx in Hg. injection Hg as <-. by rewrite Hst in Hl.
Qed.

(** Nobody returns to a frame that is not waiting. *)
Lemma idle_not_exempt cur h ks q a x i :
  good E cur h ks q -> ks !! a = Some x -> k_state x <> STATE_ACTIVE -> ~ exempt E ks a i.
Proof.
  intros G Hx Hst (b & k & Hb & Hr).
  destruct (ko_return _ _ _ _ _ _ _ (good_busy _ _ _ _ _ _ _ G Hb) (proj2 (proj2 Hb))) as [(_ & Hn & _)|(_ & g & j & Hr' & Hg & _)]; [congruence|].
  rewrite Hr in Hr'. injection Hr' as <- _.
  destruct (so_wait _ _ _ (gd_states _ _ _ _ _ G) _ _ Hg) as (_ & y & Hy & Hys & _). congruence.
Qed.

(** A new frame in a cell of its own. *)
Lemma good_frame cur h ks q a l k c :
  good E cur h ks q -> q_free q = a :: l -> (a ∉ l) -> h !! k_c k = None -> 8 <= k_c k ->
  c_type c = CELL_FRAME -> c_field1 c = make_pntr a ->
  k_state k = STATE_NEW -> k_retp k = None -> k_fetchers k = [] -> Z.of_nat (length (k_data k)) = e_maxstack E ->
  started h k -> (match cur with Some (f, _) => a <> f | None => True end) ->
  good E cur (<[k_c k := OCell c]> h) (<[a := k]> ks) (q_set_free l q).
Proof.
  intros G Hf Hal Hh H8 Hc1 Hc2 K1 K3 K4 K5 Hst Hcur. set (h' := <[k_c k := OCell c]> h).
  destruct (free_idle _ _ _ _ a G) as (x & Hx & Hxst & Hxw & Hs & _); [rewrite Hf; left|].
  assert (Hl : live (k_state k) = true) by (by rewrite K1).
  assert (C : heap_change h ks (k_c k) (OCell c)).
  { eapply fresh_change; [done | done | done|]. intros c0 [= <-]. by rewrite Hc1. }
  destruct (heap_change_world _ _ _ _ _ _ _ G C) as (A1 & A2 & A3 & A4 & A5 & A6). fold h' in A1, A2, A3, A4, A5, A6.
  assert (Hex : forall b i, exempt E ks b i <-> exempt E (<[a := k]> ks) b i).
  { intros b i. rewrite (exempt_new _ _ x) by done. rewrite K3. split; [by left | by intros [?|?]]. }
  assert (Hna : forall i, ~ exempt E (<[a := k]> ks) a i).
  { intros i. rewrite <- Hex. eapply idle_not_exempt; [done | done | congruence]. }
  destruct (started_typed _ h' _ (q_wait q) a _ cur Hst (hc_le _ _ _ _ C) Hna Hcur) as (pt & Hpt & HT & Hnh).
  split; try done; [by eapply states_new; [apply G|..] | |..].
  - intros b o Hb. apply lookup_insert_Some in Hb as [[<- <-]|[_ Hb]].
    + split; rewrite Hc1; try done. intros _. exists a, k. rewrite lookup_insert_eq, Hc2. done.
    + assert (Ho := gd_heap _ _ _ _ _ G _ _ Hb). eapply object_ok_le; [apply C| |exact Ho].
      intros c0 -> Hc0. eapply frame_cell_new; [done | done|]. by apply (ce_frame _ _ _ _ _ Ho).
  - intros b y Hb Hbs. cbn [q_set_free q_wait]. destruct (decide (b = a)) as [->|Hn].
    + rewrite lookup_insert_eq in Hb. injection Hb as <-. split; [done | done | by rewrite Hl| |by exists pt].
      intros _. left. split_and!; [lia | done|]. exists c. unfold h'. rewrite lookup_insert_eq, Hc2. done.
    + rewrite lookup_insert_ne in Hb by done. eapply core_ok_mono; [apply C| |apply Hex|done| |..|by eapply gd_cores].
      * destruct (live (k_state y)) eqn:El; [left | by right]. done.
      * intros i p _. by apply hole_fresh.
      * intros _. apply return_ok_mono; [|done]. intros c0 Hc0 Hty Hfr. exists c0. unfold h'. rewrite lookup_insert_ne; [done|]. congruence.
      * auto.
  - assert (forall b i p, hole_slot E (<[a := k]> ks) cur b i p -> hole_slot E ks cur b i p) as Hold.
    { intros b i p (y & pt' & Hb & Hpt' & Hi & Hp). destruct (decide (b = a)) as [->|Hn].
      - apply busy_eq in Hb as (-> & _). rewrite (frame_ty_det _ _ _ _ _ _ Hpt' Hpt) in Hi. by destruct (Hnh i).
      - apply busy_ne in Hb; [|done]. by exists y, pt'. }
    intros b b' i j p p' Hb Hb'. apply Hold in Hb, Hb'. by apply (gd_holes _ _ _ _ _ G).
Qed.

(** ** Waiting *)

(** The frame at work waits for frame [w]. *)
Lemma states_block ks q f r w k :
  states_ok E ks q -> q_run q = f :: r -> (f ∉ r) -> ks !! f = Some k -> k_state k = STATE_ACTIVE -> wakeable_at E k ->
  states_ok E ks (q_set_run r (q_set_wait (set_wait (q_wait q) w (f :: q_wait q w)) q)).
Proof.
  intros [H1 H2 H3 H4 H5 H6] Hq Hfr Hk Hst Hwk. split; cbn [q_set_run q_set_wait q_run q_wait q_free q_spark]; try done.
  - intros a Ha. apply H1. rewrite Hq. by right.
  - intros v a Ha. assert (a = f \/ a ∈ q_wait q v) as [->|Hw].
    { unfold set_wait in Ha. case_decide; subst; [|by right]. apply elem_of_cons in Ha. tauto. }
    + split; [done|]. by exists k.
    + destruct (H2 v a Hw) as [Hr Hx]. split; [|done]. rewrite Hq, not_elem_of_cons in Hr. tauto.
  - intros a x Ha Hs. destruct (H3 a x Ha Hs) as [Hr|[v Hv]].
    + rewrite Hq in Hr. apply elem_of_cons in Hr as [->|Hr]; [|by left]. right. exists w. rewrite set_wait_eq. left.
    + right. exists v. unfold set_wait. case_decide; subst; [by right | done].
Qed.

Lemma good_block h ks q f r k w kw :
  good E None h ks q -> q_run q = f :: r -> (f ∉ r) -> ks !! f = Some k -> k_state k = STATE_ACTIVE -> wakeable_at E k ->
  busy E ks w kw -> k_c kw <> e_mcell E ->
  good E None h ks (q_set_run r (q_set_wait (set_wait (q_wait q) w (f :: q_wait q w)) q)).
Proof.
  intros G Hq Hfr Hk Hst Hwk Hw Hc. split; try (by apply G).
  - eapply states_block; [apply G | done..].
  - intros a x Ha Hs. cbn [q_set_run q_set_wait q_wait].
    eapply core_ok_mono; [reflexivity| |done|done|done| | |by eapply gd_cores].
    + destruct (live (k_state x)) eqn:El; [left | by right]. done.
    + intros _. apply return_ok_mono; [eauto|]. intros g Hg _. unfold set_wait. case_decide; subst; [by right | done].
    + intros Hn. unfold set_wait. case_decide; subst; [|by left]. right. destruct Hw as (Hw & _ & Hl). rewrite Ha in Hw. by injection Hw as <-.
Qed.

(** ** Calls *)

(** What a frame that waits for the result in slot [i] knows of its stack. *)
Definition calling h (main : bool) (st : stack_ty) (i : Z) (kf kf' : core) : Prop :=
  exists pc (pt : pc_ty), k_instr kf' = Some pc /\ zlookup (e_typing E) pc = Some (Some pt) /\
    (pt_main pt = true -> main = true) /\ Z.of_nat (length (pt_stack pt)) <= e_maxstack E /\
    forall j ty, pt_stack pt !! j = Some ty ->
      (Z.of_nat j = i -> ty = SAny) /\
    (Z.of_nat j = i \/ exists p, k_data kf' !! j = Some p /\ slot_ok E h ty p) /\
    (ty = SHole -> st !! j = Some SHole /\ k_data kf !! j = k_data kf' !! j).

Lemma call_caller f main st h ks ks' q wa kf kf' i a :
  good E (Some (f, PcTy main st)) h ks q -> f ∈ q_run q -> busy E ks f kf -> same_role kf kf' ->
  length (k_data kf') = length (k_data kf) -> calling h main st i kf kf' -> a <> f ->
  (forall j, exempt E ks' f j <-> j = i) -> core_ok E h ks' (set_wait (q_wait q) a wa) None f kf'.
Proof.
  intros G Hf Hb (R1 & R2 & R3 & R4) Hlen (pc & pt & Hpc & Hpt & Hm & Hl & Hs) Ha Hx.
  destruct (good_busy _ _ _ _ _ _ _ G Hb) as [C1 C2 C3 C4 C5]. split; rewrite ?R1, ?R4; try done.
  - by rewrite Hlen.
  - rewrite (proj2 (proj2 Hb)). done.
  - intros Hl0. eapply return_ok_mono; [eauto| |].
    + intros g Hg _. rewrite set_wait_ne by done. exact Hg.
    + destruct (C4 Hl0) as [D|D]; [left | right]; by rewrite R2, R3.
  - intros _. exists pt. split; [by exists pc|]. split; [done| |].
    + intros j ty Hj. rewrite Hx. destruct (Hs _ _ Hj) as (H1 & H2 & _). done.
    + intros Hpm. rewrite R2, set_wait_ne by done. apply (cur_data _ _ _ _ _ _ _ _ G Hf (proj1 Hb)). auto.
Qed.

Lemma call_holes f main st h ks q a k kf kf' i :
  good E (Some (f, PcTy main st)) h ks q -> busy E ks f kf -> started h k -> calling h main st i kf kf' ->
  holes_apart E (<[a := k]> (<[f := kf']> ks)) None.
Proof.
  intros G Hb Hst Hcal.
  assert (forall b j p, hole_slot E (<[a := k]> (<[f := kf']> ks)) None b j p ->
    hole_slot E ks (Some (f, PcTy main st)) b j p) as Hold.
  { intros b j p (y & pt & Hb' & Hpt & Hj & Hp). destruct (decide (b = a)) as [->|Hna].
    - apply busy_eq in Hb' as (-> & _). destruct Hst as (pc & pt' & Hpc & Hpt' & _ & _ & Hslots).
      destruct Hpt as (pc' & Hpc' & Hpt). assert (pt = pt') as -> by congruence. by destruct (Hslots _ _ Hj).
    - apply busy_ne in Hb'; [|done]. destruct (decide (b = f)) as [->|Hnf].
      + apply busy_eq in Hb' as (-> & _). destruct Hcal as (pc & pt' & Hpc & Hpt' & _ & _ & Hslots).
        destruct Hpt as (pc' & Hpc' & Hpt). assert (pt = pt') as -> by congruence.
        destruct (Hslots _ _ Hj) as (_ & _ & H3). destruct (H3 eq_refl) as [H4 H5].
        exists kf, (PcTy main st). cbn. rewrite decide_True by done. split_and!; [done | done | done | congruence].
      + apply busy_ne in Hb'; [|done]. exists y, pt. split_and!; [done | by apply (frame_ty_ne _ f (PcTy main st)) | done | done]. }
  intros b b' j j' p p' H1 H2. apply Hold in H1, H2. by apply (gd_holes _ _ _ _ _ G).
Qed.

(** Who is owed a result after the call. *)
Lemma call_exempt f main st h ks q a x k kf kf' i :
  good E (Some (f, PcTy main st)) h ks q -> f ∈ q_run q -> ks !! f = Some kf -> same_role kf kf' ->
  ks !! a = Some x -> k_state x = STATE_UNALLOCATED -> a <> e_sentinel E -> a <> f ->
  live (k_state k) = true -> k_retp k = Some (f, i) ->
  let ks2 := <[a := k]> (<[f := kf']> ks) in
  (forall b j, exempt E ks2 b j <-> exempt E ks b j \/ (b, j) = (f, i)) /\
  (forall j, exempt E ks2 f j <-> j = i) /\ (forall j, ~ exempt E ks2 a j).
Proof.
  intros G Hfq Hkf R Hx Hxst Hs Haf Hl K3 ks2. assert (A := same_alike _ _ R).
  assert (Hx1 : <[f := kf']> ks !! a = Some x) by (by rewrite lookup_insert_ne).
  assert (Hex : forall b j, exempt E ks2 b j <-> exempt E ks b j \/ (b, j) = (f, i)).
  { intros b j. unfold ks2. rewrite (exempt_new _ _ x), K3 by done. rewrite exempt_role by done.
    split; (intros [?|[=]]; [by left | right; congruence]). }
  split_and!; [exact Hex|..].
  - intros j. rewrite Hex. split; [|intros ->; by right]. intros [He|[=]]; [by destruct (run_not_exempt _ _ _ _ _ _ _ G Hfq He) | done].
  - intros j. rewrite Hex. intros [He|[=]]; [|done]. eapply idle_not_exempt; [exact G | exact Hx | by rewrite Hxst | done].
Qed.

(** A new frame that returns to slot [i] of [f], which waits for it. *)
Lemma good_call f main st h ks q r a l k kf kf' i :
  good E (Some (f, PcTy main st)) h ks q -> q_run q = f :: r -> (f ∉ r) -> ks !! f = Some kf ->
  same_role kf kf' -> length (k_data kf') = length (k_data kf) -> wakeable_at E kf' -> calling h main st i kf kf' -> 0 <= i < e_maxstack E ->
  q_free q = a :: l -> (a ∉ l) -> k_state k = STATE_NEW -> k_c k = 0 -> k_retp k = Some (f, i) -> k_fetchers k = [] ->
  Z.of_nat (length (k_data k)) = e_maxstack E -> started h k ->
  good E None h (<[a := k]> (<[f := kf']> ks)) (q_set_run r (q_set_wait (set_wait (q_wait q) a [f]) (q_set_free l q))).
Proof.
  intros G Hq Hfr Hkf R Hlen Hwk Hcal Hi Hf Hal K1 K2 K3 K4 K5 Hst.
  assert (f ∈ q_run q) as Hfq by (rewrite Hq; left).
  destruct (free_idle _ _ _ _ a G) as (x & Hx & Hxst & Hxw & Hs & _); [rewrite Hf; left|].
  destruct (run_busy _ _ _ _ _ _ G Hfq) as (k0 & Hb & Hact).
  assert (k0 = kf) as -> by (destruct Hb as (Hb & _); rewrite Hkf in Hb; by injection Hb).
  assert (a <> f) as Haf by (intros ->; congruence).
  assert (A := same_alike _ _ R). set (ks1 := <[f := kf']> ks). set (ks2 := <[a := k]> ks1).
  assert (Hx1 : ks1 !! a = Some x) by (unfold ks1; by rewrite lookup_insert_ne).
  assert (Hl : live (k_state k) = true) by (by rewrite K1).
  destruct (call_exempt _ _ _ _ _ _ _ _ k _ _ _ G Hfq Hkf R Hx Hxst Hs Haf Hl K3) as (Hex & Hfx & Hax).
  fold ks1 in Hex, Hfx, Hax. fold ks2 in Hex, Hfx, Hax.
  split; try (by apply G).
  - assert (S1 : states_ok E ks1 q).
    { eapply states_role; [apply G | done | done|]. done. }
    assert (S2 := states_new _ _ _ _ _ S1 Hf Hal K1 Hs). fold ks2 in S2.
    rewrite <- Hxw. apply (states_block _ (q_set_free l q) f r a kf'); try done.
    + unfold ks2, ks1. rewrite lookup_insert_ne, lookup_insert_eq by done. done.
    + destruct R as (R1 & _). congruence.
  - intros b o Hb'. assert (Ho := gd_heap _ _ _ _ _ G _ _ Hb'). eapply object_ok_le; [reflexivity| |exact Ho].
    intros c -> Hc. eapply frame_cell_new; [done | done|]. eapply frame_cell_role; [done | done|]. by apply (ce_frame _ _ _ _ _ Ho).
  - cbn [q_set_run q_set_wait q_set_free q_wait]. intros b y Hb' Hbs. unfold ks2 in Hb'. destruct (decide (b = a)) as [->|Hna].
    + rewrite lookup_insert_eq in Hb'. injection Hb' as <-.
      destruct (started_typed _ h ks2 (set_wait (q_wait q) a [f]) a _ None Hst ltac:(reflexivity) Hax I) as (pt & Hpt & HT & _).
      split; [done | done | by rewrite Hl| |by exists pt].
      intros _. right. split; [done|]. exists f, i. split_and!; [done | | lia | lia]. rewrite set_wait_eq. left.
    + rewrite lookup_insert_ne in Hb' by done. unfold ks1 in Hb'. destruct (decide (b = f)) as [->|Hnf].
      * rewrite lookup_insert_eq in Hb'. injection Hb' as <-. by eapply call_caller.
      * rewrite lookup_insert_ne in Hb' by done.
        eapply core_ok_mono; [reflexivity| | | |done| | |by eapply gd_cores].
        -- destruct (live (k_state y)) eqn:El; [left | by right]. done.
        -- intros j. rewrite Hex. split; [by left | by intros [?|[=]]].
        -- intros pt Hpt. by rewrite frame_ty_ne in Hpt.
        -- intros _. apply return_ok_mono; [eauto|]. intros g Hg _. by rewrite set_wait_ne.
        -- intros Hn. rewrite set_wait_ne by done. by left.
  - by eapply call_holes.
Qed.

(** ** Delivering a result *)

(** The queues after [f] has finished and its waiters have been woken up. *)
Definition finished (f : Z) (r : list Z) (q : queues) : queues :=
  Queues (resumed (q_wait q f) r) (set_wait (q_wait q) f []) (f :: q_free q) (q_spark q).

Definition idle_core k : Prop :=
  k_state k = STATE_UNALLOCATED /\ k_fetchers k = [] /\ Z.of_nat (length (k_data k)) = e_maxstack E.

Lemma states_finish ks q f r k k' :
  states_ok E ks q -> q_run q = f :: r -> (f ∉ r) -> ks !! f = Some k -> k_state k = STATE_ACTIVE ->
  (forall v v' x, x ∈ q_wait q v -> x ∈ q_wait q v' -> v = v') -> k_state k' = STATE_UNALLOCATED ->
  states_ok E (<[f := k']> ks) (finished f r q).
Proof.
  intros [H1 H2 H3 H4 H5 H6] Hq Hfr Hk Hst Hdis Hk'.
  assert (forall a, a ∈ q_wait q f -> a <> f) as Hwf.
  { intros a Ha ->. destruct (H2 f f Ha) as [Hn _]. apply Hn. rewrite Hq. left. }
  assert (forall b y, ks !! b = Some y -> k_state y <> STATE_ACTIVE -> b <> f) as Hne by (intros b y Hy Hyst ->; congruence).
  split; cbn [finished q_run q_wait q_free q_spark].
  - intros a [Ha|Ha]%elem_resumed.
    + destruct (H2 f a Ha) as (_ & y & Hy & Hys & _). exists y. rewrite lookup_insert_ne by (symmetry; by apply Hwf). done.
    + destruct (H1 a) as (y & Hy & Hys); [rewrite Hq; by right|]. exists y. rewrite lookup_insert_ne; [done|]. by intros ->.
  - intros v a Ha. unfold set_wait in Ha. destruct (decide (v = f)) as [->|Hv]; [by apply elem_of_nil in Ha|].
    destruct (H2 v a Ha) as (Hr & y & Hy & Hys & Hyw). rewrite Hq, not_elem_of_cons in Hr. destruct Hr as [Haf Hr]. split.
    + rewrite elem_resumed. intros [Hw|?]; [|done]. apply Hv. by eapply Hdis.
    + exists y. by rewrite lookup_insert_ne.
  - intros a y Ha Hys. apply lookup_insert_Some in Ha as [[<- <-]|[Hn Ha]]; [congruence|].
    destruct (H3 a y Ha Hys) as [Hr|[v Hv]].
    + left. apply elem_resumed. rewrite Hq, elem_of_cons in Hr. destruct Hr as [->|?]; [done | by right].
    + destruct (decide (v = f)) as [->|Hvf]; [left; apply elem_resumed; by left|]. right. exists v. by rewrite set_wait_ne.
  - intros a. rewrite H4. split; intros (y & Hy & Hys).
    + exists y. rewrite lookup_insert_ne; [done|]. symmetry. eapply Hne; [done|congruence].
    + apply lookup_insert_Some in Hy as [[<- <-]|[Hn Hy]]; [congruence | eauto].
  - intros a. rewrite elem_of_cons, H5. split.
    + intros [->|(y & Hy & Hys)]; [exists k'; by rewrite lookup_insert_eq|]. exists y. rewrite lookup_insert_ne; [done|].
      symmetry. eapply Hne; [done|congruence].
    + intros (y & Hy & Hys). apply lookup_insert_Some in Hy as [[<- <-]|[Hn Hy]]; [by left | right; eauto].
  - destruct H6 as (y & Hy & Hys & Hc). exists y. rewrite lookup_insert_ne; [done|]. symmetry. eapply Hne; [done|congruence].
Qed.

(** The frames that stay. *)
Lemma core_ok_finish f pt h h' ks q k k' b y :
  good E (Some (f, pt)) h ks q -> busy E ks f k -> b <> f -> live (k_state k') = false ->
  heap_le h h' -> (forall p, is_hole_pntr E h p -> is_hole_pntr E h' p) ->
  (forall a c, a <> k_c k -> h !! a = Some (OCell c) -> h' !! a = Some (OCell c)) ->
  (forall g i, k_retp k = Some (g, i) -> exists kg p, ks !! g = Some kg /\ k_data kg !! Z.to_nat i = Some p /\ visible E h' p) ->
  ks !! b = Some y -> b <> e_sentinel E ->
  core_ok E h' (<[f := k']> ks) (set_wait (q_wait q) f []) None b y.
Proof.
  intros G Hb Hbf Hk' Hle Hh Hcell Hslot Hy Hbs. destruct (gd_cores _ _ _ _ _ G _ _ Hy Hbs) as [C1 C2 C3 C4 C5].
  assert (Hw : set_wait (q_wait q) f [] b = q_wait q b) by (by apply set_wait_ne).
  split; rewrite ?Hw; try done.
  - intros Hl. eapply return_ok_mono; [| |by apply C4].
    + intros c Hc Hty Hg. exists c. split; [|done]. apply Hcell; [|done]. intros E0.
      destruct (ko_return _ _ _ _ _ _ _ (good_busy _ _ _ _ _ _ _ G Hb) (proj2 (proj2 Hb))) as [(_ & _ & c' & Hc' & _ & Hg')|(E1 & _)].
      * rewrite <- E0, Hc in Hc'. injection Hc' as <-. rewrite Hg in Hg'. injection Hg' as ->. done.
      * assert (8 <= k_c y) by (eapply gd_addr; [exact G | eauto]). lia.
    + intros g Hg _. by rewrite Hw.
  - intros Hl. destruct (C5 Hl) as (pt' & Hpt' & [T1 T2 T3]). exists pt'. rewrite frame_ty_ne in Hpt' by done.
    split; [done|]. split; [done| |by rewrite Hw].
    intros i ty Hi. destruct (T2 i ty Hi) as [Ha Hp].
    assert (forall j, exempt E (<[f := k']> ks) b j -> exempt E ks b j) as Hx.
    { intros j (z & kz & Hz & Hr). destruct (decide (z = f)) as [->|Hn].
      - apply busy_eq in Hz as (-> & _ & Hz). congruence.
      - apply busy_ne in Hz; [|done]. by exists z, kz. }
    split; [by intros ?%Hx; apply Ha|]. destruct Hp as [He|(p & Hp & Hok)].
    + assert (ty = SAny) as -> by (by apply Ha). destruct He as (z & kz & Hz & Hr). destruct (decide (z = f)) as [->|Hn].
      * rewrite <- (busy_det _ _ _ _ _ Hb Hz) in Hr. destruct (Hslot _ _ Hr) as (kg & p & Hg & Hp & Hv).
        right. exists p. rewrite Hy in Hg. injection Hg as <-. by rewrite Nat2Z.id in Hp.
      * left. exists z, kz. by rewrite busy_ne.
    + right. exists p. split; [done|]. destruct ty; cbn in *; [by apply Hh | by eapply whnf_le | by eapply visible_le].
Qed.

Lemma good_finish f pt h h' ks q r k k' :
  good E (Some (f, pt)) h ks q -> q_run q = f :: r -> (f ∉ r) -> ks !! f = Some k -> idle_core k' ->
  (forall v v' x, x ∈ q_wait q v -> x ∈ q_wait q v' -> v = v') ->
  heap_le h h' -> (forall p, is_hole_pntr E h p -> is_hole_pntr E h' p) ->
  (forall a, is_Some (h' !! a) -> 8 <= a) -> (forall p, visible E h' p -> exists p', resolves h' p p') ->
  (forall a o, h' !! a = Some o ->
     (h !! a = Some o /\ forall c, o = OCell c -> c_type c = CELL_FRAME -> a <> k_c k) \/ forall ks', object_ok E h' ks' a o) ->
  (forall a c, a <> k_c k -> h !! a = Some (OCell c) -> h' !! a = Some (OCell c)) ->
  (forall a, is_Some (h !! a) -> is_Some (h' !! a)) ->
  (forall g i, k_retp k = Some (g, i) -> exists kg p, ks !! g = Some kg /\ k_data kg !! Z.to_nat i = Some p /\ visible E h' p) ->
  good E None h' (<[f := k']> ks) (finished f r q).
Proof.
  intros G Hq Hfr Hk (K1 & K2 & K3) Hdis Hle Hh Haddr Hres Hobj Hcell Hdom Hslot.
  assert (f ∈ q_run q) as Hfq by (rewrite Hq; left).
  destruct (run_busy _ _ _ _ _ _ G Hfq) as (k0 & Hb & Hact).
  assert (k0 = k) as -> by (destruct Hb as (Hb & _); rewrite Hk in Hb; by injection Hb).
  destruct (consts_le _ _ _ _ _ _ G Hle) as (N1 & N2 & N3).
  assert (Hl' : live (k_state k') = false) by (by rewrite K1).
  split; try done.
  - eapply states_finish; try done. apply G.
  - intros a Ha. apply Hdom. by apply (gd_hidden _ _ _ _ _ G).
  - intros a o Ha. destruct (Hobj a o Ha) as [[Ho Hnc]|?]; [|done]. assert (Hok := gd_heap _ _ _ _ _ G _ _ Ho).
    eapply object_ok_le; [exact Hle| |exact Hok]. intros c -> Hc.
    destruct (ce_frame _ _ _ _ _ Hok Hc) as (g & kg & Hp & Hg & Hgc & Hgl). exists g, kg. rewrite lookup_insert_ne; [done|].
    intros <-. rewrite Hk in Hg. injection Hg as <-. by apply (Hnc c).
  - intros b y Hy Hbs. cbn [finished q_wait]. destruct (decide (b = f)) as [->|Hbf].
    + rewrite lookup_insert_eq in Hy. injection Hy as <-. split; rewrite ?Hl'; try done. intros _. by rewrite set_wait_eq.
    + rewrite lookup_insert_ne in Hy by done. by eapply core_ok_finish.
  - assert (forall b i p, hole_slot E (<[f := k']> ks) None b i p -> hole_slot E ks (Some (f, pt)) b i p) as Hold.
    { intros b i p (y & pt' & Hy & Hpt & Hi & Hp). destruct (decide (b = f)) as [->|Hn].
      - apply busy_eq in Hy as (-> & _ & Hy). congruence.
      - apply busy_ne in Hy; [|done]. exists y, pt'. split_and!; [done | by apply (frame_ty_ne _ f pt) | done | done]. }
    intros b b' i j p p' H1 H2. apply Hold in H1, H2. by apply (gd_holes _ _ _ _ _ G).
Qed.

(** The result is in the slot of the caller. *)
Lemma good_finish_slot f pt h ks q r k k' g i kg p :
  good E (Some (f, pt)) h ks q -> q_run q = f :: r -> (f ∉ r) -> ks !! f = Some k -> idle_core k' ->
  (forall v v' x, x ∈ q_wait q v -> x ∈ q_wait q v' -> v = v') ->
  k_retp k = Some (g, i) -> ks !! g = Some kg -> k_data kg !! Z.to_nat i = Some p -> visible E h p ->
  good E None h (<[f := k']> ks) (finished f r q).
Proof.
  intros G Hq Hfr Hk Hk' Hdis Hr Hg Hp Hv. assert (f ∈ q_run q) as Hfq by (rewrite Hq; left).
  destruct (run_busy _ _ _ _ _ _ G Hfq) as (k0 & Hb & Hact).
  assert (k0 = k) as -> by (destruct Hb as (Hb & _); rewrite Hk in Hb; by injection Hb).
  assert (k_c k = 0) as Hc0.
  { destruct (ko_return _ _ _ _ _ _ _ (good_busy _ _ _ _ _ _ _ G Hb) (proj2 (proj2 Hb))) as [(_ & Hn & _)|(? & _)]; [congruence | done]. }
  eapply good_finish; try done; try (by apply G).
  - intros a o Ha. left. split; [done|]. intros c -> _ ->. assert (8 <= k_c k) by (eapply gd_addr; [exact G | eauto]). lia.
  - intros g' i' Hr'. rewrite Hr in Hr'. injection Hr' as <- <-. eauto.
Qed.

(** The frame's cell becomes the result: an indirection or a value. *)
Lemma good_finish_cell f pt h ks q r k k' c c' :
  good E (Some (f, pt)) h ks q -> q_run q = f :: r -> (f ∉ r) -> ks !! f = Some k -> idle_core k' ->
  (forall v v' x, x ∈ q_wait q v -> x ∈ q_wait q v' -> v = v') ->
  k_c k <> 0 -> h !! k_c k = Some (OCell c) ->
  visible_type (c_type c') = true -> c_type c' <> CELL_HOLE -> c_type c' <> CELL_FRAME -> c_type c' <> CELL_AREF ->
  leads h (k_c k) (OCell c') -> (forall ks', cell_ok E (<[k_c k := OCell c']> h) ks' (k_c k) c') ->
  good E None (<[k_c k := OCell c']> h) (<[f := k']> ks) (finished f r q).
Proof.
  intros G Hq Hfr Hk Hk' Hdis Hc0 Hc V1 V2 V3 V4 Hleads Hok. assert (f ∈ q_run q) as Hfq by (rewrite Hq; left).
  destruct (run_busy _ _ _ _ _ _ G Hfq) as (k0 & Hb & Hact).
  assert (k0 = k) as -> by (destruct Hb as (Hb & _); rewrite Hk in Hb; by injection Hb).
  destruct (ko_return _ _ _ _ _ _ _ (good_busy _ _ _ _ _ _ _ G Hb) (proj2 (proj2 Hb))) as [(_ & Hn & c0 & Hc1 & Hf & _)|(? & _)]; [|done].
  rewrite Hc in Hc1. injection Hc1 as <-.
  assert (C : heap_change h ks (k_c k) (OCell c')).
  { split; [by eapply gd_addr; [exact G|eauto]| | |done].
    - eapply heap_le_cell; [done | done | by rewrite Hf | left; by apply becomes_other].
    - intros x Hx. rewrite Hc in Hx. injection Hx as <-. by rewrite Hf. }
  destruct (heap_change_world _ _ _ _ _ _ _ G C) as (A1 & A2 & A3 & _).
  eapply good_finish; try done.
  - apply C.
  - intros p H. apply (hole_pntr_keep E h); [|done]. destruct H as [Hp H]. destruct (H Hp) as (x & Hx & Hr & _).
    rewrite lookup_insert_ne; [done|]. intros E0. rewrite <- E0, Hc in Hx. injection Hx as <-. by rewrite Hf in Hr.
  - intros a o Ha. apply lookup_insert_Some in Ha as [[<- <-]|[Hne Ha]]; [by right|]. left. auto.
  - intros a x Hne Hx. by rewrite lookup_insert_ne.
  - intros a [x Hx]. destruct (decide (a = k_c k)) as [->|]; [by rewrite lookup_insert_eq; eauto | by rewrite lookup_insert_ne; eauto].
  - intros g i Hr. congruence.
Qed.
End frames.
