(* ===== verification/Snap.v ===== *)
(** * The run-time system's operations on heap, frames and queues

    Every primitive operation of the interpreter, seen through [snap]: what it
    needs of the heap, the frames and the queues, and what it leaves. The
    rules are in continuation style, one per operation, so that the proof of
    an instruction follows its code. The second part is about allocation. *)

From S2P Require Import Prelude Builtins Source Bytecode Compile Pointer Chain Memory Globals Sched Arrays Interpreter Wp SchedFacts Typing MachineOk Store HeapFacts WorldFacts FrameFacts.
#[local] Open Scope Z_scope.

Section snap.
Context (E : env).
Implicit Types (h : gmap Z object) (ks : gmap Z core) (q : queues) (k : core) (c : cell) (t : task) (i : bool).

(** ** Frames *)

Lemma snap_memory_cores h ks q i t t' ks' :
  snap E h ks q i t -> (forall a, is_Some (ks' !! a) -> is_Some (ks !! a)) -> cores t' = ks' ->
  t_mem t' = t_mem t -> t_brk t' = t_brk t -> memory_ok t'.
Proof.
  intros [_ Hh Hc [M1 M2 M3 M4] _ _] Hd Hc' Em Eb. split.
  - by rewrite Eb.
  - intros a. unfold t_heap. rewrite Em, Eb. apply M2.
  - intros a Ha. rewrite Eb. apply M3. unfold is_frame in *. rewrite Hc' in Ha. rewrite Hc. auto.
  - unfold newgen_ok, t_heap in *. by rewrite Em, Eb.
Qed.

(** From the specifications of [SchedFacts]. *)
Lemma snap_moved h ks q i t ks' q' t' :
  snap E h ks q i t -> moved t ks' q' t' -> (forall a, is_Some (ks' !! a) -> is_Some (ks !! a)) -> snap E h ks' q' false t'.
Proof.
  intros S M Hd. assert (R := mv_rest _ _ _ _ M).
  assert (t_mem t' = t_mem t) as Em by exact (f_equal t_mem R). assert (t_brk t' = t_brk t) as Eb by exact (f_equal t_brk R).
  split.
  - rewrite <- (mi_sentinel _ _ (sn_misc _ _ _ _ _ _ S)), <- (moved_sparklist _ _ _ _ M). apply M.
  - unfold t_heap. rewrite Em. apply S.
  - apply M.
  - eapply snap_memory_cores; [exact S | exact Hd | apply M | done | done].
  - destruct (sn_misc _ _ _ _ _ _ S) as [A1 A2 A3 A4 A5 A6 A7 A8]. split.
    + rewrite <- A1. exact (f_equal t_prog R).
    + rewrite <- A2. exact (f_equal t_maxstack R).
    + rewrite <- A3. by eapply moved_sparklist.
    + rewrite <- A4. exact (f_equal t_globnilpntr R).
    + rewrite <- A5. exact (f_equal t_globtruepntr R).
    + rewrite <- A6. exact (f_equal t_strings R).
    + rewrite <- A7. exact (f_equal t_error R).
    + rewrite <- A8. exact (f_equal t_done R).
  - done.
Qed.

Lemma snap_links h ks q i t : snap E h ks q i t -> links (t_sparklist t) (vw t) q.
Proof. intros S. rewrite (mi_sentinel _ _ (sn_misc _ _ _ _ _ _ S)). apply S. Qed.

Lemma snap_head h ks q i t f r : snap E h ks q i t -> q_run q = f :: r -> t_run t = f /\ f <> 0.
Proof. intros S Hq. destruct (run_hd _ _ _ _ (snap_links _ _ _ _ _ S) Hq) as (? & ? & _). done. Qed.

Lemma snap_run0 h ks q i t : snap E h ks q i t -> t_run t = 0 -> q_run q = [].
Proof. intros S. apply run_zero. by eapply snap_links. Qed.

Lemma snap_get_frame h ks q i t a k Q :
  snap E h ks q i t -> ks !! a = Some k ->
  (forall f, t_frames t !! a = Some f -> core_of f = k -> Q f t) -> wp (get_frame a) Q t.
Proof.
  intros S Hk HQ. rewrite <- (sn_cores _ _ _ _ _ _ S) in Hk. eapply wp_read_core; [done|]. intros f Hf ->. by apply HQ.
Qed.

(** A change of one frame's core. *)
Lemma snap_put_core h ks q i t a f f' k k' :
  snap E h ks q i t -> t_frames t !! a = Some f -> ks !! a = Some k -> core_of f' = k' ->
  f_rnext f' = f_rnext f -> f_waitlnk f' = f_waitlnk f -> f_wq_frames f' = f_wq_frames f ->
  f_freelnk f' = f_freelnk f -> f_sprev f' = f_sprev f -> f_snext f' = f_snext f ->
  snap E h (<[a := k']> ks) q i (frame_put a f' t).
Proof.
  intros S Hf Hk Ek E1 E2 E3 E4 E5 E6. assert (V := vw_put_core _ _ _ _ Hf E1 E2 E3 E4 E5 E6). rewrite Ek in V.
  assert (cores (frame_put a f' t) = <[a := k']> ks) as Hc.
  { rewrite <- (sn_cores _ _ _ _ _ _ S). exact (f_equal v_cores V). }
  split; try (by apply S); [|done| |].
  - rewrite V. apply links_cores; [apply S|]. intros b k0 Hb. change (is_Some (cores t !! b)). rewrite (sn_cores _ _ _ _ _ _ S).
    apply lookup_insert_Some in Hb as [[<- _]|[_ Hb]]; [by exists k|]. change (v_cores (vw t)) with (cores t) in Hb.
    rewrite (sn_cores _ _ _ _ _ _ S) in Hb. by exists k0.
  - eapply snap_memory_cores; [exact S| |exact Hc|done|done].
    intros b [k0 Hb]. apply lookup_insert_Some in Hb as [[<- _]|[_ Hb]]; eauto.
  - destruct (sn_misc _ _ _ _ _ _ S). by split.
Qed.

Lemma snap_upd_core (g : frame -> frame) (gk : core -> core) h ks q i t a k Q :
  (forall f, f_rnext (g f) = f_rnext f /\ f_waitlnk (g f) = f_waitlnk f /\ f_wq_frames (g f) = f_wq_frames f /\
     f_freelnk (g f) = f_freelnk f /\ f_sprev (g f) = f_sprev f /\ f_snext (g f) = f_snext f /\
     core_of (g f) = gk (core_of f)) ->
  snap E h ks q i t -> ks !! a = Some k ->
  (forall t', snap E h (<[a := gk k]> ks) q i t' -> Q tt t') -> wp (upd_frame a g) Q t.
Proof.
  intros Hg S Hk HQ. apply wp_bind. eapply snap_get_frame; [done | done|]. intros f Hf Ek. apply wp_put_frame, HQ.
  destruct (Hg f) as (? & ? & ? & ? & ? & ? & ?). eapply snap_put_core; try done. congruence.
Qed.

Lemma snap_set_instr h ks q i t a k pc Q :
  snap E h ks q i t -> ks !! a = Some k ->
  (forall t', snap E h (<[a := sk_instr (Some pc) k]> ks) q i t' -> Q tt t') -> wp (set_instr a pc) Q t.
Proof. apply (snap_upd_core _ (sk_instr (Some pc))). core_setter. Qed.
Lemma snap_set_c h ks q i t a k x Q :
  snap E h ks q i t -> ks !! a = Some k ->
  (forall t', snap E h (<[a := sk_c x k]> ks) q i t' -> Q tt t') -> wp (upd_frame a (set_f_c x)) Q t.
Proof. apply (snap_upd_core _ (sk_c x)). core_setter. Qed.
Lemma snap_set_retp h ks q i t a k x Q :
  snap E h ks q i t -> ks !! a = Some k ->
  (forall t', snap E h (<[a := sk_retp x k]> ks) q i t' -> Q tt t') -> wp (upd_frame a (set_f_retp x)) Q t.
Proof. apply (snap_upd_core _ (sk_retp x)). core_setter. Qed.

Lemma snap_get_slot h ks q i t f n k p Q :
  snap E h ks q i t -> ks !! f = Some k -> 0 <= n -> k_data k !! Z.to_nat n = Some p -> Q p t -> wp (get_slot f n) Q t.
Proof.
  intros S Hk Hn Hp HQ. apply wp_bind. eapply snap_get_frame; [done | done|]. intros fr Hfr Ek.
  apply wp_bind, wp_massert; [by apply Z.leb_le|]. eapply wp_mderef; [|done]. by rewrite <- Ek in Hp.
Qed.

Lemma snap_set_slot h ks q i t f n k v Q :
  snap E h ks q i t -> ks !! f = Some k -> 0 <= n < Z.of_nat (length (k_data k)) ->
  (forall t', snap E h (<[f := sk_data (<[Z.to_nat n := v]> (k_data k)) k]> ks) q i t' -> Q tt t') -> wp (set_slot f n v) Q t.
Proof.
  intros S Hk Hn HQ. apply wp_bind. eapply snap_get_frame; [done | done|]. intros fr Hfr Ek.
  apply wp_bind, wp_massert.
  { apply andb_true_iff. rewrite Z.leb_le, Z.ltb_lt. by rewrite <- Ek in Hn. }
  apply wp_put_frame, HQ. eapply snap_put_core; try done. by rewrite <- Ek.
Qed.

(** ** The heap *)

Lemma snap_get_object h ks q i t a o Q : snap E h ks q i t -> h !! a = Some o -> Q o t -> wp (get_object a) Q t.
Proof. intros S H HQ. eapply wp_get_object; [|done]. by rewrite (sn_heap _ _ _ _ _ _ S). Qed.
Lemma snap_get_cell h ks q i t a c Q : snap E h ks q i t -> h !! a = Some (OCell c) -> Q c t -> wp (get_cell a) Q t.
Proof. intros S H HQ. eapply wp_get_cell; [|done]. by rewrite (sn_heap _ _ _ _ _ _ S). Qed.
Lemma snap_get_cap h ks q i t a fl n cp Q : snap E h ks q i t -> h !! a = Some (OCap fl n cp) -> Q cp t -> wp (get_cap a) Q t.
Proof. intros S H HQ. eapply wp_get_cap; [|done]. by rewrite (sn_heap _ _ _ _ _ _ S). Qed.
Lemma snap_get_array h ks q i t a fl n x Q : snap E h ks q i t -> h !! a = Some (OArray fl n x) -> Q x t -> wp (get_array a) Q t.
Proof. intros S H HQ. eapply wp_get_array; [|done]. by rewrite (sn_heap _ _ _ _ _ _ S). Qed.
Lemma snap_typeof h ks q i t p ty Q : snap E h ks q i t -> pntrtype h p = Some ty -> Q ty t -> wp (typeof p) Q t.
Proof. intros S H HQ. eapply wp_typeof; [|done]. by rewrite (sn_heap _ _ _ _ _ _ S). Qed.
Lemma snap_resolve h ks q i t p p' Q : snap E h ks q i t -> resolve (size h) h p = Done p' -> Q p' t -> wp (resolve_pntr p) Q t.
Proof. intros S H HQ. apply wp_bind, wp_gets. rewrite (sn_heap _ _ _ _ _ _ S). by eapply wp_lift. Qed.

(** A change of memory alone. *)
Lemma snap_mem h h' ks q i t m :
  snap E h ks q i t -> m_heap m = h' -> memory_ok (set_mem m t) -> snap E h' ks q i (set_mem m t).
Proof. intros S Hh Hm. destruct (sn_misc _ _ _ _ _ _ S). split; try (by apply S); [done | done|]. by split. Qed.

Lemma snap_heap_put h ks q i t a o :
  snap E h ks q i t -> is_Some (h !! a) -> snap E (<[a := o]> h) ks q i (heap_put a o t).
Proof.
  intros S Ha. assert (Hh := sn_heap _ _ _ _ _ _ S). eapply snap_mem; [done | cbn; by rewrite Hh|].
  destruct (sn_memory _ _ _ _ _ _ S) as [M1 M2 M3 M4].
  assert (forall b, is_Some (t_heap (heap_put a o t) !! b) -> is_Some (t_heap t !! b)) as Hd.
  { intros b [x Hb]. rewrite heap_heap_put in Hb. rewrite Hh in *. apply lookup_insert_Some in Hb as [[<- _]|[_ Hb]]; eauto. }
  split; [done | intros b Hb; apply M2, Hd, Hb | done|].
  unfold newgen_ok in *. cbn in *. destruct (m_newgen (t_mem t)) as [|[bl u] l]; [done|].
  destruct M4 as (N1 & N2 & N3 & N4). split_and!; [done..|]. intros b Hb. apply N4, Hd, Hb.
Qed.

Lemma snap_put_object h ks q i t a o Q :
  snap E h ks q i t -> is_Some (h !! a) -> (forall t', snap E (<[a := o]> h) ks q i t' -> Q tt t') -> wp (put_object a o) Q t.
Proof. intros S Ha HQ. apply wp_put_object, HQ. by apply snap_heap_put. Qed.

Lemma snap_put_cell h ks q i t a c Q :
  snap E h ks q i t -> is_Some (h !! a) -> (forall t', snap E (<[a := OCell c]> h) ks q i t' -> Q tt t') -> wp (put_cell a c) Q t.
Proof. apply snap_put_object. Qed.

Lemma snap_put_cap h ks q i t a fl n cp cp' Q :
  snap E h ks q i t -> h !! a = Some (OCap fl n cp) ->
  (forall t', snap E (<[a := OCap fl n cp']> h) ks q i t' -> Q tt t') -> wp (put_cap a cp') Q t.
Proof.
  intros S Ha HQ. apply wp_bind. eapply snap_get_object; [done | done|]. eapply snap_put_object; [done | eauto | done].
Qed.

Lemma snap_put_array h ks q i t a fl n x x' Q :
  snap E h ks q i t -> h !! a = Some (OArray fl n x) ->
  (forall t', snap E (<[a := OArray fl n x']> h) ks q i t' -> Q tt t') -> wp (put_array a x') Q t.
Proof.
  intros S Ha HQ. apply wp_bind. eapply snap_get_object; [done | done|]. eapply snap_put_object; [done | eauto | done].
Qed.

Lemma snap_init_cell h ks q i t a ty f1 c Q :
  snap E h ks q i t -> h !! a = Some (OCell c) ->
  (forall t', snap E (<[a := OCell (Cell ty (c_flags c) f1 (c_field2 c))]> h) ks q i t' -> Q tt t') -> wp (init_cell a ty f1) Q t.
Proof.
  intros S Ha HQ. apply wp_bind. eapply snap_get_cell; [done | done|]. eapply snap_put_cell; [done | eauto | done].
Qed.

Lemma snap_set_cell_type h ks q i t a ty c Q :
  snap E h ks q i t -> h !! a = Some (OCell c) ->
  (forall t', snap E (<[a := OCell (Cell ty (c_flags c) (c_field1 c) (c_field2 c))]> h) ks q i t' -> Q tt t') ->
  wp (set_cell_type a ty) Q t.
Proof.
  intros S Ha HQ. apply wp_bind. eapply snap_get_cell; [done | done|]. eapply snap_put_cell; [done | eauto | done].
Qed.
End snap.

(** ** Allocation

    The allocators return fresh addresses and change nothing else; frames come
    from and go back to the free list; the write barrier only marks. *)

Section alloc.
Context (E : env).
Implicit Types (h : gmap Z object) (ks : gmap Z core) (q : queues) (k : core) (c : cell) (t : task) (i : bool).

(** ** Memory *)

Lemma snap_set_interrupt h ks q i t : snap E h ks q i t -> snap E h ks q true (set_interrupt true t).
Proof.
  intros S. destruct (sn_memory _ _ _ _ _ _ S) as [M1 M2 M3 M4], (sn_misc _ _ _ _ _ _ S).
  split; try (by apply S); by split.
Qed.

Lemma snap_weaken h ks q i j t : snap E h ks q i t -> (j = true -> i = true) -> snap E h ks q j t.
Proof. intros S Hj. split; try (by apply S). intros Hj'. apply S. auto. Qed.

(** What the rules of [Store] say of the memory. *)
Lemma snap_as_store h ks q i t : snap E h ks q i t -> store t h t.
Proof. intros S. split; [apply S | apply S | done]. Qed.

Lemma snap_only_mem h h' ks q i t t' : snap E h ks q i t -> store t h' t' -> snap E h' ks q i t'.
Proof.
  intros S [Hh M (m & b & j & -> & Hj)]. destruct (sn_misc _ _ _ _ _ _ S).
  split; [apply S | exact Hh | apply S | exact M | by split|]. intros Hi. apply Hj, S, Hi.
Qed.

(** Address space is given out in order. *)
Lemma snap_sys_alloc h ks q i t n Q :
  snap E h ks q i t -> 0 <= n ->
  (forall t', snap E h ks q i t' -> same_block t t' -> t_brk t + n <= t_brk t' -> Q (t_brk t) t') -> wp (sys_alloc n) Q t.
Proof.
  intros S Hn HQ. eapply store_sys_alloc; [by eapply snap_as_store | done|]. intros t' S' B Hbrk. apply HQ; [|done|done].
  by eapply snap_only_mem.
Qed.

(** The address [alloc_mem] returns is a fresh one. *)
Lemma snap_alloc_mem h ks q i t n Q :
  snap E h ks q i t -> n mod 8 = 0 -> 0 < n <= BLOCK_BYTES ->
  (forall a fl t', h !! a = None -> 8 <= a -> snap E (<[a := blank fl]> h) ks q i t' -> Q a t') -> wp (alloc_mem n) Q t.
Proof.
  intros S H8 Hn HQ. eapply store_alloc_mem; [by eapply snap_as_store | done | done|]. intros a fl t' Ha Ha8 S'.
  eapply HQ; [done | done|]. by eapply snap_only_mem.
Qed.

Lemma snap_alloc_cell h ks q i t Q :
  snap E h ks q i t ->
  (forall a fl t', h !! a = None -> 8 <= a -> snap E (<[a := blank fl]> h) ks q i t' -> Q a t') -> wp alloc_cell Q t.
Proof. intros S. eapply snap_alloc_mem; [done | done | unfold sizeof_cell, BLOCK_BYTES; lia]. Qed.

(** ** Write barriers *)

Lemma snap_write_barrier h ks q i t a o Q :
  snap E h ks q i t -> h !! a = Some o ->
  (forall fl t', snap E (<[a := obj_set_flags fl o]> h) ks q i t' -> Q tt t') -> wp (write_barrier a) Q t.
Proof.
  intros S Ha HQ. eapply store_write_barrier; [by eapply snap_as_store | done|]. intros fl t' S'. eapply HQ. by eapply snap_only_mem.
Qed.

Lemma snap_write_barrier_ifnew h ks q i t a o dest Q :
  snap E h ks q i t -> h !! a = Some o -> (is_pntr dest = true -> is_Some (h !! p_lo dest)) ->
  (forall fl t', snap E (<[a := obj_set_flags fl o]> h) ks q i t' -> Q tt t') -> wp (write_barrier_ifnew a dest) Q t.
Proof.
  intros S Ha Hd HQ. eapply store_write_barrier_ifnew; [by eapply snap_as_store | done | done|]. intros fl t' S'. eapply HQ. by eapply snap_only_mem.
Qed.

(** [dest] points to an object, if it points. *)
Lemma snap_cell_make_ind h ks q i t a c dest Q :
  snap E h ks q i t -> h !! a = Some (OCell c) -> (is_pntr dest = true -> is_Some (h !! p_lo dest)) ->
  (forall fl t', snap E (<[a := OCell (Cell CELL_IND fl dest (c_field2 c))]> h) ks q i t' -> Q tt t') ->
  wp (cell_make_ind a dest) Q t.
Proof.
  intros S Ha Hd HQ. unfold cell_make_ind. apply wp_bind. eapply snap_write_barrier_ifnew; [exact S | exact Ha | exact Hd|].
  intros fl t1 S1. eapply snap_init_cell; [exact S1 | by rewrite lookup_insert_eq|].
  cbn [c_flags c_field2]. intros t2 S2. rewrite insert_insert_eq in S2. by eapply HQ.
Qed.

(** ** Caps and arrays *)

Lemma snap_cap_alloc h ks q i t arity address fno d Q :
  snap E h ks q i t -> 0 < arity -> 0 <= d <= MAX_ARRAY_SIZE ->
  (forall a fl n t', h !! a = None -> 8 <= a ->
     snap E (<[a := OCap fl n (Cap arity address fno (Sourceloc 0 0) 0 d [])]> h) ks q i t' -> Q a t') ->
  wp (cap_alloc arity address fno d) Q t.
Proof.
  intros S Har Hd HQ. unfold cap_alloc, MAX_ARRAY_SIZE in *. cbv zeta. change (Z.shiftl 1 19) with 524288 in Hd.
  pose proof (align8_bound (sizeof_cap + d * sizeof_pntr)) as Hb. pose proof (align8 (sizeof_cap + d * sizeof_pntr)) as Ha.
  unfold sizeof_cap, sizeof_pntr in Hb. apply wp_bind. eapply snap_alloc_mem; [done | exact Ha | unfold sizeof_cap, sizeof_pntr, BLOCK_BYTES; lia|].
  intros a fl t1 Hnone H8 S1. apply wp_bind. eapply snap_get_object; [done | by rewrite lookup_insert_eq|].
  apply wp_bind. eapply snap_put_object; [done | rewrite lookup_insert_eq; eauto|]. intros t2 S2. rewrite insert_insert_eq in S2.
  apply wp_bind, wp_massert; [by apply Z.ltb_lt|]. apply wp_ret. by eapply HQ.
Qed.

Lemma snap_cap_push h ks q i t a fl n cp p Q :
  snap E h ks q i t -> h !! a = Some (OCap fl n cp) -> cap_count cp < cap_room cp ->
  (forall t', snap E (<[a := OCap fl n (Cap (cap_arity cp) (cap_address cp) (cap_fno cp) (cap_sl cp) (cap_c cp) (cap_room cp) (cap_data cp ++ [p]))]> h) ks q i t' -> Q tt t') ->
  wp (cap_push a p) Q t.
Proof.
  intros S Ha Hc HQ. unfold cap_push. apply wp_bind. eapply snap_get_cap; [done | done|].
  apply wp_bind, wp_massert; [by apply Z.ltb_lt|]. eapply snap_put_cap; [done | done | done].
Qed.

Lemma snap_carray_new h ks q i t d n Q :
  snap E h ks q i t -> 0 < d <= 8 ->
  (forall a fl b t', h !! a = None -> 8 <= a ->
     snap E (<[a := OArray fl b (Carray (array_room n) (no_elements d) false 0)]> h) ks q i t' -> Q a t') ->
  wp (carray_new d n) Q t.
Proof.
  intros S Hd HQ. eapply store_carray_new; [by eapply snap_as_store | done|]. intros a fl b t' Ha Ha8 S'.
  eapply HQ; [done | done|]. by eapply snap_only_mem.
Qed.

(** An empty array and the cell that refers to it. *)
Lemma snap_create_array h ks q i t d n Q :
  snap E h ks q i t -> 0 < d <= 8 ->
  (forall x b r fx fr t', h !! x = None -> 8 <= x -> h !! r = None -> 8 <= r -> r <> x ->
     snap E (<[r := OCell (Cell CELL_AREF fr (make_pntr x) (e_nil E))]>
       (<[x := OArray fx b (Carray (array_room n) (no_elements d) false 0)]> h)) ks q i t' ->
     Q (make_pntr r) t') ->
  wp (create_array d n) Q t.
Proof.
  intros S Hd HQ. eapply store_create_array; [by eapply snap_as_store | done|]. intros x b r fx fr t' Hx Hx8 Hr Hr8 Hne S'.
  rewrite (mi_nil _ _ (sn_misc _ _ _ _ _ _ S)) in S'. eapply HQ; [exact Hx | exact Hx8 | exact Hr | exact Hr8 | exact Hne|]. by eapply snap_only_mem.
Qed.

(** ** The run queue *)

Lemma snap_check_runnable h ks q i t Q :
  snap E h ks q i t ->
  (forall j t', snap E h ks q j t' -> (q_run q = [] -> j = true) -> (i = true -> j = true) -> Q tt t') -> wp check_runnable Q t.
Proof.
  intros S HQ. unfold check_runnable. apply wp_bind, wp_gets, wp_bind, wp_massert.
  { apply negb_true_iff, Z.eqb_neq. intros E1. destruct (run_cons _ _ (snap_links _ _ _ _ _ _ S)) as [r Hr]; [lia|].
    destruct (run_hd _ _ _ _ (snap_links _ _ _ _ _ _ S) Hr) as (_ & _ & [k Hk]).
    rewrite E1 in Hk. apply (lk_addr _ _ _ (snap_links _ _ _ _ _ _ S)) in Hk. lia. }
  destruct (Z.eqb_spec (t_run t) 0) as [E0|E0].
  - apply wp_modify, (HQ true); [by eapply snap_set_interrupt | done | done].
  - apply wp_ret, (HQ i); [done| |done]. intros Hq. destruct (run_cons _ _ (snap_links _ _ _ _ _ _ S) E0) as [r Hr]. by rewrite Hq in Hr.
Qed.
End alloc.
