(* ===== verification/FrameAlloc.v ===== *)
(** * The free list of frames

    [frame_new] takes a frame from the free list, making a block of new ones
    when it is empty; [frame_free] puts one back. *)

From S2P Require Import Prelude Builtins Source Bytecode Compile Pointer Chain Memory Globals Sched Interpreter Wp SchedFacts Typing MachineOk Store HeapFacts WorldFacts FrameFacts Snap.
#[local] Open Scope Z_scope.

(** ** Links to more frames *)

(** [N'] has the links of [N] and empty ones for new frames. *)
Definition more (N N' : gmap Z Z) : Prop :=
  (forall a n, N !! a = Some n -> N' !! a = Some n) /\
  (forall a n, N' !! a = Some n -> N !! a = Some n \/ (N !! a = None /\ n = 0)).

Lemma chain_more N N' a l : more N N' -> links_to N a l -> links_to N' a l.
Proof. intros [H _] Hc. eapply chain_agree; [exact Hc|]. intros b x _ Hb. exists x. split; [by apply H | done]. Qed.

Lemma run_ok_more N N' run rq : more N N' -> run_ok N run rq -> run_ok N' run rq.
Proof.
  intros Hm [Hc Hz]. split; [by eapply chain_more|]. intros a n Ha Hn.
  destruct (proj2 Hm _ _ Ha) as [Ho|[_ ->]]; [by eapply Hz | done].
Qed.

Lemma wait_ok_more L L' W W' wl : more L L' -> more W W' -> wait_ok L W wl -> wait_ok L' W' wl.
Proof.
  intros HL HW [H1 H2 H3 H4]. split.
  - intros w h Hw. destruct (proj2 HW _ _ Hw) as [Ho|[Hn ->]]; [by eapply chain_more, H1|].
    assert (wl w = []) as ->; [|constructor]. destruct (wl w) as [|x l] eqn:El; [done|].
    destruct (H2 w x) as [y Hy]; [rewrite El; left|]. congruence.
  - intros w x Hx. destruct (H2 w x Hx) as [y Hy]. exists y. by apply HW.
  - done.
  - intros a n Ha Hn. destruct (proj2 HL _ _ Ha) as [Ho|[_ ->]]; [by eapply H4 | done].
Qed.

Lemma dseg_more S S' P P' l : more S S' -> more P P' -> forall a b, dseg S P a l b -> dseg S' P' a l b.
Proof.
  intros [HS _] [HP _]. induction l as [|x l IH]; intros a b; cbn.
  - intros [? ?]. auto.
  - intros (? & ? & ?). auto.
Qed.

Lemma spark_ok_more S S' P P' s sl : more S S' -> more P P' -> spark_ok S P s sl -> spark_ok S' P' s sl.
Proof.
  intros HS HP [H1 H2 H3 H4]. split; [done | done | by eapply dseg_more|].
  intros a Ha. destruct (H4 a Ha) as [A1 A2]. split; intros n Hn.
  - destruct (proj2 HS _ _ Hn) as [Ho|[_ ->]]; [by apply A1 | done].
  - destruct (proj2 HP _ _ Hn) as [Ho|[_ ->]]; [by apply A2 | done].
Qed.

(** ** A block of frames *)

Section block.
Context (mem fsz maxstack : Z) (n : nat).
Hypothesis Hmem : 0 < mem.
Hypothesis Hfsz : 0 < fsz.

Definition block_addr (i : nat) : Z := mem + Z.of_nat i * fsz.
Definition block_map : gmap Z frame := list_to_map (block_frames mem fsz maxstack (Z.of_nat n)).

Lemma block_addr_inj i j : block_addr i = block_addr j -> i = j.
Proof. unfold block_addr. intros H. assert (Z.of_nat i * fsz = Z.of_nat j * fsz) as H' by lia. apply Z.mul_cancel_r in H'; lia. Qed.

Lemma block_keys : (block_frames mem fsz maxstack (Z.of_nat n)).*1 = map block_addr (seq 0 n).
Proof. unfold block_frames. rewrite Nat2Z.id, <- list_fmap_compose. done. Qed.

Lemma block_lookup a f :
  block_map !! a = Some f <->
  exists i, (i < n)%nat /\ a = block_addr i /\ f = frame_zero maxstack (if Z.of_nat i =? Z.of_nat n - 1 then 0 else mem + (Z.of_nat i + 1) * fsz).
Proof.
  unfold block_map. rewrite <- elem_of_list_to_map.
  2: { rewrite block_keys. apply NoDup_fmap_2; [intros i j; apply block_addr_inj | apply NoDup_seq]. }
  unfold block_frames. rewrite Nat2Z.id. rewrite list_elem_of_fmap. split.
  - intros (i & [= -> ->] & Hi). apply elem_of_seq in Hi. exists i. split; [lia | done].
  - intros (i & Hi & -> & ->). exists i. split; [done|]. apply elem_of_seq. lia.
Qed.

(** The free list through the block, from its [i]th frame on. *)
Lemma block_chain m : forall i, (i + m = n)%nat -> (0 < m)%nat ->
  links_to (f_freelnk <$> block_map) (block_addr i) (map block_addr (seq i m)).
Proof.
  induction m as [|m IH]; intros i Him Hm; [lia|]. cbn [seq map].
  apply (chain_cons _ _ _ (if Z.of_nat i =? Z.of_nat n - 1 then 0 else block_addr (S i))).
  - unfold block_addr. nia.
  - rewrite lookup_fmap. erewrite (proj2 (block_lookup _ _)) by (exists i; split; [lia | done]). cbn.
    unfold block_addr. destruct (_ =? _); [done|]. do 2 f_equal. lia.
  - destruct (Z.eqb_spec (Z.of_nat i) (Z.of_nat n - 1)) as [Hl|Hl].
    + assert (m = 0)%nat as -> by lia. constructor.
    + destruct m as [|m]; [lia|]. apply IH; lia.
Qed.

Lemma block_views a f : block_map !! a = Some f ->
  f_rnext f = 0 /\ f_waitlnk f = 0 /\ f_wq_frames f = 0 /\ f_sprev f = 0 /\ f_snext f = 0 /\
  k_state (core_of f) = STATE_UNALLOCATED /\ k_fetchers (core_of f) = [] /\ k_data (core_of f) = replicate (Z.to_nat maxstack) (Pntr 0 0).
Proof. intros (i & _ & _ & ->)%block_lookup. done. Qed.
End block.

Lemma view_more (g : frame -> Z) (new F : gmap Z frame) :
  (forall a f, new !! a = Some f -> F !! a = None /\ g f = 0) -> more (g <$> F) (g <$> (new ∪ F)).
Proof.
  intros Hn. split.
  - intros a n Ha. rewrite lookup_fmap in *. destruct (F !! a) as [f|] eqn:Ef; [|done].
    assert ((new ∪ F) !! a = Some f) as ->; [|done]. apply lookup_union_Some_raw. right. split; [|done].
    destruct (new !! a) as [x|] eqn:Ex; [|done]. destruct (Hn _ _ Ex). congruence.
  - intros a n Ha. rewrite lookup_fmap in *. destruct ((new ∪ F) !! a) as [f|] eqn:Ef; [|done]. injection Ha as <-.
    apply lookup_union_Some_raw in Ef as [Ef|[_ Ef]].
    + destruct (Hn _ _ Ef) as [-> ->]. by right.
    + rewrite Ef. by left.
Qed.

Section alloc.
Context (E : env).
Hypothesis Hsize : check_size (e_maxstack E) = true.
Implicit Types (h : gmap Z object) (ks : gmap Z core) (q : queues) (k : core) (t : task) (i : bool).

Lemma maxstack_bounds : 0 <= e_maxstack E /\ 0 < sizeof_frame + e_maxstack E * sizeof_pntr <= FRAMEBLOCK_SIZE.
Proof. unfold check_size in Hsize. apply andb_true_iff in Hsize. rewrite !Z.leb_le in Hsize. unfold sizeof_frame, sizeof_pntr in *. lia. Qed.

(** The block [frame_new] makes at address [b]. *)
Definition fsz : Z := sizeof_frame + e_maxstack E * sizeof_pntr.
Definition nblock : nat := Z.to_nat (FRAMEBLOCK_SIZE / fsz).
Definition new_frames (b : Z) : gmap Z frame := block_map (b + 8) fsz (e_maxstack E) nblock.
Definition new_list (b : Z) : list Z := map (block_addr (b + 8) fsz) (seq 0 nblock).

Lemma nblock_pos : (0 < nblock)%nat /\ Z.of_nat nblock = FRAMEBLOCK_SIZE / fsz.
Proof.
  destruct maxstack_bounds as [B1 B2]. assert (0 < FRAMEBLOCK_SIZE / fsz) by (apply Z.div_str_pos; unfold fsz; lia).
  unfold nblock. lia.
Qed.

Lemma fsz_pos : 0 < fsz.
Proof. destruct maxstack_bounds. unfold fsz. lia. Qed.

Lemma new_frames_range b a f : new_frames b !! a = Some f -> b + 8 <= a < b + 8 + FRAMEBLOCK_SIZE.
Proof.
  destruct nblock_pos as [N1 N2]. pose proof fsz_pos. intros (j & Hj & -> & _)%block_lookup; [|done]. unfold block_addr.
  pose proof (Z.mul_div_le FRAMEBLOCK_SIZE fsz) as Hm. rewrite <- N2 in Hm. nia.
Qed.

Lemma new_frames_list b a : a ∈ new_list b <-> is_Some ((core_of <$> new_frames b) !! a).
Proof.
  pose proof fsz_pos. rewrite lookup_fmap, fmap_is_Some. unfold new_list, new_frames. split.
  - intros (j & -> & Hj)%list_elem_of_fmap. apply elem_of_seq in Hj. eexists. apply block_lookup; [done|]. exists j. split; [lia | done].
  - intros [f (j & Hj & -> & _)%block_lookup]; [|done]. apply list_elem_of_fmap. exists j. split; [done|]. apply elem_of_seq. lia.
Qed.

Lemma new_frames_chain b : 0 <= b -> links_to (f_freelnk <$> new_frames b) (b + 8) (new_list b).
Proof.
  intros Hb. destruct nblock_pos as [N1 N2]. pose proof fsz_pos.
  assert (Hl := block_chain (b + 8) fsz (e_maxstack E) nblock ltac:(lia) ltac:(lia) nblock 0 ltac:(lia) ltac:(lia)).
  by replace (block_addr (b + 8) fsz 0) with (b + 8) in Hl by (unfold block_addr; lia).
Qed.

Lemma new_list_nonempty b : new_list b <> [].
Proof. destruct nblock_pos as [N1 N2]. unfold new_list. by destruct nblock; [lia|]. Qed.

(** They are not in use. *)
Lemma new_frames_absent h ks q i t t1 a f :
  snap E h ks q i t -> snap E h ks q i t1 -> new_frames (t_brk t) !! a = Some f ->
  t_frames t1 !! a = None /\ ks !! a = None /\ q_wait q a = [].
Proof.
  intros S S1 Ha. apply new_frames_range in Ha.
  assert (t_frames t1 !! a = None) as Hn.
  { destruct (t_frames t1 !! a) as [f'|] eqn:Ef; [|done].
    assert (is_frame t a) as Hfr.
    { unfold is_frame. rewrite (sn_cores _ _ _ _ _ _ S), <- (sn_cores _ _ _ _ _ _ S1). unfold cores. rewrite lookup_fmap, Ef. eauto. }
    apply (mo_frames _ (sn_memory _ _ _ _ _ _ S)) in Hfr. lia. }
  split_and!; [done | rewrite <- (sn_cores _ _ _ _ _ _ S1); unfold cores; by rewrite lookup_fmap, Hn|].
  destruct (q_wait q a) as [|x w] eqn:Ew; [done|].
  destruct (wt_dom _ _ _ (lk_wait _ _ _ (sn_links _ _ _ _ _ _ S1)) a x) as [y Hy]; [rewrite Ew; left|].
  cbn in Hy. by rewrite lookup_fmap, Hn in Hy.
Qed.

Lemma good_new_frames cur h ks q b :
  good E cur h ks q -> q_free q = [] -> (forall a f, new_frames b !! a = Some f -> ks !! a = None /\ q_wait q a = []) ->
  good E cur h ((core_of <$> new_frames b) ∪ ks) (q_set_free (new_list b) q).
Proof.
  intros G Hf Hn. pose proof maxstack_bounds. apply good_idle; [done | done | apply new_frames_list|].
  intros a k Ha. rewrite lookup_fmap in Ha. destruct (new_frames b !! a) as [f|] eqn:Ef; [|done]. injection Ha as <-.
  destruct (Hn _ _ Ef). destruct (block_views _ _ _ _ fsz_pos _ _ Ef) as (_ & _ & _ & _ & _ & V1 & V2 & V3).
  split_and!; [done | done | done | done | rewrite V3, length_replicate; lia].
Qed.

(** The links of the pool with a block added. *)
Lemma links_block h ks q i t new blocks fb l :
  snap E h ks q i t -> q_free q = [] ->
  (forall a f, new !! a = Some f -> t_frames t !! a = None /\ 8 <= a /\ f_rnext f = 0 /\ f_waitlnk f = 0 /\
     f_wq_frames f = 0 /\ f_sprev f = 0 /\ f_snext f = 0) ->
  links_to (f_freelnk <$> new) fb l ->
  links (e_sentinel E) (vw (set_pool (Framepool (new ∪ t_frames t) blocks fb (t_run t) (t_sparklist t)) t)) (q_set_free l q).
Proof.
  intros S Hf Hn Hl. destruct (sn_links _ _ _ _ _ _ S) as [L1 L2 L3 L4 L5].
  split; cbn [vw v_rnext v_run v_waitlnk v_wq v_freelnk v_freeframe v_snext v_sprev v_cores q_set_free q_run q_wait q_free q_spark].
  - eapply run_ok_more; [|exact L1]. apply view_more. intros a f Ha. by destruct (Hn _ _ Ha) as (? & ? & ? & _).
  - eapply wait_ok_more; [| |exact L2]; apply view_more; intros a f Ha; by destruct (Hn _ _ Ha) as (? & ? & ? & ? & ? & _).
  - eapply chain_agree; [exact Hl|]. intros b x _ Hb. exists x. split; [|done].
    change (t_frames (set_pool _ t)) with (new ∪ t_frames t). rewrite lookup_fmap in *. destruct (new !! b) as [f|] eqn:Ef; [|done].
    by rewrite (lookup_union_Some_l _ _ _ _ Ef).
  - eapply spark_ok_more; [| |exact L4]; apply view_more; intros a f Ha; by destruct (Hn _ _ Ha) as (? & ? & ? & ? & ? & ? & ?).
  - change (t_frames (set_pool _ t)) with (new ∪ t_frames t). intros a k Ha. rewrite lookup_fmap in Ha.
    destruct ((new ∪ t_frames t) !! a) as [f|] eqn:Ef; [|done]. apply lookup_union_Some_raw in Ef as [Ef|[_ Ef]].
    + by destruct (Hn _ _ Ef) as (_ & ? & _).
    + eapply (L5 a (core_of f)). cbn. by rewrite lookup_fmap, Ef.
Qed.

(** More frames, all of them free. *)
Definition more_idle ks ks1 : Prop :=
  (forall b x, ks !! b = Some x -> ks1 !! b = Some x) /\
  (forall b x, ks1 !! b = Some x -> ks !! b = Some x \/ k_state x = STATE_UNALLOCATED).

(** [t'] has more frames than [t]. *)
Definition grown cur h ks q i t' : Prop :=
  exists ks1 l, good E cur h ks1 (q_set_free l q) /\ l <> [] /\ NoDup l /\ more_idle ks ks1 /\ snap E h ks1 (q_set_free l q) i t'.

(** Its memory: all below the new end of the address space. *)
Lemma snap_with_block h ks q i t t1 blocks :
  snap E h ks q i t -> snap E h ks q i t1 -> t_brk t + (8 + FRAMEBLOCK_SIZE) <= t_brk t1 -> q_free q = [] ->
  snap E h ((core_of <$> new_frames (t_brk t)) ∪ ks) (q_set_free (new_list (t_brk t)) q) i
    (set_pool (Framepool (new_frames (t_brk t) ∪ t_frames t1) blocks (t_brk t + 8) (t_run t1) (t_sparklist t1)) t1).
Proof.
  intros S S1 Hbrk Hf. set (new := new_frames (t_brk t)). set (t2 := set_pool _ t1).
  assert (0 <= t_brk t) as Hb0 by (pose proof (mo_brk _ (sn_memory _ _ _ _ _ _ S)); lia).
  assert (C2 : cores t2 = (core_of <$> new) ∪ ks).
  { change (cores t2) with (core_of <$> (new ∪ t_frames t1)). rewrite map_fmap_union. f_equal. apply (sn_cores _ _ _ _ _ _ S1). }
  destruct (sn_memory _ _ _ _ _ _ S1) as [M1 M2 M3 M4], (sn_misc _ _ _ _ _ _ S1).
  split; try (by apply S1); [|done| |by split].
  - eapply links_block; [exact S1 | done | |by apply new_frames_chain]. intros a f Ha.
    destruct (new_frames_absent _ _ _ _ _ _ _ _ S S1 Ha), (block_views _ _ _ _ fsz_pos _ _ Ha) as (? & ? & ? & ? & ? & _).
    apply new_frames_range in Ha. split_and!; try done. lia.
  - split; [done | done | |done]. intros a Ha. unfold is_frame in Ha. rewrite C2 in Ha. destruct Ha as [k Ha].
    apply lookup_union_Some_raw in Ha as [Ha|[_ Ha]].
    + rewrite lookup_fmap in Ha. destruct (new !! a) as [f|] eqn:Ef; [|done]. apply new_frames_range in Ef. change (t_brk t2) with (t_brk t1). lia.
    + apply M3. unfold is_frame. rewrite (sn_cores _ _ _ _ _ _ S1). eauto.
Qed.

Lemma snap_new_frameblock cur h ks q i t :
  snap E h ks q i t -> good E cur h ks q -> q_free q = [] -> wp new_frameblock (fun _ t' => grown cur h ks q i t') t.
Proof.
  intros S G Hf. unfold new_frameblock. apply wp_bind, wp_gets, wp_bind.
  assert (0 <= t_brk t) as Hb0 by (pose proof (mo_brk _ (sn_memory _ _ _ _ _ _ S)); lia).
  eapply snap_sys_alloc; [done | unfold FRAMEBLOCK_SIZE; lia|]. intros t1 S1 _ Hbrk. apply wp_modify. change (id t) with t.
  unfold framesperblock, framesize. rewrite (mi_maxstack _ _ (sn_misc _ _ _ _ _ _ S)).
  change (sizeof_frame + e_maxstack E * sizeof_pntr) with fsz. rewrite <- (proj2 nblock_pos).
  change (list_to_map (block_frames (t_brk t + 8) fsz (e_maxstack E) (Z.of_nat nblock))) with (new_frames (t_brk t)).
  exists ((core_of <$> new_frames (t_brk t)) ∪ ks), (new_list (t_brk t)). split_and!.
  - apply good_new_frames; [done | done|]. intros a f Ha. by destruct (new_frames_absent _ _ _ _ _ _ _ _ S S1 Ha) as (_ & ? & ?).
  - apply new_list_nonempty.
  - eapply chain_NoDup. by apply new_frames_chain.
  - split; intros b x Hb.
    + apply lookup_union_Some_raw. right. split; [|done]. rewrite lookup_fmap.
      destruct (new_frames (t_brk t) !! b) as [f|] eqn:Ef; [|done].
      destruct (new_frames_absent _ _ _ _ _ _ _ _ S S1 Ef) as (_ & N & _). congruence.
    + apply lookup_union_Some_raw in Hb as [Hb|[_ Hb]]; [right|by left]. apply view_lookup_inv in Hb as (f & Hfr & ->).
      by destruct (block_views _ _ _ _ fsz_pos _ _ Hfr) as (_ & _ & _ & _ & _ & ? & _).
  - by apply (snap_with_block h ks q i t t1).
Qed.

(** ** Taking and returning a frame *)

Definition fresh_core k : core := Core None (k_fetchers k) 0 STATE_NEW 0 None false (k_data k).

(** A free frame is in no queue. *)
Lemma free_links cur h ks q i t a f l :
  snap E h ks q i t -> good E cur h ks q -> q_free q = a :: l -> t_frames t !! a = Some f ->
  f_wq_frames f = 0 /\ f_waitlnk f = 0 /\ f_rnext f = 0 /\ f_sprev f = 0 /\ f_snext f = 0 /\ f_wq_fetchers f = [].
Proof.
  intros S G Hf Ha. destruct (vw_lookup _ _ _ Ha) as (Vc & Vr & Vw & Vq & _ & Vp & Vn).
  destruct (free_idle _ _ _ _ _ a G) as (k & Hk & Hst & Hw & Hs & Hfe & _); [rewrite Hf; left|].
  assert (k = core_of f) as ->.
  { rewrite <- (sn_cores _ _ _ _ _ _ S) in Hk. change (v_cores (vw t) !! a = Some k) in Hk. congruence. }
  destruct (sn_links _ _ _ _ _ _ S) as [L1 L2 L3 L4 L5]. destruct (gd_states _ _ _ _ _ G) as [G1 G2 G3 G4 G5 G6].
  assert (forall P : Prop, (exists k, ks !! a = Some k /\ k_state k <> STATE_UNALLOCATED) -> P) as Habs.
  { intros P (k & Hk' & Hn). rewrite Hk in Hk'. injection Hk' as <-. by destruct Hn. }
  assert (a ∉ e_sentinel E :: q_spark q) as Hsp.
  { rewrite elem_of_cons. intros [->|Hin]; [done|]. apply G4 in Hin as (k & Hk' & Hn). apply Habs. exists k. by rewrite Hn. }
  destruct (zero_of_notin _ _ _ _ _ L4 Hsp) as [Z1 Z2]. split_and!.
  - assert (Hc := wt_chain _ _ _ L2 _ _ Vq). rewrite Hw in Hc. by inversion Hc.
  - apply (wt_zero _ _ _ L2 _ _ Vw). intros w Hin. destruct (G2 w a Hin) as (_ & k & Hk' & Hn & _). apply Habs. exists k. by rewrite Hn.
  - apply (proj2 L1 _ _ Vr). intros Hin. destruct (G1 a Hin) as (k & Hk' & Hn). apply Habs. exists k. by rewrite Hn.
  - by apply Z2.
  - by apply Z1.
  - done.
Qed.

(** The first frame of the free list is in use now. *)
Lemma snap_taken cur h ks q i t a f k l f' :
  snap E h ks q i t -> good E cur h ks q -> q_free q = a :: l -> (a ∉ l) -> ks !! a = Some k -> t_frames t !! a = Some f ->
  links_to (v_freelnk (vw t)) (f_freelnk f) l ->
  f' = Frame None 0 [] 0 STATE_NEW 0 None 0 0 0 false 0 0 (f_data f) -> core_of f = k ->
  snap E h (<[a := fresh_core k]> ks) (q_set_free l q) i
    (frame_put a f' (set_pool (set_freeframe (f_freelnk f) (t_pool t)) t)).
Proof.
  intros S G Hf Hal Hk Hfr Hl -> Ek. set (f' := Frame _ _ _ _ _ _ _ _ _ _ _ _ _ _).
  destruct (free_links _ _ _ _ _ _ _ _ _ S G Hf Hfr) as (F1 & F2 & F3 & F4 & F5 & F6).
  destruct (vw_lookup _ _ _ Hfr) as (Vc & Vr & Vw & Vq & Vf & Vp & Vn). rewrite F1, F2, F3, F4, F5 in *.
  set (t0 := set_pool _ t).
  assert (V : vw (frame_put a f' t0) = Views (<[a := fresh_core k]> (v_cores (vw t))) (v_rnext (vw t)) (v_waitlnk (vw t))
    (v_wq (vw t)) (<[a := 0]> (v_freelnk (vw t))) (v_sprev (vw t)) (v_snext (vw t)) (v_run (vw t)) (f_freelnk f)).
  { rewrite vw_put. change (vw t0) with (sv_freeframe (f_freelnk f) (vw t)). cbn [f' f_rnext f_waitlnk f_wq_frames f_freelnk f_sprev f_snext sv_freeframe v_rnext v_waitlnk v_wq v_freelnk v_sprev v_snext v_run v_freeframe v_cores].
    rewrite (insert_id (v_rnext (vw t))), (insert_id (v_waitlnk (vw t))), (insert_id (v_wq (vw t))), (insert_id (v_sprev (vw t))), (insert_id (v_snext (vw t))) by done. f_equal. f_equal. unfold fresh_core. rewrite <- Ek. cbn. by rewrite F6. }
  assert (cores (frame_put a f' t0) = <[a := fresh_core k]> ks) as C.
  { rewrite <- (sn_cores _ _ _ _ _ _ S). exact (f_equal v_cores V). }
  destruct (sn_misc _ _ _ _ _ _ S), (sn_links _ _ _ _ _ _ S) as [L1 L2 L3 L4 L5]. split; try (by apply S); [|done| |by split].
  - rewrite V. split; cbn; try done.
    + by apply chain_insert_notin.
    + intros b x Hb. apply lookup_insert_Some in Hb as [[<- _]|[_ Hb]]; eauto.
  - eapply snap_memory_cores; [exact S| |exact C|done|done].
    intros b [x Hb]. apply lookup_insert_Some in Hb as [[<- _]|[_ Hb]]; eauto.
Qed.

(** It goes back to the front. *)
Lemma snap_returned h ks q i t a f k :
  snap E h ks q i t -> ks !! a = Some k -> t_frames t !! a = Some f -> core_of f = k -> (a ∉ q_free q) ->
  snap E h (<[a := sk_state STATE_UNALLOCATED k]> ks) (q_set_free (a :: q_free q) q) i
    (set_pool (set_freeframe a (t_pool (frame_put a (set_f_freelnk (fp_freeframe (t_pool t)) (set_f_state STATE_UNALLOCATED f)) t)))
       (frame_put a (set_f_freelnk (fp_freeframe (t_pool t)) (set_f_state STATE_UNALLOCATED f)) t)).
Proof.
  intros S Hk Hfr Ek Hal. set (f' := set_f_freelnk _ _). set (t0 := frame_put a f' t).
  destruct (vw_lookup _ _ _ Hfr) as (Vc & Vr & Vw & Vq & Vf & Vp & Vn).
  assert (V : vw (set_pool (set_freeframe a (t_pool t0)) t0) = Views (<[a := sk_state STATE_UNALLOCATED k]> (v_cores (vw t))) (v_rnext (vw t)) (v_waitlnk (vw t))
    (v_wq (vw t)) (<[a := fp_freeframe (t_pool t)]> (v_freelnk (vw t))) (v_sprev (vw t)) (v_snext (vw t)) (v_run (vw t)) a).
  { change (vw (set_pool (set_freeframe a (t_pool t0)) t0)) with (sv_freeframe a (vw t0)). unfold t0. rewrite vw_put.
    unfold sv_freeframe. cbn [f' set_f_freelnk set_f_state f_rnext f_waitlnk f_wq_frames f_freelnk f_sprev f_snext v_rnext v_waitlnk v_wq v_freelnk v_sprev v_snext v_run v_freeframe v_cores].
    rewrite (insert_id (v_rnext (vw t))), (insert_id (v_waitlnk (vw t))), (insert_id (v_wq (vw t))), (insert_id (v_sprev (vw t))), (insert_id (v_snext (vw t))) by done.
    f_equal. f_equal. by rewrite <- Ek. }
  assert (cores (set_pool (set_freeframe a (t_pool t0)) t0) = <[a := sk_state STATE_UNALLOCATED k]> ks) as C.
  { rewrite <- (sn_cores _ _ _ _ _ _ S). exact (f_equal v_cores V). }
  destruct (sn_misc _ _ _ _ _ _ S), (sn_links _ _ _ _ _ _ S) as [L1 L2 L3 L4 L5]. split; try (by apply S); [|done| |by split].
  - rewrite V. split; cbn; try done.
    + assert (8 <= a) by (by eapply L5). eapply chain_push; [exact L3 | lia | done | done].
    + intros b x Hb. apply lookup_insert_Some in Hb as [[<- _]|[_ Hb]]; eauto.
  - eapply snap_memory_cores; [exact S| |exact C|done|done].
    intros b [x Hb]. apply lookup_insert_Some in Hb as [[<- _]|[_ Hb]]; eauto.
Qed.

Lemma snap_frame_take cur h ks q i t a l k Q :
  snap E h ks q i t -> good E cur h ks q -> q_free q = a :: l -> (a ∉ l) -> ks !! a = Some k ->
  (forall t', snap E h (<[a := fresh_core k]> ks) (q_set_free l q) i t' -> Q a t') ->
  wp (p ← gets t_pool;
      let a := fp_freeframe p in
      f ← get_frame a;
      modify (fun t => set_pool (set_freeframe (f_freelnk f) (t_pool t)) t);;
      put_frame a (Frame None (f_wq_frames f) (f_wq_fetchers f) 0 STATE_NEW 0 None 0
                     (f_waitlnk f) (f_rnext f) false 0 0 (f_data f));;
      massert (f_wq_frames f =? 0);;
      massert (match f_wq_fetchers f with [] => true | _ => false end);;
      massert (f_waitlnk f =? 0);;
      massert (f_rnext f =? 0);;
      mret a) Q t.
Proof.
  intros S G Hf Hal Hk HQ. apply wp_bind, wp_gets. cbv zeta.
  assert (Hc := lk_free _ _ _ (sn_links _ _ _ _ _ _ S)). rewrite Hf in Hc. inversion Hc as [|? n ? Ha0 Hn Hl E1 E2]; subst.
  change (v_freeframe (vw t)) with (fp_freeframe (t_pool t)) in *. set (a := fp_freeframe (t_pool t)) in *.
  apply wp_bind. eapply snap_get_frame; [done | done|]. intros f Hfr Ek. apply wp_bind, wp_modify, wp_bind, wp_put_frame.
  destruct (free_links _ _ _ _ _ _ _ _ _ S G Hf Hfr) as (F1 & F2 & F3 & F4 & F5 & F6). rewrite F1, F2, F3, F6.
  apply wp_bind, wp_massert; [done|]. apply wp_bind, wp_massert; [done|]. apply wp_bind, wp_massert; [done|].
  apply wp_bind, wp_massert; [done|]. apply wp_ret, HQ.
  destruct (vw_lookup _ _ _ Hfr) as (_ & _ & _ & _ & Vf & _). rewrite Hn in Vf. injection Vf as ->.
  by eapply snap_taken.
Qed.

Lemma snap_frame_new cur h ks q i t Q :
  snap E h ks q i t -> good E cur h ks q ->
  (forall a l k ks1 q1 t', good E cur h ks1 q1 -> more_idle ks ks1 ->
     q_run q1 = q_run q -> q_wait q1 = q_wait q -> q_spark q1 = q_spark q ->
     q_free q1 = a :: l -> (a ∉ l) -> ks1 !! a = Some k ->
     snap E h (<[a := fresh_core k]> ks1) (q_set_free l q1) i t' -> Q a t') ->
  wp frame_new Q t.
Proof.
  intros S G HQ. unfold frame_new. apply wp_bind, wp_gets.
  eapply (wp_use _ _ (fun _ t' => exists ks1 l, good E cur h ks1 (q_set_free l q) /\ l <> [] /\ NoDup l /\
    more_idle ks ks1 /\ snap E h ks1 (q_set_free l q) i t')).
  - assert (Hc := lk_free _ _ _ (sn_links _ _ _ _ _ _ S)). change (v_freeframe (vw t)) with (fp_freeframe (t_pool t)) in Hc.
    destruct (Z.eqb_spec (fp_freeframe (t_pool t)) 0) as [E0|E0].
    + rewrite E0 in Hc. apply chain_0 in Hc. by apply snap_new_frameblock.
    + apply wp_ret. exists ks, (q_free q). destruct q as [r w fl sp]. cbn in *. split_and!; try done; [| |by split; auto].
      * intros ->. by inversion Hc.
      * by eapply chain_NoDup.
  - intros [] t1 (ks1 & l & G1 & Hne & Hnd & Hsub & S1). destruct l as [|a l]; [done|]. apply NoDup_cons in Hnd as [Hal _].
    destruct (free_idle _ _ _ _ _ a G1) as (k & Hk & _); [left|].
    eapply (snap_frame_take cur h ks1 (q_set_free (a :: l) q)); try done. intros t' S'. by eapply (HQ a l k ks1 (q_set_free (a :: l) q)).
Qed.

(** [frame_free] of a frame that has delivered its result. *)
Lemma snap_frame_free h ks q i t a k Q :
  snap E h ks q i t -> ks !! a = Some k -> k_retp k = None -> k_c k = 0 -> k_state k = STATE_DONE -> k_fetchers k = [] ->
  q_wait q a = [] -> (a ∉ q_free q) ->
  (forall t', snap E h (<[a := sk_state STATE_UNALLOCATED k]> ks) (q_set_free (a :: q_free q) q) i t' -> Q tt t') ->
  wp (frame_free a) Q t.
Proof.
  intros S Hk K1 K2 K3 K4 Hw Hfree HQ. unfold frame_free. apply wp_bind, wp_gets. rewrite (mi_done _ _ (sn_misc _ _ _ _ _ _ S)).
  apply wp_bind. eapply snap_get_frame; [done | done|]. intros f Hf Ek.
  assert (f_retp f = None) as F1 by (by rewrite <- Ek in K1). assert (f_c f = 0) as F2 by (by rewrite <- Ek in K2).
  assert (f_state f = STATE_DONE) as F3 by (by rewrite <- Ek in K3). assert (f_wq_fetchers f = []) as F4 by (by rewrite <- Ek in K4).
  assert (f_wq_frames f = 0) as F5.
  { destruct (vw_lookup _ _ _ Hf) as (_ & _ & _ & Vq & _). assert (Hc := wt_chain _ _ _ (lk_wait _ _ _ (sn_links _ _ _ _ _ _ S)) _ _ Vq).
    rewrite Hw in Hc. by inversion Hc. }
  rewrite F1, F2, F3, F4, F5. apply wp_bind, wp_massert; [done|]. apply wp_bind, wp_massert; [done|].
  apply wp_bind, wp_massert; [done|]. apply wp_bind, wp_massert; [done|]. apply wp_bind, wp_gets, wp_bind, wp_put_frame, wp_modify, HQ.
  eapply snap_returned; done.
Qed.
End alloc.
