(* ===== verification/Ops.v ===== *)
(** * The instructions that stay in their frame

    Every instruction that is run on a stack its check accepts leaves the
    machine well formed, and meets none of the failures its assertions guard
    against. First come the lemmas the proofs of all instructions share. *)

From S2P Require Import Prelude Builtins Source Bytecode Compile Pointer Chain Arith Memory Globals Sched Arrays Interpreter Wp SchedFacts Typing MachineOk HeapFacts WorldFacts FrameFacts Snap FrameAlloc.
#[local] Open Scope Z_scope.

(** ** What all instructions share

    What the check of the program says, loops, errors, and the end of an
    instruction. *)

(** ** Loops *)

Lemma wp_for_z (I : Z -> task -> Prop) body n : forall i t,
  I i t -> (forall j t, i <= j < i + Z.of_nat n -> I j t -> wp (body j) (fun _ t' => I (j + 1) t') t) ->
  wp (for_z i n body) (fun _ t' => I (i + Z.of_nat n) t') t.
Proof.
  induction n as [|n IH]; intros i t Hi Hb; cbn [for_z].
  - apply wp_ret. by replace (i + Z.of_nat 0) with i by lia.
  - eapply wp_use; [apply Hb; [lia | done]|]. intros [] t1 H1. eapply wp_mono; [apply IH; [done|]|].
    + intros j t2 Hj. apply Hb. lia.
    + cbv beta. intros _ t2. by replace (i + 1 + Z.of_nat n) with (i + Z.of_nat (S n)) by lia.
Qed.

(** ** The program *)

Section checked.
Context (E : env).
Hypothesis Hcheck : checked_env E = true.

Lemma env_size : check_size (e_maxstack E) = true.
Proof. unfold checked_env, check_program in Hcheck. rewrite !andb_true_iff in Hcheck. tauto. Qed.

Lemma env_error : exists i, 0 <= p_erroraddr (e_prog E) /\
  instructions (p_comp (e_prog E)) !! Z.to_nat (p_erroraddr (e_prog E)) = Some i /\ i_opcode i = OP_ERROR.
Proof.
  assert (H := Hcheck). unfold checked_env, check_program in H. rewrite !andb_true_iff in H. destruct H as ((((_ & H) & _) & _) & _).
  unfold check_error in H. destruct (zlookup _ _) as [i|] eqn:Ei; [|done]. apply zlookup_Some in Ei as [? ?].
  exists i. by apply bool_decide_eq_true in H.
Qed.

Lemma env_finfo fno fi : zlookup (p_finfo (e_prog E)) fno = Some fi ->
  0 <= fi_name fi < Z.of_nat (length (stringmap (p_comp (e_prog E)))).
Proof.
  intros [_ Hfi]%zlookup_Some. assert (H := Hcheck). unfold checked_env, check_program in H. rewrite !andb_true_iff in H.
  destruct H as (((_ & H) & _) & _). rewrite forallb_forall in H. specialize (H fi). unfold check_finfo in H.
  rewrite andb_true_iff, Z.leb_le, Z.ltb_lt in H. apply H. apply list_elem_of_In. by eapply list_elem_of_lookup_2.
Qed.

Lemma env_instr pc i : instructions (p_comp (e_prog E)) !! pc = Some i ->
  check_instr (e_prog E) (e_typing E) (e_maxstack E) (Z.of_nat (length (e_strings E))) pc i = true.
Proof.
  intros Hi. assert (H := Hcheck). unfold checked_env, check_program in H. rewrite !andb_true_iff in H. destruct H as ((_ & H) & _).
  rewrite forallb_forall in H. apply (H (pc, i)). apply list_elem_of_In. apply list_elem_of_lookup. exists pc.
  unfold ops. rewrite list_lookup_imap, Hi. done.
Qed.

(** Typed addresses are those of instructions. *)
Lemma env_typed pc pt : zlookup (e_typing E) pc = Some (Some pt) -> 0 <= pc /\ is_Some (instructions (p_comp (e_prog E)) !! Z.to_nat pc).
Proof.
  intros [H0 Ht]%zlookup_Some. split; [done|]. assert (H := Hcheck). unfold checked_env, check_program in H. rewrite !andb_true_iff in H.
  destruct H as (_ & H). apply Z.leb_le in H. apply lookup_lt_Some in Ht. apply lookup_lt_is_Some_2. unfold ops in H. lia.
Qed.

(** An entry of a function. *)
Lemma entry_inv address arity :
  entry (e_prog E) (e_typing E) (e_maxstack E) address arity = true ->
  0 <= address /\ 0 <= arity <= e_maxstack E /\
  (exists i, instructions (p_comp (e_prog E)) !! Z.to_nat address = Some i /\ i_opcode i = OP_GLOBSTART) /\
  goes (e_typing E) (address + 1) false (replicate (Z.to_nat arity) SAny) = true.
Proof.
  unfold entry. rewrite !andb_true_iff, !Z.leb_le. intros (((H1 & H2) & H3) & H4).
  unfold ops in H1. destruct (zlookup _ _) as [i|] eqn:Ei; [|done]. apply zlookup_Some in Ei as [? ?]. apply bool_decide_eq_true in H1. eauto 10.
Qed.

(** The typing accepts a stack that is [n] values of any kind. *)
Lemma goes_any pc n :
  goes (e_typing E) pc false (replicate n SAny) = true ->
  exists pt, zlookup (e_typing E) pc = Some (Some pt) /\ pt_main pt = false /\ (length (pt_stack pt) <= n)%nat /\
    forall i ty, pt_stack pt !! i = Some ty -> ty = SAny /\ (i < n)%nat.
Proof.
  unfold goes. destruct (zlookup _ _) as [[pt|]|]; try done. rewrite andb_true_iff. intros [Hm Hs]. exists pt.
  split_and!; [done | by destruct (pt_main pt) | |].
  - apply sub_st_length in Hs. by rewrite length_replicate in Hs.
  - intros i ty Hi. destruct (sub_st_lookup _ _ _ _ Hs Hi) as (ty' & Hi' & Hty).
    apply lookup_replicate in Hi' as [-> Hlt]. by destruct ty.
Qed.

(** A frame about to run a function, with its arguments in place. *)
Lemma started_entry h k address arity :
  entry (e_prog E) (e_typing E) (e_maxstack E) address arity = true -> k_instr k = Some (address + 1) ->
  (forall i, (i < Z.to_nat arity)%nat -> exists p, k_data k !! i = Some p /\ visible E h p) -> started E h k.
Proof.
  intros He Hk Hd. destruct (entry_inv _ _ He) as (_ & Ha & _ & Hg). destruct (goes_any _ _ Hg) as (pt & Hpt & Hm & Hl & Hs).
  exists (address + 1), pt. split_and!; [done | done | done | lia|]. intros i ty Hi. destruct (Hs i ty Hi) as [-> Hlt]. split; [done | by apply Hd].
Qed.

Section ops.
Context (h : gmap Z object) (ks : gmap Z core) (q : queues) (i : bool) (t : task).
Hypothesis S : snap E h ks q i t.

Lemma wp_bc_funinfo fno fi Q : zlookup (p_finfo (e_prog E)) fno = Some fi -> Q fi t -> wp (bc_funinfo fno) Q t.
Proof.
  intros [H0 Hfi]%zlookup_Some HQ. apply wp_bind, wp_gets. rewrite (mi_prog _ _ (sn_misc _ _ _ _ _ _ S)).
  eapply wp_lift; [|done]. unfold get_finfo. rewrite (proj2 (Z.leb_le _ _)) by done. cbn. by rewrite Hfi.
Qed.

Lemma wp_bc_string n Q :
  0 <= n < Z.of_nat (length (stringmap (p_comp (e_prog E)))) -> (forall s, Q s t) -> wp (bc_string n) Q t.
Proof.
  intros Hn HQ. apply wp_bind, wp_gets, wp_bind, wp_massert; [apply Z.leb_le; lia|].
  rewrite (mi_prog _ _ (sn_misc _ _ _ _ _ _ S)). destruct (lookup_lt_is_Some_2 (stringmap (p_comp (e_prog E))) (Z.to_nat n)) as [s Hs]; [lia|].
  by eapply wp_mderef.
Qed.

Lemma wp_check_globstart address arity Q :
  entry (e_prog E) (e_typing E) (e_maxstack E) address arity = true -> Q tt t -> wp (check_globstart address) Q t.
Proof.
  intros He HQ. destruct (entry_inv _ _ He) as (H0 & _ & (j & Hj & Hop) & _). apply wp_bind, wp_gets.
  apply wp_bind, wp_massert; [by apply Z.leb_le|]. apply wp_bind. eapply wp_mderef.
  { by rewrite (mi_prog _ _ (sn_misc _ _ _ _ _ _ S)). }
  apply wp_massert; [|done]. by rewrite (bool_decide_true _ Hop).
Qed.

Lemma wp_enter_function newf fno fi k Q :
  zlookup (p_finfo (e_prog E)) fno = Some fi ->
  entry (e_prog E) (e_typing E) (e_maxstack E) (fi_address fi) (fi_arity fi) = true -> ks !! newf = Some k ->
  (forall t', snap E h (<[newf := sk_instr (Some (fi_address fi + 1)) k]> ks) q i t' -> Q tt t') -> wp (enter_function newf fno) Q t.
Proof.
  intros Hfi He Hk HQ. destruct (entry_inv _ _ He) as (H0 & _ & (j & Hj & Hop) & _). apply wp_bind. eapply wp_bc_funinfo; [done|].
  apply wp_bind, wp_gets, wp_bind, wp_massert; [by apply Z.leb_le|]. apply wp_bind. eapply wp_mderef.
  { by rewrite (mi_prog _ _ (sn_misc _ _ _ _ _ _ S)). }
  apply wp_bind, wp_massert; [by rewrite (bool_decide_true _ Hop)|]. by eapply snap_set_instr.
Qed.

Lemma wp_new_frame_cell newf k Q :
  ks !! newf = Some k ->
  (forall a c t', h !! a = None -> 8 <= a -> c_type c = CELL_FRAME -> c_field1 c = make_pntr newf ->
     snap E (<[a := OCell c]> h) (<[newf := sk_c a k]> ks) q i t' -> Q a t') -> wp (new_frame_cell newf) Q t.
Proof.
  intros Hk HQ. apply wp_bind. eapply snap_alloc_cell; [done|]. intros a fl t1 Ha H8 S1.
  apply wp_bind. eapply snap_init_cell; [exact S1 | by rewrite lookup_insert_eq|]. intros t2 S2. rewrite insert_insert_eq in S2. cbn [c_flags c_field2] in S2.
  apply wp_bind. eapply snap_set_c; [exact S2 | done|]. intros t3 S3. apply wp_ret. eapply HQ; [done | done | | | exact S3]; done.
Qed.
End ops.

(** Copies of slots from one frame to another. *)
Lemma wp_copy_slots (P : pntr -> Prop) h ks q i t src from dst to n ksrc kdst Q :
  snap E h ks q i t -> ks !! src = Some ksrc -> ks !! dst = Some kdst -> src <> dst -> 0 <= from -> 0 <= to -> 0 <= n ->
  (forall j, from <= j < from + n -> exists p, k_data ksrc !! Z.to_nat j = Some p /\ P p) ->
  to + n <= Z.of_nat (length (k_data kdst)) ->
  (forall d t', length d = length (k_data kdst) ->
     (forall j, (j < Z.to_nat to)%nat -> d !! j = k_data kdst !! j) ->
     (forall j, (Z.to_nat to <= j < Z.to_nat (to + n))%nat -> exists p, d !! j = Some p /\ P p) ->
     snap E h (<[dst := sk_data d kdst]> ks) q i t' -> Q tt t') ->
  wp (copy_slots src from dst to n) Q t.
Proof.
  intros S Hsrc Hdst Hne Hf Ht Hn Hv Hlen HQ. unfold copy_slots.
  set (I := fun (j : Z) (t' : task) => exists d, length d = length (k_data kdst) /\
     (forall x, (x < Z.to_nat to)%nat -> d !! x = k_data kdst !! x) /\
     (forall x, (Z.to_nat to <= x < Z.to_nat (to + j))%nat -> exists p, d !! x = Some p /\ P p) /\
     snap E h (<[dst := sk_data d kdst]> ks) q i t').
  eapply wp_mono; [apply (wp_for_z I)|].
  - exists (k_data kdst). split_and!; [done | done | lia|]. rewrite insert_id; [done|]. rewrite Hdst. by destruct kdst.
  - intros j t1 Hj (d & D1 & D2 & D3 & S1). rewrite Z2Nat.id in Hj by done. destruct (Hv (from + j)) as (p & Hp & Hvis); [lia|].
    apply wp_bind. eapply snap_get_slot; [done | by rewrite lookup_insert_ne | lia | done|].
    eapply snap_set_slot; [done | by rewrite lookup_insert_eq | cbn; lia|]. intros t2 S2. rewrite insert_insert_eq in S2. cbn [sk_data k_data] in S2.
    exists (<[Z.to_nat (to + j) := p]> d). split_and!; [by rewrite length_insert | | |exact S2].
    + intros x Hx. rewrite list_lookup_insert_ne by lia. by apply D2.
    + intros x Hx. destruct (decide (x = Z.to_nat (to + j))) as [->|Hxj].
      * exists p. rewrite list_lookup_insert_eq by lia. done.
      * rewrite list_lookup_insert_ne by done. apply D3. lia.
  - cbv beta. intros [] t1 (d & D1 & D2 & D3 & S1). rewrite Z2Nat.id in D3 by done. by eapply HQ.
Qed.
End checked.

(** ** Stacks that change in one place *)

Definition set_ty (n : nat) (ty : slot_ty) (st st' : stack_ty) : Prop :=
  forall j x, st' !! j = Some x -> (j = n /\ x = ty) \/ (j <> n /\ st !! j = Some x).

Lemma set_ty_snoc ty st : set_ty (length st) ty st (st ++ [ty]).
Proof. intros j x [[Hj H]|[-> <-]]%lookup_snoc_Some; [right; split; [lia | done] | by left]. Qed.

Lemma set_ty_insert n ty st : set_ty n ty st (<[n := ty]> st).
Proof. intros j x [(-> & -> & _)|[Hn H]]%list_lookup_insert_Some; [by left | right; done]. Qed.

Lemma set_ty_insert_twice n ty x st : set_ty n ty (<[n := x]> st) (<[n := ty]> st).
Proof.
  intros j y [(-> & -> & _)|[Hn H]]%list_lookup_insert_Some; [by left|]. right. split; [done|].
  rewrite <- H. by apply list_lookup_insert_ne.
Qed.

Lemma length_set_ty n ty (st : stack_ty) : length (<[n := ty]> st) = length st.
Proof. apply length_insert. Qed.

Lemma set_ty_top n ty st :
  0 <= n <= Z.of_nat (length st) -> set_ty (Z.to_nat (Z.of_nat (length st) - n)) ty st (replace_top n ty st).
Proof.
  intros Hn j x H. unfold replace_top, ztake in H. set (m := Z.to_nat _) in *.
  assert (length (take m st) = m) as Hl by (rewrite length_take; lia).
  apply lookup_snoc_Some in H as [[Hj H]|[-> <-]].
  - rewrite lookup_take_Some in H. rewrite Hl in Hj. right. split; [lia | apply H].
  - left. by rewrite Hl.
Qed.

Lemma replace_top_length n ty st :
  0 <= n <= Z.of_nat (length st) -> Z.of_nat (length (replace_top n ty st)) = Z.of_nat (length st) - n + 1.
Proof. intros Hn. unfold replace_top, ztake. rewrite length_app, length_take. cbn. lia. Qed.

Lemma zlookup_nat {A} (l : list A) n x : zlookup l n = Some x -> exists i, n = Z.of_nat i /\ l !! i = Some x.
Proof. intros [? ?]%zlookup_Some. exists (Z.to_nat n). split; [lia | done]. Qed.

Lemma slot_is_inv st n p : slot_is st n p = true -> exists i ty, n = Z.of_nat i /\ st !! i = Some ty /\ p ty = true.
Proof.
  unfold slot_is. destruct (zlookup st n) as [ty|] eqn:En; [|done]. intros Hp.
  destruct (zlookup_nat _ _ _ En) as (i & -> & Hi). eauto.
Qed.

(** Nothing is known any more of the top. *)
Lemma sub_st_replace n st : 1 <= n <= Z.of_nat (length st) -> sub_st (replace_top n SAny st) st = true.
Proof.
  intros Hn. unfold replace_top, ztake. set (m := Z.to_nat _). assert (m < length st)%nat as Hm by lia. clearbody m. clear Hn n.
  revert m Hm. induction st as [|ty st IH]; intros m Hm; [cbn in Hm; lia|]. destruct m as [|m]; cbn; [done|]. rewrite IH by (cbn in Hm; lia). by destruct ty.
Qed.

(** ** Storing a value *)

Section store.
Context (E : env).
Implicit Types (h : gmap Z object) (ks : gmap Z core) (q : queues) (k : core) (t : task).

Lemma snap_store f main st st' h ks q i t k n v ty Q :
  snap E h ks q i t -> good E (Some (f, PcTy main st)) h ks q -> f ∈ q_run q -> ks !! f = Some k -> 0 <= n < e_maxstack E ->
  set_ty (Z.to_nat n) ty st st' -> ty <> SHole -> slot_ok E h ty v -> Z.of_nat (length st') <= e_maxstack E ->
  (forall t', let k' := sk_data (<[Z.to_nat n := v]> (k_data k)) k in
     snap E h (<[f := k']> ks) q i t' -> good E (Some (f, PcTy main st')) h (<[f := k']> ks) q -> Q tt t') ->
  wp (set_slot f n v) Q t.
Proof.
  intros S G Hf Hk Hn Hst Hty Hv Hl HQ. destruct (cur_data _ _ _ _ _ _ _ _ G Hf Hk) as (D & _).
  eapply snap_set_slot; [exact S | exact Hk | lia|]. intros t2 S2. apply HQ; [exact S2|].
  eapply good_cur_upd; [exact G | exact Hf | exact Hk | done | by cbn; rewrite length_insert | done | done | |].
  - cbn. intros j x Hj. destruct (Hst j x Hj) as [[-> ->]|[Hne Hx]].
    + exists v. rewrite list_lookup_insert_eq by lia. done.
    + rewrite list_lookup_insert_ne by done. by eapply cur_slot.
  - cbn. intros j Hj. destruct (Hst j _ Hj) as [[-> ?]|[Hne Hx]]; [done|]. by rewrite list_lookup_insert_ne.
Qed.

(** ** Ends *)

(** Control goes on at [pc'] with a stack the typing accepts. *)
Lemma running_next f main h' ks' q' r' i t' k' st' pc' :
  snap E h' ks' q' i t' -> good E (Some (f, PcTy main st')) h' ks' q' -> q_run q' = f :: r' -> ks' !! f = Some k' ->
  k_instr k' = Some pc' -> goes (e_typing E) pc' main st' = true -> machine_ok E t'.
Proof.
  intros S G Hr Hk Hpc Hgo. left. exists h', ks', q', i. split_and!; [done | | by rewrite Hr].
  eapply good_next; [exact G | rewrite Hr; left | done..].
Qed.

Lemma running_none h' ks' q' i t' :
  snap E h' ks' q' i t' -> good E None h' ks' q' -> (q_run q' = [] -> i = true) -> machine_ok E t'.
Proof. intros S G Hr. left. by exists h', ks', q', i. Qed.

(** The last act of many instructions. *)
Lemma wp_store f main st st' h ks q r i t k n v ty pc' :
  snap E h ks q i t -> good E (Some (f, PcTy main st)) h ks q -> q_run q = f :: r -> ks !! f = Some k -> k_instr k = Some pc' ->
  0 <= n < e_maxstack E ->
  set_ty (Z.to_nat n) ty st st' -> ty <> SHole -> slot_ok E h ty v -> Z.of_nat (length st') <= e_maxstack E ->
  goes (e_typing E) pc' main st' = true ->
  wp (set_slot f n v) (fun _ t' => machine_ok E t') t.
Proof.
  intros S G Hr Hk Hpc Hn Hst Hty Hv Hl Hgo. eapply snap_store; [exact S | exact G | rewrite Hr; left | exact Hk | exact Hn | exact Hst | done..|].
  intros t' k' S' G'. eapply running_next; [exact S' | exact G' | exact Hr | by rewrite lookup_insert_eq | exact Hpc | exact Hgo].
Qed.
End store.

Section exec.
Context (E : env).
Hypothesis Hcheck : checked_env E = true.
Context (f pc : Z) (instr : instruction) (main : bool) (st : stack_ty).
Context (h : gmap Z object) (ks : gmap Z core) (q : queues) (r : list Z) (k : core) (t : task).

(** The frame [f] executes [instr] on a stack of type [st]. *)
Record executing : Prop := {
  ex_snap : snap E h ks q false t;
  ex_good : good E (Some (f, PcTy main st)) h ks q;
  ex_run : q_run q = f :: r;
  ex_core : ks !! f = Some k;
  ex_instr : k_instr k = Some (pc + 1);
  ex_pc : 0 <= pc;
  ex_at : instructions (p_comp (e_prog E)) !! Z.to_nat pc = Some instr;
  ex_expcount : i_expcount instr = Z.of_nat (length st);
  ex_check : check_op (e_prog E) (e_typing E) (e_maxstack E) (Z.of_nat (length (e_strings E))) pc main st instr = true;
  ex_pos : check_pos (e_prog E) instr = true
}.
Hypothesis X : executing.

Lemma f_running : f ∈ q_run q.
Proof. rewrite (ex_run X). left. Qed.

Lemma f_slot i ty : st !! i = Some ty -> exists p, k_data k !! i = Some p /\ slot_ok E h ty p.
Proof. intros Hi. eapply cur_slot; [apply (ex_good X) | apply f_running | apply (ex_core X) | done]. Qed.

Lemma f_data_ok : Z.of_nat (length (k_data k)) = e_maxstack E /\ Z.of_nat (length st) <= e_maxstack E.
Proof. destruct (cur_data _ _ _ _ _ _ _ _ (ex_good X) f_running (ex_core X)) as (? & ? & _). done. Qed.

(** ** Going on *)

(** Nothing changes but the program counter. *)
Lemma skip_ok : goes (e_typing E) (pc + 1) main st = true -> machine_ok E t.
Proof. intros Hgo. eapply running_next; [apply (ex_snap X) | apply (ex_good X) | apply (ex_run X) | apply (ex_core X) | apply (ex_instr X) | done]. Qed.

Lemma wp_goto pc' :
  goes (e_typing E) pc' main st = true \/ goes (e_typing E) pc' false st = true ->
  wp (set_instr f pc') (fun _ t' => machine_ok E t') t.
Proof.
  intros Hgo. eapply snap_set_instr; [apply (ex_snap X) | apply (ex_core X)|]. intros t' S'.
  assert (goes (e_typing E) pc' main st = true) as Hgo'.
  { destruct Hgo as [?|Hgo]; [done|]. revert Hgo. unfold goes. destruct (zlookup _ _) as [[pt|]|]; try done.
    destruct (pt_main pt); [done|]. done. }
  eapply running_next; [exact S' | | apply (ex_run X) | by rewrite lookup_insert_eq | reflexivity | exact Hgo'].
  assert (D := f_data_ok).
  eapply good_cur_upd; [apply (ex_good X) | apply f_running | apply (ex_core X) | done | done | apply D | done | apply f_slot | done].
Qed.

Lemma wp_jump_by : goes (e_typing E) (pc + i_arg0 instr) main st = true -> wp (jump_by f instr) (fun _ t' => machine_ok E t') t.
Proof.
  intros Hgo. unfold jump_by. apply wp_bind. eapply snap_get_frame; [apply (ex_snap X) | apply (ex_core X)|].
  intros fr Hfr Ek. assert (f_instr fr = Some (pc + 1)) as Ei by (rewrite <- (ex_instr X), <- Ek; done).
  apply wp_bind. eapply wp_mderef; [exact Ei|]. apply wp_goto. left. by replace (pc + 1 + i_arg0 instr - 1) with (pc + i_arg0 instr) by lia.
Qed.

(** ** Errors *)

(** An error has been recorded; the frame's slots and the heap are as they
    were. *)
Definition errored (t' : task) : Prop :=
  failing E t' /\ t_heap t' = h /\ t_globnilpntr t' = e_nil E /\
  exists fr, t_frames t' !! f = Some fr /\ core_of fr = sk_instr (Some (p_erroraddr (e_prog E))) k.

Lemma instr_pos : pos_ok E (i_fileno instr).
Proof.
  assert (H := ex_pos X). unfold check_pos, pos_ok in *. apply orb_true_iff in H. rewrite !Z.ltb_lt in H. lia.
Qed.

Lemma wp_set_error msg Q : (forall t', errored t' -> Q tt t') -> wp (set_error msg) Q t.
Proof.
  intros HQ. assert (S := ex_snap X). assert (M := sn_misc _ _ _ _ _ _ S). unfold set_error. apply wp_bind, wp_gets.
  rewrite (mi_error _ _ M). apply wp_bind, wp_massert; [done|]. apply wp_bind, wp_gets, wp_bind, wp_modify, wp_bind, wp_gets.
  destruct (snap_head _ _ _ _ _ _ _ _ S (ex_run X)) as [Hf Hf0].
  set (t1 := set_task_error _ _ t). change (t_run t1) with (t_run t). rewrite Hf, (proj2 (Z.eqb_neq _ _)) by done.
  assert (Hk := ex_core X). rewrite <- (sn_cores _ _ _ _ _ _ S) in Hk. destruct (core_frame _ _ _ Hk) as (fr & Hfr & Ek).
  apply wp_bind. eapply wp_get_frame; [exact Hfr|]. apply wp_bind. eapply (wp_mderef _ (pc + 1)).
  { rewrite <- (ex_instr X), Ek. done. }
  apply wp_bind, wp_gets, wp_bind, wp_massert; [apply Z.leb_le; pose proof (ex_pc X); lia|].
  change (t_prog t1) with (t_prog t). rewrite (mi_prog _ _ M).
  apply wp_bind. eapply (wp_mderef _ instr); [rewrite <- (ex_at X); do 2 f_equal; lia|].
  apply wp_bind, wp_modify, wp_bind. unfold set_instr. eapply wp_upd_frame; [exact Hfr|]. apply wp_modify, HQ.
  split_and!.
  - split_and!; [by eexists | apply instr_pos | apply M|]. right. exists f. eexists. split_and!; [done | done | cbn; by rewrite lookup_insert_eq | done].
  - apply S.
  - apply M.
  - eexists. cbn. rewrite lookup_insert_eq. split; [done|]. by rewrite Ek.
Qed.

Lemma wp_fail msg : wp (set_error msg) (fun _ t' => machine_ok E t') t.
Proof. apply wp_set_error. intros t' (? & _). by right. Qed.

(** The handler of the floating point exception leaves the instruction. *)
Lemma wp_sigfpe {A} (Q : A -> task -> Prop) (b : builtin) :
  builtin_info !! Z.to_nat (if bool_decide (i_opcode instr = OP_BIF) then i_arg0 instr else i_arg1 instr) = Some b ->
  (bi_nargs b = 2%nat -> (2 <= length st)%nat) -> wp interpreter_sigfpe Q t.
Proof.
  intros Hb Hn. assert (S := ex_snap X). assert (M := sn_misc _ _ _ _ _ _ S). unfold interpreter_sigfpe.
  destruct (snap_head _ _ _ _ _ _ _ _ S (ex_run X)) as [Hf Hf0].
  apply wp_bind, wp_gets. rewrite Hf. apply wp_bind. eapply snap_get_frame; [exact S | apply (ex_core X)|]. intros fr Hfr Ek.
  apply wp_bind. eapply (wp_mderef _ (pc + 1)); [rewrite <- (ex_instr X), <- Ek; done|].
  apply wp_bind, wp_gets, wp_bind, wp_massert; [apply Z.leb_le; pose proof (ex_pc X); lia|]. rewrite (mi_prog _ _ M).
  apply wp_bind. eapply (wp_mderef _ instr); [rewrite <- (ex_at X); do 2 f_equal; lia|].
  assert (forall msg, wp (set_error msg) (fun _ t' => jump_ok t') t) as Hfail.
  { intros msg. apply wp_set_error. intros t' ((H1 & H2 & H3 & _) & _). split; [done|]. by rewrite H3. }
  eapply (wp_use _ _ (fun _ t' => jump_ok t')); [|by intros [] t' H].
  destruct (bool_decide (i_opcode instr = OP_BIF) || bool_decide (i_opcode instr = OP_JCMP)); [|apply Hfail].
  cbv zeta. apply wp_bind. eapply wp_mderef; [exact Hb|]. destruct (Nat.eqb_spec (bi_nargs b) 2) as [E2|]; [|apply Hfail].
  specialize (Hn E2). rewrite (ex_expcount X).
  destruct (lookup_lt_is_Some_2 st (length st - 1)) as [ty1 H1]; [lia|]. destruct (lookup_lt_is_Some_2 st (length st - 2)) as [ty2 H2]; [lia|].
  destruct (f_slot _ _ H1) as (p1 & Hp1 & V1), (f_slot _ _ H2) as (p2 & Hp2 & V2).
  apply slot_ok_visible in V1, V2. destruct (visible_typeof _ _ _ V1) as (y1 & T1 & _), (visible_typeof _ _ _ V2) as (y2 & T2 & _).
  apply wp_bind. eapply snap_get_slot; [exact S | apply (ex_core X) | lia | replace (Z.to_nat _) with (length st - 1)%nat by lia; exact Hp1|].
  apply wp_bind. eapply snap_get_slot; [exact S | apply (ex_core X) | lia | replace (Z.to_nat _) with (length st - 2)%nat by lia; exact Hp2|].
  apply wp_bind. eapply snap_typeof; [exact S | exact T1|]. apply wp_bind. eapply snap_typeof; [exact S | exact T2|].
  destruct (_ || _); apply Hfail.
Qed.
End exec.
