(* ===== verification/OpsSimple.v ===== *)
(** * Jumps, pushes, updates, and the instructions that build objects

    The instructions that read and write slots and cells, then those that
    allocate cells, caps and arrays, one lemma each. *)

From S2P Require Import Prelude Builtins Source Bytecode Compile Pointer Chain Arith Memory Globals Sched Arrays Interpreter Wp SchedFacts Typing MachineOk Store HeapFacts WorldFacts FrameFacts Snap FrameAlloc Ops.
#[local] Open Scope Z_scope.

(** The check of the instruction, for a known opcode. *)
Tactic Notation "checked" constr(X) constr(Hop) ident(C) :=
  assert (C := ex_check _ _ _ _ _ _ _ _ _ _ _ _ X); unfold check_op in C; rewrite Hop in C;
  cbv zeta in C; rewrite ?andb_true_iff in C.

Section simple.
Context (E : env).
Hypothesis Hcheck : checked_env E = true.
Context (f pc : Z) (instr : instruction) (main : bool) (st : stack_ty).
Context (h : gmap Z object) (ks : gmap Z core) (q : queues) (r : list Z) (k : core) (t : task).
Hypothesis X : executing E f pc instr main st h ks q r k t.
#[local] Abbreviation ok := (fun _ t' => machine_ok E t').

Lemma the_snap : snap E h ks q false t.
Proof. apply X. Qed.
Lemma the_good : good E (Some (f, PcTy main st)) h ks q.
Proof. apply X. Qed.
Lemma the_core : ks !! f = Some k.
Proof. apply X. Qed.
Lemma the_exp : i_expcount instr = Z.of_nat (length st).
Proof. apply X. Qed.

(** A slot by its number. *)
Lemma wp_slot n i ty Q :
  st !! i = Some ty -> n = Z.of_nat i ->
  (forall p, k_data k !! i = Some p -> slot_ok E h ty p -> Q p t) -> wp (get_slot f n) Q t.
Proof.
  intros Hi -> HQ. destruct (f_slot _ _ _ _ _ _ _ _ _ _ _ _ X _ _ Hi) as (p & Hp & Hok).
  eapply snap_get_slot; [apply the_snap | apply the_core | lia | by rewrite Nat2Z.id | by apply HQ].
Qed.

(** The top of the stack, when it has been evaluated. *)
Lemma wp_top Q :
  top_is_val st = true ->
  (forall p, whnf E h p -> k_data k !! (length st - 1)%nat = Some p -> Q p t) -> wp (get_slot f (i_expcount instr - 1)) Q t.
Proof.
  intros Ht HQ. unfold top_is_val in Ht. destruct (slot_is_inv _ _ _ Ht) as (i & ty & Hi & Hst & Hv).
  apply bool_decide_eq_true in Hv as ->. eapply wp_slot; [exact Hst | rewrite the_exp; lia|]. intros p Hp Hok.
  apply HQ; [done|]. by replace (length st - 1)%nat with i by lia.
Qed.

Lemma begin_ok : i_opcode instr = OP_BEGIN -> wp (op_begin f instr) ok t.
Proof. intros Hop. checked X Hop C. apply wp_ret. by eapply skip_ok. Qed.

Lemma pop_ok : i_opcode instr = OP_POP -> wp (op_pop f instr) ok t.
Proof. intros Hop. checked X Hop C. apply wp_ret. by eapply skip_ok. Qed.

Lemma jfun_ok : i_opcode instr = OP_JFUN -> wp (op_jfun f instr) ok t.
Proof.
  intros Hop. checked X Hop C. unfold op_jfun. destruct (zlookup _ (i_arg0 instr)) as [fi|] eqn:Efi; [|done].
  apply wp_bind. eapply wp_bc_funinfo; [exact the_snap | exact Efi|].
  destruct (i_arg1 instr =? 2); [eapply wp_goto; [exact X | by right]|].
  destruct (i_arg1 instr =? 1); [eapply wp_goto; [exact X | by right]|].
  apply andb_true_iff in C as [C1 C2]. apply wp_bind. eapply wp_check_globstart; [exact the_snap | exact C1|].
  eapply wp_goto; [exact X | by right].
Qed.

Lemma jump_ok_ : i_opcode instr = OP_JUMP -> wp (op_jump f instr) ok t.
Proof. intros Hop. checked X Hop C. by eapply wp_jump_by. Qed.

(** A CAP cell and its cap. *)
Lemma cap_of p ty :
  whnf E h p -> pntrtype h p = Some ty -> ty = CELL_CAP ->
  exists c x fl n cp, h !! p_lo p = Some (OCell c) /\ get_pntr (c_field1 c) = Done x /\ h !! x = Some (OCap fl n cp) /\ cap_ok E h cp.
Proof.
  intros Hp Hty ->. destruct (visible_cell _ _ _ _ (whnf_is_visible _ _ _ Hp) Hty ltac:(done)) as (_ & _ & c & Hc & Hct).
  destruct (ce_cap _ _ _ _ _ (gd_heap _ _ _ _ _ the_good _ _ Hc) Hct) as (x & fl & n & cp & Hx & Hcp).
  exists c, x, fl, n, cp. split_and!; [done..|]. exact (gd_heap _ _ _ _ _ the_good _ _ Hcp).
Qed.

Lemma wp_function_name fno Q :
  is_Some (zlookup (p_finfo (e_prog E)) fno) -> (forall s, Q s t) -> wp (bc_function_name fno) Q t.
Proof.
  intros [fi Hfi] HQ. unfold bc_function_name. destruct (fno <? 0); [by apply wp_ret|].
  apply wp_bind. eapply wp_bc_funinfo; [exact the_snap | exact Hfi|].
  eapply wp_bc_string; [exact the_snap | by eapply env_finfo | done].
Qed.

Lemma wp_cap_error p Q :
  whnf E h p -> pntrtype h p = Some CELL_CAP -> (forall t', errored E f h k t' -> Q tt t') -> wp (cap_error p) Q t.
Proof.
  intros Hp Hty HQ. destruct (cap_of _ _ Hp Hty eq_refl) as (c & x & fl & n & cp & Hc & Hx & Hcp & Hok).
  unfold cap_error. apply wp_bind. eapply snap_typeof; [exact the_snap | exact Hty|]. apply wp_bind, wp_massert; [done|].
  apply wp_bind. eapply snap_get_cell; [exact the_snap | exact Hc|]. apply wp_bind. eapply wp_lift; [exact Hx|].
  apply wp_bind. eapply snap_get_cap; [exact the_snap | exact Hcp|]. apply wp_bind, wp_function_name; [apply Hok|]. intros name.
  cbv zeta. destruct (Z.leb_spec 0 (sl_fileno (cap_sl cp))); [|by eapply wp_set_error].
  apply wp_bind. eapply wp_bc_string; [exact the_snap | split; [done | apply Hok]|]. intros s. by eapply wp_set_error.
Qed.

Lemma cap_error_ok p : whnf E h p -> pntrtype h p = Some CELL_CAP -> wp (cap_error p) ok t.
Proof. intros Hp Hty. apply wp_cap_error; [done | done|]. intros t' (H & _). by right. Qed.

Lemma jfalse_ok : i_opcode instr = OP_JFALSE -> wp (op_jfalse f instr) ok t.
Proof.
  intros Hop. checked X Hop C. destruct C as ((C1 & C2) & C3). unfold op_jfalse. apply wp_bind, wp_top; [done|]. intros p Hp _.
  destruct (whnf_ty _ _ _ Hp) as (ty & Hty & N1 & N2 & N3 & N4). apply wp_bind. eapply snap_typeof; [exact the_snap | exact Hty|].
  apply wp_bind, wp_massert; [by apply negb_true_iff, Z.eqb_neq|]. apply wp_bind, wp_massert; [by apply negb_true_iff, Z.eqb_neq|].
  apply wp_bind, wp_massert; [by apply negb_true_iff, Z.eqb_neq|].
  destruct (Z.eqb_spec ty CELL_CAP) as [->|]; [by apply cap_error_ok|].
  destruct (ty =? CELL_NIL); [by eapply wp_jump_by | apply wp_ret; by eapply skip_ok].
Qed.

(** ** Pushes *)

Lemma wp_push_value v ty :
  ty <> SHole -> slot_ok E h ty v -> Z.of_nat (length st) < e_maxstack E ->
  goes (e_typing E) (pc + 1) main (st ++ [ty]) = true -> wp (set_slot f (i_expcount instr) v) ok t.
Proof.
  intros Hty Hv Hl Hgo. rewrite the_exp. eapply wp_store; [exact the_snap | exact the_good | apply X | apply X | apply X | lia | |done | done | |done].
  - rewrite Nat2Z.id. apply set_ty_snoc.
  - rewrite length_app. cbn. lia.
Qed.

Lemma push_ok : i_opcode instr = OP_PUSH -> wp (op_push f instr) ok t.
Proof.
  intros Hop. checked X Hop C. destruct C as (C1 & C2). apply Z.ltb_lt in C1. destruct (zlookup st (i_arg0 instr)) as [ty|] eqn:Ez; [|done].
  destruct (zlookup_nat _ _ _ Ez) as (i & Ei & Hi). unfold op_push. apply wp_bind. eapply wp_slot; [exact Hi | exact Ei|]. intros p Hp Hok.
  eapply wp_push_value; [|by eapply slot_ok_copy | done | done]. by destruct ty.
Qed.

Lemma pushnil_ok : i_opcode instr = OP_PUSHNIL -> wp (op_pushnil f instr) ok t.
Proof.
  intros Hop. checked X Hop C. destruct C as (C1 & C2). apply Z.ltb_lt in C1. apply wp_bind, wp_gets.
  rewrite (mi_nil _ _ (sn_misc _ _ _ _ _ _ the_snap)). eapply (wp_push_value _ SVal); [done | exact (gd_nil _ _ _ _ _ the_good) | done | done].
Qed.

Lemma pushnumber_ok : i_opcode instr = OP_PUSHNUMBER -> wp (op_pushnumber f instr) ok t.
Proof.
  intros Hop. checked X Hop C. destruct C as ((C1 & C2) & C3). apply Z.ltb_lt in C1. apply negb_true_iff in C2.
  eapply (wp_push_value _ SVal); [done | by apply number_points | done | exact C3].
Qed.

Lemma pushstring_ok : i_opcode instr = OP_PUSHSTRING -> wp (op_pushstring f instr) ok t.
Proof.
  intros Hop. checked X Hop C. destruct C as (((C1 & C2) & C3) & C4). apply Z.ltb_lt in C1, C3. apply wp_bind, wp_gets, wp_bind, wp_massert; [done|].
  rewrite (mi_strings _ _ (sn_misc _ _ _ _ _ _ the_snap)). apply Z.leb_le in C2.
  destruct (lookup_lt_is_Some_2 (e_strings E) (Z.to_nat (i_arg0 instr))) as [s Hs]; [lia|]. apply wp_bind. eapply wp_mderef; [exact Hs|].
  eapply (wp_push_value _ SVal); [done | |done | exact C4].
  exact (Forall_lookup_1 _ _ _ _ (gd_strings _ _ _ _ _ the_good) Hs).
Qed.

(** ** Tests *)

Lemma jeq_ok : i_opcode instr = OP_JEQ -> wp (op_jeq f instr) ok t.
Proof.
  intros Hop. checked X Hop C. destruct C as ((C1 & C2) & C3). unfold op_jeq. apply wp_bind, wp_top; [done|]. intros p Hp _.
  destruct (whnf_ty _ _ _ Hp) as (ty & Hty & _). apply wp_bind. eapply snap_typeof; [exact the_snap | exact Hty|].
  destruct (negb (ty =? CELL_NUMBER)); [by eapply wp_fail|].
  destruct (feqb _ _); [by eapply wp_jump_by | apply wp_ret; by eapply skip_ok].
Qed.

Lemma wp_compare a b Q :
  i_opcode instr = OP_JCMP -> Z.to_nat (i_arg1 instr) ∈ [B_EQ; B_NE; B_LT; B_LE; B_GT; B_GE] -> 0 <= i_arg1 instr ->
  (2 <= length st)%nat -> (forall c : bool, Q c t) -> wp (compare (i_arg1 instr) a b) Q t.
Proof.
  intros Hop Hin H0 Hl HQ.
  assert (forall o : option bool, wp (trapping o) Q t) as Htrap.
  { intros [c|]; cbn [trapping]; [by apply wp_ret|].
    assert (exists bi, builtin_info !! Z.to_nat (i_arg1 instr) = Some bi) as [bi Hbi].
    { rewrite !elem_of_cons, elem_of_nil in Hin. repeat destruct Hin as [->|Hin]; [eexists; reflexivity..|done]. }
    eapply wp_sigfpe; [exact X | rewrite Hop; exact Hbi | done]. }
  unfold compare. repeat (case_match; [first [apply wp_ret, HQ | apply Htrap]|]). exfalso.
  rewrite !elem_of_cons, elem_of_nil in Hin. repeat match goal with H : (_ =? _) = false |- _ => apply Z.eqb_neq in H end. lia.
Qed.

Lemma op_jcmp_ok : i_opcode instr = OP_JCMP -> wp (op_jcmp f instr) ok t.
Proof.
  intros Hop. checked X Hop C. destruct C as (((((C1 & C2) & C3) & C4) & C5) & C6). apply bool_decide_eq_true in C3. apply Z.leb_le in C4.
  unfold op_jcmp. apply wp_bind, wp_top; [done|]. intros p1 Hp1 _.
  destruct (slot_is_inv _ _ _ C2) as (i & ty & Ei & Hi & Hv). apply bool_decide_eq_true in Hv as ->.
  assert (Hlt := lookup_lt_Some _ _ _ Hi). apply wp_bind. eapply wp_slot; [exact Hi | rewrite the_exp; lia|]. intros p2 _ Hp2.
  destruct (whnf_ty _ _ _ Hp1) as (y1 & T1 & _), (whnf_ty _ _ _ Hp2) as (y2 & T2 & _).
  apply wp_bind. eapply snap_typeof; [exact the_snap | exact T1|]. apply wp_bind. eapply snap_typeof; [exact the_snap | exact T2|].
  destruct (_ || _).
  - assert (exists bi, builtin_info !! Z.to_nat (i_arg1 instr) = Some bi) as [bi Hbi].
    { rewrite !elem_of_cons, elem_of_nil in C3. repeat destruct C3 as [->|C3]; [eexists; reflexivity..|done]. }
    apply wp_bind, wp_bind. eapply wp_mderef; [exact Hbi|]. apply wp_ret. by eapply wp_fail.
  - apply wp_bind, wp_compare; [done | done | done | lia|]. intros []; [apply wp_ret; by eapply skip_ok | by eapply wp_jump_by].
Qed.
End simple.

(** ** The instructions that build and update cells *)

(** ** Values in changed heaps *)

Section values.
Context (E : env).
Implicit Types (h : gmap Z object) (ks : gmap Z core) (q : queues) (k : core) (t : task).

Lemma fresh_not_hid cur h ks q a : good E cur h ks q -> h !! a = None -> a ∉ hid E.
Proof. intros G Ha Hin. destruct (gd_hidden _ _ _ _ _ G _ Hin) as [x Hx]. congruence. Qed.

(** A pointer to a new cell. *)
Lemma points_new h ok a c : h !! a = Some (OCell c) -> (a ∉ hid E) -> ok (c_type c) = true -> c_type c <> CELL_AREF -> points E h ok (make_pntr a).
Proof. intros Ha Hn Hok Ht _. exists c. split_and!; done. Qed.

(** To a reference to an array that is not empty: its first element. *)
Lemma points_new_array h a c x fl n arr : h !! a = Some (OCell c) -> (a ∉ hid E) -> c_type c = CELL_AREF -> c_field1 c = make_pntr x ->
  h !! x = Some (OArray fl n arr) -> 0 < ca_size arr -> whnf E h (make_pntr a).
Proof.
  intros Ha Hn Ht Hf Hx Hs _. exists c. split_and!; [done | by rewrite Ht | done|]. split; [by rewrite Ht|]. intros _.
  exists x, fl, n, arr. rewrite Hf. split_and!; [done | done|]. by change (aref_index (make_pntr a)) with 0.
Qed.

(** What is evaluated resolves to itself. *)
Lemma whnf_resolve n h p : whnf E h p -> resolve n h p = Done p.
Proof.
  intros Hp. destruct (whnf_ty _ _ _ Hp) as (ty & Hty & Hn & _). destruct n; cbn [resolve]; rewrite Hty; cbn [deref mbind outcome_bind];
    by rewrite (proj2 (Z.eqb_neq _ _)).
Qed.

(** The resolution of a slot has the type of a copy of it. *)
Lemma resolve_copy h p p' ty : slot_ok E h ty p -> resolve (size h) h p = Done p' -> visible E h p' -> slot_ok E h (copy_ty ty) p'.
Proof.
  intros Hp Hr Hv. destruct ty; cbn in *; try done. rewrite whnf_resolve in Hr by done. by injection Hr as <-.
Qed.

Lemma visible_object h p : visible E h p -> is_pntr p = true -> is_Some (h !! p_lo p).
Proof. intros H Hp. destruct (H Hp) as (c & Hc & _). eauto. Qed.

(** Nothing is known any more of one slot. *)
Lemma sub_st_any n st : sub_st (<[n := SAny]> st) st = true.
Proof.
  revert n. induction st as [|ty st IH]; intros n; [done|]. destruct n as [|n]; cbn.
  - assert (forall l, sub_st l l = true) as Hr by (induction l as [|[] l IH']; cbn; auto). apply Hr.
  - rewrite IH. by destruct ty.
Qed.

(** ** Filling a cap *)

(** [getv] yields values the heap knows, without changing anything. *)
Lemma wp_push_all (P : pntr -> Prop) (getv : Z -> M pntr) h ks q b fl nb x n : forall i t cp Q,
  snap E (<[x := OCap fl nb cp]> h) ks q b t ->
  (forall j t' cp' R, i <= j < i + Z.of_nat n -> snap E (<[x := OCap fl nb cp']> h) ks q b t' -> (forall p, P p -> R p t') -> wp (getv j) R t') ->
  cap_count cp + Z.of_nat n <= cap_room cp ->
  (forall l t', length l = n -> Forall P l ->
     snap E (<[x := OCap fl nb (Cap (cap_arity cp) (cap_address cp) (cap_fno cp) (cap_sl cp) (cap_c cp) (cap_room cp) (cap_data cp ++ l))]> h) ks q b t' -> Q tt t') ->
  wp (for_z i n (fun j => v ← getv j; cap_push x v)) Q t.
Proof.
  induction n as [|n IH]; intros i t cp Q S Hget Hroom HQ; cbn [for_z].
  - apply wp_ret, (HQ []); [done | done|]. rewrite app_nil_r. by destruct cp.
  - apply wp_bind, wp_bind. eapply Hget; [lia | exact S|]. intros p Hp.
    eapply snap_cap_push; [exact S | by rewrite lookup_insert_eq | lia|]. intros t1 S1. rewrite insert_insert_eq in S1.
    eapply IH; [exact S1 | | unfold cap_count in *; cbn; rewrite length_app; cbn; lia|].
    + intros j t' cp' R Hj. apply Hget. lia.
    + intros l t' Hl Hall S'. apply (HQ (p :: l)); [cbn; lia | by constructor|]. cbn in S'. by rewrite <- app_assoc in S'.
Qed.
End values.

Section heap.
Context (E : env).
Hypothesis Hcheck : checked_env E = true.
Context (f pc : Z) (instr : instruction) (main : bool) (st : stack_ty).
Context (h : gmap Z object) (ks : gmap Z core) (q : queues) (r : list Z) (k : core) (t : task).
Hypothesis X : executing E f pc instr main st h ks q r k t.
#[local] Abbreviation ok := (fun _ t' => machine_ok E t').
#[local] Abbreviation the_good := (the_good _ _ _ _ _ _ _ _ _ _ _ _ X).
#[local] Abbreviation the_snap := (the_snap _ _ _ _ _ _ _ _ _ _ _ _ X).
#[local] Abbreviation the_core := (the_core _ _ _ _ _ _ _ _ _ _ _ _ X).
#[local] Abbreviation the_exp := (the_exp _ _ _ _ _ _ _ _ _ _ _ _ X).
#[local] Abbreviation f_running := (f_running _ _ _ _ _ _ _ _ _ _ _ _ X).
#[local] Abbreviation f_data_ok := (f_data_ok _ _ _ _ _ _ _ _ _ _ _ _ X).
#[local] Abbreviation f_slot := (f_slot _ _ _ _ _ _ _ _ _ _ _ _ X).

(** ** UPDATE *)

Lemma hole_inv p : is_hole_pntr E h p -> is_pntr p = true /\ p_hi p = PNTR_VALUE /\ (p_lo p ∉ hid E) /\
  exists c, h !! p_lo p = Some (OCell c) /\ c_type c = CELL_HOLE.
Proof. intros [Hp H]. destruct (H Hp) as (c & Hc & Ht & Hh & [Hv _]). apply Z.eqb_eq in Ht. split_and!; eauto. Qed.

(** A visible pointer to a hole is the pointer ALLOC made. *)
Lemma not_the_hole tp res :
  is_hole_pntr E h tp -> visible E h res -> pntrequal tp res = false -> p_lo res <> p_lo tp \/ is_pntr res = false.
Proof.
  intros Ht Hv He. destruct (is_pntr res) eqn:Ep; [|by right]. left. intros El.
  destruct (hole_inv _ Ht) as (_ & Hhi & _ & c & Hc & Hct). destruct (Hv Ep) as (c' & Hc' & _ & _ & [Hhi' _]).
  rewrite El, Hc in Hc'. injection Hc' as <-. unfold pntrequal in He. rewrite El, Hhi, (Hhi' Hct), !Z.eqb_refl in He. done.
Qed.

(** No slot holds the hole once the one that did is no longer relied on. *)
Lemma hole_gone a0 tp : st !! a0 = Some SHole -> k_data k !! a0 = Some tp ->
  forall a i p, hole_slot E ks (Some (f, PcTy main (<[a0 := SAny]> st))) a i p -> p_lo p <> p_lo tp.
Proof.
  intros Hst Htp a i p (ka & pt & Hb & Hpt & Hi & Hp) El.
  assert (hole_slot E ks (Some (f, PcTy main st)) f a0 tp) as H0.
  { destruct (run_busy _ _ _ _ _ _ the_good f_running) as (k0 & Hb0 & _). assert (k0 = k) as ->.
    { destruct Hb0 as (Hb0 & _). rewrite the_core in Hb0. by injection Hb0. }
    exists k, (PcTy main st). cbn. by rewrite decide_True. }
  assert (hole_slot E ks (Some (f, PcTy main st)) a i p /\ (a = f -> i <> a0)) as [H1 H2].
  { destruct (decide (a = f)) as [->|Hn].
    - cbn in Hpt. rewrite decide_True in Hpt by done. subst pt. cbn in Hi.
      apply list_lookup_insert_Some in Hi as [(_ & ? & _)|[Hne Hi]]; [done|]. split; [|by intros _ ->].
      exists ka, (PcTy main st). cbn. rewrite decide_True by done. done.
    - split; [|done]. exists ka, pt. split_and!; [done | | done | done]. by apply (cur_frame_ty E f (PcTy main (<[a0:=SAny]> st)) a ka pt). }
  destruct (gd_holes _ _ _ _ _ the_good _ _ _ _ _ _ H1 H0 El) as [-> ->]. by apply H2.
Qed.

Lemma update_ok : i_opcode instr = OP_UPDATE -> wp (op_update f instr) ok t.
Proof.
  intros Hop. checked X Hop C. destruct C as ((C1 & C2) & C3). apply Z.ltb_lt in C2.
  destruct (zlookup st _) as [ty|] eqn:Ez; [|done]. destruct (zlookup_nat _ _ _ Ez) as (i & Ei & Hi).
  destruct (slot_is_inv _ _ _ C1) as (a0 & ty0 & Ea0 & Ha0 & Hv). apply bool_decide_eq_true in Hv as ->.
  unfold op_update. apply wp_bind. eapply wp_slot; [exact X | exact Ha0 | exact Ea0|]. intros tp Htp Hhole. cbn in Hhole.
  destruct (hole_inv _ Hhole) as (Hp & Hhi & Hnh & c & Hc & Hct).
  assert (pntrtype h tp = Some CELL_HOLE) as Hty by (rewrite (pntrtype_cell _ _ _ Hp Hc), Hct; [done | by rewrite Hct]).
  apply wp_bind. eapply snap_typeof; [exact the_snap | exact Hty|]. apply wp_bind, wp_massert; [done|].
  apply wp_bind. eapply (wp_lift _ (p_lo tp)); [unfold get_pntr; by rewrite Hp|].
  apply wp_bind. eapply wp_slot; [exact X | exact Hi | rewrite the_exp; exact Ei|]. intros v _ Hvok.
  destruct (good_resolve _ _ _ _ _ _ the_good (slot_ok_visible _ _ _ _ Hvok)) as (res & tyr & Hr & Hrv & Hrt & Hri).
  apply wp_bind. eapply snap_resolve; [exact the_snap | exact Hr|]. destruct (pntrequal tp res) eqn:Eq.
  { apply wp_fatal. unfold exit_ok, exit_messages. set_solver. }
  assert (Hne := not_the_hole _ _ Hhole Hrv Eq). apply wp_bind.
  eapply snap_cell_make_ind; [exact the_snap | exact Hc | by apply (visible_object E)|]. intros fl t1 S1.
  set (h' := <[p_lo tp := _]> h) in S1. assert (heap_le h h') as Hle.
  { eapply heap_le_cell; [exact Hc | done | by rewrite Hct | left; by apply becomes_other]. }
  assert (good E (Some (f, PcTy main (<[a0 := SAny]> st))) h' ks q) as G'.
  { eapply good_update; [|exact Hc | exact Hct | by apply hole_gone | done | done | exact Hrt | exact Hri | exact Hne].
    eapply good_weaken; [exact the_good | exact f_running | done | apply sub_st_any]. }
  eapply wp_store; [exact S1 | exact G' | apply X | exact the_core | apply X | | | | | |exact C3].
  - pose proof f_data_ok. assert (Hlt := lookup_lt_Some _ _ _ Ha0). lia.
  - rewrite Ea0, Nat2Z.id. apply set_ty_insert_twice.
  - by destruct ty.
  - assert (slot_ok E h (copy_ty ty) res) as Hok by (by eapply resolve_copy). destruct ty; cbn in *; [by eapply visible_le | by eapply whnf_le | by eapply visible_le].
  - rewrite length_set_ty. apply f_data_ok.
Qed.

(** ** ALLOC *)

Lemma alloc_ok : i_opcode instr = OP_ALLOC -> wp (op_alloc f instr) ok t.
Proof.
  intros Hop. checked X Hop C. destruct C as ((C1 & C2) & C3). apply Z.leb_le in C1, C2. unfold op_alloc. rewrite the_exp.
  destruct (f_data_ok) as [D1 D2].
  set (Inv := fun (j : Z) (t' : task) => exists hj d, length d = length (k_data k) /\
    snap E hj (<[f := sk_data d k]> ks) q false t' /\
    good E (Some (f, PcTy main (st ++ replicate (Z.to_nat j) SHole))) hj (<[f := sk_data d k]> ks) q).
  eapply wp_mono; [apply (wp_for_z Inv)|].
  - exists h, (k_data k). assert (<[f := sk_data (k_data k) k]> ks = ks) as ->.
    { apply insert_id. rewrite the_core. by destruct k. }
    rewrite app_nil_r. split_and!; [done | exact the_snap | exact the_good].
  - intros j t1 Hj (hj & d & Hd & S1 & G1). apply wp_bind. eapply snap_alloc_cell; [exact S1|]. intros a fl t2 Ha H8 S2.
    apply wp_bind. eapply snap_set_cell_type; [exact S2 | by rewrite lookup_insert_eq|]. intros t3 S3.
    rewrite insert_insert_eq in S3. cbn [c_flags c_field1 c_field2] in S3.
    eapply snap_set_slot; [exact S3 | by rewrite lookup_insert_eq | cbn; lia|]. intros t4 S4. cbn [sk_data k_data] in S4. rewrite insert_insert_eq in S4.
    assert (length (st ++ replicate (Z.to_nat j) SHole) = Z.to_nat (Z.of_nat (length st) + j)) as El by (rewrite length_app, length_replicate; lia).
    exists (<[a := OCell (Cell CELL_HOLE fl (Pntr 0 0) (Pntr 0 0))]> hj), (<[Z.to_nat (Z.of_nat (length st) + j) := make_pntr a]> d).
    split_and!; [by rewrite length_insert | exact S4|].
    replace (Z.to_nat (j + 1)) with (S (Z.to_nat j)) by lia. rewrite replicate_S_end, app_assoc.
    assert (G2 := good_push_hole _ _ _ _ _ _ _ _ a fl (Pntr 0 0) (Pntr 0 0) G1 f_running (lookup_insert_eq ks f (sk_data d k)) Ha H8 ltac:(lia)).
    rewrite insert_insert_eq, El in G2. exact G2.
  - cbv beta. rewrite Z2Nat.id by done. intros [] t1 (hj & d & Hd & S1 & G1).
    eapply running_next; [exact S1 | exact G1 | apply X | by rewrite lookup_insert_eq | apply X | exact C3].
Qed.

(** ** SQUEEZE *)

Lemma squeeze_ok : i_opcode instr = OP_SQUEEZE -> wp (op_squeeze f instr) ok t.
Proof.
  intros Hop. checked X Hop C. destruct C as (((C1 & C2) & C3) & C4). apply Z.leb_le in C1, C2, C3. unfold op_squeeze. cbv zeta. rewrite the_exp.
  destruct (f_data_ok) as [D1 D2]. set (n := i_arg0 instr) in *. set (m := i_arg1 instr) in *. set (e := Z.of_nat (length st)) in *.
  set (Inv := fun (j : Z) (t' : task) => exists d, length d = length (k_data k) /\
    (forall x, d !! x = if decide (Z.to_nat (e - n - m) <= x < Z.to_nat (e - n - m + j))%nat then k_data k !! (x + Z.to_nat m)%nat else k_data k !! x) /\
    snap E h (<[f := sk_data d k]> ks) q false t').
  eapply wp_mono; [apply (wp_for_z Inv)|].
  - exists (k_data k). assert (<[f := sk_data (k_data k) k]> ks = ks) as ->.
    { apply insert_id. rewrite the_core. by destruct k. }
    split_and!; [done | | exact the_snap]. intros x. rewrite decide_False; [done | lia].
  - intros j t1 Hj (d & Hd & Hx & S1). destruct (lookup_lt_is_Some_2 st (Z.to_nat (e - n - m + j + m))) as [ty Hty]; [lia|].
    destruct (f_slot _ _ Hty) as (p & Hp & _). apply wp_bind.
    eapply snap_get_slot; [exact S1 | by rewrite lookup_insert_eq | lia | cbn; rewrite Hx, decide_False by lia; exact Hp|].
    eapply snap_set_slot; [exact S1 | by rewrite lookup_insert_eq | cbn; lia|]. intros t2 S2. rewrite insert_insert_eq in S2. cbn [sk_data k_data] in S2.
    exists (<[Z.to_nat (e - n - m + j) := p]> d). split_and!; [by rewrite length_insert | | exact S2]. intros x.
    destruct (decide (x = Z.to_nat (e - n - m + j))) as [->|Hne].
    + rewrite list_lookup_insert_eq by lia. rewrite decide_True by lia. rewrite <- Hp. f_equal. lia.
    + rewrite list_lookup_insert_ne by done. rewrite Hx. destruct (decide _), (decide _); (done || lia).
  - cbv beta. rewrite Z2Nat.id by done. intros [] t1 (d & Hd & Hx & S1). rewrite Z.add_0_l in Hx.
    eapply running_next; [exact S1 | | apply X | by rewrite lookup_insert_eq | apply X | exact C4].
    set (b := Z.to_nat (e - n - m)) in *.
    assert (Hst' : forall i ty, (ztake (e - n - m) st ++ drop (Z.to_nat (e - n)) st) !! i = Some ty ->
      st !! (if decide (i < b)%nat then i else i + Z.to_nat m)%nat = Some ty /\ d !! i = k_data k !! (if decide (i < b)%nat then i else i + Z.to_nat m)%nat).
    { intros i ty. unfold ztake. fold b. assert (length (take b st) = b) as Hlb by (rewrite length_take; lia). rewrite lookup_app_Some, Hlb, Hx.
      intros [Hi|[Hle Hi]].
      - apply lookup_take_Some in Hi as [Hi Hlt]. rewrite decide_True by lia. rewrite decide_False by lia. done.
      - rewrite lookup_drop in Hi. assert (Hlt := lookup_lt_Some _ _ _ Hi). rewrite (decide_False (P := (i < b)%nat)) by lia.
        rewrite decide_True by lia. split; [|done]. rewrite <- Hi. f_equal. lia. }
    eapply (good_cur_move _ (fun i => if decide (i < b)%nat then i else i + Z.to_nat m)%nat);
      [exact the_good | exact f_running | exact the_core | done | done | | done | | |].
    + unfold ztake. rewrite length_app, length_take, length_drop. lia.
    + intros i ty Hi. destruct (Hst' _ _ Hi) as [H1 H2]. cbn. rewrite H2. by apply f_slot.
    + intros i Hi. destruct (Hst' _ _ Hi) as [H1 H2]. cbn. done.
    + intros i j _ _. repeat case_decide; lia.
Qed.
End heap.

(** ** The instructions that build caps and arrays, and SPARK *)

(** A cap in a cell of its own: two new objects. *)
Lemma good_new_cap E cur h ks q x fl nb cp a c :
  good E cur h ks q -> h !! x = None -> 8 <= x -> h !! a = None -> 8 <= a -> a <> x ->
  c_type c = CELL_CAP -> c_field1 c = make_pntr x -> cap_ok E h cp ->
  good E cur (<[a := OCell c]> (<[x := OCap fl nb cp]> h)) ks q.
Proof.
  intros G Hx Hx8 Ha Ha8 Hne Hc1 Hc2 Hcp. assert (good E cur (<[x := OCap fl nb cp]> h) ks q) as G1.
  { apply good_put; [done | done | done | done|]. cbn. eapply cap_ok_le; [by apply heap_le_fresh | done]. }
  apply good_put; [done | by rewrite lookup_insert_ne | done | by intros c0 [= <-]; rewrite Hc1|].
  split; rewrite Hc1; try done. intros _. exists x, fl, nb, cp. rewrite Hc2. split; [done|].
  by rewrite lookup_insert_ne, lookup_insert_eq.
Qed.

(** An array and a cell that refers to it. *)
Lemma good_new_array E cur h ks q x fl nb l al mr nc a c :
  good E cur h ks q -> h !! x = None -> 8 <= x -> h !! a = None -> 8 <= a -> a <> x ->
  c_type c = CELL_AREF -> c_field1 c = make_pntr x -> visible E h (c_field2 c) -> Forall (visible E h) l ->
  good E cur (<[a := OCell c]> (<[x := OArray fl nb (Carray al (Pntrs l) mr nc)]> h)) ks q.
Proof.
  intros G Hx Hx8 Ha Ha8 Hne Hc1 Hc2 Hv Hl. set (o := OArray _ _ _).
  assert (heap_le h (<[x := o]> h)) as Hle by (by apply heap_le_fresh).
  assert (good E cur (<[x := o]> h) ks q) as G1.
  { apply good_put; [done | done | done | done|]. cbn. eapply Forall_impl; [exact Hl|]. intros p. by apply visible_le. }
  assert (heap_le (<[x := o]> h) (<[a := OCell c]> (<[x := o]> h))) as Hle2.
  { apply heap_le_fresh. by rewrite lookup_insert_ne. }
  apply good_put; [done | by rewrite lookup_insert_ne | done | by intros c0 [= <-]; rewrite Hc1|].
  split; rewrite Hc1; try done. intros _. split.
  - eexists x, fl, nb, _. rewrite Hc2. split; [done|]. unfold o. by rewrite lookup_insert_ne, lookup_insert_eq.
  - eapply visible_le; [exact Hle2|]. by eapply visible_le.
Qed.

Section alloc.
Context (E : env).
Hypothesis Hcheck : checked_env E = true.
Context (f pc : Z) (instr : instruction) (main : bool) (st : stack_ty).
Context (h : gmap Z object) (ks : gmap Z core) (q : queues) (r : list Z) (k : core) (t : task).
Hypothesis X : executing E f pc instr main st h ks q r k t.
#[local] Abbreviation ok := (fun _ t' => machine_ok E t').
#[local] Abbreviation the_good := (the_good _ _ _ _ _ _ _ _ _ _ _ _ X).
#[local] Abbreviation the_snap := (the_snap _ _ _ _ _ _ _ _ _ _ _ _ X).
#[local] Abbreviation the_core := (the_core _ _ _ _ _ _ _ _ _ _ _ _ X).
#[local] Abbreviation the_exp := (the_exp _ _ _ _ _ _ _ _ _ _ _ _ X).
#[local] Abbreviation f_running := (f_running _ _ _ _ _ _ _ _ _ _ _ _ X).
#[local] Abbreviation f_data_ok := (f_data_ok _ _ _ _ _ _ _ _ _ _ _ _ X).
#[local] Abbreviation f_slot := (f_slot _ _ _ _ _ _ _ _ _ _ _ _ X).

Lemma can_replace_inv n : can_replace (e_maxstack E) n st = true ->
  0 <= n <= Z.of_nat (length st) /\ Z.of_nat (length st) - n + 1 <= e_maxstack E.
Proof. unfold can_replace. rewrite !andb_true_iff, !Z.leb_le. lia. Qed.

(** Slots in use are visible. *)
Lemma f_visible j : 0 <= j < Z.of_nat (length st) -> exists p, k_data k !! Z.to_nat j = Some p /\ visible E h p.
Proof.
  intros Hj. destruct (lookup_lt_is_Some_2 st (Z.to_nat j)) as [ty Hty]; [lia|]. destruct (f_slot _ _ Hty) as (p & Hp & Hok).
  exists p. split; [done|]. by eapply slot_ok_visible.
Qed.

(** A value replaces the [n] topmost. *)
Lemma wp_replace h' i t' n v ty :
  snap E h' ks q i t' -> good E (Some (f, PcTy main st)) h' ks q -> can_replace (e_maxstack E) n st = true ->
  ty <> SHole -> slot_ok E h' ty v -> goes (e_typing E) (pc + 1) main (replace_top n ty st) = true ->
  wp (set_slot f (i_expcount instr - n) v) ok t'.
Proof.
  intros S G Hc Hty Hv Hgo. destruct (can_replace_inv _ Hc) as [C1 C2]. rewrite the_exp.
  eapply wp_store; [exact S | exact G | apply X | exact the_core | apply X | lia | apply set_ty_top; lia | exact Hty | exact Hv | | exact Hgo].
  rewrite replace_top_length by lia. lia.
Qed.

(** ** MKCAP *)

Lemma mkcap_ok : i_opcode instr = OP_MKCAP -> wp (op_mkcap f instr) ok t.
Proof.
  intros Hop. checked X Hop C. destruct C as ((C1 & C2) & C3). destruct (can_replace_inv _ C2) as [D1 D2].
  unfold finfo_entry in C1. destruct (zlookup _ (i_arg0 instr)) as [fi|] eqn:Efi; [|done]. apply andb_true_iff in C1 as [C1 C4]. apply Z.ltb_lt in C4.
  destruct (entry_inv _ _ _ C1) as (_ & A1 & _). destruct f_data_ok as [F1 F2].
  unfold op_mkcap. cbv zeta. set (n := i_arg1 instr) in *. apply wp_bind. eapply wp_bc_funinfo; [exact the_snap | exact Efi|].
  assert (e_maxstack E <= MAX_ARRAY_SIZE) as Hms.
  { destruct (maxstack_bounds _ (env_size _ Hcheck)) as (_ & B). unfold FRAMEBLOCK_SIZE, sizeof_frame, sizeof_pntr in B.
    unfold MAX_ARRAY_SIZE. change (Z.shiftl 1 19) with 524288. lia. }
  apply wp_bind. eapply snap_cap_alloc; [exact the_snap | lia | lia|]. intros x fl nb t1 Hx Hx8 S1.
  apply wp_bind. eapply snap_get_cap; [exact S1 | by rewrite lookup_insert_eq|].
  apply wp_bind. eapply snap_put_cap; [exact S1 | by rewrite lookup_insert_eq|]. intros t2 S2. rewrite insert_insert_eq in S2.
  cbn [cap_arity cap_address cap_fno cap_c cap_room] in S2.
  apply wp_bind. eapply (wp_push_all E (visible E h)); [exact S2 | | unfold cap_count; cbn; lia|].
  { intros j t' cp' R Hj S' HR. destruct (f_visible j) as (p & Hp & Hv); [rewrite the_exp in Hj; lia|].
    eapply snap_get_slot; [exact S' | exact the_core | rewrite the_exp in Hj; lia | exact Hp | by apply HR]. }
  intros l t3 Hl Hall S3. cbn [cap_arity cap_address cap_fno cap_c cap_room cap_data cap_sl app] in S3.
  apply wp_bind. eapply snap_alloc_cell; [exact S3|]. intros a fla t4 Ha Ha8 S4. apply lookup_insert_None in Ha as [Ha Hne].
  apply wp_bind. eapply snap_get_cap; [exact S4 | by (rewrite lookup_insert_ne by done; apply lookup_insert_eq)|].
  apply wp_bind. eapply snap_put_cap; [exact S4 | by (rewrite lookup_insert_ne by done; apply lookup_insert_eq)|]. intros t5 S5.
  rewrite (insert_insert_ne _ x a), insert_insert_eq in S5 by done. cbn [cap_arity cap_address cap_fno cap_c cap_room cap_data cap_sl app] in S5.
  apply wp_bind. eapply snap_init_cell; [exact S5 | by rewrite lookup_insert_eq|]. intros t6 S6. rewrite insert_insert_eq in S6.
  eapply wp_replace; [exact S6 | | exact C2 | | |exact C3]; [|done|].
  - apply good_new_cap; try done; [exact the_good|]. split; cbn [cap_arity cap_address cap_fno cap_sl cap_data]; try done.
    + unfold cap_count. cbn. lia.
    + exact (instr_pos _ _ _ _ _ _ _ _ _ _ _ _ X).
  - cbn. eapply points_new; [by rewrite lookup_insert_eq | by eapply fresh_not_hid; [exact the_good|] | done | done].
Qed.

(** ** CONSN *)

Lemma wp_top_slots h' i t' n : forall j Q,
  snap E h' ks q i t' -> 0 <= j -> j + Z.of_nat n <= Z.of_nat (length st) ->
  (forall l, length l = n -> Forall (visible E h) l -> Q l t') -> wp (top_slots f (Z.of_nat (length st)) j n) Q t'.
Proof.
  induction n as [|n IH]; intros j Q S Hj Hn HQ; cbn [top_slots].
  - by apply wp_ret, HQ.
  - destruct (f_visible (Z.of_nat (length st) - j - 1)) as (p & Hp & Hv); [lia|].
    apply wp_bind. eapply snap_get_slot; [exact S | exact the_core | lia | exact Hp|].
    apply wp_bind, IH; [done | lia | lia|]. intros l Hl Hall. apply wp_ret, HQ; [cbn; lia | by constructor].
Qed.

Lemma consn_ok : i_opcode instr = OP_CONSN -> wp (op_consn f instr) ok t.
Proof.
  intros Hop. checked X Hop C. destruct C as (((C1 & C2) & C3) & C4). apply Z.leb_le in C1, C2. destruct (can_replace_inv _ C3) as [D1 D2].
  unfold op_consn. cbv zeta. set (n := i_arg0 instr) in *. rewrite the_exp. apply wp_bind.
  eapply snap_create_array; [exact the_snap | unfold sizeof_pntr; lia|]. intros x nb a fx fa t1 Hx Hx8 Ha Ha8 Hne S1.
  rewrite array_room_id in S1 by lia. change (no_elements sizeof_pntr) with (Pntrs []) in S1.
  apply wp_bind. eapply (wp_lift _ a); [done|].
  assert (Hxa : forall o o', (<[a := o]> (<[x := o']> h)) !! x = Some o') by (intros o o'; by rewrite lookup_insert_ne, lookup_insert_eq).
  apply wp_bind. unfold aref_array. apply wp_bind. eapply (wp_lift _ a); [done|].
  apply wp_bind. eapply snap_get_cell; [exact S1 | by rewrite lookup_insert_eq|]. eapply (wp_lift _ x); [done|].
  apply wp_bind. eapply snap_get_array; [exact S1 | by rewrite Hxa|]. apply wp_bind, wp_massert; [apply Z.eqb_refl|].
  apply wp_bind. eapply wp_top_slots; [exact S1 | lia | lia|]. intros l Hl Hall.
  apply wp_bind. eapply snap_put_array; [exact S1 | by rewrite Hxa|]. intros t2 S2.
  rewrite (insert_insert_ne _ x a), insert_insert_eq in S2 by done. cbn [ca_alloc ca_multiref ca_nchars] in S2.
  destruct (f_visible (Z.of_nat (length st) - n)) as (p & Hp & Hv); [lia|].
  apply wp_bind. eapply snap_get_slot; [exact S2 | exact the_core | lia | exact Hp|].
  apply wp_bind. eapply snap_get_cell; [exact S2 | by rewrite lookup_insert_eq|].
  apply wp_bind. eapply snap_put_cell; [exact S2 | rewrite lookup_insert_eq; eauto|]. intros t3 S3. rewrite insert_insert_eq in S3.
  apply wp_bind. eapply (wp_lift _ (make_pntr a)); [done|]. rewrite <- the_exp.
  eapply (wp_replace _ _ _ _ _ SVal); [exact S3 | | exact C3 | done| |exact C4].
  - apply good_new_array; try done. exact the_good.
  - cbn. eapply points_new_array; [by rewrite lookup_insert_eq | by eapply fresh_not_hid; [exact the_good|] | done | done | by apply Hxa | cbn; lia].
Qed.

(** ** SPARK *)

(** The frame behind a FRAME cell. *)
Lemma frame_of h' ks' cur q' p :
  good E cur h' ks' q' -> visible E h' p -> pntrtype h' p = Some CELL_FRAME ->
  exists c g kg, is_pntr p = true /\ h' !! p_lo p = Some (OCell c) /\ get_pntr (c_field1 c) = Done g /\ busy E ks' g kg /\
    k_c kg = p_lo p /\ k_c kg <> e_mcell E.
Proof.
  intros G Hv Hty. destruct (visible_cell _ _ _ _ Hv Hty ltac:(done)) as (Hp & Hh & c & Hc & Hct).
  destruct (ce_frame _ _ _ _ _ (gd_heap _ _ _ _ _ G _ _ Hc) Hct) as (g & kg & Hg & Hkg & Hkc & Hl).
  unfold hid in Hh. rewrite !not_elem_of_cons in Hh. destruct Hh as (Hh1 & Hh2 & _).
  exists c, g, kg. split_and!; try done; [split_and!; [done | |done]|congruence].
  intros ->. destruct (so_sentinel _ _ _ (gd_states _ _ _ _ _ G)) as (k' & Hk' & _ & Hc').
  rewrite Hkg in Hk'. injection Hk' as <-. congruence.
Qed.

Lemma wp_pframe h' ks' q' i t' p c g Q :
  snap E h' ks' q' i t' -> is_pntr p = true -> h' !! p_lo p = Some (OCell c) -> get_pntr (c_field1 c) = Done g -> Q g t' ->
  wp (pframe p) Q t'.
Proof.
  intros S Hp Hc Hg HQ. unfold pframe. apply wp_bind. eapply (wp_lift _ (p_lo p)); [unfold get_pntr; by rewrite Hp|].
  apply wp_bind. eapply snap_get_cell; [exact S | exact Hc|]. by eapply wp_lift.
Qed.

(** A frame is offered to the others: it leaves the frame at work alone. *)
Lemma wp_spark_of p Q :
  visible E h p -> pntrtype h p = Some CELL_FRAME ->
  (forall t' ks' q', snap E h ks' q' false t' -> good E (Some (f, PcTy main st)) h ks' q' -> q_run q' = f :: r -> ks' !! f = Some k -> Q tt t') ->
  wp (g ← pframe p; spark_frame g) Q t.
Proof.
  intros Hpv Hpt HQ. destruct (frame_of _ _ _ _ _ the_good Hpv Hpt) as (c & g & kg & Hp & Hc & Hg & Hb & _).
  apply wp_bind. eapply wp_pframe; [exact the_snap | exact Hp | exact Hc | exact Hg|].
  assert (S := the_snap). destruct Hb as (Hkg & Hgs & Hl). eapply wp_mono.
  { eapply spark_frame_spec; [by eapply snap_links | rewrite (sn_cores _ _ _ _ _ _ S); exact Hkg | |].
    - by rewrite (mi_sentinel _ _ (sn_misc _ _ _ _ _ _ S)).
    - intros Hst Hin. apply (so_spark _ _ _ (gd_states _ _ _ _ _ the_good)) in Hin as (k' & Hk' & Hst'). congruence. }
  cbv beta. rewrite (sn_cores _ _ _ _ _ _ S). intros [] t'. case_bool_decide as Hst; intros M.
  - assert (snap E h (<[g := sk_state STATE_SPARKED kg]> ks) (q_set_spark (g :: q_spark q) q) false t') as S'.
    { eapply snap_moved; [exact S | exact M|]. intros b [x Hx]. apply lookup_insert_Some in Hx as [[<- _]|[_ Hx]]; eauto. }
    eapply HQ; [exact S' | apply good_spark; [exact the_good | done | done] | apply X |].
    rewrite lookup_insert_ne; [exact the_core|]. intros ->.
    destruct (run_busy _ _ _ _ _ _ the_good f_running) as (k' & (Hk' & _) & Hact). congruence.
  - eapply HQ; [eapply snap_moved; [exact S | exact M | done] | exact the_good | apply X | exact the_core].
Qed.

Lemma spark_ok_ : i_opcode instr = OP_SPARK -> wp (op_spark f instr) ok t.
Proof.
  intros Hop. checked X Hop C. destruct C as (C1 & C2). destruct (slot_is_inv _ _ _ C1) as (i & ty & Ei & Hi & _).
  unfold op_spark. apply wp_bind. eapply wp_slot; [exact X | exact Hi | exact Ei|]. intros v _ Hv.
  destruct (good_resolve _ _ _ _ _ _ the_good (slot_ok_visible _ _ _ _ Hv)) as (p & ty' & Hr & Hpv & Hpt & Hpi).
  apply wp_bind. eapply snap_resolve; [exact the_snap | exact Hr|]. apply wp_bind. eapply snap_typeof; [exact the_snap | exact Hpt|].
  destruct (Z.eqb_spec ty' CELL_FRAME) as [->|]; [|apply wp_ret; by eapply skip_ok].
  apply wp_spark_of; [exact Hpv | exact Hpt|]. intros t' ks' q' S G Hq Hk. eapply running_next; [exact S | exact G | exact Hq | exact Hk | apply X | exact C2].
Qed.
End alloc.
