(* ===== verification/OpsReturn.v ===== *)
(** * Delivering a result: RETURN and END

    A frame that has its result stores it in its cell or in the slot of its
    caller, wakes up the frames that wait for it, and is freed. The last part
    shows that no wake-up is lost. *)

From S2P Require Import Prelude Builtins Source Bytecode Compile Pointer Chain Arith Memory Globals Sched Arrays Interpreter Boot Wp SchedFacts Typing MachineOk HeapFacts WorldFacts FrameFacts Snap FrameAlloc Ops OpsSimple.
#[local] Open Scope Z_scope.

(** The slot a result is due to takes any value. *)
Lemma good_deliver E f pt h ks q g i kg v :
  good E (Some (f, pt)) h ks q -> busy E ks g kg -> g <> f -> exempt E ks g (Z.of_nat i) ->
  good E (Some (f, pt)) h (<[g := sk_data (<[i := v]> (k_data kg)) kg]> ks) q.
Proof.
  intros G Hb Hne Hx. destruct (ko_typed _ _ _ _ _ _ _ (good_busy _ _ _ _ _ _ _ G Hb) ltac:(apply Hb)) as (pg & Hpg & [T1 T2 T3]).
  assert (Hhole : forall j, pt_stack pg !! j = Some SHole -> j <> i).
  { intros j Hj ->. destruct (T2 _ _ Hj) as [Ha _]. by specialize (Ha Hx). }
  assert (Hdata : forall j, j <> i -> <[i := v]> (k_data kg) !! j = k_data kg !! j) by (intros; by rewrite list_lookup_insert_ne).
  assert (Hslot : forall j p, pt_stack pg !! j = Some SHole -> k_data (sk_data (<[i := v]> (k_data kg)) kg) !! j = Some p ->
    hole_slot E ks (Some (f, pt)) g j p).
  { intros j p Hj Hp. cbn in Hp. rewrite Hdata in Hp by auto. by exists kg, pg. }
  eapply (good_role _ _ _ _ _ _ _ _ _ pg); [exact G | exact Hb | done | | by cbn; rewrite length_insert | done | | |..].
  - intros [w Hw]. destruct (so_wait _ _ _ (gd_states _ _ _ _ _ G) _ _ Hw) as (_ & k' & Hk' & _ & Hwk).
    destruct Hb as (Hk & _). rewrite Hk in Hk'. by injection Hk' as <-.
  - exact Hpg.
  - split; [done| |done]. intros j ty Hj. destruct (T2 j ty Hj) as [Ha Hp]. split; [done|]. cbn.
    destruct (decide (j = i)) as [->|Hji]; [by left|]. destruct Hp as [?|Hp]; [by left|]. right. by rewrite Hdata.
  - intros j j' p p' H1 H2 H3 H4 El. apply Hslot in H3, H4; [|done..]. by destruct (gd_holes _ _ _ _ _ G _ _ _ _ _ _ H3 H4 El).
  - intros j p H1 H2. left. exists j, p. split; [|done]. by apply Hslot.
Qed.

(** Waiters are in one queue each. *)
Lemma waits_apart E h ks q i t v v' x : snap E h ks q i t -> x ∈ q_wait q v -> x ∈ q_wait q v' -> v = v'.
Proof. intros S. apply (wt_disjoint _ _ _ (lk_wait _ _ _ (sn_links _ _ _ _ _ _ S))). Qed.

Section return_.
Context (E : env).
Hypothesis Hcheck : checked_env E = true.
Context (f pc : Z) (instr : instruction) (main : bool) (st : stack_ty).
Context (h : gmap Z object) (ks : gmap Z core) (q : queues) (r : list Z) (k : core) (t : task).
Hypothesis X : executing E f pc instr main st h ks q r k t.
#[local] Abbreviation ok := (fun _ t' => machine_ok E t').
#[local] Abbreviation the_good := (the_good _ _ _ _ _ _ _ _ _ _ _ _ X).
#[local] Abbreviation the_snap := (the_snap _ _ _ _ _ _ _ _ _ _ _ _ X).
#[local] Abbreviation the_core := (the_core _ _ _ _ _ _ _ _ _ _ _ _ X).
#[local] Abbreviation the_exp := (the_exp _ _ _ _ _ _ _ _ _ _ _ _ X).
#[local] Abbreviation f_running := (f_running _ _ _ _ _ _ _ _ _ _ _ _ X).
#[local] Abbreviation f_data_ok := (f_data_ok _ _ _ _ _ _ _ _ _ _ _ _ X).

Lemma f_busy : busy E ks f k /\ k_state k = STATE_ACTIVE.
Proof.
  destruct (run_busy _ _ _ _ _ _ the_good f_running) as (k0 & Hb & Hst). assert (k0 = k) as ->; [|done].
  destruct Hb as (Hb & _). rewrite the_core in Hb. by injection Hb.
Qed.

Lemma f_core : core_ok E h ks (q_wait q) (Some (f, PcTy main st)) f k.
Proof. eapply good_busy; [exact the_good | apply f_busy]. Qed.

Lemma f_once : f ∉ r.
Proof.
  destruct (lk_run _ _ _ (sn_links _ _ _ _ _ _ the_snap)) as [Hc _]. rewrite (ex_run _ _ _ _ _ _ _ _ _ _ _ _ X) in Hc.
  apply chain_NoDup in Hc. by apply NoDup_cons in Hc as [? _].
Qed.

Lemma f_not_free : f ∉ q_free q.
Proof.
  intros Hf. apply (so_free _ _ _ (gd_states _ _ _ _ _ the_good)) in Hf as (k' & Hk' & Hst). rewrite the_core in Hk'. injection Hk' as <-.
  destruct f_busy as [_ Hact]. congruence.
Qed.

(** The frames that wait for [f]: others that can be woken up. *)
Lemma f_waiters a : a ∈ q_wait q f ->
  (a ∉ q_run q) /\ a <> f /\ exists ka, ks !! a = Some ka /\ k_state ka = STATE_ACTIVE /\ wakeable_at E ka.
Proof.
  intros Ha. destruct (so_wait _ _ _ (gd_states _ _ _ _ _ the_good) _ _ Ha) as (Hr & Hk). split_and!; [done | |done].
  intros ->. apply Hr, f_running.
Qed.

(** ** The end of a frame *)

(** Waking up the frames that wait for [f], of which nobody else's cores have
    changed. *)
Lemma wp_resume h' ks1 k1 t1 val Q :
  snap E h' ks1 (q_set_run r q) false t1 -> ks1 !! f = Some k1 -> k_fetchers k1 = [] ->
  (forall a, a ∈ q_wait q f -> exists ka, ks1 !! a = Some ka /\ k_state ka = STATE_ACTIVE /\ wakeable_at E ka) ->
  (forall t', snap E h' ks1 (q_set_run (resumed (q_wait q f) r) (q_set_wait (set_wait (q_wait q) f []) q)) false t' -> Q tt t') ->
  wp (resume_waiters f val) Q t1.
Proof.
  intros S Hk Hfe Hw HQ. unfold resume_waiters. eapply wp_use.
  { apply (resume_local_waiters_spec f _ (q_set_run r q)); [by eapply snap_links | | ].
    - change (is_Some (cores t1 !! f)). rewrite (sn_cores _ _ _ _ _ _ S). eauto.
    - cbn [q_set_run q_wait q_run]. intros a Ha. split.
      + destruct (f_waiters a Ha) as (Hr & _). rewrite (ex_run _ _ _ _ _ _ _ _ _ _ _ _ X), not_elem_of_cons in Hr. apply Hr.
      + destruct (Hw a Ha) as (ka & Hka & Hst & pc' & j & Hwk). exists ka. rewrite (sn_cores _ _ _ _ _ _ S). split_and!; [done | done|].
        exists pc', j. by rewrite (mi_prog _ _ (sn_misc _ _ _ _ _ _ S)). }
  cbv beta. intros [] t2 M. rewrite (sn_cores _ _ _ _ _ _ S) in M.
  assert (S2 := snap_moved _ _ _ _ _ _ _ _ _ S M ltac:(done)).
  apply wp_bind. eapply snap_get_frame; [exact S2 | exact Hk|]. intros fr _ Ek.
  assert (f_wq_fetchers fr = []) as -> by (by rewrite <- Ek in Hfe). by apply wp_ret, HQ.
Qed.

Lemma wp_leave h' ks1 k1 t1 val :
  snap E h' ks1 q false t1 -> ks1 !! f = Some k1 -> k_state k1 = STATE_ACTIVE -> k_retp k1 = None -> k_c k1 = 0 -> k_fetchers k1 = [] ->
  (forall a, a ∈ q_wait q f -> exists ka, ks1 !! a = Some ka /\ k_state ka = STATE_ACTIVE /\ wakeable_at E ka) ->
  good E None h' (<[f := sk_state STATE_UNALLOCATED k1]> ks1) (finished f r q) ->
  wp (done_frame f;; resume_waiters f val;; check_runnable;; frame_free f) ok t1.
Proof.
  intros S Hk K1 K2 K3 K4 Hw G. eapply wp_use.
  { eapply done_frame_spec; [by eapply snap_links | apply X | rewrite (sn_cores _ _ _ _ _ _ S); exact Hk | exact K1]. }
  cbv beta. rewrite (sn_cores _ _ _ _ _ _ S). intros [] t2 M.
  assert (snap E h' (<[f := sk_state STATE_DONE k1]> ks1) (q_set_run r q) false t2) as S2.
  { eapply snap_moved; [exact S | exact M|]. intros b [x Hx]. apply lookup_insert_Some in Hx as [[<- _]|[_ Hx]]; eauto. }
  apply wp_bind. eapply wp_resume; [exact S2 | by rewrite lookup_insert_eq | done | |].
  { intros a Ha. rewrite lookup_insert_ne; [by apply Hw|]. destruct (f_waiters a Ha) as (_ & Hn & _). done. }
  intros t3 S3. apply wp_bind. eapply snap_check_runnable; [exact S3|]. intros j t4 S4 Hj _.
  eapply snap_frame_free; [exact S4 | by rewrite lookup_insert_eq | done | done | done | done | | | ].
  - cbn. apply set_wait_eq.
  - apply f_not_free.
  - intros t5 S5. rewrite insert_insert_eq in S5. eapply running_none; [exact S5 | exact G | exact Hj].
Qed.

Lemma waiters_after k1 a :
  a ∈ q_wait q f -> exists ka, <[f := k1]> ks !! a = Some ka /\ k_state ka = STATE_ACTIVE /\ wakeable_at E ka.
Proof. intros Ha. destruct (f_waiters a Ha) as (_ & Hn & Hk). by rewrite lookup_insert_ne. Qed.

(** The caller of [f], whose slot takes the value. *)
Lemma f_caller g : g ∈ q_wait q f -> exists kg, ks !! g = Some kg /\ g <> f /\ Z.of_nat (length (k_data kg)) = e_maxstack E /\
  forall d k1 a, a ∈ q_wait q f ->
    exists ka, <[f := k1]> (<[g := sk_data d kg]> ks) !! a = Some ka /\ k_state ka = STATE_ACTIVE /\ wakeable_at E ka.
Proof.
  intros Hg. destruct (f_waiters g Hg) as (_ & Hgf & kg & Hkg & Hst & Hwk). exists kg. split_and!; [done | done | |].
  - eapply ko_data, gd_cores; [exact the_good | exact Hkg|]. intros ->.
    destruct (so_sentinel _ _ _ (gd_states _ _ _ _ _ the_good)) as (x & Hx & Hxs & _). congruence.
  - intros d k1 a Ha. destruct (f_waiters a Ha) as (_ & Haf & ka & Hka & Hsta & Hwka). rewrite lookup_insert_ne by done.
    destruct (decide (a = g)) as [->|Hag]; [rewrite lookup_insert_eq; eexists; split; [done|]; by split|]. rewrite lookup_insert_ne by done. eauto.
Qed.

(** ** RETURN *)

Lemma whnf_not_null p : whnf E h p -> is_nullpntr p = false.
Proof.
  intros Hp. unfold is_nullpntr. destruct (is_pntr p) eqn:Ep; [|done]. destruct (Hp Ep) as (c & Hc & _).
  assert (8 <= p_lo p) by (eapply gd_addr; [exact the_good | eauto]). apply Z.eqb_neq. lia.
Qed.

(** The cell of [f] becomes an indirection to the value. *)
Lemma return_cell h' fl v c :
  k_c k <> 0 -> h !! k_c k = Some (OCell c) -> c_type c = CELL_FRAME -> whnf E h v ->
  h' = <[k_c k := OCell (Cell CELL_IND fl v (c_field2 c))]> h ->
  good E None h' (<[f := sk_state STATE_UNALLOCATED (sk_c 0 k)]> ks) (finished f r q).
Proof.
  intros Hc0 Hc Hct Hv ->. destruct (whnf_typeof _ _ _ Hv) as (ty & Hty & Hcase).
  assert (p_lo v <> k_c k \/ is_pntr v = false) as Hne.
  { destruct Hcase as [[? _]|(_ & Hw & _ & c' & Hc' & Hct')]; [by right | left]. intros E0. rewrite E0, Hc in Hc'. injection Hc' as <-.
    rewrite <- Hct', Hct in Hw. done. }
  destruct (whnf_ty _ _ _ Hv) as (ty' & Hty' & N1 & _). rewrite Hty in Hty'. injection Hty' as <-.
  eapply good_finish_cell; [exact the_good | apply X | exact f_once | exact the_core | | | exact Hc0 | exact Hc | done | done | done | done | |].
  - split_and!; [done | apply f_core | apply f_core].
  - intros v0 v' x. eapply waits_apart. exact the_snap.
  - intros x [= <-] _. exists ty. done.
  - intros ks'. split; try done. intros _. cbn. eapply visible_le; [|by apply whnf_is_visible].
    eapply heap_le_cell; [exact Hc | done | by rewrite Hct | left; by apply becomes_other].
Qed.

(** The caller's slot takes the value. *)
Lemma return_slot h1 g i kg v :
  good E (Some (f, PcTy main st)) h1 ks q ->
  k_c k = 0 -> k_retp k = Some (g, i) -> g ∈ q_wait q f -> 0 <= i < e_maxstack E -> ks !! g = Some kg -> whnf E h1 v ->
  good E None h1 (<[f := sk_state STATE_UNALLOCATED (sk_retp None k)]> (<[g := sk_data (<[Z.to_nat i := v]> (k_data kg)) kg]> ks)) (finished f r q).
Proof.
  intros G0 Hc0 Hret Hg Hi Hkg Hv. destruct (f_waiters g Hg) as (Hgr & Hgf & kg' & Hkg' & Hst & _). rewrite Hkg in Hkg'. injection Hkg' as <-.
  destruct f_busy as [Hb _]. assert (busy E ks g kg) as Hbg.
  { split_and!; [done | |by rewrite Hst]. intros ->. destruct (so_sentinel _ _ _ (gd_states _ _ _ _ _ G0)) as (x & Hx & Hxs & _). congruence. }
  assert (Z.of_nat (length (k_data kg)) = e_maxstack E) as Hlen by (apply (good_busy _ _ _ _ _ _ _ G0 Hbg)).
  assert (G := good_deliver _ _ _ _ _ _ _ (Z.to_nat i) _ v G0 Hbg Hgf).
  eapply good_finish_slot; [apply G | apply X | exact f_once | rewrite lookup_insert_ne by done; exact the_core | | | exact Hret | by rewrite lookup_insert_eq | | by apply whnf_is_visible].
  - exists f, k. split; [exact Hb|]. rewrite Z2Nat.id by lia. exact Hret.
  - split_and!; [done | apply f_core | apply f_core].
  - intros v0 v' x. eapply waits_apart. exact the_snap.
  - cbn. apply list_lookup_insert_eq. lia.
Qed.

Lemma frame_return_ok v : whnf E h v -> wp (frame_return f v) ok t.
Proof.
  intros Hv. unfold frame_return. apply wp_bind, wp_massert; [by rewrite whnf_not_null|].
  apply wp_bind. eapply snap_get_frame; [exact the_snap | exact the_core|]. intros fr _ Ek.
  assert (f_c fr = k_c k) as -> by (by rewrite <- Ek). assert (f_retp fr = k_retp k) as -> by (by rewrite <- Ek).
  destruct f_busy as [Hb Hact]. destruct (ko_return _ _ _ _ _ _ _ f_core (proj2 (proj2 Hb))) as [(Hc0 & Hret & c & Hc & Hct & _)|(Hc0 & g & i & Hret & Hg & Hi)].
  - rewrite (proj2 (Z.eqb_neq _ _)) by done. cbn [negb]. rewrite Hret. apply wp_bind.
    apply wp_bind, wp_massert; [done|]. apply wp_bind. eapply snap_get_cell; [exact the_snap | exact Hc|].
    apply wp_bind, wp_massert; [by apply Z.eqb_eq|]. apply wp_bind.
    eapply snap_cell_make_ind; [exact the_snap | exact Hc | apply (visible_object E), whnf_is_visible, Hv|]. intros fl t1 S1.
    eapply snap_set_c; [exact S1 | exact the_core|]. intros t2 S2.
    eapply wp_leave; [exact S2 | by rewrite lookup_insert_eq | done | done | done | apply f_core | apply waiters_after|].
    rewrite insert_insert_eq. by eapply return_cell.
  - rewrite Hc0, Hret. cbn [Z.eqb negb]. destruct (f_caller g Hg) as (kg & Hkg & Hgf & Hlen & Hwk).
    apply wp_bind. apply wp_bind. eapply wp_mderef; [done|]. apply wp_bind.
    eapply snap_set_slot; [exact the_snap | exact Hkg | lia|]. intros t1 S1.
    eapply snap_set_retp; [exact S1 | rewrite lookup_insert_ne by done; exact the_core|]. intros t2 S2.
    eapply wp_leave; [exact S2 | by rewrite lookup_insert_eq | done | done | done | apply f_core | apply Hwk|].
    rewrite insert_insert_eq. eapply return_slot; [exact the_good | done..].
Qed.

Lemma return_ok_ : i_opcode instr = OP_RETURN -> wp (op_return f instr) ok t.
Proof.
  intros Hop. checked X Hop C. unfold op_return. apply wp_bind. eapply wp_top; [exact X | exact C|]. intros p Hp _. by apply frame_return_ok.
Qed.

(** ** END *)

Lemma end_ok : i_opcode instr = OP_END -> wp (op_end f instr) ok t.
Proof.
  intros Hop. checked X Hop C. destruct f_busy as [Hb Hact]. destruct (cur_data _ _ _ _ _ _ _ _ the_good f_running the_core) as (D1 & _ & D3).
  destruct (D3 C) as (_ & Hc0 & Hw).
  destruct (ko_return _ _ _ _ _ _ _ f_core (proj2 (proj2 Hb))) as [(_ & Hret & c & Hc & Hct & _)|(? & _)]; [|done].
  unfold op_end. eapply wp_use.
  { eapply done_frame_spec; [eapply snap_links; exact the_snap | apply X | rewrite (sn_cores _ _ _ _ _ _ the_snap); exact the_core | exact Hact]. }
  cbv beta. rewrite (sn_cores _ _ _ _ _ _ the_snap). intros [] t1 M.
  assert (snap E h (<[f := sk_state STATE_DONE k]> ks) (q_set_run r (q_set_wait (set_wait (q_wait q) f []) q)) false t1) as S1.
  { eapply snap_moved; [exact the_snap | eapply moved_ext; [..|exact M]; try done|].
    - intros v. cbn. unfold set_wait. case_decide; by subst.
    - intros b [x Hx]. apply lookup_insert_Some in Hx as [[<- _]|[_ Hx]]; [pose proof the_core|]; eauto. }
  apply wp_bind. eapply snap_check_runnable; [exact S1|]. intros j t2 S2 Hj _.
  apply wp_bind. eapply snap_get_frame; [exact S2 | by rewrite lookup_insert_eq|]. intros fr _ Ek.
  assert (f_c fr = k_c k) as -> by (by change (k_c (core_of fr) = k_c k); rewrite Ek).
  apply wp_bind, wp_massert; [by apply negb_true_iff, Z.eqb_neq|]. apply wp_bind.
  eapply snap_set_cell_type; [exact S2 | exact Hc|]. intros t3 S3. apply wp_bind.
  eapply snap_set_c; [exact S3 | by rewrite lookup_insert_eq|]. intros t4 S4. rewrite insert_insert_eq in S4.
  eapply snap_frame_free; [exact S4 | by rewrite lookup_insert_eq | done | done | done | apply f_core | apply set_wait_eq | apply f_not_free|].
  intros t5 S5. rewrite insert_insert_eq in S5.
  eapply (running_none _ _ _ (finished f r q)); [unfold finished; rewrite Hw; exact S5 | | by cbn; rewrite Hw].
  eapply good_finish_cell; [exact the_good | apply X | exact f_once | exact the_core | | | exact Hc0 | exact Hc | done | done | done | done | by intros x [= <-] | by split].
  - split_and!; [done | apply f_core | exact D1].
  - intros v0 v' x. eapply waits_apart. exact the_snap.
Qed.
End return_.

(** ** No wake-up is lost

    A frame that needs the value of another one leaves the run queue and waits.
    When the value is there, all the frames that wait for it come back. *)

Lemma head_resumed l : forall x rq, resumed l (x :: rq) !! 0%nat = Some x.
Proof.
  induction l as [|f l IH]; intros x rq; [done|]. change (resumed (f :: l) (x :: rq)) with (resumed l (x :: f :: rq)). apply IH.
Qed.

(** What waking up the waiters of [w] leads to: the queues [q'] of the task. *)
Record woken (w : Z) (q : queues) (t' : task) (q' : queues) : Prop := {
  wk_links : links (t_sparklist t') (vw t') q';
  wk_runs : forall f, f ∈ q_wait q w -> f ∈ q_run q';
  wk_only : forall f, f ∈ q_run q' -> f ∈ q_wait q w \/ f ∈ q_run q;
  wk_current : q_run q <> [] -> q_run q' !! 0%nat = q_run q !! 0%nat;
  wk_none : q_wait q' w = [];
  wk_others : forall v, v <> w -> q_wait q' v = q_wait q v
}.

Lemma resume_wakes w t q :
  links (t_sparklist t) (vw t) q -> is_frame t w ->
  (forall f, f ∈ q_wait q w -> (f ∉ q_run q) /\ exists k, cores t !! f = Some k /\ k_state k = STATE_ACTIVE /\ wakeable t k) ->
  wp (resume_local_waiters w) (fun _ t' => exists q', woken w q t' q') t.
Proof.
  intros Hl Hw Hall. eapply wp_mono; [by apply resume_local_waiters_spec|]. cbv beta. intros _ t' [H1 _ _].
  eexists. split; [exact H1|..]; cbn [q_run q_wait q_set_run q_set_wait].
  - intros f Hf. apply elem_resumed. by left.
  - intros f Hf. by apply elem_resumed.
  - intros Hne. destruct (q_run q) as [|x rq]; [done|]. apply head_resumed.
  - apply set_wait_eq.
  - intros v Hv. by apply set_wait_ne.
Qed.

(** *** A sample: frame 16 runs, frames 24 and 32 wait for it *)
Definition sample_frame (wq waitlnk sprev snext : Z) (st : frame_state) : frame :=
  Frame (Some 3) wq [] 0 st 0 None 0 waitlnk 0 false sprev snext [].
Definition sample_frames : gmap Z frame :=
  <[8 := sample_frame 0 0 8 8 STATE_NEW]> (<[16 := sample_frame 24 0 0 0 STATE_ACTIVE]>
    (<[24 := sample_frame 0 32 0 0 STATE_ACTIVE]> (<[32 := sample_frame 0 0 0 0 STATE_ACTIVE]> ∅))).
Definition sample_task : task := set_pool (Framepool sample_frames [] 0 16 8) (task_zero 0 Factorial.prog 0).
Definition sample_queues : queues := Queues [16] (fun w => if decide (w = 16) then [24; 32] else []) [] [].

Lemma sample_cases {B} (g : frame -> B) a x : (g <$> sample_frames) !! a = Some x ->
  (a = 8 \/ a = 16 \/ a = 24 \/ a = 32) /\ (g <$> sample_frames !! a) = Some x.
Proof.
  rewrite lookup_fmap. intros H. split; [|done]. apply fmap_Some in H as (f & Hf & _). unfold sample_frames in Hf.
  repeat (apply lookup_insert_Some in Hf as [[<- _]|[_ Hf]]; [tauto|]). by rewrite lookup_empty in Hf.
Qed.

Lemma sample_links : links 8 (vw sample_task) sample_queues.
Proof.
  split; cbn [vw v_rnext v_run v_waitlnk v_wq v_freelnk v_freeframe v_snext v_sprev v_cores q_run q_wait q_free q_spark sample_queues].
  - split; [by repeat (econstructor || reflexivity)|].
    intros a n ([->|[->|[->| ->]]] & Hn)%sample_cases _; by injection Hn as <-.
  - split.
    + intros w h ([->|[->|[->| ->]]] & Hn)%sample_cases; injection Hn as <-; by repeat (econstructor || reflexivity).
    + intros w x. case_decide as Hw; [subst; by eexists | by intros ?%not_elem_of_nil].
    + intros w w' x. repeat case_decide; subst; try done; by intros ? ?%not_elem_of_nil || intros ?%not_elem_of_nil.
    + intros a n ([->|[->|[->| ->]]] & Hn)%sample_cases Hw; injection Hn as <-; [done | done | | done].
      exfalso. apply (Hw 16). rewrite decide_True by done. by left.
  - constructor.
  - split; [apply NoDup_singleton | set_solver | done |].
    intros a Ha. split; intros n ([->|[->|[->| ->]]] & Hn)%sample_cases; injection Hn as <-; try done; exfalso; apply Ha; by left.
  - intros a k ([->|[->|[->| ->]]] & _)%sample_cases; lia.
Qed.

(** ** Theorem *)

(** C6. When a frame has its result every frame that waits for it becomes
    runnable: the loop that wakes them up ends, all of them are in the run
    queue afterwards and none is left waiting; nothing else is added to the run
    queue, the frame at its head stays there, the other wait queues are as they
    were, and all the links between frames are still consistent. *)
Theorem waiters_wake w t q :
  links (t_sparklist t) (vw t) q -> is_frame t w ->
  (forall f, f ∈ q_wait q w -> (f ∉ q_run q) /\ exists k, cores t !! f = Some k /\ k_state k = STATE_ACTIVE /\ wakeable t k) ->
  wp (resume_local_waiters w) (fun _ t' => exists q', woken w q t' q') t.
Proof. apply resume_wakes. Qed.

(** Frames 24 and 32 run after the loop has returned. *)
Lemma waiters_wake_witness :
  (exists t', resume_local_waiters 16 sample_task = MDone tt t') /\
  wp (resume_local_waiters 16) (fun _ t' => exists q', woken 16 sample_queues t' q') sample_task.
Proof.
  split; [eexists; vm_compute; reflexivity|].
  apply (waiters_wake 16 sample_task sample_queues); [exact sample_links | by eexists |].
  intros f. change (q_wait sample_queues 16) with [24; 32]. rewrite !elem_of_cons. intros [->|[->|Hf]]; [| |by apply not_elem_of_nil in Hf];
    (split; [by intros [?|?%not_elem_of_nil]%elem_of_cons|]; eexists; split_and!; [reflexivity | reflexivity |];
     exists 3; eexists; split_and!; [reflexivity | lia | vm_compute; reflexivity | reflexivity]).
Defined.
