(* ===== verification/OpsCall.v ===== *)
(** * Frames for calls: MKFRAME, ITEMN, CALL and EVAL *)

From S2P Require Import Prelude Builtins Source Bytecode Compile Pointer Chain Arith Memory Globals Sched Arrays Interpreter Wp SchedFacts Typing MachineOk HeapFacts WorldFacts FrameFacts Snap FrameAlloc Ops OpsSimple OpsReturn.
#[local] Open Scope Z_scope.

Section call.
Context (E : env).
Hypothesis Hcheck : checked_env E = true.
Context (f pc : Z) (instr : instruction) (main : bool) (st : stack_ty).
Context (h : gmap Z object) (ks : gmap Z core) (q : queues) (r : list Z) (k : core) (t : task).
Hypothesis X : executing E f pc instr main st h ks q r k t.
#[local] Abbreviation ok := (fun _ t' => machine_ok E t').
#[local] Abbreviation cur := (Some (f, PcTy main st)).
#[local] Abbreviation the_good := (the_good _ _ _ _ _ _ _ _ _ _ _ _ X).
#[local] Abbreviation the_snap := (the_snap _ _ _ _ _ _ _ _ _ _ _ _ X).
#[local] Abbreviation the_core := (the_core _ _ _ _ _ _ _ _ _ _ _ _ X).
#[local] Abbreviation the_exp := (the_exp _ _ _ _ _ _ _ _ _ _ _ _ X).
#[local] Abbreviation f_running := (f_running _ _ _ _ _ _ _ _ _ _ _ _ X).
#[local] Abbreviation f_data_ok := (f_data_ok _ _ _ _ _ _ _ _ _ _ _ _ X).
#[local] Abbreviation f_visible := (f_visible _ _ _ _ _ _ _ _ _ _ _ _ X).
#[local] Abbreviation f_busy := (f_busy _ _ _ _ _ _ _ _ _ _ _ _ X).
#[local] Abbreviation f_core := (f_core _ _ _ _ _ _ _ _ _ _ _ _ X).
#[local] Abbreviation f_once := (f_once _ _ _ _ _ _ _ _ _ _ _ _ X).

(** ** A new frame *)

(** The frame [a], with core [k0], is the first of the free list. *)
Record spare (a : Z) (l : list Z) (k0 : core) (ks1 : gmap Z core) (q1 : queues) : Prop := {
  sp_good : good E cur h ks1 q1;
  sp_core : ks1 !! f = Some k;
  sp_run : q_run q1 = f :: r;
  sp_free : q_free q1 = a :: l;
  sp_notin : a ∉ l;
  sp_other : a <> f;
  sp_spare : ks1 !! a = Some k0;
  sp_fetchers : k_fetchers k0 = [];
  sp_data : Z.of_nat (length (k_data k0)) = e_maxstack E
}.

Lemma wp_spare Q :
  (forall a l k0 ks1 q1 t', spare a l k0 ks1 q1 ->
     snap E h (<[a := fresh_core k0]> ks1) (q_set_free l q1) false t' -> Q a t') -> wp frame_new Q t.
Proof.
  intros HQ. eapply snap_frame_new; [exact (env_size E Hcheck) | exact the_snap | exact the_good|].
  intros a l k0 ks1 q1 t' G1 [Hks _] R1 R2 R3 R4 Hal Hk0 S1.
  destruct (free_idle _ _ _ _ _ a G1) as (x & Hx & Hxs & _ & _ & Hfe & Hlen); [rewrite R4; left|].
  rewrite Hk0 in Hx. injection Hx as <-. assert (Hf := Hks _ _ the_core).
  eapply HQ; [|exact S1]. split; try done; [by rewrite R1; apply X|]. intros ->. rewrite Hf in Hk0. injection Hk0 as <-.
  destruct f_busy as [_ Hact]. congruence.
Qed.

Section spare.
Context (a : Z) (l : list Z) (k0 : core) (ks1 : gmap Z core) (q1 : queues).
Hypothesis P : spare a l k0 ks1 q1.

(** Once it has been set up, with a cell of its own. *)
Definition holds (c : Z) (cc : cell) (K : core) : Prop :=
  h !! c = None /\ 8 <= c /\ c_type cc = CELL_FRAME /\ c_field1 cc = make_pntr a /\
  k_c K = c /\ k_state K = STATE_NEW /\ k_retp K = None /\ k_fetchers K = [] /\
  Z.of_nat (length (k_data K)) = e_maxstack E /\ started E h K.

Lemma good_holder c cc K :
  holds c cc K -> good E cur (<[c := OCell cc]> h) (<[a := K]> ks1) (q_set_free l q1) /\ visible E (<[c := OCell cc]> h) (make_pntr c).
Proof.
  intros (H1 & H2 & H3 & H4 & <- & H6 & H7 & H8 & H9 & H10). split.
  - eapply good_frame; [apply P | apply P | apply P | done | done | done | done | done | done | done | done | done | apply P].
  - eapply points_new; [by rewrite lookup_insert_eq | by eapply fresh_not_hid; [exact the_good|] | by rewrite H3 | by rewrite H3].
Qed.

(** The holder is stored in place of the [n] topmost slots. *)
Lemma wp_store_holder t' c cc K n :
  snap E (<[c := OCell cc]> h) (<[a := K]> ks1) (q_set_free l q1) false t' -> holds c cc K ->
  can_replace (e_maxstack E) n st = true -> goes (e_typing E) (pc + 1) main (replace_top n SAny st) = true ->
  wp (set_slot f (i_expcount instr - n) (make_pntr c)) ok t'.
Proof.
  intros S' HK Hc Hgo. destruct (good_holder _ _ _ HK) as [G' Hv]. destruct (can_replace_inv _ _ _ Hc) as [C1 C2]. rewrite the_exp.
  eapply (wp_store E _ _ _ _ _ _ _ _ _ _ _ _ _ SAny); [exact S' | exact G' | apply P | | apply X | lia | apply set_ty_top; lia | | exact Hv | | exact Hgo]; [|done|].
  - rewrite lookup_insert_ne by apply P. apply P.
  - rewrite replace_top_length by lia. lia.
Qed.
End spare.

(** ** MKFRAME *)

Lemma op_mkframe_ok : i_opcode instr = OP_MKFRAME -> wp (op_mkframe f instr) ok t.
Proof.
  intros Hop. checked X Hop C. destruct C as ((C1 & C2) & C3). destruct (can_replace_inv _ _ _ C2) as [D1 D2].
  unfold finfo_entry in C1. destruct (zlookup _ (i_arg0 instr)) as [fi|] eqn:Efi; [|done]. apply andb_true_iff in C1 as [C1 C4]. apply Z.eqb_eq in C4.
  destruct (entry_inv _ _ _ C1) as (_ & A1 & _). unfold op_mkframe. cbv zeta. set (n := i_arg1 instr) in *.
  apply wp_bind, wp_spare. intros a l k0 ks1 q1 t1 P S1. assert (Haf := sp_other _ _ _ _ _ P).
  apply wp_bind. eapply wp_new_frame_cell; [exact S1 | by rewrite lookup_insert_eq|]. intros c cc t2 Hc Hc8 Hcc1 Hcc2 S2. rewrite insert_insert_eq in S2.
  apply wp_bind. eapply wp_enter_function; [exact S2 | exact Efi | exact C1 | by rewrite lookup_insert_eq|]. intros t3 S3. rewrite insert_insert_eq in S3.
  apply wp_bind. rewrite the_exp.
  eapply (wp_copy_slots _ (visible E h)); [exact S3 | rewrite lookup_insert_ne by done; apply P | by rewrite lookup_insert_eq | done | lia | lia | lia | | |].
  - intros j Hj. apply f_visible. lia.
  - pose proof (sp_data _ _ _ _ _ P). cbn. lia.
  - intros d t4 Hd _ Hcopy S4. rewrite insert_insert_eq in S4. rewrite <- the_exp. eapply wp_store_holder; [exact P | exact S4 | | exact C2 | exact C3].
    split_and!; try done; [apply P | rewrite <- (sp_data _ _ _ _ _ P); cbn; by rewrite Hd|].
    eapply started_entry; [exact C1 | done|]. intros i Hi. apply Hcopy. lia.
Qed.

(** ** ITEMN *)

(** The index is a number. *)
Lemma wp_item_frame :
  (2 <=? e_maxstack E) = true -> 1 <= Z.of_nat (length st) -> is_pntr (set_pntrdouble (double_of_int (i_arg0 instr))) = false ->
  finfo_entry (e_prog E) (e_typing E) (e_maxstack E) (p_itemfno (e_prog E)) (fun fi => fi_arity fi =? 2) = true ->
  goes (e_typing E) (pc + 1) main (replace_top 1 SAny st) = true ->
  wp (make_item_frame f (i_expcount instr) (i_arg0 instr)) ok t.
Proof.
  intros Hm He Hnum Hfi Hgo. apply Z.leb_le in Hm. unfold finfo_entry in Hfi.
  destruct (zlookup _ _) as [fi|] eqn:Efi; [|done]. apply andb_true_iff in Hfi as [C1 C4]. apply Z.eqb_eq in C4.
  unfold make_item_frame. apply wp_bind, wp_gets. rewrite (mi_prog _ _ (sn_misc _ _ _ _ _ _ the_snap)).
  apply wp_bind, wp_spare. intros a l k0 ks1 q1 t1 P S1. assert (Haf := sp_other _ _ _ _ _ P). assert (Hlen := sp_data _ _ _ _ _ P).
  apply wp_bind. eapply wp_new_frame_cell; [exact S1 | by rewrite lookup_insert_eq|]. intros c cc t2 Hc Hc8 Hcc1 Hcc2 S2. rewrite insert_insert_eq in S2.
  apply wp_bind. eapply wp_enter_function; [exact S2 | exact Efi | exact C1 | by rewrite lookup_insert_eq|]. intros t3 S3. rewrite insert_insert_eq in S3.
  destruct (f_visible (Z.of_nat (length st) - 1)) as (p & Hp & Hv); [lia|].
  apply wp_bind. rewrite the_exp. eapply snap_get_slot; [exact S3 | rewrite lookup_insert_ne by done; apply P | lia | exact Hp|].
  apply wp_bind. eapply snap_set_slot; [exact S3 | by rewrite lookup_insert_eq | cbn; lia|]. intros t4 S4. rewrite insert_insert_eq in S4.
  apply wp_bind. eapply snap_set_slot; [exact S4 | by rewrite lookup_insert_eq | cbn; rewrite length_insert; lia|]. intros t5 S5. rewrite insert_insert_eq in S5.
  rewrite <- the_exp. eapply wp_store_holder; [exact P | exact S5 | | | exact Hgo].
  - split_and!; try done; [apply P | cbn; by rewrite !length_insert|].
    eapply started_entry; [exact C1 | done|]. intros i Hi. rewrite C4 in Hi. cbn [sk_data k_data].
    destruct (decide (i = 1%nat)) as [->|Hi1].
    + eexists. rewrite list_lookup_insert_eq by (rewrite length_insert; cbn; lia). split; [done|]. apply number_points. exact Hnum.
    + assert (i = 0%nat) as -> by lia. exists p. rewrite list_lookup_insert_ne by done. rewrite list_lookup_insert_eq by (cbn; lia). done.
  - unfold can_replace. destruct f_data_ok. rewrite !andb_true_iff, !Z.leb_le. lia.
Qed.
(** ** CALL *)

Lemma spare_idle a l k0 ks1 q1 : spare a l k0 ks1 q1 ->
  k_state k0 = STATE_UNALLOCATED /\ q_wait q1 a = [] /\ a <> e_sentinel E /\ (a ∉ q_run q1) /\ (a ∉ q_spark q1).
Proof.
  intros P. destruct (free_idle _ _ _ _ _ a (sp_good _ _ _ _ _ P)) as (x & Hx & Hxs & Hw & Hs & _); [rewrite (sp_free _ _ _ _ _ P); left|].
  rewrite (sp_spare _ _ _ _ _ P) in Hx. injection Hx as <-. assert (St := gd_states _ _ _ _ _ (sp_good _ _ _ _ _ P)).
  split_and!; [done..| |].
  - intros Hin. apply (so_run _ _ _ St) in Hin as (y & Hy & Hys). rewrite (sp_spare _ _ _ _ _ P) in Hy. injection Hy as <-. congruence.
  - intros Hin. apply (so_spark _ _ _ St) in Hin as (y & Hy & Hys). rewrite (sp_spare _ _ _ _ _ P) in Hy. injection Hy as <-. congruence.
Qed.

(** The frame [f] waits for a result in place of its [n] topmost slots. *)
Lemma f_calling n :
  can_replace (e_maxstack E) n st = true -> goes (e_typing E) (pc + 1) main (replace_top n SAny st) = true ->
  calling E h main st (Z.of_nat (length st) - n) k k.
Proof.
  intros Hc Hgo. destruct (can_replace_inv _ _ _ Hc) as [C1 C2]. unfold goes in Hgo.
  destruct (zlookup (e_typing E) (pc + 1)) as [[pt|]|] eqn:Et; [|done..]. apply andb_true_iff in Hgo as [Hm Hs].
  exists (pc + 1), pt. split_and!; [apply X | done | by destruct (pt_main pt), main | |].
  - apply sub_st_length in Hs. pose proof (replace_top_length n SAny st). lia.
  - intros j ty Hj. destruct (sub_st_lookup _ _ _ _ Hs Hj) as (ty' & Hj' & Hty).
    destruct (set_ty_top n SAny st C1 _ _ Hj') as [[-> ->]|[Hne Hst]].
    + destruct ty; try done. split_and!; [done | left; lia | done].
    + split_and!; [lia | | by intros ->; destruct ty'].
      right. destruct (f_slot _ _ _ _ _ _ _ _ _ _ _ _ X _ _ Hst) as (p & Hp & Hok). exists p. split; [done|]. by eapply slot_ok_sub.
Qed.

(** From the arguments in place to the new frame at work. *)
Lemma wp_start_call a l k0 ks1 q1 K t' i :
  spare a l k0 ks1 q1 -> snap E h (<[a := K]> ks1) (q_set_free l q1) false t' ->
  wakeable_at E k -> calling E h main st i k k -> 0 <= i < e_maxstack E ->
  k_state K = STATE_NEW -> k_c K = 0 -> k_retp K = Some (f, i) -> k_fetchers K = [] ->
  Z.of_nat (length (k_data K)) = e_maxstack E -> started E h K ->
  wp (add_waiter_frame a f;; block_frame f;; run_frame a) ok t'.
Proof.
  intros P S Hwk Hcal Hi K1 K2 K3 K4 K5 Hst. destruct (spare_idle _ _ _ _ _ P) as (Hidle & Hw & Has & Har & Hasp).
  assert (Haf := sp_other _ _ _ _ _ P). destruct f_busy as [_ Hact].
  assert (Hf : (<[a := K]> ks1) !! f = Some k) by (rewrite lookup_insert_ne by done; apply P).
  eapply wp_use.
  { apply (add_waiter_spec _ (q_set_free l q1) a f); [by eapply snap_links | | |].
    - change (is_Some (cores t' !! a)). rewrite (sn_cores _ _ _ _ _ _ S), lookup_insert_eq. eauto.
    - change (is_Some (cores t' !! f)). rewrite (sn_cores _ _ _ _ _ _ S), Hf. eauto.
    - intros v. apply (run_not_waiting E cur h ks1 q1); [apply P|]. rewrite (sp_run _ _ _ _ _ P). left. }
  cbv beta. cbn [q_set_free q_wait]. rewrite Hw, (sn_cores _ _ _ _ _ _ S). intros [] t2 M2.
  assert (S2 := snap_moved _ _ _ _ _ _ _ _ _ S M2 ltac:(done)). eapply wp_use.
  { eapply block_frame_spec; [by eapply snap_links | apply P | rewrite (sn_cores _ _ _ _ _ _ S2); exact Hf | exact Hact]. }
  cbv beta. rewrite (sn_cores _ _ _ _ _ _ S2). intros [] t3 M3.
  assert (S3 := snap_moved _ _ _ _ _ _ _ _ _ S2 M3 ltac:(done)). eapply wp_mono.
  { eapply run_frame_new_spec; [by eapply snap_links | rewrite (sn_cores _ _ _ _ _ _ S3), lookup_insert_eq; reflexivity | | exact K1 |].
    - by rewrite (mi_sentinel _ _ (sn_misc _ _ _ _ _ _ S3)).
    - cbn. rewrite (sp_run _ _ _ _ _ P), not_elem_of_cons in Har. apply Har. }
  cbv beta. rewrite (sn_cores _ _ _ _ _ _ S3). intros [] t4 M4. rewrite insert_insert_eq in M4.
  eapply running_none; [eapply snap_moved; [exact S3 | exact M4|] | | done].
  - intros b [x Hx]. apply lookup_insert_Some in Hx as [[<- _]|[Hne Hx]]; [rewrite lookup_insert_eq; eauto|]. rewrite lookup_insert_ne by done. eauto.
  - assert (G : good E None h (<[a := K]> ks1) (q_set_run r (q_set_wait (set_wait (q_wait q1) a [f]) (q_set_free l q1)))).
    { rewrite <- (insert_id ks1 f k) by apply P. eapply good_call; try done; try (by apply P). exact f_once. }
    rewrite <- (insert_insert_eq ks1 a (sk_state STATE_ACTIVE K) K). refine (good_start _ _ _ _ _ _ _ (q_spark q1) G _ _ _); [|by rewrite K1|].
    + split_and!; [by rewrite lookup_insert_eq | done | by rewrite K1].
    + intros x. cbn. split; [|tauto]. intros Hx. split; [done|]. by intros ->.
Qed.

Lemma op_call_ok : i_opcode instr = OP_CALL -> wp (op_call f instr) ok t.
Proof.
  intros Hop. checked X Hop C. destruct C as (((C1 & C2) & C3) & C5). destruct (can_replace_inv _ _ _ C2) as [D1 D2].
  unfold finfo_entry in C1. destruct (zlookup (p_finfo _) (i_arg0 instr)) as [fi|] eqn:Efi; [|done]. apply andb_true_iff in C1 as [C1 C4]. apply Z.eqb_eq in C4.
  destruct (entry_inv _ _ _ C1) as (_ & A1 & _). unfold op_call. cbv zeta. set (n := i_arg1 instr) in *.
  assert (wakeable_at E k) as Hwk.
  { destruct (zlookup (ops _) (pc + 1)) as [j|] eqn:Ej; [|done]. apply zlookup_Some in Ej as [? ?]. apply bool_decide_eq_true in C5.
    exists (pc + 1), j. split_and!; [apply X | done..]. }
  apply wp_bind, wp_spare. intros a l k0 ks1 q1 t1 P S1. assert (Haf := sp_other _ _ _ _ _ P).
  apply wp_bind. eapply wp_enter_function; [exact S1 | exact Efi | exact C1 | by rewrite lookup_insert_eq|]. intros t2 S2. rewrite insert_insert_eq in S2.
  apply wp_bind. eapply snap_set_retp; [exact S2 | by rewrite lookup_insert_eq|]. intros t3 S3. rewrite insert_insert_eq in S3.
  apply wp_bind. rewrite the_exp in *.
  eapply (wp_copy_slots _ (visible E h)); [exact S3 | rewrite lookup_insert_ne by done; apply P | by rewrite lookup_insert_eq | done | lia | lia | lia | | |].
  - intros j Hj. apply f_visible. lia.
  - pose proof (sp_data _ _ _ _ _ P). cbn. lia.
  - intros d t4 Hd _ Hcopy S4. rewrite insert_insert_eq in S4.
    eapply wp_start_call; [exact P | exact S4 | exact Hwk | by apply f_calling | lia | done | done | done | apply P | |].
    + rewrite <- (sp_data _ _ _ _ _ P). cbn. by rewrite Hd.
    + eapply started_entry; [exact C1 | done|]. intros i Hi. apply Hcopy. lia.
Qed.
End call.

(** The slot in question holds what it resolves to. *)
Lemma executing_slot E f pc instr main st h ks q r k t i v st' :
  executing E f pc instr main st h ks q r k t -> (i < length st)%nat -> set_ty i SAny st st' -> length st' = length st ->
  visible E h v ->
  check_op (e_prog E) (e_typing E) (e_maxstack E) (Z.of_nat (length (e_strings E))) pc main st' instr = true ->
  wp (set_slot f (Z.of_nat i) v) (fun _ t' => let k' := sk_data (<[i := v]> (k_data k)) k in
    executing E f pc instr main st' h (<[f := k']> ks) q r k' t') t.
Proof.
  intros X Hi Hst Hlen Hv Hck. assert (D := f_data_ok _ _ _ _ _ _ _ _ _ _ _ _ X).
  eapply (snap_store E f main st st' _ _ _ _ _ _ _ _ SAny); [apply X | apply X | by eapply f_running | apply X | lia | by rewrite Nat2Z.id | done | exact Hv | by rewrite Hlen; apply D|].
  cbv zeta. rewrite Nat2Z.id. intros t' S' G'. split; try (by apply X); try done; [by rewrite lookup_insert_eq|]. rewrite Hlen. apply X.
Qed.

Lemma replace_top_twice n ty ty' st :
  1 <= n <= Z.of_nat (length st) -> replace_top 1 ty' (replace_top n ty st) = replace_top n ty' st.
Proof.
  intros Hn. unfold replace_top, ztake. f_equal. rewrite length_app, length_take. cbn.
  replace (Z.to_nat (Z.of_nat (Z.to_nat (Z.of_nat (length st) - n) `min` length st + 1)%nat - 1)) with (length (take (Z.to_nat (Z.of_nat (length st) - n)) st)).
  - apply take_app_length.
  - rewrite length_take. lia.
Qed.

Section item.
Context (E : env).
Context (f pc : Z) (instr : instruction) (main : bool) (st : stack_ty).
Context (h : gmap Z object) (ks : gmap Z core) (q : queues) (r : list Z) (k : core) (t : task).
Hypothesis X : executing E f pc instr main st h ks q r k t.
#[local] Abbreviation ok := (fun _ t' => machine_ok E t').

(** The element of an array. *)
Lemma wp_item p pos x fl n arr l i :
  1 <= Z.of_nat (length st) -> 
  goes (e_typing E) (pc + 1) main (replace_top 1 SAny st) = true ->
  h !! x = Some (OArray fl n arr) -> ca_elements arr = Pntrs l -> l !! i = Some p -> pos = Z.of_nat i ->
  wp (y ← mderef (l !! Z.to_nat pos); set_slot f (i_expcount instr - 1) y) ok t.
Proof.
  intros He Hgo Hx Hl Hi ->. apply wp_bind. eapply wp_mderef; [by rewrite Nat2Z.id|].
  assert (Ho := gd_heap _ _ _ _ _ (the_good _ _ _ _ _ _ _ _ _ _ _ _ X) _ _ Hx). cbn in Ho. rewrite Hl in Ho.
  assert (visible E h p) as Hv by (rewrite Forall_lookup in Ho; by eapply Ho).
  assert (D := f_data_ok _ _ _ _ _ _ _ _ _ _ _ _ X).
  eapply (wp_replace _ _ _ _ _ _ _ _ _ _ _ _ X _ _ _ _ _ SAny); [apply X | apply X | | | exact Hv | exact Hgo]; [|done].
  unfold can_replace. rewrite !andb_true_iff, !Z.leb_le. lia.
Qed.

End item.

Section itemn.
Context (E : env).
Hypothesis Hcheck : checked_env E = true.
Context (f pc : Z) (instr : instruction) (main : bool) (st : stack_ty).
Context (h : gmap Z object) (ks : gmap Z core) (q : queues) (r : list Z) (k : core) (t : task).
Hypothesis X : executing E f pc instr main st h ks q r k t.
#[local] Abbreviation ok := (fun _ t' => machine_ok E t').

Lemma itemn_ok : i_opcode instr = OP_ITEMN -> wp (op_itemn f instr) ok t.
Proof.
  intros Hop. checked X Hop C. destruct C as (((((C1 & C2) & C3) & C4) & C5) & C6). apply Z.leb_le in C1, C2. apply negb_true_iff in C4.
  destruct (f_data_ok _ _ _ _ _ _ _ _ _ _ _ _ X) as [D1 D2]. unfold op_itemn. cbv zeta.
  destruct (f_visible _ _ _ _ _ _ _ _ _ _ _ _ X (i_expcount instr - 1)) as (v & Hv & Hvv); [rewrite (the_exp _ _ _ _ _ _ _ _ _ _ _ _ X); lia|].
  apply wp_bind. eapply snap_get_slot; [apply X | apply X | rewrite (the_exp _ _ _ _ _ _ _ _ _ _ _ _ X); lia | exact Hv|].
  destruct (good_resolve _ _ _ _ _ _ (the_good _ _ _ _ _ _ _ _ _ _ _ _ X) Hvv) as (p & ty & Hr & Hpv & Hpt & Hpi).
  apply wp_bind. eapply snap_resolve; [apply X | exact Hr|]. set (st' := replace_top 1 SAny st).
  assert (length st' = length st) as Hlen by (pose proof (replace_top_length 1 SAny st); unfold st'; lia).
  eapply wp_use.
  { replace (i_expcount instr - 1) with (Z.of_nat (length st - 1)) by (rewrite (the_exp _ _ _ _ _ _ _ _ _ _ _ _ X); lia).
    eapply (executing_slot E f pc instr main st h ks q r k t _ p st'); [exact X | lia | | exact Hlen | exact Hpv|].
    - pose proof (set_ty_top 1 SAny st) as Hs. replace (Z.to_nat (Z.of_nat (length st) - 1)) with (length st - 1)%nat in Hs by lia. apply Hs. lia.
    - unfold check_op. rewrite Hop. cbv zeta. unfold st' at 2. rewrite replace_top_twice, Hlen, C3, C4, C5, C6 by lia.
      rewrite (proj2 (Z.leb_le 0 _)), (proj2 (Z.leb_le 1 _)) by lia. done. }
  cbv beta zeta. intros [] t1 X1. set (k1 := sk_data _ k) in X1. set (ks1 := <[f := k1]> ks) in X1.
  assert (Hgo : goes (e_typing E) (pc + 1) main (replace_top 1 SAny st') = true) by (unfold st'; rewrite replace_top_twice by lia; exact C6).
  assert (Hfr := wp_item_frame E Hcheck f pc instr main st' h ks1 q r k1 t1 X1 C3 ltac:(lia) C4 C5 Hgo).
  apply wp_bind. eapply snap_typeof; [apply X1 | exact Hpt|]. destruct (Z.eqb_spec ty CELL_AREF) as [->|]; [|exact Hfr].
  destruct (visible_cell _ _ _ _ Hpv Hpt ltac:(done)) as (Hp & _ & c & Hc & Hct).
  destruct (ce_aref _ _ _ _ _ (gd_heap _ _ _ _ _ (the_good _ _ _ _ _ _ _ _ _ _ _ _ X) _ _ Hc) Hct) as ((x & fl & n & arr & Hx & Harr) & _).
  unfold aref_array. apply wp_bind, wp_bind. eapply (wp_lift _ (p_lo p)); [unfold get_pntr; by rewrite Hp|].
  apply wp_bind. eapply snap_get_cell; [apply X1 | exact Hc|]. eapply wp_lift; [exact Hx|].
  apply wp_bind. eapply snap_get_array; [apply X1 | exact Harr|]. destruct (ca_elements arr) as [l|] eqn:El; [|exact Hfr].
  destruct (Z.ltb_spec (aref_index p + i_arg0 instr) (Z.of_nat (length l))) as [Hlt|]; [|exact Hfr].
  assert (0 <= aref_index p) as Hidx by (apply Z.land_nonneg; by right).
  apply wp_bind, wp_massert; [apply Z.leb_le; lia|].
  destruct (lookup_lt_is_Some_2 l (Z.to_nat (aref_index p + i_arg0 instr))) as [y Hy]; [lia|].
  eapply (wp_item E f pc instr main st' h ks1 q r k1 t1 X1 y); [lia | exact Hgo | exact Harr | exact El | exact Hy | lia].
Qed.
End itemn.

(** ** EVAL

    The slot is followed to its value. A frame that has not been started is
    put to work and the frame at hand waits for it, to run the instruction
    again. *)

(** ** Starting a frame *)

Lemma snap_dom h ks q i t ks' q' t' a k E :
  snap E h ks q i t -> ks !! a = Some k -> moved t (<[a := ks']> ks) q' t' -> snap E h (<[a := ks']> ks) q' false t'.
Proof.
  intros S Ha M. eapply snap_moved; [exact S | exact M|]. intros b [x Hx].
  apply lookup_insert_Some in Hx as [[<- _]|[_ Hx]]; eauto.
Qed.

Lemma spark_rest q l1 l2 g : q_spark q = l1 ++ g :: l2 -> NoDup (q_spark q) -> forall x, x ∈ l1 ++ l2 <-> x ∈ q_spark q /\ x <> g.
Proof.
  intros -> (N1 & N2 & N3)%list.NoDup_app x. apply NoDup_cons in N3 as [N3 _]. rewrite !elem_of_app, elem_of_cons. split.
  - intros [Hx|Hx]; (split; [tauto|]); intros ->; [|done]. apply (N2 g Hx). left.
  - tauto.
Qed.

(** A new frame goes to the head of the run queue. *)
Lemma snap_run_new E h ks q i t g kg Q :
  snap E h ks q i t -> good E None h ks q -> busy E ks g kg -> k_state kg = STATE_NEW ->
  (forall ks' q' t', snap E h ks' q' false t' -> good E None h ks' q' -> q_run q' <> [] -> Q tt t') -> wp (run_frame g) Q t.
Proof.
  intros S G Hb Est HQ. assert (Hkg := proj1 Hb). assert (St := gd_states _ _ _ _ _ G).
  assert (Hg : cores t !! g = Some kg) by (by rewrite (sn_cores _ _ _ _ _ _ S)). eapply wp_mono.
  { eapply run_frame_new_spec; [by eapply snap_links | exact Hg | rewrite (mi_sentinel _ _ (sn_misc _ _ _ _ _ _ S)); apply Hb | exact Est|].
    intros Hin. apply (so_run _ _ _ St) in Hin as (y & Hy & Hys). congruence. }
  cbv beta. rewrite (sn_cores _ _ _ _ _ _ S). intros [] t' M. eapply HQ; [by eapply snap_dom| |done].
  refine (good_start _ _ _ _ _ _ _ (q_spark q) G Hb _ _); [by rewrite Est|]. intros x. split; [|tauto]. intros Hx. split; [done|]. intros ->.
  apply (so_spark _ _ _ St) in Hx as (y & Hy & Hys). congruence.
Qed.

(** Whatever its state, [run_frame] leaves the frame at work or waiting. *)
Lemma snap_run_frame E h ks q i t g kg Q :
  snap E h ks q i t -> good E None h ks q -> busy E ks g kg ->
  (forall ks' q' t', snap E h ks' q' false t' -> good E None h ks' q' -> Q tt t') -> wp (run_frame g) Q t.
Proof.
  intros S G Hb HQ. assert (Hkg := proj1 Hb). assert (L := snap_links _ _ _ _ _ _ S). assert (St := gd_states _ _ _ _ _ G).
  assert (Hg : cores t !! g = Some kg) by (by rewrite (sn_cores _ _ _ _ _ _ S)).
  assert (Hs : g <> t_sparklist t) by (rewrite (mi_sentinel _ _ (sn_misc _ _ _ _ _ _ S)); apply Hb).
  assert (Hrun : k_state kg <> STATE_ACTIVE -> g ∉ q_run q).
  { intros Hn Hin. apply (so_run _ _ _ St) in Hin as (y & Hy & Hys). congruence. }
  destruct (k_state kg) eqn:Est; try (destruct Hb as (_ & _ & Hl); by rewrite Est in Hl).
  - eapply snap_run_new; [exact S | exact G | exact Hb | exact Est | eauto].
  - assert (g ∈ q_spark q) as Hin by (apply (so_spark _ _ _ St); eauto). apply list_elem_of_split in Hin as (l1 & l2 & El).
    eapply wp_mono; [eapply run_frame_sparked_spec; [exact L | exact Hg | exact Hs | exact Est | by apply Hrun | exact El]|].
    cbv beta. rewrite (sn_cores _ _ _ _ _ _ S). intros [] t' M. eapply HQ; [by eapply snap_dom|].
    refine (good_start _ _ _ _ _ _ _ (l1 ++ l2) G Hb _ _); [by rewrite Est|]. apply spark_rest; [done|].
    assert (Hn := sk_nodup _ _ _ _ (lk_spark _ _ _ (sn_links _ _ _ _ _ _ S))). by apply NoDup_cons in Hn as [_ ?].
  - eapply wp_mono; [eapply run_frame_other_spec; [exact L | exact Hg | exact Hs | by rewrite Est]|].
    cbv beta. rewrite (sn_cores _ _ _ _ _ _ S). intros [] t' M. eapply HQ; [by eapply snap_moved|exact G].
Qed.

Section eval.
Context (E : env).
Hypothesis Hcheck : checked_env E = true.
Context (f pc : Z) (instr : instruction) (main : bool) (st : stack_ty).
Context (h : gmap Z object) (ks : gmap Z core) (q : queues) (r : list Z) (k : core) (t : task).
Hypothesis X : executing E f pc instr main st h ks q r k t.
#[local] Abbreviation ok := (fun _ t' => machine_ok E t').
#[local] Abbreviation the_good := (the_good _ _ _ _ _ _ _ _ _ _ _ _ X).
#[local] Abbreviation the_snap := (the_snap _ _ _ _ _ _ _ _ _ _ _ _ X).
#[local] Abbreviation the_core := (the_core _ _ _ _ _ _ _ _ _ _ _ _ X).
#[local] Abbreviation f_running := (f_running _ _ _ _ _ _ _ _ _ _ _ _ X).
#[local] Abbreviation f_data_ok := (f_data_ok _ _ _ _ _ _ _ _ _ _ _ _ X).
#[local] Abbreviation f_once := (f_once _ _ _ _ _ _ _ _ _ _ _ _ X).

(** The frame [f], back at the EVAL, waits for the frame of [p]. *)
Lemma wp_wait_for t1 p k1 :
  i_opcode instr = OP_EVAL -> zlookup (e_typing E) pc = Some (Some (PcTy main st)) ->
  snap E h (<[f := k1]> ks) q false t1 -> good E (Some (f, PcTy main st)) h (<[f := k1]> ks) q ->
  k_instr k1 = Some (pc + 1) -> k_state k1 = STATE_ACTIVE -> visible E h p -> pntrtype h p = Some CELL_FRAME ->
  wp (newf ← pframe p; instr_back f;; add_waiter_frame newf f;; block_frame f;; run_frame newf;; check_runnable) ok t1.
Proof.
  intros Hop Ht S G Hpc Hact Hv Hty. assert (Hk1 : (<[f := k1]> ks) !! f = Some k1) by (by rewrite lookup_insert_eq).
  set (k2 := sk_instr (Some (pc + 1 - 1)) k1). set (ks2 := <[f := k2]> ks).
  assert (k_instr k2 = Some pc) as Hpc2 by (cbn; f_equal; lia).
  assert (G2 : good E None h ks2 q).
  { eapply (good_unfocus _ _ _ _ f k2); [|by unfold ks2; rewrite lookup_insert_eq | exact Hpc2 | exact Ht].
    unfold ks2. rewrite <- (insert_insert_eq ks f k2 k1). eapply good_cur_upd; [exact G | exact f_running | exact Hk1 | done | done | apply f_data_ok | done | | done].
    intros i ty Hi. change (k_data k2) with (k_data k1). eapply cur_slot; [exact G | exact f_running | exact Hk1 | exact Hi]. }
  destruct (frame_of E _ _ _ _ _ G2 Hv Hty) as (c & g & kg & Hp & Hc & Hg & Hb & Hkc & Hkm).
  apply wp_bind. eapply wp_pframe; [exact S | exact Hp | exact Hc | exact Hg|].
  eapply (wp_use _ _ (fun _ t' => snap E h ks2 q false t')).
  { unfold instr_back. apply wp_bind. eapply snap_get_frame; [exact S | exact Hk1|]. intros fr _ Ek. apply wp_bind.
    eapply (wp_mderef _ (pc + 1)); [rewrite <- Hpc, <- Ek; done|]. eapply snap_set_instr; [exact S | exact Hk1|]. intros t2 S2. by rewrite insert_insert_eq in S2. }
  intros [] t2 S2. assert (Hf2 : ks2 !! f = Some k2) by (unfold ks2; by rewrite lookup_insert_eq). eapply wp_use.
  { apply (add_waiter_spec _ q g f); [by eapply snap_links | | |].
    - change (is_Some (cores t2 !! g)). rewrite (sn_cores _ _ _ _ _ _ S2), (proj1 Hb). eauto.
    - change (is_Some (cores t2 !! f)). rewrite (sn_cores _ _ _ _ _ _ S2), Hf2. eauto.
    - intros v. apply (run_not_waiting E None h ks2 q); [exact G2 | exact f_running]. }
  cbv beta. rewrite (sn_cores _ _ _ _ _ _ S2). intros [] t3 M3.
  assert (S3 := snap_moved _ _ _ _ _ _ _ _ _ S2 M3 ltac:(done)). eapply wp_use.
  { eapply block_frame_spec; [by eapply snap_links | apply X | rewrite (sn_cores _ _ _ _ _ _ S3); exact Hf2 | exact Hact]. }
  cbv beta. rewrite (sn_cores _ _ _ _ _ _ S3). intros [] t4 M4.
  assert (S4 := snap_moved _ _ _ _ _ _ _ _ _ S3 M4 ltac:(done)).
  assert (wakeable_at E k2) as Hwk by (exists pc, instr; split_and!; [exact Hpc2 | apply X | apply X | exact Hop]).
  assert (G4 := good_block _ _ _ _ _ _ _ _ _ G2 (ex_run _ _ _ _ _ _ _ _ _ _ _ _ X) f_once Hf2 Hact Hwk Hb Hkm).
  apply wp_bind. eapply snap_run_frame; [exact S4 | exact G4 | exact Hb|]. intros ks5 q5 t5 S5 G5.
  eapply snap_check_runnable; [exact S5|]. intros j t6 S6 Hj _. by eapply running_none.
Qed.

(** The slot does not lead to a hole. *)
Definition eval_safe : Prop :=
  forall v p, k_data k !! Z.to_nat (i_arg0 instr) = Some v -> resolve (size h) h v = Done p -> pntrtype h p <> Some CELL_HOLE.

Lemma eval_ok :
  i_opcode instr = OP_EVAL -> zlookup (e_typing E) pc = Some (Some (PcTy main st)) -> eval_safe -> wp (op_eval f instr) ok t.
Proof.
  intros Hop Ht Hsafe. checked X Hop C. destruct C as (C1 & C2). destruct (slot_is_inv _ _ _ C1) as (i & ty & Ei & Hi & _).
  destruct (f_data_ok) as [D1 D2]. assert (Hlt := lookup_lt_Some _ _ _ Hi).
  unfold op_eval. apply wp_bind. eapply wp_slot; [exact X | exact Hi | exact Ei|]. intros v Hkv Hv.
  destruct (good_resolve _ _ _ _ _ _ the_good (slot_ok_visible _ _ _ _ Hv)) as (p & ty' & Hr & Hpv & Hpt & Hpi).
  apply wp_bind. eapply snap_resolve; [exact the_snap | exact Hr|].
  assert (ty' <> CELL_HOLE) as Hnh by (intros ->; eapply Hsafe; [by rewrite Ei, Nat2Z.id | exact Hr | done]).
  destruct (Z.eq_dec ty' CELL_FRAME) as [->|Hnf].
  - assert (ty = SAny) as ->.
    { destruct ty; [..|done]; exfalso; cbn in Hv.
      - destruct Hv as [Hvp Hv]. destruct (Hv Hvp) as (c & Hc & Hct & _). apply Z.eqb_eq in Hct.
        assert (pntrtype h v = Some CELL_HOLE) as Hvt by (rewrite (pntrtype_cell _ _ _ Hvp Hc), Hct; [done | by rewrite Hct]).
        destruct (size h); cbn [resolve] in Hr; rewrite Hvt in Hr; cbn in Hr; injection Hr as <-; congruence.
      - rewrite (whnf_resolve E) in Hr by done. injection Hr as <-. destruct (whnf_ty _ _ _ Hv) as (y & Hy & _ & Hny & _). congruence. }
    apply wp_bind. eapply (snap_store E f main st st _ _ _ _ _ _ _ _ SAny); [exact the_snap | exact the_good | exact f_running | exact the_core | lia | | done | exact Hpv | exact D2|].
    { rewrite Ei, Nat2Z.id. intros j x Hj. destruct (decide (j = i)) as [->|]; [left; split; congruence | by right]. }
    cbv zeta. intros t1 S1 G1. apply wp_bind. eapply snap_typeof; [exact S1 | exact Hpt|]. cbn [Z.eqb Pos.eqb CELL_FRAME].
    eapply wp_wait_for; [exact Hop | exact Ht | exact S1 | exact G1 | apply X | | exact Hpv | exact Hpt].
    destruct (f_busy _ _ _ _ _ _ _ _ _ _ _ _ X) as [_ Hact]. exact Hact.
  - assert (whnf E h p) as Hw by (by eapply visible_is_whnf).
    apply wp_bind. eapply (snap_store E f main st (<[i := SVal]> st) _ _ _ _ _ _ _ _ SVal); [exact the_snap | exact the_good | exact f_running | exact the_core | lia | | done | exact Hw | by rewrite length_set_ty|].
    { rewrite Ei, Nat2Z.id. apply set_ty_insert. }
    cbv zeta. intros t1 S1 G1. apply wp_bind. eapply snap_typeof; [exact S1 | exact Hpt|].
    destruct (whnf_ty _ _ _ Hw) as (y & Hy & _ & _ & _ & Hny). assert (ty' = y) as -> by congruence.
    rewrite (proj2 (Z.eqb_neq _ _) Hnf), (proj2 (Z.eqb_neq _ _) Hny). apply wp_ret.
    rewrite Ei, Nat2Z.id in C2. eapply running_next; [exact S1 | exact G1 | apply X | by rewrite lookup_insert_eq | apply X | exact C2].
Qed.
End eval.
