(* ===== verification/BootFacts.v ===== *)
(** * A checked program starts well

    [boot] takes the zeroed task to a machine that satisfies the invariant of
    [MachineOk], for every program that passes [check_program]. *)

From S2P Require Import Prelude Builtins Source Bytecode Compile Pointer Chain Arith Memory Globals Sched Arrays Interpreter Lists Boot Wp SchedFacts Typing MachineOk Store ArrayFacts ListFacts HeapFacts WorldFacts FrameFacts Snap FrameAlloc Ops OpsCall.
#[local] Open Scope Z_scope.

(** A cell, a frame has one type, one state. *)
Ltac clash :=
  exfalso; repeat match goal with H : _ \/ _ |- _ => destruct H end;
  match goal with H : ?x = _, H' : ?x = _ |- _ => rewrite H in H'; discriminate H' end.

(** ** The objects there are before the program runs *)

(** A number, the nil cell or a list in an array. *)
Definition leaf (h : gmap Z object) (p : pntr) : Prop :=
  is_pntr p = true -> (exists c, h !! p_lo p = Some (OCell c) /\ c_type c = CELL_NIL) \/ exists r, p = make_pntr r /\ full_ref h r.

Lemma leaf_ref h r : full_ref h r -> leaf h (make_pntr r).
Proof. intros H _. right. eauto. Qed.

Definition boot_object (h : gmap Z object) (o : object) : Prop :=
  (exists c, o = OCell c /\ (c_type c = CELL_NIL \/ c_type c = CELL_SYSOBJECT)) \/ list_object h (leaf h) o.

Lemma leaf_sub h h' p : h ⊆ h' -> leaf h p -> leaf h' p.
Proof.
  intros Hs H Hp. destruct (H Hp) as [(c & Hc & Ht)|(r & -> & Hr)]; [left; exists c; split; [by eapply lookup_weaken | done]|].
  right. exists r. split; [done|]. eapply full_ref_kept; [|exact Hr]. intros a o Ha. by eapply lookup_weaken.
Qed.

Lemma list_object_sub h h' (ok ok' : pntr -> Prop) o :
  (forall a x, h !! a = Some x -> exists x', h' !! a = Some x' /\ x' = x) -> (forall p, ok p -> ok' p) -> list_object h ok o -> list_object h' ok' o.
Proof.
  intros Hs Hok. destruct o as [c|fl n c|fl n a]; cbn; [| done |].
  - intros (Ht & (x & e & Hx & fl & b & al & mr & nc & Ha) & Hf). split; [done|]. split.
    + exists x, e. split; [done|]. exists fl, b, al, mr, nc. by destruct (Hs _ _ Ha) as (? & ? & ->).
    + destruct Hf as [Hf|(r & Hr & Hc)]; [left; auto|]. right. exists r. split; [done|]. eapply full_ref_kept; [|exact Hc].
      intros a0 y Hy. by destruct (Hs _ _ Hy) as (? & ? & ->).
  - destruct (ca_elements a); [|done]. intros H. eapply Forall_impl; [exact H | done].
Qed.

Lemma boot_object_sub h h' o : h ⊆ h' -> boot_object h o -> boot_object h' o.
Proof.
  intros Hs [H|H]; [by left|]. right. eapply list_object_sub; [|by intros p; apply leaf_sub|exact H].
  intros a x Ha. exists x. split; [by eapply lookup_weaken | done].
Qed.

Lemma lists_made_sub ok h h' : lists_made [] ok h h' -> h ⊆ h'.
Proof. intros [L1 _]. apply map_subseteq_spec. intros a o Ha. apply L1; [done | set_solver]. Qed.

(** ** The invariant they give *)

Section world.
Context (E : env).
Implicit Types (h : gmap Z object) (ks : gmap Z core) (q : queues) (k : core).

Definition idle_frame k : Prop :=
  k_state k = STATE_UNALLOCATED /\ k_fetchers k = [] /\ Z.of_nat (length (k_data k)) = e_maxstack E.

(** The program's first frame, before it runs. *)
Record first_frame h (a : Z) k : Prop := {
  ff_state : k_state k = STATE_NEW;
  ff_fetchers : k_fetchers k = [];
  ff_data : Z.of_nat (length (k_data k)) = e_maxstack E;
  ff_retp : k_retp k = None;
  ff_cell : k_c k = e_mcell E;
  ff_back : exists c, h !! e_mcell E = Some (OCell c) /\ c_type c = CELL_FRAME /\ c_field1 c = make_pntr a;
  ff_typed : exists pc pt, k_instr k = Some pc /\ zlookup (e_typing E) pc = Some (Some pt) /\
    Z.of_nat (length (pt_stack pt)) <= e_maxstack E /\
    forall i ty, pt_stack pt !! i = Some ty -> ty = SAny /\ exists p, k_data k !! i = Some p /\ leaf h p
}.

Record boot_world h ks q : Prop := {
  bw_addr : forall a, is_Some (h !! a) -> 8 <= a;
  bw_objects : forall a o, h !! a = Some o -> (a ∉ hid E) -> boot_object h o;
  bw_hid : forall a, a ∈ hid E -> exists c, h !! a = Some (OCell c) /\ c_type c = CELL_FRAME /\ frame_cell ks a (c_field1 c);
  bw_sentinel : exists k, ks !! e_sentinel E = Some k /\ k_state k = STATE_NEW /\ k_c k = e_scell E;
  bw_frames : forall a k, ks !! a = Some k -> a <> e_sentinel E -> idle_frame k \/ first_frame h a k;
  bw_free : forall a, a ∈ q_free q <-> exists k, ks !! a = Some k /\ k_state k = STATE_UNALLOCATED;
  bw_run : q_run q = [];
  bw_wait : forall w, q_wait q w = [];
  bw_spark : q_spark q = [];
  bw_nil : leaf h (e_nil E);
  bw_true : leaf h (e_true E);
  bw_strings : Forall (leaf h) (e_strings E)
}.

Section good.
Context (h : gmap Z object) (ks : gmap Z core) (q : queues).
Hypothesis W : boot_world h ks q.

Lemma leaf_whnf p : leaf h p -> whnf E h p.
Proof using W.
  intros H Hp. assert (forall a c, h !! a = Some (OCell c) -> c_type c <> CELL_FRAME -> a ∉ hid E) as Hhid.
  { intros a c Hc Ht Hin. destruct (bw_hid _ _ _ W _ Hin) as (c' & Hc' & Ht' & _). rewrite Hc in Hc'. by injection Hc' as <-. }
  destruct (H Hp) as [(c & Hc & Ht)|(r & -> & c & x & e & Hc & Ht & Hf & (fl & b & al & mr & nc & Ha) & Hn)]; exists c.
  - split_and!; [done | by rewrite Ht | eapply Hhid; [exact Hc | by rewrite Ht] | by split; rewrite Ht].
  - split_and!; [done | by rewrite Ht | eapply Hhid; [exact Hc | by rewrite Ht]|]. split; [by rewrite Ht|]. intros _.
    eexists x, fl, b, _. rewrite Hf. split_and!; [done | exact Ha | exact Hn].
Qed.

Lemma leaf_visible p : leaf h p -> visible E h p.
Proof using W. intros H. by apply whnf_is_visible, leaf_whnf. Qed.

Lemma boot_object_ok a o : boot_object h o -> object_ok E h ks a o.
Proof using W.
  intros [(c & -> & Ht)|H]; [split; intros Hc; clash|]. destruct o as [c|fl n c|fl n x]; cbn in *; [| done |].
  - destruct H as (Ht & (x & e & Hx & fl & b & al & mr & nc & Ha) & Hf). split; intros Hc; try clash. split.
    + eexists x, fl, b, _. rewrite Hx. split; [done | exact Ha].
    + apply leaf_visible. destruct Hf as [Hf|(r & -> & Hr)]; [done|]. by apply leaf_ref.
  - destruct (ca_elements x); [|done]. eapply Forall_impl; [exact H|]. intros p. apply leaf_visible.
Qed.

Lemma boot_no_ind a c : h !! a = Some (OCell c) -> c_type c <> CELL_IND.
Proof using W.
  intros Hc Ht. destruct (decide (a ∈ hid E)) as [Hin|Hn].
  - destruct (bw_hid _ _ _ W _ Hin) as (c' & Hc' & Ht' & _). assert (c' = c) as -> by congruence. clash.
  - destruct (bw_objects _ _ _ W _ _ Hc Hn) as [(c' & [= <-] & [?|?])|[? _]]; clash.
Qed.

Lemma boot_states : states_ok E ks q.
Proof using W.
  split.
  - intros a Ha. rewrite (bw_run _ _ _ W) in Ha. by apply elem_of_nil in Ha.
  - intros w a Ha. rewrite (bw_wait _ _ _ W) in Ha. by apply elem_of_nil in Ha.
  - intros a k Hk Hst. destruct (bw_sentinel _ _ _ W) as (k' & Hk' & Hst' & _). destruct (decide (a = e_sentinel E)) as [->|Hn]; [congruence|].
    destruct (bw_frames _ _ _ W _ _ Hk Hn) as [(? & _)|F]; [congruence|]. pose proof (ff_state _ _ _ F). congruence.
  - intros a. rewrite (bw_spark _ _ _ W). split; [by intros ?%elem_of_nil|]. intros (k & Hk & Hst).
    destruct (bw_sentinel _ _ _ W) as (k' & Hk' & Hst' & _). destruct (decide (a = e_sentinel E)) as [->|Hn]; [congruence|].
    destruct (bw_frames _ _ _ W _ _ Hk Hn) as [(? & _)|F]; [congruence|]. pose proof (ff_state _ _ _ F). congruence.
  - apply W.
  - apply W.
Qed.

Lemma boot_busy a k : busy E ks a k -> first_frame h a k.
Proof using W.
  intros (Hk & Hn & Hl). destruct (bw_frames _ _ _ W _ _ Hk Hn) as [(Hst & _)|F]; [by rewrite Hst in Hl | done].
Qed.

Lemma boot_not_exempt a i : ~ exempt E ks a i.
Proof using W. intros (b & k & Hb & Hr). apply boot_busy in Hb. pose proof (ff_retp _ _ _ Hb). congruence. Qed.

Lemma boot_core a k : ks !! a = Some k -> a <> e_sentinel E -> core_ok E h ks (q_wait q) None a k.
Proof using W.
  intros Hk Hn. destruct (bw_frames _ _ _ W _ _ Hk Hn) as [(Hst & Hf & Hd)|F].
  - split; [done | done | by rewrite (bw_wait _ _ _ W) | by rewrite Hst | by rewrite Hst].
  - destruct F as [F1 F2 F3 F4 F5 (c & Hc & Hct & Hcf) (pc & pt & Hpc & Hpt & Hlen & Hs)].
    assert (k_c k <> 0) as H0 by (pose proof (bw_addr _ _ _ W (e_mcell E) ltac:(eauto)); lia).
    split; [done | done | by rewrite F1 | | ].
    + intros _. left. split_and!; [done | done|]. exists c. rewrite F5, Hcf. done.
    + intros _. exists pt. split; [by exists pc|]. split; [done | | by rewrite (bw_wait _ _ _ W)].
      intros i ty Hi. destruct (Hs i ty Hi) as (-> & p & Hp & Hl). split; [done|]. right. exists p. split; [done|]. by apply leaf_visible.
Qed.

Lemma good_boot : good E None h ks q.
Proof using W.
  split.
  - apply boot_states.
  - apply W.
  - intros a Ha. destruct (bw_hid _ _ _ W _ Ha) as (c & ? & _). eauto.
  - intros a o Ha. destruct (decide (a ∈ hid E)) as [Hin|Hn]; [|by eapply boot_object_ok, bw_objects].
    destruct (bw_hid _ _ _ W _ Hin) as (c & Hc & Ht & Hf). assert (o = OCell c) as -> by congruence. split; intros Hc'; try clash. exact Hf.
  - intros p Hv. destruct (visible_typeof _ _ _ Hv) as (ty & Hty & [[Hp ->]|(Hp & Hvt & _ & c & Hc & Hct)]); exists p; (eapply resolves_done; [exact Hty|]); [done|].
    rewrite <- Hct. by eapply boot_no_ind.
  - apply boot_core.
  - intros a b i j p p' (k & pt & Hb & (pc & Hpc & Hpt) & Hi & _). destruct (boot_busy _ _ Hb) as [_ _ _ _ _ _ (pc' & pt' & Hpc' & Hpt' & _ & Hs)].
    rewrite Hpc in Hpc'. injection Hpc' as <-. rewrite Hpt in Hpt'. injection Hpt' as <-. by destruct (Hs _ _ Hi).
  - apply leaf_whnf, W.
  - apply leaf_whnf, W.
  - eapply Forall_impl; [apply W|]. apply leaf_whnf.
Qed.
End good.
End world.

(** ** The first block of frames *)

Lemma memory_ok_pool t p :
  memory_ok t -> (forall a, is_Some (fp_frames p !! a) -> 8 <= a < t_brk t) -> memory_ok (set_pool p t).
Proof. intros [M1 M2 M3 M4] Hp. split; [done | done | |done]. intros a Ha. apply Hp. by apply is_frame_lookup in Ha. Qed.

Section sentinel.
Context (E : env).
Hypothesis Hsize : check_size (e_maxstack E) = true.

Lemma first_of_block b : 0 <= b -> exists f, new_frames E b !! (b + 8) = Some f.
Proof using Hsize.
  intros Hb. destruct (nblock_pos E Hsize) as [N1 N2]. eexists. apply (block_lookup (b + 8) (fsz E) (e_maxstack E) (nblock E) (fsz_pos E Hsize)).
  exists 0%nat. split; [done|]. split; [unfold block_addr; lia | done].
Qed.

(** [frame_new] when there are no frames at all. *)
Lemma wp_first_frame t Q :
  memory_ok t -> t_maxstack t = e_maxstack E -> t_frames t = ∅ -> fp_freeframe (t_pool t) = 0 -> t_run t = 0 ->
  (forall b f bs t1, 8 <= b -> t_brk t1 >= b + 8 + FRAMEBLOCK_SIZE -> store t (t_heap t) t1 -> new_frames E b !! (b + 8) = Some f ->
     Q (b + 8) (set_pool (Framepool (<[b + 8 := Frame None 0 [] 0 STATE_NEW 0 None 0 0 0 false 0 0 (f_data f)]> (new_frames E b)) bs
        (f_freelnk f) 0 (t_sparklist t)) t1)) ->
  wp frame_new Q t.
Proof using Hsize.
  intros M Hm Hfr Hff Hrun HQ. assert (0 <= t_brk t) as Hb0 by (pose proof (mo_brk _ M); lia).
  unfold frame_new. apply wp_bind, wp_gets. rewrite Hff. apply wp_bind. unfold new_frameblock.
  apply wp_bind, wp_gets, wp_bind. eapply store_sys_alloc; [by apply store_self | unfold FRAMEBLOCK_SIZE; lia|]. intros t1 S1 _ Hbrk.
  apply wp_modify. change (id t) with t. unfold framesperblock, framesize. rewrite Hm. change (sizeof_frame + e_maxstack E * sizeof_pntr) with (fsz E).
  rewrite <- (proj2 (nblock_pos E Hsize)).
  change (list_to_map (block_frames (t_brk t + 8) (fsz E) (e_maxstack E) (Z.of_nat (nblock E)))) with (new_frames E (t_brk t)).
  destruct (sr_only _ _ _ S1) as (m & b1 & i & Et1 & _).
  assert (t_frames t1 = ∅) as -> by (by rewrite Et1). rewrite (right_id_L _ (∪)).
  assert (t_run t1 = 0) as -> by (by rewrite Et1). assert (t_sparklist t1 = t_sparklist t) as -> by (by rewrite Et1).
  destruct (first_of_block (t_brk t) Hb0) as [f Hf].
  destruct (block_views _ _ _ _ (fsz_pos E Hsize) _ _ Hf) as (V1 & V2 & V3 & _ & _ & _ & V4 & _). cbn [core_of k_fetchers] in V4.
  apply wp_bind, wp_gets. cbv zeta. apply wp_bind. eapply wp_get_frame; [exact Hf|].
  apply wp_bind, wp_modify, wp_bind, wp_put_frame. rewrite V1, V2, V3, V4.
  do 4 (apply wp_bind, wp_massert; [done|]). apply wp_ret. apply (HQ (t_brk t) f (t_brk t :: fp_blocks (t_pool t1)) t1); [apply M | lia | exact S1 | exact Hf].
Qed.

(** The pool once the sentinel is in place. *)
Definition sentinel_pool (b : Z) (f f' : frame) (bs : list Z) : framepool :=
  Framepool (<[b + 8 := f']> (new_frames E b)) bs (f_freelnk f) 0 (b + 8).

Lemma sentinel_links b f f' bs t l :
  0 <= b -> new_frames E b !! (b + 8) = Some f -> new_list E b = b + 8 :: l ->
  f_rnext f' = 0 -> f_waitlnk f' = 0 -> f_wq_frames f' = 0 -> f_sprev f' = b + 8 -> f_snext f' = b + 8 ->
  links (b + 8) (vw (set_pool (sentinel_pool b f f' bs) t)) (Queues [] (fun _ => []) l []).
Proof using Hsize.
  intros Hb Hf Hl F1 F2 F3 F4 F5. assert (Hch := new_frames_chain E Hsize b Hb). rewrite Hl in Hch.
  assert (Hnd := chain_NoDup _ _ _ _ Hch). apply NoDup_cons in Hnd as [Hnin _].
  apply chain_hd in Hch as (_ & n & Hn & Hch). rewrite lookup_fmap, Hf in Hn. injection Hn as <-.
  assert (V : forall a x, new_frames E b !! a = Some x -> f_rnext x = 0 /\ f_waitlnk x = 0 /\ f_wq_frames x = 0 /\ f_sprev x = 0 /\ f_snext x = 0).
  { intros a x Ha. by destruct (block_views _ _ _ _ (fsz_pos E Hsize) _ _ Ha) as (? & ? & ? & ? & ? & _). }
  assert (Zero : forall (g : frame -> Z) a n, (forall a x, new_frames E b !! a = Some x -> g x = 0) -> g f' = 0 ->
    (g <$> <[b + 8 := f']> (new_frames E b)) !! a = Some n -> n = 0).
  { intros g a n Hg Hg' Ha. apply view_lookup_inv in Ha as (x & Hx & ->). apply lookup_insert_Some in Hx as [[_ <-]|[_ Hx]]; [done | by eapply Hg]. }
  split; cbn [vw set_pool t_pool t_frames t_run sentinel_pool fp_frames fp_run fp_freeframe v_rnext v_run v_waitlnk v_wq v_freelnk v_freeframe v_snext v_sprev v_cores q_run q_wait q_free q_spark].
  - split; [constructor|]. intros a n Ha _. eapply (Zero f_rnext); [|exact F1|exact Ha]. intros c x Hx. by destruct (V _ _ Hx).
  - split; [|by intros w x ?%elem_of_nil|by intros w w' x ?%elem_of_nil|].
    + intros w n Hw. assert (n = 0) as -> by (eapply (Zero f_wq_frames); [|exact F3|exact Hw]; intros c x Hx; by destruct (V _ _ Hx) as (_ & _ & ? & _)). constructor.
    + intros a n Ha _. eapply (Zero f_waitlnk); [|exact F2|exact Ha]. intros c x Hx. by destruct (V _ _ Hx) as (_ & ? & _).
  - rewrite fmap_insert. by apply chain_insert_notin.
  - split; [apply NoDup_singleton | rewrite list_elem_of_singleton; lia | |].
    + cbn [dseg]. rewrite !fmap_insert, !lookup_insert_eq, F4, F5. done.
    + intros a Ha. rewrite list_elem_of_singleton in Ha. rewrite !fmap_insert, !lookup_insert_ne by done.
      split; intros n Hn; apply view_lookup_inv in Hn as (x & Hx & ->); by destruct (V _ _ Hx) as (_ & _ & _ & ? & ?).
  - intros a k Ha. apply view_lookup_inv in Ha as (x & Hx & _). apply lookup_insert_Some in Hx as [[<- _]|[_ Hx]]; [lia|].
    apply (new_frames_range E Hsize) in Hx. lia.
Qed.
End sentinel.

(** ** The sentinel *)

Record booting (t : task) : Prop := {
  bt_memory : memory_ok t;
  bt_objects : forall a o, t_heap t !! a = Some o -> boot_object (t_heap t) o;
  bt_nil : nil_ok t
}.

Lemma nil_leaf t : nil_ok t -> leaf (t_heap t) (t_globnilpntr t).
Proof. intros (c & _ & Hc & Ht) _. eauto. Qed.

Lemma frame_put_pool a f f' F bs fl r s t :
  frame_put a f' (set_pool (Framepool (<[a := f]> F) bs fl r s) t) = set_pool (Framepool (<[a := f']> F) bs fl r s) t.
Proof. unfold frame_put, set_pool, set_frames, t_frames, t_run, t_sparklist. cbn. by rewrite insert_insert_eq. Qed.

Section new_sentinel.
Context (prog : program) (T : typing) (ms s c : Z) (nil true_ : pntr) (strings : list pntr).
#[local] Abbreviation E := (Env prog T ms s c c nil true_ strings).
Hypothesis Hsize : check_size ms = true.

Lemma new_list_split b : 0 <= b -> exists l, new_list E b = b + 8 :: l.
Proof using Hsize.
  intros Hb. destruct (nblock_pos E Hsize) as [N1 _]. unfold new_list. destruct (nblock E) as [|n]; [lia|]. cbn [seq map].
  eexists. f_equal. unfold block_addr. lia.
Qed.

Lemma sentinel_world b f f' l h cc :
  0 <= b -> s = b + 8 -> new_frames E b !! (b + 8) = Some f -> new_list E b = b + 8 :: l ->
  f_state f' = STATE_NEW -> f_c f' = c -> (forall a, is_Some (h !! a) -> 8 <= a) -> 8 <= c -> h !! c = None ->
  (forall a o, h !! a = Some o -> boot_object h o) -> c_type cc = CELL_FRAME -> c_field1 cc = make_pntr s ->
  leaf h nil -> leaf h true_ -> Forall (leaf h) strings ->
  boot_world E (<[c := OCell cc]> h) (core_of <$> <[b + 8 := f']> (new_frames E b)) (Queues [] (fun _ => []) l []).
Proof using Hsize.
  intros Hb Hs Hf Hl F1 F2 H8 Hc8 Hc Hobj Hcc1 Hcc2 L1 L2 L3. assert (h ⊆ <[c := OCell cc]> h) as Hsub by (by apply insert_subseteq).
  assert (Hnd := chain_NoDup _ _ _ _ (new_frames_chain E Hsize b Hb)). rewrite Hl in Hnd. apply NoDup_cons in Hnd as [Hnin _].
  assert (V : forall a x, new_frames E b !! a = Some x -> idle_frame E (core_of x)).
  { intros a x Ha. destruct (block_views _ _ _ _ (fsz_pos E Hsize) _ _ Ha) as (_ & _ & _ & _ & _ & V1 & V2 & V3).
    split_and!; [done | done|]. rewrite V3, length_replicate. cbn. destruct (maxstack_bounds E Hsize) as [? _]. cbn in *. lia. }
  split; cbn [e_sentinel e_scell e_mcell e_nil e_true e_strings q_run q_wait q_spark q_free].
  - intros a [o Ha]. apply lookup_insert_Some in Ha as [[<- _]|[_ Ha]]; eauto.
  - intros a o Ha Hn. unfold hid in Hn. cbn in Hn. rewrite !not_elem_of_cons in Hn. rewrite lookup_insert_ne in Ha by naive_solver.
    eapply boot_object_sub; [exact Hsub | by eapply Hobj].
  - intros a Ha. unfold hid in Ha. cbn in Ha. assert (a = c) as -> by set_solver. exists cc. rewrite lookup_insert_eq. split_and!; [done | done|].
    exists s, (core_of f'). rewrite Hcc2. split; [done|]. rewrite fmap_insert, Hs, lookup_insert_eq. cbn. rewrite F1, F2. done.
  - exists (core_of f'). rewrite fmap_insert, Hs, lookup_insert_eq. done.
  - intros a k Ha Hn. left. rewrite fmap_insert, lookup_insert_ne in Ha by congruence. apply view_lookup_inv in Ha as (x & Hx & ->). by eapply V.
  - intros a. rewrite fmap_insert. destruct (decide (a = b + 8)) as [->|Hn].
    + rewrite lookup_insert_eq. split; [done|]. intros (k & [= <-] & Hst). cbn in Hst. congruence.
    + rewrite lookup_insert_ne by done. assert (a ∈ l <-> a ∈ new_list E b) as -> by (rewrite Hl, elem_of_cons; naive_solver).
      rewrite (new_frames_list E Hsize). split; [|intros (k & Hk & _); eauto]. intros [k Hk]. exists k. split; [done|].
      apply view_lookup_inv in Hk as (x & Hx & ->). by eapply V.
  - done.
  - done.
  - done.
  - by eapply leaf_sub.
  - by eapply leaf_sub.
  - eapply Forall_impl; [exact L3|]. intros p. by apply leaf_sub.
Qed.
End new_sentinel.

(** The task with another pool and another memory. *)
Definition repooled (p : framepool) (t t' : task) : Prop :=
  exists m b i, t' = set_pool p (set_mem m (set_brk b (set_interrupt i t))).

Lemma repooled_mem p t t1 t2 : repooled p t t1 -> only_mem t1 t2 -> repooled p t t2.
Proof. intros (m & b & i & ->) (m' & b' & i' & -> & _). by exists m', b', i'. Qed.

Lemma repooled_pool p p' t t' : repooled p t t' -> repooled p' t (set_pool p' t').
Proof. intros (m & b & i & ->). by exists m, b, i. Qed.

Lemma repooled_put (a : Z) (f f' : frame) (F : gmap Z frame) (bs : list Z) (fl r s : Z) (t t' : task) :
  repooled (Framepool (<[a := f]> F) bs fl r s) t t' ->
  repooled (Framepool (<[a := f']> F) bs fl r s) t (frame_put a f' t') /\ t_heap (frame_put a f' t') = t_heap t' /\ (memory_ok t' -> memory_ok (frame_put a f' t')).
Proof.
  intros (m & b & i & ->). rewrite frame_put_pool. split; [by exists m, b, i|]. split; [done|]. intros [A1 A2 A3 A4]. split; [done | done | |done].
  intros x Hx. apply A3. apply is_frame_lookup in Hx. apply is_frame_lookup. cbn in *.
  destruct (decide (x = a)) as [->|Hn]; [rewrite lookup_insert_eq; eauto|]. by rewrite lookup_insert_ne in Hx |- *.
Qed.

Lemma repooled_lookup (a : Z) (f : frame) (F : gmap Z frame) (bs : list Z) (fl r s : Z) (t t' : task) :
  repooled (Framepool (<[a := f]> F) bs fl r s) t t' -> t_frames t' !! a = Some f.
Proof. intros (m & b & i & ->). apply lookup_insert_eq. Qed.

Section place.
Context (E : env).
Hypothesis Hsize : check_size (e_maxstack E) = true.

Lemma wp_place_sentinel t Q :
  memory_ok t -> t_maxstack t = e_maxstack E -> t_frames t = ∅ -> fp_freeframe (t_pool t) = 0 -> t_run t = 0 ->
  (forall b f f' bs c cc t', 0 <= b -> new_frames E b !! (b + 8) = Some f -> repooled (sentinel_pool E b f f' bs) t t' -> memory_ok t' ->
     t_heap t !! c = None -> 8 <= c -> t_heap t' = <[c := OCell cc]> (t_heap t) -> c_type cc = CELL_FRAME -> c_field1 cc = make_pntr (b + 8) ->
     f_state f' = STATE_NEW -> f_c f' = c -> f_rnext f' = 0 -> f_waitlnk f' = 0 -> f_wq_frames f' = 0 -> f_sprev f' = b + 8 -> f_snext f' = b + 8 ->
     Q tt t') ->
  wp new_sentinel Q t.
Proof using Hsize.
  intros M P0 P1 P2 P3 HQ. unfold new_sentinel. apply wp_bind. eapply wp_first_frame; [exact Hsize | exact M | done..|].
  intros b f bs t1 Hb8 Hbrk S1 Hf. apply wp_bind, wp_modify. unfold set_sparklist. set (f1 := Frame None 0 [] 0 STATE_NEW 0 None 0 0 0 false 0 0 (f_data f)).
  set (t2 := set_pool (Framepool (<[b + 8 := f1]> (new_frames E b)) bs (f_freelnk f) 0 (b + 8)) t1).
  change (set_pool _ (set_pool _ t1)) with t2. set (s := b + 8) in *.
  assert (R2 : repooled (Framepool (<[s := f1]> (new_frames E b)) bs (f_freelnk f) 0 s) t t2).
  { destruct (sr_only _ _ _ S1) as (m & b1 & i & -> & _). by exists m, b1, i. }
  assert (H2 : t_heap t2 = t_heap t) by apply S1. assert (M2 : memory_ok t2).
  { apply memory_ok_pool; [apply S1|]. cbn. intros a [x Ha]. apply lookup_insert_Some in Ha as [[<- _]|[_ Ha]].
    - unfold s, FRAMEBLOCK_SIZE in *. lia.
    - apply (new_frames_range E Hsize) in Ha. lia. }
  clearbody t2. do 3 (apply wp_bind; (eapply wp_upd_frame; [by eapply repooled_lookup|]);
    match type of R2 with repooled (Framepool (<[_ := ?x]> _) _ _ _ _) _ _ =>
      match goal with |- wp _ _ (frame_put _ (?g x) _) => destruct (repooled_put s x (g x) _ _ _ _ _ _ _ R2) as (R2' & H2' & M2') end end;
    specialize (M2' M2); rewrite H2 in H2'; clear R2 H2 M2; rename R2' into R2, H2' into H2, M2' into M2; revert R2 H2 M2;
    match goal with |- context [frame_put ?a ?x ?y] => generalize (frame_put a x y) end; intros t3 R2 H2 M2; clear t2; rename t3 into t2).
  apply wp_bind. eapply store_alloc_cell; [by apply (store_self t2)|]. intros c fl t3 Hc Hc8 S3. rewrite H2 in Hc, S3.
  assert (R3 := repooled_mem _ _ _ _ R2 (sr_only _ _ _ S3)). apply wp_bind. eapply wp_upd_frame; [by eapply repooled_lookup|].
  destruct (repooled_put _ _ (set_f_c c (set_f_instr (Some 0) (set_f_sprev s (set_f_snext s f1)))) _ _ _ _ _ _ _ R3) as (R4 & H4 & M4).
  specialize (M4 (sr_memory _ _ _ S3)). rewrite (sr_heap _ _ _ S3) in H4. set (t4 := frame_put _ _ _) in *.
  assert (S4 : store t4 (<[c := blank fl]> (t_heap t)) t4) by (split; [exact H4 | exact M4 | done]).
  unfold init_cell. apply wp_bind. eapply store_get_cell; [exact S4 | apply lookup_insert_eq|].
  eapply store_put_cell; [exact S4 | rewrite lookup_insert_eq; eauto|]. intros t5 S5. rewrite insert_insert_eq in S5.
  eapply (HQ b f _ bs c); [lia | exact Hf | eapply repooled_mem; [exact R4 | apply S5] | apply S5 | exact Hc | exact Hc8 | apply S5 | done..].
Qed.
End place.

Lemma wp_new_sentinel T t Q :
  booting t -> t_frames t = ∅ -> fp_freeframe (t_pool t) = 0 -> t_run t = 0 -> t_error t = None -> t_done t = false ->
  check_size (t_maxstack t) = true -> leaf (t_heap t) (t_globtruepntr t) -> Forall (leaf (t_heap t)) (t_strings t) ->
  (forall s c h ks q t',
     let E := Env (t_prog t) T (t_maxstack t) s c c (t_globnilpntr t) (t_globtruepntr t) (t_strings t) in
     snap E h ks q false t' -> boot_world E h ks q -> t_heap t ⊆ h ->
     (forall a k, ks !! a = Some k -> a <> s -> k_state k = STATE_UNALLOCATED) -> Q tt t') ->
  wp new_sentinel Q t.
Proof.
  intros [M Hobj Hnil] P1 P2 P3 P4 P5 Hsize Htrue Hstr HQ.
  eapply (wp_place_sentinel (Env (t_prog t) T (t_maxstack t) 0 0 0 (t_globnilpntr t) (t_globtruepntr t) (t_strings t)));
    [exact Hsize | exact M | done | done | done | done|].
  intros b f f' bs c cc t' Hb Hf R M' Hc Hc8 Hh Hcc1 Hcc2 F1 F2 F3 F4 F5 F6 F7.
  destruct (new_list_split (t_prog t) T (t_maxstack t) (b + 8) c (t_globnilpntr t) (t_globtruepntr t) (t_strings t) Hsize b Hb) as [l Hl].
  set (E := Env (t_prog t) T (t_maxstack t) (b + 8) c c (t_globnilpntr t) (t_globtruepntr t) (t_strings t)) in *.
  apply (HQ (b + 8) c (t_heap t') (core_of <$> <[b + 8 := f']> (new_frames E b)) (Queues [] (fun _ => []) l [])).
  - destruct R as (m & b2 & i & ->). split; [|done|done|exact M'|by split|done]. by eapply (sentinel_links E).
  - rewrite Hh. eapply sentinel_world; try done; [|by apply nil_leaf]. intros a Ha. by destruct (mo_heap _ M _ Ha).
  - rewrite Hh. by apply insert_subseteq.
  - intros a k Ha Hn. rewrite fmap_insert, lookup_insert_ne in Ha by congruence. apply view_lookup_inv in Ha as (x & Hx & ->).
    by destruct (block_views _ _ _ _ (fsz_pos E Hsize) _ _ Hx) as (_ & _ & _ & _ & _ & ? & _).
Qed.

(** ** The first frame *)

Lemma snap_env E E' h ks q i t :
  e_prog E' = e_prog E -> e_maxstack E' = e_maxstack E -> e_sentinel E' = e_sentinel E -> e_nil E' = e_nil E -> e_true E' = e_true E ->
  e_strings E' = e_strings E -> snap E h ks q i t -> snap E' h ks q i t.
Proof.
  intros E1 E2 E3 E4 E5 E6 S. destruct (sn_misc _ _ _ _ _ _ S). split; try (by apply S); [rewrite E3; apply S|]. split; congruence.
Qed.

Section start.
Context (prog : program) (T : typing) (ms s c0 : Z) (nil true_ : pntr) (strings : list pntr).
#[local] Abbreviation E0 := (Env prog T ms s c0 c0 nil true_ strings).
#[local] Abbreviation E c := (Env prog T ms s c0 c nil true_ strings).
Hypothesis Hcheck : checked_env E0 = true.
Hypothesis Hstart : check_start prog T = true.

Lemma start_typing : exists first pt, instructions (p_comp prog) !! 0%nat = Some first /\ i_expcount first = 1 /\ 1 <= ms /\
  zlookup T 0 = Some (Some pt) /\ (length (pt_stack pt) <= 1)%nat /\ forall i ty, pt_stack pt !! i = Some ty -> i = 0%nat /\ ty = SAny.
Proof using Hcheck Hstart.
  unfold check_start in Hstart. apply andb_true_iff in Hstart as [H1 H2]. destruct (instructions _ !! 0%nat) as [first|] eqn:Ef; [|done].
  apply Z.eqb_eq in H1. unfold goes in H2. destruct (zlookup T 0) as [[pt|]|] eqn:Et; [|done..]. apply andb_true_iff in H2 as [_ H2].
  exists first, pt. assert (Hl := sub_st_length _ _ H2). split_and!; [done | done | | done | exact Hl|].
  - assert (C := env_instr E0 Hcheck 0%nat first Ef). unfold check_instr in C. apply andb_true_iff in C as [_ C].
    apply zlookup_Some in Et as [_ Et]. change (Z.to_nat 0) with 0%nat in Et. cbn [e_typing e_prog e_maxstack e_strings] in C. unfold typing in *. rewrite Et, !andb_true_iff, !Z.leb_le in C. lia.
  - intros i ty Hi. destruct (sub_st_lookup _ _ _ _ H2 Hi) as (ty' & Hi' & Hty).
    destruct i as [|i]; [|done]. injection Hi' as <-. split; [done|]. by destruct ty.
Qed.

Lemma first_world h ks1 q1 a l k K c cc p :
  boot_world E0 h ks1 q1 -> (forall b x, ks1 !! b = Some x -> b <> s -> k_state x = STATE_UNALLOCATED) ->
  q_free q1 = a :: l -> (a ∉ l) -> ks1 !! a = Some k -> a <> s -> h !! c = None -> 8 <= c -> c_type cc = CELL_FRAME -> c_field1 cc = make_pntr a ->
  k_state K = STATE_NEW -> k_fetchers K = [] -> Z.of_nat (length (k_data K)) = ms -> k_retp K = None -> k_c K = c -> k_instr K = Some 0 ->
  k_data K !! 0%nat = Some p -> leaf h p ->
  boot_world (E c) (<[c := OCell cc]> h) (<[a := K]> ks1) (q_set_free l q1).
Proof using Hcheck Hstart.
  intros [W1 W2 W3 W4 W5 W6 W7 W8 W9 W10 W11 W12] Hidle Hf Hal Hk Has Hc Hc8 Hcc1 Hcc2 K1 K2 K3 K4 K5 K6 K7 Hp.
  assert (h ⊆ <[c := OCell cc]> h) as Hsub by (by apply insert_subseteq). assert (Hka := Hidle _ _ Hk Has).
  destruct start_typing as (first & pt & _ & _ & H1 & Ht & Hlen & Hpt).
  assert (HB : forall b, b ∈ hid E0 -> b <> c) by (intros b Hb ->; destruct (W3 _ Hb) as (? & ? & _); congruence).
  split; cbn [e_sentinel e_scell e_mcell e_nil e_true e_strings q_set_free q_run q_wait q_spark q_free] in *; try done.
  - intros b [o Hb]. apply lookup_insert_Some in Hb as [[<- _]|[_ Hb]]; eauto.
  - intros b o Hb Hn. unfold hid in Hn. cbn in Hn. rewrite !not_elem_of_cons in Hn. rewrite lookup_insert_ne in Hb by naive_solver.
    eapply boot_object_sub; [exact Hsub | eapply W2; [exact Hb|]]. unfold hid. cbn. set_solver.
  - intros b Hb. unfold hid in Hb. cbn in Hb. apply elem_of_cons in Hb as [->|Hb].
    + assert (c0 ∈ hid E0) as Hin by (unfold hid; set_solver). destruct (W3 c0 Hin) as (x & Hx & Hxt & Hxf). exists x.
      rewrite lookup_insert_ne by (intros E1; by destruct (HB c0 Hin)). split_and!; [done | done|]. by eapply frame_cell_new.
    + assert (b = c) as -> by set_solver. exists cc. rewrite lookup_insert_eq. split_and!; [done | done|].
      exists a, K. rewrite Hcc2, lookup_insert_eq. split_and!; [done | done | done | by rewrite K1].
  - rewrite lookup_insert_ne by done. exact W4.
  - intros b x Hb Hbs. apply lookup_insert_Some in Hb as [[<- <-]|[Hn Hb]].
    + right. split; try done.
      * exists cc. by rewrite lookup_insert_eq.
      * exists 0, pt. split_and!; [done | exact Ht | cbn; lia|]. intros i ty Hi. destruct (Hpt _ _ Hi) as [-> ->]. split; [done|].
        exists p. split; [done | by eapply leaf_sub].
    + left. destruct (W5 b x Hb Hbs) as [I|F]; [exact I|]. pose proof (ff_state _ _ _ _ F). rewrite (Hidle _ _ Hb Hbs) in *. done.
  - intros b. destruct (decide (b = a)) as [->|Hn].
    + rewrite lookup_insert_eq. split; [done|]. intros (y & [= <-] & ?). congruence.
    + rewrite lookup_insert_ne by done. rewrite <- W6, Hf, elem_of_cons. naive_solver.
  - by eapply leaf_sub.
  - by eapply leaf_sub.
  - eapply Forall_impl; [exact W12|]. intros x. by apply leaf_sub.
Qed.

Lemma wp_start_program h ks q t args :
  snap E0 h ks q false t -> boot_world E0 h ks q -> (forall b x, ks !! b = Some x -> b <> s -> k_state x = STATE_UNALLOCATED) -> leaf h args ->
  wp (start_program args) (fun _ t' => exists c, machine_ok (E c) t') t.
Proof using Hcheck Hstart.
  intros S W Hidle Hargs. destruct start_typing as (first & pt & Hfirst & Hexp & Hms & _). unfold start_program.
  apply wp_bind, wp_gets. rewrite (mi_prog _ _ (sn_misc _ _ _ _ _ _ S)). cbn [e_prog].
  assert (G := good_boot E0 h ks q W).
  apply wp_bind. eapply snap_frame_new; [exact (env_size E0 Hcheck) | exact S | exact G|].
  intros a l k ks1 q1 t1 G1 [Hsub1 Hsub2] R1 R2 R3 R4 Hal Hk S1.
  destruct (free_idle _ _ _ _ _ a G1) as (x & Hx & Hxs & _ & Has & Hxf & Hxd); [rewrite R4; left|]. rewrite Hk in Hx. injection Hx as <-.
  apply wp_bind. eapply snap_set_instr; [exact S1 | by rewrite lookup_insert_eq|]. intros t2 S2. rewrite insert_insert_eq in S2.
  apply wp_bind. eapply wp_mderef; [exact Hfirst|]. apply wp_bind, wp_massert; [by apply Z.eqb_eq|].
  apply wp_bind. eapply snap_set_slot; [exact S2 | by rewrite lookup_insert_eq | cbn in *; lia|]. intros t3 S3. rewrite insert_insert_eq in S3.
  apply wp_bind. eapply wp_new_frame_cell; [exact S3 | by rewrite lookup_insert_eq|]. intros c cc t4 Hc Hc8 Hcc1 Hcc2 S4. rewrite insert_insert_eq in S4.
  set (K := sk_c c _) in S4. assert (W4 : boot_world (E c) (<[c := OCell cc]> h) (<[a := K]> ks1) (q_set_free l q1)).
  { eapply first_world; [ | | exact R4 | exact Hal | exact Hk | exact Has | exact Hc | exact Hc8 | exact Hcc1 | exact Hcc2 | done | exact Hxf | | done | done | done | | exact Hargs].
    - destruct W as [W1 W2 W3 W4 W5 W6 W7 W8 W9 W10 W11 W12]. split; try done; [| | | by apply (gd_states _ _ _ _ _ G1) | by rewrite R1 | by rewrite R2 | by rewrite R3].
      + intros b Hb. destruct (W3 b Hb) as (y & ? & ? & g & kg & ? & Hg & ?). exists y. split_and!; [done | done|]. exists g, kg. auto.
      + destruct W4 as (y & Hy & ?). exists y. auto.
      + intros b y Hb Hbs. destruct (Hsub2 b y Hb) as [Hb'|Hst]; [by apply W5|]. left.
        destruct (free_idle _ _ _ _ _ b G1) as (z & Hz & Hzs & _ & _ & Hzf & Hzd); [apply (so_free _ _ _ (gd_states _ _ _ _ _ G1)); eauto|].
        assert (z = y) as -> by congruence. done.
    - intros b y Hb Hbs. destruct (Hsub2 b y Hb) as [Hb'|Hst]; [by eapply Hidle | done].
    - cbn. rewrite length_insert. done.
    - cbn. apply list_lookup_insert_eq. cbn in *. lia. }
  eapply (snap_run_new (E c)); [eapply snap_env; [..|exact S4]; done | apply good_boot; exact W4 | split; [apply lookup_insert_eq | done] | done|].
  intros ks5 q5 t5 S5 G5 Hq. exists c. left. exists (<[c := OCell cc]> h), ks5, q5, false. split; [exact S5|]. split; [exact G5 | done].
Qed.
End start.

(** ** The lists *)

Lemma boot_store t h' t' :
  booting t -> store t h' t' -> t_heap t ⊆ h' -> (forall a o, h' !! a = Some o -> t_heap t !! a = Some o \/ boot_object h' o) -> booting t'.
Proof.
  intros [M Hobj (c & N1 & N2 & N3)] S Hsub Hnew. split; [apply S | |].
  - rewrite (sr_heap _ _ _ S). intros a o Ha. destruct (Hnew a o Ha) as [Ho|Ho]; [|done]. eapply boot_object_sub; [exact Hsub | by eapply Hobj].
  - exists c. rewrite (store_nil _ _ _ S), (sr_heap _ _ _ S). split_and!; [done | by eapply lookup_weaken | done].
Qed.

Lemma boot_made t ok h' t' :
  booting t -> store t h' t' -> lists_made [] ok (t_heap t) h' -> (forall p, ok p -> leaf h' p) -> booting t'.
Proof.
  intros B S L Hok. eapply boot_store; [exact B | exact S | by eapply lists_made_sub|]. intros a o Ha.
  destruct (lm_new _ _ _ _ L _ _ Ha) as [[Ho _]|[Ho _]]; [by left|]. right. right. eapply list_object_sub; [eauto | exact Hok | exact Ho].
Qed.

(** What making lists leaves. *)
Definition listed (t t' : task) : Prop := booting t' /\ only_mem t t' /\ t_heap t ⊆ t_heap t'.

Lemma listed_trans t1 t2 t3 : listed t1 t2 -> listed t2 t3 -> listed t1 t3.
Proof. intros (_ & O1 & S1) (B & O2 & S2). split; [done|]. split; [by transitivity t2 | by transitivity (t_heap t2)]. Qed.

Lemma boot_string t s : booting t -> wp (string_to_array s) (fun p t' => listed t t' /\ leaf (t_heap t') p) t.
Proof.
  intros B. destruct (bt_nil _ B) as (c & N1 & N2 & N3). unfold string_to_array. apply wp_bind, wp_gets.
  eapply (store_binary_data t c); [apply store_self, B | by apply nil_consts|]. intros p h' t' S L Hl.
  assert (Hsub := lists_made_sub _ _ _ L). assert (Hn : leaf h' (t_globnilpntr t)) by (eapply leaf_sub; [exact Hsub | apply nil_leaf, B]).
  split; [split; [|split; [apply S | by rewrite (sr_heap _ _ _ S)]]|].
  - eapply boot_made; [exact B | exact S | exact L|]. by intros q ->.
  - rewrite (sr_heap _ _ _ S). destruct Hl as [[_ ->]|(r & -> & _ & Hl)]; [done|].
    by eapply leaf_ref, chars_list_full.
Qed.

Lemma boot_strings l : forall t, booting t ->
  wp (strings_to_arrays l) (fun ps t' => listed t t' /\ Forall (leaf (t_heap t')) ps /\ length ps = length l) t.
Proof.
  induction l as [|s l IH]; intros t B; cbn [strings_to_arrays].
  - apply wp_ret. by split.
  - eapply wp_use; [by apply boot_string|]. intros p t1 (L1 & Hp). eapply wp_use; [apply IH, L1|]. intros ps t2 (L2 & Hps & Hlen).
    apply wp_ret. split; [by eapply listed_trans|]. split; [|cbn; by rewrite Hlen].
    constructor; [|done]. eapply leaf_sub; [apply L2 | done].
Qed.

(** The arguments of the program. *)
Definition make_args (args : list string) : M pntr :=
  match args with
  | [] => gets t_globnilpntr
  | _ => pointers ← strings_to_arrays args; nil ← gets t_globnilpntr; pointers_to_list pointers nil
  end.

Lemma boot_args t args :
  booting t -> Z.of_nat (length args) <= MAX_ARRAY_SIZE -> wp (make_args args) (fun p t' => listed t t' /\ leaf (t_heap t') p) t.
Proof.
  intros B Hlen. destruct args as [|s l]; [apply wp_gets; split; [by split | apply nil_leaf, B]|]. unfold make_args.
  eapply wp_use; [by apply boot_strings|]. intros ps t1 (L1 & Hps & Hl). apply wp_bind, wp_gets. assert (B1 := proj1 L1).
  destruct (bt_nil _ B1) as (c & N1 & N2 & N3).
  eapply (store_pointers t1 c); [apply store_self, B1 | by apply nil_consts | by intros -> | by rewrite Hl|].
  intros r h' t' S Hr L Hfull. assert (Hsub := lists_made_sub _ _ _ L). split.
  - eapply listed_trans; [exact L1|]. split; [|split; [apply S | by rewrite (sr_heap _ _ _ S)]].
    eapply boot_made; [exact B1 | exact S | exact L|]. intros p [->|Hp]; (eapply leaf_sub; [exact Hsub|]); [apply nil_leaf, B1|].
    rewrite Forall_forall in Hps. by apply Hps.
  - rewrite (sr_heap _ _ _ S). by apply leaf_ref.
Qed.

Lemma boot_sysobject t : booting t -> wp new_sysobject (fun _ t' => listed t t') t.
Proof.
  intros B. unfold new_sysobject. apply wp_bind. eapply store_sys_alloc; [apply store_self, B | done|]. intros t1 S1 _ _.
  apply wp_bind. eapply store_alloc_cell; [exact S1|]. intros c fl t2 Hc Hc8 S2.
  apply wp_bind. unfold init_cell. apply wp_bind. eapply store_get_cell; [exact S2 | apply lookup_insert_eq|].
  eapply store_put_cell; [exact S2 | rewrite lookup_insert_eq; eauto|]. intros t3 S3. rewrite insert_insert_eq in S3. apply wp_ret.
  assert (Hsub : t_heap t ⊆ t_heap t3) by (rewrite (sr_heap _ _ _ S3); by apply insert_subseteq).
  split; [|split; [apply S3 | done]]. rewrite (sr_heap _ _ _ S3) in Hsub. eapply boot_store; [exact B | exact S3 | exact Hsub|].
  intros a o Ha. apply lookup_insert_Some in Ha as [[<- <-]|[_ Ha]]; [right; left | by left]. eexists. split; [done | by right].
Qed.

(** ** The whole *)

Lemma memory_ok_zero tid prog mh : memory_ok (task_zero tid prog mh).
Proof.
  split; [done | | | done].
  - intros a [o Ha]. change (t_heap (task_zero tid prog mh)) with (∅ : gmap Z object) in Ha. by rewrite lookup_empty in Ha.
  - intros a Ha. apply is_frame_lookup in Ha as [f Ha]. change (t_frames (task_zero tid prog mh)) with (∅ : gmap Z frame) in Ha. by rewrite lookup_empty in Ha.
Qed.

Lemma booting_same t t' :
  t_mem t' = t_mem t -> t_brk t' = t_brk t -> t_pool t' = t_pool t -> t_globnilpntr t' = t_globnilpntr t -> booting t -> booting t'.
Proof.
  intros E1 E2 E3 E4 [[A1 A2 A3 A4] Hobj Hnil]. unfold nil_ok, newgen_ok, is_frame, cores, t_frames, t_heap in *.
  split; [split|..]; unfold nil_ok, newgen_ok, is_frame, cores, t_frames, t_heap; rewrite ?E1, ?E2, ?E3, ?E4; done.
Qed.

(** The constants are there. *)
Lemma boot_nil tid prog mh (m : M pntr) Q :
  (forall t, booting t -> (exists mem b i n, t = set_constants (make_pntr n) (set_pntrdouble (double_of_int 1))
     (set_mem mem (set_brk b (set_interrupt i (task_zero tid prog mh))))) -> wp m Q t) ->
  wp (globnilvalue ← alloc_cell; set_cell_type globnilvalue CELL_NIL;;
      modify (set_constants (make_pntr globnilvalue) (set_pntrdouble (double_of_int 1)));; m) Q (task_zero tid prog mh).
Proof.
  intros HQ. apply wp_bind. eapply store_alloc_cell; [apply store_self, memory_ok_zero|]. intros n fl t1 Hn Hn8 S1.
  apply wp_bind. eapply store_set_cell_type; [exact S1 | apply lookup_insert_eq|]. intros t2 S2. rewrite insert_insert_eq in S2.
  apply wp_bind, wp_modify, HQ; [|by destruct (sr_only _ _ _ S2) as (mem & b & i & -> & _); eauto]. destruct S2 as [Hh [A1 A2 A3 A4] _].
  split; [by split | |].
  - change (t_heap (set_constants _ _ t2)) with (t_heap t2). rewrite Hh. intros a o Ha. apply lookup_insert_Some in Ha as [[_ <-]|[_ Ha]].
    + left. eexists. split; [done | by left].
    + change (t_heap (task_zero tid prog mh)) with (∅ : gmap Z object) in Ha. by rewrite lookup_empty in Ha.
  - eexists. change (t_heap (set_constants _ _ t2)) with (t_heap t2). rewrite Hh. split_and!; [done | apply lookup_insert_eq | done].
Qed.

Lemma only_mem_fields t t' : only_mem t t' ->
  t_pool t' = t_pool t /\ t_prog t' = t_prog t /\ t_maxstack t' = t_maxstack t /\ t_globnilpntr t' = t_globnilpntr t /\
  t_globtruepntr t' = t_globtruepntr t /\ t_strings t' = t_strings t /\ t_error t' = t_error t /\ t_done t' = t_done t.
Proof. by intros (m & b & i & -> & _). Qed.

Section boot.
Context (tid : Z) (prog : program) (mh : Z) (T : typing) (args : list string).
Hypothesis Hcheck : check_program prog T (max_stack (p_finfo prog)) (Z.of_nat (length (stringmap (p_comp prog)))) = true.
Hypothesis Hstart : check_start prog T = true.
Hypothesis Hargs : Z.of_nat (length args) <= MAX_ARRAY_SIZE.

(** The machine the program starts as. *)
Definition started_ok (t : task) : Prop := exists E, e_prog E = prog /\ e_typing E = T /\ checked_env E = true /\ machine_ok E t.

Lemma wp_boot : wp (boot args) (fun _ t' => started_ok t') (task_zero tid prog mh).
Proof using Hcheck Hstart Hargs.
  unfold boot, task_new. apply wp_bind, boot_nil. intros t1 B1 (mem & b & i & n & E1). fold (make_args args).
  eapply wp_use; [by apply boot_args|]. intros argsp t2 (L2 & Hargsp). apply wp_bind, wp_gets, wp_bind, wp_modify.
  destruct (only_mem_fields _ _ (proj1 (proj2 L2))) as (P1 & P2 & _ & P4 & P5 & P6 & P7 & P8). rewrite E1 in P1, P2, P5, P7, P8.
  change (t_prog (set_constants _ _ _)) with prog in P2. rewrite P2. set (t3 := set_maxstack _ t2).
  assert (B3 : booting t3) by (by apply (booting_same t2 t3), L2). eapply wp_use; [by apply boot_strings|]. intros ps t4 (L4 & Hps & Hlen).
  apply wp_bind, wp_modify. set (t5 := set_strings ps t4). assert (B5 : booting t5) by (by apply (booting_same t4 t5), L4).
  eapply wp_use; [by apply boot_sysobject|]. intros c6 t6 L6. destruct (only_mem_fields _ _ (proj1 (proj2 L4))) as (Q1 & Q2 & Q3 & Q4 & Q5 & _ & Q7 & Q8).
  destruct (only_mem_fields _ _ (proj1 (proj2 L6))) as (R1 & R2 & R3 & R4 & R5 & R6 & R7 & R8).
  assert (Hpool : t_pool t6 = Framepool ∅ [] 0 0 0) by (rewrite R1; change (t_pool t5) with (t_pool t4); rewrite Q1; exact P1).
  assert (Hprog : t_prog t6 = prog) by (rewrite R2; change (t_prog t5) with (t_prog t4); by rewrite Q2).
  assert (Hms : t_maxstack t6 = max_stack (p_finfo prog)) by (rewrite R3; change (t_maxstack t5) with (t_maxstack t4); by rewrite Q3).
  assert (Hstr : t_strings t6 = ps) by (by rewrite R6). assert (Htrue : is_pntr (t_globtruepntr t6) = false).
  { rewrite R5. change (t_globtruepntr t5) with (t_globtruepntr t4). rewrite Q5. change (t_globtruepntr t3) with (t_globtruepntr t2). rewrite P5. by vm_compute. }
  assert (Hsize : check_size (max_stack (p_finfo prog)) = true) by (unfold check_program in Hcheck; rewrite !andb_true_iff in Hcheck; tauto).
  apply wp_bind. eapply (wp_new_sentinel T); [apply L6 | unfold t_frames; by rewrite Hpool | by rewrite Hpool | unfold t_run; by rewrite Hpool | | | by rewrite Hms | by intros Hp; congruence | |].
  { rewrite R7. change (t_error t5) with (t_error t4). by rewrite Q7. }
  { rewrite R8. change (t_done t5) with (t_done t4). by rewrite Q8. }
  { rewrite Hstr. eapply Forall_impl; [exact Hps|]. intros p. apply leaf_sub. apply L6. }
  intros s c h ks q t7 E7 S7 W7 Hsub Hidle. apply wp_ret. subst E7. rewrite Hprog, Hms, Hstr in S7, W7.
  assert (Hck : checked_env (Env prog T (max_stack (p_finfo prog)) s c c (t_globnilpntr t6) (t_globtruepntr t6) ps) = true) by (unfold checked_env; cbn; by rewrite Hlen).
  eapply wp_mono; [eapply wp_start_program; [exact Hck | exact Hstart | exact S7 | exact W7 | exact Hidle|]|].
  - eapply leaf_sub; [exact Hsub|]. eapply leaf_sub; [apply L6|]. eapply leaf_sub; [apply L4 | exact Hargsp].
  - cbv beta. intros _ t8 [c' M8]. eexists. split; [|split; [|split; [|exact M8]]]; [done | done | exact Hck].
Qed.
End boot.

(** C13. Starting a program that passes the check gives a machine that satisfies
    the invariant: whatever its arguments, at most 2^19, and its strings are, [boot] returns, or
    ends the process because memory is exhausted; no assertion fails on the
    way, and the invariant holds of the task it leaves. *)
Theorem boot_safe tid prog mh T args :
  check_program prog T (max_stack (p_finfo prog)) (Z.of_nat (length (stringmap (p_comp prog)))) = true -> check_start prog T = true ->
  Z.of_nat (length args) <= MAX_ARRAY_SIZE ->
  wp (boot args) (fun _ t' => exists E, e_prog E = prog /\ e_typing E = T /\ checked_env E = true /\ machine_ok E t') (task_zero tid prog mh).
Proof. apply wp_boot. Qed.

(** The factorial program is started, and there is memory for it. *)
Lemma boot_safe_witness :
  (exists t', boot ["x"] (task_zero 0 Factorial.prog 0) = MDone tt t') /\
  wp (boot ["x"]) (fun _ t' => exists E, e_prog E = Factorial.prog /\ e_typing E = Factorial.types /\ checked_env E = true /\ machine_ok E t')
    (task_zero 0 Factorial.prog 0).
Proof.
  split; [|apply boot_safe; [apply Factorial.checked | apply Factorial.starts | by apply Z.leb_le]].
  assert ((match boot ["x"] (task_zero 0 Factorial.prog 0) with MDone _ _ => true | _ => false end) = true) as H by (vm_compute; reflexivity).
  destruct (boot ["x"] (task_zero 0 Factorial.prog 0)) as [[] t'| | | |]; [by exists t' | discriminate H..].
Defined.
