(* ===== verification/OpsDo.v ===== *)
(** * DO

    A value is applied to the arguments below it: a cap with too few becomes
    a larger cap, one with just enough is entered, one with too many is
    started in a frame of its own. *)

From S2P Require Import Prelude Builtins Source Bytecode Compile Pointer Chain Arith Memory Globals Sched Arrays Interpreter Wp SchedFacts Typing MachineOk HeapFacts WorldFacts FrameFacts Snap FrameAlloc Ops OpsSimple OpsReturn OpsCall.
#[local] Open Scope Z_scope.

(** The arguments of a cap go to the slots of a frame. *)
Lemma wp_push_cap_args E h ks q i t f base cp k (P : pntr -> Prop) Q :
  snap E h ks q i t -> ks !! f = Some k -> 0 <= base -> base + cap_count cp <= Z.of_nat (length (k_data k)) ->
  Forall P (cap_data cp) ->
  (forall d t', length d = length (k_data k) ->
     (forall j, (j < Z.to_nat base)%nat -> d !! j = k_data k !! j) ->
     (forall j, (Z.to_nat base <= j < Z.to_nat (base + cap_count cp))%nat -> exists p, d !! j = Some p /\ P p) ->
     snap E h (<[f := sk_data d k]> ks) q i t' -> Q tt t') ->
  wp (push_cap_args f base cp) Q t.
Proof.
  intros S Hk Hb Hlen HP HQ. unfold push_cap_args, cap_count in *.
  set (I := fun (j : Z) (t' : task) => exists d, length d = length (k_data k) /\
     (forall x, (x < Z.to_nat base)%nat -> d !! x = k_data k !! x) /\
     (forall x, (Z.to_nat base <= x < Z.to_nat (base + j))%nat -> exists p, d !! x = Some p /\ P p) /\
     snap E h (<[f := sk_data d k]> ks) q i t').
  eapply wp_mono; [apply (wp_for_z I)|].
  - exists (k_data k). split_and!; [done | done | lia|]. rewrite insert_id; [done|]. rewrite Hk. by destruct k.
  - intros j t1 Hj (d & D1 & D2 & D3 & S1). destruct (lookup_lt_is_Some_2 (cap_data cp) (Z.to_nat j)) as [p Hp]; [lia|].
    assert (P p) as Hpp by (rewrite Forall_lookup in HP; by eapply HP).
    apply wp_bind. eapply wp_mderef; [exact Hp|].
    eapply snap_set_slot; [exact S1 | by rewrite lookup_insert_eq | cbn; lia|]. intros t2 S2. rewrite insert_insert_eq in S2. cbn [sk_data k_data] in S2.
    exists (<[Z.to_nat (base + j) := p]> d). split_and!; [by rewrite length_insert | | |exact S2].
    + intros x Hx. rewrite list_lookup_insert_ne by lia. by apply D2.
    + intros x Hx. destruct (decide (x = Z.to_nat (base + j))) as [->|Hxj].
      * exists p. rewrite list_lookup_insert_eq by lia. done.
      * rewrite list_lookup_insert_ne by done. apply D3. lia.
  - cbv beta. intros [] t1 (d & D1 & D2 & D3 & S1). by eapply HQ.
Qed.

(** A stack that is accepted with nothing known of it. *)
Lemma goes_length E pc main n st :
  goes (e_typing E) pc false (replicate n SAny) = true -> length st = n -> goes (e_typing E) pc main st = true.
Proof.
  intros Hgo Hl. destruct (goes_any _ _ _ Hgo) as (pt & Hpt & Hm & Hlen & Hs). unfold goes. rewrite Hpt, Hm. cbn [implb andb].
  clear Hgo Hpt Hm. subst n. revert st Hlen Hs. induction (pt_stack pt) as [|ty l IH]; intros st Hlen Hs; [done|].
  destruct st as [|x st]; cbn in *; [lia|]. destruct (Hs 0%nat ty eq_refl) as [-> _]. cbn. apply IH; [lia|].
  intros i y Hi. destruct (Hs (S i) y Hi) as [? ?]. split; [done | lia].
Qed.

Section do_.
Context (E : env).
Hypothesis Hcheck : checked_env E = true.
Context (f pc : Z) (instr : instruction) (main : bool) (st : stack_ty).
Context (h : gmap Z object) (ks : gmap Z core) (q : queues) (r : list Z) (k : core) (t : task).
Hypothesis X : executing E f pc instr main st h ks q r k t.
#[local] Abbreviation ok := (fun _ t' => machine_ok E t').
#[local] Abbreviation cur := (Some (f, PcTy main st)).
#[local] Abbreviation the_good := (the_good _ _ _ _ _ _ _ _ _ _ _ _ X).
#[local] Abbreviation the_snap := (the_snap _ _ _ _ _ _ _ _ _ _ _ _ X).
#[local] Abbreviation the_core := (the_core _ _ _ _ _ _ _ _ _ _ _ _ X).
#[local] Abbreviation f_running := (f_running _ _ _ _ _ _ _ _ _ _ _ _ X).
#[local] Abbreviation f_data_ok := (f_data_ok _ _ _ _ _ _ _ _ _ _ _ _ X).
#[local] Abbreviation f_visible := (f_visible _ _ _ _ _ _ _ _ _ _ _ _ X).
#[local] Abbreviation f_core := (f_core _ _ _ _ _ _ _ _ _ _ _ _ X).

#[local] Abbreviation e := (Z.of_nat (length st)).

(** ** Too few arguments *)

(** The frame's cell becomes the larger cap. *)
Lemma partial_cell x fl nb cp c flc :
  h !! x = None -> 8 <= x -> cap_ok E h cp -> k_c k <> 0 -> k_retp k = None -> h !! k_c k = Some (OCell c) -> c_type c = CELL_FRAME ->
  good E None (<[k_c k := OCell (Cell CELL_CAP flc (make_pntr x) (c_field2 c))]> (<[x := OCap fl nb cp]> h))
    (<[f := sk_state STATE_UNALLOCATED (sk_c 0 k)]> ks) (finished f r q).
Proof.
  intros Hx Hx8 Hcp Hc0 Hret Hc Hct. assert (Hne : x <> k_c k) by congruence.
  assert (good E cur (<[x := OCap fl nb cp]> h) ks q) as G1.
  { apply good_put; [exact the_good | done | done | done|]. cbn. eapply cap_ok_le; [by apply heap_le_fresh | done]. }
  eapply good_finish_cell; [exact G1 | apply X | by eapply f_once | exact the_core | | | exact Hc0 | by rewrite lookup_insert_ne | done | done | done | done | by intros y [= <-] |].
  - split_and!; [done | apply f_core | apply f_core].
  - intros v0 v' y. eapply waits_apart. exact the_snap.
  - intros ks'. split; try done. intros _. exists x, fl, nb, cp. rewrite lookup_insert_ne, lookup_insert_eq by done. done.
Qed.

(** A new cell holds it, for the slot of the caller. *)
Lemma partial_slot x fl nb cp a c g i kg :
  h !! x = None -> 8 <= x -> cap_ok E h cp -> h !! a = None -> 8 <= a -> a <> x -> c_type c = CELL_CAP -> c_field1 c = make_pntr x ->
  k_c k = 0 -> k_retp k = Some (g, i) -> g ∈ q_wait q f -> 0 <= i < e_maxstack E -> ks !! g = Some kg ->
  good E None (<[a := OCell c]> (<[x := OCap fl nb cp]> h))
    (<[f := sk_state STATE_UNALLOCATED (sk_retp None k)]> (<[g := sk_data (<[Z.to_nat i := make_pntr a]> (k_data kg)) kg]> ks)) (finished f r q).
Proof.
  intros Hx Hx8 Hcp Ha Ha8 Hne Hc1 Hc2 Hc0 Hret Hg Hi Hkg. eapply return_slot; [exact X | | done..|].
  - by apply good_new_cap; [exact the_good|..].
  - eapply points_new; [by rewrite lookup_insert_eq | by eapply fresh_not_hid; [exact the_good|] | by rewrite Hc1 | by rewrite Hc1].
Qed.

Lemma do_partial_ok cp :
  1 <= e -> cap_ok E h cp -> e - 1 + cap_count cp < cap_arity cp -> wp (do_partial f e cp) ok t.
Proof.
  intros He Hcp Hn. destruct (entry_inv _ _ _ (cp_entry _ _ _ Hcp)) as (_ & A1 & _ & _). destruct f_data_ok as [D1 D2].
  assert (e_maxstack E <= MAX_ARRAY_SIZE) as Hms.
  { destruct (maxstack_bounds _ (env_size _ Hcheck)) as (_ & B). unfold FRAMEBLOCK_SIZE, sizeof_frame, sizeof_pntr in B.
    unfold MAX_ARRAY_SIZE. change (Z.shiftl 1 19) with 524288. lia. }
  unfold do_partial. assert (0 <= cap_count cp) by (unfold cap_count; lia).
  apply wp_bind. eapply snap_cap_alloc; [exact the_snap | lia | lia|]. intros x fl nb t1 Hx Hx8 S1.
  apply wp_bind. eapply snap_get_cap; [exact S1 | by rewrite lookup_insert_eq|].
  apply wp_bind. eapply snap_put_cap; [exact S1 | by rewrite lookup_insert_eq|]. intros t2 S2. rewrite insert_insert_eq in S2.
  cbn [cap_arity cap_address cap_fno cap_c cap_room] in S2.
  apply wp_bind. eapply (wp_push_all E (visible E h)); [exact S2 | | unfold cap_count; cbn; lia|].
  { intros j t' cp' R Hj S' HR. destruct (f_visible j) as (p & Hp & Hv); [lia|].
    eapply snap_get_slot; [exact S' | exact the_core | lia | exact Hp | by apply HR]. }
  intros l1 t3 Hl1 Hall1 S3. cbn [cap_arity cap_address cap_fno cap_c cap_room cap_data cap_sl app] in S3.
  apply wp_bind. eapply (wp_push_all E (visible E h)); [exact S3 | | unfold cap_count in *; cbn; lia|].
  { intros j t' cp' R Hj S' HR. destruct (lookup_lt_is_Some_2 (cap_data cp) (Z.to_nat j)) as [p Hp]; [lia|].
    eapply wp_mderef; [exact Hp|]. apply HR. assert (Ha := cp_args _ _ _ Hcp). rewrite Forall_lookup in Ha. by eapply Ha. }
  intros l2 t4 Hl2 Hall2 S4. cbn [cap_arity cap_address cap_fno cap_c cap_room cap_data cap_sl] in S4.
  assert (forall b, cap_ok E h (Cap (cap_arity cp) (cap_address cp) (cap_fno cp) (cap_sl cp) b (e - 1 + cap_count cp) (l1 ++ l2))) as Hok.
  { intros b. destruct Hcp. split; try done. - unfold cap_count in *. cbn. rewrite length_app. lia. - cbn. by apply Forall_app. }
  apply wp_bind. eapply snap_get_frame; [exact S4 | exact the_core|]. intros fr _ Ek.
  assert (f_c fr = k_c k) as -> by (by rewrite <- Ek). assert (f_retp fr = k_retp k) as -> by (by rewrite <- Ek).
  destruct (f_busy _ _ _ _ _ _ _ _ _ _ _ _ X) as [Hb Hact].
  destruct (ko_return _ _ _ _ _ _ _ f_core (proj2 (proj2 Hb))) as [(Hc0 & Hret & c & Hc & Hct & _)|(Hc0 & g & i & Hret & Hg & Hi)].
  - rewrite (proj2 (Z.eqb_neq _ _)) by done. cbn [negb]. apply wp_bind. assert (x <> k_c k) as Hne by congruence.
    apply wp_bind. eapply snap_write_barrier; [exact S4 | by rewrite lookup_insert_ne|]. intros flc t5 S5.
    apply wp_bind. eapply snap_init_cell; [exact S5 | by rewrite lookup_insert_eq|]. intros t6 S6. rewrite insert_insert_eq in S6. cbn [c_flags c_field2] in S6.
    apply wp_bind. eapply snap_get_cap; [exact S6 | by (rewrite lookup_insert_ne by done; apply lookup_insert_eq)|].
    apply wp_bind. eapply snap_put_cap; [exact S6 | by (rewrite lookup_insert_ne by done; apply lookup_insert_eq)|]. intros t7 S7.
    rewrite (insert_insert_ne _ x (k_c k)), insert_insert_eq in S7 by done. cbn [cap_arity cap_address cap_fno cap_c cap_room cap_data cap_sl] in S7.
    apply wp_bind. eapply snap_set_c; [exact S7 | exact the_core|]. intros t8 S8. apply wp_ret.
    eapply wp_leave; [exact X | exact S8 | by rewrite lookup_insert_eq | done | done | done | apply f_core | by eapply waiters_after|].
    rewrite insert_insert_eq. by apply partial_cell.
  - rewrite Hc0, Hret. cbn [Z.eqb negb]. destruct (f_caller _ _ _ _ _ _ _ _ _ _ _ _ X g Hg) as (kg & Hkg & Hgf & Hlen & Hwk).
    apply wp_bind, wp_bind. eapply snap_alloc_cell; [exact S4|]. intros a fla t5 Ha Ha8 S5. apply lookup_insert_None in Ha as [Ha Hne].
    apply wp_bind. eapply snap_get_cap; [exact S5 | by (rewrite lookup_insert_ne by done; apply lookup_insert_eq)|].
    apply wp_bind. eapply snap_put_cap; [exact S5 | by (rewrite lookup_insert_ne by done; apply lookup_insert_eq)|]. intros t6 S6.
    rewrite (insert_insert_ne _ x a), insert_insert_eq in S6 by done. cbn [cap_arity cap_address cap_fno cap_c cap_room cap_data cap_sl] in S6.
    apply wp_bind. eapply snap_init_cell; [exact S6 | by rewrite lookup_insert_eq|]. intros t7 S7. rewrite insert_insert_eq in S7. cbn [c_flags c_field2] in S7.
    apply wp_bind. eapply wp_mderef; [done|]. apply wp_bind. eapply snap_set_slot; [exact S7 | exact Hkg | lia|]. intros t8 S8.
    apply wp_bind. eapply snap_set_retp; [exact S8 | rewrite lookup_insert_ne by done; exact the_core|]. intros t9 S9. apply wp_ret.
    eapply wp_leave; [exact X | exact S9 | by rewrite lookup_insert_eq | done | done | done | apply f_core | apply Hwk|].
    rewrite insert_insert_eq. by eapply partial_slot.
Qed.

(** ** Just enough arguments *)

Lemma do_exact_ok cp :
  1 <= e -> cap_ok E h cp -> e - 1 + cap_count cp = cap_arity cp -> wp (do_exact f e cp) ok t.
Proof.
  intros He Hcp Hn. destruct (entry_inv _ _ _ (cp_entry _ _ _ Hcp)) as (_ & A1 & _ & Hgo). destruct f_data_ok as [D1 D2].
  unfold do_exact. apply wp_bind. eapply wp_check_globstart; [exact the_snap | apply Hcp|].
  apply wp_bind. eapply snap_set_instr; [exact the_snap | exact the_core|]. intros t1 S1.
  eapply (wp_push_cap_args _ _ _ _ _ _ _ _ _ _ (visible E h)); [exact S1 | by rewrite lookup_insert_eq | lia | cbn; lia | apply Hcp|].
  intros d t2 Hd Hlow Hhigh S2. rewrite insert_insert_eq in S2.
  eapply (running_next E f false _ _ _ _ _ _ _ (replicate (Z.to_nat (cap_arity cp)) SAny)); [exact S2 | | apply X | by rewrite lookup_insert_eq | reflexivity | exact Hgo].
  eapply good_cur_upd; [exact the_good | exact f_running | exact the_core | done | exact Hd | rewrite length_replicate; lia | done | |].
  - intros i ty [-> Hi]%lookup_replicate. cbn. destruct (decide (i < Z.to_nat (e - 1))%nat) as [Hi1|Hi1].
    + rewrite Hlow by done. destruct (f_visible (Z.of_nat i)) as (p & Hp & Hv); [lia|]. rewrite Nat2Z.id in Hp. by exists p.
    + apply Hhigh. lia.
  - intros i [? _]%lookup_replicate. done.
Qed.

(** ** Too many arguments *)

Lemma do_over_ok cp :
  1 <= e -> cap_ok E h cp -> cap_arity cp < e - 1 + cap_count cp ->
  (forall d, 2 <= d < e -> goes (e_typing E) (p_evaldoaddr (e_prog E) + (d - 1) * EVALDO_SEQUENCE_SIZE) false (replicate (Z.to_nat d) SAny) = true) ->
  wp (do_over f e cp) ok t.
Proof.
  intros He Hcp Hn Hed. destruct (entry_inv _ _ _ (cp_entry _ _ _ Hcp)) as (_ & A1 & _ & Hgo). destruct f_data_ok as [D1 D2].
  assert (Hlt := cp_count _ _ _ Hcp). unfold do_over. cbv zeta. set (extra := cap_arity cp - cap_count cp) in *.
  apply wp_bind. eapply wp_spare; [exact Hcheck | exact X|]. intros a l k0 ks1 q1 t1 P S1. assert (Haf := sp_other _ _ _ _ _ _ _ _ _ _ _ _ P). assert (Hlen := sp_data _ _ _ _ _ _ _ _ _ _ _ _ P).
  apply wp_bind. eapply wp_check_globstart; [exact S1 | apply Hcp|].
  apply wp_bind. eapply snap_set_instr; [exact S1 | by rewrite lookup_insert_eq|]. intros t2 S2. rewrite insert_insert_eq in S2.
  apply wp_bind. eapply (wp_copy_slots _ (visible E h)); [exact S2 | rewrite lookup_insert_ne by done; apply P | by rewrite lookup_insert_eq | done | lia | lia | lia | | |].
  { intros j Hj. apply f_visible. lia. }
  { cbn. unfold cap_count in *. lia. }
  intros d1 t3 Hd1 _ Hcopy S3. rewrite insert_insert_eq in S3. cbn [sk_data sk_instr k_data fresh_core] in *.
  apply wp_bind. eapply (wp_push_cap_args _ _ _ _ _ _ _ _ _ _ (visible E h)); [exact S3 | by rewrite lookup_insert_eq | lia | cbn; lia | apply Hcp|].
  intros d2 t4 Hd2 Hlow Hhigh S4. rewrite insert_insert_eq in S4. cbn [sk_data sk_instr k_data fresh_core] in *.
  apply wp_bind. eapply wp_new_frame_cell; [exact S4 | by rewrite lookup_insert_eq|]. intros c cc t5 Hc Hc8 Hcc1 Hcc2 S5. rewrite insert_insert_eq in S5.
  set (K := sk_c c _) in S5. assert (holds E h a c cc K) as HK.
  { split_and!; try done; [apply P | rewrite <- Hlen; cbn; lia|]. eapply started_entry; [apply Hcp | done|]. intros i Hi. cbn.
    destruct (decide (i < Z.to_nat extra)%nat) as [Hi1|Hi1].
    - rewrite Hlow by done. apply Hcopy. lia.
    - apply Hhigh. lia. }
  assert (good E cur (<[c := OCell cc]> h) (<[a := K]> ks1) (q_set_free l q1) /\ visible E (<[c := OCell cc]> h) (make_pntr c)) as [G' Hv].
  { eapply good_holder; [exact X | exact P | exact HK]. }
  apply wp_bind. eapply (snap_store E f main st (replace_top (extra + 1) SAny st) _ _ _ _ _ k _ _ SAny); [exact S5 | exact G' | | | lia | | done | exact Hv | |].
  { cbn. rewrite (sp_run _ _ _ _ _ _ _ _ _ _ _ _ P). left. }
  { rewrite lookup_insert_ne by done. apply P. }
  { replace (e - 1 - extra) with (e - (extra + 1)) by lia. apply set_ty_top. lia. }
  { rewrite replace_top_length by lia. lia. }
  cbv zeta. intros t6 S6 G6. apply wp_bind, wp_gets. rewrite (mi_prog _ _ (sn_misc _ _ _ _ _ _ S6)).
  eapply snap_set_instr; [exact S6 | by rewrite lookup_insert_eq|]. intros t7 S7. rewrite insert_insert_eq in S7.
  assert (Hr : q_run (q_set_free l q1) = f :: r) by apply P.
  eapply (running_next E f main _ _ _ _ _ _ _ (replace_top (extra + 1) SAny st)); [exact S7 | | exact Hr | by rewrite lookup_insert_eq | reflexivity |].
  - rewrite <- (insert_insert_eq _ f _ (sk_data (<[Z.to_nat (e - 1 - extra) := make_pntr c]> (k_data k)) k)).
    eapply good_cur_upd; [exact G6 | rewrite Hr; left | by rewrite lookup_insert_eq | done | done | rewrite replace_top_length by lia; lia | done | | done].
    intros i ty Hi. change (k_data (sk_instr ?z ?y)) with (k_data y). eapply cur_slot; [exact G6 | rewrite Hr; left | by rewrite lookup_insert_eq | exact Hi].
  - replace (e - 1 + (1 - extra) - 1) with (e - extra - 1) by lia. eapply goes_length; [apply Hed; lia|]. pose proof (replace_top_length (extra + 1) SAny st). lia.
Qed.

Lemma do_ok : i_opcode instr = OP_DO -> wp (op_do f instr) ok t.
Proof.
  intros Hop. checked X Hop C. destruct C as (C1 & C2). rewrite forallb_forall in C2. unfold op_do. cbv zeta.
  apply wp_bind, (wp_top _ _ _ _ _ _ _ _ _ _ _ _ X); [done|]. intros p Hp _.
  assert (1 <= e) as He by (destruct (slot_is_inv _ _ _ C1) as (i & ty & Ei & Hi & _); lia).
  destruct (whnf_ty _ _ _ Hp) as (ty & Hty & N1 & N2 & _). apply wp_bind. eapply snap_typeof; [exact the_snap | exact Hty|].
  apply wp_bind, wp_massert; [by apply negb_true_iff, Z.eqb_neq|].
  apply wp_bind, wp_massert; [apply orb_true_iff; right; by apply negb_true_iff, Z.eqb_neq|].
  destruct (negb (i_arg0 instr =? 0) && negb (ty =? CELL_CAP)); [by eapply frame_return_ok|].
  destruct (Z.eqb_spec ty CELL_CAP) as [->|]; cbn [negb]; [|by eapply wp_fail].
  destruct (cap_of _ _ _ _ _ _ _ _ _ _ _ _ X _ _ Hp Hty eq_refl) as (c & x & fl & n & cp & Hc & Hx & Hcp & Hok).
  apply wp_bind. eapply snap_get_cell; [exact the_snap | exact Hc|]. apply wp_bind. eapply wp_lift; [exact Hx|].
  apply wp_bind. eapply snap_get_cap; [exact the_snap | exact Hcp|]. rewrite (the_exp _ _ _ _ _ _ _ _ _ _ _ _ X).
  destruct (Z.ltb_spec (e - 1 + cap_count cp) (cap_arity cp)); [by apply do_partial_ok|].
  destruct (Z.eqb_spec (e - 1 + cap_count cp) (cap_arity cp)); [by apply do_exact_ok|].
  apply do_over_ok; [done | done | lia|]. intros d Hd. assert (Hd' := C2 (Z.to_nat d)). rewrite Z2Nat.id in Hd' by lia.
  apply Hd', in_seq. lia.
Qed.
End do_.
