(* ===== verification/Numbers.v ===== *)
(** * Built-in functions on numbers, truth values and cells
    (src/nreduce/runtime/builtins.c)

    Each takes the frame and the slot [argstack] points at: the arguments are
    in the slots from there on, the last argument first, and the result
    replaces the last. Numbers are checked, and a wrong type is an error of
    the program; the bit operations and their complement exit instead. *)

From S2P Require Import Prelude CString Builtins Source Bytecode Compile Pointer Arith Memory Globals Sched Arrays Interpreter.
#[local] Open Scope Z_scope.

Definition numnames : list string := ["first"; "second"; "third"; "fourth"]%string.

(** [argstack[i]] *)
Definition arg (f pos i : Z) : M pntr := get_slot f (pos + i).

Definition truth (b : bool) : M pntr := if b then gets t_globtruepntr else gets t_globnilpntr.
Definition setbool (f pos : Z) (b : bool) : M unit := p ← truth b; set_slot f pos p.

(** The instruction at work, the one before [instr]. *)
Definition this_instr : M instruction :=
  f ← gets t_run;
  fr ← get_frame f;
  pc ← mderef (f_instr fr);
  prog ← gets t_prog;
  massert (0 <=? pc - 1);;
  mderef (instructions (p_comp prog) !! Z.to_nat (pc - 1)).

Definition wrong_type (name num : string) (type ty : Z) : string :=
  name +:+ ": " +:+ num +:+ " argument must be of type " +:+ type_name type +:+ ", but got " +:+ type_name ty.

Definition invalid_arg (a : pntr) (bif : Z) (argno : nat) (type : Z) : M unit :=
  ty ← typeof a;
  if ty =? CELL_CAP then cap_error a
  else
    b ← mderef (builtin_info !! Z.to_nat bif);
    massert (Nat.leb (argno + 1) (bi_nargs b));;
    num ← mderef (numnames !! (bi_nargs b - 1 - argno)%nat);
    set_error (wrong_type (bi_name b) num type ty).

Definition invalid_binary_args (f pos : Z) (bif : nat) : M unit :=
  a1 ← arg f pos 1;
  a0 ← arg f pos 0;
  t1 ← typeof a1;
  t0 ← typeof a0;
  (if t1 =? CELL_CAP then cap_error a1
   else if t0 =? CELL_CAP then cap_error a0
   else name ← builtin_name (Z.of_nat bif); set_error (incompatible name t1 t0));;
  nil ← gets t_globnilpntr;
  set_slot f pos nil.

(** The macros return from the function that uses them. *)
Definition check_arg (f pos : Z) (argno : nat) (type : Z) (body : M unit) : M unit :=
  a ← arg f pos (Z.of_nat argno);
  ty ← typeof a;
  if type =? ty then body
  else
    i ← this_instr;
    massert (bool_decide (i_opcode i = OP_BIF));;
    invalid_arg a (i_arg0 i) argno type.

Definition check_numeric_args (f pos : Z) (bif : nat) (body : Z -> Z -> M unit) : M unit :=
  a1 ← arg f pos 1;
  a0 ← arg f pos 0;
  t1 ← typeof a1;
  t0 ← typeof a0;
  if (t1 =? CELL_NUMBER) && (t0 =? CELL_NUMBER) then body (pntrdouble a1) (pntrdouble a0)
  else invalid_binary_args f pos bif.

(** ** Arithmetic and comparison *)

Definition b_arith (op : Z -> Z -> option Z) (bif : nat) (f pos : Z) : M unit :=
  check_numeric_args f pos bif (fun a b => r ← trapping (op a b); set_slot f pos (setnumber r)).
Definition b_add : Z -> Z -> M unit := b_arith fadd B_ADD.
Definition b_subtract : Z -> Z -> M unit := b_arith fsub B_SUBTRACT.
Definition b_multiply : Z -> Z -> M unit := b_arith fmul B_MULTIPLY.
Definition b_divide : Z -> Z -> M unit := b_arith fdiv B_DIVIDE.
Definition b_mod : Z -> Z -> M unit := b_arith ffmod B_MOD.

Definition b_compare (op : Z -> Z -> option bool) (bif : nat) (f pos : Z) : M unit :=
  check_numeric_args f pos bif (fun a b => r ← trapping (op a b); setbool f pos r).
Definition b_eq : Z -> Z -> M unit := b_compare (fun a b => Some (feqb a b)) B_EQ.
Definition b_ne : Z -> Z -> M unit := b_compare (fun a b => Some (negb (feqb a b))) B_NE.
Definition b_lt : Z -> Z -> M unit := b_compare fltb B_LT.
Definition b_le : Z -> Z -> M unit := b_compare fleb B_LE.
Definition b_gt : Z -> Z -> M unit := b_compare (fun a b => fltb b a) B_GT.
Definition b_ge : Z -> Z -> M unit := b_compare (fun a b => fleb b a) B_GE.

(** ** Truth values *)

Definition is_nil (p : pntr) : M bool := ty ← typeof p; mret (ty =? CELL_NIL).

Definition b_and (f pos : Z) : M unit :=
  a0 ← arg f pos 0; n0 ← is_nil a0;
  a1 ← arg f pos 1; n1 ← is_nil a1;
  setbool f pos (negb n0 && negb n1).
Definition b_or (f pos : Z) : M unit :=
  a0 ← arg f pos 0; n0 ← is_nil a0;
  a1 ← arg f pos 1; n1 ← is_nil a1;
  setbool f pos (negb n0 || negb n1).
Definition b_not (f pos : Z) : M unit := a0 ← arg f pos 0; n0 ← is_nil a0; setbool f pos n0.
Definition b_if (f pos : Z) : M unit :=
  ifc ← arg f pos 2; n ← is_nil ifc;
  source ← (if n : bool then arg f pos 0 else arg f pos 1);
  set_slot f pos source.

(** ** Bit operations *)

Definition BITS_MSG : string := ": incompatible arguments (must be numbers)".
Definition BITNOT_MSG : string := "~: incompatible argument (must be a number)".

(** Shifts as GCC compiles them, for counts the processor takes as they are. *)
Definition bit_op (bif : nat) (a b : Z) : M Z :=
  if Nat.eqb bif B_BITSHL then massert ((0 <=? b) && (b <? 32));; mret (wrap32 (Z.shiftl a b))
  else if Nat.eqb bif B_BITSHR then massert ((0 <=? b) && (b <? 32));; mret (Z.shiftr a b)
  else if Nat.eqb bif B_BITAND then mret (Z.land a b)
  else if Nat.eqb bif B_BITOR then mret (Z.lor a b)
  else if Nat.eqb bif B_BITXOR then mret (Z.lxor a b)
  else fatal "Invalid bit operation".

Definition b_bitop (bif : nat) (f pos : Z) : M unit :=
  val2 ← arg f pos 0;
  val1 ← arg f pos 1;
  t1 ← typeof val1;
  t2 ← typeof val2;
  if negb (t1 =? CELL_NUMBER) || negb (t2 =? CELL_NUMBER) then
    name ← builtin_name (Z.of_nat bif); fatal (name +:+ BITS_MSG)
  else
    a ← trapping (trunc_int (pntrdouble val1));
    b ← trapping (trunc_int (pntrdouble val2));
    r ← bit_op bif a b;
    set_slot f pos (setnumber (double_of_int r)).
Definition b_bitshl : Z -> Z -> M unit := b_bitop B_BITSHL.
Definition b_bitshr : Z -> Z -> M unit := b_bitop B_BITSHR.
Definition b_bitand : Z -> Z -> M unit := b_bitop B_BITAND.
Definition b_bitor : Z -> Z -> M unit := b_bitop B_BITOR.
Definition b_bitxor : Z -> Z -> M unit := b_bitop B_BITXOR.

Definition b_bitnot (f pos : Z) : M unit :=
  a ← arg f pos 0;
  ty ← typeof a;
  if negb (ty =? CELL_NUMBER) then fatal BITNOT_MSG
  else
    val ← trapping (trunc_int (pntrdouble a));
    set_slot f pos (setnumber (double_of_int (Z.lnot val))).

(** ** Functions of one number *)

Definition b_unary (op : Z -> option Z) (f pos : Z) : M unit :=
  check_arg f pos 0 CELL_NUMBER
    (a ← arg f pos 0; r ← trapping (op (pntrdouble a)); set_slot f pos (setnumber r)).
Definition fabs (a : Z) : Z := Z.land a (2^63 - 1).
Definition b_sqrt : Z -> Z -> M unit := b_unary fsqrt.
Definition b_floor : Z -> Z -> M unit := b_unary (fun a => Some (ffloor a)).
Definition b_ceil : Z -> Z -> M unit := b_unary (fun a => Some (fceil a)).
Definition b_abs : Z -> Z -> M unit := b_unary (fun a => Some (fabs a)).

(** ** Evaluation order *)

Definition b_seq (f pos : Z) : M unit := mret tt.
Definition b_par (f pos : Z) : M unit :=
  v ← arg f pos 1;
  p ← resolve_pntr v;
  ty ← typeof p;
  if ty =? CELL_FRAME then g ← pframe p; spark_frame g else mret tt.

(** ** Cells *)

Definition b_cons (f pos : Z) : M unit :=
  head ← arg f pos 1;
  tail ← arg f pos 0;
  res ← alloc_cell;
  c ← get_cell res;
  put_cell res (Cell CELL_CONS (c_flags c) head tail);;
  set_slot f pos (make_pntr res).

Definition expected (name : string) (ty : Z) : string := name +:+ ": expected aref or cons, got " +:+ type_name ty.

Definition b_head (f pos : Z) : M unit :=
  a ← arg f pos 0;
  ty ← typeof a;
  if ty =? CELL_CONS then
    x ← lift (get_pntr a); c ← get_cell x; set_slot f pos (c_field1 c)
  else if ty =? CELL_AREF then
    x ← aref_array a;
    arr ← get_array x;
    match ca_elements arr with
    | Pntrs l =>
        massert (aref_index a <? Z.of_nat (length l));;
        v ← mderef (l !! Z.to_nat (aref_index a)); set_slot f pos v
    | Chars l =>
        massert (aref_index a <? Z.of_nat (length l));;
        v ← mderef (l !! Z.to_nat (aref_index a)); set_slot f pos (set_pntrdouble (double_of_int (Z.of_nat (nat_of_ascii v))))
    end
  else set_error (expected "head" ty).

Definition b_parhead (f pos : Z) : M unit := b_head f (pos + 1);; b_par f pos.

Definition b_iscons (f pos : Z) : M unit :=
  a ← arg f pos 0; ty ← typeof a; setbool f pos ((ty =? CELL_CONS) || (ty =? CELL_AREF)).

(** ** Ending the program *)

Definition b_exit (f pos : Z) : M unit :=
  modify (set_done true);; nil ← gets t_globnilpntr; set_slot f pos nil;; endpoint_interrupt.

(** ** The table *)

(** The column of functions of [builtin_info], as far as they are modelled. *)
Definition modelled (n : nat) : option (Z -> Z -> M unit) :=
  match n with
  | 0 => Some b_add | 1 => Some b_subtract | 2 => Some b_multiply | 3 => Some b_divide | 4 => Some b_mod
  | 5 => Some b_eq | 6 => Some b_ne | 7 => Some b_lt | 8 => Some b_le | 9 => Some b_gt | 10 => Some b_ge
  | 11 => Some b_bitshl | 12 => Some b_bitshr | 13 => Some b_bitand | 14 => Some b_bitor | 15 => Some b_bitxor
  | 16 => Some b_bitnot | 17 => Some b_sqrt | 18 => Some b_floor | 19 => Some b_ceil
  | 22 => Some b_if | 23 => Some b_and | 24 => Some b_or | 25 => Some b_not | 26 => Some b_cons | 27 => Some b_head
  | 36 => Some b_seq | 37 => Some b_par | 38 => Some b_parhead | 55 => Some b_exit | 56 => Some b_abs | 59 => Some b_iscons
  | _ => None
  end%nat.

(** The other functions are given. *)
Definition with_modelled (other : BuiltinFuns) : BuiltinFuns :=
  fun n => match modelled n with Some b => b | None => other n end.
