(* ===== verification/ListBifs.v ===== *)
(** * Built-in functions on lists, arrays and strings
    (src/nreduce/runtime/builtins.c)

    As in [Numbers], each takes the frame and the slot [argstack] points at. *)

From S2P Require Import Prelude CString Builtins Source Double Pointer Arith Memory Globals Sched Arrays Interpreter Lists Numbers.
#[local] Open Scope Z_scope.

(** [setnumber(&argstack[0],i)] of an [int]. *)
Definition setint (f pos i : Z) : M unit := set_slot f pos (setnumber (double_of_int i)).

(** The array and the index a reference is made of, with the check that the
    index is one of the array. *)
Definition aref_parts (p : pntr) : M (carray * Z) :=
  arr ← aref_array p;
  x ← get_array arr;
  massert (aref_index p <? ca_size x);;
  mret (x, aref_index p).

(** [(char)] and [(unsigned char)] of a byte. *)
Definition uchar (c : ascii) : Z := Z.of_nat (nat_of_ascii c).
Definition schar (c : ascii) : Z := if uchar c <? 128 then uchar c else uchar c - 256.

(** The element [i] of an array, as a value. *)
Definition element (x : carray) (i : Z) : option pntr :=
  match ca_elements x with
  | Pntrs l => l !! Z.to_nat i
  | Chars l => c ← l !! Z.to_nat i; Some (char_pntr c)
  end.

(** [(int)pntrdouble(p)] *)
Definition int_arg (p : pntr) : M Z := trapping (trunc_int (pntrdouble p)).

(** ** Parts of lists *)

Definition b_tail (f pos : Z) : M unit :=
  a ← arg f pos 0;
  maybe_expand_array a;;
  ty ← typeof a;
  if ty =? CELL_CONS then x ← lift (get_pntr a); c ← get_cell x; set_slot f pos (c_field2 c)
  else if ty =? CELL_AREF then
    refcell ← lift (get_pntr a);
    '(x, index) ← aref_parts a;
    v ← (if index + 1 <? ca_size x then lift (make_aref_pntr refcell (index + 1)) else aref_tail a);
    set_slot f pos v
  else set_error (expected "tail" ty).

Definition b_arraysize (f pos : Z) : M unit :=
  a ← arg f pos 0;
  maybe_expand_array a;;
  ty ← typeof a;
  if ty =? CELL_CONS then setint f pos 1
  else if ty =? CELL_AREF then '(x, index) ← aref_parts a; setint f pos (ca_size x - index)
  else set_error (expected "arraysize" ty).

Definition b_arrayskip (f pos : Z) : M unit :=
  np ← arg f pos 1;
  a ← arg f pos 0;
  check_arg f pos 1 CELL_NUMBER
    (maybe_expand_array a;;
     n ← int_arg np;
     massert (0 <=? n);;
     ty ← typeof a;
     if ty =? CELL_CONS then
       massert ((n =? 0) || (n =? 1));;
       v ← (if n =? 0 then mret a else x ← lift (get_pntr a); c ← get_cell x; mret (c_field2 c));
       set_slot f pos v
     else if ty =? CELL_AREF then
       refcell ← lift (get_pntr a);
       '(x, index) ← aref_parts a;
       massert (index + n <=? ca_size x);;
       v ← (if index + n =? ca_size x then aref_tail a else lift (make_aref_pntr refcell (index + n)));
       set_slot f pos v
     else set_error (expected "arrayskip" ty)).

Definition b_arrayitem (f pos : Z) : M unit :=
  np ← arg f pos 1;
  a ← arg f pos 0;
  check_arg f pos 1 CELL_NUMBER
    (maybe_expand_array a;;
     n ← int_arg np;
     massert (0 <=? n);;
     ty ← typeof a;
     if ty =? CELL_CONS then
       massert (n =? 0);;
       x ← lift (get_pntr a); c ← get_cell x; set_slot f pos (c_field1 c)
     else if ty =? CELL_AREF then
       '(x, index) ← aref_parts a;
       massert (index + n <? ca_size x);;
       v ← mderef (element x (index + n));
       set_slot f pos v
     else set_error (expected "arrayitem" ty)).

Definition BUILDARRAY_THRESHOLD : Z := 1024.

(** A part of an array is copied, except its whole rest when it is large: then
    the array is shared and never extended again. *)
Definition b_arrayprefix (f pos : Z) : M unit :=
  np ← arg f pos 2;
  a ← arg f pos 1;
  rest ← arg f pos 0;
  check_arg f pos 2 CELL_NUMBER
    (n ← int_arg np;
     ty ← typeof a;
     if ty =? CELL_CONS then
       massert (n =? 1);;
       newcons ← alloc_cell;
       x ← lift (get_pntr a);
       c ← get_cell x;
       new ← get_cell newcons;
       put_cell newcons (Cell CELL_CONS (c_flags new) (c_field1 c) rest);;
       set_slot f pos (make_pntr newcons)
     else if ty =? CELL_AREF then
       arr ← aref_array a;
       x ← get_array arr;
       let index := aref_index a in
       if n <=? 0 then set_slot f pos rest
       else
         let n := if ca_size x - index <? n then ca_size x - index else n in
         if (n =? ca_size x - index) && (BUILDARRAY_THRESHOLD <=? n) then
           new_aref ← alloc_cell;
           init_cell new_aref CELL_AREF (make_pntr arr);;
           aref_set_tail new_aref rest;;
           v ← lift (make_aref_pntr new_aref index);
           set_slot f pos v;;
           x ← get_array arr;
           put_array arr (set_multiref x)
         else
           v ← match ca_elements x with
               | Pntrs l => pointers_to_list (take (Z.to_nat n) (drop (Z.to_nat index) l)) rest
               | Chars l => binary_data_to_list (take (Z.to_nat n) (drop (Z.to_nat index) l)) rest
               end;
           set_slot f pos v
     else set_error (expected "arrayprefix" ty)).

(** ** Strings *)

(** The comparison of two strings from the index each starts at. *)
Fixpoint compare_chars (a b : list ascii) : Z :=
  match a, b with
  | x :: a, y :: b => if Ascii.eqb x y then compare_chars a b else schar x - schar y
  | _ :: _, [] => 1
  | [], _ :: _ => -1
  | [], [] => 0
  end.

(** The tails are read before they are resolved. *)
Definition b_arraystrcmp (f pos : Z) : M unit :=
  a ← arg f pos 1;
  b ← arg f pos 0;
  ta ← typeof a;
  tb ← typeof b;
  r ← (if (ta =? CELL_AREF) && (tb =? CELL_AREF) then
         aarr ← aref_array a;
         barr ← aref_array b;
         atail ← aref_tail a;
         btail ← aref_tail b;
         pa ← lift (get_pntr a);
         pb ← lift (get_pntr b);
         aref_resolve_tail pa;;
         aref_resolve_tail pb;;
         x ← get_array aarr;
         y ← get_array barr;
         match ca_elements x, ca_elements y with
         | Chars l, Chars m =>
             t1 ← typeof atail;
             t2 ← (if t1 =? CELL_NIL then typeof btail else mret CELL_CONS);
             if t2 =? CELL_NIL then
               mret (Some (compare_chars (drop (Z.to_nat (aref_index a)) l) (drop (Z.to_nat (aref_index b)) m)))
             else mret None
         | _, _ => mret None
         end
       else mret None);
  match r with
  | Some d => set_slot f pos (set_pntrdouble (double_of_int d))
  | None => nil ← gets t_globnilpntr; set_slot f pos nil
  end.

Definition b_nchars (f pos : Z) : M unit :=
  p ← arg f pos 0;
  ty ← typeof p;
  r ← (if ty =? CELL_AREF then
         arr ← aref_array p;
         x ← get_array arr;
         mret (if ca_elemsize x =? 1 then Some (ca_size x - aref_index p) else None)
       else mret None);
  match r with
  | Some n => set_slot f pos (set_pntrdouble (double_of_int n))
  | None => nil ← gets t_globnilpntr; set_slot f pos nil
  end.

(** The end of a list that is no string: through arrays and cons cells. *)
Fixpoint list_end (fuel : nat) (p : pntr) : M pntr :=
  ty ← typeof p;
  if (ty =? CELL_AREF) || (ty =? CELL_CONS) then
    match fuel with
    | O => diverge
    | S fuel => t ← aref_tail p; q ← resolve_pntr t; list_end fuel q
    end
  else mret p.

Definition b_restring (f pos : Z) : M unit :=
  a ← arg f pos 0;
  str ← array_to_string a;
  match str with
  | Some s => v ← string_to_array (c_string s); set_slot f pos v
  | None =>
      fuel ← heap_size;
      p ← list_end fuel a;
      ty ← typeof p;
      if ty =? CELL_REMOTEREF then run ← gets t_run; eval_remoteref run p
      else set_error "restring: argument is not a string"
  end.

Definition b_buildarray (f pos : Z) : M unit :=
  arrayp ← arg f pos 2;
  indexp ← arg f pos 1;
  tailp ← arg f pos 0;
  check_arg f pos 2 CELL_O_ARRAY
    (check_arg f pos 1 CELL_NUMBER
      (carr ← lift (get_pntr arrayp);
       index ← int_arg indexp;
       x ← get_array carr;
       massert (ca_size x <=? MAX_ARRAY_SIZE);;
       massert (index <? ca_size x);;
       refcell ← alloc_cell;
       c ← get_cell refcell;
       put_cell refcell (Cell CELL_AREF (c_flags c) (make_pntr carr) tailp);;
       v ← lift (make_aref_pntr refcell index);
       set_slot f pos v)).

Definition TEST_STRING : string := "this part shouldn't be here! test".
Definition b_teststring (f pos : Z) : M unit :=
  tail ← arg f pos 0;
  p ← string_to_array TEST_STRING;
  refcell ← lift (get_pntr p);
  aref_set_tail refcell tail;;
  v ← lift (make_aref_pntr refcell 29);
  set_slot f pos v.

Definition b_testarray (f pos : Z) : M unit := nil ← gets t_globnilpntr; set_slot f pos nil.

Definition b_error (f pos : Z) : M unit :=
  p ← arg f pos 0;
  str ← array_to_string p;
  match str with
  | Some s => set_error (c_string s)
  | None => set_error "error: argument is not a string"
  end.

(** ABC... over and over. *)
Definition alphabet (len : nat) : string :=
  String.string_of_list_ascii (map (fun i => ascii_of_nat (65 + i mod 26)) (seq 0 len)).

Definition b_genstring (f pos : Z) : M unit :=
  check_arg f pos 0 CELL_NUMBER
    (a ← arg f pos 0;
     len ← int_arg a;
     if 32 * 1048576 <? len then set_error "genstring: too long"
     else
       massert (0 <=? len);;
       v ← string_to_array (alphabet (Z.to_nat len));
       set_slot f pos v).

(** The table behind [isspace] reaches from -128 to 255. *)
Definition b_isspace (f pos : Z) : M unit :=
  check_arg f pos 0 CELL_NUMBER
    (a ← arg f pos 0;
     c ← int_arg a;
     massert ((-128 <=? c) && (c <=? 255));;
     setbool f pos ((0 <=? c) && isspace (ascii_of_nat (Z.to_nat c)))).

(** ** Their rows of the table *)

Definition modelled_lists (n : nat) : option (Z -> Z -> M unit) :=
  match n with
  | 28 => Some b_tail | 29 => Some b_arraysize | 30 => Some b_arrayskip | 31 => Some b_arrayitem
  | 32 => Some b_arrayprefix | 33 => Some b_arraystrcmp | 34 => Some b_teststring | 35 => Some b_testarray
  | 48 => Some b_nchars | 52 => Some b_error | 66 => Some b_isspace | 67 => Some b_cons
  | 68 => Some b_restring | 69 => Some b_buildarray | 71 => Some b_genstring
  | _ => None
  end%nat.
Definition with_lists (other : BuiltinFuns) : BuiltinFuns :=
  fun n => match modelled_lists n with Some b => b | None => other n end.

(** The names in the table at these rows. *)
Example modelled_lists_rows :
  map (fun n => default ""%string (bi_name <$> builtin_info !! n)) [28; 29; 30; 31; 32; 33; 34; 35; 48; 52; 66; 67; 68; 69; 71]%nat =
  ["tail"; "arraysize"; "arrayskip"; "arrayitem"; "arrayprefix"; "arraystrcmp"; "teststring"; "testarray"; "nchars"; "_error"; "isspace";
   "lcons"; "restring"; "buildarray"; "genstring"]%string.
Proof. reflexivity. Qed.
