(* ===== verification/NumbersFacts.v ===== *)
(** * BIF, and the modelled built-in functions are safe

    The instruction BIF is safe for the functions that keep the promise
    [BuiltinSafe]; the functions on numbers and cells keep it.

    On evaluated arguments they compute their result, or report an error of
    the program, provided no result is minus infinity (whose bit pattern is
    that of a pointer) and no shift count is out of range. That [head] finds
    the element it takes of an array is part of the invariant. *)

From Stdlib Require Import Ascii.
From S2P Require Import Prelude Builtins Source Bytecode Compile Pointer Chain Arith Memory Globals Sched Arrays Interpreter Numbers Wp SchedFacts Typing MachineOk HeapFacts WorldFacts FrameFacts Snap FrameAlloc Ops OpsSimple.
#[local] Open Scope Z_scope.

(** ** What the interpreter relies on from a built-in function

    A built-in function works on the slots of its arguments. It either leaves
    its result in place of them, evaluated if the table says so, or records an
    error. [BuiltinSafe] states this of every function a program uses; the
    instruction is safe for any functions that satisfy it. *)

(** ** The interface *)

Section law.
Context (E : env).

(** The frame [f] goes on, with a stack of type [st']. *)
Definition answered (f pc : Z) (main : bool) (st' : stack_ty) (r : list Z) (t' : task) : Prop :=
  exists h' ks' q' k', snap E h' ks' q' false t' /\ good E (Some (f, PcTy main st')) h' ks' q' /\ q_run q' = f :: r /\
    ks' !! f = Some k' /\ k_instr k' = Some (pc + 1).

(** An error is recorded; the slot of the result can still be looked at. *)
Definition refused (f pos : Z) (whnf : bool) (t' : task) : Prop :=
  failing E t' /\ exists fr p ty, t_frames t' !! f = Some fr /\ f_data fr !! Z.to_nat pos = Some p /\
    pntrtype (t_heap t') p = Some ty /\ (whnf = true -> ty <> CELL_IND).

Definition result_ty (b : builtin) : slot_ty := if bi_reswhnf b then SVal else SAny.

(** [pre] is what is required of the heap and of [argstack]. *)
Definition bif_law (n : nat) (b : builtin) (pre : gmap Z object -> (Z -> option pntr) -> Prop) (body : Z -> Z -> M unit) : Prop :=
  forall f pc instr main st h ks q r k t, executing E f pc instr main st h ks q r k t ->
    i_opcode instr = OP_BIF -> i_arg0 instr = Z.of_nat n ->
    let pos := Z.of_nat (length st) - Z.of_nat (bi_nargs b) in
    pre h (fun i => k_data k !! Z.to_nat (pos + i)) ->
    wp (body f pos) (fun _ t' => answered f pc main (replace_top (Z.of_nat (bi_nargs b)) (result_ty b) st) r t' \/
                                 refused f pos (bi_reswhnf b) t') t.

(** A function the code with a type calls. *)
Definition uses (n : nat) : Prop :=
  exists pc i pt, instructions (p_comp (e_prog E)) !! pc = Some i /\ e_typing E !! pc = Some (Some pt) /\ i_opcode i = OP_BIF /\ i_arg0 i = Z.of_nat n.
End law.

Class BuiltinSafe (E : env) (funs : BuiltinFuns) := {
  bif_pre : nat -> gmap Z object -> (Z -> option pntr) -> Prop;
  bif_safe : forall n b, uses E n -> builtin_info !! n = Some b -> bif_law E n b (bif_pre n) (funs n)
}.

(** ** BIF *)

Section bif.
Context (E : env).
Hypothesis Hcheck : checked_env E = true.
Context (f pc : Z) (instr : instruction) (main : bool) (st : stack_ty).
Context (h : gmap Z object) (ks : gmap Z core) (q : queues) (r : list Z) (k : core) (t : task).
Hypothesis X : executing E f pc instr main st h ks q r k t.
#[local] Abbreviation ok := (fun _ t' => machine_ok E t').
#[local] Abbreviation the_good := (the_good _ _ _ _ _ _ _ _ _ _ _ _ X).
#[local] Abbreviation the_snap := (the_snap _ _ _ _ _ _ _ _ _ _ _ _ X).
#[local] Abbreviation the_core := (the_core _ _ _ _ _ _ _ _ _ _ _ _ X).
#[local] Abbreviation the_exp := (the_exp _ _ _ _ _ _ _ _ _ _ _ _ X).

(** The strict arguments are evaluated. *)
Definition strict_ok (b : builtin) : Prop :=
  forall j, (j < bi_nstrict b)%nat -> slot_is st (Z.of_nat (length st) - 1 - Z.of_nat j) is_val = true.

Lemma check_strict_ok b :
  strict_ok b -> wp (for_z 0 (bi_nstrict b) (check_strict f (i_expcount instr))) (fun _ t' => t' = t) t.
Proof.
  intros Hs. eapply wp_mono; [apply (wp_for_z (fun _ t' => t' = t)); [done|]|by intros []].
  intros j t' Hj ->. destruct (slot_is_inv _ _ _ (Hs (Z.to_nat j) ltac:(lia))) as (i & ty & Ei & Hi & Hv). apply bool_decide_eq_true in Hv as ->.
  unfold check_strict. apply wp_bind. rewrite the_exp. eapply wp_slot; [exact X | exact Hi | lia|]. intros p Hp Hok. cbn in Hok.
  destruct (whnf_ty _ _ _ Hok) as (ty & Hty & N1 & N2 & N3 & N4). apply wp_bind. eapply snap_typeof; [exact the_snap | exact Hty|].
  repeat (apply wp_bind, wp_massert; [by apply negb_true_iff, Z.eqb_neq|]). by apply wp_massert; [apply negb_true_iff, Z.eqb_neq|].
Qed.

(** The assertion after the call. *)
Lemma check_answered b n t' :
  answered E f pc main (replace_top n (result_ty b) st) r t' -> 0 <= n <= Z.of_nat (length st) ->
  goes (e_typing E) (pc + 1) main (replace_top n (result_ty b) st) = true ->
  wp (check_result f (Z.of_nat (length st) - n) b) ok t'.
Proof.
  intros (h' & ks' & q' & k' & S & G & Hr & Hk & Hpc) Hn Hgo.
  assert (machine_ok E t') as Hok by (by eapply running_next).
  unfold check_result. apply wp_bind. eapply snap_get_frame; [exact S | exact Hk|]. intros fr _ _.
  destruct (bool_decide _); [by apply wp_ret|]. cbn [orb]. destruct (bi_reswhnf b) eqn:Eb; [|by apply wp_ret]. cbn [negb].
  unfold result_ty in *. rewrite Eb in *.
  assert (replace_top n SVal st !! Z.to_nat (Z.of_nat (length st) - n) = Some SVal) as Hi.
  { apply lookup_snoc_Some. right. unfold ztake. rewrite length_take. split; [lia | done]. }
  destruct (cur_slot _ _ _ _ _ _ _ _ _ _ G ltac:(rewrite Hr; left) Hk Hi) as (p & Hp & Hv). cbn in Hv.
  apply wp_bind. eapply snap_get_slot; [exact S | exact Hk | lia | exact Hp|].
  destruct (whnf_ty _ _ _ Hv) as (ty & Hty & N1 & _). apply wp_bind. eapply snap_typeof; [exact S | exact Hty|].
  apply wp_massert; [|done]. apply orb_true_iff. left. by apply negb_true_iff, Z.eqb_neq.
Qed.

Lemma check_refused b pos t' : refused E f pos (bi_reswhnf b) t' -> 0 <= pos -> wp (check_result f pos b) ok t'.
Proof.
  intros (Hf & fr & p & ty & Hfr & Hp & Hty & Hi) Hpos. assert (machine_ok E t') as Hok by (by right).
  unfold check_result. apply wp_bind. eapply wp_get_frame; [exact Hfr|].
  destruct (bool_decide _); [by apply wp_ret|]. cbn [orb]. destruct (bi_reswhnf b); [|by apply wp_ret]. cbn [negb].
  apply wp_bind, wp_bind. eapply wp_get_frame; [exact Hfr|]. apply wp_bind, wp_massert; [by apply Z.leb_le|]. eapply wp_mderef; [exact Hp|].
  apply wp_bind. eapply wp_typeof; [exact Hty|]. apply wp_massert; [|done]. apply orb_true_iff. left. apply negb_true_iff, Z.eqb_neq. auto.
Qed.

Context (funs : BuiltinFuns) `{!BuiltinSafe E funs}.

(** The arguments are what the function requires. *)
Definition bif_ready : Prop :=
  forall n b, i_arg0 instr = Z.of_nat n -> builtin_info !! n = Some b ->
    bif_pre n h (fun i => k_data k !! Z.to_nat (Z.of_nat (length st) - Z.of_nat (bi_nargs b) + i)).

Lemma op_bif_ok :
  i_opcode instr = OP_BIF -> zlookup (e_typing E) pc = Some (Some (PcTy main st)) -> bif_ready -> wp (op_bif f instr) ok t.
Proof.
  intros Hop Ht Hready. apply zlookup_Some in Ht as [_ Ht]. checked X Hop C. destruct (zlookup builtin_info (i_arg0 instr)) as [b|] eqn:Eb; [|done].
  rewrite !andb_true_iff in C. destruct C as ((C1 & C2) & C3). destruct (zlookup_nat _ _ _ Eb) as (n & En & Hb).
  destruct (can_replace_inv _ _ _ C1) as [D1 D2]. rewrite forallb_forall in C2.
  unfold op_bif. cbv zeta. apply wp_bind, wp_massert; [apply Z.leb_le; lia|]. rewrite En, Nat2Z.id.
  apply wp_bind. eapply wp_mderef; [exact Hb|]. eapply wp_use; [apply check_strict_ok|].
  { intros j Hj. apply C2, in_seq. lia. }
  cbv beta. intros [] t' ->. rewrite the_exp.
  assert (uses E n) as Hu by (exists (Z.to_nat pc), instr, (PcTy main st); split_and!; [apply X | exact Ht | exact Hop | exact En]).
  eapply wp_use; [exact (bif_safe _ _ Hu Hb _ _ _ _ _ _ _ _ _ _ _ X Hop En (Hready _ _ En Hb))|].
  cbv beta. intros [] t' [Ha|Hf]; [by apply check_answered | apply check_refused; [done | lia]].
Qed.
End bif.

(** ** What is required of the arguments *)

(** The numbers in question give no minus infinity. *)
Definition binary_pre (op : Z -> Z -> option Z) (h : gmap Z object) (a : Z -> option pntr) : Prop :=
  forall p1 p0, a 1 = Some p1 -> a 0 = Some p0 -> pntrtype h p1 = Some CELL_NUMBER -> pntrtype h p0 = Some CELL_NUMBER ->
    op (pntrdouble p1) (pntrdouble p0) <> Some NEG_INFINITY.
Definition unary_pre (op : Z -> option Z) (h : gmap Z object) (a : Z -> option pntr) : Prop :=
  forall p0, a 0 = Some p0 -> pntrtype h p0 = Some CELL_NUMBER -> op (pntrdouble p0) <> Some NEG_INFINITY.

(** The result of a bit operation when both arguments fit an [int]. *)
Definition bits (bif : nat) (a b : Z) : option Z :=
  x ← trunc_int a; y ← trunc_int b;
  Some (double_of_int (if Nat.eqb bif B_BITSHL then wrap32 (Z.shiftl x y) else if Nat.eqb bif B_BITSHR then Z.shiftr x y
    else if Nat.eqb bif B_BITAND then Z.land x y else if Nat.eqb bif B_BITOR then Z.lor x y else Z.lxor x y)).
Definition shift_pre (bif : nat) (a : Z -> option pntr) : Prop :=
  bif = B_BITSHL \/ bif = B_BITSHR -> forall p0 y, a 0 = Some p0 -> trunc_int (pntrdouble p0) = Some y -> 0 <= y < 32.

Definition numbers_pre (n : nat) (h : gmap Z object) (a : Z -> option pntr) : Prop :=
  match n with
  | 0 => binary_pre fadd h a | 1 => binary_pre fsub h a | 2 => binary_pre fmul h a | 3 => binary_pre fdiv h a
  | 4 => binary_pre ffmod h a
  | 11 | 12 | 13 | 14 | 15 => binary_pre (bits n) h a /\ shift_pre n a
  | 16 => unary_pre (fun a => x ← trunc_int a; Some (double_of_int (Z.lnot x))) h a
  | 17 => unary_pre fsqrt h a | 18 => unary_pre (fun a => Some (ffloor a)) h a
  | 19 => unary_pre (fun a => Some (fceil a)) h a | 56 => unary_pre (fun a => Some (fabs a)) h a
  | _ => True
  end%nat.

(** Whether it holds can be decided. *)
Definition is_number (h : gmap Z object) (p : pntr) : bool := bool_decide (pntrtype h p = Some CELL_NUMBER).
Definition binary_pre_b (op : Z -> Z -> option Z) (h : gmap Z object) (a : Z -> option pntr) : bool :=
  match a 1, a 0 with
  | Some p1, Some p0 => implb (is_number h p1 && is_number h p0) (negb (bool_decide (op (pntrdouble p1) (pntrdouble p0) = Some NEG_INFINITY)))
  | _, _ => true
  end.
Definition numbers_pre_b (n : nat) (h : gmap Z object) (a : Z -> option pntr) : bool :=
  match n with
  | 0 => binary_pre_b fadd h a | 1 => binary_pre_b fsub h a | 2 => binary_pre_b fmul h a | 3 => binary_pre_b fdiv h a
  | 4 => binary_pre_b ffmod h a
  | 11 | 12 | 13 | 14 | 15 | 16 | 17 | 18 | 19 | 56 => false
  | _ => true
  end%nat.

Lemma binary_pre_dec op h a : binary_pre_b op h a = true -> binary_pre op h a.
Proof.
  unfold binary_pre_b, is_number. intros H p1 p0 H1 H0 T1 T0. rewrite H1, H0, (bool_decide_eq_true_2 _ T1), (bool_decide_eq_true_2 _ T0) in H.
  by apply negb_true_iff, bool_decide_eq_false in H.
Qed.

Lemma numbers_pre_dec n h a : numbers_pre_b n h a = true -> numbers_pre n h a.
Proof.
  do 5 (destruct n as [|n]; [apply binary_pre_dec|]).
  do 6 (destruct n as [|n]; [done|]). do 9 (destruct n as [|n]; [done|]). do 7 (destruct n as [|n]; [done|]).
  destruct n as [|n]; [done|]. do 28 (destruct n as [|n]; [done|]). by destruct n.
Qed.

(** Ending the program is not an instruction's result; [parhead] is not
    covered. *)
Definition safe_bif (n : nat) : bool :=
  bool_decide (n ∈ [0;1;2;3;4;5;6;7;8;9;10;11;12;13;14;15;16;17;18;19;22;23;24;25;26;27;36;37;56;59]%nat).

(** ** Results *)

Lemma checked_range op a b r : checked op a b = Some r -> 0 <= r < 2^64.
Proof. unfold checked. destruct (_ && _); [done|]. intros H. apply (inj Some) in H. subst r. apply of_sf_range. Qed.

Lemma fsqrt_range a r : fsqrt a = Some r -> 0 <= r < 2^64.
Proof. unfold fsqrt. destruct (_ && _); [done|]. intros H. apply (inj Some) in H. subst r. apply of_sf_range. Qed.

Lemma fabs_range a r : Some (fabs a) = Some r -> 0 <= r < 2^64.
Proof.
  intros H. apply (inj Some) in H. subst r. unfold fabs. change (2^63 - 1) with (Z.ones 63). rewrite Z.land_ones by done. pose proof (Z.mod_pos_bound a (2^63)). lia.
Qed.

Lemma byte_number c : is_pntr (set_pntrdouble (double_of_int (Z.of_nat (nat_of_ascii c)))) = false.
Proof.
  assert (forallb (fun i => negb (is_pntr (set_pntrdouble (double_of_int (Z.of_nat i))))) (seq 0 256) = true) as H by (vm_compute; reflexivity).
  rewrite forallb_forall in H. apply negb_true_iff, H, in_seq. pose proof (nat_ascii_bounded c). lia.
Qed.

(** Their messages before they exit. *)
Lemma bits_exit bif : bif ∈ [B_BITSHL; B_BITSHR; B_BITAND; B_BITOR; B_BITXOR] ->
  exists bb, builtin_info !! bif = Some bb /\ exit_ok (bi_name bb +:+ BITS_MSG).
Proof.
  rewrite !elem_of_cons, elem_of_nil. intros [->|[->|[->|[->|[->|[]]]]]]; (eexists; split; [reflexivity|]);
    apply (bool_decide_eq_true_1 _); vm_compute; reflexivity.
Qed.
Lemma bitnot_exit : exit_ok BITNOT_MSG.
Proof. apply (bool_decide_eq_true_1 _). vm_compute. reflexivity. Qed.

Section numbers.
Context (E : env).
Hypothesis Hcheck : checked_env E = true.
Context (n : nat) (b : builtin).
Hypothesis Hb : builtin_info !! n = Some b.
Context (f pc : Z) (instr : instruction) (main : bool) (st : stack_ty).
Context (h : gmap Z object) (ks : gmap Z core) (q : queues) (r : list Z) (k : core) (t : task).
Hypothesis X : executing E f pc instr main st h ks q r k t.
Hypothesis Hop : i_opcode instr = OP_BIF.
Hypothesis Hn : i_arg0 instr = Z.of_nat n.
#[local] Abbreviation pos := (Z.of_nat (length st) - Z.of_nat (bi_nargs b)).
#[local] Abbreviation args := (fun i => k_data k !! Z.to_nat (pos + i)).
#[local] Abbreviation post := (fun _ t' => answered E f pc main (replace_top (Z.of_nat (bi_nargs b)) (result_ty b) st) r t' \/
                                refused E f pos (bi_reswhnf b) t').
#[local] Abbreviation the_good := (the_good _ _ _ _ _ _ _ _ _ _ _ _ X).
#[local] Abbreviation the_snap := (the_snap _ _ _ _ _ _ _ _ _ _ _ _ X).
#[local] Abbreviation the_core := (the_core _ _ _ _ _ _ _ _ _ _ _ _ X).
#[local] Abbreviation f_data_ok := (f_data_ok _ _ _ _ _ _ _ _ _ _ _ _ X).

(** What the check of the instruction says. *)
Lemma bif_check :
  (Z.of_nat (bi_nargs b) <= Z.of_nat (length st) /\ Z.of_nat (length st) - Z.of_nat (bi_nargs b) + 1 <= e_maxstack E) /\
  forall j, (j < bi_nstrict b)%nat -> st !! (length st - 1 - j)%nat = Some SVal /\ (j < length st)%nat.
Proof.
  checked X Hop C. rewrite Hn in C. assert (zlookup builtin_info (Z.of_nat n) = Some b) as Hz by (apply zlookup_Some; rewrite Nat2Z.id; split; [lia | done]).
  rewrite Hz, !andb_true_iff in C. destruct C as ((C1 & C2) & _). destruct (can_replace_inv _ _ _ C1) as [D1 D2]. split; [lia|].
  intros j Hj. rewrite forallb_forall in C2. destruct (slot_is_inv _ _ _ (C2 j ltac:(apply in_seq; lia))) as (i & ty & Ei & Hi & Hv).
  apply bool_decide_eq_true in Hv as ->. assert (Hlt := lookup_lt_Some _ _ _ Hi). split; [|lia]. rewrite <- Hi. f_equal. lia.
Qed.

(** An argument, which is evaluated when it is strict. *)
Lemma arg_is i :
  (i < bi_nargs b)%nat -> exists p, args (Z.of_nat i) = Some p /\ visible E h p /\ ((bi_nargs b - 1 - i < bi_nstrict b)%nat -> whnf E h p).
Proof.
  intros Hi. destruct bif_check as [[C1 C2] C3].
  destruct (lookup_lt_is_Some_2 st (Z.to_nat (pos + Z.of_nat i))) as [ty Hty]; [lia|].
  destruct (f_slot _ _ _ _ _ _ _ _ _ _ _ _ X _ _ Hty) as (p & Hp & Hok). exists p. split_and!; [exact Hp | by eapply slot_ok_visible|].
  intros Hs. destruct (C3 _ Hs) as [Hv _]. assert (st !! Z.to_nat (pos + Z.of_nat i) = Some SVal) as Hv' by (rewrite <- Hv; f_equal; lia).
  assert (ty = SVal) as ->; [|exact Hok]. assert (Some ty = Some SVal) as He by (rewrite <- Hty; exact Hv'). by injection He.
Qed.

Lemma wp_arg i z Q :
  (i < bi_nargs b)%nat -> z = Z.of_nat i -> 
  (forall p, args z = Some p -> visible E h p -> ((bi_nargs b - 1 - i < bi_nstrict b)%nat -> whnf E h p) -> Q p t) -> wp (arg f pos z) Q t.
Proof.
  intros Hi -> HQ. destruct (arg_is _ Hi) as (p & Hp & Hv & Hw). destruct bif_check as [[C1 C2] _].
  eapply snap_get_slot; [exact the_snap | exact the_core | lia | exact Hp | by apply HQ].
Qed.

Lemma typeof_visible p Q : visible E h p -> (forall ty, pntrtype h p = Some ty -> Q ty t) -> wp (typeof p) Q t.
Proof. intros Hv HQ. destruct (visible_typeof _ _ _ Hv) as (ty & Hty & _). eapply snap_typeof; [exact the_snap | exact Hty | by apply HQ]. Qed.

(** The result. *)
Lemma wp_answer h' t' v :
  snap E h' ks q false t' -> good E (Some (f, PcTy main st)) h' ks q -> slot_ok E h' (result_ty b) v -> wp (set_slot f pos v) post t'.
Proof.
  intros S G Hv. destruct bif_check as [[C1 C2] _]. destruct f_data_ok as [D1 D2].
  eapply snap_store; [exact S | exact G | by eapply f_running | exact the_core | lia | apply set_ty_top; lia | | exact Hv | |].
  - unfold result_ty. by destruct (bi_reswhnf b).
  - rewrite replace_top_length by lia. lia.
  - cbv zeta. intros t2 S2 G2. left. eexists _, _, _, _. split_and!; [exact S2 | exact G2 | apply X | by rewrite lookup_insert_eq | apply X].
Qed.

Lemma answer v : slot_ok E h (result_ty b) v -> wp (set_slot f pos v) post t.
Proof. apply wp_answer; [exact the_snap | exact the_good]. Qed.

Lemma result_whnf v : whnf E h v -> slot_ok E h (result_ty b) v.
Proof. unfold result_ty. destruct (bi_reswhnf b); [done | apply whnf_is_visible]. Qed.

Lemma answer_number x : 0 <= x < 2^64 -> x <> NEG_INFINITY -> wp (set_slot f pos (setnumber x)) post t.
Proof. intros Hx Hne. apply answer, result_whnf, number_points. by apply setnumber_number. Qed.

Lemma answer_bool x : wp (setbool f pos x) post t.
Proof.
  unfold setbool, truth. assert (M := sn_misc _ _ _ _ _ _ the_snap).
  destruct x; apply wp_bind, wp_gets; [rewrite (mi_true _ _ M) | rewrite (mi_nil _ _ M)]; apply answer, result_whnf; apply the_good.
Qed.

(** ** Errors *)

Lemma data_of t' fr : t_frames t' !! f = Some fr -> core_of fr = sk_instr (Some (p_erroraddr (e_prog E))) k -> f_data fr = k_data k.
Proof. intros _ Hc. by apply (f_equal k_data) in Hc. Qed.

(** The slot of the result, as it was. *)
Lemma errored_refused t' : (0 < bi_nargs b)%nat -> (bi_nargs b - 1 < bi_nstrict b)%nat -> errored E f h k t' -> refused E f pos (bi_reswhnf b) t'.
Proof.
  intros H0 Hs (Hf & Hh & _ & fr & Hfr & Hc). destruct (arg_is 0 H0) as (p & Hp & _ & Hw). specialize (Hw ltac:(lia)).
  destruct (whnf_ty _ _ _ Hw) as (ty & Hty & N1 & _). split; [done|]. exists fr, p, ty. split_and!; [done | | by rewrite Hh | done].
  rewrite (data_of _ _ Hfr Hc). by rewrite Z.add_0_r in Hp.
Qed.

Lemma refuse msg : (0 < bi_nargs b)%nat -> (bi_nargs b - 1 < bi_nstrict b)%nat -> wp (set_error msg) post t.
Proof. intros H0 Hs. eapply wp_set_error; [exact X|]. intros t' He. right. by apply errored_refused. Qed.

Lemma sigfpe {A} (Q : A -> task -> Prop) : wp interpreter_sigfpe Q t.
Proof.
  eapply (wp_sigfpe _ _ _ _ _ _ _ _ _ _ _ _ X _ b).
  - rewrite (bool_decide_true _ Hop), Hn, Nat2Z.id. exact Hb.
  - intros E2. destruct bif_check as [[C1 _] _]. lia.
Qed.

Lemma wp_trapping {A} (o : option A) Q : (forall a, o = Some a -> Q a t) -> wp (trapping o) Q t.
Proof. destruct o; intros HQ; [by apply wp_ret, HQ | apply sigfpe]. Qed.

(** [nil] for a result after an error. *)
Lemma refuse_nil t' : errored E f h k t' -> wp (nil ← gets t_globnilpntr; set_slot f pos nil) post t'.
Proof.
  intros (Hf & Hh & Hnil & fr & Hfr & Hc). destruct bif_check as [[C1 C2] _]. destruct f_data_ok as [D1 D2].
  apply wp_bind, wp_gets, wp_bind. eapply wp_get_frame; [exact Hfr|]. rewrite (data_of _ _ Hfr Hc).
  apply wp_bind, wp_massert; [rewrite andb_true_iff, Z.leb_le, Z.ltb_lt; lia|]. apply wp_put_frame. right. rewrite Hnil.
  destruct (whnf_ty _ _ _ (gd_nil _ _ _ _ _ the_good)) as (ty & Hty & N1 & _). split.
  - destruct Hf as (F1 & F2 & F3 & [F4|(g & fg & F4 & F5 & F6 & F7)]); split_and!; try done; [by left|]. right.
    destruct (decide (g = f)) as [->|Hg].
    + exists f. eexists. split_and!; [done | done | cbn; by rewrite lookup_insert_eq|]. rewrite Hfr in F6. injection F6 as <-. done.
    + exists g, fg. split_and!; [done | done | cbn; by rewrite lookup_insert_ne | done].
  - eexists _, _, ty. split_and!; [cbn; by rewrite lookup_insert_eq | | change (t_heap (frame_put f _ t')) with (t_heap t'); rewrite Hh; exact Hty | done].
    cbn. apply list_lookup_insert_eq. lia.
Qed.

Lemma wp_invalid_binary bif : bi_nargs b = 2%nat -> bi_nstrict b = 2%nat -> is_Some (builtin_info !! bif) -> wp (invalid_binary_args f pos bif) post t.
Proof.
  intros H1 H2 [bb Hbb]. unfold invalid_binary_args.
  apply wp_bind, (wp_arg 1); [lia | done|]. intros p1 _ Hv1 Hw1. specialize (Hw1 ltac:(lia)).
  apply wp_bind, (wp_arg 0); [lia | done|]. intros p0 _ Hv0 Hw0. specialize (Hw0 ltac:(lia)).
  apply wp_bind, typeof_visible; [done|]. intros t1 Ht1. apply wp_bind, typeof_visible; [done|]. intros t0 Ht0.
  eapply (wp_use _ _ (fun _ t' => errored E f h k t')); [|intros []; apply refuse_nil].
  destruct (Z.eqb_spec t1 CELL_CAP) as [->|]; [by eapply wp_cap_error|]. destruct (Z.eqb_spec t0 CELL_CAP) as [->|]; [by eapply wp_cap_error|].
  unfold builtin_name. apply wp_bind, wp_bind. eapply wp_mderef; [by rewrite Nat2Z.id|]. apply wp_ret. by eapply wp_set_error.
Qed.

Lemma wp_numeric bif body :
  bi_nargs b = 2%nat -> bi_nstrict b = 2%nat -> is_Some (builtin_info !! bif) ->
  (forall p1 p0, args 1 = Some p1 -> args 0 = Some p0 -> pntrtype h p1 = Some CELL_NUMBER -> pntrtype h p0 = Some CELL_NUMBER ->
     wp (body (pntrdouble p1) (pntrdouble p0)) post t) ->
  wp (check_numeric_args f pos bif body) post t.
Proof.
  intros H1 H2 Hbif Hbody. unfold check_numeric_args.
  apply wp_bind, (wp_arg 1); [lia | done|]. intros p1 Hp1 Hv1 _. apply wp_bind, (wp_arg 0); [lia | done|]. intros p0 Hp0 Hv0 _.
  apply wp_bind, typeof_visible; [done|]. intros t1 Ht1. apply wp_bind, typeof_visible; [done|]. intros t0 Ht0.
  destruct (Z.eqb_spec t1 CELL_NUMBER) as [->|]; [|by apply wp_invalid_binary].
  destruct (Z.eqb_spec t0 CELL_NUMBER) as [->|]; [|by apply wp_invalid_binary]. by apply Hbody.
Qed.

(** ** Numbers *)

Lemma arith_law op bif :
  bi_nargs b = 2%nat -> bi_nstrict b = 2%nat -> is_Some (builtin_info !! bif) -> (forall x y z, op x y = Some z -> 0 <= z < 2^64) ->
  binary_pre op h args -> wp (b_arith op bif f pos) post t.
Proof.
  intros H1 H2 Hbif Hr Hpre. unfold b_arith. apply wp_numeric; [done..|]. intros p1 p0 A1 A0 T1 T0.
  apply wp_bind, wp_trapping. intros x Hx. apply answer_number; [by eapply Hr|]. intros ->. by eapply Hpre.
Qed.

Lemma compare_law op bif :
  bi_nargs b = 2%nat -> bi_nstrict b = 2%nat -> is_Some (builtin_info !! bif) -> wp (b_compare op bif f pos) post t.
Proof. intros H1 H2 Hbif. unfold b_compare. apply wp_numeric; [done..|]. intros p1 p0 _ _ _ _. apply wp_bind, wp_trapping. intros x _. apply answer_bool. Qed.

Lemma wp_invalid_arg p type num :
  whnf E h p -> (0 < bi_nargs b)%nat -> (bi_nargs b - 1 < bi_nstrict b)%nat -> numnames !! (bi_nargs b - 1)%nat = Some num ->
  wp (invalid_arg p (i_arg0 instr) 0 type) post t.
Proof.
  intros Hp H0 Hs Hnum. unfold invalid_arg. apply wp_bind, typeof_visible; [by apply whnf_is_visible|]. intros ty Hty.
  destruct (Z.eqb_spec ty CELL_CAP) as [->|].
  - eapply wp_cap_error; [exact Hcheck | exact X | exact Hp | exact Hty|]. intros t' He. right. by apply errored_refused.
  - apply wp_bind. eapply wp_mderef; [rewrite Hn, Nat2Z.id; exact Hb|]. apply wp_bind, wp_massert; [apply Nat.leb_le; lia|].
    apply wp_bind. eapply wp_mderef; [rewrite Nat.sub_0_r; exact Hnum|]. by apply refuse.
Qed.

Lemma wp_this_instr Q : Q instr t -> wp this_instr Q t.
Proof.
  intros HQ. unfold this_instr. destruct (snap_head _ _ _ _ _ _ _ _ the_snap (ex_run _ _ _ _ _ _ _ _ _ _ _ _ X)) as [Hr _].
  apply wp_bind, wp_gets. rewrite Hr. apply wp_bind. eapply snap_get_frame; [exact the_snap | exact the_core|]. intros fr _ Ek.
  apply wp_bind. eapply (wp_mderef _ (pc + 1)); [rewrite <- (ex_instr _ _ _ _ _ _ _ _ _ _ _ _ X), <- Ek; done|].
  assert (Hpc := ex_pc _ _ _ _ _ _ _ _ _ _ _ _ X). apply wp_bind, wp_gets, wp_bind, wp_massert; [apply Z.leb_le; lia|].
  rewrite (mi_prog _ _ (sn_misc _ _ _ _ _ _ the_snap)). eapply wp_mderef; [|exact HQ].
  rewrite <- (ex_at _ _ _ _ _ _ _ _ _ _ _ _ X). do 2 f_equal. lia.
Qed.

Lemma unary_law op :
  bi_nargs b = 1%nat -> bi_nstrict b = 1%nat -> (forall x z, op x = Some z -> 0 <= z < 2^64) ->
  unary_pre op h args -> wp (b_unary op f pos) post t.
Proof.
  intros H1 H2 Hr Hpre. unfold b_unary, check_arg. apply wp_bind, (wp_arg 0); [lia | done|]. intros p Hp Hv Hw. specialize (Hw ltac:(lia)).
  apply wp_bind, typeof_visible; [done|]. intros ty Hty. destruct (Z.eqb_spec CELL_NUMBER ty) as [<-|].
  - apply wp_bind, (wp_arg 0); [lia | done|]. intros p' Hp' _ _. assert (Some p' = Some p) as [= ->] by (rewrite <- Hp, <- Hp'; done).
    apply wp_bind, wp_trapping. intros x Hx. apply answer_number; [by eapply Hr|]. intros ->. by eapply Hpre.
  - apply wp_bind, wp_this_instr, wp_bind, wp_massert; [by apply bool_decide_eq_true|]. by eapply wp_invalid_arg; [exact Hw | lia | lia | rewrite H1].
Qed.

(** ** Truth values *)

Lemma wp_is_nil p Q : visible E h p -> (forall x, Q x t) -> wp (is_nil p) Q t.
Proof. intros Hv HQ. unfold is_nil. apply wp_bind, typeof_visible; [done|]. intros ty _. by apply wp_ret. Qed.

Lemma connective_law (op : bool -> bool -> bool) : bi_nargs b = 2%nat ->
  wp (a0 ← arg f pos 0; n0 ← is_nil a0; a1 ← arg f pos 1; n1 ← is_nil a1; setbool f pos (op n0 n1)) post t.
Proof.
  intros H1. apply wp_bind, (wp_arg 0); [lia | done|]. intros p0 _ Hv0 _. apply wp_bind, wp_is_nil; [done|]. intros n0.
  apply wp_bind, (wp_arg 1); [lia | done|]. intros p1 _ Hv1 _. apply wp_bind, wp_is_nil; [done|]. intros n1. apply answer_bool.
Qed.

Lemma not_law : bi_nargs b = 1%nat -> wp (b_not f pos) post t.
Proof. intros H1. apply wp_bind, (wp_arg 0); [lia | done|]. intros p0 _ Hv0 _. apply wp_bind, wp_is_nil; [done|]. intros n0. apply answer_bool. Qed.

Lemma if_law : bi_nargs b = 3%nat -> bi_reswhnf b = false -> wp (b_if f pos) post t.
Proof.
  intros H1 H2. apply wp_bind, (wp_arg 2); [lia | done|]. intros p2 _ Hv2 _. apply wp_bind, wp_is_nil; [done|]. intros n2.
  apply wp_bind. destruct n2; [apply (wp_arg 0); [lia | done|] | apply (wp_arg 1); [lia | done|]]; intros p _ Hv _; apply answer; unfold result_ty; by rewrite H2.
Qed.

Lemma iscons_law : bi_nargs b = 1%nat -> wp (b_iscons f pos) post t.
Proof. intros H1. apply wp_bind, (wp_arg 0); [lia | done|]. intros p Hp Hv _. apply wp_bind, typeof_visible; [done|]. intros ty _. apply answer_bool. Qed.

(** ** Bit operations *)

Lemma wp_bit_op bif x y Q : bif ∈ [B_BITSHL; B_BITSHR; B_BITAND; B_BITOR; B_BITXOR] ->
  (bif = B_BITSHL \/ bif = B_BITSHR -> 0 <= y < 32) ->
  (forall z, z = (if Nat.eqb bif B_BITSHL then wrap32 (Z.shiftl x y) else if Nat.eqb bif B_BITSHR then Z.shiftr x y
    else if Nat.eqb bif B_BITAND then Z.land x y else if Nat.eqb bif B_BITOR then Z.lor x y else Z.lxor x y) -> Q z t) ->
  wp (bit_op bif x y) Q t.
Proof.
  intros Hin Hs HQ. unfold bit_op. destruct (Nat.eqb_spec bif B_BITSHL) as [->|N1].
  { apply wp_bind, wp_massert; [|by apply wp_ret, HQ]. rewrite andb_true_iff, Z.leb_le, Z.ltb_lt. apply Hs. by left. }
  destruct (Nat.eqb_spec bif B_BITSHR) as [->|N2].
  { apply wp_bind, wp_massert; [|by apply wp_ret, HQ]. rewrite andb_true_iff, Z.leb_le, Z.ltb_lt. apply Hs. by right. }
  destruct (Nat.eqb_spec bif B_BITAND) as [->|N3]; [by apply wp_ret, HQ|].
  destruct (Nat.eqb_spec bif B_BITOR) as [->|N4]; [by apply wp_ret, HQ|].
  destruct (Nat.eqb_spec bif B_BITXOR) as [->|N5]; [by apply wp_ret, HQ|].
  rewrite !elem_of_cons, elem_of_nil in Hin. tauto.
Qed.

Lemma bitop_law bif : bif ∈ [B_BITSHL; B_BITSHR; B_BITAND; B_BITOR; B_BITXOR] -> bi_nargs b = 2%nat ->
  binary_pre (bits bif) h args -> shift_pre bif args -> wp (b_bitop bif f pos) post t.
Proof.
  intros Hin H1 Hpre Hshift. unfold b_bitop.
  apply wp_bind, (wp_arg 0); [lia | done|]. intros p0 Hp0 Hv0 _. apply wp_bind, (wp_arg 1); [lia | done|]. intros p1 Hp1 Hv1 _.
  apply wp_bind, typeof_visible; [done|]. intros t1 Ht1. apply wp_bind, typeof_visible; [done|]. intros t0 Ht0.
  destruct (bits_exit _ Hin) as (bb & Hbb & Hexit).
  assert (wp (A:=unit) (name ← builtin_name (Z.of_nat bif); fatal (name +:+ BITS_MSG)) post t) as Hfatal.
  { unfold builtin_name. apply wp_bind, wp_bind. eapply wp_mderef; [by rewrite Nat2Z.id|]. by apply wp_ret, wp_fatal. }
  destruct (Z.eqb_spec t1 CELL_NUMBER) as [->|]; [|exact Hfatal]. destruct (Z.eqb_spec t0 CELL_NUMBER) as [->|]; [|exact Hfatal].
  cbn [negb orb]. apply wp_bind, wp_trapping. intros x Hx. apply wp_bind, wp_trapping. intros y Hy.
  apply wp_bind, wp_bit_op; [done | by intros Hs; eapply Hshift|]. intros z Hz. apply answer_number; [apply of_sf_range|].
  intros Hinf. eapply (Hpre p1 p0); [done..|]. unfold bits. rewrite Hx, Hy. cbn [mbind option_bind]. by rewrite <- Hz, Hinf.
Qed.

Lemma bitnot_law : bi_nargs b = 1%nat ->
  unary_pre (fun a => x ← trunc_int a; Some (double_of_int (Z.lnot x))) h args -> wp (b_bitnot f pos) post t.
Proof.
  intros H1 Hpre. unfold b_bitnot. apply wp_bind, (wp_arg 0); [lia | done|]. intros p0 Hp0 Hv0 _.
  apply wp_bind, typeof_visible; [done|]. intros t0 Ht0. destruct (Z.eqb_spec t0 CELL_NUMBER) as [->|].
  - cbn [negb]. apply wp_bind, wp_trapping. intros x Hx. apply answer_number; [apply of_sf_range|].
    intros Hinf. eapply (Hpre p0); [done..|]. rewrite Hx. cbn [mbind option_bind]. by rewrite Hinf.
  - apply wp_fatal, bitnot_exit.
Qed.

(** ** Evaluation order and cells *)

Lemma seq_law : bi_nargs b = 2%nat -> bi_reswhnf b = false -> wp (b_seq f pos) post t.
Proof.
  intros H1 H2. apply wp_ret. left. destruct bif_check as [[C1 C2] _]. exists h, ks, q, k.
  split_and!; [exact the_snap | | apply X | exact the_core | apply X].
  eapply good_weaken; [exact the_good | by eapply f_running | done|]. unfold result_ty. rewrite H2, H1 in *. apply sub_st_replace. lia.
Qed.

Lemma par_law : bi_nargs b = 2%nat -> bi_reswhnf b = false -> wp (b_par f pos) post t.
Proof.
  intros H1 H2. assert (forall t', (exists ks' q', snap E h ks' q' false t' /\ good E (Some (f, PcTy main st)) h ks' q' /\ q_run q' = f :: r /\ ks' !! f = Some k) -> post tt t') as Hpost.
  { intros t' (ks' & q' & S & G & Hr & Hk). left. destruct bif_check as [[C1 C2] _]. exists h, ks', q', k. split_and!; [exact S | | exact Hr | exact Hk | apply X].
    eapply good_weaken; [exact G | rewrite Hr; left | done|]. unfold result_ty. rewrite H2, H1 in *. apply sub_st_replace. lia. }
  unfold b_par. apply wp_bind, (wp_arg 1); [lia | done|]. intros p _ Hv _.
  destruct (good_resolve _ _ _ _ _ _ the_good Hv) as (p' & ty & Hr & Hpv & Hpt & Hpi).
  apply wp_bind. eapply snap_resolve; [exact the_snap | exact Hr|]. apply wp_bind. eapply snap_typeof; [exact the_snap | exact Hpt|].
  destruct (Z.eqb_spec ty CELL_FRAME) as [->|].
  - eapply wp_spark_of; [exact X | exact Hpv | exact Hpt|]. intros t' ks' q' S G Hq Hk. apply Hpost. exists ks', q'. done.
  - apply wp_ret, Hpost. exists ks, q. split_and!; [exact the_snap | exact the_good | apply X | exact the_core].
Qed.

Lemma cons_law : bi_nargs b = 2%nat -> wp (b_cons f pos) post t.
Proof.
  intros H1. unfold b_cons. apply wp_bind, (wp_arg 1); [lia | done|]. intros p1 _ Hv1 _. apply wp_bind, (wp_arg 0); [lia | done|]. intros p0 _ Hv0 _.
  apply wp_bind. eapply snap_alloc_cell; [exact the_snap|]. intros a fl t1 Ha Ha8 S1.
  apply wp_bind. eapply snap_get_cell; [exact S1 | by rewrite lookup_insert_eq|]. apply wp_bind.
  eapply snap_put_cell; [exact S1 | rewrite lookup_insert_eq; eauto|]. intros t2 S2. rewrite insert_insert_eq in S2. cbn [c_flags] in S2.
  eapply wp_answer; [exact S2 | |].
  - apply good_put; [exact the_good | done | done | by intros c [= <-]|]. assert (Hle := heap_le_fresh h a (OCell (Cell CELL_CONS fl p1 p0)) Ha).
    split; try done. intros _. cbn. split; by eapply visible_le.
  - assert (whnf E (<[a := OCell (Cell CELL_CONS fl p1 p0)]> h) (make_pntr a)) as Hw.
    { eapply points_new; [by rewrite lookup_insert_eq | by eapply fresh_not_hid; [exact the_good|] | done | done]. }
    unfold result_ty. destruct (bi_reswhnf b); [exact Hw | by apply whnf_is_visible].
Qed.

Lemma head_law : bi_nargs b = 1%nat -> bi_nstrict b = 1%nat -> bi_reswhnf b = false -> wp (b_head f pos) post t.
Proof.
  intros H1 H2 H3. assert (Hans : forall v, visible E h v -> wp (set_slot f pos v) post t).
  { intros v Hv. apply answer. unfold result_ty. by rewrite H3. }
  unfold b_head. apply wp_bind, (wp_arg 0); [lia | done|]. intros p Hp Hv _. apply wp_bind, typeof_visible; [done|]. intros ty Hty.
  assert (lift (get_pntr p) = mret (p_lo p) \/ is_pntr p = false) as Hget by (unfold get_pntr; destruct (is_pntr p); [left | right]; done).
  destruct (Z.eqb_spec ty CELL_CONS) as [->|]; [|destruct (Z.eqb_spec ty CELL_AREF) as [->|]; [|apply refuse; lia]].
  - destruct (visible_cell _ _ _ _ Hv Hty ltac:(done)) as (Hip & _ & c & Hc & Hct). destruct Hget as [->|]; [|congruence].
    apply wp_bind, wp_ret, wp_bind. eapply snap_get_cell; [exact the_snap | exact Hc|].
    apply Hans. apply (ce_cons _ _ _ _ _ (gd_heap _ _ _ _ _ the_good _ _ Hc) Hct).
  - destruct (visible_cell _ _ _ _ Hv Hty ltac:(done)) as (Hip & _ & c & Hc & Hct). destruct Hget as [Hget|]; [|congruence].
    destruct (Hv Hip) as (c' & Hc' & _ & _ & _ & Hup). rewrite Hc in Hc'. injection Hc' as <-.
    destruct (Hup Hct) as (x & fl & m & arr & Hx & Harr & Hidx). assert (0 <= aref_index p) as Hpos by (apply Z.land_nonneg; by right).
    unfold aref_array. rewrite Hget. apply wp_bind, wp_bind, wp_ret, wp_bind. eapply snap_get_cell; [exact the_snap | exact Hc|].
    eapply wp_lift; [exact Hx|]. apply wp_bind. eapply snap_get_array; [exact the_snap | exact Harr|].
    assert (Ho := gd_heap _ _ _ _ _ the_good _ _ Harr). cbn in Ho. unfold ca_size in Hidx.
    destruct (ca_elements arr) as [l|l]; apply wp_bind, wp_massert; try (by apply Z.ltb_lt);
      (destruct (lookup_lt_is_Some_2 l (Z.to_nat (aref_index p))) as [v Hlv]; [lia|]); apply wp_bind; (eapply wp_mderef; [exact Hlv|]); apply Hans.
    + rewrite Forall_lookup in Ho. by eapply Ho.
    + apply number_points, byte_number.
Qed.
End numbers.

(** ** The interface is satisfied *)

(** The law of the function at hand, by its name. *)
Ltac law_by Hcheck Hb X Hop Hn Hpre :=
  lazymatch goal with
  | |- wp (b_add _ _) _ _ => eapply (arith_law _ Hcheck _ _ Hb _ _ _ _ _ _ _ _ _ _ _ X Hop Hn fadd B_ADD)
  | |- wp (b_subtract _ _) _ _ => eapply (arith_law _ Hcheck _ _ Hb _ _ _ _ _ _ _ _ _ _ _ X Hop Hn fsub B_SUBTRACT)
  | |- wp (b_multiply _ _) _ _ => eapply (arith_law _ Hcheck _ _ Hb _ _ _ _ _ _ _ _ _ _ _ X Hop Hn fmul B_MULTIPLY)
  | |- wp (b_divide _ _) _ _ => eapply (arith_law _ Hcheck _ _ Hb _ _ _ _ _ _ _ _ _ _ _ X Hop Hn fdiv B_DIVIDE)
  | |- wp (b_mod _ _) _ _ => eapply (arith_law _ Hcheck _ _ Hb _ _ _ _ _ _ _ _ _ _ _ X Hop Hn ffmod B_MOD)
  | |- wp (b_eq _ _) _ _ => eapply (compare_law _ Hcheck _ _ Hb _ _ _ _ _ _ _ _ _ _ _ X Hop Hn _ B_EQ)
  | |- wp (b_ne _ _) _ _ => eapply (compare_law _ Hcheck _ _ Hb _ _ _ _ _ _ _ _ _ _ _ X Hop Hn _ B_NE)
  | |- wp (b_lt _ _) _ _ => eapply (compare_law _ Hcheck _ _ Hb _ _ _ _ _ _ _ _ _ _ _ X Hop Hn _ B_LT)
  | |- wp (b_le _ _) _ _ => eapply (compare_law _ Hcheck _ _ Hb _ _ _ _ _ _ _ _ _ _ _ X Hop Hn _ B_LE)
  | |- wp (b_gt _ _) _ _ => eapply (compare_law _ Hcheck _ _ Hb _ _ _ _ _ _ _ _ _ _ _ X Hop Hn _ B_GT)
  | |- wp (b_ge _ _) _ _ => eapply (compare_law _ Hcheck _ _ Hb _ _ _ _ _ _ _ _ _ _ _ X Hop Hn _ B_GE)
  | |- wp (b_bitshl _ _) _ _ => eapply (bitop_law _ _ _ Hb _ _ _ _ _ _ _ _ _ _ _ X Hop Hn B_BITSHL)
  | |- wp (b_bitshr _ _) _ _ => eapply (bitop_law _ _ _ Hb _ _ _ _ _ _ _ _ _ _ _ X Hop Hn B_BITSHR)
  | |- wp (b_bitand _ _) _ _ => eapply (bitop_law _ _ _ Hb _ _ _ _ _ _ _ _ _ _ _ X Hop Hn B_BITAND)
  | |- wp (b_bitor _ _) _ _ => eapply (bitop_law _ _ _ Hb _ _ _ _ _ _ _ _ _ _ _ X Hop Hn B_BITOR)
  | |- wp (b_bitxor _ _) _ _ => eapply (bitop_law _ _ _ Hb _ _ _ _ _ _ _ _ _ _ _ X Hop Hn B_BITXOR)
  | |- wp (b_bitnot _ _) _ _ => eapply (bitnot_law _ _ _ Hb _ _ _ _ _ _ _ _ _ _ _ X Hop Hn)
  | |- wp (b_sqrt _ _) _ _ => eapply (unary_law _ Hcheck _ _ Hb _ _ _ _ _ _ _ _ _ _ _ X Hop Hn fsqrt)
  | |- wp (b_floor _ _) _ _ => eapply (unary_law _ Hcheck _ _ Hb _ _ _ _ _ _ _ _ _ _ _ X Hop Hn (fun a => Some (ffloor a)))
  | |- wp (b_ceil _ _) _ _ => eapply (unary_law _ Hcheck _ _ Hb _ _ _ _ _ _ _ _ _ _ _ X Hop Hn (fun a => Some (fceil a)))
  | |- wp (b_abs _ _) _ _ => eapply (unary_law _ Hcheck _ _ Hb _ _ _ _ _ _ _ _ _ _ _ X Hop Hn (fun a => Some (fabs a)))
  | |- wp (b_if _ _) _ _ => eapply (if_law _ _ _ Hb _ _ _ _ _ _ _ _ _ _ _ X Hop Hn)
  | |- wp (b_and _ _) _ _ => eapply (connective_law _ _ _ Hb _ _ _ _ _ _ _ _ _ _ _ X Hop Hn (fun x y => negb x && negb y))
  | |- wp (b_or _ _) _ _ => eapply (connective_law _ _ _ Hb _ _ _ _ _ _ _ _ _ _ _ X Hop Hn (fun x y => negb x || negb y))
  | |- wp (b_not _ _) _ _ => eapply (not_law _ _ _ Hb _ _ _ _ _ _ _ _ _ _ _ X Hop Hn)
  | |- wp (b_cons _ _) _ _ => eapply (cons_law _ _ _ Hb _ _ _ _ _ _ _ _ _ _ _ X Hop Hn)
  | |- wp (b_head _ _) _ _ => eapply (head_law _ _ _ Hb _ _ _ _ _ _ _ _ _ _ _ X Hop Hn)
  | |- wp (b_seq _ _) _ _ => eapply (seq_law _ _ _ Hb _ _ _ _ _ _ _ _ _ _ _ X Hop Hn)
  | |- wp (b_par _ _) _ _ => eapply (par_law _ _ _ Hb _ _ _ _ _ _ _ _ _ _ _ X Hop Hn)
  | |- wp (b_iscons _ _) _ _ => eapply (iscons_law _ _ _ Hb _ _ _ _ _ _ _ _ _ _ _ X Hop Hn)
  end.

Lemma of_sf_some f z : Some (of_sf f) = Some z -> 0 <= z < 2^64.
Proof. intros H. apply (inj Some) in H as <-. apply of_sf_range. Qed.

Lemma numbers_law E n b body :
  checked_env E = true -> safe_bif n = true -> builtin_info !! n = Some b -> modelled n = Some body -> bif_law E n b (numbers_pre n) body.
Proof.
  intros Hcheck Hsafe Hb Hbody f pc instr main st h ks q r k t X Hop Hn pos Hpre. subst pos.
  apply bool_decide_eq_true in Hsafe. rewrite !elem_of_cons, elem_of_nil in Hsafe.
  repeat (destruct Hsafe as [->|Hsafe]; [apply (inj Some) in Hbody as <-; cbn [numbers_pre] in Hpre; assert (Hb' := Hb); apply (inj Some) in Hb'; subst b;
    law_by Hcheck Hb X Hop Hn Hpre;
    first [reflexivity | by eexists | exact Hpre | apply Hpre | set_solver | intros ? ? ?; apply checked_range | intros ? ?; apply fsqrt_range
          | intros ? ?; apply fabs_range | intros ? ?; apply of_sf_some]|]); [..|done].
Qed.

(** A program that uses only these functions needs nothing of the others. *)
#[export] Instance numbers_safe E other :
  checked_env E = true -> (forall n, uses E n -> safe_bif n = true) -> BuiltinSafe E (with_modelled other).
Proof.
  intros Hcheck Hall. refine {| bif_pre := numbers_pre |}. intros n b Hu Hb. assert (Hs := Hall _ Hu).
  unfold with_modelled. destruct (modelled n) as [body|] eqn:Eb; [by apply numbers_law|]. exfalso.
  apply bool_decide_eq_true in Hs. rewrite !elem_of_cons, elem_of_nil in Hs.
  repeat (destruct Hs as [->|Hs]; [discriminate Eb|]). done.
Defined.
