(* ===== verification/Safety.v ===== *)
(** * The interpreter is safe on checked code

    Running the instruction at hand keeps the machine well formed, and no
    assertion of the interpreter fails on the way: not when it dereferences a
    slot, enters a function, updates a cell, puts frames into queues, or
    reports an error. *)

From S2P Require Import Prelude Builtins Source Bytecode Compile Pointer Chain Arith Memory Globals Sched Arrays Interpreter Lists Boot Numbers Wp SchedFacts Typing MachineOk HeapFacts WorldFacts FrameFacts Snap FrameAlloc Ops OpsSimple OpsReturn OpsCall BootFacts OpsDo NumbersFacts.
#[local] Open Scope Z_scope.

Section safety.
Context (E : env).
Hypothesis Hcheck : checked_env E = true.
Context (funs : BuiltinFuns) `{!BuiltinSafe E funs}.

(** What the code can not guarantee of the instruction the frame at the head
    of the run queue is at: EVAL does not meet a hole, the value of a letrec
    that depends on itself; the arguments of a built-in function are what it
    requires. *)
Definition ready (t : task) : Prop :=
  forall fr pc i, t_frames t !! t_run t = Some fr -> f_instr fr = Some pc -> instructions (p_comp (t_prog t)) !! Z.to_nat pc = Some i ->
    (i_opcode i = OP_EVAL -> forall v p, f_data fr !! Z.to_nat (i_arg0 i) = Some v ->
       resolve (size (t_heap t)) (t_heap t) v = Done p -> pntrtype (t_heap t) p <> Some CELL_HOLE) /\
    (i_opcode i = OP_BIF -> forall n b, i_arg0 i = Z.of_nat n -> builtin_info !! n = Some b ->
       bif_pre n (t_heap t) (fun j => f_data fr !! Z.to_nat (i_expcount i - Z.of_nat (bi_nargs b) + j))).

(** ** One instruction *)

Lemma dispatch_ok f pc instr main st h ks q r k t :
  executing E f pc instr main st h ks q r k t -> zlookup (e_typing E) pc = Some (Some (PcTy main st)) ->
  (i_opcode instr = OP_EVAL -> eval_safe instr h k) ->
  (i_opcode instr = OP_BIF -> bif_ready E instr st h k funs) ->
  wp (dispatch f instr) (fun _ t' => machine_ok E t') t.
Proof.
  intros X Ht Heval Hbif. assert (C := ex_check _ _ _ _ _ _ _ _ _ _ _ _ X). unfold check_op in C.
  unfold dispatch. destruct (i_opcode instr) eqn:Hop; try discriminate C.
  - by eapply begin_ok.
  - by eapply end_ok.
  - by eapply spark_ok_.
  - by eapply return_ok_.
  - by eapply do_ok.
  - by eapply jfun_ok.
  - by eapply jfalse_ok.
  - by eapply jump_ok_.
  - by eapply push_ok.
  - by eapply update_ok.
  - by eapply alloc_ok.
  - by eapply squeeze_ok.
  - by eapply mkcap_ok.
  - by eapply op_mkframe_ok.
  - eapply op_bif_ok; [exact X | exact Hop | exact Ht | by apply Hbif].
  - by eapply pushnil_ok.
  - by eapply pushnumber_ok.
  - by eapply pushstring_ok.
  - by eapply pop_ok.
  - eapply eval_ok; [exact X | exact Hop | exact Ht | by apply Heval].
  - by eapply op_call_ok.
  - by eapply op_jcmp_ok.
  - by eapply consn_ok.
  - by eapply itemn_ok.
  - by eapply jeq_ok.
Qed.

(** The frame at the head begins to execute its instruction. *)
Lemma executing_start h ks q i t f r pc k pt instr t1 :
  snap E h ks q i t -> good E None h ks q -> q_run q = f :: r -> ks !! f = Some k -> k_instr k = Some pc ->
  zlookup (e_typing E) pc = Some (Some pt) -> instructions (p_comp (e_prog E)) !! Z.to_nat pc = Some instr ->
  snap E h (<[f := sk_instr (Some (pc + 1)) k]> ks) q i t1 ->
  executing E f pc instr (pt_main pt) (pt_stack pt) h (<[f := sk_instr (Some (pc + 1)) k]> ks) q r (sk_instr (Some (pc + 1)) k) t1.
Proof.
  intros S G Hr Hk Hpc Ht Hi S1. assert (f ∈ q_run q) as Hf by (rewrite Hr; left). destruct pt as [main st]. cbn [pt_main pt_stack].
  assert (G1 : good E (Some (f, PcTy main st)) h ks q) by (eapply good_focus; [exact G | exact Hk | exact Hpc | exact Ht]).
  destruct (env_typed _ Hcheck _ _ Ht) as (H0 & _). assert (C := env_instr _ Hcheck _ _ Hi). unfold check_instr in C.
  apply andb_true_iff in C as [C1 C2]. apply zlookup_Some in Ht as [_ Ht]. unfold typing in *. rewrite Ht, !andb_true_iff in C2. destruct C2 as ((C2 & C3) & C4).
  cbn [pt_main pt_stack] in *. apply Z.eqb_eq in C2. rewrite Z2Nat.id in C4 by done.
  split; try done; [by eapply snap_weaken | | by rewrite lookup_insert_eq].
  eapply good_cur_upd; [exact G1 | exact Hf | exact Hk | done | done | | done | | done].
  - by destruct (cur_data _ _ _ _ _ _ _ _ G1 Hf Hk) as (_ & ? & _).
  - intros j ty Hj. change (k_data (sk_instr ?x ?y)) with (k_data y). eapply cur_slot; [exact G1 | exact Hf | exact Hk | exact Hj].
Qed.

Lemma running_step t : running E t -> t_interrupt t = false -> ready t -> wp step (fun _ t' => machine_ok E t') t.
Proof.
  intros (h & ks & q & i & S & G & Hq) Hint Hready. destruct (q_run q) as [|f r] eqn:Hr.
  { assert (t_interrupt t = true) by (apply (sn_interrupt _ _ _ _ _ _ S); auto). congruence. }
  destruct (snap_head _ _ _ _ _ _ _ _ S Hr) as [Hf Hf0]. destruct (run_busy _ _ _ _ _ f G) as (k & Hb & Hact); [rewrite Hr; left|].
  assert (Hk := proj1 Hb). destruct (ko_typed _ _ _ _ _ _ _ (good_busy _ _ _ _ _ _ _ G Hb) ltac:(apply Hb)) as (pt & (pc & Hpc & Ht) & _).
  destruct (env_typed _ Hcheck _ _ Ht) as (H0 & instr & Hi). assert (Hp := mi_prog _ _ (sn_misc _ _ _ _ _ _ S)).
  unfold step. apply wp_bind, wp_gets, wp_bind. rewrite Hf. apply wp_massert; [by apply negb_true_iff, Z.eqb_neq|].
  apply wp_bind. eapply wp_fetch; [rewrite (sn_cores _ _ _ _ _ _ S); exact Hk | exact Hpc | exact H0 | rewrite Hp; exact Hi|].
  apply wp_bind, wp_bind. eapply snap_get_frame; [exact S | exact Hk|]. intros fr Hfr Ek.
  eapply wp_mderef; [rewrite <- Hpc, <- Ek; done|]. apply wp_bind. eapply snap_set_instr; [exact S | exact Hk|]. intros t1 S1.
  destruct (Hready fr pc instr) as [Heval Hbif]; [by rewrite Hf | by rewrite <- Hpc, <- Ek | by rewrite Hp|].
  rewrite (sn_heap _ _ _ _ _ _ S) in Heval, Hbif. assert (f_data fr = k_data k) as Hd by (by rewrite <- Ek). rewrite Hd in Heval, Hbif.
  assert (X := executing_start _ _ _ _ _ _ _ _ _ _ _ _ S G Hr Hk Hpc Ht Hi S1).
  eapply dispatch_ok; [exact X | by destruct pt | exact Heval|].
  intros Hop n b Hn Hbi. rewrite <- (ex_expcount _ _ _ _ _ _ _ _ _ _ _ _ X). by apply Hbif.
Qed.

(** ** Errors *)

(** A recorded error is reported. *)
Lemma handle_error_done t e :
  t_error t = Some e -> sl_fileno (t_errorsl t) < Z.of_nat (length (stringmap (p_comp (t_prog t)))) ->
  exists t', handle_error t = MDone tt t' /\ t_error t' = Some e /\ t_errorsl t' = t_errorsl t /\ t_prog t' = t_prog t /\ t_interrupt t' = true.
Proof.
  intros He Hpos. unfold handle_error, bc_string, mderef, massert, gets, mbind, M_bind, mret, M_ret. rewrite He.
  destruct (Z.leb_spec 0 (sl_fileno (t_errorsl t))) as [Hle|]; [|by eexists].
  destruct (lookup_lt_is_Some_2 (stringmap (p_comp (t_prog t))) (Z.to_nat (sl_fileno (t_errorsl t)))) as [s Hs]; [lia|].
  rewrite Hs. by eexists.
Qed.

Lemma handle_error_ok t :
  is_Some (t_error t) -> pos_ok E (sl_fileno (t_errorsl t)) -> t_prog t = e_prog E -> wp handle_error (fun _ t' => failing E t') t.
Proof.
  intros [e He] Hpos Hp. unfold pos_ok in Hpos. rewrite <- Hp in Hpos. destruct (handle_error_done t e He Hpos) as (t' & Ht & E1 & E2 & E3 & E4).
  unfold wp. rewrite Ht. split_and!; [by eexists | unfold pos_ok; by rewrite E2, <- Hp | congruence | by left].
Qed.

Lemma failing_step t : failing E t -> t_interrupt t = false -> wp step (fun _ t' => machine_ok E t') t.
Proof.
  intros (He & Hpos & Hp & [?|(f & fr & Hf & Hf0 & Hfr & Hi)]) Hint; [congruence|].
  destruct (env_error _ Hcheck) as (instr & H0 & Hat & Hop). unfold step. apply wp_bind, wp_gets, wp_bind. rewrite Hf.
  apply wp_massert; [by apply negb_true_iff, Z.eqb_neq|]. unfold fetch.
  apply wp_bind, wp_bind. eapply wp_get_frame; [exact Hfr|]. apply wp_bind. eapply wp_mderef; [exact Hi|].
  apply wp_bind, wp_gets, wp_bind, wp_massert; [by apply Z.leb_le|]. rewrite Hp. eapply wp_mderef; [exact Hat|].
  apply wp_bind, wp_bind. eapply wp_get_frame; [exact Hfr|]. eapply wp_mderef; [exact Hi|].
  apply wp_bind. unfold set_instr. eapply wp_upd_frame; [exact Hfr|]. unfold dispatch. rewrite Hop. unfold op_error.
  eapply wp_mono; [by apply handle_error_ok|]. intros [] t' H. by right.
Qed.

Lemma step_ok t : machine_ok E t -> t_interrupt t = false -> ready t -> wp step (fun _ t' => machine_ok E t') t.
Proof. intros [H|H] Hint Hr; [by apply running_step | by apply failing_step]. Qed.

(** ** The loop *)

(** The states a run of the loop passes through. *)
Inductive reaches : task -> task -> Prop :=
| reaches_here t : reaches t t
| reaches_next t t1 t2 : t_interrupt t = false -> step t = MDone tt t1 -> reaches t1 t2 -> reaches t t2.

Definition always_ready (t : task) : Prop := forall t', reaches t t' -> t_interrupt t' = false -> ready t'.

Lemma always_next t t1 : t_interrupt t = false -> step t = MDone tt t1 -> always_ready t -> always_ready t1.
Proof. intros Hi Hs Ha t2 Hr. apply Ha. by eapply reaches_next. Qed.

Lemma run_ok fuel : forall t, machine_ok E t -> always_ready t -> wp (run fuel) (fun _ t' => machine_ok E t') t.
Proof.
  induction fuel as [|fuel IH]; intros t Hm Ha; cbn [run]; apply wp_bind, wp_gets; destruct (t_interrupt t) eqn:Hint; try by apply wp_ret.
  assert (Hs := step_ok t Hm Hint (Ha _ (reaches_here t) Hint)). apply wp_bind. unfold wp in Hs |- *.
  destruct (step t) as [[] t1| | | |] eqn:Est; try done. apply IH; [exact Hs|]. by eapply always_next.
Qed.

(** The error is on its way to the user, and the loop is to be left. *)
Definition reported (t : task) : Prop := is_Some (t_error t) /\ t_interrupt t = true.

(** ** Checking it on a run *)

Section decide.
Context (pre_b : nat -> gmap Z object -> (Z -> option pntr) -> bool).
Hypothesis Hpre : forall n h a, pre_b n h a = true -> bif_pre n h a.

Definition ready_b (t : task) : bool :=
  match t_frames t !! t_run t with
  | Some fr =>
      match f_instr fr with
      | Some pc =>
          match instructions (p_comp (t_prog t)) !! Z.to_nat pc with
          | Some i =>
              (if bool_decide (i_opcode i = OP_EVAL) then
                 match f_data fr !! Z.to_nat (i_arg0 i) with
                 | Some v => match resolve (size (t_heap t)) (t_heap t) v with
                             | Done p => negb (bool_decide (pntrtype (t_heap t) p = Some CELL_HOLE))
                             | _ => true
                             end
                 | None => true
                 end
               else true) &&
              (if bool_decide (i_opcode i = OP_BIF) then
                 match builtin_info !! Z.to_nat (i_arg0 i) with
                 | Some b => pre_b (Z.to_nat (i_arg0 i)) (t_heap t)
                               (fun j => f_data fr !! Z.to_nat (i_expcount i - Z.of_nat (bi_nargs b) + j))
                 | None => true
                 end
               else true)
          | None => true
          end
      | None => true
      end
  | None => true
  end.

Lemma ready_dec t : ready_b t = true -> ready t.
Proof using Hpre.
  unfold ready_b. intros H fr pc i Hfr Hpc Hi. rewrite Hfr, Hpc, Hi in H. apply andb_true_iff in H as [H1 H2]. split.
  - intros Hop v p Hv Hp. rewrite bool_decide_eq_true_2, Hv, Hp in H1 by done. by apply negb_true_iff, bool_decide_eq_false in H1.
  - intros Hop n b Hn Hb. rewrite bool_decide_eq_true_2, Hn, Nat2Z.id, Hb in H2 by done. by apply Hpre.
Qed.

(** Every instruction up to the end of the loop, which is among the next [n]. *)
Fixpoint ready_along (n : nat) (t : task) : bool :=
  if t_interrupt t then true else
  match n with
  | O => false
  | S n => ready_b t && match step t with MDone _ t1 => ready_along n t1 | _ => true end
  end.

Lemma reaches_inv t t' : reaches t t' -> t = t' \/ exists t1, t_interrupt t = false /\ step t = MDone tt t1 /\ reaches t1 t'.
Proof. intros H. destruct H; [by left | right; eauto]. Qed.

Lemma always_ready_dec n : forall t, ready_along n t = true -> always_ready t.
Proof using Hpre.
  induction n as [|n IH]; intros t H t' Hr Hi; cbn [ready_along] in H; destruct (t_interrupt t) eqn:Ei; try done;
    (destruct (reaches_inv _ _ Hr) as [<-|(t1 & H1 & Hs & Hr1)]; [try congruence|try congruence]).
  - apply ready_dec. by apply andb_true_iff in H as [H _].
  - rewrite Hs in H. apply andb_true_iff in H as [_ H]. by apply (IH t1 H).
Qed.
End decide.

(** ** The whole loop *)

Lemma interpret_ok fuel t :
  machine_ok E t -> always_ready t ->
  match interpret fuel t with
  | MDone _ t' => machine_ok E t' \/ reported t'
  | MExit msg => exit_ok msg
  | MJump _ | MCrash | MLoop => False
  end.
Proof.
  intros Hm Ha. assert (H := run_ok fuel t Hm Ha). unfold wp in H. unfold interpret.
  destruct (run fuel t) as [b t'|msg| | |t'] eqn:Er; [by left | done | done | done|].
  destruct H as [[e He] Hpos]. destruct (handle_error_done t' e He Hpos) as (t2 & Ht & E1 & _ & _ & E4).
  unfold mbind, M_bind. rewrite Ht. right. split; [by eexists | done].
Qed.

(** ** The theorems *)

(** C12. One instruction of checked code is safe. The machine satisfies the
    invariant, no interrupt is pending, and the instruction is [ready]: if it is
    EVAL its slot does not hold a hole, and if it calls a built-in the
    arguments are what the function requires (for the functions on numbers and
    cells: the result is not minus infinity, and shift counts are from 0 to
    31). Then [step] leaves a machine that satisfies the invariant, records an
    error of the program on a machine that will report it, or ends the process
    with a message; it fails no assertion and dereferences no invalid
    pointer. *)
Theorem step_safe t : machine_ok E t -> t_interrupt t = false -> ready t -> wp step (fun _ t' => machine_ok E t') t.
Proof. apply step_ok. Qed.

(** C11. The main loop is safe on checked code, on a run whose instructions are
    all [ready] (EVAL meets no hole, and a built-in gets the arguments it
    requires) and whose built-ins keep the promise [BuiltinSafe]: for any number
    of instructions, it stays within the invariant until the first interrupt,
    where it stops, or reports an error of the program, or ends the process
    with a message. *)
Theorem interpret_safe fuel t :
  machine_ok E t -> always_ready t ->
  match interpret fuel t with
  | MDone _ t' => machine_ok E t' \/ reported t'
  | MExit msg => exit_ok msg
  | MJump _ | MCrash | MLoop => False
  end.
Proof. apply interpret_ok. Qed.
End safety.

(** ** A run *)

(** The factorial program, with the functions on numbers. *)
Definition factorial_funs : BuiltinFuns := with_modelled (fun _ _ _ => mret tt).

Definition safe_uses (prog : program) (T : typing) : bool :=
  forallb (fun '(pc, i) => match T !! pc with
                           | Some (Some _) => implb (bool_decide (i_opcode i = OP_BIF)) (safe_bif (Z.to_nat (i_arg0 i)))
                           | _ => true
                           end) (imap (fun pc i => (pc, i)) (instructions (p_comp prog))).

Lemma uses_safe E : safe_uses (e_prog E) (e_typing E) = true -> forall n, uses E n -> safe_bif n = true.
Proof.
  unfold safe_uses. intros H n (pc & i & pt & Hi & Ht & Hop & Hn). rewrite forallb_forall in H.
  specialize (H (pc, i)). unfold typing in *. rewrite Ht, Hop, Hn, Nat2Z.id in H. apply H, list_elem_of_In, elem_of_lookup_imap. by exists pc, i.
Qed.

Lemma factorial_started : exists E (Hcheck : checked_env E = true) (H : BuiltinSafe E factorial_funs) t,
  boot [] (task_zero 0 Factorial.prog 0) = MDone tt t /\ machine_ok E t /\ t_interrupt t = false /\ ready E factorial_funs t /\
  always_ready E factorial_funs t.
Proof.
  assert (Hb := wp_boot 0 Factorial.prog 0 Factorial.types [] Factorial.checked Factorial.starts ltac:(by apply Z.leb_le)).
  assert ((match boot [] (task_zero 0 Factorial.prog 0) with
           | MDone _ t => negb (t_interrupt t) && ready_b numbers_pre_b t && ready_along factorial_funs numbers_pre_b 200 t
           | _ => false end) = true) as H by (vm_compute; reflexivity).
  unfold wp in Hb. destruct (boot [] (task_zero 0 Factorial.prog 0)) as [[] t| | | |] eqn:Eb; [|done..].
  destruct Hb as (E & Ep & ET & Hcheck & Hm). rewrite !andb_true_iff, negb_true_iff in H. destruct H as ((H1 & H2) & H3).
  assert (forall n, uses E n -> safe_bif n = true) as Hu by (apply uses_safe; rewrite Ep, ET; vm_compute; reflexivity).
  exists E, Hcheck, (numbers_safe E _ Hcheck Hu), t. split_and!; [done..| |].
  - eapply ready_dec; [|exact H2]. exact numbers_pre_dec.
  - eapply always_ready_dec; [|exact H3]. exact numbers_pre_dec.
Qed.

Lemma step_safe_witness : exists E t, boot [] (task_zero 0 Factorial.prog 0) = MDone tt t /\ machine_ok E t /\
  wp (step (H := factorial_funs)) (fun _ t' => machine_ok E t') t.
Proof.
  destruct factorial_started as (E & Hcheck & H & t & Hb & Hm & Hi & Hr & _). exists E, t. split; [exact Hb|]. split; [exact Hm|].
  by apply (step_safe E Hcheck factorial_funs t).
Defined.

Lemma interpret_safe_witness : exists E t, boot [] (task_zero 0 Factorial.prog 0) = MDone tt t /\ machine_ok E t /\
  match interpret (H := factorial_funs) 200 t with
  | MDone _ t' => machine_ok E t' \/ reported t'
  | MExit msg => exit_ok msg
  | MJump _ | MCrash | MLoop => False
  end.
Proof.
  destruct factorial_started as (E & Hcheck & H & t & Hb & Hm & _ & _ & Ha). exists E, t. split; [exact Hb|]. split; [exact Hm|].
  by apply (interpret_safe E Hcheck factorial_funs 200 t).
Defined.
