(* ===== verification/EndToEnd.v ===== *)
(** * From source to a safe run

    The compiler and the runtime together: a source as the passes leave it is
    compiled to a program, the task that loads the program starts, and the
    interpreter runs it without failing an assertion or leaving its memory. *)

From S2P Require Import Prelude Builtins Source Resolve Bytecode StackDiscipline Schemes SchemeR Compile CompileFacts ProgramFacts Pointer Arith Memory Interpreter Boot Numbers Wp Typing MachineOk BootFacts NumbersFacts Safety SchemesTyped Blocks ProgramTyped Process BackEnd.

(** What the code cannot guarantee of the instruction at hand: EVAL does not
    meet a hole, and the arguments of a built-in are what it requires. *)
Definition numbers_ready (t : task) : Prop :=
  forall fr pc i, t_frames t !! t_run t = Some fr -> f_instr fr = Some pc -> instructions (p_comp (t_prog t)) !! Z.to_nat pc = Some i ->
    (i_opcode i = OP_EVAL -> forall v p, f_data fr !! Z.to_nat (i_arg0 i) = Some v ->
       resolve (size (t_heap t)) (t_heap t) v = Done p -> pntrtype (t_heap t) p <> Some CELL_HOLE) /\
    (i_opcode i = OP_BIF -> forall n b, i_arg0 i = Z.of_nat n -> builtin_info !! n = Some b ->
       numbers_pre n (t_heap t) (fun j => f_data fr !! Z.to_nat (i_expcount i - Z.of_nat (bi_nargs b) + j))).
Definition numbers_along (funs : BuiltinFuns) (t : task) : Prop :=
  forall t', reaches funs t t' -> t_interrupt t' = false -> numbers_ready t'.

(** How a run may end. *)
Definition safe_end (p : program) (r : mres bool) : Prop :=
  match r with
  | MDone _ t' => (exists E, e_prog E = p /\ machine_ok E t') \/ reported t'
  | MExit msg => exit_ok msg
  | MJump _ | MCrash | MLoop => False
  end.

Lemma typed_uses p T : (forall k i pt, instructions (p_comp p) !! k = Some i -> T !! k = Some (Some pt) -> i_opcode i = OP_BIF ->
    safe_bif (Z.to_nat (i_arg0 i)) = true) -> safe_uses p T = true.
Proof.
  intros H. unfold safe_uses. apply forallb_forall. intros [k i] Hin%list_elem_of_In%imap_pairs.
  destruct (T !! k) as [[pt|]|] eqn:Et; [|done..]. case_bool_decide as Ho; [|done]. cbn [implb]. by eapply H.
Qed.

Lemma run_compiled fuel mkfuel src p tid mh args other n :
  runnable safe_bif fuel mkfuel src -> compile_program fuel mkfuel src = Done p -> program_fits p = true ->
  (Z.of_nat (length args) <= MAX_ARRAY_SIZE)%Z ->
  wp (boot args) (fun _ t => numbers_along (with_modelled other) t -> safe_end p (interpret (H := with_modelled other) n t)) (task_zero tid p mh).
Proof.
  intros Hrun Hp Hfit Hargs. destruct (runnable_typed _ _ _ _ _ Hrun Hp Hfit) as (T & Hcheck & Hstart & Huses).
  eapply wp_mono; [by apply (wp_boot tid p mh T)|]. intros [] t (E & Ep & ET & HE & Hm) Hready.
  assert (forall b, uses E b -> safe_bif b = true) as Hu by (apply uses_safe; rewrite Ep, ET; by apply typed_uses).
  pose proof (@interpret_ok E HE (with_modelled other) (numbers_safe E other HE Hu) n t Hm Hready) as H.
  unfold safe_end. destruct (interpret n t); [|done..]. destruct H as [H|H]; [left; by exists E | by right].
Qed.

(** *** The sample program, with additions *)
Definition sample_compiled : program :=
  match compile_program 20 1 sample_program with Done p => p | _ => Program (Compilation [] [] None) [] 0 0 0 end.

Lemma sample_compiled_eq : compile_program 20 1 sample_program = Done sample_compiled.
Proof. unfold sample_compiled. by destruct sample_program_compiles as (p & -> & _). Qed.
Lemma sample_compiled_fits : program_fits sample_compiled = true.
Proof. vm_compute. reflexivity. Qed.

Lemma runnable_mono (al al' : nat -> bool) fuel mkfuel src : runnable al fuel mkfuel src -> typable al' src -> runnable al' fuel mkfuel src.
Proof. intros [H1 H2 H3 H4 _] H. by split. Qed.

Lemma sample_runnable : runnable safe_bif 20 1 sample_program.
Proof.
  eapply runnable_mono; [apply sample_program_runnable|]. destruct (rn_typable _ _ _ _ sample_program_runnable) as [H1 H2 H3].
  split; [|exact H2 | exact H3]. intros q sc body Hq Hs Hb. cbn in Hq. rewrite !elem_of_cons in Hq.
  destruct Hq as [->|[->|[->|Hq]]]; [injection Hs as <-; injection Hb as <-; reflexivity.. | by apply not_elem_of_nil in Hq].
Qed.

(** The task starts, and every instruction of its run is ready. *)
Lemma sample_started : exists t, boot ["x"] (task_zero 0 sample_compiled 0) = MDone tt t /\ numbers_along factorial_funs t.
Proof.
  destruct (runnable_typed _ _ _ _ _ sample_runnable sample_compiled_eq sample_compiled_fits) as (T & Hcheck & Hstart & Huses).
  assert (Hb := wp_boot 0 sample_compiled 0 T ["x"] Hcheck Hstart ltac:(by apply Z.leb_le)).
  assert ((match boot ["x"] (task_zero 0 sample_compiled 0) with
           | MDone _ t => ready_along factorial_funs numbers_pre_b 100 t | _ => false end) = true) as H by (vm_compute; reflexivity).
  unfold wp in Hb. destruct (boot ["x"] (task_zero 0 sample_compiled 0)) as [[] t| | | |]; [|done..].
  destruct Hb as (E & Ep & ET & HE & Hm). exists t. split; [done|].
  assert (forall b, uses E b -> safe_bif b = true) as Hu by (apply uses_safe; rewrite Ep, ET; by apply typed_uses).
  pose proof (numbers_safe E (fun _ _ _ => mret tt) HE Hu) as Hs.
  eapply (@always_ready_dec E factorial_funs (numbers_safe E _ HE Hu)); [exact numbers_pre_dec | exact H].
Qed.

(** *** A program that does not fit: [f a b ... b = seq a g], [g = nil], [h = f nil ... nil], [__start args = h]

    [a] is strict, so it is a value when [f] pushes it; the POP that [seq] has
    next is dropped by the optimiser, and no instruction is left that finds a
    stack as deep as the PUSH makes it. *)
Definition overflow_args : nat := 600.
Definition overflow_f : scomb :=
  Scomb "f" ("a" :: replicate (overflow_args - 1) "b")
    (Some (SNODE_APPLICATION nosl true (SNODE_APPLICATION nosl true (SNODE_BUILTIN nosl B_SEQ) (SNODE_SYMBOL nosl "a")) (SNODE_SCREF nosl 2)))
    0 (Some (true :: replicate (overflow_args - 1) false)) (Some (replicate overflow_args false)) nosl None false false None false.
Definition overflow_start : scomb :=
  Scomb "__start" ["args"] (Some (SNODE_SCREF nosl 3)) 1 (Some [false]) (Some [false]) nosl None false false None false.
Definition overflow_g : scomb := Scomb "g" [] (Some (SNODE_NIL nosl)) 2 (Some []) (Some []) nosl None false false None false.
Definition overflow_call : snode :=
  fold_left (fun c a => SNODE_APPLICATION nosl false c a) (replicate overflow_args (SNODE_NIL nosl)) (SNODE_SCREF nosl 0).
Definition overflow_h : scomb := Scomb "h" [] (Some overflow_call) 3 (Some []) (Some []) nosl None false false None false.
Definition overflow_program : source := source_of [overflow_f; overflow_start; overflow_g; overflow_h].

Lemma leaf_good src pm n c : match c with SNODE_SCREF _ _ | SNODE_NIL _ => True | _ => False end -> shape src c -> StackDiscipline.good src pm n c.
Proof.
  intros Hc Hs. split; [done|]. destruct c; try done; (split; [by intros x []|]; split; [constructor | cbn; in_nil]).
Qed.

Lemma overflow_live q : q ∈ src_scombs overflow_program <-> q < 4.
Proof. change (src_scombs overflow_program) with (seq 0 4). rewrite elem_of_seq. lia. Qed.

Lemma overflow_scref pm n sl q : q < 4 -> StackDiscipline.good overflow_program pm n (SNODE_SCREF sl q).
Proof.
  intros Hq. apply leaf_good; [done|]. split; [by apply overflow_live|].
  do 4 (destruct q as [|q]; [eexists; split; [reflexivity | lia]|]). lia.
Qed.

Lemma overflow_compilable q sc : src_heap overflow_program !! q = Some sc -> q < 4 -> compilable 3000 5 overflow_program q sc.
Proof.
  intros Hs Hq. split; [|do 4 (destruct q as [|q]; [injection Hs as <-; eexists; reflexivity|]); lia].
  destruct q as [|[|[|[|q]]]]; [..|lia]; injection Hs as <-; eexists _, _; (split; [split; try reflexivity | split]).
  - cbn [screfs app]. intros p ->%list_elem_of_singleton. apply overflow_live. lia.
  - apply rb_seq.
    + split; [done|]. split; [|split; [constructor | cbn; in_nil]]. intros x ->. exists 600%Z. split; [reflexivity | cbn; lia].
    + apply rb_leaf; [done | done | by apply overflow_scref; lia].
  - apply Nat.leb_le. reflexivity.
  - cbn [screfs app]. intros p ->%list_elem_of_singleton. apply overflow_live. lia.
  - apply rb_leaf; [done | done | by apply overflow_scref; lia].
  - apply Nat.leb_le. reflexivity.
  - cbn. in_nil.
  - apply rb_leaf; [done | done | by apply leaf_good].
  - apply Nat.leb_le. reflexivity.
  - assert (screfs overflow_call = [0]) as -> by (vm_compute; reflexivity).
    intros p ->%list_elem_of_singleton. apply overflow_live. lia.
  - apply rb_function.
    + split; [apply Nat.ltb_lt; reflexivity|].
      assert (spine_strict overflow_call = replicate overflow_args (SNODE_NIL nosl, false)) as -> by (vm_compute; reflexivity).
      apply Forall_replicate. by apply leaf_good.
    + assert (spine_head overflow_call = SNODE_SCREF nosl 0) as -> by (vm_compute; reflexivity).
      apply (overflow_scref [] 0 nosl 0). lia.
    + assert (spine_head overflow_call = SNODE_SCREF nosl 0) as -> by (vm_compute; reflexivity). done.
    + assert (item_literal overflow_program overflow_call = Done None) as -> by (vm_compute; reflexivity). done.
  - apply Nat.leb_le. vm_compute. reflexivity.
Qed.

Lemma overflow_runnable : runnable safe_bif 3000 5 overflow_program.
Proof.
  pose proof (fun q => proj1 (overflow_live q)) as Hq.
  assert (forall q, q < 4 -> exists sc, src_heap overflow_program !! q = Some sc) as Hs.
  { intros q Hl. do 4 (destruct q as [|q]; [eexists; reflexivity|]). lia. }
  split; [lia | apply NoDup_ListNoDup, seq_NoDup | | |].
  - intros q Hin. destruct (Hs q (Hq q Hin)) as [sc Hsc]. exists sc. apply overflow_compilable; auto.
  - exists 1, overflow_start. split; [reflexivity|]. split; [apply overflow_compilable; [reflexivity | lia] | reflexivity].
  - split.
    + intros q sc body Hin%Hq Hsc Hb. destruct q as [|[|[|[|q]]]]; [..|lia]; injection Hsc as <-; injection Hb as <-; vm_compute; reflexivity.
    + intros q sc Hin%Hq Hsc. destruct q as [|[|[|[|q]]]]; [..|lia]; injection Hsc as <-; reflexivity.
    + intros q sc Hin%Hq Hsc Hn. destruct q as [|[|[|[|q]]]]; [..|lia]; injection Hsc as <-; discriminate Hn.
Qed.

Definition overflow_run : outcome bool :=
  p ← compile_program 3000 5 overflow_program;
  match boot [] (task_zero 0 p 0) with
  | MDone _ t => Done (match interpret (H := factorial_funs) 2000 t with MCrash => true | _ => false end)
  | _ => Crash
  end.

(** *** A run that is not ready at every step: [__start args = + (/ (-1) 0) 1]

    The quotient is minus infinity, whose bits are those of a pointer to
    address 0. *)
Definition minus_start : scomb :=
  set_argnames ["args"] (set_body
    (apply (apply (SNODE_BUILTIN nosl B_ADD) (apply (apply (SNODE_BUILTIN nosl B_DIVIDE) (Factorial.number (-1))) (Factorial.number 0))) (Factorial.number 1)) (new_scomb "__start" 0)).
Definition minus_run : outcome bool :=
  src ← back_end usual (source_of [minus_start]);
  cassert (admissible safe_bif 1 src);;
  p ← compile_program (2 * tree_size src) 1 src;
  cassert (program_fits p);;
  match boot [] (task_zero 0 p 0) with
  | MDone _ t => Done (match interpret (H := factorial_funs) 100 t with MCrash => true | _ => false end)
  | _ => Crash
  end.

Example minus_infinity_crashes : minus_run = Done true.
Proof. vm_compute. reflexivity. Qed.

(** What the theorem leaves to test, on the sample. *)
Definition sample_lifted_test : bool :=
  match back_end usual sample_lifted with
  | Done src =>
      admissible safe_bif 1 src && (4 <? length (src_scombs src)) &&
      match compile_program (2 * tree_size src) 1 src with Done p => program_fits p | _ => false end
  | _ => false
  end.

(** ** Theorem *)

(** C1. From lambda lifting to the machine: the last passes of the compiler
    return for every program as lambda lifting leaves it, the bytecode compiler
    returns for what they make of it, if its constants, literals, names and
    built-ins (those of [safe_bif]) pass a decidable test. If no instruction of the bytecode leaves more on the stack
    than [program_fits] allows, the task that loads it starts, or memory is
    exhausted, and for any number of instructions up to the first interrupt no
    assertion of the runtime fails and no slot is read that is not in use, on a
    run where, at every instruction, EVAL meets no hole (a letrec variable that
    depends on itself), no number an operation gives is minus infinity and no
    count of a shift is outside 0 to 31 ([numbers_along]). *)
Theorem lifted_program_safe mkfuel opts src : disstrict opts = false -> wf_source src -> indexed src -> flags_fit src ->
  (forall p, p ∈ src_scombs src -> lifted src p) ->
  exists src', back_end opts src = Done src' /\
    (admissible safe_bif mkfuel src' = true ->
     exists p, compile_program (2 * tree_size src') mkfuel src' = Done p /\
       (program_fits p = true -> forall tid mh args other n, (Z.of_nat (length args) <= MAX_ARRAY_SIZE)%Z ->
        wp (boot args) (fun _ t => numbers_along (with_modelled other) t -> safe_end p (interpret (H := with_modelled other) n t))
          (task_zero tid p mh))).
Proof.
  intros Ho Hwf Hi Hf Hl. destruct (back_end_done opts src Ho Hwf Hi Hf Hl) as (src' & H & Han & _). exists src'. split; [exact H|].
  intros Had. pose proof (admissible_runnable _ _ _ Han Had) as Hrun. destruct (runnable_compiles _ _ _ _ Hrun) as [p Hp].
  exists p. split; [done|]. intros Hfit tid mh args other n. by eapply run_compiled.
Qed.

Lemma lifted_program_safe_witness : sample_lifted_test = true /\
  exists src', back_end usual sample_lifted = Done src' /\
    (admissible safe_bif 1 src' = true ->
     exists p, compile_program (2 * tree_size src') 1 src' = Done p /\
       (program_fits p = true -> forall tid mh args other n, (Z.of_nat (length args) <= MAX_ARRAY_SIZE)%Z ->
        wp (boot args) (fun _ t => numbers_along (with_modelled other) t -> safe_end p (interpret (H := with_modelled other) n t))
          (task_zero tid p mh))).
Proof.
  split; [vm_compute; reflexivity|]. destruct sample_lifted_ok as (H1 & H2 & H3 & H4). apply (lifted_program_safe 1 usual sample_lifted); done.
Defined.

(** C2. The compiler and the interpreter together are safe: compile a source as
    the passes leave it, which uses only the built-ins of [safe_bif], load the
    program, if it fits the stacks it declares ([program_fits]), into a task and
    run the interpreter for any number of instructions. The task starts, or
    memory is exhausted. If at every instruction of the run EVAL meets no hole,
    no number an operation gives is minus infinity and no count of a shift is
    outside 0 to 31 ([numbers_along]), the run gets to the first interrupt, or
    as far as one looks, within the invariant, or ends with an error of the
    program that is reported, or with a message: no assertion of the runtime
    fails, no slot is read that is not in use, and nothing is taken for a
    function, a value or a hole that is not. Neither condition can be dropped
    ([frame_overflow], [minus_infinity_crashes]). *)
Theorem compiled_program_safe fuel mkfuel src p tid mh args other n :
  runnable safe_bif fuel mkfuel src -> compile_program fuel mkfuel src = Done p -> program_fits p = true ->
  (Z.of_nat (length args) <= MAX_ARRAY_SIZE)%Z ->
  wp (boot args) (fun _ t => numbers_along (with_modelled other) t -> safe_end p (interpret (H := with_modelled other) n t)) (task_zero tid p mh).
Proof. apply run_compiled. Qed.

(** The sample program starts, is ready at every step, and is run. *)
Lemma compiled_program_safe_witness :
  (exists t, boot ["x"] (task_zero 0 sample_compiled 0) = MDone tt t /\ numbers_along factorial_funs t) /\
  wp (boot ["x"]) (fun _ t => numbers_along factorial_funs t -> safe_end sample_compiled (interpret (H := factorial_funs) 100 t))
    (task_zero 0 sample_compiled 0).
Proof.
  split; [apply sample_started|].
  apply (compiled_program_safe 20 1 sample_program sample_compiled 0 0 ["x"] (fun _ _ _ => mret tt) 100);
    [apply sample_runnable | apply sample_compiled_eq | apply sample_compiled_fits | by apply Z.leb_le].
Defined.

(** C33. The stack sizes can come out too small: here is a program, in the form
    the passes leave it, that is compiled, loaded and run, and the run fails. The
    deepest function of the program pushes a slot beyond the end of its frame,
    because the stack size of a function is the largest depth some instruction
    finds, the depth a PUSH leaves is only noted with the instruction after it,
    and the optimiser drops that one when it is a POP. *)
Theorem frame_overflow : runnable safe_bif 3000 5 overflow_program /\
  exists p t, compile_program 3000 5 overflow_program = Done p /\
    (exists i, i ∈ instructions (p_comp p) /\ i_opcode i = OP_PUSH /\ i_expcount i = max_stack (p_finfo p)) /\
    boot [] (task_zero 0 p 0) = MDone tt t /\ interpret (H := factorial_funs) 2000 t = MCrash.
Proof.
  split; [apply overflow_runnable|]. assert (overflow_run = Done true) as H by (vm_compute; reflexivity).
  assert (match compile_program 3000 5 overflow_program with
          | Done p => existsb (fun i => bool_decide (i_opcode i = OP_PUSH) && (i_expcount i =? max_stack (p_finfo p))%Z) (instructions (p_comp p))
          | _ => false end = true) as Hi by (vm_compute; reflexivity).
  unfold overflow_run in H. destruct (compile_program 3000 5 overflow_program) as [p| |]; [|done..]. cbn [mbind outcome_bind] in H.
  destruct (boot [] (task_zero 0 p 0)) as [[] t| | | |] eqn:Eb; [|done..]. exists p, t. split_and!; [done | | done |].
  - apply existsb_exists in Hi as (i & Hin & Hi). apply andb_true_iff in Hi as [H1 H2]. exists i.
    split; [by apply list_elem_of_In|]. apply bool_decide_eq_true in H1. apply Z.eqb_eq in H2. done.
  - destruct (interpret 2000 t); congruence || done.
Qed.
